(* ===== verification/_CoqProject ===== *)
-Q . S2P
Prelude.v
Parse.v
Utf8.v
MasterTypes.v
MasterCodec.v
MasterRoundtrip.v
MasterLimits.v
MasterRelay.v
MasterService.v
MasterServiceInv.v
MasterServiceSpec.v
MasterServiceProps.v
MasterServiceDelivery.v
MasterServiceMain.v
MasterServiceHazards.v
MasterServiceDemo.v
Budget.v
SessionTypes.v
HostMatch.v
HostMatchMain.v
ClientMatch.v
ClientMatchMain.v
Wire.v
FireVerdict.v
Reliable.v
ReliableSpec.v
ReliableLink.v
Fragment.v
Baseline.v
SegmentDelta.v
SegmentDeltaProofs.v
SegmentDeltaMain.v
MasterGate.v
ActionWire.v
EventWire.v
RowWire.v
RowWireMain.v
Protocol.v
ProtocolMain.v
Inbox.v
InboxMain.v
Actions.v
ActionsMain.v
Authority.v
AuthorityMain.v
ConfigStrings.v
Scoreboard.v
Fanout.v
Mailbox.v
Bootstrap.v
StructuredData.v
StructuredDataLayout.v
StructuredDataMain.v
StructuredDataWrite.v
PlayerDefaults.v
PersistentData.v
PersistentDataProofs.v
PersistentDataMain.v
Accounts.v
WireRecords.v
WorldObjects.v
SnapshotDelta.v
FrameWire.v
MetaClient.v
MetaEntities.v
MetaObjectives.v
SnapshotMeta.v
SessionHub.v
SessionHubInv.v
SessionHubMain.v
SnapshotFanout.v
SnapshotFanoutMain.v
SessionHistory.v
SessionDemo.v
SessionClient.v
SessionClientMain.v
SessionClientAccount.v
SessionLink.v
SessionLinkMain.v
FrameLink.v
