(* ===== verification/Prelude.v ===== *)
(** * Verification of the IW4L networking core

    IW4L plays one match between a host and its clients, who find each other through a master
    server.  This development models the parts that carry a match from one machine to another
    and decide what the host accepts: the master server and its protocol, the game transport, the
    host's sessions with its members and their accounts, the handling of a client's commands and
    requests on the host, the saved player data, and the state machines of a match on both sides.  File names below are relative to src/crates/.

    ** How the parts interact

    A client keeps a control stream to the master (messages of master_protocol/src/lib.rs): it
    creates, lists, joins and leaves rooms, and the master (iw4l-master/src/main.rs) pushes the
    room's view to the members and relays their datagrams to the host and back.  Inside a room
    host and client exchange game packets (net/src/transport/protocol.rs), cut into datagrams by
    transport/fragment.rs.  The client's packets carry commands, which wait in the command inbox
    (net/src/authority/inbox.rs), and requests, which wait in the action inbox and are admitted by
    the ledger (authority/actions.rs).  Once a frame the host gathers both, steps the simulation,
    and publishes the answer (authority/runtime.rs): snapshots, encoded against a baseline the
    client acknowledged (transport/acked_baseline.rs, segment_delta.rs), and rows that must arrive
    in order and once (transport/reliable.rs).  Between the relay and the frame stands the hub
    (transport/udp_session.rs): it seats the members of the room, offers each a first snapshot on
    the bootstrap lane (transport/bootstrap.rs), admits it when it answers, binds the account it
    proves (account_identity.rs, transport/account_wire.rs) to the saved player data
    (sim/src/persistent_data.rs), lets its packets through to the inboxes, and once a frame sends
    it a snapshot.  What a match is at all, who takes part and which
    world they loaded is decided by the two state machines of net/src/session_core.rs.

    ** Files

    Foundations.
    - Prelude: results, machine integers, lists.  Utf8: the UTF-8 part of the standard library.
    - Parse: parsers over a cursor, with the two judgements the codecs are proved in: [parses]
      (these bytes are read as this value) and [consumes] (what was read satisfies a relation).
    - Wire: [WireWriter], [WireReader] (net/src/transport/wire.rs) and the interface between an
      encoder and its decoder, the classes [WireCodec], [WireExact] and [PartialCodec]; the
      instances for rows, events, requests and results carry the proofs about packets.

    The master.
    - MasterTypes, MasterCodec: master_protocol/src/lib.rs.  MasterRoundtrip, MasterLimits: what is
      sent is read back, bytes that decode are the ones the encoder writes, decoded values obey the
      limits, what fits in a control message.  MasterRelay: relay datagrams.
    - MasterService, MasterServiceDelivery: [ServiceState] and every function under its lock in
      iw4l-master/src/main.rs; [step] is one critical section, with a transition for a handler that
      panics, since the mutex is not poisoned and the state it leaves lives on; it carries the set of
      the connections whose task ended so.  MasterServiceInv: the invariant, indexed by that set.
      MasterServiceSpec: the relation [change] of what a request may do, the specification that the
      handlers refine.
      MasterServiceProps, MasterServiceMain, MasterServiceHazards: the theorems;
      MasterServiceDemo: a concrete service they are applied to.
    - MasterGate: [RelayGate].  Budget: master_protocol/src/budget.rs.

    The transport.
    - Reliable, ReliableSpec, ReliableLink: the reliable rows from [ReliableEventQueue] over the
      control lane of udp_session.rs to [ReliableInbound::apply] of net/src/client/runtime.rs; the
      specification is "rows 1 to n, once and in order" and the link (loss, duplication, delay,
      any interleaving) is a step relation.
    - Fragment, Baseline, SegmentDelta(Proofs, Main): transport/fragment.rs, acked_baseline.rs, segment_delta.rs.
    - Protocol(Main): every packet and the handshake.  Its parts: FireVerdict for fire
      results (transport/fire_result.rs, client/fire_verdict.rs), ActionWire for requests,
      EventWire and RowWire(Main) for reliable rows (transport/meta_wire.rs, svc_*.rs).

    The host.
    - Inbox(Main): the command inbox.  Actions(Main): the ledger of requests and the action inbox.
    - Authority(Main): the frame, [gather_authority_input] to [retire_departed_peers].
    - Fanout: the queues of sounds, cards and notices and how a frame empties them into the
      reliable rows.  ConfigStrings: the numbers of sound names and HUD texts.
      Scoreboard: the scoreboard line from the host to the client's table.

    The snapshot of the game (net/src/transport/ delta.rs, netfields.rs, meta_wire.rs, world_sync.rs,
    world_object_wire.rs, frame.rs).
    - WireRecords: the values its parts share.  WorldObjects: the glass and the looping sounds of the
      map, in full or as a delta.  SnapshotDelta: players and projectiles against a baseline
      ([encode_player], [decode_player] over the registry [PS_NETFIELDS]), [SnapshotEncoder] and
      [SnapshotDecoder].
    - MetaClient, MetaEntities, MetaObjectives: the sections of the meta, each an encoder and its
      decoder with the decoder's checks (the free chain and the tree of the area sectors, the slots of
      the entity kernel, fog and earthquakes).  SnapshotMeta: the sections in the order of
      [encode_snapshot_meta_body], as an instance of the interface of FrameWire.
    - FrameWire: [Frame], its parts and its decoder by segments, for any meta that keeps the
      interface [MetaOps] with the laws [MetaLaws].  FrameLink: what the fanout builds for a peer, and
      the game between a host and a client.

    The sessions (net/src/transport/udp_session.rs and what it uses).
    - Mailbox: the queues shared with the relay task and the pace of the snapshots.
    - Bootstrap: the messages and the lane of bootstrap.rs.
    - Accounts: account_identity.rs and account_wire.rs.
    - SessionHub: [ConnectionTable] and [UdpAuthorityHub]; SnapshotFanout: its [fanout_with_seats].
      SessionHubInv: the invariant, the operations on members, and what an answer or an offer may
      change (relations that are preorders, so that loops are covered by transitivity);
      SessionHubMain: the theorems on packets; SnapshotFanoutMain: those on sending;
      SessionHistory: all operations in any order; SessionDemo: a small session they are applied to.
    - SessionClient: [UdpClientLink], the client's end, with local_account.rs.  SessionClientMain:
      its state through any operations, and what it sends; SessionClientAccount: the exchange of its
      account.  SessionLink, SessionLinkMain: host and client together.  The link is a step relation
      whose host does what [fanout_with_seats] and [ingress] do for one connection and whose client
      is [UdpClientLink]; the network loses, repeats, delays and reorders what is on its way.

    Saved player data.
    - StructuredData, StructuredData(Layout, Main, Write): structured_data_iw4/src/lib.rs.
    - PlayerDefaults: sim/src/persistent_defaults.rs.  PersistentData(Proofs, Main):
      sim/src/persistent_data.rs with skill_rating.rs.

    The match.
    - SessionTypes, HostMatch(Main), ClientMatch(Main): net/src/session_core.rs.

    ** What the theorems show

    - Codecs are inverse to each other in both directions where the code allows it, refuse what
      is malformed, and respect the limits ([decode_encode_control_frame], [decode_request_iff],
      [decode_control_frame_iff], [decode_relay_iff], [fire_results_exact],
      [client_packet_roundtrip], [server_packet_roundtrip], [scoreboard_roundtrip],
      [notices_are_sendable]).
    - The master: its three records of who is in which room agree in every reachable state, but for
      the seats of connections whose handler panicked, every request of an attached client is
      answered, a refusal changes nothing, rooms do not disturb each other, answers are true,
      publishes arrive, delivery ends.
    - The transport: fragments in any order give the packet; a client that has the baseline
      reconstructs the host's frame; the baseline is there; the game's reliable rows are applied at most
      once and in order, and all of them once the link delivers, but for those left out when the
      client stops in a packet, at a row that ends the connection or at a sound it cannot play yet.
    - The host: a command runs at most once, in order, and a due one runs; a request is shown to
      the simulation once, and is run or answered, or its connection is given up because a row was
      dropped; what is published goes to each client that must hear it and to no other, the
      scoreboard when it is due; a client in fault or gone leaves nothing behind.
    - The sessions: through every operation in any order a member has one connection and one
      client of its own, and an admission reported belongs to the member of its connection
      ([sessions_stay_consistent], [members_are_seated]); no packet speaks for another member
      ([packets_speak_for_their_sender]), none plays before admission and account or in another match
      ([gameplay_needs_admission]), an admission answers the peer's own offer
      ([admission_answers_own_offer]), an account is proved for the host's own challenge
      ([account_owner_was_proved], [proof_binds_challenge]); what the host sends a client is
      reconstructed by it from the frame it acknowledged ([sent_snapshot_is_reconstructed]).  A client keeps a sound state through
      any operations ([client_stays_sound]), sends its commands and requests once
      ([commands_go_out_once]) and proves only its own account ([client_account_is_its_own]).  Host
      and client together: every fanout of the hub is a step of the link ([fanout_refines_link]), the
      client always has the frame the host encodes against ([client_has_the_baseline]), so that the
      newest snapshots on their way can be applied ([current_snapshot_is_applied]).  The queues keep their budgets and
      the newest packets ([datagrams_keep_newest]), snapshots keep to their rate
      ([snapshots_keep_pace]), a match's offers do not leak into the next
      ([lane_keeps_matches_apart]).
    - The snapshot: the client's glass and sounds follow the host's through any updates
      ([world_objects_follow]); a frame, fresh or against the snapshot the client has, is read as it
      was built ([game_frame_is_read]); with the theorems on the link, a snapshot the host sends a
      client becomes a tick the client plays, with the players, projectiles, meta and map of the
      snapshot the host shows it ([game_reaches_client]).
    - Saved player data: validation ends and every path of a validated definition lies inside the
      buffer ([validation_terminates], [validated_fields_in_bounds]); what is written is read
      ([write_then_read], [written_field_is_read]); the store keeps its accounts, bindings and
      buffers consistent ([store_operations_safe]); what is marked saved is the current revision
      ([acknowledged_snapshot_is_current]).
    - The match: the host's invariant, bootstraps are flushed only to peers with the host's
      world, the newest room state wins in any order of delivery.
    - Where the code does not do this, a theorem says what it does instead: [room_list_capacity],
      [member_closes_host], [detached_join_leaves_ghost], [waiting_row_is_lost],
      [bootstrap_offer_travels].

    ** Modelling choices

    Integers are [Z] with wrap-around and saturation written out ([wrap16], [wrapping_add32],
    [i32_wrap], ...); bytes are [Byte.byte]; strings are their UTF-8 bytes; floats are their 32
    bits and are only compared, copied or classified.  Errors are values of [Result], a panic is
    [None] or an outcome with the state it leaves.  Hash maps are [gmap]s and the order in which a
    loop visits them is that of [map_to_list]; theorems hold for the resulting sets or per
    client.  A [BTreeMap] is a sorted list, or a [gmap] with its least key.  Locks are held from
    start to end of an operation, so an operation is one step.  Instants are nanoseconds.  Calls
    into code outside the repository are parameters with named hypotheses: zstd ([BulkCodec]),
    SHA-256 and Ed25519 (ring), the QUIC connection and its writer queue, random bytes, the parsing
    of floats.  The arithmetic of skill ratings, in floats, is a parameter too.  The hub and the
    client link are modelled over any encoding of a tick ([frame_for] of SnapshotFanout) and any
    reading of it ([decode_frame], [decode_snapshot] of SessionClient); the hypothesis [frame_codec] of
    SessionLink says that a frame is read with the snapshot it was built against, and [game_codec] of
    FrameLink proves it of the game's frames.  What a client is shown of a tick ([for_peer]) stays a
    parameter: it is the killcam policy.  On the link the numbers of the snapshots stay
    below 2^32 (twenty frames a second for six years) and every packet is of one match, as after the
    client's and the host's [reset_match].  The theorems on the game's frames and rows
    assume that the simulation gives well-formed data: integers of their wire width, lists and texts
    within their length fields, tables in the order of their keys.

    The structures of the snapshot that hold only numbers are lists of fields by a schema
    ([HUD_ELEM], [ENTITY_STATE], ...) that names them in the order of the wire; the others are records.
    Projectiles are compared as the code does, by the floats, so a client may keep the other sign of a
    zero.  Fields of entities, movers and corpses that are not sent are the defaults of the decoder.
    The fog's density is computed in binary32 with [SpecFloat].  The length of the map's objects is
    written in 16 bits: the theorems ask that panes and sounds take no more than 56000 bytes
    ([small_world]), about two thousand panes.

    Fuel: [forget_loop] has one unit per verdict and drops at most that many; [shed_loop] one per
    queued command; [boundary_below] 255, and a character has at most four bytes; [digits] ten,
    an [i32] has at most ten; [chunk_rows] the length of the list; [dispatch_publishes] the
    depth of its recursion, at most the number of peers, since each round takes one out
    ([dispatch_terminates]); [free_client] one more than there are clients taken, each turn meets
    another one ([free_client_free]); [layout_loop] the number of nodes and children, each entered
    once ([validation_terminates]); [search_loop] the length of the list, halved every turn; [lex]
    the length of the text, of which every turn takes a character ([commands_terminate]);
    [retain_loop] the number of kept frames, of which every turn drops one; [chunks_fuel] the length
    of the list.

    ** Not modelled

    Sockets, TLS, tasks and timers around the modelled operations; the simulation and the game's
    rules, which work on loaded game data in binary32 (here: any answer); the client's prediction;
    assets, rendering, sound, effects, user interface, launcher, updater and tools; signon.rs, the
    archive of snapshots, the killcam timeline. *)

From stdpp Require Export base tactics list countable gmap numbers option.
From Stdlib Require Export ZArith Lia.
From Stdlib Require Strings.Byte Strings.String.
Export String.StringSyntax.

#[global] Open Scope Z_scope.

(** ** Fallible computations: Rust's [Result<T, E>]. *)

Inductive Result (E A : Type) : Type :=
| Ok (a : A)
| Err (e : E).
Arguments Ok {E A} a.
Arguments Err {E A} e.

#[export] Instance result_ret (E : Type) : MRet (Result E) := fun A a => Ok a.
#[export] Instance result_bind (E : Type) : MBind (Result E) :=
  fun A B f m => match m with Ok a => f a | Err e => Err e end.
#[export] Instance result_fmap (E : Type) : FMap (Result E) :=
  fun A B f m => match m with Ok a => Ok (f a) | Err e => Err e end.

#[export] Instance result_eq_dec (E A : Type) `{EqDecision E} `{EqDecision A} :
  EqDecision (Result E A).
Proof. solve_decision. Defined.

Definition is_ok {E A : Type} (m : Result E A) : bool :=
  match m with Ok _ => true | Err _ => false end.

(** [Option::ok_or]. *)
Definition ok_or {E A : Type} (e : E) (o : option A) : Result E A :=
  match o with Some a => Ok a | None => Err e end.

(** Early [return Err(e)] behind a condition. *)
Definition fail_if {E : Type} (b : bool) (e : E) : Result E () :=
  if b then Err e else Ok ().

Lemma fail_if_ok {E} (b : bool) (e : E) x : fail_if b e = Ok x -> b = false.
Proof. by destruct b. Qed.

Lemma ok_inj {E A : Type} (a b : A) : @Ok E A a = Ok b -> a = b.
Proof. by intros [= ->]. Qed.

(** [Result] monad inversion: every step of an encoder that returned [Ok]. *)
Ltac ok_inv :=
  repeat match goal with
  | H : Ok _ = Ok _ |- _ => apply ok_inj in H
  | H : Err _ = Ok _ |- _ => discriminate H
  | H : mbind _ ?m = Ok _ |- _ =>
      let E := fresh "E" in
      destruct m eqn:E; cbn [mbind result_bind] in H; [|discriminate H]
  end; subst.

(** ** Machine integers: [Z] with the width written out. *)

Definition u8_max : Z := 255.
Definition u16_max : Z := 65535.
Definition u32_max : Z := 4294967295.
Definition u64_max : Z := 18446744073709551615.
Definition usize_max : Z := u64_max.
Definition isize_max : Z := 9223372036854775807.
Definition i32_min : Z := -2147483648.
Definition i32_max : Z := 2147483647.

Definition is_u8 (z : Z) : Prop := 0 <= z <= u8_max.
Definition is_u16 (z : Z) : Prop := 0 <= z <= u16_max.
Definition is_u32 (z : Z) : Prop := 0 <= z <= u32_max.
Definition is_u64 (z : Z) : Prop := 0 <= z <= u64_max.
Definition is_i32 (z : Z) : Prop := i32_min <= z <= i32_max.

Definition wrap8 (z : Z) : Z := z mod 2 ^ 8.
Definition wrap16 (z : Z) : Z := z mod 2 ^ 16.
Definition wrap32 (z : Z) : Z := z mod 2 ^ 32.
Definition wrap64 (z : Z) : Z := z mod 2 ^ 64.

Definition wrapping_add16 (a b : Z) : Z := wrap16 (a + b).
Definition wrapping_sub16 (a b : Z) : Z := wrap16 (a - b).
Definition wrapping_add32 (a b : Z) : Z := wrap32 (a + b).
Definition wrapping_sub32 (a b : Z) : Z := wrap32 (a - b).
Definition wrapping_add64 (a b : Z) : Z := wrap64 (a + b).
Definition saturating_add32 (a b : Z) : Z := Z.min u32_max (a + b).
Definition saturating_sub (a b : Z) : Z := Z.max 0 (a - b).
(** [i32] values: two's complement, arithmetic saturating or wrapping as in a release build. *)
Definition to_signed (bits v : Z) : Z := if v <? 2 ^ (bits - 1) then v else v - 2 ^ bits.
Definition sat32 (z : Z) : Z := Z.max i32_min (Z.min i32_max z).
Definition i32_wrap (z : Z) : Z := to_signed 32 (wrap32 z).
(** [usize::div_ceil]. *)
Definition div_ceil (a b : Z) : Z := (a + b - 1) / b.
Definition checked_mul_usize (a b : Z) : option Z :=
  if a * b <=? usize_max then Some (a * b) else None.
Definition checked_add_usize (a b : Z) : option Z :=
  if a + b <=? usize_max then Some (a + b) else None.

(** ** Bytes. *)

Abbreviation byte := Init.Byte.byte.

Definition byte_val (b : byte) : Z := Z.of_N (Byte.to_N b).
Definition byte_of (z : Z) : byte :=
  match Byte.of_N (Z.to_N (z mod 256)) with Some b => b | None => Byte.x00 end.

(** ASCII literals, Rust's [b"..."] and [str] constants. *)
Definition bs (s : String.string) : list byte := String.list_byte_of_string s.
Arguments bs s%_string_scope.

#[export] Instance byte_eq_dec : EqDecision byte := Byte.byte_eq_dec.

(** Lengths are [usize]: non-negative integers. *)
Definition zlen {A : Type} (l : list A) : Z := Z.of_nat (length l).

Definition zdrop {A : Type} (n : Z) (l : list A) : list A := drop (Z.to_nat n) l.
Definition ztake {A : Type} (n : Z) (l : list A) : list A := take (Z.to_nat n) l.

(** [&l[a..b]] for indices already checked to be in range. *)
Definition slice {A : Type} (l : list A) (a b : Z) : list A := ztake (b - a) (zdrop a l).

(** [to_le_bytes] / [from_le_bytes] of an [n]-byte integer, and the big-endian pair. *)
Fixpoint le_bytes (n : nat) (v : Z) : list byte :=
  match n with
  | O => []
  | S m => byte_of v :: le_bytes m (v / 256)
  end.

Fixpoint le_val (l : list byte) : Z :=
  match l with
  | [] => 0
  | b :: l' => byte_val b + 256 * le_val l'
  end.

Definition be_bytes (n : nat) (v : Z) : list byte := rev (le_bytes n v).
Definition be_val (l : list byte) : Z := le_val (rev l).

Definition bool_val (b : bool) : Z := if b then 1 else 0.

(** ** Generic lemmas. *)

Ltac unfold_int :=
  unfold is_u8, is_u16, is_u32, is_u64, is_i32, usize_max, u8_max, u16_max, u32_max,
    u64_max, isize_max, i32_min, i32_max, wrap8, wrap16, wrap32, wrap64,
    wrapping_add16, wrapping_sub16, wrapping_add32, wrapping_sub32, wrapping_add64, saturating_add32,
    saturating_sub in *.

(** Arithmetic on machine integers, with [div] and [mod] made linear. *)
Ltac ilia := unfold_int; Z.to_euclidean_division_equations; lia.

(** Decide the first [if] of the goal by arithmetic. *)
Ltac zif :=
  match goal with
  | |- context [if ?b then _ else _] =>
      lazymatch type of b with bool => idtac end;
      first [ replace b with true by (symmetry; ilia)
            | replace b with false by (symmetry; ilia) ]
  end; cbv iota.

(** Range side conditions: closed ones by computation, the others by arithmetic. *)
Ltac in_range := first [ assumption | vm_compute; split; congruence | ilia ].

Lemma byte_val_range b : 0 <= byte_val b <= 255.
Proof. unfold byte_val. pose proof (Byte.to_N_bounded b). lia. Qed.

Lemma byte_val_of z : byte_val (byte_of z) = z mod 256.
Proof.
  unfold byte_val, byte_of.
  destruct (Byte.of_N (Z.to_N (z mod 256))) as [b|] eqn:Hb.
  - apply Byte.to_of_N in Hb. rewrite Hb. rewrite Z2N.id; [done|].
    apply Z.mod_pos_bound. lia.
  - apply Byte.of_N_None_iff in Hb.
    pose proof (Z.mod_pos_bound z 256 ltac:(lia)). lia.
Qed.

Lemma byte_val_inj b1 b2 : byte_val b1 = byte_val b2 -> b1 = b2.
Proof.
  unfold byte_val. intros H%N2Z.inj.
  pose proof (Byte.of_to_N b1). pose proof (Byte.of_to_N b2). congruence.
Qed.

Lemma byte_of_val b : byte_of (byte_val b) = b.
Proof.
  apply byte_val_inj. rewrite byte_val_of.
  apply Z.mod_small. pose proof (byte_val_range b). lia.
Qed.

Lemma byte_val_of_small z : is_u8 z -> byte_val (byte_of z) = z.
Proof. intros H. rewrite byte_val_of. apply Z.mod_small. ilia. Qed.

#[export] Instance byte_countable : Countable byte :=
  inj_countable' byte_val byte_of byte_of_val.

Lemma length_le_bytes n v : length (le_bytes n v) = n.
Proof. revert v. induction n as [|n IH]; intros v; simpl; [done|by rewrite IH]. Qed.

Lemma length_be_bytes n v : length (be_bytes n v) = n.
Proof. unfold be_bytes. by rewrite length_rev, length_le_bytes. Qed.

Lemma le_val_range l : 0 <= le_val l < 256 ^ zlen l.
Proof.
  unfold zlen. induction l as [|b l IH]; simpl le_val; [simpl; lia|].
  simpl length. rewrite Nat2Z.inj_succ, Z.pow_succ_r by lia.
  pose proof (byte_val_range b). nia.
Qed.

Lemma le_val_bytes n v : 0 <= v < 256 ^ Z.of_nat n -> le_val (le_bytes n v) = v.
Proof.
  revert v. induction n as [|n IH]; intros v Hv.
  - simpl in *. lia.
  - rewrite Nat2Z.inj_succ, Z.pow_succ_r in Hv by lia. simpl.
    rewrite byte_val_of, IH.
    + pose proof (Z.div_mod v 256 ltac:(lia)). lia.
    + split; [apply Z.div_pos; lia|]. apply Z.div_lt_upper_bound; lia.
Qed.

Lemma le_bytes_val l : le_bytes (length l) (le_val l) = l.
Proof.
  induction l as [|b l IH]; simpl; [done|].
  pose proof (byte_val_range b).
  replace ((byte_val b + 256 * le_val l) / 256) with (le_val l).
  - rewrite IH. f_equal. apply byte_val_inj. rewrite byte_val_of.
    rewrite (Z.mul_comm 256), Z.mod_add by lia. apply Z.mod_small. lia.
  - rewrite (Z.mul_comm 256), Z.div_add by lia. rewrite (Z.div_small (byte_val b)); lia.
Qed.

Lemma be_val_bytes n v : 0 <= v < 256 ^ Z.of_nat n -> be_val (be_bytes n v) = v.
Proof. unfold be_val, be_bytes. rewrite rev_involutive. apply le_val_bytes. Qed.

Lemma be_bytes_val l : be_bytes (length l) (be_val l) = l.
Proof.
  unfold be_val, be_bytes. rewrite <- (length_rev l) at 1.
  by rewrite le_bytes_val, rev_involutive.
Qed.

Lemma be_val_range l : 0 <= be_val l < 256 ^ zlen l.
Proof. unfold be_val, zlen. rewrite <- length_rev. apply le_val_range. Qed.

Lemma le_bytes_1 v : le_bytes 1 v = [byte_of v].
Proof. done. Qed.

Lemma zlen_nonneg {A} (l : list A) : 0 <= zlen l.
Proof. unfold zlen. lia. Qed.

Lemma zlen_app {A} (l1 l2 : list A) : zlen (l1 ++ l2) = zlen l1 + zlen l2.
Proof. unfold zlen. rewrite length_app. lia. Qed.

Lemma zlen_nil {A} : zlen (@nil A) = 0.
Proof. done. Qed.

Lemma zlen_cons {A} (x : A) l : zlen (x :: l) = 1 + zlen l.
Proof. unfold zlen. simpl. lia. Qed.

Lemma zlen_snoc {A} (l : list A) x : zlen (l ++ [x]) = zlen l + 1.
Proof. rewrite zlen_app, zlen_cons. unfold zlen. cbn [length]. lia. Qed.

Lemma zlen_be_bytes n v : zlen (be_bytes n v) = Z.of_nat n.
Proof. unfold zlen. by rewrite length_be_bytes. Qed.

Lemma zlen_le_bytes n v : zlen (le_bytes n v) = Z.of_nat n.
Proof. unfold zlen. by rewrite length_le_bytes. Qed.

Create Rewrite HintDb zlen.
#[export] Hint Rewrite @zlen_app @zlen_nil @zlen_cons zlen_be_bytes zlen_le_bytes : zlen.

(** The bytes between two cursors of [pre ++ mid ++ post] are [mid]. *)
Lemma slice_mid {A} (pre mid post : list A) :
  slice (pre ++ mid ++ post) (zlen pre) (zlen pre + zlen mid) = mid.
Proof.
  unfold slice, ztake, zdrop, zlen.
  replace (Z.to_nat (Z.of_nat (length pre))) with (length pre) by lia.
  rewrite drop_app_length.
  replace (Z.to_nat _) with (length mid) by lia.
  by rewrite take_app_length.
Qed.

Lemma slice_at {A} (l pre mid post : list A) a b :
  l = pre ++ mid ++ post -> a = zlen pre -> b = zlen pre + zlen mid -> slice l a b = mid.
Proof. intros -> -> ->. apply slice_mid. Qed.

Lemma zdrop_at {A} (l pre post : list A) a :
  l = pre ++ post -> a = zlen pre -> zdrop a l = post.
Proof.
  intros -> ->. unfold zdrop, zlen. rewrite Nat2Z.id. apply drop_app_length.
Qed.

Lemma zlen_slice {A} (l : list A) a b :
  0 <= a <= b -> b <= zlen l -> zlen (slice l a b) = b - a.
Proof.
  unfold slice, ztake, zdrop, zlen. intros Ha Hb.
  rewrite length_take, length_drop. lia.
Qed.

Lemma slice_lookup {A} (l : list A) a b (i : nat) :
  0 <= a -> Z.of_nat i < b - a -> slice l a b !! i = l !! Z.to_nat (a + Z.of_nat i).
Proof.
  intros Ha Hi. unfold slice, ztake, zdrop. rewrite lookup_take_lt by lia.
  rewrite lookup_drop. f_equal. lia.
Qed.

Lemma filter_all {A} (P : A -> Prop) `{!forall x, Decision (P x)} (l : list A) :
  (forall x, x ∈ l -> P x) -> filter P l = l.
Proof.
  induction l as [|x l IH]; intros Hl; [done|]. rewrite filter_cons_True by (apply Hl; by left).
  f_equal. apply IH. intros y Hy. apply Hl. by right.
Qed.

Lemma filter_none {A} (P : A -> Prop) `{!forall x, Decision (P x)} (l : list A) :
  (forall x, x ∈ l -> ~ P x) -> filter P l = [].
Proof.
  induction l as [|x l IH]; intros Hl; [done|]. rewrite filter_cons_False by (apply Hl; by left).
  apply IH. intros y Hy. apply Hl. by right.
Qed.
