(* ===== verification/Parse.v ===== *)
(** * Cursor parsers

    Both wire readers of the code ([Reader] in crates/master_protocol/src/lib.rs and
    [WireReader] in crates/net/src/transport/wire.rs) are a byte slice with a cursor that
    only moves forward, threaded through [?].  This file holds that reader as a record, the
    parser monad over it, and two compositional judgements:

    - [parses p u x]: on any buffer holding [u] at the cursor, [p] returns [x] and stops
      right behind [u] (the direction encode-then-decode needs);
    - [consumes p Q]: whenever [p] succeeds, it used up a block [u] at the cursor with
      [Q x u] (the direction decode-then-encode needs). *)

From S2P Require Export Prelude.

Record Reader : Type := mkReader { rd_bytes : list byte; rd_cursor : Z }.

(** A decoding step: the reader goes in, the value and the advanced reader come out; an
    error drops the reader, as [?] does in every caller. *)
Definition Parser (E A : Type) : Type := Reader -> Result E (A * Reader).

#[export] Instance parser_ret (E : Type) : MRet (Parser E) := fun A x rd => Ok (x, rd).
#[export] Instance parser_bind (E : Type) : MBind (Parser E) :=
  fun A B k p rd => match p rd with Ok (x, rd') => k x rd' | Err e => Err e end.

(** A check or conversion that does not touch the reader. *)
Definition lift {E A} (r : Result E A) : Parser E A :=
  fun rd => match r with Ok x => Ok (x, rd) | Err e => Err e end.

(** [for _ in 0..n { v.push(p()?) }]. *)
Fixpoint parse_list {E A} (n : nat) (p : Parser E A) : Parser E (list A) :=
  match n with
  | O => mret []
  | S m => x ← p; xs ← parse_list m p; mret (x :: xs)
  end.

(** A slice never holds more than [isize::MAX] bytes. *)
Definition fits (l : list byte) : Prop := zlen l <= isize_max.

Definition parses {E A} (p : Parser E A) (used : list byte) (x : A) : Prop :=
  forall pre post, fits (pre ++ used ++ post) ->
    p (mkReader (pre ++ used ++ post) (zlen pre)) =
      Ok (x, mkReader (pre ++ used ++ post) (zlen pre + zlen used)).

Definition consumes {E A} (p : Parser E A) (Q : A -> list byte -> Prop) : Prop :=
  forall pre rest x rd', fits (pre ++ rest) ->
    p (mkReader (pre ++ rest) (zlen pre)) = Ok (x, rd') ->
    exists used post, rest = used ++ post /\
      rd' = mkReader (pre ++ rest) (zlen pre + zlen used) /\ Q x used.

Create HintDb parse.

Section combinators.
Context {E : Type}.

Lemma parses_ret {A} (x : A) : parses (mret x : Parser E A) [] x.
Proof. intros pre post _. unfold mret, parser_ret. by rewrite zlen_nil, Z.add_0_r. Qed.

Lemma parses_bind {A B} (p : Parser E A) (k : A -> Parser E B) u1 u2 x y :
  parses p u1 x -> parses (k x) u2 y -> parses (p ≫= k) (u1 ++ u2) y.
Proof.
  intros Hp Hk pre post Hfit.
  unfold mbind, parser_bind. rewrite <- app_assoc in *.
  rewrite Hp by done.
  specialize (Hk (pre ++ u1) post).
  rewrite zlen_app, <- !app_assoc in Hk. rewrite Hk by done.
  by rewrite zlen_app, Z.add_assoc.
Qed.

Lemma parses_lift {A B} (r : Result E A) (k : A -> Parser E B) u x y :
  r = Ok x -> parses (k x) u y -> parses (lift r ≫= k) u y.
Proof. intros -> Hk pre post Hfit. by apply Hk. Qed.

(** The last field of a message: nothing is read behind it. *)
Lemma parses_last {A B} (p : Parser E A) (f : A -> B) u x :
  parses p u x -> parses (p ≫= fun a => mret (f a)) u (f x).
Proof.
  intros Hp. rewrite <- (app_nil_r u).
  eapply parses_bind; [exact Hp|apply parses_ret].
Qed.

(** A read followed only by checks. *)
Lemma parses_end {A B} (p : Parser E A) (k : A -> Parser E B) u x y :
  parses p u x -> parses (k x) [] y -> parses (p ≫= k) u y.
Proof. intros Hp Hk. rewrite <- (app_nil_r u). by eapply parses_bind. Qed.

Lemma parses_list {A} (p : Parser E A) (enc : A -> list byte) (xs : list A) n :
  n = length xs -> (forall x, x ∈ xs -> parses p (enc x) x) ->
  parses (parse_list n p) (concat (map enc xs)) xs.
Proof.
  intros -> H. induction xs as [|x xs IH]; simpl.
  - apply parses_ret.
  - eapply parses_bind; [apply H; by left|].
    apply (parses_last _ (cons x)). apply IH. intros y Hy. apply H. by right.
Qed.

Lemma consumes_ret {A} (x : A) (Q : A -> list byte -> Prop) :
  Q x [] -> consumes (mret x : Parser E A) Q.
Proof.
  intros HQ pre rest y rd' _ H. injection H as <- <-.
  exists [], rest. rewrite zlen_nil. split_and!; [done| |done]. by rewrite Z.add_0_r.
Qed.

Lemma consumes_bind {A B} (p : Parser E A) (k : A -> Parser E B) Q1 (Q : B -> list byte -> Prop) :
  consumes p Q1 ->
  (forall x u1, Q1 x u1 -> consumes (k x) (fun y u2 => Q y (u1 ++ u2))) ->
  consumes (p ≫= k) Q.
Proof.
  intros Hp Hk pre rest y rd' Hfit H. unfold mbind, parser_bind in H.
  destruct (p _) as [[x rd1]|e] eqn:Hpx; [|done].
  destruct (Hp _ _ _ _ Hfit Hpx) as (u1 & post1 & -> & -> & HQ1).
  specialize (Hk _ _ HQ1 (pre ++ u1) post1 y rd').
  rewrite zlen_app, <- app_assoc in Hk.
  destruct (Hk Hfit H) as (u2 & post & -> & -> & HQ).
  exists (u1 ++ u2), post. rewrite zlen_app, <- app_assoc.
  split_and!; [done| |done]. by rewrite Z.add_assoc.
Qed.

Lemma consumes_lift {A B} (r : Result E A) (k : A -> Parser E B) (Q : B -> list byte -> Prop) :
  (forall x, r = Ok x -> consumes (k x) Q) -> consumes (lift r ≫= k) Q.
Proof.
  intros Hk pre rest y rd' Hfit H. unfold mbind, parser_bind, lift in H.
  destruct r as [x|e]; [|done]. eapply Hk; eauto.
Qed.

Lemma consumes_err {A} (e : E) (Q : A -> list byte -> Prop) : consumes (lift (Err e)) Q.
Proof. intros pre rest x rd' _ H. discriminate H. Qed.

Lemma consumes_weaken {A} (p : Parser E A) (Q Q' : A -> list byte -> Prop) :
  (forall x u, Q x u -> Q' x u) -> consumes p Q -> consumes p Q'.
Proof.
  intros HQ Hp pre rest x rd' Hfit H.
  destruct (Hp _ _ _ _ Hfit H) as (u & post & ? & ? & ?). eauto 10.
Qed.

Lemma consumes_list {A} (p : Parser E A) (Q : A -> list byte -> Prop) n :
  consumes p Q ->
  consumes (parse_list n p)
    (fun xs u => length xs = n /\ exists us, u = concat us /\ Forall2 Q xs us).
Proof.
  intros Hp. induction n as [|n IH]; simpl.
  - apply consumes_ret. split; [done|]. by exists [].
  - eapply consumes_bind; [exact Hp|]. intros x u1 H1.
    eapply consumes_bind; [exact IH|]. intros xs u2 (Hlen & us & -> & H2).
    apply consumes_ret. split; [simpl; by rewrite Hlen|].
    exists (u1 :: us). rewrite app_nil_r. split; [done|]. by constructor.
Qed.

(** Running a parser from the start of a buffer it must use up. *)
Lemma parses_whole {A} (p : Parser E A) u x :
  parses p u x -> fits u -> p (mkReader u 0) = Ok (x, mkReader u (zlen u)).
Proof.
  intros Hp Hfit. specialize (Hp [] []). simpl in Hp. rewrite app_nil_r in Hp.
  rewrite zlen_nil in Hp. by apply Hp.
Qed.

Lemma consumes_whole {A} (p : Parser E A) Q u x rd' :
  consumes p Q -> fits u -> p (mkReader u 0) = Ok (x, rd') -> rd_cursor rd' = zlen (rd_bytes rd') ->
  Q x u.
Proof.
  intros Hp Hfit H Hend. destruct (Hp [] u x rd') as (used & post & -> & -> & HQ); [done|done|].
  simpl in Hend. rewrite zlen_nil, zlen_app in Hend. pose proof (zlen_nonneg post).
  destruct post; [by rewrite app_nil_r|]. rewrite zlen_cons in Hend.
  pose proof (zlen_nonneg post). lia.
Qed.

End combinators.

#[export] Hint Resolve parses_ret : parse.
