(* ===== verification/Utf8.v ===== *)
(** * Strings

    A Rust [String] / [&str] is its UTF-8 bytes.  This file holds the part of the standard
    library the modelled code uses on strings: [str::from_utf8] (validation, so [utf8_valid]),
    [str::chars] ([utf8_decode]), [String: FromIterator<char>] ([utf8_encode]),
    [char::is_control], [char::is_whitespace] and [str::trim].  [utf8_encode] and
    [utf8_decode] are inverse to each other on scalar values. *)

From S2P Require Export Prelude.

(** Unicode scalar values, Rust's [char]. *)
Definition is_scalar (c : Z) : bool :=
  ((0 <=? c) && (c <? 0xD800)) || ((0xE000 <=? c) && (c <=? 0x10FFFF)).

Definition is_cont (b : Z) : bool := (0x80 <=? b) && (b <? 0xC0).

Definition encode_char (c : Z) : list byte :=
  if c <? 0x80 then [byte_of c]
  else if c <? 0x800 then [byte_of (0xC0 + c / 64); byte_of (0x80 + c mod 64)]
  else if c <? 0x10000 then
    [byte_of (0xE0 + c / 4096); byte_of (0x80 + (c / 64) mod 64); byte_of (0x80 + c mod 64)]
  else
    [byte_of (0xF0 + c / 262144); byte_of (0x80 + (c / 4096) mod 64);
     byte_of (0x80 + (c / 64) mod 64); byte_of (0x80 + c mod 64)].

Definition utf8_encode (cs : list Z) : list byte := concat (map encode_char cs).

(** Shortest-form decoding: overlong forms, surrogates and values past U+10FFFF fail. *)
Fixpoint utf8_decode (l : list byte) : option (list Z) :=
  match l with
  | [] => Some []
  | b0 :: r0 =>
      let v0 := byte_val b0 in
      if v0 <? 0x80 then cons v0 <$> utf8_decode r0
      else if v0 <? 0xC0 then None
      else if v0 <? 0xE0 then
        match r0 with
        | b1 :: r1 =>
            let c := (v0 - 0xC0) * 64 + (byte_val b1 - 0x80) in
            if is_cont (byte_val b1) && (0x80 <=? c) then cons c <$> utf8_decode r1 else None
        | _ => None
        end
      else if v0 <? 0xF0 then
        match r0 with
        | b1 :: b2 :: r2 =>
            let c := (v0 - 0xE0) * 4096 + (byte_val b1 - 0x80) * 64 + (byte_val b2 - 0x80) in
            if is_cont (byte_val b1) && is_cont (byte_val b2) && (0x800 <=? c) && is_scalar c
            then cons c <$> utf8_decode r2 else None
        | _ => None
        end
      else
        match r0 with
        | b1 :: b2 :: b3 :: r3 =>
            let c := (v0 - 0xF0) * 262144 + (byte_val b1 - 0x80) * 4096
                     + (byte_val b2 - 0x80) * 64 + (byte_val b3 - 0x80) in
            if is_cont (byte_val b1) && is_cont (byte_val b2) && is_cont (byte_val b3)
               && (0x10000 <=? c) && is_scalar c
            then cons c <$> utf8_decode r3 else None
        | _ => None
        end
  end.

(** [str::from_utf8(bytes).is_ok()]; a value of type [String] always satisfies it. *)
Definition utf8_valid (l : list byte) : bool :=
  match utf8_decode l with Some _ => true | None => false end.

(** [char::is_control]: general category Cc. *)
Definition is_control (c : Z) : bool :=
  ((0 <=? c) && (c <? 0x20)) || ((0x7F <=? c) && (c <=? 0x9F)).

(** [char::is_whitespace]: the White_Space property. *)
Definition is_whitespace (c : Z) : bool :=
  ((9 <=? c) && (c <=? 13)) || (c =? 0x20) || (c =? 0x85) || (c =? 0xA0) || (c =? 0x1680)
  || ((0x2000 <=? c) && (c <=? 0x200A)) || (c =? 0x2028) || (c =? 0x2029) || (c =? 0x202F)
  || (c =? 0x205F) || (c =? 0x3000).

Fixpoint drop_while {A} (f : A -> bool) (l : list A) : list A :=
  match l with
  | [] => []
  | x :: l' => if f x then drop_while f l' else l
  end.

Definition trim (cs : list Z) : list Z :=
  rev (drop_while is_whitespace (rev (drop_while is_whitespace cs))).

(** ** Facts *)

Lemma is_scalar_spec c :
  is_scalar c = true <-> (0 <= c < 0xD800 \/ 0xE000 <= c <= 0x10FFFF).
Proof. unfold is_scalar. lia. Qed.

Lemma is_cont_spec b : is_cont b = true <-> 0x80 <= b < 0xC0.
Proof. unfold is_cont. lia. Qed.

Lemma byte_of_small_val z : 0 <= z < 256 -> byte_val (byte_of z) = z.
Proof. intros. apply byte_val_of_small. ilia. Qed.

Lemma decode_encode_char c rest :
  is_scalar c = true -> utf8_decode (encode_char c ++ rest) = cons c <$> utf8_decode rest.
Proof.
  intros Hc%is_scalar_spec. unfold encode_char.
  destruct (Z.ltb_spec c 0x80);
    [|destruct (Z.ltb_spec c 0x800); [|destruct (Z.ltb_spec c 0x10000)]];
    cbn [app utf8_decode]; rewrite ?byte_of_small_val by ilia;
    unfold is_cont, is_scalar; repeat zif; f_equal; f_equal; ilia.
Qed.

Lemma decode_encode cs :
  Forall (fun c => is_scalar c = true) cs -> utf8_decode (utf8_encode cs) = Some cs.
Proof.
  unfold utf8_encode. induction 1 as [|c cs Hc _ IH]; [done|].
  cbn [map concat]. rewrite decode_encode_char by done. by rewrite IH.
Qed.

Lemma utf8_valid_encode cs :
  Forall (fun c => is_scalar c = true) cs -> utf8_valid (utf8_encode cs) = true.
Proof. intros H. unfold utf8_valid. by rewrite decode_encode. Qed.

Lemma byte_eq_of b z : byte_val b = z -> byte_of z = b.
Proof. intros <-. apply byte_of_val. Qed.

(** One decoding step inverts [encode_char]. *)
Ltac byte_ranges :=
  repeat match goal with
  | b : byte |- _ =>
      lazymatch goal with
      | _ : 0 <= byte_val b <= 255 |- _ => fail
      | _ => pose proof (byte_val_range b)
      end
  end.

Lemma utf8_decode_inv l cs :
  utf8_decode l = Some cs ->
  (l = [] /\ cs = []) \/
  exists c cs' r, cs = c :: cs' /\ is_scalar c = true /\ l = encode_char c ++ r /\
                  utf8_decode r = Some cs' /\ (length r < length l)%nat.
Proof.
  destruct l as [|b0 r0]; cbn [utf8_decode]; [intros [= <-]; by left|].
  intros H. right.
  repeat (case_match; try discriminate);
    repeat match goal with
    | H : _ && _ = true |- _ => apply andb_true_iff in H as [? ?]
    | H : is_cont _ = true |- _ => apply is_cont_spec in H
    end;
    apply fmap_Some in H as (cs' & Hcs & ->);
    eexists _, cs', _; (split; [reflexivity|]);
    byte_ranges;
    (split; [first [done | rewrite is_scalar_spec; lia]|]);
    (split; [|split; [exact Hcs|simpl; lia]]);
    unfold encode_char;
    repeat zif; cbn [app]; repeat f_equal; symmetry; apply byte_eq_of; ilia.
Qed.

Lemma encode_decode l cs :
  utf8_decode l = Some cs ->
  utf8_encode cs = l /\ Forall (fun c => is_scalar c = true) cs.
Proof.
  revert cs. induction l as [l IH] using (induction_ltof1 _ (@length byte)). unfold ltof in IH.
  intros cs H. apply utf8_decode_inv in H as [[-> ->]|(c & cs' & r & -> & Hc & -> & Hr & Hlt)].
  - done.
  - destruct (IH _ Hlt _ Hr) as [He Hall]. split; [|by constructor].
    unfold utf8_encode in *. simpl. by rewrite He.
Qed.

Lemma zlen_encode_char c : 1 <= zlen (encode_char c) <= 4.
Proof. unfold encode_char, zlen. repeat case_match; simpl; lia. Qed.

Lemma zlen_utf8_encode cs : zlen (utf8_encode cs) <= 4 * zlen cs.
Proof.
  unfold utf8_encode. induction cs as [|c cs IH]; simpl.
  - unfold zlen. simpl. lia.
  - rewrite zlen_app, zlen_cons. pose proof (zlen_encode_char c). lia.
Qed.

(** ** The order of byte arrays and strings *)

Fixpoint bytes_leb (a b : list byte) : bool :=
  match a, b with
  | [], _ => true
  | _ :: _, [] => false
  | x :: a', y :: b' =>
      (byte_val x <? byte_val y) || ((byte_val x =? byte_val y) && bytes_leb a' b')
  end.

Lemma bytes_leb_refl a : bytes_leb a a = true.
Proof. induction a as [|x a IH]; cbn; [done|]. rewrite IH. lia. Qed.

Lemma bytes_leb_total a b : bytes_leb a b = true \/ bytes_leb b a = true.
Proof.
  revert b. induction a as [|x a IH]; intros [|y b]; cbn; auto.
  destruct (IH b) as [H|H]; rewrite H; lia.
Qed.

Lemma bytes_leb_trans a b c : bytes_leb a b = true -> bytes_leb b c = true -> bytes_leb a c = true.
Proof.
  revert b c. induction a as [|x a IH]; intros [|y b] [|z c]; cbn; try done.
  rewrite !orb_true_iff, !andb_true_iff, !Z.ltb_lt, !Z.eqb_eq. intros [|[Hx Hab]] [|[Hy Hbc]].
  - left. lia. - left. lia. - left. lia. - right. split; [lia|]. eauto.
Qed.
