(* ===== verification/MasterTypes.v ===== *)
(** * Master protocol: data

    The types of crates/master_protocol/src/lib.rs: identifiers, content flags, the room
    view, adverts, request and response bodies, peer events, control frames, relay datagrams
    and the protocol error.  Enum constructors carry a prefix ([Req], [Resp], [Ev], [Svc],
    [Adm], ...) because Rocq has one name space for them; record fields carry the record's
    abbreviation.  The predicates [wf_*] are the Rust types themselves: integer widths,
    array lengths and UTF-8 strings. *)

From S2P Require Export Prelude Utf8.

Definition PROTOCOL_VERSION : Z := 10.
Definition MAX_CONTROL_BYTES : Z := 16 * 1024.
Definition MAX_OPAQUE_PAYLOAD : Z := 1100.
Definition MAX_BOOTSTRAP_PAYLOAD : Z := 256 * 1024.
Definition MAX_SESSION_MEMBERS : Z := 18.
Definition MAX_ADVERT_NAME_BYTES : Z := 48.
Definition MAX_MAP_BYTES : Z := 64.
Definition MAX_MODE_BYTES : Z := 24.
Definition MAX_BUILD_BYTES : Z := 64.
Definition MAX_PLAYER_NAME_BYTES : Z := 64.
Definition MAX_LIST_ADVERTS : Z := 128.
Definition MAX_PASSWORD_BYTES : Z := 64.

(** [id_type!]: 16-byte identifiers. *)
Record AdvertId : Type := mkAdvertId { advert_bytes : list byte }.
Record MemberId : Type := mkMemberId { member_bytes : list byte }.

#[export] Instance advert_id_eq_dec : EqDecision AdvertId.
Proof. solve_decision. Defined.
#[export] Instance member_id_eq_dec : EqDecision MemberId.
Proof. solve_decision. Defined.
#[export] Program Instance advert_id_countable : Countable AdvertId :=
  inj_countable' advert_bytes mkAdvertId _.
Next Obligation. by intros []. Qed.
#[export] Program Instance member_id_countable : Countable MemberId :=
  inj_countable' member_bytes mkMemberId _.
Next Obligation. by intros []. Qed.

(** [ContentFlags(pub u8)]. *)
Record ContentFlags : Type := mkFlags { flag_bits : Z }.

#[export] Instance content_flags_eq_dec : EqDecision ContentFlags.
Proof. solve_decision. Defined.

Definition IW4 : ContentFlags := mkFlags (Z.shiftl 1 0).
Definition IW5 : ContentFlags := mkFlags (Z.shiftl 1 1).
Definition T5 : ContentFlags := mkFlags (Z.shiftl 1 2).
Definition T6 : ContentFlags := mkFlags (Z.shiftl 1 3).
Definition KNOWN : ContentFlags :=
  mkFlags (Z.lor (Z.lor (Z.lor (flag_bits IW4) (flag_bits IW5)) (flag_bits T5)) (flag_bits T6)).

Definition FAMILIES : list (list byte * ContentFlags) :=
  [(bs "iw4", IW4); (bs "iw5", IW5); (bs "t5", T5); (bs "t6", T6)].

(** [into_iter().find_map(|(family, flag)| (family == name).then_some(flag))]. *)
Fixpoint find_family (l : list (list byte * ContentFlags)) (name : list byte)
    : option ContentFlags :=
  match l with
  | [] => None
  | (fam, flag) :: l' => if decide (fam = name) then Some flag else find_family l' name
  end.

Definition family (name : list byte) : option ContentFlags := find_family FAMILIES name.

(** [str::split_once(':')], the part before the first colon. *)
Fixpoint before_colon (l : list byte) : option (list byte) :=
  match l with
  | [] => None
  | b :: l' => if decide (b = Byte.x3a) then Some [] else cons b <$> before_colon l'
  end.

Definition map_family (map : list byte) : list byte :=
  match before_colon map with Some fam => fam | None => bs "iw4" end.

Definition for_map (map : list byte) : option ContentFlags := family (map_family map).

Definition flags_contains (self other : ContentFlags) : bool :=
  Z.land (flag_bits self) (flag_bits other) =? flag_bits other.

(** [self.0 & !have.0], the complement taken at 8 bits. *)
Definition missing_from (self have : ContentFlags) : ContentFlags :=
  mkFlags (Z.land (flag_bits self) (u8_max - flag_bits have)).

Definition flags_is_empty (self : ContentFlags) : bool := flag_bits self =? 0.

Inductive AdmissionFailure : Type :=
| AdmDeadline
| AdmCancelled
| AdmMapContent (host peer : Z)
| AdmWeaponRegistry (host peer : Z)
| AdmClassRegistry (host peer : Z).

Inductive EndpointRole : Type := RoleCli | RoleHost | RoleJoin.

Record ControlHello : Type := mkHello {
  hello_protocol_version : Z;
  hello_game_protocol : Z;
  hello_role : EndpointRole;
  hello_build : list byte;
  hello_player_name : list byte;
}.

Inductive RoomPhase : Type := Gathering | Loading | Running.

#[export] Instance room_phase_eq_dec : EqDecision RoomPhase.
Proof. solve_decision. Defined.

Definition in_match (p : RoomPhase) : bool :=
  match p with Gathering => false | _ => true end.

Record RoomView : Type := mkView {
  view_room_id : AdvertId;
  view_name : list byte;
  view_host : MemberId;
  view_members : list MemberId;
  view_member_names : gmap MemberId (list byte);
  view_map : list byte;
  view_mode : list byte;
  view_joinable : bool;
  view_revision : Z;
  view_epoch : Z;
  view_phase : RoomPhase;
  view_max_players : Z;
  view_requires : ContentFlags;
  view_available : ContentFlags;
  view_password_protected : bool;
}.

Record Advert : Type := mkAdvert {
  adv_id : AdvertId;
  adv_name : list byte;
  adv_map : list byte;
  adv_mode : list byte;
  adv_players : Z;
  adv_max_players : Z;
  adv_locked : bool;
  adv_in_match : bool;
  adv_requires : ContentFlags;
  adv_available : ContentFlags;
  adv_password_protected : bool;
  adv_generation : Z;
}.

(** [RoomView::advert]. *)
Definition view_advert (v : RoomView) : Advert := {|
  adv_id := view_room_id v;
  adv_name := default (view_name v) (view_member_names v !! view_host v);
  adv_map := view_map v;
  adv_mode := view_mode v;
  adv_players :=
    if zlen (view_members v) <=? u8_max then zlen (view_members v) else MAX_SESSION_MEMBERS;
  adv_max_players := view_max_players v;
  adv_locked := negb (view_joinable v);
  adv_in_match := in_match (view_phase v);
  adv_requires := view_requires v;
  adv_available := view_available v;
  adv_password_protected := view_password_protected v;
  adv_generation := view_revision v;
|}.

Definition request_join_allowed (locked : bool) : bool := negb locked.
Definition allows_join_request (a : Advert) : bool := request_join_allowed (adv_locked a).

Definition view_contains (v : RoomView) (m : MemberId) : bool :=
  existsb (fun id => bool_decide (id = m)) (view_members v).

Inductive RequestBody : Type :=
| ReqStatus
| ReqPopulation (online : bool)
| ReqCreateRoom (name map mode : list byte) (max_players : Z)
    (requires available : ContentFlags) (password : list byte)
| ReqJoinRoom (room_id : AdvertId) (have : ContentFlags) (password : list byte)
| ReqSetPassword (password : list byte)
| ReqLeaveRoom
| ReqSetOptions (map mode : list byte) (joinable : bool)
| ReqStartMatch (map mode : list byte)
| ReqEndMatch (room_id : AdvertId) (epoch : Z)
| ReqCloseRoom
| ReqListRooms
| ReqHostWorldReady (room_id : AdvertId) (epoch map weapons classes : Z)
| ReqMapLoaded (epoch map weapons classes : Z)
| ReqBootstrapApplied (epoch bootstrap_id snapshot_seq connection : Z)
| ReqEnterMatch (member_id : MemberId) (epoch bootstrap_id connection_id client_id : Z)
| ReqAdmissionFailed (member_id : MemberId) (epoch : Z) (reason : AdmissionFailure)
| ReqVoteToSkip.

Record ControlRequest : Type := mkRequest { req_id : Z; req_body : RequestBody }.

Record StatusResponse : Type := mkStatus {
  st_protocol_version : Z;
  st_max_opaque_payload : Z;
  st_max_session_members : Z;
}.

Definition status_current : StatusResponse :=
  mkStatus PROTOCOL_VERSION (wrap16 MAX_OPAQUE_PAYLOAD) MAX_SESSION_MEMBERS.

Inductive ServiceError : Type :=
| SvcMalformed
| SvcInvalidAdvert
| SvcAdvertCapacity
| SvcAlreadyHosting
| SvcUnknownAdvert
| SvcFull
| SvcLocked
| SvcIncorrectPassword
| SvcNotHost
| SvcNotMember
| SvcMissingContent (requires have : ContentFlags).

Inductive ResponseBody : Type :=
| RespStatus (status : StatusResponse)
| RespPopulation (players : Z)
| RespRoomCreated (member_id : MemberId) (view : RoomView)
| RespRoomJoined (member_id : MemberId) (view : RoomView)
| RespRoomLeft
| RespRoomUpdated (view : RoomView)
| RespRoomList (generation : Z) (adverts : list Advert)
| RespAck
| RespError (error : ServiceError).

Inductive SessionCloseReason : Type := HostLeft | LeaseExpired | Overload.

Record ControlResponse : Type := mkResponse { resp_id : Z; resp_body : ResponseBody }.

Inductive PeerEvent : Type :=
| EvHostWorldReady (epoch map weapons classes : Z)
| EvMapLoaded (member_id : MemberId) (epoch map weapons classes : Z)
| EvBootstrapApplied (member_id : MemberId) (epoch bootstrap_id snapshot_seq connection : Z)
| EvEnterMatch (member_id : MemberId) (epoch bootstrap_id connection_id client_id : Z)
| EvAdmissionFailed (member_id : MemberId) (epoch : Z) (reason : AdmissionFailure)
| EvVoteToSkip (member_id : MemberId).

Inductive ControlFrame : Type :=
| FrameRelay (bytes : list byte)
| FrameHello (hello : ControlHello)
| FrameRequest (request : ControlRequest)
| FrameResponse (response : ControlResponse)
| FrameRoomView (view : RoomView)
| FrameClosed (room_id : AdvertId) (epoch : Z) (reason : SessionCloseReason)
| FramePeerEvent (event : PeerEvent).

Inductive RelayDatagram : Type :=
| ClientToHost (payload : list byte)
| HostToMember (member_id : MemberId) (payload : list byte)
| ServiceToHost (member_id : MemberId) (payload : list byte)
| ServiceToMember (payload : list byte).

Inductive ProtocolError : Type :=
| PTruncated
| PBadMagic
| PVersionMismatch (ours theirs : Z)
| PUnknownTag (tag : Z)
| PLengthExceeded (len : Z)
| PLengthMismatch (declared actual : Z)
| PInvalidBody
| PInvalidUtf8
| PInvalidId.

#[export] Instance protocol_error_eq_dec : EqDecision ProtocolError.
Proof. solve_decision. Defined.
#[export] Instance service_error_eq_dec : EqDecision ServiceError.
Proof. solve_decision. Defined.

(** ** Well-typed values *)

Definition wf_advert_id (i : AdvertId) : Prop := zlen (advert_bytes i) = 16.
Definition wf_member_id (i : MemberId) : Prop := zlen (member_bytes i) = 16.
Definition wf_flags (f : ContentFlags) : Prop := is_u8 (flag_bits f).
Definition wf_string (s : list byte) : Prop := utf8_valid s = true.

Definition wf_reason (a : AdmissionFailure) : Prop :=
  match a with
  | AdmDeadline | AdmCancelled => True
  | AdmMapContent h p | AdmWeaponRegistry h p | AdmClassRegistry h p => is_u64 h /\ is_u64 p
  end.

Definition wf_hello (h : ControlHello) : Prop :=
  is_u16 (hello_protocol_version h) /\ is_u32 (hello_game_protocol h) /\
  wf_string (hello_build h) /\ wf_string (hello_player_name h).

Definition wf_view (v : RoomView) : Prop :=
  wf_advert_id (view_room_id v) /\ wf_member_id (view_host v) /\ is_u64 (view_revision v) /\
  is_u32 (view_epoch v) /\ is_u8 (view_max_players v) /\ wf_flags (view_requires v) /\
  wf_flags (view_available v) /\ wf_string (view_name v) /\ wf_string (view_map v) /\
  wf_string (view_mode v) /\ Forall wf_member_id (view_members v) /\
  map_Forall (fun _ s => wf_string s) (view_member_names v).

Definition wf_advert (a : Advert) : Prop :=
  wf_advert_id (adv_id a) /\ wf_string (adv_name a) /\ wf_string (adv_map a) /\
  wf_string (adv_mode a) /\ is_u8 (adv_players a) /\ is_u8 (adv_max_players a) /\
  wf_flags (adv_requires a) /\ wf_flags (adv_available a) /\ is_u64 (adv_generation a).

Definition wf_request_body (b : RequestBody) : Prop :=
  match b with
  | ReqStatus | ReqPopulation _ | ReqLeaveRoom | ReqCloseRoom | ReqListRooms
  | ReqVoteToSkip => True
  | ReqCreateRoom name map mode max_players requires available password =>
      wf_string name /\ wf_string map /\ wf_string mode /\ is_u8 max_players /\
      wf_flags requires /\ wf_flags available /\ wf_string password
  | ReqJoinRoom room_id have password => wf_advert_id room_id /\ wf_flags have /\ wf_string password
  | ReqSetPassword password => wf_string password
  | ReqSetOptions map mode _ => wf_string map /\ wf_string mode
  | ReqStartMatch map mode => wf_string map /\ wf_string mode
  | ReqEndMatch room_id epoch => wf_advert_id room_id /\ is_u32 epoch
  | ReqHostWorldReady room_id epoch map weapons classes =>
      wf_advert_id room_id /\ is_u32 epoch /\ is_u64 map /\ is_u64 weapons /\ is_u64 classes
  | ReqMapLoaded epoch map weapons classes =>
      is_u32 epoch /\ is_u64 map /\ is_u64 weapons /\ is_u64 classes
  | ReqBootstrapApplied epoch bootstrap_id snapshot_seq connection =>
      is_u32 epoch /\ is_u32 bootstrap_id /\ is_u32 snapshot_seq /\ is_u64 connection
  | ReqEnterMatch member_id epoch bootstrap_id connection_id client_id =>
      wf_member_id member_id /\ is_u32 epoch /\ is_u32 bootstrap_id /\ is_u64 connection_id /\
      is_u32 client_id
  | ReqAdmissionFailed member_id epoch reason =>
      wf_member_id member_id /\ is_u32 epoch /\ wf_reason reason
  end.

Definition wf_service_error (e : ServiceError) : Prop :=
  match e with SvcMissingContent r h => wf_flags r /\ wf_flags h | _ => True end.

Definition wf_response_body (b : ResponseBody) : Prop :=
  match b with
  | RespStatus s =>
      is_u16 (st_protocol_version s) /\ is_u16 (st_max_opaque_payload s) /\
      is_u8 (st_max_session_members s)
  | RespPopulation players => is_u32 players
  | RespRoomCreated m v | RespRoomJoined m v => wf_member_id m /\ wf_view v
  | RespRoomUpdated v => wf_view v
  | RespRoomList generation adverts => is_u64 generation /\ Forall wf_advert adverts
  | RespRoomLeft | RespAck => True
  | RespError e => wf_service_error e
  end.

Definition wf_peer_event (e : PeerEvent) : Prop :=
  match e with
  | EvHostWorldReady epoch map weapons classes =>
      is_u32 epoch /\ is_u64 map /\ is_u64 weapons /\ is_u64 classes
  | EvMapLoaded m epoch map weapons classes =>
      wf_member_id m /\ is_u32 epoch /\ is_u64 map /\ is_u64 weapons /\ is_u64 classes
  | EvBootstrapApplied m epoch b s c =>
      wf_member_id m /\ is_u32 epoch /\ is_u32 b /\ is_u32 s /\ is_u64 c
  | EvEnterMatch m epoch b c client =>
      wf_member_id m /\ is_u32 epoch /\ is_u32 b /\ is_u64 c /\ is_u32 client
  | EvAdmissionFailed m epoch reason => wf_member_id m /\ is_u32 epoch /\ wf_reason reason
  | EvVoteToSkip m => wf_member_id m
  end.

Definition wf_frame (f : ControlFrame) : Prop :=
  match f with
  | FrameRelay _ => True
  | FrameHello h => wf_hello h
  | FrameRequest r => is_u64 (req_id r) /\ wf_request_body (req_body r)
  | FrameResponse r => is_u64 (resp_id r) /\ wf_response_body (resp_body r)
  | FrameRoomView v => wf_view v
  | FrameClosed room_id epoch _ => wf_advert_id room_id /\ is_u32 epoch
  | FramePeerEvent e => wf_peer_event e
  end.

Definition wf_relay (d : RelayDatagram) : Prop :=
  match d with
  | HostToMember m _ | ServiceToHost m _ => wf_member_id m
  | ClientToHost _ | ServiceToMember _ => True
  end.
