(* ===== verification/MasterCodec.v ===== *)
(** * Master protocol: the wire codec

    The encoders and decoders of crates/master_protocol/src/lib.rs.  [Writer] only ever
    appends, so a [Writer] method is the block of bytes it appends and an encoder is the
    concatenation of its blocks in program order; [Reader] is the cursor of [Parse].  The
    definitions keep the order of the checks, so they return the error the code returns. *)

From S2P Require Export MasterTypes Parse.

Definition HEADER_BYTES : Z := 17.
Definition STREAM_LEN_BYTES : Z := 4.
Definition MAGIC : list byte := bs "IW4M".

Definition KIND_HELLO : Z := 0.
Definition KIND_REQUEST : Z := 1.
Definition KIND_RESPONSE : Z := 2.
Definition KIND_ROOM_VIEW : Z := 3.
Definition KIND_CLOSED : Z := 4.
Definition KIND_PEER_EVENT : Z := 5.
(** The relay kind is the literal [6] in the code. *)
Definition KIND_RELAY : Z := 6.

Definition TAG_STATUS : Z := 1.
Definition TAG_CREATE_ROOM : Z := 2.
Definition TAG_JOIN_ROOM : Z := 3.
Definition TAG_LEAVE_ROOM : Z := 4.
Definition TAG_SET_OPTIONS : Z := 5.
Definition TAG_START_MATCH : Z := 6.
Definition TAG_END_MATCH : Z := 7.
Definition TAG_CLOSE_ROOM : Z := 8.
Definition TAG_LIST_ROOMS : Z := 9.
Definition TAG_HOST_WORLD_READY : Z := 10.
Definition TAG_MAP_LOADED : Z := 11.
Definition TAG_BOOTSTRAP_APPLIED : Z := 12.
Definition TAG_ENTER_MATCH : Z := 13.
Definition TAG_VOTE_TO_SKIP : Z := 14.
Definition TAG_ADMISSION_FAILED : Z := 15.
Definition TAG_SET_PASSWORD : Z := 16.
Definition TAG_POPULATION : Z := 17.
Definition TAG_ERROR : Z := 127.

Definition EVENT_HOST_WORLD_READY : Z := 1.
Definition EVENT_MAP_LOADED : Z := 2.
Definition EVENT_BOOTSTRAP_APPLIED : Z := 3.
Definition EVENT_ENTER_MATCH : Z := 4.
Definition EVENT_VOTE_TO_SKIP : Z := 5.
Definition EVENT_ADMISSION_FAILED : Z := 6.

(** ** [Writer] *)

Definition w_u8 (v : Z) : list byte := [byte_of v].
Definition w_u16 (v : Z) : list byte := be_bytes 2 v.
Definition w_u32 (v : Z) : list byte := be_bytes 4 v.
Definition w_u64 (v : Z) : list byte := be_bytes 8 v.

Definition w_string (value : list byte) (max : Z) : Result ProtocolError (list byte) :=
  if (max <? zlen value) || (u8_max <? zlen value) then Err (PLengthExceeded (zlen value))
  else Ok (w_u8 (zlen value) ++ value).

(** ** [Reader] *)

Abbreviation MParser := (Parser ProtocolError).

Definition r_take (n : Z) : MParser (list byte) := fun rd =>
  match checked_add_usize (rd_cursor rd) n with
  | Some e =>
      if e <=? zlen (rd_bytes rd)
      then Ok (slice (rd_bytes rd) (rd_cursor rd) e, mkReader (rd_bytes rd) e)
      else Err PTruncated
  | None => Err PTruncated
  end.

Definition r_array (n : Z) : MParser (list byte) :=
  bytes ← r_take n;
  lift (if zlen bytes =? n then Ok bytes else Err PTruncated).

(** [Ok(self.take(1)?[0])]. *)
Definition r_u8 : MParser Z :=
  bytes ← r_take 1;
  mret (match bytes with b :: _ => byte_val b | [] => 0 end).
Definition r_u16 : MParser Z := bytes ← r_array 2; mret (be_val bytes).
Definition r_u32 : MParser Z := bytes ← r_array 4; mret (be_val bytes).
Definition r_u64 : MParser Z := bytes ← r_array 8; mret (be_val bytes).

Definition r_string (max : Z) : MParser (list byte) :=
  len ← r_u8;
  _ ← lift (fail_if (max <? len) (PLengthExceeded len));
  value ← r_take len;
  lift (if utf8_valid value then Ok value else Err PInvalidUtf8).

Definition r_finish : MParser () := fun rd =>
  if rd_cursor rd =? zlen (rd_bytes rd) then Ok ((), rd) else Err PInvalidBody.

Definition bool_byte (value : Z) : Result ProtocolError bool :=
  if value =? 0 then Ok false else if value =? 1 then Ok true else Err PInvalidBody.

Definition r_bool : MParser bool := v ← r_u8; lift (bool_byte v).
Definition r_advert_id : MParser AdvertId := b ← r_array 16; mret (mkAdvertId b).
Definition r_member_id : MParser MemberId := b ← r_array 16; mret (mkMemberId b).
Definition r_flags : MParser ContentFlags := b ← r_u8; mret (mkFlags b).

(** ** Validation shared by both directions *)

Definition is_empty (s : list byte) : bool := zlen s =? 0.

Definition validate_map_mode (map mode : list byte) : Result ProtocolError () :=
  fail_if (is_empty map || (MAX_MAP_BYTES <? zlen map) || is_empty mode ||
           (MAX_MODE_BYTES <? zlen mode)) PInvalidBody.

Definition validate_advert (name map mode : list byte) (max_players : Z)
    : Result ProtocolError () :=
  fail_if (is_empty name || (MAX_ADVERT_NAME_BYTES <? zlen name) || is_empty map ||
           (MAX_MAP_BYTES <? zlen map) || is_empty mode || (MAX_MODE_BYTES <? zlen mode) ||
           negb ((2 <=? max_players) && (max_players <=? MAX_SESSION_MEMBERS))) PInvalidBody.

(** ** Small enums *)

Definition role_wire (r : EndpointRole) : Z :=
  match r with RoleCli => 0 | RoleHost => 1 | RoleJoin => 2 end.

Definition role_from_wire (v : Z) : Result ProtocolError EndpointRole :=
  if v =? 0 then Ok RoleCli else if v =? 1 then Ok RoleHost
  else if v =? 2 then Ok RoleJoin else Err PInvalidBody.

Definition phase_wire (p : RoomPhase) : Z :=
  match p with Gathering => 0 | Loading => 1 | Running => 2 end.

Definition phase_from_wire (v : Z) : Result ProtocolError RoomPhase :=
  if v =? 0 then Ok Gathering else if v =? 1 then Ok Loading
  else if v =? 2 then Ok Running else Err PInvalidBody.

Definition close_wire (r : SessionCloseReason) : Z :=
  match r with HostLeft => 0 | LeaseExpired => 1 | Overload => 2 end.

Definition close_from_wire (v : Z) : Result ProtocolError SessionCloseReason :=
  if v =? 0 then Ok HostLeft else if v =? 1 then Ok LeaseExpired
  else if v =? 2 then Ok Overload else Err PInvalidBody.

Definition encode_admission_failure (a : AdmissionFailure) : list byte :=
  match a with
  | AdmDeadline => w_u8 1
  | AdmCancelled => w_u8 2
  | AdmMapContent host peer => w_u8 3 ++ w_u64 host ++ w_u64 peer
  | AdmWeaponRegistry host peer => w_u8 4 ++ w_u64 host ++ w_u64 peer
  | AdmClassRegistry host peer => w_u8 5 ++ w_u64 host ++ w_u64 peer
  end.

Definition decode_admission_failure : MParser AdmissionFailure :=
  tag ← r_u8;
  if tag =? 1 then mret AdmDeadline
  else if tag =? 2 then mret AdmCancelled
  else if tag =? 3 then host ← r_u64; peer ← r_u64; mret (AdmMapContent host peer)
  else if tag =? 4 then host ← r_u64; peer ← r_u64; mret (AdmWeaponRegistry host peer)
  else if tag =? 5 then host ← r_u64; peer ← r_u64; mret (AdmClassRegistry host peer)
  else lift (Err PInvalidBody).

Definition service_error_write (e : ServiceError) : list byte :=
  match e with
  | SvcMalformed => w_u8 1
  | SvcInvalidAdvert => w_u8 2
  | SvcAdvertCapacity => w_u8 3
  | SvcAlreadyHosting => w_u8 4
  | SvcUnknownAdvert => w_u8 5
  | SvcFull => w_u8 7
  | SvcLocked => w_u8 8
  | SvcIncorrectPassword => w_u8 15
  | SvcNotHost => w_u8 11
  | SvcNotMember => w_u8 13
  | SvcMissingContent requires have =>
      w_u8 14 ++ w_u8 (flag_bits requires) ++ w_u8 (flag_bits have)
  end.

Definition service_error_from_reader : MParser ServiceError :=
  value ← r_u8;
  if value =? 1 then mret SvcMalformed
  else if value =? 2 then mret SvcInvalidAdvert
  else if value =? 3 then mret SvcAdvertCapacity
  else if value =? 4 then mret SvcAlreadyHosting
  else if value =? 5 then mret SvcUnknownAdvert
  else if value =? 7 then mret SvcFull
  else if value =? 8 then mret SvcLocked
  else if value =? 15 then mret SvcIncorrectPassword
  else if value =? 11 then mret SvcNotHost
  else if value =? 13 then mret SvcNotMember
  else if value =? 14 then
    requires ← r_flags; have ← r_flags; mret (SvcMissingContent requires have)
  else lift (Err PInvalidBody).

(** ** Request bodies *)

Definition encode_request_body (body : RequestBody) : Result ProtocolError (list byte) :=
  match body with
  | ReqStatus => Ok (w_u8 TAG_STATUS)
  | ReqPopulation online => Ok (w_u8 TAG_POPULATION ++ w_u8 (bool_val online))
  | ReqCreateRoom name map mode max_players requires available password =>
      _ ← validate_advert name map mode max_players;
      name_b ← w_string name MAX_ADVERT_NAME_BYTES;
      map_b ← w_string map MAX_MAP_BYTES;
      mode_b ← w_string mode MAX_MODE_BYTES;
      password_b ← w_string password MAX_PASSWORD_BYTES;
      Ok (w_u8 TAG_CREATE_ROOM ++ name_b ++ map_b ++ mode_b ++ w_u8 max_players
          ++ w_u8 (flag_bits requires) ++ w_u8 (flag_bits available) ++ password_b)
  | ReqJoinRoom room_id have password =>
      password_b ← w_string password MAX_PASSWORD_BYTES;
      Ok (w_u8 TAG_JOIN_ROOM ++ advert_bytes room_id ++ w_u8 (flag_bits have) ++ password_b)
  | ReqSetPassword password =>
      password_b ← w_string password MAX_PASSWORD_BYTES;
      Ok (w_u8 TAG_SET_PASSWORD ++ password_b)
  | ReqLeaveRoom => Ok (w_u8 TAG_LEAVE_ROOM)
  | ReqSetOptions map mode joinable =>
      _ ← validate_map_mode map mode;
      map_b ← w_string map MAX_MAP_BYTES;
      mode_b ← w_string mode MAX_MODE_BYTES;
      Ok (w_u8 TAG_SET_OPTIONS ++ map_b ++ mode_b ++ w_u8 (bool_val joinable))
  | ReqStartMatch map mode =>
      _ ← validate_map_mode map mode;
      map_b ← w_string map MAX_MAP_BYTES;
      mode_b ← w_string mode MAX_MODE_BYTES;
      Ok (w_u8 TAG_START_MATCH ++ map_b ++ mode_b)
  | ReqEndMatch room_id epoch => Ok (w_u8 TAG_END_MATCH ++ advert_bytes room_id ++ w_u32 epoch)
  | ReqCloseRoom => Ok (w_u8 TAG_CLOSE_ROOM)
  | ReqListRooms => Ok (w_u8 TAG_LIST_ROOMS)
  | ReqHostWorldReady room_id epoch map weapons classes =>
      Ok (w_u8 TAG_HOST_WORLD_READY ++ advert_bytes room_id ++ w_u32 epoch ++ w_u64 map
          ++ w_u64 weapons ++ w_u64 classes)
  | ReqMapLoaded epoch map weapons classes =>
      Ok (w_u8 TAG_MAP_LOADED ++ w_u32 epoch ++ w_u64 map ++ w_u64 weapons ++ w_u64 classes)
  | ReqBootstrapApplied epoch bootstrap_id snapshot_seq connection =>
      Ok (w_u8 TAG_BOOTSTRAP_APPLIED ++ w_u32 epoch ++ w_u32 bootstrap_id
          ++ w_u32 snapshot_seq ++ w_u64 connection)
  | ReqEnterMatch member_id epoch bootstrap_id connection_id client_id =>
      Ok (w_u8 TAG_ENTER_MATCH ++ member_bytes member_id ++ w_u32 epoch ++ w_u32 bootstrap_id
          ++ w_u64 connection_id ++ w_u32 client_id)
  | ReqAdmissionFailed member_id epoch reason =>
      Ok (w_u8 TAG_ADMISSION_FAILED ++ member_bytes member_id ++ w_u32 epoch
          ++ encode_admission_failure reason)
  | ReqVoteToSkip => Ok (w_u8 TAG_VOTE_TO_SKIP)
  end.

Definition decode_request_body : MParser RequestBody :=
  tag ← r_u8;
  if tag =? TAG_STATUS then mret ReqStatus
  else if tag =? TAG_POPULATION then online ← r_bool; mret (ReqPopulation online)
  else if tag =? TAG_CREATE_ROOM then
    name ← r_string MAX_ADVERT_NAME_BYTES;
    map ← r_string MAX_MAP_BYTES;
    mode ← r_string MAX_MODE_BYTES;
    max_players ← r_u8;
    requires ← r_flags;
    available ← r_flags;
    password ← r_string MAX_PASSWORD_BYTES;
    _ ← lift (validate_advert name map mode max_players);
    mret (ReqCreateRoom name map mode max_players requires available password)
  else if tag =? TAG_JOIN_ROOM then
    room_id ← r_advert_id;
    have ← r_flags;
    password ← r_string MAX_PASSWORD_BYTES;
    mret (ReqJoinRoom room_id have password)
  else if tag =? TAG_SET_PASSWORD then
    password ← r_string MAX_PASSWORD_BYTES; mret (ReqSetPassword password)
  else if tag =? TAG_LEAVE_ROOM then mret ReqLeaveRoom
  else if tag =? TAG_SET_OPTIONS then
    map ← r_string MAX_MAP_BYTES;
    mode ← r_string MAX_MODE_BYTES;
    joinable ← r_bool;
    _ ← lift (validate_map_mode map mode);
    mret (ReqSetOptions map mode joinable)
  else if tag =? TAG_START_MATCH then
    map ← r_string MAX_MAP_BYTES;
    mode ← r_string MAX_MODE_BYTES;
    _ ← lift (validate_map_mode map mode);
    mret (ReqStartMatch map mode)
  else if tag =? TAG_END_MATCH then
    room_id ← r_advert_id; epoch ← r_u32; mret (ReqEndMatch room_id epoch)
  else if tag =? TAG_CLOSE_ROOM then mret ReqCloseRoom
  else if tag =? TAG_LIST_ROOMS then mret ReqListRooms
  else if tag =? TAG_HOST_WORLD_READY then
    room_id ← r_advert_id; epoch ← r_u32; map ← r_u64; weapons ← r_u64; classes ← r_u64;
    mret (ReqHostWorldReady room_id epoch map weapons classes)
  else if tag =? TAG_MAP_LOADED then
    epoch ← r_u32; map ← r_u64; weapons ← r_u64; classes ← r_u64;
    mret (ReqMapLoaded epoch map weapons classes)
  else if tag =? TAG_BOOTSTRAP_APPLIED then
    epoch ← r_u32; bootstrap_id ← r_u32; snapshot_seq ← r_u32; connection ← r_u64;
    mret (ReqBootstrapApplied epoch bootstrap_id snapshot_seq connection)
  else if tag =? TAG_ENTER_MATCH then
    member_id ← r_member_id; epoch ← r_u32; bootstrap_id ← r_u32; connection_id ← r_u64;
    client_id ← r_u32;
    mret (ReqEnterMatch member_id epoch bootstrap_id connection_id client_id)
  else if tag =? TAG_ADMISSION_FAILED then
    member_id ← r_member_id; epoch ← r_u32; reason ← decode_admission_failure;
    mret (ReqAdmissionFailed member_id epoch reason)
  else if tag =? TAG_VOTE_TO_SKIP then mret ReqVoteToSkip
  else lift (Err (PUnknownTag tag)).

(** ** Room views *)

(** [view.member_names.get(member).map_or("Player", String::as_str)]. *)
Definition member_name (names : gmap MemberId (list byte)) (m : MemberId) : list byte :=
  default (bs "Player") (names !! m).

Fixpoint encode_members (names : gmap MemberId (list byte)) (members : list MemberId)
    : Result ProtocolError (list byte) :=
  match members with
  | [] => Ok []
  | m :: ms =>
      name_b ← w_string (member_name names m) MAX_PLAYER_NAME_BYTES;
      rest ← encode_members names ms;
      Ok (member_bytes m ++ name_b ++ rest)
  end.

Definition encode_room_view (v : RoomView) : Result ProtocolError (list byte) :=
  _ ← fail_if (MAX_SESSION_MEMBERS <? zlen (view_members v))
        (PLengthExceeded (zlen (view_members v)));
  _ ← validate_advert (view_name v) (view_map v) (view_mode v) (view_max_players v);
  name_b ← w_string (view_name v) MAX_ADVERT_NAME_BYTES;
  map_b ← w_string (view_map v) MAX_MAP_BYTES;
  mode_b ← w_string (view_mode v) MAX_MODE_BYTES;
  members_b ← encode_members (view_member_names v) (view_members v);
  Ok (advert_bytes (view_room_id v) ++ member_bytes (view_host v) ++ w_u64 (view_revision v)
      ++ w_u32 (view_epoch v) ++ w_u8 (phase_wire (view_phase v))
      ++ w_u8 (bool_val (view_joinable v)) ++ w_u8 (view_max_players v)
      ++ w_u8 (flag_bits (view_requires v)) ++ w_u8 (flag_bits (view_available v))
      ++ w_u8 (bool_val (view_password_protected v)) ++ name_b ++ map_b ++ mode_b
      ++ w_u8 (zlen (view_members v)) ++ members_b).

Definition decode_member : MParser (MemberId * list byte) :=
  member ← r_member_id; name ← r_string MAX_PLAYER_NAME_BYTES; mret (member, name).

(** The [member_names.insert] calls of the loop, in order. *)
Definition insert_names (rows : list (MemberId * list byte)) : gmap MemberId (list byte) :=
  fold_left (fun names row => <[row.1 := row.2]> names) rows ∅.

Definition decode_room_view : MParser RoomView :=
  room_id ← r_advert_id;
  host ← r_member_id;
  revision ← r_u64;
  epoch ← r_u32;
  phase_b ← r_u8;
  phase ← lift (phase_from_wire phase_b);
  joinable ← r_bool;
  max_players ← r_u8;
  requires ← r_flags;
  available ← r_flags;
  password_protected ← r_bool;
  name ← r_string MAX_ADVERT_NAME_BYTES;
  map ← r_string MAX_MAP_BYTES;
  mode ← r_string MAX_MODE_BYTES;
  count ← r_u8;
  _ ← lift (fail_if (MAX_SESSION_MEMBERS <? count) (PLengthExceeded count));
  rows ← parse_list (Z.to_nat count) decode_member;
  mret {| view_room_id := room_id; view_name := name; view_host := host;
          view_members := rows.*1; view_member_names := insert_names rows;
          view_map := map; view_mode := mode; view_joinable := joinable;
          view_revision := revision; view_epoch := epoch; view_phase := phase;
          view_max_players := max_players; view_requires := requires;
          view_available := available; view_password_protected := password_protected |}.

(** ** Response bodies *)

Definition encode_advert (a : Advert) : Result ProtocolError (list byte) :=
  name_b ← w_string (adv_name a) MAX_ADVERT_NAME_BYTES;
  map_b ← w_string (adv_map a) MAX_MAP_BYTES;
  mode_b ← w_string (adv_mode a) MAX_MODE_BYTES;
  Ok (advert_bytes (adv_id a) ++ name_b ++ map_b ++ mode_b ++ w_u8 (adv_players a)
      ++ w_u8 (adv_max_players a) ++ w_u8 (bool_val (adv_locked a))
      ++ w_u8 (bool_val (adv_in_match a)) ++ w_u8 (flag_bits (adv_requires a))
      ++ w_u8 (flag_bits (adv_available a)) ++ w_u8 (bool_val (adv_password_protected a))
      ++ w_u64 (adv_generation a)).

Fixpoint encode_adverts (adverts : list Advert) : Result ProtocolError (list byte) :=
  match adverts with
  | [] => Ok []
  | a :: rest => a_b ← encode_advert a; rest_b ← encode_adverts rest; Ok (a_b ++ rest_b)
  end.

Definition encode_response_body (body : ResponseBody) : Result ProtocolError (list byte) :=
  match body with
  | RespPopulation players => Ok (w_u8 TAG_POPULATION ++ w_u32 players)
  | RespStatus status =>
      Ok (w_u8 TAG_STATUS ++ w_u16 (st_protocol_version status)
          ++ w_u16 (st_max_opaque_payload status) ++ w_u8 (st_max_session_members status))
  | RespRoomCreated member_id view =>
      view_b ← encode_room_view view;
      Ok (w_u8 TAG_CREATE_ROOM ++ member_bytes member_id ++ view_b)
  | RespRoomJoined member_id view =>
      view_b ← encode_room_view view;
      Ok (w_u8 TAG_JOIN_ROOM ++ member_bytes member_id ++ view_b)
  | RespRoomLeft => Ok (w_u8 TAG_LEAVE_ROOM)
  | RespRoomUpdated view =>
      view_b ← encode_room_view view;
      Ok (w_u8 TAG_SET_OPTIONS ++ view_b)
  | RespRoomList generation adverts =>
      _ ← fail_if (MAX_LIST_ADVERTS <? zlen adverts) (PLengthExceeded (zlen adverts));
      adverts_b ← encode_adverts adverts;
      Ok (w_u8 TAG_LIST_ROOMS ++ w_u64 generation ++ w_u16 (wrap16 (zlen adverts)) ++ adverts_b)
  | RespAck => Ok (w_u8 TAG_HOST_WORLD_READY)
  | RespError error => Ok (w_u8 TAG_ERROR ++ service_error_write error)
  end.

Definition decode_advert : MParser Advert :=
  id ← r_advert_id;
  name ← r_string MAX_ADVERT_NAME_BYTES;
  map ← r_string MAX_MAP_BYTES;
  mode ← r_string MAX_MODE_BYTES;
  players ← r_u8;
  max_players ← r_u8;
  locked ← r_bool;
  in_match ← r_bool;
  requires ← r_flags;
  available ← r_flags;
  password_protected ← r_bool;
  generation ← r_u64;
  mret {| adv_id := id; adv_name := name; adv_map := map; adv_mode := mode;
          adv_players := players; adv_max_players := max_players; adv_locked := locked;
          adv_in_match := in_match; adv_requires := requires; adv_available := available;
          adv_password_protected := password_protected; adv_generation := generation |}.

Definition decode_response_body : MParser ResponseBody :=
  tag ← r_u8;
  if tag =? TAG_POPULATION then players ← r_u32; mret (RespPopulation players)
  else if tag =? TAG_STATUS then
    protocol_version ← r_u16; max_opaque_payload ← r_u16; max_session_members ← r_u8;
    mret (RespStatus (mkStatus protocol_version max_opaque_payload max_session_members))
  else if tag =? TAG_CREATE_ROOM then
    member_id ← r_member_id; view ← decode_room_view; mret (RespRoomCreated member_id view)
  else if tag =? TAG_JOIN_ROOM then
    member_id ← r_member_id; view ← decode_room_view; mret (RespRoomJoined member_id view)
  else if tag =? TAG_LEAVE_ROOM then mret RespRoomLeft
  else if tag =? TAG_SET_OPTIONS then view ← decode_room_view; mret (RespRoomUpdated view)
  else if tag =? TAG_LIST_ROOMS then
    generation ← r_u64;
    count ← r_u16;
    _ ← lift (fail_if (MAX_LIST_ADVERTS <? count) (PLengthExceeded count));
    adverts ← parse_list (Z.to_nat count) decode_advert;
    mret (RespRoomList generation adverts)
  else if tag =? TAG_HOST_WORLD_READY then mret RespAck
  else if tag =? TAG_ERROR then error ← service_error_from_reader; mret (RespError error)
  else lift (Err (PUnknownTag tag)).

(** ** Peer events *)

Definition encode_peer_event (event : PeerEvent) : list byte :=
  match event with
  | EvHostWorldReady epoch map weapons classes =>
      w_u8 EVENT_HOST_WORLD_READY ++ w_u32 epoch ++ w_u64 map ++ w_u64 weapons ++ w_u64 classes
  | EvMapLoaded member_id epoch map weapons classes =>
      w_u8 EVENT_MAP_LOADED ++ member_bytes member_id ++ w_u32 epoch ++ w_u64 map
      ++ w_u64 weapons ++ w_u64 classes
  | EvBootstrapApplied member_id epoch bootstrap_id snapshot_seq connection =>
      w_u8 EVENT_BOOTSTRAP_APPLIED ++ member_bytes member_id ++ w_u32 epoch
      ++ w_u32 bootstrap_id ++ w_u32 snapshot_seq ++ w_u64 connection
  | EvEnterMatch member_id epoch bootstrap_id connection_id client_id =>
      w_u8 EVENT_ENTER_MATCH ++ member_bytes member_id ++ w_u32 epoch ++ w_u32 bootstrap_id
      ++ w_u64 connection_id ++ w_u32 client_id
  | EvAdmissionFailed member_id epoch reason =>
      w_u8 EVENT_ADMISSION_FAILED ++ member_bytes member_id ++ w_u32 epoch
      ++ encode_admission_failure reason
  | EvVoteToSkip member_id => w_u8 EVENT_VOTE_TO_SKIP ++ member_bytes member_id
  end.

Definition decode_peer_event : MParser PeerEvent :=
  tag ← r_u8;
  if tag =? EVENT_HOST_WORLD_READY then
    epoch ← r_u32; map ← r_u64; weapons ← r_u64; classes ← r_u64;
    mret (EvHostWorldReady epoch map weapons classes)
  else if tag =? EVENT_MAP_LOADED then
    member_id ← r_member_id; epoch ← r_u32; map ← r_u64; weapons ← r_u64; classes ← r_u64;
    mret (EvMapLoaded member_id epoch map weapons classes)
  else if tag =? EVENT_BOOTSTRAP_APPLIED then
    member_id ← r_member_id; epoch ← r_u32; bootstrap_id ← r_u32; snapshot_seq ← r_u32;
    connection ← r_u64;
    mret (EvBootstrapApplied member_id epoch bootstrap_id snapshot_seq connection)
  else if tag =? EVENT_ENTER_MATCH then
    member_id ← r_member_id; epoch ← r_u32; bootstrap_id ← r_u32; connection_id ← r_u64;
    client_id ← r_u32;
    mret (EvEnterMatch member_id epoch bootstrap_id connection_id client_id)
  else if tag =? EVENT_ADMISSION_FAILED then
    member_id ← r_member_id; epoch ← r_u32; reason ← decode_admission_failure;
    mret (EvAdmissionFailed member_id epoch reason)
  else if tag =? EVENT_VOTE_TO_SKIP then member_id ← r_member_id; mret (EvVoteToSkip member_id)
  else lift (Err (PUnknownTag tag)).

(** ** Messages and control frames *)

Definition encode_message (tag request_id : Z) (body : list byte)
    : Result ProtocolError (list byte) :=
  if (MAX_CONTROL_BYTES <? HEADER_BYTES + zlen body) || (u16_max <? zlen body)
  then Err (PLengthExceeded (zlen body))
  else Ok (MAGIC ++ w_u16 PROTOCOL_VERSION ++ w_u8 tag ++ w_u64 request_id
           ++ w_u16 (zlen body) ++ body).

Record Header : Type := mkHeader { hdr_tag : Z; hdr_request_id : Z; hdr_body : list byte }.

Definition byte_at (l : list byte) (i : nat) : Z :=
  match l !! i with Some b => byte_val b | None => 0 end.

Definition decode_header (bytes : list byte) : Result ProtocolError Header :=
  _ ← fail_if (MAX_CONTROL_BYTES <? zlen bytes) (PLengthExceeded (zlen bytes));
  _ ← fail_if (zlen bytes <? HEADER_BYTES) PTruncated;
  _ ← fail_if (negb (bool_decide (slice bytes 0 4 = MAGIC))) PBadMagic;
  let version := be_val (slice bytes 4 6) in
  _ ← fail_if (negb (version =? PROTOCOL_VERSION)) (PVersionMismatch PROTOCOL_VERSION version);
  let declared := be_val (slice bytes 15 17) in
  let body := zdrop HEADER_BYTES bytes in
  _ ← fail_if (negb (zlen body =? declared)) (PLengthMismatch declared (zlen body));
  Ok (mkHeader (byte_at bytes 6) (be_val (slice bytes 7 15)) body).

Definition encode_hello (hello : ControlHello) : Result ProtocolError (list byte) :=
  build_b ← w_string (hello_build hello) MAX_BUILD_BYTES;
  name_b ← w_string (hello_player_name hello) MAX_PLAYER_NAME_BYTES;
  Ok (w_u16 (hello_protocol_version hello) ++ w_u32 (hello_game_protocol hello)
      ++ w_u8 (role_wire (hello_role hello)) ++ build_b ++ name_b).

Definition encode_control_frame (frame : ControlFrame) : Result ProtocolError (list byte) :=
  '(kind, request_id, body) ←
    match frame with
    | FrameRelay bytes =>
        if MAX_CONTROL_BYTES - HEADER_BYTES <? zlen bytes
        then Err (PLengthExceeded (zlen bytes)) else Ok (KIND_RELAY, 0, bytes)
    | FrameHello hello => body ← encode_hello hello; Ok (KIND_HELLO, 0, body)
    | FrameRequest request =>
        body ← encode_request_body (req_body request); Ok (KIND_REQUEST, req_id request, body)
    | FrameResponse response =>
        body ← encode_response_body (resp_body response);
        Ok (KIND_RESPONSE, resp_id response, body)
    | FrameRoomView view => body ← encode_room_view view; Ok (KIND_ROOM_VIEW, 0, body)
    | FrameClosed room_id epoch reason =>
        Ok (KIND_CLOSED, 0, advert_bytes room_id ++ w_u32 epoch ++ w_u8 (close_wire reason))
    | FramePeerEvent event => Ok (KIND_PEER_EVENT, 0, encode_peer_event event)
    end;
  encode_message kind request_id body.

Definition decode_hello : MParser ControlHello :=
  protocol_version ← r_u16;
  game_protocol ← r_u32;
  role_b ← r_u8;
  role ← lift (role_from_wire role_b);
  build ← r_string MAX_BUILD_BYTES;
  player_name ← r_string MAX_PLAYER_NAME_BYTES;
  mret (mkHello protocol_version game_protocol role build player_name).

Definition decode_closed : MParser ControlFrame :=
  room_id ← r_advert_id;
  epoch ← r_u32;
  reason_b ← r_u8;
  reason ← lift (close_from_wire reason_b);
  mret (FrameClosed room_id epoch reason).

(** A body parser run over the whole body, then [body.finish()?]. *)
Definition run_body {A} (p : MParser A) (body : list byte) : Result ProtocolError A :=
  fst <$> (x ← p; _ ← r_finish; mret x) (mkReader body 0).

Definition decode_control_frame (bytes : list byte) : Result ProtocolError ControlFrame :=
  header ← decode_header bytes;
  let tag := hdr_tag header in
  let body := hdr_body header in
  if tag =? KIND_RELAY then Ok (FrameRelay body)
  else if tag =? KIND_HELLO then hello ← run_body decode_hello body; Ok (FrameHello hello)
  else if tag =? KIND_REQUEST then
    request ← run_body decode_request_body body;
    Ok (FrameRequest (mkRequest (hdr_request_id header) request))
  else if tag =? KIND_RESPONSE then
    response ← run_body decode_response_body body;
    Ok (FrameResponse (mkResponse (hdr_request_id header) response))
  else if tag =? KIND_ROOM_VIEW then view ← run_body decode_room_view body; Ok (FrameRoomView view)
  else if tag =? KIND_CLOSED then run_body decode_closed body
  else if tag =? KIND_PEER_EVENT then
    event ← run_body decode_peer_event body; Ok (FramePeerEvent event)
  else Err (PUnknownTag tag).

Definition encode_request (request : ControlRequest) : Result ProtocolError (list byte) :=
  encode_control_frame (FrameRequest request).

Definition decode_request (bytes : list byte) : Result ProtocolError ControlRequest :=
  frame ← decode_control_frame bytes;
  match frame with FrameRequest request => Ok request | _ => Err PInvalidBody end.

Definition encode_response (response : ControlResponse) : Result ProtocolError (list byte) :=
  encode_control_frame (FrameResponse response).

Definition decode_response (bytes : list byte) : Result ProtocolError ControlResponse :=
  frame ← decode_control_frame bytes;
  match frame with FrameResponse response => Ok response | _ => Err PInvalidBody end.

(** ** Length-prefixed stream frames *)

Definition encode_stream_frame (frame : ControlFrame) : Result ProtocolError (list byte) :=
  inner ← encode_control_frame frame;
  if MAX_CONTROL_BYTES <? zlen inner then Err (PLengthExceeded (zlen inner))
  else Ok (be_bytes 4 (zlen inner) ++ inner).

Definition decode_stream_payload (inner : list byte) : Result ProtocolError ControlFrame :=
  decode_control_frame inner.

Definition stream_frame_len (header : list byte) : Result ProtocolError Z :=
  let len := be_val header in
  if (len =? 0) || (MAX_CONTROL_BYTES <? len) then Err (PLengthExceeded len) else Ok len.
