(* ===== verification/MasterRoundtrip.v ===== *)
(** * Master protocol: encode and decode are inverse

    For every well-typed control frame the decoder returns what was encoded (the room view's
    name table is completed with the default name, see [norm_view]); the request decoder
    accepts exactly the encoder's output, so a request has one wire form; and [frame_text] is the
    language the decoder accepts, frame by frame, which only room views leave wider than the
    encoder's. *)

From S2P Require Export MasterCodec.

(** What a view looks like after the wire: exactly its members are named, a member without
    a name is ["Player"]. *)
Definition norm_view (v : RoomView) : RoomView := {|
  view_room_id := view_room_id v; view_name := view_name v; view_host := view_host v;
  view_members := view_members v;
  view_member_names :=
    insert_names (map (fun m => (m, member_name (view_member_names v) m)) (view_members v));
  view_map := view_map v; view_mode := view_mode v; view_joinable := view_joinable v;
  view_revision := view_revision v; view_epoch := view_epoch v; view_phase := view_phase v;
  view_max_players := view_max_players v; view_requires := view_requires v;
  view_available := view_available v; view_password_protected := view_password_protected v |}.

Definition norm_response (b : ResponseBody) : ResponseBody :=
  match b with
  | RespRoomCreated m v => RespRoomCreated m (norm_view v)
  | RespRoomJoined m v => RespRoomJoined m (norm_view v)
  | RespRoomUpdated v => RespRoomUpdated (norm_view v)
  | _ => b
  end.

Definition norm_frame (f : ControlFrame) : ControlFrame :=
  match f with
  | FrameResponse r => FrameResponse (mkResponse (resp_id r) (norm_response (resp_body r)))
  | FrameRoomView v => FrameRoomView (norm_view v)
  | _ => f
  end.

(** ** Reader primitives *)

Lemma parses_take u : parses (r_take (zlen u)) u u.
Proof.
  intros pre post Hfit. unfold r_take, checked_add_usize. simpl.
  unfold fits in Hfit. rewrite !zlen_app in *.
  pose proof (zlen_nonneg pre). pose proof (zlen_nonneg post). pose proof (zlen_nonneg u).
  zif. zif. by rewrite slice_mid.
Qed.

Lemma parses_array n u : zlen u = n -> parses (r_array n) u u.
Proof.
  intros <-. unfold r_array. rewrite <- (app_nil_r u) at 2.
  eapply parses_bind; [apply parses_take|].
  rewrite Z.eqb_refl. intros pre post _. unfold lift. by rewrite zlen_nil, Z.add_0_r.
Qed.

Lemma parses_u8 v : is_u8 v -> parses r_u8 (w_u8 v) v.
Proof.
  intros Hv. unfold r_u8.
  pose proof (parses_last (r_take 1) (fun bytes => match bytes with b :: _ => byte_val b | [] => 0 end)
    (w_u8 v) (w_u8 v) (parses_take (w_u8 v))) as H.
  simpl in H. by rewrite byte_val_of_small in H.
Qed.

Lemma parses_be n k v :
  0 <= v < 256 ^ Z.of_nat k -> n = Z.of_nat k ->
  parses (bytes ← r_array n; mret (be_val bytes)) (be_bytes k v) v.
Proof.
  intros Hv ->. pose proof (parses_last (r_array (Z.of_nat k)) be_val (be_bytes k v) (be_bytes k v)) as H.
  rewrite be_val_bytes in H by done. apply H. apply parses_array. apply zlen_be_bytes.
Qed.

Lemma parses_u16 v : is_u16 v -> parses r_u16 (w_u16 v) v.
Proof. intros. apply parses_be; [simpl; ilia|done]. Qed.
Lemma parses_u32 v : is_u32 v -> parses r_u32 (w_u32 v) v.
Proof. intros. apply parses_be; [simpl; ilia|done]. Qed.
Lemma parses_u64 v : is_u64 v -> parses r_u64 (w_u64 v) v.
Proof. intros. apply parses_be; [simpl; ilia|done]. Qed.

Lemma parses_advert_id i : wf_advert_id i -> parses r_advert_id (advert_bytes i) i.
Proof.
  intros H. destruct i as [u]. apply (parses_last (r_array 16) mkAdvertId). by apply parses_array.
Qed.
Lemma parses_member_id i : wf_member_id i -> parses r_member_id (member_bytes i) i.
Proof.
  intros H. destruct i as [u]. apply (parses_last (r_array 16) mkMemberId). by apply parses_array.
Qed.
Lemma parses_flags f : wf_flags f -> parses r_flags (w_u8 (flag_bits f)) f.
Proof.
  intros H. destruct f as [b]. apply (parses_last r_u8 mkFlags). by apply parses_u8.
Qed.

Lemma parses_bool b : parses r_bool (w_u8 (bool_val b)) b.
Proof.
  unfold r_bool. rewrite <- (app_nil_r (w_u8 _)).
  eapply parses_bind; [apply parses_u8; destruct b; simpl; ilia|].
  intros pre post _. rewrite zlen_nil, Z.add_0_r. by destruct b.
Qed.

Lemma w_string_ok s max u :
  w_string s max = Ok u -> zlen s <= max /\ is_u8 (zlen s) /\ u = w_u8 (zlen s) ++ s.
Proof.
  unfold w_string. pose proof (zlen_nonneg s).
  destruct (Z.ltb_spec max (zlen s)), (Z.ltb_spec u8_max (zlen s)); simpl; [done..|].
  intros [= <-]. split_and!; [done|ilia|done].
Qed.

Lemma parses_string s max u :
  wf_string s -> w_string s max = Ok u -> parses (r_string max) u s.
Proof.
  intros Hs (Hmax & Hu8 & ->)%w_string_ok. unfold r_string.
  eapply parses_bind; [by apply parses_u8|].
  apply parses_lift with (x := ()).
  { unfold fail_if. by rewrite (proj2 (Z.ltb_ge _ _)). }
  rewrite <- (app_nil_r s) at 2. eapply parses_bind; [apply parses_take|].
  unfold wf_string in Hs. rewrite Hs. intros pre post _. by rewrite zlen_nil, Z.add_0_r.
Qed.

#[export] Hint Resolve parses_u8 parses_u16 parses_u32 parses_u64 parses_advert_id
  parses_member_id parses_flags parses_bool parses_string : parse.
#[export] Hint Extern 1 (is_u8 _) => (vm_compute; split; congruence) : parse.

(** Evaluate the closed tag tests of a decoder. *)
Ltac eval_tag :=
  repeat match goal with
  | |- context [if ?b then _ else _] =>
      let v := eval vm_compute in b in
      lazymatch v with true => idtac | false => idtac end;
      change b with v; cbv iota
  end.

(** One field of a decoder after the other, along the encoder's blocks. *)
Ltac parse_step :=
  first
    [ apply parses_ret
    | eapply parses_bind; [solve [eauto with parse]|]
    | eapply parses_end; [solve [eauto with parse]|]
    | eapply parses_lift; [solve [eauto with parse]|] ];
  cbv beta; eval_tag.
Ltac parse_steps := repeat parse_step.

(** ** Body by body *)

Lemma parses_admission_failure a :
  wf_reason a -> parses decode_admission_failure (encode_admission_failure a) a.
Proof.
  intros H. unfold decode_admission_failure.
  destruct a; cbn [encode_admission_failure wf_reason] in *; destruct_and?; parse_steps.
Qed.

Lemma parses_service_error e :
  wf_service_error e -> parses service_error_from_reader (service_error_write e) e.
Proof.
  intros H. unfold service_error_from_reader.
  destruct e; cbn [service_error_write wf_service_error] in *; destruct_and?; parse_steps.
Qed.

#[export] Hint Resolve parses_admission_failure parses_service_error : parse.

Lemma parses_request_body b u :
  wf_request_body b -> encode_request_body b = Ok u -> parses decode_request_body u b.
Proof.
  intros Hwf Henc. unfold decode_request_body.
  destruct b; cbn [encode_request_body wf_request_body] in *; ok_inv; destruct_and?; parse_steps.
Qed.

Lemma parses_peer_event e :
  wf_peer_event e -> parses decode_peer_event (encode_peer_event e) e.
Proof.
  intros H. unfold decode_peer_event.
  destruct e; cbn [encode_peer_event wf_peer_event] in *; destruct_and?; parse_steps.
Qed.

Lemma parses_hello h u : wf_hello h -> encode_hello h = Ok u -> parses decode_hello u h.
Proof.
  intros (?&?&?&?) Henc. unfold decode_hello, encode_hello in *.
  ok_inv.
  parse_step. parse_step.
  eapply parses_bind; [apply parses_u8; destruct (hello_role h); simpl; ilia|].
  eapply parses_lift with (x := hello_role h); [by destruct (hello_role h)|].
  parse_steps. destruct h. apply parses_ret.
Qed.

Lemma parses_closed room_id epoch reason :
  wf_advert_id room_id -> is_u32 epoch ->
  parses decode_closed (advert_bytes room_id ++ w_u32 epoch ++ w_u8 (close_wire reason))
    (FrameClosed room_id epoch reason).
Proof.
  intros. unfold decode_closed. parse_step. parse_step.
  eapply parses_end; [apply parses_u8; destruct reason; simpl; ilia|].
  eapply parses_lift with (x := reason); [by destruct reason|]. parse_steps.
Qed.

Lemma wf_member_name names m :
  map_Forall (fun _ s => wf_string s) names -> wf_string (member_name names m).
Proof.
  intros H. unfold member_name. destruct (names !! m) eqn:Hm; simpl; [|done].
  exact (H _ _ Hm).
Qed.

(** ** The text of a room view: a count and one row for each member *)

Definition row_text (row : MemberId * list byte) (u : list byte) : Prop :=
  wf_member_id row.1 /\ wf_string row.2 /\
  exists b, w_string row.2 MAX_PLAYER_NAME_BYTES = Ok b /\ u = member_bytes row.1 ++ b.

Definition view_text (v : RoomView) (u : list byte) : Prop :=
  exists rows us name_b map_b mode_b,
    view_members v = rows.*1 /\ view_member_names v = insert_names rows /\
    Forall2 row_text rows us /\ zlen rows <= MAX_SESSION_MEMBERS /\
    w_string (view_name v) MAX_ADVERT_NAME_BYTES = Ok name_b /\
    w_string (view_map v) MAX_MAP_BYTES = Ok map_b /\
    w_string (view_mode v) MAX_MODE_BYTES = Ok mode_b /\
    u = advert_bytes (view_room_id v) ++ member_bytes (view_host v) ++ w_u64 (view_revision v)
      ++ w_u32 (view_epoch v) ++ w_u8 (phase_wire (view_phase v))
      ++ w_u8 (bool_val (view_joinable v)) ++ w_u8 (view_max_players v)
      ++ w_u8 (flag_bits (view_requires v)) ++ w_u8 (flag_bits (view_available v))
      ++ w_u8 (bool_val (view_password_protected v)) ++ name_b ++ map_b ++ mode_b
      ++ w_u8 (zlen rows) ++ concat us.

Lemma parses_row row u : row_text row u -> parses decode_member u row.
Proof.
  destruct row as [m name]. intros (Hm & Hs & b & Hb & ->). cbn [fst snd] in *.
  unfold decode_member. parse_steps.
Qed.

Lemma parses_member_rows rows us :
  Forall2 row_text rows us -> parses (parse_list (length rows) decode_member) (concat us) rows.
Proof.
  induction 1 as [|row u rows us Hrow Hrows IH]; cbn [length parse_list concat].
  - apply parses_ret.
  - eapply parses_bind; [by apply parses_row|]. eapply parses_end; [exact IH|]. apply parses_ret.
Qed.

Lemma parses_room_view v u : wf_view v -> view_text v u -> parses decode_room_view u v.
Proof.
  intros (?&?&?&?&?&?&?&?&?&?&_&_) (rows & us & name_b & map_b & mode_b & Hms & Hnames & Hrows & Hcount & ? & ? & ? & ->).
  unfold decode_room_view. pose proof (zlen_nonneg rows). unfold MAX_SESSION_MEMBERS in Hcount.
  do 4 parse_step.
  eapply parses_bind; [apply parses_u8; destruct (view_phase v); simpl; ilia|].
  eapply parses_lift with (x := view_phase v); [by destruct (view_phase v)|].
  do 8 parse_step.
  eapply parses_bind; [apply parses_u8; ilia|].
  eapply parses_lift with (x := ()).
  { unfold fail_if, MAX_SESSION_MEMBERS. by zif. }
  eapply parses_end.
  { unfold zlen. rewrite Nat2Z.id. by apply parses_member_rows. }
  rewrite <- Hms, <- Hnames. destruct v. apply parses_ret.
Qed.

Lemma insert_names_Forall P rows (m : gmap MemberId (list byte)) :
  map_Forall (fun _ s => P s) m -> Forall (fun row => P row.2) rows ->
  map_Forall (fun _ s => P s)
    (fold_left (fun names row => <[row.1 := row.2]> names) rows m).
Proof.
  intros Hm Hrows. revert m Hm. induction Hrows as [|[i s] rows Hs Hrows IH]; intros m Hm; simpl; [done|].
  apply IH. by apply map_Forall_insert_2.
Qed.

Lemma wf_norm_view v : wf_view v -> wf_view (norm_view v).
Proof.
  intros (?&?&?&?&?&?&?&?&?&?&?&Hn). unfold wf_view; cbn. split_and!; try done.
  apply insert_names_Forall; [done|]. apply Forall_fmap, Forall_true. intros m. cbn.
  by apply wf_member_name.
Qed.

Lemma encode_members_text names ms u :
  Forall wf_member_id ms -> map_Forall (fun _ s => wf_string s) names ->
  encode_members names ms = Ok u ->
  exists us, u = concat us /\ Forall2 row_text (map (fun m => (m, member_name names m)) ms) us.
Proof.
  intros Hms Hnames. revert u. induction Hms as [|m ms Hm Hms IH]; intros u H;
    cbn [encode_members] in H; ok_inv; cbn [map].
  - by exists [].
  - destruct (IH _ eq_refl) as (us & -> & Hus). eexists (_ :: us). cbn [concat].
    rewrite app_assoc. split; [done|]. constructor; [|done].
    split_and!; [done|by apply wf_member_name|eauto].
Qed.

Lemma encode_room_view_text v u :
  wf_view v -> encode_room_view v = Ok u -> view_text (norm_view v) u.
Proof.
  intros (_&_&_&_&_&_&_&_&_&_&Hms&Hnames) Henc. unfold encode_room_view in *.
  unfold fail_if at 1 in Henc.
  destruct (Z.ltb_spec MAX_SESSION_MEMBERS (zlen (view_members v))) as [|Hcount];
    [discriminate Henc|].
  cbn [mbind result_bind] in Henc. ok_inv.
  match goal with H : encode_members _ _ = Ok _ |- _ =>
    apply encode_members_text in H as (us & -> & Hus); [|done|done] end.
  eexists _, us, _, _, _. split_and!; try done; cbn.
  - rewrite map_map. cbn [fst]. by rewrite map_id.
  - unfold zlen. by rewrite length_map.
  - unfold zlen. by rewrite length_map.
Qed.

Lemma parses_advert a u : wf_advert a -> encode_advert a = Ok u -> parses decode_advert u a.
Proof.
  intros (?&?&?&?&?&?&?&?&?) Henc. unfold decode_advert, encode_advert in *. ok_inv.
  parse_steps. destruct a. apply parses_ret.
Qed.

Lemma parses_adverts l u :
  Forall wf_advert l -> encode_adverts l = Ok u ->
  parses (parse_list (length l) decode_advert) u l.
Proof.
  intros Hl. revert u. induction Hl as [|a l Ha Hl IH]; intros u H;
    cbn [encode_adverts] in H; ok_inv; cbn [length parse_list].
  - apply parses_ret.
  - eapply parses_bind; [by apply parses_advert|].
    eapply parses_end; [by apply IH|]. apply parses_ret.
Qed.

#[export] Hint Resolve parses_room_view : parse.

(** A response is spelled as the encoder spells it, but for the room views in it. *)
Definition response_text (b : ResponseBody) (u : list byte) : Prop :=
  match b with
  | RespRoomCreated m v =>
      exists w, view_text v w /\ u = w_u8 TAG_CREATE_ROOM ++ member_bytes m ++ w
  | RespRoomJoined m v =>
      exists w, view_text v w /\ u = w_u8 TAG_JOIN_ROOM ++ member_bytes m ++ w
  | RespRoomUpdated v => exists w, view_text v w /\ u = w_u8 TAG_SET_OPTIONS ++ w
  | _ => encode_response_body b = Ok u
  end.

Lemma encode_response_text b u :
  wf_response_body b -> encode_response_body b = Ok u ->
  wf_response_body (norm_response b) /\ response_text (norm_response b) u.
Proof.
  intros Hwf Henc. destruct b; cbn [norm_response response_text];
    try (split; [exact Hwf|exact Henc]);
    cbn [encode_response_body wf_response_body] in *; destruct_and?; ok_inv;
    eauto 10 using encode_room_view_text, wf_norm_view.
Qed.

Lemma parses_response_body b u :
  wf_response_body b -> response_text b u -> parses decode_response_body u b.
Proof.
  intros Hwf Henc. unfold decode_response_body.
  destruct b; cbn [response_text encode_response_body wf_response_body] in *; destruct_and?;
    try destruct Henc as (w & Hw & ->).
  all: try (ok_inv; parse_steps; fail).
  - ok_inv. parse_steps. destruct status. apply parses_ret.
  - unfold fail_if in Henc at 1.
    destruct (Z.ltb_spec MAX_LIST_ADVERTS (zlen adverts)) as [|Hcount]; [discriminate Henc|].
    cbn [mbind result_bind] in Henc. ok_inv.
    pose proof (zlen_nonneg adverts). unfold MAX_LIST_ADVERTS in Hcount.
    replace (wrap16 (zlen adverts)) with (zlen adverts) by ilia.
    do 2 parse_step.
    eapply parses_bind; [apply parses_u16; ilia|].
    eapply parses_lift with (x := ()).
    { unfold fail_if, MAX_LIST_ADVERTS. by zif. }
    eapply parses_end; [unfold zlen; rewrite Nat2Z.id; by apply parses_adverts|].
    apply parses_ret.
Qed.

(** ** Frames *)

Lemma run_body_ok {A} (p : MParser A) u x : parses p u x -> fits u -> run_body p u = Ok x.
Proof.
  intros Hp Hfit. unfold run_body. unfold mbind at 1, parser_bind at 1.
  rewrite (parses_whole p u x) by done.
  unfold mbind, parser_bind, r_finish. simpl. by rewrite Z.eqb_refl.
Qed.

Lemma encode_message_ok tag id body bytes :
  encode_message tag id body = Ok bytes ->
  HEADER_BYTES + zlen body <= MAX_CONTROL_BYTES /\ is_u16 (zlen body) /\
  bytes = MAGIC ++ w_u16 PROTOCOL_VERSION ++ w_u8 tag ++ w_u64 id ++ w_u16 (zlen body) ++ body.
Proof.
  unfold encode_message. pose proof (zlen_nonneg body).
  destruct (Z.ltb_spec MAX_CONTROL_BYTES (HEADER_BYTES + zlen body));
    destruct (Z.ltb_spec u16_max (zlen body)); simpl; [done..|].
  intros Hb%ok_inj. split_and!; [done|ilia|done].
Qed.

Lemma zlen_message tag id body :
  zlen (MAGIC ++ w_u16 PROTOCOL_VERSION ++ w_u8 tag ++ w_u64 id ++ w_u16 (zlen body) ++ body)
    = HEADER_BYTES + zlen body.
Proof.
  unfold w_u16, w_u64. autorewrite with zlen. change (zlen MAGIC) with 4.
  change (zlen (w_u8 tag)) with 1. unfold HEADER_BYTES. lia.
Qed.

Lemma decode_header_message tag id body bytes :
  is_u8 tag -> is_u64 id -> encode_message tag id body = Ok bytes ->
  decode_header bytes = Ok (mkHeader tag id body).
Proof.
  intros Htag Hid (Hmax & Hu16 & Hbytes)%encode_message_ok.
  pose proof (zlen_nonneg body) as Hpos. pose proof (zlen_message tag id body) as Hlen.
  rewrite <- Hbytes in Hlen. unfold decode_header, fail_if.
  assert (slice bytes 0 4 = MAGIC) as ->.
  { eapply (slice_at _ [] MAGIC); [exact Hbytes|done|done]. }
  assert (slice bytes 4 6 = w_u16 PROTOCOL_VERSION) as ->.
  { eapply (slice_at _ MAGIC); [exact Hbytes|done|done]. }
  assert (slice bytes 15 17 = w_u16 (zlen body)) as ->.
  { eapply (slice_at _ (MAGIC ++ w_u16 PROTOCOL_VERSION ++ w_u8 tag ++ w_u64 id)).
    - rewrite Hbytes. by rewrite <- !app_assoc.
    - done.
    - done. }
  assert (slice bytes 7 15 = w_u64 id) as ->.
  { eapply (slice_at _ (MAGIC ++ w_u16 PROTOCOL_VERSION ++ w_u8 tag)).
    - rewrite Hbytes. by rewrite <- !app_assoc.
    - done.
    - done. }
  assert (zdrop HEADER_BYTES bytes = body) as ->.
  { eapply (zdrop_at _ (MAGIC ++ w_u16 PROTOCOL_VERSION ++ w_u8 tag ++ w_u64 id ++ w_u16 (zlen body))).
    - rewrite Hbytes. by rewrite <- !app_assoc.
    - done. }
  assert (byte_at bytes 6 = tag) as ->.
  { rewrite Hbytes. unfold byte_at. simpl. by rewrite byte_val_of_small. }
  rewrite Hlen. unfold HEADER_BYTES in *. zif. cbn [mbind result_bind]. zif.
  cbn [mbind result_bind].
  rewrite (bool_decide_eq_true_2 (MAGIC = MAGIC)) by done. cbn [negb mbind result_bind].
  change (be_val (w_u16 PROTOCOL_VERSION)) with PROTOCOL_VERSION.
  rewrite Z.eqb_refl. cbn [negb mbind result_bind].
  unfold w_u16, w_u64. rewrite !be_val_bytes by (simpl; ilia).
  by rewrite Z.eqb_refl.
Qed.

Lemma decode_control_body tag id body bytes :
  is_u8 tag -> is_u64 id -> encode_message tag id body = Ok bytes ->
  fits body /\
  decode_control_frame bytes =
    (if tag =? KIND_RELAY then Ok (FrameRelay body)
     else if tag =? KIND_HELLO then hello ← run_body decode_hello body; Ok (FrameHello hello)
     else if tag =? KIND_REQUEST then
       request ← run_body decode_request_body body; Ok (FrameRequest (mkRequest id request))
     else if tag =? KIND_RESPONSE then
       response ← run_body decode_response_body body; Ok (FrameResponse (mkResponse id response))
     else if tag =? KIND_ROOM_VIEW then
       view ← run_body decode_room_view body; Ok (FrameRoomView view)
     else if tag =? KIND_CLOSED then run_body decode_closed body
     else if tag =? KIND_PEER_EVENT then
       event ← run_body decode_peer_event body; Ok (FramePeerEvent event)
     else Err (PUnknownTag tag)).
Proof.
  intros Htag Hid Henc. split.
  - apply encode_message_ok in Henc as (Hmax & _ & _).
    unfold fits, MAX_CONTROL_BYTES, HEADER_BYTES in *. ilia.
  - unfold decode_control_frame. by rewrite (decode_header_message tag id body).
Qed.

(** The text of a frame: its kind, request id and body.  Only requests and responses have a
    request id of their own; in the other frames the decoder reads any. *)
Inductive frame_text : ControlFrame -> Z -> Z -> list byte -> Prop :=
| text_relay id u : frame_text (FrameRelay u) KIND_RELAY id u
| text_hello hello id u : encode_hello hello = Ok u -> frame_text (FrameHello hello) KIND_HELLO id u
| text_request r u :
    encode_request_body (req_body r) = Ok u ->
    frame_text (FrameRequest r) KIND_REQUEST (req_id r) u
| text_response r u :
    response_text (resp_body r) u -> frame_text (FrameResponse r) KIND_RESPONSE (resp_id r) u
| text_view v id u : view_text v u -> frame_text (FrameRoomView v) KIND_ROOM_VIEW id u
| text_closed r epoch reason id :
    frame_text (FrameClosed r epoch reason) KIND_CLOSED id
      (advert_bytes r ++ w_u32 epoch ++ w_u8 (close_wire reason))
| text_event e id : frame_text (FramePeerEvent e) KIND_PEER_EVENT id (encode_peer_event e).

Lemma decode_frame_text f kind id body bytes :
  wf_frame f -> is_u64 id -> frame_text f kind id body ->
  encode_message kind id body = Ok bytes -> decode_control_frame bytes = Ok f.
Proof.
  intros Hwf Hid Htext Hm.
  assert (is_u8 kind) as Hk by (destruct Htext; in_range).
  apply decode_control_body in Hm as [Hfit ->]; [|done|done].
  destruct Htext; cbn [Z.eqb wf_frame] in *; destruct_and?.
  - done.
  - by rewrite (run_body_ok decode_hello _ hello) by eauto using parses_hello.
  - rewrite (run_body_ok decode_request_body _ (req_body r)) by eauto using parses_request_body.
    by destruct r.
  - rewrite (run_body_ok decode_response_body _ (resp_body r)) by eauto using parses_response_body.
    by destruct r.
  - by rewrite (run_body_ok decode_room_view _ v) by eauto using parses_room_view.
  - by rewrite (run_body_ok decode_closed _ (FrameClosed r epoch reason)) by eauto using parses_closed.
  - by rewrite (run_body_ok decode_peer_event _ e) by eauto using parses_peer_event.
Qed.

Lemma encode_frame_text f bytes :
  wf_frame f -> encode_control_frame f = Ok bytes ->
  wf_frame (norm_frame f) /\
  exists kind id body, is_u64 id /\ frame_text (norm_frame f) kind id body /\
    encode_message kind id body = Ok bytes.
Proof.
  intros Hwf Henc. unfold encode_control_frame in Henc.
  destruct f; cbn [wf_frame norm_frame] in *; destruct_and?.
  - destruct (_ <? _); [discriminate Henc|]. cbn [mbind result_bind] in Henc.
    split; [done|]. eexists _, 0, _. split_and!; [in_range|constructor|exact Henc].
  - ok_inv. split; [done|]. eexists _, 0, _. split_and!; [in_range|by constructor|exact Henc].
  - ok_inv. split; [done|]. eexists _, _, _. split_and!; [done|by constructor|exact Henc].
  - ok_inv. apply encode_response_text in E0 as [Hwf Ht]; [|done].
    split; [done|]. eexists _, _, _.
    split_and!; [done|by apply (text_response (mkResponse _ _))|exact Henc].
  - ok_inv. split; [by apply wf_norm_view|]. eexists _, 0, _.
    split_and!; [in_range|constructor; by apply encode_room_view_text|exact Henc].
  - cbn [mbind result_bind] in Henc. split; [done|]. eexists _, 0, _.
    split_and!; [in_range|constructor|exact Henc].
  - cbn [mbind result_bind] in Henc. split; [done|]. eexists _, 0, _.
    split_and!; [in_range|constructor|exact Henc].
Qed.

Lemma control_frame_roundtrip f bytes :
  wf_frame f -> encode_control_frame f = Ok bytes ->
  decode_control_frame bytes = Ok (norm_frame f).
Proof.
  intros Hwf (Hn & kind & id & body & Hid & Ht & Hm)%encode_frame_text; [|done].
  by eapply decode_frame_text.
Qed.

(** ** The other direction: what a decoder accepts is what the encoder writes *)

Lemma consumes_take n : 0 <= n -> consumes (r_take n) (fun x u => x = u /\ zlen u = n).
Proof.
  intros Hn pre rest x rd' Hfit H. unfold r_take, checked_add_usize in H.
  cbn [rd_cursor rd_bytes] in H. unfold fits in Hfit. rewrite zlen_app in *.
  destruct (Z.leb_spec (zlen pre + n) usize_max); [|discriminate H].
  destruct (Z.leb_spec (zlen pre + n) (zlen pre + zlen rest)); [|discriminate H].
  apply ok_inj in H. injection H as <- <-.
  assert (Hlen : length (ztake n rest) = Z.to_nat n).
  { unfold ztake, zlen in *. rewrite length_take. lia. }
  assert (Hz : zlen (ztake n rest) = n) by (unfold zlen; rewrite Hlen; lia).
  exists (ztake n rest), (zdrop n rest). rewrite Hz. split_and!; [|done| |done].
  - unfold ztake, zdrop. by rewrite take_drop.
  - apply (slice_at _ pre (ztake n rest) (zdrop n rest)); [|done|by rewrite Hz].
    unfold ztake, zdrop. by rewrite take_drop.
Qed.

Lemma consumes_array n : 0 <= n -> consumes (r_array n) (fun x u => x = u /\ zlen u = n).
Proof.
  intros Hn. unfold r_array. eapply consumes_bind; [by apply consumes_take|].
  intros x u [-> Hu]. rewrite (proj2 (Z.eqb_eq _ _) Hu).
  intros pre rest y rd' Hfit H. injection H as <- <-. exists [], rest.
  by rewrite zlen_nil, Z.add_0_r, app_nil_r.
Qed.

Lemma consumes_u8 : consumes r_u8 (fun v u => is_u8 v /\ u = w_u8 v).
Proof.
  unfold r_u8. eapply consumes_bind; [by apply consumes_take|].
  intros x u [-> Hu]. apply consumes_ret. rewrite app_nil_r.
  destruct u as [|b [|]]; unfold zlen in Hu; simpl in Hu; [lia| |lia].
  unfold w_u8. rewrite byte_of_val. pose proof (byte_val_range b). split; [ilia|done].
Qed.

Lemma consumes_be n k :
  n = Z.of_nat k ->
  consumes (bytes ← r_array n; mret (be_val bytes))
    (fun v u => 0 <= v < 256 ^ n /\ u = be_bytes k v).
Proof.
  intros ->. eapply consumes_bind; [apply consumes_array; lia|].
  intros x u [-> Hu]. apply consumes_ret. rewrite app_nil_r. split.
  - rewrite <- Hu. apply be_val_range.
  - assert (k = length u) as -> by (unfold zlen in Hu; lia). by rewrite be_bytes_val.
Qed.

Lemma consumes_u16 : consumes r_u16 (fun v u => is_u16 v /\ u = w_u16 v).
Proof.
  eapply consumes_weaken, (consumes_be 2 2); [|done]. simpl. intros x u [? ->]. split; [ilia|done].
Qed.
Lemma consumes_u32 : consumes r_u32 (fun v u => is_u32 v /\ u = w_u32 v).
Proof.
  eapply consumes_weaken, (consumes_be 4 4); [|done]. simpl. intros x u [? ->]. split; [ilia|done].
Qed.
Lemma consumes_u64 : consumes r_u64 (fun v u => is_u64 v /\ u = w_u64 v).
Proof.
  eapply consumes_weaken, (consumes_be 8 8); [|done]. simpl. intros x u [? ->]. split; [ilia|done].
Qed.

Lemma consumes_advert_id : consumes r_advert_id (fun i u => wf_advert_id i /\ u = advert_bytes i).
Proof.
  eapply consumes_bind; [by apply (consumes_array 16)|]. intros x u [-> ?].
  apply consumes_ret. by rewrite app_nil_r.
Qed.
Lemma consumes_member_id : consumes r_member_id (fun i u => wf_member_id i /\ u = member_bytes i).
Proof.
  eapply consumes_bind; [by apply (consumes_array 16)|]. intros x u [-> ?].
  apply consumes_ret. by rewrite app_nil_r.
Qed.
Lemma consumes_flags : consumes r_flags (fun f u => wf_flags f /\ u = w_u8 (flag_bits f)).
Proof.
  eapply consumes_bind; [apply consumes_u8|]. intros x u [? ->].
  apply consumes_ret. by rewrite app_nil_r.
Qed.

Lemma consumes_bool : consumes r_bool (fun b u => u = w_u8 (bool_val b)).
Proof.
  eapply consumes_bind; [apply consumes_u8|]. intros x u [? ->].
  unfold bool_byte. destruct (Z.eqb_spec x 0) as [->|]; [|destruct (Z.eqb_spec x 1) as [->|]].
  3: apply consumes_err.
  all: intros pre rest y rd' _ H'; injection H' as <- <-; exists [], rest;
    by rewrite zlen_nil, Z.add_0_r.
Qed.

Lemma w_string_intro s max : zlen s <= max -> is_u8 (zlen s) -> w_string s max = Ok (w_u8 (zlen s) ++ s).
Proof. intros. unfold w_string. by zif. Qed.

Lemma consumes_string max :
  consumes (r_string max) (fun s u => wf_string s /\ w_string s max = Ok u).
Proof.
  unfold r_string. eapply consumes_bind; [apply consumes_u8|]. intros n u [Hn ->].
  apply consumes_lift. intros [] Hmax. unfold fail_if in Hmax.
  destruct (Z.ltb_spec max n); [discriminate Hmax|].
  eapply consumes_bind; [apply consumes_take; ilia|]. intros s u [-> Hlen].
  destruct (utf8_valid u) eqn:Hu; [|apply consumes_err].
  intros pre rest y rd' _ H'. injection H' as <- <-. exists [], rest.
  rewrite zlen_nil, Z.add_0_r, app_nil_r. subst n. split_and!; [done..|].
  by apply w_string_intro.
Qed.

#[export] Hint Resolve consumes_u8 consumes_u16 consumes_u32 consumes_u64 consumes_advert_id
  consumes_member_id consumes_flags consumes_bool consumes_string : parse.

(** Walk a decoder, naming what each read used up; at [mret] the blocks are the encoder's. *)
Ltac consume_step :=
  first
    [ eapply consumes_bind; [solve [eauto with parse]|]; intros ? ? Hc; cbv beta in Hc; destruct_and?; subst
    | eapply consumes_lift; intros ? ?
    | apply consumes_err ];
  cbv beta.

Ltac consume_tags :=
  repeat match goal with
  | |- consumes (if ?t =? ?c then _ else _) _ =>
      destruct (Z.eqb_spec t c) as [->|_]
  end.

Ltac consume_done :=
  apply consumes_ret; rewrite app_nil_r;
  cbn [wf_reason encode_admission_failure wf_service_error service_error_write
       wf_request_body encode_request_body wf_peer_event encode_peer_event];
  repeat match goal with H : _ = Ok _ |- _ => rewrite H; cbn [mbind result_bind]; clear H end;
  split_and!; auto.

Lemma consumes_admission_failure :
  consumes decode_admission_failure (fun a u => wf_reason a /\ u = encode_admission_failure a).
Proof.
  unfold decode_admission_failure. consume_step. consume_tags; repeat consume_step; consume_done.
Qed.
#[export] Hint Resolve consumes_admission_failure : parse.

Lemma consumes_service_error :
  consumes service_error_from_reader (fun e u => wf_service_error e /\ u = service_error_write e).
Proof.
  unfold service_error_from_reader. consume_step.
  consume_tags; repeat consume_step; consume_done.
Qed.
#[export] Hint Resolve consumes_service_error : parse.

Lemma consumes_request_body :
  consumes decode_request_body
    (fun b u => wf_request_body b /\ encode_request_body b = Ok u).
Proof.
  unfold decode_request_body. consume_step.
  consume_tags; repeat consume_step; consume_done.
Qed.

Lemma be_bytes_of_val k l : length l = k -> be_bytes k (be_val l) = l.
Proof. intros <-. apply be_bytes_val. Qed.

Lemma be_val_u16 b1 b2 : is_u16 (be_val [b1; b2]).
Proof. pose proof (be_val_range [b1; b2]) as H. change (256 ^ zlen [b1; b2]) with 65536 in H. ilia. Qed.

Lemma decode_header_inv bytes h :
  decode_header bytes = Ok h ->
  encode_message (hdr_tag h) (hdr_request_id h) (hdr_body h) = Ok bytes /\
  is_u8 (hdr_tag h) /\ is_u64 (hdr_request_id h) /\ fits (hdr_body h).
Proof.
  unfold decode_header. intros H. ok_inv.
  repeat match goal with H : fail_if _ _ = Ok _ |- _ => apply fail_if_ok in H end.
  match goal with H : (_ <? HEADER_BYTES) = false |- _ => apply Z.ltb_ge in H as Hlen; clear H end.
  do 17 (destruct bytes as [|? bytes]; [unfold zlen, HEADER_BYTES in Hlen; simpl in Hlen; lia|]).
  match goal with H : negb (bool_decide _) = false |- _ =>
    apply negb_false_iff, bool_decide_eq_true in H; cbn in H; injection H as -> -> -> -> end.
  match goal with H : negb (_ =? PROTOCOL_VERSION) = false |- _ =>
    apply negb_false_iff, Z.eqb_eq in H; rename H into Hver end.
  match goal with H : negb (_ =? _) = false |- _ =>
    apply negb_false_iff, Z.eqb_eq in H; rename H into Hdecl end.
  match goal with H : (MAX_CONTROL_BYTES <? _) = false |- _ => apply Z.ltb_ge in H; rename H into Hmax end.
  cbn in Hdecl. cbn [hdr_tag hdr_request_id hdr_body] in *.
  change (slice _ 4 6) with [b3; b4] in Hver. change (slice _ 7 15) with [b6; b7; b8; b9; b10; b11; b12; b13].
  change (zdrop HEADER_BYTES _) with bytes in *. change (byte_at _ 6) with (byte_val b5).
  pose proof (be_val_u16 b14 b15) as Hu16. change (be_val _) with (be_val [b14; b15]) in Hdecl.
  pose proof (be_val_range [b6; b7; b8; b9; b10; b11; b12; b13]) as Hid.
  change (256 ^ zlen _) with 18446744073709551616 in Hid.
  pose proof (byte_val_range b5). autorewrite with zlen in Hmax.
  split_and!; [|ilia|ilia|unfold fits, MAX_CONTROL_BYTES in *; ilia].
  unfold encode_message. rewrite Hdecl in *. unfold HEADER_BYTES, MAX_CONTROL_BYTES in *. zif.
  f_equal. rewrite <- Hver. unfold w_u16, w_u64, w_u8.
  rewrite !be_bytes_of_val, byte_of_val by done. done.
Qed.

Lemma run_body_inv {A} (p : MParser A) Q u x :
  consumes p Q -> fits u -> run_body p u = Ok x -> Q x u.
Proof.
  intros Hp Hfit H. unfold run_body in H. unfold mbind at 1, parser_bind at 1 in H.
  destruct (p _) as [[y rd]|] eqn:Hpu; [|discriminate H].
  unfold mbind, parser_bind, r_finish in H.
  destruct (Z.eqb_spec (rd_cursor rd) (zlen (rd_bytes rd))) as [Hend|]; [|discriminate H].
  injection H as <-. by eapply consumes_whole.
Qed.

Lemma consumes_peer_event :
  consumes decode_peer_event (fun e u => wf_peer_event e /\ u = encode_peer_event e).
Proof.
  unfold decode_peer_event. consume_step. consume_tags; repeat consume_step; consume_done.
Qed.

Lemma role_from_wire_ok v r : role_from_wire v = Ok r -> v = role_wire r.
Proof.
  unfold role_from_wire. repeat case_match; intros H'; try discriminate;
    apply ok_inj in H' as <-; simpl; lia.
Qed.

Lemma close_from_wire_ok v r : close_from_wire v = Ok r -> v = close_wire r.
Proof.
  unfold close_from_wire. repeat case_match; intros H'; try discriminate;
    apply ok_inj in H' as <-; simpl; lia.
Qed.

Lemma consumes_hello :
  consumes decode_hello (fun h u => wf_hello h /\ encode_hello h = Ok u).
Proof.
  unfold decode_hello, encode_hello. repeat consume_step.
  apply consumes_ret. rewrite app_nil_r. cbn.
  repeat match goal with
  | H : role_from_wire _ = Ok _ |- _ => apply role_from_wire_ok in H; subst
  | H : _ = Ok _ |- _ => rewrite H; cbn [mbind result_bind]; clear H
  end.
  split; [by split_and!|done].
Qed.

Lemma consumes_closed :
  consumes decode_closed (fun f u => exists room_id epoch reason,
    f = FrameClosed room_id epoch reason /\ wf_frame f /\
    u = advert_bytes room_id ++ w_u32 epoch ++ w_u8 (close_wire reason)).
Proof.
  unfold decode_closed. repeat consume_step. apply consumes_ret.
  match goal with H : close_from_wire _ = Ok _ |- _ => apply close_from_wire_ok in H; subst end.
  eexists _, _, _. split; [done|]. split; [by split|]. by rewrite app_nil_r.
Qed.

Lemma phase_from_wire_ok v p : phase_from_wire v = Ok p -> v = phase_wire p.
Proof.
  unfold phase_from_wire. repeat case_match; intros H'; try discriminate;
    apply ok_inj in H' as <-; simpl; lia.
Qed.

Lemma consumes_member : consumes decode_member row_text.
Proof.
  unfold decode_member. repeat consume_step. apply consumes_ret. rewrite app_nil_r.
  split_and!; [done|done|eauto].
Qed.

Lemma consumes_rows n :
  consumes (parse_list n decode_member)
    (fun rows u => length rows = n /\ exists us, u = concat us /\ Forall2 row_text rows us).
Proof. apply consumes_list, consumes_member. Qed.
#[export] Hint Resolve consumes_rows : parse.

Lemma row_text_names rows us :
  Forall2 row_text rows us ->
  Forall wf_member_id rows.*1 /\ map_Forall (fun _ s => wf_string s) (insert_names rows).
Proof.
  intros H. assert (Forall (fun row => wf_member_id row.1 /\ wf_string row.2) rows) as Hall.
  { induction H as [|row u rows us (? & ? & _) _ IH]; constructor; auto. }
  split; [apply Forall_fmap|apply insert_names_Forall; [done|]];
    (eapply Forall_impl; [|exact Hall]; simpl; tauto).
Qed.

Lemma consumes_room_view : consumes decode_room_view (fun v u => wf_view v /\ view_text v u).
Proof.
  unfold decode_room_view. repeat consume_step. apply consumes_ret. rewrite app_nil_r.
  match goal with H : phase_from_wire _ = Ok _ |- _ => apply phase_from_wire_ok in H; subst end.
  match goal with H : fail_if (MAX_SESSION_MEMBERS <? _) _ = Ok _ |- _ =>
    apply fail_if_ok, Z.ltb_ge in H end.
  match goal with H : exists us, _ |- _ => destruct H as (us & -> & Hrows) end.
  pose proof (row_text_names _ _ Hrows) as [? ?].
  split; [unfold wf_view; cbn; by split_and!|].
  match goal with Hc : is_u8 ?n, Hl : length ?rows = Z.to_nat ?n |- _ =>
    assert (n = zlen rows) as -> by (unfold zlen, is_u8 in *; lia) end.
  eexists _, us, _, _, _. by split_and!.
Qed.
#[export] Hint Resolve consumes_room_view : parse.

Lemma consumes_adverts n :
  consumes (parse_list n decode_advert)
    (fun l u => length l = n /\ Forall wf_advert l /\ encode_adverts l = Ok u).
Proof.
  assert (consumes decode_advert (fun a u => wf_advert a /\ encode_advert a = Ok u)) as Ha.
  { unfold decode_advert, encode_advert. repeat consume_step. apply consumes_ret. rewrite app_nil_r.
    split; [by split_and!|]. cbn.
    repeat match goal with H : _ = Ok _ |- _ => rewrite H; cbn [mbind result_bind]; clear H end.
    done. }
  eapply consumes_weaken, consumes_list, Ha.
  intros l u (<- & us & -> & H). split; [done|].
  induction H as [|a u l us [Hwf Henc] _ [IHwf IH]]; [by split|].
  split; [by constructor|]. cbn [encode_adverts]. rewrite Henc. cbn [mbind result_bind].
  by rewrite IH.
Qed.
#[export] Hint Resolve consumes_adverts : parse.

Lemma consumes_response_body :
  consumes decode_response_body (fun b u => wf_response_body b /\ response_text b u).
Proof.
  unfold decode_response_body. consume_step.
  consume_tags; repeat consume_step; apply consumes_ret; rewrite ?app_nil_r;
    cbn [wf_response_body response_text encode_response_body];
    try (split_and!; eauto; fail).
  match goal with H : fail_if (MAX_LIST_ADVERTS <? _) _ = Ok _ |- _ =>
    apply fail_if_ok, Z.ltb_ge in H end.
  match goal with Hc : is_u16 ?n, Hl : length ?l = Z.to_nat ?n |- _ =>
    assert (n = zlen l) as -> by (unfold zlen, is_u16 in *; lia) end.
  split; [done|]. unfold fail_if. rewrite (proj2 (Z.ltb_ge _ _)) by done.
  cbn [mbind result_bind].
  match goal with H : encode_adverts _ = Ok _ |- _ => rewrite H end. cbn [mbind result_bind].
  unfold MAX_LIST_ADVERTS in *.
  match goal with |- context [wrap16 ?n] => by replace (wrap16 n) with n by ilia end.
Qed.

(** What a successful decode says: the frame is well typed and was spelled as [frame_text]
    says, under a header that declares its kind and length. *)
Lemma decode_frame_spelled bytes f :
  decode_control_frame bytes = Ok f ->
  wf_frame f /\ exists kind id body, is_u64 id /\ frame_text f kind id body /\
    encode_message kind id body = Ok bytes.
Proof.
  unfold decode_control_frame. intros H. ok_inv.
  apply decode_header_inv in E as (Henc & Htag & Hid & Hfit).
  assert (forall (P : Prop) kind, hdr_tag a = kind -> P /\ frame_text f kind (hdr_request_id a) (hdr_body a) ->
    P /\ exists kind id body, is_u64 id /\ frame_text f kind id body /\
      encode_message kind id body = Ok bytes) as Hout.
  { intros P kind <- [? ?]. split; [done|]. by exists (hdr_tag a), (hdr_request_id a), (hdr_body a). }
  revert H. cbv zeta.
  repeat match goal with
  | |- (if ?t =? ?c then _ else _) = _ -> _ => destruct (Z.eqb_spec t c) as [Hk|_]
  end; intros H; ok_inv; apply (Hout _ _ Hk).
  - split; [done|constructor].
  - apply (run_body_inv _ _ _ _ consumes_hello) in E as [? ?]; [|done]. by split; [|constructor].
  - apply (run_body_inv _ _ _ _ consumes_request_body) in E as [? ?]; [|done].
    split; [by split|]. by apply (text_request (mkRequest _ _)).
  - apply (run_body_inv _ _ _ _ consumes_response_body) in E as [? ?]; [|done].
    split; [by split|]. by apply (text_response (mkResponse _ _)).
  - apply (run_body_inv _ _ _ _ consumes_room_view) in E as [? ?]; [|done]. by split; [|constructor].
  - apply (run_body_inv _ _ _ _ consumes_closed) in H as (? & ? & ? & -> & ? & ->); [|done].
    by split; [|constructor].
  - apply (run_body_inv _ _ _ _ consumes_peer_event) in E as [? ->]; [|done].
    by split; [|constructor].
Qed.

(** In particular a request is spelled by the very bytes that were read. *)
Lemma decode_frame_inv bytes f :
  decode_control_frame bytes = Ok f ->
  wf_frame f /\
  forall r, f = FrameRequest r -> encode_request r = Ok bytes.
Proof.
  intros (Hwf & kind & id & body & _ & Ht & Hm)%decode_frame_spelled. split; [done|].
  intros r ->. inversion Ht as [| |? ? Hb| | | |]; subst.
  unfold encode_request, encode_control_frame. by rewrite Hb.
Qed.

(** ** Properties *)

(** C1. Every control frame the encoder accepts is decoded back to itself: all seven kinds
    of frame, all fields, for every well-typed value; a room view comes back with exactly its
    members named (absent names read ["Player"], as [encode_room_view] writes them). *)
Theorem decode_encode_control_frame f bytes :
  wf_frame f -> encode_control_frame f = Ok bytes ->
  decode_control_frame bytes = Ok (norm_frame f).
Proof. apply control_frame_roundtrip. Qed.

Definition sample_id : AdvertId := mkAdvertId (repeat Byte.x2a 16).
Definition sample_member (b : byte) : MemberId := mkMemberId (repeat b 16).

Definition sample_view : RoomView := {|
  view_room_id := sample_id; view_name := bs "room"; view_host := sample_member Byte.x01;
  view_members := [sample_member Byte.x01; sample_member Byte.x02];
  view_member_names := {[sample_member Byte.x01 := bs "host"]};
  view_map := bs "mp_boneyard"; view_mode := bs "dm"; view_joinable := true;
  view_revision := 7; view_epoch := 1; view_phase := Loading; view_max_players := 18;
  view_requires := IW4; view_available := KNOWN; view_password_protected := false |}.

Lemma sample_view_wf : wf_view sample_view.
Proof.
  unfold wf_view. do 10 (split; [first [reflexivity | in_range]|]). split.
  - repeat constructor.
  - by apply (map_Forall_singleton (M := gmap MemberId)).
Qed.

Lemma decode_encode_control_frame_witness :
  exists bytes,
    encode_control_frame (FrameRoomView sample_view) = Ok bytes /\
    decode_control_frame bytes = Ok (norm_frame (FrameRoomView sample_view)) /\
    zlen bytes = 132.
Proof.
  eexists. split; [vm_compute; reflexivity|]. split.
  - apply decode_encode_control_frame; [exact sample_view_wf|vm_compute; reflexivity].
  - vm_compute. reflexivity.
Defined.

(** C2. The request codec is exact: the decoder accepts a buffer and returns [r] precisely
    when [r] is well typed and the encoder writes that very buffer for [r].  So no request has
    two wire forms, and trailing bytes, overlong strings, non-UTF-8 strings, unknown tags and
    out-of-range booleans are all refused. *)
Theorem decode_request_iff bytes r :
  decode_request bytes = Ok r <->
  is_u64 (req_id r) /\ wf_request_body (req_body r) /\ encode_request r = Ok bytes.
Proof.
  split.
  - unfold decode_request. intros H. ok_inv. destruct a; try discriminate. ok_inv.
    apply decode_frame_inv in E as [[? ?] Hr]. split_and!; auto.
  - intros (Hid & Hwf & Henc). unfold decode_request.
    by rewrite (control_frame_roundtrip (FrameRequest r) bytes) by (done || by split).
Qed.

(** C3. The language of the wire: the decoder accepts a buffer and returns [f] precisely when
    [f] is well typed and the buffer is the header (magic, version, the kind of [f], a request id,
    the exact length of the body) followed by the text of [f] and by nothing else, the whole
    within the bound of a control message.  The text fixes every field's place and every limit:
    UTF-8 strings within the maximum of their field, at most [MAX_SESSION_MEMBERS] member rows,
    as many as the count says and naming exactly the members, at most [MAX_LIST_ADVERTS] adverts.
    It is the encoder's but for the room view, which the decoder does not validate (an empty name,
    a capacity out of range and a member listed twice are read), and for the request id, which
    it ignores in frames that have none. *)
Theorem decode_control_frame_iff bytes f :
  decode_control_frame bytes = Ok f <->
  wf_frame f /\ exists kind id body, is_u64 id /\ frame_text f kind id body /\
    encode_message kind id body = Ok bytes.
Proof.
  split; [apply decode_frame_spelled|]. intros (Hwf & kind & id & body & Hid & Ht & Hm).
  by eapply decode_frame_text.
Qed.

(** A closed frame with a request id of its own, which the encoder would not write; cut short
    by one byte it is refused. *)
Definition sample_closed : list byte :=
  MAGIC ++ w_u16 10 ++ w_u8 4 ++ w_u64 9 ++ w_u16 21 ++ repeat Byte.x2a 16 ++ w_u32 3 ++ w_u8 1.

Lemma decode_control_frame_iff_witness :
  decode_control_frame sample_closed = Ok (FrameClosed sample_id 3 LeaseExpired) /\
  encode_control_frame (FrameClosed sample_id 3 LeaseExpired) <> Ok sample_closed /\
  (exists kind id body, frame_text (FrameClosed sample_id 3 LeaseExpired) kind id body /\
     encode_message kind id body = Ok sample_closed) /\
  is_ok (decode_control_frame (removelast sample_closed)) = false.
Proof.
  assert (decode_control_frame sample_closed = Ok (FrameClosed sample_id 3 LeaseExpired)) as H
    by (vm_compute; reflexivity).
  split; [exact H|]. split; [vm_compute; congruence|]. split; [|vm_compute; reflexivity].
  apply decode_control_frame_iff in H as (_ & kind & id & body & _ & Ht & Hm).
  by exists kind, id, body.
Defined.

(** Stream framing: what [encode_stream_frame] emits is a 4-byte length the reader accepts
    followed by exactly that many bytes, which decode to the frame. *)
Theorem stream_frame_roundtrip f out :
  wf_frame f -> encode_stream_frame f = Ok out ->
  exists header inner, out = header ++ inner /\ length header = 4%nat /\
    stream_frame_len header = Ok (zlen inner) /\
    decode_stream_payload inner = Ok (norm_frame f).
Proof.
  intros Hwf H. unfold encode_stream_frame in H.
  destruct (encode_control_frame f) as [inner|] eqn:Henc; [|discriminate H].
  cbn [mbind result_bind] in H.
  destruct (Z.ltb_spec MAX_CONTROL_BYTES (zlen inner)) as [|Hmax]; [discriminate H|].
  apply ok_inj in H as <-. exists (be_bytes 4 (zlen inner)), inner.
  assert (0 < zlen inner).
  { revert Henc. unfold encode_control_frame. intros Henc. ok_inv. destruct a as [[k id] body].
    apply encode_message_ok in Henc as (_ & _ & ->). rewrite zlen_message.
    pose proof (zlen_nonneg body). unfold HEADER_BYTES. lia. }
  split_and!; [done|by apply length_be_bytes| |by apply control_frame_roundtrip].
  unfold MAX_CONTROL_BYTES in *. unfold stream_frame_len, MAX_CONTROL_BYTES.
  rewrite be_val_bytes by (simpl; lia). by zif.
Qed.

Lemma stream_frame_roundtrip_witness :
  exists out header inner,
    encode_stream_frame (FrameRequest (mkRequest 9 ReqListRooms)) = Ok out /\
    out = header ++ inner /\ length header = 4%nat /\
    stream_frame_len header = Ok (zlen inner) /\
    decode_stream_payload inner = Ok (FrameRequest (mkRequest 9 ReqListRooms)).
Proof.
  destruct (stream_frame_roundtrip (FrameRequest (mkRequest 9 ReqListRooms))
    (be_bytes 4 18 ++ MAGIC ++ w_u16 10 ++ w_u8 1 ++ w_u64 9 ++ w_u16 1 ++ w_u8 9)) as (h & i & H).
  - split; [in_range|exact I].
  - vm_compute. reflexivity.
  - exists (be_bytes 4 18 ++ MAGIC ++ w_u16 10 ++ w_u8 1 ++ w_u64 9 ++ w_u16 1 ++ w_u8 9), h, i.
    split; [vm_compute; reflexivity|exact H].
Defined.
