(* ===== verification/MasterLimits.v ===== *)
(** * Master protocol: what always fits and what does not

    A control message is at most [MAX_CONTROL_BYTES].  A room view with legal strings always
    fits, whichever frame carries it; a room list does not: the [MAX_LIST_ADVERTS] rows the
    list may have can need more than a message holds. *)

From S2P Require Export MasterRoundtrip.

(** The views the service publishes: legal strings, at most [MAX_SESSION_MEMBERS] members,
    short names. *)
Definition sendable_view (v : RoomView) : Prop :=
  wf_advert_id (view_room_id v) /\ wf_member_id (view_host v) /\
  Forall wf_member_id (view_members v) /\
  zlen (view_members v) <= MAX_SESSION_MEMBERS /\
  1 <= zlen (view_name v) <= MAX_ADVERT_NAME_BYTES /\
  1 <= zlen (view_map v) <= MAX_MAP_BYTES /\
  1 <= zlen (view_mode v) <= MAX_MODE_BYTES /\
  2 <= view_max_players v <= MAX_SESSION_MEMBERS /\
  Forall (fun m => zlen (member_name (view_member_names v) m) <= MAX_PLAYER_NAME_BYTES)
    (view_members v).

(** The frames that carry a view. *)
Definition view_frames (v : RoomView) (m : MemberId) (id : Z) : list ControlFrame :=
  [FrameRoomView v;
   FrameResponse (mkResponse id (RespRoomCreated m v));
   FrameResponse (mkResponse id (RespRoomJoined m v));
   FrameResponse (mkResponse id (RespRoomUpdated v))].

(** An advert whose three strings have their maximal lengths. *)
Definition full_advert (a : Advert) : Prop :=
  wf_advert a /\ zlen (adv_name a) = MAX_ADVERT_NAME_BYTES /\
  zlen (adv_map a) = MAX_MAP_BYTES /\ zlen (adv_mode a) = MAX_MODE_BYTES.

Lemma w_string_fits s max :
  zlen s <= max -> max <= u8_max -> w_string s max = Ok (w_u8 (zlen s) ++ s).
Proof. intros. apply w_string_intro; [done|]. pose proof (zlen_nonneg s). ilia. Qed.

Lemma encode_members_total names ms :
  Forall wf_member_id ms ->
  Forall (fun m => zlen (member_name names m) <= MAX_PLAYER_NAME_BYTES) ms ->
  exists u, encode_members names ms = Ok u /\ zlen u <= 81 * zlen ms.
Proof.
  intros Hids Hnames. induction ms as [|m ms IH]; cbn [encode_members].
  - exists []. by split.
  - inversion_clear Hids as [|? ? Hid Hids']. inversion_clear Hnames as [|? ? Hname Hnames'].
    destruct (IH Hids' Hnames') as (u & -> & Hu).
    rewrite w_string_fits by (assumption || (vm_compute; congruence)). cbn [mbind result_bind].
    eexists. split; [reflexivity|]. unfold wf_member_id, MAX_PLAYER_NAME_BYTES in *.
    unfold w_u8. autorewrite with zlen. lia.
Qed.

Lemma encode_room_view_total v :
  sendable_view v -> exists u, encode_room_view v = Ok u /\ zlen u <= 1660.
Proof.
  intros (Hid & Hhost & Hms & Hcount & Hname & Hmap & Hmode & Hmax & Hnames).
  unfold encode_room_view.
  unfold validate_advert, is_empty, fail_if, MAX_SESSION_MEMBERS, MAX_ADVERT_NAME_BYTES,
    MAX_MAP_BYTES, MAX_MODE_BYTES in *.
  zif. cbn [mbind result_bind]. zif. cbn [mbind result_bind].
  rewrite !w_string_fits by (lia || (vm_compute; congruence)). cbn [mbind result_bind].
  destruct (encode_members_total (view_member_names v) (view_members v)) as (u & -> & Hu);
    [done|done|].
  cbn [mbind result_bind]. eexists. split; [reflexivity|].
  unfold wf_advert_id, wf_member_id in *. unfold w_u8, w_u32, w_u64. autorewrite with zlen. lia.
Qed.

Lemma encode_message_total tag id body :
  zlen body <= 16000 -> exists bytes, encode_message tag id body = Ok bytes.
Proof.
  intros H. unfold encode_message, HEADER_BYTES, MAX_CONTROL_BYTES. zif. by eexists.
Qed.

Lemma encode_adverts_full l :
  Forall full_advert l -> exists u, encode_adverts l = Ok u /\ zlen u = 170 * zlen l.
Proof.
  induction 1 as [|a l (Hwf & Hn & Hm & Hd) Hl (u & Hu & Hlen)]; cbn [encode_adverts].
  - exists []. by split.
  - unfold encode_advert. rewrite !w_string_fits by ((rewrite ?Hn, ?Hm, ?Hd; lia) || (vm_compute; congruence)).
    cbn [mbind result_bind]. rewrite Hu. cbn [mbind result_bind].
    eexists. split; [reflexivity|].
    destruct Hwf as (Hid & _). unfold wf_advert_id in Hid.
    unfold MAX_ADVERT_NAME_BYTES, MAX_MAP_BYTES, MAX_MODE_BYTES in *.
    unfold w_u8, w_u64. autorewrite with zlen. lia.
Qed.

Lemma view_frames_encode v m id f :
  sendable_view v -> wf_member_id m -> f ∈ view_frames v m id ->
  exists bytes, encode_control_frame f = Ok bytes.
Proof.
  intros Hv Hm Hf. destruct (encode_room_view_total v Hv) as (u & Hu & Hlen).
  unfold wf_member_id in Hm. unfold view_frames in Hf.
  repeat (apply elem_of_cons in Hf as [->|Hf]); [..|by apply elem_of_nil in Hf];
    unfold encode_control_frame; cbn [resp_body resp_id encode_response_body];
    rewrite Hu; cbn [mbind result_bind]; apply encode_message_total;
    unfold w_u8; autorewrite with zlen; lia.
Qed.

(** A control frame that encodes at all fits the stream framing. *)
Lemma encode_stream_of f bytes :
  encode_control_frame f = Ok bytes ->
  encode_stream_frame f = Ok (be_bytes 4 (zlen bytes) ++ bytes).
Proof.
  intros Hbytes. unfold encode_stream_frame. rewrite Hbytes. cbn [mbind result_bind].
  unfold encode_control_frame in Hbytes. ok_inv. destruct a as [[k i] body].
  apply encode_message_ok in Hbytes as (Hmax & _ & ->). rewrite zlen_message.
  by rewrite (proj2 (Z.ltb_ge _ _)) by lia.
Qed.

(** A room view within the protocol's string and member limits can always be sent: the
    view frame and the three responses that carry a view are all encodable, so publishing a
    view never fails for its size. *)
Theorem view_frames_encodable v m id f :
  sendable_view v -> wf_member_id m -> f ∈ view_frames v m id ->
  exists out, encode_stream_frame f = Ok out.
Proof.
  intros Hv Hm Hf. destruct (view_frames_encode v m id f Hv Hm Hf) as [bytes Hb].
  eexists. by apply encode_stream_of.
Qed.

Lemma view_frames_encodable_witness :
  sendable_view sample_view /\
  exists out, encode_stream_frame (FrameRoomView sample_view) = Ok out.
Proof.
  assert (sendable_view sample_view) as Hs.
  { unfold sendable_view. split; [reflexivity|]. split; [reflexivity|].
    split; [repeat constructor|]. do 5 (split; [vm_compute; repeat split; congruence|]).
    repeat constructor; vm_compute; congruence. }
  split; [exact Hs|].
  apply (view_frames_encodable sample_view (sample_member Byte.x01) 4); [exact Hs|reflexivity|].
  by left.
Defined.

(** The room list is different: when the listed rooms use the full string lengths the
    protocol allows, the response is encodable exactly up to 96 rooms, although
    [MAX_LIST_ADVERTS] lets the service list 128. *)
Theorem room_list_capacity adverts generation id :
  Forall full_advert adverts -> zlen adverts <= MAX_LIST_ADVERTS ->
  is_ok (encode_response (mkResponse id (RespRoomList generation adverts))) =
    (zlen adverts <=? 96).
Proof.
  intros Hfull Hmax. destruct (encode_adverts_full adverts Hfull) as (u & Hu & Hlen).
  unfold encode_response, encode_control_frame. cbn [resp_body resp_id encode_response_body].
  unfold fail_if. rewrite (proj2 (Z.ltb_ge _ _)) by done. cbn [mbind result_bind].
  rewrite Hu. cbn [mbind result_bind]. unfold encode_message.
  pose proof (zlen_nonneg adverts).
  unfold w_u8, w_u16, w_u64, HEADER_BYTES, MAX_CONTROL_BYTES, MAX_LIST_ADVERTS in *.
  autorewrite with zlen. rewrite Hlen. unfold is_ok.
  set (n := zlen adverts) in *. cbn [Z.of_nat Pos.of_succ_nat Pos.succ].
  destruct (Z.leb_spec n 96) as [Hle|Hgt].
  - rewrite (proj2 (Z.ltb_ge (16 * 1024) _)) by lia.
    rewrite (proj2 (Z.ltb_ge u16_max _)) by (unfold u16_max; lia). reflexivity.
  - rewrite (proj2 (Z.ltb_lt (16 * 1024) _)) by lia. reflexivity.
Qed.

Definition sample_full_advert : Advert :=
  mkAdvert sample_id (repeat Byte.x61 48) (repeat Byte.x61 64) (repeat Byte.x61 24) 1 2
    false false IW4 IW4 false 1.

Lemma room_list_capacity_witness :
  is_ok (encode_response (mkResponse 1 (RespRoomList 1 (repeat sample_full_advert 97)))) = false.
Proof.
  rewrite room_list_capacity; [reflexivity| |vm_compute; congruence].
  apply List.Forall_forall. intros a ->%repeat_spec. split; [|by vm_compute].
  unfold wf_advert. do 8 (split; [first [reflexivity | in_range]|]). in_range.
Defined.
