(* ===== verification/MasterRelay.v ===== *)
(** * Master protocol: relay datagrams

    [encode_relay], [encode_relay_stream] and the two decoders of
    crates/master_protocol/src/lib.rs: a version byte, a tag, the member for the two
    addressed directions, and the opaque payload.  The decoder accepts exactly what the
    encoder produces, so relaying never rewrites a payload; and a payload that just fits the
    control stream on its way in does not always fit on its way out ([restream_limit]). *)

From S2P Require Export MasterRoundtrip.

Definition relay_parts (d : RelayDatagram) : Z * option MemberId * list byte :=
  match d with
  | ClientToHost payload => (1, None, payload)
  | HostToMember member_id payload => (2, Some member_id, payload)
  | ServiceToHost member_id payload => (3, Some member_id, payload)
  | ServiceToMember payload => (4, None, payload)
  end.

Definition encode_relay_bounded (d : RelayDatagram) (max_payload : Z)
    : Result ProtocolError (list byte) :=
  let '(tag, member, payload) := relay_parts d in
  if max_payload <? zlen payload then Err (PLengthExceeded (zlen payload))
  else Ok ([byte_of (wrap8 PROTOCOL_VERSION)] ++ [byte_of tag]
           ++ (match member with Some m => member_bytes m | None => [] end) ++ payload).

Definition encode_relay (d : RelayDatagram) : Result ProtocolError (list byte) :=
  encode_relay_bounded d MAX_OPAQUE_PAYLOAD.
Definition encode_relay_stream (d : RelayDatagram) : Result ProtocolError (list byte) :=
  encode_relay_bounded d MAX_BOOTSTRAP_PAYLOAD.

Definition decode_relay_bounded (bytes : list byte) (max_payload : Z)
    : Result ProtocolError RelayDatagram :=
  _ ← fail_if (zlen bytes <? 2) PTruncated;
  _ ← fail_if (negb (byte_at bytes 0 =? wrap8 PROTOCOL_VERSION))
        (PVersionMismatch PROTOCOL_VERSION (byte_at bytes 0));
  let tag := byte_at bytes 1 in
  '(member, payload) ←
    if (tag =? 2) || (tag =? 3) then
      if zlen bytes <? 18 then Err PTruncated
      else Ok (Some (mkMemberId (slice bytes 2 18)), zdrop 18 bytes)
    else Ok (None, zdrop 2 bytes);
  _ ← fail_if (max_payload <? zlen payload) (PLengthExceeded (zlen payload));
  match member with
  | None => if tag =? 1 then Ok (ClientToHost payload)
            else if tag =? 4 then Ok (ServiceToMember payload) else Err (PUnknownTag tag)
  | Some member_id => if tag =? 2 then Ok (HostToMember member_id payload)
                      else if tag =? 3 then Ok (ServiceToHost member_id payload)
                      else Err (PUnknownTag tag)
  end.

Definition decode_relay (bytes : list byte) : Result ProtocolError RelayDatagram :=
  decode_relay_bounded bytes MAX_OPAQUE_PAYLOAD.
Definition decode_relay_stream (bytes : list byte) : Result ProtocolError RelayDatagram :=
  decode_relay_bounded bytes MAX_BOOTSTRAP_PAYLOAD.

Definition relay_payload (d : RelayDatagram) : list byte := (relay_parts d).2.

Lemma encode_relay_bounded_ok d max out :
  encode_relay_bounded d max = Ok out ->
  zlen (relay_payload d) <= max /\
  out = [byte_of 10; byte_of (relay_parts d).1.1]
        ++ (match (relay_parts d).1.2 with Some m => member_bytes m | None => [] end)
        ++ relay_payload d.
Proof.
  unfold encode_relay_bounded, relay_payload.
  destruct (relay_parts d) as [[tag member] payload]. cbn [fst snd].
  destruct (Z.ltb_spec max (zlen payload)); [discriminate|]. intros [= <-]. split; [lia|done].
Qed.

Lemma member_slice (a b : byte) m p : zlen m = 16 -> slice ([a; b] ++ m ++ p) 2 18 = m.
Proof. intros Hm. apply (slice_at _ [a; b] m p); [done|done|]. rewrite Hm. done. Qed.

Lemma member_rest (a b : byte) m p : zlen m = 16 -> zdrop 18 ([a; b] ++ m ++ p) = p.
Proof.
  intros Hm. apply (zdrop_at _ ([a; b] ++ m) p); [by rewrite <- app_assoc|].
  rewrite zlen_app, Hm. done.
Qed.

Lemma decode_relay_bounded_complete d max out :
  wf_relay d -> encode_relay_bounded d max = Ok out -> decode_relay_bounded out max = Ok d.
Proof.
  intros Hwf (Hmax & ->)%encode_relay_bounded_ok. unfold relay_payload in *.
  pose proof (fun l => zlen_nonneg (A:=byte) l) as Hpos.
  destruct d as [p|m p|m p|p]; cbn [relay_parts fst snd] in *; unfold decode_relay_bounded, fail_if;
    cbn [wf_relay] in Hwf; unfold wf_member_id in *; autorewrite with zlen; rewrite ?Hwf;
    specialize (Hpos p);
    rewrite (proj2 (Z.ltb_ge _ 2)) by lia; cbn [mbind result_bind];
    match goal with |- context [byte_at (?l) 0] =>
      change (byte_at l 0 =? wrap8 PROTOCOL_VERSION) with true end;
    cbn [negb mbind result_bind].
  - change (byte_at _ 1) with 1. cbn [Z.eqb Pos.eqb orb mbind result_bind].
    rewrite (zdrop_at _ [_; _] p) by done.
    rewrite (proj2 (Z.ltb_ge _ _)) by lia. done.
  - change (byte_at _ 1) with 2. cbn [Z.eqb Pos.eqb orb mbind result_bind].
    rewrite (proj2 (Z.ltb_ge _ 18)) by lia. cbn [mbind result_bind].
    rewrite member_slice, member_rest by done.
    rewrite (proj2 (Z.ltb_ge _ _)) by lia. by destruct m.
  - change (byte_at _ 1) with 3. cbn [Z.eqb Pos.eqb orb mbind result_bind].
    rewrite (proj2 (Z.ltb_ge _ 18)) by lia. cbn [mbind result_bind].
    rewrite member_slice, member_rest by done.
    rewrite (proj2 (Z.ltb_ge _ _)) by lia. by destruct m.
  - change (byte_at _ 1) with 4. cbn [Z.eqb Pos.eqb orb mbind result_bind].
    rewrite (zdrop_at _ [_; _] p) by done.
    rewrite (proj2 (Z.ltb_ge _ _)) by lia. done.
Qed.

Lemma zlen_two (l : list byte) : 2 <= zlen l -> exists a b r, l = [a; b] ++ r.
Proof.
  destruct l as [|a [|b r]]; autorewrite with zlen; intros H; [lia|lia|by exists a, b, r].
Qed.

Lemma split_at (l : list byte) n :
  0 <= n <= zlen l -> exists u v, l = u ++ v /\ zlen u = n.
Proof.
  intros H. exists (take (Z.to_nat n) l), (drop (Z.to_nat n) l).
  rewrite take_drop. split; [done|]. unfold zlen in *. rewrite length_take. lia.
Qed.

Lemma decode_relay_bounded_sound d max bytes :
  decode_relay_bounded bytes max = Ok d ->
  wf_relay d /\ encode_relay_bounded d max = Ok bytes.
Proof.
  unfold decode_relay_bounded, fail_if.
  destruct (Z.ltb_spec (zlen bytes) 2) as [|Hlen]; [discriminate|].
  destruct (zlen_two bytes Hlen) as (a & b & rest & ->).
  cbn [mbind result_bind]. change (byte_at _ 0) with (byte_val a). change (byte_at _ 1) with (byte_val b).
  destruct (Z.eqb_spec (byte_val a) (wrap8 PROTOCOL_VERSION)) as [Ha|]; cbn [negb mbind result_bind];
    [|discriminate].
  assert (a = byte_of (wrap8 PROTOCOL_VERSION)) as -> by (rewrite <- Ha; symmetry; apply byte_of_val).
  destruct ((byte_val b =? 2) || (byte_val b =? 3)) eqn:Htag.
  - destruct (Z.ltb_spec (zlen ([byte_of (wrap8 PROTOCOL_VERSION); b] ++ rest)) 18) as [|H18]; [discriminate|].
    autorewrite with zlen in H18. destruct (split_at rest 16) as (m & p & -> & Hm); [lia|].
    rewrite member_slice, member_rest by done. cbn [mbind result_bind].
    destruct (Z.ltb_spec max (zlen p)) as [|Hp]; [discriminate|]. cbn [mbind result_bind].
    destruct (Z.eqb_spec (byte_val b) 2) as [Hb|Hb2]; [|destruct (Z.eqb_spec (byte_val b) 3) as [Hb|]; [|discriminate]];
      intros [= <-]; (split; [exact Hm|]); unfold encode_relay_bounded; cbn [relay_parts];
      rewrite (proj2 (Z.ltb_ge _ _)) by lia; rewrite <- Hb, byte_of_val; done.
  - rewrite (zdrop_at _ [_; b] rest) by done. cbn [mbind result_bind].
    destruct (Z.ltb_spec max (zlen rest)) as [|Hp]; [discriminate|]. cbn [mbind result_bind].
    destruct (Z.eqb_spec (byte_val b) 1) as [Hb|Hb2]; [|destruct (Z.eqb_spec (byte_val b) 4) as [Hb|]; [|discriminate]];
      intros [= <-]; (split; [exact I|]); unfold encode_relay_bounded; cbn [relay_parts];
      rewrite (proj2 (Z.ltb_ge _ _)) by lia; rewrite <- Hb, byte_of_val; done.
Qed.

Lemma decode_relay_bounded_iff d max bytes :
  decode_relay_bounded bytes max = Ok d <-> wf_relay d /\ encode_relay_bounded d max = Ok bytes.
Proof.
  split; [apply decode_relay_bounded_sound|]. intros [Hwf He].
  by apply decode_relay_bounded_complete.
Qed.

(** C4. Both relay decoders accept exactly the bytes their encoder produces: a datagram (or a
    bootstrap stream) has one wire form, and every accepted buffer is a well-typed relay
    whose payload is within the bound. *)
Theorem decode_relay_iff d bytes :
  (decode_relay bytes = Ok d <-> wf_relay d /\ encode_relay d = Ok bytes) /\
  (decode_relay_stream bytes = Ok d <-> wf_relay d /\ encode_relay_stream d = Ok bytes).
Proof. split; apply decode_relay_bounded_iff. Qed.

(** Whether a relay can be put on the control stream: it encodes, and the frame around it
    stays within a control message. *)
Definition streamable (d : RelayDatagram) : bool :=
  match encode_relay_stream d with
  | Ok outgoing => is_ok (encode_stream_frame (FrameRelay outgoing))
  | Err _ => false
  end.

Lemma encode_stream_relay_ok b :
  is_ok (encode_stream_frame (FrameRelay b)) = (zlen b <=? MAX_CONTROL_BYTES - HEADER_BYTES).
Proof.
  unfold encode_stream_frame, encode_control_frame, encode_message.
  pose proof (zlen_nonneg b). unfold MAX_CONTROL_BYTES, HEADER_BYTES.
  destruct (Z.leb_spec (zlen b) (16 * 1024 - 17)) as [Hle|Hgt].
  - rewrite (proj2 (Z.ltb_ge (16 * 1024 - 17) (zlen b))) by lia. cbn [mbind result_bind].
    rewrite (proj2 (Z.ltb_ge (16 * 1024) _)) by lia.
    rewrite (proj2 (Z.ltb_ge u16_max _)) by (unfold u16_max; lia). cbn [orb mbind result_bind].
    unfold w_u16, w_u8, w_u64. rewrite (proj2 (Z.ltb_ge _ _)); [done|].
    autorewrite with zlen. change (zlen MAGIC) with 4. lia.
  - by rewrite (proj2 (Z.ltb_lt _ (zlen b))) by lia.
Qed.

Lemma streamable_spec d :
  wf_relay d ->
  streamable d =
    (zlen (relay_payload d) <=?
       MAX_CONTROL_BYTES - HEADER_BYTES - match (relay_parts d).1.2 with Some _ => 18 | None => 2 end).
Proof.
  intros Hwf. unfold streamable, encode_relay_stream.
  destruct (encode_relay_bounded d MAX_BOOTSTRAP_PAYLOAD) as [out|e] eqn:He.
  - apply encode_relay_bounded_ok in He as (Hmax & ->). rewrite encode_stream_relay_ok.
    autorewrite with zlen. unfold relay_payload, MAX_CONTROL_BYTES, HEADER_BYTES in *.
    destruct d; cbn [relay_parts fst snd wf_relay] in *; unfold wf_member_id in *;
      rewrite ?Hwf; apply Bool.eq_iff_eq_true; rewrite !Z.leb_le;
      unfold zlen; cbn [length]; lia.
  - unfold encode_relay_bounded, relay_payload in *.
    destruct (relay_parts d) as [[tag member] payload]. cbn [fst snd].
    destruct (Z.ltb_spec MAX_BOOTSTRAP_PAYLOAD (zlen payload)); [|discriminate].
    symmetry. apply Z.leb_gt. unfold MAX_BOOTSTRAP_PAYLOAD, MAX_CONTROL_BYTES, HEADER_BYTES in *.
    destruct member; lia.
Qed.

(** A relay a client can put on its control stream is not always one the service can
    forward: adding the sender's member id makes the outgoing frame 16 bytes longer, so the
    client's payloads between 16350 and 16365 bytes arrive but cannot be re-sent. *)
Theorem restream_limit m payload :
  wf_member_id m ->
  (streamable (ClientToHost payload) = true /\
   streamable (ServiceToHost m payload) = false) <-> 16350 <= zlen payload <= 16365.
Proof.
  intros Hm. rewrite (streamable_spec (ClientToHost payload)) by exact I.
  rewrite (streamable_spec (ServiceToHost m payload)) by exact Hm.
  unfold relay_payload. cbn [relay_parts fst snd].
  unfold MAX_CONTROL_BYTES, HEADER_BYTES. rewrite Z.leb_le, Z.leb_gt. lia.
Qed.

Lemma restream_limit_witness :
  wf_member_id (sample_member Byte.x01) /\
  streamable (ClientToHost (repeat Byte.x00 (Z.to_nat 16350))) = true.
Proof.
  assert (wf_member_id (sample_member Byte.x01)) as Hm by reflexivity.
  split; [exact Hm|]. apply (restream_limit (sample_member Byte.x01)); [exact Hm|].
  unfold zlen. rewrite repeat_length, Z2Nat.id by lia. lia.
Defined.
