(* ===== verification/MasterService.v ===== *)
(** * Master room service: state and operations

    [ServiceState] of crates/iw4l-master/src/main.rs and everything that runs under its lock:
    the request handlers, connection set-up and tear-down, relay routing and the delivery of
    publishes.  What the operating system and the crates behind it decide is an argument:
    random bytes ([Draw]), the clock ([now]), SHA-256 ([sha256]), the QUIC connection ([Conn])
    and the queue of the connection's writer task ([Sender], [reserve]).

    A handler that panics has already changed the state it holds (the [tokio] mutex does not
    poison), so a panic is an [Outcome] with a state. *)

From stdpp Require Export sorting.
From S2P Require Export MasterRelay.

Definition MAX_ROOMS : Z := 10000.
Definition CLI_ONLINE_NANOS : Z := 10 * 1000000000.

(** [random_bytes] calls of one handler. *)
Record Draw : Type := mkDraw { draw_room : list byte; draw_member : list byte; draw_salt : list byte }.

Record PasswordVerifier : Type := mkVerifier { pv_salt : list byte; pv_digest : list byte }.

Record Room : Type := mkRoom {
  rm_view : RoomView;
  rm_password : option PasswordVerifier;
  rm_host_connection_id : Z;
  rm_member_of : gmap Z MemberId;
  rm_connection_of : gmap MemberId Z;
}.

Record Peer (Conn Sender : Type) : Type := mkPeer {
  pr_online : option Z;
  pr_player_name : list byte;
  pr_connection : Conn;
  pr_control_tx : Sender;
}.
Arguments mkPeer {Conn Sender}.
Arguments pr_online {Conn Sender}.
Arguments pr_player_name {Conn Sender}.
Arguments pr_connection {Conn Sender}.
Arguments pr_control_tx {Conn Sender}.

Record ServiceState (Conn Sender : Type) : Type := mkState {
  st_rooms : gmap AdvertId Room;
  st_peers : gmap Z (Peer Conn Sender);
  st_membership : gmap Z AdvertId;
  st_generation : Z;
}.
Arguments mkState {Conn Sender}.
Arguments st_rooms {Conn Sender}.
Arguments st_peers {Conn Sender}.
Arguments st_membership {Conn Sender}.
Arguments st_generation {Conn Sender}.

Definition Publish : Type := Z * ControlFrame.

Inductive Outcome (S : Type) : Type :=
| Returned (s : S) (body : ResponseBody) (publishes : list Publish)
| Panicked (s : S).
Arguments Returned {S}.
Arguments Panicked {S}.

(** ** Views *)

(** [revision.wrapping_add(1).max(1)]. *)
Definition next_revision (revision : Z) : Z := Z.max (wrapping_add64 revision 1) 1.
Definition next_epoch (epoch : Z) : Z := Z.max (wrapping_add32 epoch 1) 1.

Definition set_revision (v : RoomView) (revision : Z) : RoomView :=
  {| view_room_id := view_room_id v; view_name := view_name v; view_host := view_host v;
     view_members := view_members v; view_member_names := view_member_names v;
     view_map := view_map v; view_mode := view_mode v; view_joinable := view_joinable v;
     view_revision := revision; view_epoch := view_epoch v; view_phase := view_phase v;
     view_max_players := view_max_players v; view_requires := view_requires v;
     view_available := view_available v; view_password_protected := view_password_protected v |}.

Definition set_members (v : RoomView) (members : list MemberId)
    (names : gmap MemberId (list byte)) : RoomView :=
  {| view_room_id := view_room_id v; view_name := view_name v; view_host := view_host v;
     view_members := members; view_member_names := names;
     view_map := view_map v; view_mode := view_mode v; view_joinable := view_joinable v;
     view_revision := view_revision v; view_epoch := view_epoch v; view_phase := view_phase v;
     view_max_players := view_max_players v; view_requires := view_requires v;
     view_available := view_available v; view_password_protected := view_password_protected v |}.

Definition set_map_mode (v : RoomView) (map mode : list byte) (joinable : bool) : RoomView :=
  {| view_room_id := view_room_id v; view_name := view_name v; view_host := view_host v;
     view_members := view_members v; view_member_names := view_member_names v;
     view_map := map; view_mode := mode; view_joinable := joinable;
     view_revision := view_revision v; view_epoch := view_epoch v; view_phase := view_phase v;
     view_max_players := view_max_players v; view_requires := view_requires v;
     view_available := view_available v; view_password_protected := view_password_protected v |}.

Definition set_phase (v : RoomView) (epoch : Z) (phase : RoomPhase) : RoomView :=
  {| view_room_id := view_room_id v; view_name := view_name v; view_host := view_host v;
     view_members := view_members v; view_member_names := view_member_names v;
     view_map := view_map v; view_mode := view_mode v; view_joinable := view_joinable v;
     view_revision := view_revision v; view_epoch := epoch; view_phase := phase;
     view_max_players := view_max_players v; view_requires := view_requires v;
     view_available := view_available v; view_password_protected := view_password_protected v |}.

Definition set_protected (v : RoomView) (protected : bool) : RoomView :=
  {| view_room_id := view_room_id v; view_name := view_name v; view_host := view_host v;
     view_members := view_members v; view_member_names := view_member_names v;
     view_map := view_map v; view_mode := view_mode v; view_joinable := view_joinable v;
     view_revision := view_revision v; view_epoch := view_epoch v; view_phase := view_phase v;
     view_max_players := view_max_players v; view_requires := view_requires v;
     view_available := view_available v; view_password_protected := protected |}.

Definition bump_view (v : RoomView) : RoomView := set_revision v (next_revision (view_revision v)).

Definition set_view (room : Room) (v : RoomView) : Room :=
  {| rm_view := v; rm_password := rm_password room;
     rm_host_connection_id := rm_host_connection_id room;
     rm_member_of := rm_member_of room; rm_connection_of := rm_connection_of room |}.

(** ** Player names *)

Definition normalize_player_name (name : list byte) : list byte :=
  let chars := default [] (utf8_decode name) in
  let kept := take 16 (filter (fun c => is_control c = false) (trim chars)) in
  if decide (kept = []) then bs "Player" else utf8_encode kept.

(** ** Room list order: the derived [Ord] of a byte array *)

Definition advert_le (a b : Advert) : Prop :=
  bytes_leb (advert_bytes (adv_id a)) (advert_bytes (adv_id b)) = true.

#[export] Instance advert_le_dec : RelDecision advert_le :=
  fun a b => decide (bytes_leb (advert_bytes (adv_id a)) (advert_bytes (adv_id b)) = true).

Definition map_content_allowed (map : list byte) (families : ContentFlags) : bool :=
  match for_map map with Some fam => flags_contains families fam | None => false end.

(** The checks of [create_room] on the content the room asks for and its host has. *)
Definition room_content_ok (map : list byte) (requires available : ContentFlags) : bool :=
  flags_contains KNOWN requires && flags_contains requires IW4 &&
  flags_is_empty (missing_from requires available) && map_content_allowed map requires.

Section Service.
Context {Conn Sender : Type}.
(** The byte semaphore and the bounded channel of a [ControlSender]: the sender after a frame
    of that many bytes was queued, or nothing when either is exhausted. *)
Context (reserve : Sender -> Z -> option Sender).
Context (sha256 : list byte -> list byte).

Abbreviation State := (ServiceState Conn Sender).
Abbreviation PeerOf := (Peer Conn Sender).

Definition state_default : State := mkState ∅ ∅ ∅ 0.

(** ** [PasswordVerifier] *)

Definition pv_compute (salt password : list byte) : list byte := sha256 (salt ++ password).

Definition pv_new (salt password : list byte) : option PasswordVerifier :=
  if is_empty password then None else Some (mkVerifier salt (pv_compute salt password)).

Definition xor_difference (a b : list byte) : Z :=
  fold_left (fun difference p => Z.lor difference (Z.lxor (byte_val p.1) (byte_val p.2)))
    (zip a b) 0.

Definition pv_matches (v : PasswordVerifier) (password : list byte) : bool :=
  xor_difference (pv_digest v) (pv_compute (pv_salt v) password) =? 0.

(** ** [ServiceState] *)

Definition set_rooms (s : State) (rs : gmap AdvertId Room) : State :=
  mkState rs (st_peers s) (st_membership s) (st_generation s).
Definition set_peers (s : State) (ps : gmap Z PeerOf) : State :=
  mkState (st_rooms s) ps (st_membership s) (st_generation s).
Definition set_membership (s : State) (ms : gmap Z AdvertId) : State :=
  mkState (st_rooms s) (st_peers s) ms (st_generation s).

(** [generation.wrapping_add(1)]. *)
Definition touch (s : State) : State :=
  mkState (st_rooms s) (st_peers s) (st_membership s) (wrapping_add64 (st_generation s) 1).

Definition put_room (s : State) (r : AdvertId) (room : Room) : State :=
  set_rooms s (<[r := room]> (st_rooms s)).

Definition attach_peer (s : State) (c : Z) (player_name : list byte) (connection : Conn)
    (control_tx : Sender) : State :=
  set_peers s (<[c := mkPeer None player_name connection control_tx]> (st_peers s)).

(** The keys of a room's [member_of], in the map's iteration order. *)
Definition room_connections (room : Room) : list Z := (map_to_list (rm_member_of room)).*1.

Definition publish_view (s : State) (r : AdvertId) : list Publish :=
  match st_rooms s !! r with
  | None => []
  | Some room => map (fun c => (c, FrameRoomView (rm_view room))) (room_connections room)
  end.

Definition close_room (s : State) (r : AdvertId) (reason : SessionCloseReason)
    : State * list Publish :=
  match st_rooms s !! r with
  | None => (s, [])
  | Some room =>
      let s := touch (set_rooms s (delete r (st_rooms s))) in
      let frame := FrameClosed r (view_epoch (rm_view room)) reason in
      (set_membership s (foldr delete (st_membership s) (room_connections room)),
       map (fun c => (c, frame)) (room_connections room))
  end.

Definition remove_member (s : State) (c : Z) : State * list Publish :=
  match st_membership s !! c with
  | None => (s, [])
  | Some r =>
      let s := set_membership s (delete c (st_membership s)) in
      match st_rooms s !! r with
      | None => (s, [])
      | Some room =>
          match rm_member_of room !! c with
          | None => (s, [])
          | Some m =>
              let v := rm_view room in
              let v := set_members v (filter (fun id => id <> m) (view_members v))
                         (delete m (view_member_names v)) in
              let room := {| rm_view := bump_view v; rm_password := rm_password room;
                             rm_host_connection_id := rm_host_connection_id room;
                             rm_member_of := delete c (rm_member_of room);
                             rm_connection_of := delete m (rm_connection_of room) |} in
              let s := touch (put_room s r room) in
              (s, publish_view s r)
          end
      end
  end.

Definition disconnect (s : State) (c : Z) : State * list Publish :=
  let s := set_peers s (delete c (st_peers s)) in
  match st_membership s !! c with
  | None => (s, [])
  | Some r =>
      match st_rooms s !! r with
      | None => (set_membership s (delete c (st_membership s)), [])
      | Some room =>
          if rm_host_connection_id room =? c then close_room s r HostLeft
          else remove_member s c
      end
  end.

Definition bump_room (s : State) (r : AdvertId) : State :=
  touch (match st_rooms s !! r with
         | Some room => put_room s r (set_view room (bump_view (rm_view room)))
         | None => s
         end).

Definition host_of (s : State) (c : Z) : Result ServiceError AdvertId :=
  r ← ok_or SvcNotMember (st_membership s !! c);
  room ← ok_or SvcUnknownAdvert (st_rooms s !! r);
  _ ← fail_if (negb (rm_host_connection_id room =? c)) SvcNotHost;
  Ok r.

Definition member_of (s : State) (c : Z) : Result ServiceError (AdvertId * MemberId) :=
  r ← ok_or SvcNotMember (st_membership s !! c);
  room ← ok_or SvcUnknownAdvert (st_rooms s !! r);
  m ← ok_or SvcNotMember (rm_member_of room !! c);
  Ok (r, m).

(** ** Relay routing *)

Inductive RouteError : Type := RtService (e : ServiceError) | RtProtocol (e : ProtocolError).

Definition as_route {A} (r : Result ServiceError A) : Result RouteError A :=
  match r with Ok a => Ok a | Err e => Err (RtService e) end.

Definition as_encoded {A} (r : Result ProtocolError A) : Result RouteError A :=
  match r with Ok a => Ok a | Err e => Err (RtProtocol e) end.

Definition peer_connection (s : State) (c : Z) : option Conn :=
  pr_connection <$> st_peers s !! c.

(** [route_target] and [route_target_stream], which differ in the encoder. *)
Definition route_with (encode : RelayDatagram -> Result ProtocolError (list byte))
    (s : State) (c : Z) (relay : RelayDatagram) : Result RouteError (Conn * list byte) :=
  match relay with
  | ClientToHost payload =>
      '(r, m) ← as_route (member_of s c);
      room ← as_route (ok_or SvcUnknownAdvert (st_rooms s !! r));
      host ← as_route (ok_or SvcNotHost (peer_connection s (rm_host_connection_id room)));
      outgoing ← as_encoded (encode (ServiceToHost m payload));
      Ok (host, outgoing)
  | HostToMember m payload =>
      r ← as_route (host_of s c);
      room ← as_route (ok_or SvcUnknownAdvert (st_rooms s !! r));
      target_id ← as_route (ok_or SvcNotMember (rm_connection_of room !! m));
      target ← as_route (ok_or SvcNotMember (peer_connection s target_id));
      outgoing ← as_encoded (encode (ServiceToMember payload));
      Ok (target, outgoing)
  | ServiceToHost _ _ | ServiceToMember _ => Err (RtService SvcMalformed)
  end.

Definition route_target : State -> Z -> RelayDatagram -> Result RouteError (Conn * list byte) :=
  route_with encode_relay.
Definition route_target_stream
    : State -> Z -> RelayDatagram -> Result RouteError (Conn * list byte) :=
  route_with encode_relay_stream.

(** ** Delivery *)

(** [ControlSender::try_send]. *)
Definition try_send (tx : Sender) (frame : ControlFrame) : option Sender :=
  match encode_stream_frame frame with
  | Ok bytes => reserve tx (zlen bytes)
  | Err _ => None
  end.

Definition set_tx (p : PeerOf) (tx : Sender) : PeerOf :=
  mkPeer (pr_online p) (pr_player_name p) (pr_connection p) tx.

(** The first loop of [dispatch_publishes]: the connections that could not take a frame, each
    closed on the spot, and the queues after the frames that were taken. *)
Fixpoint send_all (s : State) (publishes : list Publish) : State * list Z :=
  match publishes with
  | [] => (s, [])
  | (c, frame) :: rest =>
      match st_peers s !! c with
      | None => send_all s rest
      | Some peer =>
          match try_send (pr_control_tx peer) frame with
          | Some tx => send_all (set_peers s (<[c := set_tx peer tx]> (st_peers s))) rest
          | None => let '(s, failed) := send_all s rest in (s, c :: failed)
          end
      end
  end.

(** The second loop: each failed connection is disconnected and what that publishes is
    dispatched in turn ([Box::pin(dispatch_publishes(..))]). *)
Fixpoint drain_failed (dispatch : State -> list Publish -> option (State * list Z))
    (s : State) (failed : list Z) : option (State * list Z) :=
  match failed with
  | [] => Some (s, [])
  | c :: rest =>
      let '(s, extra) := disconnect s c in
      '(s, closed) ← dispatch s extra;
      '(s, closed') ← drain_failed dispatch s rest;
      Some (s, closed ++ closed')
  end.

(** The fuel is the nesting depth of the recursive calls.  The result carries the connections
    closed for a failed delivery. *)
Fixpoint dispatch_publishes (fuel : nat) (s : State) (publishes : list Publish)
    : option (State * list Z) :=
  match fuel with
  | O => None
  | S n =>
      let '(s, failed) := send_all s publishes in
      '(s, closed) ← drain_failed (dispatch_publishes n) s failed;
      Some (s, failed ++ closed)
  end.

(** ** Request handlers *)

Definition fail (s : State) (e : ServiceError) : Outcome State := Returned s (RespError e) [].

Definition create_room (s : State) (c : Z) (d : Draw) (name map mode : list byte)
    (max_players : Z) (requires available : ContentFlags) (password : list byte)
    : Outcome State :=
  if negb (room_content_ok map requires available) then fail s SvcInvalidAdvert
  else if bool_decide (is_Some (st_membership s !! c)) then fail s SvcAlreadyHosting
  else if MAX_ROOMS <=? Z.of_nat (size (st_rooms s)) then fail s SvcAdvertCapacity
  else
    let room_id := mkAdvertId (draw_room d) in
    let member_id := mkMemberId (draw_member d) in
    match st_peers s !! c with
    | None => Panicked s
    | Some peer =>
        let view := {|
          view_room_id := room_id; view_name := name; view_host := member_id;
          view_members := [member_id];
          view_member_names := {[ member_id := pr_player_name peer ]};
          view_map := map; view_mode := mode; view_joinable := true; view_revision := 1;
          view_epoch := 0; view_phase := Gathering; view_max_players := max_players;
          view_requires := requires; view_available := available;
          view_password_protected := negb (is_empty password) |} in
        let room := {|
          rm_view := view; rm_password := pv_new (draw_salt d) password;
          rm_host_connection_id := c; rm_member_of := {[ c := member_id ]};
          rm_connection_of := {[ member_id := c ]} |} in
        let s := put_room s room_id room in
        let s := set_membership s (<[c := room_id]> (st_membership s)) in
        let s := touch s in
        Returned s (RespRoomCreated member_id view) [(c, FrameRoomView view)]
    end.

(** [room.password.as_ref().is_some_and(|verifier| !verifier.matches(&password))]. *)
Definition password_refused (room : Room) (password : list byte) : bool :=
  match rm_password room with Some v => negb (pv_matches v password) | None => false end.

Definition join_room (s : State) (c : Z) (d : Draw) (r : AdvertId) (have : ContentFlags)
    (password : list byte) : Outcome State :=
  match st_membership s !! c with
  | Some existing =>
      if decide (existing = r) then
        match st_rooms s !! r with
        | None => Panicked s
        | Some room =>
            match rm_member_of room !! c with
            | None => Panicked s
            | Some m => Returned s (RespRoomJoined m (rm_view room)) []
            end
        end
      else fail s SvcAlreadyHosting
  | None =>
      match st_rooms s !! r with
      | None => fail s SvcUnknownAdvert
      | Some room =>
          let v := rm_view room in
          if password_refused room password then fail s SvcIncorrectPassword
          else if negb (allows_join_request (view_advert v)) then fail s SvcLocked
          else if negb (flags_is_empty (missing_from (view_requires v) have)) then
            fail s (SvcMissingContent (view_requires v) have)
          else if view_max_players v <=? zlen (view_members v) then fail s SvcFull
          else
            let m := mkMemberId (draw_member d) in
            let member_of := <[c := m]> (rm_member_of room) in
            let connection_of := <[m := c]> (rm_connection_of room) in
            let members := view_members v ++ [m] in
            match st_peers s !! c with
            | None =>
                (* the index panics with the member already in the room *)
                Panicked (put_room s r
                  {| rm_view := set_members v members (view_member_names v);
                     rm_password := rm_password room;
                     rm_host_connection_id := rm_host_connection_id room;
                     rm_member_of := member_of; rm_connection_of := connection_of |})
            | Some peer =>
                let v := bump_view (set_members v members
                           (<[m := pr_player_name peer]> (view_member_names v))) in
                let room := {| rm_view := v; rm_password := rm_password room;
                               rm_host_connection_id := rm_host_connection_id room;
                               rm_member_of := member_of; rm_connection_of := connection_of |} in
                let s := put_room s r room in
                let s := set_membership s (<[c := r]> (st_membership s)) in
                let s := touch s in
                Returned s (RespRoomJoined m v) (publish_view s r)
            end
      end
  end.

Definition leave_room (s : State) (c : Z) : Outcome State :=
  match st_membership s !! c with
  | None => Returned s RespRoomLeft []
  | Some r =>
      let is_host := match st_rooms s !! r with
                     | Some room => rm_host_connection_id room =? c
                     | None => false
                     end in
      let '(s, publishes) :=
        if is_host then close_room s r HostLeft else remove_member s c in
      Returned s RespRoomLeft publishes
  end.

(** A handler body behind [state.host_of(connection_id)] and
    [state.rooms.get_mut(&room_id).expect("host room")]. *)
Definition with_hosted (s : State) (c : Z) (body : AdvertId -> Room -> Outcome State)
    : Outcome State :=
  match host_of s c with
  | Err e => fail s e
  | Ok r => match st_rooms s !! r with None => Panicked s | Some room => body r room end
  end.

(** [bump_room], then the updated view as the response and to every member. *)
Definition updated (s : State) (r : AdvertId) : Outcome State :=
  let s := bump_room s r in
  match st_rooms s !! r with
  | None => Panicked s
  | Some room => Returned s (RespRoomUpdated (rm_view room)) (publish_view s r)
  end.

Definition set_password (s : State) (c : Z) (d : Draw) (password : list byte) : Outcome State :=
  with_hosted s c (fun r room =>
    let pv := pv_new (draw_salt d) password in
    updated (put_room s r
      {| rm_view := set_protected (rm_view room) (bool_decide (is_Some pv)); rm_password := pv;
         rm_host_connection_id := rm_host_connection_id room;
         rm_member_of := rm_member_of room; rm_connection_of := rm_connection_of room |}) r).

(** The map and mode a host may set: content of the room's families, and no change once the
    match has begun. *)
Definition map_mode_refused (v : RoomView) (map mode : list byte) : bool :=
  negb (map_content_allowed map (view_requires v)) ||
  (in_match (view_phase v) &&
   (negb (bool_decide (view_map v = map)) || negb (bool_decide (view_mode v = mode)))).

Definition set_options (s : State) (c : Z) (map mode : list byte) (joinable : bool)
    : Outcome State :=
  with_hosted s c (fun r room =>
    if map_mode_refused (rm_view room) map mode then fail s SvcInvalidAdvert
    else updated (put_room s r (set_view room (set_map_mode (rm_view room) map mode joinable))) r).

Definition start_match (s : State) (c : Z) (map mode : list byte) : Outcome State :=
  with_hosted s c (fun r room =>
    let v := rm_view room in
    if map_mode_refused v map mode then fail s SvcInvalidAdvert
    else
      let v := set_map_mode v map mode (view_joinable v) in
      if in_match (view_phase v) then
        Returned (put_room s r (set_view room v)) (RespRoomUpdated v) []
      else
        updated (put_room s r
          (set_view room (set_phase v (next_epoch (view_epoch v)) Loading))) r).

(** [room_id != expected_room || epoch == 0 || room.view.epoch != epoch || !phase.in_match()]. *)
Definition stale_match (r expected_room : AdvertId) (epoch : Z) (v : RoomView) : bool :=
  negb (bool_decide (r = expected_room)) || (epoch =? 0) || negb (view_epoch v =? epoch) ||
  negb (in_match (view_phase v)).

Definition end_match (s : State) (c : Z) (expected_room : AdvertId) (epoch : Z) : Outcome State :=
  with_hosted s c (fun r room =>
    let v := rm_view room in
    if stale_match r expected_room epoch v then Returned s RespAck []
    else
      let s := bump_room (put_room s r (set_view room (set_phase v (view_epoch v) Gathering))) r in
      Returned s RespAck (publish_view s r)).

Definition host_world_ready (s : State) (c : Z) (expected_room : AdvertId)
    (epoch map_ weapons classes : Z) : Outcome State :=
  with_hosted s c (fun r room =>
    let v := rm_view room in
    if stale_match r expected_room epoch v then Returned s RespAck []
    else
      let s := bump_room (put_room s r (set_view room (set_phase v (view_epoch v) Running))) r in
      let event := FramePeerEvent (EvHostWorldReady epoch map_ weapons classes) in
      Returned s RespAck
        (publish_view s r ++
         match st_rooms s !! r with
         | Some room => map (fun c => (c, event)) (room_connections room)
         | None => []
         end)).

Definition forward_to_host (s : State) (c : Z) (event : MemberId -> PeerEvent) : Outcome State :=
  match member_of s c with
  | Err e => fail s e
  | Ok (r, m) =>
      match st_rooms s !! r with
      | None => fail s SvcUnknownAdvert
      | Some room => Returned s RespAck [(rm_host_connection_id room, FramePeerEvent (event m))]
      end
  end.

(** [enter_match] and [admission_failed]: the host addresses one member. *)
Definition forward_to_member (s : State) (c : Z) (m : MemberId) (event : PeerEvent)
    : Outcome State :=
  match host_of s c with
  | Err e => fail s e
  | Ok r =>
      match st_rooms s !! r with
      | None => fail s SvcUnknownAdvert
      | Some room =>
          match rm_connection_of room !! m with
          | None => fail s SvcNotMember
          | Some target => Returned s RespAck [(target, FramePeerEvent event)]
          end
      end
  end.

Definition enter_match (s : State) (c : Z) (m : MemberId)
    (epoch bootstrap_id admitted_connection client_id : Z) : Outcome State :=
  forward_to_member s c m (EvEnterMatch m epoch bootstrap_id admitted_connection client_id).

Definition admission_failed (s : State) (c : Z) (m : MemberId) (epoch : Z)
    (reason : AdmissionFailure) : Outcome State :=
  forward_to_member s c m (EvAdmissionFailed m epoch reason).

Definition close_hosted_room (s : State) (c : Z) : Outcome State :=
  match host_of s c with
  | Ok r => let '(s, publishes) := close_room s r HostLeft in Returned s RespAck publishes
  | Err e => fail s e
  end.

(** [seen.elapsed() < 10 s]; [elapsed] saturates at zero. *)
Definition recently_seen (now : Z) (peer : PeerOf) : bool :=
  match pr_online peer with
  | Some seen => saturating_sub now seen <? CLI_ONLINE_NANOS
  | None => false
  end.

Definition population (s : State) (c now : Z) (online : bool) : Outcome State :=
  let s :=
    match st_peers s !! c with
    | Some p => set_peers s (<[c := mkPeer (if online then Some now else None)
                                      (pr_player_name p) (pr_connection p) (pr_control_tx p)]>
                               (st_peers s))
    | None => s
    end in
  let browsing := filter (fun e => recently_seen now e.2 = true /\ st_membership s !! e.1 = None)
                    (map_to_list (st_peers s)) in
  let players := Z.of_nat (size (st_membership s)) + zlen browsing in
  Returned s (RespPopulation (if players <=? u32_max then players else u32_max)) [].

Definition list_rooms (s : State) : Outcome State :=
  let adverts := map (fun room => view_advert (rm_view room)) (map_to_list (st_rooms s)).*2 in
  let adverts := take (Z.to_nat MAX_LIST_ADVERTS) (merge_sort advert_le adverts) in
  Returned s (RespRoomList (st_generation s) adverts) [].

Definition handle_body (s : State) (c now : Z) (d : Draw) (body : RequestBody) : Outcome State :=
  match body with
  | ReqStatus => Returned s (RespStatus status_current) []
  | ReqPopulation online => population s c now online
  | ReqCreateRoom name map mode max_players requires available password =>
      create_room s c d name map mode max_players requires available password
  | ReqJoinRoom room_id have password => join_room s c d room_id have password
  | ReqSetPassword password => set_password s c d password
  | ReqLeaveRoom => leave_room s c
  | ReqSetOptions map mode joinable => set_options s c map mode joinable
  | ReqStartMatch map mode => start_match s c map mode
  | ReqEndMatch room_id epoch => end_match s c room_id epoch
  | ReqCloseRoom => close_hosted_room s c
  | ReqListRooms => list_rooms s
  | ReqHostWorldReady room_id epoch map weapons classes =>
      host_world_ready s c room_id epoch map weapons classes
  | ReqMapLoaded epoch map weapons classes =>
      forward_to_host s c (fun m => EvMapLoaded m epoch map weapons classes)
  | ReqBootstrapApplied epoch bootstrap_id snapshot_seq connection =>
      forward_to_host s c (fun m => EvBootstrapApplied m epoch bootstrap_id snapshot_seq connection)
  | ReqEnterMatch m epoch bootstrap_id connection_id client_id =>
      enter_match s c m epoch bootstrap_id connection_id client_id
  | ReqAdmissionFailed m epoch reason => admission_failed s c m epoch reason
  | ReqVoteToSkip => forward_to_host s c EvVoteToSkip
  end.

(** [handle_request], with the response appended to the publishes as [run_connection] does. *)
Definition handle_request (s : State) (c now : Z) (d : Draw) (request : ControlRequest)
    : option (State * list Publish) :=
  match handle_body s c now d (req_body request) with
  | Returned s body publishes =>
      Some (s, publishes ++ [(c, FrameResponse (mkResponse (req_id request) body))])
  | Panicked _ => None
  end.

End Service.
