(* ===== verification/MasterServiceInv.v ===== *)
(** * Master room service: the invariant

    [service_inv] says what the service state means: who is in which room is recorded three
    times (the membership map and the two maps of the room) and the three records agree; each
    room has its host, between one and [max_players] members with one name each, legal strings
    and legal content.  Every operation preserves it, whatever a client sends.

    The invariant is indexed by the set [crashed] of the connections whose task ended in a
    panic of a request handler.  The mutex is tokio's and is not poisoned, so the service goes on
    with what the handler had done: such a connection can keep a seat without a name and without
    a membership entry, and has no peer. *)

From S2P Require Export MasterService MasterLimits.

Record view_ok (v : RoomView) : Prop := {
  vo_wf : wf_view v;
  vo_name : 1 <= zlen (view_name v) <= MAX_ADVERT_NAME_BYTES;
  vo_map : 1 <= zlen (view_map v) <= MAX_MAP_BYTES;
  vo_mode : 1 <= zlen (view_mode v) <= MAX_MODE_BYTES;
  vo_max : 2 <= view_max_players v <= MAX_SESSION_MEMBERS;
  vo_content : room_content_ok (view_map v) (view_requires v) (view_available v) = true;
  vo_revision : 1 <= view_revision v;
  vo_epoch : in_match (view_phase v) = true -> 1 <= view_epoch v;
}.

Definition name_ok (name : list byte) : Prop :=
  wf_string name /\ 1 <= zlen name <= MAX_PLAYER_NAME_BYTES.

Section Invariant.
Context {Conn Sender : Type}.
Context {crashed : gset Z}.
Abbreviation State := (ServiceState Conn Sender).
Implicit Types (s : State) (c : Z) (r : AdvertId) (m : MemberId) (room : Room).

Record seats_ok (room : Room) : Prop := {
  so_inverse : forall c m, rm_member_of room !! c = Some m <-> rm_connection_of room !! m = Some c;
  so_nodup : NoDup (view_members (rm_view room));
  so_seated : forall m, m ∈ view_members (rm_view room) <-> is_Some (rm_connection_of room !! m);
  so_named : forall m, is_Some (view_member_names (rm_view room) !! m) <->
                       exists c, rm_connection_of room !! m = Some c /\ c ∉ crashed;
  so_names : map_Forall (fun _ name => name_ok name) (view_member_names (rm_view room));
  so_host : rm_member_of room !! rm_host_connection_id room = Some (view_host (rm_view room));
  so_host_lives : rm_host_connection_id room ∉ crashed;
  so_count : zlen (view_members (rm_view room)) <= view_max_players (rm_view room);
}.

Record room_ok (r : AdvertId) (room : Room) : Prop := {
  ro_id : view_room_id (rm_view room) = r;
  ro_view : view_ok (rm_view room);
  ro_seats : seats_ok room;
  ro_password : view_password_protected (rm_view room) = bool_decide (is_Some (rm_password room));
}.

Record service_inv (s : State) : Prop := {
  si_rooms : forall r room, st_rooms s !! r = Some room -> room_ok r room;
  si_membership : forall c r, st_membership s !! c = Some r <->
    c ∉ crashed /\
    exists room, st_rooms s !! r = Some room /\ is_Some (rm_member_of room !! c);
  si_peers : forall c r, st_membership s !! c = Some r -> is_Some (st_peers s !! c);
  si_crashed : forall c, c ∈ crashed -> st_peers s !! c = None;
  si_names : forall c peer, st_peers s !! c = Some peer -> name_ok (pr_player_name peer);
  si_capacity : Z.of_nat (size (st_rooms s)) <= MAX_ROOMS;
}.

(** The random identifiers a handler draws are not in use: they have 128 bits. *)
Definition fresh_draw (s : State) (d : Draw) : Prop :=
  zlen (draw_room d) = 16 /\ zlen (draw_member d) = 16 /\
  st_rooms s !! mkAdvertId (draw_room d) = None /\
  forall r room, st_rooms s !! r = Some room ->
    rm_connection_of room !! mkMemberId (draw_member d) = None.

(** ** Reading the invariant *)

Lemma inv_room s r room : service_inv s -> st_rooms s !! r = Some room -> room_ok r room.
Proof. intros H. apply (si_rooms _ H). Qed.

Lemma inv_member_room s c r :
  service_inv s -> st_membership s !! c = Some r ->
  exists room m, st_rooms s !! r = Some room /\ rm_member_of room !! c = Some m /\
                 rm_connection_of room !! m = Some c /\ room_ok r room.
Proof.
  intros Hinv Hc. apply (si_membership _ Hinv) in Hc as (_ & room & Hr & m & Hm).
  pose proof (inv_room _ _ _ Hinv Hr) as Hok. exists room, m.
  split_and!; [done|done| |done]. by apply (so_inverse _ (ro_seats _ _ Hok)).
Qed.

(** A connection is in at most one room. *)
Lemma inv_member_unique s c r1 r2 room1 room2 m1 m2 :
  service_inv s -> c ∉ crashed ->
  st_rooms s !! r1 = Some room1 -> rm_member_of room1 !! c = Some m1 ->
  st_rooms s !! r2 = Some room2 -> rm_member_of room2 !! c = Some m2 -> r1 = r2.
Proof.
  intros Hinv Hc H1 Hm1 H2 Hm2.
  assert (st_membership s !! c = Some r1) by (apply (si_membership _ Hinv); eauto).
  assert (st_membership s !! c = Some r2) by (apply (si_membership _ Hinv); eauto).
  congruence.
Qed.

Lemma host_seated s r room :
  service_inv s -> st_rooms s !! r = Some room ->
  st_membership s !! rm_host_connection_id room = Some r.
Proof.
  intros Hinv Hr. destruct (ro_seats _ _ (inv_room _ _ _ Hinv Hr)).
  apply (si_membership _ Hinv). split; [done|]. exists room. by rewrite so_host0.
Qed.

(** A connection that is attached has not crashed. *)
Lemma attached_lives s c peer : service_inv s -> st_peers s !! c = Some peer -> c ∉ crashed.
Proof. intros Hinv Hp Hc%(si_crashed _ Hinv). congruence. Qed.

Lemma seated_lives s c r : service_inv s -> st_membership s !! c = Some r -> c ∉ crashed.
Proof. intros Hinv Hc%(si_membership _ Hinv). by destruct Hc. Qed.

Lemma host_of_spec s c r :
  service_inv s ->
  host_of s c = Ok r <->
  exists room, st_rooms s !! r = Some room /\ rm_host_connection_id room = c.
Proof.
  intros Hinv. unfold host_of. split.
  - intros H. ok_inv. destruct (st_membership s !! c) as [r'|] eqn:Hc; [|discriminate].
    cbn in E. ok_inv. destruct (st_rooms s !! r) as [room|] eqn:Hr; [|discriminate].
    cbn in E0. ok_inv. apply fail_if_ok in E1.
    exists a0. split; [done|]. destruct (Z.eqb_spec (rm_host_connection_id a0) c); done.
  - intros (room & Hr & <-). pose proof (inv_room _ _ _ Hinv Hr) as Hok.
    assert (st_membership s !! rm_host_connection_id room = Some r) as ->.
    { by apply host_seated. }
    cbn [ok_or mbind result_bind]. rewrite Hr. cbn [ok_or mbind result_bind].
    by rewrite Z.eqb_refl.
Qed.

Lemma member_of_spec s c r m :
  service_inv s -> member_of s c = Ok (r, m) ->
  exists room, st_rooms s !! r = Some room /\ rm_member_of room !! c = Some m.
Proof.
  intros Hinv. unfold member_of.
  intros H. ok_inv. destruct (st_membership s !! c) as [r'|] eqn:Hc; [|discriminate].
    cbn in E. ok_inv. injection H as -> ->.
    destruct (st_rooms s !! r) as [room|] eqn:Hr; [|discriminate].
    cbn in E0. ok_inv. destruct (rm_member_of a0 !! c) eqn:Hm; [|discriminate].
    cbn in E1. ok_inv. eauto.
Qed.

Lemma member_of_lives s c r m : service_inv s -> member_of s c = Ok (r, m) -> st_membership s !! c = Some r.
Proof.
  intros Hinv H. unfold member_of in H. ok_inv.
  destruct (st_membership s !! c) as [r'|]; [|discriminate].
  cbn in E. ok_inv. by injection H as -> ->.
Qed.

(** ** State updates *)

Lemma inv_default : service_inv state_default.
Proof.
  split; cbn; intros *; try (by rewrite lookup_empty).
  - split; [by rewrite lookup_empty|]. intros (_ & ? & H & _). by rewrite lookup_empty in H.
  - rewrite map_size_empty. done.
Qed.

Lemma inv_touch s : service_inv s -> service_inv (touch s).
Proof. intros []. by split. Qed.

(** A room changed in place, its seats untouched. *)
Lemma inv_put_room s r room room' :
  service_inv s -> st_rooms s !! r = Some room -> room_ok r room' ->
  rm_member_of room' = rm_member_of room -> service_inv (put_room s r room').
Proof.
  intros [Hrooms Hmem Hpeers Hcrash Hnames Hcap] Hr Hok Heq. split; cbn.
  - intros r0 room0. rewrite lookup_insert_Some. intros [[<- <-]|[_ H]]; [done|eauto].
  - intros c r0. rewrite Hmem. apply and_iff_compat_l. split; intros (room0 & H & Hc).
    + destruct (decide (r = r0)) as [->|Hne].
      * exists room'. rewrite lookup_insert_eq. split; [done|]. rewrite Heq. congruence.
      * exists room0. by rewrite lookup_insert_ne.
    + apply lookup_insert_Some in H as [[<- <-]|[_ H]]; [|eauto].
      exists room. rewrite <- Heq. eauto.
  - done.
  - done.
  - done.
  - rewrite map_size_insert_Some by eauto. done.
Qed.

Lemma inv_attach s c name connection tx :
  service_inv s -> c ∉ crashed -> name_ok name ->
  service_inv (attach_peer s c name connection tx).
Proof.
  intros [Hrooms Hmem Hpeers Hcrash Hnames Hcap] Hlive Hname. split; cbn; [done|done| | | |done].
  - intros c' r H. apply Hpeers in H. destruct (decide (c = c')) as [->|].
    + rewrite lookup_insert_eq. done.
    + by rewrite lookup_insert_ne.
  - intros c' Hc'. rewrite lookup_insert_ne by congruence. auto.
  - intros c' peer. rewrite lookup_insert_Some. intros [[<- <-]|[_ H]]; [done|eauto].
Qed.

(** A peer entry replaced by one with the same name. *)
Lemma inv_set_peer s c peer peer' :
  service_inv s -> st_peers s !! c = Some peer -> pr_player_name peer' = pr_player_name peer ->
  service_inv (set_peers s (<[c := peer']> (st_peers s))).
Proof.
  intros [Hrooms Hmem Hpeers Hcrash Hnames Hcap] Hpeer Hname. split; cbn; [done|done| | | |done].
  - intros c' r H. apply Hpeers in H. destruct (decide (c = c')) as [->|].
    + rewrite lookup_insert_eq. done.
    + by rewrite lookup_insert_ne.
  - intros c' Hc'%Hcrash. rewrite lookup_insert_ne by congruence. done.
  - intros c' p. rewrite lookup_insert_Some. intros [[<- <-]|[_ H]]; [|eauto].
    rewrite Hname. eauto.
Qed.

Lemma inv_drop_peer s c :
  service_inv s -> st_membership s !! c = None ->
  service_inv (set_peers s (delete c (st_peers s))).
Proof.
  intros [Hrooms Hmem Hpeers Hcrash Hnames Hcap] Hc. split; cbn; [done|done| | | |done].
  - intros c' r H. rewrite lookup_delete_ne by congruence. eauto.
  - intros c' Hc'%Hcrash. by rewrite lookup_delete_None; right.
  - intros c' p. rewrite lookup_delete_Some. intros [_ H]. eauto.
Qed.

(** ** Views *)

Lemma view_ok_members (v : RoomView) ms names :
  view_ok v -> Forall wf_member_id ms -> map_Forall (fun _ n => name_ok n) names ->
  view_ok (set_members v ms names).
Proof.
  intros [Hwf]. intros Hms Hnames. split; try done.
  destruct Hwf as (?&?&?&?&?&?&?&?&?&?&?&?). unfold wf_view. cbn. split_and!; try done.
  intros m n Hmn. by destruct (Hnames m n Hmn).
Qed.

Lemma next_revision_range n : 1 <= next_revision n <= u64_max.
Proof.
  unfold next_revision, wrapping_add64, wrap64, u64_max.
  pose proof (Z.mod_pos_bound (n + 1) (2 ^ 64) eq_refl). lia.
Qed.

Lemma next_epoch_range n : 1 <= next_epoch n <= u32_max.
Proof.
  unfold next_epoch, wrapping_add32, wrap32, u32_max.
  pose proof (Z.mod_pos_bound (n + 1) (2 ^ 32) eq_refl). lia.
Qed.

Lemma view_ok_bump (v : RoomView) : view_ok v -> view_ok (bump_view v).
Proof.
  intros [Hwf]. pose proof (next_revision_range (view_revision v)).
  split; cbn; try done; [|lia].
  unfold wf_view in *. cbn. destruct Hwf as (?&?&?&?&?&?&?&?&?&?&?&?).
  split_and!; try done. unfold is_u64. lia.
Qed.

Lemma view_ok_map_mode (v : RoomView) map mode joinable :
  view_ok v -> wf_string map -> wf_string mode ->
  1 <= zlen map <= MAX_MAP_BYTES -> 1 <= zlen mode <= MAX_MODE_BYTES ->
  map_content_allowed map (view_requires v) = true ->
  view_ok (set_map_mode v map mode joinable).
Proof.
  intros [Hwf] **. split; cbn; try done.
  - unfold wf_view in *. cbn. destruct Hwf as (?&?&?&?&?&?&?&?&?&?&?&?). by split_and!.
  - unfold room_content_ok in *.
    repeat match goal with H : _ && _ = true |- _ => apply andb_true_iff in H as [H ?] end.
    repeat (apply andb_true_iff; split); done.
Qed.

Lemma view_ok_phase (v : RoomView) epoch phase :
  view_ok v -> is_u32 epoch -> (in_match phase = true -> 1 <= epoch) ->
  view_ok (set_phase v epoch phase).
Proof.
  intros [Hwf] **. split; cbn; try done.
  unfold wf_view in *. cbn. destruct Hwf as (?&?&?&?&?&?&?&?&?&?&?&?). by split_and!.
Qed.

Lemma view_ok_protected (v : RoomView) b : view_ok v -> view_ok (set_protected v b).
Proof. intros []. by split. Qed.

(** Seats survive a change of the view that keeps members, names, host and capacity. *)
Lemma seats_ok_view room v :
  seats_ok room -> view_members v = view_members (rm_view room) ->
  view_member_names v = view_member_names (rm_view room) ->
  view_host v = view_host (rm_view room) ->
  view_max_players v = view_max_players (rm_view room) -> seats_ok (set_view room v).
Proof.
  intros [] E1 E2 E3 E4. split; cbn; rewrite ?E1, ?E2, ?E3, ?E4; done.
Qed.

(** ** Seats *)

Lemma zlen_filter_le {A} (P : A -> Prop) `{forall x, Decision (P x)} (l : list A) :
  zlen (filter P l) <= zlen l.
Proof. unfold zlen. pose proof (length_filter P l). lia. Qed.

(** The room after [remove_member] took [m] out. *)
Definition without_member (room : Room) (c : Z) (m : MemberId) : Room :=
  let v := rm_view room in
  {| rm_view := bump_view (set_members v (filter (fun id => id <> m) (view_members v))
                             (delete m (view_member_names v)));
     rm_password := rm_password room; rm_host_connection_id := rm_host_connection_id room;
     rm_member_of := delete c (rm_member_of room);
     rm_connection_of := delete m (rm_connection_of room) |}.

(** The room after [join_room] put [m] in. *)
Definition with_member (room : Room) (c : Z) (m : MemberId) (name : list byte) : Room :=
  let v := rm_view room in
  {| rm_view := bump_view (set_members v (view_members v ++ [m])
                             (<[m := name]> (view_member_names v)));
     rm_password := rm_password room; rm_host_connection_id := rm_host_connection_id room;
     rm_member_of := <[c := m]> (rm_member_of room);
     rm_connection_of := <[m := c]> (rm_connection_of room) |}.

Lemma without_member_ok r room c m :
  room_ok r room -> rm_member_of room !! c = Some m -> rm_host_connection_id room <> c ->
  room_ok r (without_member room c m).
Proof.
  intros [Hid Hview Hseats Hpw] Hm Hhost. destruct Hseats. split; cbn; [done| | |done].
  - apply view_ok_bump, view_ok_members; [done| |].
    + destruct (vo_wf _ Hview) as (?&?&?&?&?&?&?&?&?&?&Hms&?).
      rewrite list.Forall_forall in Hms |- *. intros x [_ Hx]%list_elem_of_filter. eauto.
    + by apply map_Forall_delete.
  - split; cbn.
    + intros c' m'. rewrite !lookup_delete_Some, so_inverse0.
      apply so_inverse0 in Hm. split; intros [Hne H]; (split; [|done]).
      * intros ->. congruence.
      * intros ->. apply so_inverse0 in H, Hm. congruence.
    + by apply list.NoDup_filter.
    + intros m'. rewrite list_elem_of_filter, lookup_delete_is_Some, so_seated0.
      clear. naive_solver.
    + intros m'. rewrite lookup_delete_is_Some, so_named0. setoid_rewrite lookup_delete_Some.
      clear. naive_solver.
    + by apply map_Forall_delete.
    + rewrite lookup_delete_ne; done.
    + done.
    + pose proof (zlen_filter_le (fun id => id <> m) (view_members (rm_view room))). lia.
Qed.

Lemma with_member_ok r room c m name :
  room_ok r room -> c ∉ crashed ->
  rm_member_of room !! c = None -> rm_connection_of room !! m = None ->
  wf_member_id m -> name_ok name ->
  zlen (view_members (rm_view room)) < view_max_players (rm_view room) ->
  room_ok r (with_member room c m name).
Proof.
  intros [Hid Hview Hseats Hpw] Hlive Hc Hm Hwm Hname Hcount. destruct Hseats.
  assert (m ∉ view_members (rm_view room)) as Hnew.
  { rewrite so_seated0, Hm. by intros [? ?]. }
  split; cbn; [done| | |done].
  - apply view_ok_bump, view_ok_members; [done| |].
    + destruct (vo_wf _ Hview) as (?&?&?&?&?&?&?&?&?&?&Hms&?).
      apply Forall_app. by split; [|constructor].
    + by apply map_Forall_insert_2.
  - split; cbn.
    + intros c' m'. rewrite !lookup_insert_Some, so_inverse0. split.
      * intros [[-> ->]|[Hne H]]; [by left|]. right. split; [|done].
        intros ->. congruence.
      * intros [[-> ->]|[Hne H]]; [by left|]. right. split; [|done].
        intros ->. apply so_inverse0 in H. congruence.
    + apply list.NoDup_app. split_and!; [done| |apply list.NoDup_singleton].
      intros x Hx ->%list_elem_of_singleton. done.
    + intros m'. rewrite elem_of_app, list_elem_of_singleton, lookup_insert_is_Some, so_seated0.
      clear. destruct (decide (m = m')); naive_solver.
    + intros m'. rewrite lookup_insert_is_Some, so_named0. setoid_rewrite lookup_insert_Some.
      clear -Hlive Hm. destruct (decide (m = m')); naive_solver.
    + by apply map_Forall_insert_2.
    + rewrite lookup_insert_ne; [done|]. intros ->. congruence.
    + done.
    + rewrite zlen_app, zlen_cons, zlen_nil. lia.
Qed.

(** ** Membership changes *)

Lemma elem_of_room_connections room c :
  c ∈ room_connections room <-> is_Some (rm_member_of room !! c).
Proof.
  unfold room_connections. rewrite list_elem_of_fmap. split.
  - intros ([c' m] & -> & H%elem_of_map_to_list). by exists m.
  - intros [m H]. exists (c, m). by rewrite elem_of_map_to_list.
Qed.

Lemma lookup_foldr_delete {A} (ms : gmap Z A) (cs : list Z) c x :
  foldr delete ms cs !! c = Some x <-> c ∉ cs /\ ms !! c = Some x.
Proof.
  induction cs as [|c0 cs IH]; cbn [foldr].
  - split; [|by intros []]. intros H. split; [by apply not_elem_of_nil|done].
  - rewrite lookup_delete_Some, IH, not_elem_of_cons. naive_solver.
Qed.

Lemma inv_close_room s r room reason :
  service_inv s -> st_rooms s !! r = Some room -> service_inv (close_room s r reason).1.
Proof.
  intros [Hrooms Hmem Hpeers Hcrash Hnames Hcap] Hr. unfold close_room. rewrite Hr. split; cbn.
  - intros r0 room0 [_ H]%lookup_delete_Some. eauto.
  - intros c r0. rewrite lookup_foldr_delete, Hmem, elem_of_room_connections. split.
    + intros [Hout (Hl & room0 & H & Hc)]. split; [done|]. exists room0. split; [|done].
      rewrite lookup_delete_ne; [done|]. intros <-. congruence.
    + intros (Hl & room0 & [Hne H]%lookup_delete_Some & Hc). split; [|eauto].
      intros Hc'. assert (st_membership s !! c = Some r) as H1 by (apply Hmem; eauto).
      assert (st_membership s !! c = Some r0) as H2 by (apply Hmem; eauto). congruence.
  - intros c r0 [_ H]%lookup_foldr_delete. eauto.
  - done.
  - done.
  - rewrite map_size_delete_Some by eauto. lia.
Qed.

Lemma close_room_membership s r room reason c :
  service_inv s -> st_rooms s !! r = Some room ->
  st_membership (close_room s r reason).1 !! c =
    (if decide (st_membership s !! c = Some r) then None else st_membership s !! c).
Proof.
  intros Hinv Hr. unfold close_room. rewrite Hr. cbn.
  assert (c ∉ crashed -> c ∈ room_connections room <-> st_membership s !! c = Some r) as Hiff.
  { intros Hlive. rewrite elem_of_room_connections, (si_membership _ Hinv). split; [eauto|].
    intros (_ & room' & H & Hc). congruence. }
  destruct (decide _) as [Hc|Hc].
  - destruct (foldr _ _ _ !! c) eqn:H; [|done]. apply lookup_foldr_delete in H as [H _].
    rewrite Hiff in H; [done|]. by eapply seated_lives.
  - destruct (st_membership s !! c) eqn:E.
    + apply lookup_foldr_delete. rewrite Hiff; [done|]. by eapply seated_lives.
    + destruct (foldr _ _ _ !! c) eqn:H; [|done]. apply lookup_foldr_delete in H as [_ H]. congruence.
Qed.

Lemma remove_member_run s c r room m :
  st_membership s !! c = Some r -> st_rooms s !! r = Some room ->
  rm_member_of room !! c = Some m ->
  remove_member s c =
    (let s' := touch (put_room (set_membership s (delete c (st_membership s))) r
                        (without_member room c m)) in (s', publish_view s' r)).
Proof. intros H1 H2 H3. unfold remove_member. rewrite H1. cbn. rewrite H2, H3. done. Qed.

Lemma inv_remove_member s c r room :
  service_inv s -> st_membership s !! c = Some r -> st_rooms s !! r = Some room ->
  rm_host_connection_id room <> c -> service_inv (remove_member s c).1.
Proof.
  intros Hinv Hc Hr Hhost.
  destruct (inv_member_room _ _ _ Hinv Hc) as (room' & m & Hr' & Hm & Hm' & Hok).
  assert (room' = room) as -> by congruence.
  rewrite (remove_member_run s c r room m) by done. apply inv_touch.
  pose proof (without_member_ok _ _ _ _ Hok Hm Hhost) as Hok'.
  destruct Hinv as [Hrooms Hmem Hpeers Hcrash Hnames Hcap]. split; cbn.
  - intros r0 room0 [[<- <-]|[_ H]]%lookup_insert_Some; [done|eauto].
  - intros c' r0. rewrite lookup_delete_Some, Hmem. split.
    + intros [Hne (Hl & room0 & H & Hc')]. split; [done|].
      destruct (decide (r = r0)) as [->|].
      * exists (without_member room c m). rewrite lookup_insert_eq. split; [done|]. cbn.
        rewrite lookup_delete_ne by done. congruence.
      * exists room0. by rewrite lookup_insert_ne.
    + intros (Hl & room0 & [[<- <-]|[Hne H]]%lookup_insert_Some & Hc').
      * cbn in Hc'. apply lookup_delete_is_Some in Hc' as [Hne Hc']. eauto.
      * split; [|eauto]. intros <-.
        assert (st_membership s !! c = Some r0) by (apply Hmem; eauto). congruence.
  - intros c' r0 [_ H]%lookup_delete_Some. eauto.
  - done.
  - done.
  - rewrite map_size_insert_Some by eauto. done.
Qed.

Lemma disconnect_run s c :
  disconnect s c =
    (let '(s', p) :=
       match st_membership s !! c with
       | None => (s, [])
       | Some r =>
           match st_rooms s !! r with
           | None => (set_membership s (delete c (st_membership s)), [])
           | Some room => if rm_host_connection_id room =? c then close_room s r HostLeft
                          else remove_member s c
           end
       end in (set_peers s' (delete c (st_peers s)), p)).
Proof.
  unfold disconnect. cbn [st_membership st_rooms st_peers set_peers].
  destruct (st_membership s !! c) as [r|] eqn:Hc; [|done].
  destruct (st_rooms s !! r) as [room|] eqn:Hr; [|done].
  destruct (_ =? _).
  - unfold close_room. cbn [st_rooms set_peers]. by rewrite Hr.
  - unfold remove_member. cbn [st_membership st_rooms set_peers set_membership].
    rewrite Hc. cbn. rewrite Hr. destruct (rm_member_of room !! c); [|done].
    cbn. unfold publish_view. cbn. by rewrite !lookup_insert_eq.
Qed.

Lemma disconnect_peers s c : st_peers (disconnect s c).1 = delete c (st_peers s).
Proof. rewrite disconnect_run. repeat case_match; simplify_eq/=; done. Qed.

Lemma inv_disconnect s c : service_inv s -> service_inv (disconnect s c).1.
Proof.
  intros Hinv. rewrite disconnect_run.
  destruct (st_membership s !! c) as [r|] eqn:Hc; [|by apply inv_drop_peer].
  destruct (inv_member_room _ _ _ Hinv Hc) as (room & m & Hr & Hm & Hm' & Hok).
  rewrite Hr. destruct (Z.eqb_spec (rm_host_connection_id room) c) as [Hh|Hh].
  - pose proof (inv_close_room s r room HostLeft Hinv Hr) as Hinv'.
    pose proof (close_room_membership s r room HostLeft c Hinv Hr) as Hout.
    rewrite decide_True in Hout by done.
    assert (st_peers (close_room s r HostLeft).1 = st_peers s) as Hp
      by (unfold close_room; by rewrite Hr).
    destruct (close_room s r HostLeft) as [s' p]. cbn in *. rewrite <- Hp.
    by apply inv_drop_peer.
  - pose proof (inv_remove_member s c r room Hinv Hc Hr Hh) as Hinv'.
    rewrite (remove_member_run s c r room m) in * by done. cbv zeta in *. cbn [fst] in *.
    apply (inv_drop_peer _ c Hinv'). cbn. apply lookup_delete_eq.
Qed.

End Invariant.

Arguments seats_ok : clear implicits.
Arguments room_ok : clear implicits.
Arguments service_inv : clear implicits.
Arguments service_inv {Conn Sender} crashed s.

(** ** A panicking handler *)

Section Crash.
Context {Conn Sender : Type}.
Abbreviation State := (ServiceState Conn Sender).
Implicit Types (s : State) (c : Z) (r : AdvertId) (m : MemberId) (room : Room) (K : gset Z).

(** The room after a [join_room] that panicked once [m] was seated. *)
Definition with_ghost (room : Room) (c : Z) (m : MemberId) : Room :=
  {| rm_view := set_members (rm_view room) (view_members (rm_view room) ++ [m])
                  (view_member_names (rm_view room));
     rm_password := rm_password room; rm_host_connection_id := rm_host_connection_id room;
     rm_member_of := <[c := m]> (rm_member_of room);
     rm_connection_of := <[m := c]> (rm_connection_of room) |}.

Lemma room_ok_crash K r room c :
  room_ok K r room -> rm_member_of room !! c = None -> room_ok ({[c]} ∪ K) r room.
Proof.
  intros [Hid Hview [] Hpw] Hc. split; try done. split; try done.
  - intros m. rewrite so_named0. split; intros (c' & Hm & Hl); exists c'; (split; [done|]);
      [|set_solver]. apply so_inverse0 in Hm.
    assert (c' <> c) by congruence. set_solver.
  - assert (rm_host_connection_id room <> c) by congruence. set_solver.
Qed.

Lemma with_ghost_ok K r room c m :
  room_ok K r room -> rm_member_of room !! c = None -> rm_connection_of room !! m = None ->
  wf_member_id m -> zlen (view_members (rm_view room)) < view_max_players (rm_view room) ->
  room_ok ({[c]} ∪ K) r (with_ghost room c m).
Proof.
  intros Hok Hc Hm Hwm Hcount. pose proof (room_ok_crash _ _ _ _ Hok Hc) as Hok'.
  destruct Hok' as [Hid Hview [] Hpw].
  assert (m ∉ view_members (rm_view room)) as Hnew.
  { rewrite so_seated0, Hm. by intros [? ?]. }
  split; cbn; [done| | |done].
  - apply view_ok_members; [done| |done].
    destruct (vo_wf _ Hview) as (?&?&?&?&?&?&?&?&?&?&Hms&?). apply Forall_app. by split; [|constructor].
  - split; cbn; [| | | |done| |done|].
    + intros c' m'. rewrite !lookup_insert_Some, so_inverse0. split.
      * intros [[-> ->]|[Hne H]]; [by left|]. right. split; [|done]. intros ->. congruence.
      * intros [[-> ->]|[Hne H]]; [by left|]. right. split; [|done].
        intros ->. apply so_inverse0 in H. congruence.
    + apply list.NoDup_app. split_and!; [done| |apply list.NoDup_singleton].
      intros x Hx ->%list_elem_of_singleton. done.
    + intros m'. rewrite elem_of_app, list_elem_of_singleton, lookup_insert_is_Some, so_seated0.
      clear. destruct (decide (m = m')); naive_solver.
    + intros m'. rewrite so_named0. setoid_rewrite lookup_insert_Some. split.
      * intros (c' & Hm' & Hl). exists c'. split; [|done]. right. split; [congruence|done].
      * intros (c' & [[<- <-]|[Hne Hm']] & Hl); [set_solver|eauto].
    + rewrite lookup_insert_ne; [done|]. congruence.
    + rewrite zlen_app, zlen_cons, zlen_nil. lia.
Qed.

Lemma crash_unseated K s c r room :
  service_inv K s -> c ∉ K -> st_membership s !! c = None -> st_rooms s !! r = Some room ->
  rm_member_of room !! c = None.
Proof.
  intros Hinv Hl Hc Hr. destruct (rm_member_of room !! c) eqn:E; [|done].
  assert (st_membership s !! c = Some r) by (apply (si_membership _ Hinv); eauto 10). congruence.
Qed.

(** The task of a connection without a peer panics and the handler had changed nothing. *)
Lemma inv_crash K s c :
  service_inv K s -> c ∉ K -> st_peers s !! c = None -> service_inv ({[c]} ∪ K) s.
Proof.
  intros Hinv Hl Hp.
  assert (st_membership s !! c = None) as Hc.
  { destruct (st_membership s !! c) eqn:E; [|done]. apply (si_peers _ Hinv) in E as [? ?]. congruence. }
  split; try apply Hinv.
  - intros r room Hr. apply room_ok_crash; [by eapply inv_room|by eapply crash_unseated].
  - intros c' r. rewrite (si_membership _ Hinv). split; intros (Hl' & room & Hr & Hm);
      (split; [|eauto]); [|set_solver]. destruct (decide (c' = c)) as [->|]; [|set_solver].
    rewrite (crash_unseated _ _ _ _ _ Hinv Hl Hc Hr) in Hm. by destruct Hm.
  - intros c' [->%elem_of_singleton|Hc']%elem_of_union; [done|]. by apply (si_crashed _ Hinv).
Qed.

(** The same, once [join_room] had seated it. *)
Lemma inv_ghost K s c r room m :
  service_inv K s -> c ∉ K -> st_peers s !! c = None -> st_membership s !! c = None ->
  st_rooms s !! r = Some room -> rm_connection_of room !! m = None -> wf_member_id m ->
  zlen (view_members (rm_view room)) < view_max_players (rm_view room) ->
  service_inv ({[c]} ∪ K) (put_room s r (with_ghost room c m)).
Proof.
  intros Hinv Hl Hp Hc Hr Hm Hwm Hcount.
  pose proof (crash_unseated _ _ _ _ _ Hinv Hl Hc Hr) as Hseat.
  pose proof (inv_crash _ _ _ Hinv Hl Hp) as [Hrooms Hmem Hpeers Hcrash Hnames Hcap].
  split; cbn; try done.
  - intros r0 room0 [[<- <-]|[_ H]]%lookup_insert_Some; [|eauto].
    apply with_ghost_ok; try done. by eapply inv_room.
  - intros c' r0. rewrite Hmem. split; intros (Hl' & room0 & H & Hin); (split; [done|]).
    + destruct (decide (r = r0)) as [<-|Hne].
      * exists (with_ghost room c m). rewrite lookup_insert_eq. split; [done|]. cbn.
        apply lookup_insert_is_Some. assert (c <> c') by set_solver.
        right. split; [done|]. congruence.
      * exists room0. by rewrite lookup_insert_ne.
    + apply lookup_insert_Some in H as [[<- <-]|[_ H]]; [|eauto].
      exists room. split; [done|]. cbn in Hin. rewrite lookup_insert_ne in Hin; [done|].
      set_solver.
  - rewrite map_size_insert_Some by eauto. done.
Qed.

End Crash.
