(* ===== verification/MasterServiceSpec.v ===== *)
(** * Master room service: what a request may do

    [change s c s' publishes] lists the transitions connection [c] can cause: looking around,
    notifying a fellow member, creating, joining, leaving or closing a room, and, for a host,
    changing its own room.  [handle_body_change] is the refinement: each handler of
    [MasterService], on every branch, is one of them.  The properties of the service are then
    properties of [change]. *)

From S2P Require Export MasterServiceInv.

(** A request as the codec delivers it: well typed and re-encodable, so its strings have legal
    lengths. *)
Definition request_legal (b : RequestBody) : Prop :=
  wf_request_body b /\ exists u, encode_request_body b = Ok u.

Definition options_legal (map mode : list byte) : Prop :=
  wf_string map /\ wf_string mode /\
  1 <= zlen map <= MAX_MAP_BYTES /\ 1 <= zlen mode <= MAX_MODE_BYTES.

(** What a host can make of its room, before the revision moves. *)
Inductive host_change (room : Room) : Room -> Prop :=
| hc_password pv :
    host_change room
      {| rm_view := set_protected (rm_view room) (bool_decide (is_Some pv)); rm_password := pv;
         rm_host_connection_id := rm_host_connection_id room;
         rm_member_of := rm_member_of room; rm_connection_of := rm_connection_of room |}
| hc_options map mode joinable :
    options_legal map mode -> map_mode_refused (rm_view room) map mode = false ->
    host_change room (set_view room (set_map_mode (rm_view room) map mode joinable))
| hc_start map mode :
    options_legal map mode -> map_mode_refused (rm_view room) map mode = false ->
    view_phase (rm_view room) = Gathering ->
    host_change room
      (set_view room
         (set_phase (set_map_mode (rm_view room) map mode (view_joinable (rm_view room)))
            (next_epoch (view_epoch (rm_view room))) Loading))
| hc_end :
    in_match (view_phase (rm_view room)) = true ->
    host_change room
      (set_view room (set_phase (rm_view room) (view_epoch (rm_view room)) Gathering))
| hc_running :
    in_match (view_phase (rm_view room)) = true ->
    host_change room
      (set_view room (set_phase (rm_view room) (view_epoch (rm_view room)) Running)).

Section Spec.
Context {Conn Sender : Type}.
Context (sha256 : list byte -> list byte).
Context {K : gset Z}.
Abbreviation State := (ServiceState Conn Sender).
Abbreviation PeerOf := (Peer Conn Sender).
Implicit Types (s : State) (c : Z) (r : AdvertId) (m : MemberId) (room : Room).

(** [c] is in a room in which [c'] has a seat. *)
Definition fellows (s : State) (c c' : Z) : Prop :=
  exists r room, st_membership s !! c = Some r /\ st_rooms s !! r = Some room /\
                 is_Some (rm_member_of room !! c').

Definition events_to (cs : list Z) (event : PeerEvent) : list Publish :=
  map (fun c => (c, FramePeerEvent event)) cs.

Inductive change (s : State) (c : Z) : State -> list Publish -> Prop :=
| ch_query : change s c s []
| ch_online (p : PeerOf) online :
    st_peers s !! c = Some p ->
    change s c (set_peers s (<[c := mkPeer online (pr_player_name p) (pr_connection p)
                                      (pr_control_tx p)]> (st_peers s))) []
| ch_notify target event :
    fellows s c target -> wf_peer_event event -> change s c s [(target, FramePeerEvent event)]
| ch_create (p : PeerOf) room r m :
    st_peers s !! c = Some p -> st_membership s !! c = None ->
    Z.of_nat (size (st_rooms s)) < MAX_ROOMS ->
    st_rooms s !! r = None -> room_ok K r room ->
    rm_member_of room = {[c := m]} -> rm_host_connection_id room = c ->
    view_members (rm_view room) = [m] ->
    change s c (touch (set_membership (put_room s r room) (<[c := r]> (st_membership s))))
      [(c, FrameRoomView (rm_view room))]
| ch_join (p : PeerOf) r room m :
    st_peers s !! c = Some p -> st_membership s !! c = None ->
    st_rooms s !! r = Some room -> rm_connection_of room !! m = None -> wf_member_id m ->
    view_joinable (rm_view room) = true ->
    zlen (view_members (rm_view room)) < view_max_players (rm_view room) ->
    change s c
      (touch (set_membership (put_room s r (with_member room c m (pr_player_name p)))
                (<[c := r]> (st_membership s))))
      (map (fun c' => (c', FrameRoomView (rm_view (with_member room c m (pr_player_name p)))))
         (room_connections (with_member room c m (pr_player_name p))))
| ch_leave r room m :
    st_membership s !! c = Some r -> st_rooms s !! r = Some room ->
    rm_member_of room !! c = Some m -> rm_host_connection_id room <> c ->
    change s c (remove_member s c).1 (remove_member s c).2
| ch_close r room :
    st_rooms s !! r = Some room -> rm_host_connection_id room = c ->
    change s c (close_room s r HostLeft).1 (close_room s r HostLeft).2
| ch_host r room room' events :
    st_rooms s !! r = Some room -> rm_host_connection_id room = c ->
    host_change room room' ->
    (forall c' f, (c', f) ∈ events ->
       c' ∈ room_connections room /\ exists e, f = FramePeerEvent e /\ wf_peer_event e) ->
    change s c (bump_room (put_room s r room') r)
      (publish_view (bump_room (put_room s r room') r) r ++ events).

(** ** Legal requests *)

Lemma validate_map_mode_ok map mode x :
  validate_map_mode map mode = Ok x ->
  1 <= zlen map <= MAX_MAP_BYTES /\ 1 <= zlen mode <= MAX_MODE_BYTES.
Proof.
  unfold validate_map_mode, is_empty. intros H%fail_if_ok.
  pose proof (zlen_nonneg map). pose proof (zlen_nonneg mode). lia.
Qed.

Lemma validate_advert_ok name map mode n x :
  validate_advert name map mode n = Ok x ->
  1 <= zlen name <= MAX_ADVERT_NAME_BYTES /\ 1 <= zlen map <= MAX_MAP_BYTES /\
  1 <= zlen mode <= MAX_MODE_BYTES /\ 2 <= n <= MAX_SESSION_MEMBERS.
Proof.
  unfold validate_advert, is_empty. intros H%fail_if_ok.
  pose proof (zlen_nonneg name). pose proof (zlen_nonneg map). pose proof (zlen_nonneg mode). lia.
Qed.

Lemma legal_options map mode joinable :
  request_legal (ReqSetOptions map mode joinable) -> options_legal map mode.
Proof.
  intros [[Hm Hd] [u Hu]]. cbn [encode_request_body] in Hu. ok_inv.
  apply validate_map_mode_ok in E as [? ?]. unfold options_legal. auto.
Qed.

Lemma legal_start map mode :
  request_legal (ReqStartMatch map mode) -> options_legal map mode.
Proof.
  intros [[Hm Hd] [u Hu]]. cbn [encode_request_body] in Hu. ok_inv.
  apply validate_map_mode_ok in E as [? ?]. unfold options_legal. auto.
Qed.

(** ** Handlers that need the host *)

Lemma with_hosted_inv s c body s' b p :
  service_inv K s -> with_hosted s c body = Returned s' b p ->
  (s' = s /\ p = [] /\ exists e, b = RespError e) \/
  exists r room, st_rooms s !! r = Some room /\ rm_host_connection_id room = c /\
                 body r room = Returned s' b p.
Proof.
  intros Hinv. unfold with_hosted. destruct (host_of s c) as [r|e] eqn:Hh.
  - apply (host_of_spec _ _ _ Hinv) in Hh as (room & Hr & Hc). rewrite Hr. eauto 10.
  - intros [= <- <- <-]. left. eauto.
Qed.

Lemma bump_put_room s r room :
  bump_room (put_room s r room) r =
    touch (put_room s r (set_view room (bump_view (rm_view room)))).
Proof.
  unfold bump_room. cbn [st_rooms put_room set_rooms]. rewrite lookup_insert_eq.
  unfold put_room, set_rooms. cbn. by rewrite insert_insert_eq.
Qed.

Lemma updated_run s r room :
  updated (put_room s r room) r =
    Returned (bump_room (put_room s r room) r) (RespRoomUpdated (bump_view (rm_view room)))
      (publish_view (bump_room (put_room s r room) r) r).
Proof.
  unfold updated. rewrite bump_put_room. cbn [st_rooms touch put_room set_rooms].
  by rewrite lookup_insert_eq.
Qed.

Lemma host_update s c r room room' :
  st_rooms s !! r = Some room -> rm_host_connection_id room = c -> host_change room room' ->
  change s c (bump_room (put_room s r room') r) (publish_view (bump_room (put_room s r room') r) r).
Proof.
  intros Hr Hc Hch. rewrite <- (app_nil_r (publish_view _ _)).
  eapply ch_host; eauto. by intros ? ? ?%elem_of_nil.
Qed.

Lemma host_change_member_of room room' :
  host_change room room' -> rm_member_of room' = rm_member_of room.
Proof. by destruct 1. Qed.

Lemma set_map_mode_same (v : RoomView) : set_map_mode v (view_map v) (view_mode v) (view_joinable v) = v.
Proof. by destruct v. Qed.

Lemma put_room_same s r room v :
  st_rooms s !! r = Some room -> v = rm_view room -> put_room s r (set_view room v) = s.
Proof.
  intros Hr ->. unfold put_room, set_view, set_rooms. destruct s as [rs ps ms g], room. cbn in *.
  by rewrite insert_id.
Qed.

Lemma map_mode_refused_in_match (v : RoomView) map mode :
  map_mode_refused v map mode = false -> in_match (view_phase v) = true ->
  view_map v = map /\ view_mode v = mode.
Proof.
  unfold map_mode_refused. intros H Hin. rewrite Hin in H. apply orb_false_iff in H as [_ H].
  apply orb_false_iff in H as [H1 H2]. apply negb_false_iff, bool_decide_eq_true in H1, H2. done.
Qed.

Lemma start_match_change s c map mode s' b p :
  service_inv K s -> options_legal map mode ->
  start_match s c map mode = Returned s' b p -> change s c s' p.
Proof.
  intros Hinv Hlegal H.
  apply (with_hosted_inv _ _ _ _ _ _ Hinv) in H as [(-> & -> & _)|(r & room & Hr & Hc & H)];
    [constructor|]. cbv beta zeta in H.
  destruct (map_mode_refused _ _ _) eqn:Href; [injection H as <- <- <-; constructor|].
  cbn [view_phase set_map_mode view_epoch] in H.
  destruct (in_match (view_phase (rm_view room))) eqn:Hin.
  - destruct (map_mode_refused_in_match _ _ _ Href Hin) as [<- <-].
    injection H as <- <- <-. rewrite put_room_same by (done || apply set_map_mode_same). constructor.
  - rewrite updated_run in H. injection H as <- <- <-. eapply host_update; eauto.
    apply hc_start; auto. by destruct (view_phase (rm_view room)).
Qed.

Lemma set_options_change s c map mode joinable s' b p :
  service_inv K s -> options_legal map mode ->
  set_options s c map mode joinable = Returned s' b p -> change s c s' p.
Proof.
  intros Hinv Hlegal H.
  apply (with_hosted_inv _ _ _ _ _ _ Hinv) in H as [(-> & -> & _)|(r & room & Hr & Hc & H)];
    [constructor|]. cbv beta zeta in H.
  destruct (map_mode_refused _ _ _) eqn:Href; [injection H as <- <- <-; constructor|].
  rewrite updated_run in H. injection H as <- <- <-. eapply host_update; eauto.
  by apply hc_options.
Qed.

Lemma set_password_change s c d password s' b p :
  service_inv K s -> set_password sha256 s c d password = Returned s' b p -> change s c s' p.
Proof.
  intros Hinv H.
  apply (with_hosted_inv _ _ _ _ _ _ Hinv) in H as [(-> & -> & _)|(r & room & Hr & Hc & H)];
    [constructor|]. cbv beta zeta in H.
  rewrite updated_run in H. injection H as <- <- <-. eapply host_update; eauto. constructor.
Qed.

Lemma not_stale_in_match r r' epoch (v : RoomView) :
  stale_match r r' epoch v = false ->
  r = r' /\ epoch <> 0 /\ view_epoch v = epoch /\ in_match (view_phase v) = true.
Proof.
  unfold stale_match. rewrite !orb_false_iff, !negb_false_iff, bool_decide_eq_true, Z.eqb_neq, Z.eqb_eq.
  tauto.
Qed.

Lemma end_match_change s c r0 epoch s' b p :
  service_inv K s -> end_match s c r0 epoch = Returned s' b p -> change s c s' p.
Proof.
  intros Hinv H.
  apply (with_hosted_inv _ _ _ _ _ _ Hinv) in H as [(-> & -> & _)|(r & room & Hr & Hc & H)];
    [constructor|]. cbv beta zeta in H.
  destruct (stale_match _ _ _ _) eqn:Hst; [injection H as <- <- <-; constructor|].
  injection H as <- <- <-. eapply host_update; eauto. apply hc_end.
  by apply not_stale_in_match in Hst as (_ & _ & _ & ?).
Qed.

Lemma host_world_ready_change s c r0 epoch map_ weapons classes s' b p :
  service_inv K s -> request_legal (ReqHostWorldReady r0 epoch map_ weapons classes) ->
  host_world_ready s c r0 epoch map_ weapons classes = Returned s' b p -> change s c s' p.
Proof.
  intros Hinv [(_ & Hwf) _] H.
  apply (with_hosted_inv _ _ _ _ _ _ Hinv) in H as [(-> & -> & _)|(r & room & Hr & Hc & H)];
    [constructor|]. cbv beta zeta in H.
  destruct (stale_match _ _ _ _) eqn:Hst; [injection H as <- <- <-; constructor|].
  injection H as <- <- <-. eapply ch_host; eauto.
  - apply hc_running. by apply not_stale_in_match in Hst as (_ & _ & _ & ?).
  - cbn [st_rooms put_room set_rooms]. rewrite lookup_insert_eq. cbn [st_rooms put_room set_rooms].
    rewrite lookup_insert_eq.
    intros c' f (c0 & [= -> ->] & Hin)%list_elem_of_fmap. split; [done|]. by eexists.
Qed.

(** ** The other handlers *)

Lemma fellows_host s c r m :
  service_inv K s -> member_of s c = Ok (r, m) ->
  exists room, st_rooms s !! r = Some room /\ fellows s c (rm_host_connection_id room).
Proof.
  intros Hinv Hm'. pose proof Hm' as Hm.
  apply (member_of_spec _ _ _ _ Hinv) in Hm as (room & Hr & Hm).
  exists room. split; [done|]. exists r, room. split_and!; [by eapply member_of_lives|done|].
  by rewrite (so_host _ (ro_seats _ _ (inv_room _ _ _ Hinv Hr))).
Qed.

Lemma room_member_wf r room m :
  room_ok K r room -> m ∈ view_members (rm_view room) -> wf_member_id m.
Proof.
  intros [_ Hview _ _] Hm. destruct (vo_wf _ Hview) as (?&?&?&?&?&?&?&?&?&?&Hms&?).
  rewrite list.Forall_forall in Hms. auto.
Qed.

Lemma seated_in_view r room c m :
  room_ok K r room -> rm_member_of room !! c = Some m -> m ∈ view_members (rm_view room).
Proof.
  intros [_ _ Hseats _] Hm. apply (so_seated _ Hseats). apply (so_inverse _ Hseats) in Hm.
  by rewrite Hm.
Qed.

Lemma member_of_wf s c r m : service_inv K s -> member_of s c = Ok (r, m) -> wf_member_id m.
Proof.
  intros Hinv H. destruct (member_of_spec _ _ _ _ Hinv H) as (room & Hr & Hm).
  pose proof (inv_room _ _ _ Hinv Hr) as Hok. eapply room_member_wf, seated_in_view; eauto.
Qed.

Lemma forward_to_host_change s c event s' b p :
  service_inv K s -> (forall m, wf_member_id m -> wf_peer_event (event m)) ->
  forward_to_host s c event = Returned s' b p -> change s c s' p.
Proof.
  intros Hinv Hwf. unfold forward_to_host. destruct (member_of s c) as [[r m]|e] eqn:Hm;
    [|intros [= <- <- <-]; constructor].
  destruct (fellows_host _ _ _ _ Hinv Hm) as (room & -> & Hf).
  intros [= <- <- <-]. constructor; [done|].
  apply Hwf. by eapply member_of_wf.
Qed.

Lemma forward_to_member_change s c m event s' b p :
  service_inv K s -> wf_peer_event event -> forward_to_member s c m event = Returned s' b p -> change s c s' p.
Proof.
  intros Hinv Hwf. unfold forward_to_member. destruct (host_of s c) as [r|e] eqn:Hh;
    [|intros [= <- <- <-]; constructor].
  apply (host_of_spec _ _ _ Hinv) in Hh as (room & Hr & Hc). rewrite Hr.
  destruct (rm_connection_of room !! m) as [target|] eqn:Hm; intros [= <- <- <-]; [|constructor].
  pose proof (inv_room _ _ _ Hinv Hr) as Hok.
  constructor; [|done]. exists r, room. split_and!; [|done|].
  - rewrite <- Hc. by eapply host_seated.
  - apply (so_inverse _ (ro_seats _ _ Hok)) in Hm. by rewrite Hm.
Qed.

Lemma fresh_room_ok s c d (peer : PeerOf) name map mode max_players requires available password :
  service_inv K s -> fresh_draw s d -> st_peers s !! c = Some peer ->
  request_legal (ReqCreateRoom name map mode max_players requires available password) ->
  room_content_ok map requires available = true ->
  room_ok K (mkAdvertId (draw_room d))
    {| rm_view := {|
          view_room_id := mkAdvertId (draw_room d); view_name := name;
          view_host := mkMemberId (draw_member d); view_members := [mkMemberId (draw_member d)];
          view_member_names := {[ mkMemberId (draw_member d) := pr_player_name peer ]};
          view_map := map; view_mode := mode; view_joinable := true; view_revision := 1;
          view_epoch := 0; view_phase := Gathering; view_max_players := max_players;
          view_requires := requires; view_available := available;
          view_password_protected := negb (is_empty password) |};
       rm_password := pv_new sha256 (draw_salt d) password;
       rm_host_connection_id := c; rm_member_of := {[ c := mkMemberId (draw_member d) ]};
       rm_connection_of := {[ mkMemberId (draw_member d) := c ]} |}.
Proof.
  intros Hinv (Hr16 & Hm16 & _ & _) Hpeer [(?&?&?&?&?&?&?) [u Hu]] Hcontent.
  cbn [encode_request_body] in Hu. ok_inv. apply validate_advert_ok in E as (?&?&?&?).
  pose proof (si_names _ Hinv _ _ Hpeer) as Hname.
  split; cbn; [done| | |].
  - split; cbn; try done.
    unfold wf_view; cbn. split_and!; try done.
    + repeat constructor. done.
    + apply map_Forall_singleton. by destruct Hname.
  - split; cbn.
    + intros c' m'. rewrite !lookup_singleton_Some. naive_solver.
    + apply list.NoDup_singleton.
    + intros m'. rewrite list_elem_of_singleton, lookup_singleton_is_Some. naive_solver.
    + intros m'. rewrite lookup_singleton_is_Some. setoid_rewrite lookup_singleton_Some.
      pose proof (attached_lives _ _ _ Hinv Hpeer). naive_solver.
    + by apply map_Forall_singleton.
    + apply lookup_singleton_eq.
    + by eapply attached_lives.
    + unfold zlen, MAX_SESSION_MEMBERS in *. cbn. lia.
  - unfold pv_new. by destruct (is_empty password).
Qed.

Lemma create_room_change s c d name map mode max_players requires available password s' b p :
  service_inv K s -> fresh_draw s d ->
  request_legal (ReqCreateRoom name map mode max_players requires available password) ->
  create_room sha256 s c d name map mode max_players requires available password
    = Returned s' b p ->
  change s c s' p.
Proof.
  intros Hinv Hfresh Hlegal. unfold create_room.
  destruct (room_content_ok map requires available) eqn:Hcontent;
    [cbn [negb]|intros [= <- <- <-]; constructor].
  destruct (bool_decide_reflect (is_Some (st_membership s !! c))) as [|Hout];
    [intros [= <- <- <-]; constructor|].
  destruct (Z.leb_spec MAX_ROOMS (Z.of_nat (size (st_rooms s))));
    [intros [= <- <- <-]; constructor|].
  destruct (st_peers s !! c) as [peer|] eqn:Hpeer; [|discriminate].
  intros [= <- <- <-]. pose proof (fresh_room_ok _ _ _ _ _ _ _ _ _ _ _ Hinv Hfresh Hpeer Hlegal Hcontent) as Hok.
  eapply (ch_create s c peer _ (mkAdvertId (draw_room d)) (mkMemberId (draw_member d))) in Hok; try done.
  - by apply eq_None_not_Some.
  - by destruct Hfresh as (_ & _ & ? & _).
Qed.

Lemma join_room_change s c d r have password s' b p :
  service_inv K s -> fresh_draw s d ->
  join_room sha256 s c d r have password = Returned s' b p -> change s c s' p.
Proof.
  intros Hinv Hfresh. unfold join_room, fail.
  destruct (st_membership s !! c) as [r'|] eqn:Hc.
  { repeat case_match; intros [= <- <- <-]; constructor. }
  destruct (st_rooms s !! r) as [room|] eqn:Hr; [|intros [= <- <- <-]; constructor].
  destruct (password_refused _ _ _); [intros [= <- <- <-]; constructor|].
  destruct (allows_join_request _) eqn:Hjoin; cbn [negb]; [|intros [= <- <- <-]; constructor].
  destruct (negb _); [intros [= <- <- <-]; constructor|].
  destruct (Z.leb_spec (view_max_players (rm_view room)) (zlen (view_members (rm_view room))));
    [intros [= <- <- <-]; constructor|].
  destruct (st_peers s !! c) as [peer|] eqn:Hpeer; [|discriminate].
  intros [= <- <- <-].
  destruct Hfresh as (_ & Hm16 & _ & Hfree).
  unfold publish_view. cbn [st_rooms touch set_membership put_room set_rooms].
  rewrite lookup_insert_eq. eapply (ch_join s c peer r room (mkMemberId (draw_member d))); eauto.
  unfold allows_join_request, request_join_allowed in Hjoin. cbn in Hjoin.
  by rewrite negb_involutive in Hjoin.
Qed.

Lemma leave_room_change s c s' b p :
  service_inv K s -> leave_room s c = Returned s' b p -> change s c s' p.
Proof.
  intros Hinv. unfold leave_room. destruct (st_membership s !! c) as [r|] eqn:Hc;
    [|intros [= <- <- <-]; constructor].
  destruct (inv_member_room _ _ _ Hinv Hc) as (room & m & Hr & Hm & Hm' & Hok).
  rewrite Hr. destruct (Z.eqb_spec (rm_host_connection_id room) c) as [Hh|Hh].
  - destruct (close_room s r HostLeft) eqn:E. intros [= <- <- <-].
    pose proof (ch_close s c r room Hr Hh) as H. by rewrite E in H.
  - destruct (remove_member s c) eqn:E. intros [= <- <- <-].
    pose proof (ch_leave s c r room m Hc Hr Hm Hh) as H. by rewrite E in H.
Qed.

Lemma close_hosted_room_change s c s' b p :
  service_inv K s -> close_hosted_room s c = Returned s' b p -> change s c s' p.
Proof.
  intros Hinv. unfold close_hosted_room. destruct (host_of s c) as [r|] eqn:Hh;
    [|intros [= <- <- <-]; constructor].
  apply (host_of_spec _ _ _ Hinv) in Hh as (room & Hr & Hc).
  destruct (close_room s r HostLeft) eqn:E. intros [= <- <- <-].
  pose proof (ch_close s c r room Hr Hc) as H. by rewrite E in H.
Qed.

Lemma population_change s c now online s' b p :
  population s c now online = Returned s' b p -> change s c s' p.
Proof.
  unfold population. destruct (st_peers s !! c) as [peer|] eqn:Hp; intros [= <- <- <-].
  - by eapply ch_online.
  - constructor.
Qed.

Lemma handle_body_change s c now d body s' b p :
  service_inv K s -> fresh_draw s d -> request_legal body ->
  handle_body sha256 s c now d body = Returned s' b p -> change s c s' p.
Proof.
  intros Hinv Hfresh Hlegal H.
  destruct body; cbn [handle_body] in H;
    try (injection H as <- <- <-; constructor);
    eauto using population_change, create_room_change, join_room_change, set_password_change,
      leave_room_change, end_match_change, close_hosted_room_change, host_world_ready_change;
    try (destruct Hlegal as [Hwf _]; cbn in Hwf;
         first [eapply forward_to_host_change; [done| |exact H]
               |eapply forward_to_member_change; [done| |exact H]];
         cbn; tauto).
  - eapply set_options_change; eauto using legal_options.
  - eapply start_match_change; eauto using legal_start.
Qed.

End Spec.

Arguments change : clear implicits.
Arguments change {Conn Sender} K s c s' publishes.
