(* ===== verification/MasterServiceProps.v ===== *)
(** * Master room service: safety

    The invariant holds in every reachable state, handlers of attached connections do not
    panic, errors change nothing, connections reach only their own room, rooms follow their
    phase machine, and what is published can be sent and arrives as it was. *)

From S2P Require Export MasterServiceSpec.

Section Changes.
Context {Conn Sender : Type}.
Context (reserve : Sender -> Z -> option Sender).
Context (sha256 : list byte -> list byte).
Context {K : gset Z}.
Abbreviation State := (ServiceState Conn Sender).
Abbreviation PeerOf := (Peer Conn Sender).
Implicit Types (s : State) (c : Z) (r : AdvertId) (m : MemberId) (room : Room).

(** ** [change] preserves the invariant *)

Lemma host_change_ok r room room' :
  room_ok K r room -> host_change room room' -> room_ok K r room'.
Proof.
  intros [Hid Hview Hseats Hpw] Hch. pose proof (vo_content _ Hview) as Hcontent.
  pose proof (vo_wf _ Hview) as Hwf.
  destruct Hch; (split; [exact Hid| | |first [exact Hpw|done]]); cbn.
  - by apply view_ok_protected.
  - by destruct Hseats.
  - destruct H as (?&?&?&?). apply view_ok_map_mode; try done.
    unfold map_mode_refused in *. by apply orb_false_iff in H0 as [?%negb_false_iff _].
  - by apply seats_ok_view.
  - pose proof (next_epoch_range (view_epoch (rm_view room))).
    destruct H as (?&?&?&?). apply view_ok_phase; [|unfold is_u32; cbn; lia|lia].
    apply view_ok_map_mode; try done.
    unfold map_mode_refused in *. by apply orb_false_iff in H0 as [?%negb_false_iff _].
  - by apply seats_ok_view.
  - apply view_ok_phase; [done| |done]. by destruct Hwf as (?&?&?&?&?).
  - by apply seats_ok_view.
  - apply view_ok_phase; [done| |by intros; apply (vo_epoch _ Hview)].
    by destruct Hwf as (?&?&?&?&?).
  - by apply seats_ok_view.
Qed.

Lemma room_ok_bump r room : room_ok K r room -> room_ok K r (set_view room (bump_view (rm_view room))).
Proof.
  intros [Hid Hview Hseats Hpw]. split; cbn; [done|by apply view_ok_bump| |done].
  by apply seats_ok_view.
Qed.

Lemma inv_enter s c r room room' (p : PeerOf) :
  service_inv K s -> st_peers s !! c = Some p -> st_membership s !! c = None ->
  room_ok K r room' -> is_Some (rm_member_of room' !! c) ->
  (forall c' room0, c' <> c -> st_rooms s !! r = Some room0 ->
     rm_member_of room' !! c' = rm_member_of room0 !! c') ->
  (st_rooms s !! r = None -> forall c', c' <> c -> rm_member_of room' !! c' = None) ->
  (st_rooms s !! r = Some room \/
   st_rooms s !! r = None /\ Z.of_nat (size (st_rooms s)) < MAX_ROOMS) ->
  service_inv K (touch (set_membership (put_room s r room') (<[c := r]> (st_membership s)))).
Proof.
  intros Hinv Hp Hout Hok Hin Hold Hnew Hsize. pose proof (attached_lives _ _ _ Hinv Hp) as Hl.
  destruct Hinv as [Hrooms Hmem Hpeers Hcrash Hnames Hcap]. split; cbn.
  - intros r0 room0 [[<- <-]|[_ H]]%lookup_insert_Some; [done|eauto].
  - intros c' r0. destruct (decide (c = c')) as [<-|Hne].
    + rewrite lookup_insert_eq. split.
      * intros [= <-]. split; [done|]. exists room'. by rewrite lookup_insert_eq.
      * intros (_ & room0 & [[<- <-]|[Hr H]]%lookup_insert_Some & Hc); [done|].
        assert (st_membership s !! c = Some r0) by (apply Hmem; eauto). congruence.
    + rewrite lookup_insert_ne, Hmem by done. apply and_iff_compat_l. split.
      * intros (room0 & H & Hc). destruct (decide (r = r0)) as [<-|Hr].
        -- exists room'. rewrite lookup_insert_eq. split; [done|]. by rewrite (Hold c' room0).
        -- exists room0. by rewrite lookup_insert_ne.
      * intros (room0 & [[<- <-]|[Hr H]]%lookup_insert_Some & Hc); [|eauto].
        destruct (st_rooms s !! r) as [room0|] eqn:Hr0.
        -- exists room0. split; [done|]. by rewrite <- (Hold c' room0).
        -- rewrite (Hnew eq_refl c') in Hc by done. by destruct Hc.
  - intros c' r0 [[<- <-]|[_ H]]%lookup_insert_Some; eauto.
  - done.
  - done.
  - destruct Hsize as [Hr|[Hr Hlt]].
    + by rewrite map_size_insert_Some by eauto.
    + rewrite map_size_insert_None by done. lia.
Qed.

Lemma change_inv s c s' p : service_inv K s -> change K s c s' p -> service_inv K s'.
Proof.
  intros Hinv Hch. destruct Hch as
    [|q online Hp|target event Hf Hev|q room r m Hp Hout Hsize Hr Hok Hmo Hhost Hms
    |q r room m Hp Hout Hr Hm Hwm Hjoin Hcount|r room m Hc Hr Hm Hhost|r room Hr Hhost
    |r room room' events Hr Hhost Hch Hev].
  - done.
  - by eapply inv_set_peer.
  - done.
  - apply (inv_enter _ _ _ room room q); try done.
    + rewrite Hmo, lookup_singleton_eq. done.
    + intros c' room0 _ H. congruence.
    + intros _ c' Hne. rewrite Hmo. by apply lookup_singleton_ne.
    + by right.
  - pose proof (inv_room _ _ _ Hinv Hr) as Hok.
    pose proof (attached_lives _ _ _ Hinv Hp) as Hl.
    pose proof (crash_unseated _ _ _ _ _ Hinv Hl Hout Hr) as Hc.
    apply (inv_enter _ _ _ room _ q); try done.
    + apply with_member_ok; try done. by apply (si_names _ Hinv c).
    + cbn. rewrite lookup_insert_eq. done.
    + intros c' room0 Hne H. cbn. rewrite lookup_insert_ne by done. congruence.
    + congruence.
    + by left.
  - by eapply inv_remove_member.
  - by eapply inv_close_room.
  - rewrite bump_put_room. apply inv_touch. pose proof (inv_room _ _ _ Hinv Hr) as Hok.
    eapply inv_put_room; [done|done| |].
    + eapply room_ok_bump, host_change_ok; eauto.
    + cbn. by apply host_change_member_of.
Qed.

(** ** Player names *)

Lemma zlen_encode_nonempty cs : cs <> [] -> 1 <= zlen (utf8_encode cs).
Proof.
  destruct cs as [|c cs]; [done|]. intros _. unfold utf8_encode. cbn [map concat].
  rewrite zlen_app. pose proof (zlen_encode_char c). pose proof (zlen_nonneg (concat (map encode_char cs))).
  lia.
Qed.

Lemma drop_while_sub {A} (f : A -> bool) l x : x ∈ drop_while f l -> x ∈ l.
Proof.
  induction l as [|y l IH]; cbn [drop_while]; [done|].
  destruct (f y); [|done]. intros H. right. auto.
Qed.

Lemma trim_sub cs x : x ∈ trim cs -> x ∈ cs.
Proof.
  unfold trim. intros H. apply list_elem_of_In, in_rev, list_elem_of_In, drop_while_sub in H.
  apply list_elem_of_In, in_rev, list_elem_of_In, drop_while_sub in H. done.
Qed.

Lemma normalize_ok name : wf_string name -> name_ok (normalize_player_name name).
Proof.
  unfold wf_string, normalize_player_name, utf8_valid.
  destruct (utf8_decode name) as [cs|] eqn:Hdec; [|done]. intros _. cbn [default].
  apply encode_decode in Hdec as [_ Hall].
  set (kept := take 16 _). unfold name_ok, MAX_PLAYER_NAME_BYTES.
  destruct (decide (kept = [])) as [|Hne]; [vm_compute; repeat split; congruence|].
  split.
  - apply utf8_valid_encode. rewrite list.Forall_forall in Hall |- *. intros c Hc.
    apply Hall, trim_sub. subst kept. apply elem_of_take in Hc as (i & Hc & _).
    apply list_elem_of_lookup_2, list_elem_of_filter in Hc. by destruct Hc.
  - pose proof (zlen_encode_nonempty kept Hne). pose proof (zlen_utf8_encode kept).
    assert (zlen kept <= 16).
    { subst kept. unfold zlen. rewrite length_take. lia. }
    lia.
Qed.

(** ** Panics *)

Lemma updated_returns s r room : exists s' b p, updated (put_room s r room) r = Returned s' b p.
Proof. rewrite updated_run. eauto. Qed.

Lemma with_hosted_returns s c body :
  service_inv K s -> (forall r room, exists s' b p, body r room = Returned s' b p) ->
  exists s' b p, with_hosted s c body = Returned s' b p.
Proof.
  intros Hinv Hbody. unfold with_hosted, fail. destruct (host_of s c) as [r|e] eqn:Hh; [|eauto].
  apply (host_of_spec _ _ _ Hinv) in Hh as (room & -> & _). apply Hbody.
Qed.

Lemma create_room_returns s c d name map mode n requires available password :
  is_Some (st_peers s !! c) ->
  exists s' b p,
    create_room sha256 s c d name map mode n requires available password = Returned s' b p.
Proof.
  intros [peer Hp]. unfold create_room, fail. rewrite Hp. repeat (case_match; [eauto|]). eauto.
Qed.

Lemma join_room_returns s c d r have password :
  service_inv K s -> is_Some (st_peers s !! c) ->
  exists s' b p, join_room sha256 s c d r have password = Returned s' b p.
Proof.
  intros Hinv [peer Hp]. unfold join_room, fail. rewrite Hp.
  destruct (st_membership s !! c) as [r'|] eqn:Hc.
  - destruct (inv_member_room _ _ _ Hinv Hc) as (room & m & Hr & Hm & _).
    destruct (decide (r' = r)) as [<-|]; [|eauto]. rewrite Hr, Hm. eauto.
  - repeat case_match; eauto; simplify_eq.
Qed.

Lemma handle_body_returns s c now d body :
  service_inv K s -> is_Some (st_peers s !! c) ->
  exists s' b p, handle_body sha256 s c now d body = Returned s' b p.
Proof.
  intros Hinv Hp. destruct body; cbn [handle_body];
    eauto using create_room_returns, join_room_returns;
    try (apply with_hosted_returns; [done|]; intros r room; cbv beta zeta;
         repeat case_match; eauto using updated_returns).
  - unfold leave_room. repeat case_match; eauto.
  - unfold close_hosted_room, fail. repeat case_match; eauto.
  - unfold forward_to_host, fail. repeat case_match; eauto.
  - unfold forward_to_host, fail. repeat case_match; eauto.
  - unfold enter_match, forward_to_member, fail. repeat case_match; eauto.
  - unfold admission_failed, forward_to_member, fail. repeat case_match; eauto.
  - unfold forward_to_host, fail. repeat case_match; eauto.
Qed.

(** A handler panics only for a connection without a peer that creates or joins a room, and
    leaves the state as it was or with the connection seated. *)
Lemma join_room_panic s c d r have password s' :
  service_inv K s -> fresh_draw s d -> st_membership s !! c = None -> st_peers s !! c = None ->
  c ∉ K -> join_room sha256 s c d r have password = Panicked s' ->
  service_inv ({[c]} ∪ K) s'.
Proof.
  intros Hinv (_ & Hm16 & _ & Hfree) Hc Hp Hl. unfold join_room, fail. rewrite Hc, Hp.
  destruct (st_rooms s !! r) as [room|] eqn:Hr; [|done].
  repeat (case_match; [done|]).
  match goal with H : (_ <=? _) = false |- _ => apply Z.leb_gt in H end.
  intros [= <-]. apply (inv_ghost K s c r room (mkMemberId (draw_member d))); eauto.
Qed.

Lemma handle_body_panic s c now d body s' :
  service_inv K s -> fresh_draw s d -> c ∉ K ->
  handle_body sha256 s c now d body = Panicked s' -> service_inv ({[c]} ∪ K) s'.
Proof.
  intros Hinv Hfresh Hl H. destruct (st_peers s !! c) as [peer|] eqn:Hp.
  { destruct (handle_body_returns s c now d body Hinv) as (? & ? & ? & E); [by rewrite Hp|].
    congruence. }
  assert (st_membership s !! c = None) as Hc.
  { destruct (st_membership s !! c) eqn:E; [|done]. apply (si_peers _ Hinv) in E as [? ?]. congruence. }
  destruct body; cbn [handle_body] in H; try discriminate H;
    try (eapply join_room_panic; [done|done|done|done|done|exact H]);
    unfold set_password, set_options, start_match, end_match, host_world_ready, with_hosted,
      leave_room, close_hosted_room, forward_to_host, enter_match, admission_failed,
      forward_to_member, population, list_rooms, fail, host_of, member_of in H;
    rewrite ?Hc, ?Hp in H; cbn in H; try discriminate H.
  unfold create_room, fail in H. rewrite Hp in H. repeat (case_match; [done|]).
  injection H as <-. by apply inv_crash.
Qed.

(** ** Errors *)

Lemma with_hosted_error s c body s' e p :
  (forall r room s' p, body r room = Returned s' (RespError e) p -> s' = s /\ p = []) ->
  with_hosted s c body = Returned s' (RespError e) p -> s' = s /\ p = [].
Proof.
  intros Hbody. unfold with_hosted, fail. destruct (host_of s c); [|by intros [= <- _ <-]].
  case_match; [eauto|done].
Qed.

Lemma updated_no_error s r s' e p : updated s r <> Returned s' (RespError e) p.
Proof. unfold updated. by case_match. Qed.

Lemma handle_body_error s c now d body s' e p :
  handle_body sha256 s c now d body = Returned s' (RespError e) p -> s' = s /\ p = [].
Proof.
  destruct body; cbn [handle_body]; cbv beta zeta delta
    [create_room join_room leave_room close_hosted_room forward_to_host set_password set_options
     start_match end_match host_world_ready enter_match admission_failed forward_to_member
     population list_rooms fail];
    try (apply with_hosted_error; intros r room s1 p1; cbv beta);
    repeat case_match; intros H'; first [discriminate H' | by injection H' as <- _ <-
                                       | by apply updated_no_error in H'].
Qed.

(** ** Isolation: a room changes only through its members, or by a join *)

Lemma lookup_put_ne s r room r' : r <> r' -> st_rooms (put_room s r room) !! r' = st_rooms s !! r'.
Proof. intros. cbn. by rewrite lookup_insert_ne. Qed.

Lemma change_other_rooms s c s' p r room :
  service_inv K s -> change K s c s' p -> st_rooms s !! r = Some room ->
  st_membership s !! c <> Some r ->
  st_rooms s' !! r = Some room \/
  exists peer m, st_peers s !! c = Some peer /\ st_membership s' !! c = Some r /\
    view_joinable (rm_view room) = true /\
    zlen (view_members (rm_view room)) < view_max_players (rm_view room) /\
    st_rooms s' !! r = Some (with_member room c m (pr_player_name peer)).
Proof.
  intros Hinv Hch Hr Hc. destruct Hch as
    [|q online Hp|target event Hf Hev|q room0 r0 m Hp Hout Hsize Hr0 Hok Hmo Hhost Hms
    |q r0 room0 m Hp Hout Hr0 Hm Hwm Hjoin Hcount|r0 room0 m Hc0 Hr0 Hm Hhost
    |r0 room0 Hr0 Hhost|r0 room0 room' events Hr0 Hhost Hch Hev]; try (by left).
  - left. cbn. rewrite lookup_insert_ne; [done|]. intros ->. congruence.
  - cbn. destruct (decide (r0 = r)) as [->|Hne].
    + right. assert (room0 = room) as -> by congruence. exists q, m.
      rewrite !lookup_insert_eq. done.
    + left. by rewrite lookup_insert_ne.
  - left. rewrite (remove_member_run s c r0 room0 m) by done. cbn.
    rewrite lookup_insert_ne; congruence.
  - left. unfold close_room. rewrite Hr0. cbn. rewrite lookup_delete_ne; [done|]. intros ->.
    apply Hc. rewrite <- Hhost. by eapply host_seated.
  - left. rewrite bump_put_room. cbn. rewrite lookup_insert_ne; [done|]. intros ->.
    apply Hc. rewrite <- Hhost. by eapply host_seated.
Qed.

(** ** The room over time *)

(** One move of the phase machine, with the epoch a match runs under. *)
Inductive phase_step : RoomPhase * Z -> RoomPhase * Z -> Prop :=
| ps_stay p e : phase_step (p, e) (p, e)
| ps_start e : phase_step (Gathering, e) (Loading, next_epoch e)
| ps_running p e : in_match p = true -> phase_step (p, e) (Running, e)
| ps_end p e : in_match p = true -> phase_step (p, e) (Gathering, e).

(** What never changes in a room, and how the rest moves. *)
Record view_step (v v' : RoomView) : Prop := {
  vs_fixed : view_room_id v' = view_room_id v /\ view_name v' = view_name v /\
             view_host v' = view_host v /\ view_max_players v' = view_max_players v /\
             view_requires v' = view_requires v /\ view_available v' = view_available v;
  vs_phase : phase_step (view_phase v, view_epoch v) (view_phase v', view_epoch v');
  vs_locked : in_match (view_phase v) = true -> view_map v' = view_map v /\ view_mode v' = view_mode v;
  vs_revision : v' = v \/ view_revision v' = next_revision (view_revision v);
}.

Lemma view_step_refl (v : RoomView) : view_step v v.
Proof. split; [done|constructor|done|by left]. Qed.

Lemma host_change_step room room' :
  host_change room room' -> view_step (rm_view room) (bump_view (rm_view room')).
Proof.
  destruct 1 as [|map mode joinable Hl Href|map mode Hl Href Hg|Hin|Hin];
    split; cbn; try done; try (by right); try (by constructor).
  - intros Hin. by destruct (map_mode_refused_in_match _ _ _ Href Hin) as [<- <-].
  - rewrite Hg. constructor.
  - intros Hin. by destruct (map_mode_refused_in_match _ _ _ Href Hin) as [<- <-].
Qed.

Lemma change_view_step s c s' p r room room' :
  change K s c s' p -> st_rooms s !! r = Some room -> st_rooms s' !! r = Some room' ->
  view_step (rm_view room) (rm_view room').
Proof.
  intros Hch Hr Hr'. destruct Hch as
    [|q online Hp|target event Hf Hev|q room0 r0 m Hp Hout Hsize Hr0 Hok Hmo Hhost Hms
    |q r0 room0 m Hp Hout Hr0 Hm Hwm Hjoin Hcount|r0 room0 m Hc0 Hr0 Hm Hhost
    |r0 room0 Hr0 Hhost|r0 room0 room1 events Hr0 Hhost Hch Hev].
  1-3: cbn in Hr'; assert (room' = room) as -> by congruence; apply view_step_refl.
  - cbn in Hr'. rewrite lookup_insert_ne in Hr' by congruence.
    assert (room' = room) as -> by congruence; apply view_step_refl.
  - cbn in Hr'. apply lookup_insert_Some in Hr' as [[-> <-]|[_ Hr']].
    + assert (room0 = room) as -> by congruence. split; cbn; [done|constructor|done|by right].
    + assert (room' = room) as -> by congruence; apply view_step_refl.
  - rewrite (remove_member_run s c r0 room0 m) in Hr' by done. cbn in Hr'.
    apply lookup_insert_Some in Hr' as [[-> <-]|[_ Hr']].
    + assert (room0 = room) as -> by congruence. split; cbn; [done|constructor|done|by right].
    + assert (room' = room) as -> by congruence; apply view_step_refl.
  - unfold close_room in Hr'. rewrite Hr0 in Hr'. cbn in Hr'.
    apply lookup_delete_Some in Hr' as [_ Hr'].
    assert (room' = room) as -> by congruence; apply view_step_refl.
  - rewrite bump_put_room in Hr'. cbn in Hr'. apply lookup_insert_Some in Hr' as [[-> <-]|[_ Hr']].
    + assert (room0 = room) as -> by congruence. by apply host_change_step.
    + assert (room' = room) as -> by congruence; apply view_step_refl.
Qed.

(** The generation moves exactly when the rooms do. *)
Lemma change_generation s c s' p :
  change K s c s' p ->
  (st_rooms s' = st_rooms s /\ st_generation s' = st_generation s) \/
  st_generation s' = wrapping_add64 (st_generation s) 1.
Proof.
  destruct 1; try (left; done); try (right; done); right.
  - by rewrite (remove_member_run s c r room m).
  - unfold close_room. by rewrite H.
  - by rewrite bump_put_room.
Qed.

(** ** What is published travels *)

(** [f] can be sent, and the receiver decodes [f']. *)
Definition travels (f f' : ControlFrame) : Prop :=
  exists inner, encode_stream_frame f = Ok (be_bytes 4 (zlen inner) ++ inner) /\
                decode_stream_payload inner = Ok f'.

Lemma travels_intro f bytes :
  wf_frame f -> encode_control_frame f = Ok bytes -> travels f (norm_frame f).
Proof.
  intros Hwf Hb. exists bytes. split; [by apply encode_stream_of|].
  by apply control_frame_roundtrip.
Qed.

Lemma insert_names_const (g : MemberId -> list byte) ms (acc : gmap MemberId (list byte)) k :
  fold_left (fun names row => <[row.1 := row.2]> names) (map (fun m => (m, g m)) ms) acc !! k =
    (if decide (k ∈ ms) then Some (g k) else acc !! k : option (list byte)).
Proof.
  revert acc. induction ms as [|m ms IH]; intros acc; cbn [map fold_left].
  - rewrite decide_False by apply not_elem_of_nil. done.
  - rewrite IH. cbn [fst snd]. destruct (decide (k ∈ ms)) as [Hin|Hout].
    + rewrite decide_True by (by right). done.
    + destruct (decide (m = k)) as [->|Hne].
      * rewrite lookup_insert_eq, decide_True by (by left). done.
      * rewrite lookup_insert_ne by done. rewrite decide_False; [done|].
        rewrite elem_of_cons. intros [?|?]; congruence.
Qed.

(** Nobody whose task panicked sits in the room. *)
Definition no_ghost (room : Room) : Prop := forall g, g ∈ K -> rm_member_of room !! g = None.

Lemma norm_view_ok room :
  seats_ok K room -> no_ghost room -> norm_view (rm_view room) = rm_view room.
Proof.
  intros Hseats Hghost. assert (forall v, insert_names (map (fun m => (m, member_name (view_member_names v) m))
    (view_members v)) = view_member_names v -> norm_view v = v) as Heq.
  { intros [] H. unfold norm_view. cbn in *. by rewrite H. }
  apply Heq, map_eq. intros m. unfold insert_names. rewrite insert_names_const.
  assert (m ∈ view_members (rm_view room) <->
          is_Some (view_member_names (rm_view room) !! m)) as Hm.
  { rewrite (so_named _ Hseats), (so_seated _ Hseats). split; [|intros (c & -> & _); done].
    intros [c Hc]. exists c. split; [done|]. intros HK. apply (so_inverse _ Hseats) in Hc.
    by rewrite (Hghost c HK) in Hc. }
  destruct (decide _) as [Hin|Hout].
  - destruct (proj1 Hm Hin) as [n Hn]. unfold member_name. by rewrite Hn.
  - rewrite lookup_empty. destruct (view_member_names (rm_view room) !! m) eqn:E; [|done].
    exfalso. apply Hout, Hm. done.
Qed.

Lemma room_sendable r room : room_ok K r room -> sendable_view (rm_view room).
Proof.
  intros [_ [Hwf] Hseats _]. destruct Hwf as (?&?&?&?&?&?&?&?&?&?&?&?). unfold sendable_view.
  split_and!; try done.
  - pose proof (so_count _ Hseats). lia.
  - lia. - lia. - lia. - lia. - lia. - lia. - lia. - lia.
  - apply list.Forall_forall. intros m Hm. unfold member_name.
    destruct (view_member_names (rm_view room) !! m) as [n|] eqn:Hn; [|done].
    cbn. by destruct (so_names _ Hseats m n Hn) as [_ [_ ?]].
Qed.

Lemma room_frames_travel r room m id f :
  room_ok K r room -> wf_member_id m -> is_u64 id -> f ∈ view_frames (rm_view room) m id ->
  travels f (norm_frame f).
Proof.
  intros Hok Hm Hid Hf.
  destruct (view_frames_encode _ m id f (room_sendable _ _ Hok) Hm Hf) as [bytes Hb].
  pose proof (vo_wf _ (ro_view _ _ Hok)) as Hwf.
  apply (travels_intro f bytes); [|done]; unfold view_frames in Hf;
    repeat (apply elem_of_cons in Hf as [->|Hf]); try (by apply elem_of_nil in Hf);
    done.
Qed.

Lemma event_travels e : wf_peer_event e -> travels (FramePeerEvent e) (FramePeerEvent e).
Proof.
  intros Hwf. destruct (encode_message_total KIND_PEER_EVENT 0 (encode_peer_event e)) as [bytes Hb].
  - destruct e as [| | | |m epoch reason|]; cbn in *; unfold wf_member_id in *; destruct_and?;
      unfold w_u8, w_u32, w_u64; autorewrite with zlen; try lia.
    destruct reason; cbn; unfold w_u8, w_u64; autorewrite with zlen; lia.
  - by apply (travels_intro (FramePeerEvent e) bytes).
Qed.

Lemma closed_travels r epoch reason :
  wf_advert_id r -> is_u32 epoch ->
  travels (FrameClosed r epoch reason) (FrameClosed r epoch reason).
Proof.
  intros Hr He. destruct (encode_message_total KIND_CLOSED 0
    (advert_bytes r ++ w_u32 epoch ++ w_u8 (close_wire reason))) as [bytes Hb].
  - unfold wf_advert_id in Hr. unfold w_u32, w_u8. autorewrite with zlen. lia.
  - by apply (travels_intro (FrameClosed r epoch reason) bytes).
Qed.

(** Who hears about it: connections that are, or were until now, in the room. *)
Definition in_room (s s' : State) (r : AdvertId) (c : Z) : Prop :=
  st_membership s !! c = Some r \/ st_membership s' !! c = Some r.

(** What the receiver makes of a frame about room [r]: the frame itself, unless a connection
    whose task panicked has a seat there, whose missing name then reads as the default one. *)
Definition arrives (s' : State) (r : AdvertId) (f : ControlFrame) : Prop :=
  travels f (norm_frame f) /\
  ((forall room, st_rooms s' !! r = Some room -> no_ghost room) -> norm_frame f = f).

(** A seat is held by a connection in the room, or by one whose task panicked. *)
Lemma seated_or_ghost s r room c :
  service_inv K s -> st_rooms s !! r = Some room -> c ∈ room_connections room ->
  st_membership s !! c = Some r \/ c ∈ K.
Proof.
  intros Hinv Hr Hc%elem_of_room_connections. destruct (decide (c ∈ K)); [by right|left].
  apply (si_membership _ Hinv). eauto.
Qed.

Lemma publish_view_spec s r c f :
  service_inv K s -> (c, f) ∈ publish_view s r ->
  (st_membership s !! c = Some r \/ c ∈ K) /\ arrives s r f.
Proof.
  intros Hinv. unfold publish_view. destruct (st_rooms s !! r) as [room|] eqn:Hr;
    [|by intros ?%elem_of_nil].
  intros (c' & [= -> ->] & Hc)%list_elem_of_fmap. split; [by eapply seated_or_ghost|].
  pose proof (inv_room _ _ _ Hinv Hr) as Hok. split.
  - apply (room_frames_travel r room (view_host (rm_view room)) 0); [done| |done|by left].
    by destruct (vo_wf _ (ro_view _ _ Hok)) as (_ & ? & _).
  - intros Hghost. cbn. by rewrite (norm_view_ok _ (ro_seats _ _ Hok)) by auto.
Qed.

Lemma event_arrives s r e : wf_peer_event e -> arrives s r (FramePeerEvent e).
Proof. intros. split; [by apply event_travels|done]. Qed.

Lemma fellows_in_room s s' c c' :
  service_inv K s -> fellows s c c' ->
  exists r, in_room s s' r c /\ (in_room s s' r c' \/ c' ∈ K).
Proof.
  intros Hinv (r & room & Hc & Hr & Hc'). exists r. split; [by left|].
  destruct (seated_or_ghost s r room c' Hinv Hr); [by apply elem_of_room_connections| |by right].
  left. by left.
Qed.

Lemma change_publishes s c s' p c' f :
  service_inv K s -> change K s c s' p -> (c', f) ∈ p ->
  exists r, in_room s s' r c /\ (in_room s s' r c' \/ c' ∈ K) /\ arrives s' r f.
Proof.
  intros Hinv Hch Hp. pose proof (change_inv _ _ _ _ Hinv Hch) as Hinv'.
  destruct Hch as
    [|q online Hq|target event Hf Hev|q room r m Hq Hout Hsize Hr Hok Hmo Hhost Hms
    |q r room m Hq Hout Hr Hm Hwm Hjoin Hcount|r room m Hc Hr Hm Hhost|r room Hr Hhost
    |r room room' events Hr Hhost Hch Hev].
  - by apply elem_of_nil in Hp.
  - by apply elem_of_nil in Hp.
  - apply list_elem_of_singleton in Hp as [= -> ->].
    destruct (fellows_in_room s s _ _ Hinv Hf) as (r & ? & ?). eauto using event_arrives.
  - set (s' := touch _) in *. assert (publish_view s' r = [(c, FrameRoomView (rm_view room))]) as Heq.
    { unfold publish_view, room_connections. cbn. rewrite lookup_insert_eq, Hmo.
      by rewrite map_to_list_singleton. }
    rewrite <- Heq in Hp. apply publish_view_spec in Hp as [Hc' Ht]; [|done]. exists r.
    split_and!; [right; cbn; apply lookup_insert_eq|unfold in_room; tauto|done].
  - set (s' := touch _) in *. assert (publish_view s' r = map (fun c' =>
        (c', FrameRoomView (rm_view (with_member room c m (pr_player_name q)))))
         (room_connections (with_member room c m (pr_player_name q)))) as Heq.
    { unfold publish_view. cbn. by rewrite lookup_insert_eq. }
    rewrite <- Heq in Hp. apply publish_view_spec in Hp as [Hc' Ht]; [|done]. exists r.
    split_and!; [right; cbn; apply lookup_insert_eq|unfold in_room; tauto|done].
  - rewrite (remove_member_run s c r room m) in * by done. cbv zeta in *. cbn [fst snd] in *.
    apply publish_view_spec in Hp as [Hc' Ht]; [|done]. exists r.
    split_and!; [by left|unfold in_room; tauto|done].
  - unfold close_room in Hp. rewrite Hr in Hp. cbn in Hp.
    apply list_elem_of_fmap in Hp as (c0 & [= -> ->] & Hc0).
    pose proof (inv_room _ _ _ Hinv Hr) as Hok.
    destruct (vo_wf _ (ro_view _ _ Hok)) as (Hwid & _ & _ & Hep & _).
    rewrite (ro_id _ _ Hok) in Hwid.
    exists r. split_and!; [left; rewrite <- Hhost; by eapply host_seated| |].
    + destruct (seated_or_ghost _ _ _ _ Hinv Hr Hc0); unfold in_room; tauto.
    + split; [by apply closed_travels|done].
  - exists r. split; [left; rewrite <- Hhost; by eapply host_seated|].
    apply elem_of_app in Hp as [Hp|Hp].
    + apply publish_view_spec in Hp as [Hc' Ht]; [|done]. split; [unfold in_room; tauto|done].
    + apply Hev in Hp as [Hc' (e & -> & He)]. split; [|by apply event_arrives].
      destruct (seated_or_ghost _ _ _ _ Hinv Hr Hc'); unfold in_room; tauto.
Qed.

(** ** Answers say what is so *)

Definition answer_ok (s : State) (c : Z) (b : ResponseBody) : Prop :=
  match b with
  | RespRoomCreated m v =>
      exists r room, st_rooms s !! r = Some room /\ rm_view room = v /\
        rm_member_of room !! c = Some m /\ rm_host_connection_id room = c
  | RespRoomJoined m v =>
      exists r room, st_rooms s !! r = Some room /\ rm_view room = v /\
        rm_member_of room !! c = Some m
  | RespRoomUpdated v =>
      exists r room, st_rooms s !! r = Some room /\ rm_view room = v /\
        rm_host_connection_id room = c
  | RespRoomLeft => st_membership s !! c = None
  | _ => True
  end.

Lemma updated_answer s c r room s' b p :
  rm_host_connection_id room = c -> updated (put_room s r room) r = Returned s' b p -> answer_ok s' c b.
Proof.
  rewrite updated_run, bump_put_room. intros Hc [= <- <- <-]. cbn.
  exists r. rewrite lookup_insert_eq. by eexists.
Qed.

Lemma leave_room_answer s c s' b p :
  service_inv K s -> leave_room s c = Returned s' b p -> answer_ok s' c b.
Proof.
  intros Hinv. unfold leave_room. destruct (st_membership s !! c) as [r|] eqn:Hc;
    [|intros [= <- <- <-]; done].
  destruct (inv_member_room _ _ _ Hinv Hc) as (room & m & Hr & Hm & Hm' & Hok).
  rewrite Hr. destruct (_ =? _).
  - pose proof (close_room_membership s r room HostLeft c Hinv Hr) as H.
    rewrite decide_True in H by done.
    destruct (close_room s r HostLeft). by intros [= <- <- <-].
  - rewrite (remove_member_run s c r room m) by done. intros [= <- <- <-]. cbn.
    apply lookup_delete_eq.
Qed.

Lemma handle_body_answer s c now d body s' b p :
  service_inv K s -> handle_body sha256 s c now d body = Returned s' b p -> answer_ok s' c b.
Proof.
  intros Hinv H. destruct body; cbn [handle_body] in H;
    try (apply (with_hosted_inv _ _ _ _ _ _ Hinv) in H as
           [(-> & -> & (e & ->))|(r & room & Hr & Hc & H)]; [exact I|]; cbv beta zeta in H;
         repeat case_match; try (injection H as <- <- <-; exact I);
         try (apply updated_answer with (c := c) in H; done));
    try (unfold close_hosted_room, forward_to_host, enter_match, admission_failed,
           forward_to_member, population, list_rooms, fail in H;
         repeat case_match; injection H as <- <- <-; exact I);
    try (by apply leave_room_answer in H).
  - unfold create_room, fail in H. repeat case_match; try discriminate H;
      injection H as <- <- <-; try exact I. cbn.
    eexists _, _. rewrite lookup_insert_eq. split; [done|]. cbn. by rewrite lookup_singleton_eq.
  - unfold join_room, fail in H. repeat case_match; try discriminate H;
      injection H as <- <- <-; try exact I; cbn.
    + subst. eauto 10.
    + eexists _, _. rewrite lookup_insert_eq. split; [done|]. cbn. by rewrite lookup_insert_eq.
  - injection H as <- <- <-. cbn. exists r. rewrite lookup_insert_eq. by eexists.
Qed.

End Changes.

Arguments no_ghost : clear implicits.
Arguments arrives {Conn Sender} K s' r f.
