(* ===== verification/MasterServiceDelivery.v ===== *)
(** * Master room service: delivery, relaying and reachable states

    [dispatch_publishes] terminates and takes exactly the connections it could not serve out
    of the service; relays reach the peer the room names; [step] is one critical section of
    the server, [reachable] its closure from the empty service.  Both carry the set of the
    connections whose task panicked: a handler that panics releases the mutex, which is not
    poisoned, and leaves what it had done; its task has ended, so that connection is not attached
    again, panics no second time, and is not disconnected by its own task. *)

From S2P Require Export MasterServiceProps.

Section Delivery.
Context {Conn Sender : Type}.
Context (stable_id : Conn -> Z).
Context (reserve : Sender -> Z -> option Sender).
Context (sha256 : list byte -> list byte).
Abbreviation State := (ServiceState Conn Sender).
Abbreviation PeerOf := (Peer Conn Sender).
Implicit Types (s : State) (c : Z) (r : AdvertId) (m : MemberId) (room : Room).

(** ** The relay branch of [run_connection] *)

(** [peers.values().find(|peer| peer.connection.stable_id() == target.stable_id())]. *)
Fixpoint find_peer (target : Conn) (l : list (Z * PeerOf)) : option (Z * PeerOf) :=
  match l with
  | [] => None
  | e :: l' => if stable_id (pr_connection e.2) =? stable_id target then Some e
               else find_peer target l'
  end.

Inductive RelayStep : Type :=
| RelayQueued (s : State)
| RelayKill (target : Conn)    (* [target.close(..)], and the sender's loop ends *)
| RelayRefused (e : RouteError).

Definition relay_control (s : State) (c : Z) (bytes : list byte) : RelayStep :=
  let routed :=
    relay ← as_encoded (decode_relay_stream bytes);
    '(target, outgoing) ← route_target_stream s c relay;
    peer ← as_route (ok_or SvcNotMember (find_peer target (map_to_list (st_peers s))));
    Ok (target, outgoing, peer) in
  match routed with
  | Err e => RelayRefused e
  | Ok (target, outgoing, (c', peer)) =>
      match try_send reserve (pr_control_tx peer) (FrameRelay outgoing) with
      | Some tx => RelayQueued (set_peers s (<[c' := set_tx peer tx]> (st_peers s)))
      | None => RelayKill target
      end
  end.

(** ** Reachable states: one critical section per step *)

Inductive step (K : gset Z) (s : State) : gset Z -> State -> Prop :=
| step_attach c name connection tx :
    c ∉ K -> utf8_valid name = true ->
    step K s K (attach_peer s c (normalize_player_name name) connection tx)
| step_request c now d bytes request s' p :
    decode_stream_payload bytes = Ok (FrameRequest request) -> fresh_draw s d ->
    handle_request sha256 s c now d request = Some (s', p) ->
    step K s K s'
| step_panic c now d bytes request s' :
    c ∉ K -> decode_stream_payload bytes = Ok (FrameRequest request) -> fresh_draw s d ->
    handle_body sha256 s c now d (req_body request) = Panicked s' ->
    step K s ({[c]} ∪ K) s'
| step_send p : step K s K (send_all reserve s p).1
| step_relay c bytes s' : relay_control s c bytes = RelayQueued s' -> step K s K s'
| step_disconnect c : step K s K (disconnect s c).1.

Inductive reachable : gset Z -> State -> Prop :=
| reach_start : reachable ∅ state_default
| reach_step K s K' s' : reachable K s -> step K s K' s' -> reachable K' s'.

(** ** Queues do not matter to the invariant *)

Lemma send_all_inv K s p : service_inv K s -> service_inv K (send_all reserve s p).1.
Proof.
  revert s. induction p as [|[c f] p IH]; intros s Hinv; cbn [send_all]; [done|].
  destruct (st_peers s !! c) as [peer|] eqn:Hp; [|by apply IH].
  destruct (try_send _ _ _) as [tx|].
  - apply IH. by eapply inv_set_peer.
  - specialize (IH s Hinv). by destruct (send_all reserve s p).
Qed.

Lemma find_peer_In target l e : find_peer target l = Some e -> e ∈ l.
Proof.
  induction l as [|e' l IH]; cbn [find_peer]; [done|].
  destruct (_ =? _); [intros [= ->]; by left|]. right. auto.
Qed.

Lemma relay_control_inv K s c bytes s' :
  service_inv K s -> relay_control s c bytes = RelayQueued s' -> service_inv K s'.
Proof.
  intros Hinv. unfold relay_control.
  destruct (_ ≫= _) as [[[target out] [c' peer]]|e] eqn:E; [|done].
  ok_inv. destruct a0 as [t o]. ok_inv. injection E as <- <- ->.
  destruct (find_peer _ _) as [[c0 p0]|] eqn:Hf; [|discriminate]. cbn in E2. ok_inv.
  injection E2 as -> ->. apply find_peer_In, elem_of_map_to_list in Hf.
  destruct (try_send _ _ _); intros [= <-]. by eapply inv_set_peer.
Qed.

Lemma decoded_legal bytes request :
  decode_stream_payload bytes = Ok (FrameRequest request) -> request_legal (req_body request).
Proof.
  intros H. apply decode_frame_inv in H as [[_ Hwf] Hr]. split; [done|].
  specialize (Hr _ eq_refl). unfold encode_request, encode_control_frame in Hr. ok_inv.
  eauto.
Qed.

Lemma handle_request_inv s c now d request s' p :
  handle_request sha256 s c now d request = Some (s', p) ->
  exists b p0, handle_body sha256 s c now d (req_body request) = Returned s' b p0 /\
    p = p0 ++ [(c, FrameResponse (mkResponse (req_id request) b))].
Proof.
  unfold handle_request. destruct (handle_body _ _ _ _ _ _) as [s1 b p0|]; [|done].
  intros [= -> <-]. eauto.
Qed.

Lemma step_inv K s K' s' : service_inv K s -> step K s K' s' -> service_inv K' s'.
Proof.
  intros Hinv. destruct 1.
  - apply inv_attach; [done|done|]. by apply normalize_ok.
  - apply handle_request_inv in H1 as (b & p0 & Hb & ->).
    eapply change_inv; [done|]. eapply handle_body_change; eauto using decoded_legal.
  - by eapply handle_body_panic.
  - by apply send_all_inv.
  - by eapply relay_control_inv.
  - by apply inv_disconnect.
Qed.

Lemma reachable_inv K s : reachable K s -> service_inv K s.
Proof. induction 1; [apply inv_default|by eapply step_inv]. Qed.

(** ** Delivery terminates *)

Section Terminates.
Context {K : gset Z}.

(** [s'] is [s] without the connections in [gone]. *)
Definition dropped (s s' : State) (gone : list Z) : Prop :=
  service_inv K s' /\
  forall c, is_Some (st_peers s' !! c) <-> is_Some (st_peers s !! c) /\ c ∉ gone.

Lemma dropped_trans s1 s2 s3 g1 g2 :
  dropped s1 s2 g1 -> dropped s2 s3 g2 -> dropped s1 s3 (g1 ++ g2).
Proof.
  intros [_ H1] [Hinv H2]. split; [done|]. intros c. rewrite H2, H1, not_elem_of_app. tauto.
Qed.

Lemma dropped_equiv s s' g1 g2 :
  (forall c, c ∈ g1 <-> c ∈ g2) -> dropped s s' g1 -> dropped s s' g2.
Proof. intros Hg [Hinv H]. split; [done|]. intros c. by rewrite H, Hg. Qed.

Lemma dropped_size s s' g : dropped s s' g -> (size (st_peers s') <= size (st_peers s))%nat.
Proof.
  intros [_ H]. rewrite <- !size_dom. apply subseteq_size. intros c.
  rewrite !elem_of_dom. by intros [? _]%H.
Qed.

Lemma disconnect_dropped s c : service_inv K s -> dropped s (disconnect s c).1 [c].
Proof.
  intros Hinv. split; [by apply inv_disconnect|]. intros c'. rewrite disconnect_peers.
  rewrite lookup_delete_is_Some, not_elem_of_cons. split; [|naive_solver].
  intros [? ?]. split; [done|]. split; [done|]. apply not_elem_of_nil.
Qed.

Lemma disconnect_absent s c :
  service_inv K s -> st_peers s !! c = None -> (disconnect s c).2 = [].
Proof.
  intros Hinv Hp. rewrite disconnect_run.
  destruct (st_membership s !! c) eqn:Hc; [|done].
  apply (si_peers _ Hinv) in Hc. rewrite Hp in Hc. by destruct Hc.
Qed.

Lemma send_all_spec s p s' failed :
  service_inv K s -> send_all reserve s p = (s', failed) ->
  dropped s s' [] /\ size (st_peers s') = size (st_peers s) /\
  forall c, c ∈ failed -> is_Some (st_peers s' !! c).
Proof.
  revert s s' failed. induction p as [|[c f] p IH]; intros s s' failed Hinv; cbn [send_all].
  - intros [= <- <-]. split; [|split; [done|by intros ? ?%elem_of_nil]]. split; [done|].
    intros c. split; [|by intros []]. intros ?. split; [done|apply not_elem_of_nil].
  - destruct (st_peers s !! c) as [peer|] eqn:Hp; [|by apply IH].
    destruct (try_send _ _ _) as [tx|].
    + intros H. apply IH in H as (Hd & Hsize & Hf); [|by eapply inv_set_peer].
      split; [|split; [|done]].
      * destruct Hd as [Hinv' Hd]. split; [done|]. intros c'. rewrite Hd. cbn.
        destruct (decide (c = c')) as [->|]; [rewrite lookup_insert_eq, Hp|by rewrite lookup_insert_ne].
        split; intros [? ?]; split; done.
      * rewrite Hsize. cbn. by rewrite map_size_insert_Some by eauto.
    + destruct (send_all reserve s p) as [s1 f1] eqn:E. intros [= <- <-].
      apply IH in E as (Hd & Hsize & Hf); [|done]. split; [done|]. split; [done|].
      intros c' [->|Hin]%elem_of_cons; [|auto]. destruct Hd as [_ Hd]. apply Hd.
      split; [by rewrite Hp|apply not_elem_of_nil].
Qed.

Definition delivers (n : nat) : Prop :=
  forall s p, service_inv K s -> (size (st_peers s) < n)%nat ->
  exists s' closed, dispatch_publishes reserve n s p = Some (s', closed) /\ dropped s s' closed.

Lemma drain_dropped n failed s :
  delivers n -> service_inv K s ->
  (size (st_peers s) < n \/ size (st_peers s) <= n /\
     match failed with [] => True | c :: _ => is_Some (st_peers s !! c) end)%nat ->
  exists s' closed,
    drain_failed (dispatch_publishes reserve n) s failed = Some (s', closed) /\
    dropped s s' (failed ++ closed).
Proof.
  intros Hn. revert s. induction failed as [|c failed IH]; intros s Hinv Hsize; cbn [drain_failed].
  - exists s, []. split; [done|]. split; [done|]. intros c. split; [|by intros []].
    intros ?. split; [done|apply not_elem_of_nil].
  - pose proof (disconnect_dropped s c Hinv) as Hd1.
    pose proof (disconnect_peers s c) as Hpeers.
    destruct (disconnect s c) as [s1 extra]. cbn [fst] in *.
    assert (size (st_peers s1) < n)%nat as Hsize1.
    { rewrite Hpeers. destruct Hsize as [Hlt|[Hle Hc]].
      - rewrite map_size_delete. destruct (st_peers s !! c); unfold id; lia.
      - destruct Hc as [peer Hc]. rewrite map_size_delete_Some by eauto.
        assert (size (st_peers s) <> 0)%nat; [|lia].
        intros H0%map_size_empty_inv. rewrite H0, lookup_empty in Hc. done. }
    destruct (Hn s1 extra) as (s2 & closed2 & -> & Hd2); [by destruct Hd1|done|].
    cbn [mbind option_bind].
    destruct (IH s2) as (s3 & closed3 & -> & Hd3).
    { by destruct Hd2. }
    { left. apply dropped_size in Hd2. lia. }
    cbn [mbind option_bind]. exists s3, (closed2 ++ closed3). split; [done|].
    eapply dropped_equiv; [|exact (dropped_trans _ _ _ _ _ (dropped_trans _ _ _ _ _ Hd1 Hd2) Hd3)].
    intros c'. cbn [app]. rewrite !elem_of_cons, !elem_of_app. rewrite ?elem_of_cons, ?elem_of_app, ?elem_of_nil. tauto.
Qed.

Lemma dispatch_delivers n : delivers n.
Proof.
  induction n as [|n IH]; intros s p Hinv Hsize; [lia|]. cbn [dispatch_publishes].
  destruct (send_all reserve s p) as [s1 failed] eqn:E.
  apply send_all_spec in E as (Hd & Hs & Hf); [|done].
  destruct (drain_dropped n failed s1 IH) as (s2 & closed & -> & Hd2).
  { by destruct Hd. }
  { right. split; [lia|]. destruct failed; [done|]. apply Hf. by left. }
  cbn [mbind option_bind]. exists s2, (failed ++ closed). split; [done|].
  by apply (dropped_trans _ _ _ [] _ Hd Hd2).
Qed.

End Terminates.

End Delivery.
