(* ===== verification/MasterServiceMain.v ===== *)
(** * Master room service: properties

    What the service guarantees in every state it can reach, those after a handler's panic
    included, for every request that can arrive.  What a client can still break is in
    MasterServiceHazards. *)

From S2P Require Export MasterServiceDelivery.

(** ** Helpers *)

#[export] Instance advert_le_total : Total advert_le.
Proof. intros a b. apply bytes_leb_total. Qed.
#[export] Instance advert_le_trans : Transitive advert_le.
Proof. intros a b c. apply bytes_leb_trans. Qed.

Lemma StronglySorted_take {A} (R : A -> A -> Prop) n l :
  StronglySorted R l -> StronglySorted R (take n l).
Proof.
  intros H. revert n. induction H as [|x l Hl IH Hx]; intros [|n]; cbn; constructor; auto.
  by apply Forall_take.
Qed.

Lemma StronglySorted_before {A} (R : A -> A -> Prop) n l x y :
  StronglySorted R l -> x ∈ take n l -> y ∈ drop n l -> R x y.
Proof.
  intros H. revert n. induction H as [|z l Hl IH Hz]; intros [|n]; cbn;
    rewrite ?elem_of_nil; try done.
  rewrite list.Forall_forall in Hz.
  intros [->|Hx]%elem_of_cons Hy; [|by eapply IH]. apply Hz.
  rewrite <- (take_drop n l). apply elem_of_app. by right.
Qed.

Lemma xor_difference_zero a b :
  length a = length b -> xor_difference a b = 0 <-> a = b.
Proof.
  unfold xor_difference. intros Hlen.
  assert (forall l (acc : Z), fold_left (fun difference p =>
      Z.lor difference (Z.lxor (byte_val p.1) (byte_val p.2))) l acc = 0 <->
    acc = 0 /\ Forall (fun p => p.1 = p.2) l) as Hfold.
  { intros l. induction l as [|[x y] l IH]; intros acc; cbn [fold_left].
    - split; [by auto|]. by intros [].
    - rewrite IH, Z.lor_eq_0_iff, Z.lxor_eq_0_iff, list.Forall_cons. cbn.
      split; [intros [[? ?%byte_val_inj] ?]; auto|intros (-> & -> & ?); auto]. }
  rewrite Hfold. split.
  - intros [_ H]. revert b Hlen H. induction a as [|x a IH]; intros [|y b]; cbn; try done.
    intros [= Hlen] [Hxy H]%list.Forall_cons. cbn in Hxy. subst. f_equal. auto.
  - intros <-. split; [done|]. clear. induction a; constructor; auto.
Qed.

Section Properties.
Context {Conn Sender : Type}.
Context (stable_id : Conn -> Z).
Context (reserve : Sender -> Z -> option Sender).
Context (sha256 : list byte -> list byte).
Abbreviation State := (ServiceState Conn Sender).
Implicit Types (K : gset Z) (s : State) (c : Z) (r : AdvertId) (m : MemberId) (room : Room).

(** C5. In every state the server reaches, requests whose handler panics included, the
    invariant holds for the set [K] of the connections whose task panicked: for every other
    connection the three records of who is in which room agree, it sits in at most one room and
    is attached; every room has its host, who has not panicked, distinct members, one legal name
    for each member that has not panicked and none for the others, no more members than seats,
    content its host has, legal strings, a positive revision and, during a match, a positive
    epoch; and a panicked connection has no peer and no membership. *)
Theorem reachable_service_inv K s :
  reachable stable_id reserve sha256 K s ->
  service_inv K s /\
  forall c, c ∈ K -> st_peers s !! c = None /\ st_membership s !! c = None.
Proof.
  intros Hs%reachable_inv. split; [done|]. intros c Hc. split; [by apply (si_crashed _ Hs)|].
  destruct (st_membership s !! c) eqn:E; [|done]. by destruct (seated_lives _ _ _ Hs E).
Qed.

(** No request panics the handler of an attached connection: whatever the request, the
    [expect]s and index operations of the handlers succeed and a response is produced. *)
Theorem attached_request_answered K s c now d request :
  reachable stable_id reserve sha256 K s -> is_Some (st_peers s !! c) ->
  exists s' p response, handle_request sha256 s c now d request = Some (s', p) /\
    list.last p = Some (c, FrameResponse response) /\ resp_id response = req_id request.
Proof.
  intros Hs%reachable_inv Hc.
  destruct (handle_body_returns sha256 s c now d (req_body request) Hs Hc) as (s' & b & p & H).
  unfold handle_request. rewrite H. eexists _, _, _. split; [done|].
  by rewrite list.last_snoc.
Qed.

(** C6. A refused request changes nothing: whenever the response is an error, the state is
    the state before and nobody else is told anything. *)
Theorem refused_request_changes_nothing s c now d body s' e p :
  handle_body sha256 s c now d body = Returned s' (RespError e) p -> s' = s /\ p = [].
Proof. apply handle_body_error. Qed.

(** A connection affects no room but its own: any request leaves every other room exactly
    as it was, except that a successful join seats the sender, in a joinable room with a free
    seat, and changes nothing else there. *)
Theorem request_isolation K s c now d bytes request s' p r room :
  reachable stable_id reserve sha256 K s -> fresh_draw s d ->
  decode_stream_payload bytes = Ok (FrameRequest request) ->
  handle_request sha256 s c now d request = Some (s', p) ->
  st_rooms s !! r = Some room -> st_membership s !! c <> Some r ->
  st_rooms s' !! r = Some room \/
  exists peer m, st_peers s !! c = Some peer /\ st_membership s' !! c = Some r /\
    view_joinable (rm_view room) = true /\
    zlen (view_members (rm_view room)) < view_max_players (rm_view room) /\
    st_rooms s' !! r = Some (with_member room c m (pr_player_name peer)).
Proof.
  intros Hs%reachable_inv Hd Hb (b & p0 & H & ->)%handle_request_inv.
  eapply change_other_rooms; [done|]. eapply handle_body_change; eauto using decoded_legal.
Qed.

(** C7. The room machine: over any request a surviving room keeps its identity, host and
    content; its phase moves only along gathering, loading, running and back; the epoch moves
    only when a match starts; map and mode are frozen during a match; every visible change
    moves the revision, and the service generation moves with any change to the rooms. *)
Theorem room_machine K s c now d bytes request s' p r room room' :
  reachable stable_id reserve sha256 K s -> fresh_draw s d ->
  decode_stream_payload bytes = Ok (FrameRequest request) ->
  handle_request sha256 s c now d request = Some (s', p) ->
  st_rooms s !! r = Some room -> st_rooms s' !! r = Some room' ->
  view_step (rm_view room) (rm_view room') /\
  (st_generation s' = st_generation s -> st_rooms s' = st_rooms s).
Proof.
  intros Hs%reachable_inv Hd Hb (b & p0 & H & ->)%handle_request_inv Hr Hr'.
  assert (change K s c s' p0) as Hch by (eapply handle_body_change; eauto using decoded_legal).
  split; [by eapply change_view_step|]. intros Hg.
  destruct (change_generation _ _ _ _ Hch) as [[? _]|Hg']; [done|]. exfalso.
  rewrite Hg' in Hg. unfold wrapping_add64, wrap64 in Hg.
  pose proof (Z.div_mod (st_generation s + 1) (2 ^ 64) ltac:(lia)).
  assert (2 ^ 64 * ((st_generation s + 1) / 2 ^ 64) = 1) as H1 by lia.
  change (2 ^ 64) with 18446744073709551616 in H1. lia.
Qed.

(** C8. Everything published by a request can be sent, goes only to connections that share, or
    shared until now, a room with the sender, and arrives unchanged: the frame the receiver
    decodes is the frame the service published, names included.  The exception is a room in which
    a connection whose handler panicked still has a seat: its member has no name, and the receiver
    reads the default name in its place ([norm_frame]); a frame addressed to that connection finds
    no peer and is dropped. *)
Theorem publishes_arrive K s c now d bytes request s' b p c' f :
  reachable stable_id reserve sha256 K s -> fresh_draw s d ->
  decode_stream_payload bytes = Ok (FrameRequest request) ->
  handle_body sha256 s c now d (req_body request) = Returned s' b p -> (c', f) ∈ p ->
  exists r, in_room s s' r c /\
    (in_room s s' r c' \/ c' ∈ K /\ st_peers s' !! c' = None) /\
    travels f (norm_frame f) /\
    ((forall room g, st_rooms s' !! r = Some room -> g ∈ K -> rm_member_of room !! g = None) ->
     travels f f).
Proof.
  intros Hs%reachable_inv Hd Hb H Hp.
  assert (change K s c s' p) as Hch by (eapply handle_body_change; eauto using decoded_legal).
  destruct (change_publishes _ _ _ _ _ _ Hs Hch Hp) as (r & Hc & Hc' & Ht & Hsame).
  exists r. split_and!; [done| |done|].
  - destruct Hc' as [?|HK]; [by left|right]. split; [done|].
    by apply (si_crashed _ (change_inv _ _ _ _ Hs Hch)).
  - intros Hghost. rewrite <- Hsame at 2; [done|]. intros room Hr g. by apply Hghost.
Qed.

(** C9. The response tells the state: a created or joined room is in the service with the
    sender seated under the returned member id and its view as returned, an updated view is the
    stored view of a room the sender hosts, and after [RoomLeft] the sender is in no room. *)
Theorem answers_are_true K s c now d body s' b p :
  reachable stable_id reserve sha256 K s ->
  handle_body sha256 s c now d body = Returned s' b p -> answer_ok s' c b.
Proof. intros Hs%reachable_inv. by eapply handle_body_answer. Qed.

(** C10. Delivery terminates, however many connections fail while the news of earlier failures
    is delivered: with one unit of fuel more than there are peers, [dispatch_publishes] ends in
    a state that satisfies the invariant, in which exactly the connections closed for a failed
    delivery are gone, from the peers and from every room; and this from every state the server
    reaches, those included in which handlers panicked and left their seats behind. *)
Theorem dispatch_terminates K s p :
  reachable stable_id reserve sha256 K s ->
  exists s' closed,
    dispatch_publishes reserve (S (size (st_peers s))) s p = Some (s', closed) /\
    service_inv K s' /\
    (forall c, is_Some (st_peers s' !! c) <-> is_Some (st_peers s !! c) /\ c ∉ closed) /\
    (forall c, c ∈ closed -> st_membership s' !! c = None).
Proof.
  intros Hs%reachable_inv.
  destruct (dispatch_delivers reserve _ s p Hs (Nat.lt_succ_diag_r _)) as (s' & closed & H & Hinv & Hd).
  exists s', closed. split_and!; [done|done|done|]. intros c Hc.
  destruct (st_membership s' !! c) eqn:Hm; [|done].
  apply (si_peers _ Hinv), Hd in Hm. by destruct Hm.
Qed.

(** Relay datagrams go where the room says: a routed datagram of a member reaches exactly
    its host's connection, stamped with the sender's own member id; one of a host reaches
    exactly the named member of its room; payloads are untouched; nothing else is routed.  And
    a seated member's datagram within the payload bound is always routed. *)
Theorem datagram_routing K s c relay :
  reachable stable_id reserve sha256 K s ->
  (forall conn out, route_target s c relay = Ok (conn, out) ->
    exists r room peer, st_rooms s !! r = Some room /\ conn = pr_connection peer /\
    match relay with
    | ClientToHost payload => exists m, rm_member_of room !! c = Some m /\
        st_peers s !! rm_host_connection_id room = Some peer /\
        decode_relay out = Ok (ServiceToHost m payload)
    | HostToMember m payload => rm_host_connection_id room = c /\
        (exists c', rm_member_of room !! c' = Some m /\ st_peers s !! c' = Some peer) /\
        decode_relay out = Ok (ServiceToMember payload)
    | _ => False
    end) /\
  (forall r m payload, relay = ClientToHost payload -> member_of s c = Ok (r, m) ->
    zlen payload <= MAX_OPAQUE_PAYLOAD -> is_ok (route_target s c relay) = true).
Proof.
  intros Hs%reachable_inv. split.
  - intros conn out. unfold route_target, route_with. destruct relay as [payload|m payload| |]; try done.
    + destruct (member_of s c) as [[r m]|] eqn:Hm; [|done]. pose proof Hm as Hm'.
      apply (member_of_spec _ _ _ _ Hs) in Hm' as (room & Hr & Hseat).
      cbn [as_route mbind result_bind]. rewrite Hr. cbn [ok_or as_route mbind result_bind].
      unfold peer_connection. destruct (st_peers s !! _) as [peer|] eqn:Hp; [|done].
      cbn [fmap option_fmap ok_or as_route mbind result_bind].
      destruct (encode_relay _) as [o|] eqn:He; [|done]. intros [= <- <-].
      exists r, room, peer. split_and!; [done|done|]. exists m. split_and!; [done|done|].
      apply decode_relay_bounded_iff. split; [|done]. by apply (member_of_wf _ _ _ _ Hs Hm).
    + destruct (host_of s c) as [r|] eqn:Hh; [|done].
      apply (host_of_spec _ _ _ Hs) in Hh as (room & Hr & Hc).
      cbn [as_route mbind result_bind]. rewrite Hr. cbn [ok_or as_route mbind result_bind].
      destruct (rm_connection_of room !! m) as [c'|] eqn:Hm; [|done].
      cbn [ok_or as_route mbind result_bind].
      unfold peer_connection. destruct (st_peers s !! _) as [peer|] eqn:Hp; [|done].
      cbn [fmap option_fmap ok_or as_route mbind result_bind].
      destruct (encode_relay _) as [o|] eqn:He; [|done]. intros [= <- <-].
      exists r, room, peer. split_and!; [done|done|done| |].
      * exists c'. split; [|done]. by apply (so_inverse _ (ro_seats _ _ (inv_room _ _ _ Hs Hr))).
      * apply decode_relay_bounded_iff. by split.
  - intros r m payload -> Hm Hlen. unfold route_target, route_with. rewrite Hm.
    cbn [as_route mbind result_bind].
    apply (member_of_spec _ _ _ _ Hs) in Hm as (room & Hr & Hseat). rewrite Hr.
    cbn [ok_or as_route mbind result_bind]. unfold peer_connection.
    destruct (si_peers _ Hs _ _ (host_seated _ _ _ Hs Hr)) as [peer ->].
    cbn [fmap option_fmap ok_or as_route mbind result_bind].
    unfold encode_relay, encode_relay_bounded. cbn [relay_parts].
    by rewrite (proj2 (Z.ltb_ge _ _)).
Qed.

End Properties.
