(* ===== verification/MasterServiceHazards.v ===== *)
(** * Master room service: passwords, listing, names, and two hazards

    The password gate and the room list are exact.  Two behaviours are not what the rest of
    the service protects: a request handled after its connection was dropped can leave a seat
    that nothing frees ([detached_join_leaves_ghost]), and a member can make the service close
    its host's connection ([member_closes_host]). *)

From S2P Require Export MasterServiceMain.

Section Hazards.
Context {Conn Sender : Type}.
Context (stable_id : Conn -> Z).
Context (reserve : Sender -> Z -> option Sender).
Context (sha256 : list byte -> list byte).
Abbreviation State := (ServiceState Conn Sender).
Implicit Types (K : gset Z) (s : State) (c : Z) (r : AdvertId) (m : MemberId) (room : Room).

(** The password gate: a room without a password refuses nobody; with one, it refuses
    exactly the passwords whose salted digest differs, so the branch-free comparison is an
    equality test; and the room's flag says which of the two it is. *)
Theorem password_gate (sha256_length : forall x, length (sha256 x) = 32%nat) salt password :
  match pv_new sha256 salt password with
  | None => password = []
  | Some v => password <> [] /\
      forall room attempt, rm_password room = Some v ->
        password_refused sha256 room attempt = false <->
        sha256 (salt ++ attempt) = sha256 (salt ++ password)
  end.
Proof.
  unfold pv_new, is_empty. destruct (Z.eqb_spec (zlen password) 0) as [H|H].
  - destruct password; [done|]. rewrite zlen_cons in H. pose proof (zlen_nonneg password). lia.
  - split; [by intros ->|]. intros room attempt Hr. unfold password_refused. rewrite Hr.
    unfold pv_matches, pv_compute. cbn [pv_digest pv_salt].
    rewrite negb_false_iff, Z.eqb_eq, xor_difference_zero by (by rewrite !sha256_length).
    split; congruence.
Qed.

(** The room list is exact: the adverts of at most [MAX_LIST_ADVERTS] rooms in increasing
    order of identifier, each the advert of a room as it is now, and a room that is not listed
    comes after every room that is, in a full list. *)
Theorem room_list_exact s c now d :
  exists adverts,
    handle_body sha256 s c now d ReqListRooms
      = Returned s (RespRoomList (st_generation s) adverts) [] /\
    zlen adverts <= MAX_LIST_ADVERTS /\ StronglySorted advert_le adverts /\
    (forall a, a ∈ adverts ->
       exists r room, st_rooms s !! r = Some room /\ a = view_advert (rm_view room)) /\
    (forall r room, st_rooms s !! r = Some room ->
       view_advert (rm_view room) ∈ adverts \/
       (zlen adverts = MAX_LIST_ADVERTS /\
        forall a, a ∈ adverts -> advert_le a (view_advert (rm_view room)))).
Proof.
  cbn [handle_body]. unfold list_rooms. eexists. split; [reflexivity|].
  set (all := map (fun room => view_advert (rm_view room)) (map_to_list (st_rooms s)).*2).
  assert (forall a, a ∈ merge_sort advert_le all <->
    exists r room, st_rooms s !! r = Some room /\ a = view_advert (rm_view room)) as Hall.
  { intros a. rewrite (merge_sort_Permutation advert_le all). unfold all.
    rewrite list_elem_of_fmap. split.
    - intros (room & -> & ([r room'] & -> & H%elem_of_map_to_list)%list_elem_of_fmap). eauto.
    - intros (r & room & H & ->). exists room. split; [done|]. apply list_elem_of_fmap.
      exists (r, room). by rewrite elem_of_map_to_list. }
  assert (StronglySorted advert_le (merge_sort advert_le all)) as Hsorted
    by apply (StronglySorted_merge_sort advert_le).
  split_and!.
  - unfold zlen. rewrite length_take. unfold MAX_LIST_ADVERTS. lia.
  - by apply StronglySorted_take.
  - intros a Ha. apply Hall. rewrite <- (take_drop (Z.to_nat MAX_LIST_ADVERTS)).
    apply elem_of_app. by left.
  - intros r room Hr.
    assert (view_advert (rm_view room) ∈ merge_sort advert_le all) as Hin by (apply Hall; eauto).
    rewrite <- (take_drop (Z.to_nat MAX_LIST_ADVERTS)) in Hin.
    apply elem_of_app in Hin as [Hin|Hin]; [by left|]. right. split.
    + unfold zlen. rewrite length_take.
      assert (length (drop (Z.to_nat MAX_LIST_ADVERTS) (merge_sort advert_le all)) <> 0)%nat as Hlen.
      { intros H0%length_zero_iff_nil. rewrite H0 in Hin. by apply elem_of_nil in Hin. }
      rewrite length_drop in Hlen. unfold MAX_LIST_ADVERTS in *. lia.
    + intros a Ha. by eapply StronglySorted_before.
Qed.

(** Whatever name a client announces, the name others see is legal: valid UTF-8, between
    1 and 64 bytes, at most 16 characters, none of them a control character. *)
Theorem player_name_legal name :
  wf_string name ->
  name_ok (normalize_player_name name) /\
  exists cs, utf8_decode (normalize_player_name name) = Some cs /\ zlen cs <= 16 /\
             Forall (fun c => is_control c = false) cs.
Proof.
  intros Hwf. split; [by apply normalize_ok|]. unfold normalize_player_name.
  unfold wf_string, utf8_valid in Hwf. destruct (utf8_decode name) as [cs|] eqn:Hdec; [|done].
  apply encode_decode in Hdec as [_ Hall]. cbn [default].
  set (kept := take 16 _). destruct (decide (kept = [])) as [|Hne].
  { eexists. split; [vm_compute; reflexivity|]. split; [vm_compute; congruence|].
    repeat constructor. }
  assert (forall c, c ∈ kept -> is_control c = false /\ c ∈ cs) as Hkept.
  { intros c Hc. subst kept. apply elem_of_take in Hc as (i & Hc & _).
    apply list_elem_of_lookup_2, list_elem_of_filter in Hc as [? Hc]. split; [done|].
    by apply trim_sub. }
  exists kept. split; [|split].
  - apply Utf8.decode_encode. rewrite list.Forall_forall in Hall |- *. intros c Hc. apply Hall. by apply Hkept.
  - subst kept. unfold zlen. rewrite length_take. lia.
  - apply list.Forall_forall. intros c Hc. by apply Hkept.
Qed.

(** Control characters are removed after trimming, so a name can still be blank. *)
Lemma player_name_can_be_blank :
  normalize_player_name [Byte.x01; Byte.x20; Byte.x01] = [Byte.x20].
Proof. vm_compute. reflexivity. Qed.

(** ** A join after the connection was dropped *)

Lemma disconnect_keeps_member K s c0 m r room c :
  service_inv K s -> st_rooms s !! r = Some room -> st_membership s !! c0 = None ->
  rm_connection_of room !! m = None ->
  let s' := put_room s r (with_ghost room c0 m) in
  st_rooms (disconnect s' c).1 !! r = None \/
  exists room'', st_rooms (disconnect s' c).1 !! r = Some room'' /\
                 m ∈ view_members (rm_view room'').
Proof.
  intros Hinv Hr Hout Hm s'. rewrite disconnect_run. cbn [st_membership s' put_room set_rooms].
  set (room' := with_ghost room c0 m) in s'.
  assert (m ∈ view_members (rm_view room')) as Hin.
  { unfold room'. cbn. apply elem_of_app. right. by left. }
  assert (st_rooms s' !! r = Some room') as Hr' by (unfold s'; cbn; apply lookup_insert_eq).
  destruct (st_membership s !! c) as [r1|] eqn:Hc; [|right; eauto].
  destruct (inv_member_room _ _ _ Hinv Hc) as (room1 & m1 & Hr1 & Hm1 & Hm1' & Hok1).
  destruct (decide (r1 = r)) as [->|Hne].
  - assert (room1 = room) as -> by congruence. change (put_room s r room') with s'. rewrite Hr'.
    destruct (_ =? _).
    + left. unfold close_room. rewrite Hr'. cbn. apply lookup_delete_eq.
    + right. assert (c0 <> c) by congruence.
      rewrite (remove_member_run s' c r room' m1); [|done|done|].
      * cbn. eexists. rewrite lookup_insert_eq. split; [done|]. cbn.
        apply list_elem_of_filter. split; [|apply elem_of_app; right; by left]. congruence.
      * unfold room'. cbn. rewrite lookup_insert_ne; done.
  - right. change (put_room s r room') with s'.
    assert (st_rooms s' !! r1 = Some room1) as Hr1' by (unfold s'; cbn; by rewrite lookup_insert_ne).
    rewrite Hr1'. destruct (_ =? _).
    + unfold close_room. rewrite Hr1'. cbn [fst st_rooms set_peers set_membership touch set_rooms].
      rewrite lookup_delete_ne by done. eauto.
    + rewrite (remove_member_run s' c r1 room1 m1) by done.
      cbn [fst st_rooms set_peers touch put_room set_rooms set_membership].
      rewrite lookup_insert_ne by done. eauto.
Qed.

(** The hazard of a dropped connection: when delivery to a client failed and its peer
    entry is gone, a join it already sent is still handled.  If the room would take it, the
    handler panics after seating it: the service goes on from a state in which the room has
    gained a member without a membership entry or a name, and no later disconnection of anyone
    removes that member, short of closing the room. *)
Theorem detached_join_leaves_ghost K s c now d bytes request r room have password :
  reachable stable_id reserve sha256 K s -> fresh_draw s d -> c ∉ K ->
  decode_stream_payload bytes = Ok (FrameRequest request) ->
  req_body request = ReqJoinRoom r have password ->
  st_peers s !! c = None -> st_rooms s !! r = Some room ->
  password_refused sha256 room password = false -> view_joinable (rm_view room) = true ->
  flags_is_empty (missing_from (view_requires (rm_view room)) have) = true ->
  zlen (view_members (rm_view room)) < view_max_players (rm_view room) ->
  exists s', handle_body sha256 s c now d (req_body request) = Panicked s' /\
    reachable stable_id reserve sha256 ({[c]} ∪ K) s' /\
    st_rooms s' !! r = Some (with_ghost room c (mkMemberId (draw_member d))) /\
    view_member_names (rm_view room) !! mkMemberId (draw_member d) = None /\
    st_membership s' !! c = None /\ ~ service_inv K s' /\
    forall c', st_rooms (disconnect s' c').1 !! r = None \/
      exists room'', st_rooms (disconnect s' c').1 !! r = Some room'' /\
                     mkMemberId (draw_member d) ∈ view_members (rm_view room'').
Proof.
  intros Hreach Hfresh Hl Hb Hbody Hp Hr Hpw Hjoin Hhave Hcount.
  pose proof (reachable_inv _ _ _ _ _ Hreach) as Hs.
  destruct (Hfresh) as (_ & _ & _ & Hfree). specialize (Hfree r room Hr).
  assert (st_membership s !! c = None) as Hc.
  { destruct (st_membership s !! c) eqn:E; [|done].
    apply (si_peers _ Hs) in E. rewrite Hp in E. by destruct E. }
  assert (handle_body sha256 s c now d (req_body request) =
    Panicked (put_room s r (with_ghost room c (mkMemberId (draw_member d))))) as Hpanic.
  { rewrite Hbody. cbn [handle_body]. unfold join_room, allows_join_request, request_join_allowed.
    rewrite Hc, Hr, Hpw, Hp. cbn [adv_locked view_advert]. rewrite Hjoin, Hhave. cbn [negb].
    by rewrite (proj2 (Z.leb_gt _ _)). }
  eexists. split; [exact Hpanic|]. split; [by eapply reach_step, step_panic|].
  split; [cbn; apply lookup_insert_eq|].
  pose proof (ro_seats _ _ (inv_room _ _ _ Hs Hr)) as Hseats. split_and!; [| done | | ].
  - destruct (view_member_names (rm_view room) !! _) eqn:E; [|done].
    destruct (proj1 (so_named _ Hseats (mkMemberId (draw_member d)))) as (c0 & Hc0 & _); [by eauto|].
    congruence.
  - intros Hinv'. assert (st_membership s !! c = Some r) as Hc'.
    { apply (si_membership _ Hinv'). split; [done|]. eexists. split; [apply lookup_insert_eq|]. cbn.
      by rewrite lookup_insert_eq. }
    congruence.
  - intros c'. by apply (disconnect_keeps_member K s c _ r room c' Hs Hr Hc Hfree).
Qed.

(** ** A relay the service cannot re-send *)

Lemma find_peer_complete (target : Conn) l (e : Z * Peer Conn Sender) :
  e ∈ l -> pr_connection e.2 = target -> exists e', find_peer stable_id target l = Some e'.
Proof.
  intros Hin <-. induction l as [|e' l IH]; [by apply elem_of_nil in Hin|]. cbn [find_peer].
  destruct (Z.eqb_spec (stable_id (pr_connection e'.2)) (stable_id (pr_connection e.2))); [eauto|].
  apply elem_of_cons in Hin as [->|Hin]; [congruence|auto].
Qed.

(** Any seated member can make the service close its host's connection: a relay frame
    with a payload of 16350 to 16365 bytes is a legal control frame, but with the member id
    added it no longer fits one, the delivery to the host fails, and that failure closes the
    host's connection instead of refusing the sender's frame. *)
Theorem member_closes_host K s c r m room payload :
  reachable stable_id reserve sha256 K s -> member_of s c = Ok (r, m) ->
  st_rooms s !! r = Some room -> 16350 <= zlen payload <= 16365 ->
  exists bytes host,
    encode_relay_stream (ClientToHost payload) = Ok bytes /\
    is_ok (encode_stream_frame (FrameRelay bytes)) = true /\
    st_peers s !! rm_host_connection_id room = Some host /\
    relay_control stable_id reserve s c bytes = RelayKill (pr_connection host).
Proof.
  intros Hs%reachable_inv Hm Hr Hlen. pose proof (member_of_wf _ _ _ _ Hs Hm) as Hwf.
  destruct (si_peers _ Hs _ _ (host_seated _ _ _ Hs Hr)) as [host Hhost].
  assert (exists bytes, encode_relay_stream (ClientToHost payload) = Ok bytes) as [bytes Hb].
  { unfold encode_relay_stream, encode_relay_bounded, MAX_BOOTSTRAP_PAYLOAD. cbn [relay_parts].
    rewrite (proj2 (Z.ltb_ge _ _)) by lia. eauto. }
  assert (exists out, encode_relay_stream (ServiceToHost m payload) = Ok out) as [out Ho].
  { unfold encode_relay_stream, encode_relay_bounded, MAX_BOOTSTRAP_PAYLOAD. cbn [relay_parts].
    rewrite (proj2 (Z.ltb_ge _ _)) by lia. eauto. }
  exists bytes, host. split; [done|].
  assert (streamable (ClientToHost payload) = true) as H1.
  { rewrite streamable_spec by exact I. unfold relay_payload, MAX_CONTROL_BYTES, HEADER_BYTES.
    cbn [relay_parts fst snd]. apply Z.leb_le. lia. }
  assert (streamable (ServiceToHost m payload) = false) as H2.
  { rewrite streamable_spec by exact Hwf. unfold relay_payload, MAX_CONTROL_BYTES, HEADER_BYTES.
    cbn [relay_parts fst snd]. apply Z.leb_gt. lia. }
  unfold streamable in H1, H2. rewrite Hb in H1. rewrite Ho in H2.
  split; [done|]. split; [done|]. unfold relay_control.
  unfold decode_relay_stream. rewrite (decode_relay_bounded_complete (ClientToHost payload) _ _ I Hb).
  cbn [as_encoded mbind result_bind]. unfold route_target_stream, route_with. rewrite Hm.
  cbn [as_route mbind result_bind]. rewrite Hr. cbn [ok_or as_route mbind result_bind].
  unfold peer_connection. rewrite Hhost. cbn [fmap option_fmap ok_or as_route mbind result_bind].
  cbn [option_map ok_or as_route mbind result_bind]. rewrite Ho. cbn [as_encoded mbind result_bind].
  destruct (find_peer_complete (pr_connection host) (map_to_list (st_peers s))
    (rm_host_connection_id room, host)) as [[c' peer] ->]; [by apply elem_of_map_to_list|done|].
  cbn [ok_or as_route mbind result_bind]. unfold try_send.
  destruct (encode_stream_frame (FrameRelay out)); done.
Qed.

End Hazards.
