(* ===== verification/MasterServiceDemo.v ===== *)
(** * Master room service: the properties at a concrete service

    Two clients attach, the first creates a room, the second joins it.  Connections and queues
    are instantiated (a queue is the bytes it can still take), the digest pads to 32 bytes. *)

From S2P Require Export MasterServiceHazards.

Definition demo_id (conn : Z) : Z := conn.
Definition demo_reserve (budget n : Z) : option Z :=
  if n <=? budget then Some (budget - n) else None.
Definition demo_sha (l : list byte) : list byte := take 32 (l ++ repeat Byte.x00 32).

Definition demo_draw (b : byte) : Draw := mkDraw (repeat b 16) (repeat b 16) (repeat b 16).

Definition demo_bytes (body : RequestBody) : list byte :=
  match encode_control_frame (FrameRequest (mkRequest 5 body)) with Ok b => b | Err _ => [] end.

Definition fresh_check (s : ServiceState Z Z) (d : Draw) : bool :=
  (zlen (draw_room d) =? 16) && (zlen (draw_member d) =? 16) &&
  forallb (fun e => negb (bool_decide (e.1 = mkAdvertId (draw_room d))) &&
                    match rm_connection_of e.2 !! mkMemberId (draw_member d) with
                    | Some _ => false | None => true end)
    (map_to_list (st_rooms s)).

Lemma fresh_check_ok s d : fresh_check s d = true -> fresh_draw s d.
Proof.
  unfold fresh_check. rewrite !andb_true_iff, !Z.eqb_eq, forallb_forall. intros [[H1 H2] H].
  assert (forall r room, st_rooms s !! r = Some room ->
    r <> mkAdvertId (draw_room d) /\ rm_connection_of room !! mkMemberId (draw_member d) = None)
    as Hall.
  { intros r room Hr. specialize (H (r, room)). rewrite andb_true_iff in H.
    destruct H as [Hne Hnone].
    - apply list_elem_of_In. by apply elem_of_map_to_list.
    - cbn in *. split; [|by destruct (rm_connection_of room !! mkMemberId (draw_member d))].
      intros ->. by rewrite bool_decide_eq_true_2 in Hne. }
  split; [done|]. split; [done|]. split.
  - destruct (st_rooms s !! _) eqn:E; [|done]. by destruct (Hall _ _ E).
  - intros r room Hr. by destruct (Hall _ _ Hr).
Qed.

Definition demo_run (s : ServiceState Z Z) (c : Z) (d : Draw) (body : RequestBody)
    : ServiceState Z Z :=
  match handle_request demo_sha s c 0 d (mkRequest 5 body) with Some (s', _) => s' | None => s end.

Definition demo_create : RequestBody :=
  ReqCreateRoom (bs "game") (bs "mp_boneyard") (bs "dm") 4 IW4 IW4 [].
Definition demo_room : AdvertId := mkAdvertId (repeat Byte.x0a 16).

Definition demo_attached : ServiceState Z Z :=
  attach_peer (attach_peer state_default 1 (normalize_player_name (bs "host")) 11 70000)
    2 (normalize_player_name (bs " guest ")) 12 70000.
Definition demo_hosting : ServiceState Z Z := demo_run demo_attached 1 (demo_draw Byte.x0a) demo_create.
Definition demo_joined : ServiceState Z Z :=
  demo_run demo_hosting 2 (demo_draw Byte.x0b) (ReqJoinRoom demo_room KNOWN []).

Lemma demo_attach s c name connection tx :
  reachable demo_id demo_reserve demo_sha ∅ s -> utf8_valid name = true ->
  reachable demo_id demo_reserve demo_sha ∅ (attach_peer s c (normalize_player_name name) connection tx).
Proof. intros Hs Hname. eapply reach_step; [exact Hs|]. by apply step_attach; [apply not_elem_of_empty|]. Qed.

Lemma demo_attached_reachable : reachable demo_id demo_reserve demo_sha ∅ demo_attached.
Proof. apply demo_attach; [apply demo_attach; [apply reach_start|]|]; vm_compute; reflexivity. Qed.

(** One request of the demo: the checks are decided by computation, the states stay folded. *)
Lemma demo_step s c d body :
  reachable demo_id demo_reserve demo_sha ∅ s ->
  decode_stream_payload (demo_bytes body) = Ok (FrameRequest (mkRequest 5 body)) ->
  fresh_check s d = true ->
  match handle_request demo_sha s c 0 d (mkRequest 5 body) with Some _ => true | None => false end
    = true ->
  reachable demo_id demo_reserve demo_sha ∅ (demo_run s c d body) /\
  exists p, handle_request demo_sha s c 0 d (mkRequest 5 body) = Some (demo_run s c d body, p).
Proof.
  intros Hs Hb Hf Hh. unfold demo_run.
  destruct (handle_request demo_sha s c 0 d (mkRequest 5 body)) as [[s' p]|] eqn:E; [|done].
  split; [|eauto]. eapply reach_step; [exact Hs|].
  eapply step_request; [exact Hb|by apply fresh_check_ok|exact E].
Qed.

Lemma demo_hosting_step :
  reachable demo_id demo_reserve demo_sha ∅ demo_hosting /\
  exists p, handle_request demo_sha demo_attached 1 0 (demo_draw Byte.x0a) (mkRequest 5 demo_create)
              = Some (demo_hosting, p).
Proof. apply demo_step; [apply demo_attached_reachable|vm_compute; reflexivity..]. Qed.

Lemma demo_joined_step :
  reachable demo_id demo_reserve demo_sha ∅ demo_joined /\
  exists p, handle_request demo_sha demo_hosting 2 0 (demo_draw Byte.x0b)
              (mkRequest 5 (ReqJoinRoom demo_room KNOWN [])) = Some (demo_joined, p).
Proof. apply demo_step; [apply demo_hosting_step|vm_compute; reflexivity..]. Qed.

Definition is_found {A} (o : option A) : bool := match o with Some _ => true | None => false end.

Lemma found {A} (o : option A) : is_found o = true -> exists x, o = Some x.
Proof. destruct o; [eauto|done]. Qed.

Definition returned {S} (o : Outcome S) : bool :=
  match o with Returned _ _ (_ :: _) => true | _ => false end.

Definition refused {S} (o : Outcome S) : bool :=
  match o with Returned _ (RespError _) _ => true | _ => false end.

Lemma demo_bytes_create :
  decode_stream_payload (demo_bytes demo_create) = Ok (FrameRequest (mkRequest 5 demo_create)).
Proof. vm_compute. reflexivity. Qed.

Definition demo_join : RequestBody := ReqJoinRoom demo_room KNOWN [].

Lemma demo_bytes_join :
  decode_stream_payload (demo_bytes demo_join) = Ok (FrameRequest (mkRequest 5 demo_join)).
Proof. vm_compute. reflexivity. Qed.

Lemma demo_join_fresh : fresh_draw demo_hosting (demo_draw Byte.x0b).
Proof. apply fresh_check_ok. vm_compute. reflexivity. Qed.

(** The guest is dropped from the service and its join is handled after that: the handler
    panics with the guest seated. *)
Definition demo_dropped : ServiceState Z Z := (disconnect demo_hosting 2).1.
Definition demo_ghost : ServiceState Z Z :=
  match handle_body demo_sha demo_dropped 2 0 (demo_draw Byte.x0b) demo_join with
  | Panicked s => s | Returned s _ _ => s end.

Lemma demo_ghost_panic :
  handle_body demo_sha demo_dropped 2 0 (demo_draw Byte.x0b) demo_join = Panicked demo_ghost.
Proof.
  assert (match handle_body demo_sha demo_dropped 2 0 (demo_draw Byte.x0b) demo_join with
          | Panicked _ => true | _ => false end = true) as H by (vm_compute; reflexivity).
  unfold demo_ghost.
  by destruct (handle_body demo_sha demo_dropped 2 0 (demo_draw Byte.x0b) demo_join).
Qed.

Lemma demo_ghost_reachable : reachable demo_id demo_reserve demo_sha ({[2]} ∪ ∅) demo_ghost.
Proof.
  eapply reach_step; [eapply reach_step; [apply demo_hosting_step|apply (step_disconnect _ _ _ _ _ 2)]|].
  change (disconnect demo_hosting 2).1 with demo_dropped.
  eapply (step_panic _ _ _ _ _ 2); [set_solver|exact demo_bytes_join| |exact demo_ghost_panic].
  apply fresh_check_ok. vm_compute. reflexivity.
Qed.

Lemma reachable_service_inv_witness :
  reachable demo_id demo_reserve demo_sha ∅ demo_joined /\ service_inv ∅ demo_joined /\
  service_inv ({[2]} ∪ ∅) demo_ghost /\
  (zlen ∘ view_members ∘ rm_view <$> st_rooms demo_ghost !! demo_room) = Some 2 /\
  st_membership demo_ghost !! 2 = None.
Proof.
  split; [apply demo_joined_step|].
  split; [apply (reachable_service_inv demo_id demo_reserve demo_sha), demo_joined_step|].
  destruct (reachable_service_inv demo_id demo_reserve demo_sha _ _ demo_ghost_reachable) as [H1 H2].
  split; [exact H1|]. split; [vm_compute; reflexivity|]. apply H2. set_solver.
Defined.

Lemma attached_request_answered_witness :
  exists s' p response,
    handle_request demo_sha demo_joined 2 0 (demo_draw Byte.x0c) (mkRequest 8 ReqVoteToSkip)
      = Some (s', p) /\
    list.last p = Some (2, FrameResponse response) /\ resp_id response = 8.
Proof.
  apply (attached_request_answered demo_id demo_reserve demo_sha ∅ demo_joined 2 0
    (demo_draw Byte.x0c) (mkRequest 8 ReqVoteToSkip)); [apply demo_joined_step|].
  destruct (found (st_peers demo_joined !! 2)) as [x Hx]; [vm_compute; reflexivity|].
  rewrite Hx. by exists x.
Defined.

Lemma refused_request_changes_nothing_witness :
  exists e, handle_body demo_sha demo_joined 2 0 (demo_draw Byte.x0c) ReqCloseRoom
              = Returned demo_joined (RespError e) [].
Proof.
  assert (refused (handle_body demo_sha demo_joined 2 0 (demo_draw Byte.x0c) ReqCloseRoom) = true)
    as H by (vm_compute; reflexivity).
  destruct (handle_body demo_sha demo_joined 2 0 (demo_draw Byte.x0c) ReqCloseRoom)
    as [s' b p|] eqn:E; [|discriminate H].
  destruct b as [| | | | | | | |e]; try discriminate H.
  destruct (refused_request_changes_nothing demo_sha _ _ _ _ _ _ _ _ E) as [-> ->]. by exists e.
Defined.

Lemma request_isolation_witness :
  exists room, st_rooms demo_hosting !! demo_room = Some room /\
  (st_rooms demo_joined !! demo_room = Some room \/
   exists peer m, st_peers demo_hosting !! 2 = Some peer /\
    st_membership demo_joined !! 2 = Some demo_room /\ view_joinable (rm_view room) = true /\
    zlen (view_members (rm_view room)) < view_max_players (rm_view room) /\
    st_rooms demo_joined !! demo_room = Some (with_member room 2 m (pr_player_name peer))).
Proof.
  destruct (found (st_rooms demo_hosting !! demo_room)) as [room Hr]; [vm_compute; reflexivity|].
  exists room. split; [exact Hr|]. destruct demo_joined_step as [_ [p Hp]].
  apply (request_isolation demo_id demo_reserve demo_sha ∅ demo_hosting 2 0 (demo_draw Byte.x0b)
    (demo_bytes demo_join) _ _ _ _ _ (proj1 demo_hosting_step) demo_join_fresh demo_bytes_join Hp Hr).
  vm_compute. congruence.
Defined.

Lemma room_machine_witness :
  exists room room',
    st_rooms demo_hosting !! demo_room = Some room /\
    st_rooms demo_joined !! demo_room = Some room' /\
    view_step (rm_view room) (rm_view room') /\
    (st_generation demo_joined = st_generation demo_hosting ->
     st_rooms demo_joined = st_rooms demo_hosting).
Proof.
  destruct (found (st_rooms demo_hosting !! demo_room)) as [room Hr]; [vm_compute; reflexivity|].
  destruct (found (st_rooms demo_joined !! demo_room)) as [room' Hr']; [vm_compute; reflexivity|].
  exists room, room'. split; [exact Hr|]. split; [exact Hr'|].
  destruct demo_joined_step as [_ [p Hp]].
  apply (room_machine demo_id demo_reserve demo_sha ∅ demo_hosting 2 0 (demo_draw Byte.x0b)
    (demo_bytes demo_join) _ _ _ _ _ _ (proj1 demo_hosting_step) demo_join_fresh demo_bytes_join
    Hp Hr Hr').
Defined.

Lemma publishes_arrive_witness :
  exists s' b c f p, handle_body demo_sha demo_hosting 2 0 (demo_draw Byte.x0b) demo_join
                   = Returned s' b ((c, f) :: p) /\
    travels f f /\ exists r, in_room demo_hosting s' r 2 /\ in_room demo_hosting s' r c.
Proof.
  assert (returned (handle_body demo_sha demo_hosting 2 0 (demo_draw Byte.x0b) demo_join) = true)
    as H by (vm_compute; reflexivity).
  destruct (handle_body demo_sha demo_hosting 2 0 (demo_draw Byte.x0b) demo_join)
    as [s' b [|[c f] p]|] eqn:E; try discriminate H.
  exists s', b, c, f, p. split; [reflexivity|].
  destruct (publishes_arrive demo_id demo_reserve demo_sha ∅ demo_hosting 2 0 (demo_draw Byte.x0b)
    (demo_bytes demo_join) (mkRequest 5 demo_join) s' b ((c, f) :: p) c f
    (proj1 demo_hosting_step) demo_join_fresh demo_bytes_join E) as (r & H1 & H2 & _ & H4).
  { by left. }
  split; [apply H4; intros ? ? _ ?; set_solver|]. exists r. split; [exact H1|].
  destruct H2 as [?|[? _]]; [done|set_solver].
Defined.

Lemma answers_are_true_witness :
  exists s' m v p, handle_body demo_sha demo_hosting 2 0 (demo_draw Byte.x0b) demo_join
                   = Returned s' (RespRoomJoined m v) p /\ answer_ok s' 2 (RespRoomJoined m v).
Proof.
  assert (match handle_body demo_sha demo_hosting 2 0 (demo_draw Byte.x0b) demo_join with
          | Returned _ (RespRoomJoined _ _) _ => true | _ => false end = true)
    as H by (vm_compute; reflexivity).
  destruct (handle_body demo_sha demo_hosting 2 0 (demo_draw Byte.x0b) demo_join)
    as [s' b p|] eqn:E; [|discriminate H].
  destruct b as [| | |m v| | | | |]; try discriminate H.
  exists s', m, v, p. split; [reflexivity|].
  exact (answers_are_true demo_id demo_reserve demo_sha ∅ demo_hosting 2 0 (demo_draw Byte.x0b)
    demo_join s' _ p (proj1 demo_hosting_step) E).
Defined.

Lemma dispatch_terminates_witness :
  exists s' closed,
    dispatch_publishes demo_reserve (S (size (st_peers demo_joined))) demo_joined
      (publish_view demo_joined demo_room) = Some (s', closed) /\
    service_inv ∅ s' /\
    (forall c, is_Some (st_peers s' !! c) <-> is_Some (st_peers demo_joined !! c) /\ c ∉ closed) /\
    (forall c, c ∈ closed -> st_membership s' !! c = None).
Proof.
  apply (dispatch_terminates demo_id demo_reserve demo_sha ∅ demo_joined), demo_joined_step.
Defined.

Lemma datagram_routing_witness :
  is_ok (route_target demo_joined 2 (ClientToHost (bs "move"))) = true.
Proof.
  destruct (member_of demo_joined 2) as [[r m]|e] eqn:E; [|vm_compute in E; discriminate E].
  destruct (datagram_routing demo_id demo_reserve demo_sha ∅ demo_joined 2 (ClientToHost (bs "move"))
    (proj1 demo_joined_step)) as [_ H].
  apply (H r m (bs "move")); [reflexivity|exact E|vm_compute; congruence].
Defined.

Lemma demo_sha_length x : length (demo_sha x) = 32%nat.
Proof. unfold demo_sha. rewrite length_take, length_app, repeat_length. lia. Qed.

Lemma password_gate_witness :
  exists v, pv_new demo_sha (repeat Byte.x07 16) (bs "secret") = Some v /\
    forall room attempt, rm_password room = Some v ->
      password_refused demo_sha room attempt = false <->
      demo_sha (repeat Byte.x07 16 ++ attempt) = demo_sha (repeat Byte.x07 16 ++ bs "secret").
Proof.
  pose proof (password_gate demo_sha demo_sha_length (repeat Byte.x07 16) (bs "secret")) as H.
  destruct (pv_new demo_sha (repeat Byte.x07 16) (bs "secret")) as [v|] eqn:E; [|discriminate E].
  exists v. split; [reflexivity|]. by destruct H.
Defined.

Lemma player_name_legal_witness :
  normalize_player_name (bs "  a guest with a very long name") = bs "a guest with a v" /\
  name_ok (bs "a guest with a v").
Proof.
  assert (normalize_player_name (bs "  a guest with a very long name") = bs "a guest with a v")
    as H by (vm_compute; reflexivity).
  split; [exact H|]. rewrite <- H. apply player_name_legal. vm_compute. reflexivity.
Defined.

Lemma detached_join_leaves_ghost_witness :
  exists s', handle_body demo_sha demo_hosting 3 0 (demo_draw Byte.x0b) demo_join = Panicked s' /\
    reachable demo_id demo_reserve demo_sha ({[3]} ∪ ∅) s' /\
    st_membership s' !! 3 = None /\ ~ service_inv ∅ s'.
Proof.
  destruct (found (st_rooms demo_hosting !! demo_room)) as [room Hr]; [vm_compute; reflexivity|].
  assert (match st_rooms demo_hosting !! demo_room with
          | Some room => negb (password_refused demo_sha room []) && view_joinable (rm_view room) &&
              flags_is_empty (missing_from (view_requires (rm_view room)) KNOWN) &&
              (zlen (view_members (rm_view room)) <? view_max_players (rm_view room))
          | None => false end = true) as H by (vm_compute; reflexivity).
  rewrite Hr, !andb_true_iff, negb_true_iff, Z.ltb_lt in H. destruct H as [[[H1 H2] H3] H4].
  destruct (detached_join_leaves_ghost demo_id demo_reserve demo_sha ∅ demo_hosting 3 0
    (demo_draw Byte.x0b) (demo_bytes demo_join) (mkRequest 5 demo_join) demo_room room KNOWN []
    (proj1 demo_hosting_step) demo_join_fresh ltac:(set_solver) demo_bytes_join eq_refl
    ltac:(vm_compute; reflexivity) Hr H1 H2 H3 H4) as (s' & Hj & Hs' & _ & _ & Hm & Hn & _).
  by exists s'.
Defined.

Lemma member_closes_host_witness :
  exists bytes (host : Peer Z Z),
    is_ok (encode_stream_frame (FrameRelay bytes)) = true /\
    relay_control demo_id demo_reserve demo_joined 2 bytes = RelayKill (pr_connection host).
Proof.
  destruct (member_of demo_joined 2) as [[r m]|e] eqn:E; [|vm_compute in E; discriminate E].
  assert (st_membership demo_joined !! 2 = Some demo_room) as Hc by (vm_compute; reflexivity).
  destruct (found (st_rooms demo_joined !! demo_room)) as [room Hr]; [vm_compute; reflexivity|].
  assert (r = demo_room) as ->.
  { unfold member_of in E. rewrite Hc in E. cbn [ok_or mbind result_bind] in E.
    rewrite Hr in E. cbn [ok_or mbind result_bind] in E.
    destruct (rm_member_of room !! 2); [|discriminate E]. by injection E. }
  destruct (member_closes_host demo_id demo_reserve demo_sha ∅ demo_joined 2 demo_room m room
    (repeat Byte.x00 (Z.to_nat 16350)) (proj1 demo_joined_step) E Hr) as (bytes & host & _ & H1 & _ & H2).
  { unfold zlen. rewrite repeat_length, Z2Nat.id by lia. lia. }
  by exists bytes, host.
Defined.
