(* ===== verification/Budget.v ===== *)
(** * Transport budgets

    crates/master_protocol/src/budget.rs: the deadlines and queue limits of the master
    connection, their defaults and the settings that override them.  Durations are
    milliseconds; the settings arrive as (name, text) pairs, in any order. *)

From S2P Require Export Prelude.

Record TransportBudget : Type := mkBudget {
  tb_response : Z;
  tb_progress : Z;
  tb_transfer : Z;
  tb_queue_age : Z;
  tb_connect : Z;
  tb_shutdown : Z;
  tb_loading : Z;
  tb_silence : Z;
  tb_admission : Z;
  tb_queue_items : Z;
  tb_queue_bytes : Z;
}.

#[export] Instance budget_eq_dec : EqDecision TransportBudget.
Proof. solve_decision. Defined.

Definition from_secs (n : Z) : Z := 1000 * n.

Definition budget_default : TransportBudget := {|
  tb_response := from_secs 20;
  tb_progress := from_secs 5;
  tb_transfer := from_secs 90;
  tb_queue_age := from_secs 20;
  tb_connect := from_secs 60;
  tb_shutdown := 500;
  tb_loading := from_secs 120;
  tb_silence := from_secs 60;
  tb_admission := from_secs 60;
  tb_queue_items := 32;
  tb_queue_bytes := 8 * 1024 * 1024;
|}.

(** The elements of [SETTINGS]. *)
Definition RESPONSE_MS : list byte := bs "IW4L_NET_RESPONSE_MS".
Definition PROGRESS_MS : list byte := bs "IW4L_NET_PROGRESS_MS".
Definition TRANSFER_MS : list byte := bs "IW4L_NET_TRANSFER_MS".
Definition QUEUE_AGE_MS : list byte := bs "IW4L_NET_QUEUE_AGE_MS".
Definition CONNECT_MS : list byte := bs "IW4L_NET_CONNECT_MS".
Definition SHUTDOWN_MS : list byte := bs "IW4L_NET_SHUTDOWN_MS".
Definition LOADING_MS : list byte := bs "IW4L_NET_LOADING_MS".
Definition SILENCE_MS : list byte := bs "IW4L_NET_SILENCE_MS".
Definition ADMISSION_MS : list byte := bs "IW4L_NET_ADMISSION_MS".
Definition QUEUE_ITEMS : list byte := bs "IW4L_NET_QUEUE_ITEMS".
Definition QUEUE_BYTES : list byte := bs "IW4L_NET_QUEUE_BYTES".

Definition DURATIONS : list (list byte) :=
  [RESPONSE_MS; PROGRESS_MS; TRANSFER_MS; QUEUE_AGE_MS; CONNECT_MS; SHUTDOWN_MS; LOADING_MS;
   SILENCE_MS; ADMISSION_MS].

Definition SETTINGS : list (list byte) := DURATIONS ++ [QUEUE_ITEMS; QUEUE_BYTES].

(** [str::parse::<u64>]: an optional plus sign, then decimal digits that fit. *)
Definition digit (b : byte) : option Z :=
  let v := byte_val b in if (48 <=? v) && (v <=? 57) then Some (v - 48) else None.

Fixpoint parse_digits (acc : Z) (text : list byte) : option Z :=
  match text with
  | [] => Some acc
  | b :: text =>
      match digit b with
      | None => None
      | Some d => if u64_max <? acc * 10 + d then None else parse_digits (acc * 10 + d) text
      end
  end.

Definition parse_u64 (text : list byte) : option Z :=
  let digits := match text with
                | b :: rest => if bool_decide (b = byte_of 43) then rest else text
                | [] => []
                end in
  if zlen digits =? 0 then None else parse_digits 0 digits.

Inductive BudgetError : Type :=
| NotAnInteger (name : list byte)
| InvalidSetting (name text : list byte)
| ProgressExceedsTransfer.

Definition in_range_incl (lo hi n : Z) : bool := (lo <=? n) && (n <=? hi).

(** The inner [match] on a duration's name. *)
Definition set_duration (b : TransportBudget) (name : list byte) (d : Z) : TransportBudget :=
  let named n := bool_decide (name = n) in
  let '(mkBudget response progress transfer queue_age connect shutdown loading silence admission
                 items bytes) := b in
  if named RESPONSE_MS then
    mkBudget d progress transfer queue_age connect shutdown loading silence admission items bytes
  else if named PROGRESS_MS then
    mkBudget response d transfer queue_age connect shutdown loading silence admission items bytes
  else if named TRANSFER_MS then
    mkBudget response progress d queue_age connect shutdown loading silence admission items bytes
  else if named CONNECT_MS then
    mkBudget response progress transfer queue_age d shutdown loading silence admission items bytes
  else if named SHUTDOWN_MS then
    mkBudget response progress transfer queue_age connect d loading silence admission items bytes
  else if named LOADING_MS then
    mkBudget response progress transfer queue_age connect shutdown d silence admission items bytes
  else if named SILENCE_MS then
    mkBudget response progress transfer queue_age connect shutdown loading d admission items bytes
  else if named ADMISSION_MS then
    mkBudget response progress transfer queue_age connect shutdown loading silence d items bytes
  else
    mkBudget response progress transfer d connect shutdown loading silence admission items bytes.

Definition set_queue_items (b : TransportBudget) (n : Z) : TransportBudget :=
  mkBudget (tb_response b) (tb_progress b) (tb_transfer b) (tb_queue_age b) (tb_connect b)
    (tb_shutdown b) (tb_loading b) (tb_silence b) (tb_admission b) n (tb_queue_bytes b).

Definition set_queue_bytes (b : TransportBudget) (n : Z) : TransportBudget :=
  mkBudget (tb_response b) (tb_progress b) (tb_transfer b) (tb_queue_age b) (tb_connect b)
    (tb_shutdown b) (tb_loading b) (tb_silence b) (tb_admission b) (tb_queue_items b) n.

(** One turn of the loop over the settings. *)
Definition apply_setting (b : TransportBudget) (name text : list byte)
    : Result BudgetError TransportBudget :=
  match parse_u64 text with
  | None => Err (NotAnInteger name)
  | Some n =>
      if bool_decide (name = QUEUE_ITEMS) && in_range_incl 1 1024 n then Ok (set_queue_items b n)
      else if bool_decide (name = QUEUE_BYTES) && in_range_incl (256 * 1024) (64 * 1024 * 1024) n
      then Ok (set_queue_bytes b n)
      else if bool_decide (name ∈ DURATIONS) && in_range_incl 1 600000 n
      then Ok (set_duration b name n)
      else Err (InvalidSetting name text)
  end.

Fixpoint apply_settings (b : TransportBudget) (settings : list (list byte * list byte))
    : Result BudgetError TransportBudget :=
  match settings with
  | [] => Ok b
  | (name, text) :: rest =>
      match apply_setting b name text with
      | Err e => Err e
      | Ok b => apply_settings b rest
      end
  end.

Definition from_settings (settings : list (list byte * list byte))
    : Result BudgetError TransportBudget :=
  match apply_settings budget_default settings with
  | Err e => Err e
  | Ok b => if tb_transfer b <? tb_progress b then Err ProgressExceedsTransfer else Ok b
  end.

(** ** The budget a list of settings describes *)

(** The value of a setting that is accepted on its own. *)
Definition accepted (name text : list byte) : option Z :=
  n ← parse_u64 text;
  let '(lo, hi) := if bool_decide (name = QUEUE_ITEMS) then (1, 1024)
                   else if bool_decide (name = QUEUE_BYTES) then (256 * 1024, 64 * 1024 * 1024)
                   else (1, 600000) in
  if bool_decide (name ∈ SETTINGS) && in_range_incl lo hi n then Some n else None.

Definition is_accepted (name text : list byte) : bool :=
  match accepted name text with Some _ => true | None => false end.

(** The last setting of a name decides. *)
Definition setting (settings : list (list byte * list byte)) (name : list byte) (otherwise : Z) : Z :=
  default otherwise (list.last (omap (fun s => if bool_decide (s.1 = name) then accepted s.1 s.2 else None)
                                  settings)).

Definition budget_of (settings : list (list byte * list byte)) : TransportBudget :=
  let get name field := setting settings name (field budget_default) in
  mkBudget (get RESPONSE_MS tb_response) (get PROGRESS_MS tb_progress) (get TRANSFER_MS tb_transfer)
    (get QUEUE_AGE_MS tb_queue_age) (get CONNECT_MS tb_connect) (get SHUTDOWN_MS tb_shutdown)
    (get LOADING_MS tb_loading) (get SILENCE_MS tb_silence) (get ADMISSION_MS tb_admission)
    (get QUEUE_ITEMS tb_queue_items) (get QUEUE_BYTES tb_queue_bytes).

Definition budget_in_range (b : TransportBudget) : Prop :=
  Forall (fun d => 1 <= d <= 600000)
    [tb_response b; tb_progress b; tb_transfer b; tb_queue_age b; tb_connect b; tb_shutdown b;
     tb_loading b; tb_silence b; tb_admission b] /\
  1 <= tb_queue_items b <= 1024 /\ 256 * 1024 <= tb_queue_bytes b <= 64 * 1024 * 1024 /\
  tb_progress b <= tb_transfer b.

(** ** Proofs *)

Lemma setting_cons_other name text rest name' d :
  name <> name' -> setting ((name, text) :: rest) name' d = setting rest name' d.
Proof. intros Hne. unfold setting. cbn [omap list_omap fst snd]. by rewrite bool_decide_eq_false_2. Qed.

Lemma setting_cons_same name text rest n d :
  accepted name text = Some n -> setting ((name, text) :: rest) name d = setting rest name n.
Proof.
  intros Ha. unfold setting. cbn [omap list_omap fst snd].
  rewrite bool_decide_eq_true_2, Ha by done. rewrite list.last_cons.
  by destruct (list.last _).
Qed.

(** The budget after the settings read so far, and with those still to come. *)
Definition budget_from (b : TransportBudget) (settings : list (list byte * list byte)) : TransportBudget :=
  let get name field := setting settings name (field b) in
  mkBudget (get RESPONSE_MS tb_response) (get PROGRESS_MS tb_progress) (get TRANSFER_MS tb_transfer)
    (get QUEUE_AGE_MS tb_queue_age) (get CONNECT_MS tb_connect) (get SHUTDOWN_MS tb_shutdown)
    (get LOADING_MS tb_loading) (get SILENCE_MS tb_silence) (get ADMISSION_MS tb_admission)
    (get QUEUE_ITEMS tb_queue_items) (get QUEUE_BYTES tb_queue_bytes).

(** Decide the comparisons of closed names. *)
Ltac decide_names :=
  repeat match goal with
  | |- context [bool_decide ?P] =>
      let v := eval vm_compute in (bool_decide P) in
      lazymatch v with true => idtac | false => idtac end;
      change (bool_decide P) with v; cbn [andb negb]; cbv iota
  end.

(** An accepted setting changes the described budget in its own field only. *)
Ltac one_field :=
  intros rest; unfold budget_from; cbn [tb_response tb_progress tb_transfer tb_queue_age tb_connect
    tb_shutdown tb_loading tb_silence tb_admission tb_queue_items tb_queue_bytes];
  f_equal; symmetry;
  first [ by apply setting_cons_same | apply setting_cons_other; vm_compute; discriminate ].

Lemma apply_setting_spec b name text :
  match apply_setting b name text, accepted name text with
  | Ok b', Some n => forall rest, budget_from b' rest = budget_from b ((name, text) :: rest)
  | Err e, None => e = match parse_u64 text with Some _ => InvalidSetting name text | None => NotAnInteger name end
  | _, _ => False
  end.
Proof.
  destruct (accepted name text) as [n|] eqn:Ha; pose proof Ha as Ha'; revert Ha';
    unfold apply_setting, accepted; destruct (parse_u64 text) as [m|]; cbn [mbind option_bind]; try done.
  - destruct (decide (name ∈ SETTINGS)) as [Hin|Hout].
    2: { rewrite (bool_decide_eq_false_2 (name ∈ SETTINGS)) by done. cbn [andb].
         by destruct (if bool_decide (name = QUEUE_ITEMS) then _ else _). }
    destruct b. unfold SETTINGS, DURATIONS in Hin. cbn [app] in Hin.
    rewrite !elem_of_cons, elem_of_nil in Hin. destruct_or! Hin; try done; subst name;
      decide_names; destruct (in_range_incl _ _ m); try done; intros [= ->];
      unfold set_duration, set_queue_items, set_queue_bytes; decide_names; one_field.
  - destruct (decide (name ∈ SETTINGS)) as [Hin|Hout].
    + unfold SETTINGS, DURATIONS in Hin. cbn [app] in Hin.
      rewrite !elem_of_cons, elem_of_nil in Hin. destruct_or! Hin; try done; subst name;
        decide_names; destruct (in_range_incl _ _ m); done.
    + assert (forall n, n ∈ SETTINGS -> name <> n) as Hne by (intros n' Hn' ->; done).
      rewrite (bool_decide_eq_false_2 (name = QUEUE_ITEMS)) by (apply Hne, (bool_decide_unpack _); vm_compute; exact I).
      rewrite (bool_decide_eq_false_2 (name = QUEUE_BYTES)) by (apply Hne, (bool_decide_unpack _); vm_compute; exact I).
      rewrite (bool_decide_eq_false_2 (name ∈ DURATIONS)); [done|].
      intros H. apply Hout. unfold SETTINGS. apply elem_of_app. by left.
Qed.

Lemma apply_settings_spec b settings :
  if forallb (fun s => is_accepted s.1 s.2) settings
  then apply_settings b settings = Ok (budget_from b settings)
  else exists e, apply_settings b settings = Err e.
Proof.
  revert b. induction settings as [|[name text] rest IH]; intros b; cbn [forallb apply_settings fst snd].
  - by destruct b.
  - pose proof (apply_setting_spec b name text) as H.
    unfold is_accepted at 1.
    destruct (apply_setting b name text) as [b'|e], (accepted name text) as [n|]; try done; cbn [andb].
    + specialize (IH b'). rewrite <- H. done.
    + eauto.
Qed.

Lemma setting_range settings name d lo hi :
  (forall text n, accepted name text = Some n -> lo <= n <= hi) -> lo <= d <= hi ->
  lo <= setting settings name d <= hi.
Proof.
  intros Hacc. revert d. induction settings as [|[name' text] rest IH]; intros d Hd; [done|].
  destruct (decide (name' = name)) as [->|Hne]; [|by rewrite setting_cons_other; auto].
  destruct (accepted name text) as [n|] eqn:Ha.
  - rewrite (setting_cons_same _ _ _ n) by done. eauto.
  - unfold setting in *. cbn [omap list_omap fst snd]. rewrite bool_decide_eq_true_2, Ha by done. auto.
Qed.

Lemma accepted_range name text n :
  accepted name text = Some n ->
  (if bool_decide (name = QUEUE_ITEMS) then 1 <= n <= 1024
   else if bool_decide (name = QUEUE_BYTES) then 256 * 1024 <= n <= 64 * 1024 * 1024
   else 1 <= n <= 600000).
Proof.
  unfold accepted. destruct (parse_u64 text) as [m|]; [|done]. cbn [mbind option_bind].
  destruct (bool_decide (name = QUEUE_ITEMS)); [|destruct (bool_decide (name = QUEUE_BYTES))];
    destruct (bool_decide (name ∈ SETTINGS)); cbn [andb]; try done;
    unfold in_range_incl; destruct (_ && _) eqn:E; try done; intros [= ->]; lia.
Qed.

(** [from_settings] accepts exactly the lists in which every setting is a known name with
    an integer in that name's range and the resulting progress deadline does not exceed the
    transfer deadline; the budget it returns has, in every field, the last value given for it
    or else the default, and every field is within its range. *)
Theorem from_settings_spec settings :
  let budget := budget_of settings in
  if forallb (fun s => is_accepted s.1 s.2) settings &&
     (tb_progress budget <=? tb_transfer budget)
  then from_settings settings = Ok budget /\ budget_in_range budget
  else exists e, from_settings settings = Err e.
Proof.
  intros budget. pose proof (apply_settings_spec budget_default settings) as H.
  change (budget_from budget_default settings) with budget in H. unfold from_settings.
  destruct (forallb _ _); cbn [andb]; [|destruct H as [e ->]; eauto].
  rewrite H. destruct (Z.leb_spec (tb_progress budget) (tb_transfer budget)) as [Hle|Hgt].
  - rewrite (proj2 (Z.ltb_ge _ _)) by done. split; [done|].
    assert (forall name d, name ∈ DURATIONS -> 1 <= d <= 600000 ->
      1 <= setting settings name d <= 600000) as Hdur.
    { intros name d Hin Hd. apply setting_range; [|done]. intros text n Ha%accepted_range.
      unfold DURATIONS in Hin. rewrite !elem_of_cons, elem_of_nil in Hin.
      destruct_or! Hin; try done; subst name; revert Ha; decide_names; done. }
    assert (forall name, bool_decide (name ∈ DURATIONS) = true -> name ∈ DURATIONS) as Hin
      by (intros name; apply bool_decide_eq_true_1).
    split; [|split; [|split; [|done]]].
    + unfold budget, budget_of. cbn [tb_response tb_progress tb_transfer tb_queue_age tb_connect
        tb_shutdown tb_loading tb_silence tb_admission].
      repeat constructor; apply Hdur; try (apply Hin; vm_compute; reflexivity);
        vm_compute; split; discriminate.
    + apply setting_range; [|vm_compute; split; discriminate].
      intros text n Ha%accepted_range. revert Ha. decide_names. done.
    + apply setting_range; [|vm_compute; split; discriminate].
      intros text n Ha%accepted_range. revert Ha. decide_names. done.
  - rewrite (proj2 (Z.ltb_lt _ _)) by done. eauto.
Qed.

Example budget_demo :
  from_settings [(PROGRESS_MS, bs "7000"); (QUEUE_ITEMS, bs "+64"); (PROGRESS_MS, bs "8000")] =
  Ok (mkBudget 20000 8000 90000 20000 60000 500 120000 60000 60000 64 8388608).
Proof. vm_compute. reflexivity. Qed.
