(* ===== verification/SessionTypes.v ===== *)
(** * Keys, phases and effects of a session

    The identities of crates/frame/src/session.rs and the types of
    crates/net/src/session_core.rs that its three state machines share.  Times are
    milliseconds, the limits come from the transport budget. *)

From S2P Require Export MasterTypes Budget.

(** ** Identities *)

Record MatchKey : Type := mkMatchKey { mk_session_id : list byte; mk_match_epoch : Z }.

#[export] Instance match_key_eq_dec : EqDecision MatchKey.
Proof. solve_decision. Defined.

Definition MATCH_NONE : MatchKey := mkMatchKey (replicate 16 Byte.x00) 0.

Definition key_is_none (k : MatchKey) : bool := mk_match_epoch k =? 0.

Record LocalLoadKey : Type := mkLoadKey {
  lk_incarnation : Z; lk_match_key : MatchKey; lk_request_id : Z }.

#[export] Instance load_key_eq_dec : EqDecision LocalLoadKey.
Proof. solve_decision. Defined.

Definition belongs_to (load : LocalLoadKey) (k : MatchKey) : bool :=
  negb (key_is_none k) && bool_decide (lk_match_key load = k).

Record AdmissionKey : Type := mkAdmission {
  ak_match_key : MatchKey; ak_member_id : list byte; ak_connection_id : Z; ak_bootstrap_id : Z }.

#[export] Instance admission_key_eq_dec : EqDecision AdmissionKey.
Proof. solve_decision. Defined.

(** A message of epoch [message] applies to a match of epoch [live]. *)
Definition epoch_applies (message live : Z) : bool := negb (message =? 0) && (message =? live).

Definition match_boundary_applies (torn live : Z) : bool :=
  if torn =? 0 then live =? 0 else torn =? live.

Definition match_key_boundary_applies (torn live : MatchKey) : bool :=
  if key_is_none torn then key_is_none live else bool_decide (torn = live).

(** ** Progress *)

Inductive ProgressPhase : Type := ProgressIdle | ProgressLoading | ProgressRunning.

Record ProgressWatch : Type := mkWatch {
  pw_phase : ProgressPhase; pw_phase_started_at : Z; pw_last_progress_ms : Z }.

Definition watch_default : ProgressWatch := mkWatch ProgressIdle 0 0.

Definition watch_beat (w : ProgressWatch) (now : Z) : ProgressWatch :=
  if pw_last_progress_ms w <? now then mkWatch (pw_phase w) (pw_phase_started_at w) now else w.

Definition watch_set_phase (phase : ProgressPhase) (now : Z) : ProgressWatch := mkWatch phase now now.

Definition watch_expired (limits : TransportBudget) (w : ProgressWatch) (now : Z) : bool :=
  match pw_phase w with
  | ProgressIdle => false
  | ProgressLoading => tb_loading limits <=? saturating_sub now (pw_phase_started_at w)
  | ProgressRunning => tb_silence limits <=? saturating_sub now (pw_last_progress_ms w)
  end.

(** ** Failures *)

Inductive FailStage : Type :=
| StageTransport | StageLoad | StageAuthority | StageAdmission | StageAdvertLease | StageOverload.

Record SessionFail : Type := mkFail {
  sf_stage : FailStage; sf_source : list byte; sf_match_key : MatchKey }.

#[export] Instance fail_stage_eq_dec : EqDecision FailStage.
Proof. solve_decision. Defined.
#[export] Instance session_fail_eq_dec : EqDecision SessionFail.
Proof. solve_decision. Defined.

(** ** The world a match runs in *)

Record HostWorldReady : Type := mkWorld {
  hw_epoch : Z; hw_map : Z; hw_weapons : Z; hw_classes : Z }.

#[export] Instance host_world_eq_dec : EqDecision HostWorldReady.
Proof. solve_decision. Defined.

Definition map_loaded_matches_host (live_epoch : Z) (host : option HostWorldReady)
    (loaded : HostWorldReady) : bool :=
  match host with
  | None => false
  | Some host =>
      epoch_applies (hw_epoch loaded) live_epoch && epoch_applies (hw_epoch host) live_epoch &&
      bool_decide (host = loaded)
  end.

Definition class_select_allowed (session_open installed_belongs presentation_ready admitted failed : bool)
    : bool :=
  session_open && installed_belongs && presentation_ready && admitted && negb failed.

Definition confirm_keyed_world_ready (installed authority_hold installed_belongs : bool)
    (fact : HostWorldReady) : option HostWorldReady :=
  if negb installed || authority_hold || negb installed_belongs || (hw_epoch fact =? 0) then None
  else Some fact.

Inductive MatchPhase : Type := PhaseNone | PhaseLoading | PhaseRunning | PhaseEnding.

#[export] Instance match_phase_eq_dec : EqDecision MatchPhase.
Proof. solve_decision. Defined.

Definition phase_live (p : MatchPhase) : bool :=
  match p with PhaseLoading | PhaseRunning => true | PhaseNone | PhaseEnding => false end.
