(* ===== verification/HostMatch.v ===== *)
(** * The host's match

    [HostMatchCore] of crates/net/src/session_core.rs: the state machine that turns the facts a
    host learns (its own world, the peers' loaded maps, prepared and applied bootstraps, time)
    into the effects it owes the peers.  An answer carries the reason label the code logs; the
    formatted log line around it is not modelled.  The hash map of peers is a [gmap], a loop
    over it visits the peers in the order of [map_to_list]. *)

From S2P Require Export SessionTypes.

Inductive PeerPhase : Type :=
| Waiting
| Syncing (bootstrap_id : Z)
| PeerAdmitted (bootstrap_id : Z)
| PeerFailed
| PeerCancelledPhase.

#[export] Instance peer_phase_eq_dec : EqDecision PeerPhase.
Proof. solve_decision. Defined.

Record PeerAdmission : Type := mkPeerAdm {
  pa_phase : PeerPhase;
  pa_map_loaded : option HostWorldReady;
  pa_started_at : option Z;
  pa_connection_id : option Z;
}.

Definition peer_default : PeerAdmission := mkPeerAdm Waiting None None None.

Inductive HostMatchEvent : Type :=
| HostStart (match_key : MatchKey) (now : Z)
| HostPeerRoster (match_key : MatchKey) (members : list MemberId) (now : Z)
| HostAuthorityReady (ready : HostWorldReady) (now : Z)
| HostAuthorityProgress (now : Z)
| HostMapLoaded (member : MemberId) (loaded : HostWorldReady) (now : Z)
| HostBootstrapPrepared (match_key : MatchKey) (member : MemberId) (bootstrap_id : Z)
    (connection_id : option Z)
| HostApplied (match_key : MatchKey) (member : MemberId) (bootstrap_id : Z)
    (connection_id : option Z)
| HostMatchEnded (match_key : MatchKey)
| HostPeerCancelled (member : MemberId)
| HostClose
| HostTick (now : Z).

Inductive HostMatchEffect : Type :=
| PublishReady (match_key : MatchKey) (ready : HostWorldReady)
| PublishEnd (match_key : MatchKey)
| FlushBootstraps (member : MemberId)
| Enter (member : MemberId) (bootstrap_id : Z) (match_key : MatchKey)
| CancelPeer (member : MemberId) (reason : AdmissionFailure) (match_key : MatchKey)
| Fail (fail : SessionFail).

Record HostMatchApply : Type := mkApply {
  hm_accepted : bool; hm_effects : list HostMatchEffect; hm_reason : list byte }.

Record HostMatchCore : Type := mkHostMatch {
  hc_session_open : bool;
  hc_match_key : MatchKey;
  hc_phase : MatchPhase;
  hc_host_world : option HostWorldReady;
  hc_authority_ready : bool;
  hc_peers : gmap MemberId PeerAdmission;
  hc_progress : ProgressWatch;
  hc_incarnation : Z;
  hc_local_load_id : option Z;
}.

Definition host_match_default : HostMatchCore :=
  mkHostMatch true MATCH_NONE PhaseNone None false ∅ watch_default 0 None.

Definition set_incarnation (s : HostMatchCore) (incarnation : Z) : HostMatchCore :=
  mkHostMatch (hc_session_open s) (hc_match_key s) (hc_phase s) (hc_host_world s)
    (hc_authority_ready s) (hc_peers s) (hc_progress s) incarnation (hc_local_load_id s).

Definition set_local_load_id (s : HostMatchCore) (local_load_id : option Z) : HostMatchCore :=
  mkHostMatch (hc_session_open s) (hc_match_key s) (hc_phase s) (hc_host_world s)
    (hc_authority_ready s) (hc_peers s) (hc_progress s) (hc_incarnation s) local_load_id.

(** The fields an event of the match can change. *)
Definition set_match (s : HostMatchCore) (k : MatchKey) (phase : MatchPhase)
    (world : option HostWorldReady) (authority : bool) (peers : gmap MemberId PeerAdmission)
    (progress : ProgressWatch) : HostMatchCore :=
  mkHostMatch (hc_session_open s) k phase world authority peers progress
    (hc_incarnation s) (hc_local_load_id s).

Definition set_peer_phase (p : PeerAdmission) (phase : PeerPhase) : PeerAdmission :=
  mkPeerAdm phase (pa_map_loaded p) (pa_started_at p) (pa_connection_id p).

Definition set_host_peers (s : HostMatchCore) (peers : gmap MemberId PeerAdmission) : HostMatchCore :=
  set_match s (hc_match_key s) (hc_phase s) (hc_host_world s)
    (hc_authority_ready s) peers (hc_progress s).

(** The first registry in which the loaded world differs from the host's. *)
Definition world_mismatch (host loaded : HostWorldReady) : option AdmissionFailure :=
  if negb (hw_map host =? hw_map loaded) then Some (AdmMapContent (hw_map host) (hw_map loaded))
  else if negb (hw_weapons host =? hw_weapons loaded)
  then Some (AdmWeaponRegistry (hw_weapons host) (hw_weapons loaded))
  else if negb (hw_classes host =? hw_classes loaded)
  then Some (AdmClassRegistry (hw_classes host) (hw_classes loaded))
  else None.

(** [peer_ready_effect]: the peer afterwards, and what it is owed. *)
Definition peer_ready_effect (k : MatchKey) (host : HostWorldReady) (member : MemberId)
    (peer : PeerAdmission) : PeerAdmission * option HostMatchEffect :=
  match pa_phase peer with
  | PeerFailed | PeerCancelledPhase | PeerAdmitted _ => (peer, None)
  | Waiting | Syncing _ =>
      match pa_map_loaded peer with
      | None => (peer, None)
      | Some loaded =>
          if negb (epoch_applies (hw_epoch loaded) (mk_match_epoch k)) then (peer, None)
          else match world_mismatch host loaded with
               | Some reason => (set_peer_phase peer PeerFailed, Some (CancelPeer member reason k))
               | None => (peer, Some (FlushBootstraps member))
               end
      end
  end.

Definition reject (s : HostMatchCore) (reason : String.string) : HostMatchCore * HostMatchApply :=
  (s, mkApply false [] (bs reason)).
Arguments reject s reason%_string_scope.

Definition finish (s : HostMatchCore) (reason : String.string) (effects : list HostMatchEffect)
    : HostMatchCore * HostMatchApply := (s, mkApply true effects (bs reason)).
Arguments finish s reason%_string_scope effects.

(** [peers.entry(member).or_insert_with(..)]. *)
Definition add_waiting (now : Z) (peers : gmap MemberId PeerAdmission) (m : MemberId)
    : gmap MemberId PeerAdmission :=
  match peers !! m with
  | Some _ => peers
  | None => <[m := mkPeerAdm Waiting None (Some now) None]> peers
  end.

(** The roster afterwards: members that left are dropped, new ones wait from [now] on. *)
Definition apply_roster (peers : gmap MemberId PeerAdmission) (members : list MemberId) (now : Z)
    : gmap MemberId PeerAdmission :=
  foldl (add_waiting now)
    (filter (fun e => bool_decide (e.1 ∈ members) = true) peers) members.

(** [AuthorityReady] over every peer. *)
Definition ready_peers (k : MatchKey) (ready : HostWorldReady) (peers : gmap MemberId PeerAdmission)
    : gmap MemberId PeerAdmission * list HostMatchEffect :=
  (map_imap (fun m p => Some (peer_ready_effect k ready m p).1) peers,
   omap (fun e => (peer_ready_effect k ready e.1 e.2).2) (map_to_list peers)).

(** A peer still on its way in whose deadline has passed. *)
Definition admission_expired (limits : TransportBudget) (now : Z) (p : PeerAdmission) : bool :=
  match pa_phase p with
  | Waiting | Syncing _ =>
      match pa_started_at p with
      | Some started => tb_admission limits <=? saturating_sub now started
      | None => false
      end
  | _ => false
  end.

Definition expired_members (limits : TransportBudget) (s : HostMatchCore) (now : Z) : list MemberId :=
  if bool_decide (hc_phase s = PhaseRunning)
  then omap (fun e => if admission_expired limits now e.2 then Some e.1 else None)
         (map_to_list (hc_peers s))
  else [].

Definition fail_peer (peers : gmap MemberId PeerAdmission) (m : MemberId)
    : gmap MemberId PeerAdmission :=
  match peers !! m with
  | Some p => <[m := set_peer_phase p PeerFailed]> peers
  | None => peers
  end.

(** The failure of a [Tick] past the progress deadline. *)
Definition tick_failure (limits : TransportBudget) (s : HostMatchCore) (now : Z)
    : list HostMatchEffect :=
  if watch_expired limits (hc_progress s) now then
    let stage := match hc_phase s with
                 | PhaseRunning => StageAuthority
                 | PhaseLoading | PhaseNone | PhaseEnding => StageLoad
                 end in
    let source := match stage with
                  | StageLoad => bs "host load deadline"
                  | _ => bs "authority progress silence"
                  end in
    [Fail (mkFail stage source (hc_match_key s))]
  else [].

Section Apply.
Context (limits : TransportBudget).

Definition apply_start (s : HostMatchCore) (k : MatchKey) (now : Z) : HostMatchCore * HostMatchApply :=
  if key_is_none k then reject s "start without match key"
  else if bool_decide (hc_phase s = PhaseLoading) && bool_decide (hc_match_key s = k)
  then finish s "start already loading" []
  else if bool_decide (hc_phase s = PhaseRunning) && bool_decide (hc_match_key s = k)
  then finish s "start already running" []
  else finish (set_match s k PhaseLoading None false ∅
                 (watch_set_phase ProgressLoading now)) "start loading" [].

Definition apply_peer_roster (s : HostMatchCore) (k : MatchKey) (members : list MemberId) (now : Z)
    : HostMatchCore * HostMatchApply :=
  if negb (bool_decide (k = hc_match_key s)) || negb (phase_live (hc_phase s)) ||
     (MAX_SESSION_MEMBERS <? zlen members)
  then reject s "stale or invalid peer roster"
  else finish (set_host_peers s (apply_roster (hc_peers s) members now)) "peer roster" [].

Definition apply_authority_ready (s : HostMatchCore) (ready : HostWorldReady) (now : Z)
    : HostMatchCore * HostMatchApply :=
  if negb (epoch_applies (hw_epoch ready) (mk_match_epoch (hc_match_key s)))
  then reject s "stale host world"
  else if negb (phase_live (hc_phase s)) then reject s "host world without match"
  else
    let loading := bool_decide (hc_phase s = PhaseLoading) in
    let phase := if loading then PhaseRunning else hc_phase s in
    let progress := if loading then watch_set_phase ProgressRunning now else hc_progress s in
    let started := if loading
                   then (fun p => mkPeerAdm (pa_phase p) (pa_map_loaded p) (Some now) (pa_connection_id p))
                          <$> hc_peers s
                   else hc_peers s in
    let '(peers, effects) := ready_peers (hc_match_key s) ready started in
    finish (set_match s (hc_match_key s) phase (Some ready) true peers progress)
      "authority ready" effects.

Definition apply_map_loaded (s : HostMatchCore) (m : MemberId) (loaded : HostWorldReady) (now : Z)
    : HostMatchCore * HostMatchApply :=
  if negb (epoch_applies (hw_epoch loaded) (mk_match_epoch (hc_match_key s))) ||
     negb (phase_live (hc_phase s))
  then reject s "stale map loaded"
  else
    match hc_peers s !! m with
    | None => reject s "map loaded outside peer roster"
    | Some peer =>
        match pa_phase peer with
        | PeerFailed | PeerCancelledPhase => reject s "map loaded after admission ended"
        | _ =>
            let started := if bool_decide (hc_phase s = PhaseRunning) &&
                              bool_decide (pa_started_at peer = None)
                           then Some now else pa_started_at peer in
            let peer := mkPeerAdm (pa_phase peer) (Some loaded) started (pa_connection_id peer) in
            let '(peer, effect) := match hc_host_world s with
                                   | Some host => peer_ready_effect (hc_match_key s) host m peer
                                   | None => (peer, None)
                                   end in
            finish (set_host_peers s (<[m := peer]> (hc_peers s))) "client map loaded"
              (option_list effect)
        end
    end.

Definition apply_bootstrap_prepared (s : HostMatchCore) (k : MatchKey) (m : MemberId)
    (bootstrap_id : Z) (connection_id : option Z) : HostMatchCore * HostMatchApply :=
  if negb (bool_decide (k = hc_match_key s)) || key_is_none k || negb (phase_live (hc_phase s))
  then reject s "stale bootstrap completion"
  else
    match hc_peers s !! m with
    | None => reject s "bootstrap for unknown peer"
    | Some peer =>
        match pa_phase peer with
        | PeerAdmitted _ | PeerFailed | PeerCancelledPhase => reject s "bootstrap after admission ended"
        | Waiting | Syncing _ =>
            let connection := match connection_id with
                              | Some _ => connection_id
                              | None => pa_connection_id peer
                              end in
            let peer := mkPeerAdm (Syncing bootstrap_id) (pa_map_loaded peer) (pa_started_at peer)
                          connection in
            finish (set_host_peers s (<[m := peer]> (hc_peers s))) "bootstrap prepared" []
        end
    end.

(** Whether an [Applied] of [bootstrap_id] fits the peer's phase, and repeats an earlier one. *)
Definition applied_repeat (phase : PeerPhase) (bootstrap_id : Z) : option bool :=
  match phase with
  | Syncing pending => if pending =? bootstrap_id then Some false else None
  | PeerAdmitted pending => if pending =? bootstrap_id then Some true else None
  | _ => None
  end.

Definition apply_applied (s : HostMatchCore) (k : MatchKey) (m : MemberId) (bootstrap_id : Z)
    (connection_id : option Z) : HostMatchCore * HostMatchApply :=
  if negb (bool_decide (k = hc_match_key s)) || key_is_none k then reject s "stale applied"
  else if negb (phase_live (hc_phase s)) then reject s "applied without match"
  else
    match hc_peers s !! m with
    | None => reject s "applied unknown peer"
    | Some peer =>
        if match pa_connection_id peer with
           | Some expected => negb (bool_decide (connection_id = Some expected))
           | None => false
           end
        then reject s "applied connection mismatch"
        else
          match applied_repeat (pa_phase peer) bootstrap_id with
          | None => reject s "applied mismatch"
          | Some repeat =>
              let connection := match connection_id with
                                | Some _ => connection_id
                                | None => pa_connection_id peer
                                end in
              let peer := mkPeerAdm (PeerAdmitted bootstrap_id) (pa_map_loaded peer) (pa_started_at peer)
                            connection in
              finish (set_host_peers s (<[m := peer]> (hc_peers s)))
                (if repeat then "duplicate applied repeats enter" else "enter committed")
                [Enter m bootstrap_id k]
          end
    end.

Definition apply_match_ended (s : HostMatchCore) (k : MatchKey) : HostMatchCore * HostMatchApply :=
  if negb (match_key_boundary_applies k (hc_match_key s)) || negb (phase_live (hc_phase s))
  then reject s "stale match end"
  else finish (set_match s (hc_match_key s) PhaseNone None false ∅
                 (watch_set_phase ProgressIdle 0)) "end match" [].

Definition apply_peer_cancelled (s : HostMatchCore) (m : MemberId) : HostMatchCore * HostMatchApply :=
  let peers := match hc_peers s !! m with
               | Some peer => <[m := set_peer_phase peer PeerCancelledPhase]> (hc_peers s)
               | None => hc_peers s
               end in
  finish (set_host_peers s peers) "peer cancelled" [CancelPeer m AdmCancelled (hc_match_key s)].

Definition apply_tick (s : HostMatchCore) (now : Z) : HostMatchCore * HostMatchApply :=
  let expired := expired_members limits s now in
  finish (set_host_peers s (foldl fail_peer (hc_peers s) expired)) "tick"
    (tick_failure limits s now ++
     map (fun m => CancelPeer m AdmDeadline (hc_match_key s)) expired).

Definition host_apply (s : HostMatchCore) (event : HostMatchEvent) : HostMatchCore * HostMatchApply :=
  if negb (hc_session_open s) then reject s "session closed"
  else
    match event with
    | HostStart k now => apply_start s k now
    | HostPeerRoster k members now => apply_peer_roster s k members now
    | HostAuthorityReady ready now => apply_authority_ready s ready now
    | HostAuthorityProgress now =>
        finish (if bool_decide (hc_phase s = PhaseRunning)
                then set_match s (hc_match_key s) (hc_phase s) (hc_host_world s)
                       (hc_authority_ready s) (hc_peers s) (watch_beat (hc_progress s) now)
                else s) "authority progress" []
    | HostMapLoaded m loaded now => apply_map_loaded s m loaded now
    | HostBootstrapPrepared k m b c => apply_bootstrap_prepared s k m b c
    | HostApplied k m b c => apply_applied s k m b c
    | HostMatchEnded k => apply_match_ended s k
    | HostPeerCancelled m => apply_peer_cancelled s m
    | HostClose =>
        finish (mkHostMatch false (hc_match_key s) PhaseNone (hc_host_world s)
                  (hc_authority_ready s) (hc_peers s) (hc_progress s) (hc_incarnation s)
                  (hc_local_load_id s)) "close session" []
    | HostTick now => apply_tick s now
    end.

End Apply.
