(* ===== verification/HostMatchMain.v ===== *)
(** * Properties of the host's match

    The invariant of [HostMatchCore], what a flushed bootstrap and an entered peer stand for,
    and the deadlines. *)

From S2P Require Import HostMatch.

(** ** Runs *)

(** What the game calls on the core. *)
Inductive HostOp : Type :=
| OpEvent (event : HostMatchEvent)
| OpIncarnation (incarnation : Z)
| OpLoadId (local_load_id : option Z).

Definition host_op (limits : TransportBudget) (s : HostMatchCore) (op : HostOp) : HostMatchCore :=
  match op with
  | OpEvent event => (host_apply limits s event).1
  | OpIncarnation n => set_incarnation s n
  | OpLoadId n => set_local_load_id s n
  end.

Definition host_run (limits : TransportBudget) (s : HostMatchCore) (ops : list HostOp) : HostMatchCore :=
  foldl (host_op limits) s ops.

(** ** Invariant *)

(** A peer the host still waits for. *)
Definition pending (p : PeerAdmission) : Prop :=
  match pa_phase p with Waiting | Syncing _ => True | _ => False end.

Definition watch_of (phase : MatchPhase) : ProgressPhase :=
  match phase with
  | PhaseLoading => ProgressLoading
  | PhaseRunning => ProgressRunning
  | PhaseNone | PhaseEnding => ProgressIdle
  end.

(** What holds of a peer of match epoch [epoch] whose host has [world]. *)
Record peer_inv (epoch : Z) (world : option HostWorldReady) (p : PeerAdmission) : Prop := {
  pi_started : pa_started_at p <> None;
  pi_loaded l : pa_map_loaded p = Some l -> epoch_applies (hw_epoch l) epoch = true;
  pi_same w l : world = Some w -> pa_map_loaded p = Some l -> pending p -> world_mismatch w l = None;
}.

Record host_inv (s : HostMatchCore) : Prop := {
  hi_phase : hc_phase s <> PhaseEnding;
  hi_key : phase_live (hc_phase s) = true -> key_is_none (hc_match_key s) = false;
  hi_loading : hc_phase s = PhaseLoading -> hc_host_world s = None /\ hc_authority_ready s = false;
  hi_running : hc_phase s = PhaseRunning -> exists w, hc_host_world s = Some w /\
    epoch_applies (hw_epoch w) (mk_match_epoch (hc_match_key s)) = true /\ hc_authority_ready s = true;
  hi_closed : hc_session_open s = false -> hc_phase s = PhaseNone;
  hi_watch : hc_session_open s = true -> pw_phase (hc_progress s) = watch_of (hc_phase s);
  hi_empty : hc_session_open s = true -> hc_phase s = PhaseNone ->
    hc_peers s = ∅ /\ hc_host_world s = None /\ hc_authority_ready s = false;
  hi_size : Z.of_nat (size (hc_peers s)) <= MAX_SESSION_MEMBERS;
  hi_peers : map_Forall (fun _ => peer_inv (mk_match_epoch (hc_match_key s)) (hc_host_world s))
    (hc_peers s);
}.

Lemma host_default_inv : host_inv host_match_default.
Proof. by split. Qed.

(** Only the peers changed, and each of them lawfully. *)
Lemma host_inv_peers s peers :
  host_inv s -> (hc_peers s = ∅ -> peers = ∅) ->
  Z.of_nat (size peers) <= MAX_SESSION_MEMBERS ->
  map_Forall (fun _ => peer_inv (mk_match_epoch (hc_match_key s)) (hc_host_world s)) peers ->
  host_inv (set_host_peers s peers).
Proof.
  intros [] He Hs Hp. split; cbn; try done.
  intros Ho Hn. destruct (hi_empty0 Ho Hn) as (? & ? & ?). auto.
Qed.

Lemma host_inv_insert s m p p' :
  host_inv s -> hc_peers s !! m = Some p ->
  peer_inv (mk_match_epoch (hc_match_key s)) (hc_host_world s) p' ->
  host_inv (set_host_peers s (<[m := p']> (hc_peers s))).
Proof.
  intros Hs Hm Hp. apply host_inv_peers; [done| | |].
  - intros He. rewrite He in Hm. by rewrite lookup_empty in Hm.
  - rewrite map_size_insert_Some by eauto. by apply hi_size.
  - apply map_Forall_insert_2; [done|by apply hi_peers].
Qed.

Lemma ready_effect_inv k w m p :
  peer_inv (mk_match_epoch k) None p ->
  epoch_applies (hw_epoch w) (mk_match_epoch k) = true ->
  peer_inv (mk_match_epoch k) (Some w) (peer_ready_effect k w m p).1.
Proof.
  intros [Hst Hl _] Hw. unfold peer_ready_effect.
  assert (Hend : ~ pending p -> peer_inv (mk_match_epoch k) (Some w) p) by by intros Hn; split.
  destruct (pa_phase p) eqn:Ep; try (cbn [fst]; apply Hend; unfold pending; rewrite Ep; tauto).
  all: destruct (pa_map_loaded p) as [l|] eqn:El; [|cbn [fst]; by split; [done|intros; congruence..]].
  all: rewrite (Hl l eq_refl); cbn [negb].
  all: destruct (world_mismatch w l) eqn:Em; cbn [fst].
  all: split; cbn; rewrite ?El; try done; try (intros l0 [= <-]; by apply Hl).
  all: by intros ? ? [= <-] [= <-].
Qed.

Lemma peer_inv_forget epoch world p : peer_inv epoch world p -> peer_inv epoch None p.
Proof. intros []. by split. Qed.

Lemma add_waiting_all now l acc m :
  foldl (add_waiting now) acc l !! m =
  match acc !! m with
  | Some p => Some p
  | None => if decide (m ∈ l) then Some (mkPeerAdm Waiting None (Some now) None) else None
  end.
Proof.
  induction l as [|x l IH] in acc |- *; cbn [foldl].
  - rewrite decide_False by apply not_elem_of_nil. by destruct (acc !! m).
  - rewrite IH. unfold add_waiting. destruct (acc !! x) as [px|] eqn:Ex.
    + destruct (acc !! m) eqn:Em; [done|].
      destruct (decide (m ∈ l)), (decide (m ∈ x :: l)) as [H|H]; try done; exfalso.
      * apply H. by right.
      * apply elem_of_cons in H as [->|]; [congruence|done].
    + destruct (decide (x = m)) as [->|Hne].
      * rewrite lookup_insert_eq, Ex, decide_True by by left. done.
      * rewrite lookup_insert_ne by done. destruct (acc !! m); [done|].
        destruct (decide (m ∈ l)), (decide (m ∈ x :: l)) as [H|H]; try done; exfalso.
        -- apply H. by right.
        -- apply elem_of_cons in H as [->|]; done.
Qed.

(** A roster keeps exactly the peers on it. *)
Lemma apply_roster_spec peers members now :
  (forall m, apply_roster peers members now !! m =
     if decide (m ∈ members)
     then Some (default (mkPeerAdm Waiting None (Some now) None) (peers !! m)) else None).
Proof.
  intros m. unfold apply_roster.
  set (kept := filter (fun e => bool_decide (e.1 ∈ members) = true) peers).
  assert (Hkept : kept !! m = if decide (m ∈ members) then peers !! m else None).
  { unfold kept. destruct (decide (m ∈ members)) as [Hm|Hm].
    - destruct (peers !! m) as [p|] eqn:E.
      + apply map_lookup_filter_Some. split; [done|]. cbn. by rewrite bool_decide_eq_true_2.
      + apply map_lookup_filter_None. by left.
    - apply map_lookup_filter_None. right. intros p _. cbn. by rewrite bool_decide_eq_false_2. }
  rewrite add_waiting_all, Hkept. destruct (decide (m ∈ members)).
  - by destruct (peers !! m).
  - done.
Qed.

Lemma size_list_to_set_le (l : list MemberId) : (size (list_to_set l : gset MemberId) <= length l)%nat.
Proof.
  induction l as [|x l IH].
  - rewrite list_to_set_nil, size_empty. simpl. lia.
  - rewrite list_to_set_cons, size_union_alt, size_singleton. simpl.
    pose proof (subseteq_size (list_to_set l ∖ {[x]}) (list_to_set l : gset MemberId) ltac:(set_solver)). lia.
Qed.

Lemma apply_roster_size peers members now :
  (size (apply_roster peers members now) <= length members)%nat.
Proof.
  rewrite <- size_dom. transitivity (size (list_to_set members : gset MemberId)).
  - apply subseteq_size. intros m [p Hp]%elem_of_dom. rewrite apply_roster_spec in Hp.
    destruct (decide (m ∈ members)); [by apply elem_of_list_to_set|done].
  - apply size_list_to_set_le.
Qed.

(** Failing a list of peers. *)
Lemma fail_peers_lookup l peers m :
  foldl fail_peer peers l !! m =
  (if decide (m ∈ l) then fun p => set_peer_phase p PeerFailed else id) <$> peers !! m.
Proof.
  induction l as [|x l IH] in peers |- *; cbn [foldl].
  { rewrite decide_False by apply not_elem_of_nil. by rewrite option_fmap_id. }
  rewrite IH. unfold fail_peer. destruct (decide (x = m)) as [->|Hne].
  - rewrite (decide_True (P := m ∈ m :: l)) by by left.
    destruct (peers !! m) eqn:E; rewrite ?lookup_insert_eq, ?E; [|done].
    by destruct (decide (m ∈ l)).
  - assert (Hlook : (match peers !! x with
                     | Some p => <[x := set_peer_phase p PeerFailed]> peers
                     | None => peers end) !! m = peers !! m).
    { destruct (peers !! x); [by rewrite lookup_insert_ne|done]. }
    rewrite Hlook. destruct (decide (m ∈ l)), (decide (m ∈ x :: l)) as [H|H]; try done; exfalso.
    + apply H. by right.
    + apply elem_of_cons in H as [->|]; done.
Qed.

Lemma fail_peers_size l peers : size (foldl fail_peer peers l) = size peers.
Proof.
  rewrite <- !size_dom. f_equal. apply set_eq. intros m.
  rewrite !elem_of_dom, fail_peers_lookup. by rewrite fmap_is_Some.
Qed.

Lemma ready_peers_lookup k w peers m :
  (ready_peers k w peers).1 !! m = (fun p => (peer_ready_effect k w m p).1) <$> peers !! m.
Proof. unfold ready_peers. cbn [fst]. rewrite map_lookup_imap. by destruct (peers !! m). Qed.

Lemma ready_peers_size k w peers : size (ready_peers k w peers).1 = size peers.
Proof.
  rewrite <- !size_dom. f_equal. apply set_eq. intros m.
  rewrite !elem_of_dom, ready_peers_lookup. by rewrite fmap_is_Some.
Qed.

Section Invariant.
Context (limits : TransportBudget).

Ltac host_cases :=
  repeat match goal with
  | |- context [if ?b then _ else _] => let E := fresh "E" in destruct b eqn:E
  | |- context [match ?o with Some _ => _ | None => _ end] =>
      let E := fresh "E" in destruct o eqn:E
  end.

Lemma peer_inv_phase epoch world p phase :
  peer_inv epoch world p -> (pending p -> True) ->
  (pending (set_peer_phase p phase) -> pending p) -> peer_inv epoch world (set_peer_phase p phase).
Proof. intros [? ? ?] _ Hp. split; cbn; eauto. Qed.

Lemma start_inv s k now : host_inv s -> hc_session_open s = true -> host_inv (apply_start s k now).1.
Proof.
  intros Hs Ho. unfold apply_start, reject, finish. host_cases; cbn [fst]; try done.
  split; cbn; try done; congruence.
Qed.

Lemma roster_inv s k members now :
  host_inv s -> hc_session_open s = true -> host_inv (apply_peer_roster s k members now).1.
Proof.
  intros Hs Ho. unfold apply_peer_roster, reject, finish. host_cases; cbn [fst]; [done|].
  apply orb_false_iff in E as [E Hlen]. apply orb_false_iff in E as [_ Hlive].
  apply negb_false_iff in Hlive. apply Z.ltb_ge in Hlen. destruct Hs. split; cbn; try done.
  - intros _ Hn. by rewrite Hn in Hlive.
  - pose proof (apply_roster_size (hc_peers s) members now). unfold zlen in Hlen. lia.
  - intros m p Hp. rewrite apply_roster_spec in Hp. destruct (decide (m ∈ members)); [|done].
    injection Hp as <-. destruct (hc_peers s !! m) as [p|] eqn:Em; cbn [default].
    + by apply (hi_peers0 m).
    + by split.
Qed.

Lemma authority_ready_inv s w now :
  host_inv s -> hc_session_open s = true -> host_inv (apply_authority_ready s w now).1.
Proof.
  intros Hs Ho. unfold apply_authority_ready, reject, finish.
  destruct (negb _) eqn:Ew; [done|]. destruct (negb (phase_live _)) eqn:Elive; [done|].
  apply negb_false_iff in Ew, Elive.
  set (started := if bool_decide (hc_phase s = PhaseLoading) then _ else hc_peers s).
  destruct (ready_peers (hc_match_key s) w started) as [peers effects] eqn:Er. cbn [fst].
  assert (Hsize : size started = size (hc_peers s)).
  { unfold started. case_bool_decide; [|done]. by rewrite map_size_fmap. }
  assert (Hstarted : map_Forall (fun _ => peer_inv (mk_match_epoch (hc_match_key s)) None) started).
  { intros m p Hm. unfold started in Hm. pose proof (hi_peers _ Hs) as Hp.
    case_bool_decide.
    - apply lookup_fmap_Some in Hm as (p0 & <- & Hm). destruct (Hp m p0 Hm) as [? Hl ?].
      split; cbn; [done|exact Hl|done].
    - eapply peer_inv_forget, Hp, Hm. }
  assert (Hpeers : peers = (ready_peers (hc_match_key s) w started).1) by by rewrite Er.
  destruct Hs. split; cbn; try done.
  - case_bool_decide; [done|]. exact hi_phase0.
  - intros _. by apply hi_key0.
  - case_bool_decide as Hl; [done|]. intros H. by rewrite H in Hl.
  - intros _. eauto.
  - intros H. congruence.
  - intros _. case_bool_decide as Hl; [done|]. by apply hi_watch0.
  - intros _. case_bool_decide as Hl; [done|]. intros H. by rewrite H in Elive.
  - subst peers. by rewrite ready_peers_size, Hsize.
  - subst peers. intros m p Hm. rewrite ready_peers_lookup in Hm.
    apply fmap_Some in Hm as (p0 & Hm & ->). apply ready_effect_inv; [|done]. by apply (Hstarted m).
Qed.

Lemma map_loaded_inv s m l now :
  host_inv s -> hc_session_open s = true -> host_inv (apply_map_loaded s m l now).1.
Proof.
  intros Hs Ho. unfold apply_map_loaded, reject, finish.
  destruct (negb _ || negb _) eqn:E; [done|]. apply orb_false_iff in E as [El _].
  apply negb_false_iff in El.
  destruct (hc_peers s !! m) as [p|] eqn:Em; [|done].
  set (started := if _ && _ then Some now else pa_started_at p).
  assert (Hstarted : started <> None).
  { unfold started. destruct (_ && _); [done|]. exact (pi_started _ _ _ (hi_peers _ Hs m p Em)). }
  assert (Hp' : peer_inv (mk_match_epoch (hc_match_key s)) None
                  (mkPeerAdm (pa_phase p) (Some l) started (pa_connection_id p))).
  { split; cbn; [done|by intros l0 [= <-]|done]. }
  assert (Hgo : forall peer effect,
    match hc_host_world s with
    | Some host => peer_ready_effect (hc_match_key s) host m
        (mkPeerAdm (pa_phase p) (Some l) started (pa_connection_id p))
    | None => (mkPeerAdm (pa_phase p) (Some l) started (pa_connection_id p), None)
    end = (peer, effect) ->
    host_inv (set_host_peers s (<[m := peer]> (hc_peers s)))).
  { intros peer effect Heq. eapply host_inv_insert; [done..|].
    destruct (hc_host_world s) as [w|] eqn:Ew.
    - assert (peer = (peer_ready_effect (hc_match_key s) w m
        (mkPeerAdm (pa_phase p) (Some l) started (pa_connection_id p))).1) as -> by by rewrite Heq.
      apply ready_effect_inv; [done|].
      destruct (hc_phase s) eqn:Eph.
      + destruct (hi_empty _ Hs Ho Eph) as (H & _). rewrite H in Em. by rewrite lookup_empty in Em.
      + destruct (hi_loading _ Hs Eph) as [H _]. congruence.
      + destruct (hi_running _ Hs Eph) as (w' & H & ? & _). by rewrite Ew in H; injection H as <-.
      + by destruct (hi_phase _ Hs).
    - by injection Heq as <- _. }
  destruct (pa_phase p); try done.
  all: destruct (match hc_host_world s with Some _ => _ | None => _ end) as [peer effect] eqn:Heq;
    cbn [fst]; by eapply Hgo.
Qed.

Lemma bootstrap_prepared_inv s k m b c :
  host_inv s -> hc_session_open s = true -> host_inv (apply_bootstrap_prepared s k m b c).1.
Proof.
  intros Hs Ho. unfold apply_bootstrap_prepared, reject, finish.
  destruct (negb _ || _ || _); [done|]. destruct (hc_peers s !! m) as [p|] eqn:Em; [|done].
  destruct (hi_peers _ Hs m p Em) as [? Hl Hsame].
  destruct (pa_phase p) eqn:Ep; try done; cbn [fst]; (eapply host_inv_insert; [done..|]);
    (split; cbn; [done|done|intros w l ? ? _; apply Hsame; [done..|unfold pending; by rewrite Ep]]).
Qed.

Lemma applied_inv s k m b c :
  host_inv s -> hc_session_open s = true -> host_inv (apply_applied s k m b c).1.
Proof.
  intros Hs Ho. unfold apply_applied, reject, finish.
  destruct (negb _ || _); [done|]. destruct (negb _); [done|].
  destruct (hc_peers s !! m) as [p|] eqn:Em; [|done].
  destruct (match pa_connection_id p with Some _ => _ | None => _ end); [done|].
  destruct (applied_repeat _ _); [|done].
  cbn [fst]. destruct (hi_peers _ Hs m p Em) as [? Hl Hsame].
  eapply host_inv_insert; [done..|]. by split.
Qed.

Lemma host_apply_inv s event : host_inv s -> host_inv (host_apply limits s event).1.
Proof.
  intros Hs. unfold host_apply. destruct (hc_session_open s) eqn:Ho; cbn [negb]; [|done].
  destruct event as [k now|k ms now|w now|now|m l now|k m b c|k m b c|k|m| |now].
  - by apply start_inv.
  - by apply roster_inv.
  - by apply authority_ready_inv.
  - unfold finish. cbn [fst]. case_bool_decide as Hr; [|done]. destruct Hs. split; cbn; try done.
    intros Hop. unfold watch_beat. destruct (_ <? _); cbn; by apply hi_watch0.
  - by apply map_loaded_inv.
  - by apply bootstrap_prepared_inv.
  - by apply applied_inv.
  - unfold apply_match_ended, reject, finish. destruct (_ || _); [done|]. cbn [fst].
    split; cbn; try done; congruence.
  - unfold apply_peer_cancelled, finish. cbn [fst].
    destruct (hc_peers s !! m) as [p|] eqn:Em.
    + eapply host_inv_insert; [done..|]. destruct (hi_peers _ Hs m p Em). by split.
    + apply host_inv_peers; [done..|apply hi_size, Hs|apply hi_peers, Hs].
  - unfold finish. cbn [fst]. destruct Hs. split; cbn; try done.
  - unfold apply_tick, finish. cbn [fst].
    apply host_inv_peers; [done| | |].
    + intros He. apply map_eq. intros m. rewrite fail_peers_lookup, He. by rewrite lookup_empty.
    + rewrite fail_peers_size. apply hi_size, Hs.
    + intros m p Hm. rewrite fail_peers_lookup in Hm. apply fmap_Some in Hm as (p0 & Hm & ->).
      pose proof (hi_peers _ Hs m p0 Hm) as Hp. destruct (decide _); [|done].
      destruct Hp. by split.
Qed.

Lemma host_op_inv s op : host_inv s -> host_inv (host_op limits s op).
Proof. destruct op; [apply host_apply_inv|by intros [] ..]. Qed.

Lemma host_run_inv s ops : host_inv s -> host_inv (host_run limits s ops).
Proof.
  induction ops as [|op ops IH] in s |- *; [done|]. intros Hs. apply IH. by apply host_op_inv.
Qed.

(** Whatever the game tells a host, its match stays consistent: a running match has a world
    of its epoch, a loading one has none, a closed or ended session has no match; the progress
    watch follows the phase; no more peers than a session holds; every peer has a start time,
    a loaded map of this match, and as long as it is waited for, the host's world; and a refused
    event changes nothing and owes nobody anything. *)
Theorem host_match_inv ops :
  let s := host_run limits host_match_default ops in
  host_inv s /\
  forall event, hm_accepted (host_apply limits s event).2 = false ->
    (host_apply limits s event).1 = s /\ hm_effects (host_apply limits s event).2 = [].
Proof.
  split; [apply host_run_inv, host_default_inv|].
  intros event. unfold host_apply, apply_start, apply_peer_roster, apply_authority_ready,
    apply_map_loaded, apply_bootstrap_prepared, apply_applied, apply_match_ended,
    apply_peer_cancelled, apply_tick, reject, finish.
  destruct event; host_cases; cbn [fst snd hm_accepted hm_effects];
    repeat match goal with |- context [let '(_, _) := ?x in _] => destruct x end;
    try done; repeat match goal with |- context [match ?x with _ => _ end] => destruct x end; done.
Qed.

(** ** What a flush and an entry stand for *)

Lemma world_mismatch_none w l :
  world_mismatch w l = None ->
  hw_map w = hw_map l /\ hw_weapons w = hw_weapons l /\ hw_classes w = hw_classes l.
Proof.
  unfold world_mismatch. destruct (Z.eqb_spec (hw_map w) (hw_map l)); [|done].
  destruct (Z.eqb_spec (hw_weapons w) (hw_weapons l)); [|done].
  by destruct (Z.eqb_spec (hw_classes w) (hw_classes l)).
Qed.

Lemma epoch_applies_eq a b : epoch_applies a b = true -> a = b.
Proof. unfold epoch_applies. intros [_ ?%Z.eqb_eq]%andb_true_iff. done. Qed.

Lemma ready_effect_cases k w m p e :
  (peer_ready_effect k w m p).2 = Some e ->
  pending p /\ exists l, pa_map_loaded p = Some l /\ epoch_applies (hw_epoch l) (mk_match_epoch k) = true /\
  match world_mismatch w l with
  | None => e = FlushBootstraps m /\ (peer_ready_effect k w m p).1 = p
  | Some reason => e = CancelPeer m reason k
  end.
Proof.
  unfold peer_ready_effect, pending. destruct (pa_phase p); try done.
  all: destruct (pa_map_loaded p) as [l|]; [|done].
  all: destruct (epoch_applies _ _) eqn:E; cbn [negb]; [|done].
  all: destruct (world_mismatch w l) eqn:Em; cbn [fst snd]; intros [= <-].
  all: (split; [done|]); exists l; rewrite Em; done.
Qed.

Lemma ready_effect_flush k w m0 p m :
  (peer_ready_effect k w m0 p).2 = Some (FlushBootstraps m) -> m0 = m.
Proof.
  intros (_ & l & _ & _ & Hc)%ready_effect_cases. destruct (world_mismatch w l); [done|].
  by destruct Hc as [[= ->] _].
Qed.

Lemma ready_effect_no_enter k w m0 p m b k' :
  (peer_ready_effect k w m0 p).2 <> Some (Enter m b k').
Proof.
  intros (_ & l & _ & _ & Hc)%ready_effect_cases. destruct (world_mismatch w l); [done|].
  by destruct Hc.
Qed.

Ltac no_effect := let H := fresh in intros H; by apply not_elem_of_nil in H.

(** Where a [FlushBootstraps] comes from: [peer_ready_effect] on the peer of the roster. *)
Lemma flush_origin s event m :
  let r := host_apply limits s event in
  FlushBootstraps m ∈ hm_effects r.2 ->
  hc_session_open s = true /\ phase_live (hc_phase s) = true /\ hc_match_key r.1 = hc_match_key s /\
  exists p p0 w, hc_peers s !! m = Some p /\ pa_phase p0 = pa_phase p /\ hc_host_world r.1 = Some w /\
    (peer_ready_effect (hc_match_key s) w m p0).2 = Some (FlushBootstraps m) /\
    hc_peers r.1 !! m = Some (peer_ready_effect (hc_match_key s) w m p0).1 /\
    (hc_phase r.1 = PhaseRunning \/ (hc_phase r.1 = hc_phase s /\ hc_host_world s = Some w)).
Proof.
  cbn zeta. unfold host_apply. destruct (hc_session_open s) eqn:Ho; cbn [negb]; [|no_effect].
  destruct event as [k now|k ms now|w now|now|m' l now|k m' b c|k m' b c|k|m'| |now].
  1,2,4,6-11: intros Hin; exfalso; revert Hin;
    unfold apply_start, apply_peer_roster, apply_bootstrap_prepared, apply_applied,
      apply_match_ended, apply_peer_cancelled, apply_tick, tick_failure, reject, finish;
    repeat match goal with |- context [match ?x with _ => _ end] => destruct x end;
    cbn [snd hm_effects app]; rewrite ?elem_of_cons, ?list_elem_of_fmap; set_solver.
  - unfold apply_authority_ready, reject, finish. destruct (negb _); [no_effect|].
    destruct (negb (phase_live _)) eqn:El; [no_effect|]. apply negb_false_iff in El.
    set (started := if bool_decide (hc_phase s = PhaseLoading) then _ else hc_peers s).
    destruct (ready_peers (hc_match_key s) w started) as [peers effects] eqn:Er.
    cbn [fst snd hm_effects hc_phase hc_match_key hc_host_world hc_peers set_match].
    assert (Hp : peers = (ready_peers (hc_match_key s) w started).1) by by rewrite Er.
    assert (effects = (ready_peers (hc_match_key s) w started).2) as -> by by rewrite Er.
    intros ([m0 p0] & Hin & He)%list_elem_of_omap. cbn [fst snd] in He.
    apply ready_effect_flush in He as He'. subst m0. apply elem_of_map_to_list in Hin.
    assert (Hq : exists p, hc_peers s !! m = Some p /\ pa_phase p0 = pa_phase p).
    { unfold started in Hin. case_bool_decide; [|eauto].
      apply lookup_fmap_Some in Hin as (p & <- & Hp1). eauto. }
    destruct Hq as (p & Hps & Hph). split_and!; [done..|]. exists p, p0, w. split_and!; [done..| |].
    + by rewrite Hp, ready_peers_lookup, Hin.
    + left. case_bool_decide; [done|]. by destruct (hc_phase s).
  - unfold apply_map_loaded, reject, finish. destruct (negb _ || negb _) eqn:E; [no_effect|].
    apply orb_false_iff in E as [_ Hlive]. apply negb_false_iff in Hlive.
    destruct (hc_peers s !! m') as [p|] eqn:Em; [|no_effect].
    set (started := if _ && _ then Some now else pa_started_at p).
    destruct (hc_host_world s) as [w|] eqn:Ew; [|destruct (pa_phase p); no_effect].
    destruct (pa_phase p) eqn:Ep; try no_effect.
    all: set (p0 := mkPeerAdm _ (Some l) started _);
      destruct (peer_ready_effect (hc_match_key s) w m' p0) as [peer effect] eqn:Heq;
      cbn [fst snd hm_effects set_host_peers hc_phase hc_match_key hc_host_world hc_peers set_match];
      intros Hin; destruct effect as [e|]; [|by apply not_elem_of_nil in Hin];
      apply list_elem_of_singleton in Hin; subst e;
      assert (Heff : (peer_ready_effect (hc_match_key s) w m' p0).2 = Some (FlushBootstraps m))
        by (by rewrite Heq);
      apply ready_effect_flush in Heff as He'; subst m';
      (split_and!; [done..|]); exists p, p0, w;
      (split_and!; [done|by rewrite Ep|done|done|by rewrite lookup_insert_eq, Heq|by right]).
Qed.

(** C36. The host flushes bootstraps only to a peer of the running match that is still waited for
    and has loaded exactly the host's world (epoch, map, weapons and classes). *)
Theorem flush_means_same_world ops event m :
  let s := host_run limits host_match_default ops in
  let r := host_apply limits s event in
  FlushBootstraps m ∈ hm_effects r.2 ->
  hc_phase r.1 = PhaseRunning /\
  exists p l, hc_peers r.1 !! m = Some p /\ pending p /\ pa_map_loaded p = Some l /\
    map_loaded_matches_host (mk_match_epoch (hc_match_key r.1)) (hc_host_world r.1) l = true.
Proof.
  intros s r Hin.
  pose proof (host_run_inv host_match_default ops host_default_inv) as Hs. fold s in Hs.
  pose proof (host_apply_inv s event Hs) as Hr. fold r in Hr.
  apply flush_origin in Hin as (_ & Hlive & Hk & p & p0 & w & _ & _ & Hw & Heff & Hp & Hphase).
  fold r in Hk, Hw, Hp, Hphase.
  assert (Hrun : hc_phase r.1 = PhaseRunning).
  { destruct Hphase as [|[Hsame Hws]]; [done|]. rewrite Hsame. destruct (hc_phase s) eqn:Eph; try done.
    destruct (hi_loading _ Hs Eph). congruence. }
  split; [done|]. apply ready_effect_cases in Heff as (Hpend & l & Hl & Hep & Hcase).
  destruct (world_mismatch w l) eqn:Em; [done|]. destruct Hcase as [_ Hsame]. rewrite Hsame in Hp.
  exists p0, l. split_and!; [done..|]. rewrite Hw, Hk. unfold map_loaded_matches_host.
  destruct (hi_running _ Hr Hrun) as (w' & Hw' & Hwe & _). rewrite Hw in Hw'. injection Hw' as <-.
  rewrite Hk in Hwe. rewrite Hep, Hwe. apply bool_decide_eq_true_2.
  apply world_mismatch_none in Em as (? & ? & ?). apply epoch_applies_eq in Hep, Hwe.
  destruct w, l; cbn in *; congruence.
Qed.

(** ** Entering *)

(** Match [k] is live and peer [m] has bootstrap [b], applied or not. *)
Definition syncing (k : MatchKey) (m : MemberId) (b : Z) (s : HostMatchCore) : Prop :=
  hc_session_open s = true /\ phase_live (hc_phase s) = true /\ hc_match_key s = k /\
  exists p, hc_peers s !! m = Some p /\ (pa_phase p = Syncing b \/ pa_phase p = PeerAdmitted b).

Lemma ready_effect_phase k w m p b :
  pa_phase (peer_ready_effect k w m p).1 = Syncing b \/ pa_phase (peer_ready_effect k w m p).1 = PeerAdmitted b ->
  pa_phase p = Syncing b \/ pa_phase p = PeerAdmitted b.
Proof.
  unfold peer_ready_effect. destruct (pa_phase p) eqn:E; cbn [fst]; rewrite ?E; auto.
  all: destruct (pa_map_loaded p); cbn [fst]; rewrite ?E; auto.
  all: destruct (negb _); cbn [fst]; rewrite ?E; auto.
  all: destruct (world_mismatch _ _); cbn [fst]; rewrite ?E; auto; by intros [?|?].
Qed.

Lemma syncing_map_loaded s m0 l now k m b :
  syncing k m b (apply_map_loaded s m0 l now).1 -> syncing k m b s.
Proof.
  unfold apply_map_loaded, reject, finish. destruct (_ || _); [done|].
  destruct (hc_peers s !! m0) as [p|] eqn:Em; [|done].
  set (started := if _ && _ then Some now else pa_started_at p).
  assert (Hgo : forall peer effect,
    match hc_host_world s with
    | Some host => peer_ready_effect (hc_match_key s) host m0
        (mkPeerAdm (pa_phase p) (Some l) started (pa_connection_id p))
    | None => (mkPeerAdm (pa_phase p) (Some l) started (pa_connection_id p), None)
    end = (peer, effect) ->
    syncing k m b (set_host_peers s (<[m0 := peer]> (hc_peers s))) -> syncing k m b s).
  { intros peer effect Heq (Ho & Hl & Hk & q & Hq & Hph). cbn in *. split_and!; [done..|].
    destruct (decide (m0 = m)) as [->|Hne].
    - rewrite lookup_insert_eq in Hq. injection Hq as <-. exists p. split; [done|].
      destruct (hc_host_world s) as [w|].
      + apply (f_equal fst) in Heq. cbn [fst] in Heq. subst peer.
        by apply (ready_effect_phase _ _ _ _ _ Hph).
      + injection Heq as <- _. exact Hph.
    - rewrite lookup_insert_ne in Hq by done. eauto. }
  destruct (pa_phase p); try done.
  all: destruct (match hc_host_world s with Some _ => _ | None => _ end) as [peer effect] eqn:Heq;
    cbn [fst]; by eapply Hgo.
Qed.

Lemma syncing_authority_ready s w now k m b :
  syncing k m b (apply_authority_ready s w now).1 -> syncing k m b s.
Proof.
  unfold apply_authority_ready, reject, finish. destruct (negb _); [done|].
  destruct (negb (phase_live _)) eqn:El; [done|]. apply negb_false_iff in El.
  set (started := if bool_decide (hc_phase s = PhaseLoading) then _ else hc_peers s).
  destruct (ready_peers (hc_match_key s) w started) as [peers effects] eqn:Er. cbn [fst].
  apply (f_equal fst) in Er. cbn [fst] in Er. subst peers.
  intros (Ho & _ & Hk & q & Hq & Hph).
  cbn [hc_session_open hc_match_key hc_phase hc_peers set_match] in *. split_and!; [done..|].
  rewrite ready_peers_lookup in Hq. apply fmap_Some in Hq as (p0 & Hp0 & ->).
  apply ready_effect_phase in Hph. unfold started in Hp0. case_bool_decide; [|eauto].
  apply lookup_fmap_Some in Hp0 as (p1 & <- & Hp1). eauto.
Qed.

Lemma applied_repeat_some phase b r :
  applied_repeat phase b = Some r -> phase = Syncing b \/ phase = PeerAdmitted b.
Proof.
  unfold applied_repeat. destruct phase as [|b'|b'| |]; try done; destruct (Z.eqb_spec b' b) as [->|]; auto.
  all: done.
Qed.

(** Only a prepared bootstrap starts a synchronisation. *)
Lemma syncing_step s event k m b :
  syncing k m b (host_apply limits s event).1 ->
  syncing k m b s \/
  (hm_accepted (host_apply limits s event).2 = true /\ exists c, event = HostBootstrapPrepared k m b c).
Proof.
  unfold host_apply. destruct (hc_session_open s) eqn:Ho; cbn [negb]; [|by left].
  destruct event as [k' now|k' ms now|w now|now|m' l now|k' m' b' c|k' m' b' c|k'|m'| |now].
  - unfold apply_start, reject, finish. destruct (key_is_none k'); [by left|].
    destruct (_ && _); [by left|]. destruct (_ && _); [by left|]. intros (_ & _ & _ & p & Hp & _). done.
  - unfold apply_peer_roster, reject, finish. destruct (_ || _ || _); [by left|].
    intros (? & ? & ? & p & Hp & Hph). left. cbn in *. split_and!; [done..|].
    rewrite apply_roster_spec in Hp. destruct (decide _); [|done]. injection Hp as <-.
    destruct (hc_peers s !! m) as [p|]; [|by destruct Hph]. eauto.
  - intros H. left. by apply syncing_authority_ready in H.
  - unfold finish. intros H. left. cbn [fst] in H. by case_bool_decide.
  - intros H. left. by apply syncing_map_loaded in H.
  - unfold apply_bootstrap_prepared, reject, finish.
    destruct (bool_decide (k' = hc_match_key s)) eqn:Ek; cbn [negb orb]; [|by left].
    apply bool_decide_eq_true in Ek. destruct (key_is_none k' || _) eqn:E; [by left|].
    apply orb_false_iff in E as [_ El]. apply negb_false_iff in El.
    destruct (hc_peers s !! m') as [p|] eqn:Em; [|by left].
    destruct (pa_phase p) eqn:Ep; try (by left).
    all: intros (_ & _ & Hk & q & Hq & Hph); cbn in *;
      destruct (decide (m' = m)) as [->|Hne];
      [ rewrite lookup_insert_eq in Hq; injection Hq as <-; cbn in Hph; right; split; [done|];
        exists c; destruct Hph as [[= ->]|?]; [by subst|done]
      | rewrite lookup_insert_ne in Hq by done; left; by repeat split; eauto ].
  - unfold apply_applied, reject, finish. destruct (negb _ || _); [by left|].
    destruct (negb (phase_live _)) eqn:El; [by left|]. apply negb_false_iff in El.
    destruct (hc_peers s !! m') as [p|] eqn:Em; [|by left].
    destruct (match pa_connection_id p with Some _ => _ | None => _ end); [by left|].
    destruct (applied_repeat (pa_phase p) _) eqn:Erep; [|by left].
    intros (_ & _ & Hk & q & Hq & Hph). left. cbn in *. split_and!; [done..|].
    destruct (decide (m' = m)) as [->|Hne]; [|rewrite lookup_insert_ne in Hq by done; eauto].
    rewrite lookup_insert_eq in Hq. injection Hq as <-. cbn in Hph. exists p. split; [done|].
    destruct Hph as [?|[= ->]]; [done|]. by eapply applied_repeat_some.
  - unfold apply_match_ended, reject, finish. destruct (_ || _); [by left|].
    by intros (_ & ? & _).
  - unfold apply_peer_cancelled, finish. intros (? & ? & ? & q & Hq & Hph). left. cbn in *.
    split_and!; [done..|]. destruct (hc_peers s !! m') as [p|] eqn:Em; [|eauto].
    destruct (decide (m' = m)) as [->|Hne]; [|rewrite lookup_insert_ne in Hq by done; eauto].
    rewrite lookup_insert_eq in Hq. injection Hq as <-. by destruct Hph.
  - by intros (? & _).
  - unfold apply_tick, finish. intros (? & ? & ? & q & Hq & Hph). left. cbn in *.
    split_and!; [done..|]. rewrite fail_peers_lookup in Hq. apply fmap_Some in Hq as (p & Hp & ->).
    destruct (decide _); [by destruct Hph|eauto].
Qed.

(** The bootstrap a synchronisation goes back to. *)
Lemma syncing_origin ops k m b :
  syncing k m b (host_run limits host_match_default ops) ->
  exists ops1 c ops2, ops = ops1 ++ OpEvent (HostBootstrapPrepared k m b c) :: ops2 /\
    hm_accepted (host_apply limits (host_run limits host_match_default ops1)
                   (HostBootstrapPrepared k m b c)).2 = true /\
    forall rest, rest `prefix_of` ops2 ->
      syncing k m b (host_run limits host_match_default
                       (ops1 ++ OpEvent (HostBootstrapPrepared k m b c) :: rest)).
Proof.
  induction ops as [|op ops IH] using rev_ind; intros Hs.
  { destruct Hs as (_ & ? & _). done. }
  pose proof Hs as Hs'. unfold host_run in Hs. rewrite foldl_snoc in Hs.
  change (foldl (host_op limits) host_match_default ops) with (host_run limits host_match_default ops) in Hs.
  assert (Hold : syncing k m b (host_run limits host_match_default ops) \/
    exists c, op = OpEvent (HostBootstrapPrepared k m b c) /\
      hm_accepted (host_apply limits (host_run limits host_match_default ops)
                     (HostBootstrapPrepared k m b c)).2 = true).
  { destruct op as [event|n|n]; [|by left..].
    apply syncing_step in Hs as [?|(? & c & ->)]; [by left|right; eauto]. }
  destruct Hold as [Hold|(c & -> & Hacc)].
  - destruct (IH Hold) as (ops1 & c & ops2 & -> & Hacc & Hpre).
    exists ops1, c, (ops2 ++ [op]). rewrite <- app_assoc. split_and!; [done..|].
    intros rest [tail Htail]. destruct tail as [|x tail _] using rev_ind.
    + rewrite app_nil_r in Htail. subst rest. by rewrite <- app_assoc in Hs'.
    + rewrite app_assoc in Htail. apply app_inj_tail in Htail as [-> _]. apply Hpre. by exists tail.
  - exists ops, c, []. split_and!; [done..|]. intros rest Hrest%prefix_nil_inv. by subst.
Qed.

(** Where an [Enter] comes from. *)
Lemma enter_origin s event m b k :
  Enter m b k ∈ hm_effects (host_apply limits s event).2 ->
  syncing k m b s /\ exists c p, event = HostApplied k m b c /\ hc_peers s !! m = Some p /\
    (pa_phase p = Syncing b \/ pa_phase p = PeerAdmitted b) /\
    forall x, pa_connection_id p = Some x -> c = Some x.
Proof.
  unfold host_apply. destruct (hc_session_open s) eqn:Ho; cbn [negb]; [|no_effect].
  destruct event as [k' now|k' ms now|w now|now|m' l now|k' m' b' c|k' m' b' c|k'|m'| |now].
  1,2,4,6,8-11: intros Hin; exfalso; revert Hin;
    unfold apply_start, apply_peer_roster, apply_bootstrap_prepared, apply_match_ended,
      apply_peer_cancelled, apply_tick, tick_failure, reject, finish;
    repeat match goal with |- context [match ?x with _ => _ end] => destruct x end;
    cbn [snd hm_effects app]; rewrite ?elem_of_cons, ?list_elem_of_fmap; set_solver.
  - unfold apply_authority_ready, reject, finish. destruct (negb _); [no_effect|].
    destruct (negb _); [no_effect|].
    destruct (ready_peers _ _ _) as [peers effects] eqn:Er. cbn [snd hm_effects].
    apply (f_equal snd) in Er. cbn [snd] in Er. subst effects. unfold ready_peers. cbn [snd].
    intros ([m0 p0] & _ & He)%list_elem_of_omap. by apply ready_effect_no_enter in He.
  - unfold apply_map_loaded, reject, finish. destruct (_ || _); [no_effect|].
    destruct (hc_peers s !! m') as [p|]; [|no_effect].
    destruct (hc_host_world s) as [w|]; [|destruct (pa_phase p); no_effect].
    destruct (pa_phase p); try no_effect.
    all: destruct (peer_ready_effect _ _ _ _) as [peer effect] eqn:Heq; cbn [snd hm_effects];
      intros Hin; destruct effect as [e|]; [|by apply not_elem_of_nil in Hin];
      apply list_elem_of_singleton in Hin; subst e; apply (f_equal snd) in Heq;
      by apply ready_effect_no_enter in Heq.
  - unfold apply_applied, reject, finish.
    destruct (bool_decide (k' = hc_match_key s)) eqn:Ek; cbn [negb orb]; [|no_effect].
    apply bool_decide_eq_true in Ek. destruct (key_is_none k'); [no_effect|].
    destruct (phase_live (hc_phase s)) eqn:El; cbn [negb]; [|no_effect].
    destruct (hc_peers s !! m') as [p|] eqn:Em; [|no_effect].
    destruct (match pa_connection_id p with Some _ => _ | None => _ end) eqn:Ec; [no_effect|].
    destruct (applied_repeat (pa_phase p) _) eqn:Erep; [|no_effect].
    apply applied_repeat_some in Erep. cbn [snd hm_effects].
    intros [= -> -> ->]%list_elem_of_singleton. split; [split_and!; eauto|].
    exists c, p. split_and!; [done..|]. intros x Hx. rewrite Hx in Ec.
    by apply negb_false_iff, bool_decide_eq_true in Ec.
Qed.

(** A peer enters a match only with the bootstrap prepared for it: whenever the host owes
    [Enter] to [m], the event is the peer's [Applied] of that bootstrap over the connection on
    record, a [BootstrapPrepared] with the same match, peer and bootstrap was accepted before,
    and ever since the match was live and the peer neither dropped, failed nor cancelled. *)
Theorem enter_needs_bootstrap ops event m b k :
  let s := host_run limits host_match_default ops in
  Enter m b k ∈ hm_effects (host_apply limits s event).2 ->
  (exists c, event = HostApplied k m b c /\
     forall p x, hc_peers s !! m = Some p -> pa_connection_id p = Some x -> c = Some x) /\
  exists ops1 c ops2, ops = ops1 ++ OpEvent (HostBootstrapPrepared k m b c) :: ops2 /\
    hm_accepted (host_apply limits (host_run limits host_match_default ops1)
                   (HostBootstrapPrepared k m b c)).2 = true /\
    forall rest, rest `prefix_of` ops2 ->
      syncing k m b (host_run limits host_match_default
                       (ops1 ++ OpEvent (HostBootstrapPrepared k m b c) :: rest)).
Proof.
  intros s (Hsync & c & p & -> & Hp & _ & Hconn)%enter_origin. split; [|by apply syncing_origin].
  exists c. split; [done|]. intros q x Hq. rewrite Hp in Hq. injection Hq as <-. apply Hconn.
Qed.

(** ** Deadlines *)

Lemma expired_members_spec s now m :
  m ∈ expired_members limits s now <->
  hc_phase s = PhaseRunning /\
  exists p, hc_peers s !! m = Some p /\ admission_expired limits now p = true.
Proof.
  unfold expired_members. case_bool_decide as Hr.
  - rewrite list_elem_of_omap. split.
    + intros ([m' p] & Hin & He). cbn [fst snd] in He. apply elem_of_map_to_list in Hin.
      destruct (admission_expired limits now p) eqn:Ep; [|done]. injection He as ->. eauto.
    + intros (_ & p & Hp & He). exists (m, p). cbn [fst snd]. rewrite He.
      by rewrite elem_of_map_to_list.
  - split; [intros H; by apply not_elem_of_nil in H|]. by intros [? _].
Qed.

(** Time limits are kept: after a [Tick] in a running match nobody is still waited for longer
    than the admission limit; the peers that were are failed and cancelled with [Deadline],
    nobody else is; and the tick fails the session exactly when loading or the authority's
    silence has outlasted its limit. *)
Theorem tick_deadlines ops now :
  let s := host_run limits host_match_default ops in
  let r := host_apply limits s (HostTick now) in
  hc_session_open s = true ->
  (hc_phase s = PhaseRunning -> forall m p, hc_peers r.1 !! m = Some p -> pending p ->
     exists t, pa_started_at p = Some t /\ saturating_sub now t < tb_admission limits) /\
  (forall m reason k, CancelPeer m reason k ∈ hm_effects r.2 <->
     reason = AdmDeadline /\ k = hc_match_key s /\ hc_phase s = PhaseRunning /\
     exists p, hc_peers s !! m = Some p /\ admission_expired limits now p = true) /\
  (forall m p, hc_peers s !! m = Some p -> hc_phase s = PhaseRunning ->
     admission_expired limits now p = true ->
     hc_peers r.1 !! m = Some (set_peer_phase p PeerFailed)) /\
  ((exists f, Fail f ∈ hm_effects r.2) <->
     (hc_phase s = PhaseLoading /\
      tb_loading limits <= saturating_sub now (pw_phase_started_at (hc_progress s))) \/
     (hc_phase s = PhaseRunning /\
      tb_silence limits <= saturating_sub now (pw_last_progress_ms (hc_progress s)))).
Proof.
  intros s r Ho. pose proof (host_run_inv host_match_default ops host_default_inv) as Hs. fold s in Hs.
  assert (Hr : r = apply_tick limits s now) by by subst r; unfold host_apply; rewrite Ho.
  assert (Hpeers : forall m, hc_peers r.1 !! m =
    (if decide (m ∈ expired_members limits s now) then fun p => set_peer_phase p PeerFailed else id)
      <$> hc_peers s !! m).
  { intros m. rewrite Hr. cbn [apply_tick finish fst set_host_peers set_match hc_peers].
    apply fail_peers_lookup. }
  assert (Heff : hm_effects r.2 = tick_failure limits s now ++
    map (fun m => CancelPeer m AdmDeadline (hc_match_key s)) (expired_members limits s now)) by by rewrite Hr.
  assert (Hfail : forall m reason k, CancelPeer m reason k ∉ tick_failure limits s now).
  { intros m reason k. unfold tick_failure. destruct (watch_expired _ _ _); [|apply not_elem_of_nil].
    by intros H%list_elem_of_singleton. }
  clear Hr. split; [|split; [|split]].
  - intros Hrun m p Hp Hpend. rewrite Hpeers in Hp. apply fmap_Some in Hp as (p0 & Hp0 & ->).
    destruct (decide _) as [|Hn]; [by destruct Hpend|]. unfold id in *.
    pose proof (pi_started _ _ _ (hi_peers _ Hs m p0 Hp0)) as Hst.
    destruct (pa_started_at p0) as [t|] eqn:Et; [|done]. exists t. split; [done|].
    assert (Hne : admission_expired limits now p0 <> true).
    { intros He. apply Hn, expired_members_spec. eauto. }
    unfold admission_expired, pending in *. rewrite Et in Hne.
    destruct (pa_phase p0); try done; apply not_true_is_false, Z.leb_gt in Hne; lia.
  - intros m reason k. rewrite Heff, elem_of_app, list_elem_of_fmap. split.
    + intros [H|(m' & [= <- -> ->] & Hm)]; [by apply Hfail in H|].
      apply expired_members_spec in Hm as [? ?]. auto.
    + intros (-> & -> & Hrun & Hp). right. exists m. split; [done|]. by apply expired_members_spec.
  - intros m p Hp Hrun He. rewrite Hpeers, Hp, decide_True; [done|]. apply expired_members_spec. eauto.
  - assert (Hiff : (exists f, Fail f ∈ hm_effects r.2) <-> watch_expired limits (hc_progress s) now = true).
    { rewrite Heff. unfold tick_failure. split.
      - intros [f [H|H]%elem_of_app]; [by destruct (watch_expired _ _ _); [|apply not_elem_of_nil in H]|].
        by apply list_elem_of_fmap in H as (? & ? & _).
      - intros ->. eexists. apply elem_of_app. left. by apply list_elem_of_singleton. }
    rewrite Hiff. unfold watch_expired. rewrite (hi_watch _ Hs Ho).
    destruct (hc_phase s); cbn [watch_of]; rewrite ?Z.leb_le; naive_solver.
Qed.

(** ** Peers whose admission ended *)

Definition ended (p : PeerAdmission) : Prop := pa_phase p = PeerFailed \/ pa_phase p = PeerCancelledPhase.

(** Calls that neither begin nor end a match nor take [m] off the roster. *)
Definition same_roster (m : MemberId) (op : HostOp) : Prop :=
  match op with
  | OpEvent (HostStart _ _) | OpEvent (HostMatchEnded _) => False
  | OpEvent (HostPeerRoster _ members _) => m ∈ members
  | _ => True
  end.

Definition out_of_match (m : MemberId) (s : HostMatchCore) : Prop :=
  exists p, hc_peers s !! m = Some p /\ ended p.

Lemma ready_effect_ended k w m p : ended p -> peer_ready_effect k w m p = (p, None).
Proof. unfold peer_ready_effect. by intros [-> | ->]. Qed.

Lemma out_insert s m m' p' :
  (m' = m -> ended p') -> out_of_match m s ->
  out_of_match m (set_host_peers s (<[m' := p']> (hc_peers s))).
Proof.
  intros He (p & Hp & Hend). unfold out_of_match. cbn. destruct (decide (m' = m)) as [->|Hne].
  - exists p'. rewrite lookup_insert_eq. auto.
  - exists p. by rewrite lookup_insert_ne.
Qed.

Lemma ended_step s op m : same_roster m op -> out_of_match m s -> out_of_match m (host_op limits s op).
Proof.
  intros Hop Hout. destruct op as [event|n|n]; [|done..]. cbn [host_op].
  unfold host_apply. destruct (hc_session_open s); cbn [negb]; [|done].
  destruct event as [k now|k ms now|w now|now|m' l now|k m' b c|k m' b c|k|m'| |now];
    cbn [same_roster] in Hop; try done.
  - unfold apply_peer_roster, reject, finish. destruct (_ || _ || _); [done|].
    destruct Hout as (p & Hp & He). exists p. split; [|done]. cbn.
    by rewrite apply_roster_spec, decide_True, Hp.
  - unfold apply_authority_ready, reject, finish. destruct (negb _); [done|]. destruct (negb _); [done|].
    set (started := if bool_decide (hc_phase s = PhaseLoading) then _ else hc_peers s).
    destruct (ready_peers (hc_match_key s) w started) as [peers effects] eqn:Er. cbn [fst].
    apply (f_equal fst) in Er. cbn [fst] in Er. subst peers. destruct Hout as (p & Hp & He).
    assert (Hst : exists p1, started !! m = Some p1 /\ ended p1).
    { unfold started. case_bool_decide; [|eauto].
      rewrite lookup_fmap, Hp. cbn. eexists. split; [done|]. destruct He; [by left|by right]. }
    destruct Hst as (p1 & Hp1 & He1). exists p1. split; [|done].
    cbn [hc_peers set_match]. rewrite ready_peers_lookup, Hp1. cbn. by rewrite ready_effect_ended.
  - unfold finish. cbn [fst]. by case_bool_decide.
  - unfold apply_map_loaded, reject, finish. destruct (_ || _); [done|].
    destruct (hc_peers s !! m') as [p|] eqn:Em; [|done].
    destruct (pa_phase p) eqn:Ep; try done.
    all: destruct (match hc_host_world s with Some _ => _ | None => _ end) as [peer effect]; cbn [fst];
      (apply out_insert; [|done]); intros ->; destruct Hout as (q & Hq & Hend);
      rewrite Em in Hq; injection Hq as <-; unfold ended in Hend; rewrite Ep in Hend; by destruct Hend.
  - unfold apply_bootstrap_prepared, reject, finish. destruct (_ || _ || _); [done|].
    destruct (hc_peers s !! m') as [p|] eqn:Em; [|done].
    destruct (pa_phase p) eqn:Ep; try done.
    all: cbn [fst]; (apply out_insert; [|done]); intros ->; destruct Hout as (q & Hq & Hend);
      rewrite Em in Hq; injection Hq as <-; unfold ended in Hend; rewrite Ep in Hend; by destruct Hend.
  - unfold apply_applied, reject, finish. destruct (_ || _); [done|]. destruct (negb _); [done|].
    destruct (hc_peers s !! m') as [p|] eqn:Em; [|done].
    destruct (match pa_connection_id p with Some _ => _ | None => _ end); [done|].
    destruct (applied_repeat (pa_phase p) b) eqn:Erep; [|done].
    apply applied_repeat_some in Erep. cbn [fst]. apply out_insert; [|done]. intros ->.
    destruct Hout as (q & Hq & Hend). rewrite Em in Hq. injection Hq as <-.
    destruct Hend as [H|H], Erep as [H'|H']; congruence.
  - unfold apply_peer_cancelled, finish. cbn [fst].
    destruct (hc_peers s !! m') as [p|] eqn:Em; [|done]. apply out_insert; [|done].
    intros _. by right.
  - unfold apply_tick, finish. cbn [fst]. destruct Hout as (p & Hp & He).
    unfold out_of_match. cbn [set_host_peers set_match hc_peers]. setoid_rewrite fail_peers_lookup.
    rewrite Hp. cbn. destruct (decide _); [|eauto]. eexists. split; [done|]. by left.
Qed.

(** A failed or cancelled peer stays out: until the match begins anew, ends, or the roster
    drops the peer, nothing readmits it and it is owed neither a flush nor an entry. *)
Theorem ended_peers_stay_out s ops m :
  out_of_match m s -> Forall (same_roster m) ops ->
  out_of_match m (host_run limits s ops) /\
  forall event b k,
    let effects := hm_effects (host_apply limits (host_run limits s ops) event).2 in
    FlushBootstraps m ∉ effects /\ Enter m b k ∉ effects.
Proof.
  intros Hout Hall.
  assert (Hrun : out_of_match m (host_run limits s ops)).
  { induction Hall as [|op ops Hop _ IH] in s, Hout |- *; [done|]. apply IH. by apply ended_step. }
  split; [done|]. intros event b k. destruct Hrun as (p & Hp & Hend). split.
  - intros (_ & _ & _ & q & q0 & w & Hq & Hph & _ & He & _)%flush_origin.
    apply ready_effect_cases in He as [Hpend _]. rewrite Hp in Hq. injection Hq as <-.
    unfold pending in Hpend. rewrite Hph in Hpend. destruct Hend as [H|H]; by rewrite H in Hpend.
  - intros (_ & c & q & _ & Hq & Hph & _)%enter_origin. rewrite Hp in Hq. injection Hq as <-.
    destruct Hend as [H|H], Hph as [H'|H']; congruence.
Qed.

End Invariant.

(** ** An admission *)

Definition demo_key : MatchKey := mkMatchKey (replicate 16 Byte.x07) 3.
Definition demo_member : MemberId := mkMemberId (replicate 16 Byte.x01).
Definition demo_late : MemberId := mkMemberId (replicate 16 Byte.x02).
Definition demo_world : HostWorldReady := mkWorld 3 10 20 30.

(** A match with two peers; the first loads the map and gets its bootstrap. *)
Definition match_ops : list HostOp :=
  [OpEvent (HostStart demo_key 0);
   OpEvent (HostPeerRoster demo_key [demo_member; demo_late] 0);
   OpEvent (HostAuthorityReady demo_world 1000);
   OpEvent (HostMapLoaded demo_member demo_world 1500);
   OpEvent (HostBootstrapPrepared demo_key demo_member 9 (Some 77))].

Example demo_admission :
  let s := host_run budget_default host_match_default match_ops in
  let entered := host_apply budget_default s (HostApplied demo_key demo_member 9 (Some 77)) in
  hm_effects entered.2 = [Enter demo_member 9 demo_key] /\
  hm_effects (host_apply budget_default entered.1 (HostTick 10000000)).2 =
    [Fail (mkFail StageAuthority (bs "authority progress silence") demo_key);
     CancelPeer demo_late AdmDeadline demo_key].
Proof. split; vm_compute; reflexivity. Qed.

Lemma flush_means_same_world_witness :
  let s := host_run budget_default host_match_default (take 3 match_ops) in
  let r := host_apply budget_default s (HostMapLoaded demo_member demo_world 1500) in
  exists p l, hc_peers r.1 !! demo_member = Some p /\ pa_map_loaded p = Some l /\
    map_loaded_matches_host 3 (hc_host_world r.1) l = true.
Proof.
  destruct (flush_means_same_world budget_default (take 3 match_ops)
    (HostMapLoaded demo_member demo_world 1500) demo_member) as (_ & p & l & Hp & _ & Hl & Hm).
  - vm_compute. apply list_elem_of_here.
  - exists p, l. split; [exact Hp|]. split; [exact Hl|exact Hm].
Defined.

Lemma enter_needs_bootstrap_witness :
  exists ops1 c ops2, match_ops = ops1 ++ OpEvent (HostBootstrapPrepared demo_key demo_member 9 c) :: ops2.
Proof.
  destruct (enter_needs_bootstrap budget_default match_ops
    (HostApplied demo_key demo_member 9 (Some 77)) demo_member 9 demo_key)
    as (_ & ops1 & c & ops2 & H & _).
  - vm_compute. apply list_elem_of_here.
  - exists ops1, c, ops2. exact H.
Defined.

Lemma tick_deadlines_witness :
  let s := host_run budget_default host_match_default match_ops in
  let r := host_apply budget_default s (HostTick 10000000) in
  CancelPeer demo_late AdmDeadline demo_key ∈ hm_effects r.2.
Proof.
  destruct (tick_deadlines budget_default match_ops 10000000 eq_refl) as (_ & H & _).
  apply H. split; [reflexivity|]. split; [reflexivity|]. split; [reflexivity|].
  eexists. split; [vm_compute; reflexivity|vm_compute; reflexivity].
Defined.

Lemma ended_peers_stay_out_witness :
  let s := host_run budget_default host_match_default (match_ops ++ [OpEvent (HostPeerCancelled demo_member)]) in
  FlushBootstraps demo_member ∉
    hm_effects (host_apply budget_default s (HostMapLoaded demo_member demo_world 2000)).2.
Proof.
  destruct (ended_peers_stay_out budget_default
    (host_run budget_default host_match_default (match_ops ++ [OpEvent (HostPeerCancelled demo_member)]))
    [] demo_member) as [_ H].
  - eexists. split; [vm_compute; reflexivity|right; reflexivity].
  - constructor.
  - exact (proj1 (H (HostMapLoaded demo_member demo_world 2000) 0 demo_key)).
Defined.
