(* ===== verification/ClientMatch.v ===== *)
(** * The client's match and its view of the room

    [ClientMatchCore] and [SessionCore] of crates/net/src/session_core.rs: which match the
    client is in, what it has installed, adopted and entered, and the room state it accepts from
    the service.  The diagnostic line of a transition is not modelled; where the code returns one
    exactly when something changed, the model returns the label of the event. *)

From S2P Require Export SessionTypes.

(** ** [ClientMatchCore] *)

Record ClientMatchCore : Type := mkClient {
  cm_session_open : bool;
  cm_match_key : MatchKey;
  cm_retired_match : option MatchKey;
  cm_installed : option LocalLoadKey;
  cm_presentation_ready : bool;
  cm_local_authority_ready : bool;
  cm_adopted : option AdmissionKey;
  cm_enter : option AdmissionKey;
  cm_failed : option SessionFail;
}.

Definition client_match_default : ClientMatchCore :=
  mkClient true MATCH_NONE None None false false None None None.

Definition retire_match (s : ClientMatchCore) : ClientMatchCore :=
  mkClient (cm_session_open s) MATCH_NONE
    (if negb (key_is_none (cm_match_key s)) then Some (cm_match_key s) else cm_retired_match s)
    None false false None None None.

Definition set_load_match (load : LocalLoadKey) (k : MatchKey) : LocalLoadKey :=
  mkLoadKey (lk_incarnation load) k (lk_request_id load).

Definition client_install (s : ClientMatchCore) (load : LocalLoadKey) : ClientMatchCore :=
  if negb (cm_session_open s) || bool_decide (cm_retired_match s = Some (lk_match_key load)) then s
  else
    let load := if key_is_none (lk_match_key load) && negb (key_is_none (cm_match_key s))
                then set_load_match load (cm_match_key s) else load in
    if negb (bool_decide (lk_match_key load = cm_match_key s)) && negb (key_is_none (cm_match_key s))
    then s
    else
      let same := bool_decide (cm_installed s = Some load) in
      mkClient (cm_session_open s) (cm_match_key s) (cm_retired_match s) (Some load)
        (same && cm_presentation_ready s) (same && cm_local_authority_ready s)
        (cm_adopted s) (cm_enter s) (cm_failed s).

Definition client_presentation (s : ClientMatchCore) (load : LocalLoadKey) (ready : bool)
    : ClientMatchCore :=
  if bool_decide (cm_installed s = Some load)
  then mkClient (cm_session_open s) (cm_match_key s) (cm_retired_match s) (cm_installed s)
         ready (cm_local_authority_ready s) (cm_adopted s) (cm_enter s) (cm_failed s)
  else s.

Definition client_start (s : ClientMatchCore) (k : MatchKey) : ClientMatchCore :=
  if negb (cm_session_open s) || key_is_none k || bool_decide (cm_retired_match s = Some k) then s
  else if bool_decide (cm_match_key s = k) then s
  else if key_is_none (cm_match_key s) then
    let installed := match cm_installed s with
                     | Some load => Some (if key_is_none (lk_match_key load)
                                          then set_load_match load k else load)
                     | None => None
                     end in
    mkClient (cm_session_open s) k (cm_retired_match s) installed (cm_presentation_ready s)
      (cm_local_authority_ready s) (cm_adopted s) (cm_enter s) (cm_failed s)
  else mkClient (cm_session_open s) k (cm_retired_match s) None false false None None None.

Definition client_local_authority_ready (s : ClientMatchCore) (load : LocalLoadKey) (ready : bool)
    : ClientMatchCore :=
  if bool_decide (cm_installed s = Some load)
  then mkClient (cm_session_open s) (cm_match_key s) (cm_retired_match s) (cm_installed s)
         (cm_presentation_ready s) ready (cm_adopted s) (cm_enter s) (cm_failed s)
  else s.

Definition client_adopted (s : ClientMatchCore) (k : AdmissionKey)
    : ClientMatchCore * option (list byte) :=
  if negb (bool_decide (ak_match_key k = cm_match_key s)) then (s, None)
  else if bool_decide (cm_adopted s = Some k) then (s, None)
  else (mkClient (cm_session_open s) (cm_match_key s) (cm_retired_match s) (cm_installed s)
          (cm_presentation_ready s) (cm_local_authority_ready s) (Some k) (cm_enter s) (cm_failed s),
        Some (bs "client adopted")).

Definition client_enter (s : ClientMatchCore) (k : AdmissionKey)
    : ClientMatchCore * option (list byte) :=
  if negb (bool_decide (cm_adopted s = Some k)) then (s, None)
  else if bool_decide (cm_enter s = Some k) then (s, None)
  else (mkClient (cm_session_open s) (cm_match_key s) (cm_retired_match s) (cm_installed s)
          (cm_presentation_ready s) (cm_local_authority_ready s) (cm_adopted s) (Some k) (cm_failed s),
        Some (bs "client enter")).

Definition client_fail (s : ClientMatchCore) (fail : SessionFail) : ClientMatchCore :=
  match cm_failed s with
  | Some _ => s
  | None => mkClient (cm_session_open s) (cm_match_key s) (cm_retired_match s) (cm_installed s)
              (cm_presentation_ready s) (cm_local_authority_ready s) (cm_adopted s) (cm_enter s)
              (Some fail)
  end.

Definition client_close (s : ClientMatchCore) : ClientMatchCore :=
  mkClient false (cm_match_key s) (cm_retired_match s) (cm_installed s) (cm_presentation_ready s)
    (cm_local_authority_ready s) (cm_adopted s) (cm_enter s) (cm_failed s).

Definition is_set {A} (o : option A) : bool := match o with Some _ => true | None => false end.

Definition client_class_select_allowed (s : ClientMatchCore) : bool :=
  class_select_allowed (cm_session_open s)
    (match cm_installed s with Some load => belongs_to load (cm_match_key s) | None => false end)
    (cm_presentation_ready s) (is_set (cm_enter s)) (is_set (cm_failed s)).

Definition local_class_select_allowed (s : ClientMatchCore) : bool :=
  class_select_allowed (cm_session_open s) (is_set (cm_installed s)) (cm_presentation_ready s)
    (cm_local_authority_ready s && is_set (cm_installed s)) (is_set (cm_failed s)).

(** ** [SessionCore] *)

Record SessionView : Type := mkSessionView {
  sv_map : list byte; sv_mode : list byte; sv_members : list MemberId;
  sv_skip_votes : Z; sv_start_nonce : Z; sv_in_match : bool }.

Definition session_view_default : SessionView := mkSessionView [] [] [] 0 0 false.

Inductive SessionEvent : Type :=
| AuthoritativeState (session_id : list byte) (member : MemberId) (revision match_epoch : Z)
    (in_match : bool) (start_nonce : Z) (map mode : list byte) (members : list MemberId)
    (skip_votes : Z)
| EnterMatch (epoch bootstrap_id : Z)
| MatchEnded (epoch : Z)
| CloseSession.

Record SessionApply : Type := mkSessionApply {
  sa_view : SessionView; sa_changed : bool; sa_enter_bootstrap : option Z; sa_closed : bool;
  sa_failure : list byte }.

Record SessionCore : Type := mkSession {
  sc_session_open : bool;
  sc_applied_state : option (Z * Z);
  sc_view : SessionView;
  sc_match_phase : MatchPhase;
  sc_session_id : list byte;
  sc_incarnation : Z;
  sc_local_member : option MemberId;
}.

Definition ZERO_ID : list byte := replicate 16 Byte.x00.

Definition session_default : SessionCore :=
  mkSession true None session_view_default PhaseNone ZERO_ID 0 None.

Definition for_connection (session_id : list byte) (incarnation : Z) : SessionCore :=
  mkSession true None session_view_default PhaseNone session_id incarnation None.

(** Serial-number comparison of epochs (32 bits) and, within an epoch, revisions (64 bits). *)
Definition wrapping_sub64 (a b : Z) : Z := wrap64 (a - b).

Definition state_is_newer (applied : option (Z * Z)) (revision epoch : Z) : bool :=
  match applied with
  | None => true
  | Some (prev_epoch, prev_rev) =>
      if negb (epoch =? prev_epoch) then wrapping_sub32 epoch prev_epoch <? 2 ^ 31
      else negb (revision =? prev_rev) && (wrapping_sub64 revision prev_rev <? 2 ^ 63)
  end.

Definition session_finish (s : SessionCore) (changed : bool) (enter_bootstrap : option Z)
    (failure : String.string) : SessionCore * SessionApply :=
  (s, mkSessionApply (sc_view s) changed enter_bootstrap (negb (sc_session_open s)) (bs failure)).
Arguments session_finish s changed enter_bootstrap failure%_string_scope.

Definition set_in_match (v : SessionView) (in_match : bool) : SessionView :=
  mkSessionView (sv_map v) (sv_mode v) (sv_members v) (sv_skip_votes v) (sv_start_nonce v) in_match.

(** The identity checks of [AuthoritativeState]. *)
Definition state_identity_mismatch (s : SessionCore) (session_id : list byte) (member : MemberId)
    (match_epoch : Z) (in_match : bool) (start_nonce : Z) : bool :=
  bool_decide (session_id = ZERO_ID) ||
  (negb (bool_decide (sc_session_id s = ZERO_ID)) && negb (bool_decide (sc_session_id s = session_id))) ||
  bool_decide (member_bytes member = ZERO_ID) ||
  match sc_local_member s with
  | Some local => negb (bool_decide (local = member))
  | None => false
  end ||
  negb (start_nonce =? match_epoch) ||
  (in_match && (match_epoch =? 0)).

Definition session_apply (s : SessionCore) (event : SessionEvent) : SessionCore * SessionApply :=
  if negb (sc_session_open s) then session_finish s false None "session closed"
  else
    match event with
    | AuthoritativeState session_id member revision match_epoch in_match start_nonce map mode
        members skip_votes =>
        if state_identity_mismatch s session_id member match_epoch in_match start_nonce
        then session_finish s false None "state identity mismatch"
        else if negb (state_is_newer (sc_applied_state s) revision match_epoch)
        then session_finish s false None "stale state"
        else
          let same_match := sv_in_match (sc_view s) && (sv_start_nonce (sc_view s) =? match_epoch) in
          let phase := if in_match
                       then if same_match && bool_decide (sc_match_phase s = PhaseRunning)
                            then PhaseRunning else PhaseLoading
                       else PhaseNone in
          session_finish
            (mkSession (sc_session_open s) (Some (match_epoch, revision))
               (mkSessionView map mode members skip_votes start_nonce in_match) phase session_id
               (sc_incarnation s) (Some member)) true None "-"
    | EnterMatch epoch bootstrap_id =>
        if negb (epoch_applies epoch (sv_start_nonce (sc_view s))) || negb (sv_in_match (sc_view s))
        then session_finish s false None "enter epoch mismatch"
        else session_finish
               (mkSession (sc_session_open s) (sc_applied_state s) (sc_view s) PhaseRunning
                  (sc_session_id s) (sc_incarnation s) (sc_local_member s))
               false (Some bootstrap_id) "-"
    | MatchEnded epoch =>
        if negb (match_boundary_applies epoch (sv_start_nonce (sc_view s)))
        then session_finish s false None "stale match end"
        else if negb (sv_in_match (sc_view s)) then session_finish s false None "-"
        else session_finish
               (mkSession (sc_session_open s) (sc_applied_state s) (set_in_match (sc_view s) false)
                  PhaseNone (sc_session_id s) (sc_incarnation s) (sc_local_member s))
               true None "-"
    | CloseSession =>
        session_finish
          (mkSession false (sc_applied_state s) (set_in_match (sc_view s) false) PhaseNone
             (sc_session_id s) (sc_incarnation s) (sc_local_member s))
          true None "-"
    end.
