(* ===== verification/ClientMatchMain.v ===== *)
(** * Properties of the client's match and room state

    The newest room state wins over any order of delivery; a retired match never comes back;
    class selection needs an admission to the installed match. *)

From S2P Require Import ClientMatch.

(** ** The room state *)

Definition session_run (s : SessionCore) (events : list SessionEvent) : SessionCore :=
  foldl (fun s e => (session_apply s e).1) s events.

Record session_inv (s : SessionCore) : Prop := {
  si_phase : sc_match_phase s <> PhaseEnding;
  si_in_match : sv_in_match (sc_view s) = phase_live (sc_match_phase s);
  si_nonce : sv_in_match (sc_view s) = true -> sv_start_nonce (sc_view s) <> 0;
  si_closed : sc_session_open s = false -> sv_in_match (sc_view s) = false;
  si_fresh : sc_applied_state s = None ->
    sc_local_member s = None /\ sv_start_nonce (sc_view s) = 0;
  si_applied epoch revision : sc_applied_state s = Some (epoch, revision) ->
    sv_start_nonce (sc_view s) = epoch /\ sc_session_id s <> ZERO_ID /\
    exists m, sc_local_member s = Some m /\ member_bytes m <> ZERO_ID;
}.

Lemma connection_inv session_id incarnation : session_inv (for_connection session_id incarnation).
Proof. by split. Qed.

Lemma identity_ok s session_id m epoch in_match nonce :
  state_identity_mismatch s session_id m epoch in_match nonce = false ->
  session_id <> ZERO_ID /\ (sc_session_id s = ZERO_ID \/ sc_session_id s = session_id) /\
  member_bytes m <> ZERO_ID /\ (forall local, sc_local_member s = Some local -> local = m) /\
  nonce = epoch /\ (in_match = true -> epoch <> 0).
Proof.
  unfold state_identity_mismatch. rewrite !orb_false_iff, andb_false_iff, !bool_decide_eq_false,
    !negb_false_iff, !bool_decide_eq_true, Z.eqb_eq. intros [[[[[H1 H2] H3] H4] H5] H6].
  split_and!; try done.
  - intros local Hl. rewrite Hl in H4. by apply negb_false_iff, bool_decide_eq_true in H4.
  - intros ->. cbn in H6. by apply Z.eqb_neq in H6.
Qed.

Lemma session_apply_inv s event : session_inv s -> session_inv (session_apply s event).1.
Proof.
  intros Hs. unfold session_apply, session_finish. destruct (sc_session_open s) eqn:Ho; cbn [negb]; [|done].
  destruct event as [sid m revision epoch in_match nonce map mode members votes|epoch b|epoch|].
  - destruct (state_identity_mismatch _ _ _ _ _ _) eqn:Hid; [done|].
    destruct (negb (state_is_newer _ _ _)); [done|].
    apply identity_ok in Hid as (? & _ & ? & _ & -> & Hep). cbn [fst].
    split; cbn; try done.
    + destruct in_match; [|done]. by destruct (_ && _).
    + destruct in_match; [|done]. by destruct (_ && _).
    + intros e r [= <- <-]. eauto.
  - destruct (negb _ || negb _) eqn:E; [done|]. apply orb_false_iff in E as [_ E].
    apply negb_false_iff in E. cbn [fst]. destruct Hs. split; cbn; try done; congruence.
  - destruct (negb _); [done|]. destruct (negb _); [done|]. destruct Hs. by split.
  - destruct Hs. by split.
Qed.

Lemma session_run_inv s events : session_inv s -> session_inv (session_run s events).
Proof.
  induction events as [|e events IH] in s |- *; [done|]. intros Hs. apply IH. by apply session_apply_inv.
Qed.

(** The client's view of the room is consistent whatever the service or a stale connection
    sends: it is in a match exactly while the match is loading or running, then with an epoch;
    a closed session is in none and accepts nothing; and once a state is applied the session and
    the client's own member never change. *)
Theorem session_view_consistent session_id incarnation events :
  let s := session_run (for_connection session_id incarnation) events in
  session_inv s /\
  forall event, let r := session_apply s event in
    (sc_session_open s = false -> r.1 = s) /\
    (is_Some (sc_applied_state s) ->
       is_Some (sc_applied_state r.1) /\ sc_session_id r.1 = sc_session_id s /\
       sc_local_member r.1 = sc_local_member s) /\
    (forall b, sa_enter_bootstrap r.2 = Some b -> sc_match_phase r.1 = PhaseRunning) /\
    (sa_changed r.2 = false -> sc_view r.1 = sc_view s).
Proof.
  intros s. pose proof (session_run_inv _ events (connection_inv session_id incarnation)) as Hs.
  fold s in Hs. split; [done|]. intros event. cbn zeta.
  unfold session_apply, session_finish. destruct (sc_session_open s) eqn:Ho; cbn [negb]; [|by split_and!].
  destruct event as [sid m revision epoch in_match nonce map mode members votes|epoch b|epoch|].
  - destruct (state_identity_mismatch _ _ _ _ _ _) eqn:Hid; [by split_and!|].
    destruct (negb (state_is_newer _ _ _)); [by split_and!|].
    apply identity_ok in Hid as (? & Hsid & ? & Hloc & -> & Hep). cbn.
    split_and!; try done. intros [[e r] Hap].
    destruct (si_applied _ Hs e r Hap) as (_ & Hz & m' & Hm' & _). split_and!; [by eexists| |].
    + by destruct Hsid.
    + rewrite Hm'. by rewrite (Hloc m' Hm').
  - destruct (negb _ || negb _); by split_and!.
  - destruct (negb _); [by split_and!|]. destruct (negb _); by split_and!.
  - by split_and!.
Qed.

(** *** Order of delivery *)

(** A state of the room with its version as the service counts it, before the wrap. *)
Record Version : Type := mkVersion { ve_epoch : Z; ve_revision : Z; ve_view : SessionView }.

Definition version_event (session_id : list byte) (m : MemberId) (d : Version) : SessionEvent :=
  let v := ve_view d in
  AuthoritativeState session_id m (wrap64 (ve_revision d)) (wrap32 (ve_epoch d)) (sv_in_match v)
    (wrap32 (ve_epoch d)) (sv_map v) (sv_mode v) (sv_members v) (sv_skip_votes v).

Definition version_view (d : Version) : SessionView :=
  let v := ve_view d in
  mkSessionView (sv_map v) (sv_mode v) (sv_members v) (sv_skip_votes v) (wrap32 (ve_epoch d))
    (sv_in_match v).

Definition version_le (d d' : Version) : Prop :=
  ve_epoch d < ve_epoch d' \/ (ve_epoch d = ve_epoch d' /\ ve_revision d <= ve_revision d').

(** Versions near enough for the serial numbers to compare. *)
Definition near (d d' : Version) : Prop :=
  Z.abs (ve_epoch d - ve_epoch d') < 2 ^ 31 /\ Z.abs (ve_revision d - ve_revision d') < 2 ^ 63.

Lemma wrap_sub_small n a b :
  0 < n -> Z.abs (a - b) < 2 ^ (n - 1) ->
  (a mod 2 ^ n = b mod 2 ^ n <-> a = b) /\
  ((a mod 2 ^ n - b mod 2 ^ n) mod 2 ^ n < 2 ^ (n - 1) <-> b <= a).
Proof.
  intros Hn Hab. assert (Hpow : 2 ^ n = 2 * 2 ^ (n - 1)).
  { rewrite <- Z.pow_succ_r by lia. f_equal. lia. }
  set (h := 2 ^ (n - 1)) in *. rewrite Hpow. assert (0 < h) by lia. split.
  - split; [|by intros ->]. intros Hmod.
    pose proof (Z.div_mod a (2 * h) ltac:(lia)) as Ha. pose proof (Z.div_mod b (2 * h) ltac:(lia)) as Hb.
    assert (Hk : a - b = 2 * h * (a / (2 * h) - b / (2 * h))) by lia.
    assert (a / (2 * h) - b / (2 * h) = 0) as Hz by nia. rewrite Hz in Hk. lia.
  - rewrite <- Zminus_mod. destruct (Z_lt_ge_dec a b).
    + rewrite <- (Z.mod_unique (a - b) (2 * h) (-1) (a - b + 2 * h)); lia.
    + rewrite Z.mod_small by lia. lia.
Qed.

Lemma newer_spec d d' :
  near d d' ->
  state_is_newer (Some (wrap32 (ve_epoch d), wrap64 (ve_revision d)))
    (wrap64 (ve_revision d')) (wrap32 (ve_epoch d')) = true <-> ~ version_le d' d.
Proof.
  intros [He Hr]. unfold state_is_newer, version_le, wrapping_sub32, wrapping_sub64, wrap32, wrap64.
  destruct (wrap_sub_small 32 (ve_epoch d') (ve_epoch d)) as [He1 He2]; [lia|lia|].
  destruct (wrap_sub_small 64 (ve_revision d') (ve_revision d)) as [Hr1 Hr2]; [lia|lia|].
  change (2 ^ (32 - 1)) with (2 ^ 31) in *. change (2 ^ (64 - 1)) with (2 ^ 63) in *.
  destruct (Z.eqb_spec (ve_epoch d' mod 2 ^ 32) (ve_epoch d mod 2 ^ 32)) as [E|E]; cbn [negb].
  - apply He1 in E. rewrite andb_true_iff, negb_true_iff, Z.eqb_neq, Z.ltb_lt, Hr1, Hr2. lia.
  - rewrite Z.ltb_lt, He2. assert (ve_epoch d' <> ve_epoch d) by tauto. lia.
Qed.

(** Room states reach the client in any order, any number of times: as long as the versions
    in flight lie within half the number space of each other, the client ends with the view of
    the newest version delivered, across the wrap of the epoch and the revision. *)
Theorem newest_state_wins session_id incarnation sid m ds :
  (session_id = ZERO_ID \/ session_id = sid) -> sid <> ZERO_ID -> member_bytes m <> ZERO_ID ->
  Forall (fun d => sv_in_match (ve_view d) = true -> wrap32 (ve_epoch d) <> 0) ds ->
  (forall d d', d ∈ ds -> d' ∈ ds -> near d d') -> ds <> [] ->
  let s := session_run (for_connection session_id incarnation) (map (version_event sid m) ds) in
  exists d, d ∈ ds /\ (forall d', d' ∈ ds -> version_le d' d) /\ sc_view s = version_view d.
Proof.
  intros Hid Hsid Hm Hall Hnear Hne s.
  assert (Hinv : sc_session_open s = true /\ (ds <> [] -> sc_session_id s = sid /\
    sc_local_member s = Some m /\ exists d, d ∈ ds /\ (forall d', d' ∈ ds -> version_le d' d) /\
      sc_view s = version_view d /\
      sc_applied_state s = Some (wrap32 (ve_epoch d), wrap64 (ve_revision d)))).
  2: { destruct Hinv as [_ H]. destruct (H Hne) as (_ & _ & d & ? & ? & ? & _). eauto. }
  clear Hne. subst s. induction ds as [|d ds IH] using rev_ind; [done|].
  apply list.Forall_app in Hall as [Hall Hd].
  apply list.Forall_cons in Hd as [Hd _].
  destruct IH as [Ho IH]; [done|intros; apply Hnear; apply elem_of_app; by left|].
  rewrite map_app. unfold session_run. rewrite foldl_app.
  change (foldl _ _ (map (version_event sid m) ds))
    with (session_run (for_connection session_id incarnation) (map (version_event sid m) ds)).
  set (s := session_run _ _) in *. cbn [foldl map].
  assert (Hsafe : state_identity_mismatch s sid m (wrap32 (ve_epoch d)) (sv_in_match (ve_view d))
                    (wrap32 (ve_epoch d)) = false).
  { unfold state_identity_mismatch. rewrite !bool_decide_eq_false_2 with (P := sid = ZERO_ID) by done.
    rewrite (bool_decide_eq_false_2 (member_bytes m = ZERO_ID)) by done. rewrite Z.eqb_refl.
    assert (Hs : (sc_session_id s = ZERO_ID \/ sc_session_id s = sid) /\
      (sc_local_member s = None \/ sc_local_member s = Some m)).
    { destruct ds; [by split; [|left]|]. destruct IH as (? & ? & _); auto. }
    destruct Hs as [Hs1 Hs2]. rewrite !orb_false_iff. split_and!; try done.
    - destruct Hs1 as [-> | ->]; [by rewrite bool_decide_eq_true_2|].
      by rewrite (bool_decide_eq_true_2 (sid = sid)), andb_false_r.
    - destruct Hs2 as [-> | ->]; [done|]. by rewrite bool_decide_eq_true_2.
    - destruct (sv_in_match (ve_view d)) eqn:Ei; [|done]. cbn [andb]. by apply Z.eqb_neq, Hd. }
  unfold session_apply, version_event, session_finish. cbn zeta. rewrite Ho, Hsafe. cbn [negb].
  destruct ds as [|d1 ds1].
  - cbn [app]. split; [done|]. intros _. cbn. split_and!; [done..|]. exists d. split_and!; [by left| |done..].
    intros d' ->%list_elem_of_singleton. right. lia.
  - destruct IH as (Hs1 & Hs2 & d0 & Hin & Hmax & Hview & Happ); [done|].
    assert (Hnd : near d0 d) by (apply Hnear; rewrite elem_of_app; [by left|right; by left]).
    apply newer_spec in Hnd as Hnew. rewrite Happ.
    destruct (state_is_newer _ _ _) eqn:En; cbn [negb fst].
    + split; [done|]. intros _. cbn. split_and!; [done..|]. exists d.
      split_and!; [set_solver| |done..].
      assert (Hnle : ~ version_le d d0).
      { by apply Hnew. }
      intros d' Hd'. assert (d' ∈ d1 :: ds1 \/ d' = d) as [Hin'| ->] by set_solver; [|right; lia].
      specialize (Hmax d' Hin'). unfold version_le in *. lia.
    + split; [done|]. intros _. split_and!; [done..|]. exists d0.
      split_and!; [set_solver| |done..].
      assert (Hle : version_le d d0).
      { destruct (decide (ve_epoch d < ve_epoch d0)); [by left|].
        destruct (decide (ve_epoch d = ve_epoch d0 /\ ve_revision d <= ve_revision d0)); [by right|].
        assert (false = true); [|done]. apply Hnew. unfold version_le. lia. }
      intros d' Hd'. assert (d' ∈ d1 :: ds1 \/ d' = d) as [?| ->] by set_solver; auto.
Qed.

(** ** The client's match *)

Inductive ClientOp : Type :=
| OpRetire
| OpInstall (load : LocalLoadKey)
| OpPresentation (load : LocalLoadKey) (ready : bool)
| OpStart (k : MatchKey)
| OpAuthority (load : LocalLoadKey) (ready : bool)
| OpAdopted (k : AdmissionKey)
| OpEnter (k : AdmissionKey)
| OpFail (fail : SessionFail)
| OpClose.

Definition client_op (s : ClientMatchCore) (op : ClientOp) : ClientMatchCore :=
  match op with
  | OpRetire => retire_match s
  | OpInstall load => client_install s load
  | OpPresentation load ready => client_presentation s load ready
  | OpStart k => client_start s k
  | OpAuthority load ready => client_local_authority_ready s load ready
  | OpAdopted k => (client_adopted s k).1
  | OpEnter k => (client_enter s k).1
  | OpFail fail => client_fail s fail
  | OpClose => client_close s
  end.

Definition client_run (s : ClientMatchCore) (ops : list ClientOp) : ClientMatchCore := foldl client_op s ops.

(** The retired match [k] is gone: neither current nor installed nor admitted to. *)
Record without_match (k : MatchKey) (s : ClientMatchCore) : Prop := {
  wm_retired : cm_retired_match s = Some k;
  wm_key : cm_match_key s <> k;
  wm_installed load : cm_installed s = Some load -> lk_match_key load <> k;
  wm_adopted a : cm_adopted s = Some a -> ak_match_key a <> k;
  wm_enter a : cm_enter s = Some a -> ak_match_key a <> k;
}.

Lemma without_match_step k s op :
  key_is_none k = false -> op <> OpRetire -> without_match k s -> without_match k (client_op s op).
Proof.
  intros Hk Hop Hs. destruct op as [|load|load ready|k'|load ready|a|a|fail|]; cbn [client_op]; [done|..].
  - unfold client_install. rewrite (wm_retired _ _ Hs).
    destruct (negb (cm_session_open s) || _) eqn:E; [done|]. apply orb_false_iff in E as [_ E].
    apply bool_decide_eq_false in E. set (load' := if _ && _ then _ else load).
    assert (Hl : lk_match_key load' <> k).
    { unfold load'. destruct (_ && _); [cbn; apply Hs|congruence]. }
    destruct (negb (bool_decide (lk_match_key load' = _)) && _); [done|]. destruct Hs.
    split; cbn; try done. by intros l [= <-].
  - unfold client_presentation. case_bool_decide; [|done]. by destruct Hs.
  - unfold client_start. rewrite (wm_retired _ _ Hs).
    destruct (negb (cm_session_open s) || _ || _) eqn:E; [done|]. apply orb_false_iff in E as [_ E].
    apply bool_decide_eq_false in E. case_bool_decide; [done|].
    assert (k' <> k) by congruence. destruct (key_is_none (cm_match_key s)).
    + destruct Hs. split; cbn; try done. destruct (cm_installed s) as [l|] eqn:El; [|done].
      intros l' [= <-]. destruct (key_is_none (lk_match_key l)); [done|by apply wm_installed0].
    + destruct Hs. by split.
  - unfold client_local_authority_ready. case_bool_decide; [|done]. by destruct Hs.
  - unfold client_adopted. destruct (negb _) eqn:E; [done|]. apply negb_false_iff, bool_decide_eq_true in E.
    case_bool_decide; [done|]. destruct Hs. split; cbn; try done. intros a' [= <-]. congruence.
  - unfold client_enter. destruct (negb _) eqn:E; [done|]. apply negb_false_iff, bool_decide_eq_true in E.
    case_bool_decide; [done|]. destruct Hs. split; cbn; try done. intros a' [= <-]. by apply wm_adopted0.
  - unfold client_fail. destruct (cm_failed s); [done|]. by destruct Hs.
  - by destruct Hs.
Qed.

(** A retired match never comes back: once the client retires its match, no order of starts,
    installs, adoptions and entries makes that match current, installed or admitted to again
    (until the next match is retired in turn). *)
Theorem retired_match_stays_out s ops :
  key_is_none (cm_match_key s) = false -> OpRetire ∉ ops ->
  without_match (cm_match_key s) (client_run (retire_match s) ops).
Proof.
  intros Hk Hops. set (k := cm_match_key s) in *.
  assert (Hs : without_match k (retire_match s)).
  { split; cbn; try done.
    - fold k. by rewrite Hk.
    - intros E. rewrite <- E in Hk. done. }
  generalize dependent (retire_match s). clearbody k. clear s.
  induction ops as [|op ops IH]; intros s Hs; [done|]. cbn.
  apply not_elem_of_cons in Hops as [Hop Hops]. apply IH; [done|].
  apply without_match_step; [done| |done]. congruence.
Qed.

(** What the client holds, after the calls [ops], was told to it. *)
Record client_inv (ops : list ClientOp) (s : ClientMatchCore) : Prop := {
  ci_key : key_is_none (cm_match_key s) = true -> cm_match_key s = MATCH_NONE;
  ci_ready : cm_presentation_ready s = true -> exists load told,
    cm_installed s = Some load /\ OpPresentation told true ∈ ops /\
    lk_incarnation told = lk_incarnation load /\ lk_request_id told = lk_request_id load;
  ci_adopted a : cm_adopted s = Some a -> OpAdopted a ∈ ops /\
    (ak_match_key a = cm_match_key s \/ ak_match_key a = MATCH_NONE);
  ci_enter a : cm_enter s = Some a -> OpEnter a ∈ ops /\ OpAdopted a ∈ ops /\
    (ak_match_key a = cm_match_key s \/ ak_match_key a = MATCH_NONE);
}.

Lemma client_inv_more ops op s : client_inv ops s -> client_inv (ops ++ [op]) s.
Proof.
  intros []. split; [done|..].
  - intros H. destruct (ci_ready0 H) as (l & t & ? & ? & ?). exists l, t. set_solver.
  - intros a Ha. destruct (ci_adopted0 a Ha). set_solver.
  - intros a Ha. destruct (ci_enter0 a Ha) as (? & ? & ?). set_solver.
Qed.

Lemma client_inv_step ops op s : client_inv ops s -> client_inv (ops ++ [op]) (client_op s op).
Proof.
  intros Hold. pose proof (client_inv_more ops op s Hold) as Hs.
  destruct op as [|load|load ready|k|load ready|a|a|fail|]; cbn [client_op].
  - by split.
  - unfold client_install. destruct (_ || _); [done|]. set (load' := if _ && _ then _ else load).
    destruct (negb (bool_decide (lk_match_key load' = _)) && _); [done|]. destruct Hs. split; cbn; try done.
    intros [E H]%andb_true_iff. apply bool_decide_eq_true in E.
    destruct (ci_ready0 H) as (l & t & Hl & ?). rewrite E in Hl. injection Hl as <-. by exists load', t.
  - unfold client_presentation. case_bool_decide as E; [|done]. destruct Hs. split; cbn; try done.
    intros ->. exists load, load. set_solver.
  - unfold client_start. destruct (_ || _ || _) eqn:E; [done|]. apply orb_false_iff in E as [E _].
    apply orb_false_iff in E as [_ Ek]. case_bool_decide; [done|].
    destruct (key_is_none (cm_match_key s)) eqn:En; [|split; cbn; try done; congruence].
    pose proof (ci_key _ _ Hs En) as Hnone. destruct Hs.
    assert (Hadm : forall a, ak_match_key a = cm_match_key s \/ ak_match_key a = MATCH_NONE ->
      ak_match_key a = k \/ ak_match_key a = MATCH_NONE).
    { rewrite Hnone. tauto. }
    split; cbn.
    + congruence.
    + intros Hr. destruct (ci_ready0 Hr) as (l & t & -> & ? & ? & ?).
      eexists _, t. split; [done|]. split; [set_solver|]. by destruct (key_is_none (lk_match_key l)).
    + intros a Ha. destruct (ci_adopted0 a Ha). auto.
    + intros a Ha. destruct (ci_enter0 a Ha) as (? & ? & ?). auto.
  - unfold client_local_authority_ready. case_bool_decide; [|done]. by destruct Hs.
  - unfold client_adopted. destruct (negb _) eqn:E; [done|]. apply negb_false_iff, bool_decide_eq_true in E.
    case_bool_decide; [done|]. destruct Hs. split; cbn; try done. intros a' [= <-].
    split; [set_solver|by left].
  - unfold client_enter. destruct (negb _) eqn:E; [done|]. apply negb_false_iff, bool_decide_eq_true in E.
    case_bool_decide; [done|]. destruct Hs. split; cbn; try done. intros a' [= <-].
    destruct (ci_adopted0 a E). set_solver.
  - unfold client_fail. destruct (cm_failed s); [done|]. by destruct Hs.
  - by destruct Hs.
Qed.

(** Class selection opens only to an admitted client: whatever the order of the facts the
    client learns, when selection is allowed the session is open and unfailed, the installed
    world belongs to the current match, its presentation was reported ready, and the client
    entered with a key it had adopted, for this match or from before it had any. *)
Theorem class_select_needs_admission ops :
  let s := client_run client_match_default ops in
  client_class_select_allowed s = true ->
  cm_session_open s = true /\ cm_failed s = None /\ key_is_none (cm_match_key s) = false /\
  exists load told a, cm_installed s = Some load /\ lk_match_key load = cm_match_key s /\
    OpPresentation told true ∈ ops /\
    lk_incarnation told = lk_incarnation load /\ lk_request_id told = lk_request_id load /\
    OpAdopted a ∈ ops /\ OpEnter a ∈ ops /\
    (ak_match_key a = cm_match_key s \/ ak_match_key a = MATCH_NONE).
Proof.
  intros s Hallow.
  assert (Hs : client_inv ops s).
  { clear Hallow. subst s. induction ops as [|op ops IH] using rev_ind.
    - by split.
    - unfold client_run. rewrite foldl_snoc. by apply client_inv_step. }
  unfold client_class_select_allowed, class_select_allowed in Hallow.
  rewrite !andb_true_iff, negb_true_iff in Hallow. destruct Hallow as [[[[Ho Hi] Hp] He] Hf].
  destruct (cm_installed s) as [load|] eqn:El; [|done].
  unfold belongs_to in Hi. apply andb_true_iff in Hi as [Hk Hl]. apply negb_true_iff in Hk.
  apply bool_decide_eq_true in Hl. destruct (cm_enter s) as [a|] eqn:Ea; [|done].
  destruct (ci_enter _ _ Hs a Ea) as (? & ? & ?).
  destruct (ci_ready _ _ Hs Hp) as (load' & told & Hload & ? & ? & ?).
  rewrite El in Hload. injection Hload as <-.
  split_and!; [done|by destruct (cm_failed s)|done|]. exists load, told, a. by split_and!.
Qed.

(** ** Instances *)

Definition demo_session : list byte := replicate 16 Byte.x05.
Definition demo_self : MemberId := mkMemberId (replicate 16 Byte.x06).

(** Three states around the wrap of the epoch, the newest delivered first. *)
Definition demo_versions : list Version :=
  [mkVersion (2 ^ 32 + 1) 8 (mkSessionView [] [] [demo_self] 0 0 true);
   mkVersion (2 ^ 32 - 1) 7 session_view_default;
   mkVersion (2 ^ 32 + 1) 7 session_view_default].

Lemma newest_state_wins_witness :
  let s := session_run (for_connection ZERO_ID 0) (map (version_event demo_session demo_self) demo_versions) in
  exists d, d ∈ demo_versions /\ (forall d', d' ∈ demo_versions -> version_le d' d) /\
    sc_view s = version_view d.
Proof.
  apply (newest_state_wins ZERO_ID 0 demo_session demo_self demo_versions).
  - left. reflexivity.
  - discriminate.
  - discriminate.
  - repeat constructor; vm_compute; discriminate.
  - assert (Hall : Forall (fun d => Forall (near d) demo_versions) demo_versions).
    { repeat constructor; vm_compute; reflexivity. }
    rewrite list.Forall_forall in Hall. intros d d' Hd Hd'. specialize (Hall d Hd).
    rewrite list.Forall_forall in Hall. exact (Hall d' Hd').
  - discriminate.
Defined.

Definition demo_match : MatchKey := mkMatchKey demo_session 3.
Definition demo_next_match : MatchKey := mkMatchKey demo_session 4.
Definition demo_load : LocalLoadKey := mkLoadKey 1 demo_match 2.
Definition demo_admission : AdmissionKey := mkAdmission demo_match (replicate 16 Byte.x06) 7 9.

Definition demo_client_ops : list ClientOp :=
  [OpInstall (mkLoadKey 1 MATCH_NONE 2); OpPresentation (mkLoadKey 1 MATCH_NONE 2) true;
   OpStart demo_match; OpAdopted demo_admission; OpEnter demo_admission].

Lemma retired_match_stays_out_witness :
  let s := client_run client_match_default demo_client_ops in
  cm_match_key (client_run (retire_match s) [OpStart demo_next_match; OpStart demo_match; OpInstall demo_load])
    = demo_next_match /\
  without_match demo_match
    (client_run (retire_match s) [OpStart demo_next_match; OpStart demo_match; OpInstall demo_load]).
Proof.
  split; [vm_compute; reflexivity|].
  apply (retired_match_stays_out (client_run client_match_default demo_client_ops)
    [OpStart demo_next_match; OpStart demo_match; OpInstall demo_load]).
  - reflexivity.
  - intros H. repeat (apply elem_of_cons in H as [H|H]; [discriminate H|]). by apply not_elem_of_nil in H.
Defined.

Lemma class_select_needs_admission_witness :
  exists a, OpAdopted a ∈ demo_client_ops /\ OpEnter a ∈ demo_client_ops.
Proof.
  destruct (class_select_needs_admission demo_client_ops eq_refl)
    as (_ & _ & _ & load & told & a & _ & _ & _ & _ & _ & H1 & H2 & _).
  exists a. split; [exact H1|exact H2].
Defined.
