(* ===== verification/Wire.v ===== *)
(** * The game's wire primitives

    [WireWriter] and [WireReader] of crates/net/src/transport/wire.rs: little-endian integers
    appended to a buffer, read back through a cursor.  A writer is what it appends; a float is
    its 32 bits.  [WireCodec] is what a record codec promises to the packets that carry it. *)

From S2P Require Export Parse.

Inductive WireError : Type :=
| Truncated (needed available : Z)
| UnknownField (index : Z)
| Malformed (what : list byte).

Abbreviation WParser := (Parser WireError).

Definition malformed (what : String.string) : WireError := Malformed (bs what).
Arguments malformed what%_string_scope.

(** ** Writer *)

Definition put_u8 (v : Z) : list byte := [byte_of v].
Definition put_u16 (v : Z) : list byte := le_bytes 2 v.
Definition put_u32 (v : Z) : list byte := le_bytes 4 v.
Definition put_u64 (v : Z) : list byte := le_bytes 8 v.
Definition put_i32 (v : Z) : list byte := le_bytes 4 (wrap32 v).
Definition put_i8 (v : Z) : list byte := [byte_of (wrap8 v)].
Definition put_f32 (bits : Z) : list byte := put_u32 bits.
Definition put_bytes (value : list byte) : list byte := value.

(** ** Reader *)

Definition remaining (rd : Reader) : Z := zlen (rd_bytes rd) - rd_cursor rd.

Definition reader_is_empty (rd : Reader) : bool := remaining rd =? 0.

Definition wr_take (count : Z) : WParser (list byte) := fun rd =>
  if remaining rd <? count then Err (Truncated count (remaining rd))
  else Ok (slice (rd_bytes rd) (rd_cursor rd) (rd_cursor rd + count),
           mkReader (rd_bytes rd) (rd_cursor rd + count)).

Definition get_u8 : WParser Z := b ← wr_take 1; mret (le_val b).
Definition get_i8 : WParser Z := b ← wr_take 1; mret (to_signed 8 (le_val b)).
Definition get_u16 : WParser Z := b ← wr_take 2; mret (le_val b).
Definition get_u32 : WParser Z := b ← wr_take 4; mret (le_val b).
Definition get_u64 : WParser Z := b ← wr_take 8; mret (le_val b).
Definition get_i32 : WParser Z := v ← get_u32; mret (to_signed 32 v).
Definition get_f32 : WParser Z := get_u32.
Definition get_bytes (n : Z) : WParser (list byte) := wr_take n.

Definition is_i8 (z : Z) : Prop := -128 <= z <= 127.

(** ** What a codec promises *)

(** The values [valid] describes are read back as they were written, wherever they stand in a
    packet and whatever follows. *)
Class WireCodec {A : Type} (encode : A -> list byte) (decode : WParser A) (valid : A -> Prop) : Prop :=
  { wire_parses x : valid x -> parses decode (encode x) x }.

(** ** Lemmas *)

Lemma parses_wr_take u : parses (wr_take (zlen u)) u u.
Proof.
  intros pre post Hfit. unfold wr_take, remaining. cbn [rd_bytes rd_cursor].
  rewrite !zlen_app. pose proof (zlen_nonneg post). rewrite (proj2 (Z.ltb_ge _ _)) by lia.
  by rewrite slice_mid.
Qed.

Lemma parses_get_bytes n u : zlen u = n -> parses (get_bytes n) u u.
Proof. intros <-. apply parses_wr_take. Qed.

Lemma parses_le {A} (f : Z -> A) n (v : Z) :
  0 <= v < 256 ^ Z.of_nat n ->
  parses (b ← wr_take (Z.of_nat n); mret (f (le_val b))) (le_bytes n v) (f v).
Proof.
  intros Hv. pose proof (parses_last (wr_take (Z.of_nat n)) (fun b => f (le_val b)) (le_bytes n v)
    (le_bytes n v)) as H. cbv beta in H. rewrite le_val_bytes in H by done. apply H.
  rewrite <- (zlen_le_bytes n v). apply parses_wr_take.
Qed.

Lemma parses_put_u8 v : is_u8 v -> parses get_u8 (put_u8 v) v.
Proof. intros Hv. unfold put_u8. rewrite <- le_bytes_1. apply (parses_le id 1). simpl. ilia. Qed.
Lemma parses_put_u16 v : is_u16 v -> parses get_u16 (put_u16 v) v.
Proof. intros Hv. apply (parses_le id 2). simpl. ilia. Qed.
Lemma parses_put_u32 v : is_u32 v -> parses get_u32 (put_u32 v) v.
Proof. intros Hv. apply (parses_le id 4). simpl. ilia. Qed.
Lemma parses_put_u64 v : is_u64 v -> parses get_u64 (put_u64 v) v.
Proof. intros Hv. apply (parses_le id 8). simpl. ilia. Qed.
Lemma parses_put_f32 v : is_u32 v -> parses get_f32 (put_f32 v) v.
Proof. apply parses_put_u32. Qed.

Lemma to_signed_wrap8 v : is_i8 v -> to_signed 8 (wrap8 v) = v.
Proof.
  intros Hv. unfold to_signed, wrap8, is_i8 in *. change (2 ^ (8 - 1)) with 128. change (2 ^ 8) with 256.
  destruct (Z.ltb_spec (v mod 256) 128); Z.to_euclidean_division_equations; lia.
Qed.

Lemma to_signed_wrap32 v : is_i32 v -> to_signed 32 (wrap32 v) = v.
Proof.
  intros Hv. unfold to_signed, wrap32, is_i32, i32_min, i32_max in *.
  change (2 ^ (32 - 1)) with 2147483648. change (2 ^ 32) with 4294967296.
  destruct (Z.ltb_spec (v mod 4294967296) 2147483648); Z.to_euclidean_division_equations; lia.
Qed.

Lemma parses_put_i8 v : is_i8 v -> parses get_i8 (put_i8 v) v.
Proof.
  intros Hv. unfold put_i8. rewrite <- le_bytes_1. rewrite <- (to_signed_wrap8 v Hv) at 2.
  apply (parses_le (to_signed 8) 1). simpl. ilia.
Qed.

Lemma parses_put_i32 v : is_i32 v -> parses get_i32 (put_i32 v) v.
Proof.
  intros Hv. unfold put_i32, get_i32. rewrite <- (to_signed_wrap32 v Hv) at 2.
  apply (parses_last get_u32 (to_signed 32)). apply (parses_le id 4). simpl. ilia.
Qed.

Create HintDb wire.
#[export] Hint Resolve parses_put_u8 parses_put_u16 parses_put_u32 parses_put_u64 parses_put_f32
  parses_put_i8 parses_put_i32 parses_get_bytes wire_parses : wire.
#[export] Hint Extern 3 (parses _ _ _) => (apply wire_parses) : wire.
#[export] Hint Extern 1 (is_u8 _) => (vm_compute; split; congruence) : wire.

(** One field of an encoder against the same field of the decoder; the last field needs its
    bytes ended by the empty list. *)
Ltac wire_step :=
  lazymatch goal with
  | |- parses (mbind _ _) (_ ++ _) _ =>
      eapply parses_bind; [solve [eauto with wire]|]; cbv beta
  | |- parses (mret _) [] _ => apply parses_ret
  end.

Lemma parses_nil_r {E A} (p : Parser E A) u x : parses p (u ++ []) x -> parses p u x.
Proof. by rewrite app_nil_r. Qed.

Lemma wire_list {A} (encode : A -> list byte) decode valid `{!WireCodec encode decode valid} xs n :
  n = length xs -> Forall valid xs -> parses (parse_list n decode) (concat (map encode xs)) xs.
Proof.
  intros Hn Hall. apply parses_list; [done|]. rewrite list.Forall_forall in Hall.
  intros x Hx. apply wire_parses. auto.
Qed.

Ltac wire_steps := repeat wire_step.

(** ** The other direction: what a reader accepts is what the writer writes *)

(** Whatever [decode] accepts is a value [valid] describes, and [encode] writes exactly the
    bytes it was read from. *)
Class WireExact {A : Type} (encode : A -> list byte) (decode : WParser A) (valid : A -> Prop) : Prop :=
  { wire_consumes : consumes decode (fun x u => valid x /\ u = encode x) }.

Lemma consumes_wr_take n : 0 <= n -> consumes (wr_take n) (fun x u => x = u /\ zlen u = n).
Proof.
  intros Hn pre rest x rd' Hfit H. unfold wr_take, remaining in H. cbn [rd_cursor rd_bytes] in H.
  rewrite zlen_app in H. destruct (Z.ltb_spec (zlen pre + zlen rest - zlen pre) n); [discriminate H|].
  apply ok_inj in H. injection H as <- <-.
  assert (Hz : zlen (ztake n rest) = n).
  { unfold ztake, zlen in *. rewrite length_take. lia. }
  exists (ztake n rest), (zdrop n rest). rewrite Hz. split_and!; [|done| |done].
  - unfold ztake, zdrop. by rewrite take_drop.
  - apply (slice_at _ pre (ztake n rest) (zdrop n rest)); [|done|by rewrite Hz].
    unfold ztake, zdrop. by rewrite take_drop.
Qed.

Lemma consumes_le {A} (f : Z -> A) n k :
  n = Z.of_nat k ->
  consumes (b ← wr_take n; mret (f (le_val b)))
    (fun x u => exists v, x = f v /\ 0 <= v < 256 ^ n /\ u = le_bytes k v).
Proof.
  intros ->. eapply consumes_bind; [apply consumes_wr_take; lia|].
  intros x u [-> Hu]. apply consumes_ret. rewrite app_nil_r. exists (le_val u). split; [done|]. split.
  - rewrite <- Hu. apply le_val_range.
  - assert (k = length u) as -> by (unfold zlen in Hu; lia). by rewrite le_bytes_val.
Qed.

#[export] Instance u8_exact : WireExact put_u8 get_u8 is_u8.
Proof.
  split. eapply consumes_weaken, (consumes_le id 1 1); [|done]. simpl. intros x u (v & -> & ? & ->).
  unfold put_u8, id. rewrite <- le_bytes_1. split; [ilia|done].
Qed.
#[export] Instance u16_exact : WireExact put_u16 get_u16 is_u16.
Proof.
  split. eapply consumes_weaken, (consumes_le id 2 2); [|done]. simpl. intros x u (v & -> & ? & ->).
  split; [unfold id; ilia|done].
Qed.
#[export] Instance u32_exact : WireExact put_u32 get_u32 is_u32.
Proof.
  split. eapply consumes_weaken, (consumes_le id 4 4); [|done]. simpl. intros x u (v & -> & ? & ->).
  split; [unfold id; ilia|done].
Qed.
#[export] Instance u64_exact : WireExact put_u64 get_u64 is_u64.
Proof.
  split. eapply consumes_weaken, (consumes_le id 8 8); [|done]. simpl. intros x u (v & -> & ? & ->).
  split; [unfold id; ilia|done].
Qed.

Lemma to_signed_32 v : is_u32 v -> is_i32 (to_signed 32 v) /\ wrap32 (to_signed 32 v) = v.
Proof.
  intros Hv. unfold to_signed, wrap32, is_u32, is_i32, i32_min, i32_max, u32_max in *.
  change (2 ^ (32 - 1)) with 2147483648. change (2 ^ 32) with 4294967296.
  destruct (Z.ltb_spec v 2147483648); (split; [lia|Z.to_euclidean_division_equations; lia]).
Qed.

#[export] Instance i32_exact : WireExact put_i32 get_i32 is_i32.
Proof.
  split. unfold get_i32. eapply consumes_bind; [apply (wire_consumes (WireExact := u32_exact))|].
  intros v u [Hv ->]. apply consumes_ret. rewrite app_nil_r. unfold put_i32.
  destruct (to_signed_32 v Hv) as [? ->]. done.
Qed.

(** A 64-bit integer as two 32-bit halves. *)
Lemma lor_halves lo hi : is_u32 lo -> Z.lor lo (Z.shiftl hi 32) = lo + 2 ^ 32 * hi.
Proof.
  intros Hlo. rewrite Z.shiftl_mul_pow2, (Z.mul_comm hi) by done.
  symmetry. apply Z.add_nocarry_lor, Z.bits_inj'. intros n Hn. rewrite Z.land_spec, Z.bits_0.
  destruct (Z_lt_ge_dec n 32).
  - by rewrite (Z.mul_comm (2 ^ 32)), (Z.mul_pow2_bits_low _ 32), andb_false_r by lia.
  - rewrite <- (Z.mod_small lo (2 ^ 32)) by (change (2 ^ 32) with 4294967296; ilia).
    by rewrite Z.mod_pow2_bits_high by lia.
Qed.

(** One field of a decoder: the value, its range and its bytes go to the context. *)
Ltac exact_field :=
  eapply consumes_bind; [apply wire_consumes|];
  let v := fresh "v" in let u := fresh "u" in let Hv := fresh "Hv" in
  intros v u [Hv ->]; cbv beta.

(** A check of the decoder. *)
Ltac exact_check :=
  apply consumes_lift; let Hc := fresh "Hc" in
  intros [] Hc; unfold fail_if in Hc;
  match type of Hc with (if ?b then _ else _) = _ =>
    let Eb := fresh "Eb" in destruct b eqn:Eb; [discriminate Hc|clear Hc] end; cbv beta.

(** The end of a decoder: the fields' bytes are the encoder's. *)
Ltac exact_done := apply consumes_ret; rewrite ?app_nil_r, <- ?app_assoc.

Lemma exact_list {A} (encode : A -> list byte) decode valid `{!WireExact encode decode valid} n :
  consumes (parse_list n decode)
    (fun xs u => length xs = n /\ Forall valid xs /\ u = concat (map encode xs)).
Proof.
  eapply consumes_weaken, consumes_list, wire_consumes.
  intros xs u (Hn & us & -> & H). split; [done|].
  induction H in n, Hn |- *; [done|]. destruct H as [? ->].
  destruct n; [done|]. injection Hn as Hn. destruct (IHForall2 n Hn) as [? E].
  split; [by constructor|]. simpl. by rewrite E.
Qed.

(** ** Arrays, tags and bytes *)

Definition array_of {A} (valid : A -> Prop) (n : nat) (xs : list A) : Prop :=
  length xs = n /\ Forall valid xs.

#[export] Instance u8_codec : WireCodec put_u8 get_u8 is_u8 := {| wire_parses := parses_put_u8 |}.
#[export] Instance u32_codec : WireCodec put_u32 get_u32 is_u32 := {| wire_parses := parses_put_u32 |}.
#[export] Instance i32_codec : WireCodec put_i32 get_i32 is_i32 := {| wire_parses := parses_put_i32 |}.
#[export] Instance f32_codec : WireCodec put_f32 get_f32 is_u32 := {| wire_parses := parses_put_f32 |}.
#[export] Instance f32_exact : WireExact put_f32 get_f32 is_u32 := u32_exact.

Lemma array_codec {A} (encode : A -> list byte) decode valid n :
  WireCodec encode decode valid ->
  WireCodec (fun xs => concat (map encode xs)) (parse_list n decode) (array_of valid n).
Proof. intros ?. split. intros xs [Hn Hv]. by apply wire_list with (valid := valid). Qed.

Lemma array_exact {A} (encode : A -> list byte) decode valid n :
  WireExact encode decode valid ->
  WireExact (fun xs => concat (map encode xs)) (parse_list n decode) (array_of valid n).
Proof.
  intros ?. split. eapply consumes_weaken, exact_list, _. intros xs u (Hn & Hv & ->). by repeat split.
Qed.

Lemma bytes_exact n : 0 <= n -> WireExact put_bytes (get_bytes n) (fun u => zlen u = n).
Proof.
  intros Hn. split. eapply consumes_weaken, consumes_wr_take, Hn. by intros x u [-> ?].
Qed.
(** The last field needs its bytes ended by the empty list. *)
Ltac wire_last := eapply parses_end; [solve [eauto with wire]|]; apply parses_ret.

(** The next tag the decoder compares with. *)
Ltac next_tag :=
  match goal with |- consumes (if ?v =? ?k then _ else _) _ =>
    destruct (Z.eqb_spec v k) as [->|_] end.

(** A tag of one byte. *)
Definition get_tag {A} (from_tag : Z -> Result WireError A) : WParser A :=
  tag ← get_u8; x ← lift (from_tag tag); mret x.

Lemma parses_tag {A} (tag : A -> Z) from_tag x :
  is_u8 (tag x) -> from_tag (tag x) = Ok x -> parses (get_tag from_tag) (put_u8 (tag x)) x.
Proof.
  intros Hx Hf. eapply parses_end; [by apply parses_put_u8|]. eapply parses_lift; [exact Hf|]. apply parses_ret.
Qed.

Lemma tag_exact {A} (tag : A -> Z) from_tag :
  (forall v x, from_tag v = Ok x -> v = tag x) ->
  WireExact (fun x => put_u8 (tag x)) (get_tag from_tag) (fun _ => True).
Proof.
  intros Hf. split. unfold get_tag. exact_field. apply consumes_lift. intros x ->%Hf. by exact_done.
Qed.

(** What a chain of comparisons makes of a tag. *)
Ltac tag_inv :=
  repeat match goal with |- context [Z.eqb ?v ?k] =>
    destruct (Z.eqb_spec v k) as [->|_]; [by intros [= <-]|] end; done.

(** A codec whose encoder may panic: what it writes is read back. *)
Class PartialCodec {A : Type} (encode : A -> option (list byte)) (decode : WParser A) (valid : A -> Prop)
    : Prop :=
  { partial_parses x u : valid x -> encode x = Some u -> parses decode u x }.
