(* ===== verification/FireVerdict.v ===== *)
(** * Fire verdicts

    What the host says about the fire commands of a client: the results it sends
    (crates/sim/src/tick_result.rs, their wire form in crates/net/src/transport/fire_result.rs)
    and the table a client keeps of them for its predicted shots
    ([FireVerdictState] of crates/net/src/client/fire_verdict.rs). *)

From S2P Require Import Wire.

#[local] Open Scope Z_scope.

(** ** Data *)

Record FireCause : Type := mkCause {
  cause_client : Z; cause_life : Z; cause_command : Z; cause_ordinal : Z; cause_hand : Z }.

Inductive FireCommandRefusal : Type := MatchInactive | NotAlive | MissingPlayer | StaleCommand.

Inductive FireCommandOutcome : Type :=
| NotRun (reason : FireCommandRefusal)
| Executed (first second : option FireCause).

Record FireCommandResult : Type := mkFireResult {
  fc_client : Z; fc_life : option Z; fc_command : Z; fc_outcome : FireCommandOutcome }.

#[export] Instance FireCause_eq_dec : EqDecision FireCause.
Proof. solve_decision. Defined.
#[export] Instance FireCommandRefusal_eq_dec : EqDecision FireCommandRefusal.
Proof. solve_decision. Defined.
#[export] Instance FireCommandOutcome_eq_dec : EqDecision FireCommandOutcome.
Proof. solve_decision. Defined.
#[export] Instance FireCommandResult_eq_dec : EqDecision FireCommandResult.
Proof. solve_decision. Defined.

(** ** Wire form *)

Definition MAX_FIRE_RESULTS : Z := 64.

Definition encode_fire_cause (cause : option FireCause) : list byte :=
  match cause with
  | None => put_u8 0
  | Some cause =>
      put_u8 1 ++ put_u32 (cause_client cause) ++ put_u32 (cause_life cause) ++
      put_u32 (cause_command cause) ++ put_u16 (cause_ordinal cause) ++ put_u8 (cause_hand cause)
  end.

Definition decode_fire_cause : WParser (option FireCause) :=
  tag ← get_u8;
  if tag =? 0 then mret None
  else if tag =? 1 then
    client ← get_u32;
    life ← get_u32;
    command ← get_u32;
    ordinal ← get_u16;
    hand ← get_u8;
    _ ← lift (fail_if (1 <? hand) (malformed "invalid fire cause hand"));
    mret (Some (mkCause client life command ordinal hand))
  else lift (Err (malformed "invalid fire cause tag")).

Definition refusal_tag (reason : FireCommandRefusal) : Z :=
  match reason with MatchInactive => 0 | NotAlive => 1 | MissingPlayer => 2 | StaleCommand => 3 end.

Definition refusal_from_tag (tag : Z) : Result WireError FireCommandRefusal :=
  if tag =? 0 then Ok MatchInactive
  else if tag =? 1 then Ok NotAlive
  else if tag =? 2 then Ok MissingPlayer
  else if tag =? 3 then Ok StaleCommand
  else Err (malformed "invalid fire refusal tag").

Definition encode_life (life : option Z) : list byte :=
  match life with None => put_u8 0 | Some life => put_u8 1 ++ put_u32 life end.

Definition encode_outcome (outcome : FireCommandOutcome) : list byte :=
  match outcome with
  | NotRun reason => put_u8 0 ++ put_u8 (refusal_tag reason)
  | Executed first second => put_u8 1 ++ encode_fire_cause first ++ encode_fire_cause second
  end.

Definition encode_fire_result (result : FireCommandResult) : list byte :=
  put_u32 (fc_client result) ++ put_u32 (fc_command result) ++ encode_life (fc_life result) ++
  encode_outcome (fc_outcome result).

(** [assert!(results.len() <= MAX_FIRE_RESULTS)]: nothing is written when the host panics. *)
Definition encode_fire_results (results : list FireCommandResult) : option (list byte) :=
  if zlen results <=? MAX_FIRE_RESULTS
  then Some (put_u8 (zlen results) ++ concat (map encode_fire_result results))
  else None.

Definition decode_life : WParser (option Z) :=
  tag ← get_u8;
  if tag =? 0 then mret None
  else if tag =? 1 then life ← get_u32; mret (Some life)
  else lift (Err (malformed "invalid fire result life tag")).

(** The [ordinal]-th accepted cause of a result belongs to its client, life and command. *)
Definition cause_matches (client : Z) (life : option Z) (command ordinal : Z)
    (cause : option FireCause) : bool :=
  match cause with
  | None => true
  | Some cause =>
      (cause_client cause =? client) && bool_decide (Some (cause_life cause) = life) &&
      (cause_command cause =? command) && (cause_ordinal cause =? ordinal)
  end.

(** [accepted[1].is_some() && accepted[0].is_none() || (a.hand == b.hand)]. *)
Definition accepted_set_invalid (first second : option FireCause) : bool :=
  match first, second with
  | None, Some _ => true
  | Some a, Some b => cause_hand a =? cause_hand b
  | _, None => false
  end.

Definition decode_outcome (client : Z) (life : option Z) (command : Z) : WParser FireCommandOutcome :=
  tag ← get_u8;
  if tag =? 0 then
    tag ← get_u8;
    reason ← lift (refusal_from_tag tag);
    mret (NotRun reason)
  else if tag =? 1 then
    _ ← lift (fail_if (bool_decide (life = None)) (malformed "executed fire result has no life"));
    first ← decode_fire_cause;
    second ← decode_fire_cause;
    _ ← lift (fail_if (negb (cause_matches client life command 0 first &&
                             cause_matches client life command 1 second))
                (malformed "fire result cause mismatch"));
    _ ← lift (fail_if (accepted_set_invalid first second) (malformed "invalid accepted fire set"));
    mret (Executed first second)
  else lift (Err (malformed "invalid fire result outcome tag")).

Definition decode_fire_result : WParser FireCommandResult :=
  client ← get_u32;
  command ← get_u32;
  life ← decode_life;
  outcome ← decode_outcome client life command;
  mret (mkFireResult client life command outcome).

Definition decode_fire_results : WParser (list FireCommandResult) :=
  count ← get_u8;
  _ ← lift (fail_if (MAX_FIRE_RESULTS <? count) (malformed "fire result batch capacity"));
  parse_list (Z.to_nat count) decode_fire_result.

(** ** The client's table *)

Definition CAPACITY : Z := 8192.
(** Times in nanoseconds. *)
Definition RETENTION : Z := 5 * 10 ^ 9.

Inductive PredictedFireStatus : Type := Pending | Confirmed | Refused.

(** A world stamp is [Option<u64>], [None] by default. *)
Record Verdicts : Type := mkVerdicts {
  vd_world : option Z;
  vd_results : gmap (Z * Z) (FireCommandResult * Z) }.

Definition verdicts_default : Verdicts := mkVerdicts None ∅.

Definition result_key (r : FireCommandResult) : Z * Z := (fc_client r, fc_command r).

Inductive VerdictError : Type := FireResultConflict | FireResultBudget.

(** The loop of [apply] over the new results. *)
Fixpoint collect_additions (kept : gmap (Z * Z) (FireCommandResult * Z))
    (additions : gmap (Z * Z) FireCommandResult) (results : list FireCommandResult)
    : Result VerdictError (gmap (Z * Z) FireCommandResult) :=
  match results with
  | [] => Ok additions
  | result :: rest =>
      let key := result_key result in
      let previous := match kept !! key with
                      | Some (r, _) => Some r
                      | None => additions !! key
                      end in
      match previous with
      | Some r => if bool_decide (r = result) then collect_additions kept additions rest
                  else Err FireResultConflict
      | None =>
          if Z.of_nat (size kept) + Z.of_nat (size additions) =? CAPACITY then Err FireResultBudget
          else collect_additions kept (<[key := result]> additions) rest
      end
  end.

Definition fresh_at (now : Z) (entry : FireCommandResult * Z) : bool :=
  saturating_sub now entry.2 <? RETENTION.

(** The table after the world check and [retain]. *)
Definition retained (s : Verdicts) (world : option Z) (now : Z)
    : gmap (Z * Z) (FireCommandResult * Z) :=
  filter (fun e => fresh_at now e.2 = true)
    (if bool_decide (vd_world s = world) then vd_results s else ∅).

Definition verdicts_apply (s : Verdicts) (world : option Z) (now : Z)
    (results : list FireCommandResult) : Verdicts * Result VerdictError () :=
  let kept := retained s world now in
  match collect_additions kept ∅ results with
  | Err e => (mkVerdicts world kept, Err e)
  | Ok additions => (mkVerdicts world (((fun r => (r, now)) <$> additions) ∪ kept), Ok ())
  end.

Definition status (s : Verdicts) (world : option Z) (cause : FireCause) : PredictedFireStatus :=
  if bool_decide (vd_world s = world) then
    match vd_results s !! (cause_client cause, cause_command cause) with
    | None => Pending
    | Some (result, _) =>
        match fc_outcome result with
        | Executed first second =>
            if bool_decide (first = Some cause \/ second = Some cause) then Confirmed else Refused
        | NotRun _ => Refused
        end
    end
  else Pending.

Definition verdicts_clear (s : Verdicts) : Verdicts := mkVerdicts None ∅.

(** * Properties of the fire verdicts

    The wire form of a batch of results is exact, and a verdict once given stands. *)

(** ** The wire form *)

Definition valid_cause (cause : FireCause) : Prop :=
  is_u32 (cause_client cause) /\ is_u32 (cause_life cause) /\ is_u32 (cause_command cause) /\
  is_u16 (cause_ordinal cause) /\ 0 <= cause_hand cause <= 1.

(** The [ordinal]-th accepted shot of a result belongs to its client, command and life. *)
Definition shot_of (r : FireCommandResult) (ordinal : Z) (shot : option FireCause) : Prop :=
  forall cause, shot = Some cause ->
    cause_client cause = fc_client r /\ fc_life r = Some (cause_life cause) /\
    cause_command cause = fc_command r /\ cause_ordinal cause = ordinal.

(** A result the host may send: identifiers of 32 bits; an executed command names its life, its
    accepted shots are shots of that command in that life, the first one first, one per hand. *)
Definition valid_result (r : FireCommandResult) : Prop :=
  is_u32 (fc_client r) /\ is_u32 (fc_command r) /\
  (forall life, fc_life r = Some life -> is_u32 life) /\
  match fc_outcome r with
  | NotRun _ => True
  | Executed first second =>
      fc_life r <> None /\
      (forall cause, first = Some cause \/ second = Some cause -> valid_cause cause) /\
      shot_of r 0 first /\ shot_of r 1 second /\
      (first = None -> second = None) /\
      (forall a b, first = Some a -> second = Some b -> cause_hand a <> cause_hand b)
  end.

Lemma cause_matches_spec r ordinal shot :
  cause_matches (fc_client r) (fc_life r) (fc_command r) ordinal shot = true <-> shot_of r ordinal shot.
Proof.
  unfold cause_matches, shot_of. destruct shot as [c|]; [|by split].
  rewrite !andb_true_iff, !Z.eqb_eq, bool_decide_eq_true. split.
  - intros [[[? ?] ?] ?] ? [= <-]. auto.
  - intros H. destruct (H c eq_refl) as (? & ? & ? & ?). auto.
Qed.

Lemma accepted_set_spec first second :
  accepted_set_invalid first second = false <->
  (first = None -> second = None) /\
  (forall a b, first = Some a -> second = Some b -> cause_hand a <> cause_hand b).
Proof.
  destruct first as [a|], second as [b|]; cbn.
  - rewrite Z.eqb_neq. split; [|intros [_ H]; by apply (H a b)].
    intros H. split; [done|]. by intros ? ? [= <-] [= <-].
  - by split.
  - split; [done|]. intros [H _]. by specialize (H eq_refl).
  - by split.
Qed.

#[export] Instance cause_codec :
  WireCodec encode_fire_cause decode_fire_cause (fun c => forall cause, c = Some cause -> valid_cause cause).
Proof.
  split. intros [[cl li co o h]|] H; unfold decode_fire_cause, encode_fire_cause.
  - destruct (H _ eq_refl) as (? & ? & ? & ? & ?).
    cbn [cause_client cause_life cause_command cause_ordinal cause_hand] in *.
    assert (is_u8 h) by ilia. wire_step. cbn [Z.eqb Pos.eqb]. do 4 wire_step.
    eapply parses_end; [solve [eauto with wire]|]. cbv beta.
    eapply parses_lift; [unfold fail_if; by rewrite (proj2 (Z.ltb_ge 1 h)) by lia|]. apply parses_ret.
  - eapply parses_end; [solve [eauto with wire]|]. apply parses_ret.
Qed.

#[export] Instance cause_exact :
  WireExact encode_fire_cause decode_fire_cause (fun c => forall cause, c = Some cause -> valid_cause cause).
Proof.
  split. unfold decode_fire_cause. exact_field.
  destruct (Z.eqb_spec v 0) as [->|_]; [|destruct (Z.eqb_spec v 1) as [->|_]].
  - exact_done. by split.
  - do 5 exact_field. exact_check. apply Z.ltb_ge in Eb. exact_done. split; [|done].
    intros cause [= <-]. repeat split; cbn; ilia.
  - apply consumes_err.
Qed.

Lemma refusal_from_tag_of r : refusal_from_tag (refusal_tag r) = Ok r.
Proof. by destruct r. Qed.
Lemma refusal_tag_of v r : refusal_from_tag v = Ok r -> v = refusal_tag r.
Proof.
  unfold refusal_from_tag.
  repeat match goal with |- context [Z.eqb v ?k] =>
    destruct (Z.eqb_spec v k) as [->|_]; [by intros [= <-]|] end.
  done.
Qed.
Lemma refusal_tag_u8 r : is_u8 (refusal_tag r).
Proof. by destruct r. Qed.
#[local] Hint Resolve refusal_tag_u8 : wire.

#[export] Instance life_codec :
  WireCodec encode_life decode_life (fun l => forall life, l = Some life -> is_u32 life).
Proof.
  split. intros [l|] H; unfold decode_life, encode_life.
  - specialize (H l eq_refl). wire_step. cbn [Z.eqb Pos.eqb].
    eapply parses_end; [solve [eauto with wire]|]. apply parses_ret.
  - eapply parses_end; [solve [eauto with wire]|]. apply parses_ret.
Qed.

#[export] Instance life_exact :
  WireExact encode_life decode_life (fun l => forall life, l = Some life -> is_u32 life).
Proof.
  split. unfold decode_life. exact_field.
  destruct (Z.eqb_spec v 0) as [->|_]; [|destruct (Z.eqb_spec v 1) as [->|_]].
  - exact_done. by split.
  - exact_field. exact_done. split; [|done]. by intros life [= <-].
  - apply consumes_err.
Qed.

#[export] Instance result_codec : WireCodec encode_fire_result decode_fire_result valid_result.
Proof.
  split. intros [client life command outcome] (? & ? & Hl & Ho).
  unfold encode_fire_result, decode_fire_result. cbn [fc_client fc_life fc_command fc_outcome] in *.
  do 2 wire_step. eapply parses_bind; [by apply wire_parses|].
  eapply parses_end; [|apply parses_ret]. unfold decode_outcome.
  destruct outcome as [reason|first second]; cbn [encode_outcome].
  - wire_step. cbn [Z.eqb]. eapply parses_end; [solve [eauto with wire]|].
    eapply parses_lift; [apply refusal_from_tag_of|]. apply parses_ret.
  - destruct Ho as (Hlife & Hc & Hm1%cause_matches_spec & Hm2%cause_matches_spec & Hs).
    apply accepted_set_spec in Hs. cbn [fc_client fc_life fc_command] in Hm1, Hm2. wire_step. cbn [Z.eqb Pos.eqb].
    eapply parses_lift; [unfold fail_if; by rewrite bool_decide_eq_false_2|].
    eapply parses_bind; [apply wire_parses; auto|].
    eapply parses_end; [apply wire_parses; auto|].
    eapply parses_lift; [unfold fail_if; by rewrite Hm1, Hm2|].
    eapply parses_lift; [unfold fail_if; by rewrite Hs|]. apply parses_ret.
Qed.

#[export] Instance result_exact : WireExact encode_fire_result decode_fire_result valid_result.
Proof.
  split. unfold decode_fire_result. do 2 exact_field.
  eapply consumes_bind; [apply wire_consumes|]. intros life ul [Hlife ->].
  eapply consumes_bind.
  - instantiate (1 := fun o uo => valid_result (mkFireResult v life v0 o) /\ uo = encode_outcome o).
    unfold decode_outcome. exact_field.
    destruct (Z.eqb_spec v1 0) as [->|_]; [|destruct (Z.eqb_spec v1 1) as [->|_]].
    + exact_field. apply consumes_lift. intros reason Hr. apply refusal_tag_of in Hr as ->.
      exact_done. by split.
    + exact_check. apply bool_decide_eq_false in Eb.
      eapply consumes_bind; [apply wire_consumes|]. intros first u1 [H1 ->].
      eapply consumes_bind; [apply wire_consumes|]. intros second u2 [H2 ->].
      exact_check. apply negb_false_iff, andb_true_iff in Eb0 as [Hm1 Hm2]. exact_check.
      apply accepted_set_spec in Eb0.
      apply (cause_matches_spec (mkFireResult v life v0 (Executed first second))) in Hm1, Hm2.
      exact_done. split; [|done]. unfold valid_result. cbn.
      split; [done|split; [done|split; [done|split; [done|split; [|done]]]]].
      intros cause [->| ->]; auto.
    + apply consumes_err.
  - intros o uo [Ho ->]. exact_done. done.
Qed.

(** ** The table *)

Definition verdicts_ok (s : Verdicts) : Prop := Z.of_nat (size (vd_results s)) <= CAPACITY.

(** What is on record for a key: the table's result, or an addition of the batch. *)
Definition on_record (kept : gmap (Z * Z) (FireCommandResult * Z))
    (additions : gmap (Z * Z) FireCommandResult) (k : Z * Z) : option FireCommandResult :=
  match kept !! k with Some (r, _) => Some r | None => additions !! k end.

(** The results of a batch agree with each other and with what is on record. *)
Definition agreed (record : Z * Z -> option FireCommandResult) (results : list FireCommandResult) : Prop :=
  forall r, r ∈ results ->
    (forall r', record (result_key r) = Some r' -> r' = r) /\
    (forall r', r' ∈ results -> result_key r' = result_key r -> r' = r).

(** The keys on record once the batch is in. *)
Definition all_keys (kept : gmap (Z * Z) (FireCommandResult * Z))
    (additions : gmap (Z * Z) FireCommandResult) (results : list FireCommandResult) : gset (Z * Z) :=
  dom kept ∪ dom additions ∪ list_to_set (result_key <$> results).

Lemma on_record_none kept additions k :
  on_record kept additions k = None <-> k ∉ dom kept ∪ dom additions.
Proof.
  unfold on_record. rewrite elem_of_union, !elem_of_dom.
  destruct (kept !! k) as [[r t]|] eqn:E; split; intros H; try done.
  - exfalso. apply H. left. by eexists.
  - rewrite H. intros [[? ?]|[? ?]]; congruence.
  - destruct (additions !! k) eqn:E'; [|done]. exfalso. apply H. right. by eexists.
Qed.

Lemma all_keys_step kept additions result rest :
  on_record kept additions (result_key result) = None ->
  all_keys kept (<[result_key result := result]> additions) rest =
  all_keys kept additions (result :: rest).
Proof. intros _. unfold all_keys. rewrite dom_insert_L. simpl. set_solver. Qed.

Lemma all_keys_known kept additions result rest r :
  on_record kept additions (result_key result) = Some r ->
  all_keys kept additions (result :: rest) = all_keys kept additions rest.
Proof.
  intros H. unfold all_keys. simpl.
  assert (result_key result ∈ dom kept ∪ dom additions).
  { destruct (decide (result_key result ∈ dom kept ∪ dom additions)) as [|Hn]; [done|].
    apply on_record_none in Hn. congruence. }
  set_solver.
Qed.

Lemma all_keys_size kept additions results :
  dom kept ## dom additions ->
  Z.of_nat (size kept) + Z.of_nat (size additions) <= Z.of_nat (size (all_keys kept additions results)).
Proof.
  intros Hd. rewrite <- Nat2Z.inj_add, <- !size_dom, <- size_union by done.
  apply Nat2Z.inj_le, subseteq_size. unfold all_keys. set_solver.
Qed.

Lemma on_record_insert kept additions k r k' :
  on_record kept additions k = None ->
  on_record kept (<[k := r]> additions) k' = if decide (k = k') then Some r else on_record kept additions k'.
Proof.
  unfold on_record. intros H. destruct (decide (k = k')) as [->|Hne].
  - destruct (kept !! k') as [[]|]; [discriminate H|]. by rewrite lookup_insert_eq.
  - by rewrite lookup_insert_ne.
Qed.

Lemma agreed_tail record result rest : agreed record (result :: rest) -> agreed record rest.
Proof.
  intros H r Hr. destruct (H r) as [H1 H2]; [by right|]. split; [done|]. intros r' Hr'. apply H2. by right.
Qed.

(** The loop succeeds exactly on an agreed batch that fits. *)
Lemma collect_additions_ok kept results additions :
  dom kept ## dom additions ->
  Z.of_nat (size kept) + Z.of_nat (size additions) <= CAPACITY ->
  is_ok (collect_additions kept additions results) = true <->
  agreed (on_record kept additions) results /\
  Z.of_nat (size (all_keys kept additions results)) <= CAPACITY.
Proof.
  induction results as [|result rest IH] in additions |- *; intros Hd Hcap; cbn [collect_additions].
  { split; [|done]. intros _. split; [intros r Hr; by apply not_elem_of_nil in Hr|].
    unfold all_keys. simpl. rewrite union_empty_r_L, size_union, !size_dom by done. lia. }
  fold (on_record kept additions (result_key result)).
  destruct (on_record kept additions (result_key result)) as [r|] eqn:E.
  - rewrite (all_keys_known _ _ _ _ _ E).
    case_bool_decide as Hr; [subst r; rewrite IH by done|].
    + split; intros [Ha Hs]; (split; [|done]); [|by eapply agreed_tail].
      intros r Hr. assert (Hrec : forall r', on_record kept additions (result_key r) = Some r' -> r' = r).
      { intros r' H'. apply elem_of_cons in Hr as [->|Hr]; [congruence|]. by apply (proj1 (Ha r Hr)). }
      split; [done|]. intros r' Hr' Hk. apply elem_of_cons in Hr' as [->|Hr'].
      * apply Hrec. by rewrite <- Hk.
      * apply elem_of_cons in Hr as [->|Hr]; [|by apply (proj2 (Ha r Hr))].
        destruct (Ha r' Hr') as [H1 _]. symmetry. apply H1. by rewrite Hk.
    + split; [done|]. intros [Ha _]. destruct (Ha result ltac:(by left)) as [H1 _]. by apply H1 in E.
  - apply on_record_none in E as Hnew. destruct (Z.eqb_spec (Z.of_nat (size kept) + Z.of_nat (size additions)) CAPACITY) as [Hfull|Hroom].
    + split; [done|]. intros [_ Hs].
      pose proof (all_keys_size kept (<[result_key result := result]> additions) rest) as H.
      rewrite all_keys_step, map_size_insert_None, dom_insert_L in H
        by (done || apply not_elem_of_dom; set_solver).
      assert (Hdisj : dom kept ## {[result_key result]} ∪ dom additions) by set_solver.
      specialize (H Hdisj). lia.
    + rewrite IH, all_keys_step.
      * split; intros [Ha Hs]; (split; [|done]).
        -- intros r Hr. assert (Hrec : forall r', on_record kept additions (result_key r) = Some r' -> r' = r).
           { intros r' H'. apply elem_of_cons in Hr as [->|Hr]; [congruence|]. apply (proj1 (Ha r Hr)).
             rewrite on_record_insert by done. by case_decide as Hk; [rewrite <- Hk in H'; congruence|]. }
           split; [done|]. intros r' Hr' Hk.
           apply elem_of_cons in Hr' as [->|Hr'], Hr as [->|Hr]; [done| | |by apply (proj2 (Ha r Hr))].
           ++ destruct (Ha r Hr) as [H1 _]. apply H1. rewrite on_record_insert by done. by case_decide.
           ++ destruct (Ha r' Hr') as [H1 _]. symmetry. apply H1. rewrite on_record_insert by done. by case_decide.
        -- intros r Hr. destruct (Ha r ltac:(by right)) as [H1 H2]. split.
           ++ intros r'. rewrite on_record_insert by done. case_decide as Hk; [|apply H1].
              intros [= <-]. apply H2; [by left|done].
           ++ intros r' Hr'. apply H2. by right.
      * done.
      * rewrite dom_insert_L. set_solver.
      * rewrite map_size_insert_None by (apply not_elem_of_dom; set_solver). lia.
Qed.

(** What is on record after the loop: everything that was, and the batch. *)
Lemma collect_additions_record kept results additions out :
  dom kept ## dom additions -> collect_additions kept additions results = Ok out ->
  dom kept ## dom out /\
  (forall k r, on_record kept additions k = Some r -> on_record kept out k = Some r) /\
  (forall r, r ∈ results -> on_record kept out (result_key r) = Some r) /\
  (forall k r, on_record kept out k = Some r ->
     on_record kept additions k = Some r \/ (r ∈ results /\ result_key r = k)).
Proof.
  induction results as [|result rest IH] in additions |- *; cbn [collect_additions]; intros Hd H.
  { injection H as <-. split_and!; auto. intros r Hr. by apply not_elem_of_nil in Hr. }
  fold (on_record kept additions (result_key result)) in H.
  destruct (on_record kept additions (result_key result)) as [r|] eqn:E.
  - case_bool_decide as Hr; [subst r|discriminate H].
    destruct (IH additions Hd H) as (H1 & H2 & H3 & H4). split_and!; [done|done| |].
    + intros r [->|Hr]%elem_of_cons; auto.
    + intros k r Hk. apply H4 in Hk as [?|[? ?]]; [auto|]. right. split; [by right|done].
  - destruct (_ =? _); [discriminate H|]. apply on_record_none in E as Hnew.
    destruct (IH (<[result_key result := result]> additions)) as (H1 & H2 & H3 & H4);
      [rewrite dom_insert_L; set_solver|done|].
    assert (Hres : on_record kept out (result_key result) = Some result).
    { apply H2. rewrite on_record_insert by done. by case_decide. }
    split_and!; [done| | |].
    + intros k r Hk. apply H2. rewrite on_record_insert by done. case_decide; [congruence|done].
    + intros r [->|Hr]%elem_of_cons; auto.
    + intros k r Hk. apply H4 in Hk as [Hk|[? ?]]; [|right; split; [by right|done]].
      rewrite on_record_insert in Hk by done. case_decide; [|by left].
      injection Hk as <-. right. split; [by left|done].
Qed.

Lemma on_record_empty kept k : on_record kept ∅ k = fst <$> kept !! k.
Proof. unfold on_record. rewrite lookup_empty. by destruct (kept !! k) as [[]|]. Qed.

Lemma retained_size s world now : verdicts_ok s -> Z.of_nat (size (retained s world now)) <= CAPACITY.
Proof.
  intros H. unfold retained, verdicts_ok in *. case_bool_decide.
  - transitivity (Z.of_nat (size (vd_results s))); [|done].
    apply Nat2Z.inj_le, map_subseteq_size, map_filter_subseteq.
  - by rewrite map_filter_empty, map_size_empty.
Qed.

Lemma apply_size s world now results :
  verdicts_ok s -> verdicts_ok (verdicts_apply s world now results).1.
Proof.
  intros H. pose proof (retained_size s world now H) as Hk.
  unfold verdicts_apply. set (kept := retained s world now) in *.
  destruct (collect_additions kept ∅ results) as [out|e] eqn:E; [|done].
  assert (Hd : dom kept ## dom (∅ : gmap (Z * Z) FireCommandResult)) by set_solver.
  destruct (collect_additions_record _ _ _ _ Hd E) as (Hdout & _ & Hin & Hfrom).
  assert (Hok : is_ok (collect_additions kept ∅ results) = true) by by rewrite E.
  apply collect_additions_ok in Hok as [_ Hs]; [|done|rewrite map_size_empty; lia].
  unfold verdicts_ok. cbn [vd_results fst]. etransitivity; [|exact Hs].
  apply Nat2Z.inj_le. rewrite <- size_dom. apply subseteq_size.
  rewrite dom_union_L, dom_fmap_L. unfold all_keys. intros k [Hk'|Hk']%elem_of_union; [|set_solver].
  assert (Hrec : exists r, on_record kept out k = Some r).
  { destruct (on_record kept out k) eqn:Er; [eauto|]. apply on_record_none in Er. set_solver. }
  destruct Hrec as [r Hr]. apply Hfrom in Hr as [Hr|[Hr <-]].
  - rewrite on_record_empty in Hr. destruct (kept !! k) eqn:Ek; [|done].
    apply elem_of_dom_2 in Ek. set_solver.
  - apply elem_of_union_r, elem_of_list_to_set, list_elem_of_fmap. eauto.
Qed.

(** A record that is fresh survives any batch of its world, at its old time. *)
Lemma apply_keeps s world now results k e :
  vd_world s = world -> vd_results s !! k = Some e -> fresh_at now e = true ->
  vd_results (verdicts_apply s world now results).1 !! k = Some e.
Proof.
  intros Hw Hk Hf.
  assert (Hkept : retained s world now !! k = Some e).
  { unfold retained. rewrite bool_decide_eq_true_2 by done. by apply map_lookup_filter_Some. }
  unfold verdicts_apply. set (kept := retained s world now) in *.
  destruct (collect_additions kept ∅ results) as [out|err] eqn:E; [|done].
  destruct (collect_additions_record kept results ∅ out) as (Hd & _); [set_solver|done|].
  cbn [vd_results fst]. apply lookup_union_Some_raw. right. split; [|done].
  rewrite lookup_fmap, fmap_None. apply not_elem_of_dom. apply elem_of_dom_2 in Hkept. set_solver.
Qed.

Lemma apply_world s world now results : vd_world (verdicts_apply s world now results).1 = world.
Proof. unfold verdicts_apply. by destruct (collect_additions _ _ _). Qed.

(** A client's calls of [apply] in one world. *)
Definition verdicts_run (world : option Z) (s : Verdicts)
    (batches : list (Z * list FireCommandResult)) : Verdicts :=
  foldl (fun s b => (verdicts_apply s world b.1 b.2).1) s batches.

Lemma verdicts_run_keeps world s batches k e :
  vd_world s = world -> vd_results s !! k = Some e ->
  Forall (fun b => fresh_at b.1 e = true) batches ->
  vd_world (verdicts_run world s batches) = world /\
  vd_results (verdicts_run world s batches) !! k = Some e.
Proof.
  intros Hw Hk Hall. induction Hall as [|b batches Hb _ IH] in s, Hw, Hk |- *; [done|].
  apply IH; [apply apply_world|by apply apply_keeps].
Qed.

(** ** Properties *)

Lemma fire_results_parse results out :
  Forall valid_result results -> encode_fire_results results = Some out ->
  parses decode_fire_results out results.
Proof.
  unfold encode_fire_results, decode_fire_results, MAX_FIRE_RESULTS. intros Hv.
  destruct (Z.leb_spec (zlen results) 64) as [Hn|]; [|done]. intros [= <-].
  pose proof (zlen_nonneg results). assert (is_u8 (zlen results)) by ilia.
  change (byte_of (zlen results) :: ?l) with (put_u8 (zlen results) ++ l). wire_step.
  eapply parses_lift; [unfold fail_if; by rewrite (proj2 (Z.ltb_ge 64 _)) by lia|].
  apply wire_list with (valid := valid_result); [apply _|unfold zlen; lia|done].
Qed.

(** The batches of fire results are exact on the wire: a batch of at most
    [MAX_FIRE_RESULTS] legal results is read back as it was written, and whatever bytes the
    decoder accepts are exactly the encoding of a batch of legal results: no cause of another
    client, life or command, no two shots of one hand, no second shot without a first. *)
Theorem fire_results_exact :
  (forall results out, Forall valid_result results -> encode_fire_results results = Some out ->
     parses decode_fire_results out results) /\
  consumes decode_fire_results
    (fun results u => Forall valid_result results /\ encode_fire_results results = Some u).
Proof.
  split; [apply fire_results_parse|]. unfold encode_fire_results, decode_fire_results, MAX_FIRE_RESULTS.
  exact_field. exact_check. apply Z.ltb_ge in Eb.
  eapply consumes_weaken, exact_list, _. intros xs u (Hn & Hv' & ->). split; [done|].
  assert (zlen xs = v) as -> by (unfold zlen; rewrite Hn; ilia).
  by rewrite (proj2 (Z.leb_le v 64)) by lia.
Qed.

(** [apply] accepts a batch exactly when its results agree with each other and with the
    unexpired results of this world and everything fits in [CAPACITY]; an accepted batch is then
    on record beside all that was, a refused one leaves no trace, and the table never outgrows
    its capacity. *)
Theorem apply_agrees s world now results :
  verdicts_ok s ->
  let kept := retained s world now in
  let record k := fst <$> kept !! k in
  let s' := (verdicts_apply s world now results).1 in
  ((verdicts_apply s world now results).2 = Ok () <->
     agreed record results /\
     Z.of_nat (size (dom kept ∪ list_to_set (result_key <$> results))) <= CAPACITY) /\
  ((verdicts_apply s world now results).2 = Ok () ->
     forall k r, fst <$> vd_results s' !! k = Some r <->
       record k = Some r \/ (r ∈ results /\ result_key r = k)) /\
  ((verdicts_apply s world now results).2 <> Ok () -> vd_results s' = kept) /\
  verdicts_ok s' /\ vd_world s' = world.
Proof.
  intros Hs kept record s'. pose proof (retained_size s world now Hs) as Hk. fold kept in Hk.
  assert (Hd : dom kept ## dom (∅ : gmap (Z * Z) FireCommandResult)) by set_solver.
  pose proof (collect_additions_ok kept results ∅ Hd ltac:(rewrite map_size_empty; lia)) as Hiff.
  unfold all_keys in Hiff. rewrite dom_empty_L, union_empty_r_L in Hiff.
  assert (Hrec : agreed (on_record kept ∅) results <-> agreed record results).
  { unfold agreed. by setoid_rewrite on_record_empty. }
  rewrite Hrec in Hiff. split; [|split; [|split; [|split]]].
  - rewrite <- Hiff. unfold verdicts_apply. fold kept. by destruct (collect_additions _ _ _).
  - unfold s', verdicts_apply. fold kept.
    destruct (collect_additions kept ∅ results) as [out|e] eqn:E; [|done]. intros _ k r.
    destruct (collect_additions_record _ _ _ _ Hd E) as (Hdo & Hmono & Hin & Hfrom).
    assert (Hlook : fst <$> (((fun r => (r, now)) <$> out) ∪ kept) !! k = on_record kept out k).
    { unfold on_record. rewrite lookup_union, lookup_fmap.
      destruct (kept !! k) as [[r0 t0]|] eqn:Ek, (out !! k) eqn:Eo; try done.
      exfalso. apply elem_of_dom_2 in Ek, Eo. set_solver. }
    cbn [fst vd_results]. rewrite Hlook. unfold record. setoid_rewrite <- on_record_empty. split; [apply Hfrom|].
    intros [?|[? <-]]; auto.
  - unfold s', verdicts_apply. fold kept. by destruct (collect_additions _ _ _).
  - by apply apply_size.
  - apply apply_world.
Qed.

(** A verdict stands: once a result is on record, no batch the host sends in that world
    changes it or the status of its shots while [RETENTION] lasts, and a batch that contradicts
    it is refused as a conflict or for lack of room. *)
Theorem verdict_stands world s batches r at_ :
  vd_world s = world -> vd_results s !! result_key r = Some (r, at_) ->
  Forall (fun b => saturating_sub b.1 at_ < RETENTION) batches ->
  let s' := verdicts_run world s batches in
  vd_results s' !! result_key r = Some (r, at_) /\
  (forall cause, (cause_client cause, cause_command cause) = result_key r ->
     status s' world cause = status s world cause /\ status s' world cause <> Pending) /\
  (forall now results r', saturating_sub now at_ < RETENTION ->
     r' ∈ results -> result_key r' = result_key r -> r' <> r ->
     exists e, (verdicts_apply s' world now results).2 = Err e).
Proof.
  intros Hw Hr Hall s'.
  assert (Hfresh : forall now, saturating_sub now at_ < RETENTION -> fresh_at now (r, at_) = true).
  { intros now Hn. by apply Z.ltb_lt. }
  destruct (verdicts_run_keeps world s batches (result_key r) (r, at_)) as [Hw' Hr']; [done..| |].
  { eapply list.Forall_impl; [exact Hall|]. intros b Hb. by apply Hfresh. }
  fold s' in Hw', Hr'. split; [done|]. split.
  - intros cause Hc. unfold status. rewrite Hw, Hw', Hc, Hr, Hr', bool_decide_eq_true_2 by done.
    split; [done|]. destruct (fc_outcome r); [done|]. by case_bool_decide.
  - intros now results r' Hn Hin Hkey Hne.
    assert (Hkept : retained s' world now !! result_key r = Some (r, at_)).
    { unfold retained. rewrite bool_decide_eq_true_2 by done. apply map_lookup_filter_Some. auto. }
    unfold verdicts_apply. set (kept := retained s' world now) in *.
    destruct (collect_additions kept ∅ results) as [out|e] eqn:E; [|by exists e]. exfalso.
    assert (Hd : dom kept ## dom (∅ : gmap (Z * Z) FireCommandResult)) by set_solver.
    destruct (collect_additions_record _ _ _ _ Hd E) as (_ & _ & Hin' & _).
    specialize (Hin' r' Hin). unfold on_record in Hin'. rewrite Hkey, Hkept in Hin'. congruence.
Qed.

(** ** Instances *)

Definition demo_cause : FireCause := mkCause 3 1 40 0 0.
Definition demo_shot : FireCommandResult := mkFireResult 3 (Some 1) 40 (Executed (Some demo_cause) None).
Definition demo_refusal : FireCommandResult := mkFireResult 3 None 41 (NotRun StaleCommand).
Definition demo_table : Verdicts := (verdicts_apply verdicts_default (Some 7) 1000 [demo_shot]).1.

Example demo_status :
  (status demo_table (Some 7) demo_cause, status demo_table (Some 8) demo_cause,
   (verdicts_apply demo_table (Some 7) 2000 [demo_refusal; demo_shot]).2,
   (verdicts_apply demo_table (Some 7) 2000
      [mkFireResult 3 (Some 1) 40 (NotRun NotAlive)]).2) =
  (Confirmed, Pending, Ok (), Err FireResultConflict).
Proof. reflexivity. Qed.

Lemma apply_agrees_witness :
  let s' := (verdicts_apply demo_table (Some 7) 2000 [demo_refusal]).1 in
  fst <$> vd_results s' !! (3, 41) = Some demo_refusal /\ verdicts_ok s'.
Proof.
  assert (verdicts_ok demo_table) as Hs by (vm_compute; discriminate).
  destruct (apply_agrees demo_table (Some 7) 2000 [demo_refusal] Hs) as (_ & Hok & _ & Hsize & _).
  split; [|exact Hsize]. apply (Hok eq_refl). right. split; [by left|reflexivity].
Defined.

Lemma verdict_stands_witness :
  let s' := verdicts_run (Some 7) demo_table [(2000, [demo_refusal]); (3000, [demo_shot])] in
  status s' (Some 7) demo_cause = Confirmed.
Proof.
  destruct (verdict_stands (Some 7) demo_table [(2000, [demo_refusal]); (3000, [demo_shot])] demo_shot 1000)
    as (_ & H & _); [reflexivity|reflexivity| |].
  - repeat constructor.
  - exact (proj1 (H demo_cause eq_refl)).
Defined.
