(* ===== verification/Reliable.v ===== *)
(** * Reliable control rows: the queue, the control lane and the receiver

    [ReliableEventQueue] and [ReliableEventHub] of crates/net/src/transport/reliable.rs, the
    host side that puts rows on the control lane ([PeerReplication::queue_control] in
    crates/net/src/transport/udp_session.rs) and the client that applies and acknowledges them
    ([ReliableInbound::apply] in crates/net/src/client/runtime.rs).

    Sequence numbers are [u16], skip 0 and wrap; the [n]-th row pushed carries [seqno n]. *)

From stdpp Require Export sorting.
From S2P Require Export Prelude.
From S2P Require Import FireVerdict.

Definition MAX_PENDING_RELIABLE : Z := 64.

Inductive ActionVerdict : Type := Applied | Accepted | Refused | PayloadMismatch | Expired.

#[export] Instance action_verdict_eq_dec : EqDecision ActionVerdict.
Proof. solve_decision. Defined.

Definition verdict_tag (v : ActionVerdict) : Z :=
  match v with Applied => 0 | Accepted => 4 | Refused => 1 | PayloadMismatch => 2 | Expired => 3 end.

Definition verdict_from_tag (tag : Z) : option ActionVerdict :=
  if tag =? 0 then Some Applied
  else if tag =? 4 then Some Accepted
  else if tag =? 1 then Some Refused
  else if tag =? 2 then Some PayloadMismatch
  else if tag =? 3 then Some Expired
  else None.

(** [seq_after], also [reliable_seq_after] on the client. *)
Definition seq_after (a b : Z) : bool := negb (a =? b) && (wrapping_sub16 a b <? 0x8000).

Section Queue.
Context {Row : Type}.

Record ReliableEventQueue : Type := mkQueue {
  q_next_seq : Z;
  q_ack_through : Z;
  q_pending : list (Z * Row);
  q_dropped_oldest : Z;
}.

Definition queue_new : ReliableEventQueue := mkQueue 1 0 [] 0.

Definition queue_push (q : ReliableEventQueue) (row : Row) : ReliableEventQueue * Z :=
  if MAX_PENDING_RELIABLE <=? zlen (q_pending q) then
    (mkQueue (q_next_seq q) (q_ack_through q) (q_pending q)
       (saturating_add32 (q_dropped_oldest q) 1), 0)
  else
    let seq := if q_next_seq q =? 0 then 1 else q_next_seq q in
    (mkQueue (wrapping_add16 seq 1) (q_ack_through q) (q_pending q ++ [(seq, row)])
       (q_dropped_oldest q), seq).

Definition queue_ack (q : ReliableEventQueue) (through : Z) : ReliableEventQueue :=
  if through =? 0 then q
  else
    let keep := if seq_after through (q_ack_through q) then through else q_ack_through q in
    mkQueue (q_next_seq q) keep (filter (fun p => seq_after p.1 keep = true) (q_pending q))
      (q_dropped_oldest q).

Record ReliablePayload : Type := mkPayload {
  pl_ack_through : Z;
  pl_rows : list (Z * Row);
  pl_dropped_oldest : Z;
}.

Definition owes_nothing : ReliablePayload := mkPayload 0 [] 0.

Definition queue_payload (q : ReliableEventQueue) : ReliablePayload :=
  mkPayload (q_ack_through q) (q_pending q) (q_dropped_oldest q).

(** ** [ReliableEventHub]: one queue per client *)

Definition Hub : Type := gmap Z ReliableEventQueue.

Definition hub_queue (hub : Hub) (client : Z) : ReliableEventQueue :=
  default queue_new (hub !! client).

Definition hub_push (hub : Hub) (client : Z) (row : Row) : Hub * Z :=
  let '(q, seq) := queue_push (hub_queue hub client) row in (<[client := q]> hub, seq).

(** [push_outcome]: an outcome already pending is not queued twice. *)
Definition hub_push_outcome `{EqDecision Row} (hub : Hub) (client : Z) (outcome : Row) : Hub * Z :=
  let q := hub_queue hub client in
  match find (fun p => bool_decide (p.2 = outcome)) (q_pending q) with
  | Some (seq, _) => (<[client := q]> hub, seq)
  | None => let '(q, seq) := queue_push q outcome in (<[client := q]> hub, seq)
  end.

Definition hub_payload (hub : Hub) (client : Z) : ReliablePayload :=
  match hub !! client with Some q => queue_payload q | None => owes_nothing end.

Definition hub_ack (hub : Hub) (client : Z) (through : Z) : Hub :=
  match hub !! client with Some q => <[client := queue_ack q through]> hub | None => hub end.

Definition hub_ack_all (hub : Hub) (client : Z) : Hub :=
  match hub !! client with
  | Some q => match list.last (q_pending q) with
              | Some (seq, _) => <[client := queue_ack q seq]> hub
              | None => hub
              end
  | None => hub
  end.

Definition hub_retire (hub : Hub) (client : Z) : Hub := delete client hub.

Definition overflowed (hub : Hub) (client : Z) : bool :=
  match hub !! client with Some q => negb (q_dropped_oldest q =? 0) | None => false end.

(** ** The control lane: each row is enqueued once *)

Record ControlLane : Type := mkLane {
  ln_last_control_seq : option Z;
  ln_control_drops_sent : Z;
}.

Definition lane_new : ControlLane := mkLane None 0.

(** [queue_control]: the packet to enqueue, if there is anything new, and the lane after it. *)
Definition queue_control (lane : ControlLane) (payload : ReliablePayload)
    : ControlLane * option ReliablePayload :=
  let rows := filter (fun p =>
      match ln_last_control_seq lane with
      | None => true
      | Some last => seq_after p.1 last
      end = true) (pl_rows payload) in
  let dropped := pl_dropped_oldest payload in
  if (zlen rows =? 0) && (dropped =? ln_control_drops_sent lane) then (lane, None)
  else
    let last := match list.last rows with
                | Some (seq, _) => Some seq
                | None => ln_last_control_seq lane
                end in
    (mkLane last dropped, Some (mkPayload (pl_ack_through payload) rows dropped)).

(** ** The receiver *)

(** What one row does at the client: it is applied, it waits for something the client does not
    have yet ([break]), or it ends the connection ([fail]); see [client_row_effect] below. *)
Inductive RowEffect : Type := RowApply | RowWait | RowFail.

Record Receiver : Type := mkReceiver {
  rc_ack : Z;
  rc_applied : list Row;     (* the rows applied since the connection began, in order *)
  rc_failed : bool;
}.

(** The loop over the sorted rows: the acknowledgement, the rows applied, whether it failed.
    What a row does may depend on the rows applied before it. *)
Fixpoint apply_rows (row_effect : list Row -> Row -> RowEffect) (ack : Z) (applied : list Row)
    (rows : list (Z * Row)) : Z * list Row * bool :=
  match rows with
  | [] => (ack, applied, false)
  | (seq, row) :: rest =>
      if negb (seq_after seq ack) then apply_rows row_effect ack applied rest
      else match row_effect applied row with
           | RowWait => (ack, applied, false)
           | RowFail => (ack, applied, true)
           | RowApply => apply_rows row_effect seq (applied ++ [row]) rest
           end
  end.

(** The order of [rows.sort_by_key(|(seq, _)| seq.wrapping_sub(self.ack.0))], a stable sort. *)
Definition seq_le (ack : Z) (a b : Z * Row) : Prop :=
  wrapping_sub16 a.1 ack <= wrapping_sub16 b.1 ack.

#[export] Instance seq_le_dec ack : RelDecision (seq_le ack) := fun a b => Z_le_dec _ _.

(** [ReliableInbound::apply]; [is_failure] recognises [ReliableRow::Failure], looked for before
    anything is applied. *)
Definition receive (row_effect : list Row -> Row -> RowEffect) (is_failure : Row -> bool)
    (r : Receiver) (payload : ReliablePayload) : Receiver :=
  if negb (pl_dropped_oldest payload =? 0) then mkReceiver (rc_ack r) (rc_applied r) true
  else if existsb (fun p => is_failure p.2) (pl_rows payload)
  then mkReceiver (rc_ack r) (rc_applied r) true
  else
    let rows := merge_sort (seq_le (rc_ack r)) (pl_rows payload) in
    let '(ack, applied, failed) := apply_rows row_effect (rc_ack r) (rc_applied r) rows in
    mkReceiver ack applied (rc_failed r || failed).

End Queue.
Arguments ReliableEventQueue : clear implicits.
Arguments ReliablePayload : clear implicits.
Arguments Receiver : clear implicits.
Arguments Hub : clear implicits.

(** ** The rows of the game *)

Section Rows.
(** The values carried by rows the loop hands on without looking at them. *)
Context {Audio Card Menu Splash Notify Event : Type}.

Inductive ReliableRow : Type :=
| RowFailure (reason : list byte)
| RowSound (stop : bool) (index : Z)
| RowScriptAudio (cmd : Audio)
| RowCard (cmd : Card)
| RowMenu (cmd : Menu)
| RowSplash (cmd : Splash)
| RowNotify (cmd : Notify)
| RowScores (cmd : list byte)
| RowEvent (event : Event)
| RowFireCommands (results : list FireCommandResult)
| RowActionOutcome (request_id : Z) (verdict : ActionVerdict).

Definition row_is_failure (row : ReliableRow) : bool :=
  match row with RowFailure _ => true | _ => false end.

(** The [match] of the loop, for the client [local]: a sound waits for its configuration
    string, results for another client or in conflict with earlier ones and two of the action
    verdicts end the connection, everything else is applied. *)
Definition client_row_effect (local : Z) (sound_ready : Z -> bool)
    (fire_verdicts : list ReliableRow -> list FireCommandResult -> bool)
    (applied : list ReliableRow) (row : ReliableRow) : RowEffect :=
  match row with
  | RowFireCommands results =>
      if existsb (fun result => negb (fc_client result =? local)) results then RowFail
      else if fire_verdicts applied results then RowApply else RowFail
  | RowSound _ index => if sound_ready index then RowApply else RowWait
  | RowActionOutcome _ PayloadMismatch | RowActionOutcome _ Expired => RowFail
  | RowFailure _ => RowFail (* handled before the loop *)
  | _ => RowApply
  end.
End Rows.
Arguments ReliableRow : clear implicits.

(** ** Host, lane and client together *)

Section Link.
Context {Row : Type}.
Context (is_failure : Row -> bool).

Record Link : Type := mkLink {
  lk_queue : ReliableEventQueue Row;
  lk_lane : ControlLane;
  lk_wire : list (ReliablePayload Row);  (* enqueued on the ordered control stream *)
  lk_receiver : Receiver Row;
  lk_acks : list (Z * Z);                (* acknowledgements sent, with the number of rows pushed by then *)
  lk_pushed : list Row;                  (* rows the queue accepted, from the beginning *)
}.

Definition link_new : Link := mkLink queue_new lane_new [] (mkReceiver 0 [] false) [] [].

Definition link_push (st : Link) (row : Row) : Link :=
  let '(q, seq) := queue_push (lk_queue st) row in
  mkLink q (lk_lane st) (lk_wire st) (lk_receiver st) (lk_acks st)
    (if seq =? 0 then lk_pushed st else lk_pushed st ++ [row]).

Definition link_flush (st : Link) : Link :=
  let '(lane, packet) := queue_control (lk_lane st) (queue_payload (lk_queue st)) in
  mkLink (lk_queue st) lane
    (lk_wire st ++ match packet with Some p => [p] | None => [] end)
    (lk_receiver st) (lk_acks st) (lk_pushed st).

Definition link_deliver (row_effect : list Row -> Row -> RowEffect) (st : Link) : Link :=
  match lk_wire st with
  | [] => st
  | p :: wire =>
      let r := receive row_effect is_failure (lk_receiver st) p in
      mkLink (lk_queue st) (lk_lane st) wire r
        (lk_acks st ++ [(zlen (lk_pushed st), rc_ack r)]) (lk_pushed st)
  end.

Definition link_ack (st : Link) (through : Z) : Link :=
  mkLink (queue_ack (lk_queue st) through) (lk_lane st) (lk_wire st) (lk_receiver st)
    (lk_acks st) (lk_pushed st).

End Link.
Arguments Link : clear implicits.
