(* ===== verification/ReliableSpec.v ===== *)
(** * Reliable control rows: delivery

    The [n]-th accepted row carries [seqno n].  Within [WINDOW] rows the wrapping comparison
    of sequence numbers is the comparison of positions, so the queue is the tail of the rows
    pushed, the lane carries each row once, and the client applies the rows in order, once:
    the behaviour of an unbounded log ([queue_rep], [link_inv]). *)

From S2P Require Export Reliable.

(** Positions may differ by this much: the acknowledgement of a row may be that many rows old
    when it arrives.  A queue holds 64. *)
Definition WINDOW : Z := 32000.

Definition seqno (i : Z) : Z := 1 + i mod 65535.
(** What acknowledges the first [a] rows. *)
Definition ack_no (a : Z) : Z := if a =? 0 then 0 else seqno (a - 1).

Lemma seqno_range i : 1 <= seqno i <= 65535.
Proof. unfold seqno. pose proof (Z.mod_pos_bound i 65535). lia. Qed.

Lemma seq_window i a :
  0 <= i -> 0 <= a -> i - a < WINDOW -> a - i <= WINDOW ->
  seq_after (seqno i) (ack_no a) = (a <=? i).
Proof.
  unfold seq_after, ack_no, seqno, WINDOW, wrapping_sub16, wrap16. intros Hi Ha H1 H2.
  change (2 ^ 16) with 65536. destruct (Z.eqb_spec a 0) as [->|Hne].
  - rewrite (Z.mod_small i) by lia. rewrite Z.mod_small by lia. lia.
  - Z.to_euclidean_division_equations. lia.
Qed.

Lemma ack_window b a :
  0 <= b -> 0 <= a -> b - a <= WINDOW -> a - b < WINDOW ->
  b <> 0 -> seq_after (ack_no b) (ack_no a) = (a <? b).
Proof.
  intros Hb Ha H1 H2 Hne. unfold ack_no at 1. destruct (Z.eqb_spec b 0); [done|].
  rewrite seq_window by lia. lia.
Qed.

Section Numbered.
Context {Row : Type}.

(** Rows with the sequence numbers of the positions from [i]. *)
Fixpoint numbered (i : Z) (rows : list Row) : list (Z * Row) :=
  match rows with
  | [] => []
  | row :: rest => (seqno i, row) :: numbered (i + 1) rest
  end.

Lemma zlen_numbered i rows : zlen (numbered i rows) = zlen rows.
Proof.
  revert i. induction rows as [|r rows IH]; intros i; cbn [numbered]; [done|].
  by rewrite !zlen_cons, IH.
Qed.

Lemma numbered_app i r1 r2 : numbered i (r1 ++ r2) = numbered i r1 ++ numbered (i + zlen r1) r2.
Proof.
  revert i. induction r1 as [|r r1 IH]; intros i; cbn [numbered app].
  - rewrite zlen_nil. by rewrite Z.add_0_r.
  - rewrite IH, zlen_cons. do 3 f_equal. lia.
Qed.

Lemma elem_of_numbered i rows p :
  p ∈ numbered i rows -> exists j, i <= j < i + zlen rows /\ p.1 = seqno j.
Proof.
  revert i. induction rows as [|r rows IH]; intros i; cbn [numbered].
  - by intros ?%elem_of_nil.
  - rewrite zlen_cons. pose proof (zlen_nonneg rows). intros [->|Hp]%elem_of_cons.
    + exists i. cbn. split; [lia|done].
    + apply IH in Hp as (j & Hj & ->). exists j. split; [lia|done].
Qed.

Lemma last_numbered i rows :
  list.last (numbered i rows) =
    match list.last rows with Some r => Some (seqno (i + zlen rows - 1), r) | None => None end.
Proof.
  destruct rows as [|r rows] using rev_ind; [done|].
  rewrite numbered_app. cbn [numbered]. rewrite !list.last_snoc, zlen_snoc.
  do 3 f_equal. lia.
Qed.

(** The rows of a window that a wrapping comparison with position [a] keeps. *)
Lemma filter_numbered i rows a :
  0 <= i -> 0 <= a -> i + zlen rows - a <= WINDOW -> a - i <= WINDOW ->
  filter (fun p => seq_after p.1 (ack_no a) = true) (numbered i rows) =
    numbered (Z.max i a) (zdrop (a - i) rows).
Proof.
  revert i. induction rows as [|r rows IH]; intros i Hi Ha H1 H2; cbn [numbered].
  - unfold zdrop. by rewrite drop_nil.
  - rewrite zlen_cons in H1. pose proof (zlen_nonneg rows).
    rewrite filter_cons. cbn [fst]. rewrite seq_window by lia. rewrite IH by lia.
    destruct (Z.leb_spec a i) as [Hle|Hlt].
    + rewrite decide_True by done. unfold zdrop.
      replace (Z.to_nat (a - i)) with 0%nat by lia.
      replace (Z.to_nat (a - (i + 1))) with 0%nat by lia. rewrite !drop_0. cbn [numbered].
      replace (Z.max i a) with i by lia. by replace (Z.max (i + 1) a) with (i + 1) by lia.
    + rewrite decide_False by done. unfold zdrop.
      replace (Z.to_nat (a - i)) with (S (Z.to_nat (a - (i + 1)))) by lia. cbn [drop].
      by replace (Z.max (i + 1) a) with (Z.max i a) by lia.
Qed.

(** ** The queue *)

Record queue_rep (q : ReliableEventQueue Row) (rows : list Row) (a : Z) : Prop := {
  qr_range : 0 <= a <= zlen rows;
  qr_bound : zlen rows - a <= MAX_PENDING_RELIABLE;
  qr_pending : q_pending q = numbered a (zdrop a rows);
  qr_ack : q_ack_through q = ack_no a;
  qr_next : (if q_next_seq q =? 0 then 1 else q_next_seq q) = seqno (zlen rows);
}.

Lemma zlen_zdrop {A} a (l : list A) : 0 <= a <= zlen l -> zlen (zdrop a l) = zlen l - a.
Proof. unfold zlen, zdrop. intros. rewrite length_drop. lia. Qed.

Lemma zdrop_app_le {A} a (l1 l2 : list A) : 0 <= a <= zlen l1 -> zdrop a (l1 ++ l2) = zdrop a l1 ++ l2.
Proof.
  unfold zlen, zdrop. intros. rewrite drop_app. f_equal.
  by replace (Z.to_nat a - length l1)%nat with 0%nat by lia.
Qed.

Lemma zdrop_zdrop {A} a b (l : list A) : 0 <= a -> 0 <= b -> zdrop a (zdrop b l) = zdrop (a + b) l.
Proof. unfold zdrop. intros. rewrite drop_drop. f_equal. lia. Qed.

Lemma queue_new_rep : queue_rep queue_new [] 0.
Proof. split; try done. Qed.

Lemma queue_push_full q rows a row :
  queue_rep q rows a -> zlen rows - a = MAX_PENDING_RELIABLE ->
  exists q', queue_push q row = (q', 0) /\ queue_rep q' rows a /\
    q_dropped_oldest q' = saturating_add32 (q_dropped_oldest q) 1.
Proof.
  intros [Hr Hb Hp Ha Hn] Hfull. unfold queue_push.
  rewrite Hp, zlen_numbered, zlen_zdrop by lia.
  rewrite (proj2 (Z.leb_le _ _)) by lia. eexists. split; [done|]. by split.
Qed.

Lemma next_seqno n : 0 <= n ->
  (if wrapping_add16 (seqno n) 1 =? 0 then 1 else wrapping_add16 (seqno n) 1) = seqno (n + 1).
Proof.
  intros Hn. unfold seqno, wrapping_add16, wrap16. change (2 ^ 16) with 65536.
  destruct (Z.eqb_spec ((1 + n mod 65535 + 1) mod 65536) 0);
    Z.to_euclidean_division_equations; lia.
Qed.

Lemma queue_push_room q rows a row :
  queue_rep q rows a -> zlen rows - a < MAX_PENDING_RELIABLE ->
  exists q', queue_push q row = (q', seqno (zlen rows)) /\ queue_rep q' (rows ++ [row]) a /\
    q_dropped_oldest q' = q_dropped_oldest q.
Proof.
  intros [Hr Hb Hp Ha Hn] Hroom. unfold queue_push.
  rewrite Hp, zlen_numbered, zlen_zdrop by lia.
  rewrite (proj2 (Z.leb_gt _ _)) by lia. rewrite Hn. eexists. split; [done|]. split; [|done].
  split; cbn [q_pending q_ack_through q_next_seq]; rewrite ?zlen_snoc; try lia.
  - rewrite zdrop_app_le by lia. rewrite numbered_app. cbn [numbered]. f_equal.
    rewrite zlen_zdrop by lia. do 3 f_equal. lia.
  - apply next_seqno. lia.
Qed.

Lemma queue_ack_rep q rows a b :
  queue_rep q rows a -> 0 <= b <= zlen rows -> a - b < WINDOW ->
  queue_rep (queue_ack q (ack_no b)) rows (Z.max a b) /\
  q_dropped_oldest (queue_ack q (ack_no b)) = q_dropped_oldest q.
Proof.
  intros [Hr Hb Hp Ha Hn] Hrange Hold. unfold queue_ack.
  destruct (Z.eqb_spec b 0) as [->|Hne].
  - cbn [ack_no Z.eqb]. replace (Z.max a 0) with a by lia. by split.
  - assert (ack_no b <> 0) as Hb0.
    { unfold ack_no. destruct (Z.eqb_spec b 0); [done|]. pose proof (seqno_range (b - 1)). lia. }
    apply Z.eqb_neq in Hb0. rewrite Hb0. split; [|done].
    unfold MAX_PENDING_RELIABLE, WINDOW in *.
    rewrite Ha, ack_window by (unfold WINDOW; lia).
    assert ((if a <? b then ack_no b else ack_no a) = ack_no (Z.max a b)) as ->.
    { destruct (Z.ltb_spec a b); f_equal; lia. }
    split; cbn [q_pending q_ack_through q_next_seq]; [lia|unfold MAX_PENDING_RELIABLE; lia| |done|done].
    rewrite Hp, filter_numbered by (rewrite ?zlen_zdrop by lia; unfold WINDOW in *; lia).
    rewrite zdrop_zdrop by lia. f_equal; [lia|f_equal; lia].
Qed.

End Numbered.

(** ** Receiving a window of rows *)

Section Receive.
Context {Row : Type}.
Context (is_failure : Row -> bool).
Implicit Types (rows : list Row).

Definition seq_key (a j : Z) : Z := wrapping_sub16 (seqno j) (ack_no a).

(** Sorting by distance from the acknowledgement keeps rows behind it in order. *)
Lemma seq_key_mono a i j :
  0 <= a -> 0 <= i -> 0 <= j -> i - a < WINDOW -> a - i <= WINDOW -> j - a < WINDOW ->
  a - j <= WINDOW -> (a - 1 <= i < j \/ i < j < a - 1 \/ j < a - 1 <= i) -> seq_key a i < seq_key a j.
Proof.
  unfold seq_key, ack_no, seqno, WINDOW, wrapping_sub16, wrap16. intros.
  change (2 ^ 16) with 65536. destruct (Z.eqb_spec a 0) as [->|Hne].
  - rewrite (Z.mod_small i), (Z.mod_small j) by lia. rewrite !Z.mod_small by lia. lia.
  - Z.to_euclidean_division_equations. lia.
Qed.

Lemma elem_of_numbered_at i rows p :
  p ∈ numbered i rows -> exists n r, rows !! n = Some r /\ p = (seqno (i + Z.of_nat n), r).
Proof.
  revert i. induction rows as [|r rows IH]; intros i; cbn [numbered].
  - by intros ?%elem_of_nil.
  - intros [->|Hp]%elem_of_cons.
    + exists 0%nat, r. split; [done|]. by rewrite Z.add_0_r.
    + apply IH in Hp as (n & r' & Hn & ->). exists (S n), r'. split; [done|]. do 2 f_equal. lia.
Qed.

#[export] Instance seq_le_total ack : Total (@seq_le Row ack).
Proof. intros x y. unfold seq_le. lia. Qed.
#[export] Instance seq_le_trans ack : Transitive (@seq_le Row ack).
Proof. intros x y z. unfold seq_le. lia. Qed.

Lemma numbered_sorted a i rows :
  0 <= a -> 0 <= i -> a - i <= WINDOW -> i + zlen rows - a <= WINDOW ->
  (a - 1 <= i \/ i + zlen rows <= a - 1) -> StronglySorted (seq_le (ack_no a)) (numbered i rows).
Proof.
  revert i. induction rows as [|r rows IH]; intros i Ha Hi H1 H2 Hside; cbn [numbered];
    constructor; rewrite zlen_cons in *; pose proof (zlen_nonneg rows).
  - apply IH; lia.
  - apply list.Forall_forall. intros p (j & Hj & Hp)%elem_of_numbered.
    unfold seq_le. rewrite Hp. cbn [fst].
    apply Z.lt_le_incl, (seq_key_mono a i j); lia.
Qed.

Lemma take_drop_z {A} n (l : list A) : ztake n l ++ zdrop n l = l.
Proof. apply take_drop. Qed.

Lemma zlen_ztake {A} n (l : list A) : 0 <= n <= zlen l -> zlen (ztake n l) = n.
Proof. unfold zlen, ztake. intros. rewrite length_take. lia. Qed.

(** Sorting rows that lie ahead of the acknowledgement changes nothing. *)
Lemma sort_ahead b k rows :
  0 <= b <= k -> k + zlen rows - b < WINDOW ->
  merge_sort (seq_le (ack_no b)) (numbered k rows) = numbered k rows.
Proof.
  intros Hb H. pose proof (zlen_nonneg rows). apply (StronglySorted_unique_strong (seq_le (ack_no b))).
  - intros x y Hx Hy Hxy Hyx. rewrite merge_sort_Permutation in Hx.
    apply elem_of_numbered_at in Hx as (n1 & r1 & Hn1 & ->).
    apply elem_of_numbered_at in Hy as (n2 & r2 & Hn2 & ->).
    pose proof (lookup_lt_Some _ _ _ Hn1). pose proof (lookup_lt_Some _ _ _ Hn2).
    unfold seq_le in *. cbn [fst] in *. unfold zlen in *.
    destruct (decide (n1 = n2)) as [->|Hne]; [congruence|]. exfalso.
    pose proof (seq_key_mono b (k + Z.of_nat n1) (k + Z.of_nat n2)).
    pose proof (seq_key_mono b (k + Z.of_nat n2) (k + Z.of_nat n1)).
    unfold seq_key in *. lia.
  - apply StronglySorted_merge_sort; apply _.
  - apply numbered_sorted; lia.
  - apply merge_sort_Permutation.
Qed.

(** Why the rows behind the [n]-th were not applied: a row failed, or one waits. *)
Definition stopped (eff : list Row -> Row -> RowEffect) (rows : list Row) (n : nat) (failed : bool) : Prop :=
  if failed then (n < length rows)%nat
  else n = length rows \/ exists h row, row ∈ drop n rows /\ eff h row = RowWait.

(** Rows ahead of the acknowledgement are applied, in order, up to the first that waits or
    fails. *)
Lemma apply_rows_ahead eff rows : forall b h k,
  0 <= b <= k -> k + zlen rows - b < WINDOW ->
  exists n b' failed, (n <= length rows)%nat /\ b <= b' <= k + Z.of_nat n /\
    apply_rows eff (ack_no b) h (numbered k rows) = (ack_no b', h ++ take n rows, failed) /\
    stopped eff rows n failed.
Proof.
  induction rows as [|row rows IH]; intros b h k Hb Hw; cbn [numbered apply_rows].
  - exists 0%nat, b, false. rewrite app_nil_r. split_and!; [done|lia|lia|done|by left].
  - rewrite zlen_cons in Hw. pose proof (zlen_nonneg rows).
    rewrite seq_window by lia. rewrite (proj2 (Z.leb_le _ _)) by lia. cbn [negb].
    destruct (eff h row) eqn:E.
    + assert (seqno k = ack_no (k + 1)) as ->.
      { unfold ack_no. destruct (Z.eqb_spec (k + 1) 0); [lia|]. f_equal. lia. }
      destruct (IH (k + 1) (h ++ [row]) (k + 1)) as (n & b' & failed & Hn & Hb' & -> & Hs); [lia|lia|].
      exists (S n), b', failed. cbn [length take]. rewrite <- app_assoc.
      split_and!; [lia|lia|lia|done|]. unfold stopped in *. destruct failed; cbn [length drop]; [lia|].
      destruct Hs as [->|Hs]; [by left|by right].
    + exists 0%nat, b, false. cbn [take]. rewrite app_nil_r. split_and!; [lia|lia|lia|done|].
      right. exists h, row. split; [by left|done].
    + exists 0%nat, b, true. cbn [take]. rewrite app_nil_r. split_and!; [lia|lia|lia|done|].
      cbn [stopped length]. lia.
Qed.

Lemma existsb_nil_rows k rows : existsb (fun p => is_failure p.2) (numbered k rows) = true -> rows <> [].
Proof. by destruct rows. Qed.

Lemma receive_ahead eff r acks b k rows :
  rc_ack r = ack_no b -> 0 <= b <= k -> k + zlen rows - b < WINDOW ->
  exists n b' failed, (n <= length rows)%nat /\ b <= b' <= k + Z.of_nat n /\
    receive eff is_failure r (mkPayload acks (numbered k rows) 0) =
      mkReceiver (ack_no b') (rc_applied r ++ take n rows) (rc_failed r || failed) /\
    stopped eff rows n failed.
Proof.
  intros Hack Hb Hw. unfold receive. cbn [pl_dropped_oldest pl_rows Z.eqb negb].
  destruct (existsb _ _) eqn:E.
  - apply existsb_nil_rows in E. exists 0%nat, b, true. cbn [take]. rewrite app_nil_r, orb_true_r, Hack.
    split_and!; [lia|lia|lia|done|]. cbn [stopped]. destruct rows; [done|]. cbn [length]. lia.
  - rewrite Hack, sort_ahead by lia.
    destruct (apply_rows_ahead eff rows b (rc_applied r) k) as (n & b' & failed & Hn & Hb' & -> & Hs); [lia|lia|].
    exists n, b', failed. split; [done|]. split; [done|]. by split.
Qed.

Lemma numbered_rows k rows : map snd (numbered k rows) = rows.
Proof. revert k. induction rows as [|r rows IH]; intros k; cbn; [done|]. by rewrite IH. Qed.

End Receive.

(** ** Merging: every element of the third list is in one of the others, in order *)

Inductive merges {A} : list A -> list A -> list A -> Prop :=
| merges_nil : merges [] [] []
| merges_l x l1 l2 l : merges l1 l2 l -> merges (x :: l1) l2 (x :: l)
| merges_r x l1 l2 l : merges l1 l2 l -> merges l1 (x :: l2) (x :: l).

Lemma merges_app {A} (l1 l2 l k1 k2 k : list A) :
  merges l1 l2 l -> merges k1 k2 k -> merges (l1 ++ k1) (l2 ++ k2) (l ++ k).
Proof. induction 1; intros; cbn [app]; [done|constructor; auto..]. Qed.

Lemma merges_split {A} n (l : list A) : merges (take n l) (drop n l) l.
Proof.
  revert n. induction l as [|x l IH]; intros [|n]; cbn [take drop]; try constructor; auto.
  specialize (IH 0%nat). cbn [take] in IH. by rewrite drop_0 in IH.
Qed.

Lemma merges_nil_r {A} (l1 l : list A) : merges l1 [] l -> l1 = l.
Proof. remember [] as l2 eqn:E. induction 1; [done|f_equal; auto|done]. Qed.
