(* ===== verification/ReliableLink.v ===== *)
(** * Reliable control rows: properties

    While the queue does not overflow, every row the host queued is applied by the client at
    most once and in order, and the rows that are not applied are those left out when the client
    stopped in the middle of a packet: at a row that ends the connection, or at a sound whose
    configuration string has not arrived.  The lane sends a row only once, so a row left out at a
    sound is not sent again although the client leaves it unacknowledged for a retransmission
    ([waiting_row_is_lost]).  An overflow ends the connection instead of losing rows silently. *)

From S2P Require Export ReliableSpec.
From S2P Require Import FireVerdict.

Section LinkProofs.
(** [Ready] is what the client knows when a packet arrives: which sounds it can play. *)
Context {Row Ready : Type}.
Implicit Types (rows lost : list Row) (q : ReliableEventQueue Row).

(** The lane after the first [s] rows were enqueued. *)
Definition lane_rep (lane : ControlLane) (s : Z) : Prop :=
  lane = mkLane (if s =? 0 then None else Some (seqno (s - 1))) 0.

Lemma ack_no_pos s : s <> 0 -> ack_no s = seqno (s - 1).
Proof. unfold ack_no. intros. by destruct (Z.eqb_spec s 0). Qed.

Lemma last_zdrop_some s rows :
  0 <= s < zlen rows -> exists r, list.last (zdrop s rows) = Some r.
Proof.
  intros H. destruct (list.last (zdrop s rows)) eqn:E; [eauto|].
  apply last_None in E. pose proof (zlen_zdrop s rows ltac:(lia)) as Hl. rewrite E in Hl.
  unfold zlen at 1 in Hl. cbn [length] in Hl. lia.
Qed.

Lemma flush_spec q rows a s lane :
  queue_rep q rows a -> a <= s <= zlen rows -> lane_rep lane s -> q_dropped_oldest q = 0 ->
  queue_control lane (queue_payload q) =
    if s =? zlen rows then (lane, None)
    else (mkLane (Some (seqno (zlen rows - 1))) 0,
          Some (mkPayload (q_ack_through q) (numbered s (zdrop s rows)) 0)).
Proof.
  intros [Hr Hb Hp Ha Hn] Hs -> Hd. unfold queue_control. cbn [ln_last_control_seq ln_control_drops_sent].
  unfold queue_payload. cbn [pl_rows pl_dropped_oldest pl_ack_through]. rewrite Hd, Hp.
  unfold MAX_PENDING_RELIABLE in *.
  match goal with |- context [filter ?P (numbered a ?l)] =>
    assert (filter P (numbered a l) = numbered s (zdrop s rows)) as ->
  end.
  { destruct (Z.eqb_spec s 0) as [->|Hne].
    - assert (a = 0) as -> by lia.
      assert (forall l : list (Z * Row), filter (fun _ => true = true) l = l) as Hall.
      { intros l. induction l as [|x l IH]; [done|]. rewrite filter_cons, decide_True by done.
        by rewrite IH. }
      by rewrite Hall.
    - rewrite <- ack_no_pos by done.
      rewrite filter_numbered by (rewrite ?zlen_zdrop by lia; unfold WINDOW; lia).
      rewrite zdrop_zdrop by lia. f_equal; [lia|f_equal; lia]. }
  rewrite zlen_numbered, zlen_zdrop by lia. rewrite Z.eqb_refl, andb_true_r.
  destruct (Z.eqb_spec s (zlen rows)) as [->|Hne].
  - by rewrite (proj2 (Z.eqb_eq _ _)) by lia.
  - rewrite (proj2 (Z.eqb_neq _ _)) by lia. rewrite last_numbered.
    destruct (last_zdrop_some s rows) as [r ->]; [lia|]. rewrite zlen_zdrop by lia.
    do 4 f_equal. lia.
Qed.

Context (eff : Ready -> list Row -> Row -> RowEffect) (is_failure : Row -> bool).

(** The rows of the next packet on the wire that are left when the client is done with it. *)
Definition left_out (ready : Ready) (st : Link Row) : list Row :=
  match lk_wire st with
  | [] => []
  | p :: _ =>
      zdrop (zlen (rc_applied (lk_receiver (link_deliver is_failure (eff ready) st))) - zlen (rc_applied (lk_receiver st)))
        (map snd (pl_rows p))
  end.

(** The link with the rows left out so far. *)
Inductive link_step (st : Link Row) lost : Link Row -> list Row -> Prop :=
| ls_push row : link_step st lost (link_push st row) lost
| ls_flush : link_step st lost (link_flush st) lost
| ls_deliver ready :
    link_step st lost (link_deliver is_failure (eff ready) st) (lost ++ left_out ready st)
| ls_ack count through :
    (count, through) ∈ lk_acks st -> zlen (lk_pushed st) - count < WINDOW - MAX_PENDING_RELIABLE ->
    link_step st lost (link_ack st through) lost.

Inductive link_reachable : Link Row -> list Row -> Prop :=
| lr_new : link_reachable link_new []
| lr_step st lost st' lost' :
    link_reachable st lost -> link_step st lost st' lost' -> link_reachable st' lost'.

Fixpoint wire_rep rows (k s : Z) (wire : list (ReliablePayload Row)) : Prop :=
  match wire with
  | [] => k = s
  | p :: wire => exists n, k <= n <= s /\ pl_rows p = numbered k (slice rows k n) /\
                           pl_dropped_oldest p = 0 /\ wire_rep rows n s wire
  end.

(** Why rows were left out: the connection failed, or one of them waits for something. *)
Definition excused (r : Receiver Row) lost : Prop :=
  lost = [] /\ rc_failed r = false \/ lost <> [] /\
  (rc_failed r = true \/ exists ready h row, row ∈ lost /\ eff ready h row = RowWait).

(** The rows up to [a] are acknowledged to the host, those up to [b] by the client, those up to
    [k] were delivered, those up to [s] were sent. *)
Record link_inv (st : Link Row) lost (a b k s : Z) : Prop := {
  li_queue : queue_rep (lk_queue st) (lk_pushed st) a;
  li_order : a <= b <= k /\ k <= s <= zlen (lk_pushed st);
  li_lane : lane_rep (lk_lane st) s;
  li_ack : rc_ack (lk_receiver st) = ack_no b;
  li_rows : merges (rc_applied (lk_receiver st)) lost (ztake k (lk_pushed st));
  li_excused : excused (lk_receiver st) lost;
  li_wire : wire_rep (lk_pushed st) k s (lk_wire st);
  li_acks : Forall (fun e => exists c, 0 <= c <= b /\ e.2 = ack_no c /\ e.1 - c <= MAX_PENDING_RELIABLE) (lk_acks st);
}.

Lemma ztake_app_le {A} n (l1 l2 : list A) : 0 <= n <= zlen l1 -> ztake n (l1 ++ l2) = ztake n l1.
Proof.
  unfold zlen, ztake. intros. rewrite take_app_le; [done|]. lia.
Qed.

Lemma slice_app_le {A} k n (l1 l2 : list A) :
  0 <= k <= n -> n <= zlen l1 -> slice (l1 ++ l2) k n = slice l1 k n.
Proof.
  intros. unfold slice. rewrite zdrop_app_le by lia. apply ztake_app_le.
  rewrite zlen_zdrop by lia. lia.
Qed.

Lemma wire_rep_push rows row k s wire :
  0 <= k -> s <= zlen rows -> wire_rep rows k s wire -> wire_rep (rows ++ [row]) k s wire.
Proof.
  revert k. induction wire as [|p wire IH]; intros k Hk Hs; cbn [wire_rep]; [done|].
  intros (n & Hn & Hp & Hd & Hw). exists n. split_and!; [lia|lia| |done|apply IH; lia || done].
  by rewrite slice_app_le by lia.
Qed.

Lemma wire_rep_send rows k s s' wire p :
  s <= s' -> pl_rows p = numbered s (slice rows s s') -> pl_dropped_oldest p = 0 ->
  wire_rep rows k s wire -> wire_rep rows k s' (wire ++ [p]).
Proof.
  intros Hs Hp Hd. revert k. induction wire as [|p0 wire IH]; intros k; cbn [wire_rep app].
  - intros ->. exists s'. split_and!; first [done|lia].
  - intros (n & Hn & Hp0 & Hd0 & Hw). exists n. split_and!; first [done|lia|by apply IH].
Qed.

Lemma slice_to_end {A} s (l : list A) : 0 <= s <= zlen l -> slice l s (zlen l) = zdrop s l.
Proof.
  intros. unfold slice, ztake. apply take_ge. pose proof (zlen_zdrop s l ltac:(lia)) as H1.
  unfold zlen in *. lia.
Qed.

Lemma ztake_slice {A} k n (l : list A) :
  0 <= k <= n -> n <= zlen l -> ztake k l ++ slice l k n = ztake n l.
Proof.
  unfold zlen, slice, ztake, zdrop. intros.
  replace (Z.to_nat n) with (Z.to_nat k + Z.to_nat (n - k))%nat by lia.
  by rewrite take_take_drop.
Qed.

Lemma flush_inv st lost a b k s :
  link_inv st lost a b k s -> q_dropped_oldest (lk_queue st) = 0 ->
  link_inv (link_flush st) lost a b k (zlen (lk_pushed st)) /\
  lk_queue (link_flush st) = lk_queue st /\ lk_pushed (link_flush st) = lk_pushed st.
Proof.
  intros [Hq Ho Hl Hb Hr He Hw Ha] Hd. pose proof (qr_range _ _ _ Hq) as Hrange.
  unfold link_flush. rewrite (flush_spec _ _ _ s _ Hq) by (lia || done).
  destruct (Z.eqb_spec s (zlen (lk_pushed st))) as [Hs|Hne]; cbn [lk_queue lk_pushed];
    (split; [|done]); split; cbn [lk_queue lk_lane lk_receiver lk_wire lk_acks lk_pushed]; try done.
  - lia.
  - by rewrite <- Hs.
  - rewrite app_nil_r. by rewrite <- Hs.
  - lia.
  - unfold lane_rep. by rewrite (proj2 (Z.eqb_neq _ _)) by lia.
  - apply (wire_rep_send _ _ s); try done; [lia|]. cbn [pl_rows]. by rewrite slice_to_end by lia.
Qed.

Lemma excused_more r r' ready rows n failed lost :
  excused r lost -> stopped (eff ready) rows n failed -> rc_failed r' = rc_failed r || failed ->
  excused r' (lost ++ drop n rows).
Proof.
  intros He Hs Hf. unfold excused, stopped in *. rewrite Hf. destruct failed.
  - rewrite orb_true_r. right. split; [|by left]. intros [_ Hn]%app_eq_nil.
    apply (f_equal length) in Hn. rewrite length_drop in Hn. cbn in Hn. lia.
  - rewrite orb_false_r. destruct Hs as [->|(h & row & Hin & Hw)].
    + by rewrite drop_all, app_nil_r.
    + right. split; [|right; exists ready, h, row; split; [apply elem_of_app; by right|done]].
      intros [_ Hn]%app_eq_nil. rewrite Hn in Hin. by apply elem_of_nil in Hin.
Qed.

(** The packet at the head of the wire: some of its rows are applied, the others left out. *)
Lemma deliver_inv ready st lost a b k s p wire :
  link_inv st lost a b k s -> lk_wire st = p :: wire ->
  exists b' k', link_inv (link_deliver is_failure (eff ready) st) (lost ++ left_out ready st) a b' k' s /\
    (left_out ready st = [] \/ rc_failed (lk_receiver (link_deliver is_failure (eff ready) st)) = true \/
     exists h row, row ∈ left_out ready st /\ eff ready h row = RowWait).
Proof.
  intros [Hq Ho Hl Hb Hr He Hw Ha] Ew. pose proof (qr_range _ _ _ Hq) as Hrange.
  pose proof (qr_bound _ _ _ Hq) as Hbound. unfold MAX_PENDING_RELIABLE in Hbound.
  unfold left_out, link_deliver. rewrite Ew in *. cbn [wire_rep] in Hw. destruct Hw as (n & Hn & Hp & Hpd & Hw).
  assert (zlen (slice (lk_pushed st) k n) = n - k) as Hlen by (apply zlen_slice; lia).
  destruct p as [pa prows pd]. cbn [pl_rows pl_dropped_oldest] in *. subst prows pd.
  set (rows := slice (lk_pushed st) k n) in *.
  destruct (receive_ahead is_failure (eff ready) (lk_receiver st) pa b k rows Hb)
    as (m & b' & failed & Hm & Hb' & -> & Hs); [lia|unfold WINDOW; lia|].
  cbn [lk_receiver rc_applied rc_failed]. rewrite numbered_rows.
  assert (zdrop (zlen (rc_applied (lk_receiver st) ++ take m rows) - zlen (rc_applied (lk_receiver st))) rows =
          drop m rows) as ->.
  { rewrite zlen_app. unfold zdrop, zlen. rewrite length_take. f_equal. lia. }
  assert (Z.of_nat m <= n - k) by (unfold zlen in Hlen; lia).
  exists b', n. split.
  - split; cbn [lk_queue lk_lane lk_receiver lk_wire lk_acks lk_pushed rc_ack rc_applied]; try done; [lia| | |].
    + rewrite <- (ztake_slice k n) by lia. apply merges_app; [done|]. apply merges_split.
    + by apply (excused_more (lk_receiver st) _ ready _ _ failed).
    + apply Forall_app. split.
      * eapply list.Forall_impl; [exact Ha|]. intros e (c & Hc & H2). exists c. split; [lia|done].
      * constructor; [|constructor]. cbn [fst snd]. exists b'. unfold MAX_PENDING_RELIABLE. split_and!; [lia|lia|done|lia].
  - unfold stopped in Hs. destruct failed; [right; left; by rewrite orb_true_r|].
    destruct Hs as [->|(h & row & Hin & Hwait)]; [left; apply drop_all|]. right. right. by exists h, row.
Qed.

Lemma push_link_inv st lost a b k s row :
  link_inv st lost a b k s -> zlen (lk_pushed st) - a < MAX_PENDING_RELIABLE ->
  link_inv (link_push st row) lost a b k s /\
  q_dropped_oldest (lk_queue (link_push st row)) = q_dropped_oldest (lk_queue st).
Proof.
  intros [Hq Ho Hl Hb Hr He Hw Ha] Hroom. pose proof (qr_range _ _ _ Hq) as Hrange. unfold link_push.
  destruct (queue_push_room _ _ _ row Hq) as (q' & -> & Hq' & Hd'); [lia|].
  pose proof (seqno_range (zlen (lk_pushed st))).
  rewrite (proj2 (Z.eqb_neq _ _)) by lia. cbn [lk_queue]. split; [|done].
  split; cbn [lk_queue lk_lane lk_receiver lk_wire lk_acks lk_pushed];
    rewrite ?zlen_snoc; try done; [lia| |].
  - by rewrite ztake_app_le by lia.
  - apply wire_rep_push; [lia|lia|done].
Qed.

Lemma link_step_inv st lost st' lost' a b k s :
  link_inv st lost a b k s -> q_dropped_oldest (lk_queue st) = 0 -> link_step st lost st' lost' ->
  0 < q_dropped_oldest (lk_queue st') \/
  q_dropped_oldest (lk_queue st') = 0 /\ exists a' b' k' s', link_inv st' lost' a' b' k' s'.
Proof.
  intros Hinv Hd. pose proof Hinv as [Hq Ho Hl Hb Hr He Hw Ha]. pose proof (qr_range _ _ _ Hq) as Hrange.
  pose proof (qr_bound _ _ _ Hq) as Hbound. unfold MAX_PENDING_RELIABLE in Hbound.
  destruct 1 as [row| |ready|count through Hin Hold].
  - destruct (decide (zlen (lk_pushed st) - a = MAX_PENDING_RELIABLE)) as [Hf|Hf].
    + left. unfold link_push. destruct (queue_push_full _ _ _ row Hq Hf) as (q' & -> & _ & Hd').
      cbn [lk_queue]. rewrite Hd', Hd. vm_compute. done.
    + right. destruct (push_link_inv _ _ _ _ _ _ row Hinv) as [Hinv' ->]; [unfold MAX_PENDING_RELIABLE in *; lia|].
      split; [done|]. eauto 10.
  - right. destruct (flush_inv _ _ _ _ _ _ Hinv Hd) as (Hinv' & -> & _). eauto 10.
  - right. destruct (lk_wire st) as [|p wire] eqn:Ew.
    + unfold left_out, link_deliver. rewrite Ew, app_nil_r. eauto 10.
    + destruct (deliver_inv ready _ _ _ _ _ _ p wire Hinv Ew) as (b' & k' & Hn & _).
      split; [|by eauto 10]. unfold link_deliver. by rewrite Ew.
  - right. rewrite list.Forall_forall in Ha. destruct (Ha _ Hin) as (c & Hc & Ht & Hage). cbn [fst snd] in *.
    subst through. unfold MAX_PENDING_RELIABLE in *.
    destruct (queue_ack_rep _ _ _ c Hq) as [Hq' Hd']; [lia|lia|].
    unfold link_ack. cbn [lk_queue]. rewrite Hd'. split; [done|].
    exists (Z.max a c), b, k, s.
    split; cbn [lk_queue lk_lane lk_receiver lk_wire lk_acks lk_pushed]; try done; [lia|].
    by apply list.Forall_forall.
Qed.

Lemma step_dropped st lost st' lost' :
  link_step st lost st' lost' -> 0 <= q_dropped_oldest (lk_queue st) ->
  0 <= q_dropped_oldest (lk_queue st') /\
  (q_dropped_oldest (lk_queue st') = 0 -> q_dropped_oldest (lk_queue st) = 0).
Proof.
  destruct 1 as [row| |ready|count through Hin Hold].
  - unfold link_push, queue_push. destruct (_ <=? _); cbn [lk_queue q_dropped_oldest]; [|done].
    unfold saturating_add32, u32_max. lia.
  - unfold link_flush. by destruct (queue_control _ _).
  - unfold link_deliver. by destruct (lk_wire st).
  - unfold link_ack, queue_ack. cbn [lk_queue]. by destruct (_ =? _).
Qed.

Lemma link_reachable_inv st lost :
  link_reachable st lost ->
  0 <= q_dropped_oldest (lk_queue st) /\
  (q_dropped_oldest (lk_queue st) = 0 -> exists a b k s, link_inv st lost a b k s).
Proof.
  induction 1 as [|st lost st' lost' Hst [Hpos IH] Hstep].
  - split; [done|]. intros _. exists 0, 0, 0, 0. split; try done; [constructor|by left].
  - destruct (step_dropped _ _ _ _ Hstep Hpos) as [Hpos' Hd']. split; [done|]. intros Hd.
    destruct (IH (Hd' Hd)) as (a & b & k & s & Hinv).
    destruct (link_step_inv _ _ _ _ _ _ _ _ Hinv (Hd' Hd) Hstep) as [?|[_ ?]]; [lia|done].
Qed.

(** Everything on the wire arrives, a packet for each [ready]. *)
Fixpoint deliver_all (readies : list Ready) (st : Link Row) : Link Row * list Row :=
  match readies with
  | [] => (st, [])
  | ready :: rest =>
      let '(st', more) := deliver_all rest (link_deliver is_failure (eff ready) st) in
      (st', left_out ready st ++ more)
  end.

Lemma failed_stays ready st :
  rc_failed (lk_receiver st) = true -> rc_failed (lk_receiver (link_deliver is_failure (eff ready) st)) = true.
Proof.
  intros Hf. unfold link_deliver. destruct (lk_wire st) as [|p wire]; [done|]. cbn [lk_receiver]. unfold receive.
  destruct (negb _); [done|]. destruct (existsb _ _); [done|]. destruct (apply_rows _ _ _ _) as [[? ?] ?]. cbn.
  by rewrite Hf.
Qed.

Lemma all_failed readies : forall st,
  rc_failed (lk_receiver st) = true -> rc_failed (lk_receiver (deliver_all readies st).1) = true.
Proof.
  induction readies as [|ready readies IH]; intros st Hf; cbn [deliver_all]; [done|].
  specialize (IH _ (failed_stays ready st Hf)). by destruct (deliver_all _ _).
Qed.

Lemma deliver_all_inv readies : forall st lost a b k s,
  link_inv st lost a b k s -> length (lk_wire st) = length readies ->
  let out := deliver_all readies st in
  merges (rc_applied (lk_receiver out.1)) (lost ++ out.2) (ztake s (lk_pushed st)) /\
  (out.2 = [] \/ rc_failed (lk_receiver out.1) = true \/
   exists ready h row, ready ∈ readies /\ row ∈ out.2 /\ eff ready h row = RowWait).
Proof.
  induction readies as [|ready readies IH]; intros st lost a b k s Hinv Hn; cbn [deliver_all].
  - pose proof (li_wire _ _ _ _ _ _ Hinv) as Hw. pose proof (li_rows _ _ _ _ _ _ Hinv) as Hr.
    destruct (lk_wire st); [|done]. cbn [wire_rep fst snd] in *. rewrite app_nil_r. subst k. split; [done|by left].
  - destruct (lk_wire st) as [|p wire] eqn:E; [done|].
    destruct (deliver_inv ready _ _ _ _ _ _ _ _ Hinv E) as (b' & k' & Hinv' & Hcase).
    destruct (IH _ _ _ _ _ _ Hinv') as [Hm Hmore].
    { unfold link_deliver. rewrite E. cbn [lk_wire]. by injection Hn. }
    pose proof (all_failed readies (link_deliver is_failure (eff ready) st)) as Hfail.
    destruct (deliver_all readies _) as [st' more]. cbn [fst snd] in *.
    rewrite <- app_assoc in Hm. split.
    + revert Hm. unfold link_deliver. by rewrite E.
    + destruct Hcase as [->|[Hf|(h & row & Hin & Hw)]]; [|right; left; auto|].
      * cbn [app]. destruct Hmore as [->|[?|(r & h & row & H1 & H2 & H3)]]; [by left|by right; left|].
        right. right. exists r, h, row. split; [by right|]. by split.
      * right. right. exists ready, h, row. split; [by left|]. split; [apply elem_of_app; by left|done].
Qed.

End LinkProofs.

(** ** The rows of the game

    The client is [client_row_effect]: what varies from packet to packet is which sounds have
    their configuration string. *)

Section GameRows.
Context {Audio Card Menu Splash Notify Event : Type}.
Abbreviation Rows := (ReliableRow Audio Card Menu Splash Notify Event).
Context (local : Z) (fire_verdicts : list Rows -> list FireCommandResult -> bool).

Definition client_effect (sound_ready : Z -> bool) : list Rows -> Rows -> RowEffect :=
  client_row_effect local sound_ready fire_verdicts.

Lemma only_sounds_wait ready h row :
  client_effect ready h row = RowWait -> exists stop index, row = RowSound stop index /\ ready index = false.
Proof.
  destruct row; cbn; try done; repeat case_match; try done. intros _. eauto.
Qed.


(** C26. Nothing is left behind: after one flush and the delivery of what is on the wire, each row
    the queue accepted was applied, once and in order, or left out; and while these packets arrive
    rows are left out only if the connection fails, or at a sound whose configuration string the
    client does not have when its packet arrives.  So a link that left nothing out before, does not
    fail and has the strings of its sounds has applied every row. *)
Theorem reliable_rows_catch_up (st : Link Rows) lost readies :
  link_reachable client_effect row_is_failure st lost -> q_dropped_oldest (lk_queue st) = 0 ->
  length (lk_wire (link_flush st)) = length readies ->
  let '(st', more) := deliver_all client_effect row_is_failure readies (link_flush st) in
  merges (rc_applied (lk_receiver st')) (lost ++ more) (lk_pushed st) /\
  (more = [] \/ rc_failed (lk_receiver st') = true \/
   exists ready stop index, ready ∈ readies /\ RowSound stop index ∈ more /\ ready index = false) /\
  (lost = [] -> rc_failed (lk_receiver st') = false ->
   (forall ready index, ready ∈ readies -> ready index = true) -> rc_applied (lk_receiver st') = lk_pushed st).
Proof.
  intros [_ H]%link_reachable_inv Hd Hn. destruct (H Hd) as (a & b & k & s & Hinv).
  destruct (flush_inv _ _ _ _ _ _ _ Hinv Hd) as (Hinv' & _ & Hpushed).
  destruct (deliver_all_inv _ row_is_failure readies _ _ _ _ _ _ Hinv' Hn) as [Hm Hmore].
  destruct (deliver_all _ _ readies _) as [st' more]. cbn [fst snd] in *.
  assert (ztake (zlen (lk_pushed st)) (lk_pushed (link_flush st)) = lk_pushed st) as E.
  { rewrite Hpushed. unfold ztake, zlen. rewrite Nat2Z.id. apply firstn_all. }
  rewrite E in Hm. split; [done|].
  assert (more = [] \/ rc_failed (lk_receiver st') = true \/
    exists ready stop index, ready ∈ readies /\ RowSound stop index ∈ more /\ ready index = false) as Hwhy.
  { destruct Hmore as [?|[?|(ready & h & row & H1 & H2 & H3)]]; [by left|by right; left|].
    apply only_sounds_wait in H3 as (stop & index & -> & H3). right. right. by exists ready, stop, index. }
  split; [done|]. intros -> Hf Hall. destruct Hwhy as [->|[?|(ready & stop & index & H1 & _ & H3)]]; [|congruence|].
  - by apply merges_nil_r in Hm.
  - rewrite (Hall ready index H1) in H3. done.
Qed.

End GameRows.

Section LinkHazards.
Context {Row : Type}.
Context (is_failure : Row -> bool).

(** An overflow is never silent: a push into a full queue is refused with sequence number
    0 and counted, the next flush enqueues a packet with the count even when it has no rows,
    and a client that receives a packet with a non-zero count applies nothing of it and fails
    the connection. *)
Theorem overflow_ends_connection eff (st : Link Row) row r payload :
  (zlen (q_pending (lk_queue st)) = MAX_PENDING_RELIABLE ->
   0 <= q_dropped_oldest (lk_queue st) < u32_max ->
   ln_control_drops_sent (lk_lane st) = q_dropped_oldest (lk_queue st) ->
   (queue_push (lk_queue st) row).2 = 0 /\
   exists p, lk_wire (link_flush (link_push st row)) = lk_wire st ++ [p] /\
     pl_dropped_oldest p = q_dropped_oldest (lk_queue st) + 1) /\
  (pl_dropped_oldest payload <> 0 ->
   receive eff is_failure r payload = mkReceiver (rc_ack r) (rc_applied r) true).
Proof.
  split.
  - intros Hfull Hd Hlane. unfold link_push, queue_push. rewrite Hfull. cbn [Z.leb].
    change (MAX_PENDING_RELIABLE <=? MAX_PENDING_RELIABLE) with true. cbn [snd]. split; [done|].
    unfold link_flush. cbn [lk_queue lk_lane]. unfold queue_control, queue_payload.
    cbn [q_ack_through q_pending q_dropped_oldest pl_rows pl_dropped_oldest pl_ack_through].
    unfold saturating_add32, u32_max in *.
    rewrite (proj2 (Z.eqb_neq (Z.min _ _) _)) by lia. rewrite andb_false_r. cbn [lk_wire].
    eexists. split; [done|]. cbn [pl_dropped_oldest]. lia.
  - intros Hd. unfold receive. by rewrite (proj2 (Z.eqb_neq _ _)).
Qed.

Lemma receive_single eff r acks i a row :
  rc_ack r = ack_no a -> 0 <= a <= i -> i - a < WINDOW -> is_failure row = false ->
  receive eff is_failure r (mkPayload acks [(seqno i, row)] 0) =
    match eff (rc_applied r) row with
    | RowApply => mkReceiver (seqno i) (rc_applied r ++ [row]) (rc_failed r)
    | RowWait => r
    | RowFail => mkReceiver (rc_ack r) (rc_applied r) true
    end.
Proof.
  intros Ha Hi Hw Hf. unfold receive. cbn [pl_dropped_oldest pl_rows Z.eqb negb existsb snd].
  rewrite Hf. cbn [orb]. change (merge_sort (seq_le (rc_ack r)) [(seqno i, row)]) with [(seqno i, row)].
  cbn [apply_rows]. rewrite Ha, seq_window by lia. rewrite (proj2 (Z.leb_le _ _)) by lia. cbn [negb].
  destruct (eff (rc_applied r) row); rewrite ?orb_false_r, ?orb_true_r, <- ?Ha; try done. by destruct r.
Qed.

Lemma zdrop_snoc {A} (l : list A) x : zdrop (zlen l) (l ++ [x]) = [x].
Proof. by apply (zdrop_at _ l [x]). Qed.

(** One push, flush and delivery in a link whose rows were all enqueued and delivered. *)
Lemma round_spec eff (st : Link Row) row a b :
  let n := zlen (lk_pushed st) in
  queue_rep (lk_queue st) (lk_pushed st) a -> q_dropped_oldest (lk_queue st) = 0 ->
  n - a + 1 <= MAX_PENDING_RELIABLE -> lane_rep (lk_lane st) n -> lk_wire st = [] ->
  rc_ack (lk_receiver st) = ack_no b -> 0 <= b <= n -> n - b < WINDOW -> is_failure row = false ->
  let st' := link_deliver is_failure eff (link_flush (link_push st row)) in
  lk_pushed st' = lk_pushed st ++ [row] /\ queue_rep (lk_queue st') (lk_pushed st') a /\
  q_dropped_oldest (lk_queue st') = 0 /\ lane_rep (lk_lane st') (n + 1) /\ lk_wire st' = [] /\
  lk_receiver st' =
    match eff (rc_applied (lk_receiver st)) row with
    | RowApply => mkReceiver (seqno n) (rc_applied (lk_receiver st) ++ [row]) (rc_failed (lk_receiver st))
    | RowWait => lk_receiver st
    | RowFail => mkReceiver (rc_ack (lk_receiver st)) (rc_applied (lk_receiver st)) true
    end.
Proof.
  intros n Hq Hd Hroom Hlane Hwire Hack Hb Hw Hf. pose proof (qr_range _ _ _ Hq) as Hrange. fold n in Hrange.
  destruct (queue_push_room _ _ _ row Hq) as (q1 & Hp1 & Hq1 & Hd1); [fold n; lia|]. fold n in Hp1.
  pose proof (seqno_range n). cbv zeta. unfold link_push. rewrite Hp1.
  rewrite (proj2 (Z.eqb_neq (seqno n) 0)) by lia. unfold link_flush. cbn [lk_queue lk_lane lk_wire lk_receiver lk_acks lk_pushed].
  rewrite (flush_spec q1 _ a n _ Hq1) by (rewrite ?zlen_snoc; fold n; try done; try lia; congruence).
  rewrite zlen_snoc. fold n. rewrite (proj2 (Z.eqb_neq n (n + 1))) by lia.
  rewrite Hwire. cbn [app].
  assert (zdrop n (lk_pushed st ++ [row]) = [row]) as -> by apply zdrop_snoc. cbn [numbered].
  unfold link_deliver. cbn [lk_queue lk_lane lk_wire lk_receiver lk_acks lk_pushed].
  split; [done|]. split; [done|]. split; [congruence|]. split.
  { unfold lane_rep. by rewrite (proj2 (Z.eqb_neq (n + 1) 0)) by lia. }
  split; [done|]. by apply (receive_single eff _ _ n b).
Qed.

(** The waiting row is lost: in a caught-up link (everything pushed so far was enqueued,
    delivered and applied), push a row the client cannot apply yet and let it arrive; it stays
    unapplied and unacknowledged.  Push one more row and let it arrive when everything is
    applicable: the client applies only the second row and acknowledges past the first, and the
    queue then drops both.  The first row is never applied, although the client leaves it
    unacknowledged for a retransmission. *)
Theorem waiting_row_is_lost eff_now eff_later (st : Link Row) waiting row a :
  let n := zlen (lk_pushed st) in
  queue_rep (lk_queue st) (lk_pushed st) a -> q_dropped_oldest (lk_queue st) = 0 ->
  n - a + 2 <= MAX_PENDING_RELIABLE -> lane_rep (lk_lane st) n -> lk_wire st = [] ->
  lk_receiver st = mkReceiver (ack_no n) (lk_pushed st) false ->
  eff_now (lk_pushed st) waiting = RowWait -> eff_later (lk_pushed st) row = RowApply ->
  is_failure waiting = false -> is_failure row = false ->
  let st1 := link_deliver is_failure eff_now (link_flush (link_push st waiting)) in
  let st2 := link_deliver is_failure eff_later (link_flush (link_push st1 row)) in
  let st3 := link_ack st2 (rc_ack (lk_receiver st2)) in
  lk_receiver st1 = lk_receiver st /\
  lk_pushed st3 = lk_pushed st ++ [waiting; row] /\
  rc_applied (lk_receiver st3) = lk_pushed st ++ [row] /\ rc_failed (lk_receiver st3) = false /\
  q_pending (lk_queue st3) = [] /\ lk_wire st3 = [].
Proof.
  intros n Hq Hd Hroom Hlane Hwire Hr Hwait Hrow Hf1 Hf2. pose proof (qr_range _ _ _ Hq) as Hrange.
  fold n in Hrange. unfold MAX_PENDING_RELIABLE in Hroom.
  destruct (round_spec eff_now st waiting a n Hq Hd) as (Hp1 & Hq1 & Hd1 & Hl1 & Hw1 & Hr1);
    try (fold n; done || (unfold MAX_PENDING_RELIABLE, WINDOW; lia)); [by rewrite Hr|].
  rewrite Hr in Hr1. cbn [rc_applied] in Hr1. rewrite Hwait in Hr1. intros st1. fold st1 in Hp1, Hq1, Hd1, Hl1, Hw1, Hr1. fold n in Hl1.
  clearbody st1.
  assert (zlen (lk_pushed st1) = n + 1) as Hn1 by (rewrite Hp1; apply zlen_snoc).
  destruct (round_spec eff_later st1 row a n Hq1 Hd1) as (Hp2 & Hq2 & Hd2 & Hl2 & Hw2 & Hr2);
    try (rewrite ?Hn1; done || (unfold MAX_PENDING_RELIABLE, WINDOW; lia));
    [by rewrite Hr1|]. rewrite Hn1, Hr1 in Hr2. cbn [rc_applied rc_failed] in Hr2. rewrite Hrow in Hr2.
  intros st2. fold st2 in Hp2, Hq2, Hd2, Hl2, Hw2, Hr2. clearbody st2.
  assert (zlen (lk_pushed st2) = n + 2) as Hn2 by (rewrite Hp2, zlen_snoc; lia).
  assert (rc_ack (lk_receiver st2) = ack_no (n + 2)) as Hack.
  { rewrite Hr2. cbn [rc_ack]. rewrite ack_no_pos by lia. f_equal. lia. }
  destruct (queue_ack_rep _ _ _ (n + 2) Hq2) as [[_ _ Hpend _ _] _]; [lia|unfold WINDOW; lia|].
  rewrite Hack. unfold link_ack. cbv zeta. cbn [lk_queue lk_wire lk_receiver lk_pushed].
  split; [by rewrite Hr1, Hr|]. split; [rewrite Hp2, Hp1, <- app_assoc; done|]. rewrite Hr2.
  split; [done|]. split; [done|]. split; [|done]. rewrite Hpend.
  replace (Z.max a (n + 2)) with (n + 2) by lia. rewrite <- Hn2.
  assert (zdrop (zlen (lk_pushed st2)) (lk_pushed st2) = []) as ->; [|done].
  unfold zdrop, zlen. rewrite Nat2Z.id. apply drop_all.
Qed.

End LinkHazards.

(** ** A link at work *)

(** A sound whose configuration string has not arrived, then the scoreboard. *)
Abbreviation GameRow := (@ReliableRow () () () () () ()).
Definition demo_sound : GameRow := RowSound false 7.
Definition demo_scores : GameRow := RowScores (bs "0 5").
Definition demo_client (ready : bool) : list GameRow -> GameRow -> RowEffect :=
  client_row_effect 0 (fun _ => ready) (fun _ _ => true).

(** The sound waits, so it and the event behind it in the packet are left out; the scores of the
    next packet are applied. *)
Definition demo_event : GameRow := RowEvent ().
Definition demo_start : Link GameRow := link_flush (link_push (link_push link_new demo_sound) demo_event).

Abbreviation demo_effect := (client_effect 0 (fun _ _ => true)).


Lemma demo_start_reachable : link_reachable demo_effect row_is_failure demo_start [].
Proof.
  eapply lr_step; [|apply ls_flush]. eapply lr_step; [|apply ls_push].
  eapply lr_step; [apply lr_new|apply ls_push].
Qed.



(** With the string there, a second flush brings the client up to date. *)
Lemma reliable_rows_catch_up_witness :
  rc_applied (lk_receiver (deliver_all demo_effect row_is_failure [fun _ => true; fun _ => true]
    (link_flush (link_push demo_start demo_scores))).1) = [demo_sound; demo_event; demo_scores].
Proof.
  pose proof (reliable_rows_catch_up 0 (fun _ _ => true) (link_push demo_start demo_scores) []
    [fun _ => true; fun _ => true] (lr_step _ _ _ _ _ _ demo_start_reachable (ls_push _ _ _ _ _))
    ltac:(vm_compute; reflexivity) ltac:(vm_compute; reflexivity)) as H.
  destruct (deliver_all _ _ _ _) as [st' more] eqn:E. cbn [fst]. destruct H as (_ & _ & H).
  apply H; [reflexivity| |].
  - apply (f_equal (fun e => rc_failed (lk_receiver e.1))) in E. vm_compute in E. by symmetry.
  - intros ready index Hin. repeat (apply elem_of_cons in Hin as [->|Hin]; [reflexivity|]). by apply elem_of_nil in Hin.
Defined.

Lemma overflow_ends_connection_witness :
  receive (demo_client true) row_is_failure (mkReceiver 3 [demo_scores] false) (mkPayload 0 [] 1) =
    mkReceiver 3 [demo_scores] true.
Proof.
  apply (overflow_ends_connection row_is_failure (demo_client true) link_new demo_scores
    (mkReceiver 3 [demo_scores] false) (mkPayload 0 [] 1)). cbn. lia.
Defined.

Lemma waiting_row_is_lost_witness :
  let st1 := link_deliver row_is_failure (demo_client false) (link_flush (link_push link_new demo_sound)) in
  let st2 := link_deliver row_is_failure (demo_client true) (link_flush (link_push st1 demo_scores)) in
  let st3 := link_ack st2 (rc_ack (lk_receiver st2)) in
  lk_pushed st3 = [demo_sound; demo_scores] /\ rc_applied (lk_receiver st3) = [demo_scores] /\
  q_pending (lk_queue st3) = [].
Proof.
  destruct (waiting_row_is_lost row_is_failure (demo_client false) (demo_client true) link_new
    demo_sound demo_scores 0)
    as (_ & H1 & H2 & _ & H3 & _); [apply queue_new_rep|done|vm_compute; congruence|done..|].
  split; [exact H1|]. split; [exact H2|exact H3].
Defined.
