(* ===== verification/Fragment.v ===== *)
(** * Datagram fragments

    [Fragmenter] and [Reassembler] of crates/net/src/transport/fragment.rs: a packet is cut
    into fragments of at most one datagram, each with a 16-byte header (magic, version, index,
    count, packet id, total length), and put together again in whatever order the fragments
    arrive.  The clock is an argument, in nanoseconds.  A failed [expect] or an index out of
    range is [None]. *)

From S2P Require Export Prelude.

#[local] Open Scope Z_scope.

Definition FRAGMENT_HEADER_BYTES : Z := 16.
Definition FRAGMENT_MAGIC : list byte := bs "RF".
Definition FRAGMENT_VERSION : Z := 2.
Definition MAX_PENDING_PACKETS : Z := 32.
Definition MAX_PENDING_BYTES : Z := 2 * 1024 * 1024.
Definition FRAGMENT_TTL : Z := 1000000000.
Definition MAX_FRAGMENTS : Z := u16_max.

(** The messages of [FragmentError], with the values they show. *)
Inductive FragmentError : Type :=
| FragPacketLength (len max : Z)
| FragTooMany (len count : Z)
| FragBadHeader
| FragVersion (version reserved : Z)
| FragLengthBounds (total max : Z)
| FragBadRange
| FragBadLength
| FragCapacity (packet_id total count pending pending_bytes : Z)
| FragMetadata
| FragPayload.

#[export] Instance fragment_error_eq_dec : EqDecision FragmentError.
Proof. solve_decision. Defined.


(** ** Splitting *)

Record Fragmenter : Type := mkFragmenter {
  fr_payload_bytes : Z;
  fr_max_packet_bytes : Z;
  fr_next_id : Z;
}.

Definition payload_bytes_of (datagram_bytes : Z) : Z :=
  Z.max (saturating_sub datagram_bytes FRAGMENT_HEADER_BYTES) 1.

Definition fragmenter_new (datagram_bytes max_packet_bytes : Z) : Fragmenter :=
  mkFragmenter (payload_bytes_of datagram_bytes) max_packet_bytes 0.

(** [slice::chunks]; the fuel is the length of the slice, a chunk takes at least one byte. *)
Fixpoint chunks_fuel (fuel : nat) (n : Z) (l : list byte) : list (list byte) :=
  match fuel, l with
  | _, [] => []
  | O, _ => []
  | S fuel, _ => ztake n l :: chunks_fuel fuel n (zdrop n l)
  end.

Definition chunks (n : Z) (l : list byte) : list (list byte) := chunks_fuel (length l) n l.

Definition fragment_bytes (index count id total_len : Z) (payload : list byte) : list byte :=
  FRAGMENT_MAGIC ++ [byte_of FRAGMENT_VERSION] ++ [byte_of 0] ++ le_bytes 2 (wrap16 index)
  ++ le_bytes 2 (wrap16 count) ++ le_bytes 4 id ++ le_bytes 4 total_len ++ payload.

Definition split (f : Fragmenter) (bytes : list byte)
    : Fragmenter * Result FragmentError (list (list byte)) :=
  if (zlen bytes =? 0) || (fr_max_packet_bytes f <? zlen bytes) then
    (f, Err (FragPacketLength (zlen bytes) (fr_max_packet_bytes f)))
  else
    let count := div_ceil (zlen bytes) (fr_payload_bytes f) in
    if MAX_FRAGMENTS <? count then (f, Err (FragTooMany (zlen bytes) count))
    else
      let total_len := wrap32 (zlen bytes) in
      let id := fr_next_id f in
      (mkFragmenter (fr_payload_bytes f) (fr_max_packet_bytes f) (wrapping_add32 id 1),
       Ok (imap (fun index payload => fragment_bytes (Z.of_nat index) count id total_len payload)
             (chunks (fr_payload_bytes f) bytes))).

(** ** Reassembly *)

Record PartialPacket : Type := mkPartial {
  pp_total_len : Z;
  pp_created_at : Z;
  pp_fragments : list (option (list byte));
  pp_received : Z;
}.

Record Reassembler : Type := mkReassembler {
  ra_payload_bytes : Z;
  ra_max_packet_bytes : Z;
  ra_pending : gmap Z PartialPacket;
}.

Definition reassembler_new (datagram_bytes max_packet_bytes : Z) : Reassembler :=
  mkReassembler (payload_bytes_of datagram_bytes) max_packet_bytes ∅.

Definition set_pending (r : Reassembler) (p : gmap Z PartialPacket) : Reassembler :=
  mkReassembler (ra_payload_bytes r) (ra_max_packet_bytes r) p.

Record FragmentHeader : Type := mkFragHeader {
  fh_index : Z;
  fh_count : Z;
  fh_packet_id : Z;
  fh_total_len : Z;
  fh_payload : list byte;
}.

(** The checks of [push] before the pending packets are looked at. *)
Definition parse_fragment (payload_bytes max_packet_bytes : Z) (bytes : list byte)
    : Result FragmentError FragmentHeader :=
  if (zlen bytes <? FRAGMENT_HEADER_BYTES) || negb (bool_decide (slice bytes 0 2 = FRAGMENT_MAGIC))
  then Err FragBadHeader
  else
    let version := le_val (slice bytes 2 3) in
    let reserved := le_val (slice bytes 3 4) in
    if negb (version =? FRAGMENT_VERSION) || negb (reserved =? 0)
    then Err (FragVersion version reserved)
    else
      let index := le_val (slice bytes 4 6) in
      let count := le_val (slice bytes 6 8) in
      let packet_id := le_val (slice bytes 8 12) in
      let total_len := le_val (slice bytes 12 16) in
      if (total_len =? 0) || (max_packet_bytes <? total_len)
      then Err (FragLengthBounds total_len max_packet_bytes)
      else
        let expected_count := div_ceil total_len payload_bytes in
        if (count =? 0) || (MAX_FRAGMENTS <? count) || negb (count =? expected_count)
           || (count <=? index)
        then Err FragBadRange
        else
          let expected_len :=
            if index + 1 =? count then total_len - payload_bytes * index else payload_bytes in
          let payload := zdrop FRAGMENT_HEADER_BYTES bytes in
          if negb (zlen payload =? expected_len) then Err FragBadLength
          else Ok (mkFragHeader index count packet_id total_len payload).

(** [packet.created_at.elapsed() < FRAGMENT_TTL]; [elapsed] saturates at zero. *)
Definition fresh_packet (now : Z) (packet : PartialPacket) : bool :=
  saturating_sub now (pp_created_at packet) <? FRAGMENT_TTL.

Definition pending_bytes (p : gmap Z PartialPacket) : Z :=
  foldr Z.add 0 (map (fun e => pp_total_len e.2) (map_to_list p)).

(** [fragment.expect("completed packet has every fragment")] over all fragments. *)
Fixpoint assemble (fragments : list (option (list byte))) : option (list byte) :=
  match fragments with
  | [] => Some []
  | None :: _ => None
  | Some f :: rest => app f <$> assemble rest
  end.

Definition ra_push (r : Reassembler) (now : Z) (bytes : list byte)
    : option (Reassembler * Result FragmentError (option (list byte))) :=
  match parse_fragment (ra_payload_bytes r) (ra_max_packet_bytes r) bytes with
  | Err e => Some (r, Err e)
  | Ok h =>
      let id := fh_packet_id h in
      let pending := filter (fun e => fresh_packet now e.2 = true) (ra_pending r) in
      let size_ := Z.of_nat (size pending) in
      let held := pending_bytes pending in
      if negb (bool_decide (is_Some (pending !! id))) &&
         ((MAX_PENDING_PACKETS <=? size_) || (MAX_PENDING_BYTES <? held + fh_total_len h))
      then Some (set_pending r pending,
                 Err (FragCapacity id (fh_total_len h) (fh_count h) size_ held))
      else
        let packet := default
          (mkPartial (fh_total_len h) now (replicate (Z.to_nat (fh_count h)) None) 0)
          (pending !! id) in
        if negb (pp_total_len packet =? fh_total_len h) ||
           negb (zlen (pp_fragments packet) =? fh_count h)
        then Some (set_pending r (delete id pending), Err FragMetadata)
        else
          match pp_fragments packet !! Z.to_nat (fh_index h) with
          | None => None
          | Some (Some existing) =>
              if bool_decide (existing = fh_payload h)
              then Some (set_pending r (<[id := packet]> pending), Ok None)
              else Some (set_pending r (delete id pending), Err FragPayload)
          | Some None =>
              let packet := mkPartial (pp_total_len packet) (pp_created_at packet)
                (<[Z.to_nat (fh_index h) := Some (fh_payload h)]> (pp_fragments packet))
                (pp_received packet + 1) in
              if negb (pp_received packet =? fh_count h)
              then Some (set_pending r (<[id := packet]> pending), Ok None)
              else
                match assemble (pp_fragments packet) with
                | None => None
                | Some assembled => Some (set_pending r (delete id pending), Ok (Some assembled))
                end
          end
  end.

Example fragment_demo :
  let '(_, frags) := split (fragmenter_new 18 100) (bs "hello") in
  match frags with
  | Ok [f0; f1; f2] =>
      let r := reassembler_new 18 100 in
      match ra_push r 0 f2 with
      | Some (r, Ok None) =>
          match ra_push r 1 f0 with
          | Some (r, Ok None) => match ra_push r 2 f1 with
                                 | Some (_, Ok (Some b)) => bool_decide (b = bs "hello")
                                 | _ => false end
          | _ => false end
      | _ => false end
  | _ => false
  end = true.
Proof. vm_compute. reflexivity. Qed.

(** * Datagram fragments: lemmas

    The chunks of a packet, the header round trip, the accounting of pending packets, and what
    one [push] does to the packet whose fragment arrives and to all others. *)

(** ** Chunks *)

Definition chunk (n : Z) (l : list byte) (i : Z) : list byte := ztake n (zdrop (n * i) l).

Lemma div_ceil_spec a b i : 0 < b -> 0 <= i -> (i < div_ceil a b <-> b * i < a).
Proof. intros Hb Hi. unfold div_ceil. Z.to_euclidean_division_equations. nia. Qed.

Lemma div_ceil_pos a b : 0 < b -> 0 < a -> 1 <= div_ceil a b.
Proof. intros Hb Ha. pose proof (proj2 (div_ceil_spec a b 0 Hb ltac:(lia))). lia. Qed.

Lemma zlen_chunk n l i :
  0 < n -> 0 <= i < div_ceil (zlen l) n ->
  zlen (chunk n l i) = if i + 1 =? div_ceil (zlen l) n then zlen l - n * i else n.
Proof.
  intros Hn [Hi Hlt]. apply div_ceil_spec in Hlt as Hlt'; [|lia|lia].
  pose proof (div_ceil_spec (zlen l) n (i + 1) Hn ltac:(lia)) as Hnext.
  unfold chunk, ztake, zdrop, zlen in *. rewrite length_take, length_drop.
  destruct (Z.eqb_spec (i + 1) (div_ceil (Z.of_nat (length l)) n)); lia.
Qed.

Lemma chunks_fuel_lookup fuel n l i :
  0 < n -> (length l <= fuel)%nat ->
  chunks_fuel fuel n l !! i =
    if n * Z.of_nat i <? zlen l then Some (chunk n l (Z.of_nat i)) else None.
Proof.
  intros Hn. revert l i. induction fuel as [|fuel IH]; intros l i Hf.
  - destruct l; [|cbn in Hf; lia]. cbn. by rewrite (proj2 (Z.ltb_ge _ _)) by (unfold zlen; cbn; lia).
  - destruct l as [|b l]; [cbn; by rewrite (proj2 (Z.ltb_ge _ _)) by (unfold zlen; cbn; lia)|].
    cbn [chunks_fuel]. destruct i as [|i].
    + cbn [lookup list_lookup Z.of_nat]. rewrite Z.mul_0_r.
      rewrite (proj2 (Z.ltb_lt _ _)) by (rewrite zlen_cons; pose proof (zlen_nonneg l); lia).
      unfold chunk. by rewrite Z.mul_0_r.
    + change ((ztake n (b :: l) :: chunks_fuel fuel n (zdrop n (b :: l))) !! S i)
        with (chunks_fuel fuel n (zdrop n (b :: l)) !! i).
      rewrite IH.
      * unfold chunk, zdrop, zlen. rewrite drop_drop, length_drop.
        replace (Z.to_nat n + Z.to_nat (n * Z.of_nat i))%nat with (Z.to_nat (n * Z.of_nat (S i))) by lia.
        destruct (Z.ltb_spec (n * Z.of_nat (S i)) (Z.of_nat (length (b :: l)))) as [H|H].
        -- by rewrite (proj2 (Z.ltb_lt _ _)) by lia.
        -- by rewrite (proj2 (Z.ltb_ge _ _)) by lia.
      * unfold zdrop. rewrite length_drop. cbn [length] in *. lia.
Qed.

Lemma chunks_lookup n l (i : nat) :
  0 < n -> chunks n l !! i =
    if Z.of_nat i <? div_ceil (zlen l) n then Some (chunk n l (Z.of_nat i)) else None.
Proof.
  intros Hn. unfold chunks. rewrite chunks_fuel_lookup by (lia || done).
  destruct (Z.ltb_spec (Z.of_nat i) (div_ceil (zlen l) n)) as [H|H].
  - apply div_ceil_spec in H; [|lia|lia]. by rewrite (proj2 (Z.ltb_lt _ _)).
  - rewrite (proj2 (Z.ltb_ge _ _)); [done|].
    pose proof (proj2 (div_ceil_spec (zlen l) n (Z.of_nat i) Hn ltac:(lia))). lia.
Qed.

Lemma zlen_chunks n l : 0 < n -> zlen (chunks n l) = div_ceil (zlen l) n.
Proof.
  intros Hn. assert (0 <= div_ceil (zlen l) n) as Hpos.
  { unfold div_ceil. apply Z.div_pos; [pose proof (zlen_nonneg l)|]; lia. }
  unfold zlen at 1. apply Z.le_antisymm.
  - destruct (Z_le_gt_dec (Z.of_nat (length (chunks n l))) (div_ceil (zlen l) n)) as [|Hgt]; [done|].
    pose proof (chunks_lookup n l (Z.to_nat (div_ceil (zlen l) n)) Hn) as H.
    rewrite (proj2 (Z.ltb_ge _ _)) in H by lia. apply lookup_ge_None in H. lia.
  - destruct (Z_le_gt_dec (div_ceil (zlen l) n) (Z.of_nat (length (chunks n l)))) as [|Hgt]; [done|].
    pose proof (chunks_lookup n l (length (chunks n l)) Hn) as H.
    rewrite (proj2 (Z.ltb_lt _ _)) in H by lia. apply lookup_lt_Some in H. lia.
Qed.

Lemma concat_chunks n l : 0 < n -> concat (chunks n l) = l.
Proof.
  intros Hn. unfold chunks. assert (length l <= length l)%nat as Hf by lia. revert Hf.
  generalize (length l) at 2 3. intros fuel. revert l.
  induction fuel as [|fuel IH]; intros l Hf; (destruct l as [|b l]; [done|]); cbn in Hf; [lia|].
  cbn [chunks_fuel concat]. rewrite IH.
  - unfold ztake, zdrop. apply take_drop.
  - unfold zdrop. rewrite length_drop. cbn [length]. lia.
Qed.

(** ** The header *)

Lemma parse_own p max index id bytes :
  0 < p -> 1 <= zlen bytes <= max -> zlen bytes <= u32_max -> is_u32 id ->
  div_ceil (zlen bytes) p <= MAX_FRAGMENTS -> 0 <= index < div_ceil (zlen bytes) p ->
  parse_fragment p max
    (fragment_bytes index (div_ceil (zlen bytes) p) id (wrap32 (zlen bytes)) (chunk p bytes index))
  = Ok (mkFragHeader index (div_ceil (zlen bytes) p) id (zlen bytes) (chunk p bytes index)).
Proof.
  intros Hp Hlen Hu32 Hid Hcount Hindex. set (count := div_ceil (zlen bytes) p) in *.
  set (c := chunk p bytes index). unfold is_u32, MAX_FRAGMENTS, u16_max, u32_max in *.
  assert (wrap32 (zlen bytes) = zlen bytes) as -> by (apply Z.mod_small; lia).
  unfold fragment_bytes, FRAGMENT_MAGIC.
  unfold wrap16. rewrite (Z.mod_small index), (Z.mod_small count) by lia.
  set (i2 := le_bytes 2 index). set (c2 := le_bytes 2 count). set (d4 := le_bytes 4 id).
  set (t4 := le_bytes 4 (zlen bytes)).
  assert (zlen i2 = 2 /\ zlen c2 = 2 /\ zlen d4 = 4 /\ zlen t4 = 4) as (Hi2 & Hc2 & Hd4 & Ht4)
    by (subst i2 c2 d4 t4; by rewrite !zlen_le_bytes).
  set (h := bs "RF" ++ [byte_of FRAGMENT_VERSION] ++ [byte_of 0]).
  assert (zlen h = 4) as Hh by done.
  assert (bs "RF" ++ [byte_of FRAGMENT_VERSION] ++ [byte_of 0] ++ i2 ++ c2 ++ d4 ++ t4 ++ c
            = h ++ i2 ++ c2 ++ d4 ++ t4 ++ c) as -> by done.
  unfold parse_fragment.
  assert (slice (h ++ i2 ++ c2 ++ d4 ++ t4 ++ c) 0 2 = FRAGMENT_MAGIC) as -> by done.
  assert (le_val (slice (h ++ i2 ++ c2 ++ d4 ++ t4 ++ c) 2 3) = FRAGMENT_VERSION) as -> by done.
  assert (le_val (slice (h ++ i2 ++ c2 ++ d4 ++ t4 ++ c) 3 4) = 0) as -> by done.
  rewrite (slice_at _ h i2 (c2 ++ d4 ++ t4 ++ c) 4 6) by (done || lia).
  rewrite (slice_at _ (h ++ i2) c2 (d4 ++ t4 ++ c) 6 8) by (rewrite ?zlen_app, <- ?app_assoc; done || lia).
  rewrite (slice_at _ (h ++ i2 ++ c2) d4 (t4 ++ c) 8 12)
    by (rewrite ?zlen_app, <- ?app_assoc; done || lia).
  rewrite (slice_at _ (h ++ i2 ++ c2 ++ d4) t4 c 12 16)
    by (rewrite ?zlen_app, <- ?app_assoc; done || lia).
  rewrite (zdrop_at _ (h ++ i2 ++ c2 ++ d4 ++ t4) c FRAGMENT_HEADER_BYTES)
    by (unfold FRAGMENT_HEADER_BYTES; rewrite ?zlen_app, <- ?app_assoc; done || lia).
  unfold i2, c2, d4, t4. rewrite !le_val_bytes by (cbn; lia). fold i2 c2 d4 t4.
  assert (zlen (h ++ i2 ++ c2 ++ d4 ++ t4 ++ c) = 16 + zlen c) as -> by (rewrite !zlen_app; lia).
  pose proof (zlen_nonneg c). unfold FRAGMENT_HEADER_BYTES, MAX_FRAGMENTS, u16_max.
  rewrite (proj2 (Z.ltb_ge (16 + zlen c) 16)) by lia. rewrite bool_decide_eq_true_2 by done.
  cbn [orb negb]. rewrite Z.eqb_refl. change (0 =? 0) with true. cbn [orb negb].
  rewrite (proj2 (Z.eqb_neq (zlen bytes) 0)) by lia. rewrite (proj2 (Z.ltb_ge max _)) by lia.
  cbn [orb]. fold count. rewrite (proj2 (Z.eqb_neq count 0)) by lia.
  rewrite (proj2 (Z.ltb_ge 65535 count)) by lia. rewrite Z.eqb_refl.
  rewrite (proj2 (Z.leb_gt count index)) by lia. cbn [orb negb].
  unfold c. rewrite zlen_chunk by (subst count; lia). fold count. by rewrite Z.eqb_refl.
Qed.

Lemma parse_fragment_ok p max bytes h :
  parse_fragment p max bytes = Ok h ->
  1 <= fh_total_len h <= max /\ fh_count h = div_ceil (fh_total_len h) p /\
  0 <= fh_index h < fh_count h /\ fh_count h <= MAX_FRAGMENTS /\
  zlen (fh_payload h) =
    (if fh_index h + 1 =? fh_count h then fh_total_len h - p * fh_index h else p).
Proof.
  unfold parse_fragment. cbv zeta.
  repeat match goal with
  | |- (if ?b then Err _ else _) = _ -> _ => let E := fresh "E" in destruct b eqn:E; [discriminate|]
  end.
  intros [= <-].
  cbn [fh_index fh_count fh_total_len fh_payload].
  apply negb_false_iff, Z.eqb_eq in E3. rewrite E3.
  pose proof (le_val_range (slice bytes 12 16)). pose proof (le_val_range (slice bytes 4 6)).
  split_and!; first [lia|done].
Qed.

(** ** Pending packets *)

Fixpoint count_some {A} (l : list (option A)) : Z :=
  match l with
  | [] => 0
  | Some _ :: l => 1 + count_some l
  | None :: l => count_some l
  end.

Lemma count_some_le {A} (l : list (option A)) : 0 <= count_some l <= zlen l.
Proof.
  induction l as [|[x|] l IH]; cbn [count_some]; rewrite ?zlen_cons; [|lia|lia].
  unfold zlen. cbn. lia.
Qed.

Lemma count_some_insert {A} (l : list (option A)) i x :
  l !! i = Some None -> count_some (<[i := Some x]> l) = count_some l + 1.
Proof.
  revert i. induction l as [|o l IH]; intros [|i] H; cbn in *; try done.
  - injection H as ->. lia.
  - destruct o; rewrite IH by done; lia.
Qed.

Lemma count_some_full {A} (l : list (option A)) :
  count_some l = zlen l -> forall i, l !! i <> Some None.
Proof.
  induction l as [|o l IH]; intros H i; cbn [count_some] in H; [done|].
  rewrite zlen_cons in H. pose proof (count_some_le l).
  destruct o as [x|]; [|lia]. destruct i as [|i]; [done|]. cbn. apply IH. lia.
Qed.

Lemma count_some_all {A} (l : list (option A)) :
  (forall i, l !! i <> Some None) -> count_some l = zlen l.
Proof.
  induction l as [|o l IH]; intros H; [done|]. rewrite zlen_cons. cbn [count_some].
  rewrite IH by (intros i; apply (H (S i))). destruct o; [lia|]. by destruct (H 0%nat).
Qed.

Lemma assemble_full fs : (forall i, fs !! i <> Some None) -> exists out, assemble fs = Some out.
Proof.
  induction fs as [|[f|] fs IH]; intros H; cbn [assemble]; [eauto| |by destruct (H 0%nat)].
  destruct IH as [out ->]; [intros i; apply (H (S i))|]. cbn. eauto.
Qed.

Lemma assemble_chunks (cs : list (list byte)) : assemble (map Some cs) = Some (concat cs).
Proof. induction cs as [|c cs IH]; [done|]. cbn. by rewrite IH. Qed.

Definition packet_ok (p : Z) (packet : PartialPacket) : Prop :=
  1 <= pp_total_len packet /\
  zlen (pp_fragments packet) = div_ceil (pp_total_len packet) p /\
  pp_received packet = count_some (pp_fragments packet) /\
  pp_received packet < zlen (pp_fragments packet) /\
  forall i f, pp_fragments packet !! i = Some (Some f) -> zlen f <= p.

Record reassembler_inv (r : Reassembler) : Prop := {
  ri_payload : 0 < ra_payload_bytes r;
  ri_packets : forall id packet, ra_pending r !! id = Some packet ->
                 packet_ok (ra_payload_bytes r) packet;
  ri_size : Z.of_nat (size (ra_pending r)) <= MAX_PENDING_PACKETS;
  ri_bytes : pending_bytes (ra_pending r) <= MAX_PENDING_BYTES;
}.

Lemma pending_bytes_insert (m : gmap Z PartialPacket) id packet :
  m !! id = None -> pending_bytes (<[id := packet]> m) = pp_total_len packet + pending_bytes m.
Proof.
  intros Hm. unfold pending_bytes.
  assert (forall l1 l2 : list (Z * PartialPacket), l1 ≡ₚ l2 ->
    foldr Z.add 0 (map (fun e => pp_total_len e.2) l1) = foldr Z.add 0 (map (fun e => pp_total_len e.2) l2))
    as Hperm.
  { induction 1; cbn; lia. }
  by rewrite (Hperm _ _ (map_to_list_insert m id packet Hm)).
Qed.

Lemma pending_bytes_delete (m : gmap Z PartialPacket) id packet :
  m !! id = Some packet -> pending_bytes m = pp_total_len packet + pending_bytes (delete id m).
Proof.
  intros Hm. rewrite <- (insert_delete_id m id packet Hm) at 1.
  apply pending_bytes_insert. apply lookup_delete_eq.
Qed.

Lemma pending_filter (m : gmap Z PartialPacket) (P : Z * PartialPacket -> Prop)
    `{!forall e, Decision (P e)} :
  (forall id packet, m !! id = Some packet -> 1 <= pp_total_len packet) ->
  0 <= pending_bytes (filter P m) <= pending_bytes m /\
  (size (filter P m) <= size m)%nat.
Proof.
  induction m as [|id packet m Hm IH] using map_ind; intros Hpos.
  - rewrite map_filter_empty. unfold pending_bytes. rewrite map_to_list_empty. cbn. lia.
  - destruct IH as [IH1 IH2].
    { intros id' p' Hl. apply (Hpos id'). rewrite lookup_insert_ne; [done|]. intros ->. congruence. }
    pose proof (Hpos id packet (lookup_insert_eq _ _ _)).
    rewrite pending_bytes_insert, map_size_insert_None by done.
    rewrite map_filter_insert. destruct (decide (P (id, packet))) as [HP|HP].
    + assert (filter P m !! id = None) as Hf by (apply map_lookup_filter_None; by left).
      rewrite pending_bytes_insert, map_size_insert_None by done. lia.
    + rewrite delete_id by done. lia.
Qed.

(** * Datagram fragments: properties

    Splitting respects the datagram size and loses nothing; [push] never panics and keeps its
    memory bounds on any input; and a packet's fragments reassemble to the packet in any order,
    with repetitions and with other traffic in between. *)

Lemma fresh_filter_ok r now :
  reassembler_inv r ->
  reassembler_inv (set_pending r (filter (fun e => fresh_packet now e.2 = true) (ra_pending r))).
Proof.
  intros [Hp Hpk Hs Hb].
  destruct (pending_filter (ra_pending r) (fun e => fresh_packet now e.2 = true)) as [H1 H2].
  { intros id packet H. by destruct (Hpk id packet H). }
  split; cbn [set_pending ra_pending ra_payload_bytes]; [done| |lia|lia].
  intros id packet [H _]%map_lookup_filter_Some. eauto.
Qed.

Lemma delete_ok r id : reassembler_inv r -> reassembler_inv (set_pending r (delete id (ra_pending r))).
Proof.
  intros [Hp Hpk Hs Hb]. split; cbn [set_pending ra_pending ra_payload_bytes]; [done| | |].
  - intros id' packet [_ H]%lookup_delete_Some. eauto.
  - rewrite map_size_delete. destruct (ra_pending r !! id); unfold Datatypes.id; lia.
  - destruct (ra_pending r !! id) as [packet|] eqn:E; [|by rewrite delete_id].
    pose proof (pending_bytes_delete _ _ _ E). destruct (Hpk _ _ E). lia.
Qed.

Lemma insert_ok r id packet :
  reassembler_inv r -> packet_ok (ra_payload_bytes r) packet ->
  match ra_pending r !! id with
  | Some old => pp_total_len packet = pp_total_len old
  | None => Z.of_nat (size (ra_pending r)) < MAX_PENDING_PACKETS /\
            pending_bytes (ra_pending r) + pp_total_len packet <= MAX_PENDING_BYTES
  end ->
  reassembler_inv (set_pending r (<[id := packet]> (ra_pending r))).
Proof.
  intros [Hp Hpk Hs Hb] Hok Hroom.
  split; cbn [set_pending ra_pending ra_payload_bytes]; [done| | |].
  - intros id' packet' [[<- <-]|[_ H]]%lookup_insert_Some; [done|eauto].
  - destruct (ra_pending r !! id) eqn:E.
    + by rewrite map_size_insert_Some by eauto.
    + rewrite map_size_insert_None by done. lia.
  - destruct (ra_pending r !! id) as [old|] eqn:E.
    + rewrite <- (insert_delete_eq (ra_pending r)).
      rewrite pending_bytes_insert by apply lookup_delete_eq.
      pose proof (pending_bytes_delete _ _ _ E). lia.
    + rewrite pending_bytes_insert by done. lia.
Qed.

Lemma new_packet_ok p h now max bytes :
  0 < p -> parse_fragment p max bytes = Ok h ->
  packet_ok p (mkPartial (fh_total_len h) now (replicate (Z.to_nat (fh_count h)) None) 0).
Proof.
  intros Hp (Ht & Hc & Hi & _ & _)%parse_fragment_ok. split; cbn; [lia|].
  assert (forall n, count_some (replicate n (@None (list byte))) = 0) as Hcount
    by (intros n; induction n; done).
  assert (zlen (replicate (Z.to_nat (fh_count h)) (@None (list byte))) = fh_count h) as Hlen
    by (unfold zlen; rewrite length_replicate; lia).
  rewrite Hlen, Hcount. split; [done|]. split; [done|]. split; [lia|].
  intros i f H. apply lookup_replicate in H as [? _]. congruence.
Qed.

(** The packet a fragment belongs to after the stale ones are gone: the pending one, or a new
    one for which there is room. *)
Definition packet_for (r : Reassembler) (now : Z) (h : FragmentHeader) : PartialPacket :=
  default (mkPartial (fh_total_len h) now (replicate (Z.to_nat (fh_count h)) None) 0)
    (filter (fun e => fresh_packet now e.2 = true) (ra_pending r) !! fh_packet_id h).

Definition with_fragment (packet : PartialPacket) (h : FragmentHeader) : PartialPacket :=
  mkPartial (pp_total_len packet) (pp_created_at packet)
    (<[Z.to_nat (fh_index h) := Some (fh_payload h)]> (pp_fragments packet)) (pp_received packet + 1).

Lemma with_fragment_ok p packet h max bytes :
  0 < p -> parse_fragment p max bytes = Ok h -> packet_ok p packet ->
  pp_total_len packet = fh_total_len h ->
  pp_fragments packet !! Z.to_nat (fh_index h) = Some None ->
  pp_received packet + 1 <> fh_count h -> packet_ok p (with_fragment packet h).
Proof.
  intros Hp (Ht & Hc & Hi & _ & Hl)%parse_fragment_ok (H1 & H2 & H3 & H4 & H5) Htot Hnone Hne.
  assert (zlen (pp_fragments packet) = fh_count h) as H2' by (rewrite Htot in H2; lia).
  unfold with_fragment. split; cbn [pp_total_len pp_fragments pp_received]; [done|].
  assert (forall f : option (list byte), zlen (<[Z.to_nat (fh_index h) := f]> (pp_fragments packet))
    = zlen (pp_fragments packet)) as Hlen by (intros; unfold zlen; by rewrite length_insert).
  rewrite Hlen, count_some_insert by done. split; [done|]. split; [lia|]. split; [lia|].
  intros i f [(<- & [= <-] & _)|[_ H]]%list_lookup_insert_Some; [|eauto].
  rewrite Hl. destruct (Z.eqb_spec (fh_index h + 1) (fh_count h)) as [He|]; [|lia].
  pose proof (div_ceil_spec (fh_total_len h) p (fh_count h) Hp ltac:(lia)). nia.
Qed.

Lemma complete_assembles packet h p max bytes :
  0 < p -> parse_fragment p max bytes = Ok h -> packet_ok p packet ->
  zlen (pp_fragments packet) = fh_count h ->
  pp_fragments packet !! Z.to_nat (fh_index h) = Some None ->
  pp_received packet + 1 = fh_count h ->
  exists out, assemble (pp_fragments (with_fragment packet h)) = Some out.
Proof.
  intros Hp Hparse (H1 & H2 & H3 & H4 & H5) Hlen Hnone Hfull. apply assemble_full.
  apply count_some_full. cbn [with_fragment pp_fragments]. rewrite count_some_insert by done.
  unfold zlen in *. rewrite length_insert. lia.
Qed.

Lemma push_inv r now bytes :
  reassembler_inv r ->
  exists r' out, ra_push r now bytes = Some (r', out) /\ reassembler_inv r' /\
    ra_payload_bytes r' = ra_payload_bytes r /\ ra_max_packet_bytes r' = ra_max_packet_bytes r.
Proof.
  intros Hinv. unfold ra_push.
  destruct (parse_fragment _ _ _) as [h|e] eqn:Hparse; [|by eauto 10].
  pose proof (ri_payload _ Hinv) as Hp. pose proof (parse_fragment_ok _ _ _ _ Hparse) as (Ht & Hc & Hi & _ & _).
  pose proof (fresh_filter_ok r now Hinv) as Hinv1.
  fold (packet_for r now h). set (pending := filter _ _) in *. set (r1 := set_pending r pending) in *.
  assert (ra_pending r1 = pending /\ ra_payload_bytes r1 = ra_payload_bytes r) as [Hr1 Hr1p] by done.
  assert (forall m, set_pending r m = set_pending r1 m) as Hset by done.
  destruct (negb (bool_decide _) && _) eqn:Hcap; [eauto 10|].
  assert (packet_ok (ra_payload_bytes r) (packet_for r now h) /\
    match pending !! fh_packet_id h with
    | Some old => pp_total_len (packet_for r now h) = pp_total_len old
    | None => Z.of_nat (size pending) < MAX_PENDING_PACKETS /\
              pending_bytes pending + pp_total_len (packet_for r now h) <= MAX_PENDING_BYTES
    end) as [Hok Hroom].
  { unfold packet_for. fold pending. destruct (pending !! fh_packet_id h) as [old|] eqn:E; cbn [default].
    - split; [|done]. by apply (ri_packets _ Hinv1 (fh_packet_id h)).
    - split; [by eapply new_packet_ok|]. rewrite bool_decide_eq_false_2 in Hcap by (by intros [? ?]).
      cbn [negb andb] in Hcap. cbn [pp_total_len]. lia. }
  destruct (negb (_ =? _) || _) eqn:Hmeta.
  { exists (set_pending r1 (delete (fh_packet_id h) pending)), (Err FragMetadata).
    split; [done|]. split; [by apply (delete_ok r1)|done]. }
  assert (pp_total_len (packet_for r now h) = fh_total_len h /\
          zlen (pp_fragments (packet_for r now h)) = fh_count h) as [Htot Hlen] by lia.
  destruct (lookup_lt_is_Some_2 (pp_fragments (packet_for r now h)) (Z.to_nat (fh_index h)))
    as [slot Hslot]; [unfold zlen in Hlen; lia|]. rewrite Hslot.
  destruct slot as [existing|].
  - destruct (bool_decide (existing = _)).
    + exists (set_pending r1 (<[fh_packet_id h := packet_for r now h]> pending)), (Ok None).
      split; [done|]. split; [|done]. by apply (insert_ok r1).
    + eexists _, _. split; [done|]. split; [by apply (delete_ok r1)|done].
  - fold (with_fragment (packet_for r now h) h).
    change (pp_received (with_fragment (packet_for r now h) h))
      with (pp_received (packet_for r now h) + 1).
    destruct (Z.eqb_spec (pp_received (packet_for r now h) + 1) (fh_count h)) as [Hfull|Hne];
      cbn [negb].
    + destruct (complete_assembles _ _ _ _ _ Hp Hparse Hok Hlen Hslot Hfull) as [out ->].
      eexists _, _. split; [done|]. split; [by apply (delete_ok r1)|done].
    + exists (set_pending r1 (<[fh_packet_id h := with_fragment (packet_for r now h) h]> pending)),
        (Ok None).
      split; [done|]. split; [|done]. apply (insert_ok r1); [done| |done].
      by apply (with_fragment_ok _ _ _ _ _ Hp Hparse).
Qed.

(** ** Splitting *)

Lemma split_ok f bytes f' frags :
  0 < fr_payload_bytes f -> split f bytes = (f', Ok frags) ->
  1 <= zlen bytes <= fr_max_packet_bytes f /\
  div_ceil (zlen bytes) (fr_payload_bytes f) <= MAX_FRAGMENTS /\
  zlen frags = div_ceil (zlen bytes) (fr_payload_bytes f) /\
  forall i, frags !! i =
    (fun c => fragment_bytes (Z.of_nat i) (div_ceil (zlen bytes) (fr_payload_bytes f))
                (fr_next_id f) (wrap32 (zlen bytes)) c) <$> chunks (fr_payload_bytes f) bytes !! i.
Proof.
  intros Hp. unfold split. pose proof (zlen_nonneg bytes).
  destruct (_ || _) eqn:E1; [done|]. destruct (MAX_FRAGMENTS <? _) eqn:E2; [done|]. intros [= <- <-].
  split; [lia|]. split; [lia|]. split.
  - unfold zlen at 1. rewrite length_imap. by apply zlen_chunks.
  - intros i. by rewrite list_lookup_imap.
Qed.

(** What the fragments of [frags] are to a receiver: fragment [i] of packet [id]. *)
Lemma split_parse f bytes f' frags max i g :
  0 < fr_payload_bytes f -> is_u32 (fr_next_id f) -> zlen bytes <= u32_max -> zlen bytes <= max ->
  split f bytes = (f', Ok frags) -> frags !! i = Some g ->
  Z.of_nat i < div_ceil (zlen bytes) (fr_payload_bytes f) /\
  parse_fragment (fr_payload_bytes f) max g =
    Ok (mkFragHeader (Z.of_nat i) (div_ceil (zlen bytes) (fr_payload_bytes f)) (fr_next_id f)
          (zlen bytes) (chunk (fr_payload_bytes f) bytes (Z.of_nat i))).
Proof.
  intros Hp Hid Hu Hmax Hsplit Hg. destruct (split_ok _ _ _ _ Hp Hsplit) as (Hlen & Hc & _ & Hl).
  rewrite Hl, chunks_lookup in Hg by done.
  destruct (Z.ltb_spec (Z.of_nat i) (div_ceil (zlen bytes) (fr_payload_bytes f))); [|done].
  split; [done|]. injection Hg as <-. apply parse_own; (done || lia).
Qed.

Lemma zlen_fragment_bytes i c id t payload :
  zlen (fragment_bytes i c id t payload) = FRAGMENT_HEADER_BYTES + zlen payload.
Proof.
  unfold fragment_bytes, FRAGMENT_MAGIC. rewrite !zlen_app, !zlen_le_bytes.
  unfold FRAGMENT_HEADER_BYTES, zlen. cbn. lia.
Qed.

(** ** Partly received packets *)

(** The slots of a packet of which the fragments [seen] have arrived. *)
Definition slots (p : Z) (bytes : list byte) (seen : list nat) : list (option (list byte)) :=
  imap (fun i c => if bool_decide (i ∈ seen) then Some c else None) (chunks p bytes).

Definition partial (p : Z) (bytes : list byte) (created : Z) (seen : list nat) : PartialPacket :=
  mkPartial (zlen bytes) created (slots p bytes seen) (count_some (slots p bytes seen)).

Lemma slots_lookup p bytes seen i :
  0 < p -> Z.of_nat i < div_ceil (zlen bytes) p ->
  slots p bytes seen !! i =
    Some (if bool_decide (i ∈ seen) then Some (chunk p bytes (Z.of_nat i)) else None).
Proof.
  intros Hp Hi. unfold slots. rewrite list_lookup_imap, chunks_lookup by done.
  by rewrite (proj2 (Z.ltb_lt _ _)) by done.
Qed.

Lemma zlen_slots p bytes seen : 0 < p -> zlen (slots p bytes seen) = div_ceil (zlen bytes) p.
Proof. intros Hp. unfold slots, zlen at 1. rewrite length_imap. by apply zlen_chunks. Qed.

Lemma slots_empty p bytes :
  0 < p -> slots p bytes [] = replicate (Z.to_nat (div_ceil (zlen bytes) p)) None.
Proof.
  intros Hp. apply list_eq_same_length with (n := Z.to_nat (div_ceil (zlen bytes) p)).
  - by rewrite length_replicate.
  - pose proof (zlen_slots p bytes [] Hp). unfold zlen in *. lia.
  - intros i x y Hi Hx Hy. rewrite slots_lookup in Hx by lia. rewrite lookup_replicate_2 in Hy by lia.
    rewrite bool_decide_eq_false_2 in Hx by apply not_elem_of_nil. congruence.
Qed.

Lemma slots_insert p bytes seen i :
  0 < p -> Z.of_nat i < div_ceil (zlen bytes) p ->
  <[i := Some (chunk p bytes (Z.of_nat i))]> (slots p bytes seen) = slots p bytes (i :: seen).
Proof.
  intros Hp Hi. apply list_eq. intros j.
  destruct (Z_lt_ge_dec (Z.of_nat j) (div_ceil (zlen bytes) p)) as [Hj|Hj].
  - rewrite slots_lookup by done. destruct (decide (i = j)) as [<-|Hne].
    + pose proof (zlen_slots p bytes seen Hp).
      rewrite list_lookup_insert_eq by (unfold zlen in *; lia).
      by rewrite bool_decide_eq_true_2 by apply list_elem_of_here.
    + rewrite list_lookup_insert_ne, slots_lookup by done.
      by rewrite (bool_decide_ext (j ∈ seen) (j ∈ i :: seen)) by (rewrite elem_of_cons; intuition congruence).
  - pose proof (zlen_slots p bytes seen Hp). pose proof (zlen_slots p bytes (i :: seen) Hp).
    rewrite !lookup_ge_None_2; [done| |rewrite length_insert]; unfold zlen in *; lia.
Qed.

Lemma slots_full p bytes seen :
  0 < p -> (forall i, Z.of_nat i < div_ceil (zlen bytes) p -> i ∈ seen) ->
  assemble (slots p bytes seen) = Some bytes /\
  count_some (slots p bytes seen) = div_ceil (zlen bytes) p.
Proof.
  intros Hp Hall.
  assert (slots p bytes seen = map Some (chunks p bytes)) as ->.
  { apply list_eq. intros i. unfold slots. rewrite list_lookup_imap, list_lookup_fmap.
    rewrite chunks_lookup by done.
    destruct (Z.ltb_spec (Z.of_nat i) (div_ceil (zlen bytes) p)) as [H|H]; [|done].
    cbn. by rewrite bool_decide_eq_true_2 by auto. }
  rewrite assemble_chunks, concat_chunks by done. split; [done|].
  rewrite count_some_all.
  - unfold zlen at 1. rewrite length_map. by apply zlen_chunks.
  - intros i. rewrite list_lookup_fmap. by destruct (chunks p bytes !! i).
Qed.

Lemma slots_not_full p bytes seen i :
  0 < p -> Z.of_nat i < div_ceil (zlen bytes) p -> i ∉ seen ->
  count_some (slots p bytes seen) <> div_ceil (zlen bytes) p.
Proof.
  intros Hp Hi Hn Heq. rewrite <- (zlen_slots p bytes seen Hp) in Heq.
  apply (count_some_full _ Heq i). rewrite slots_lookup by done.
  by rewrite bool_decide_eq_false_2.
Qed.

(** ** One arrival *)

Definition fresh_pending (r : Reassembler) (now : Z) : gmap Z PartialPacket :=
  filter (fun e => fresh_packet now e.2 = true) (ra_pending r).

(** A fragment of a packet not pending at [now] is admitted. *)
Definition has_room (r : Reassembler) (now id total : Z) : Prop :=
  fresh_pending r now !! id = None /\
  Z.of_nat (size (fresh_pending r now)) < MAX_PENDING_PACKETS /\
  pending_bytes (fresh_pending r now) + total <= MAX_PENDING_BYTES.

(** Of packet [id], the fragments [seen] are held at [now]; none, if it is not pending. *)
Definition holds (r : Reassembler) (now id : Z) (bytes : list byte) (created : Z)
    (seen : list nat) : Prop :=
  fresh_pending r now !! id = Some (partial (ra_payload_bytes r) bytes created seen) \/
  (has_room r now id (zlen bytes) /\ created = now /\ seen = []).

(** The header of fragment [i] of packet [id]. *)
Definition own_header (p id : Z) (bytes : list byte) (i : nat) : FragmentHeader :=
  mkFragHeader (Z.of_nat i) (div_ceil (zlen bytes) p) id (zlen bytes) (chunk p bytes (Z.of_nat i)).

Definition after_push (r : Reassembler) (now id : Z) (packet : option PartialPacket) : Reassembler :=
  set_pending r (match packet with
                 | Some packet => <[id := packet]> (fresh_pending r now)
                 | None => delete id (fresh_pending r now)
                 end).

Lemma own_push r now g id bytes created seen i :
  0 < ra_payload_bytes r -> Z.of_nat i < div_ceil (zlen bytes) (ra_payload_bytes r) ->
  parse_fragment (ra_payload_bytes r) (ra_max_packet_bytes r) g =
    Ok (own_header (ra_payload_bytes r) id bytes i) ->
  holds r now id bytes created seen ->
  ra_push r now g =
    if bool_decide (i ∈ seen) then
      Some (after_push r now id (Some (partial (ra_payload_bytes r) bytes created seen)), Ok None)
    else if count_some (slots (ra_payload_bytes r) bytes (i :: seen)) =?
              div_ceil (zlen bytes) (ra_payload_bytes r) then
      (fun b => (after_push r now id None, Ok (Some b))) <$>
        assemble (slots (ra_payload_bytes r) bytes (i :: seen))
    else
      Some (after_push r now id (Some (partial (ra_payload_bytes r) bytes created (i :: seen))),
            Ok None).
Proof.
  intros Hp Hi Hparse Hholds. unfold ra_push. rewrite Hparse. set (p := ra_payload_bytes r) in *.
  cbn [own_header fh_index fh_count fh_packet_id fh_total_len fh_payload].
  fold (fresh_pending r now).
  assert (default (mkPartial (zlen bytes) now
            (replicate (Z.to_nat (div_ceil (zlen bytes) p)) None) 0) (fresh_pending r now !! id) =
          partial p bytes created seen) as ->.
  { destruct Hholds as [->|((-> & _) & -> & ->)]; [done|]. cbn [default]. unfold partial.
    rewrite slots_empty by done. f_equal. by induction (Z.to_nat _). }
  replace (negb (bool_decide (is_Some (fresh_pending r now !! id))) && _) with false.
  2: { symmetry. destruct Hholds as [->|((-> & ? & ?) & _)].
       - by rewrite bool_decide_eq_true_2 by eauto.
       - rewrite bool_decide_eq_false_2 by (by intros [? ?]). cbn [negb andb]. lia. }
  cbn [partial pp_total_len pp_fragments pp_received pp_created_at].
  rewrite zlen_slots, !Z.eqb_refl by done. cbn [negb orb]. rewrite Nat2Z.id, slots_lookup by done.
  destruct (bool_decide (i ∈ seen)) eqn:Hseen; [by rewrite bool_decide_eq_true_2 by done|].
  rewrite slots_insert by done.
  assert (count_some (slots p bytes seen) + 1 = count_some (slots p bytes (i :: seen))) as ->.
  { rewrite <- slots_insert by done. rewrite count_some_insert; [done|].
    by rewrite slots_lookup, Hseen by done. }
  destruct (_ =? _); [|done]. cbn [negb]. by destruct (assemble _).
Qed.

(** A fragment that is not of packet [id], or is no fragment at all. *)
Definition foreign (p max id : Z) (g : list byte) : Prop :=
  match parse_fragment p max g with Ok h => fh_packet_id h <> id | Err _ => True end.

Lemma foreign_push r now g id packet r' out :
  foreign (ra_payload_bytes r) (ra_max_packet_bytes r) id g ->
  ra_push r now g = Some (r', out) -> fresh_packet now packet = true ->
  ra_pending r !! id = Some packet -> ra_pending r' !! id = Some packet.
Proof.
  unfold foreign, ra_push. intros Hf Hpush Hfresh Hl.
  destruct (parse_fragment _ _ _) as [h|e]; [|congruence].
  assert (fresh_pending r now !! id = Some packet) as Hl'
    by (apply map_lookup_filter_Some; done).
  fold (fresh_pending r now) in Hpush. set (m := fresh_pending r now) in *.
  assert (forall o : option PartialPacket, match o with
    | Some q => <[fh_packet_id h := q]> m | None => delete (fh_packet_id h) m end !! id = Some packet)
    as Hkeep.
  { intros [q|]; [rewrite lookup_insert_ne by done|rewrite lookup_delete_ne by done]; done. }
  pose proof (Hkeep None) as Hdel. pose proof (fun q => Hkeep (Some q)) as Hins.
  cbn iota in Hdel, Hins.
  repeat match goal with
  | H : context [if ?b then _ else _] |- _ => destruct b
  | H : context [match ?l !! Z.to_nat ?n with _ => _ end] |- _ => destruct (l !! Z.to_nat n) as [[]|]
  | H : context [match assemble ?l with _ => _ end] |- _ => destruct (assemble l)
  end; try discriminate; injection Hpush as <- _; cbn [set_pending ra_pending]; auto.
Qed.

(** ** Runs *)

(** The datagrams that arrived, with their times, pushed one after the other. *)
Fixpoint ra_run (r : Reassembler) (arrivals : list (Z * list byte))
    : option (Reassembler * list (Result FragmentError (option (list byte)))) :=
  match arrivals with
  | [] => Some (r, [])
  | (now, g) :: rest =>
      match ra_push r now g with
      | None => None
      | Some (r, out) =>
          match ra_run r rest with
          | None => None
          | Some (r, outs) => Some (r, out :: outs)
          end
      end
  end.

Lemma ra_run_app r l1 l2 r1 o1 r2 o2 :
  ra_run r l1 = Some (r1, o1) -> ra_run r1 l2 = Some (r2, o2) ->
  ra_run r (l1 ++ l2) = Some (r2, o1 ++ o2).
Proof.
  revert r o1. induction l1 as [|[now g] l1 IH]; intros r o1 H1 H2; cbn [ra_run app] in *.
  - injection H1 as -> <-. done.
  - destruct (ra_push r now g) as [[r' out]|]; [|done].
    destruct (ra_run r' l1) as [[r'' outs]|] eqn:E; [|done]. injection H1 as -> <-.
    by rewrite (IH _ _ E H2).
Qed.

Lemma ra_run_inv arrivals r :
  reassembler_inv r ->
  exists r' outs, ra_run r arrivals = Some (r', outs) /\ reassembler_inv r' /\
    ra_payload_bytes r' = ra_payload_bytes r /\ ra_max_packet_bytes r' = ra_max_packet_bytes r.
Proof.
  revert r. induction arrivals as [|[now g] rest IH]; intros r Hr; [by cbn; eauto 10|].
  cbn [ra_run]. destruct (push_inv r now g Hr) as (r1 & out & -> & Hr1 & Hp & Hm).
  destruct (IH r1 Hr1) as (r2 & outs & -> & Hr2 & Hp2 & Hm2). exists r2, (out :: outs).
  split_and!; (done || congruence).
Qed.

Lemma reassembler_new_inv datagram max : reassembler_inv (reassembler_new datagram max).
Proof.
  unfold reassembler_new, payload_bytes_of.
  split; cbn [ra_payload_bytes ra_pending]; [ilia|intros ? ?; by rewrite lookup_empty| |].
  - by rewrite map_size_empty.
  - unfold pending_bytes. by rewrite map_to_list_empty.
Qed.

Section Collect.
Context (p max id : Z) (bytes : list byte).

Definition own (i : nat) (g : list byte) : Prop :=
  Z.of_nat i < div_ceil (zlen bytes) p /\ parse_fragment p max g = Ok (own_header p id bytes i).

Context (t0 : Z) (il : nat) (Hil : Z.of_nat il < div_ceil (zlen bytes) p).

(** An arrival before the last missing fragment [il], while the packet lives. *)
Definition early (a : Z * list byte) : Prop :=
  saturating_sub a.1 t0 < FRAGMENT_TTL /\
  ((exists i, i <> il /\ own i a.2) \/ foreign p max id a.2).

Definition collecting (r : Reassembler) (seen : list nat) : Prop :=
  reassembler_inv r /\ ra_payload_bytes r = p /\ ra_max_packet_bytes r = max /\
  ra_pending r !! id = Some (partial p bytes t0 seen) /\ il ∉ seen.

Lemma collect_own r now g i created seen :
  reassembler_inv r -> ra_payload_bytes r = p -> ra_max_packet_bytes r = max ->
  own i g -> i <> il -> il ∉ seen -> created = t0 -> holds r now id bytes created seen ->
  exists r' seen', ra_push r now g = Some (r', Ok None) /\ collecting r' seen' /\
    i ∈ seen' /\ seen ⊆ seen'.
Proof.
  intros Hr Hp Hm [Hi Hg] Hne Hil' -> Hh. pose proof (ri_payload _ Hr) as Hpos.
  destruct (push_inv r now g Hr) as (r1 & out & Hpush & Hr1 & Hp1 & Hm1).
  pose proof Hpush as Hpush'. rewrite <- Hp, <- Hm in Hg. rewrite <- Hp in Hi.
  rewrite (own_push r now g id bytes t0 seen i) in Hpush' by done.
  exists r1. rewrite Hpush. unfold collecting. destruct (bool_decide (i ∈ seen)) eqn:Hs.
  - injection Hpush' as <- <-. exists seen. split; [done|].
    apply bool_decide_eq_true_1 in Hs. split_and!; try done.
    cbn [after_push set_pending ra_pending]. by rewrite lookup_insert_eq, Hp.
  - rewrite (proj2 (Z.eqb_neq _ _)) in Hpush'.
    2: { apply (slots_not_full _ _ _ il); [lia|congruence|set_solver]. }
    injection Hpush' as <- <-. exists (i :: seen). split; [done|].
    split_and!; try done; [|set_solver..].
    cbn [after_push set_pending ra_pending]. by rewrite lookup_insert_eq, Hp.
Qed.

Lemma collect_step r now g seen :
  collecting r seen -> early (now, g) ->
  exists r' out seen', ra_push r now g = Some (r', out) /\ collecting r' seen' /\ seen ⊆ seen' /\
    forall i, own i g -> i ∈ seen' /\ out = Ok None.
Proof.
  intros (Hr & Hp & Hm & Hl & Hn) [Ht [(i & Hne & Hown)|Hforeign]]; cbn [fst snd] in *.
  - destruct (collect_own r now g i t0 seen) as (r' & seen' & Hpush & Hc & Hi & Hsub); try done.
    { left. apply map_lookup_filter_Some. rewrite Hp. split; [done|].
      cbn [snd]. by apply Z.ltb_lt. }
    exists r', (Ok None), seen'. split; [done|]. split; [done|]. split; [done|].
    intros j [_ Hj]. destruct Hown as [_ Hi']. rewrite Hi' in Hj.
    apply ok_inj, (f_equal fh_index), Nat2Z.inj in Hj as <-. done.
  - destruct (push_inv r now g Hr) as (r1 & out & Hpush & Hr1 & Hp1 & Hm1).
    exists r1, out, seen. split; [done|]. split.
    + split; [done|]. split; [congruence|]. split; [congruence|]. split; [|done].
      eapply foreign_push; [by rewrite Hp, Hm|done| |done]. by apply Z.ltb_lt.
    + split; [done|]. intros j [_ Hj]. unfold foreign in Hforeign. by rewrite Hj in Hforeign.
Qed.

Lemma collect_run arrivals r seen :
  collecting r seen -> Forall early arrivals ->
  exists r' outs seen', ra_run r arrivals = Some (r', outs) /\ collecting r' seen' /\
    seen ⊆ seen' /\ (forall i a, a ∈ arrivals -> own i a.2 -> i ∈ seen') /\
    Forall2 (fun a out => (exists i, own i a.2) -> out = Ok None) arrivals outs.
Proof.
  revert r seen. induction arrivals as [|[now g] rest IH]; intros r seen Hc Hall.
  - exists r, [], seen. split; [done|]. split; [done|]. split; [done|]. split; [|constructor].
    intros i a Ha. by apply not_elem_of_nil in Ha.
  - apply list.Forall_cons in Hall as [Hg Hrest].
    destruct (collect_step r now g seen Hc Hg) as (r1 & out & seen1 & Hpush & Hc1 & Hsub1 & Hown1).
    destruct (IH r1 seen1 Hc1 Hrest) as (r2 & outs & seen2 & Hrun & Hc2 & Hsub2 & Hown2 & Houts).
    exists r2, (out :: outs), seen2. cbn [ra_run]. rewrite Hpush, Hrun. split; [done|].
    split; [done|]. split; [set_solver|]. split.
    + intros i a [->|Ha]%elem_of_cons Hi; [|eauto]. apply Hsub2. by apply (Hown1 i Hi).
    + constructor; [|done]. intros [i Hi]. by apply (Hown1 i Hi).
Qed.

(** The last missing fragment. *)
Lemma collect_last r now g created seen :
  reassembler_inv r -> ra_payload_bytes r = p -> ra_max_packet_bytes r = max ->
  own il g -> il ∉ seen -> holds r now id bytes created seen ->
  (forall i, Z.of_nat i < div_ceil (zlen bytes) p -> i = il \/ i ∈ seen) ->
  exists r', ra_push r now g = Some (r', Ok (Some bytes)) /\ reassembler_inv r' /\
    ra_pending r' !! id = None.
Proof.
  intros Hr Hp Hm [Hi Hg] Hn Hh Hall. pose proof (ri_payload _ Hr) as Hpos.
  destruct (push_inv r now g Hr) as (r1 & out & Hpush & Hr1 & _).
  pose proof Hpush as Hpush'. rewrite <- Hp, <- Hm in Hg. rewrite <- Hp in Hi.
  rewrite (own_push r now g id bytes created seen il) in Hpush' by done.
  rewrite bool_decide_eq_false_2 in Hpush' by done.
  destruct (slots_full (ra_payload_bytes r) bytes (il :: seen)) as [Hasm Hcount]; [done| |].
  { intros i Hi'. rewrite Hp in Hi'. destruct (Hall i Hi'); set_solver. }
  rewrite Hcount, Z.eqb_refl, Hasm in Hpush'. cbn in Hpush'. injection Hpush' as <- <-.
  exists (after_push r now id None). split; [done|]. split; [done|].
  cbn [after_push set_pending ra_pending]. apply lookup_delete_eq.
Qed.
End Collect.

Lemma own_inj p max id bytes i j g : own p max id bytes i g -> own p max id bytes j g -> i = j.
Proof. intros [_ Hi] [_ Hj]. rewrite Hi in Hj. by apply ok_inj, (f_equal fh_index), Nat2Z.inj in Hj. Qed.

(** [frags] are, in order, the fragments of packet [id]. *)
Definition fragments_of (p max id : Z) (bytes : list byte) (frags : list (list byte)) : Prop :=
  zlen frags = div_ceil (zlen bytes) p /\ forall i g, frags !! i = Some g -> own p max id bytes i g.

Lemma split_fragments_of f bytes f' frags max :
  0 < fr_payload_bytes f -> is_u32 (fr_next_id f) -> zlen bytes <= u32_max -> zlen bytes <= max ->
  split f bytes = (f', Ok frags) ->
  fragments_of (fr_payload_bytes f) max (fr_next_id f) bytes frags.
Proof.
  intros Hp Hid Hu Hmax Hsplit. split; [by apply (split_ok _ _ _ _ Hp Hsplit)|].
  intros i g. by apply (split_parse _ _ _ _ max i g Hp Hid Hu Hmax Hsplit).
Qed.

Section AnyOrder.
Context (p max id : Z) (bytes : list byte) (frags : list (list byte)).
Context (Hfrags : fragments_of p max id bytes frags).

Definition arrival_ok (t0 : Z) (gl : list byte) (a : Z * list byte) : Prop :=
  saturating_sub a.1 t0 < FRAGMENT_TTL /\ a.2 <> gl /\ (a.2 ∈ frags \/ foreign p max id a.2).

Lemma arrival_early t0 il gl a :
  frags !! il = Some gl -> arrival_ok t0 gl a -> early p max id bytes t0 il a.
Proof.
  destruct Hfrags as [_ Hown]. intros Hil (Ht & Hne & Hg). split; [done|].
  destruct Hg as [(i & Hi)%list_elem_of_lookup|Hf]; [left|by right].
  exists i. split; [congruence|]. by apply Hown.
Qed.

(** Every index but [il] has been seen, if every fragment but [gl] has arrived. *)
Lemma all_seen il gl (arrived : list (list byte)) (seen : list nat) :
  frags !! il = Some gl -> (forall g, g ∈ frags -> g = gl \/ g ∈ arrived) ->
  (forall i g, g ∈ arrived -> own p max id bytes i g -> i ∈ seen) ->
  forall i, Z.of_nat i < div_ceil (zlen bytes) p -> i = il \/ i ∈ seen.
Proof.
  destruct Hfrags as [Hn Hown]. intros Hil Hall Hseen i Hi.
  destruct (lookup_lt_is_Some_2 frags i) as [g Hg]; [unfold zlen in *; lia|].
  destruct (Hall g) as [->|Ht]; [by apply list_elem_of_lookup; eauto| |].
  - left. apply (own_inj p max id bytes i il gl); by apply Hown.
  - right. eapply Hseen; [done|]. by apply Hown.
Qed.

Lemma outs_silent arr (outs : list (Result FragmentError (option (list byte)))) :
  Forall2 (fun a out => (exists i, own p max id bytes i a.2) -> out = Ok None) arr outs ->
  Forall2 (fun (a : Z * list byte) out => a.2 ∈ frags -> out = Ok None) arr outs.
Proof.
  apply Forall2_impl. intros a out Ho (i & Hi)%list_elem_of_lookup. apply Ho. exists i. by apply Hfrags.
Qed.

Lemma reassemble_run r arrivals t0 g0 tl gl :
  reassembler_inv r -> ra_payload_bytes r = p -> ra_max_packet_bytes r = max ->
  head (arrivals ++ [(tl, gl)]) = Some (t0, g0) -> g0 ∈ frags -> has_room r t0 id (zlen bytes) ->
  Forall (arrival_ok t0 gl) arrivals -> saturating_sub tl t0 < FRAGMENT_TTL -> gl ∈ frags ->
  (forall g, g ∈ frags -> g = gl \/ g ∈ map snd arrivals) ->
  exists r' outs, ra_run r (arrivals ++ [(tl, gl)]) = Some (r', outs ++ [Ok (Some bytes)]) /\
    Forall2 (fun a out => a.2 ∈ frags -> out = Ok None) arrivals outs /\ ra_pending r' !! id = None.
Proof.
  intros Hr Hp Hm Hhead Hg0 Hroom Harr Htl (il & Hil)%list_elem_of_lookup Hall.
  pose proof (proj2 Hfrags _ _ Hil) as Hlast. destruct arrivals as [|[t1 g1] rest].
  - injection Hhead as -> ->.
    destruct (collect_last p max id bytes il ltac:(apply Hlast) r t0 g0 t0 [])
      as (r' & Hpush & _ & Hnone); try done; [by apply not_elem_of_nil|by right| |].
    { apply (all_seen il g0 [] [] Hil Hall). intros ? ? []%not_elem_of_nil. }
    exists r', []. cbn [ra_run app]. by rewrite Hpush.
  - injection Hhead as -> ->. apply list.Forall_cons in Harr as [Hfirst Hrest].
    apply list_elem_of_lookup in Hg0 as [i0 Hi0].
    destruct (collect_own p max id bytes t0 il ltac:(apply Hlast) r t0 g0 i0 t0 [])
      as (r1 & seen1 & Hpush & Hc1 & Hseen1 & _); try done;
      [by apply Hfrags| |by apply not_elem_of_nil|by right|].
    { destruct Hfirst as (_ & Hne & _). cbn [snd] in Hne. congruence. }
    destruct (collect_run p max id bytes t0 il ltac:(apply Hlast) rest r1 seen1 Hc1)
      as (r2 & outs & seen2 & Hrun & (Hr2 & Hp2 & Hm2 & Hl2 & Hn2) & Hsub & Hseen & Houts).
    { eapply list.Forall_impl; [exact Hrest|]. intros a. by apply arrival_early. }
    destruct (collect_last p max id bytes il ltac:(apply Hlast) r2 tl gl t0 seen2)
      as (r3 & Hpush3 & _ & Hgone); try done.
    { left. apply map_lookup_filter_Some. rewrite Hp2. split; [done|]. by apply Z.ltb_lt. }
    { apply (all_seen il gl _ _ Hil Hall). intros i g [->|Ht]%elem_of_cons Hi.
      - apply Hsub. by rewrite (own_inj p max id bytes i i0 g0) by (done || by apply Hfrags).
      - apply list_elem_of_fmap in Ht as (a & -> & Ha). by apply (Hseen i a). }
    exists r3, (Ok None :: outs). split; [|split; [constructor; [done|by apply outs_silent]|done]].
    apply (ra_run_app _ ((t0, g0) :: rest) _ r2); cbn [ra_run]; [by rewrite Hpush, Hrun|].
    by rewrite Hpush3.
Qed.
End AnyOrder.

(** ** The properties *)

(** Whatever datagrams a peer sends at whatever times, [push] never panics (no [expect]
    fails, no index is out of range), at most [MAX_PENDING_PACKETS] packets and at most
    [MAX_PENDING_BYTES] of announced bytes are ever pending, and the bytes held of a packet
    are no more fragments than it announced, each no longer than one datagram's payload. *)
Theorem push_total datagram max arrivals :
  exists r outs, ra_run (reassembler_new datagram max) arrivals = Some (r, outs) /\
    Z.of_nat (size (ra_pending r)) <= MAX_PENDING_PACKETS /\
    pending_bytes (ra_pending r) <= MAX_PENDING_BYTES /\
    forall id packet, ra_pending r !! id = Some packet ->
      zlen (pp_fragments packet) = div_ceil (pp_total_len packet) (payload_bytes_of datagram) /\
      pp_received packet < zlen (pp_fragments packet) /\
      forall i f, pp_fragments packet !! i = Some (Some f) -> zlen f <= payload_bytes_of datagram.
Proof.
  destruct (ra_run_inv arrivals _ (reassembler_new_inv datagram max)) as (r & outs & Hrun & Hr & Hp & _).
  cbn in Hp. exists r, outs. split; [done|]. destruct Hr as [_ Hpk Hs Hb]. rewrite Hp in Hpk.
  split; [done|]. split; [done|]. intros id packet H. by destruct (Hpk id packet H) as (? & ? & ? & ? & ?).
Qed.

(** [split] accepts a packet exactly when it is not empty, no longer than the maximum and
    needs no more than 65,535 fragments; the fragments it makes are datagrams of at most the
    configured size, each parses on the receiving side as the next piece of this packet, their
    payloads put together are the packet, and the packet id moves on by one. *)
Theorem split_functional datagram max next bytes :
  FRAGMENT_HEADER_BYTES < datagram -> max <= u32_max -> is_u32 next ->
  let f := mkFragmenter (payload_bytes_of datagram) max next in
  let count := div_ceil (zlen bytes) (payload_bytes_of datagram) in
  if bool_decide (1 <= zlen bytes <= max /\ count <= MAX_FRAGMENTS) then
    exists frags, split f bytes = (mkFragmenter (payload_bytes_of datagram) max (wrapping_add32 next 1),
                                   Ok frags) /\
      zlen frags = count /\
      Forall (fun g => zlen g <= datagram) frags /\
      (forall i g, frags !! i = Some g -> exists payload,
         parse_fragment (payload_bytes_of datagram) max g =
           Ok (mkFragHeader (Z.of_nat i) count next (zlen bytes) payload)) /\
      concat (map (zdrop FRAGMENT_HEADER_BYTES) frags) = bytes
  else exists e, split f bytes = (f, Err e).
Proof.
  intros Hd Hmax Hnext f count.
  assert (0 < payload_bytes_of datagram) as Hp by (unfold payload_bytes_of; ilia).
  assert (FRAGMENT_HEADER_BYTES + payload_bytes_of datagram = datagram) as Hsize
    by (unfold payload_bytes_of, FRAGMENT_HEADER_BYTES in *; ilia).
  set (p := payload_bytes_of datagram) in *. pose proof (zlen_nonneg bytes).
  destruct (split f bytes) as [f' [frags|e]] eqn:Hsplit.
  - destruct (split_ok f bytes f' frags Hp Hsplit) as (Hlen & Hc & Hn & Hl).
    cbn [f fr_payload_bytes fr_max_packet_bytes fr_next_id] in *. fold count in Hc, Hn, Hl.
    rewrite bool_decide_eq_true_2 by done. exists frags. split.
    { unfold split in Hsplit. cbn [f fr_payload_bytes fr_max_packet_bytes fr_next_id] in Hsplit.
      fold count in Hsplit. rewrite (proj2 (Z.eqb_neq (zlen bytes) 0)) in Hsplit by lia.
      rewrite (proj2 (Z.ltb_ge max _)), (proj2 (Z.ltb_ge MAX_FRAGMENTS count)) in Hsplit by lia.
      cbn [orb] in Hsplit. by injection Hsplit as <- <-. }
    split; [done|]. split; [|split].
    + apply list.Forall_forall. intros g (i & Hi)%list_elem_of_lookup.
      rewrite Hl, chunks_lookup in Hi by done. fold count in Hi.
      destruct (Z.ltb_spec (Z.of_nat i) count); [|done]. injection Hi as <-.
      rewrite zlen_fragment_bytes. unfold chunk, ztake, zlen at 1. rewrite length_take. lia.
    + intros i g Hi. eexists.
      apply (split_parse f bytes f' frags max i g Hp Hnext ltac:(lia) ltac:(lia) Hsplit Hi).
    + assert (map (zdrop FRAGMENT_HEADER_BYTES) frags = chunks p bytes) as ->;
        [|by apply concat_chunks].
      apply list_eq. intros i. rewrite list_lookup_fmap, Hl.
      destruct (chunks p bytes !! i) as [c|]; [|done]. cbn [fmap option_fmap option_map].
      done.
  - unfold split in Hsplit. cbn [f fr_payload_bytes fr_max_packet_bytes fr_next_id] in Hsplit.
    fold count in Hsplit. destruct (_ || _) eqn:E1; [|destruct (MAX_FRAGMENTS <? count) eqn:E2].
    3: done.
    all: rewrite bool_decide_eq_false_2 by lia; exists e; by injection Hsplit as <- <-.
Qed.

(** C30. The fragments of a packet reach the receiver in any order, any number of times, with
    other packets' fragments and datagrams that are no fragments in between: the packet comes
    out, byte for byte, with the fragment that completes it, every fragment before that is
    accepted silently, and nothing of the packet stays pending.  The receiver may have seen
    anything before; it has room for the packet when its first fragment arrives, and the last
    one arrives within the packet's time to live. *)
Theorem any_order_reassembly datagram max next bytes f' frags history r houts
    arrivals t0 g0 tl gl :
  is_u32 next -> max <= u32_max ->
  split (mkFragmenter (payload_bytes_of datagram) max next) bytes = (f', Ok frags) ->
  ra_run (reassembler_new datagram max) history = Some (r, houts) ->
  head (arrivals ++ [(tl, gl)]) = Some (t0, g0) -> g0 ∈ frags -> has_room r t0 next (zlen bytes) ->
  Forall (arrival_ok (payload_bytes_of datagram) max next frags t0 gl) arrivals ->
  saturating_sub tl t0 < FRAGMENT_TTL -> gl ∈ frags ->
  (forall g, g ∈ frags -> g = gl \/ g ∈ map snd arrivals) ->
  exists r' outs, ra_run r (arrivals ++ [(tl, gl)]) = Some (r', outs ++ [Ok (Some bytes)]) /\
    Forall2 (fun a out => a.2 ∈ frags -> out = Ok None) arrivals outs /\
    ra_pending r' !! next = None.
Proof.
  intros Hnext Hmax Hsplit Hhist Hhead Hg0 Hroom Harr Htl Hgl Hall.
  assert (0 < payload_bytes_of datagram) as Hp by (unfold payload_bytes_of; ilia).
  destruct (ra_run_inv history _ (reassembler_new_inv datagram max))
    as (r0 & o0 & Hrun0 & Hr & Hrp & Hrm).
  rewrite Hhist in Hrun0. injection Hrun0 as <- <-. cbn in Hrp, Hrm.
  pose proof (split_ok (mkFragmenter _ max next) _ _ _ Hp Hsplit) as (Hlen & _).
  cbn [fr_max_packet_bytes] in Hlen.
  pose proof (split_fragments_of (mkFragmenter _ max next) bytes f' frags max Hp Hnext
    ltac:(lia) ltac:(lia) Hsplit) as Hfrags.
  by apply (reassemble_run (payload_bytes_of datagram) max next bytes frags Hfrags r arrivals t0 g0).
Qed.

Definition demo_frag (i : Z) (payload : list byte) : list byte :=
  fragment_bytes i 3 7 5 payload.
Definition demo_frags : list (list byte) := [demo_frag 0 (bs "he"); demo_frag 1 (bs "ll"); demo_frag 2 (bs "o")].

Lemma split_functional_witness :
  exists frags, split (mkFragmenter (payload_bytes_of 18) 100 7) (bs "hello") =
                  (mkFragmenter 2 100 8, Ok frags) /\
    zlen frags = 3 /\ Forall (fun g => zlen g <= 18) frags /\
    concat (map (zdrop FRAGMENT_HEADER_BYTES) frags) = bs "hello".
Proof.
  pose proof (split_functional 18 100 7 (bs "hello") ltac:(done) ltac:(done) ltac:(done)) as H.
  destruct H as (frags & H1 & H2 & H3 & _ & H5).
  exists frags. split; [exact H1|]. split; [exact H2|]. split; [exact H3|exact H5].
Defined.

Lemma any_order_reassembly_witness :
  exists r outs,
    ra_run (set_pending (reassembler_new 18 100) ∅)
      ([(5, demo_frag 2 (bs "o")); (6, bs "noise"); (6, demo_frag 0 (bs "he")); (7, demo_frag 2 (bs "o"))]
         ++ [(9, demo_frag 1 (bs "ll"))])
    = Some (r, outs ++ [Ok (Some (bs "hello"))]) /\ ra_pending r !! 7 = None.
Proof.
  edestruct (any_order_reassembly 18 100 7 (bs "hello") (mkFragmenter 2 100 8) demo_frags
    [(0, bs "noise")] (set_pending (reassembler_new 18 100) ∅) [Err FragBadHeader]
    [(5, demo_frag 2 (bs "o")); (6, bs "noise"); (6, demo_frag 0 (bs "he")); (7, demo_frag 2 (bs "o"))]
    5 (demo_frag 2 (bs "o")) 9 (demo_frag 1 (bs "ll"))) as (r' & outs & Hrun & _ & Hnone).
  - done.
  - done.
  - vm_compute. reflexivity.
  - vm_compute. reflexivity.
  - reflexivity.
  - apply list_elem_of_lookup. by exists 2%nat.
  - split; [|split]; vm_compute; done.
  - repeat constructor; cbn [fst snd]; try (vm_compute; done);
      first [left; apply list_elem_of_lookup; by exists 2%nat
            |left; apply list_elem_of_lookup; by exists 0%nat
            |right; vm_compute; done].
  - vm_compute. done.
  - apply list_elem_of_lookup. by exists 1%nat.
  - intros g [->|[->|[->|[]%not_elem_of_nil]%elem_of_cons]%elem_of_cons]%elem_of_cons.
    + right. apply list_elem_of_lookup. by exists 2%nat.
    + by left.
    + right. apply list_elem_of_lookup. by exists 0%nat.
  - exists r', outs. split; [exact Hrun|exact Hnone].
Defined.
