(* ===== verification/Baseline.v ===== *)
(** * The acknowledged baselines of one peer

    [AckedBaselineTable] of crates/net/src/transport/acked_baseline.rs: the host keeps the
    frames it sent to a peer until they are acknowledged or pushed out, and encodes a snapshot
    against the newest frame the peer has acknowledged.  The [BTreeMap] is the list of its
    entries in key order; the snapshots and the encoded parts are opaque but for the tick. *)

From S2P Require Export Prelude.
From stdpp Require Import sorting.

#[local] Open Scope Z_scope.

(** ** [BTreeMap<u32, V>] *)

Section BTree.
Context {V : Type}.

Fixpoint bt_insert (k : Z) (v : V) (l : list (Z * V)) : list (Z * V) :=
  match l with
  | [] => [(k, v)]
  | e :: rest =>
      if k <? e.1 then (k, v) :: l
      else if k =? e.1 then (k, v) :: rest
      else e :: bt_insert k v rest
  end.

Definition bt_get (k : Z) (l : list (Z * V)) : option V :=
  snd <$> find (fun e => e.1 =? k) l.

Definition bt_contains (k : Z) (l : list (Z * V)) : bool := existsb (fun e => e.1 =? k) l.

Definition bt_remove (k : Z) (l : list (Z * V)) : list (Z * V) :=
  filter (fun e => negb (e.1 =? k) = true) l.

Definition bt_keys (l : list (Z * V)) : list Z := map fst l.
End BTree.

Section Table.
Context {Snapshot Parts : Type}.
Context (snapshot_tick : Snapshot -> Z).

Record SentFrame : Type := mkSent {
  sf_snapshot : Snapshot;
  sf_parts : Parts;
}.

Record AckedBaselineTable : Type := mkTable {
  bl_sent : list (Z * SentFrame);
  bl_highest_acked : option Z;
  bl_max_retained : Z;
}.

Definition table_new (max_retained : Z) : AckedBaselineTable :=
  mkTable [] None (Z.max max_retained 1).

Definition set_sent (t : AckedBaselineTable) (sent : list (Z * SentFrame)) : AckedBaselineTable :=
  mkTable sent (bl_highest_acked t) (bl_max_retained t).

Definition is_pinned (t : AckedBaselineTable) (seq : Z) : bool :=
  if bool_decide (bl_highest_acked t = Some seq) then true
  else if bool_decide (list.last (bt_keys (bl_sent t)) = Some seq) then true
  else bool_decide (bl_highest_acked t = None) &&
       bool_decide (head (bt_keys (bl_sent t)) = Some seq).

(** The [while] loop of [trim]; every turn removes a frame, the fuel is their number. *)
Fixpoint trim_loop (fuel : nat) (t : AckedBaselineTable) : AckedBaselineTable :=
  match fuel with
  | O => t
  | S fuel =>
      if bl_max_retained t <? zlen (bl_sent t) then
        match find (fun seq => negb (is_pinned t seq)) (bt_keys (bl_sent t)) with
        | Some seq => trim_loop fuel (set_sent t (bt_remove seq (bl_sent t)))
        | None => t
        end
      else t
  end.

Definition trim (t : AckedBaselineTable) : AckedBaselineTable := trim_loop (length (bl_sent t)) t.

Definition remember (t : AckedBaselineTable) (snapshot_seq : Z) (snapshot : Snapshot)
    (parts : Parts) : AckedBaselineTable :=
  trim (set_sent t (bt_insert snapshot_seq (mkSent snapshot parts) (bl_sent t))).

Definition table_ack (t : AckedBaselineTable) (snapshot_seq : Z) : AckedBaselineTable * option Z :=
  match bt_get snapshot_seq (bl_sent t) with
  | None => (t, None)
  | Some sent =>
      let acked := match bl_highest_acked t with
                   | Some prev => Z.max prev snapshot_seq
                   | None => snapshot_seq
                   end in
      (mkTable (filter (fun e => (acked <=? e.1) = true) (bl_sent t)) (Some acked)
         (bl_max_retained t), Some (snapshot_tick (sf_snapshot sent)))
  end.

Definition baseline_seq_for_encode (t : AckedBaselineTable) : Z :=
  match bl_highest_acked t with
  | Some seq => if bt_contains seq (bl_sent t) then seq else 0
  | None => 0
  end.

Definition clear_missing_ack (t : AckedBaselineTable) : AckedBaselineTable * bool :=
  match bl_highest_acked t with
  | Some seq => if negb (bt_contains seq (bl_sent t))
                then (mkTable (bl_sent t) None (bl_max_retained t), true)
                else (t, false)
  | None => (t, false)
  end.

Definition baseline_for_encode (t : AckedBaselineTable) : option Snapshot :=
  match bl_highest_acked t with
  | Some acked => sf_snapshot <$> bt_get acked (bl_sent t)
  | None => None
  end.

Definition baseline_parts_for_encode (t : AckedBaselineTable) : option Parts :=
  match bl_highest_acked t with
  | Some acked => sf_parts <$> bt_get acked (bl_sent t)
  | None => None
  end.

Definition may_encode_against (t : AckedBaselineTable) (baseline_seq : Z) : bool :=
  if baseline_seq =? 0 then true
  else bool_decide (bl_highest_acked t = Some baseline_seq) && bt_contains baseline_seq (bl_sent t).

(** ** The operations the host performs on a peer's table *)

Inductive BaselineOp : Type :=
| Remember (seq : Z) (snapshot : Snapshot) (parts : Parts)
| Ack (seq : Z)
| ClearMissing.

Definition table_step (t : AckedBaselineTable) (op : BaselineOp) : AckedBaselineTable :=
  match op with
  | Remember seq snapshot parts => remember t seq snapshot parts
  | Ack seq => (table_ack t seq).1
  | ClearMissing => (clear_missing_ack t).1
  end.

Definition table_run (t : AckedBaselineTable) (ops : list BaselineOp) : AckedBaselineTable :=
  foldl table_step t ops.

End Table.
Arguments SentFrame : clear implicits.
Arguments AckedBaselineTable : clear implicits.
Arguments BaselineOp : clear implicits.

Example baseline_demo :
  let t := table_run id (table_new 3) [Remember 1 10 (); Remember 2 20 (); Remember 3 30 ();
                                       Ack 2; Remember 4 40 (); Remember 5 50 ()] in
  (bt_keys (bl_sent t), baseline_for_encode t) = ([2; 4; 5], Some 20).
Proof. reflexivity. Qed.

(** * The acknowledged baselines: properties

    The table stays small, the host always encodes against a frame the peer acknowledged, and a
    frame the peer acknowledges in time becomes the baseline. *)

(** ** The map in key order *)

Section BTreeFacts.
Context {V : Type}.
Implicit Types (l : list (Z * V)) (k : Z).

Definition bt_sorted l : Prop := StronglySorted Z.lt (bt_keys l).

Lemma bt_contains_spec k l : bt_contains k l = true <-> k ∈ bt_keys l.
Proof.
  unfold bt_contains, bt_keys. rewrite existsb_exists, list_elem_of_fmap. split.
  - intros (e & He%list_elem_of_In & Hk%Z.eqb_eq). eauto.
  - intros (e & -> & He%list_elem_of_In). exists e. by rewrite Z.eqb_refl.
Qed.

Lemma bt_keys_insert k v l x : x ∈ bt_keys (bt_insert k v l) <-> x = k \/ x ∈ bt_keys l.
Proof.
  unfold bt_keys. induction l as [|e l IH]; cbn [bt_insert map].
  - by rewrite list_elem_of_singleton, elem_of_nil; intuition.
  - destruct (Z.ltb_spec k e.1) as [|]; [cbn [map]; by rewrite !elem_of_cons|].
    destruct (Z.eqb_spec k e.1) as [->|]; cbn [map]; rewrite !elem_of_cons; [by intuition|].
    rewrite IH. intuition.
Qed.

Lemma bt_insert_sorted k v l : bt_sorted l -> bt_sorted (bt_insert k v l).
Proof.
  unfold bt_sorted. induction l as [|e l IH]; cbn [bt_insert bt_keys map]; intros Hs.
  - by repeat constructor.
  - apply StronglySorted_inv in Hs as [Hs Hall]. pose proof Hall as Hall'.
    rewrite list.Forall_forall in Hall. destruct (Z.ltb_spec k e.1) as [|]; cbn [map].
    + constructor; [by constructor|]. constructor; [done|]. apply list.Forall_forall.
      intros x Hx. specialize (Hall x Hx). cbn. lia.
    + destruct (Z.eqb_spec k e.1) as [->|]; cbn [map]; [by constructor|].
      constructor; [by apply IH|]. apply list.Forall_forall.
      intros x [->|Hx]%(bt_keys_insert k v l); [lia|]. by apply Hall.
Qed.

Lemma bt_sorted_nodup l : bt_sorted l -> NoDup (bt_keys l).
Proof.
  unfold bt_sorted. generalize (bt_keys l). clear l. intros ks.
  induction 1 as [|x ks Hks IH Hall]; constructor; [|done].
  rewrite list.Forall_forall in Hall. intros Hx. specialize (Hall x Hx). lia.
Qed.

Lemma bt_filter_sorted (P : Z * V -> Prop) `{!forall e, Decision (P e)} l :
  bt_sorted l -> bt_sorted (filter P l).
Proof.
  unfold bt_sorted. induction l as [|e l IH]; intros Hs; [done|].
  apply StronglySorted_inv in Hs as [Hs Hall]. rewrite filter_cons.
  destruct (decide (P e)); [|by apply IH]. constructor; [by apply IH|].
  rewrite list.Forall_forall in *. intros x (e' & -> & He')%list_elem_of_fmap.
  apply list_elem_of_filter in He' as [_ He']. apply Hall. by apply list_elem_of_fmap_2.
Qed.

Lemma bt_get_spec l k v : bt_sorted l -> bt_get k l = Some v <-> (k, v) ∈ l.
Proof.
  unfold bt_get, bt_sorted. induction l as [|[k' v'] l IH]; intros Hs.
  - cbn. by rewrite elem_of_nil.
  - apply StronglySorted_inv in Hs as [Hs Hall]. rewrite list.Forall_forall in Hall.
    cbn [find fst]. rewrite elem_of_cons. destruct (Z.eqb_spec k' k) as [->|Hne].
    + cbn. split; [intros [= ->]; by left|]. intros [[= ->]|Hin]; [done|].
      assert (k ∈ bt_keys l) as Hk by (by apply list_elem_of_fmap; exists (k, v)).
      specialize (Hall k Hk). cbn in Hall. lia.
    + rewrite (IH Hs). split; [by right|]. intros [[= ? ?]|]; [congruence|done].
Qed.

Lemma bt_get_contains l k : bt_sorted l -> k ∈ bt_keys l -> exists v, bt_get k l = Some v.
Proof.
  intros Hs ([k' v] & -> & Hin)%list_elem_of_fmap. exists v. by apply bt_get_spec.
Qed.

Lemma bt_keys_filter (P : Z * V -> Prop) `{!forall e, Decision (P e)} l k :
  k ∈ bt_keys (filter P l) <-> exists v, P (k, v) /\ (k, v) ∈ l.
Proof.
  unfold bt_keys. rewrite list_elem_of_fmap. split.
  - intros ([k' v] & -> & [HP Hin]%list_elem_of_filter). eauto.
  - intros (v & HP & Hin). exists (k, v). split; [done|]. by apply list_elem_of_filter.
Qed.

Lemma bt_get_insert_eq k v l : bt_sorted l -> bt_get k (bt_insert k v l) = Some v.
Proof.
  intros Hs. apply bt_get_spec; [by apply bt_insert_sorted|]. clear Hs.
  induction l as [|e l IH]; cbn [bt_insert]; [by left|].
  destruct (_ <? _); [by left|]. destruct (_ =? _); [by left|by right].
Qed.

Lemma elem_of_bt_insert k v l e : e ∈ bt_insert k v l -> e = (k, v) \/ e ∈ l.
Proof.
  induction l as [|e' l IH]; cbn [bt_insert].
  - intros ->%list_elem_of_singleton. by left.
  - destruct (k <? e'.1); [by intros [->|H]%elem_of_cons; auto|].
    destruct (k =? e'.1); intros [->|H]%elem_of_cons; rewrite ?elem_of_cons; auto.
    destruct (IH H); auto.
Qed.

Lemma elem_of_bt_insert_ne k v l e : e ∈ l -> e.1 <> k -> e ∈ bt_insert k v l.
Proof.
  intros Hin Hne. induction l as [|e' l IH]; [by apply not_elem_of_nil in Hin|].
  apply elem_of_cons in Hin as [->|Hin]; cbn [bt_insert].
  - destruct (Z.ltb_spec k e'.1); [by right; left|].
    destruct (Z.eqb_spec k e'.1); [congruence|by left].
  - destruct (k <? e'.1); [by do 2 right|]. destruct (k =? e'.1); right; auto.
Qed.

Lemma length_bt_insert k v l : (length (bt_insert k v l) <= S (length l))%nat.
Proof.
  induction l as [|e l IH]; cbn [bt_insert]; [done|].
  destruct (_ <? _); [done|]. destruct (_ =? _); cbn [length]; lia.
Qed.

Lemma find_split {A} (f : A -> bool) (xs : list A) x :
  find f xs = Some x ->
  exists pre post, xs = pre ++ x :: post /\ Forall (fun y => f y = false) pre /\ f x = true.
Proof.
  induction xs as [|y xs IH]; [done|]. cbn [find]. destruct (f y) eqn:Hy.
  - intros [= ->]. by exists [], xs.
  - intros (pre & post & -> & Hpre & Hx)%IH. exists (y :: pre), post. by repeat constructor.
Qed.

(** The frames sent after [k]. *)
Definition later (k : Z) l : nat := length (filter (fun e => k < e.1) l).

Lemma later_filter (P : Z * V -> Prop) `{!forall e, Decision (P e)} k l :
  (later k (filter P l) <= later k l)%nat.
Proof.
  unfold later. induction l as [|e l IH]; [done|]. rewrite !filter_cons.
  destruct (decide (P e)), (decide (k < e.1)); rewrite ?filter_cons;
    repeat case_decide; cbn [length]; try lia; done.
Qed.

Lemma later_split k l pre post : bt_sorted l -> bt_keys l = pre ++ k :: post -> later k l = length post.
Proof.
  assert (later k l = length (filter (fun x => k < x) (bt_keys l))) as ->.
  { unfold later. induction l as [|e l IH]; [done|]. cbn [bt_keys map].
    rewrite !filter_cons. case_decide; cbn [length]; by rewrite ?IH. }
  unfold bt_sorted. intros Hs Hk. rewrite Hk in *. clear Hk.
  rewrite list.filter_app. assert (filter (fun x => k < x) pre = []) as ->.
  { apply filter_none. intros x Hx.
    pose proof (StronglySorted_app_1_elem_of _ _ _ x k Hs Hx ltac:(by left)). lia. }
  apply StronglySorted_app_1_r in Hs. apply StronglySorted_inv in Hs as [_ Hall].
  rewrite filter_cons, decide_False by lia. cbn [app]. f_equal.
  rewrite list.Forall_forall in Hall. by apply filter_all.
Qed.

Lemma later_insert k k' v l : (later k (bt_insert k' v l) <= S (later k l))%nat.
Proof.
  unfold later. induction l as [|e l IH]; cbn [bt_insert].
  - rewrite filter_cons. case_decide; cbn; lia.
  - destruct (k' <? e.1); [rewrite (filter_cons _ (k', v)); case_decide; cbn [length]; lia|].
    destruct (Z.eqb_spec k' e.1) as [->|]; rewrite !filter_cons; cbn [fst];
      repeat case_decide; cbn [length]; lia.
Qed.
End BTreeFacts.

(** ** The table *)

Section TableFacts.
Context {Snapshot Parts : Type} (snapshot_tick : Snapshot -> Z).
Implicit Types (t : AckedBaselineTable Snapshot Parts) (ops : list (BaselineOp Snapshot Parts)).

Record table_ok t : Prop := {
  to_sorted : bt_sorted (bl_sent t);
  to_max : 1 <= bl_max_retained t;
  to_acked : forall s, bl_highest_acked t = Some s -> s ∈ bt_keys (bl_sent t);
}.

Definition table_small t : Prop := zlen (bl_sent t) <= Z.max (bl_max_retained t) 2.

Lemma is_pinned_spec t seq :
  is_pinned t seq = true <->
  bl_highest_acked t = Some seq \/ list.last (bt_keys (bl_sent t)) = Some seq \/
  (bl_highest_acked t = None /\ head (bt_keys (bl_sent t)) = Some seq).
Proof.
  unfold is_pinned. repeat case_bool_decide; cbn [andb]; intuition congruence.
Qed.

(** Of the frames that are not the newest, at most one is pinned. *)
Lemma pinned_prefix t l1 l2 :
  bt_sorted (bl_sent t) -> bt_keys (bl_sent t) = l1 ++ l2 -> l2 <> [] ->
  Forall (fun s => is_pinned t s = true) l1 -> (length l1 <= 1)%nat.
Proof.
  intros Hs Hk Hl2 Hall. pose proof (bt_sorted_nodup _ Hs) as Hnd. rewrite Hk in Hnd.
  destruct l1 as [|a [|b l1]]; cbn [length]; [lia..|]. exfalso.
  apply list.Forall_cons in Hall as [Ha Hall]. apply list.Forall_cons in Hall as [Hb _].
  destruct (proj2 (list.last_is_Some l2) Hl2) as [z Hz].
  assert (list.last (bt_keys (bl_sent t)) = Some z) as Hlast by (by rewrite Hk, list.last_app, Hz).
  apply list.last_Some_elem_of in Hz.
  rewrite is_pinned_spec, Hlast, Hk in Ha, Hb. cbn [app head] in Ha, Hb.
  cbn [app] in Hnd. apply list.NoDup_cons in Hnd as [Hna Hnd]. apply list.NoDup_cons in Hnd as [Hnb _].
  assert (z <> a /\ z <> b /\ a <> b) as (Hza & Hzb & Hab).
  { split_and!; intros ->; [apply Hna; right|apply Hnb|apply Hna; by left];
      apply elem_of_app; by right. }
  destruct Ha as [?|[?|[? ?]]], Hb as [?|[?|[? ?]]]; congruence.
Qed.

(** A turn of [trim] spares a frame with fewer than [max_retained - 1] later ones. *)
Lemma trim_victim t v s :
  bt_sorted (bl_sent t) -> bl_max_retained t < zlen (bl_sent t) ->
  find (fun seq => negb (is_pinned t seq)) (bt_keys (bl_sent t)) = Some v ->
  Z.of_nat (later s (bl_sent t)) < bl_max_retained t - 1 -> v <> s.
Proof.
  intros Hs Hlen (l1 & l2 & Hk & Hl1 & Hv)%find_split Hlater ->.
  rewrite (later_split _ _ _ _ Hs Hk) in Hlater.
  assert (zlen (bl_sent t) = Z.of_nat (length l1) + 1 + Z.of_nat (length l2)) as Hn.
  { unfold zlen. rewrite <- (length_map fst). fold (bt_keys (bl_sent t)). rewrite Hk, length_app.
    cbn [length]. lia. }
  destruct l2 as [|x l2].
  - apply negb_true_iff, not_true_iff_false in Hv. apply Hv, is_pinned_spec. right; left.
    by rewrite Hk, list.last_snoc.
  - assert (length l1 <= 1)%nat; [|lia]. eapply (pinned_prefix t l1 _ Hs Hk); [done|].
    eapply list.Forall_impl; [exact Hl1|]. intros y Hy. by apply negb_false_iff in Hy.
Qed.

(** If nothing can be removed, the table is small. *)
Lemma all_pinned_small t :
  bt_sorted (bl_sent t) ->
  find (fun seq => negb (is_pinned t seq)) (bt_keys (bl_sent t)) = None -> zlen (bl_sent t) <= 2.
Proof.
  intros Hs Hfind. assert (length (bt_keys (bl_sent t)) <= 2)%nat as Hl.
  { destruct (bt_keys (bl_sent t)) as [|a ks _] eqn:Hk using rev_ind; [cbn; lia|].
    destruct ks as [|b ks _] using rev_ind; [cbn; lia|]. rewrite <- app_assoc in Hk.
    assert (length (ks ++ [b]) <= 1)%nat as Hlen; [|rewrite length_app; cbn [length]; lia].
    eapply (pinned_prefix t _ [a] Hs); [by rewrite Hk, <- app_assoc|done|].
    apply list.Forall_forall. intros x Hx. apply negb_false_iff.
    apply (find_none _ _ Hfind). apply list_elem_of_In. apply elem_of_app. by left. }
  unfold bt_keys in Hl. rewrite length_map in Hl. unfold zlen. lia.
Qed.

(** A frame [trim] spares. *)
Definition spared t (s : Z) : Prop :=
  s ∈ bt_keys (bl_sent t) /\
  (Z.of_nat (later s (bl_sent t)) < bl_max_retained t - 1 \/ later s (bl_sent t) = 0%nat).

(** [t'] is [t] with frames removed. *)
Record shrunk t t' : Prop := {
  sh_ok : table_ok t';
  sh_acked : bl_highest_acked t' = bl_highest_acked t;
  sh_max : bl_max_retained t' = bl_max_retained t;
  sh_sub : forall e, e ∈ bl_sent t' -> e ∈ bl_sent t;
  sh_later : forall s, (later s (bl_sent t') <= later s (bl_sent t))%nat;
  sh_spared : forall s, spared t s -> s ∈ bt_keys (bl_sent t');
}.

Lemma newest_pinned t s :
  bt_sorted (bl_sent t) -> s ∈ bt_keys (bl_sent t) -> later s (bl_sent t) = 0%nat ->
  is_pinned t s = true.
Proof.
  intros Hs (l1 & l2 & Hk)%list_elem_of_split Hl. rewrite (later_split _ _ _ _ Hs Hk) in Hl.
  destruct l2; [|done]. apply is_pinned_spec. right; left. by rewrite Hk, list.last_snoc.
Qed.

Lemma remove_shrunk t v :
  table_ok t -> bl_max_retained t < zlen (bl_sent t) ->
  find (fun seq => negb (is_pinned t seq)) (bt_keys (bl_sent t)) = Some v ->
  shrunk t (set_sent t (bt_remove v (bl_sent t))).
Proof.
  intros [Hs Hm Ha] Hlen Hfind.
  assert (forall s, s <> v -> s ∈ bt_keys (bl_sent t) -> s ∈ bt_keys (bt_remove v (bl_sent t))) as Hkeep.
  { intros s Hne ([s' x] & -> & Hin)%list_elem_of_fmap. apply bt_keys_filter. exists x.
    split; [|done]. apply negb_true_iff, Z.eqb_neq. done. }
  pose proof (find_split _ _ _ Hfind) as (_ & _ & _ & _ & Hv%negb_true_iff).
  assert (forall s, is_pinned t s = true -> s <> v) as Hpin by (intros s H ->; congruence).
  split; cbn [set_sent bl_sent bl_highest_acked bl_max_retained]; [|done|done| | |].
  - split; cbn [set_sent bl_sent bl_highest_acked bl_max_retained]; [by apply bt_filter_sorted|done|].
    intros s Hs'. apply Hkeep; [|auto]. apply Hpin, is_pinned_spec. by left.
  - by intros e [_ He]%list_elem_of_filter.
  - intros s. apply later_filter.
  - intros s [Hin Hl]. apply Hkeep; [|done]. destruct Hl as [Hl|Hl].
    + intros ->. by eapply (trim_victim t v v).
    + apply Hpin. by apply newest_pinned.
Qed.

Lemma shrunk_trans t1 t2 t3 : shrunk t1 t2 -> shrunk t2 t3 -> shrunk t1 t3.
Proof.
  intros [_ A1 M1 S1 L1 P1] [O A2 M2 S2 L2 P2].
  split; [done|congruence|congruence|auto|intros s; specialize (L1 s); specialize (L2 s); lia|].
  intros s Hs. apply P2. split; [by apply P1|]. destruct Hs as [_ Hl]. specialize (L1 s).
  rewrite M1. destruct Hl; [left|right]; lia.
Qed.

Lemma trim_loop_ok fuel t :
  table_ok t -> (length (bl_sent t) <= fuel)%nat ->
  shrunk t (trim_loop fuel t) /\ table_small (trim_loop fuel t).
Proof.
  revert t. induction fuel as [|fuel IH]; intros t Ht Hf; cbn [trim_loop].
  all: assert (shrunk t t) as Hrefl by (split; try done; by intros s [? _]).
  - split; [done|]. unfold table_small, zlen. lia.
  - destruct (Z.ltb_spec (bl_max_retained t) (zlen (bl_sent t))) as [Hlt|Hge].
    2: { split; [done|]. unfold table_small. lia. }
    destruct (find _ _) as [v|] eqn:Hfind.
    + pose proof (remove_shrunk t v Ht Hlt Hfind) as Hsh.
      destruct (IH (set_sent t (bt_remove v (bl_sent t)))) as [Hsh' Hsmall].
      * by apply (sh_ok _ _ Hsh).
      * cbn [set_sent bl_sent]. apply find_split in Hfind as (l1 & l2 & Hk & _).
        assert (v ∈ bt_keys (bl_sent t)) as (e & He & Hin)%list_elem_of_fmap
          by (rewrite Hk; apply elem_of_app; right; by left).
        enough (length (bt_remove v (bl_sent t)) < length (bl_sent t))%nat by lia.
        apply (list.length_filter_lt _ _ e Hin). subst v. by rewrite Z.eqb_refl.
      * split; [|done]. by eapply shrunk_trans.
    + split; [done|]. pose proof (all_pinned_small t (to_sorted _ Ht) Hfind).
      unfold table_small. lia.
Qed.

(** ** Operations *)

Definition with_frame t (s : Z) (snap : Snapshot) (parts : Parts) : AckedBaselineTable Snapshot Parts :=
  set_sent t (bt_insert s (mkSent snap parts) (bl_sent t)).

Lemma with_frame_ok t s snap parts : table_ok t -> table_ok (with_frame t s snap parts).
Proof.
  intros [Hs Hm Ha]. split; cbn [with_frame set_sent bl_sent bl_highest_acked bl_max_retained];
    [by apply bt_insert_sorted|done|]. intros s' Hs'. apply bt_keys_insert. auto.
Qed.

Lemma remember_ok t s snap parts :
  table_ok t ->
  shrunk (with_frame t s snap parts) (remember t s snap parts) /\ table_small (remember t s snap parts).
Proof. intros Ht. apply trim_loop_ok; [by apply with_frame_ok|done]. Qed.

Lemma table_ack_some t s tick :
  table_ok t -> (table_ack snapshot_tick t s).2 = Some tick -> s ∈ bt_keys (bl_sent t).
Proof.
  intros Ht. unfold table_ack. destruct (bt_get s (bl_sent t)) as [e|] eqn:He; [|done].
  intros _. apply bt_get_spec in He; [|apply Ht]. by apply (list_elem_of_fmap_2 fst) in He.
Qed.

Definition acked_with t (s : Z) : Z :=
  match bl_highest_acked t with Some prev => Z.max prev s | None => s end.

Lemma table_ack_present t s e :
  bt_get s (bl_sent t) = Some e ->
  table_ack snapshot_tick t s =
    (mkTable (filter (fun e => (acked_with t s <=? e.1) = true) (bl_sent t)) (Some (acked_with t s))
       (bl_max_retained t), Some (snapshot_tick (sf_snapshot e))).
Proof. unfold table_ack. by intros ->. Qed.

Lemma ack_step_ok t s :
  table_ok t -> table_small t ->
  table_ok (table_ack snapshot_tick t s).1 /\ table_small (table_ack snapshot_tick t s).1 /\
  bl_max_retained (table_ack snapshot_tick t s).1 = bl_max_retained t /\
  (forall e, e ∈ bl_sent (table_ack snapshot_tick t s).1 -> e ∈ bl_sent t).
Proof.
  intros [Hs Hm Ha] Hsmall.
  destruct (bt_get s (bl_sent t)) as [e|] eqn:He; [|by unfold table_ack; rewrite He].
  rewrite (table_ack_present _ _ _ He). cbn [fst bl_sent bl_max_retained].
  assert (acked_with t s ∈ bt_keys (bl_sent t)) as Hin.
  { unfold acked_with. apply bt_get_spec in He as He'; [|done].
    apply (list_elem_of_fmap_2 fst) in He'. cbn in He'.
    destruct (bl_highest_acked t) as [prev|] eqn:Hp; [|done].
    destruct (Z.max_spec prev s) as [[_ ->]|[_ ->]]; auto. }
  split_and!; [split| |done|]; cbn [bl_sent bl_highest_acked bl_max_retained].
  - by apply bt_filter_sorted.
  - done.
  - intros s' [= <-]. apply bt_keys_filter. apply list_elem_of_fmap in Hin as ([k x] & Hk & Hin).
    cbn in Hk. subst k. exists x. split; [|done]. cbn [fst]. lia.
  - unfold table_small, zlen in *. cbn [bl_sent bl_max_retained].
    pose proof (list.length_filter (fun e => (acked_with t s <=? e.1) = true) (bl_sent t)). lia.
  - by intros e' [_ He']%list_elem_of_filter.
Qed.

Lemma clear_missing_noop t : table_ok t -> clear_missing_ack t = (t, false).
Proof.
  intros Ht. unfold clear_missing_ack. destruct (bl_highest_acked t) as [s|] eqn:Hs; [|done].
  apply (to_acked _ Ht) in Hs. apply bt_contains_spec in Hs. by rewrite Hs.
Qed.

Definition remembered ops : list Z :=
  omap (fun op => match op with Remember s _ _ => Some s | _ => None end) ops.

(** What a run from the empty table keeps: the frames held are frames the host sent. *)
Record run_ok ops t : Prop := {
  ro_table : table_ok t;
  ro_small : table_small t;
  ro_sent : forall s e, (s, e) ∈ bl_sent t ->
              Remember s (sf_snapshot e) (sf_parts e) ∈ ops;
}.

Lemma step_ok ops t op : run_ok ops t -> run_ok (ops ++ [op]) (table_step snapshot_tick t op).
Proof.
  intros [Ht Hsm Hsent].
  assert (forall s e, (s, e) ∈ bl_sent t -> Remember s (sf_snapshot e) (sf_parts e) ∈ ops ++ [op])
    as Hsent' by (intros s e He; apply elem_of_app; auto).
  destruct op as [s snap parts|s|]; cbn [table_step].
  - destruct (remember_ok t s snap parts Ht) as [Hsh Hsmall]. split; [apply Hsh|done|].
    intros s' e He%(sh_sub _ _ Hsh). cbn [with_frame set_sent bl_sent] in He.
    apply elem_of_bt_insert in He as [[= -> ->]|He]; [|auto].
    apply elem_of_app. right. by left.
  - destruct (ack_step_ok t s Ht Hsm) as (H1 & H2 & _ & H4). split; [done|done|]. auto.
  - rewrite clear_missing_noop by done. by split.
Qed.

Lemma run_snoc t ops op :
  table_run snapshot_tick t (ops ++ [op]) = table_step snapshot_tick (table_run snapshot_tick t ops) op.
Proof. unfold table_run. by rewrite foldl_app. Qed.

Lemma run_run_ok n ops : run_ok ops (table_run snapshot_tick (table_new n) ops).
Proof.
  induction ops as [|op ops IH] using rev_ind; [|rewrite run_snoc; by apply step_ok].
  split; [split| |]; cbn; [constructor|lia|done|unfold table_small, zlen; cbn; lia|].
  intros s e []%not_elem_of_nil.
Qed.

Lemma run_max n ops : bl_max_retained (table_run snapshot_tick (table_new n) ops) = Z.max n 1.
Proof.
  induction ops as [|op ops IH] using rev_ind; [done|]. rewrite run_snoc.
  pose proof (run_run_ok n ops) as [Ht Hsm _]. destruct op as [s snap parts|s|]; cbn [table_step].
  - destruct (remember_ok _ s snap parts Ht) as [Hsh _]. by rewrite (sh_max _ _ Hsh).
  - destruct (ack_step_ok _ s Ht Hsm) as (_ & _ & -> & _). done.
  - by rewrite clear_missing_noop.
Qed.

(** ** Where the baseline comes from *)

Lemma acked_provenance n ops s :
  bl_highest_acked (table_run snapshot_tick (table_new n) ops) = Some s ->
  exists ops1 ops2, ops = ops1 ++ Ack s :: ops2 /\
    s ∈ bt_keys (bl_sent (table_run snapshot_tick (table_new n) ops1)).
Proof.
  induction ops as [|op ops IH] using rev_ind; [done|]. rewrite run_snoc.
  set (t := table_run _ _ ops) in *. pose proof (run_run_ok n ops) as [Ht Hsm _]. fold t in Ht, Hsm.
  assert (bl_highest_acked t = Some s -> exists ops1 ops2,
    ops ++ [op] = ops1 ++ Ack s :: ops2 /\
    s ∈ bt_keys (bl_sent (table_run snapshot_tick (table_new n) ops1))) as Hold.
  { intros (ops1 & ops2 & -> & H)%IH. exists ops1, (ops2 ++ [op]).
    by rewrite <- app_assoc. }
  destruct op as [s' snap parts|s'|]; cbn [table_step].
  - destruct (remember_ok t s' snap parts Ht) as [Hsh _]. by rewrite (sh_acked _ _ Hsh).
  - destruct (bt_get s' (bl_sent t)) as [e|] eqn:He; [|by unfold table_ack; rewrite He].
    rewrite (table_ack_present _ _ _ He). cbn [fst bl_highest_acked]. unfold acked_with.
    apply bt_get_spec in He; [|apply Ht]. apply (list_elem_of_fmap_2 fst) in He.
    assert (Some s' = Some s -> exists ops1 ops2, ops ++ [Ack s'] = ops1 ++ Ack s :: ops2 /\
      s ∈ bt_keys (bl_sent (table_run snapshot_tick (table_new n) ops1))) as Hnew
      by (intros [= ->]; exists ops, []; done).
    destruct (bl_highest_acked t) as [prev|]; [|done].
    destruct (Z.max_spec prev s') as [[_ ->]|[_ ->]]; auto.
  - by rewrite clear_missing_noop.
Qed.

Lemma remembered_unique ops s a b a' b' :
  NoDup (remembered ops) -> Remember s a b ∈ ops -> Remember s a' b' ∈ ops -> a = a' /\ b = b'.
Proof.
  assert (forall l x y, @Remember Snapshot Parts s x y ∈ l -> s ∈ remembered l) as Hin.
  { intros l x y H. apply list_elem_of_omap. eexists. split; [exact H|done]. }
  induction ops as [|op ops IH]; intros Hnd H1 H2; [by apply not_elem_of_nil in H1|].
  assert (NoDup (remembered ops)) as Hnd'.
  { destruct op; cbn in Hnd; [by apply list.NoDup_cons in Hnd as [_ ?]|done|done]. }
  apply elem_of_cons in H1 as [<-|H1]; apply elem_of_cons in H2 as [H2|H2].
  - by injection H2 as -> ->.
  - cbn in Hnd. apply list.NoDup_cons in Hnd as [Hn _]. by apply Hin in H2.
  - subst op. cbn in Hnd. apply list.NoDup_cons in Hnd as [Hn _]. by apply Hin in H1.
  - by apply IH.
Qed.

(** ** Frames the host still holds *)

Record held t (max s : Z) (snap : Snapshot) (parts : Parts) (k : nat) : Prop := {
  he_table : table_ok t;
  he_small : table_small t;
  he_max : bl_max_retained t = max;
  he_in : s ∈ bt_keys (bl_sent t);
  he_entry : forall e, (s, e) ∈ bl_sent t -> e = mkSent snap parts;
  he_later : (later s (bl_sent t) <= k)%nat;
  he_acked : forall a, bl_highest_acked t = Some a -> a <= s;
}.

(** Operations between a frame's sending and its acknowledgement. *)
Definition between (s : Z) (op : BaselineOp Snapshot Parts) : Prop :=
  match op with Remember s' _ _ => s < s' | Ack s' => s' <= s | ClearMissing => True end.

Lemma held_step t max s snap parts k op :
  held t max s snap parts k -> between s op ->
  (forall s' a b, op = Remember s' a b -> Z.of_nat k + 1 < max - 1) ->
  held (table_step snapshot_tick t op) max s snap parts (k + length (remembered [op])).
Proof.
  intros [Ht Hsm Hmax Hin He Hl Ha] Hb Hk. destruct op as [s' a b|s'|]; cbn [table_step between] in *.
  - specialize (Hk _ _ _ eq_refl). destruct (remember_ok t s' a b Ht) as [Hsh Hsm'].
    pose proof (later_insert s s' (mkSent a b) (bl_sent t)) as Hl'.
    split; [apply Hsh|done|by rewrite (sh_max _ _ Hsh)| | | |].
    + apply (sh_spared _ _ Hsh). split; [apply bt_keys_insert; by right|].
      left. cbn [with_frame set_sent bl_sent bl_max_retained]. lia.
    + intros e H%(sh_sub _ _ Hsh). cbn [with_frame set_sent bl_sent] in H.
      apply elem_of_bt_insert in H as [[= -> _]|H]; [lia|auto].
    + pose proof (sh_later _ _ Hsh s) as Hl2. cbn [with_frame set_sent bl_sent] in Hl2.
      change (length (remembered [Remember s' a b])) with 1%nat. lia.
    + rewrite (sh_acked _ _ Hsh). done.
  - change (length (remembered [Ack s'])) with 0%nat. rewrite Nat.add_0_r.
    destruct (ack_step_ok t s' Ht Hsm) as (Ht' & Hsm' & Hmax' & Hsub).
    destruct (bt_get s' (bl_sent t)) as [e'|] eqn:Hs'.
    + rewrite (table_ack_present _ _ _ Hs') in *. cbn [fst bl_sent bl_highest_acked bl_max_retained] in *.
      assert (acked_with t s' <= s) as Hle.
      { unfold acked_with. destruct (bl_highest_acked t); [specialize (Ha _ eq_refl)|]; lia. }
      split; cbn [bl_sent bl_highest_acked bl_max_retained]; [done|done|done| |auto| |congruence].
      * apply list_elem_of_fmap in Hin as ([s0 x] & -> & Hin). apply bt_keys_filter.
        exists x. split; [|done]. cbn [fst] in *. lia.
      * pose proof (later_filter (fun e => (acked_with t s' <=? e.1) = true) s (bl_sent t)). lia.
    + unfold table_ack in *. rewrite Hs' in *. by split.
  - change (length (remembered [ClearMissing])) with 0%nat. rewrite Nat.add_0_r.
    rewrite clear_missing_noop by done. by split.
Qed.

Lemma held_run ops t max s snap parts k :
  held t max s snap parts k -> Forall (between s) ops ->
  remembered ops = [] \/ Z.of_nat (k + length (remembered ops)) <= max - 2 ->
  held (table_run snapshot_tick t ops) max s snap parts (k + length (remembered ops)).
Proof.
  revert t k. induction ops as [|op ops IH]; intros t k Hh Hall Hn.
  - cbn. by rewrite Nat.add_0_r.
  - apply list.Forall_cons in Hall as [Hop Hall].
    assert (remembered (op :: ops) = remembered [op] ++ remembered ops) as Hr by (by destruct op).
    rewrite Hr, length_app in *. rewrite Nat.add_assoc.
    apply (IH (table_step snapshot_tick t op)); [|done|].
    + apply held_step; [done|done|]. intros s' a b ->. cbn in Hn. destruct Hn as [?|Hn]; [done|lia].
    + destruct Hn as [Hn|Hn]; [left; by apply app_eq_nil in Hn as [_ ?]|right; lia].
Qed.

Lemma held_start n ops s snap parts :
  Forall (fun s' => s' < s) (remembered ops) ->
  held (table_run snapshot_tick (table_new n) (ops ++ [Remember s snap parts])) (Z.max n 1) s snap parts 0.
Proof.
  intros Hlt. rewrite list.Forall_forall in Hlt. rewrite run_snoc. cbn [table_step].
  pose proof (run_run_ok n ops) as [Ht Hsm Hsent]. pose proof (run_max n ops) as Hmax.
  set (t := table_run _ _ ops) in *.
  assert (forall s' e, (s', e) ∈ bl_sent t -> s' < s) as Hkeys.
  { intros s' e He. apply Hlt. apply list_elem_of_omap. eexists. split; [by apply Hsent|done]. }
  assert (later s (bl_sent (with_frame t s snap parts)) = 0%nat) as Hl.
  { unfold later. cbn [with_frame set_sent bl_sent]. rewrite filter_none; [done|].
    intros [s' e] [[= -> ->]|He]%elem_of_bt_insert; cbn; [lia|]. specialize (Hkeys s' e He). lia. }
  destruct (remember_ok t s snap parts Ht) as [Hsh Hsm'].
  split; [apply Hsh|done|by rewrite (sh_max _ _ Hsh)| | | |].
  - apply (sh_spared _ _ Hsh). split; [apply bt_keys_insert; by left|by right].
  - intros e He%(sh_sub _ _ Hsh). apply elem_of_bt_insert in He as [[= ->]|He]; [done|].
    specialize (Hkeys _ _ He). lia.
  - pose proof (sh_later _ _ Hsh s). lia.
  - intros a Ha. rewrite (sh_acked _ _ Hsh) in Ha. cbn in Ha. apply (to_acked _ Ht) in Ha.
    apply list_elem_of_fmap in Ha as ([a' e] & -> & He). specialize (Hkeys _ _ He). cbn. lia.
Qed.
End TableFacts.

(** ** The properties *)

(** Whatever frames the host sends and whatever acknowledgements arrive, the table holds
    at most [max_retained] frames (two, if that is less), in key order; the frame acknowledged
    last is always among them, so the baseline the host encodes against exists, encoding against
    it is permitted, and [clear_missing_ack] never has anything to clear: the host never has to
    resynchronise because it lost its own baseline. *)
Theorem baseline_always_available {Snapshot Parts} (tick : Snapshot -> Z) (n : Z)
    (ops : list (BaselineOp Snapshot Parts)) :
  let t := table_run tick (table_new n) ops in
  zlen (bl_sent t) <= Z.max n 2 /\
  bt_sorted (bl_sent t) /\
  clear_missing_ack t = (t, false) /\
  baseline_seq_for_encode t = default 0 (bl_highest_acked t) /\
  may_encode_against t (baseline_seq_for_encode t) = true /\
  forall s, bl_highest_acked t = Some s ->
    exists snap parts, baseline_for_encode t = Some snap /\ baseline_parts_for_encode t = Some parts /\
      (s, mkSent snap parts) ∈ bl_sent t.
Proof.
  intros t. destruct (run_run_ok tick n ops) as [Ht Hsm _]. fold t in Ht, Hsm.
  assert (bl_max_retained t = Z.max n 1) as Hmax by apply run_max.
  unfold table_small in Hsm. split; [lia|]. split; [apply Ht|]. split; [by apply clear_missing_noop|].
  unfold baseline_seq_for_encode, may_encode_against, baseline_for_encode, baseline_parts_for_encode.
  destruct (bl_highest_acked t) as [s|] eqn:Hs; [|done].
  pose proof (to_acked _ Ht s Hs) as Hin. pose proof (proj2 (bt_contains_spec _ _) Hin) as Hc.
  rewrite Hc. cbn [default]. split; [done|]. split.
  - destruct (s =? 0); [done|]. by rewrite Hc, bool_decide_eq_true_2.
  - intros s' [= <-]. destruct (bt_get_contains _ _ (to_sorted _ Ht) Hin) as [[snap parts] He].
    exists snap, parts. rewrite He. split; [done|]. split; [done|].
    by apply bt_get_spec in He; [|apply Ht].
Qed.

(** The baseline is a frame the peer has: if every frame gets its own number, the snapshot
    and the parts the host encodes against are exactly those of a frame it sent, and that frame
    was acknowledged by the peer after it was sent. *)
Theorem baseline_was_acknowledged {Snapshot Parts} (tick : Snapshot -> Z) (n : Z)
    (ops : list (BaselineOp Snapshot Parts)) snap parts :
  let t := table_run tick (table_new n) ops in
  NoDup (remembered ops) ->
  baseline_for_encode t = Some snap -> baseline_parts_for_encode t = Some parts ->
  exists s ops1 ops2, ops = ops1 ++ Ack s :: ops2 /\ Remember s snap parts ∈ ops1 /\
    bl_highest_acked t = Some s.
Proof.
  intros t Hnd Hsnap Hparts. unfold baseline_for_encode, baseline_parts_for_encode in *.
  destruct (run_run_ok tick n ops) as [Ht _ Hsent]. fold t in Ht, Hsent.
  destruct (bl_highest_acked t) as [s|] eqn:Hs; [|done].
  destruct (bt_get s (bl_sent t)) as [[snap' parts']|] eqn:He; [|done].
  cbn in Hsnap, Hparts. injection Hsnap as ->. injection Hparts as ->.
  apply bt_get_spec, Hsent in He; [|apply Ht]. cbn in He.
  destruct (acked_provenance tick n ops s Hs) as (ops1 & ops2 & Hops & Hin).
  exists s, ops1, ops2. split; [done|]. split; [|done].
  apply list_elem_of_fmap in Hin as ([s' [a b]] & -> & Hin).
  apply (ro_sent _ _ (run_run_ok tick n ops1)) in Hin as Hold. cbn in Hold, He.
  assert (Remember s' a b ∈ ops) as Hold' by (rewrite Hops; apply elem_of_app; by left).
  by destruct (remembered_unique _ _ _ _ _ _ Hnd He Hold') as [-> ->].
Qed.

(** A frame stays available for acknowledgement while no more than [max_retained - 2] newer
    frames have been sent (always, while it is the newest) and no newer frame has been
    acknowledged; its acknowledgement then succeeds and makes exactly this frame the baseline. *)
Theorem frame_stays_ackable {Snapshot Parts} (tick : Snapshot -> Z) (n s : Z) snap parts
    (ops1 ops2 : list (BaselineOp Snapshot Parts)) :
  let t := table_run tick (table_new n) (ops1 ++ Remember s snap parts :: ops2) in
  Forall (fun s' => s' < s) (remembered ops1) ->
  Forall (between s) ops2 ->
  remembered ops2 = [] \/ zlen (remembered ops2) <= n - 2 ->
  exists t', table_ack tick t s = (t', Some (tick snap)) /\
    bl_highest_acked t' = Some s /\
    baseline_for_encode t' = Some snap /\ baseline_parts_for_encode t' = Some parts.
Proof.
  intros t H1 H2 Hn.
  assert (held t (Z.max n 1) s snap parts (0 + length (remembered ops2))) as [Ht Hsm _ Hin He _ Ha].
  { unfold t. rewrite (cons_middle _ ops1), app_assoc. unfold table_run. rewrite foldl_app.
    apply (held_run tick ops2); [by apply held_start|done|].
    unfold zlen in Hn. destruct Hn; [by left|right; lia]. }
  destruct (bt_get_contains _ _ (to_sorted _ Ht) Hin) as [e Hget].
  pose proof Hget as Hget'. apply bt_get_spec in Hget' as ->%He; [|apply Ht].
  eexists. split; [by rewrite (table_ack_present _ _ _ _ Hget)|].
  assert (acked_with t s = s) as ->.
  { unfold acked_with. destruct (bl_highest_acked t); [specialize (Ha _ eq_refl)|]; lia. }
  unfold baseline_for_encode, baseline_parts_for_encode. cbn [bl_highest_acked bl_sent].
  assert (bt_get s (filter (fun e => (s <=? e.1) = true) (bl_sent t)) = Some (mkSent snap parts)) as ->.
  { apply bt_get_spec; [apply bt_filter_sorted, Ht|]. apply list_elem_of_filter. cbn [fst].
    split; [lia|]. by apply bt_get_spec in Hget; [|apply Ht]. }
  done.
Qed.

Definition demo_ops : list (BaselineOp Z ()) :=
  [Remember 1 10 (); Remember 2 20 (); Remember 3 30 (); Ack 2; Remember 4 40 ()].

Lemma baseline_was_acknowledged_witness :
  exists s ops1 ops2, demo_ops = ops1 ++ Ack s :: ops2 /\ Remember s 20 () ∈ ops1 /\
    bl_highest_acked (table_run id (table_new 32) demo_ops) = Some s.
Proof.
  apply (baseline_was_acknowledged id 32 demo_ops 20 ()).
  - unfold demo_ops. cbn. repeat (apply list.NoDup_cons; split;
      [rewrite ?elem_of_cons, elem_of_nil; intuition discriminate|]). constructor.
  - reflexivity.
  - reflexivity.
Defined.

Lemma frame_stays_ackable_witness :
  exists t', table_ack id (table_run id (table_new 4) demo_ops) 2 = (t', Some 20) /\
    bl_highest_acked t' = Some 2 /\ baseline_for_encode t' = Some 20 /\
    baseline_parts_for_encode t' = Some ().
Proof.
  apply (frame_stays_ackable id 4 2 20 () [Remember 1 10 ()]
           [Remember 3 30 (); Ack 2; Remember 4 40 ()]).
  - repeat constructor.
  - repeat constructor; cbn; lia.
  - right. vm_compute. discriminate.
Defined.
