(* ===== verification/SegmentDelta.v ===== *)
(** * Snapshot deltas

    crates/net/src/transport/segment_delta.rs, the parts of a frame it works on
    ([FrameParts], [WireMeta] in frame.rs) and [SnapshotPayload] of protocol.rs.  A frame is
    sent as instructions against a frame the peer has, segment by segment: the same, a patch of
    the bytes that changed, the segment compressed against the old one, or the segment itself.

    An [Arc<WireMeta>] is an address in a heap of immutable values, so that the patch cache,
    which compares addresses, is modelled with its aliasing.  The zstd calls are arguments. *)

From S2P Require Export Prelude.

Definition META_SEGMENTS : Z := 12.
Definition FRAME_SEGMENTS : Z := META_SEGMENTS + 2.
Definition META_BODY_SEGMENTS : Z := META_SEGMENTS - 1.

Definition SAME : Z := 0.
Definition PATCH : Z := 1.
Definition RAW : Z := 2.
Definition PREFIXED : Z := 3.
Definition RUN_MERGE_GAP : Z := 8.
Definition PREFIX_MIN_BYTES : Z := 4096.
Definition MAX_RECONSTRUCTED_FRAME_BYTES : Z := 256 * 1024.
Definition MAX_DELTA_INSTRUCTION_BYTES : Z := 256 * 1024.
Definition MAX_PACKET_BYTES : Z := 256 * 1024.

(** ** Variable-length integers *)

(** [put_varint]; a [usize] has at most ten groups of seven bits. *)
Fixpoint put_varint_fuel (fuel : nat) (value : Z) : list byte :=
  match fuel with
  | O => []
  | S fuel =>
      if 0x80 <=? value
      then byte_of (Z.lor (wrap8 value) 0x80) :: put_varint_fuel fuel (Z.shiftr value 7)
      else [byte_of value]
  end.

Definition put_varint (value : Z) : list byte := put_varint_fuel 10 value.

(** The five turns of [get_varint]'s loop, from the shift and the value read so far. *)
Fixpoint get_varint_from (turns : nat) (shift value : Z) (input : list byte)
    : option (Z * list byte) :=
  match turns with
  | O => None
  | S turns =>
      match input with
      | [] => None
      | b :: rest =>
          let value := Z.lor value (Z.shiftl (Z.land (byte_val b) 0x7f) shift) in
          if Z.land (byte_val b) 0x80 =? 0 then Some (value, rest)
          else get_varint_from turns (shift + 7) value rest
      end
  end.

Definition get_varint (input : list byte) : option (Z * list byte) := get_varint_from 5 0 0 input.

Definition delta_take (input : list byte) (len : Z) : option (list byte * list byte) :=
  if zlen input <? len then None else Some (ztake len input, zdrop len input).

(** ** Patches *)

(** The windows of eight bytes of [first_difference], compared as [u64]. *)
Fixpoint skip_windows (fuel : nat) (new old : list byte) (at_ : Z) : Z :=
  match fuel with
  | O => at_
  | S fuel =>
      if at_ + 8 <=? zlen new then
        if le_val (slice new at_ (at_ + 8)) =? le_val (slice old at_ (at_ + 8))
        then skip_windows fuel new old (at_ + 8)
        else at_
      else at_
  end.

(** [(at..new.len()).find(|&i| new[i] != old[i])]. *)
Fixpoint find_difference (fuel : nat) (new old : list byte) (i : Z) : option Z :=
  match fuel with
  | O => None
  | S fuel =>
      if i <? zlen new then
        if bool_decide (new !! Z.to_nat i = old !! Z.to_nat i)
        then find_difference fuel new old (i + 1)
        else Some i
      else None
  end.

Definition first_difference (new old : list byte) (from : Z) : option Z :=
  find_difference (length new) new old (skip_windows (length new) new old from).

(** The inner loop of [put_patch]: the last difference before a gap. *)
Fixpoint scan_run (fuel : nat) (new old : list byte) (scan last : Z) : Z :=
  match fuel with
  | O => last
  | S fuel =>
      if (scan <? zlen new) && (scan - last <=? RUN_MERGE_GAP) then
        scan_run fuel new old (scan + 1)
          (if bool_decide (new !! Z.to_nat scan = old !! Z.to_nat scan) then last else scan)
      else last
  end.

Definition add_run (runs : list (Z * Z)) (first last : Z) : list (Z * Z) :=
  match list.last runs with
  | Some (start, e) =>
      if first - e <=? RUN_MERGE_GAP
      then removelast runs ++ [(start, last + 1)]
      else runs ++ [(first, last + 1)]
  | None => runs ++ [(first, last + 1)]
  end.

(** The outer loop: every turn moves [at] forward. *)
Fixpoint collect_runs (fuel : nat) (new old : list byte) (runs : list (Z * Z)) (at_ : Z)
    : list (Z * Z) :=
  match fuel with
  | O => runs
  | S fuel =>
      match first_difference new old at_ with
      | None => runs
      | Some first =>
          let last := scan_run (length new) new old first first in
          collect_runs fuel new old (add_run runs first last) (last + 1)
      end
  end.

Definition patch_runs (new old : list byte) : list (Z * Z) :=
  collect_runs (S (length new)) new old [] 0.

Fixpoint put_runs (new : list byte) (cursor : Z) (runs : list (Z * Z)) : list byte :=
  match runs with
  | [] => []
  | (start, e) :: rest =>
      put_varint (start - cursor) ++ put_varint (e - start) ++ slice new start e
      ++ put_runs new e rest
  end.

Definition put_patch (new old : list byte) : list byte :=
  let runs := patch_runs new old in put_varint (zlen runs) ++ put_runs new 0 runs.

(** [reserve_output]: the output has [len] bytes.  The additions do not overflow a [usize]. *)
Definition reserve_output (len additional : Z) : option () :=
  match checked_add_usize len additional with
  | Some e => if MAX_RECONSTRUCTED_FRAME_BYTES <? e then None else Some ()
  | None => None
  end.

(** [out.get_mut(a..b)?.copy_from_slice(bytes)] where [b = a + bytes.len()]. *)
Definition splice (out : list byte) (a : Z) (bytes : list byte) : option (list byte) :=
  let b := a + zlen bytes in
  if zlen out <? b then None else Some (ztake a out ++ bytes ++ zdrop b out).

(** [for _ in 0..runs]; a run takes two bytes of input or more, so the length of the input is
    enough fuel. *)
Fixpoint apply_patch (fuel : nat) (runs : Z) (input seg : list byte) (at_ : Z)
    : option (list byte * list byte) :=
  if runs <=? 0 then Some (seg, input)
  else
    match fuel with
    | O => None
    | S fuel =>
        match get_varint input with
        | None => None
        | Some (skip, input) =>
            match checked_add_usize at_ skip with
            | None => None
            | Some at_ =>
                match get_varint input with
                | None => None
                | Some (len, input) =>
                    match delta_take input len with
                    | None => None
                    | Some (bytes, input) =>
                        match checked_add_usize at_ len with
                        | None => None
                        | Some e =>
                            match splice seg at_ bytes with
                            | None => None
                            | Some seg => apply_patch fuel (runs - 1) input seg e
                            end
                        end
                    end
                end
            end
        end
    end.

(** ** Frames *)

Record WireMeta : Type := mkWireMeta {
  wm_bytes : list byte;
  wm_ends : list Z;
}.

(** [WireMeta::segment]; an index or a range out of bounds panics. *)
Definition wm_segment (m : WireMeta) (index : nat) : option (list byte) :=
  match match index with
        | O => Some 0
        | S prev => wm_ends m !! prev
        end, wm_ends m !! index with
  | Some start, Some e =>
      if (start <=? e) && (e <=? zlen (wm_bytes m)) then Some (slice (wm_bytes m) start e) else None
  | _, _ => None
  end.

Record FrameParts : Type := mkParts {
  fp_head : list byte;
  fp_meta : Z;              (* the address of the shared [WireMeta] *)
  fp_world_objects : list byte;
  fp_tail : list byte;
}.

Record MetaPatchCache : Type := mkCache {
  mc_entries : list (Z * Z * list byte);
}.

Definition cache_new : MetaPatchCache := mkCache [].

(** [mapM], left to right, over the segments of a meta. *)
Fixpoint wm_segments_from (m : WireMeta) (n index : nat) : option (list (list byte)) :=
  match n with
  | O => Some []
  | S n => match wm_segment m index, wm_segments_from m n (S index) with
           | Some s, Some rest => Some (s :: rest)
           | _, _ => None
           end
  end.

Definition wm_segments (m : WireMeta) : option (list (list byte)) :=
  wm_segments_from m (Z.to_nat META_BODY_SEGMENTS) 0.

Section Delta.
Context (heap : Z -> WireMeta).
(** [compress_against(new, old)] and [dctx.decompress] with the prefix [old], a capacity and
    the packed bytes: the bytes written, or an error. *)
Context (compress_against : list byte -> list byte -> option (list byte)).
Context (decompress_with : list byte -> list byte -> Z -> option (list byte)).
(** The zstd bulk compressor and decompressor of the whole delta. *)
Context (zstd_compress : list byte -> option (list byte)).
Context (zstd_decompress : list byte -> Z -> option (list byte)).

Definition segments (p : FrameParts) : option (list (list byte)) :=
  match wm_segments (heap (fp_meta p)) with
  | Some meta => Some (fp_head p :: meta ++ [fp_world_objects p; fp_tail p])
  | None => None
  end.

Definition to_raw (p : FrameParts) : option (list byte) :=
  (fun segs => concat segs) <$> segments p.

(** ** Encoding *)

Definition put_segment (new old : list byte) : list byte :=
  if bool_decide (new = old) then [byte_of SAME]
  else
    let patch := byte_of PATCH :: put_patch new old in
    if (zlen new =? zlen old) &&
       ((zlen patch <=? zlen new / 4) || (zlen new <? PREFIX_MIN_BYTES))
    then patch
    else
      match (if (PREFIX_MIN_BYTES <=? zlen new) && negb (zlen old =? 0)
             then compress_against new old else None) with
      | Some packed =>
          byte_of PREFIXED :: put_varint (zlen new) ++ put_varint (zlen packed) ++ packed
      | None => byte_of RAW :: put_varint (zlen new) ++ new
      end.

Fixpoint put_segments (new old : list (list byte)) : list byte :=
  match new, old with
  | n :: new, o :: old => put_segment n o ++ put_segments new old
  | _, _ => []
  end.

Definition cached_patch (cache : MetaPatchCache) (new old : Z) : option (list byte) :=
  snd <$> find (fun e => (e.1.1 =? new) && (e.1.2 =? old)) (mc_entries cache).

(** [encode]: the head segment, the meta segments (from the cache, when these two metas were
    compared before), the others.  [None]: [segments] panics. *)
Definition delta_encode (new old : FrameParts) (cache : MetaPatchCache)
    : option (list byte * MetaPatchCache) :=
  match segments new, segments old with
  | Some new_segments, Some old_segments =>
      let out := put_segments (take 1 new_segments) (take 1 old_segments) in
      let body l := take (Z.to_nat META_BODY_SEGMENTS) (drop 1 l) in
      let '(patch, cache) :=
        match cached_patch cache (fp_meta new) (fp_meta old) with
        | Some patch => (patch, cache)
        | None =>
            let patch := put_segments (body new_segments) (body old_segments) in
            (patch, mkCache (mc_entries cache ++ [((fp_meta new, fp_meta old), patch)]))
        end in
      Some (out ++ patch ++
              put_segments (drop (Z.to_nat META_SEGMENTS) new_segments)
                (drop (Z.to_nat META_SEGMENTS) old_segments), cache)
  | _, _ => None
  end.

(** ** Decoding *)

(** [segment_slices]: the base cut into its segments, nothing left over. *)
Fixpoint slices_from (bytes : list byte) (at_ : Z) (lens : list Z) : option (list (list byte)) :=
  match lens with
  | [] => if at_ =? zlen bytes then Some [] else None
  | len :: lens =>
      match checked_add_usize at_ len with
      | None => None
      | Some e =>
          if zlen bytes <? e then None
          else match slices_from bytes e lens with
               | Some rest => Some (slice bytes at_ e :: rest)
               | None => None
               end
      end
  end.

Definition segment_slices (bytes : list byte) (lens : list Z) : option (list (list byte)) :=
  slices_from bytes 0 lens.

(** One segment: what it adds to the [len] bytes of output, and the input left. *)
Definition decode_segment (old input : list byte) (len : Z) : option (list byte * list byte) :=
  match input with
  | [] => None
  | tag :: input =>
      let tag := byte_val tag in
      if tag =? SAME then
        match reserve_output len (zlen old) with
        | None => None
        | Some _ => Some (old, input)
        end
      else if tag =? PATCH then
        match reserve_output len (zlen old) with
        | None => None
        | Some _ =>
            match get_varint input with
            | None => None
            | Some (runs, input) => apply_patch (length input) runs input old 0
            end
        end
      else if tag =? RAW then
        match get_varint input with
        | None => None
        | Some (n, input) =>
            match reserve_output len n with
            | None => None
            | Some _ => delta_take input n
            end
        end
      else if tag =? PREFIXED then
        match get_varint input with
        | None => None
        | Some (n, input) =>
            match get_varint input with
            | None => None
            | Some (packed_len, input) =>
                match delta_take input packed_len with
                | None => None
                | Some (packed, input) =>
                    match reserve_output len n with
                    | None => None
                    | Some _ =>
                        match decompress_with old packed n with
                        | None => None
                        | Some got => if negb (zlen got =? n) then None else Some (got, input)
                        end
                    end
                end
            end
        end
      else None
  end.

Fixpoint decode_segments (olds : list (list byte)) (input out : list byte) : option (list byte) :=
  match olds with
  | [] => if zlen input =? 0 then Some out else None
  | old :: olds =>
      match decode_segment old input (zlen out) with
      | None => None
      | Some (seg, input) => decode_segments olds input (out ++ seg)
      end
  end.

Definition delta_decode (delta base : list byte) (base_lens : list Z) : option (list byte) :=
  if (MAX_DELTA_INSTRUCTION_BYTES <? zlen delta) || (MAX_RECONSTRUCTED_FRAME_BYTES <? zlen base)
  then None
  else
    match segment_slices base base_lens with
    | None => None
    | Some old => decode_segments old delta []
    end.

(** ** The snapshot payload *)

Definition delta_compress (delta : list byte) : option (list byte) :=
  if MAX_DELTA_INSTRUCTION_BYTES <? zlen delta then None else zstd_compress delta.

Definition delta_decompress (packed : list byte) (len : Z) : option (list byte) :=
  if (MAX_DELTA_INSTRUCTION_BYTES <? len) || (MAX_PACKET_BYTES <? zlen packed) then None
  else zstd_decompress packed len.

Inductive SnapshotPayload : Type :=
| Plain (payload : list byte)
| AgainstBaseline (decoded_len : Z) (compressed : list byte).

Definition against_baseline (delta raw : list byte) : SnapshotPayload :=
  match delta_compress delta with
  | Some compressed =>
      if zlen compressed <=? MAX_PACKET_BYTES
      then AgainstBaseline (wrap32 (zlen delta)) compressed
      else Plain raw
  | None => Plain raw
  end.

Definition payload_decode (p : SnapshotPayload) (baseline : option (list byte * list Z))
    : option (list byte) :=
  match p with
  | Plain payload => if zlen payload <=? MAX_RECONSTRUCTED_FRAME_BYTES then Some payload else None
  | AgainstBaseline decoded_len compressed =>
      match baseline with
      | None => None
      | Some (base, lens) =>
          match delta_decompress compressed decoded_len with
          | None => None
          | Some delta =>
              if negb (zlen delta =? decoded_len) then None else delta_decode delta base lens
          end
      end
  end.

Definition wire_len (p : SnapshotPayload) : Z :=
  match p with Plain payload => zlen payload | AgainstBaseline _ compressed => zlen compressed end.
End Delta.

Example patch_demo :
  let old := bs "the quick brown fox jumps over the lazy dog" in
  let new := bs "the quack brown fox jumps over the hazy log" in
  decode_segments (fun _ _ _ => None) [old] (put_segment (fun _ _ => None) new old) [] = Some new.
Proof. vm_compute. reflexivity. Qed.
