(* ===== verification/SegmentDeltaProofs.v ===== *)
(** * Snapshot deltas: lemmas

    Variable-length integers, the runs of a patch and their application, and one segment. *)

From S2P Require Export SegmentDelta.

(** ** Variable-length integers *)

Lemma byte_bits z :
  0 <= z < 256 ->
  Z.land z 0x7f = z mod 128 /\ (Z.land z 0x80 =? 0) = (z <? 128) /\ Z.lor z 0x80 = z mod 128 + 128.
Proof.
  intros Hz.
  assert (forallb (fun z => (Z.land z 0x7f =? z mod 128) && Bool.eqb (Z.land z 0x80 =? 0) (z <? 128) &&
    (Z.lor z 0x80 =? z mod 128 + 128)) (seqZ 0 256) = true) as Hall by (vm_compute; reflexivity).
  rewrite forallb_forall in Hall. specialize (Hall z).
  assert (In z (seqZ 0 256)) as Hin by (apply list_elem_of_In, elem_of_seqZ; lia).
  specialize (Hall Hin). apply andb_true_iff in Hall as [[H1 H2]%andb_true_iff H3].
  split; [lia|]. split; [by apply Bool.eqb_prop|lia].
Qed.

Lemma lor_shift acc x s :
  0 <= acc < 2 ^ s -> 0 <= s -> Z.lor acc (Z.shiftl x s) = acc + x * 2 ^ s.
Proof.
  intros Ha Hs. rewrite <- Z.shiftl_mul_pow2 by done. symmetry. apply Z.add_nocarry_lor.
  apply Z.bits_inj'. intros n Hn. rewrite Z.land_spec, Z.bits_0.
  destruct (Z_lt_ge_dec n s) as [H|H].
  - rewrite Z.shiftl_spec_low by lia. by rewrite andb_false_r.
  - by rewrite (proj1 (Z.bounded_iff_bits_nonneg s acc Hs (proj1 Ha)) (proj2 Ha) n) by lia.
Qed.

Lemma get_put_varint_from turns fuel shift acc v rest :
  (1 <= turns <= fuel)%nat -> 0 <= shift -> 0 <= acc < 2 ^ shift -> 0 <= v < 2 ^ (7 * Z.of_nat turns) ->
  get_varint_from turns shift acc (put_varint_fuel fuel v ++ rest) = Some (acc + v * 2 ^ shift, rest).
Proof.
  revert fuel shift acc v. induction turns as [|turns IH]; intros fuel shift acc v Hn Hs Ha Hv; [lia|].
  destruct fuel as [|fuel]; [lia|]. cbn [put_varint_fuel].
  destruct (Z.leb_spec 0x80 v) as [Hbig|Hsmall]; cbn [app get_varint_from].
  - assert (0 <= wrap8 v < 256) as Hw by ilia. destruct (byte_bits _ Hw) as (_ & _ & ->).
    assert (wrap8 v mod 128 = v mod 128) as -> by ilia.
    assert (0 <= v mod 128 < 128) as Hm by ilia.
    rewrite byte_val_of_small by ilia.
    destruct (byte_bits (v mod 128 + 128)) as (-> & -> & _); [lia|].
    rewrite (proj2 (Z.ltb_ge _ _)) by lia.
    replace ((v mod 128 + 128) mod 128) with (v mod 128) by ilia.
    rewrite lor_shift by done.
    assert (2 ^ (shift + 7) = 2 ^ shift * 128) as Hp by (rewrite Z.pow_add_r by lia; done).
    assert (Z.shiftr v 7 = v / 128) as -> by (by rewrite Z.shiftr_div_pow2).
    replace (7 * Z.of_nat (S turns)) with (7 * Z.of_nat turns + 7) in Hv by lia.
    rewrite Z.pow_add_r in Hv by lia. change (2 ^ 7) with 128 in Hv.
    destruct turns as [|turns].
    { change (2 ^ (7 * Z.of_nat 0)) with 1 in Hv. lia. }
    rewrite IH; [|lia|lia|rewrite Hp; nia|].
    + do 2 f_equal. rewrite Hp. rewrite (Z.div_mod v 128) at 3 by lia. ring.
    + split; [ilia|]. apply Z.div_lt_upper_bound; lia.
  - rewrite byte_val_of_small by ilia. destruct (byte_bits v) as (-> & -> & _); [lia|].
    rewrite (proj2 (Z.ltb_lt _ _)) by lia. by rewrite Z.mod_small, lor_shift by lia.
Qed.

Lemma get_put_varint v rest : 0 <= v < 2 ^ 35 -> get_varint (put_varint v ++ rest) = Some (v, rest).
Proof.
  intros Hv. unfold get_varint, put_varint. rewrite get_put_varint_from by (done || lia).
  do 2 f_equal. lia.
Qed.

Lemma put_varint_nonempty v : exists b l, put_varint v = b :: l.
Proof. unfold put_varint. cbn [put_varint_fuel]. destruct (0x80 <=? v); eauto. Qed.

Lemma delta_take_app l rest : delta_take (l ++ rest) (zlen l) = Some (l, rest).
Proof.
  unfold delta_take, ztake, zdrop. rewrite zlen_app. pose proof (zlen_nonneg rest).
  rewrite (proj2 (Z.ltb_ge _ _)) by lia. unfold zlen. rewrite Nat2Z.id.
  by rewrite take_app_length, drop_app_length.
Qed.

(** ** Finding the differences *)

Section Runs.
Context (new old : list byte) (Hlen : zlen new = zlen old).

(** The two segments agree from [a] to [b]. *)
Definition agree (a b : Z) : Prop :=
  forall i, a <= i < b -> new !! Z.to_nat i = old !! Z.to_nat i.

Lemma agree_app a b c : agree a b -> agree b c -> agree a c.
Proof. intros H1 H2 i Hi. destruct (Z_lt_ge_dec i b); [apply H1|apply H2]; lia. Qed.

Lemma window_agree a :
  0 <= a -> a + 8 <= zlen new -> le_val (slice new a (a + 8)) = le_val (slice old a (a + 8)) ->
  agree a (a + 8).
Proof.
  intros Ha Hb Heq. assert (slice new a (a + 8) = slice old a (a + 8)) as Hs.
  { rewrite <- (le_bytes_val (slice new a (a + 8))), <- (le_bytes_val (slice old a (a + 8))), Heq.
    f_equal. pose proof (zlen_slice new a (a + 8) ltac:(lia) Hb).
    pose proof (zlen_slice old a (a + 8) ltac:(lia) ltac:(lia)). unfold zlen in *. lia. }
  intros i Hi. pose proof (slice_lookup new a (a + 8) (Z.to_nat (i - a)) Ha ltac:(lia)) as Hn.
  rewrite Hs, slice_lookup in Hn by lia.
  by replace (a + Z.of_nat (Z.to_nat (i - a))) with i in Hn by lia.
Qed.

Lemma skip_windows_spec fuel a :
  0 <= a -> a <= skip_windows fuel new old a /\ agree a (skip_windows fuel new old a) /\
  (a <= zlen new -> skip_windows fuel new old a <= zlen new).
Proof.
  revert a. induction fuel as [|fuel IH]; intros a Ha; cbn [skip_windows].
  - split; [lia|]. split; [intros i Hi; lia|done].
  - destruct (Z.leb_spec (a + 8) (zlen new)) as [Hle|];
      [destruct (Z.eqb_spec (le_val (slice new a (a + 8))) (le_val (slice old a (a + 8)))) as [Heq|]|].
    + destruct (IH (a + 8) ltac:(lia)) as (H1 & H2 & H3).
      split; [lia|]. split; [|lia]. by apply (agree_app _ (a + 8)); [apply window_agree|].
    + split; [lia|]. split; [intros i Hi; lia|done].
    + split; [lia|]. split; [intros i Hi; lia|done].
Qed.

Lemma find_difference_spec fuel i :
  0 <= i -> zlen new - i <= Z.of_nat fuel ->
  match find_difference fuel new old i with
  | Some f => i <= f < zlen new /\ agree i f
  | None => agree i (zlen new)
  end.
Proof.
  revert i. induction fuel as [|fuel IH]; intros i Hi Hf; cbn [find_difference].
  - intros j Hj. lia.
  - destruct (Z.ltb_spec i (zlen new)) as [Hlt|]; [|intros j Hj; lia].
    case_bool_decide as Heq.
    + specialize (IH (i + 1) ltac:(lia) ltac:(lia)).
      assert (agree i (i + 1)) as H1 by (intros j Hj; by replace j with i by lia).
      destruct (find_difference fuel new old (i + 1)) as [f|].
      * destruct IH. split; [lia|]. by apply (agree_app _ (i + 1)).
      * by apply (agree_app _ (i + 1)).
    + split; [lia|]. intros j Hj. lia.
Qed.

Lemma first_difference_spec from :
  0 <= from ->
  match first_difference new old from with
  | Some f => from <= f < zlen new /\ agree from f
  | None => agree from (zlen new)
  end.
Proof.
  intros Hf. unfold first_difference.
  destruct (skip_windows_spec (length new) from Hf) as (H1 & H2 & _).
  set (a := skip_windows _ _ _ _) in *.
  pose proof (find_difference_spec (length new) a ltac:(lia) ltac:(unfold zlen; lia)) as H.
  destruct (find_difference _ _ _ _) as [f|].
  - destruct H. split; [lia|]. by apply (agree_app _ a).
  - by apply (agree_app _ a).
Qed.

Lemma scan_run_spec fuel scan last :
  0 <= last < zlen new -> last <= scan ->
  last <= scan_run fuel new old scan last < zlen new.
Proof.
  revert scan last. induction fuel as [|fuel IH]; intros scan last Hl Hs; cbn [scan_run]; [lia|].
  destruct (Z.ltb_spec scan (zlen new)); cbn [andb]; [|lia].
  destruct (scan - last <=? RUN_MERGE_GAP); [|lia].
  case_bool_decide; [specialize (IH (scan + 1) last)|specialize (IH (scan + 1) scan)]; lia.
Qed.

(** ** Runs that cover every difference *)

(** From [cursor] to [at]: increasing, non-empty runs, with agreement outside them. *)
Fixpoint runs_ok (cursor : Z) (runs : list (Z * Z)) (at_ : Z) : Prop :=
  match runs with
  | [] => cursor <= at_ /\ agree cursor at_
  | (s, e) :: rest => cursor <= s < e /\ agree cursor s /\ runs_ok e rest at_
  end.

Lemma runs_ok_le runs c a : runs_ok c runs a -> c + zlen runs <= a.
Proof.
  revert c. induction runs as [|[s e] runs IH]; intros c; cbn [runs_ok].
  - unfold zlen. cbn. lia.
  - intros (H1 & _ & H2%IH). rewrite zlen_cons. lia.
Qed.

Lemma runs_ok_extend runs c a b : runs_ok c runs a -> a <= b -> agree a b -> runs_ok c runs b.
Proof.
  intros H Hab Hag. revert c H. induction runs as [|[s e] runs IH]; intros c; cbn [runs_ok].
  - intros [H1 H2]. split; [lia|]. by apply (agree_app _ a).
  - intros (H1 & H2 & H3). auto.
Qed.

Lemma runs_ok_push runs c a s e :
  runs_ok c runs a -> a <= s < e -> agree a s -> runs_ok c (runs ++ [(s, e)]) e.
Proof.
  intros H Hs Hag. revert c H. induction runs as [|[s' e'] runs IH]; intros c; cbn [runs_ok app].
  - intros [H1 H2]. split; [lia|]. split; [by apply (agree_app _ a)|].
    split; [lia|]. intros i Hi. lia.
  - intros (H1 & H2 & H3). auto.
Qed.

Lemma runs_ok_merge runs c a s e e' :
  runs_ok c (runs ++ [(s, e)]) a -> a < e' -> runs_ok c (runs ++ [(s, e')]) e'.
Proof.
  revert c. induction runs as [|[s0 e0] runs IH]; intros c; cbn [runs_ok app].
  - intros (H1 & H2 & H3 & _) He. split; [lia|]. split; [done|]. split; [lia|]. intros i Hi. lia.
  - intros (H1 & H2 & H3) He. auto.
Qed.

Lemma add_run_ok runs a first last :
  runs_ok 0 runs a -> a <= first <= last -> agree a first ->
  runs_ok 0 (add_run runs first last) (last + 1).
Proof.
  intros Hr Hf Hag. unfold add_run.
  destruct (list.last runs) as [[s e]|] eqn:Hl; [|apply (runs_ok_push _ _ a); (done || lia)].
  destruct (_ <=? _); [|apply (runs_ok_push _ _ a); (done || lia)].
  apply list.last_Some in Hl as [pre ->]. rewrite removelast_last.
  apply (runs_ok_merge _ _ a _ e); [done|lia].
Qed.

Lemma collect_runs_ok fuel runs a :
  runs_ok 0 runs a -> 0 <= a <= zlen new -> zlen new - a < Z.of_nat fuel ->
  runs_ok 0 (collect_runs fuel new old runs a) (zlen new).
Proof.
  revert runs a. induction fuel as [|fuel IH]; intros runs a Hr Ha Hf; [lia|].
  cbn [collect_runs]. pose proof (first_difference_spec a ltac:(lia)) as Hd.
  destruct (first_difference new old a) as [first|].
  - destruct Hd as [Hd Hag].
    pose proof (scan_run_spec (length new) first first ltac:(lia) ltac:(lia)) as Hl.
    apply IH; [|lia|lia]. by apply (add_run_ok _ a); [|lia|].
  - apply (runs_ok_extend _ _ a); (done || lia).
Qed.

Lemma patch_runs_ok : runs_ok 0 (patch_runs new old) (zlen new).
Proof.
  pose proof (zlen_nonneg new). apply collect_runs_ok; [|lia|unfold zlen; lia].
  split; [lia|]. intros i Hi. lia.
Qed.

(** ** Applying the runs *)

(** The new segment up to [c], the old one from there. *)
Definition mix (c : Z) : list byte := ztake c new ++ zdrop c old.

Lemma mix_lookup c (i : nat) :
  0 <= c <= zlen new -> mix c !! i = if Z.of_nat i <? c then new !! i else old !! i.
Proof.
  intros Hc. unfold mix, ztake, zdrop, zlen in *. destruct (Z.ltb_spec (Z.of_nat i) c) as [H|H].
  - rewrite lookup_app_l by (rewrite length_take; lia). by rewrite lookup_take_lt by lia.
  - rewrite lookup_app_r by (rewrite length_take; lia). rewrite lookup_drop, length_take.
    f_equal. lia.
Qed.

Lemma zlen_mix c : 0 <= c <= zlen new -> zlen (mix c) = zlen new.
Proof.
  intros Hc. unfold mix, ztake, zdrop, zlen in *. rewrite length_app, length_take, length_drop. lia.
Qed.

Lemma mix_all : mix (zlen new) = new.
Proof.
  unfold mix, ztake, zdrop, zlen in *. rewrite firstn_all2, drop_ge by lia. apply app_nil_r.
Qed.

Lemma mix_agree c : 0 <= c <= zlen new -> agree c (zlen new) -> mix c = new.
Proof.
  intros Hc Hag. apply list_eq. intros i. rewrite mix_lookup by done.
  destruct (Z.ltb_spec (Z.of_nat i) c); [done|].
  destruct (Z_lt_ge_dec (Z.of_nat i) (zlen new)) as [Hi|Hi].
  - specialize (Hag (Z.of_nat i) ltac:(lia)). by rewrite Nat2Z.id in Hag.
  - unfold zlen in *. rewrite !lookup_ge_None_2; [done|lia|lia].
Qed.

Lemma splice_mix c s e :
  0 <= c <= s -> s < e <= zlen new -> agree c s -> splice (mix c) s (slice new s e) = Some (mix e).
Proof.
  intros Hc Hs Hag. unfold splice. rewrite zlen_slice, zlen_mix by lia.
  rewrite (proj2 (Z.ltb_ge _ _)) by lia. f_equal.
  replace (s + (e - s)) with e by lia. unfold mix at 3. rewrite app_assoc. f_equal.
  - apply list_eq. intros i. unfold ztake, zdrop.
    assert (length (take (Z.to_nat s) (mix c)) = Z.to_nat s) as Hl.
    { pose proof (zlen_mix c ltac:(lia)). rewrite length_take. unfold zlen in *. lia. }
    destruct (Z_lt_ge_dec (Z.of_nat i) s) as [H|H].
    + rewrite lookup_app_l, !lookup_take_lt by lia. rewrite mix_lookup by lia.
      destruct (Z.ltb_spec (Z.of_nat i) c); [done|].
      specialize (Hag (Z.of_nat i) ltac:(lia)). by rewrite Nat2Z.id in Hag.
    + rewrite lookup_app_r by lia. rewrite Hl.
      destruct (Z_lt_ge_dec (Z.of_nat i) e) as [He|He].
      * rewrite slice_lookup by lia. rewrite lookup_take_lt by lia. f_equal. lia.
      * pose proof (zlen_slice new s e ltac:(lia) ltac:(lia)).
        rewrite !lookup_ge_None_2; [done| |]; [rewrite length_take|]; unfold zlen in *; lia.
  - apply list_eq. intros i. unfold zdrop. rewrite !lookup_drop, mix_lookup by lia.
    by rewrite (proj2 (Z.ltb_ge _ _)) by lia.
Qed.

Lemma apply_put_runs runs c fuel rest :
  runs_ok c runs (zlen new) -> 0 <= c <= zlen new -> zlen new < 2 ^ 35 ->
  (length runs <= fuel)%nat ->
  apply_patch fuel (zlen runs) (put_runs new c runs ++ rest) (mix c) c = Some (new, rest).
Proof.
  revert c fuel. induction runs as [|[s e] runs IH]; intros c fuel Hr Hc Hbig Hf.
  - destruct Hr as [_ Hag]. rewrite (mix_agree c Hc Hag). by destruct fuel.
  - destruct Hr as (Hs & Hag & Hr). pose proof (runs_ok_le _ _ _ Hr). pose proof (zlen_nonneg runs).
    destruct fuel as [|fuel]; [cbn in Hf; lia|]. cbn [put_runs apply_patch].
    rewrite zlen_cons, (proj2 (Z.leb_gt _ _)) by lia.
    rewrite <- !app_assoc, get_put_varint by lia.
    unfold checked_add_usize. unfold_int. rewrite (proj2 (Z.leb_le (c + (s - c)) _)) by lia.
    rewrite get_put_varint by lia.
    replace (e - s) with (zlen (slice new s e)) by (rewrite zlen_slice by lia; done).
    rewrite delta_take_app, zlen_slice by lia. rewrite (proj2 (Z.leb_le _ _)) by lia.
    replace (c + (s - c)) with s by lia. rewrite splice_mix by (done || lia).
    replace (s + (e - s)) with e by lia. replace (1 + zlen runs - 1) with (zlen runs) by lia.
    apply IH; [done|lia|done|cbn in Hf; lia].
Qed.

Lemma apply_put_patch rest :
  zlen new < 2 ^ 35 ->
  exists runs input, get_varint (put_patch new old ++ rest) = Some (runs, input) /\
    apply_patch (length input) runs input old 0 = Some (new, rest).
Proof.
  intros Hbig. pose proof patch_runs_ok as Hr. pose proof (runs_ok_le _ _ _ Hr).
  pose proof (zlen_nonneg (patch_runs new old)). pose proof (zlen_nonneg new).
  exists (zlen (patch_runs new old)), (put_runs new 0 (patch_runs new old) ++ rest).
  unfold put_patch. rewrite <- app_assoc, get_put_varint by lia. split; [done|].
  assert (forall runs c, (length runs <= length (put_runs new c runs))%nat) as Hfuel.
  { induction runs as [|[s e] runs IH]; intros c; cbn [put_runs length]; [done|].
    destruct (put_varint_nonempty (s - c)) as (b & l & ->). specialize (IH e).
    rewrite !length_app. cbn [length]. lia. }
  pose proof (apply_put_runs (patch_runs new old) 0
    (length (put_runs new 0 (patch_runs new old) ++ rest)) rest Hr ltac:(lia) Hbig) as Happly.
  unfold mix, ztake, zdrop in Happly. cbn [Z.to_nat take drop app] in Happly. apply Happly.
  rewrite length_app. specialize (Hfuel (patch_runs new old) 0). lia.
Qed.
End Runs.

(** ** One segment *)

(** What is relied on of the third-party compressor: what was compressed against a prefix
    decompresses with that prefix and the right capacity, and no packed segment is longer than
    [compress_bound]. *)
Class PrefixCodec (compress_against : list byte -> list byte -> option (list byte))
    (decompress_with : list byte -> list byte -> Z -> option (list byte)) : Prop := {
  prefix_roundtrip new old packed :
    compress_against new old = Some packed -> decompress_with old packed (zlen new) = Some new;
  prefix_bound new old packed :
    compress_against new old = Some packed -> zlen packed <= zlen new + zlen new / 256 + 64;
}.

(** The bulk compressor of whole deltas. *)
Class BulkCodec (zstd_compress : list byte -> option (list byte))
    (zstd_decompress : list byte -> Z -> option (list byte)) : Prop := {
  bulk_roundtrip delta packed :
    zstd_compress delta = Some packed -> zstd_decompress packed (zlen delta) = Some delta;
}.

Lemma reserve_ok len n :
  0 <= len -> 0 <= n -> len + n <= MAX_RECONSTRUCTED_FRAME_BYTES -> reserve_output len n = Some ().
Proof.
  intros Hl Hn Hm. unfold reserve_output, checked_add_usize.
  unfold MAX_RECONSTRUCTED_FRAME_BYTES in *. rewrite (proj2 (Z.leb_le _ usize_max)) by ilia.
  by rewrite (proj2 (Z.ltb_ge _ _)) by lia.
Qed.

Lemma reserve_bound len n u :
  reserve_output len n = Some u -> len + n <= MAX_RECONSTRUCTED_FRAME_BYTES.
Proof.
  unfold reserve_output, checked_add_usize. destruct (_ <=? _); [|done].
  destruct (Z.ltb_spec MAX_RECONSTRUCTED_FRAME_BYTES (len + n)); [done|lia].
Qed.

Section Segment.
Context (compress_against : list byte -> list byte -> option (list byte)).
Context (decompress_with : list byte -> list byte -> Z -> option (list byte)).
Context `{!PrefixCodec compress_against decompress_with}.

Lemma decode_put_segment new old rest len :
  0 <= len -> len + zlen new <= MAX_RECONSTRUCTED_FRAME_BYTES ->
  decode_segment decompress_with old (put_segment compress_against new old ++ rest) len =
    Some (new, rest).
Proof.
  intros Hl Hmax. pose proof (zlen_nonneg new) as Hn. unfold put_segment.
  assert (zlen new < 2 ^ 35) as Hbig by (unfold MAX_RECONSTRUCTED_FRAME_BYTES in *; lia).
  case_bool_decide as Heq; [subst old; cbn; by rewrite reserve_ok by done|].
  destruct (_ && _) eqn:Hpatch.
  - assert (zlen new = zlen old) as Hlen by lia. cbn [app decode_segment].
    change (byte_val (byte_of PATCH)) with 1. cbn [Z.eqb].
    change (1 =? SAME) with false. change (1 =? PATCH) with true. cbv iota.
    rewrite reserve_ok by lia.
    destruct (apply_put_patch new old Hlen rest Hbig) as (runs & input & -> & ->). done.
  - destruct (if _ && _ then compress_against new old else None) as [packed|] eqn:Hpacked;
      cbn [app decode_segment].
    + destruct (_ && _) in Hpacked; [|done].
      pose proof (prefix_bound _ _ _ Hpacked). pose proof (zlen_nonneg packed).
      change (byte_val (byte_of PREFIXED)) with 3.
      change (3 =? SAME) with false. change (3 =? PATCH) with false.
      change (3 =? RAW) with false. change (3 =? PREFIXED) with true. cbv iota.
      rewrite <- !app_assoc, get_put_varint by lia.
      assert (zlen packed < 2 ^ 35).
      { assert (zlen new / 256 <= 1024) by
          (apply Z.div_le_upper_bound; unfold MAX_RECONSTRUCTED_FRAME_BYTES in *; lia).
        change (2 ^ 35) with 34359738368. unfold MAX_RECONSTRUCTED_FRAME_BYTES in *. lia. }
      rewrite get_put_varint by lia.
      rewrite delta_take_app, reserve_ok by lia.
      rewrite (prefix_roundtrip _ _ _ Hpacked), Z.eqb_refl. done.
    + change (byte_val (byte_of RAW)) with 2.
      change (2 =? SAME) with false. change (2 =? PATCH) with false.
      change (2 =? RAW) with true. cbv iota.
      rewrite <- !app_assoc, get_put_varint by lia. rewrite reserve_ok by lia.
      apply delta_take_app.
Qed.

Lemma decode_put_segments news olds out :
  length news = length olds -> zlen out + zlen (concat news) <= MAX_RECONSTRUCTED_FRAME_BYTES ->
  decode_segments decompress_with olds (put_segments compress_against news olds) out =
    Some (out ++ concat news).
Proof.
  revert olds out. induction news as [|new news IH]; intros [|old olds] out Hl Hmax; try done.
  - cbn. by rewrite app_nil_r.
  - cbn [concat] in *. rewrite zlen_app in Hmax. pose proof (zlen_nonneg out).
    pose proof (zlen_nonneg (concat news)). cbn [put_segments decode_segments].
    rewrite decode_put_segment by lia. cbn in Hl.
    rewrite IH by (rewrite ?zlen_app; lia). by rewrite <- app_assoc.
Qed.
End Segment.
