(* ===== verification/SegmentDeltaMain.v ===== *)
(** * Snapshot deltas: properties

    Whatever the host sends for a frame, the client that has the baseline reconstructs the frame
    exactly; and whatever a peer sends, decoding never builds more than the permitted size. *)

From S2P Require Export SegmentDeltaProofs.

(** ** The base cut into segments *)

Lemma slices_from_concat segs (pre : list byte) bytes :
  bytes = pre ++ concat segs -> zlen bytes <= usize_max ->
  slices_from bytes (zlen pre) (map zlen segs) = Some segs.
Proof.
  revert pre. induction segs as [|s segs IH]; intros pre -> Hmax; cbn [map slices_from concat] in *.
  - by rewrite app_nil_r, Z.eqb_refl.
  - rewrite !zlen_app in Hmax. pose proof (zlen_nonneg (concat segs)).
    unfold checked_add_usize. rewrite (proj2 (Z.leb_le _ _)) by lia.
    rewrite !zlen_app, (proj2 (Z.ltb_ge _ _)) by lia.
    rewrite <- (zlen_app pre s), (IH (pre ++ s)) by (rewrite ?zlen_app, <- ?app_assoc; (done || lia)).
    by rewrite zlen_app, slice_mid.
Qed.

Lemma segment_slices_concat segs :
  zlen (concat segs) <= usize_max -> segment_slices (concat segs) (map zlen segs) = Some segs.
Proof. intros H. by apply (slices_from_concat segs []). Qed.

Lemma slices_from_inv bytes at_ lens segs :
  Forall is_u32 lens -> 0 <= at_ -> slices_from bytes at_ lens = Some segs ->
  concat segs = zdrop at_ bytes /\ map zlen segs = lens.
Proof.
  intros Hlens. revert at_ segs. induction Hlens as [|len lens Hl Hlens IH]; intros at_ segs Ha;
    cbn [slices_from].
  - destruct (Z.eqb_spec at_ (zlen bytes)) as [->|]; [|done]. intros [= <-]. split; [|done].
    unfold zdrop, zlen. by rewrite Nat2Z.id, drop_all.
  - unfold checked_add_usize. destruct (_ <=? _); [|done].
    destruct (Z.ltb_spec (zlen bytes) (at_ + len)) as [|Hle]; [done|].
    destruct (slices_from bytes (at_ + len) lens) as [rest|] eqn:E; [|done]. intros [= <-].
    unfold is_u32 in Hl. destruct (IH (at_ + len) rest ltac:(lia) E) as [H1 <-].
    cbn [concat map]. rewrite zlen_slice, H1 by lia. split; [|f_equal; lia].
    unfold slice, ztake, zdrop. replace (Z.to_nat (at_ + len)) with (Z.to_nat at_ + Z.to_nat len)%nat by lia.
    rewrite <- drop_drop. replace (at_ + len - at_) with len by lia. apply take_drop.
Qed.

(** ** Encoding with the cache *)

Lemma put_segments_app c n1 n2 o1 o2 :
  length n1 = length o1 ->
  put_segments c (n1 ++ n2) (o1 ++ o2) = put_segments c n1 o1 ++ put_segments c n2 o2.
Proof.
  revert o1. induction n1 as [|n n1 IH]; intros [|o o1] Hl; try done.
  cbn in *. rewrite IH by lia. by rewrite app_assoc.
Qed.

Lemma length_wm_segments_from m n index l : wm_segments_from m n index = Some l -> length l = n.
Proof.
  revert index l. induction n as [|n IH]; intros index l; cbn [wm_segments_from]; [by intros [= <-]|].
  destruct (wm_segment m index); [|done].
  destruct (wm_segments_from m n (S index)) as [rest|] eqn:E; [|done].
  intros [= <-]. cbn. by rewrite (IH _ _ E).
Qed.

Section Frames.
Context (heap : Z -> WireMeta).
Context (compress_against : list byte -> list byte -> option (list byte)).

(** A frame and its segments. *)
Lemma segments_split p segs :
  segments heap p = Some segs ->
  exists meta, wm_segments (heap (fp_meta p)) = Some meta /\ length meta = 11%nat /\
    segs = [fp_head p] ++ meta ++ [fp_world_objects p; fp_tail p].
Proof.
  unfold segments. destruct (wm_segments _) as [meta|] eqn:E; [|done]. intros [= <-].
  exists meta. split; [done|]. split; [|done]. by apply length_wm_segments_from in E.
Qed.

(** Every cached patch is the patch of its two metas. *)
Definition cache_sound (cache : MetaPatchCache) : Prop :=
  forall n o patch, (n, o, patch) ∈ mc_entries cache ->
    exists ns os, wm_segments (heap n) = Some ns /\ wm_segments (heap o) = Some os /\
      patch = put_segments compress_against ns os.

Lemma delta_encode_segments new old cache news olds :
  cache_sound cache -> segments heap new = Some news -> segments heap old = Some olds ->
  exists cache', delta_encode heap compress_against new old cache =
      Some (put_segments compress_against news olds, cache') /\ cache_sound cache'.
Proof.
  intros Hc Hn Ho. unfold delta_encode. rewrite Hn, Ho.
  destruct (segments_split _ _ Hn) as (nm & Hnm & Hnl & ->).
  destruct (segments_split _ _ Ho) as (om & Hom & Hol & ->).
  assert (forall (h : list byte) m t, length m = 11%nat ->
    take (Z.to_nat META_BODY_SEGMENTS) (drop 1 ([h] ++ m ++ t)) = m) as Hbody.
  { intros h m t Hm. cbn [app drop]. change (Z.to_nat META_BODY_SEGMENTS) with 11%nat.
    rewrite <- Hm. apply take_app_length. }
  assert (forall (h : list byte) m t, length m = 11%nat ->
    drop (Z.to_nat META_SEGMENTS) ([h] ++ m ++ t) = t) as Hrest.
  { intros h m t Hm. change (Z.to_nat META_SEGMENTS) with 12%nat. cbn [app drop].
    rewrite <- Hm. apply drop_app_length. }
  rewrite !Hbody, !Hrest by done. cbn [app take].
  change (fp_head new :: nm ++ [fp_world_objects new; fp_tail new])
    with ([fp_head new] ++ nm ++ [fp_world_objects new; fp_tail new]).
  change (fp_head old :: om ++ [fp_world_objects old; fp_tail old])
    with ([fp_head old] ++ om ++ [fp_world_objects old; fp_tail old]).
  rewrite (put_segments_app _ [fp_head new] _ [fp_head old]), (put_segments_app _ nm _ om) by
    (done || congruence).
  destruct (cached_patch cache (fp_meta new) (fp_meta old)) as [patch|] eqn:Hp.
  - unfold cached_patch in Hp. destruct (find _ _) as [[[n o] q]|] eqn:Hf; [|done].
    injection Hp as ->. apply find_some in Hf as [Hin%list_elem_of_In Heq]. cbn in Heq.
    apply andb_true_iff in Heq as [->%Z.eqb_eq ->%Z.eqb_eq].
    destruct (Hc _ _ _ Hin) as (ns & os & H1 & H2 & ->).
    rewrite Hnm in H1. rewrite Hom in H2. injection H1 as <-. injection H2 as <-.
    exists cache. done.
  - eexists. split; [done|]. intros n o patch. cbn [mc_entries].
    rewrite elem_of_app, list_elem_of_singleton. intros [Hin|[= -> -> ->]]; eauto.
Qed.
End Frames.

(** ** Decoding within bounds *)

Section Bounds.
Context (decompress_with : list byte -> list byte -> Z -> option (list byte)).

Lemma zlen_splice out a bytes out' : 0 <= a -> splice out a bytes = Some out' -> zlen out' = zlen out.
Proof.
  unfold splice. destruct (Z.ltb_spec (zlen out) (a + zlen bytes)); [done|]. intros Ha [= <-].
  unfold ztake, zdrop, zlen in *. rewrite !length_app, length_take, length_drop. lia.
Qed.

Lemma get_varint_from_range turns shift value input v rest :
  0 <= value -> get_varint_from turns shift value input = Some (v, rest) -> 0 <= v.
Proof.
  revert shift value input. induction turns as [|turns IH]; intros shift value input Hv;
    cbn [get_varint_from]; [done|]. destruct input as [|b input]; [done|].
  assert (0 <= Z.lor value (Z.shiftl (Z.land (byte_val b) 127) shift)).
  { apply Z.lor_nonneg. split; [done|]. apply Z.shiftl_nonneg, Z.land_nonneg. lia. }
  destruct (_ =? _); [by intros [= <- _]|]. by apply IH.
Qed.

Lemma get_varint_range input v rest : get_varint input = Some (v, rest) -> 0 <= v.
Proof. apply get_varint_from_range. lia. Qed.

Lemma zlen_apply_patch fuel runs input seg a seg' input' :
  0 <= a -> apply_patch fuel runs input seg a = Some (seg', input') -> zlen seg' = zlen seg.
Proof.
  revert runs input seg a. induction fuel as [|fuel IH]; intros runs input seg a Ha;
    cbn [apply_patch]; destruct (runs <=? 0); try done; [by intros [= <- _]..|].
  destruct (get_varint input) as [[skip i1]|] eqn:E1; [|done]. apply get_varint_range in E1.
  destruct (checked_add_usize a skip) as [a1|] eqn:E2; [|done].
  destruct (get_varint i1) as [[len i2]|] eqn:E3; [|done]. apply get_varint_range in E3.
  destruct (delta_take i2 len) as [[bytes i3]|]; [|done].
  destruct (checked_add_usize a1 len) as [e|] eqn:E4; [|done].
  unfold checked_add_usize in E2, E4. destruct (_ <=? _) in E2; [|done]. destruct (_ <=? _) in E4; [|done].
  injection E2 as <-. injection E4 as <-.
  destruct (splice seg (a + skip) bytes) as [seg1|] eqn:E5; [|done].
  intros H. apply IH in H; [|lia]. apply zlen_splice in E5; lia.
Qed.

Lemma decode_segment_bound old input len seg rest :
  decode_segment decompress_with old input len = Some (seg, rest) ->
  len + zlen seg <= MAX_RECONSTRUCTED_FRAME_BYTES.
Proof.
  unfold decode_segment. destruct input as [|tag input]; [done|]. cbv zeta.
  destruct (_ =? SAME).
  { destruct (reserve_output _ _) eqn:E; [|done]. intros [= <- _]. by eapply reserve_bound. }
  destruct (_ =? PATCH).
  { destruct (reserve_output _ _) eqn:E; [|done]. apply reserve_bound in E.
    destruct (get_varint input) as [[runs i1]|]; [|done].
    intros H. apply zlen_apply_patch in H; lia. }
  destruct (_ =? RAW).
  { destruct (get_varint input) as [[n i1]|] eqn:En; [|done]. apply get_varint_range in En.
    destruct (reserve_output _ _) eqn:E; [|done]. apply reserve_bound in E.
    unfold delta_take, ztake, zlen in *. destruct (_ <? _); [done|]. intros [= <- _].
    rewrite length_take. lia. }
  destruct (_ =? PREFIXED); [|done].
  destruct (get_varint input) as [[n i1]|]; [|done].
  destruct (get_varint i1) as [[m i2]|]; [|done].
  destruct (delta_take i2 m) as [[packed i3]|]; [|done].
  destruct (reserve_output _ _) eqn:E; [|done]. apply reserve_bound in E.
  destruct (decompress_with old packed n) as [got|]; [|done].
  destruct (Z.eqb_spec (zlen got) n); [|done]. cbn [negb]. intros [= <- _]. lia.
Qed.

Lemma decode_segments_bound olds input out out' :
  zlen out <= MAX_RECONSTRUCTED_FRAME_BYTES ->
  decode_segments decompress_with olds input out = Some out' ->
  zlen out' <= MAX_RECONSTRUCTED_FRAME_BYTES.
Proof.
  revert input out. induction olds as [|old olds IH]; intros input out Hb; cbn [decode_segments].
  - destruct (_ =? _); [by intros [= <-]|done].
  - destruct (decode_segment _ _ _ _) as [[seg rest]|] eqn:E; [|done].
    apply decode_segment_bound in E. apply IH. rewrite zlen_app. lia.
Qed.
End Bounds.

(** ** The properties *)

(** The payloads of one tick: each peer's frame against its baseline, sharing the patch cache. *)
Fixpoint tick_payloads (heap : Z -> WireMeta)
    (compress_against : list byte -> list byte -> option (list byte))
    (zstd_compress : list byte -> option (list byte)) (cache : MetaPatchCache)
    (peers : list (FrameParts * FrameParts)) : option (list SnapshotPayload) :=
  match peers with
  | [] => Some []
  | (new, old) :: peers =>
      match delta_encode heap compress_against new old cache, to_raw heap new with
      | Some (delta, cache), Some raw =>
          cons (against_baseline zstd_compress delta raw)
            <$> tick_payloads heap compress_against zstd_compress cache peers
      | _, _ => None
      end
  end.

(** A frame the host sends: its metadata is well formed and it has at most the size the host
    checks before sending. *)
Definition sendable (heap : Z -> WireMeta) (p : FrameParts) (segs : list (list byte)) : Prop :=
  segments heap p = Some segs /\ zlen (concat segs) <= MAX_RECONSTRUCTED_FRAME_BYTES.

Lemma length_segments heap p segs : segments heap p = Some segs -> length segs = 14%nat.
Proof. intros (meta & _ & Hm & ->)%segments_split. rewrite !length_app, Hm. done. Qed.

Lemma payload_reconstructs heap ca dw zc zd `{!PrefixCodec ca dw} `{!BulkCodec zc zd}
    new old news olds :
  sendable heap new news -> sendable heap old olds ->
  payload_decode dw zd (against_baseline zc (put_segments ca news olds) (concat news))
    (Some (concat olds, map zlen olds)) = Some (concat news).
Proof.
  intros [Hn Hnmax] [Ho Homax]. set (delta := put_segments ca news olds).
  assert (payload_decode dw zd (Plain (concat news)) (Some (concat olds, map zlen olds)) =
    Some (concat news)) as Hplain by (cbn; by rewrite (proj2 (Z.leb_le _ _))).
  unfold against_baseline, delta_compress.
  destruct (Z.ltb_spec MAX_DELTA_INSTRUCTION_BYTES (zlen delta)) as [|Hdelta]; [done|].
  destruct (zc delta) as [packed|] eqn:Hpacked; [|done].
  destruct (Z.leb_spec (zlen packed) MAX_PACKET_BYTES) as [Hp|]; [|done].
  pose proof (zlen_nonneg delta). unfold payload_decode, delta_decompress.
  unfold MAX_DELTA_INSTRUCTION_BYTES, MAX_RECONSTRUCTED_FRAME_BYTES in *.
  assert (wrap32 (zlen delta) = zlen delta) as -> by ilia.
  rewrite (proj2 (Z.ltb_ge (256 * 1024) (zlen delta))), (proj2 (Z.ltb_ge MAX_PACKET_BYTES _)) by lia.
  cbn [orb]. rewrite (bulk_roundtrip _ _ Hpacked), Z.eqb_refl. cbn [negb].
  unfold delta_decode. unfold MAX_DELTA_INSTRUCTION_BYTES, MAX_RECONSTRUCTED_FRAME_BYTES.
  rewrite (proj2 (Z.ltb_ge (256 * 1024) (zlen delta))), (proj2 (Z.ltb_ge (256 * 1024) (zlen (concat olds)))) by lia.
  cbn [orb]. rewrite segment_slices_concat by ilia. unfold delta.
  rewrite (decode_put_segments ca dw); [done| |unfold MAX_RECONSTRUCTED_FRAME_BYTES; rewrite zlen_nil; lia].
  by rewrite (length_segments _ _ _ Hn), (length_segments _ _ _ Ho).
Qed.

(** C31. Every peer that has the baseline its snapshot was encoded against reconstructs the
    host's frame byte for byte, whichever way each segment went out (unchanged, patched,
    compressed against the old one, raw), whether or not its patch came from the cache shared
    between peers, and whether the delta or, when it cannot be compressed small enough, the
    whole frame was sent. *)
Theorem snapshots_reconstructed heap ca dw zc zd `{!PrefixCodec ca dw} `{!BulkCodec zc zd}
    (peers : list (FrameParts * FrameParts)) (news olds : list (list (list byte))) :
  Forall2 (fun peer segs => sendable heap peer.1 segs) peers news ->
  Forall2 (fun peer segs => sendable heap peer.2 segs) peers olds ->
  exists payloads, tick_payloads heap ca zc cache_new peers = Some payloads /\
    Forall2 (fun payload frame =>
      payload_decode dw zd payload (Some (concat frame.2, map zlen frame.2)) = Some (concat frame.1))
      payloads (zip news olds).
Proof.
  assert (cache_sound heap ca cache_new) as Hc by (intros n o patch []%not_elem_of_nil).
  revert Hc. generalize cache_new. intros cache Hc Hnews. revert olds cache Hc.
  induction Hnews as [|[new old] ns peers news Hn Hnews IH]; intros olds cache Hc Holds.
  - exists []. by split; [|apply Forall2_nil_2].
  - apply Forall2_cons_inv_l in Holds as (os & olds' & Ho & Holds & ->). cbn [fst snd] in Hn, Ho.
    destruct (delta_encode_segments heap ca new old cache ns os Hc (proj1 Hn) (proj1 Ho))
      as (cache' & Henc & Hc').
    destruct (IH olds' cache' Hc' Holds) as (payloads & Hrun & Hall).
    exists (against_baseline zc (put_segments ca ns os) (concat ns) :: payloads).
    cbn [tick_payloads]. rewrite Henc. unfold to_raw. rewrite (proj1 Hn). cbn [fmap option_fmap option_map].
    rewrite Hrun. split; [done|]. constructor; [|done]. cbn [fst snd].
    by apply (payload_reconstructs heap ca dw zc zd new old).
Qed.

(** Whatever payload a peer sends, whatever the decompressor makes of it, a decoded snapshot
    is never larger than [MAX_RECONSTRUCTED_FRAME_BYTES]; a delta is decoded only against a
    baseline, only when its length is the announced one and within the instruction budget, and
    only when the announced segment lengths cut the baseline exactly into pieces. *)
Theorem decoded_snapshot_bounded dw zd (p : SnapshotPayload) baseline frame :
  payload_decode dw zd p baseline = Some frame ->
  zlen frame <= MAX_RECONSTRUCTED_FRAME_BYTES /\
  match p with
  | Plain payload => frame = payload
  | AgainstBaseline len compressed =>
      exists base lens delta, baseline = Some (base, lens) /\ zd compressed len = Some delta /\
        zlen delta = len /\ len <= MAX_DELTA_INSTRUCTION_BYTES /\
        (Forall is_u32 lens -> exists olds, base = concat olds /\ map zlen olds = lens)
  end.
Proof.
  destruct p as [payload|len compressed]; cbn [payload_decode].
  { destruct (Z.leb_spec (zlen payload) MAX_RECONSTRUCTED_FRAME_BYTES); [|done]. by intros [= <-]. }
  destruct baseline as [[base lens]|]; [|done]. unfold delta_decompress.
  destruct (_ || _) eqn:E1; [done|]. destruct (zd compressed len) as [delta|] eqn:E2; [|done].
  destruct (Z.eqb_spec (zlen delta) len) as [E3|]; [|done]. cbn [negb]. unfold delta_decode.
  destruct (_ || _) in |- *; [done|]. destruct (segment_slices base lens) as [olds|] eqn:E4; [|done].
  intros H. split.
  - apply decode_segments_bound in H; [done|]. by vm_compute.
  - exists base, lens, delta. split_and!; [done|done|done|lia|]. intros Hlens. exists olds.
    pose proof (zlen_nonneg base). apply slices_from_inv in E4 as [E5 E6]; [|done|lia].
    split; [by rewrite E5|done].
Qed.

(** A compressor that stores its input, for the instances below. *)
Definition store (new old : list byte) : option (list byte) := Some new.
Definition unstore (old packed : list byte) (capacity : Z) : option (list byte) := Some packed.

#[local] Instance store_codec : PrefixCodec store unstore.
Proof.
  split; unfold store, unstore; [by intros new old packed [= <-]|].
  intros new old packed [= <-]. pose proof (zlen_nonneg new). Z.to_euclidean_division_equations. lia.
Qed.

#[local] Instance store_bulk : BulkCodec Some (fun packed _ => Some packed).
Proof. split. by intros delta packed [= <-]. Qed.

Definition demo_heap (a : Z) : WireMeta :=
  mkWireMeta (if a =? 1 then bs "abcdefghijk" else bs "abcdefghijX") [1; 2; 3; 4; 5; 6; 7; 8; 9; 10; 11].

Definition demo_old : FrameParts := mkParts (bs "head") 1 (bs "objects") (bs "tail").
Definition demo_new : FrameParts := mkParts (bs "haad") 2 (bs "object") (bs "tail").

Lemma snapshots_reconstructed_witness :
  exists news olds payloads,
    tick_payloads demo_heap store Some cache_new [(demo_new, demo_old); (demo_new, demo_old)] =
      Some payloads /\
    Forall2 (fun payload frame =>
      payload_decode unstore (fun packed _ => Some packed) payload
        (Some (concat frame.2, map zlen frame.2)) = Some (concat frame.1)) payloads (zip news olds) /\
    length payloads = 2%nat.
Proof.
  destruct (segments demo_heap demo_new) as [n|] eqn:Hn; [|discriminate].
  destruct (segments demo_heap demo_old) as [o|] eqn:Ho; [|discriminate].
  assert (sendable demo_heap demo_new n /\ sendable demo_heap demo_old o) as [Sn So].
  { split; (split; [done|]); vm_compute in Hn, Ho; injection Hn as <-; injection Ho as <-;
      vm_compute; discriminate. }
  destruct (snapshots_reconstructed demo_heap store unstore Some (fun packed _ => Some packed)
    [(demo_new, demo_old); (demo_new, demo_old)] [n; n] [o; o]) as (payloads & Hrun & Hall).
  - constructor; [exact Sn|constructor; [exact Sn|constructor]].
  - constructor; [exact So|constructor; [exact So|constructor]].
  - exists [n; n], [o; o], payloads. split; [exact Hrun|]. split; [exact Hall|].
    apply Forall2_length in Hall. exact Hall.
Defined.

Lemma decoded_snapshot_bounded_witness : zlen (bs "frame") <= MAX_RECONSTRUCTED_FRAME_BYTES.
Proof.
  exact (proj1 (decoded_snapshot_bounded unstore (fun packed _ => Some packed) (Plain (bs "frame")) None
    (bs "frame") eq_refl)).
Defined.
