(* ===== verification/MasterGate.v ===== *)
(** * The relay gate of the master

    [RelayGate], [fragment_header] and [relay_datagram] of crates/iw4l-master/src/main.rs: what
    the master does with a datagram between two members.  Gameplay packets arrive as fragments
    (see [Fragment]); when the receiver's datagram buffer is full the gate sheds whole packets
    instead of single fragments. *)

From S2P Require Export MasterService Fragment.

Definition DATAGRAM_SEND_BUFFER : Z := 128 * 1024.
Definition RELAY_BACKLOG_BYTES : Z := 16 * 1024.

Record RelayGate : Type := mkGate { rg_shedding : option Z }.

Definition gate_default : RelayGate := mkGate None.

(** [fragment_header]: index, count and packet id of a payload that is a fragment. *)
Definition fragment_header (payload : list byte) : option (Z * Z * Z) :=
  if zlen payload <? 12 then None
  else
    let header := ztake 12 payload in
    if negb (bool_decide (slice header 0 3 = bs "RF" ++ [byte_of 2])) then None
    else Some (le_val (slice header 4 6), le_val (slice header 6 8), le_val (slice header 8 12)).

(** [RelayGate::admit]; [space] is what the target's datagram send buffer has left. *)
Definition gate_admit (gate : RelayGate) (payload : list byte) (space wire_bytes : Z)
    : RelayGate * bool :=
  match fragment_header payload with
  | None => (gate, true)
  | Some (index, count, packet_id) =>
      if negb (index =? 0) then (gate, negb (bool_decide (rg_shedding gate = Some packet_id)))
      else
        let queued := saturating_sub DATAGRAM_SEND_BUFFER space in
        let admitted := (queued <? wire_bytes) ||
                        (queued + wire_bytes * count <=? RELAY_BACKLOG_BYTES) in
        (mkGate (if admitted then None else Some packet_id), admitted)
  end.

(** [relay_datagram]: route, then ask the gate; the datagram to send, if it is not shed.
    [space] is the buffer space of a connection. *)
Definition relay_datagram {Conn Sender} (s : ServiceState Conn Sender) (c : Z) (bytes : list byte)
    (gate : RelayGate) (space : Conn -> Z) : Result RouteError (RelayGate * option (Conn * list byte)) :=
  relay ← as_encoded (decode_relay bytes);
  '(target, outgoing) ← route_target s c relay;
  let '(gate, admitted) := gate_admit gate (relay_payload relay) (space target) (zlen outgoing) in
  Ok (gate, if admitted then Some (target, outgoing) else None).

(** ** A connection's datagrams, one after the other *)

(** A payload, the target's buffer space when it is relayed, and its bytes on the wire. *)
Record Arrival : Type := mkArrival { ar_payload : list byte; ar_space : Z; ar_wire_bytes : Z }.

Fixpoint gate_run (gate : RelayGate) (arrivals : list Arrival) : list bool :=
  match arrivals with
  | [] => []
  | a :: rest =>
      let '(gate, admitted) := gate_admit gate (ar_payload a) (ar_space a) (ar_wire_bytes a) in
      admitted :: gate_run gate rest
  end.

Definition is_fragment (payload : list byte) : bool :=
  match fragment_header payload with Some _ => true | None => false end.

(** ** Proofs *)

Lemma fragment_header_own index count id total payload :
  is_u16 index -> is_u16 count -> is_u32 id ->
  fragment_header (fragment_bytes index count id total payload) = Some (index, count, id).
Proof.
  intros Hi Hc Hid. unfold fragment_header. rewrite zlen_fragment_bytes.
  pose proof (zlen_nonneg payload). unfold FRAGMENT_HEADER_BYTES.
  rewrite (proj2 (Z.ltb_ge _ _)) by lia. cbv zeta.
  set (i2 := le_bytes 2 (wrap16 index)). set (c2 := le_bytes 2 (wrap16 count)).
  set (d4 := le_bytes 4 id).
  set (h := bs "RF" ++ [byte_of FRAGMENT_VERSION] ++ [byte_of 0]).
  assert (zlen h = 4 /\ zlen i2 = 2 /\ zlen c2 = 2 /\ zlen d4 = 4) as (Hh & Hi2 & Hc2 & Hd4)
    by (subst h i2 c2 d4; by rewrite !zlen_le_bytes).
  assert (ztake 12 (fragment_bytes index count id total payload) = h ++ i2 ++ c2 ++ d4) as ->.
  { unfold fragment_bytes, FRAGMENT_MAGIC.
    replace (bs "RF" ++ _) with ((h ++ i2 ++ c2 ++ d4) ++ (le_bytes 4 total ++ payload))
      by (subst h; by rewrite <- !app_assoc).
    unfold ztake. apply take_app_length'. rewrite !length_app. unfold zlen in *. lia. }
  assert (slice (h ++ i2 ++ c2 ++ d4) 0 3 = bs "RF" ++ [byte_of 2]) as -> by done.
  rewrite bool_decide_eq_true_2 by done. cbn [negb].
  rewrite (slice_at _ h i2 (c2 ++ d4) 4 6) by (done || lia).
  rewrite (slice_at _ (h ++ i2) c2 d4 6 8) by (rewrite ?zlen_app, <- ?app_assoc; (done || lia)).
  rewrite (slice_at _ (h ++ i2 ++ c2) d4 [] 8 12)
    by (rewrite ?zlen_app, <- ?app_assoc, ?app_nil_r; (done || lia)).
  subst i2 c2 d4. unfold wrap16. rewrite (Z.mod_small index), (Z.mod_small count) by ilia.
  by rewrite !le_val_bytes by (cbn; ilia).
Qed.

(** The decision [admit] takes on a packet's first fragment. *)
Definition fits_backlog (a : Arrival) (count : Z) : bool :=
  let queued := saturating_sub DATAGRAM_SEND_BUFFER (ar_space a) in
  (queued <? ar_wire_bytes a) || (queued + ar_wire_bytes a * count <=? RELAY_BACKLOG_BYTES).

Lemma gate_run_rest gate arrivals count id (b : bool) :
  (rg_shedding gate = Some id <-> b = false) ->
  (forall a, a ∈ arrivals -> is_fragment (ar_payload a) = true ->
     exists index, index <> 0 /\ fragment_header (ar_payload a) = Some (index, count, id)) ->
  gate_run gate arrivals = map (fun a => if is_fragment (ar_payload a) then b else true) arrivals.
Proof.
  intros Hg. induction arrivals as [|a rest IH]; intros Hall; [done|].
  cbn [gate_run map]. specialize (IH (fun a Ha => Hall a (list_elem_of_further _ _ _ Ha))).
  destruct (is_fragment (ar_payload a)) eqn:Hf.
  - destruct (Hall a (list_elem_of_here _ _) Hf) as (index & Hi & Hh).
    unfold gate_admit. rewrite Hh, (proj2 (Z.eqb_neq _ _)) by done. cbn [negb]. rewrite IH. f_equal.
    destruct b; [rewrite bool_decide_eq_false_2|rewrite bool_decide_eq_true_2]; try done.
    + intros H. by apply Hg in H.
    + by apply Hg.
  - unfold gate_admit. unfold is_fragment in Hf. destruct (fragment_header _); [done|]. by rewrite IH.
Qed.

Lemma gate_run_whole gate arrivals count id frags :
  map ar_payload (filter (fun a => is_fragment (ar_payload a) = true) arrivals) = frags ->
  (forall i g, frags !! i = Some g -> fragment_header g = Some (Z.of_nat i, count, id)) ->
  frags <> [] ->
  exists first, first ∈ arrivals /\ head frags = Some (ar_payload first) /\
    gate_run gate arrivals =
      map (fun a => if is_fragment (ar_payload a) then fits_backlog first count else true) arrivals.
Proof.
  revert gate. induction arrivals as [|a rest IH]; intros gate Hf Hh Hne.
  { cbn in Hf. by subst frags. }
  rewrite filter_cons in Hf. destruct (is_fragment (ar_payload a)) eqn:Ha.
  - rewrite decide_True in Hf by done. cbn [map] in Hf. subst frags. exists a.
    split; [by left|]. split; [done|]. cbn [gate_run map]. rewrite Ha.
    pose proof (Hh 0%nat _ eq_refl) as Hfirst. unfold gate_admit at 1. rewrite Hfirst. cbn [negb Z.eqb].
    change (Z.of_nat 0 =? 0) with true. cbn [negb]. fold (fits_backlog a count). f_equal.
    apply (gate_run_rest _ _ count id).
    { cbn [rg_shedding]. by destruct (fits_backlog a count). }
    intros a' Hin Hfrag.
    assert (ar_payload a' ∈ map ar_payload (filter (fun a => is_fragment (ar_payload a) = true) rest))
      as (i & Hi)%list_elem_of_lookup by (apply list_elem_of_fmap_2, list_elem_of_filter; done).
    exists (Z.of_nat (S i)). split; [lia|]. by apply (Hh (S i)).
  - rewrite decide_False in Hf by done.
    destruct (IH gate Hf Hh Hne) as (first & Hin & Hhead & Hrun).
    exists first. split; [by right|]. split; [done|]. cbn [gate_run map]. rewrite Ha.
    unfold gate_admit. unfold is_fragment in Ha. destruct (fragment_header _); [done|]. by rewrite Hrun.
Qed.

(** Whole packets, never parts: when a sender's packet comes through as its fragments, in
    order and with any datagrams that are no fragments in between, the master relays either
    every fragment of it or none, whatever the gate did before and however the target's buffer
    fills meanwhile; the decision is taken on the first fragment, by the backlog rule; and
    datagrams that are no fragments always pass. *)
Theorem gate_sheds_whole_packets f bytes f' frags gate arrivals :
  0 < fr_payload_bytes f -> is_u32 (fr_next_id f) -> split f bytes = (f', Ok frags) ->
  map ar_payload (filter (fun a => is_fragment (ar_payload a) = true) arrivals) = frags ->
  exists first, first ∈ arrivals /\ head frags = Some (ar_payload first) /\
    gate_run gate arrivals =
      map (fun a => if is_fragment (ar_payload a) then fits_backlog first (zlen frags) else true)
        arrivals.
Proof.
  intros Hp Hid Hsplit Hfilter. destruct (split_ok _ _ _ _ Hp Hsplit) as (Hlen & Hc & Hn & Hl).
  apply (gate_run_whole gate arrivals (zlen frags) (fr_next_id f) frags Hfilter).
  - intros i g Hg. pose proof Hg as Hi. apply lookup_lt_Some in Hi. rewrite Hl in Hg.
    destruct (chunks (fr_payload_bytes f) bytes !! i) as [c|]; [|done]. injection Hg as <-.
    rewrite <- Hn. unfold MAX_FRAGMENTS in Hc. unfold zlen in *.
    apply fragment_header_own; (done || ilia).
  - intros ->. rewrite zlen_nil in Hn.
    pose proof (div_ceil_pos (zlen bytes) (fr_payload_bytes f) Hp ltac:(lia)). lia.
Qed.

Lemma gate_sheds_whole_packets_witness :
  gate_run gate_default
    [mkArrival (demo_frag 0 (bs "he")) 110000 60; mkArrival (bs "voice") 0 60;
     mkArrival (demo_frag 1 (bs "ll")) 131072 60; mkArrival (demo_frag 2 (bs "o")) 131072 60]
  = [false; true; false; false].
Proof.
  destruct (gate_sheds_whole_packets (mkFragmenter (payload_bytes_of 18) 100 7) (bs "hello")
    (mkFragmenter 2 100 8) demo_frags gate_default
    [mkArrival (demo_frag 0 (bs "he")) 110000 60; mkArrival (bs "voice") 0 60;
     mkArrival (demo_frag 1 (bs "ll")) 131072 60; mkArrival (demo_frag 2 (bs "o")) 131072 60])
    as (first & Hin & Hhead & Hrun).
  - reflexivity.
  - vm_compute. split; discriminate.
  - vm_compute. reflexivity.
  - vm_compute. reflexivity.
  - rewrite Hrun. clear Hrun.
    rewrite !elem_of_cons, elem_of_nil in Hin.
    destruct_or! Hin; subst; try done; vm_compute; reflexivity.
Defined.
