(* ===== verification/ActionWire.v ===== *)
(** * Client actions and their wire form

    [ClientAction] and [action_request_id] of crates/sim/src/input.rs, [encode_action],
    [decode_action] and the lists of actions of crates/net/src/transport/meta_wire.rs.  Arrays
    are lists of their length, floats their 32 bits. *)

From S2P Require Export Wire.

#[local] Open Scope Z_scope.

Definition CHAT_BYTES : Z := 150.
Definition MENU_RESPONSE_BYTES : Z := 48.

Inductive SimMatchPhase : Type := Warmup | Playing | Intermission | PostGame.

Record PersonalClass : Type := mkPersonalClass {
  lo_weapons : list Z; lo_perks : list Z; lo_deathstreak : Z; lo_camos : list Z }.

Record PlayerProfile : Type := mkProfile {
  pp_title : Z; pp_emblem : Z; pp_killstreaks : list Z }.

Inductive SpawnPick : Type :=
| Seeded (seed : Z)
| SpawnAt (origin : list Z) (yaw : Z).

Inductive ClientAction : Type :=
| ActJoinMatch (request_id : Z)
| ActLeaveMatch (request_id : Z)
| ActSelectClass (request_id class_id revision : Z) (loadout : PersonalClass)
| ActGiveWeapon (request_id weapon model : Z)
| ActChangeWeaponCamo (request_id weapon model : Z)
| ActChangeWeaponConfiguration (request_id from to : Z)
| ActForceDeath (request_id : Z)
| ActSpawnClient (request_id : Z)
| ActForceSpawn (request_id : Z) (pick : SpawnPick)
| ActSpawnIntermission (request_id : Z)
| ActSetMatchPhase (request_id : Z) (phase : SimMatchPhase)
| ActMove (request_id : Z) (origin angles : list Z)
| ActBeginScriptMoverRotateVelocity (request_id speed : Z)
| ActToggleGod (request_id : Z)
| ActDebugDamage (request_id amount : Z)
| ActSetProfile (request_id : Z) (profile : PlayerProfile)
| ActSetName (request_id : Z) (name : list byte)
| ActChat (request_id : Z) (team_only : bool) (text : list byte)
| ActUseCopycat (request_id : Z)
| ActActionSlot (request_id slot : Z)
| ActChooseDefaultClass (request_id index : Z)
| ActMenuResponse (request_id : Z) (menu response : list byte)
| ActResupplyAmmo (request_id : Z)
| ActGiveKillstreak (request_id : Z) (name : list byte).

Definition action_request_id (action : ClientAction) : Z :=
  match action with
  | ActJoinMatch r | ActLeaveMatch r | ActSelectClass r _ _ _ | ActGiveWeapon r _ _
  | ActChangeWeaponCamo r _ _ | ActChangeWeaponConfiguration r _ _ | ActForceDeath r
  | ActSpawnClient r | ActForceSpawn r _ | ActSpawnIntermission r | ActSetMatchPhase r _
  | ActMove r _ _ | ActBeginScriptMoverRotateVelocity r _ | ActToggleGod r | ActDebugDamage r _
  | ActSetName r _ | ActSetProfile r _ | ActChat r _ _ | ActUseCopycat r | ActActionSlot r _
  | ActChooseDefaultClass r _ | ActMenuResponse r _ _ | ActGiveKillstreak r _
  | ActResupplyAmmo r => r
  end.

(** ** Encoding *)

Definition put_u8s (xs : list Z) : list byte := concat (map put_u8 xs).
Definition put_u32s (xs : list Z) : list byte := concat (map put_u32 xs).
Definition put_f32s (xs : list Z) : list byte := concat (map put_f32 xs).

Definition phase_tag (phase : SimMatchPhase) : Z :=
  match phase with Warmup => 0 | Playing => 1 | Intermission => 2 | PostGame => 3 end.

Definition encode_spawn_pick (pick : SpawnPick) : list byte :=
  match pick with
  | Seeded seed => put_u8 0 ++ put_u32 (wrap32 seed) ++ put_u32 (wrap32 (Z.shiftr seed 32))
  | SpawnAt origin yaw => put_u8 1 ++ put_f32s origin ++ put_f32 yaw
  end.

Definition put_audience (team_only : bool) : list byte := put_u8 (if team_only then 1 else 0).

Definition encode_action (action : ClientAction) : list byte :=
  match action with
  | ActJoinMatch r => put_u8 2 ++ put_u32 r
  | ActLeaveMatch r => put_u8 3 ++ put_u32 r
  | ActSelectClass r class_id revision loadout =>
      put_u8 1 ++ put_u32 r ++ put_u32 class_id ++ put_u32 revision ++
      put_u32s (lo_weapons loadout) ++ put_u32s (lo_perks loadout) ++
      put_u8 (lo_deathstreak loadout) ++ put_u8s (lo_camos loadout)
  | ActGiveWeapon r weapon model => put_u8 6 ++ put_u32 r ++ put_u32 weapon ++ put_u8 model
  | ActChangeWeaponCamo r weapon model => put_u8 23 ++ put_u32 r ++ put_u32 weapon ++ put_u8 model
  | ActChangeWeaponConfiguration r from to => put_u8 15 ++ put_u32 r ++ put_u32 from ++ put_u32 to
  | ActMove r origin angles => put_u8 7 ++ put_u32 r ++ put_f32s origin ++ put_f32s angles
  | ActBeginScriptMoverRotateVelocity r speed => put_u8 9 ++ put_u32 r ++ put_f32 speed
  | ActToggleGod r => put_u8 22 ++ put_u32 r
  | ActDebugDamage r amount => put_u8 10 ++ put_u32 r ++ put_i32 amount
  | ActForceDeath r => put_u8 4 ++ put_u32 r
  | ActSpawnClient r => put_u8 8 ++ put_u32 r
  | ActForceSpawn r pick => put_u8 14 ++ put_u32 r ++ encode_spawn_pick pick
  | ActSpawnIntermission r => put_u8 12 ++ put_u32 r
  | ActSetMatchPhase r phase => put_u8 5 ++ put_u32 r ++ put_u8 (phase_tag phase)
  | ActSetProfile r profile =>
      put_u8 21 ++ put_u32 r ++ put_u32 (pp_title profile) ++ put_u32 (pp_emblem profile) ++
      put_u32s (pp_killstreaks profile)
  | ActSetName r name => put_u8 11 ++ put_u32 r ++ put_bytes name
  | ActChat r team_only text =>
      put_u8 24 ++ put_u32 r ++ put_audience team_only ++ put_bytes text
  | ActUseCopycat r => put_u8 13 ++ put_u32 r
  | ActActionSlot r slot => put_u8 19 ++ put_u32 r ++ put_u8 slot
  | ActChooseDefaultClass r index => put_u8 16 ++ put_u32 r ++ put_u8 index
  | ActMenuResponse r menu response => put_u8 17 ++ put_u32 r ++ put_bytes menu ++ put_bytes response
  | ActResupplyAmmo r => put_u8 20 ++ put_u32 r
  | ActGiveKillstreak r name => put_u8 18 ++ put_u32 r ++ put_bytes name
  end.

(** [encode_actions]: the count is cast to 16 bits (its bound is a debug assertion). *)
Definition encode_client_action (row : Z * ClientAction) : list byte :=
  put_u32 row.1 ++ encode_action row.2.

Definition encode_actions (actions : list (Z * ClientAction)) : list byte :=
  put_u16 (wrap16 (zlen actions)) ++ concat (map encode_client_action actions).

(** ** Decoding *)

Definition phase_from_tag (tag : Z) : Result WireError SimMatchPhase :=
  if tag =? 0 then Ok Warmup
  else if tag =? 1 then Ok Playing
  else if tag =? 2 then Ok Intermission
  else if tag =? 3 then Ok PostGame
  else Err (malformed "unknown MatchPhase tag").

Definition decode_spawn_pick : WParser SpawnPick :=
  tag ← get_u8;
  if tag =? 0 then
    lo ← get_u32;
    hi ← get_u32;
    mret (Seeded (Z.lor lo (Z.shiftl hi 32)))
  else if tag =? 1 then
    origin ← parse_list 3 get_f32;
    yaw ← get_f32;
    mret (SpawnAt origin yaw)
  else lift (Err (malformed "unknown SpawnPick tag")).

Definition decode_audience : WParser bool :=
  tag ← get_u8;
  if tag =? 0 then mret false
  else if tag =? 1 then mret true
  else lift (Err (malformed "invalid chat audience")).

(** The fields after the tag. *)
Definition decode_action_body (tag : Z) : WParser ClientAction :=
  if tag =? 1 then
    r ← get_u32; class_id ← get_u32; revision ← get_u32;
    weapons ← parse_list 4 get_u32; perks ← parse_list 3 get_u32;
    deathstreak ← get_u8; camos ← parse_list 2 get_u8;
    mret (ActSelectClass r class_id revision (mkPersonalClass weapons perks deathstreak camos))
  else if tag =? 2 then r ← get_u32; mret (ActJoinMatch r)
  else if tag =? 3 then r ← get_u32; mret (ActLeaveMatch r)
  else if tag =? 4 then r ← get_u32; mret (ActForceDeath r)
  else if tag =? 8 then r ← get_u32; mret (ActSpawnClient r)
  else if tag =? 12 then r ← get_u32; mret (ActSpawnIntermission r)
  else if tag =? 5 then
    r ← get_u32; tag ← get_u8; phase ← lift (phase_from_tag tag); mret (ActSetMatchPhase r phase)
  else if tag =? 6 then
    r ← get_u32; weapon ← get_u32; model ← get_u8; mret (ActGiveWeapon r weapon model)
  else if tag =? 23 then
    r ← get_u32; weapon ← get_u32; model ← get_u8; mret (ActChangeWeaponCamo r weapon model)
  else if tag =? 15 then
    r ← get_u32; from ← get_u32; to ← get_u32; mret (ActChangeWeaponConfiguration r from to)
  else if tag =? 7 then
    r ← get_u32; origin ← parse_list 3 get_f32; angles ← parse_list 3 get_f32;
    mret (ActMove r origin angles)
  else if tag =? 9 then r ← get_u32; speed ← get_f32; mret (ActBeginScriptMoverRotateVelocity r speed)
  else if tag =? 10 then r ← get_u32; amount ← get_i32; mret (ActDebugDamage r amount)
  else if tag =? 11 then r ← get_u32; name ← get_bytes 16; mret (ActSetName r name)
  else if tag =? 21 then
    r ← get_u32; title ← get_u32; emblem ← get_u32; killstreaks ← parse_list 3 get_u32;
    mret (ActSetProfile r (mkProfile title emblem killstreaks))
  else if tag =? 24 then
    r ← get_u32; team_only ← decode_audience; text ← get_bytes CHAT_BYTES;
    mret (ActChat r team_only text)
  else if tag =? 13 then r ← get_u32; mret (ActUseCopycat r)
  else if tag =? 19 then r ← get_u32; slot ← get_u8; mret (ActActionSlot r slot)
  else if tag =? 16 then r ← get_u32; index ← get_u8; mret (ActChooseDefaultClass r index)
  else if tag =? 17 then
    r ← get_u32; menu ← get_bytes MENU_RESPONSE_BYTES; response ← get_bytes MENU_RESPONSE_BYTES;
    mret (ActMenuResponse r menu response)
  else if tag =? 22 then r ← get_u32; mret (ActToggleGod r)
  else if tag =? 20 then r ← get_u32; mret (ActResupplyAmmo r)
  else if tag =? 18 then r ← get_u32; name ← get_bytes MENU_RESPONSE_BYTES; mret (ActGiveKillstreak r name)
  else if tag =? 14 then r ← get_u32; pick ← decode_spawn_pick; mret (ActForceSpawn r pick)
  else lift (Err (malformed "unknown ClientAction tag")).

Definition decode_action : WParser ClientAction :=
  tag ← get_u8;
  decode_action_body tag.

Definition decode_client_action : WParser (Z * ClientAction) :=
  client ← get_u32;
  action ← decode_action;
  mret (client, action).

Definition decode_actions : WParser (list (Z * ClientAction)) :=
  count ← get_u16;
  parse_list (Z.to_nat count) decode_client_action.

(** * Properties of the actions' wire form

    The codec of [ClientAction] is exact in both directions, so it can stand in for the
    interface the packets are proved against. *)

(** ** Arrays *)

#[export] Instance u8s_codec n : WireCodec put_u8s (parse_list n get_u8) (array_of is_u8 n) :=
  array_codec _ _ _ n u8_codec.
#[export] Instance u32s_codec n : WireCodec put_u32s (parse_list n get_u32) (array_of is_u32 n) :=
  array_codec _ _ _ n u32_codec.
#[export] Instance f32s_codec n : WireCodec put_f32s (parse_list n get_f32) (array_of is_u32 n) :=
  array_codec _ _ _ n f32_codec.
#[export] Instance u8s_exact n : WireExact put_u8s (parse_list n get_u8) (array_of is_u8 n) :=
  array_exact _ _ _ n u8_exact.
#[export] Instance u32s_exact n : WireExact put_u32s (parse_list n get_u32) (array_of is_u32 n) :=
  array_exact _ _ _ n u32_exact.
#[export] Instance f32s_exact n : WireExact put_f32s (parse_list n get_f32) (array_of is_u32 n) :=
  array_exact _ _ _ n f32_exact.

#[export] Instance name_exact : WireExact put_bytes (get_bytes 16) (fun u => zlen u = 16).
Proof. by apply bytes_exact. Qed.
#[export] Instance chat_exact : WireExact put_bytes (get_bytes CHAT_BYTES) (fun u => zlen u = CHAT_BYTES).
Proof. by apply bytes_exact. Qed.
#[export] Instance menu_exact :
  WireExact put_bytes (get_bytes MENU_RESPONSE_BYTES) (fun u => zlen u = MENU_RESPONSE_BYTES).
Proof. by apply bytes_exact. Qed.

(** ** Legal actions *)

Definition valid_class (c : PersonalClass) : Prop :=
  array_of is_u32 4 (lo_weapons c) /\ array_of is_u32 3 (lo_perks c) /\ is_u8 (lo_deathstreak c) /\
  array_of is_u8 2 (lo_camos c).

Definition valid_pick (pick : SpawnPick) : Prop :=
  match pick with
  | Seeded seed => is_u64 seed
  | SpawnAt origin yaw => array_of is_u32 3 origin /\ is_u32 yaw
  end.

(** Every number in its type's range, every array of its length. *)
Definition valid_action (action : ClientAction) : Prop :=
  is_u32 (action_request_id action) /\
  match action with
  | ActSelectClass _ class_id revision loadout => is_u32 class_id /\ is_u32 revision /\ valid_class loadout
  | ActGiveWeapon _ weapon model | ActChangeWeaponCamo _ weapon model => is_u32 weapon /\ is_u8 model
  | ActChangeWeaponConfiguration _ from to => is_u32 from /\ is_u32 to
  | ActForceSpawn _ pick => valid_pick pick
  | ActMove _ origin angles => array_of is_u32 3 origin /\ array_of is_u32 3 angles
  | ActBeginScriptMoverRotateVelocity _ speed => is_u32 speed
  | ActDebugDamage _ amount => is_i32 amount
  | ActSetProfile _ profile =>
      is_u32 (pp_title profile) /\ is_u32 (pp_emblem profile) /\ array_of is_u32 3 (pp_killstreaks profile)
  | ActSetName _ name => zlen name = 16
  | ActChat _ _ text => zlen text = CHAT_BYTES
  | ActActionSlot _ slot => is_u8 slot
  | ActChooseDefaultClass _ index => is_u8 index
  | ActMenuResponse _ menu response => zlen menu = MENU_RESPONSE_BYTES /\ zlen response = MENU_RESPONSE_BYTES
  | ActGiveKillstreak _ name => zlen name = MENU_RESPONSE_BYTES
  | _ => True
  end.

(** *** The small codecs *)

Lemma phase_from_tag_of p : phase_from_tag (phase_tag p) = Ok p.
Proof. by destruct p. Qed.
Lemma phase_tag_of v p : phase_from_tag v = Ok p -> v = phase_tag p.
Proof.
  unfold phase_from_tag.
  repeat match goal with |- context [Z.eqb v ?k] =>
    destruct (Z.eqb_spec v k) as [->|_]; [by intros [= <-]|] end.
  done.
Qed.
Lemma phase_tag_u8 p : is_u8 (phase_tag p).
Proof. by destruct p. Qed.
#[local] Hint Resolve phase_tag_u8 : wire.

Lemma halves_join lo hi :
  is_u32 lo -> is_u32 hi ->
  let v := Z.lor lo (Z.shiftl hi 32) in
  is_u64 v /\ wrap32 v = lo /\ wrap32 (Z.shiftr v 32) = hi.
Proof.
  intros Hlo Hhi. cbn zeta. rewrite lor_halves, Z.shiftr_div_pow2 by done. unfold wrap32.
  change (2 ^ 32) with 4294967296. unfold is_u32, is_u64, u32_max, u64_max in *.
  split_and!; Z.to_euclidean_division_equations; lia.
Qed.

Lemma halves_split v : is_u64 v -> Z.lor (wrap32 v) (Z.shiftl (wrap32 (Z.shiftr v 32)) 32) = v.
Proof.
  intros Hv. rewrite lor_halves, Z.shiftr_div_pow2 by (unfold wrap32; ilia). unfold wrap32.
  change (2 ^ 32) with 4294967296. unfold is_u64, u64_max in *. Z.to_euclidean_division_equations; lia.
Qed.

#[export] Instance pick_codec : WireCodec encode_spawn_pick decode_spawn_pick valid_pick.
Proof.
  split. intros [seed|origin yaw] Hv; unfold decode_spawn_pick; cbn [encode_spawn_pick valid_pick] in *.
  - assert (is_u32 (wrap32 seed) /\ is_u32 (wrap32 (Z.shiftr seed 32))) as [? ?] by (unfold wrap32; split; ilia).
    wire_step. cbn [Z.eqb]. wire_step. rewrite <- (halves_split seed Hv) at 2.
    apply (parses_last get_u32 (fun hi => Seeded (Z.lor (wrap32 seed) (Z.shiftl hi 32)))). by apply parses_put_u32.
  - destruct Hv. wire_step. cbn [Z.eqb Pos.eqb]. wire_step.
    apply (parses_last get_f32 (SpawnAt origin)). by apply parses_put_f32.
Qed.

#[export] Instance pick_exact : WireExact encode_spawn_pick decode_spawn_pick valid_pick.
Proof.
  split. unfold decode_spawn_pick. exact_field.
  destruct (Z.eqb_spec v 0) as [->|_]; [|destruct (Z.eqb_spec v 1) as [->|_]; [|apply consumes_err]].
  - do 2 exact_field. exact_done. destruct (halves_join v v0) as (? & E1 & E2); [done..|].
    split; [done|]. cbn [encode_spawn_pick]. by rewrite E1, E2.
  - do 2 exact_field. by exact_done.
Qed.

#[export] Instance audience_codec :
  WireCodec put_audience decode_audience (fun _ => True).
Proof.
  split. intros [] _; unfold decode_audience, put_audience; (eapply parses_end; [solve [eauto with wire]|]); apply parses_ret.
Qed.

#[export] Instance audience_exact :
  WireExact put_audience decode_audience (fun _ => True).
Proof.
  split. unfold decode_audience. exact_field.
  destruct (Z.eqb_spec v 0) as [->|_]; [|destruct (Z.eqb_spec v 1) as [->|_]; [|apply consumes_err]]; by exact_done.
Qed.

(** *** Actions *)

Ltac split_valid :=
  repeat match goal with H : _ /\ _ |- _ => destruct H | H : valid_class _ |- _ => destruct H end.

#[export] Instance action_codec : WireCodec encode_action decode_action valid_action.
Proof.
  split. intros action [Hr Hv]. unfold decode_action, decode_action_body.
  destruct action; try destruct loadout as [ws ps ds cs]; try destruct profile as [ti em ks];
    cbn [encode_action action_request_id] in *; split_valid;
    cbn [lo_weapons lo_perks lo_deathstreak lo_camos pp_title pp_emblem pp_killstreaks] in *;
    (wire_step; cbn [Z.eqb Pos.eqb]; repeat wire_step; try wire_last).
  eapply parses_end; [solve [eauto with wire]|]. eapply parses_lift; [apply phase_from_tag_of|].
  apply parses_ret.
Qed.

Ltac solve_valid :=
  unfold valid_action; cbn [action_request_id]; unfold valid_class;
  cbn [lo_weapons lo_perks lo_deathstreak lo_camos pp_title pp_emblem pp_killstreaks];
  repeat lazymatch goal with |- _ /\ _ => split end; first [assumption | exact I | apply phase_tag_u8].

#[export] Instance action_exact : WireExact encode_action decode_action valid_action.
Proof.
  split. unfold decode_action. exact_field. unfold decode_action_body.
  repeat (next_tag; [shelve|]). apply consumes_err.
  Unshelve. all: repeat exact_field.
  all: try (exact_done; split; [solve_valid|reflexivity]).
  apply consumes_lift. intros phase ->%phase_tag_of. exact_done. split; [solve_valid|reflexivity].
Qed.

#[export] Instance client_action_codec :
  WireCodec encode_client_action decode_client_action (fun row => is_u32 row.1 /\ valid_action row.2).
Proof.
  split. intros [client action] [Hc Ha]. unfold encode_client_action, decode_client_action.
  cbn [fst snd] in *. wire_step. wire_last.
Qed.

#[export] Instance client_action_exact :
  WireExact encode_client_action decode_client_action (fun row => is_u32 row.1 /\ valid_action row.2).
Proof. split. unfold decode_client_action. do 2 exact_field. by exact_done. Qed.

(** ** Properties *)

(** The wire form of actions is exact: at most 65535 legal actions are read back as they were
    written, wherever they stand in a packet, and whatever bytes the decoder accepts are exactly the
    encoding of a list of legal actions, each with the client they were sent for. *)
Theorem actions_exact :
  (forall actions, zlen actions <= u16_max ->
     Forall (fun row => is_u32 row.1 /\ valid_action row.2) actions ->
     parses decode_actions (encode_actions actions) actions) /\
  consumes decode_actions (fun actions u =>
    zlen actions <= u16_max /\ Forall (fun row => is_u32 row.1 /\ valid_action row.2) actions /\
    u = encode_actions actions).
Proof.
  unfold decode_actions, encode_actions. split.
  - intros actions Hn Hv. pose proof (zlen_nonneg actions).
    assert (wrap16 (zlen actions) = zlen actions) as -> by (unfold wrap16; apply Z.mod_small; ilia).
    assert (is_u16 (zlen actions)) by ilia. wire_step.
    eapply wire_list; [apply _|unfold zlen; lia|done].
  - exact_field. eapply consumes_weaken, exact_list, _. intros xs u (Hn & Hx & ->).
    assert (zlen xs = v) as Hlen by (unfold zlen; rewrite Hn; ilia).
    split; [ilia|]. split; [done|]. rewrite Hlen. unfold wrap16. by rewrite Z.mod_small by ilia.
Qed.
