(* ===== verification/EventWire.v ===== *)
(** * Match events and their wire form

    [SimEvent] and its reliability roster of crates/sim/src/match_state/events.rs, [encode_event]
    and [decode_event] of crates/net/src/transport/meta_wire.rs with the tags of refusals and
    damage sources. *)

From S2P Require Export Wire.

#[local] Open Scope Z_scope.

(** ** Events *)

Inductive ClassRejectReason : Type :=
| UnknownOrStaleClass | NoSpawnAvailable | LockedContent | ClassUnknownWeaponId.

Inductive GiveRejectReason : Type :=
| GiveNotAlive | InvalidWeapon | GiveUnknownWeaponId | UnsupportedWeapon | EmptyCombatProfile.

Inductive ConfigurationChangeRejectReason : Type :=
| ConfNotAlive | StaleSource | InvalidTarget | DifferentFamily | ConfBusy | NoInventorySlot
| AmmoTableFull | SharedAmmoConflict.

Inductive DamageSource : Type :=
| DamageShot (id : Z)
| DamageProjectile (id : Z)
| DamageRadius (id : Z)
| DamageMelee.

Inductive MatchEndReason : Type := ScoreLimit | TimeLimit.

Inductive SimEvent : Type :=
| EvClassAccepted (request_id class_id revision : Z)
| EvClassRejected (request_id class_id revision : Z) (reason : ClassRejectReason)
| EvGiveAccepted (request_id weapon : Z)
| EvGiveRejected (request_id weapon : Z) (reason : GiveRejectReason)
| EvConfigurationChangeAccepted (request_id from to : Z)
| EvConfigurationChangeRejected (request_id from to : Z) (reason : ConfigurationChangeRejectReason)
| EvSpawned (class_id spawn_index life_sequence : Z)
| EvDied (victim life_sequence : Z) (attacker attacker_life : option Z) (source : option DamageSource)
    (weapon killcam_entity_start_time : Z)
| EvScoreChanged (client score kills deaths : Z)
| EvMatchEnded (reason : MatchEndReason)
| EvAttackReleased
| EvWeaponSwitchRequested (weapon : Z).

#[export] Instance ClassRejectReason_eq_dec : EqDecision ClassRejectReason.
Proof. solve_decision. Defined.
#[export] Instance GiveRejectReason_eq_dec : EqDecision GiveRejectReason.
Proof. solve_decision. Defined.
#[export] Instance ConfigurationChangeRejectReason_eq_dec : EqDecision ConfigurationChangeRejectReason.
Proof. solve_decision. Defined.
#[export] Instance DamageSource_eq_dec : EqDecision DamageSource.
Proof. solve_decision. Defined.
#[export] Instance MatchEndReason_eq_dec : EqDecision MatchEndReason.
Proof. solve_decision. Defined.
#[export] Instance SimEvent_eq_dec : EqDecision SimEvent.
Proof. solve_decision. Defined.

(** ** The roster *)

Definition event_variant (event : SimEvent) : list byte :=
  match event with
  | EvClassAccepted _ _ _ => bs "ClassAccepted"
  | EvClassRejected _ _ _ _ => bs "ClassRejected"
  | EvGiveAccepted _ _ => bs "GiveAccepted"
  | EvGiveRejected _ _ _ => bs "GiveRejected"
  | EvConfigurationChangeAccepted _ _ _ => bs "ConfigurationChangeAccepted"
  | EvConfigurationChangeRejected _ _ _ _ => bs "ConfigurationChangeRejected"
  | EvSpawned _ _ _ => bs "Spawned"
  | EvDied _ _ _ _ _ _ _ => bs "Died"
  | EvScoreChanged _ _ _ _ => bs "ScoreChanged"
  | EvMatchEnded _ => bs "MatchEnded"
  | EvAttackReleased => bs "AttackReleased"
  | EvWeaponSwitchRequested _ => bs "WeaponSwitchRequested"
  end.

(** Each variant's name and whether it is sent reliably. *)
Definition SIM_EVENT_ROSTER : list (list byte * bool) :=
  [(bs "ClassAccepted", true); (bs "ClassRejected", true); (bs "GiveAccepted", true); (bs "GiveRejected", true);
   (bs "ConfigurationChangeAccepted", true); (bs "ConfigurationChangeRejected", true); (bs "Spawned", true);
   (bs "Died", true); (bs "ScoreChanged", true); (bs "MatchEnded", true); (bs "AttackReleased", false);
   (bs "WeaponSwitchRequested", true)].

Definition sim_event_is_reliable (event : SimEvent) : bool :=
  match find (fun row => bool_decide (row.1 = event_variant event)) SIM_EVENT_ROSTER with
  | Some row => row.2
  | None => false
  end.

(** ** Audiences *)

Inductive EventAudience : Type :=
| AudienceAll
| AudienceAllExcept (excluded : Z)
| AudienceClient (client : Z)
| AudienceClients (clients : list Z).

Definition projects_to (a : EventAudience) (id : Z) : bool :=
  match a with
  | AudienceAll => true
  | AudienceAllExcept excluded => negb (excluded =? id)
  | AudienceClient c => c =? id
  | AudienceClients cs => existsb (fun c => c =? id) cs
  end.

(** ** Tags *)

Definition reject_reason_tag (reason : ClassRejectReason) : Z :=
  match reason with
  | UnknownOrStaleClass => 1 | NoSpawnAvailable => 2 | LockedContent => 3 | ClassUnknownWeaponId => 4
  end.

Definition reject_reason_from_tag (tag : Z) : Result WireError ClassRejectReason :=
  if tag =? 1 then Ok UnknownOrStaleClass
  else if tag =? 2 then Ok NoSpawnAvailable
  else if tag =? 3 then Ok LockedContent
  else if tag =? 4 then Ok ClassUnknownWeaponId
  else Err (malformed "unknown ClassRejectReason tag").

Definition give_reject_reason_tag (reason : GiveRejectReason) : Z :=
  match reason with
  | GiveNotAlive => 1 | InvalidWeapon => 2 | GiveUnknownWeaponId => 3 | EmptyCombatProfile => 4
  | UnsupportedWeapon => 5
  end.

Definition give_reject_reason_from_tag (tag : Z) : Result WireError GiveRejectReason :=
  if tag =? 1 then Ok GiveNotAlive
  else if tag =? 2 then Ok InvalidWeapon
  else if tag =? 3 then Ok GiveUnknownWeaponId
  else if tag =? 4 then Ok EmptyCombatProfile
  else if tag =? 5 then Ok UnsupportedWeapon
  else Err (malformed "unknown GiveRejectReason tag").

Definition configuration_change_reject_reason_tag (reason : ConfigurationChangeRejectReason) : Z :=
  match reason with
  | ConfNotAlive => 1 | StaleSource => 2 | InvalidTarget => 3 | DifferentFamily => 4 | ConfBusy => 7
  | NoInventorySlot => 5 | AmmoTableFull => 6 | SharedAmmoConflict => 8
  end.

Definition configuration_change_reject_reason_from_tag (tag : Z)
    : Result WireError ConfigurationChangeRejectReason :=
  if tag =? 1 then Ok ConfNotAlive
  else if tag =? 2 then Ok StaleSource
  else if tag =? 3 then Ok InvalidTarget
  else if tag =? 4 then Ok DifferentFamily
  else if tag =? 7 then Ok ConfBusy
  else if tag =? 5 then Ok NoInventorySlot
  else if tag =? 6 then Ok AmmoTableFull
  else if tag =? 8 then Ok SharedAmmoConflict
  else Err (malformed "unknown ConfigurationChangeRejectReason tag").

Definition end_reason_tag (reason : MatchEndReason) : Z :=
  match reason with ScoreLimit => 0 | TimeLimit => 1 end.

Definition end_reason_from_tag (tag : Z) : Result WireError MatchEndReason :=
  if tag =? 0 then Ok ScoreLimit
  else if tag =? 1 then Ok TimeLimit
  else Err (malformed "unknown MatchEndReason tag").

Definition encode_damage_source (source : DamageSource) : list byte :=
  match source with
  | DamageShot id => put_u8 1 ++ put_u32 id
  | DamageProjectile id => put_u8 2 ++ put_u32 id
  | DamageRadius id => put_u8 3 ++ put_u32 id
  | DamageMelee => put_u8 4
  end.

Definition decode_damage_source : WParser DamageSource :=
  tag ← get_u8;
  if tag =? 1 then id ← get_u32; mret (DamageShot id)
  else if tag =? 2 then id ← get_u32; mret (DamageProjectile id)
  else if tag =? 3 then id ← get_u32; mret (DamageRadius id)
  else if tag =? 4 then mret DamageMelee
  else lift (Err (malformed "unknown DamageSource tag")).

(** ** Events on the wire *)

Definition put_option {A} (encode : A -> list byte) (o : option A) : list byte :=
  match o with None => put_u8 0 | Some x => put_u8 1 ++ encode x end.

Definition get_option {A} (decode : WParser A) (what : String.string) : WParser (option A) :=
  tag ← get_u8;
  if tag =? 0 then mret None
  else if tag =? 1 then x ← decode; mret (Some x)
  else lift (Err (malformed what)).
Arguments get_option {A} decode what%_string_scope.

Definition encode_event (event : SimEvent) : list byte :=
  match event with
  | EvClassAccepted r class_id revision => put_u8 1 ++ put_u32 r ++ put_u32 class_id ++ put_u32 revision
  | EvClassRejected r class_id revision reason =>
      put_u8 2 ++ put_u32 r ++ put_u32 class_id ++ put_u32 revision ++ put_u8 (reject_reason_tag reason)
  | EvSpawned class_id spawn_index life =>
      put_u8 3 ++ put_u32 class_id ++ put_u32 spawn_index ++ put_u32 life
  | EvAttackReleased => put_u8 5
  | EvWeaponSwitchRequested weapon => put_u8 18 ++ put_u32 weapon
  | EvDied victim life attacker attacker_life source weapon start =>
      put_u8 6 ++ put_u32 victim ++ put_u32 life ++ put_option put_u32 attacker ++
      put_option put_u32 attacker_life ++ put_option encode_damage_source source ++ put_u32 weapon ++
      put_i32 start
  | EvScoreChanged client score kills deaths =>
      put_u8 11 ++ put_u32 client ++ put_i32 score ++ put_i32 kills ++ put_i32 deaths
  | EvMatchEnded reason => put_u8 12 ++ put_u8 (end_reason_tag reason)
  | EvGiveAccepted r weapon => put_u8 14 ++ put_u32 r ++ put_u32 weapon
  | EvGiveRejected r weapon reason =>
      put_u8 15 ++ put_u32 r ++ put_u32 weapon ++ put_u8 (give_reject_reason_tag reason)
  | EvConfigurationChangeAccepted r from to => put_u8 16 ++ put_u32 r ++ put_u32 from ++ put_u32 to
  | EvConfigurationChangeRejected r from to reason =>
      put_u8 17 ++ put_u32 r ++ put_u32 from ++ put_u32 to ++
      put_u8 (configuration_change_reject_reason_tag reason)
  end.

(** The fields after the tag. *)
Definition decode_event_body (tag : Z) : WParser SimEvent :=
  if tag =? 1 then
    r ← get_u32; class_id ← get_u32; revision ← get_u32; mret (EvClassAccepted r class_id revision)
  else if tag =? 2 then
    r ← get_u32; class_id ← get_u32; revision ← get_u32; reason ← get_tag reject_reason_from_tag;
    mret (EvClassRejected r class_id revision reason)
  else if tag =? 3 then
    class_id ← get_u32; spawn_index ← get_u32; life ← get_u32; mret (EvSpawned class_id spawn_index life)
  else if tag =? 5 then mret EvAttackReleased
  else if tag =? 6 then
    victim ← get_u32; life ← get_u32;
    attacker ← get_option get_u32 "bad Died attacker tag";
    attacker_life ← get_option get_u32 "bad Died attacker_life tag";
    source ← get_option decode_damage_source "bad Died source tag";
    weapon ← get_u32; start ← get_i32;
    mret (EvDied victim life attacker attacker_life source weapon start)
  else if tag =? 11 then
    client ← get_u32; score ← get_i32; kills ← get_i32; deaths ← get_i32;
    mret (EvScoreChanged client score kills deaths)
  else if tag =? 12 then reason ← get_tag end_reason_from_tag; mret (EvMatchEnded reason)
  else if tag =? 14 then r ← get_u32; weapon ← get_u32; mret (EvGiveAccepted r weapon)
  else if tag =? 15 then
    r ← get_u32; weapon ← get_u32; reason ← get_tag give_reject_reason_from_tag;
    mret (EvGiveRejected r weapon reason)
  else if tag =? 16 then
    r ← get_u32; from ← get_u32; to ← get_u32; mret (EvConfigurationChangeAccepted r from to)
  else if tag =? 17 then
    r ← get_u32; from ← get_u32; to ← get_u32;
    reason ← get_tag configuration_change_reject_reason_from_tag;
    mret (EvConfigurationChangeRejected r from to reason)
  else if tag =? 18 then weapon ← get_u32; mret (EvWeaponSwitchRequested weapon)
  else lift (Err (malformed "unknown SimEvent tag")).

Definition decode_event : WParser SimEvent :=
  tag ← get_u8;
  decode_event_body tag.

(** * Properties of the events' wire form *)

Lemma parses_reject r : parses (get_tag reject_reason_from_tag) (put_u8 (reject_reason_tag r)) r.
Proof. by apply parses_tag; destruct r. Qed.
Lemma parses_give r : parses (get_tag give_reject_reason_from_tag) (put_u8 (give_reject_reason_tag r)) r.
Proof. by apply parses_tag; destruct r. Qed.
Lemma parses_change r :
  parses (get_tag configuration_change_reject_reason_from_tag)
    (put_u8 (configuration_change_reject_reason_tag r)) r.
Proof. by apply parses_tag; destruct r. Qed.
Lemma parses_end_reason r : parses (get_tag end_reason_from_tag) (put_u8 (end_reason_tag r)) r.
Proof. by apply parses_tag; destruct r. Qed.
#[local] Hint Resolve parses_reject parses_give parses_change parses_end_reason : wire.

#[export] Instance reject_exact :
  WireExact (fun r => put_u8 (reject_reason_tag r)) (get_tag reject_reason_from_tag) (fun _ => True).
Proof. apply tag_exact. intros v r. unfold reject_reason_from_tag. tag_inv. Qed.
#[export] Instance give_exact :
  WireExact (fun r => put_u8 (give_reject_reason_tag r)) (get_tag give_reject_reason_from_tag) (fun _ => True).
Proof. apply tag_exact. intros v r. unfold give_reject_reason_from_tag. tag_inv. Qed.
#[export] Instance change_exact :
  WireExact (fun r => put_u8 (configuration_change_reject_reason_tag r))
    (get_tag configuration_change_reject_reason_from_tag) (fun _ => True).
Proof. apply tag_exact. intros v r. unfold configuration_change_reject_reason_from_tag. tag_inv. Qed.
#[export] Instance end_reason_exact :
  WireExact (fun r => put_u8 (end_reason_tag r)) (get_tag end_reason_from_tag) (fun _ => True).
Proof. apply tag_exact. intros v r. unfold end_reason_from_tag. tag_inv. Qed.

Definition valid_source (source : DamageSource) : Prop :=
  match source with
  | DamageShot id | DamageProjectile id | DamageRadius id => is_u32 id
  | DamageMelee => True
  end.

#[export] Instance source_codec : WireCodec encode_damage_source decode_damage_source valid_source.
Proof.
  split. intros [id|id|id|] Hv; unfold decode_damage_source; cbn [encode_damage_source valid_source] in *.
  1-3: wire_step; cbn [Z.eqb Pos.eqb]; wire_last.
  eapply parses_end; [solve [eauto with wire]|]. apply parses_ret.
Qed.

#[export] Instance source_exact : WireExact encode_damage_source decode_damage_source valid_source.
Proof.
  split. unfold decode_damage_source. exact_field. repeat (next_tag; [shelve|]). apply consumes_err.
  Unshelve. all: repeat exact_field; by exact_done.
Qed.

Definition option_of {A} (valid : A -> Prop) (o : option A) : Prop :=
  match o with Some x => valid x | None => True end.

#[export] Instance option_codec {A} (encode : A -> list byte) decode valid what
  `{!WireCodec encode decode valid} :
  WireCodec (put_option encode) (get_option decode what) (option_of valid).
Proof.
  split. intros [x|] Hv; unfold get_option; cbn [put_option option_of] in *.
  - wire_step. cbn [Z.eqb Pos.eqb]. eapply parses_end; [by apply wire_parses|]. apply parses_ret.
  - eapply parses_end; [solve [eauto with wire]|]. apply parses_ret.
Qed.

#[export] Instance option_exact {A} (encode : A -> list byte) decode valid what
  `{!WireExact encode decode valid} :
  WireExact (put_option encode) (get_option decode what) (option_of valid).
Proof.
  split. unfold get_option. exact_field.
  next_tag; [by exact_done|]. next_tag; [|apply consumes_err]. exact_field. by exact_done.
Qed.

(** Every number in its type's range. *)
Definition valid_event (event : SimEvent) : Prop :=
  match event with
  | EvClassAccepted r class_id revision | EvClassRejected r class_id revision _ =>
      is_u32 r /\ is_u32 class_id /\ is_u32 revision
  | EvGiveAccepted r weapon | EvGiveRejected r weapon _ => is_u32 r /\ is_u32 weapon
  | EvConfigurationChangeAccepted r from to | EvConfigurationChangeRejected r from to _ =>
      is_u32 r /\ is_u32 from /\ is_u32 to
  | EvSpawned class_id spawn_index life => is_u32 class_id /\ is_u32 spawn_index /\ is_u32 life
  | EvDied victim life attacker attacker_life source weapon start =>
      is_u32 victim /\ is_u32 life /\ option_of is_u32 attacker /\ option_of is_u32 attacker_life /\
      option_of valid_source source /\ is_u32 weapon /\ is_i32 start
  | EvScoreChanged client score kills deaths => is_u32 client /\ is_i32 score /\ is_i32 kills /\ is_i32 deaths
  | EvMatchEnded _ | EvAttackReleased => True
  | EvWeaponSwitchRequested weapon => is_u32 weapon
  end.

#[export] Instance event_codec : WireCodec encode_event decode_event valid_event.
Proof.
  split. intros event Hv. unfold decode_event, decode_event_body.
  destruct event; cbn [encode_event valid_event] in *;
    repeat match goal with H : _ /\ _ |- _ => destruct H end;
    try (wire_step; cbn [Z.eqb Pos.eqb]; repeat wire_step; wire_last).
  eapply parses_end; [solve [eauto with wire]|]. apply parses_ret.
Qed.

#[export] Instance event_exact : WireExact encode_event decode_event valid_event.
Proof.
  split. unfold decode_event. exact_field. unfold decode_event_body.
  repeat (next_tag; [shelve|]). apply consumes_err.
  Unshelve. all: repeat exact_field; exact_done; (split; [|reflexivity]); cbn [valid_event];
    repeat lazymatch goal with |- _ /\ _ => split end; first [assumption|exact I].
Qed.
