(* ===== verification/RowWire.v ===== *)
(** * Reliable rows and their wire form

    The rows of crates/net/src/transport/reliable.rs with their codecs: svc_sound.rs,
    svc_playercard.rs, svc_gamenotify.rs, svc_scores.rs and svc_script_audio.rs of crates/net,
    with [ScriptAudioCommand] of crates/sim/src/script_audio.rs.  Strings are their UTF-8 bytes,
    floats their 32 bits; an encoder that panics gives [None]. *)

From S2P Require Export EventWire FireVerdict Reliable Utf8.

(** [String::from_utf8]. *)
Definition from_utf8 (what : String.string) (bytes : list byte) : Result WireError (list byte) :=
  if utf8_valid bytes then Ok bytes else Err (malformed what).
Arguments from_utf8 what%_string_scope bytes.

(** ** Sounds *)

Definition SVC_PLAY_LOCAL : Z := 0x70.
Definition SVC_STOP_LOCAL : Z := 0x68.

Record SvcSound : Type := mkSound { sn_stop : bool; sn_index : Z }.

Definition sound_tag (s : SvcSound) : Z := if sn_stop s then SVC_STOP_LOCAL else SVC_PLAY_LOCAL.

Definition sound_from_tag (tag index : Z) : Result WireError SvcSound :=
  if tag =? SVC_PLAY_LOCAL then Ok (mkSound false index)
  else if tag =? SVC_STOP_LOCAL then Ok (mkSound true index)
  else Err (malformed "svc sound tag is not 'p' or 'h'").

Definition put_sound (s : SvcSound) : list byte := put_u8 (sound_tag s) ++ put_u8 (sn_index s).

Definition encode_svc_sounds (commands : list SvcSound) : list byte :=
  put_u8 (wrap8 (zlen commands)) ++ concat (map put_sound commands).

Definition get_sound : WParser SvcSound :=
  tag ← get_u8; index ← get_u8; sound ← lift (sound_from_tag tag index); mret sound.

Definition decode_svc_sounds : WParser (list SvcSound) :=
  count ← get_u8; parse_list (Z.to_nat count) get_sound.

(** ** Player cards *)

Record SvcCardSlot : Type := mkCardSlot { cs_client : Z; cs_slot : Z }.
Record SvcOpenMenu : Type := mkOpenMenu { om_cs_index : Z }.
Record SvcHudSplash : Type := mkSplash { hs_key : list byte; hs_slot : Z; hs_optional : Z }.

Definition put_card_slot (c : SvcCardSlot) : list byte := put_u32 (cs_client c) ++ put_i32 (cs_slot c).

Definition encode_svc_card_slots (commands : list SvcCardSlot) : list byte :=
  put_u8 (wrap8 (zlen commands)) ++ concat (map put_card_slot commands).

Definition get_card_slot : WParser SvcCardSlot :=
  client ← get_u32; slot ← get_i32; mret (mkCardSlot client slot).

Definition decode_svc_card_slots : WParser (list SvcCardSlot) :=
  count ← get_u8; parse_list (Z.to_nat count) get_card_slot.

Definition put_open_menu (m : SvcOpenMenu) : list byte := put_i32 (om_cs_index m).

Definition encode_svc_open_menus (commands : list SvcOpenMenu) : list byte :=
  put_u8 (wrap8 (zlen commands)) ++ concat (map put_open_menu commands).

Definition get_open_menu : WParser SvcOpenMenu := index ← get_i32; mret (mkOpenMenu index).

Definition decode_svc_open_menus : WParser (list SvcOpenMenu) :=
  count ← get_u8; parse_list (Z.to_nat count) get_open_menu.

(** [u16::try_from(..).expect(..)]. *)
Definition put_u16_checked (n : Z) : option (list byte) := if n <=? u16_max then Some (put_u16 n) else None.

Definition put_splash (c : SvcHudSplash) : option (list byte) :=
  len ← put_u16_checked (zlen (hs_key c));
  Some (len ++ put_bytes (hs_key c) ++ put_i32 (hs_slot c) ++ put_i32 (hs_optional c)).

Definition encode_svc_hud_splashes (commands : list SvcHudSplash) : option (list byte) :=
  count ← put_u16_checked (zlen commands);
  rows ← mapM put_splash commands;
  Some (count ++ concat rows).

Definition get_splash : WParser SvcHudSplash :=
  len ← get_u16; key ← get_bytes len;
  key ← lift (from_utf8 "HUD splash key UTF-8" key);
  slot ← get_i32;
  _ ← lift (fail_if (negb ((0 <=? slot) && (slot <? 5))) (malformed "HUD splash slot"));
  optional ← get_i32;
  mret (mkSplash key slot optional).

Definition decode_svc_hud_splashes : WParser (list SvcHudSplash) :=
  count ← get_u16; parse_list (Z.to_nat count) get_splash.

(** ** Game notifications *)

Definition SVC_DISCONNECT_NOTIFY : Z := 0x65.
Definition SVC_PRINT : Z := 0x66.
Definition SVC_PRINT_BOLD : Z := 0x67.
Definition SVC_CHAT : Z := 0x68.

Record SvcGameNotify : Type := mkNotify {
  gn_id : Z; gn_tag : Z; gn_name : list byte; gn_key : list byte }.

Definition put_notify (c : SvcGameNotify) : list byte :=
  put_u32 (gn_id c) ++ put_u8 (gn_tag c) ++ put_u8 (wrap8 (zlen (gn_name c))) ++ put_bytes (gn_name c) ++
  put_u8 (wrap8 (zlen (gn_key c))) ++ put_bytes (gn_key c).

Definition encode_svc_game_notifies (commands : list SvcGameNotify) : option (list byte) :=
  count ← put_u16_checked (zlen commands);
  Some (count ++ concat (map put_notify commands)).

Definition known_notify_tag (tag : Z) : bool :=
  (tag =? SVC_DISCONNECT_NOTIFY) || (tag =? SVC_PRINT) || (tag =? SVC_PRINT_BOLD) || (tag =? SVC_CHAT).

Definition get_notify : WParser SvcGameNotify :=
  id ← get_u32; tag ← get_u8;
  _ ← lift (fail_if (negb (known_notify_tag tag)) (malformed "unknown game notification tag"));
  name_len ← get_u8; name ← get_bytes name_len; name ← lift (from_utf8 "gamenotify name UTF-8" name);
  key_len ← get_u8; key ← get_bytes key_len; key ← lift (from_utf8 "gamenotify key UTF-8" key);
  mret (mkNotify id tag name key).

(** At the end of the packet there are none. *)
Definition decode_svc_game_notifies : WParser (list SvcGameNotify) := fun rd =>
  if remaining rd =? 0 then Ok ([], rd)
  else (count ← get_u16; parse_list (Z.to_nat count) get_notify) rd.

(** ** Scores and failures *)

Definition encode_svc_scores (cmd : option (list byte)) : list byte :=
  match cmd with
  | None => put_u8 0
  | Some s => put_u8 1 ++ put_u16 (wrap16 (zlen s)) ++ put_bytes s
  end.

Definition decode_svc_scores : WParser (option (list byte)) :=
  tag ← get_u8;
  if tag =? 0 then mret None
  else if tag =? 1 then
    len ← get_u16; bytes ← get_bytes len; s ← lift (from_utf8 "svc 'b' is not UTF-8" bytes); mret (Some s)
  else lift (Err (malformed "svc scores tag is not 0/1")).

(** ** Script audio *)

(** Channel gains: a [BTreeMap], its names ascending. *)
Abbreviation ChannelVolumes := (list (list byte * Z)).

Inductive ScriptAudioCommand : Type :=
| MusicPlay (alias : list byte)
| MusicStop (fade_ms : Z)
| SoundFade (volume fade_ms : Z)
| ChannelVolumesSet (client priority : Z) (volumes : option ChannelVolumes) (fade_ms : Z)
| DeactivateChannelVolumes (client priority fade_ms : Z).

Definition audio_target (cmd : ScriptAudioCommand) : option Z :=
  match cmd with
  | ChannelVolumesSet client _ _ _ | DeactivateChannelVolumes client _ _ => Some client
  | _ => None
  end.

(** [is_finite], [x >= 0.0] and [(0.0..=1.0).contains(x)] on the bits. *)
Definition f32_finite (bits : Z) : bool := Z.land bits 0x7fffffff <? 0x7f800000.
Definition f32_nonneg (bits : Z) : bool := (bits <=? 0x7f800000) || (bits =? 0x80000000).
Definition f32_unit (bits : Z) : bool := (bits <=? 0x3f800000) || (bits =? 0x80000000).

(** [*name == name.to_ascii_lowercase()]. *)
Definition ascii_lowercase (name : list byte) : bool :=
  forallb (fun b => negb ((0x41 <=? byte_val b) && (byte_val b <=? 0x5a))) name.

Definition channel_valid (channel : list byte * Z) : bool :=
  negb (zlen channel.1 =? 0) && (zlen channel.1 <=? 64) && ascii_lowercase channel.1 &&
  f32_finite channel.2 && f32_unit channel.2.

Definition audio_valid (cmd : ScriptAudioCommand) : bool :=
  match cmd with
  | MusicPlay alias => zlen alias <=? 1023
  | MusicStop fade_ms => 0 <=? fade_ms
  | ChannelVolumesSet _ priority volumes fade_ms =>
      ((1 <=? priority) && (priority <=? 3)) && (0 <=? fade_ms) &&
      match volumes with
      | Some volumes => negb (zlen volumes =? 0) && (zlen volumes <=? 64) && forallb channel_valid volumes
      | None => true
      end
  | DeactivateChannelVolumes _ priority fade_ms =>
      ((1 <=? priority) && (priority <=? 3)) && (0 <=? fade_ms)
  | SoundFade volume fade_ms => f32_finite volume && f32_nonneg volume && (0 <=? fade_ms)
  end.

Definition put_channel (channel : list byte * Z) : list byte :=
  put_u8 (wrap8 (zlen channel.1)) ++ put_bytes channel.1 ++ put_f32 channel.2.

Definition put_volumes (volumes : option ChannelVolumes) : list byte :=
  match volumes with
  | None => put_u8 0
  | Some volumes => put_u8 (wrap8 (zlen volumes)) ++ concat (map put_channel volumes)
  end.

Definition encode_script_audio (cmd : ScriptAudioCommand) : list byte :=
  match cmd with
  | ChannelVolumesSet client priority volumes fade_ms =>
      put_u8 3 ++ put_u32 client ++ put_u8 priority ++ put_i32 fade_ms ++ put_volumes volumes
  | DeactivateChannelVolumes client priority fade_ms =>
      put_u8 4 ++ put_u32 client ++ put_u8 priority ++ put_i32 fade_ms
  | MusicPlay alias => put_u8 0 ++ put_u16 (wrap16 (zlen alias)) ++ put_bytes alias
  | SoundFade volume fade_ms => put_u8 2 ++ put_f32 volume ++ put_i32 fade_ms
  | MusicStop fade_ms => put_u8 1 ++ put_i32 fade_ms
  end.

(** [volumes.insert]: [None] when the name is there already. *)
Fixpoint volumes_insert (name : list byte) (gain : Z) (volumes : ChannelVolumes) : option ChannelVolumes :=
  match volumes with
  | [] => Some [(name, gain)]
  | (n, g) :: rest =>
      if bool_decide (n = name) then None
      else if bytes_leb name n then Some ((name, gain) :: volumes)
      else rest ← volumes_insert name gain rest; Some ((n, g) :: rest)
  end.

Fixpoint decode_volumes (count : nat) (volumes : ChannelVolumes) : WParser ChannelVolumes :=
  match count with
  | O => mret volumes
  | S count =>
      len ← get_u8;
      _ ← lift (fail_if (64 <? len) (malformed "channel name exceeds limit"));
      bytes ← get_bytes len;
      name ← lift (from_utf8 "channel name is not UTF-8" bytes);
      gain ← get_f32;
      match volumes_insert name gain volumes with
      | None => lift (Err (malformed "duplicate channel gain"))
      | Some volumes => decode_volumes count volumes
      end
  end.

(** The command behind its tag, before it is checked. *)
Definition decode_audio_body (tag : Z) : WParser ScriptAudioCommand :=
  if tag =? 3 then
    client ← get_u32; priority ← get_u8; fade_ms ← get_i32; count ← get_u8;
    _ ← lift (fail_if (64 <? count) (malformed "too many channel gains"));
    volumes ← decode_volumes (Z.to_nat count) [];
    mret (ChannelVolumesSet client priority (if 0 <? count then Some volumes else None) fade_ms)
  else if tag =? 4 then
    client ← get_u32; priority ← get_u8; fade_ms ← get_i32;
    mret (DeactivateChannelVolumes client priority fade_ms)
  else if tag =? 0 then
    len ← get_u16;
    _ ← lift (fail_if (1023 <? len) (malformed "music alias exceeds limit"));
    bytes ← get_bytes len;
    alias ← lift (from_utf8 "music alias is not UTF-8" bytes);
    mret (MusicPlay alias)
  else if tag =? 2 then volume ← get_f32; fade_ms ← get_i32; mret (SoundFade volume fade_ms)
  else if tag =? 1 then fade_ms ← get_i32; mret (MusicStop fade_ms)
  else lift (Err (malformed "unknown script audio command")).

Definition decode_script_audio : WParser ScriptAudioCommand :=
  tag ← get_u8;
  command ← decode_audio_body tag;
  _ ← lift (fail_if (negb (audio_valid command)) (malformed "invalid script audio command"));
  mret command.

(** ** Rows *)

Abbreviation WireRow :=
  (ReliableRow ScriptAudioCommand SvcCardSlot SvcOpenMenu SvcHudSplash SvcGameNotify SimEvent).

Definition encode_row (row : WireRow) : option (list byte) :=
  match row with
  | RowFireCommands results => bytes ← encode_fire_results results; Some (put_u8 10 ++ bytes)
  | RowScriptAudio value => Some (put_u8 9 ++ encode_script_audio value)
  | RowSound stop index => Some (put_u8 2 ++ encode_svc_sounds [mkSound stop index])
  | RowCard value => Some (put_u8 3 ++ encode_svc_card_slots [value])
  | RowMenu value => Some (put_u8 4 ++ encode_svc_open_menus [value])
  | RowSplash value => bytes ← encode_svc_hud_splashes [value]; Some (put_u8 5 ++ bytes)
  | RowNotify value => bytes ← encode_svc_game_notifies [value]; Some (put_u8 6 ++ bytes)
  | RowFailure value => Some (put_u8 8 ++ encode_svc_scores (Some value))
  | RowScores value => Some (put_u8 7 ++ encode_svc_scores (Some value))
  | RowEvent event => Some (put_u8 0 ++ encode_event event)
  | RowActionOutcome request_id verdict =>
      Some (put_u8 1 ++ put_u32 request_id ++ put_u8 (verdict_tag verdict))
  end.

(** A list that must hold one value. *)
Definition single {A} (p : WParser (list A)) : WParser A :=
  values ← p;
  match values with
  | [value] => mret value
  | _ => lift (Err (malformed "control row count"))
  end.

Definition decode_row_body (tag : Z) : WParser WireRow :=
  if tag =? 10 then results ← decode_fire_results; mret (RowFireCommands results)
  else if tag =? 0 then event ← decode_event; mret (RowEvent event)
  else if tag =? 1 then
    request_id ← get_u32; tag ← get_u8;
    verdict ← lift (match verdict_from_tag tag with
                    | Some verdict => Ok verdict
                    | None => Err (malformed "unknown ActionVerdict tag")
                    end);
    mret (RowActionOutcome request_id verdict)
  else if tag =? 9 then value ← decode_script_audio; mret (RowScriptAudio value)
  else if tag =? 2 then value ← single decode_svc_sounds; mret (RowSound (sn_stop value) (sn_index value))
  else if tag =? 3 then value ← single decode_svc_card_slots; mret (RowCard value)
  else if tag =? 4 then value ← single decode_svc_open_menus; mret (RowMenu value)
  else if tag =? 5 then value ← single decode_svc_hud_splashes; mret (RowSplash value)
  else if tag =? 6 then value ← single decode_svc_game_notifies; mret (RowNotify value)
  else if tag =? 8 then
    cmd ← decode_svc_scores;
    match cmd with Some value => mret (RowFailure value) | None => lift (Err (malformed "missing failure")) end
  else if tag =? 7 then
    cmd ← decode_svc_scores;
    match cmd with Some value => mret (RowScores value) | None => lift (Err (malformed "missing scores")) end
  else lift (Err (malformed "unknown ReliableRow tag")).

Definition decode_row : WParser WireRow :=
  tag ← get_u8;
  decode_row_body tag.
