(* ===== verification/RowWireMain.v ===== *)
(** * Properties of the rows' wire form

    Every row the host can build is read back as it was sent. *)

From S2P Require Export FireVerdict RowWire EventWire.

(** A string of at most [n] bytes. *)
Definition valid_string (n : Z) (s : list byte) : Prop := utf8_valid s = true /\ zlen s <= n.

Lemma parses_utf8 {B} what s (k : list byte -> WParser B) u y :
  utf8_valid s = true -> parses (k s) u y -> parses (x ← lift (from_utf8 what s); k x) u y.
Proof. intros Hs Hk. eapply parses_lift; [unfold from_utf8; by rewrite Hs|done]. Qed.

(** A string behind its length. *)
Lemma parses_string8 {B} what s (k : list byte -> WParser B) u y :
  valid_string 255 s -> parses (k s) u y ->
  parses (len ← get_u8; bytes ← get_bytes len; x ← lift (from_utf8 what bytes); k x)
    (put_u8 (wrap8 (zlen s)) ++ put_bytes s ++ u) y.
Proof.
  intros [Hs Hlen] Hk. pose proof (zlen_nonneg s). assert (wrap8 (zlen s) = zlen s) as -> by ilia.
  eapply parses_bind; [apply parses_put_u8; ilia|]. cbv beta.
  eapply parses_bind; [by apply parses_get_bytes|]. cbv beta. by apply parses_utf8.
Qed.

(** One command behind its count. *)
Lemma parses_single8 {A} (encode : A -> list byte) decode valid `{!WireCodec encode decode valid} x :
  valid x ->
  parses (single (count ← get_u8; parse_list (Z.to_nat count) decode))
    (put_u8 (wrap8 (zlen [x])) ++ concat (map encode [x])) x.
Proof.
  intros Hx. unfold single. eapply parses_end.
  - change (wrap8 (zlen [x])) with 1. wire_step.
    apply (wire_list encode decode valid [x]); [done|by constructor].
  - apply parses_ret.
Qed.

Lemma parses_counted16 {A} (u : list byte) (decode : WParser A) x :
  parses decode u x -> parses (count ← get_u16; parse_list (Z.to_nat count) decode) (put_u16 1 ++ u) [x].
Proof.
  intros Hx. eapply parses_bind; [apply parses_put_u16; ilia|]. cbv beta.
  change (Z.to_nat 1) with 1%nat. cbn [parse_list].
  eapply parses_end; [exact Hx|]. cbv beta.
  apply (parses_bind (mret []) _ [] [] []); apply parses_ret.
Qed.

Lemma parses_one {A} (p : WParser (list A)) u x : parses p u [x] -> parses (single p) u x.
Proof. intros Hp. unfold single. apply (parses_end _ _ _ [x]); [exact Hp|apply parses_ret]. Qed.

#[export] Instance sound_codec : WireCodec put_sound get_sound (fun s => is_u8 (sn_index s)).
Proof.
  split. intros [stop index] Hv. unfold put_sound, get_sound. cbn [sn_index] in *.
  assert (is_u8 (sound_tag (mkSound stop index))) by (by destruct stop).
  wire_step. eapply parses_end; [solve [eauto with wire]|].
  eapply parses_lift; [by destruct stop|]. apply parses_ret.
Qed.

#[export] Instance card_slot_codec :
  WireCodec put_card_slot get_card_slot (fun c => is_u32 (cs_client c) /\ is_i32 (cs_slot c)).
Proof. split. intros [client slot] [? ?]. unfold put_card_slot, get_card_slot. wire_step. wire_last. Qed.

#[export] Instance open_menu_codec :
  WireCodec put_open_menu get_open_menu (fun m => is_i32 (om_cs_index m)).
Proof. split. intros [index] ?. unfold put_open_menu, get_open_menu. wire_last. Qed.

Definition valid_splash (s : SvcHudSplash) : Prop :=
  utf8_valid (hs_key s) = true /\ 0 <= hs_slot s < 5 /\ is_i32 (hs_optional s).

#[export] Instance splash_codec : PartialCodec put_splash get_splash valid_splash.
Proof.
  split. intros [key slot optional] u (Hk & Hslot & Ho). unfold put_splash, get_splash, put_u16_checked.
  cbn [hs_key hs_slot hs_optional] in *. pose proof (zlen_nonneg key).
  destruct (Z.leb_spec (zlen key) u16_max); [|done]. cbn [mbind option_bind]. intros Hu.
  apply (inj Some) in Hu as <-.
  assert (is_u16 (zlen key)) by (unfold is_u16; lia). assert (is_i32 slot) by (unfold is_i32, i32_min, i32_max; lia).
  wire_step. eapply parses_bind; [by apply parses_get_bytes|]. cbv beta. apply parses_utf8; [done|].
  wire_step. eapply parses_lift.
  { unfold fail_if. by rewrite (proj2 (Z.leb_le 0 slot)), (proj2 (Z.ltb_lt slot 5)) by lia. }
  wire_last.
Qed.

Definition valid_notify (n : SvcGameNotify) : Prop :=
  is_u32 (gn_id n) /\ known_notify_tag (gn_tag n) = true /\ valid_string 255 (gn_name n) /\
  valid_string 255 (gn_key n).

Lemma known_tag_u8 tag : known_notify_tag tag = true -> is_u8 tag.
Proof.
  unfold known_notify_tag, SVC_DISCONNECT_NOTIFY, SVC_PRINT, SVC_PRINT_BOLD, SVC_CHAT, is_u8, u8_max.
  rewrite !orb_true_iff, !Z.eqb_eq. lia.
Qed.

#[export] Instance notify_codec : WireCodec put_notify get_notify valid_notify.
Proof.
  split. intros [id tag name key] (Hi & Ht & Hn & Hk). unfold put_notify, get_notify.
  cbn [gn_id gn_tag gn_name gn_key] in *. pose proof (known_tag_u8 tag Ht).
  do 2 wire_step. eapply parses_lift; [unfold fail_if; by rewrite Ht|].
  apply parses_string8; [done|]. rewrite <- (app_nil_r (put_bytes key)). apply parses_string8; [done|].
  apply parses_ret.
Qed.

Lemma parses_scores s :
  valid_string u16_max s -> parses decode_svc_scores (encode_svc_scores (Some s)) (Some s).
Proof.
  intros [Hs Hlen]. unfold decode_svc_scores. cbn [encode_svc_scores]. pose proof (zlen_nonneg s).
  assert (wrap16 (zlen s) = zlen s) as -> by ilia. assert (is_u16 (zlen s)) by (unfold is_u16; lia).
  wire_step. cbn [Z.eqb Pos.eqb]. wire_step. eapply parses_end; [by apply parses_get_bytes|].
  apply parses_utf8; [done|]. apply parses_ret.
Qed.

(** ** Script audio *)

Lemma bytes_leb_antisym a b : bytes_leb a b = true -> bytes_leb b a = true -> a = b.
Proof.
  revert b. induction a as [|x a IH]; intros [|y b]; cbn; try done.
  rewrite !orb_true_iff, !andb_true_iff, !Z.ltb_lt, !Z.eqb_eq. intros [|[Hx Hab]] [|[Hy Hba]]; try lia.
  apply byte_val_inj in Hx as ->. by rewrite (IH b Hab Hba).
Qed.

(** Names in a [BTreeMap]'s order, each once. *)
Definition name_before (a b : list byte * Z) : Prop := a.1 <> b.1 /\ bytes_leb a.1 b.1 = true.

Lemma insert_last name gain before :
  Forall (fun c => name_before c (name, gain)) before ->
  volumes_insert name gain before = Some (before ++ [(name, gain)]).
Proof.
  induction 1 as [|[n g] before [Hne Hle] _ IH]; [done|]. cbn [volumes_insert fst snd] in *.
  rewrite bool_decide_eq_false_2 by done. destruct (bytes_leb name n) eqn:E.
  - destruct Hne. by apply bytes_leb_antisym.
  - by rewrite IH.
Qed.

Definition valid_channel (c : list byte * Z) : Prop := utf8_valid c.1 = true /\ zlen c.1 <= 64 /\ is_u32 c.2.

Lemma parses_volumes rest before :
  Forall valid_channel rest -> StronglySorted name_before (before ++ rest) ->
  parses (decode_volumes (length rest) before) (concat (map put_channel rest)) (before ++ rest).
Proof.
  induction rest as [|[name gain] rest IH] in before |- *; intros Hv Hsort.
  { rewrite app_nil_r. apply parses_ret. }
  apply list.Forall_cons in Hv as [(Hs & Hlen & Hg) Hv]. cbn [fst snd length map concat decode_volumes] in *.
  unfold put_channel at 1. cbn [fst snd]. rewrite <- !app_assoc. pose proof (zlen_nonneg name).
  assert (wrap8 (zlen name) = zlen name) as -> by ilia. assert (is_u8 (zlen name)) by (unfold is_u8, u8_max; lia).
  wire_step. eapply parses_lift; [unfold fail_if; by rewrite (proj2 (Z.ltb_ge 64 (zlen name)))|].
  eapply parses_bind; [by apply parses_get_bytes|]. cbv beta. apply parses_utf8; [done|]. wire_step.
  rewrite insert_last.
  - change ((name, gain) :: rest) with ([(name, gain)] ++ rest) in *. rewrite app_assoc in *. by apply IH.
  - apply list.Forall_forall. intros c Hc. clear -Hsort Hc. induction before as [|b before IH].
    { by apply not_elem_of_nil in Hc. }
    cbn [app] in Hsort. apply StronglySorted_inv in Hsort as [Hsort Hb].
    apply elem_of_cons in Hc as [->|Hc]; [|auto]. rewrite list.Forall_forall in Hb. apply Hb.
    apply elem_of_app. right. by left.
Qed.

(** The host's commands: checked by [valid], strings in UTF-8, gains in a map's order. *)
Definition valid_audio (cmd : ScriptAudioCommand) : Prop :=
  audio_valid cmd = true /\
  match cmd with
  | MusicPlay alias => utf8_valid alias = true
  | MusicStop fade_ms => is_i32 fade_ms
  | SoundFade volume fade_ms => is_u32 volume /\ is_i32 fade_ms
  | ChannelVolumesSet client _ volumes fade_ms =>
      is_u32 client /\ is_i32 fade_ms /\
      match volumes with
      | Some volumes => Forall (fun c => utf8_valid c.1 = true /\ is_u32 c.2) volumes /\
                        StronglySorted name_before volumes
      | None => True
      end
  | DeactivateChannelVolumes client _ fade_ms => is_u32 client /\ is_i32 fade_ms
  end.

Lemma priority_u8 p : (1 <=? p) && (p <=? 3) = true -> is_u8 p.
Proof. rewrite andb_true_iff, !Z.leb_le. unfold is_u8, u8_max. lia. Qed.

Lemma volumes_channels volumes :
  forallb channel_valid volumes = true -> Forall (fun c => utf8_valid c.1 = true /\ is_u32 c.2) volumes ->
  Forall valid_channel volumes.
Proof.
  rewrite forallb_forall. intros H1 H2. apply list.Forall_forall. intros c Hc.
  rewrite list.Forall_forall in H2. destruct (H2 c Hc) as [? ?].
  specialize (H1 c (proj1 (list_elem_of_In _ _) Hc)). unfold channel_valid in H1.
  rewrite !andb_true_iff, Z.leb_le in H1. unfold valid_channel. tauto.
Qed.


#[export] Instance audio_codec : WireCodec encode_script_audio decode_script_audio valid_audio.
Proof.
  split. intros cmd [Hvalid Hv]. unfold decode_script_audio.
  assert (Hend : parses (_ ← lift (fail_if (negb (audio_valid cmd)) (malformed "invalid script audio command"));
                         mret cmd) [] cmd).
  { eapply parses_lift; [unfold fail_if; by rewrite Hvalid|]. apply parses_ret. }
  destruct cmd as [alias|fade_ms|volume fade_ms|client priority volumes fade_ms|client priority fade_ms];
    cbn [encode_script_audio audio_valid] in *;
    (wire_step; eapply parses_end; [|exact Hend]); unfold decode_audio_body; cbn [Z.eqb Pos.eqb].
  - apply Z.leb_le in Hvalid. pose proof (zlen_nonneg alias).
    assert (wrap16 (zlen alias) = zlen alias) as -> by ilia.
    assert (is_u16 (zlen alias)) by (unfold is_u16, u16_max; lia). wire_step.
    eapply parses_lift; [unfold fail_if; by rewrite (proj2 (Z.ltb_ge 1023 (zlen alias)))|].
    eapply parses_end; [by apply parses_get_bytes|]. apply parses_utf8; [done|]. apply parses_ret.
  - wire_last.
  - destruct Hv. wire_step. wire_last.
  - destruct Hv as (Hc & Hf & Hvol). rewrite !andb_true_iff in Hvalid. destruct Hvalid as [[Hp _] Hvs].
    assert (is_u8 priority) by (apply priority_u8; by apply andb_true_iff). do 3 wire_step.
    destruct volumes as [volumes|]; cbn [put_volumes].
    + destruct Hvol as [Hch Hsort]. rewrite !andb_true_iff, negb_true_iff, Z.eqb_neq, Z.leb_le in Hvs.
      destruct Hvs as [[Hne Hlen] Hvs]. pose proof (zlen_nonneg volumes).
      assert (wrap8 (zlen volumes) = zlen volumes) as -> by ilia.
      assert (is_u8 (zlen volumes)) by (unfold is_u8, u8_max; lia). wire_step.
      eapply parses_lift; [unfold fail_if; by rewrite (proj2 (Z.ltb_ge 64 (zlen volumes)))|].
      rewrite (proj2 (Z.ltb_lt 0 (zlen volumes))) by lia.
      assert (Z.to_nat (zlen volumes) = length volumes) as -> by (unfold zlen; lia).
      eapply parses_end; [|apply parses_ret]. apply (parses_volumes volumes []); [|done].
      by apply volumes_channels.
    + eapply parses_end; [solve [eauto with wire]|]. apply parses_ret.
  - destruct Hv. rewrite andb_true_iff in Hvalid. destruct Hvalid as [Hp _].
    pose proof (priority_u8 priority Hp). do 2 wire_step. wire_last.
Qed.

(** ** Rows *)

Definition valid_row (row : WireRow) : Prop :=
  match row with
  | RowFailure s | RowScores s => valid_string u16_max s
  | RowSound _ index => is_u8 index
  | RowScriptAudio cmd => valid_audio cmd
  | RowCard c => is_u32 (cs_client c) /\ is_i32 (cs_slot c)
  | RowMenu m => is_i32 (om_cs_index m)
  | RowSplash s => valid_splash s
  | RowNotify n => valid_notify n
  | RowEvent event => valid_event event
  | RowFireCommands results => Forall valid_result results
  | RowActionOutcome request_id _ => is_u32 request_id
  end.

Lemma verdict_codec v : verdict_from_tag (verdict_tag v) = Some v /\ is_u8 (verdict_tag v).
Proof. by destruct v. Qed.

Lemma parses_notifies value :
  valid_notify value -> parses decode_svc_game_notifies (put_u16 1 ++ put_notify value) [value].
Proof.
  intros Hv pre post Hfit. unfold decode_svc_game_notifies.
  assert (Hr : remaining (mkReader (pre ++ (put_u16 1 ++ put_notify value) ++ post) (zlen pre)) =? 0 = false).
  { unfold remaining. cbn [rd_bytes rd_cursor]. rewrite !zlen_app. unfold put_u16. rewrite zlen_le_bytes.
    pose proof (zlen_nonneg (put_notify value)). pose proof (zlen_nonneg post). apply Z.eqb_neq. lia. }
  rewrite Hr. clear Hr. revert pre post Hfit. change (parses (count ← get_u16; parse_list (Z.to_nat count) get_notify)
    (put_u16 1 ++ put_notify value) [value]). by apply parses_counted16, wire_parses.
Qed.

#[export] Instance row_codec : PartialCodec encode_row decode_row valid_row.
Proof.
  split. intros row u Hv Hu. unfold decode_row, decode_row_body.
  destruct row as [reason|stop index|cmd|card|menu|splash|notify|cmd|event|results|r verdict];
    cbn [encode_row valid_row] in *.
  1,2,3,4,5,8,9: apply (inj Some) in Hu as <-; wire_step; cbn [Z.eqb Pos.eqb].
  - eapply parses_end; [by apply parses_scores|]. apply parses_ret.
  - eapply (parses_end _ _ _ (mkSound stop index)); [by eapply parses_single8; [apply _|]|]. apply parses_ret.
  - eapply parses_end; [by apply wire_parses|]. apply parses_ret.
  - eapply parses_end; [by eapply parses_single8; [apply _|]|]. apply parses_ret.
  - eapply parses_end; [by eapply parses_single8; [apply _|]|]. apply parses_ret.
  - eapply parses_end; [by apply parses_scores|]. apply parses_ret.
  - eapply parses_end; [by apply wire_parses|]. apply parses_ret.
  - (* a splash *)
    unfold encode_svc_hud_splashes in Hu. change (put_u16_checked (zlen [splash])) with (Some (put_u16 1)) in Hu.
    cbn [mapM] in Hu. destruct (put_splash splash) as [b|] eqn:Eb; [|done].
    cbn [mbind option_bind mret option_ret concat] in Hu. rewrite app_nil_r in Hu. apply (inj Some) in Hu as <-.
    wire_step; cbn [Z.eqb Pos.eqb]. eapply parses_end; [|apply parses_ret].
    apply parses_one, parses_counted16. by apply partial_parses.
  - unfold encode_svc_game_notifies in Hu. change (put_u16_checked (zlen [notify])) with (Some (put_u16 1)) in Hu.
    cbn [mbind option_bind map concat] in Hu. rewrite app_nil_r in Hu. apply (inj Some) in Hu as <-.
    wire_step; cbn [Z.eqb Pos.eqb]. eapply parses_end; [by apply parses_one, parses_notifies|]. apply parses_ret.
  - destruct (encode_fire_results results) as [b|] eqn:Eb; [|done]. apply (inj Some) in Hu as <-.
    wire_step; cbn [Z.eqb Pos.eqb]. eapply parses_end; [|apply parses_ret]. by apply fire_results_parse.
  - apply (inj Some) in Hu as <-. destruct (verdict_codec verdict) as [Hd ?]. wire_step. cbn [Z.eqb Pos.eqb].
    wire_step. eapply parses_end; [solve [eauto with wire]|].
    eapply parses_lift; [by rewrite Hd|]. apply parses_ret.
Qed.
