(* ===== verification/Protocol.v ===== *)
(** * The game protocol's packets

    crates/net/src/transport/protocol.rs: handshakes, packet headers, the packets of clients and
    of the host and their byte forms, with [encode_usercmd] and [decode_usercmd] of delta.rs and
    [encode_reliable_payload] and [decode_reliable_payload] of reliable.rs.  zstd is an argument,
    as in [SegmentDelta]. *)

From S2P Require Export Wire ActionWire RowWire Reliable SegmentDelta.

Definition GAME_PROTOCOL_VERSION : Z := 119.
Definition AUTHORITY_HZ : Z := 20.
Definition MAX_REDUNDANT_CMDS : Z := 256.

Record ContentFingerprint : Type := mkContent {
  cf_gameplay : Z;
  cf_map : Z;
  cf_models : Z;
  cf_weapons : Z;
  cf_classes : Z;
}.

Record MatchDescriptor : Type := mkDescriptor { md_map : Z; md_weapons : Z; md_classes : Z }.

Definition match_descriptor (content : ContentFingerprint) : option MatchDescriptor :=
  if cf_map content =? 0 then None
  else Some (mkDescriptor (cf_map content) (cf_weapons content) (cf_classes content)).

Record ProtocolLimits : Type := mkLimits {
  pl_authority_hz : Z;
  pl_max_cmds_per_tick : Z;
  pl_max_actions_per_tick : Z;
  pl_max_packet_bytes : Z;
}.

#[export] Instance limits_eq_dec : EqDecision ProtocolLimits.
Proof. solve_decision. Defined.

Definition default_listen : ProtocolLimits :=
  mkLimits AUTHORITY_HZ MAX_REDUNDANT_CMDS 32 MAX_PACKET_BYTES.

Record HandshakeHello : Type := mkHello {
  hh_protocol_version : Z;
  hh_content : ContentFingerprint;
  hh_limits : ProtocolLimits;
}.

Definition hello_current (content : ContentFingerprint) : HandshakeHello :=
  mkHello GAME_PROTOCOL_VERSION content default_listen.

Inductive HandshakeReject : Type :=
| RejectProtocolVersion (ours theirs : Z)
| RejectMapContent (ours theirs : Z)
| RejectWeaponRegistry (ours theirs : Z)
| RejectClassRegistry (ours theirs : Z)
| RejectTickRate (ours theirs : Z)
| RejectLimits.

Definition evaluate_handshake (server client : HandshakeHello) : Result HandshakeReject () :=
  let sc := hh_content server in
  let cc := hh_content client in
  let sl := hh_limits server in
  let cl := hh_limits client in
  if negb (hh_protocol_version server =? hh_protocol_version client) then
    Err (RejectProtocolVersion (hh_protocol_version server) (hh_protocol_version client))
  else if (cf_map sc =? 0) || (cf_map cc =? 0) || negb (cf_map sc =? cf_map cc) then
    Err (RejectMapContent (cf_map sc) (cf_map cc))
  else if negb (cf_weapons sc =? cf_weapons cc) then
    Err (RejectWeaponRegistry (cf_weapons sc) (cf_weapons cc))
  else if negb (cf_classes sc =? cf_classes cc) then
    Err (RejectClassRegistry (cf_classes sc) (cf_classes cc))
  else if negb (pl_authority_hz sl =? pl_authority_hz cl) then
    Err (RejectTickRate (pl_authority_hz sl) (pl_authority_hz cl))
  else if negb (bool_decide (sl = cl)) then Err RejectLimits
  else Ok ().

Record PacketHeader : Type := mkPacketHeader {
  ph_connection : Z;
  ph_sequence : Z;
  ph_ack : Z;
  ph_epoch : Z;
}.

Definition applies_to_epoch (h : PacketHeader) (live : Z) : bool := ph_epoch h =? live.

(** [UserCmd] of crates/playerstate_iw4/src/usercmd.rs; floats are their bits. *)
Record UserCmd : Type := mkUserCmd {
  uc_server_time : Z;
  uc_buttons : Z;
  uc_angles : list Z;
  uc_gun_angle_offset : list Z;
  uc_weapon : Z;
  uc_weapon_mapped : Z;
  uc_off_hand_index : Z;
  uc_forwardmove : Z;
  uc_rightmove : Z;
  uc_melee_charge_yaw : Z;
  uc_melee_charge_dist : Z;
  uc_selected_location : list byte;
  uc_remote_control : list byte;
}.

Inductive ShotSampleQuality : Type := SsNone | SsExact | SsInterpolated | SsHeld | SsStarved.

Record ShotSampleProvenance : Type := mkSample {
  ss_left : Z;
  ss_right : Z;
  ss_alpha : Z;
  ss_quality : ShotSampleQuality;
}.

(** ** Parts *)

Definition shot_sample_quality_tag (q : ShotSampleQuality) : Z :=
  match q with SsNone => 0 | SsExact => 1 | SsInterpolated => 2 | SsHeld => 3 | SsStarved => 4 end.

Definition shot_sample_quality_from_tag (tag : Z) : option ShotSampleQuality :=
  if tag =? 0 then Some SsNone
  else if tag =? 1 then Some SsExact
  else if tag =? 2 then Some SsInterpolated
  else if tag =? 3 then Some SsHeld
  else if tag =? 4 then Some SsStarved
  else None.

Definition encode_shot_sample (s : ShotSampleProvenance) : list byte :=
  put_u32 (ss_left s) ++ put_u32 (ss_right s) ++ put_u32 (ss_alpha s)
  ++ put_u8 (shot_sample_quality_tag (ss_quality s)) ++ [].

Definition decode_shot_sample : WParser ShotSampleProvenance :=
  left ← get_u32; right ← get_u32; alpha ← get_u32; tag ← get_u8;
  quality ← lift (ok_or (malformed "unknown ShotSampleQuality tag") (shot_sample_quality_from_tag tag));
  mret (mkSample left right alpha quality).

(** The [put_u64] of protocol.rs: the high half first. *)
Definition put_u64_halves (v : Z) : list byte := put_u32 (Z.shiftr v 32) ++ put_u32 (wrap32 v).

Definition get_u64_halves : WParser Z :=
  hi ← get_u32; lo ← get_u32; mret (Z.lor (Z.shiftl hi 32) lo).

Definition put_hello (h : HandshakeHello) : list byte :=
  put_u32 (hh_protocol_version h)
  ++ put_u64_halves (cf_gameplay (hh_content h)) ++ put_u64_halves (cf_map (hh_content h))
  ++ put_u64_halves (cf_models (hh_content h)) ++ put_u64_halves (cf_weapons (hh_content h))
  ++ put_u64_halves (cf_classes (hh_content h))
  ++ put_u32 (pl_authority_hz (hh_limits h)) ++ put_u16 (pl_max_cmds_per_tick (hh_limits h))
  ++ put_u16 (pl_max_actions_per_tick (hh_limits h)) ++ put_u32 (pl_max_packet_bytes (hh_limits h))
  ++ [].

Definition get_hello : WParser HandshakeHello :=
  protocol_version ← get_u32;
  gameplay ← get_u64_halves; map ← get_u64_halves; models ← get_u64_halves;
  weapons ← get_u64_halves; classes ← get_u64_halves;
  authority_hz ← get_u32; max_cmds ← get_u16; max_actions ← get_u16; max_packet ← get_u32;
  mret (mkHello protocol_version (mkContent gameplay map models weapons classes)
          (mkLimits authority_hz max_cmds max_actions max_packet)).

Definition put_header (h : PacketHeader) : list byte :=
  put_u64_halves (ph_connection h)
  ++ put_u32 (ph_sequence h) ++ put_u32 (ph_ack h) ++ put_u32 (ph_epoch h) ++ [].

Definition get_header : WParser PacketHeader :=
  connection ← get_u64_halves; sequence ← get_u32; ack ← get_u32; epoch ← get_u32;
  mret (mkPacketHeader connection sequence ack epoch).

Definition put_reject (r : HandshakeReject) : list byte :=
  match r with
  | RejectProtocolVersion ours theirs => put_u8 1 ++ put_u32 ours ++ put_u32 theirs ++ []
  | RejectMapContent ours theirs => put_u8 2 ++ put_u64_halves ours ++ put_u64_halves theirs ++ []
  | RejectWeaponRegistry ours theirs => put_u8 3 ++ put_u64_halves ours ++ put_u64_halves theirs ++ []
  | RejectClassRegistry ours theirs => put_u8 4 ++ put_u64_halves ours ++ put_u64_halves theirs ++ []
  | RejectTickRate ours theirs => put_u8 5 ++ put_u32 ours ++ put_u32 theirs ++ []
  | RejectLimits => put_u8 6 ++ []
  end.

Definition get_reject : WParser HandshakeReject :=
  tag ← get_u8;
  if tag =? 1 then ours ← get_u32; theirs ← get_u32; mret (RejectProtocolVersion ours theirs)
  else if tag =? 2 then
    ours ← get_u64_halves; theirs ← get_u64_halves; mret (RejectMapContent ours theirs)
  else if tag =? 3 then
    ours ← get_u64_halves; theirs ← get_u64_halves; mret (RejectWeaponRegistry ours theirs)
  else if tag =? 4 then
    ours ← get_u64_halves; theirs ← get_u64_halves; mret (RejectClassRegistry ours theirs)
  else if tag =? 5 then ours ← get_u32; theirs ← get_u32; mret (RejectTickRate ours theirs)
  else if tag =? 6 then mret RejectLimits
  else lift (Err (malformed "unknown HandshakeReject tag")).

Definition encode_usercmd (c : UserCmd) : list byte :=
  put_i32 (uc_server_time c) ++ put_u32 (uc_buttons c) ++ concat (map put_i32 (uc_angles c))
  ++ put_u16 (uc_weapon c) ++ put_u16 (uc_weapon_mapped c) ++ put_u16 (uc_off_hand_index c)
  ++ put_i8 (uc_forwardmove c) ++ put_i8 (uc_rightmove c) ++ put_f32 (uc_melee_charge_yaw c)
  ++ put_u8 (uc_melee_charge_dist c) ++ put_bytes (uc_selected_location c)
  ++ put_bytes (uc_remote_control c) ++ concat (map put_f32 (uc_gun_angle_offset c)) ++ [].

(** [f32::is_finite]: the exponent is not all ones. *)
Definition is_finite (bits : Z) : bool := negb (Z.land bits 0x7f800000 =? 0x7f800000).

Definition get_gun_angle : WParser Z :=
  angle ← get_f32;
  _ ← lift (fail_if (negb (is_finite angle)) (malformed "non-finite gun aim"));
  mret angle.

Definition decode_usercmd : WParser UserCmd :=
  server_time ← get_i32; buttons ← get_u32; angles ← parse_list 3 get_i32;
  weapon ← get_u16; weapon_mapped ← get_u16; off_hand_index ← get_u16;
  forwardmove ← get_i8; rightmove ← get_i8; melee_charge_yaw ← get_f32;
  melee_charge_dist ← get_u8; selected_location ← get_bytes 3; remote_control ← get_bytes 2;
  gun_angle_offset ← parse_list 2 get_gun_angle;
  mret (mkUserCmd server_time buttons angles gun_angle_offset weapon weapon_mapped off_hand_index
          forwardmove rightmove melee_charge_yaw melee_charge_dist selected_location remote_control).

(** ** Packets *)

Section Packets.
(** [zstd::bulk::compress(_, 1)], and the decompressor of [segment_delta::decompress]. *)
Context (zstd_compress : list byte -> option (list byte)).
Context (zstd_decompress : list byte -> Z -> option (list byte)).

Inductive ClientPacket : Type :=
| Connect (hello : HandshakeHello)
| Commands (header : PacketHeader) (claimed_client : Z) (cmds : list (Z * UserCmd))
    (samples : list (Z * ShotSampleProvenance)) (actions : list ClientAction) (reliable_ack : Z)
| SnapshotAck (header : PacketHeader) (snapshot_seq : Z).

Inductive ServerPacket : Type :=
| Control (header : PacketHeader) (payload : ReliablePayload WireRow)
| Accept (connection assigned_client : Z) (hello : HandshakeHello)
| Reject (reject : HandshakeReject)
| Snapshot (header : PacketHeader) (baseline_seq snapshot_seq : Z) (payload : SnapshotPayload).

Definition with_seq {A} (encode : A -> list byte) (p : Z * A) : list byte :=
  put_u32 p.1 ++ encode p.2 ++ [].

Definition get_with_seq {A} (decode : WParser A) : WParser (Z * A) :=
  seq ← get_u32; x ← decode; mret (seq, x).

Definition encode_client_packet (p : ClientPacket) : list byte :=
  match p with
  | Connect hello => put_u8 1 ++ put_hello hello ++ []
  | Commands header claimed_client cmds samples actions reliable_ack =>
      put_u8 2 ++ put_header header ++ put_u32 claimed_client ++ put_u16 reliable_ack
      ++ put_u16 (wrap16 (zlen cmds)) ++ concat (map (with_seq encode_usercmd) cmds)
      ++ put_u16 (wrap16 (zlen samples)) ++ concat (map (with_seq encode_shot_sample) samples)
      ++ put_u16 (wrap16 (zlen actions)) ++ concat (map encode_action actions) ++ []
  | SnapshotAck header snapshot_seq => put_u8 3 ++ put_header header ++ put_u32 snapshot_seq ++ []
  end.

Definition client_packet_decode : WParser ClientPacket :=
  tag ← get_u8;
  if tag =? 1 then hello ← get_hello; mret (Connect hello)
  else if tag =? 2 then
    header ← get_header; claimed_client ← get_u32; reliable_ack ← get_u16;
    cmd_count ← get_u16; cmds ← parse_list (Z.to_nat cmd_count) (get_with_seq decode_usercmd);
    sample_count ← get_u16;
    samples ← parse_list (Z.to_nat sample_count) (get_with_seq decode_shot_sample);
    action_count ← get_u16; actions ← parse_list (Z.to_nat action_count) decode_action;
    mret (Commands header claimed_client cmds samples actions reliable_ack)
  else if tag =? 3 then
    header ← get_header; snapshot_seq ← get_u32; mret (SnapshotAck header snapshot_seq)
  else lift (Err (malformed "unknown ClientPacket tag")).

(** The frame of a reliable payload around its rows. *)
Definition put_row (p : Z * WireRow) : option (list byte) :=
  row ← encode_row p.2; Some (put_u16 p.1 ++ row).
Definition get_row : WParser (Z * WireRow) := seq ← get_u16; row ← decode_row; mret (seq, row).

Definition encode_reliable_payload (p : ReliablePayload WireRow) : option (list byte) :=
  rows ← mapM put_row (pl_rows p);
  Some (put_u16 (pl_ack_through p) ++ put_u16 (wrap16 (zlen (pl_rows p))) ++ concat rows
        ++ put_u32 (pl_dropped_oldest p) ++ []).

Definition decode_reliable_payload : WParser (ReliablePayload WireRow) :=
  ack_through ← get_u16; count ← get_u16;
  _ ← lift (fail_if (MAX_PENDING_RELIABLE <? count) (malformed "reliable row capacity"));
  rows ← parse_list (Z.to_nat count) get_row; dropped_oldest ← get_u32;
  mret (mkPayload ack_through rows dropped_oldest).

(** The compressed form of a plain snapshot, where it is smaller. *)
Definition compressed_form (payload : list byte) : option (list byte) :=
  match zstd_compress payload with
  | Some bytes => if zlen bytes + 4 <? zlen payload then Some bytes else None
  | None => None
  end.

(** A snapshot, behind its tag. *)
Definition encode_snapshot (header : PacketHeader) (baseline_seq snapshot_seq : Z)
    (payload : SnapshotPayload) : list byte :=
  match payload with
  | AgainstBaseline decoded_len compressed =>
      put_u8 15 ++ put_header header ++ put_u32 baseline_seq ++ put_u32 snapshot_seq
      ++ put_u32 decoded_len ++ put_u32 (wrap32 (zlen compressed)) ++ put_bytes compressed ++ []
  | Plain payload =>
      match compressed_form payload with
      | Some compressed =>
          put_u8 14 ++ put_header header ++ put_u32 baseline_seq ++ put_u32 snapshot_seq
          ++ put_u32 (wrap32 (zlen payload)) ++ put_u32 (wrap32 (zlen compressed))
          ++ put_bytes compressed ++ []
      | None =>
          put_u8 12 ++ put_header header ++ put_u32 baseline_seq ++ put_u32 snapshot_seq
          ++ put_u32 (wrap32 (zlen payload)) ++ put_bytes payload ++ []
      end
  end.

(** [None] when the encoder of a row panics. *)
Definition encode_server_packet (p : ServerPacket) : option (list byte) :=
  match p with
  | Control header payload =>
      rows ← encode_reliable_payload payload;
      Some (put_u8 13 ++ put_header header ++ rows)
  | Accept connection assigned_client hello =>
      Some (put_u8 10 ++ put_u64_halves connection ++ put_u32 assigned_client ++ put_hello hello ++ [])
  | Reject reject => Some (put_u8 11 ++ put_reject reject ++ [])
  | Snapshot header baseline_seq snapshot_seq payload =>
      Some (encode_snapshot header baseline_seq snapshot_seq payload)
  end.

(** [len > MAX_PACKET_BYTES || len > input.remaining()]. *)
Definition check_len (len : Z) : WParser () := fun rd =>
  if (MAX_PACKET_BYTES <? len) || (remaining rd <? len)
  then Err (malformed "invalid snapshot payload length") else Ok ((), rd).

Definition server_packet_decode : WParser ServerPacket :=
  tag ← get_u8;
  if tag =? 13 then
    header ← get_header; payload ← decode_reliable_payload; mret (Control header payload)
  else if tag =? 10 then
    connection ← get_u64_halves; assigned_client ← get_u32; hello ← get_hello;
    mret (Accept connection assigned_client hello)
  else if tag =? 11 then reject ← get_reject; mret (Reject reject)
  else if tag =? 15 then
    header ← get_header; baseline_seq ← get_u32; snapshot_seq ← get_u32; decoded_len ← get_u32;
    _ ← lift (fail_if (MAX_PACKET_BYTES <? decoded_len)
                      (malformed "snapshot exceeds decoded size limit"));
    len ← get_u32; _ ← check_len len; compressed ← get_bytes len;
    mret (Snapshot header baseline_seq snapshot_seq (AgainstBaseline decoded_len compressed))
  else if (tag =? 12) || (tag =? 14) then
    header ← get_header; baseline_seq ← get_u32; snapshot_seq ← get_u32;
    decoded_len ← (if tag =? 14 then
                     len ← get_u32;
                     _ ← lift (fail_if (MAX_PACKET_BYTES <? len)
                                       (malformed "snapshot exceeds decoded size limit"));
                     mret (Some len)
                   else mret None);
    payload_len ← get_u32; _ ← check_len payload_len; payload ← get_bytes payload_len;
    payload ← lift
      (match decoded_len with
       | None => Ok payload
       | Some decoded_len =>
           match delta_decompress zstd_decompress payload decoded_len with
           | None => Err (malformed "invalid compressed snapshot")
           | Some p => if negb (zlen p =? decoded_len)
                       then Err (malformed "snapshot decoded length mismatch") else Ok p
           end
       end);
    mret (Snapshot header baseline_seq snapshot_seq (Plain payload))
  else lift (Err (malformed "unknown ServerPacket tag")).

(** Decoding a datagram: within the size limit, and nothing behind the packet. *)
Definition decode_whole {A} (what : WireError) (p : WParser A) (bytes : list byte)
    (limits : ProtocolLimits) : Result WireError A :=
  if pl_max_packet_bytes limits <? wrap32 (zlen bytes)
  then Err (malformed "datagram exceeds max_packet_bytes")
  else
    match p (mkReader bytes 0) with
    | Err e => Err e
    | Ok (packet, rd) => if negb (reader_is_empty rd) then Err what else Ok packet
    end.

Definition decode_client_packet (bytes : list byte) (limits : ProtocolLimits)
    : Result WireError ClientPacket :=
  packet ← decode_whole (malformed "trailing bytes after ClientPacket") client_packet_decode bytes limits;
  match packet with
  | Commands _ _ cmds _ actions _ =>
      if pl_max_cmds_per_tick limits <? wrap16 (zlen cmds)
      then Err (malformed "cmd_count exceeds limit")
      else if pl_max_actions_per_tick limits <? wrap16 (zlen actions)
      then Err (malformed "action_count exceeds limit")
      else Ok packet
  | _ => Ok packet
  end.

Definition decode_server_packet (bytes : list byte) (limits : ProtocolLimits)
    : Result WireError ServerPacket :=
  decode_whole (malformed "trailing bytes after ServerPacket") server_packet_decode bytes limits.
End Packets.
