(* ===== verification/ProtocolMain.v ===== *)
(** * The game protocol's packets: properties

    Every well-formed packet within the limits is read back as it was sent, and a handshake is
    accepted exactly between equal builds and equal content. *)

From S2P Require Export Protocol SegmentDeltaProofs ActionWire RowWireMain.

(** ** Well-formed values: the machine types of the fields *)

Definition valid_content (c : ContentFingerprint) : Prop :=
  is_u64 (cf_gameplay c) /\ is_u64 (cf_map c) /\ is_u64 (cf_models c) /\ is_u64 (cf_weapons c) /\
  is_u64 (cf_classes c).

Definition valid_limits (l : ProtocolLimits) : Prop :=
  is_u32 (pl_authority_hz l) /\ is_u16 (pl_max_cmds_per_tick l) /\
  is_u16 (pl_max_actions_per_tick l) /\ is_u32 (pl_max_packet_bytes l).

Definition valid_hello (h : HandshakeHello) : Prop :=
  is_u32 (hh_protocol_version h) /\ valid_content (hh_content h) /\ valid_limits (hh_limits h).

Definition valid_header (h : PacketHeader) : Prop :=
  is_u64 (ph_connection h) /\ is_u32 (ph_sequence h) /\ is_u32 (ph_ack h) /\ is_u32 (ph_epoch h).

Definition valid_reject (r : HandshakeReject) : Prop :=
  match r with
  | RejectProtocolVersion a b | RejectTickRate a b => is_u32 a /\ is_u32 b
  | RejectMapContent a b | RejectWeaponRegistry a b | RejectClassRegistry a b => is_u64 a /\ is_u64 b
  | RejectLimits => True
  end.

Definition valid_sample (s : ShotSampleProvenance) : Prop :=
  is_u32 (ss_left s) /\ is_u32 (ss_right s) /\ is_u32 (ss_alpha s).

(** The gun angles are finite: the host refuses others. *)
Definition valid_usercmd (c : UserCmd) : Prop :=
  is_i32 (uc_server_time c) /\ is_u32 (uc_buttons c) /\
  (length (uc_angles c) = 3%nat /\ Forall is_i32 (uc_angles c)) /\
  (length (uc_gun_angle_offset c) = 2%nat /\
   Forall (fun a => is_u32 a /\ is_finite a = true) (uc_gun_angle_offset c)) /\
  is_u16 (uc_weapon c) /\ is_u16 (uc_weapon_mapped c) /\ is_u16 (uc_off_hand_index c) /\
  is_i8 (uc_forwardmove c) /\ is_i8 (uc_rightmove c) /\ is_u32 (uc_melee_charge_yaw c) /\
  is_u8 (uc_melee_charge_dist c) /\ zlen (uc_selected_location c) = 3 /\
  zlen (uc_remote_control c) = 2.

(** ** Codecs of the parts *)

Lemma parses_u64_halves v : is_u64 v -> parses get_u64_halves (put_u64_halves v) v.
Proof.
  intros Hv. unfold put_u64_halves, get_u64_halves.
  assert (Z.shiftr v 32 = v / 2 ^ 32) as -> by (by rewrite Z.shiftr_div_pow2).
  assert (Z.lor (Z.shiftl (v / 2 ^ 32) 32) (wrap32 v) = v) as Hlor.
  { rewrite Z.lor_comm, lor_halves by (unfold wrap32; ilia). unfold wrap32.
    rewrite Z.add_comm. symmetry. by apply Z.div_mod. }
  rewrite <- Hlor at 3. eapply parses_bind; [apply parses_put_u32; ilia|].
  apply (parses_last get_u32 (fun lo => Z.lor (Z.shiftl (v / 2 ^ 32) 32) lo)).
  apply parses_put_u32. ilia.
Qed.
#[export] Hint Resolve parses_u64_halves : wire.


#[export] Instance hello_codec : WireCodec put_hello get_hello valid_hello.
Proof.
  split. intros [v [g m mo w c] [hz mc ma mp]] (Hv & (? & ? & ? & ? & ?) & (? & ? & ? & ?)).
  unfold put_hello, get_hello. cbn [hh_protocol_version hh_content hh_limits cf_gameplay cf_map
    cf_models cf_weapons cf_classes pl_authority_hz pl_max_cmds_per_tick pl_max_actions_per_tick
    pl_max_packet_bytes] in *. wire_steps.
Qed.

#[export] Instance header_codec : WireCodec put_header get_header valid_header.
Proof.
  split. intros [c s a e] (? & ? & ? & ?). unfold put_header, get_header.
  cbn [ph_connection ph_sequence ph_ack ph_epoch] in *. wire_steps.
Qed.

#[export] Instance reject_codec : WireCodec put_reject get_reject valid_reject.
Proof.
  split. intros [a b|a b|a b|a b|a b|] Hr; cbn [valid_reject] in Hr; try destruct Hr;
    unfold put_reject, get_reject; wire_step; cbn [Z.eqb Pos.eqb]; wire_steps.
Qed.

#[export] Instance sample_codec : WireCodec encode_shot_sample decode_shot_sample valid_sample.
Proof.
  split. intros [l r a q] (? & ? & ?). unfold encode_shot_sample, decode_shot_sample.
  cbn [ss_left ss_right ss_alpha ss_quality] in *. do 3 wire_step.
  destruct q; (wire_step; eapply parses_lift; [reflexivity|]; wire_step).
Qed.

Lemma parses_gun_angle a : is_u32 a -> is_finite a = true -> parses get_gun_angle (put_f32 a) a.
Proof.
  intros Ha Hf. unfold get_gun_angle. eapply parses_end; [by apply parses_put_f32|].
  eapply parses_lift; [by rewrite Hf|]. apply parses_ret.
Qed.

#[export] Instance usercmd_codec : WireCodec encode_usercmd decode_usercmd valid_usercmd.
Proof.
  split. intros [st b an gun w wm oh f r my md sl rc].
  intros (? & ? & (Hal & Ha) & (Hgl & Hg) & ? & ? & ? & ? & ? & ? & ? & ? & ?).
  unfold encode_usercmd, decode_usercmd.
  cbn [uc_server_time uc_buttons uc_angles uc_gun_angle_offset uc_weapon uc_weapon_mapped
    uc_off_hand_index uc_forwardmove uc_rightmove uc_melee_charge_yaw uc_melee_charge_dist
    uc_selected_location uc_remote_control] in *. rewrite list.Forall_forall in Ha, Hg.
  do 2 wire_step.
  eapply parses_bind; [apply (parses_list get_i32 put_i32 an 3); [done|]|].
  { intros x Hx. apply parses_put_i32. auto. }
  cbv beta. unfold put_bytes. do 9 wire_step.
  eapply parses_bind; [apply (parses_list get_gun_angle put_f32 gun 2); [done|]|].
  { intros x Hx. destruct (Hg x Hx). by apply parses_gun_angle. }
  cbv beta. wire_steps.
Qed.

#[export] Instance with_seq_codec {A} (encode : A -> list byte) decode valid
    `{!WireCodec encode decode valid} :
  WireCodec (with_seq encode) (get_with_seq decode) (fun p => is_u32 p.1 /\ valid p.2).
Proof.
  split. intros [s x] [? ?]. unfold with_seq, get_with_seq. cbn [fst snd] in *.
  wire_step. eapply parses_bind; [by apply wire_parses|]. wire_step.
Qed.

(** ** Packets *)

Section Packets.
Context (zc : list byte -> option (list byte)) (zd : list byte -> Z -> option (list byte)).
Context `{!BulkCodec zc zd}.

Definition valid_client_packet (p : ClientPacket) : Prop :=
  match p with
  | Connect hello => valid_hello hello
  | Commands header claimed cmds samples actions reliable_ack =>
      valid_header header /\ is_u32 claimed /\ is_u16 reliable_ack /\
      (zlen cmds <= u16_max /\ Forall (fun p => is_u32 p.1 /\ valid_usercmd p.2) cmds) /\
      (zlen samples <= u16_max /\ Forall (fun p => is_u32 p.1 /\ valid_sample p.2) samples) /\
      (zlen actions <= u16_max /\ Forall valid_action actions)
  | SnapshotAck header seq => valid_header header /\ is_u32 seq
  end.

(** Within the negotiated limits. *)
Definition within_limits (limits : ProtocolLimits) (p : ClientPacket) : Prop :=
  match p with
  | Commands _ _ cmds _ actions _ =>
      zlen cmds <= pl_max_cmds_per_tick limits /\ zlen actions <= pl_max_actions_per_tick limits
  | _ => True
  end.

Definition valid_payload (p : ReliablePayload WireRow) : Prop :=
  is_u16 (pl_ack_through p) /\ zlen (pl_rows p) <= MAX_PENDING_RELIABLE /\
  Forall (fun r => is_u16 r.1 /\ valid_row r.2) (pl_rows p) /\ is_u32 (pl_dropped_oldest p).

Definition valid_server_packet (p : ServerPacket) : Prop :=
  match p with
  | Control header payload => valid_header header /\ valid_payload payload
  | Accept connection client hello => is_u64 connection /\ is_u32 client /\ valid_hello hello
  | Reject reject => valid_reject reject
  | Snapshot header baseline_seq seq payload =>
      valid_header header /\ is_u32 baseline_seq /\ is_u32 seq /\
      match payload with
      | Plain bytes => zlen bytes <= MAX_PACKET_BYTES
      | AgainstBaseline len bytes =>
          0 <= len <= MAX_PACKET_BYTES /\ zlen bytes <= MAX_PACKET_BYTES
      end
  end.

(** A counted list: its length, then its elements. *)
Lemma parses_counted {A B} (encode : A -> list byte) decode valid
    `{!WireCodec encode decode valid} xs (k : list A -> WParser B) u y :
  zlen xs <= u16_max -> Forall valid xs -> parses (k xs) u y ->
  parses (count ← get_u16; xs ← parse_list (Z.to_nat count) decode; k xs)
    (put_u16 (wrap16 (zlen xs)) ++ concat (map encode xs) ++ u) y.
Proof.
  intros Hlen Hall Hk. pose proof (zlen_nonneg xs).
  assert (wrap16 (zlen xs) = zlen xs) as -> by ilia.
  eapply parses_bind; [apply parses_put_u16; ilia|]. cbv beta.
  eapply parses_bind; [|exact Hk]. apply (wire_list encode decode valid); [|done].
  unfold zlen. lia.
Qed.

#[local] Instance client_packet_codec :
  WireCodec encode_client_packet client_packet_decode valid_client_packet.
Proof.
  split. intros [hello|header claimed cmds samples actions ack|header seq] Hv;
    unfold encode_client_packet, client_packet_decode; wire_step; cbn [Z.eqb Pos.eqb].
  - cbn in Hv. eapply parses_bind; [by apply wire_parses|]. wire_step.
  - destruct Hv as (? & ? & ? & [? ?] & [? ?] & [? ?]).
    eapply parses_bind; [by apply wire_parses|]. do 2 wire_step.
    eapply parses_counted; [apply with_seq_codec; apply usercmd_codec|done|done|].
    eapply parses_counted; [apply with_seq_codec; apply sample_codec|done|done|].
    eapply parses_counted; [apply action_codec|done|done|]. wire_step.
  - destruct Hv. eapply parses_bind; [by apply wire_parses|]. wire_steps.
Qed.

Lemma parses_rows rows out :
  mapM put_row rows = Some out -> Forall (fun r => is_u16 r.1 /\ valid_row r.2) rows ->
  parses (parse_list (length rows) get_row) (concat out) rows.
Proof.
  intros Hm%mapM_Some Hv. induction Hm as [|[seq row] b rows out Hb _ IH]; [apply parses_ret|].
  apply list.Forall_cons in Hv as [[Hs Hr] Hv]. cbn [length parse_list concat].
  unfold put_row in Hb. cbn [fst snd] in *. destruct (encode_row row) as [u|] eqn:Eu; [|done].
  cbn [mbind option_bind] in Hb. apply (inj Some) in Hb as <-.
  eapply parses_bind; [|eapply parses_end; [by apply IH|apply parses_ret]].
  unfold get_row. wire_step. eapply parses_end; [by apply partial_parses|]. apply parses_ret.
Qed.

#[export] Instance payload_codec :
  PartialCodec encode_reliable_payload decode_reliable_payload valid_payload.
Proof.
  split. intros [ack rows dropped] u (? & Hlen & Hrows & ?) Hu.
  unfold encode_reliable_payload, decode_reliable_payload, MAX_PENDING_RELIABLE in *.
  cbn [pl_ack_through pl_rows pl_dropped_oldest] in *. pose proof (zlen_nonneg rows).
  destruct (mapM put_row rows) as [out|] eqn:Eout; [|done]. cbn [mbind option_bind] in Hu.
  apply (inj Some) in Hu as <-.
  wire_step. assert (wrap16 (zlen rows) = zlen rows) as -> by ilia.
  eapply parses_bind; [apply parses_put_u16; ilia|]. cbv beta.
  eapply parses_lift; [unfold fail_if; by rewrite (proj2 (Z.ltb_ge 64 (zlen rows)))|].
  assert (Z.to_nat (zlen rows) = length rows) as -> by (unfold zlen; lia).
  eapply parses_bind; [by apply parses_rows|]. wire_steps.
Qed.

(** A length that was checked against the rest of the packet, then the bytes. *)
Lemma parses_checked {B} bytes (k : list byte -> WParser B) u y :
  zlen bytes <= MAX_PACKET_BYTES -> parses (k bytes) u y ->
  parses (len ← get_u32; _ ← check_len len; x ← get_bytes len; k x)
    (put_u32 (wrap32 (zlen bytes)) ++ put_bytes bytes ++ u) y.
Proof.
  intros Hlen Hk. pose proof (zlen_nonneg bytes). unfold MAX_PACKET_BYTES in Hlen.
  assert (wrap32 (zlen bytes) = zlen bytes) as -> by ilia.
  eapply parses_bind; [apply parses_put_u32; ilia|]. cbv beta.
  assert (parses (x ← get_bytes (zlen bytes); k x) (put_bytes bytes ++ u) y) as Hread
    by (eapply parses_bind; [by apply parses_get_bytes|done]).
  intros pre post Hfit. rewrite <- (Hread pre post Hfit).
  unfold mbind at 1, parser_bind at 1, check_len, remaining. cbn [rd_bytes rd_cursor].
  rewrite !zlen_app. pose proof (zlen_nonneg u). pose proof (zlen_nonneg post).
  unfold MAX_PACKET_BYTES, put_bytes. rewrite (proj2 (Z.ltb_ge (256 * 1024) _)) by lia.
  rewrite (proj2 (Z.ltb_ge _ (zlen bytes))) by lia. done.
Qed.

Lemma compressed_form_some bytes packed :
  compressed_form zc bytes = Some packed ->
  zc bytes = Some packed /\ zlen packed + 4 < zlen bytes.
Proof.
  unfold compressed_form. destruct (zc bytes) as [bytes'|]; [|done].
  destruct (Z.ltb_spec (zlen bytes' + 4) (zlen bytes)); [|done]. by intros [= ->].
Qed.

Lemma plain_snapshot_parses header base seq bytes :
  valid_header header -> is_u32 base -> is_u32 seq -> zlen bytes <= MAX_PACKET_BYTES ->
  parses (server_packet_decode zd) (encode_snapshot zc header base seq (Plain bytes))
    (Snapshot header base seq (Plain bytes)).
Proof.
  intros Hh Hb Hs Hlen. pose proof (zlen_nonneg bytes).
  assert (wrap32 (zlen bytes) = zlen bytes) as Hw by (unfold MAX_PACKET_BYTES in *; ilia).
  unfold encode_snapshot, server_packet_decode.
  destruct (compressed_form zc bytes) as [packed|] eqn:Hform.
  - apply compressed_form_some in Hform as [Hzc Hsmall]. pose proof (zlen_nonneg packed).
    unfold MAX_PACKET_BYTES in Hlen. wire_step. cbn [Z.eqb Pos.eqb orb].
    eapply parses_bind; [by apply wire_parses|]. do 2 wire_step. rewrite Hw.
    eapply parses_bind.
    { rewrite <- (app_nil_r (put_u32 _)). eapply parses_bind; [apply parses_put_u32; ilia|].
      eapply parses_lift; [by rewrite (proj2 (Z.ltb_ge MAX_PACKET_BYTES (zlen bytes)))|].
      apply parses_ret. }
    cbv beta. eapply (parses_checked packed); [unfold MAX_PACKET_BYTES; lia|].
    eapply parses_lift; [|apply parses_ret].
    unfold delta_decompress, MAX_DELTA_INSTRUCTION_BYTES, MAX_PACKET_BYTES.
    rewrite (proj2 (Z.ltb_ge (256 * 1024) (zlen bytes))), (proj2 (Z.ltb_ge _ (zlen packed))) by lia.
    cbn [orb]. by rewrite (bulk_roundtrip _ _ Hzc), Z.eqb_refl.
  - wire_step. cbn [Z.eqb Pos.eqb orb]. eapply parses_bind; [by apply wire_parses|]. do 2 wire_step.
    change (put_u32 (wrap32 (zlen bytes)) ++ put_bytes bytes ++ [])
      with ([] ++ put_u32 (wrap32 (zlen bytes)) ++ put_bytes bytes ++ []).
    eapply parses_bind; [apply parses_ret|]. cbv beta.
    eapply (parses_checked bytes); [done|]. eapply parses_lift; [done|]. apply parses_ret.
Qed.

#[local] Instance server_packet_codec :
  PartialCodec (encode_server_packet zc) (server_packet_decode zd) valid_server_packet.
Proof.
  split. intros [header payload|connection client hello|reject|header base seq [bytes|len bytes]] u Hv Hu;
    cbn [valid_server_packet encode_server_packet] in Hv, Hu.
  2-5: apply (inj Some) in Hu as <-.
  4: { destruct Hv as (? & ? & ? & ?). by apply plain_snapshot_parses. }
  2-4: unfold encode_snapshot, server_packet_decode; wire_step; cbn [Z.eqb Pos.eqb].
  - destruct Hv. destruct (encode_reliable_payload payload) as [rows|] eqn:Erows; [|done].
    cbn [mbind option_bind] in Hu. apply (inj Some) in Hu as <-.
    unfold server_packet_decode; wire_step; cbn [Z.eqb Pos.eqb].
    eapply parses_bind; [by apply wire_parses|].
    eapply parses_end; [by apply partial_parses|]. apply parses_ret.
  - destruct Hv as (? & ? & ?). do 2 wire_step.
    eapply parses_bind; [by apply wire_parses|]. wire_step.
  - eapply parses_bind; [by apply wire_parses|]. wire_step.
  - destruct Hv as (? & ? & ? & Hl & Hlen). eapply parses_bind; [by apply wire_parses|].
    do 2 wire_step. eapply parses_bind; [apply parses_put_u32; unfold MAX_PACKET_BYTES in Hl; ilia|].
    cbv beta. eapply parses_lift; [by rewrite (proj2 (Z.ltb_ge MAX_PACKET_BYTES len)) by lia|].
    eapply (parses_checked bytes); [done|]. apply parses_ret.
Qed.

Lemma decode_whole_parses {A} what (p : WParser A) bytes limits x :
  parses p bytes x -> zlen bytes <= pl_max_packet_bytes limits ->
  is_u32 (pl_max_packet_bytes limits) -> decode_whole what p bytes limits = Ok x.
Proof.
  intros Hp Hlen Hl. pose proof (zlen_nonneg bytes). unfold decode_whole.
  assert (wrap32 (zlen bytes) = zlen bytes) as -> by ilia.
  rewrite (proj2 (Z.ltb_ge _ _)) by done.
  rewrite (parses_whole _ _ _ Hp) by (unfold fits; ilia).
  unfold reader_is_empty, remaining. cbn [rd_bytes rd_cursor]. by rewrite Z.sub_diag.
Qed.

Lemma client_decodes p limits :
  valid_client_packet p -> within_limits limits p -> is_u32 (pl_max_packet_bytes limits) ->
  zlen (encode_client_packet p) <= pl_max_packet_bytes limits ->
  decode_client_packet (encode_client_packet p) limits = Ok p.
Proof.
  intros Hv Hw Hl Hlen. unfold decode_client_packet.
  rewrite (decode_whole_parses _ _ _ _ p) by (done || by apply wire_parses).
  cbn [mbind result_bind]. destruct p as [|header claimed cmds samples actions ack|]; try done.
  destruct Hv as (_ & _ & _ & [Hc _] & _ & [Ha _]). destruct Hw as [Hcm Ham].
  pose proof (zlen_nonneg cmds). pose proof (zlen_nonneg actions).
  assert (wrap16 (zlen cmds) = zlen cmds) as -> by ilia.
  assert (wrap16 (zlen actions) = zlen actions) as -> by ilia.
  by rewrite !(proj2 (Z.ltb_ge _ _)) by done.
Qed.

Lemma server_decodes p bytes limits :
  valid_server_packet p -> is_u32 (pl_max_packet_bytes limits) ->
  encode_server_packet zc p = Some bytes -> zlen bytes <= pl_max_packet_bytes limits ->
  decode_server_packet zd bytes limits = Ok p.
Proof.
  intros Hv Hl Hp Hlen. apply decode_whole_parses; [by apply partial_parses|done|done].
Qed.
End Packets.

(** ** The properties *)

(** C32. A client's packet (a handshake, commands with their shot samples and actions, or a
    snapshot acknowledgement) whose fields have their machine types, whose gun angles are
    finite and that is within the negotiated limits is decoded by the host as exactly the
    packet the client sent. *)
Theorem client_packet_roundtrip (p : ClientPacket) (limits : ProtocolLimits) :
  valid_client_packet p -> within_limits limits p ->
  is_u32 (pl_max_packet_bytes limits) ->
  zlen (encode_client_packet p) <= pl_max_packet_bytes limits ->
  decode_client_packet (encode_client_packet p) limits = Ok p.
Proof. eapply client_decodes; eauto. Qed.

(** C33. A packet of the host (reliable rows of every kind, an acceptance or a refusal of a handshake,
    a snapshot, whole or against a baseline, compressed where that is smaller) that the host can
    write is decoded by the client as exactly the packet the host sent, for any compressor that
    keeps its promise.  Assumed: the packet is well-formed ([valid_server_packet]: integers of their
    wire width, texts and lists within their length fields and valid UTF-8, a payload of at most
    [MAX_PACKET_BYTES]), which the code that makes it ensures, and it is within the client's limit. *)
Theorem server_packet_roundtrip zc zd `{!BulkCodec zc zd} (p : ServerPacket) (bytes : list byte)
    (limits : ProtocolLimits) :
  valid_server_packet p -> is_u32 (pl_max_packet_bytes limits) ->
  encode_server_packet zc p = Some bytes -> zlen bytes <= pl_max_packet_bytes limits ->
  decode_server_packet zd bytes limits = Ok p.
Proof. eapply server_decodes; eauto. Qed.

(** A handshake is accepted exactly when both sides have the same protocol version, the
    same limits and the same map, weapons and classes, and a map is loaded; the decision does
    not depend on which side evaluates it, and a refusal shows both sides' values.  (The
    gameplay and model digests are sent but do not take part.) *)
Theorem handshake_accepts_iff server client :
  (evaluate_handshake server client = Ok () <->
     hh_protocol_version server = hh_protocol_version client /\
     hh_limits server = hh_limits client /\
     match_descriptor (hh_content server) = match_descriptor (hh_content client) /\
     match_descriptor (hh_content server) <> None) /\
  is_ok (evaluate_handshake server client) = is_ok (evaluate_handshake client server).
Proof.
  destruct server as [sv [sg sm smo sw sc] sl], client as [cv [cg cm cmo cw cc] cl].
  unfold evaluate_handshake, match_descriptor.
  cbn [hh_protocol_version hh_content hh_limits cf_map cf_weapons cf_classes].
  destruct (Z.eqb_spec sv cv) as [->|Hv]; cbn [negb];
    [rewrite Z.eqb_refl; cbn [negb]|rewrite (proj2 (Z.eqb_neq cv sv)) by congruence; cbn [negb];
      split; [split; [done|intros (? & _); congruence]|done]].
  destruct (Z.eqb_spec sm 0) as [->|Hs]; cbn [orb].
  { split; [split; [done|intros (_ & _ & _ & H); by destruct H]|].
    by destruct (cm =? 0). }
  destruct (Z.eqb_spec cm 0) as [->|Hc]; cbn [orb].
  { split; [split; [done|intros (_ & _ & H & _); done]|done]. }
  destruct (Z.eqb_spec sm cm) as [->|Hm]; cbn [negb];
    [rewrite Z.eqb_refl; cbn [negb]|rewrite (proj2 (Z.eqb_neq cm sm)) by congruence; cbn [negb];
      split; [split; [done|intros (_ & _ & [= ? ? ?] & _); done]|done]].
  destruct (Z.eqb_spec sw cw) as [->|Hw]; cbn [negb];
    [rewrite Z.eqb_refl; cbn [negb]|rewrite (proj2 (Z.eqb_neq cw sw)) by congruence; cbn [negb];
      split; [split; [done|intros (_ & _ & [= ? ?] & _); done]|done]].
  destruct (Z.eqb_spec sc cc) as [->|Hcl]; cbn [negb];
    [rewrite Z.eqb_refl; cbn [negb]|rewrite (proj2 (Z.eqb_neq cc sc)) by congruence; cbn [negb];
      split; [split; [done|intros (_ & _ & [= ?] & _); done]|done]].
  destruct (decide (sl = cl)) as [->|Hl].
  - by rewrite Z.eqb_refl, !bool_decide_eq_true_2.
  - rewrite (bool_decide_eq_false_2 (sl = cl)), (bool_decide_eq_false_2 (cl = sl)) by congruence.
    rewrite (Z.eqb_sym (pl_authority_hz cl)).
    destruct (pl_authority_hz sl =? pl_authority_hz cl); cbn [negb];
      (split; [split; [done|intros (_ & ? & _); congruence]|done]).
Qed.

(** Well-formedness of a closed packet. *)
Ltac demo_valid :=
  cbv [valid_client_packet valid_action valid_pick array_of action_request_id
    valid_server_packet valid_payload valid_header valid_usercmd valid_sample
    valid_row valid_event valid_notify valid_string valid_audio valid_splash valid_result
    valid_source shot_of option_of is_u8 is_u16 is_u32 is_u64 is_i8 is_i32];
  repeat match goal with
  | |- forall _, Some _ = Some _ -> _ => intros ? [= <-]
  | |- forall _, None = Some _ -> _ => discriminate
  | |- _ <> _ => discriminate
  | |- StronglySorted _ _ => constructor
  | |- name_before _ _ => unfold name_before
  | |- None = None -> _ => intros _
  | |- forall _, _ \/ _ -> _ => intros ? [[=]|[=]]
  | |- forall _ _, None = Some _ -> _ => discriminate
  | |- _ /\ _ => split
  | |- Forall _ _ => constructor
  | |- _ <= _ => vm_compute; discriminate
  | |- _ < _ => vm_compute; reflexivity
  | |- _ = _ => reflexivity
  | |- True => exact I
  | |- _ => progress cbn
  end.

Definition demo_cmd : UserCmd :=
  mkUserCmd (-5) 9 [1; -2; 3] [0x3f800000; 0] 7 8 9 (-128) 127 0 4 (bs "abc") (bs "xy").

Definition demo_header : PacketHeader := mkPacketHeader 0x123456789abcdef0 7 6 2.

#[local] Instance identity_bulk : BulkCodec Some (fun packed _ => Some packed).
Proof. split. by intros delta packed [= <-]. Qed.

Lemma client_packet_roundtrip_witness :
  let p := Commands demo_header 3 [(41, demo_cmd); (42, demo_cmd)]
             [(41, mkSample 10 11 0x3f000000 SsInterpolated)]
             [ActJoinMatch 1; ActForceSpawn 2 (Seeded 0x123456789abcdef0);
              ActMove 3 [0; 1; 2] [3; 4; 5]; ActDebugDamage 4 (-7)] 17 in
  decode_client_packet (encode_client_packet p) default_listen = Ok p.
Proof.
  apply client_packet_roundtrip.
  - demo_valid.
  - vm_compute. split; discriminate.
  - vm_compute. split; discriminate.
  - vm_compute. discriminate.
Defined.

Definition demo_rows : list (Z * WireRow) :=
  [(5, RowEvent (EvDied 3 8 (Some 4) None (Some (DamageShot 77)) 12 (-50)));
   (6, RowActionOutcome 9 Refused);
   (7, RowNotify (mkNotify 1 SVC_PRINT (bs "name") (bs "KEY")));
   (8, RowScriptAudio (ChannelVolumesSet 3 2 (Some [(bs "auto", 0); (bs "voice", 0x3f000000)]) 250));
   (9, RowSplash (mkSplash (bs "headshot") 2 (-1)));
   (10, RowFireCommands [mkFireResult 3 (Some 8) 41 (Executed None None)])].

Lemma server_packet_roundtrip_witness :
  exists bytes, encode_server_packet Some (Control demo_header (mkPayload 4 demo_rows 0)) = Some bytes /\
    decode_server_packet (fun packed _ => Some packed) bytes default_listen =
    Ok (Control demo_header (mkPayload 4 demo_rows 0)).
Proof.
  set (p := Control demo_header (mkPayload 4 demo_rows 0)).
  destruct (encode_server_packet Some p) as [bytes|] eqn:E; [|exfalso; vm_compute in E; discriminate E].
  exists bytes. split; [reflexivity|].
  assert (Hlen : zlen bytes <= pl_max_packet_bytes default_listen).
  { vm_compute in E. injection E as <-. vm_compute. discriminate. }
  apply (server_packet_roundtrip Some (fun packed _ => Some packed) p bytes default_listen);
    [|vm_compute; split; discriminate|exact E|exact Hlen].
  demo_valid.
Defined.
