(* ===== verification/Inbox.v ===== *)
(** * The authority's command inbox

    [ClientCommandInbox] of crates/net/src/authority/inbox.rs, the commands the peers send and
    which of them run in a frame, and the authority's clock.  (The action inbox of the same file
    is in Actions.)  Times are [i32] milliseconds.  Hash maps are [gmap]s, a [VecDeque] is a list
    with its front first. *)

From S2P Require Export Protocol.
From stdpp Require Export sorting.
#[local] Open Scope Z_scope.

Definition AUTHORITY_MS : Z := 50.
Definition MAX_QUEUED_COMMANDS_PER_PEER : Z := MAX_REDUNDANT_CMDS.
Definition MAX_QUEUED_COMMAND_MS : Z := 1000.
Definition COMMAND_TIME_STEP_MS : Z := 200.
Definition MAX_COMMAND_STALL_MS : Z := 1000.
Definition LOST_COMMAND_HOLD_MS : Z := 250.
Definition MAX_COMMAND_LEAD_MS : Z := 200.
Definition MAX_COMMANDS_PER_PEER_PER_FRAME : nat := 32.

Definition clamp (lo hi z : Z) : Z := Z.max lo (Z.min hi z).

Inductive InputBacklogFault : Type :=
| QueueCount (queued : Z)
| NoProgress (stalled_ms : Z).

Record AuthorityClock : Type := mkClock { ck_tick : Z; ck_time_ms : Z }.

Definition clock_default : AuthorityClock := mkClock 0 0.

Definition clock_advance (c : AuthorityClock) : AuthorityClock * Z :=
  let tick := wrapping_add32 (ck_tick c) 1 in
  (mkClock tick (i32_wrap (ck_time_ms c + AUTHORITY_MS)), tick).

(** [ShotSampleProvenance::NO_CLAIM]. *)
Definition NO_CLAIM : ShotSampleProvenance := mkSample 0 0 0 SsNone.

Definition set_server_time (cmd : UserCmd) (t : Z) : UserCmd :=
  mkUserCmd t (uc_buttons cmd) (uc_angles cmd) (uc_gun_angle_offset cmd) (uc_weapon cmd)
    (uc_weapon_mapped cmd) (uc_off_hand_index cmd) (uc_forwardmove cmd) (uc_rightmove cmd)
    (uc_melee_charge_yaw cmd) (uc_melee_charge_dist cmd) (uc_selected_location cmd)
    (uc_remote_control cmd).

(** A queued command: its sequence number, if it has one, the command and the shot sample. *)
Record QueuedCmd : Type := mkQueued {
  qc_seq : option Z; qc_cmd : UserCmd; qc_sample : ShotSampleProvenance }.

Record PlayerCommand : Type := mkPlayerCommand {
  pc_client : Z; pc_command : UserCmd; pc_sequence : option Z }.

Record GatheredCommands : Type := mkGathered {
  ga_cmds : list PlayerCommand;
  ga_acks : list (Z * Z);
  ga_proxied : list Z;
  ga_samples : list (Z * Z * ShotSampleProvenance);
  ga_faults : list (Z * InputBacklogFault);
}.

Definition gathered_default : GatheredCommands := mkGathered [] [] [] [] [].

Record ClientCommandInbox : Type := mkInbox {
  ib_queued : gmap Z (list QueuedCmd);
  ib_last_consumed : gmap Z UserCmd;
  ib_last_acked : gmap Z Z;
  ib_blocked_head : gmap Z (Z * Z);
}.

Definition inbox_default : ClientCommandInbox := mkInbox ∅ ∅ ∅ ∅.

Definition set_queue (s : ClientCommandInbox) (id : Z) (q : list QueuedCmd) : ClientCommandInbox :=
  mkInbox (<[id := q]> (ib_queued s)) (ib_last_consumed s) (ib_last_acked s) (ib_blocked_head s).
Definition set_consumed (s : ClientCommandInbox) (id : Z) (cmd : UserCmd) : ClientCommandInbox :=
  mkInbox (ib_queued s) (<[id := cmd]> (ib_last_consumed s)) (ib_last_acked s) (ib_blocked_head s).
Definition set_acked (s : ClientCommandInbox) (id : Z) (seq : Z) : ClientCommandInbox :=
  mkInbox (ib_queued s) (ib_last_consumed s) (<[id := seq]> (ib_last_acked s)) (ib_blocked_head s).
Definition set_blocked (s : ClientCommandInbox) (blocked : gmap Z (Z * Z)) : ClientCommandInbox :=
  mkInbox (ib_queued s) (ib_last_consumed s) (ib_last_acked s) blocked.

Definition seqs (q : list QueuedCmd) : list Z := omap qc_seq q.

(** ** [push] *)

(** The place of a sequenced command: before the first command with a later number. *)
Fixpoint insert_by_seq (sequence : Z) (row : QueuedCmd) (q : list QueuedCmd) : list QueuedCmd :=
  match q with
  | [] => [row]
  | other :: rest =>
      match qc_seq other with
      | Some o => if sequence <? o then row :: q else other :: insert_by_seq sequence row rest
      | None => other :: insert_by_seq sequence row rest
      end
  end.

(** A command already consumed or already queued. *)
Definition already_known (s : ClientCommandInbox) (id seq : Z) : bool :=
  match ib_last_acked s !! id with Some last => seq <=? last | None => false end ||
  match ib_queued s !! id with
  | Some q => existsb (fun row => bool_decide (qc_seq row = Some seq)) q
  | None => false
  end.

Definition inbox_push (s : ClientCommandInbox) (id : Z) (seq : option Z) (cmd : UserCmd)
    (sample : option ShotSampleProvenance) : ClientCommandInbox :=
  if match seq with Some n => already_known s id n | None => false end then s
  else
    let queue := default [] (ib_queued s !! id) in
    if MAX_QUEUED_COMMANDS_PER_PEER <? zlen queue then set_queue s id queue
    else
      let row := mkQueued seq cmd (default NO_CLAIM sample) in
      set_queue s id (match seq with
                      | Some sequence => insert_by_seq sequence row queue
                      | None => queue ++ [row]
                      end).

Definition inbox_clear (s : ClientCommandInbox) : ClientCommandInbox := inbox_default.

Definition inbox_retire_client (s : ClientCommandInbox) (id : Z) : ClientCommandInbox :=
  mkInbox (delete id (ib_queued s)) (delete id (ib_last_consumed s)) (delete id (ib_last_acked s))
    (delete id (ib_blocked_head s)).

(** ** Backlog *)

Definition backlog_fault (s : ClientCommandInbox) (id time_ms : Z)
    : ClientCommandInbox * option InputBacklogFault :=
  match ib_queued s !! id with
  | None => (s, None)
  | Some queue =>
      let sequenced := zlen (seqs queue) in
      if sequenced =? 0 then (s, None)
      else if MAX_QUEUED_COMMANDS_PER_PEER <? sequenced then (s, Some (QueueCount sequenced))
      else
        match seqs queue with
        | [] => (s, None)
        | first :: _ =>
            let blocked := default (first, time_ms) (ib_blocked_head s !! id) in
            let blocked := if blocked.1 =? first then blocked else (first, time_ms) in
            let s := set_blocked s (<[id := blocked]> (ib_blocked_head s)) in
            let stalled_ms := sat32 (time_ms - blocked.2) in
            (s, if MAX_COMMAND_STALL_MS <? stalled_ms then Some (NoProgress stalled_ms) else None)
        end
  end.

(** The sequenced commands' time steps, each clamped, from [previous] on. *)
Fixpoint sum_steps (previous : option Z) (times : list Z) (queued_ms : Z) : Z :=
  match times with
  | [] => queued_ms
  | t :: rest =>
      let queued_ms := match previous with
                       | Some p => sat32 (queued_ms + clamp 0 COMMAND_TIME_STEP_MS (sat32 (t - p)))
                       | None => queued_ms
                       end in
      sum_steps (Some t) rest queued_ms
  end.

Definition sequenced_times (q : list QueuedCmd) : list Z :=
  omap (fun row => match qc_seq row with Some _ => Some (uc_server_time (qc_cmd row)) | None => None end) q.

Definition queued_ms (s : ClientCommandInbox) (id time_ms : Z) : Z :=
  match ib_queued s !! id with
  | None => 0
  | Some queue =>
      let times := sequenced_times queue in
      let previous := match ib_last_consumed s !! id with
                      | Some cmd => Some (uc_server_time cmd)
                      | None => match times with [] => None | t :: _ => Some (Z.min time_ms t) end
                      end in
      sum_steps previous times 0
  end.

(** Dropping the oldest commands while too much command time is queued: the loop runs at most
    once per queued command. *)
Fixpoint shed_loop (fuel : nat) (s : ClientCommandInbox) (id time_ms : Z) : ClientCommandInbox :=
  match fuel with
  | O => s
  | S fuel =>
      if queued_ms s id time_ms <=? MAX_QUEUED_COMMAND_MS then s
      else
        match ib_queued s !! id with
        | None | Some [] => s
        | Some (row :: rest) =>
            let s := set_queue s id rest in
            let s := match qc_seq row with
                     | Some seq => set_consumed (set_acked s id seq) id (qc_cmd row)
                     | None => s
                     end in
            shed_loop fuel s id time_ms
        end
  end.

Definition shed_excess (s : ClientCommandInbox) (id time_ms : Z) : ClientCommandInbox :=
  shed_loop (S (length (default [] (ib_queued s !! id)))) s id time_ms.

(** ** [take_for_tick] *)

(** A command stamped too far ahead runs at the frame's time. *)
Definition hold_lead (time_ms : Z) (row : QueuedCmd) : QueuedCmd :=
  if sat32 (time_ms + MAX_COMMAND_LEAD_MS) <? uc_server_time (qc_cmd row)
  then mkQueued (qc_seq row) (set_server_time (qc_cmd row) time_ms) (qc_sample row)
  else row.

(** How many commands run: the next in sequence, over holes that are overdue. *)
Fixpoint runnable (limit : nat) (expected time_ms : Z) (q : list QueuedCmd) : nat :=
  match limit, q with
  | S limit, row :: rest =>
      match qc_seq row with
      | None => S (runnable limit expected time_ms rest)
      | Some seq =>
          let t := uc_server_time (qc_cmd row) in
          let lost := (expected <? seq) && (t <=? i32_wrap (time_ms - LOST_COMMAND_HOLD_MS)) in
          if (negb (seq =? expected) && negb lost) || (time_ms <? t) then O
          else S (runnable limit (wrapping_add32 seq 1) time_ms rest)
      end
  | _, _ => O
  end.

(** [sort_by_key] on the sequence number: stable, a command without a number first. *)
Definition seq_leb (a b : option Z) : bool :=
  match a, b with
  | None, _ => true
  | Some _, None => false
  | Some a, Some b => a <=? b
  end.

Fixpoint insert_sorted (row : QueuedCmd) (l : list QueuedCmd) : list QueuedCmd :=
  match l with
  | [] => [row]
  | other :: rest => if seq_leb (qc_seq row) (qc_seq other) then row :: l
                     else other :: insert_sorted row rest
  end.

Definition sort_by_seq (l : list QueuedCmd) : list QueuedCmd := foldr insert_sorted [] l.

Definition all_unsequenced (l : list QueuedCmd) : bool :=
  forallb (fun row => bool_decide (qc_seq row = None)) l.

(** Of several commands without a number only the last runs. *)
Definition keep_last_unsequenced (drained : list QueuedCmd) : list QueuedCmd :=
  if all_unsequenced drained && (1 <? zlen drained) then drop (length drained - 1) drained
  else drained.

(** One drained command goes into the frame. *)
Definition run_command (id time_ms : Z) (acc : ClientCommandInbox * GatheredCommands * option Z)
    (row : QueuedCmd) : ClientCommandInbox * GatheredCommands * option Z :=
  let '(s, out, ack) := acc in
  let t := match qc_seq row with Some _ => uc_server_time (qc_cmd row) | None => time_ms end in
  let cmd := set_server_time (qc_cmd row) t in
  let s := set_consumed s id cmd in
  let '(s, ack) := match qc_seq row with
                   | Some seq => (set_acked s id seq, Some seq)
                   | None => (s, ack)
                   end in
  (s, mkGathered (ga_cmds out ++ [mkPlayerCommand id cmd (qc_seq row)]) (ga_acks out) (ga_proxied out)
        (ga_samples out ++ [(id, t, qc_sample row)]) (ga_faults out), ack).

Definition add_fault (out : GatheredCommands) (id : Z) (fault : InputBacklogFault) : GatheredCommands :=
  mkGathered (ga_cmds out) (ga_acks out) (ga_proxied out) (ga_samples out) (ga_faults out ++ [(id, fault)]).
Definition add_ack (out : GatheredCommands) (id seq : Z) : GatheredCommands :=
  mkGathered (ga_cmds out) (ga_acks out ++ [(id, seq)]) (ga_proxied out) (ga_samples out) (ga_faults out).
Definition add_proxied (out : GatheredCommands) (id : Z) (cmd : UserCmd) : GatheredCommands :=
  mkGathered (ga_cmds out ++ [mkPlayerCommand id cmd None]) (ga_acks out) (ga_proxied out ++ [id])
    (ga_samples out) (ga_faults out).

(** The frame of a client none of whose commands can run. *)
Definition take_nothing (s : ClientCommandInbox) (out : GatheredCommands) (id time_ms : Z)
    : ClientCommandInbox * GatheredCommands :=
  let s := shed_excess s id time_ms in
  let '(s, fault) := backlog_fault s id time_ms in
  match fault with
  | Some fault => (s, add_fault out id fault)
  | None =>
      match ib_last_acked s !! id with
      | Some acked => (s, add_ack out id acked)
      | None =>
          match ib_last_consumed s !! id with
          | Some cmd =>
              let cmd := set_server_time cmd time_ms in
              (set_consumed s id cmd, add_proxied out id cmd)
          | None => (s, out)
          end
      end
  end.

(** The frame of a client with commands to run. *)
Definition run_drained (s : ClientCommandInbox) (out : GatheredCommands) (id time_ms : Z)
    (drained : list QueuedCmd) : ClientCommandInbox * GatheredCommands :=
  let s := set_blocked s (delete id (ib_blocked_head s)) in
  let '(s, out, ack) := foldl (run_command id time_ms) (s, out, None) drained in
  let out := match ack with Some seq => add_ack out id seq | None => out end in
  let s := shed_excess s id time_ms in
  let '(s, fault) := backlog_fault s id time_ms in
  (s, match fault with Some fault => add_fault out id fault | None => out end).

Definition hold_queue (s : ClientCommandInbox) (id time_ms : Z) : ClientCommandInbox :=
  match ib_queued s !! id with
  | Some q => set_queue s id (map (hold_lead time_ms) q)
  | None => s
  end.

Definition drain_queue (s : ClientCommandInbox) (id : Z) (count : nat) : ClientCommandInbox :=
  match ib_queued s !! id with
  | Some q => set_queue s id (drop count q)
  | None => s
  end.

Definition run_count (s : ClientCommandInbox) (id time_ms : Z) : nat :=
  let expected := wrapping_add32 (default 0 (ib_last_acked s !! id)) 1 in
  runnable MAX_COMMANDS_PER_PEER_PER_FRAME expected time_ms (default [] (ib_queued s !! id)).

(** The first [count] commands leave the queue and run. *)
Definition take_count (count : nat) (s : ClientCommandInbox) (out : GatheredCommands) (id time_ms : Z)
    : ClientCommandInbox * GatheredCommands :=
  let taken := take count (default [] (ib_queued s !! id)) in
  let s := drain_queue s id count in
  match sort_by_seq (keep_last_unsequenced taken) with
  | [] => take_nothing s out id time_ms
  | drained => run_drained s out id time_ms drained
  end.

Definition take_client (time_ms : Z) (acc : ClientCommandInbox * GatheredCommands) (id : Z)
    : ClientCommandInbox * GatheredCommands :=
  let '(s, out) := acc in
  let '(s, fault) := backlog_fault (hold_queue s id time_ms) id time_ms in
  match fault with
  | Some fault => (s, add_fault out id fault)
  | None => take_count (run_count s id time_ms) s out id time_ms
  end.

Definition known_clients (s : ClientCommandInbox) : list Z :=
  merge_sort Z.le (elements (dom (ib_queued s) ∪ dom (ib_last_consumed s))).

Definition take_for_tick (s : ClientCommandInbox) (time_ms : Z) : ClientCommandInbox * GatheredCommands :=
  foldl (take_client time_ms) (s, gathered_default) (known_clients s).
