(* ===== verification/InboxMain.v ===== *)
(** * Properties of the command inbox

    Commands run at most once, in order, never before their time, within the frame's budget;
    a hole in the sequence holds a peer up only for a bounded time. *)

From S2P Require Import Inbox.
#[local] Open Scope Z_scope.

(** ** Invariant *)

Record inbox_ok (s : ClientCommandInbox) : Prop := {
  io_sorted id q : ib_queued s !! id = Some q -> StronglySorted Z.lt (seqs q);
  io_new id q last : ib_queued s !! id = Some q -> ib_last_acked s !! id = Some last ->
    Forall (Z.lt last) (seqs q);
  io_length id q : ib_queued s !! id = Some q -> zlen q <= MAX_QUEUED_COMMANDS_PER_PEER + 1;
}.

Lemma inbox_default_ok : inbox_ok inbox_default.
Proof. by split. Qed.

Lemma seqs_cons row q :
  seqs (row :: q) = match qc_seq row with Some n => n :: seqs q | None => seqs q end.
Proof. unfold seqs. simpl. by destruct (qc_seq row). Qed.

Lemma seqs_app q1 q2 : seqs (q1 ++ q2) = seqs q1 ++ seqs q2.
Proof. unfold seqs. apply omap_app. Qed.

Lemma seqs_hold_lead t q : seqs (map (hold_lead t) q) = seqs q.
Proof.
  induction q as [|row q IH]; [done|]. rewrite map_cons, !seqs_cons, IH.
  unfold hold_lead. by destruct (_ <? _).
Qed.

Lemma sorted_app_inv (l1 l2 : list Z) :
  StronglySorted Z.lt (l1 ++ l2) ->
  StronglySorted Z.lt l1 /\ StronglySorted Z.lt l2 /\ (forall a b, a ∈ l1 -> b ∈ l2 -> a < b).
Proof.
  induction l1 as [|x l1 IH]; cbn [app]; intros H.
  - split_and!; [constructor|done|]. intros a b Ha. by apply not_elem_of_nil in Ha.
  - apply StronglySorted_inv in H as [H Hx]. destruct (IH H) as (H1 & H2 & H3).
    rewrite list.Forall_app in Hx. destruct Hx as [Hx1 Hx2]. rewrite list.Forall_forall in Hx2.
    split_and!; [by constructor|done|]. intros a b [->|Ha]%elem_of_cons Hb; auto.
Qed.

Lemma sorted_app_intro (l1 l2 : list Z) :
  StronglySorted Z.lt l1 -> StronglySorted Z.lt l2 -> (forall a b, a ∈ l1 -> b ∈ l2 -> a < b) ->
  StronglySorted Z.lt (l1 ++ l2).
Proof.
  induction l1 as [|x l1 IH]; cbn [app]; intros H1 H2 H; [done|].
  apply StronglySorted_inv in H1 as [H1 Hx]. constructor.
  - apply IH; [done..|]. intros a b Ha Hb. apply H; [by right|done].
  - apply list.Forall_app. split; [done|]. apply list.Forall_forall. intros b Hb. apply H; [by left|done].
Qed.

(** ** [push] *)

Lemma insert_by_seq_seqs n row q :
  qc_seq row = Some n -> StronglySorted Z.lt (seqs q) -> n ∉ seqs q ->
  StronglySorted Z.lt (seqs (insert_by_seq n row q)) /\
  forall x, x ∈ seqs (insert_by_seq n row q) <-> x = n \/ x ∈ seqs q.
Proof.
  intros Hrow. induction q as [|other q IH]; intros Hs Hn; cbn [insert_by_seq].
  - rewrite seqs_cons, Hrow. split; [repeat constructor|set_solver].
  - rewrite seqs_cons in Hs, Hn |- *. destruct (qc_seq other) as [o|] eqn:Eo.
    + apply StronglySorted_inv in Hs as [Hs Ho]. destruct (Z.ltb_spec n o).
      * rewrite !seqs_cons, Hrow, Eo. split; [|set_solver]. constructor; [by constructor|].
        constructor; [done|]. eapply list.Forall_impl; [exact Ho|]. cbn. lia.
      * rewrite seqs_cons, Eo. destruct IH as [IH1 IH2]; [done|set_solver|]. split.
        -- constructor; [done|]. apply list.Forall_forall. intros x [->|Hx]%IH2.
           ++ assert (n <> o) by set_solver. lia.
           ++ rewrite list.Forall_forall in Ho. auto.
        -- intros x. rewrite !elem_of_cons, IH2. tauto.
    + rewrite seqs_cons, Eo. by apply IH.
Qed.

Lemma insert_by_seq_length n row q : length (insert_by_seq n row q) = S (length q).
Proof.
  induction q as [|other q IH]; cbn; [done|]. destruct (qc_seq other); [destruct (_ <? _)|]; cbn; lia.
Qed.

Lemma already_known_false s id n :
  already_known s id n = false ->
  (forall last, ib_last_acked s !! id = Some last -> last < n) /\
  (forall q, ib_queued s !! id = Some q -> n ∉ seqs q).
Proof.
  unfold already_known. rewrite orb_false_iff. intros [H1 H2]. split.
  - intros last Hl. rewrite Hl in H1. by apply Z.leb_gt.
  - intros q Hq. rewrite Hq in H2. intros Hin. apply not_true_iff_false in H2. apply H2.
    apply existsb_exists. apply list_elem_of_omap in Hin as (row & Hrow & Hseq).
    exists row. rewrite list_elem_of_In in Hrow. split; [done|]. by apply bool_decide_eq_true.
Qed.

(** The queue and the last acknowledged number of one client are all the invariant needs. *)
Lemma inbox_ok_update s s' id q :
  inbox_ok s -> (forall id', id' <> id -> ib_queued s' !! id' = ib_queued s !! id' /\
                                         ib_last_acked s' !! id' = ib_last_acked s !! id') ->
  ib_queued s' !! id = Some q -> StronglySorted Z.lt (seqs q) ->
  (forall last, ib_last_acked s' !! id = Some last -> Forall (Z.lt last) (seqs q)) ->
  zlen q <= MAX_QUEUED_COMMANDS_PER_PEER + 1 -> inbox_ok s'.
Proof.
  intros Hs Hother Hq Hsort Hnew Hlen. split; intros id' q' H; destruct (decide (id' = id)) as [->|Hne].
  - rewrite Hq in H. by injection H as <-.
  - destruct (Hother id' Hne) as [E _]. rewrite E in H. by eapply io_sorted.
  - intros Hl. rewrite Hq in Hl. injection Hl as <-. auto.
  - destruct (Hother id' Hne) as [E1 E2]. rewrite E1, E2. intros Hq'. by eapply io_new.
  - rewrite Hq in H. by injection H as <-.
  - destruct (Hother id' Hne) as [E _]. rewrite E in H. by eapply io_length.
Qed.

Lemma queue_facts s id :
  inbox_ok s -> let q := default [] (ib_queued s !! id) in
  StronglySorted Z.lt (seqs q) /\ zlen q <= MAX_QUEUED_COMMANDS_PER_PEER + 1 /\
  (forall last, ib_last_acked s !! id = Some last -> Forall (Z.lt last) (seqs q)).
Proof.
  intros Hs q. subst q. destruct (ib_queued s !! id) as [q|] eqn:E; cbn [default].
  - split_and!; [by eapply io_sorted|by eapply io_length|]. intros last. by eapply io_new.
  - split_and!; [constructor|done|constructor].
Qed.

Lemma push_ok s id seq cmd sample : inbox_ok s -> inbox_ok (inbox_push s id seq cmd sample).
Proof.
  intros Hs. unfold inbox_push. destruct (match seq with Some _ => _ | None => _ end) eqn:Eknown; [done|].
  destruct (queue_facts s id Hs) as (Hsort & Hlen & Hnew).
  set (queue := default [] (ib_queued s !! id)) in *.
  assert (Hother : forall q id', id' <> id ->
    ib_queued (set_queue s id q) !! id' = ib_queued s !! id' /\
    ib_last_acked (set_queue s id q) !! id' = ib_last_acked s !! id').
  { intros q id' Hne. cbn. by rewrite lookup_insert_ne. }
  destruct (Z.ltb_spec MAX_QUEUED_COMMANDS_PER_PEER (zlen queue)).
  { eapply inbox_ok_update; [done|apply Hother|cbn; apply lookup_insert_eq|done..]. }
  destruct seq as [n|].
  - apply already_known_false in Eknown as [Hacked Hq].
    assert (Hn : n ∉ seqs queue).
    { unfold queue. destruct (ib_queued s !! id); cbn; [by apply Hq|apply not_elem_of_nil]. }
    destruct (insert_by_seq_seqs n (mkQueued (Some n) cmd (default NO_CLAIM sample)) queue) as [H1 H2];
      [done..|].
    eapply inbox_ok_update; [done|apply Hother|cbn; apply lookup_insert_eq|done| |].
    + intros last Hl. cbn in Hl. apply list.Forall_forall. intros x [->|Hx]%H2; [by apply Hacked|].
      specialize (Hnew last Hl). rewrite list.Forall_forall in Hnew. auto.
    + unfold zlen in *. rewrite insert_by_seq_length. lia.
  - assert (Hseqs : seqs (queue ++ [mkQueued None cmd (default NO_CLAIM sample)]) = seqs queue).
    { by rewrite seqs_app, app_nil_r. }
    eapply inbox_ok_update; [done|apply Hother|cbn; apply lookup_insert_eq|by rewrite Hseqs|
      by rewrite Hseqs|]. unfold zlen in *. rewrite length_app. cbn. lia.
Qed.

(** ** What a frame takes from a queue *)

(** Everything that belongs to other clients is as before. *)
Definition others_same (id : Z) (s s' : ClientCommandInbox) : Prop :=
  forall id', id' <> id ->
    ib_queued s' !! id' = ib_queued s !! id' /\ ib_last_acked s' !! id' = ib_last_acked s !! id' /\
    ib_last_consumed s' !! id' = ib_last_consumed s !! id' /\
    ib_blocked_head s' !! id' = ib_blocked_head s !! id'.

(** The front of the client's queue, with the numbers [ate], is gone and acknowledged. *)
Definition eaten_at (id : Z) (s s' : ClientCommandInbox) (ate : list Z) : Prop :=
  (is_Some (ib_queued s' !! id) <-> is_Some (ib_queued s !! id)) /\
  let q := default [] (ib_queued s !! id) in
  let q' := default [] (ib_queued s' !! id) in
  seqs q = ate ++ seqs q' /\ (length q' <= length q)%nat /\
  ib_last_acked s' !! id = match list.last ate with
                           | Some n => Some n
                           | None => ib_last_acked s !! id
                           end.

Definition eaten (id : Z) (s s' : ClientCommandInbox) (ate : list Z) : Prop :=
  others_same id s s' /\ eaten_at id s s' ate.

Lemma others_same_trans id s1 s2 s3 : others_same id s1 s2 -> others_same id s2 s3 -> others_same id s1 s3.
Proof.
  intros H1 H2 id' Hne. destruct (H1 id' Hne) as (? & ? & ? & ?), (H2 id' Hne) as (? & ? & ? & ?).
  split_and!; congruence.
Qed.

Lemma eaten_at_trans id s1 s2 s3 a b :
  eaten_at id s1 s2 a -> eaten_at id s2 s3 b -> eaten_at id s1 s3 (a ++ b).
Proof.
  intros (Hi1 & Hq1 & Hl1 & Ha1) (Hi2 & Hq2 & Hl2 & Ha2).
  split; [by rewrite Hi2|]. cbn zeta. split; [by rewrite Hq1, Hq2, app_assoc|]. split; [lia|].
  rewrite Ha2, Ha1. rewrite list.last_app. by destruct (list.last b).
Qed.

Lemma eaten_trans id s1 s2 s3 a b : eaten id s1 s2 a -> eaten id s2 s3 b -> eaten id s1 s3 (a ++ b).
Proof.
  intros [Ho1 H1] [Ho2 H2]. split; [by eapply others_same_trans|by eapply eaten_at_trans].
Qed.

(** Another client's turn. *)
Lemma others_same_eaten id id' s s' : id' <> id -> others_same id s s' -> eaten_at id' s s' [].
Proof.
  intros Hne Ho. destruct (Ho id' Hne) as (E1 & E2 & _). unfold eaten_at. by rewrite E1, E2.
Qed.

Lemma eaten_nothing id s s' :
  others_same id s s' ->
  (is_Some (ib_queued s' !! id) <-> is_Some (ib_queued s !! id)) ->
  seqs (default [] (ib_queued s' !! id)) = seqs (default [] (ib_queued s !! id)) ->
  (length (default [] (ib_queued s' !! id)) <= length (default [] (ib_queued s !! id)))%nat ->
  ib_last_acked s' !! id = ib_last_acked s !! id -> eaten id s s' [].
Proof. intros Ho Hi Hq Hl Ha. split; [done|]. split; [done|]. cbn zeta. by rewrite Hq. Qed.

Lemma eaten_ok id s s' ate : inbox_ok s -> eaten id s s' ate -> inbox_ok s'.
Proof.
  intros Hs (Ho & Hi & Hq & Hl & Ha). destruct (queue_facts s id Hs) as (Hsort & Hlen & Hnew).
  rewrite Hq in Hsort. apply sorted_app_inv in Hsort as (_ & Hsort & Hlt).
  destruct (ib_queued s' !! id) as [q'|] eqn:Eq'.
  - eapply (inbox_ok_update s); [done| |exact Eq'|done| |].
    + intros id' Hne. by destruct (Ho id' Hne) as (? & ? & _).
    + intros last Hlast. rewrite Ha in Hlast. cbn [default] in *.
      destruct (list.last ate) as [n|] eqn:En.
      * injection Hlast as <-. apply list.Forall_forall. intros x Hx. apply Hlt; [|done].
        by apply last_Some_elem_of.
      * specialize (Hnew last Hlast). rewrite Hq, list.Forall_app in Hnew. apply Hnew.
    + cbn in Hl. unfold zlen in *. lia.
  - split; [intros id' q H|intros id' q last H|intros id' q H];
      destruct (decide (id' = id)) as [->|Hne]; try congruence;
      destruct (Ho id' Hne) as (E1 & E2 & _); rewrite E1 in H.
    + by eapply io_sorted.
    + rewrite E2. by eapply io_new.
    + by eapply io_length.
Qed.

(** The numbers eaten are new, in order, and from now on acknowledged. *)
Lemma eaten_new id s s' ate :
  inbox_ok s -> eaten_at id s s' ate ->
  StronglySorted Z.lt ate /\
  (forall last, ib_last_acked s !! id = Some last -> Forall (Z.lt last) ate /\
     exists last', ib_last_acked s' !! id = Some last' /\ last <= last') /\
  (forall n, n ∈ ate -> exists last', ib_last_acked s' !! id = Some last' /\ n <= last').
Proof.
  intros Hs (_ & Hq & _ & Ha). destruct (queue_facts s id Hs) as (Hsort & _ & Hnew).
  rewrite Hq in Hsort. apply sorted_app_inv in Hsort as (Hsort & _ & _).
  assert (Hmax : forall n, n ∈ ate -> exists m, list.last ate = Some m /\ n <= m).
  { clear -Hsort. intros n Hn. destruct ate as [|x ate _] using rev_ind; [by apply not_elem_of_nil in Hn|].
    rewrite list.last_snoc. exists x. split; [done|]. apply sorted_app_inv in Hsort as (_ & _ & Hlt).
    apply elem_of_app in Hn as [Hn| ->%list_elem_of_singleton]; [|done].
    specialize (Hlt n x Hn ltac:(by left)). lia. }
  split; [done|]. split.
  - intros last Hl. specialize (Hnew last Hl). rewrite Hq, list.Forall_app in Hnew. destruct Hnew as [Hn _].
    split; [done|]. rewrite Ha. destruct (list.last ate) as [m|] eqn:Em; [|exists last; split; [done|lia]].
    exists m. split; [done|]. apply last_Some_elem_of in Em. rewrite list.Forall_forall in Hn.
    specialize (Hn m Em). lia.
  - intros n Hn. destruct (Hmax n Hn) as (m & Hm & ?). rewrite Ha, Hm. eauto.
Qed.

(** *** The pieces of a frame *)

Lemma backlog_fault_queues s id t :
  let s' := (backlog_fault s id t).1 in
  ib_queued s' = ib_queued s /\ ib_last_acked s' = ib_last_acked s /\
  ib_last_consumed s' = ib_last_consumed s /\
  forall id', id' <> id -> ib_blocked_head s' !! id' = ib_blocked_head s !! id'.
Proof.
  unfold backlog_fault. destruct (ib_queued s !! id); [|by split_and!].
  destruct (_ =? _); [by split_and!|]. destruct (_ <? _); [by split_and!|].
  destruct (seqs _); [by split_and!|]. split_and!; try done. intros id' Hne. cbn.
  by rewrite lookup_insert_ne.
Qed.

Lemma eaten_backlog s id t : eaten id s (backlog_fault s id t).1 [].
Proof.
  destruct (backlog_fault_queues s id t) as (E1 & E2 & E3 & E4).
  apply eaten_nothing; try (by rewrite ?E1, ?E2). intros id' Hne. rewrite E1, E2, E3. auto.
Qed.

Lemma eaten_hold s id t :
  eaten id s (hold_queue s id t) [].
Proof.
  unfold hold_queue. destruct (ib_queued s !! id) as [q|] eqn:E; apply eaten_nothing; try done; cbn;
    rewrite ?lookup_insert_eq, ?E; cbn; rewrite ?seqs_hold_lead, ?length_map; try done.
  intros id' Hne. cbn. by rewrite !lookup_insert_ne.
Qed.

Lemma eaten_shed fuel s id t : exists ate, eaten id s (shed_loop fuel s id t) ate.
Proof.
  induction fuel as [|fuel IH] in s |- *; cbn [shed_loop].
  { exists []. by apply eaten_nothing. }
  destruct (_ <=? _); [exists []; by apply eaten_nothing|].
  destruct (ib_queued s !! id) as [[|row rest]|] eqn:E; try (exists []; by apply eaten_nothing).
  set (s1 := match qc_seq row with Some _ => _ | None => _ end).
  assert (H1 : eaten id s s1 (option_list (qc_seq row))).
  { unfold s1. split; [|split; [|cbn zeta; split; [|split]]].
    - intros id' Hne. destruct (qc_seq row); cbn; by rewrite ?lookup_insert_ne.
    - rewrite E. destruct (qc_seq row); cbn; rewrite lookup_insert_eq; by split.
    - rewrite E. change (default [] (Some (row :: rest))) with (row :: rest). rewrite seqs_cons.
      destruct (qc_seq row); cbn [ib_queued set_queue set_consumed set_acked]; by rewrite lookup_insert_eq.
    - rewrite E. destruct (qc_seq row); cbn; rewrite lookup_insert_eq; cbn; lia.
    - destruct (qc_seq row); cbn; by rewrite ?lookup_insert_eq. }
  destruct (IH s1) as [ate Hate]. eexists. by eapply eaten_trans.
Qed.

(** The commands of one client that ran, as the frame holds them. *)
Definition ran (id t : Z) (rows : list QueuedCmd) : list PlayerCommand :=
  map (fun row => mkPlayerCommand id
         (set_server_time (qc_cmd row)
            (match qc_seq row with Some _ => uc_server_time (qc_cmd row) | None => t end))
         (qc_seq row)) rows.

Definition run_seqs (cmds : list PlayerCommand) : list Z := omap pc_sequence cmds.

Lemma run_seqs_ran id t rows : run_seqs (ran id t rows) = seqs rows.
Proof.
  induction rows as [|row rows IH]; [done|]. rewrite seqs_cons, <- IH.
  unfold run_seqs, ran. cbn. by destruct (qc_seq row).
Qed.

Lemma run_commands_spec id t rows s out ack :
  let '(s', out', ack') := foldl (run_command id t) (s, out, ack) rows in
  ib_queued s' = ib_queued s /\ ib_blocked_head s' = ib_blocked_head s /\
  (forall id', id' <> id -> ib_last_acked s' !! id' = ib_last_acked s !! id' /\
                           ib_last_consumed s' !! id' = ib_last_consumed s !! id') /\
  ib_last_acked s' !! id = (match list.last (seqs rows) with
                            | Some n => Some n | None => ib_last_acked s !! id end) /\
  ack' = (match list.last (seqs rows) with Some n => Some n | None => ack end) /\
  ga_cmds out' = ga_cmds out ++ ran id t rows /\ ga_acks out' = ga_acks out /\
  ga_proxied out' = ga_proxied out /\ ga_faults out' = ga_faults out.
Proof.
  induction rows as [|row rows IH] in s, out, ack |- *; cbn [foldl].
  { split_and!; try done. by rewrite app_nil_r. }
  destruct (run_command id t (s, out, ack) row) as [[s1 out1] ack1] eqn:E1.
  specialize (IH s1 out1 ack1). destruct (foldl _ _ rows) as [[s' out'] ack'].
  unfold run_command in E1. rewrite seqs_cons.
  destruct IH as (H1 & H2 & H3 & H4 & H5 & H6 & H7 & H8 & H9).
  destruct (qc_seq row) as [n|] eqn:En; injection E1 as <- <- <-;
    cbn [ib_queued ib_blocked_head ib_last_acked ib_last_consumed set_acked set_consumed
         ga_cmds ga_acks ga_proxied ga_faults] in *.
  all: split_and!; try done.
  1,5: intros id' Hne; destruct (H3 id' Hne) as [-> ->]; by rewrite ?lookup_insert_ne.
  - rewrite H4, lookup_insert_eq. change (n :: seqs rows) with ([n] ++ seqs rows).
    rewrite list.last_app. by destruct (list.last (seqs rows)).
  - rewrite H5. change (n :: seqs rows) with ([n] ++ seqs rows). rewrite list.last_app.
    by destruct (list.last (seqs rows)).
  - rewrite H6, <- app_assoc. cbn. by rewrite En.
  - rewrite H6, <- app_assoc. cbn. by rewrite En.
Qed.

(** *** Which commands run *)

Lemma runnable_bound limit expected t q : (runnable limit expected t q <= limit)%nat.
Proof.
  induction limit as [|limit IH] in expected, q |- *; cbn; [lia|].
  destruct q as [|row q]; [lia|]. destruct (qc_seq row) as [n|].
  - destruct (_ || _); [lia|]. specialize (IH (wrapping_add32 n 1) q). lia.
  - specialize (IH expected q). lia.
Qed.

(** No sequenced command runs before its time. *)
Definition due (t : Z) (row : QueuedCmd) : Prop :=
  forall n, qc_seq row = Some n -> uc_server_time (qc_cmd row) <= t.

Lemma runnable_due limit expected t q : Forall (due t) (take (runnable limit expected t q) q).
Proof.
  induction limit as [|limit IH] in expected, q |- *; cbn [runnable]; [constructor|].
  destruct q as [|row q]; [constructor|]. destruct (qc_seq row) as [n|] eqn:En.
  - destruct (_ || _) eqn:E; [constructor|]. apply orb_false_iff in E as [_ E]. apply Z.ltb_ge in E.
    cbn [take]. constructor; [|apply IH]. by intros ? _.
  - cbn [take]. constructor; [|apply IH]. intros n H. congruence.
Qed.

Lemma insert_sorted_perm row l : insert_sorted row l ≡ₚ row :: l.
Proof.
  induction l as [|other l IH]; cbn [insert_sorted]; [done|].
  destruct (seq_leb _ _); [done|]. rewrite IH. constructor.
Qed.

Lemma sort_by_seq_perm l : sort_by_seq l ≡ₚ l.
Proof.
  induction l as [|row l IH]; [done|]. cbn [sort_by_seq foldr].
  change (foldr insert_sorted [] l) with (sort_by_seq l). by rewrite insert_sorted_perm, IH.
Qed.

Lemma seqs_insert_sorted row l :
  (forall n, qc_seq row = Some n -> Forall (Z.lt n) (seqs l)) ->
  seqs (insert_sorted row l) = option_list (qc_seq row) ++ seqs l.
Proof.
  induction l as [|other l IH]; cbn [insert_sorted]; intros H.
  { rewrite seqs_cons. by destruct (qc_seq row). }
  destruct (seq_leb (qc_seq row) (qc_seq other)) eqn:E; [rewrite seqs_cons; by destruct (qc_seq row)|].
  destruct (qc_seq row) as [n|] eqn:En; [|done]. destruct (qc_seq other) as [m|] eqn:Em.
  - specialize (H n eq_refl). rewrite seqs_cons, Em in H. apply list.Forall_cons in H as [H _].
    cbn in E. apply Z.leb_gt in E. lia.
  - rewrite !seqs_cons, Em. rewrite IH; [done|]. intros n' [= <-]. specialize (H n eq_refl).
    by rewrite seqs_cons, Em in H.
Qed.

Lemma seqs_sort l : StronglySorted Z.lt (seqs l) -> seqs (sort_by_seq l) = seqs l.
Proof.
  induction l as [|row l IH]; [done|]. intros H. cbn [sort_by_seq foldr].
  change (foldr insert_sorted [] l) with (sort_by_seq l). rewrite seqs_cons in H |- *.
  assert (Hl : StronglySorted Z.lt (seqs l)).
  { destruct (qc_seq row); [by apply StronglySorted_inv in H as [? _]|done]. }
  rewrite seqs_insert_sorted, IH by (try done; intros n Hn; rewrite Hn in H;
    apply StronglySorted_inv in H as [_ H]; by rewrite IH).
  by destruct (qc_seq row).
Qed.

Lemma all_unsequenced_seqs l : all_unsequenced l = true -> seqs l = [].
Proof.
  induction l as [|row l IH]; [done|]. cbn [all_unsequenced forallb]. intros [H1 H2]%andb_true_iff.
  apply bool_decide_eq_true in H1. rewrite seqs_cons, H1. by apply IH.
Qed.

Lemma keep_last_spec l :
  seqs (keep_last_unsequenced l) = seqs l /\ (forall row, row ∈ keep_last_unsequenced l -> row ∈ l) /\
  (length (keep_last_unsequenced l) <= length l)%nat /\ (keep_last_unsequenced l = [] -> l = []).
Proof.
  unfold keep_last_unsequenced. destruct (all_unsequenced l && _) eqn:E; [|done].
  apply andb_true_iff in E as [E Hlen]. apply Z.ltb_lt in Hlen. unfold zlen in Hlen.
  pose proof (all_unsequenced_seqs l E) as Hnil. split_and!.
  - rewrite <- (take_drop (length l - 1) l), seqs_app in Hnil. apply app_eq_nil in Hnil as [_ ->].
    by rewrite (all_unsequenced_seqs l E).
  - intros row Hrow. rewrite <- (take_drop (length l - 1) l). apply elem_of_app. by right.
  - rewrite length_drop. lia.
  - intros Hd. apply (f_equal length) in Hd. rewrite length_drop in Hd. cbn in Hd. lia.
Qed.

(** ** A client's turn *)

(** Commands the frame may run for client [id] at time [t]. *)
Definition turn_ok (id t : Z) (cmds : list PlayerCommand) : Prop :=
  (length cmds <= MAX_COMMANDS_PER_PEER_PER_FRAME)%nat /\
  Forall (fun c => pc_client c = id /\ uc_server_time (pc_command c) <= t /\
                   (pc_sequence c = None -> uc_server_time (pc_command c) = t)) cmds.

Lemma ran_ok id t rows :
  Forall (due t) rows -> (length rows <= MAX_COMMANDS_PER_PEER_PER_FRAME)%nat -> turn_ok id t (ran id t rows).
Proof.
  intros Hdue Hlen. split; [unfold ran; by rewrite length_map|].
  apply list.Forall_forall. intros c (row & -> & Hrow)%list_elem_of_fmap.
  rewrite list.Forall_forall in Hdue. specialize (Hdue row Hrow). cbn.
  destruct (qc_seq row) as [n|] eqn:En; split_and!; try done.
  by apply (Hdue n).
Qed.

Lemma drained_rows_ok (n : nat) t q :
  StronglySorted Z.lt (seqs q) -> (n <= MAX_COMMANDS_PER_PEER_PER_FRAME)%nat -> Forall (due t) (take n q) ->
  let drained := sort_by_seq (keep_last_unsequenced (take n q)) in
  seqs drained = seqs (take n q) /\ Forall (due t) drained /\
  (length drained <= MAX_COMMANDS_PER_PEER_PER_FRAME)%nat /\ (drained = [] -> take n q = []).
Proof.
  intros Hsort Hn Hdue. destruct (keep_last_spec (take n q)) as (Hk & Hin & Hlen & Hnil).
  assert (Htake : StronglySorted Z.lt (seqs (take n q))).
  { rewrite <- (take_drop n q), seqs_app in Hsort. by apply sorted_app_inv in Hsort as (? & _ & _). }
  pose proof (sort_by_seq_perm (keep_last_unsequenced (take n q))) as Hperm. cbn zeta. split_and!.
  - by rewrite seqs_sort; rewrite ?Hk.
  - apply list.Forall_forall. intros row Hrow. rewrite Hperm in Hrow. apply Hin in Hrow.
    by eapply list.Forall_forall in Hrow.
  - rewrite Hperm. rewrite length_take in Hlen. lia.
  - intros Hd. apply Hnil. rewrite Hd in Hperm. by apply Permutation_nil in Hperm.
Qed.

Lemma take_nothing_spec s out id t :
  let r := take_nothing s out id t in
  exists shed cmds, eaten id s r.1 shed /\ ga_cmds r.2 = ga_cmds out ++ cmds /\
    run_seqs cmds = [] /\ turn_ok id t cmds.
Proof.
  unfold take_nothing, shed_excess.
  destruct (eaten_shed (S (length (default [] (ib_queued s !! id)))) s id t) as [shed Hshed].
  set (s1 := shed_loop _ s id t) in *. pose proof (eaten_backlog s1 id t) as Hb.
  destruct (backlog_fault s1 id t) as [s2 fault]. cbn [fst] in Hb.
  pose proof (eaten_trans _ _ _ _ _ _ Hshed Hb) as He. rewrite app_nil_r in He.
  assert (Hno : turn_ok id t []) by (split; [cbn; lia|constructor]).
  destruct fault as [f|].
  { exists shed, []. split_and!; [done|cbn; by rewrite app_nil_r|done..]. }
  destruct (ib_last_acked s2 !! id).
  { exists shed, []. split_and!; [done|cbn; by rewrite app_nil_r|done..]. }
  destruct (ib_last_consumed s2 !! id) as [cmd|].
  - exists shed, [mkPlayerCommand id (set_server_time cmd t) None]. cbn [fst snd].
    split; [|split; [done|split; [done|]]].
    + rewrite <- (app_nil_r shed). eapply eaten_trans; [exact He|]. apply eaten_nothing; try done.
      intros id' Hne. cbn. by rewrite lookup_insert_ne.
    + split; [unfold MAX_COMMANDS_PER_PEER_PER_FRAME; cbn; lia|]. constructor; [|constructor]. by split_and!.
  - exists shed, []. split_and!; [done|cbn; by rewrite app_nil_r|done..].
Qed.

(** Draining the front of the queue and running it. *)
Lemma run_drained_spec s1 s out id t n drained :
  let q := default [] (ib_queued s1 !! id) in
  others_same id s1 s -> (is_Some (ib_queued s !! id) <-> is_Some (ib_queued s1 !! id)) ->
  default [] (ib_queued s !! id) = drop n q -> ib_last_acked s = ib_last_acked s1 ->
  seqs drained = seqs (take n q) -> let r := run_drained s out id t drained in
  exists shed, eaten id s1 r.1 (seqs drained ++ shed) /\ ga_cmds r.2 = ga_cmds out ++ ran id t drained.
Proof.
  intros q Ho Hi Hq Ha Hseqs. unfold run_drained.
  set (s3 := set_blocked s _).
  pose proof (run_commands_spec id t drained s3 out None) as Hrun.
  destruct (foldl (run_command id t) (s3, out, None) drained) as [[s4 out4] ack].
  destruct Hrun as (Hq4 & Hb4 & Ho4 & Ha4 & _ & Hcmds & _).
  assert (H4 : eaten id s1 s4 (seqs drained)).
  { split; [|split; [|cbn zeta; split; [|split]]].
    - intros id' Hne. destruct (Ho id' Hne) as (E1 & E2 & E3 & E4), (Ho4 id' Hne) as [E5 E6].
      rewrite Hq4, Hb4, E5, E6. cbn. rewrite lookup_delete_ne by done. by split_and!.
    - rewrite Hq4. exact Hi.
    - rewrite Hq4. cbn [s3 set_blocked ib_queued]. rewrite Hq, Hseqs. fold q.
      by rewrite <- seqs_app, take_drop.
    - rewrite Hq4. cbn [s3 set_blocked ib_queued]. rewrite Hq, length_drop. fold q. lia.
    - rewrite Ha4. cbn [s3 set_blocked ib_last_acked]. by rewrite Ha. }
  unfold shed_excess.
  destruct (eaten_shed (S (length (default [] (ib_queued s4 !! id)))) s4 id t) as [shed Hshed].
  set (s5 := shed_loop _ s4 id t) in *. pose proof (eaten_backlog s5 id t) as Hb5. clearbody s5.
  destruct (backlog_fault s5 id t) as [s6 fault]. cbn [fst] in *. exists shed. split.
  - rewrite <- (app_nil_r shed). exact (eaten_trans _ _ _ _ _ _ H4 (eaten_trans _ _ _ _ _ _ Hshed Hb5)).
  - destruct ack, fault; exact Hcmds.
Qed.

Lemma drain_queue_spec s id n :
  let s' := drain_queue s id n in
  others_same id s s' /\ (is_Some (ib_queued s' !! id) <-> is_Some (ib_queued s !! id)) /\
  default [] (ib_queued s' !! id) = drop n (default [] (ib_queued s !! id)) /\
  ib_last_acked s' = ib_last_acked s.
Proof.
  unfold drain_queue. destruct (ib_queued s !! id) eqn:E; cbn [ib_queued set_queue];
    rewrite ?lookup_insert_eq, ?E; cbn; rewrite ?drop_nil; split_and!; try done.
  intros id' Hne. cbn. by rewrite lookup_insert_ne.
Qed.

Lemma take_count_spec n s out id t :
  inbox_ok s -> let q := default [] (ib_queued s !! id) in
  (n <= MAX_COMMANDS_PER_PEER_PER_FRAME)%nat -> Forall (due t) (take n q) ->
  let r := take_count n s out id t in
  exists cmds shed, eaten id s r.1 (run_seqs cmds ++ shed) /\ ga_cmds r.2 = ga_cmds out ++ cmds /\
    turn_ok id t cmds.
Proof.
  intros Hs q Hn Hdue0. unfold take_count.
  assert (Hsort : StronglySorted Z.lt (seqs q)) by (by apply queue_facts).
  destruct (drained_rows_ok n t q Hsort Hn Hdue0) as (Hseqs & Hdue & Hlen & Hnil).
  destruct (drain_queue_spec s id n) as (Ho2 & Hi2 & Hq2 & Ha2). fold q in Hq2 |- *.
  generalize dependent (drain_queue s id n). intros s2 Ho2 Hi2 Hq2 Ha2.
  generalize dependent (sort_by_seq (keep_last_unsequenced (take n q))). intros drained Hseqs Hdue Hlen Hnil.
  destruct drained as [|row rows] eqn:Edr.
  - destruct (take_nothing_spec s2 out id t) as (shed & cmds & Hshed & Hcmds & Hrun & Hok).
    exists cmds, shed. split; [|split; [exact Hcmds|exact Hok]]. rewrite Hrun.
    assert (H2 : eaten id s s2 []).
    { apply eaten_nothing; [exact Ho2|exact Hi2| | |by rewrite Ha2]; fold q; rewrite Hq2.
      - rewrite <- (take_drop n q) at 2. by rewrite (Hnil eq_refl).
      - rewrite length_drop. lia. }
    exact (eaten_trans _ _ _ _ _ _ H2 Hshed).
  - rewrite <- Edr in *. clear Edr row rows.
    destruct (run_drained_spec s s2 out id t n drained Ho2 Hi2 Hq2 Ha2 Hseqs) as (shed & H6 & Hcmds).
    exists (ran id t drained), shed. rewrite run_seqs_ran.
    split; [exact H6|]. split; [exact Hcmds|by apply ran_ok].
Qed.

Lemma take_client_spec s out id t :
  inbox_ok s -> let r := take_client t (s, out) id in
  exists cmds shed, eaten id s r.1 (run_seqs cmds ++ shed) /\ ga_cmds r.2 = ga_cmds out ++ cmds /\
    turn_ok id t cmds.
Proof.
  intros Hs. unfold take_client.
  pose proof (eaten_trans _ _ _ _ _ _ (eaten_hold s id t) (eaten_backlog (hold_queue s id t) id t)) as He.
  destruct (backlog_fault (hold_queue s id t) id t) as [s1 fault]. cbn [fst] in He.
  assert (Hs1 : inbox_ok s1) by (by eapply eaten_ok).
  destruct fault as [f|].
  - exists [], []. split; [exact He|]. split; [cbn; by rewrite app_nil_r|].
    split; [cbn; lia|constructor].
  - destruct (take_count_spec (run_count s1 id t) s1 out id t Hs1 (runnable_bound _ _ _ _)
      (runnable_due _ _ _ _)) as (cmds & shed & H & Hrest). exists cmds, shed. split; [|exact Hrest].
    exact (eaten_trans _ _ _ _ _ _ He H).
Qed.

(** ** A frame *)

(** The commands of client [id]. *)
Definition cmds_of (id : Z) (cmds : list PlayerCommand) : list PlayerCommand :=
  filter (fun c => pc_client c = id) cmds.

Lemma cmds_of_own id t cmds : turn_ok id t cmds -> cmds_of id cmds = cmds.
Proof.
  intros [_ H]. unfold cmds_of. induction H as [|c cmds (Hc & _) _ IH]; [done|].
  rewrite filter_cons_True by done. by rewrite IH.
Qed.

Lemma cmds_of_other id id' t cmds : id' <> id -> turn_ok id t cmds -> cmds_of id' cmds = [].
Proof.
  intros Hne [_ H]. unfold cmds_of. induction H as [|c cmds (Hc & _) _ IH]; [done|].
  rewrite filter_cons_False by congruence. done.
Qed.

(** A client's turn leaves every other client and its share of the frame alone. *)
Definition same_at (id : Z) (s s' : ClientCommandInbox) : Prop :=
  ib_queued s' !! id = ib_queued s !! id /\ ib_last_acked s' !! id = ib_last_acked s !! id /\
  ib_last_consumed s' !! id = ib_last_consumed s !! id /\
  ib_blocked_head s' !! id = ib_blocked_head s !! id.

Lemma same_at_trans id s1 s2 s3 : same_at id s1 s2 -> same_at id s2 s3 -> same_at id s1 s3.
Proof. intros (? & ? & ? & ?) (? & ? & ? & ?). split_and!; congruence. Qed.

Lemma same_at_eaten id s s' : same_at id s s' -> eaten_at id s s' [].
Proof. intros (E1 & E2 & _). unfold eaten_at. by rewrite E1, E2. Qed.

(** The faults of a frame only grow. *)
Lemma take_client_faults t acc id f :
  f ∈ ga_faults acc.2 -> f ∈ ga_faults (take_client t acc id).2.
Proof.
  destruct acc as [s out]. cbn [snd]. intros Hf. unfold take_client, take_count, take_nothing, run_drained.
  destruct (backlog_fault (hold_queue s id t) id t) as [s1 [f1|]]; [apply elem_of_app; by left|].
  destruct (sort_by_seq _) as [|row rows].
  - destruct (backlog_fault (shed_excess _ _ _) _ _) as [s2 [f2|]]; [apply elem_of_app; by left|].
    destruct (ib_last_acked s2 !! id); [done|]. by destruct (ib_last_consumed s2 !! id).
  - set (s3 := set_blocked _ _). pose proof (run_commands_spec id t (row :: rows) s3 out None) as Hrun.
    destruct (foldl _ _ (row :: rows)) as [[s4 out4] ack]. destruct Hrun as (_ & _ & _ & _ & _ & _ & _ & _ & Hfs).
    rewrite <- Hfs in Hf. destruct (backlog_fault _ _ _) as [s5 [f2|]], ack; cbn; try done;
    apply elem_of_app; by left.
Qed.

Lemma frame_faults t ids acc f :
  f ∈ ga_faults acc.2 -> f ∈ ga_faults (foldl (take_client t) acc ids).2.
Proof.
  induction ids as [|id ids IH] in acc |- *; intros Hf; [done|]. by apply IH, take_client_faults.
Qed.

Lemma take_client_other s out id x t :
  inbox_ok s -> id <> x -> let r := take_client t (s, out) x in
  inbox_ok r.1 /\ same_at id s r.1 /\ cmds_of id (ga_cmds r.2) = cmds_of id (ga_cmds out).
Proof.
  intros Hs Hne. destruct (take_client_spec s out x t Hs) as (cmds & shed & He & Hcmds & Hok).
  cbn zeta. split; [by eapply eaten_ok|]. split; [by apply He|].
  rewrite Hcmds. unfold cmds_of. rewrite list.filter_app. change (filter _ cmds) with (cmds_of id cmds).
  by rewrite (cmds_of_other x id t), app_nil_r.
Qed.

Lemma frame_other ids s out id t :
  id ∉ ids -> inbox_ok s -> let r := foldl (take_client t) (s, out) ids in
  inbox_ok r.1 /\ same_at id s r.1 /\ cmds_of id (ga_cmds r.2) = cmds_of id (ga_cmds out).
Proof.
  induction ids as [|x ids IH] in s, out |- *; intros Hid Hs; cbn [foldl fst snd].
  { split; [done|]. by split. }
  apply not_elem_of_cons in Hid as [Hne Hid].
  destruct (take_client_other s out id x t Hs Hne) as (H1 & H2 & H3).
  destruct (take_client t (s, out) x) as [s1 out1]. cbn [fst snd] in *.
  destruct (IH s1 out1 Hid H1) as (H4 & H5 & H6). split; [done|]. split; [|by rewrite H6].
  by eapply same_at_trans.
Qed.

(** A frame, seen from one client: the clients before it, its turn, the clients after it. *)
Lemma frame_turn ids s out id t :
  NoDup ids -> id ∈ ids -> inbox_ok s -> exists s0 out0,
  inbox_ok s0 /\ same_at id s s0 /\ cmds_of id (ga_cmds out0) = cmds_of id (ga_cmds out) /\
  (exists pre post, ids = pre ++ id :: post /\ foldl (take_client t) (s, out) pre = (s0, out0) /\
     (id ∉ pre) /\ (id ∉ post) /\
     foldl (take_client t) (s, out) ids = foldl (take_client t) (take_client t (s0, out0) id) post).
Proof.
  intros Hnd Hid Hs. apply list_elem_of_split in Hid as (pre & post & ->).
  apply list.NoDup_app in Hnd as (_ & Hpre & Hpost). apply list.NoDup_cons in Hpost as [Hpost _].
  assert (Hno : id ∉ pre) by (intros Hin; exact (Hpre id Hin (list_elem_of_here _ _))).
  destruct (frame_other pre s out id t Hno Hs) as (H1 & H2 & H3).
  destruct (foldl (take_client t) (s, out) pre) as [s0 out0] eqn:E. exists s0, out0.
  split_and!; try done. exists pre, post. split_and!; try done. by rewrite foldl_app, E.
Qed.

Lemma frame_spec ids s out id t :
  NoDup ids -> inbox_ok s -> let r := foldl (take_client t) (s, out) ids in
  inbox_ok r.1 /\ exists cmds shed, eaten_at id s r.1 (run_seqs cmds ++ shed) /\
    cmds_of id (ga_cmds r.2) = cmds_of id (ga_cmds out) ++ cmds /\ turn_ok id t cmds.
Proof.
  intros Hnd Hs. destruct (decide (id ∈ ids)) as [Hid|Hid].
  - destruct (frame_turn ids s out id t Hnd Hid Hs)
      as (s0 & out0 & H0 & He0 & Hc0 & pre & post & _ & _ & _ & Hpost & ->).
    destruct (take_client_spec s0 out0 id t H0) as (cmds & shed & He & Hcmds & Hok).
    assert (H1 : inbox_ok (take_client t (s0, out0) id).1) by (by eapply eaten_ok).
    destruct (take_client t (s0, out0) id) as [s1 out1]. cbn [fst snd] in *.
    destruct (frame_other post s1 out1 id t Hpost H1) as (H2 & He2 & Hc2). split; [done|].
    exists cmds, shed. split; [|split; [|done]].
    + rewrite <- (app_nil_r (run_seqs cmds ++ shed)).
      exact (eaten_at_trans _ _ _ _ _ _ (eaten_at_trans _ _ _ _ _ _ (same_at_eaten _ _ _ He0) (proj2 He))
        (same_at_eaten _ _ _ He2)).
    + rewrite Hc2, Hcmds. unfold cmds_of. rewrite list.filter_app. fold (cmds_of id (ga_cmds out0)).
      rewrite Hc0. f_equal. by eapply cmds_of_own.
  - destruct (frame_other ids s out id t Hid Hs) as (H1 & H2 & H3). split; [done|].
    exists [], []. split; [by apply same_at_eaten|]. rewrite H3, app_nil_r. split; [done|]. split; [cbn; lia|constructor].
Qed.

Lemma known_clients_nodup s : NoDup (known_clients s).
Proof. unfold known_clients. rewrite merge_sort_Permutation. apply NoDup_elements. Qed.

Lemma take_for_tick_spec s id t :
  inbox_ok s -> let r := take_for_tick s t in
  inbox_ok r.1 /\ exists cmds shed, eaten_at id s r.1 (run_seqs cmds ++ shed) /\
    cmds_of id (ga_cmds r.2) = cmds /\ turn_ok id t cmds.
Proof.
  intros Hs. destruct (frame_spec (known_clients s) s gathered_default id t (known_clients_nodup s) Hs)
    as (H & cmds & shed & ? & Hc & ?). split; [done|]. exists cmds, shed. by split_and!.
Qed.

(** ** Where the commands come from

    [P id seq cmd]: client [id] sent [cmd] under the number [seq]. *)

Section Provenance.
Context (P : Z -> option Z -> UserCmd -> Prop).
Context (P_retime : forall id sq c t, P id sq c -> P id sq (set_server_time c t)).

Definition row_from (id : Z) (row : QueuedCmd) : Prop := P id (qc_seq row) (qc_cmd row).

Record inbox_from (s : ClientCommandInbox) : Prop := {
  if_queued id : Forall (row_from id) (default [] (ib_queued s !! id));
  if_consumed id c : ib_last_consumed s !! id = Some c -> exists sq, P id sq c;
}.

Definition out_from (out : GatheredCommands) : Prop :=
  Forall (fun c => exists sq, P (pc_client c) sq (pc_command c) /\
                              (pc_sequence c = None \/ pc_sequence c = sq)) (ga_cmds out).

Lemma from_queue s id q :
  inbox_from s -> Forall (row_from id) q -> inbox_from (set_queue s id q).
Proof.
  intros Hs Hq. split; [|apply Hs]. intros id'. cbn [set_queue ib_queued].
  destruct (decide (id' = id)) as [->|]; [by rewrite lookup_insert_eq|].
  rewrite lookup_insert_ne by done. apply Hs.
Qed.

Lemma from_consumed s id c sq : inbox_from s -> P id sq c -> inbox_from (set_consumed s id c).
Proof.
  intros Hs Hc. split; [apply Hs|]. intros id' c'. cbn [set_consumed ib_last_consumed].
  destruct (decide (id' = id)) as [->|]; [rewrite lookup_insert_eq; intros [= <-]; eauto|].
  rewrite lookup_insert_ne by done. apply Hs.
Qed.

Lemma from_acked s id n : inbox_from s -> inbox_from (set_acked s id n).
Proof. intros Hs. split; apply Hs. Qed.

Lemma from_blocked s b : inbox_from s -> inbox_from (set_blocked s b).
Proof. intros Hs. split; apply Hs. Qed.

Lemma from_backlog s id t : inbox_from s -> inbox_from (backlog_fault s id t).1.
Proof.
  intros Hs. destruct (backlog_fault_queues s id t) as (E1 & _ & E3 & _).
  split; [intros id'; rewrite E1|intros id' c; rewrite E3]; apply Hs.
Qed.

Lemma from_hold s id t : inbox_from s -> inbox_from (hold_queue s id t).
Proof.
  intros Hs. pose proof (if_queued s Hs id) as Hq. unfold hold_queue.
  destruct (ib_queued s !! id) as [q|]; [|done]. apply from_queue; [done|]. change (Forall (row_from id) q) in Hq.
  apply List.Forall_map. eapply Forall_impl; [exact Hq|]. intros row Hrow. unfold hold_lead.
  destruct (_ <? _); [by apply P_retime|exact Hrow].
Qed.

Lemma from_drain s id n : inbox_from s -> inbox_from (drain_queue s id n).
Proof.
  intros Hs. pose proof (if_queued s Hs id) as Hq. unfold drain_queue.
  destruct (ib_queued s !! id) as [q|]; [|done]. by apply from_queue, Forall_drop.
Qed.

Lemma from_shed fuel s id t : inbox_from s -> inbox_from (shed_loop fuel s id t).
Proof.
  induction fuel as [|fuel IH] in s |- *; intros Hs; cbn [shed_loop]; [done|].
  destruct (_ <=? _); [done|]. pose proof (if_queued s Hs id) as Hq.
  destruct (ib_queued s !! id) as [[|row rest]|]; [done| |done].
  apply list.Forall_cons in Hq as [Hrow Hq]. apply IH.
  assert (inbox_from (set_queue s id rest)) by (by apply from_queue).
  destruct (qc_seq row) eqn:E; [|done]. eapply from_consumed; [by apply from_acked|exact Hrow].
Qed.

Lemma from_run_commands id t rows s out ack :
  inbox_from s -> out_from out -> Forall (row_from id) rows ->
  let r := foldl (run_command id t) (s, out, ack) rows in inbox_from r.1.1 /\ out_from r.1.2.
Proof.
  induction rows as [|row rows IH] in s, out, ack |- *; intros Hs Ho Hrows; cbn [foldl]; [done|].
  apply list.Forall_cons in Hrows as [Hrow Hrows].
  destruct (run_command id t (s, out, ack) row) as [[s1 out1] ack1] eqn:E.
  unfold run_command in E. unfold row_from in Hrow.
  destruct (qc_seq row) as [n|] eqn:En; injection E as <- <- <-; (apply IH; [| |done]).
  - apply from_acked. eapply from_consumed; [done|by apply P_retime].
  - apply list.Forall_app. split; [done|]. constructor; [|done]. eexists. split; [by apply P_retime|by right].
  - eapply from_consumed; [done|by apply P_retime].
  - apply list.Forall_app. split; [done|]. constructor; [|done]. eexists. split; [by apply P_retime|by left].
Qed.

Lemma from_taken n q id :
  Forall (row_from id) q -> Forall (row_from id) (sort_by_seq (keep_last_unsequenced (take n q))).
Proof.
  intros Hq. apply list.Forall_forall. intros row. rewrite sort_by_seq_perm. intros Hrow.
  apply keep_last_spec in Hrow. eapply list.Forall_forall; [by apply list.Forall_take|exact Hrow].
Qed.

Lemma from_run_drained s out id t drained :
  inbox_from s -> out_from out -> Forall (row_from id) drained ->
  let r := run_drained s out id t drained in inbox_from r.1 /\ out_from r.2.
Proof.
  intros Hs Ho Hd. unfold run_drained.
  destruct (from_run_commands id t drained (set_blocked s (delete id (ib_blocked_head s))) out None
    (from_blocked _ _ Hs) Ho Hd) as [H1 H2].
  destruct (foldl _ _ drained) as [[s1 out1] ack]. cbn [fst snd] in H1, H2.
  assert (H3 : inbox_from (shed_excess s1 id t)) by (by apply from_shed).
  pose proof (from_backlog _ id t H3) as H4.
  destruct (backlog_fault (shed_excess s1 id t) id t) as [s2 fault]. split; [exact H4|].
  by destruct ack, fault.
Qed.

Lemma from_take_nothing s out id t :
  inbox_from s -> out_from out ->
  let r := take_nothing s out id t in inbox_from r.1 /\ out_from r.2.
Proof.
  intros Hs Ho. unfold take_nothing.
  assert (H3 : inbox_from (shed_excess s id t)) by (by apply from_shed).
  pose proof (from_backlog _ id t H3) as H4.
  destruct (backlog_fault (shed_excess s id t) id t) as [s2 fault]. cbn [fst] in H4.
  destruct fault; [done|]. destruct (ib_last_acked s2 !! id); [done|].
  destruct (ib_last_consumed s2 !! id) as [c|] eqn:Ec; [|done].
  destruct (if_consumed s2 H4 id c Ec) as [sq Hc]. split.
  - eapply from_consumed; [done|by apply P_retime].
  - apply list.Forall_app. split; [done|]. constructor; [|done]. exists sq. split; [by apply P_retime|by left].
Qed.

Lemma from_take_client t acc id :
  inbox_from acc.1 -> out_from acc.2 ->
  let r := take_client t acc id in inbox_from r.1 /\ out_from r.2.
Proof.
  destruct acc as [s out]. cbn [fst snd]. intros Hs Ho. unfold take_client.
  pose proof (from_backlog _ id t (from_hold s id t Hs)) as H1.
  destruct (backlog_fault (hold_queue s id t) id t) as [s1 fault]. cbn [fst] in H1.
  destruct fault; [done|]. unfold take_count.
  pose proof (from_taken (run_count s1 id t) _ id (if_queued s1 H1 id)) as Hd.
  pose proof (from_drain s1 id (run_count s1 id t) H1) as H2.
  destruct (sort_by_seq _) as [|row rows]; [by apply from_take_nothing|by apply from_run_drained].
Qed.

Lemma from_take_for_tick s t :
  inbox_from s -> let r := take_for_tick s t in inbox_from r.1 /\ out_from r.2.
Proof.
  intros Hs. unfold take_for_tick.
  assert (H : forall ids acc, inbox_from acc.1 -> out_from acc.2 ->
    inbox_from (foldl (take_client t) acc ids).1 /\ out_from (foldl (take_client t) acc ids).2).
  { induction ids as [|id ids IH]; intros acc H1 H2; [done|]. cbn [foldl].
    destruct (from_take_client t acc id H1 H2). by apply IH. }
  apply H; [done|by constructor].
Qed.

Lemma from_push s id sq cmd sample :
  inbox_from s -> P id sq cmd -> inbox_from (inbox_push s id sq cmd sample).
Proof.
  intros Hs Hc. unfold inbox_push. destruct (match sq with Some _ => _ | None => _ end); [done|].
  pose proof (if_queued s Hs id) as Hq. destruct (_ <? _); [by apply from_queue|].
  apply from_queue; [done|]. set (row := mkQueued sq cmd _).
  assert (Hrow : row_from id row) by exact Hc. destruct sq as [n|].
  - induction Hq as [|other q Ho Hq IH]; cbn [insert_by_seq]; [by repeat constructor|].
    destruct (qc_seq other); [destruct (_ <? _)|]; by repeat constructor.
  - apply list.Forall_app. by repeat constructor.
Qed.

Lemma from_retire s id : inbox_from s -> inbox_from (inbox_retire_client s id).
Proof.
  intros Hs. split; intros id'; cbn [inbox_retire_client ib_queued ib_last_consumed];
    destruct (decide (id' = id)) as [->|]; rewrite ?lookup_delete_eq, ?lookup_delete_ne by done;
    try done; apply Hs.
Qed.

Lemma from_default : inbox_from inbox_default.
Proof.
  split; intros id; cbn [inbox_default ib_queued ib_last_consumed]; rewrite lookup_empty; [constructor|done].
Qed.

End Provenance.

(** ** Runs of the inbox *)

Inductive InboxOp : Type :=
| OpPush (id : Z) (seq : option Z) (cmd : UserCmd) (sample : option ShotSampleProvenance)
| OpTake (time_ms : Z)
| OpRetire (id : Z)
| OpClear.

Definition inbox_op (acc : ClientCommandInbox * list GatheredCommands) (op : InboxOp)
    : ClientCommandInbox * list GatheredCommands :=
  let '(s, frames) := acc in
  match op with
  | OpPush id seq cmd sample => (inbox_push s id seq cmd sample, frames)
  | OpTake t => let '(s, out) := take_for_tick s t in (s, frames ++ [out])
  | OpRetire id => (inbox_retire_client s id, frames)
  | OpClear => (inbox_clear s, frames)
  end.

(** The inbox and the frames it gave, from an empty inbox. *)
Definition inbox_run (ops : list InboxOp) : ClientCommandInbox * list GatheredCommands :=
  foldl inbox_op (inbox_default, []) ops.

(** The numbers of client [id]'s commands over some frames, in the order they ran. *)
Definition executed (id : Z) (frames : list GatheredCommands) : list Z :=
  run_seqs (cmds_of id (concat (map ga_cmds frames))).

Lemma executed_snoc id frames out :
  executed id (frames ++ [out]) = executed id frames ++ run_seqs (cmds_of id (ga_cmds out)).
Proof.
  unfold executed, cmds_of, run_seqs. rewrite map_app, concat_app, list.filter_app, omap_app.
  cbn [map concat]. by rewrite app_nil_r.
Qed.

Lemma retire_ok s id : inbox_ok s -> inbox_ok (inbox_retire_client s id).
Proof.
  intros Hs. split; intros id'; destruct (decide (id' = id)) as [->|Hne];
    cbn [inbox_retire_client ib_queued ib_last_acked];
    rewrite ?lookup_delete_eq, ?lookup_delete_ne by done; try done; apply Hs.
Qed.

Lemma default_ok : inbox_ok inbox_default.
Proof. split; intros id q; cbn [inbox_default ib_queued]; by rewrite lookup_empty. Qed.

Lemma run_ok ops : inbox_ok (inbox_run ops).1.
Proof.
  unfold inbox_run. induction ops as [|op ops IH] using rev_ind; [apply default_ok|].
  rewrite foldl_app. cbn [foldl]. destruct (foldl _ _ ops) as [s frames]. cbn [fst] in IH.
  destruct op as [id seq cmd sample|t|id|]; cbn [inbox_op].
  - by apply push_ok.
  - destruct (take_for_tick_spec s 0 t IH) as [H _]. by destruct (take_for_tick s t).
  - by apply retire_ok.
  - apply default_ok.
Qed.

Lemma inbox_run_snoc ops op : inbox_run (ops ++ [op]) = inbox_op (inbox_run ops) op.
Proof. unfold inbox_run. by rewrite foldl_app. Qed.

Lemma push_acked s id seq cmd sample : ib_last_acked (inbox_push s id seq cmd sample) = ib_last_acked s.
Proof.
  unfold inbox_push. destruct (match seq with Some _ => _ | None => _ end); [done|]. by destruct (_ <? _).
Qed.

Lemma executed_frame s frames t id :
  inbox_ok s -> StronglySorted Z.lt (executed id frames) ->
  (forall n, n ∈ executed id frames -> exists last, ib_last_acked s !! id = Some last /\ n <= last) ->
  let r := take_for_tick s t in
  StronglySorted Z.lt (executed id (frames ++ [r.2])) /\
  (forall n, n ∈ executed id (frames ++ [r.2]) -> exists last, ib_last_acked r.1 !! id = Some last /\ n <= last).
Proof.
  intros Hs Hsort Hold. destruct (take_for_tick_spec s id t Hs) as (_ & cmds & shed & He & Hc & _).
  destruct (take_for_tick s t) as [s' out]. cbn [fst snd] in *. rewrite executed_snoc, Hc.
  destruct (eaten_new id s s' _ Hs He) as (Hate & Hlast & Hin).
  assert (Hlt : forall n, n ∈ executed id frames -> Forall (Z.lt n) (run_seqs cmds)).
  { intros n Hn. destruct (Hold n Hn) as (last & Hl & ?). destruct (Hlast last Hl) as [Hok _].
    apply list.Forall_app in Hok as [Hok _]. eapply Forall_impl; [exact Hok|]. cbn. lia. }
  apply sorted_app_inv in Hate as (Hate & _ & _). split.
  - clear -Hsort Hate Hlt. revert Hlt. induction Hsort as [|n l Hl IH Hn]; intros Hlt; [done|]. cbn [app].
    constructor; [apply IH; intros m Hm; apply Hlt; by right|]. apply list.Forall_app.
    split; [done|]. apply Hlt. by left.
  - intros n [Hn|Hn]%elem_of_app.
    + destruct (Hold n Hn) as (last & Hl & ?). destruct (Hlast last Hl) as (_ & last' & ? & ?).
      exists last'. split; [done|lia].
    + apply Hin, elem_of_app. by left.
Qed.

(** C35. Between two retirements a client's numbered commands run at most once each and in the order of
    their numbers: from any state the inbox can reach, over any pushes (duplicates and reorderings
    included) and frames in which the client is not retired and the inbox not cleared, the numbers that
    run are strictly increasing. *)
Theorem commands_run_once before ops id :
  Forall (fun op => op <> OpRetire id /\ op <> OpClear) ops ->
  StronglySorted Z.lt (executed id (foldl inbox_op ((inbox_run before).1, []) ops).2).
Proof.
  intros Hops. set (s0 := (inbox_run before).1). assert (H0 : inbox_ok s0) by apply run_ok. clearbody s0.
  enough (H : inbox_ok (foldl inbox_op (s0, []) ops).1 /\
    StronglySorted Z.lt (executed id (foldl inbox_op (s0, []) ops).2) /\
    forall n, n ∈ executed id (foldl inbox_op (s0, []) ops).2 ->
      exists last, ib_last_acked (foldl inbox_op (s0, []) ops).1 !! id = Some last /\ n <= last) by apply H.
  induction ops as [|op ops IH] using rev_ind.
  { split; [done|]. split; [constructor|]. intros n Hn. by apply not_elem_of_nil in Hn. }
  apply list.Forall_app in Hops as [Hops Hop]. apply list.Forall_cons in Hop as [[Hop1 Hop2] _].
  destruct (IH Hops) as (Hs & Hsort & Hold). rewrite foldl_app. cbn [foldl].
  destruct (foldl inbox_op (s0, []) ops) as [s frames]. cbn [fst snd] in Hs, Hsort, Hold.
  destruct op as [id' seq cmd sample|t|id'|]; cbn [inbox_op]; [| | |done].
  - split; [by apply push_ok|]. split; [done|]. cbn [fst snd]. by rewrite push_acked.
  - destruct (executed_frame s frames t id Hs Hsort Hold) as [H1 H2].
    destruct (take_for_tick_spec s id t Hs) as [H _]. by destruct (take_for_tick s t).
  - split; [by apply retire_ok|]. split; [done|]. cbn [fst snd inbox_retire_client ib_last_acked].
    rewrite lookup_delete_ne by congruence. exact Hold.
Qed.

Lemma run_from P (P_retime : forall id sq c t, P id sq c -> P id sq (set_server_time c t)) ops :
  (forall id sq c sample, OpPush id sq c sample ∈ ops -> P id sq c) ->
  inbox_from P (inbox_run ops).1 /\ Forall (out_from P) (inbox_run ops).2.
Proof.
  induction ops as [|op ops IH] using rev_ind; intros HP.
  { split; [apply from_default|constructor]. }
  destruct IH as [Hs Hf]. { intros id sq c sample Hin. eapply HP, elem_of_app. by left. }
  rewrite inbox_run_snoc. destruct (inbox_run ops) as [s frames]. cbn [fst snd] in Hs, Hf.
  destruct op as [id seq cmd sample|t|id|]; cbn [inbox_op]; cbn [fst snd].
  - split; [|done]. apply from_push; [done|]. eapply HP, elem_of_app. right. by left.
  - destruct (from_take_for_tick P P_retime s t Hs) as [H1 H2]. destruct (take_for_tick s t) as [s' out].
    split; [exact H1|]. apply list.Forall_app. by repeat constructor.
  - by split; [apply from_retire|].
  - by split; [apply from_default|].
Qed.

(** The inbox invents no input: every command a frame runs for a client is one that was pushed for
    that client, at most with another time, under its own number or, when it stands in for a missing
    command or came unnumbered, under none. *)
Theorem commands_were_sent ops frame c :
  frame ∈ (inbox_run ops).2 -> c ∈ ga_cmds frame ->
  exists seq cmd sample, OpPush (pc_client c) seq cmd sample ∈ ops /\
    pc_command c = set_server_time cmd (uc_server_time (pc_command c)) /\
    (pc_sequence c = None \/ pc_sequence c = seq).
Proof.
  intros Hframe Hc.
  set (P := fun id sq c => exists cmd sample, OpPush id sq cmd sample ∈ ops /\
                           c = set_server_time cmd (uc_server_time c)).
  assert (HPt : forall id sq c t, P id sq c -> P id sq (set_server_time c t)).
  { intros id sq c' t (cmd & sample & Hin & E). exists cmd, sample. split; [done|]. rewrite E. done. }
  destruct (run_from P HPt ops) as [_ Hout].
  { intros id sq c' sample Hin. exists c', sample. split; [done|]. by destruct c'. }
  rewrite list.Forall_forall in Hout. specialize (Hout frame Hframe).
  eapply list.Forall_forall in Hc; [|exact Hout]. destruct Hc as (sq & (cmd & sample & Hin & E) & Hsq).
  by exists sq, cmd, sample.
Qed.

(** ** The command at the head of a queue *)

Lemma runnable_head limit expected t row rest n :
  qc_seq row = Some n -> uc_server_time (qc_cmd row) <= t ->
  n = expected \/ (expected < n /\ uc_server_time (qc_cmd row) <= i32_wrap (t - LOST_COMMAND_HOLD_MS)) ->
  (1 <= runnable (S limit) expected t (row :: rest))%nat.
Proof.
  intros Hn Hdue Hrun. cbn [runnable]. rewrite Hn.
  destruct (_ || _) eqn:E; [|lia]. exfalso. apply orb_true_iff in E as [E|E]; [|apply Z.ltb_lt in E; lia].
  apply andb_true_iff in E as [E1 E2]. apply negb_true_iff in E1, E2. apply Z.eqb_neq in E1.
  destruct Hrun as [?|[Hlt Hold]]; [congruence|].
  apply andb_false_iff in E2 as [E2|E2]; [apply Z.ltb_ge in E2|apply Z.leb_gt in E2]; lia.
Qed.

(** The first command of a turn runs when the count reaches it. *)
Lemma take_count_runs k s out id t row rest n :
  inbox_ok s -> default [] (ib_queued s !! id) = row :: rest -> qc_seq row = Some n -> (1 <= k)%nat ->
  let r := take_count k s out id t in
  exists cmds, ga_cmds r.2 = ga_cmds out ++ cmds /\ n ∈ run_seqs cmds.
Proof.
  intros Hs Hq Hn Hk. unfold take_count. rewrite Hq.
  destruct (queue_facts s id Hs) as (Hsort & _ & _). rewrite Hq in Hsort.
  assert (Htake : StronglySorted Z.lt (seqs (take k (row :: rest)))).
  { rewrite <- (take_drop k (row :: rest)), seqs_app in Hsort. by apply sorted_app_inv in Hsort as (? & _ & _). }
  destruct (keep_last_spec (take k (row :: rest))) as (Hkeep & _ & _ & _).
  assert (Hseqs : seqs (sort_by_seq (keep_last_unsequenced (take k (row :: rest)))) =
                  seqs (take k (row :: rest))) by (by rewrite seqs_sort; rewrite ?Hkeep).
  generalize dependent (sort_by_seq (keep_last_unsequenced (take k (row :: rest)))). intros drained Hseqs.
  destruct k as [|k]; [lia|]. cbn [take] in Hseqs. rewrite seqs_cons, Hn in Hseqs.
  generalize (drain_queue s id (S k)). intros s2.
  destruct drained as [|d drained]; [done|]. unfold run_drained.
  set (s3 := set_blocked _ _). pose proof (run_commands_spec id t (d :: drained) s3 out None) as Hrun.
  destruct (foldl _ _ (d :: drained)) as [[s4 out4] ack]. destruct Hrun as (_ & _ & _ & _ & _ & Hc & _).
  exists (ran id t (d :: drained)). rewrite run_seqs_ran, Hseqs. split; [|by left].
  destruct (backlog_fault _ _ _) as [s5 [f|]], ack; exact Hc.
Qed.

(** A command's time after the lead is held. *)
Definition held_time (t : Z) (cmd : UserCmd) : Z :=
  if sat32 (t + MAX_COMMAND_LEAD_MS) <? uc_server_time cmd then t else uc_server_time cmd.

Lemma hold_lead_spec t row :
  qc_seq (hold_lead t row) = qc_seq row /\ uc_server_time (qc_cmd (hold_lead t row)) = held_time t (qc_cmd row).
Proof. unfold hold_lead, held_time. by destruct (_ <? _). Qed.

Lemma hold_queue_lookup s id t :
  default [] (ib_queued (hold_queue s id t) !! id) = map (hold_lead t) (default [] (ib_queued s !! id)) /\
  ib_last_acked (hold_queue s id t) = ib_last_acked s.
Proof.
  unfold hold_queue. destruct (ib_queued s !! id) eqn:E; cbn [set_queue ib_queued ib_last_acked];
    by rewrite ?lookup_insert_eq, ?E.
Qed.

Lemma take_client_head s out id t row rest n :
  inbox_ok s -> default [] (ib_queued s !! id) = row :: rest -> qc_seq row = Some n ->
  held_time t (qc_cmd row) <= t ->
  (let expected := wrapping_add32 (default 0 (ib_last_acked s !! id)) 1 in
   n = expected \/ (expected < n /\ held_time t (qc_cmd row) <= i32_wrap (t - LOST_COMMAND_HOLD_MS))) ->
  let r := take_client t (s, out) id in
  (exists f, (id, f) ∈ ga_faults r.2) \/
  (exists cmds, ga_cmds r.2 = ga_cmds out ++ cmds /\ n ∈ run_seqs cmds).
Proof.
  intros Hs Hq Hn Hdue Hrun. unfold take_client.
  destruct (hold_queue_lookup s id t) as [Hq0 Ha0]. rewrite Hq in Hq0. cbn [map] in Hq0.
  destruct (hold_lead_spec t row) as [Hn0 Ht0]. rewrite Hn in Hn0.
  assert (Hs0 : inbox_ok (hold_queue s id t)) by (eapply eaten_ok; [done|apply eaten_hold]).
  generalize dependent (hold_queue s id t). intros s0 Hq0 Ha0 Hs0.
  destruct (backlog_fault_queues s0 id t) as (Eq1 & Ea1 & _). pose proof (eaten_ok _ _ _ _ Hs0 (eaten_backlog s0 id t)) as Hs1.
  destruct (backlog_fault s0 id t) as [s1 [f|]]; cbn [fst] in Eq1, Ea1, Hs1.
  { left. exists f. apply elem_of_app. right. by left. }
  right. rewrite <- Eq1 in Hq0. eapply take_count_runs; [done|exact Hq0|exact Hn0|].
  unfold run_count. rewrite Hq0, Ea1, Ha0. apply (runnable_head 31 _ _ _ _ n); [done|by rewrite Ht0|by rewrite Ht0].
Qed.

Lemma known_clients_spec s id : is_Some (ib_queued s !! id) -> id ∈ known_clients s.
Proof.
  intros H. unfold known_clients. rewrite merge_sort_Permutation. apply elem_of_elements, elem_of_union.
  left. by apply elem_of_dom.
Qed.

(** No command waits for ever: when the oldest queued command of a client is due (its time has come,
    or it is stamped so far ahead that the frame's time stands in) and it is either the next number
    expected or 250 ms overdue behind missing ones, the frame runs it, unless the frame reports the
    client as faulty. *)
Theorem due_command_runs ops id t row rest n :
  let s := (inbox_run ops).1 in let r := take_for_tick s t in
  ib_queued s !! id = Some (row :: rest) -> qc_seq row = Some n ->
  0 <= default 0 (ib_last_acked s !! id) < n -> n <= u32_max ->
  i32_min + LOST_COMMAND_HOLD_MS <= t <= i32_max - MAX_COMMAND_LEAD_MS ->
  (let time := uc_server_time (qc_cmd row) in
   t + MAX_COMMAND_LEAD_MS < time /\ n = default 0 (ib_last_acked s !! id) + 1 \/
   time <= t /\ (n = default 0 (ib_last_acked s !! id) + 1 \/ time <= t - LOST_COMMAND_HOLD_MS)) ->
  (exists f, (id, f) ∈ ga_faults r.2) \/ n ∈ run_seqs (cmds_of id (ga_cmds r.2)).
Proof.
  intros s r Hq Hn Hacked Hmax Ht Htime. pose proof (run_ok ops) as Hs. fold s in Hs.
  destruct (frame_turn (known_clients s) s gathered_default id t (known_clients_nodup s))
    as (s0 & out0 & H0 & (Eq & Ea & _) & Hc0 & pre & post & _ & _ & _ & Hpost & Er); [|done|].
  { apply known_clients_spec. by rewrite Hq. }
  subst r. unfold take_for_tick. rewrite Er.
  assert (Hwrap : wrapping_add32 (default 0 (ib_last_acked s0 !! id)) 1 = default 0 (ib_last_acked s !! id) + 1).
  { rewrite Ea. unfold wrapping_add32, wrap32. apply Z.mod_small. unfold u32_max in Hmax. lia. }
  assert (Hhold : i32_wrap (t - LOST_COMMAND_HOLD_MS) = t - LOST_COMMAND_HOLD_MS).
  { apply to_signed_wrap32. unfold is_i32, i32_min, i32_max, MAX_COMMAND_LEAD_MS, LOST_COMMAND_HOLD_MS in *. lia. }
  assert (Hsat : sat32 (t + MAX_COMMAND_LEAD_MS) = t + MAX_COMMAND_LEAD_MS).
  { unfold sat32, i32_min, i32_max, MAX_COMMAND_LEAD_MS, LOST_COMMAND_HOLD_MS in *. lia. }
  destruct (take_client_head s0 out0 id t row rest n H0) as [(f & Hf)|(cmds & Hc & Hin)].
  - by rewrite Eq, Hq.
  - done.
  - unfold held_time. rewrite Hsat. cbn zeta in Htime. clear -Htime.
    destruct (Z.ltb_spec (t + MAX_COMMAND_LEAD_MS) (uc_server_time (qc_cmd row))); [done|]. lia.
  - cbn zeta in *. rewrite Hwrap, Hhold. unfold held_time. rewrite Hsat.
    destruct (Z.ltb_spec (t + MAX_COMMAND_LEAD_MS) (uc_server_time (qc_cmd row)));
    unfold MAX_COMMAND_LEAD_MS in *; lia.
  - left. exists f. by apply frame_faults.
  - right.
    destruct (take_client_spec s0 out0 id t H0) as (cmds' & shed & He & Hc' & Hok).
    rewrite Hc in Hc'. apply app_inv_head in Hc' as <-.
    assert (H1 : inbox_ok (take_client t (s0, out0) id).1) by (by eapply eaten_ok).
    destruct (take_client t (s0, out0) id) as [s1 out1]. cbn [fst snd] in *.
    destruct (frame_other post s1 out1 id t Hpost H1) as (_ & _ & ->). rewrite Hc. unfold cmds_of.
    rewrite list.filter_app. fold (cmds_of id cmds). rewrite (cmds_of_own id t cmds Hok).
    unfold run_seqs. rewrite omap_app. apply elem_of_app. by right.
Qed.

(** ** Bounds *)

Lemma shed_loop_ends fuel s id t :
  (length (default [] (ib_queued s !! id)) < fuel)%nat ->
  queued_ms (shed_loop fuel s id t) id t <= MAX_QUEUED_COMMAND_MS.
Proof.
  induction fuel as [|fuel IH] in s |- *; intros Hf; [lia|]. cbn [shed_loop].
  destruct (Z.leb_spec (queued_ms s id t) MAX_QUEUED_COMMAND_MS) as [?|Hms]; [done|].
  destruct (ib_queued s !! id) as [[|row rest]|] eqn:E; cbn [default] in Hf.
  - unfold queued_ms in Hms. rewrite E in Hms.
    destruct (ib_last_consumed s !! id); cbn in Hms; unfold MAX_QUEUED_COMMAND_MS in Hms; lia.
  - apply IH. cbn in Hf. destruct (qc_seq row); cbn [set_consumed set_acked set_queue ib_queued];
      rewrite lookup_insert_eq; cbn; lia.
  - unfold queued_ms in Hms. rewrite E in Hms. unfold MAX_QUEUED_COMMAND_MS in Hms. lia.
Qed.

Lemma queued_ms_same s s' id t :
  ib_queued s' !! id = ib_queued s !! id -> ib_last_consumed s' !! id = ib_last_consumed s !! id ->
  queued_ms s' id t = queued_ms s id t.
Proof. unfold queued_ms. by intros -> ->. Qed.

Lemma backlog_queued_ms s id t : queued_ms (backlog_fault s id t).1 id t = queued_ms s id t.
Proof.
  destruct (backlog_fault_queues s id t) as (E1 & _ & E3 & _). apply queued_ms_same; by rewrite ?E1, ?E3.
Qed.

Lemma shed_excess_ms s id t : queued_ms (shed_excess s id t) id t <= MAX_QUEUED_COMMAND_MS.
Proof. unfold shed_excess. apply shed_loop_ends. lia. Qed.

Lemma take_client_ms s out id t :
  let r := take_client t (s, out) id in
  is_Some (ib_last_acked r.1 !! id) -> (forall f, (id, f) ∉ ga_faults r.2) ->
  queued_ms r.1 id t <= MAX_QUEUED_COMMAND_MS.
Proof.
  unfold take_client, take_count, take_nothing, run_drained.
  destruct (backlog_fault (hold_queue s id t) id t) as [s1 [f|]]; cbn [fst snd].
  { intros _ Hf. destruct (Hf f). apply elem_of_app. right. by left. }
  destruct (sort_by_seq _) as [|row rows].
  - generalize (drain_queue s1 id (run_count s1 id t)). intros s2. pose proof (shed_excess_ms s2 id t) as Hms.
    rewrite <- backlog_queued_ms in Hms.
    destruct (backlog_fault (shed_excess s2 id t) id t) as [s3 [f|]]; cbn [fst snd] in *; [done|].
    destruct (ib_last_acked s3 !! id) eqn:Ea; [done|].
    destruct (ib_last_consumed s3 !! id); cbn [fst snd set_consumed ib_last_acked]; rewrite Ea;
      intros [? [=]].
  - destruct (foldl _ _ (row :: rows)) as [[s4 out4] ack].
    pose proof (shed_excess_ms s4 id t) as Hms. rewrite <- backlog_queued_ms in Hms.
    by destruct (backlog_fault (shed_excess s4 id t) id t) as [s5 [f|]].
Qed.

(** The backlog stays short: after a frame that reports no fault for a client whose commands are
    being acknowledged, the commands still queued for it span at most one second; the loop that drops
    the excess always ends. *)
Theorem backlog_is_shed ops id t :
  let r := take_for_tick (inbox_run ops).1 t in
  is_Some (ib_queued (inbox_run ops).1 !! id) ->
  is_Some (ib_last_acked r.1 !! id) -> (forall f, (id, f) ∉ ga_faults r.2) ->
  queued_ms r.1 id t <= 1000.
Proof.
  set (s := (inbox_run ops).1). assert (Hs : inbox_ok s) by apply run_ok. clearbody s. intros r Hknown.
  destruct (frame_turn (known_clients s) s gathered_default id t (known_clients_nodup s)
    (known_clients_spec s id Hknown) Hs)
    as (s0 & out0 & H0 & _ & _ & pre & post & _ & _ & _ & Hpost & Er).
  subst r. unfold take_for_tick. rewrite Er.
  assert (H1 : inbox_ok (take_client t (s0, out0) id).1).
  { destruct (take_client_spec s0 out0 id t H0) as (? & ? & He & _). by eapply eaten_ok. }
  pose proof (take_client_ms s0 out0 id t) as Hms.
  destruct (take_client t (s0, out0) id) as [s1 out1]. cbn [fst snd] in *.
  destruct (frame_other post s1 out1 id t Hpost H1) as (_ & (Eq & Ea & Ec & _) & _). intros Hack Hno.
  rewrite (queued_ms_same s1) by done. apply Hms; [by rewrite <- Ea|].
  intros f Hf. by apply (Hno f), frame_faults.
Qed.

(** What a frame may do to the inbox is bounded: for each client at most 32 commands run, none
    stamped later than the frame, unnumbered ones exactly at its time; a queue never holds more than
    one command past its limit, and its numbers are new and in order. *)
Theorem frame_bounds ops id t :
  let r := take_for_tick (inbox_run ops).1 t in
  let cmds := cmds_of id (ga_cmds r.2) in
  (length cmds <= 32)%nat /\
  Forall (fun c => uc_server_time (pc_command c) <= t /\
                   (pc_sequence c = None -> uc_server_time (pc_command c) = t)) cmds /\
  forall q, ib_queued r.1 !! id = Some q ->
    zlen q <= MAX_REDUNDANT_CMDS + 1 /\ StronglySorted Z.lt (seqs q) /\
    Forall (fun n => forall last, ib_last_acked r.1 !! id = Some last -> last < n) (seqs q).
Proof.
  destruct (take_for_tick_spec _ id t (run_ok ops)) as (Hok & cmds & shed & _ & Hc & Hlen & Hcmds).
  cbn zeta. rewrite Hc. split; [exact Hlen|]. split.
  - eapply Forall_impl; [exact Hcmds|]. cbn. tauto.
  - intros q Hq. split; [by eapply io_length|]. split; [by eapply io_sorted|].
    apply list.Forall_forall. intros n Hn last Hl.
    pose proof (io_new _ Hok id q last Hq Hl) as H. rewrite list.Forall_forall in H. auto.
Qed.

(** ** A run *)

Definition cmd_at (t : Z) : UserCmd := mkUserCmd t 0 [] [] 0 0 0 0 0 0 0 [] [].

(** Client 3's commands 1, 2 and 4 arrive out of order, one of them twice; 3 is lost. *)
Definition lossy_pushes : list InboxOp :=
  [OpPush 3 (Some 2) (cmd_at 60) None; OpPush 3 (Some 1) (cmd_at 50) None;
   OpPush 3 (Some 4) (cmd_at 90) None; OpPush 3 (Some 2) (cmd_at 60) None].

Example lossy_frames :
  map (fun f => executed 3 [f]) (inbox_run (lossy_pushes ++ [OpTake 100; OpTake 150; OpTake 350])).2 =
  [[1; 2]; []; [4]].
Proof. vm_compute. reflexivity. Qed.

Lemma commands_run_once_witness :
  let frames := (foldl inbox_op ((inbox_run [OpPush 3 (Some 7) (cmd_at 0) None; OpRetire 3]).1, [])
                   (lossy_pushes ++ [OpTake 100; OpPush 3 (Some 1) (cmd_at 50) None; OpTake 350])).2 in
  executed 3 frames = [1; 2; 4] /\ StronglySorted Z.lt (executed 3 frames).
Proof.
  split; [vm_compute; reflexivity|].
  apply (commands_run_once [OpPush 3 (Some 7) (cmd_at 0) None; OpRetire 3]). repeat (constructor; [done|]). constructor.
Defined.

Lemma commands_were_sent_witness :
  exists frame c, frame ∈ (inbox_run (lossy_pushes ++ [OpTake 100])).2 /\ c ∈ ga_cmds frame /\
    pc_sequence c = Some 1 /\
    exists seq cmd sample, OpPush (pc_client c) seq cmd sample ∈ lossy_pushes ++ [OpTake 100] /\
      pc_command c = set_server_time cmd (uc_server_time (pc_command c)) /\
      (pc_sequence c = None \/ pc_sequence c = seq).
Proof.
  set (ops := lossy_pushes ++ [OpTake 100]).
  set (frame := (take_for_tick (inbox_run lossy_pushes).1 100).2).
  set (c := mkPlayerCommand 3 (cmd_at 50) (Some 1)).
  assert (Hf : frame ∈ (inbox_run ops).2) by (vm_compute; left).
  assert (Hc : c ∈ ga_cmds frame) by (vm_compute; left).
  exists frame, c. split; [exact Hf|]. split; [exact Hc|]. split; [reflexivity|].
  exact (commands_were_sent ops frame c Hf Hc).
Defined.

Lemma due_command_runs_witness :
  let s := (inbox_run (lossy_pushes ++ [OpTake 100; OpTake 150])).1 in
  ib_last_acked s !! 3 = Some 2 /\
  ((exists f, (3, f) ∈ ga_faults (take_for_tick s 350).2) \/
   4 ∈ run_seqs (cmds_of 3 (ga_cmds (take_for_tick s 350).2))).
Proof.
  split; [vm_compute; reflexivity|].
  apply (due_command_runs (lossy_pushes ++ [OpTake 100; OpTake 150]) 3 350
           (mkQueued (Some 4) (cmd_at 90) NO_CLAIM) [] 4).
  - vm_compute. reflexivity.
  - reflexivity.
  - vm_compute. split; [intros H; discriminate H|reflexivity].
  - unfold u32_max. lia.
  - unfold i32_min, i32_max, LOST_COMMAND_HOLD_MS, MAX_COMMAND_LEAD_MS. lia.
  - right. split; [vm_compute; intros H; discriminate H|]. right. vm_compute. intros H. discriminate H.
Defined.

(** Sixty commands at once: 32 run, and of the rest the oldest go until a second is left. *)
Definition burst : list InboxOp :=
  map (fun n => OpPush 3 (Some (Z.of_nat n)) (cmd_at (50 * Z.of_nat n)) None) (seq 1 60).

Example burst_frame :
  let r := take_for_tick (inbox_run burst).1 3100 in
  length (ga_cmds r.2) = 32%nat /\ ib_last_acked r.1 !! 3 = Some 40 /\ queued_ms r.1 3 3100 = 1000.
Proof. vm_compute. split_and!; reflexivity. Qed.

Lemma backlog_is_shed_witness :
  let r := take_for_tick (inbox_run burst).1 3100 in
  queued_ms (inbox_run burst).1 3 3100 = 2950 /\ queued_ms r.1 3 3100 <= 1000.
Proof.
  split; [vm_compute; reflexivity|]. apply (backlog_is_shed burst).
  - vm_compute. by eexists.
  - vm_compute. by eexists.
  - intros f. vm_compute. intros H. inversion H.
Defined.
