(* ===== verification/Actions.v ===== *)
(** * Actions of the clients on the host

    crates/net/src/authority/actions.rs: the ids a client gives its requests, and the ledger that
    lets each request run once and remembers the verdicts.  [ClientActionInbox] of
    crates/net/src/authority/inbox.rs: the local requests waiting for an outcome and those the
    peers sent since the last frame.  An [Instant] is a number of nanoseconds. *)

From S2P Require Export ActionWire Reliable.
From stdpp Require Export sorting.
#[local] Open Scope Z_scope.

(** ** Equality of actions

    The derived [PartialEq]: floats compare as floats, so a NaN differs from itself and the two
    zeros are equal. *)

Definition f32_is_nan (bits : Z) : bool := 0x7f800000 <? Z.land bits 0x7fffffff.
Definition f32_is_zero (bits : Z) : bool := Z.land bits 0x7fffffff =? 0.

Definition f32_eqb (a b : Z) : bool :=
  negb (f32_is_nan a) && negb (f32_is_nan b) && ((a =? b) || (f32_is_zero a && f32_is_zero b)).

Fixpoint f32s_eqb (a b : list Z) : bool :=
  match a, b with
  | [], [] => true
  | x :: a, y :: b => f32_eqb x y && f32s_eqb a b
  | _, _ => false
  end.

#[export] Instance SimMatchPhase_eq_dec : EqDecision SimMatchPhase.
Proof. solve_decision. Defined.
#[export] Instance PersonalClass_eq_dec : EqDecision PersonalClass.
Proof. solve_decision. Defined.
#[export] Instance PlayerProfile_eq_dec : EqDecision PlayerProfile.
Proof. solve_decision. Defined.
#[export] Instance SpawnPick_eq_dec : EqDecision SpawnPick.
Proof. solve_decision. Defined.
#[export] Instance ClientAction_eq_dec : EqDecision ClientAction.
Proof. solve_decision. Defined.

Definition action_eqb (a b : ClientAction) : bool :=
  match a, b with
  | ActMove r origin angles, ActMove r' origin' angles' =>
      (r =? r') && f32s_eqb origin origin' && f32s_eqb angles angles'
  | ActBeginScriptMoverRotateVelocity r speed, ActBeginScriptMoverRotateVelocity r' speed' =>
      (r =? r') && f32_eqb speed speed'
  | ActForceSpawn r (SpawnAt origin yaw), ActForceSpawn r' (SpawnAt origin' yaw') =>
      (r =? r') && f32s_eqb origin origin' && f32_eqb yaw yaw'
  | _, _ => bool_decide (a = b)
  end.

(** ** Request ids *)

Record ActionRequestIds : Type := mkRequestIds { ri_next : Z }.

Definition request_ids_default : ActionRequestIds := mkRequestIds 1.

Definition allocate (s : ActionRequestIds) : ActionRequestIds * Z :=
  (mkRequestIds (Z.max (wrapping_add32 (ri_next s) 1) 1), ri_next s).

Definition request_ids_reset (s : ActionRequestIds) : ActionRequestIds := mkRequestIds 1.

(** ** The ledger *)

Definition MAX_REMEMBERED_ACTIONS_PER_CLIENT : Z := 256.

Inductive ActionAdmission : Type :=
| AdmFresh
| AdmPending
| AdmRepeat (verdict : ActionVerdict)
| AdmPayloadMismatch
| AdmExpired.

#[export] Instance ActionAdmission_eq_dec : EqDecision ActionAdmission.
Proof. solve_decision. Defined.

(** A [BTreeMap] is a [gmap]; its first key is the least one. *)
Record ClientActionMemory : Type := mkMemory {
  me_admitted : gmap Z ClientAction;
  me_resolved : gmap Z (ClientAction * ActionVerdict);
  me_forgotten_through : option Z;
}.

Definition memory_default : ClientActionMemory := mkMemory ∅ ∅ None.

Record ClientActionLedger : Type := mkLedger {
  le_scope : Z;
  le_clients : gmap Z ClientActionMemory;
}.

Definition ledger_default : ClientActionLedger := mkLedger 0 ∅.

Definition open_scope (s : ClientActionLedger) : ClientActionLedger :=
  mkLedger (wrapping_add64 (le_scope s) 1) ∅.

Definition ledger_retire_client (s : ClientActionLedger) (client : Z) : ClientActionLedger :=
  mkLedger (le_scope s) (delete client (le_clients s)).

Definition remembered_len (s : ClientActionLedger) (client : Z) : Z :=
  match le_clients s !! client with Some m => Z.of_nat (size (me_resolved m)) | None => 0 end.

Definition ledger_verdict (s : ClientActionLedger) (client request_id : Z) : option ActionVerdict :=
  match le_clients s !! client with
  | Some m => snd <$> me_resolved m !! request_id
  | None => None
  end.

Definition set_memory (s : ClientActionLedger) (client : Z) (m : ClientActionMemory) : ClientActionLedger :=
  mkLedger (le_scope s) (<[client := m]> (le_clients s)).

(** [admit] within one client's memory. *)
Definition memory_admit (m : ClientActionMemory) (action : ClientAction)
    : ClientActionMemory * ActionAdmission :=
  let r := action_request_id action in
  match me_admitted m !! r with
  | Some payload => (m, if action_eqb payload action then AdmPending else AdmPayloadMismatch)
  | None =>
      match me_resolved m !! r with
      | Some (payload, verdict) =>
          (m, if action_eqb payload action then AdmRepeat verdict else AdmPayloadMismatch)
      | None =>
          if match me_forgotten_through m with Some watermark => r <=? watermark | None => false end
          then (m, AdmExpired)
          else (mkMemory (<[r := action]> (me_admitted m)) (me_resolved m) (me_forgotten_through m), AdmFresh)
      end
  end.

Definition admit_action (s : ClientActionLedger) (client : Z) (action : ClientAction)
    : ClientActionLedger * ActionAdmission :=
  let '(m, admission) := memory_admit (default memory_default (le_clients s !! client)) action in
  (set_memory s client m, admission).

(** [keys().next()]. *)
Definition first_key {A} (m : gmap Z A) : option Z := head (merge_sort Z.le (elements (dom m))).

(** Forgetting the oldest verdicts: one round per verdict in excess. *)
Fixpoint forget_loop (fuel : nat) (m : ClientActionMemory) : ClientActionMemory :=
  match fuel with
  | O => m
  | S fuel =>
      if MAX_REMEMBERED_ACTIONS_PER_CLIENT <? Z.of_nat (size (me_resolved m)) then
        match first_key (me_resolved m) with
        | None => m
        | Some oldest =>
            forget_loop fuel
              (mkMemory (me_admitted m) (delete oldest (me_resolved m))
                 (Some (match me_forgotten_through m with
                        | Some current => Z.max current oldest
                        | None => oldest
                        end)))
        end
      else m
  end.

Definition memory_record (m : ClientActionMemory) (action : ClientAction) (verdict : ActionVerdict)
    : ClientActionMemory :=
  let r := action_request_id action in
  let resolved := <[r := (action, verdict)]> (me_resolved m) in
  forget_loop (size resolved) (mkMemory (delete r (me_admitted m)) resolved (me_forgotten_through m)).

Definition record_action (s : ClientActionLedger) (client : Z) (action : ClientAction)
    (verdict : ActionVerdict) : ClientActionLedger :=
  set_memory s client (memory_record (default memory_default (le_clients s !! client)) action verdict).

(** ** The action inbox *)

Definition MAX_PENDING_ACTIONS_PER_CLIENT : Z := 32.
(** Eight seconds. *)
Definition ACTION_TIMEOUT : Z := 8 * 10 ^ 9.

Inductive ActionEnqueueError : Type :=
| QueueFull (pending : Z)
| DuplicateRequestId (request_id : Z).

Record ClientActionInbox : Type := mkActionInbox {
  ai_pending : list (Z * ClientAction);
  ai_started : gmap (Z * Z) Z;
  ai_received : list (Z * ClientAction);
  ai_overflowed : gset Z;
}.

Definition action_inbox_default : ClientActionInbox := mkActionInbox [] ∅ [] ∅.

(** The pending request of a client with this id. *)
Definition is_request (id request_id : Z) (row : Z * ClientAction) : bool :=
  (row.1 =? id) && (action_request_id row.2 =? request_id).

Definition owned_by (id : Z) (row : Z * ClientAction) : bool := row.1 =? id.

Definition action_push (s : ClientActionInbox) (id : Z) (action : ClientAction)
    : ClientActionInbox * Result ActionEnqueueError () :=
  let request_id := action_request_id action in
  match find (is_request id request_id) (ai_pending s) with
  | Some (_, existing) =>
      (s, if action_eqb existing action then Ok () else Err (DuplicateRequestId request_id))
  | None =>
      let held := zlen (filter (fun row => owned_by id row = true) (ai_pending s)) in
      if MAX_PENDING_ACTIONS_PER_CLIENT <=? held then (s, Err (QueueFull held))
      else (mkActionInbox (ai_pending s ++ [(id, action)]) (ai_started s) (ai_received s)
              (ai_overflowed s), Ok ())
  end.

Definition mark_dispatched (now : Z) (s : ClientActionInbox) (id request_id : Z) : ClientActionInbox :=
  if existsb (is_request id request_id) (ai_pending s)
  then mkActionInbox (ai_pending s)
         (match ai_started s !! (id, request_id) with
          | Some _ => ai_started s
          | None => <[(id, request_id) := now]> (ai_started s)
          end) (ai_received s) (ai_overflowed s)
  else s.

Definition push_from_peer (s : ClientActionInbox) (id : Z) (action : ClientAction) : ClientActionInbox :=
  if existsb (fun row => (row.1 =? id) && action_eqb row.2 action) (ai_received s) then s
  else if MAX_PENDING_ACTIONS_PER_CLIENT <=?
          zlen (filter (fun row => owned_by id row = true) (ai_received s))
  then mkActionInbox (ai_pending s) (ai_started s) (ai_received s) ({[id]} ∪ ai_overflowed s)
  else mkActionInbox (ai_pending s) (ai_started s) (ai_received s ++ [(id, action)]) (ai_overflowed s).

Definition take_overflowed (s : ClientActionInbox) : ClientActionInbox * list Z :=
  (mkActionInbox (ai_pending s) (ai_started s) (ai_received s) ∅, elements (ai_overflowed s)).

Definition timed_out (s : ClientActionInbox) (now : Z) : bool :=
  existsb (fun e => ACTION_TIMEOUT <? saturating_sub now e.2) (map_to_list (ai_started s)).

Definition pending_for (s : ClientActionInbox) (id : Z) : list ClientAction :=
  map snd (filter (fun row => owned_by id row = true) (ai_pending s)).

Definition action_retire (s : ClientActionInbox) (id request_id : Z) : ClientActionInbox * bool :=
  let pending := filter (fun row => negb (is_request id request_id row) = true) (ai_pending s) in
  (mkActionInbox pending (delete (id, request_id) (ai_started s)) (ai_received s) (ai_overflowed s),
   negb (zlen pending =? zlen (ai_pending s))).

Definition action_retire_client (s : ClientActionInbox) (id : Z) : ClientActionInbox :=
  mkActionInbox (filter (fun row => negb (owned_by id row) = true) (ai_pending s))
    (filter (fun e => negb (e.1.1 =? id) = true) (ai_started s))
    (filter (fun row => negb (owned_by id row) = true) (ai_received s))
    (ai_overflowed s ∖ {[id]}).

Definition action_inbox_clear (s : ClientActionInbox) : ClientActionInbox := action_inbox_default.

(** All the requests of a frame: the local ones, which stay until an outcome retires them, and
    those received, which are taken. *)
Definition gather_actions (now : Z) (s : ClientActionInbox) : ClientActionInbox * list (Z * ClientAction) :=
  let s' := foldl (fun s row => mark_dispatched now s row.1 (action_request_id row.2)) s (ai_pending s) in
  (mkActionInbox (ai_pending s') (ai_started s') [] (ai_overflowed s'),
   ai_pending s ++ ai_received s).
