(* ===== verification/ActionsMain.v ===== *)
(** * Properties of the host's action ledger and action inbox

    Over any sequence of admissions, verdicts, retirements and new scopes: a request of a client
    is let through once, a verdict is repeated as it was recorded, and forgotten only for 256
    verdicts of later requests. *)

From S2P Require Export Actions.
#[local] Open Scope Z_scope.

(** ** The first key *)

Lemma first_key_some {A} (m : gmap Z A) k :
  first_key m = Some k -> is_Some (m !! k) /\ forall k', is_Some (m !! k') -> k <= k'.
Proof.
  unfold first_key. intros Hk.
  assert (Hperm := merge_sort_Permutation Z.le (elements (dom m))).
  assert (Hsort : StronglySorted Z.le (merge_sort Z.le (elements (dom m)))).
  { apply (StronglySorted_merge_sort _ _). }
  destruct (merge_sort Z.le (elements (dom m))) as [|k0 rest]; [done|]. apply (inj Some) in Hk as ->.
  assert (Hin : forall k', is_Some (m !! k') <-> k' ∈ k :: rest).
  { intros k'. by rewrite Hperm, elem_of_elements, elem_of_dom. }
  split; [apply Hin; by left|].
  intros k' Hk'. apply Hin, elem_of_cons in Hk' as [->|Hk']; [lia|].
  apply StronglySorted_inv in Hsort as [_ Hall]. rewrite list.Forall_forall in Hall. by apply Hall.
Qed.

Lemma first_key_none {A} (m : gmap Z A) : first_key m = None -> m = ∅.
Proof.
  unfold first_key. intros Hk. apply head_None in Hk.
  assert (Hperm := merge_sort_Permutation Z.le (elements (dom m))). rewrite Hk in Hperm.
  apply Permutation_nil in Hperm. apply elements_empty_inv in Hperm. apply dom_empty_inv_L.
  by apply leibniz_equiv.
Qed.

(** ** Forgetting *)

Definition raise (watermark : option Z) (r : Z) : option Z :=
  Some (match watermark with Some current => Z.max current r | None => r end).

(** One verdict in excess: the oldest is forgotten, and nothing else. *)
Lemma forget_one m :
  Z.of_nat (size (me_resolved m)) = MAX_REMEMBERED_ACTIONS_PER_CLIENT + 1 ->
  exists oldest, is_Some (me_resolved m !! oldest) /\
    (forall r, is_Some (me_resolved m !! r) -> oldest <= r) /\
    forget_loop (size (me_resolved m)) m =
      mkMemory (me_admitted m) (delete oldest (me_resolved m)) (raise (me_forgotten_through m) oldest).
Proof.
  unfold MAX_REMEMBERED_ACTIONS_PER_CLIENT. intros Hsize.
  destruct (size (me_resolved m)) as [|[|n]] eqn:En; [lia|lia|].
  cbn [forget_loop]. rewrite En. unfold MAX_REMEMBERED_ACTIONS_PER_CLIENT.
  rewrite (proj2 (Z.ltb_lt 256 _)) by lia.
  destruct (first_key (me_resolved m)) as [oldest|] eqn:Ek.
  - apply first_key_some in Ek as [Hin Hmin]. exists oldest. split; [done|]. split; [done|].
    cbn [forget_loop me_resolved me_admitted me_forgotten_through].
    rewrite map_size_delete_Some, En by done. rewrite (proj2 (Z.ltb_ge 256 _)) by lia. done.
  - apply first_key_none in Ek. rewrite Ek, map_size_empty in En. done.
Qed.

Lemma forget_none fuel m :
  Z.of_nat (size (me_resolved m)) <= MAX_REMEMBERED_ACTIONS_PER_CLIENT -> forget_loop fuel m = m.
Proof. intros Hsize. destruct fuel; [done|]. cbn [forget_loop]. by rewrite (proj2 (Z.ltb_ge _ _) Hsize). Qed.

(** ** The history of a client *)

Inductive LedgerOp : Type :=
| OpAdmit (client : Z) (action : ClientAction)
| OpRecord (client : Z) (action : ClientAction) (verdict : ActionVerdict)
| OpRetire (client : Z)
| OpScope.

Definition ledger_op (s : ClientActionLedger) (op : LedgerOp)
    : ClientActionLedger * option ActionAdmission :=
  match op with
  | OpAdmit client action => let '(s, a) := admit_action s client action in (s, Some a)
  | OpRecord client action verdict => (record_action s client action verdict, None)
  | OpRetire client => (ledger_retire_client s client, None)
  | OpScope => (open_scope s, None)
  end.

(** What the host has told and heard about one client since it was last retired or a scope was
    opened: the requests let through, and for each request the last verdict. *)
Record History : Type := mkHistory {
  hi_granted : list Z;
  hi_verdicts : gmap Z (ClientAction * ActionVerdict);
}.

Definition history_new : History := mkHistory [] ∅.

Definition history_op (client : Z) (h : History) (op : LedgerOp) (answer : option ActionAdmission) : History :=
  match op with
  | OpAdmit c action =>
      if bool_decide (c = client) && bool_decide (answer = Some AdmFresh)
      then mkHistory (hi_granted h ++ [action_request_id action]) (hi_verdicts h) else h
  | OpRecord c action verdict =>
      if bool_decide (c = client)
      then mkHistory (hi_granted h) (<[action_request_id action := (action, verdict)]> (hi_verdicts h)) else h
  | OpRetire c => if bool_decide (c = client) then history_new else h
  | OpScope => history_new
  end.

Fixpoint ledger_run (client : Z) (s : ClientActionLedger) (h : History) (ops : list LedgerOp)
    : ClientActionLedger * History :=
  match ops with
  | [] => (s, h)
  | op :: ops => let '(s', answer) := ledger_op s op in ledger_run client s' (history_op client h op answer) ops
  end.

(** ** The invariant of a client's memory *)

Definition gone (m : ClientActionMemory) (r : Z) : Prop :=
  Z.of_nat (size (me_resolved m)) = MAX_REMEMBERED_ACTIONS_PER_CLIENT /\
  (forall r', is_Some (me_resolved m !! r') -> r < r') /\
  exists watermark, me_forgotten_through m = Some watermark /\ r <= watermark.

Record memory_ok (h : History) (m : ClientActionMemory) : Prop := {
  mo_resolved : me_resolved m ⊆ hi_verdicts h;
  mo_size : Z.of_nat (size (me_resolved m)) <= MAX_REMEMBERED_ACTIONS_PER_CLIENT;
  mo_gone : forall r, is_Some (hi_verdicts h !! r) -> me_resolved m !! r = None -> gone m r;
  mo_admitted : forall r, is_Some (me_admitted m !! r) -> hi_verdicts h !! r = None;
  mo_granted : forall r, r ∈ hi_granted h -> is_Some (me_admitted m !! r) \/ is_Some (hi_verdicts h !! r);
  mo_once : NoDup (hi_granted h);
}.

Lemma memory_ok_new : memory_ok history_new memory_default.
Proof.
  split; cbn; try done.
  - intros r [? Hr]. by rewrite lookup_empty in Hr.
  - intros r Hr. by apply not_elem_of_nil in Hr.
  - constructor.
Qed.

(** A request the memory has no record of was never let through nor answered. *)
Lemma fresh_unknown h m r :
  memory_ok h m -> me_admitted m !! r = None -> me_resolved m !! r = None ->
  match me_forgotten_through m with Some watermark => r <=? watermark | None => false end = false ->
  hi_verdicts h !! r = None /\ r ∉ hi_granted h.
Proof.
  intros Hok Ha Hr Hw.
  assert (Hv : hi_verdicts h !! r = None).
  { destruct (hi_verdicts h !! r) eqn:E; [|done].
    destruct (mo_gone h m Hok r (mk_is_Some _ _ E) Hr) as (_ & _ & w & Hf & Hle).
    rewrite Hf in Hw. apply Z.leb_gt in Hw. lia. }
  split; [done|]. intros Hg. destruct (mo_granted h m Hok r Hg) as [[? H]|[? H]]; congruence.
Qed.

Lemma memory_admit_ok h m action :
  memory_ok h m ->
  memory_ok
    (if bool_decide (Some (memory_admit m action).2 = Some AdmFresh)
     then mkHistory (hi_granted h ++ [action_request_id action]) (hi_verdicts h) else h)
    (memory_admit m action).1.
Proof.
  intros Hok. unfold memory_admit. set (r := action_request_id action).
  destruct (me_admitted m !! r) as [payload|] eqn:Ea; [by destruct (action_eqb _ _)|].
  destruct (me_resolved m !! r) as [[payload verdict]|] eqn:Er; [by destruct (action_eqb _ _)|].
  destruct (match me_forgotten_through m with Some w => r <=? w | None => false end) eqn:Ew; [done|].
  destruct (fresh_unknown h m r Hok Ea Er Ew) as [Hv Hg]. cbn [fst snd]. rewrite bool_decide_eq_true_2 by done.
  split; cbn [hi_granted hi_verdicts me_admitted me_resolved me_forgotten_through].
  - apply Hok.
  - apply Hok.
  - intros r0 H1 H2. destruct (mo_gone h m Hok r0 H1 H2) as (? & ? & ?). done.
  - intros r0 [a Ha]. destruct (decide (r0 = r)) as [->|Hne]; [done|].
    rewrite lookup_insert_ne in Ha by done. by apply (mo_admitted h m Hok).
  - intros r0 Hr0. apply elem_of_app in Hr0 as [Hr0| ->%list_elem_of_singleton].
    + destruct (mo_granted h m Hok r0 Hr0) as [Hs|]; [|by right]. left.
      destruct (decide (r0 = r)) as [->|]; [by rewrite lookup_insert_eq|by rewrite lookup_insert_ne].
    + left. by rewrite lookup_insert_eq.
  - apply list.NoDup_app. split; [apply Hok|]. split; [|apply list.NoDup_singleton].
    intros r0 Hr0 ->%list_elem_of_singleton. done.
Qed.

(** A memory in which a verdict for [r] was recorded: what is left to show is what was forgotten. *)
Lemma recorded_ok h m m' r entry :
  memory_ok h m -> me_admitted m' = delete r (me_admitted m) ->
  me_resolved m' ⊆ <[r := entry]> (me_resolved m) ->
  Z.of_nat (size (me_resolved m')) <= MAX_REMEMBERED_ACTIONS_PER_CLIENT ->
  (forall r0, is_Some (<[r := entry]> (hi_verdicts h) !! r0) -> me_resolved m' !! r0 = None -> gone m' r0) ->
  memory_ok (mkHistory (hi_granted h) (<[r := entry]> (hi_verdicts h))) m'.
Proof.
  intros Hok Ha Hres Hsize Hgone. split; cbn [hi_granted hi_verdicts]; try done.
  - etrans; [exact Hres|]. by apply insert_mono, Hok.
  - intros r0 [a Hr]. rewrite Ha in Hr. apply lookup_delete_Some in Hr as [Hne Hr].
    rewrite lookup_insert_ne by done. by apply (mo_admitted h m Hok).
  - intros r0 Hr0. destruct (decide (r0 = r)) as [->|Hne]; [right; by rewrite lookup_insert_eq|].
    rewrite Ha, lookup_delete_ne, lookup_insert_ne by done. by apply (mo_granted h m Hok).
  - apply Hok.
Qed.

(** What was gone stays gone, and the verdict just recorded is there. *)
Lemma gone_before h m r entry r0 :
  memory_ok h m -> is_Some (<[r := entry]> (hi_verdicts h) !! r0) ->
  (<[r := entry]> (me_resolved m)) !! r0 = None -> gone m r0.
Proof.
  intros Hok Hv Hr. destruct (decide (r0 = r)) as [->|Hne]; [by rewrite lookup_insert_eq in Hr|].
  rewrite lookup_insert_ne in Hv, Hr by done. by apply (mo_gone h m Hok).
Qed.

(** The 257th verdict pushes the oldest out. *)
Lemma gone_after h m r entry oldest r0 :
  memory_ok h m ->
  let resolved := <[r := entry]> (me_resolved m) in
  Z.of_nat (size resolved) = MAX_REMEMBERED_ACTIONS_PER_CLIENT + 1 ->
  is_Some (resolved !! oldest) -> (forall r', is_Some (resolved !! r') -> oldest <= r') ->
  is_Some (<[r := entry]> (hi_verdicts h) !! r0) -> delete oldest resolved !! r0 = None ->
  gone (mkMemory (delete r (me_admitted m)) (delete oldest resolved) (raise (me_forgotten_through m) oldest)) r0.
Proof.
  intros Hok resolved Hlen Hin Hmin Hv Hr. unfold gone. cbn [me_resolved me_forgotten_through].
  split; [rewrite map_size_delete_Some by done; unfold MAX_REMEMBERED_ACTIONS_PER_CLIENT in *; lia|].
  assert (Hkeep : forall r', is_Some (delete oldest resolved !! r') -> oldest < r').
  { intros r' [x Hx]. apply lookup_delete_Some in Hx as [Hne Hx]. specialize (Hmin r' (mk_is_Some _ _ Hx)). lia. }
  destruct (decide (r0 = oldest)) as [->|Hne].
  { split; [done|]. eexists. split; [done|]. destruct (me_forgotten_through m); lia. }
  rewrite lookup_delete_ne in Hr by done.
  destruct (gone_before h m r entry r0 Hok Hv Hr) as (_ & Hless & w & Hw & Hle).
  split; [|eexists; split; [done|]; rewrite Hw; lia].
  intros r' Hr'. destruct (decide (oldest = r)) as [->|Hor].
  - apply Hless. destruct Hr' as [x Hx]. apply lookup_delete_Some in Hx as [Hne' Hx]. unfold resolved in Hx.
    by rewrite lookup_insert_ne in Hx.
  - specialize (Hkeep r' Hr'). cut (r0 < oldest); [lia|]. apply Hless. destruct Hin as [x Hx].
    unfold resolved in Hx. by rewrite lookup_insert_ne in Hx.
Qed.

Lemma memory_record_ok h m action verdict :
  memory_ok h m ->
  memory_ok (mkHistory (hi_granted h) (<[action_request_id action := (action, verdict)]> (hi_verdicts h)))
    (memory_record m action verdict).
Proof.
  intros Hok. unfold memory_record. set (r := action_request_id action). set (entry := (action, verdict)).
  pose proof (mo_size h m Hok) as Hsz.
  assert (Hsize : size (<[r := entry]> (me_resolved m)) =
            match me_resolved m !! r with Some _ => id | None => S end (size (me_resolved m))) by
    apply map_size_insert.
  set (m0 := mkMemory (delete r (me_admitted m)) (<[r := entry]> (me_resolved m)) (me_forgotten_through m)).
  change (<[r := entry]> (me_resolved m)) with (me_resolved m0) in Hsize.
  change (memory_ok (mkHistory (hi_granted h) (<[r := entry]> (hi_verdicts h)))
            (forget_loop (size (me_resolved m0)) m0)).
  destruct (decide (Z.of_nat (size (me_resolved m0)) = MAX_REMEMBERED_ACTIONS_PER_CLIENT + 1)) as [Hfull|Hroom].
  - destruct (forget_one m0 Hfull) as (oldest & Hin & Hmin & ->).
    apply (recorded_ok h m _ r entry); cbn [me_admitted me_resolved]; [done|done| | |].
    + apply delete_subseteq.
    + rewrite map_size_delete_Some by done. unfold MAX_REMEMBERED_ACTIONS_PER_CLIENT in *. lia.
    + intros r0 Hv Hr. by apply (gone_after h m r entry oldest r0).
  - assert (Hle : Z.of_nat (size (me_resolved m0)) <= MAX_REMEMBERED_ACTIONS_PER_CLIENT).
    { destruct (me_resolved m !! r) in Hsize; cbn [id] in Hsize; lia. }
    rewrite forget_none by done.
    apply (recorded_ok h m m0 r entry); [done|done|done|done|].
    intros r0 Hv Hr. destruct (gone_before h m r entry r0 Hok Hv Hr) as (H1 & H2 & H3).
    destruct (me_resolved m !! r) as [old|] eqn:Er in Hsize; [|lia].
    split; [by rewrite Hsize|]. split; [|done].
    intros r' [x Hx]. cbn [m0 me_resolved] in Hx.
    destruct (decide (r' = r)) as [->|]; [by apply H2|]. rewrite lookup_insert_ne in Hx by done. by apply H2.
Qed.

(** ** The ledger *)

Definition client_memory (s : ClientActionLedger) (client : Z) : ClientActionMemory :=
  default memory_default (le_clients s !! client).

Definition ledger_inv (client : Z) (s : ClientActionLedger) (h : History) : Prop :=
  memory_ok h (client_memory s client).

(** Is it this client? *)
Ltac whose c client :=
  destruct (decide (c = client)) as [->|?];
  [rewrite !(bool_decide_eq_true_2 (client = client)) by done
  |rewrite !(bool_decide_eq_false_2 (c = client)) by done].

Lemma client_memory_set s c m client :
  client_memory (set_memory s c m) client = if bool_decide (c = client) then m else client_memory s client.
Proof.
  unfold client_memory, set_memory. cbn [le_clients]. whose c client.
  - by rewrite lookup_insert_eq.
  - by rewrite lookup_insert_ne.
Qed.

Lemma ledger_op_inv client s h op :
  ledger_inv client s h ->
  ledger_inv client (ledger_op s op).1 (history_op client h op (ledger_op s op).2).
Proof.
  unfold ledger_inv. intros Hok. destruct op as [c action|c action verdict|c|]; cbn [ledger_op history_op].
  - unfold admit_action. fold (client_memory s c).
    pose proof (memory_admit_ok h (client_memory s c) action) as Hadm.
    destruct (memory_admit (client_memory s c) action) as [m a]. cbn [fst snd] in *.
    rewrite client_memory_set. whose c client; cbn [andb]; [by apply Hadm|done].
  - cbn [fst snd]. unfold record_action. fold (client_memory s c). rewrite client_memory_set.
    whose c client; [by apply memory_record_ok|done].
  - cbn [fst snd]. unfold ledger_retire_client, client_memory. cbn [le_clients].
    whose c client.
    + rewrite lookup_delete_eq. apply memory_ok_new.
    + by rewrite lookup_delete_ne.
  - cbn [fst snd]. unfold open_scope, client_memory. cbn [le_clients]. rewrite lookup_empty. apply memory_ok_new.
Qed.

Lemma ledger_run_inv client s h ops :
  ledger_inv client s h -> ledger_inv client (ledger_run client s h ops).1 (ledger_run client s h ops).2.
Proof.
  induction ops as [|op ops IH] in s, h |- *; intros Hok; [done|]. cbn [ledger_run].
  pose proof (ledger_op_inv client s h op Hok) as Hop. destruct (ledger_op s op) as [s' answer]. by apply IH.
Qed.

Lemma ledger_new_inv client : ledger_inv client ledger_default history_new.
Proof. unfold ledger_inv, client_memory. cbn [ledger_default le_clients]. rewrite lookup_empty. apply memory_ok_new. Qed.

(** ** What the ledger promises *)

(** However admissions, verdicts, retirements and new scopes follow one another, the host
    lets a request of a client through once: since the client was last retired or a scope last
    opened, no request id is admitted as fresh twice. *)
Theorem request_granted_once client ops :
  NoDup (hi_granted (ledger_run client ledger_default history_new ops).2).
Proof. eapply mo_once, ledger_run_inv, ledger_new_inv. Qed.

(** A request that has its verdict is answered with it: the same payload gets the last verdict
    recorded for it again, another payload under the same id is refused, and the request is
    expired only when the 256 verdicts remembered are all of later requests.  The host never
    remembers more than 256 verdicts of a client, and only verdicts that were recorded. *)
Theorem answered_request_is_repeated client ops s h action payload verdict :
  ledger_run client ledger_default history_new ops = (s, h) ->
  hi_verdicts h !! action_request_id action = Some (payload, verdict) ->
  remembered_len s client <= 256 /\
  (forall r v, ledger_verdict s client r = Some v -> exists a, hi_verdicts h !! r = Some (a, v)) /\
  ((admit_action s client action).2 =
     (if action_eqb payload action then AdmRepeat verdict else AdmPayloadMismatch) \/
   (admit_action s client action).2 = AdmExpired /\
   remembered_len s client = 256 /\
   forall r, is_Some (ledger_verdict s client r) -> action_request_id action < r).
Proof.
  pose proof (ledger_run_inv client _ _ ops (ledger_new_inv client)) as Hok.
  intros Hrun Hv. rewrite Hrun in Hok. cbn [fst snd] in Hok.
  assert (Hlen : remembered_len s client = Z.of_nat (size (me_resolved (client_memory s client)))).
  { unfold remembered_len, client_memory. by destruct (le_clients s !! client). }
  assert (Hver : forall r, ledger_verdict s client r = snd <$> me_resolved (client_memory s client) !! r).
  { intros r. unfold ledger_verdict, client_memory. by destruct (le_clients s !! client). }
  rewrite Hlen. split; [apply (mo_size _ _ Hok)|]. split.
  { intros r v. rewrite Hver. intros [[a v'] [Hr [= <-]]]%fmap_Some. exists a.
    by apply (lookup_weaken _ _ _ _ Hr), Hok. }
  unfold admit_action. fold (client_memory s client).
  change (memory_ok h (client_memory s client)) in Hok.
  set (m := client_memory s client) in *. assert (Hans : (memory_admit m action).2 =
    (let '(m', a) := memory_admit m action in (set_memory s client m', a)).2) by by destruct (memory_admit m action).
  rewrite <- Hans. unfold memory_admit. set (r := action_request_id action) in *.
  destruct (me_admitted m !! r) eqn:Ea.
  { rewrite (mo_admitted _ _ Hok r (mk_is_Some _ _ Ea)) in Hv. done. }
  destruct (me_resolved m !! r) as [[p v]|] eqn:Er.
  - left. rewrite (lookup_weaken _ _ _ _ Er (mo_resolved _ _ Hok)) in Hv. injection Hv as -> ->.
    by destruct (action_eqb payload action).
  - right. destruct (mo_gone _ _ Hok r (mk_is_Some _ _ Hv) Er) as (Hs & Hless & w & Hw & Hle).
    rewrite Hw, (proj2 (Z.leb_le r w) Hle). split; [done|]. split; [done|].
    intros r'. rewrite Hver, fmap_is_Some. apply Hless.
Qed.

Definition demo_action : ClientAction := ActJoinMatch 7.

Definition demo_ledger_ops : list LedgerOp := [OpAdmit 3 demo_action; OpRecord 3 demo_action Refused].

Lemma answered_request_is_repeated_witness :
  exists s h, ledger_run 3 ledger_default history_new demo_ledger_ops = (s, h) /\
    remembered_len s 3 <= 256 /\
    (admit_action s 3 demo_action).2 = AdmRepeat Refused.
Proof.
  exists (ledger_run 3 ledger_default history_new demo_ledger_ops).1.
  exists (ledger_run 3 ledger_default history_new demo_ledger_ops).2. split; [reflexivity|].
  destruct (answered_request_is_repeated 3 demo_ledger_ops _ _ demo_action demo_action Refused
              eq_refl eq_refl) as (Hlen & _ & [Hr|(_ & H256 & _)]).
  - split; [exact Hlen|exact Hr].
  - exfalso. vm_compute in H256. discriminate H256.
Defined.

(** ** The action inbox *)

Inductive ActionInboxOp : Type :=
| AiPush (id : Z) (action : ClientAction)
| AiPeer (id : Z) (action : ClientAction)
| AiDispatched (now id request_id : Z)
| AiGather (now : Z)
| AiOverflowed
| AiRetire (id request_id : Z)
| AiRetireClient (id : Z)
| AiClear.

Definition action_inbox_op (s : ClientActionInbox) (op : ActionInboxOp) : ClientActionInbox :=
  match op with
  | AiPush id action => (action_push s id action).1
  | AiPeer id action => push_from_peer s id action
  | AiDispatched now id request_id => mark_dispatched now s id request_id
  | AiGather now => (gather_actions now s).1
  | AiOverflowed => (take_overflowed s).1
  | AiRetire id request_id => (action_retire s id request_id).1
  | AiRetireClient id => action_retire_client s id
  | AiClear => action_inbox_clear s
  end.

Definition request_keys (rows : list (Z * ClientAction)) : list (Z * Z) :=
  map (fun row => (row.1, action_request_id row.2)) rows.

Definition held_by (id : Z) (rows : list (Z * ClientAction)) : Z :=
  zlen (filter (fun row => owned_by id row = true) rows).

Record action_inbox_ok (s : ClientActionInbox) : Prop := {
  ai_pending_bound : forall id, held_by id (ai_pending s) <= MAX_PENDING_ACTIONS_PER_CLIENT;
  ai_received_bound : forall id, held_by id (ai_received s) <= MAX_PENDING_ACTIONS_PER_CLIENT;
  ai_unique : NoDup (request_keys (ai_pending s));
  ai_started_pending : forall key, is_Some (ai_started s !! key) -> key ∈ request_keys (ai_pending s);
}.

Lemma held_snoc id rows row :
  held_by id (rows ++ [row]) = held_by id rows + (if owned_by id row then 1 else 0).
Proof.
  unfold held_by. rewrite list.filter_app, filter_cons, filter_nil, zlen_app.
  destruct (owned_by id row); [by rewrite decide_True|by rewrite decide_False].
Qed.

Lemma held_filter id (P : Z * ClientAction -> Prop) `{!forall x, Decision (P x)} rows :
  held_by id (filter P rows) <= held_by id rows.
Proof.
  unfold held_by. induction rows as [|row rows IH]; [done|]. rewrite !filter_cons.
  destruct (decide (P row)); [rewrite filter_cons|]; destruct (decide (owned_by id row = true)); rewrite ?zlen_cons; lia.
Qed.

Lemma request_keys_filter (P : Z * ClientAction -> Prop) `{!forall x, Decision (P x)} rows :
  NoDup (request_keys rows) -> NoDup (request_keys (filter P rows)).
Proof.
  unfold request_keys. intros Hnd. eapply sublist_NoDup; [exact Hnd|]. apply fmap_sublist, sublist_filter.
Qed.

Lemma elem_of_keys id r rows :
  (id, r) ∈ request_keys rows <-> exists action, (id, action) ∈ rows /\ action_request_id action = r.
Proof.
  unfold request_keys. rewrite list_elem_of_fmap. split.
  - intros ([c a] & [= -> ->] & Hin). by exists a.
  - intros (a & Hin & <-). by exists (id, a).
Qed.

Lemma is_request_key id r rows : existsb (is_request id r) rows = true <-> (id, r) ∈ request_keys rows.
Proof.
  rewrite existsb_exists, elem_of_keys. unfold is_request. setoid_rewrite <- list_elem_of_In. split.
  - intros ([c a] & Hin & Hr). rewrite andb_true_iff, !Z.eqb_eq in Hr. destruct Hr as [<- <-]. by exists a.
  - intros (a & Hin & <-). exists (id, a). by rewrite !Z.eqb_refl.
Qed.

Lemma mark_dispatched_ok now s id r : action_inbox_ok s -> action_inbox_ok (mark_dispatched now s id r).
Proof.
  intros [H1 H2 H3 H4]. unfold mark_dispatched. destruct (existsb _ _) eqn:E; [|done].
  apply is_request_key in E. split; cbn [ai_pending ai_received ai_started]; try done.
  intros key Hkey. destruct (ai_started s !! (id, r)); [by apply H4|].
  destruct (decide (key = (id, r))) as [->|]; [done|]. rewrite lookup_insert_ne in Hkey by done. by apply H4.
Qed.

Lemma action_push_ok s id action : action_inbox_ok s -> action_inbox_ok (action_push s id action).1.
Proof.
  intros Hok. unfold action_push.
  destruct (find _ _) as [[c existing]|] eqn:Ef; [done|].
  destruct (Z.leb_spec MAX_PENDING_ACTIONS_PER_CLIENT (held_by id (ai_pending s))) as [Hfull|Hroom];
    unfold held_by in *; [by rewrite (proj2 (Z.leb_le _ _))|].
  rewrite (proj2 (Z.leb_gt _ _)) by done. destruct Hok as [H1 H2 H3 H4].
  assert (Hnew : (id, action_request_id action) ∉ request_keys (ai_pending s)).
  { rewrite <- is_request_key. intros Hx. apply existsb_exists in Hx as (row & Hin & Hrow).
    by rewrite (find_none _ _ Ef row Hin) in Hrow. }
  split; cbn [fst ai_pending ai_received ai_started]; try done.
  - intros id'. rewrite held_snoc. unfold owned_by at 1. cbn [fst].
    destruct (Z.eqb_spec id id') as [<-|]; [unfold held_by in *; lia|]. specialize (H1 id'). lia.
  - unfold request_keys. rewrite map_app. apply list.NoDup_app. split; [done|]. split; [|apply list.NoDup_singleton].
    intros key Hkey ->%list_elem_of_singleton. done.
  - intros key Hkey. unfold request_keys. rewrite map_app. apply elem_of_app. left. by apply H4.
Qed.

Lemma push_from_peer_ok s id action : action_inbox_ok s -> action_inbox_ok (push_from_peer s id action).
Proof.
  intros Hok. unfold push_from_peer. destruct (existsb _ _); [done|].
  destruct (Z.leb_spec MAX_PENDING_ACTIONS_PER_CLIENT (held_by id (ai_received s))) as [Hfull|Hroom];
    unfold held_by in *; destruct Hok as [H1 H2 H3 H4].
  - rewrite (proj2 (Z.leb_le _ _)) by done. by split.
  - rewrite (proj2 (Z.leb_gt _ _)) by done. split; cbn [ai_pending ai_received ai_started]; try done.
    intros id'. rewrite held_snoc. unfold owned_by at 1. cbn [fst].
    destruct (Z.eqb_spec id id') as [<-|]; [unfold held_by in *; lia|]. specialize (H2 id'). lia.
Qed.

(** Rows are dropped with the starts of their requests. *)
Lemma filtered_ok s (P : Z * ClientAction -> Prop) `{!forall x, Decision (P x)} started received overflow :
  action_inbox_ok s -> (forall id, held_by id received <= MAX_PENDING_ACTIONS_PER_CLIENT) ->
  (forall id action, is_Some (started !! (id, action_request_id action)) ->
     is_Some (ai_started s !! (id, action_request_id action)) /\ P (id, action)) ->
  (forall id r, is_Some (started !! (id, r)) -> is_Some (ai_started s !! (id, r))) ->
  action_inbox_ok (mkActionInbox (filter P (ai_pending s)) started received overflow).
Proof.
  intros [H1 H2 H3 H4] Hrec Hstart Hsub. split; cbn [ai_pending ai_received ai_started].
  - intros id. etrans; [apply held_filter|apply H1].
  - done.
  - by apply request_keys_filter.
  - intros [id r] Hkey. specialize (H4 _ (Hsub _ _ Hkey)). apply elem_of_keys in H4 as (a & Hin & <-).
    apply elem_of_keys. exists a. split; [|done]. apply list_elem_of_filter. split; [|done]. by apply (Hstart id a).
Qed.

Lemma action_inbox_op_ok s op : action_inbox_ok s -> action_inbox_ok (action_inbox_op s op).
Proof.
  intros Hok. destruct op as [id action|id action|now id r|now| |id r|id|]; cbn [action_inbox_op].
  - by apply action_push_ok.
  - by apply push_from_peer_ok.
  - by apply mark_dispatched_ok.
  - unfold gather_actions. cbn [fst].
    assert (Hm : forall rows s, action_inbox_ok s ->
      action_inbox_ok (foldl (fun s row => mark_dispatched now s row.1 (action_request_id row.2)) s rows)).
    { induction rows as [|row rows IH]; intros s0 Hs0; [done|]. cbn [foldl]. by apply IH, mark_dispatched_ok. }
    destruct (Hm (ai_pending s) s Hok) as [H1 H2 H3 H4]. split; done.
  - by destruct Hok.
  - unfold action_retire. cbn [fst]. apply filtered_ok; [done|apply Hok| |].
    + intros c a [x Hx]. apply lookup_delete_Some in Hx as [Hne Hx]. split; [by eexists|].
      unfold is_request. cbn [fst snd]. apply negb_true_iff. destruct (Z.eqb_spec c id), (Z.eqb_spec (action_request_id a) r); try done.
      destruct Hne. congruence.
    + intros c q [x Hx]. apply lookup_delete_Some in Hx as [_ Hx]. by eexists.
  - unfold action_retire_client. apply filtered_ok; [done| | |].
    + intros c. etrans; [apply held_filter|apply Hok].
    + intros c a [x Hx]. apply map_lookup_filter_Some in Hx as [Hx Hc]. split; [by eexists|done].
    + intros c q [x Hx]. apply map_lookup_filter_Some in Hx as [Hx _]. by eexists.
  - split; cbn; try done; [constructor|]. intros key [x Hx]. by rewrite lookup_empty in Hx.
Qed.

(** However requests arrive, are dispatched, gathered, answered and retired, the action inbox
    holds at most 32 waiting and 32 received requests of a client, no two waiting requests of a
    client have the same id, and when it reports a timeout, some request it still holds was first
    dispatched more than eight seconds ago. *)
Theorem action_inbox_bounded ops :
  let s := foldl action_inbox_op action_inbox_default ops in
  (forall id, held_by id (ai_pending s) <= 32 /\ held_by id (ai_received s) <= 32) /\
  NoDup (request_keys (ai_pending s)) /\
  forall now, timed_out s now = true ->
    exists id action at_, (id, action) ∈ ai_pending s /\
      ai_started s !! (id, action_request_id action) = Some at_ /\ ACTION_TIMEOUT < now - at_.
Proof.
  assert (Hinv : forall ops s, action_inbox_ok s -> action_inbox_ok (foldl action_inbox_op s ops)).
  { induction ops0 as [|op ops0 IH]; intros s Hs; [done|]. cbn [foldl]. by apply IH, action_inbox_op_ok. }
  intros s. assert (Hs : action_inbox_ok s).
  { apply Hinv. split; cbn; try done; [constructor|]. intros key [x Hx]. by rewrite lookup_empty in Hx. }
  clearbody s. destruct Hs as [H1 H2 H3 H4]. split; [by split|]. split; [done|].
  intros now Ht. unfold timed_out in Ht. apply existsb_exists in Ht as ([[id r] at_] & Hin & Hlt).
  apply list_elem_of_In, elem_of_map_to_list in Hin. specialize (H4 _ (mk_is_Some _ _ Hin)).
  apply elem_of_keys in H4 as (a & Ha & <-). exists id, a, at_. split; [done|]. split; [done|].
  cbn [snd] in Hlt. unfold saturating_sub, ACTION_TIMEOUT in *. apply Z.ltb_lt in Hlt. lia.
Qed.
