(* ===== verification/Authority.v ===== *)
(** * A tick of the authority

    crates/net/src/authority/runtime.rs: what the host gathers for the simulation and what it
    does with the simulation's answer.  The resources a tick works on are fields of [Authority]:
    the command inbox ([Inbox]), the action inbox and the ledger ([Actions]), the reliable queues
    ([Reliable]).  The simulation's step is not part of the model: [publish_server_tick] takes
    whatever it returned.  The connection hub of udp_session.rs and the client retirement inside
    the simulation appear as the lists of clients they are told to retire. *)

From S2P Require Export Actions Inbox RowWire.
#[local] Open Scope Z_scope.

(** Only rows that hold no floats are compared. *)
#[export] Instance SvcCardSlot_eq_dec : EqDecision SvcCardSlot.
Proof. solve_decision. Defined.
#[export] Instance SvcOpenMenu_eq_dec : EqDecision SvcOpenMenu.
Proof. solve_decision. Defined.
#[export] Instance SvcHudSplash_eq_dec : EqDecision SvcHudSplash.
Proof. solve_decision. Defined.
#[export] Instance SvcGameNotify_eq_dec : EqDecision SvcGameNotify.
Proof. solve_decision. Defined.
#[export] Instance ScriptAudioCommand_eq_dec : EqDecision ScriptAudioCommand.
Proof. solve_decision. Defined.
#[export] Instance WireRow_eq_dec : EqDecision WireRow.
Proof. solve_decision. Defined.

(** ** The simulation's answer: the fields of [TickResult] read here *)

Inductive ActionOutcome : Type := OutApplied | OutAccepted | OutRefused.

Record ActionResult : Type := mkActionResult {
  ar_client : Z; ar_action : ClientAction; ar_outcome : ActionOutcome }.

Record EventRecord : Type := mkEventRecord {
  er_sequence : Z; er_tick : Z; er_audience : EventAudience; er_event : SimEvent }.

Record ServerTickData : Type := mkTickData {
  td_clients : list Z;                 (* [snapshot.meta.clients], their ids *)
  td_journal : list EventRecord;       (* [snapshot.meta.journal] *)
  td_action_results : list ActionResult;
  td_fire_results : list FireCommandResult;
}.

Record TickInput : Type := mkTickInput {
  ti_cmds : list PlayerCommand;
  ti_actions : list (Z * ClientAction);
  ti_shot_samples : list (Z * Z * ShotSampleProvenance);
}.

(** Why a connection is given up; the text shown is made from it. *)
Inductive FaultReason : Type :=
| ReliableControlOverflow
| ActionQueueOverflow
| InputBacklog (fault : InputBacklogFault)
| Kicked (reason : list byte).

Record Authority : Type := mkAuthority {
  au_clock : AuthorityClock;
  au_inbox : ClientCommandInbox;
  au_actions : ClientActionInbox;
  au_ledger : ClientActionLedger;
  au_reliable : Hub WireRow;
  au_request_ids : ActionRequestIds;
  au_faults : list (Z * FaultReason);            (* [PendingConnectionFaults] *)
  au_samples : gmap (Z * Z) ShotSampleProvenance; (* [ClientShotSamples] *)
  au_pending : option TickInput;                 (* [PendingAuthorityInput] *)
  au_acks : list (Z * Z);                        (* [PendingAcks] *)
  au_server_tick : option ServerTickData;
  au_roster : list Z;                            (* [LastAuthorityRoster] *)
  au_local_cmds_enabled : bool;                  (* [AuthorityInputGate] *)
}.

Definition authority_default : Authority :=
  mkAuthority clock_default inbox_default action_inbox_default ledger_default ∅ request_ids_default
    [] ∅ None [] None [] false.

(** ** Gather *)

(** [overflowed_clients], in the map's order. *)
Definition overflowed_clients (hub : Hub WireRow) : list Z :=
  filter (fun client => overflowed hub client = true) (map fst (map_to_list hub)).

(** One request: it goes to the simulation, or is answered. *)
Definition admit_request (st : ClientActionLedger * Hub WireRow * list (Z * ClientAction))
    (request : Z * ClientAction) : ClientActionLedger * Hub WireRow * list (Z * ClientAction) :=
  let '(ledger, hub, actions) := st in
  let '(client, action) := request in
  let request_id := action_request_id action in
  let '(ledger, admission) := admit_action ledger client action in
  let answer verdict := (hub_push_outcome hub client (RowActionOutcome request_id verdict)).1 in
  match admission with
  | AdmFresh => (ledger, hub, actions ++ [(client, action)])
  | AdmPending => (ledger, hub, actions)
  | AdmRepeat verdict => (ledger, answer verdict, actions)
  | AdmPayloadMismatch => (ledger, answer PayloadMismatch, actions)
  | AdmExpired => (ledger, answer Expired, actions)
  end.

Definition note_samples (samples : list (Z * Z * ShotSampleProvenance))
    : gmap (Z * Z) ShotSampleProvenance :=
  foldl (fun m row => <[row.1 := row.2]> m) ∅ samples.

(** Everything of the clients [drop] selects. *)
Definition without_cmds (drop : Z -> bool) (cmds : list PlayerCommand) : list PlayerCommand :=
  filter (fun command => drop (pc_client command) = false) cmds.
Definition without_rows {A} (drop : Z -> bool) (rows : list (Z * A)) : list (Z * A) :=
  filter (fun row => drop row.1 = false) rows.
Definition without_samples (drop : Z -> bool) (m : gmap (Z * Z) ShotSampleProvenance)
    : gmap (Z * Z) ShotSampleProvenance :=
  filter (fun e => drop e.1.1 = false) m.

Record GatherState : Type := mkGather {
  gt_cmds : list PlayerCommand;
  gt_acks : list (Z * Z);
  gt_actions : list (Z * ClientAction);
  gt_samples : gmap (Z * Z) ShotSampleProvenance;
  gt_inbox : ClientCommandInbox;
  gt_action_inbox : ClientActionInbox;
  gt_ledger : ClientActionLedger;
}.

(** A faulted client contributes nothing, and what was kept of it goes. *)
Definition cut_off (g : GatherState) (client : Z) : GatherState :=
  let drop id := id =? client in
  mkGather (without_cmds drop (gt_cmds g)) (without_rows drop (gt_acks g))
    (without_rows drop (gt_actions g)) (without_samples drop (gt_samples g))
    (inbox_retire_client (gt_inbox g) client) (action_retire_client (gt_action_inbox g) client)
    (ledger_retire_client (gt_ledger g) client).

(** The local player's input while its commands are not armed. *)
Definition hold_local (enabled : bool) (local : option Z) (g : GatherState) : GatherState :=
  match local with
  | Some id =>
      if enabled then g
      else let drop c := c =? id in
           mkGather (without_cmds drop (gt_cmds g)) (without_rows drop (gt_acks g)) (gt_actions g)
             (without_samples drop (gt_samples g)) (gt_inbox g) (gt_action_inbox g) (gt_ledger g)
  | None => g
  end.

Definition gather_authority_input (now : Z) (local : option Z) (s : Authority) : Authority :=
  let '(action_inbox, overflowing) := take_overflowed (au_actions s) in
  let faults := au_faults s ++ map (fun c => (c, ReliableControlOverflow)) (overflowed_clients (au_reliable s))
                  ++ map (fun c => (c, ActionQueueOverflow)) overflowing in
  let '(action_inbox, requests) := gather_actions now action_inbox in
  let '(ledger, hub, actions) := foldl admit_request (au_ledger s, au_reliable s, []) requests in
  let '(inbox, gathered) := take_for_tick (au_inbox s) (ck_time_ms (au_clock s)) in
  let faults := faults ++ map (fun f => (f.1, InputBacklog f.2)) (ga_faults gathered) in
  let g := mkGather (ga_cmds gathered) (ga_acks gathered) actions (note_samples (ga_samples gathered))
             inbox action_inbox ledger in
  let g := hold_local (au_local_cmds_enabled s) local g in
  let g := foldl cut_off g (map fst faults) in
  mkAuthority (au_clock s) (gt_inbox g) (gt_action_inbox g) (gt_ledger g) hub (au_request_ids s) faults
    (gt_samples g) (Some (mkTickInput (gt_cmds g) (gt_actions g) (map_to_list (gt_samples g))))
    (gt_acks g) (au_server_tick s) (au_roster s) (au_local_cmds_enabled s).

(** ** Publishing the simulation's answer *)

Definition outcome_verdict (outcome : ActionOutcome) : ActionVerdict :=
  match outcome with OutApplied => Applied | OutAccepted => Accepted | OutRefused => Refused end.

Definition record_outcome (st : ClientActionLedger * Hub WireRow * ClientActionInbox) (r : ActionResult)
    : ClientActionLedger * Hub WireRow * ClientActionInbox :=
  let '(ledger, hub, inbox) := st in
  let request_id := action_request_id (ar_action r) in
  let verdict := outcome_verdict (ar_outcome r) in
  (record_action ledger (ar_client r) (ar_action r) verdict,
   (hub_push_outcome hub (ar_client r) (RowActionOutcome request_id verdict)).1,
   (action_retire inbox (ar_client r) request_id).1).

Definition record_action_outcomes (st : ClientActionLedger * Hub WireRow * ClientActionInbox)
    (tick : ServerTickData) : ClientActionLedger * Hub WireRow * ClientActionInbox :=
  foldl record_outcome st (td_action_results tick).

Definition queue_event (clients : list Z) (hub : Hub WireRow) (record : EventRecord) : Hub WireRow :=
  if negb (sim_event_is_reliable (er_event record)) then hub
  else foldl (fun hub client =>
                if projects_to (er_audience record) client
                then (hub_push hub client (RowEvent (er_event record))).1 else hub) hub clients.

Definition queue_reliable_events (hub : Hub WireRow) (tick : ServerTickData) : Hub WireRow :=
  foldl (queue_event (td_clients tick)) hub (td_journal tick).

(** [entry(client).or_default().push(result)] over the results: a [BTreeMap] by client. *)
Fixpoint add_result (by_client : list (Z * list FireCommandResult)) (result : FireCommandResult)
    : list (Z * list FireCommandResult) :=
  match by_client with
  | [] => [(fc_client result, [result])]
  | (client, results) :: rest =>
      if fc_client result <? client then (fc_client result, [result]) :: by_client
      else if fc_client result =? client then (client, results ++ [result]) :: rest
      else (client, results) :: add_result rest result
  end.

Definition fire_by_client (results : list FireCommandResult) : list (Z * list FireCommandResult) :=
  foldl add_result [] results.

(** [results.chunks(n)]. *)
Fixpoint chunk_rows {A} (fuel n : nat) (l : list A) : list (list A) :=
  match fuel, l with
  | O, _ | _, [] => []
  | S fuel, _ => take n l :: chunk_rows fuel n (drop n l)
  end.

Definition fire_batches (results : list FireCommandResult) : list (list FireCommandResult) :=
  chunk_rows (length results) (Z.to_nat MAX_FIRE_RESULTS) results.

Definition queue_fire_results (hub : Hub WireRow) (tick : ServerTickData) : Hub WireRow :=
  foldl (fun hub row =>
           foldl (fun hub batch => (hub_push hub row.1 (RowFireCommands batch)).1) hub (fire_batches row.2))
    hub (fire_by_client (td_fire_results tick)).

Definition publish_server_tick (step : option ServerTickData) (s : Authority) : Authority :=
  match step with
  | None => mkAuthority (au_clock s) (au_inbox s) (au_actions s) (au_ledger s) (au_reliable s)
      (au_request_ids s) (au_faults s) (au_samples s) (au_pending s) (au_acks s) None (au_roster s)
      (au_local_cmds_enabled s)
  | Some tick =>
      let '(ledger, hub, actions) := record_action_outcomes (au_ledger s, au_reliable s, au_actions s) tick in
      let hub := queue_reliable_events hub tick in
      let hub := queue_fire_results hub tick in
      mkAuthority (au_clock s) (au_inbox s) actions ledger hub (au_request_ids s) (au_faults s)
        (au_samples s) (au_pending s) (au_acks s) (Some tick) (au_roster s) (au_local_cmds_enabled s)
  end.

(** [step_authority] takes the input; [None] was left when there is none. *)
Definition take_input (s : Authority) : Authority * option TickInput :=
  (mkAuthority (au_clock s) (au_inbox s) (au_actions s) (au_ledger s) (au_reliable s) (au_request_ids s)
     (au_faults s) (au_samples s) None (au_acks s) (au_server_tick s) (au_roster s) (au_local_cmds_enabled s),
   au_pending s).

(** ** Bookkeeping *)

Definition advance_authority_clock (s : Authority) : Authority :=
  mkAuthority (clock_advance (au_clock s)).1 (au_inbox s) (au_actions s) (au_ledger s) (au_reliable s)
    (au_request_ids s) (au_faults s) (au_samples s) (au_pending s) (au_acks s) None (au_roster s)
    (au_local_cmds_enabled s).

(** The faults are handed to the hub and the simulation, which retire their clients. *)
Definition apply_connection_faults (s : Authority) : Authority * list (Z * FaultReason) :=
  (mkAuthority (au_clock s) (au_inbox s) (au_actions s) (au_ledger s) (au_reliable s) (au_request_ids s)
     [] (au_samples s) (au_pending s) (au_acks s) (au_server_tick s) (au_roster s) (au_local_cmds_enabled s),
   au_faults s).

Definition retire_departed (s : Authority) (client : Z) : Authority :=
  let drop id := id =? client in
  mkAuthority (au_clock s) (inbox_retire_client (au_inbox s) client)
    (action_retire_client (au_actions s) client) (ledger_retire_client (au_ledger s) client)
    (hub_retire (au_reliable s) client) (au_request_ids s) (au_faults s)
    (without_samples drop (au_samples s))
    (match au_pending s with
     | Some input => Some (mkTickInput (without_cmds drop (ti_cmds input)) (without_rows drop (ti_actions input))
                             (ti_shot_samples input))
     | None => None
     end)
    (without_rows drop (au_acks s)) (au_server_tick s) (au_roster s) (au_local_cmds_enabled s).

Definition set_roster (s : Authority) (roster : list Z) : Authority :=
  mkAuthority (au_clock s) (au_inbox s) (au_actions s) (au_ledger s) (au_reliable s) (au_request_ids s)
    (au_faults s) (au_samples s) (au_pending s) (au_acks s) (au_server_tick s) roster (au_local_cmds_enabled s).

Definition departed (s : Authority) (tick : ServerTickData) : list Z :=
  filter (fun client => existsb (fun c => c =? client) (td_clients tick) = false) (au_roster s).

Definition retire_departed_peers (s : Authority) : Authority :=
  match au_server_tick s with
  | None => s
  | Some tick => set_roster (foldl retire_departed s (departed s tick)) (td_clients tick)
  end.

(** [ActionTransactionScope::open_new_scope]. *)
Definition open_new_scope (s : Authority) : Authority :=
  mkAuthority (au_clock s) (au_inbox s) (action_inbox_clear (au_actions s)) (open_scope (au_ledger s)) ∅
    (request_ids_reset (au_request_ids s)) (au_faults s) (au_samples s) (au_pending s) (au_acks s)
    (au_server_tick s) [] (au_local_cmds_enabled s).

(** [release_authority]; the world is shut down too. *)
Definition release_authority (s : Authority) : Authority :=
  let s := open_new_scope (mkAuthority (au_clock s) (inbox_clear (au_inbox s)) (au_actions s) (au_ledger s)
    (au_reliable s) (au_request_ids s) (au_faults s) (au_samples s) (au_pending s) (au_acks s)
    (au_server_tick s) (au_roster s) (au_local_cmds_enabled s)) in
  mkAuthority (au_clock s) (au_inbox s) (au_actions s) (au_ledger s) (au_reliable s) (au_request_ids s)
    (au_faults s) (au_samples s) (au_pending s) (au_acks s) (au_server_tick s) (au_roster s) false.
