(* ===== verification/AuthorityMain.v ===== *)
(** * Properties of a tick of the authority

    The requests handed to the simulation, what becomes of the others, what a fault and a
    departure leave behind, and the rows a published tick puts on the reliable queues. *)

From S2P Require Export Authority ActionsMain InboxMain FireVerdict.
#[local] Open Scope Z_scope.

(** ** Rows of one client *)

Definition mine (client : Z) {A} (rows : list (Z * A)) : list (Z * A) :=
  filter (fun row => row.1 = client) rows.

Definition ids_of (client : Z) (actions : list (Z * ClientAction)) : list Z :=
  map (fun row => action_request_id row.2) (mine client actions).

Lemma ids_of_app client a b : ids_of client (a ++ b) = ids_of client a ++ ids_of client b.
Proof. unfold ids_of, mine. by rewrite list.filter_app, map_app. Qed.

(** Filters on different keys, on the same one. *)
Lemma filter_kept {A} (P Q : A -> Prop) `{!forall x, Decision (P x)} `{!forall x, Decision (Q x)} (l : list A) :
  (forall x, P x -> Q x) -> filter P (filter Q l) = filter P l.
Proof.
  intros HPQ. rewrite list_filter_filter. apply list_filter_iff. intros x. split; [tauto|]. auto.
Qed.

Lemma filter_gone {A} (P Q : A -> Prop) `{!forall x, Decision (P x)} `{!forall x, Decision (Q x)} (l : list A) :
  (forall x, P x -> Q x -> False) -> filter P (filter Q l) = [].
Proof.
  intros HPQ. rewrite list_filter_filter. induction l as [|x l IH]; [done|].
  rewrite filter_cons_False; [done|]. intros [? ?]. by eapply HPQ.
Qed.

Lemma mine_kept client c {A} (rows : list (Z * A)) :
  c <> client -> mine client (without_rows (fun id => id =? c) rows) = mine client rows.
Proof. intros Hne. apply filter_kept. intros row <-. apply Z.eqb_neq. congruence. Qed.

Lemma mine_gone client {A} (rows : list (Z * A)) : mine client (without_rows (fun id => id =? client) rows) = [].
Proof. apply filter_gone. intros row <- Hf. by rewrite Z.eqb_refl in Hf. Qed.

(** ** The queues *)

Lemma hub_queue_set (hub : Hub WireRow) c q client :
  hub_queue (<[c := q]> hub) client = if bool_decide (c = client) then q else hub_queue hub client.
Proof.
  unfold hub_queue, Hub in *. whose c client; [by rewrite lookup_insert_eq|by rewrite lookup_insert_ne].
Qed.

Definition push_row (q : ReliableEventQueue WireRow) (row : WireRow) : ReliableEventQueue WireRow :=
  (queue_push q row).1.

(** An outcome already waiting is not queued again. *)
Definition push_outcome_row (q : ReliableEventQueue WireRow) (row : WireRow) : ReliableEventQueue WireRow :=
  if existsb (fun p => bool_decide (p.2 = row)) (q_pending q) then q else push_row q row.

Lemma hub_push_queue hub c row client :
  hub_queue (hub_push hub c row).1 client =
    if bool_decide (c = client) then push_row (hub_queue hub c) row else hub_queue hub client.
Proof. unfold hub_push, push_row. destruct (queue_push _ _) as [q seq]. cbn [fst]. apply hub_queue_set. Qed.

Lemma find_existsb {A} (f : A -> bool) l : existsb f l = match find f l with Some _ => true | None => false end.
Proof. induction l as [|x l IH]; [done|]. cbn. by destruct (f x). Qed.

Lemma hub_outcome_queue hub c row client :
  hub_queue (hub_push_outcome hub c row).1 client =
    if bool_decide (c = client) then push_outcome_row (hub_queue hub c) row else hub_queue hub client.
Proof.
  unfold hub_push_outcome, push_outcome_row, push_row. rewrite find_existsb.
  destruct (find _ _) as [[seq r]|]; [|destruct (queue_push _ _) as [q seq]]; cbn [fst]; apply hub_queue_set.
Qed.

Lemma existsb_false_elim {A} (f : A -> bool) l : existsb f l = false -> forall x, x ∈ l -> f x = false.
Proof.
  intros Hf x Hx. destruct (f x) eqn:E; [|done]. rewrite <- Hf. symmetry. apply existsb_exists. exists x.
  by rewrite <- list_elem_of_In.
Qed.

Lemma existsb_false_intro {A} (f : A -> bool) l : (forall x, x ∈ l -> f x = false) -> existsb f l = false.
Proof.
  intros Hf. destruct (existsb f l) eqn:E; [|done]. apply existsb_exists in E as (x & Hx & Ht).
  by rewrite (Hf x) in Ht by by apply list_elem_of_In.
Qed.

(** The row waits for the client, or a row of the client was dropped and counted, which closes
    the connection. *)
Definition waits_or_dropped (q : ReliableEventQueue WireRow) (row : WireRow) : Prop :=
  (exists seq, (seq, row) ∈ q_pending q) \/ 0 < q_dropped_oldest q.

(** What a queue keeps when rows are pushed: its rows, and that it has dropped one. *)
Definition queue_grows (q q' : ReliableEventQueue WireRow) : Prop :=
  (exists more, q_pending q' = q_pending q ++ more) /\
  (0 <= q_dropped_oldest q -> 0 <= q_dropped_oldest q') /\ (0 < q_dropped_oldest q -> 0 < q_dropped_oldest q').

#[export] Instance queue_grows_preorder : PreOrder queue_grows.
Proof.
  split.
  - intros q. split; [|done]. exists []. by rewrite app_nil_r.
  - intros q q' q'' [[a Ha] [? ?]] [[b Hb] [? ?]]. split; [|auto]. exists (a ++ b). by rewrite Hb, Ha, app_assoc.
Qed.

Lemma push_row_grows q row : queue_grows q (push_row q row).
Proof.
  unfold push_row, queue_push. destruct (_ <=? _); cbn [fst]; split; cbn [q_pending q_dropped_oldest].
  - exists []. by rewrite app_nil_r.
  - unfold saturating_add32, u32_max. lia.
  - eexists. reflexivity.
  - lia.
Qed.

Lemma push_outcome_grows q row : queue_grows q (push_outcome_row q row).
Proof. unfold push_outcome_row. destruct (existsb _ _); [reflexivity|apply push_row_grows]. Qed.

Lemma foldl_grows {A B} (queue_of : B -> ReliableEventQueue WireRow) (f : B -> A -> B) l b :
  (forall b x, queue_grows (queue_of b) (queue_of (f b x))) ->
  queue_grows (queue_of b) (queue_of (foldl f b l)).
Proof.
  intros Hf. induction l as [|x l IH] in b |- *; cbn [foldl]; [reflexivity|]. etransitivity; [apply Hf|apply IH].
Qed.

Lemma waits_grow q q' row : queue_grows q q' -> waits_or_dropped q row -> waits_or_dropped q' row.
Proof.
  intros [[more Hmore] [_ Hd]] [[seq Hin]|Hdropped]; [left|right; auto].
  rewrite Hmore. exists seq. apply elem_of_app. by left.
Qed.

Lemma outcome_waits q row : 0 <= q_dropped_oldest q -> waits_or_dropped (push_outcome_row q row) row.
Proof.
  intros Hd. unfold push_outcome_row. destruct (existsb _ _) eqn:E.
  - apply existsb_exists in E as ([seq r] & Hin & Hr). apply bool_decide_eq_true_1 in Hr. cbn [snd] in Hr. subst r.
    left. exists seq. by apply list_elem_of_In.
  - unfold push_row, queue_push. destruct (_ <=? _).
    + right. cbn [fst q_dropped_oldest]. unfold saturating_add32, u32_max. lia.
    + left. eexists. cbn [fst q_pending]. apply elem_of_app. right. by apply list_elem_of_singleton.
Qed.

Lemma hub_push_grows hub c row client : queue_grows (hub_queue hub client) (hub_queue (hub_push hub c row).1 client).
Proof. rewrite hub_push_queue. whose c client; [apply push_row_grows|reflexivity]. Qed.

Lemma hub_outcome_grows hub c row client :
  queue_grows (hub_queue hub client) (hub_queue (hub_push_outcome hub c row).1 client).
Proof. rewrite hub_outcome_queue. whose c client; [apply push_outcome_grows|reflexivity]. Qed.

(** The hub's own test of a dropped row. *)
Lemma overflowed_dropped (hub : Hub WireRow) client :
  overflowed hub client = negb (q_dropped_oldest (hub_queue hub client) =? 0).
Proof. unfold overflowed, hub_queue, Hub in *. by destruct (hub !! client). Qed.

(** ** Requests *)

Abbreviation Admission := (ClientActionLedger * Hub WireRow * list (Z * ClientAction))%type.

(** What [admit_request] does, by the ledger's answer. *)
Lemma admit_request_eq (st : Admission) c action :
  let '(ledger, hub, actions) := st in
  let answer verdict := (hub_push_outcome hub c (RowActionOutcome (action_request_id action) verdict)).1 in
  admit_request st (c, action) =
    ((admit_action ledger c action).1,
     match (admit_action ledger c action).2 with
     | AdmFresh | AdmPending => hub
     | AdmRepeat verdict => answer verdict
     | AdmPayloadMismatch => answer PayloadMismatch
     | AdmExpired => answer Expired
     end,
     if bool_decide ((admit_action ledger c action).2 = AdmFresh) then actions ++ [(c, action)] else actions).
Proof.
  destruct st as [[ledger hub] actions]. unfold admit_request.
  destruct (admit_action ledger c action) as [ledger' admission]. cbn [fst snd]. by destruct admission.
Qed.

(** The history of a client's requests follows the requests given to the simulation. *)
Definition granted_so_far (client : Z) (served : list Z) (st : Admission) : Prop :=
  exists h, ledger_inv client st.1.1 h /\ hi_granted h = served ++ ids_of client st.2.

Lemma admit_request_granted client served st request :
  granted_so_far client served st -> granted_so_far client served (admit_request st request).
Proof.
  destruct st as [[ledger hub] actions], request as [c action]. intros (h & Hinv & Hh).
  pose proof (admit_request_eq (ledger, hub, actions) c action) as Heq. cbv beta iota zeta in Heq. rewrite Heq.
  pose proof (ledger_op_inv client ledger h (OpAdmit c action) Hinv) as Hop. cbn [ledger_op history_op] in Hop.
  destruct (admit_action ledger c action) as [ledger' admission]. cbn [fst snd] in *.
  eexists. split; [exact Hop|]. cbn [fst snd].
  rewrite (bool_decide_ext (Some admission = Some AdmFresh) (admission = AdmFresh)) by (split; congruence).
  destruct (bool_decide (admission = AdmFresh)); [|by rewrite andb_false_r].
  rewrite andb_true_r, ids_of_app, app_assoc, <- Hh. unfold ids_of, mine. rewrite filter_cons, filter_nil.
  cbn [fst]. whose c client.
  - done.
  - cbn [map]. by rewrite app_nil_r.
Qed.

Lemma admit_requests_granted client served requests st :
  granted_so_far client served st -> granted_so_far client served (foldl admit_request st requests).
Proof.
  revert st. induction requests as [|r rest IH]; intros st Hst; [done|]. cbn [foldl]. by apply IH, admit_request_granted.
Qed.

(** What has become of a request: it goes to the simulation, it went there before, or an answer
    to it is queued. *)
Definition accounted (request : Z * ClientAction) (st : Admission) : Prop :=
  request ∈ st.2 \/
  (exists running, me_admitted (client_memory st.1.1 request.1) !! action_request_id request.2 = Some running /\
     action_eqb running request.2 = true) \/
  (exists verdict, waits_or_dropped (hub_queue st.1.2 request.1)
     (RowActionOutcome (action_request_id request.2) verdict)).

Lemma admit_action_memory ledger c action client :
  client_memory (admit_action ledger c action).1 client =
    if bool_decide (c = client) then (memory_admit (client_memory ledger c) action).1
    else client_memory ledger client.
Proof.
  unfold admit_action. fold (client_memory ledger c).
  destruct (memory_admit (client_memory ledger c) action) as [m a]. apply client_memory_set.
Qed.

Lemma admit_action_answer ledger c action :
  (admit_action ledger c action).2 = (memory_admit (client_memory ledger c) action).2.
Proof.
  unfold admit_action. fold (client_memory ledger c). by destruct (memory_admit (client_memory ledger c) action).
Qed.

(** Admission does not take a running request back. *)
Lemma memory_admit_keeps m action r running :
  me_admitted m !! r = Some running -> me_admitted (memory_admit m action).1 !! r = Some running.
Proof.
  intros Hr. unfold memory_admit. destruct (me_admitted m !! action_request_id action) eqn:Ea; [done|].
  destruct (me_resolved m !! action_request_id action) as [[p v]|]; [done|].
  destruct (match me_forgotten_through m with Some w => _ <=? w | None => false end); [done|].
  cbn [fst me_admitted]. rewrite lookup_insert_ne; [done|]. congruence.
Qed.

Lemma admit_request_grows client st r :
  queue_grows (hub_queue st.1.2 client) (hub_queue (admit_request st r).1.2 client).
Proof.
  destruct st as [[ledger hub] actions], r as [c action].
  pose proof (admit_request_eq (ledger, hub, actions) c action) as Heq. cbv beta iota zeta in Heq.
  rewrite Heq. cbn [fst snd]. destruct ((admit_action ledger c action).2); (reflexivity || apply hub_outcome_grows).
Qed.

Lemma accounted_stays request st r : accounted request st -> accounted request (admit_request st r).
Proof.
  destruct st as [[ledger hub] actions], r as [c action].
  pose proof (admit_request_eq (ledger, hub, actions) c action) as Heq. cbv beta iota zeta in Heq.
  rewrite Heq. unfold accounted. cbn [fst snd]. intros [Hin|[(running & Hrun & Heqb)|(verdict & Hw)]].
  - left. destruct (bool_decide _); [|done]. apply elem_of_app. by left.
  - right. left. exists running. split; [|done]. rewrite admit_action_memory. whose c (request.1); [|done].
    by apply memory_admit_keeps.
  - right. right. exists verdict. revert Hw. apply waits_grow.
    pose proof (admit_request_grows (fst request) (ledger, hub, actions) (c, action)) as Hg. by rewrite Heq in Hg.
Qed.

Lemma accounted_now st c action :
  0 <= q_dropped_oldest (hub_queue st.1.2 c) -> accounted (c, action) (admit_request st (c, action)).
Proof.
  destruct st as [[ledger hub] actions]. cbn [fst snd]. intros Hd.
  pose proof (admit_request_eq (ledger, hub, actions) c action) as Heq. cbv beta iota zeta in Heq.
  rewrite Heq. unfold accounted. cbn [fst snd]. set (r := action_request_id action).
  destruct ((admit_action ledger c action).2) as [| |verdict| |] eqn:Ea.
  - left. rewrite bool_decide_eq_true_2 by done. apply elem_of_app. right. by apply list_elem_of_singleton.
  - right. left. rewrite admit_action_memory, bool_decide_eq_true_2 by done.
    rewrite admit_action_answer in Ea. unfold memory_admit in *. fold r in Ea |- *.
    destruct (me_admitted (client_memory ledger c) !! r) as [running|] eqn:Er.
    + exists running. split; [exact Er|]. by destruct (action_eqb running action).
    + destruct (me_resolved (client_memory ledger c) !! r) as [[p v]|].
      { by destruct (action_eqb p action). }
      by destruct (match me_forgotten_through (client_memory ledger c) with Some w => r <=? w | None => false end).
  - right. right. exists verdict. rewrite hub_outcome_queue, bool_decide_eq_true_2 by done. by apply outcome_waits.
  - right. right. exists PayloadMismatch. rewrite hub_outcome_queue, bool_decide_eq_true_2 by done. by apply outcome_waits.
  - right. right. exists Expired. rewrite hub_outcome_queue, bool_decide_eq_true_2 by done. by apply outcome_waits.
Qed.

Lemma admit_requests_accounted requests st request :
  0 <= q_dropped_oldest (hub_queue st.1.2 request.1) ->
  request ∈ requests -> accounted request (foldl admit_request st requests).
Proof.
  intros Hd Hin. apply list_elem_of_split in Hin as (before & after & ->).
  assert (Hd' : 0 <= q_dropped_oldest (hub_queue (foldl admit_request st before).1.2 request.1)).
  { revert Hd. apply (foldl_grows (fun st : Admission => hub_queue st.1.2 request.1) admit_request before st).
    intros. apply admit_request_grows. }
  rewrite foldl_app. cbn [foldl]. set (st' := foldl admit_request st before) in *. clearbody st'.
  destruct request as [c action]. assert (Hnow : accounted (c, action) (admit_request st' (c, action))) by by apply accounted_now.
  revert Hnow. generalize (admit_request st' (c, action)). clear Hd' st'.
  induction after as [|r after IH]; intros st0 Hst0; [done|]. cbn [foldl]. by apply IH, accounted_stays.
Qed.

(** ** The share of one client in what is gathered *)

Record Share : Type := mkShare {
  sh_cmds : list PlayerCommand;
  sh_acks : list (Z * Z);
  sh_actions : list (Z * ClientAction);
  sh_sample : option ShotSampleProvenance;      (* for one command time *)
  sh_queue : option (list QueuedCmd);
  sh_consumed : option UserCmd;
  sh_acked : option Z;
  sh_blocked : option (Z * Z);
  sh_waiting : list (Z * ClientAction);
  sh_received : list (Z * ClientAction);
  sh_started : option Z;                        (* for one request id *)
  sh_overflowed : bool;
  sh_memory : option ClientActionMemory;
}.

Definition no_share : Share := mkShare [] [] [] None None None None None [] [] None false None.

Definition cmds_for (client : Z) (cmds : list PlayerCommand) : list PlayerCommand :=
  filter (fun command => pc_client command = client) cmds.

Definition share (client time request : Z) (g : GatherState) : Share :=
  mkShare (cmds_for client (gt_cmds g)) (mine client (gt_acks g)) (mine client (gt_actions g))
    (gt_samples g !! (client, time))
    (ib_queued (gt_inbox g) !! client) (ib_last_consumed (gt_inbox g) !! client)
    (ib_last_acked (gt_inbox g) !! client) (ib_blocked_head (gt_inbox g) !! client)
    (mine client (ai_pending (gt_action_inbox g))) (mine client (ai_received (gt_action_inbox g)))
    (ai_started (gt_action_inbox g) !! (client, request))
    (bool_decide (client ∈ ai_overflowed (gt_action_inbox g)))
    (le_clients (gt_ledger g) !! client).

Lemma cmds_kept client c cmds :
  c <> client -> cmds_for client (without_cmds (fun id => id =? c) cmds) = cmds_for client cmds.
Proof. intros Hne. apply filter_kept. intros row <-. apply Z.eqb_neq. congruence. Qed.

Lemma cmds_gone client cmds : cmds_for client (without_cmds (fun id => id =? client) cmds) = [].
Proof. apply filter_gone. intros row <- Hf. by rewrite Z.eqb_refl in Hf. Qed.

Lemma samples_kept client c time samples :
  c <> client -> without_samples (fun id => id =? c) samples !! (client, time) = samples !! (client, time).
Proof.
  intros Hne. unfold without_samples. apply option_eq. intros x. rewrite map_lookup_filter_Some. cbn [fst].
  rewrite (proj2 (Z.eqb_neq client c)) by done. tauto.
Qed.

Lemma samples_gone client time samples :
  without_samples (fun id => id =? client) samples !! (client, time) = None.
Proof. apply map_lookup_filter_None. right. intros x _. cbn [fst]. by rewrite Z.eqb_refl. Qed.

(** The action inbox keeps rows and starts of the others. *)
Lemma owned_kept client c (rows : list (Z * ClientAction)) :
  c <> client -> mine client (filter (fun row => negb (owned_by c row) = true) rows) = mine client rows.
Proof. intros Hne. apply filter_kept. intros row <-. unfold owned_by. apply negb_true_iff, Z.eqb_neq. congruence. Qed.

Lemma owned_gone client (rows : list (Z * ClientAction)) :
  mine client (filter (fun row => negb (owned_by client row) = true) rows) = [].
Proof. apply filter_gone. intros row <- Hf. unfold owned_by in Hf. by rewrite Z.eqb_refl in Hf. Qed.

Lemma started_kept (client c request : Z) (started : gmap (Z * Z) Z) :
  c <> client -> filter (fun e => negb (e.1.1 =? c) = true) started !! (client, request) = started !! (client, request).
Proof.
  intros Hne. apply option_eq. intros x. rewrite map_lookup_filter_Some. cbn [fst].
  rewrite (proj2 (Z.eqb_neq client c)) by done. cbn [negb]. tauto.
Qed.

Lemma started_gone (client request : Z) (started : gmap (Z * Z) Z) :
  filter (fun e => negb (e.1.1 =? client) = true) started !! (client, request) = None.
Proof. apply map_lookup_filter_None. right. intros x _. cbn [fst]. by rewrite Z.eqb_refl. Qed.

Lemma cut_off_share client time request g c :
  share client time request (cut_off g c) =
    if bool_decide (c = client) then no_share else share client time request g.
Proof.
  unfold share, cut_off, inbox_retire_client, action_retire_client, ledger_retire_client, no_share.
  cbn [gt_cmds gt_acks gt_actions gt_samples gt_inbox gt_action_inbox gt_ledger ib_queued ib_last_consumed
    ib_last_acked ib_blocked_head ai_pending ai_received ai_started ai_overflowed le_clients].
  whose c client.
  - rewrite cmds_gone, !mine_gone, samples_gone, !lookup_delete_eq, !owned_gone, started_gone.
    rewrite bool_decide_eq_false_2 by set_solver. done.
  - rewrite cmds_kept, !mine_kept, samples_kept, !lookup_delete_ne, !owned_kept, started_kept by done.
    f_equal. apply bool_decide_ext. set_solver.
Qed.

Lemma cut_off_shares client time request clients g :
  share client time request (foldl cut_off g clients) =
    if bool_decide (client ∈ clients) then no_share else share client time request g.
Proof.
  induction clients as [|c clients IH] in g |- *; [done|]. cbn [foldl]. rewrite IH, cut_off_share.
  destruct (decide (client ∈ clients)) as [Hin|Hout].
  - rewrite !bool_decide_eq_true_2 by (done || (right; done)). done.
  - rewrite (bool_decide_eq_false_2 (client ∈ clients)) by done.
    rewrite (bool_decide_ext (client ∈ c :: clients) (c = client)); [done|]. rewrite elem_of_cons.
    split; [by intros [|]|by left].
Qed.

(** ** Gathering *)

(** The requests admitted in a frame, and what is gathered before the faults are applied. *)
Definition admitted_requests (s : Authority) : Admission :=
  foldl admit_request (au_ledger s, au_reliable s, []) (ai_pending (au_actions s) ++ ai_received (au_actions s)).

Definition before_faults (now : Z) (local : option Z) (s : Authority) : GatherState :=
  let taken := take_for_tick (au_inbox s) (ck_time_ms (au_clock s)) in
  hold_local (au_local_cmds_enabled s) local
    (mkGather (ga_cmds taken.2) (ga_acks taken.2) (admitted_requests s).2 (note_samples (ga_samples taken.2))
       taken.1 (gather_actions now (take_overflowed (au_actions s)).1).1 (admitted_requests s).1.1).

Lemma before_faults_admitted now local s :
  gt_actions (before_faults now local s) = (admitted_requests s).2 /\
  gt_ledger (before_faults now local s) = (admitted_requests s).1.1.
Proof. unfold before_faults, hold_local. by destruct local; [destruct (au_local_cmds_enabled s)|]. Qed.

(** The state after gathering, by its parts. *)
Record gathered_as (s s' : Authority) (g : GatherState) : Prop := {
  gs_pending : au_pending s' = Some (mkTickInput (gt_cmds g) (gt_actions g) (map_to_list (gt_samples g)));
  gs_acks : au_acks s' = gt_acks g;
  gs_samples : au_samples s' = gt_samples g;
  gs_inbox : au_inbox s' = gt_inbox g;
  gs_actions : au_actions s' = gt_action_inbox g;
  gs_ledger : au_ledger s' = gt_ledger g;
  gs_reliable : au_reliable s' = (admitted_requests s).1.2;
  gs_faults : au_faults s' = au_faults s ++ map (fun c => (c, ReliableControlOverflow)) (overflowed_clients (au_reliable s))
      ++ map (fun c => (c, ActionQueueOverflow)) (elements (ai_overflowed (au_actions s)))
      ++ map (fun f => (f.1, InputBacklog f.2)) (ga_faults (take_for_tick (au_inbox s) (ck_time_ms (au_clock s))).2);
}.

Lemma mark_keeps now inbox (rows : list (Z * ClientAction)) :
  ai_received (foldl (fun s row => mark_dispatched now s row.1 (action_request_id row.2)) inbox rows) = ai_received inbox.
Proof.
  induction rows as [|row rows IH] in inbox |- *; [done|]. cbn [foldl]. rewrite IH. unfold mark_dispatched.
  by destruct (existsb _ _).
Qed.

Lemma mark_pending now inbox (rows : list (Z * ClientAction)) :
  ai_pending (foldl (fun s row => mark_dispatched now s row.1 (action_request_id row.2)) inbox rows) = ai_pending inbox.
Proof.
  induction rows as [|row rows IH] in inbox |- *; [done|]. cbn [foldl]. rewrite IH. unfold mark_dispatched.
  by destruct (existsb _ _).
Qed.

Lemma gather_parts now local s :
  gathered_as s (gather_authority_input now local s)
    (foldl cut_off (before_faults now local s) (map fst (au_faults (gather_authority_input now local s)))).
Proof.
  unfold before_faults, admitted_requests, gather_authority_input, gather_actions, take_overflowed.
  cbn [fst snd ai_pending ai_received].
  destruct (foldl admit_request _ _) as [[ledger hub] actions] eqn:Er.
  destruct (take_for_tick _ _) as [inbox gathered] eqn:Et. cbn [fst snd].
  split; try reflexivity.
  - unfold admitted_requests. by rewrite Er.
  - rewrite Et. cbn [au_faults snd]. by rewrite <- !app_assoc.
Qed.

(** What one client contributes to a frame, and what the host keeps of it. *)
Definition share_of (client time request : Z) (s : Authority) (input : TickInput) : Share :=
  mkShare (cmds_for client (ti_cmds input)) (mine client (au_acks s)) (mine client (ti_actions input))
    (au_samples s !! (client, time))
    (ib_queued (au_inbox s) !! client) (ib_last_consumed (au_inbox s) !! client)
    (ib_last_acked (au_inbox s) !! client) (ib_blocked_head (au_inbox s) !! client)
    (mine client (ai_pending (au_actions s))) (mine client (ai_received (au_actions s)))
    (ai_started (au_actions s) !! (client, request)) (bool_decide (client ∈ ai_overflowed (au_actions s)))
    (le_clients (au_ledger s) !! client).

Lemma gathered_share now local s input client time request :
  au_pending (gather_authority_input now local s) = Some input ->
  share_of client time request (gather_authority_input now local s) input =
    if bool_decide (client ∈ map fst (au_faults (gather_authority_input now local s)))
    then no_share else share client time request (before_faults now local s).
Proof.
  destruct (gather_parts now local s) as [Hp Ha Hs Hi Hai Hl _ _]. rewrite Hp. intros [= <-].
  rewrite <- cut_off_shares. unfold share_of, share. cbn [ti_cmds ti_actions]. by rewrite Ha, Hs, Hi, Hai, Hl.
Qed.

(** A connection in fault contributes nothing to the frame, no command, acknowledgement,
    request or shot sample, and the host keeps nothing of it: not its queued commands, not its
    requests, not its verdicts.  Every other client contributes exactly the commands and
    acknowledgements its own queue yields, except the local player while it is not armed. *)
Theorem gather_isolates_faults now local s input client time request :
  let s' := gather_authority_input now local s in
  let taken := take_for_tick (au_inbox s) (ck_time_ms (au_clock s)) in
  let held := negb (au_local_cmds_enabled s) && bool_decide (local = Some client) in
  au_pending s' = Some input ->
  (client ∈ map fst (au_faults s') <->
     client ∈ map fst (au_faults s) \/ overflowed (au_reliable s) client = true \/
     client ∈ ai_overflowed (au_actions s) \/ client ∈ map fst (ga_faults taken.2)) /\
  (client ∈ map fst (au_faults s') -> share_of client time request s' input = no_share) /\
  (client ∉ map fst (au_faults s') ->
     let mine' := share_of client time request s' input in
     sh_cmds mine' = (if held then [] else cmds_for client (ga_cmds taken.2)) /\
     sh_acks mine' = (if held then [] else mine client (ga_acks taken.2)) /\
     sh_queue mine' = ib_queued taken.1 !! client /\ sh_acked mine' = ib_last_acked taken.1 !! client /\
     sh_waiting mine' = mine client (ai_pending (au_actions s)) /\ sh_received mine' = []).
Proof.
  intros s' taken held Hinput. split; [|split].
  - unfold s'. rewrite (gs_faults _ _ _ (gather_parts now local s)). fold taken.
    rewrite !map_app, !elem_of_app, !map_map. cbn [fst]. rewrite !map_id, elem_of_elements. unfold overflowed_clients.
    rewrite list_elem_of_filter. split.
    + intros [|[[? _]|[|]]]; auto.
    + intros [|[Ho|[|]]]; auto. right. left. split; [done|]. unfold overflowed in Ho.
      destruct (au_reliable s !! client) as [q|] eqn:Eq; [|done]. apply list_elem_of_fmap.
      exists (client, q). split; [done|].
      by apply (elem_of_map_to_list (M := gmap Z) (au_reliable s)).
  - intros Hin. unfold s'. rewrite (gathered_share _ _ _ _ _ _ _ Hinput). by rewrite bool_decide_eq_true_2.
  - intros Hout. unfold s'. rewrite (gathered_share _ _ _ _ _ _ _ Hinput), bool_decide_eq_false_2 by done.
    unfold before_faults, share, hold_local, gather_actions, take_overflowed, held. fold taken.
    destruct local as [id|]; [destruct (au_local_cmds_enabled s)|];
      cbn [gt_cmds gt_acks gt_inbox gt_action_inbox sh_cmds sh_acks sh_queue sh_acked sh_waiting sh_received
           fst snd ai_pending ai_received negb andb];
      rewrite ?mark_pending; cbn [ai_pending];
      try (rewrite bool_decide_eq_false_2 by done); rewrite ?andb_false_r; auto 10.
    rewrite (bool_decide_ext (Some id = Some client) (id = client)) by (split; congruence).
    whose id client; rewrite ?cmds_gone, ?mine_gone, ?cmds_kept, ?mine_kept by done; auto 10.
Qed.

(** A listening host: its local player is client 0, client 3 has overrun its action queue. *)
Definition demo_authority : Authority :=
  mkAuthority (mkClock 4 200) inbox_default
    (mkActionInbox [(0, ActJoinMatch 5)] ∅ [(3, ActJoinMatch 7); (4, ActLeaveMatch 2)] {[3]})
    ledger_default ∅ request_ids_default [] ∅ None [] None [0; 3; 4] true.

(** The input staged for the simulation. *)
Definition input_of (s : Authority) : TickInput := default (mkTickInput [] [] []) (au_pending s).

Lemma gather_isolates_faults_witness :
  let s' := gather_authority_input 9 (Some 0) demo_authority in
  au_pending s' = Some (input_of s') /\
  share_of 3 0 7 s' (input_of s') = no_share /\
  sh_waiting (share_of 0 0 5 s' (input_of s')) = [(0, ActJoinMatch 5)].
Proof.
  cbv zeta.
  assert (Hp : au_pending (gather_authority_input 9 (Some 0) demo_authority) =
            Some (input_of (gather_authority_input 9 (Some 0) demo_authority))) by reflexivity.
  split; [exact Hp|]. split.
  - destruct (gather_isolates_faults 9 (Some 0) demo_authority _ 3 0 7 Hp) as (Hf & Hin & _).
    apply Hin, Hf. right. right. left. cbn. set_solver.
  - destruct (gather_isolates_faults 9 (Some 0) demo_authority _ 0 0 5 Hp) as (Hf & _ & Hout).
    apply Hout. rewrite Hf. vm_compute. intros [H|[H|[H|H]]]; [by inversion H|done|done|by inversion H].
Defined.

(** ** The requests of a client over a match *)

Inductive AuthorityOp : Type :=
| AoCommand (client : Z) (seq : option Z) (cmd : UserCmd) (sample : option ShotSampleProvenance)
| AoPeerAction (client : Z) (action : ClientAction)
| AoLocalAction (client : Z) (action : ClientAction)
| AoAck (client through : Z)
| AoAdvance
| AoArm (enabled : bool)
| AoGather (now : Z) (local : option Z)
| AoStep
| AoPublish (step : option ServerTickData)
| AoFault (client : Z) (reason : FaultReason)
| AoApplyFaults
| AoRetireDeparted
| AoRelease.

(** What reaches the authority between its systems: the connections, the local player. *)
Definition with_ingress (s : Authority) (inbox : ClientCommandInbox) (actions : ClientActionInbox)
    (hub : Hub WireRow) (faults : list (Z * FaultReason)) (enabled : bool) : Authority :=
  mkAuthority (au_clock s) inbox actions (au_ledger s) hub (au_request_ids s) faults (au_samples s)
    (au_pending s) (au_acks s) (au_server_tick s) (au_roster s) enabled.

Definition authority_op (s : Authority) (op : AuthorityOp) : Authority :=
  let ingress inbox actions hub faults enabled := with_ingress s inbox actions hub faults enabled in
  match op with
  | AoCommand client seq cmd sample =>
      ingress (inbox_push (au_inbox s) client seq cmd sample) (au_actions s) (au_reliable s) (au_faults s)
        (au_local_cmds_enabled s)
  | AoPeerAction client action =>
      ingress (au_inbox s) (push_from_peer (au_actions s) client action) (au_reliable s) (au_faults s)
        (au_local_cmds_enabled s)
  | AoLocalAction client action =>
      ingress (au_inbox s) (action_push (au_actions s) client action).1 (au_reliable s) (au_faults s)
        (au_local_cmds_enabled s)
  | AoAck client through =>
      ingress (au_inbox s) (au_actions s) (hub_ack (au_reliable s) client through) (au_faults s)
        (au_local_cmds_enabled s)
  | AoAdvance => advance_authority_clock s
  | AoArm enabled => ingress (au_inbox s) (au_actions s) (au_reliable s) (au_faults s) enabled
  | AoGather now local => gather_authority_input now local s
  | AoStep => (take_input s).1
  | AoPublish step => publish_server_tick step s
  | AoFault client reason =>
      ingress (au_inbox s) (au_actions s) (au_reliable s) (au_faults s ++ [(client, reason)])
        (au_local_cmds_enabled s)
  | AoApplyFaults => (apply_connection_faults s).1
  | AoRetireDeparted => retire_departed_peers s
  | AoRelease => release_authority s
  end.

(** The ids of the client's requests handed to the simulation, since the client was last cut off
    or retired or the match released. *)
Definition served_after (client : Z) (s s' : Authority) (served : list Z) (op : AuthorityOp) : list Z :=
  match op with
  | AoGather _ _ =>
      if bool_decide (client ∈ map fst (au_faults s')) then []
      else served ++ ids_of client (match au_pending s' with Some input => ti_actions input | None => [] end)
  | AoRetireDeparted =>
      match au_server_tick s with
      | Some tick => if bool_decide (client ∈ departed s tick) then [] else served
      | None => served
      end
  | AoRelease => []
  | _ => served
  end.

Definition authority_run (client : Z) (ops : list AuthorityOp) : Authority * list Z :=
  foldl (fun st op => let s' := authority_op st.1 op in (s', served_after client st.1 s' st.2 op))
    (authority_default, []) ops.

Definition served_inv (client : Z) (s : Authority) (served : list Z) : Prop :=
  exists h, ledger_inv client (au_ledger s) h /\ hi_granted h = served.

(** A client the ledger knows nothing of. *)
Lemma served_new client s : le_clients (au_ledger s) !! client = None -> served_inv client s [].
Proof.
  intros Hl. exists history_new. split; [|done]. unfold ledger_inv, client_memory. rewrite Hl. apply memory_ok_new.
Qed.

Lemma served_memory client s s' served :
  le_clients (au_ledger s') !! client = le_clients (au_ledger s) !! client ->
  served_inv client s served -> served_inv client s' served.
Proof. intros Hl (h & Hh & Hg). exists h. split; [|done]. unfold ledger_inv, client_memory in *. by rewrite Hl. Qed.

Lemma gather_served client now local s served :
  served_inv client s served ->
  let s' := gather_authority_input now local s in
  served_inv client s' (served_after client s s' served (AoGather now local)).
Proof.
  intros (h & Hh & Hg) s'. cbn [served_after]. pose proof (gather_parts now local s) as Hparts. fold s' in Hparts.
  assert (Hshare := cut_off_shares client 0 0 (map fst (au_faults s')) (before_faults now local s)).
  case_bool_decide as Hf.
  - apply served_new. rewrite (gs_ledger _ _ _ Hparts). by apply (f_equal sh_memory) in Hshare.
  - destruct (admit_requests_granted client served (ai_pending (au_actions s) ++ ai_received (au_actions s))
                (au_ledger s, au_reliable s, [])) as (h' & Hh' & Hg').
    { exists h. split; [done|]. cbn [fst snd]. unfold ids_of, mine. cbn. by rewrite app_nil_r. }
    exists h'. destruct (before_faults_admitted now local s) as [Hba Hbl]. split.
    + unfold ledger_inv, client_memory. rewrite (gs_ledger _ _ _ Hparts).
      apply (f_equal sh_memory) in Hshare. cbn [share sh_memory] in Hshare. rewrite Hshare, Hbl. exact Hh'.
    + rewrite Hg', (gs_pending _ _ _ Hparts). cbn [ti_actions]. f_equal. unfold ids_of. f_equal.
      apply (f_equal sh_actions) in Hshare. cbn [share sh_actions] in Hshare. by rewrite Hshare, Hba.
Qed.

Lemma publish_served client step s served :
  served_inv client s served -> served_inv client (publish_server_tick step s) served.
Proof.
  intros Hs. destruct step as [tick|]; [|done]. cbn [publish_server_tick].
  destruct Hs as (h & Hh & Hg). unfold record_action_outcomes.
  assert (Hgen : forall results st, (exists h, ledger_inv client st.1.1 h /\ hi_granted h = served) ->
            exists h, ledger_inv client (foldl record_outcome st results).1.1 h /\ hi_granted h = served).
  { induction results as [|r results IH]; intros [[ledger hub] inbox] (h0 & Hh0 & Hg0); [by exists h0|].
    cbn [foldl]. apply IH. cbn [record_outcome fst snd] in *.
    set (verdict := outcome_verdict (ar_outcome r)).
    exists (history_op client h0 (OpRecord (ar_client r) (ar_action r) verdict) None). split.
    - apply (ledger_op_inv client ledger h0 (OpRecord (ar_client r) (ar_action r) verdict) Hh0).
    - cbn [history_op]. by destruct (bool_decide _). }
  specialize (Hgen (td_action_results tick) (au_ledger s, au_reliable s, au_actions s)).
  destruct (foldl record_outcome _ _) as [[ledger hub] inbox]. apply Hgen. by exists h.
Qed.

Lemma departed_memory client s clients :
  le_clients (au_ledger (foldl retire_departed s clients)) !! client =
    if bool_decide (client ∈ clients) then None else le_clients (au_ledger s) !! client.
Proof.
  induction clients as [|c clients IH] in s |- *; [done|]. cbn [foldl]. rewrite IH.
  destruct (decide (client ∈ clients)).
  - rewrite !bool_decide_eq_true_2 by (done || (right; done)). done.
  - rewrite (bool_decide_eq_false_2 (client ∈ clients)) by done. cbn [retire_departed au_ledger ledger_retire_client le_clients].
    rewrite (bool_decide_ext (client ∈ c :: clients) (c = client)).
    + whose c client; [by rewrite lookup_delete_eq|by rewrite lookup_delete_ne].
    + rewrite elem_of_cons. split; [by intros [|]|by left].
Qed.

Lemma authority_op_served client s served op :
  served_inv client s served ->
  served_inv client (authority_op s op) (served_after client s (authority_op s op) served op).
Proof.
  intros Hs. destruct op as [c seq cmd sample|c a|c a|c t| |e|now local| |step|c r| | |];
    cbn [authority_op]; try (by apply (served_memory client s)).
  - by apply gather_served.
  - by apply publish_served.
  - cbn [served_after]. unfold retire_departed_peers. destruct (au_server_tick s) as [tick|]; [|done].
    pose proof (departed_memory client s (departed s tick)) as Hd. case_bool_decide as Hin.
    + apply served_new. exact Hd.
    + by apply (served_memory client s).
  - cbn [served_after]. apply served_new. cbn [release_authority open_new_scope au_ledger open_scope le_clients].
    apply lookup_empty.
Qed.

(** C27. The simulation sees a request once.  Over any sequence of arriving commands, requests and
    acknowledgements, of ticks, faults, departures and releases, and whatever the simulation
    answers, the requests of a client handed to the simulation have distinct ids, counted since
    the client was last cut off or retired or the match released. *)
Theorem simulation_sees_request_once client ops : NoDup (authority_run client ops).2.
Proof.
  assert (Hinv : forall ops st, served_inv client st.1 st.2 ->
            let st' := foldl (fun st op => let s' := authority_op st.1 op in
                                (s', served_after client st.1 s' st.2 op)) st ops in
            served_inv client st'.1 st'.2).
  { induction ops0 as [|op ops0 IH]; intros st Hst; [done|]. cbn [foldl]. by apply IH, authority_op_served. }
  destruct (Hinv ops (authority_default, [])) as (h & Hh & Hserved); [by apply served_new|].
  change (hi_granted h = (authority_run client ops).2) in Hserved. rewrite <- Hserved. apply (mo_once _ _ Hh).
Qed.

(** ** What a published tick queues *)

(** [a] is heard by [client]. *)
Definition hears (a : EventAudience) (client : Z) : Prop :=
  match a with
  | AudienceAll => True
  | AudienceAllExcept excluded => client <> excluded
  | AudienceClient c => client = c
  | AudienceClients cs => client ∈ cs
  end.

#[export] Instance hears_dec a client : Decision (hears a client).
Proof. destruct a; cbn; apply _. Defined.

Lemma projects_hears a client : projects_to a client = true <-> hears a client.
Proof.
  destruct a as [|x|c|cs]; cbn [projects_to hears].
  - done.
  - rewrite negb_true_iff, Z.eqb_neq. naive_solver.
  - rewrite Z.eqb_eq. naive_solver.
  - rewrite existsb_exists. setoid_rewrite Z.eqb_eq. setoid_rewrite list_elem_of_In. naive_solver.
Qed.

(** The rows of a client: events it hears, but for the one a client knows itself, and the results
    of its own shots in batches. *)
Definition event_rows (client : Z) (journal : list EventRecord) : list WireRow :=
  map (fun record => RowEvent (er_event record))
    (filter (fun record => er_event record <> EvAttackReleased /\ hears (er_audience record) client) journal).

Definition own_results (client : Z) (results : list FireCommandResult) : list FireCommandResult :=
  filter (fun r => fc_client r = client) results.

Lemma event_reliable event : sim_event_is_reliable event = negb (bool_decide (event = EvAttackReleased)).
Proof. destruct event; vm_compute; reflexivity. Qed.

Lemma queue_event_rows hub clients record client :
  NoDup clients ->
  hub_queue (queue_event clients hub record) client =
    if bool_decide (client ∈ clients)
    then foldl push_row (hub_queue hub client) (event_rows client [record]) else hub_queue hub client.
Proof.
  intros Hnd. unfold queue_event, event_rows. rewrite event_reliable, filter_cons, filter_nil.
  destruct (decide (er_event record = EvAttackReleased)) as [Hrel|Hrel].
  { rewrite (bool_decide_eq_true_2 (er_event record = _)), decide_False by (done || by intros [? _]).
    cbn [map foldl negb]. by case_bool_decide. }
  rewrite (bool_decide_eq_false_2 (er_event record = _)) by done. cbn [negb].
  set (f := fun hub c => if projects_to (er_audience record) c
                         then (hub_push hub c (RowEvent (er_event record))).1 else hub).
  assert (Hstep : forall hub c, hub_queue (f hub c) client =
            if bool_decide (c = client /\ hears (er_audience record) client)
            then push_row (hub_queue hub client) (RowEvent (er_event record)) else hub_queue hub client).
  { intros hub' c. unfold f. destruct (projects_to (er_audience record) c) eqn:Ep.
    - rewrite hub_push_queue. whose c client.
      + rewrite bool_decide_eq_true_2 by (split; [done|by apply projects_hears]). done.
      + rewrite bool_decide_eq_false_2 by (intros [? _]; done). done.
    - rewrite bool_decide_eq_false_2; [done|]. intros [-> Hh%projects_hears]. congruence. }
  revert hub. induction Hnd as [|c clients Hout _ IH]; intros hub; [done|]. cbn [foldl]. rewrite IH, Hstep. clear IH.
  destruct (decide (c = client)) as [->|Hne].
  - rewrite (bool_decide_eq_false_2 (client ∈ clients)), (bool_decide_eq_true_2 (client ∈ _ :: _)) by (done || by left).
    destruct (decide (hears (er_audience record) client)) as [Hh|Hh].
    + rewrite bool_decide_eq_true_2, decide_True by done. done.
    + rewrite bool_decide_eq_false_2, decide_False by (intros [_ ?]; done). done.
  - rewrite (bool_decide_eq_false_2 (c = client /\ _)) by (intros [? _]; done).
    rewrite (bool_decide_ext (client ∈ c :: clients) (client ∈ clients)) by (rewrite elem_of_cons; split; [intros [->|]; done|by right]). done.
Qed.

Lemma queue_events_rows hub clients journal client :
  NoDup clients ->
  hub_queue (foldl (queue_event clients) hub journal) client =
    if bool_decide (client ∈ clients)
    then foldl push_row (hub_queue hub client) (event_rows client journal) else hub_queue hub client.
Proof.
  intros Hnd. induction journal as [|record journal IH] in hub |- *; cbn [foldl].
  { by case_bool_decide. }
  rewrite IH, queue_event_rows by done. case_bool_decide; [|done]. rewrite <- foldl_app. f_equal.
  unfold event_rows. by rewrite <- map_app, <- list.filter_app.
Qed.

(** ** Fire results by client *)

Abbreviation ByClient := (list (Z * list FireCommandResult)).

Fixpoint results_in (client : Z) (l : ByClient) : list FireCommandResult :=
  match l with
  | [] => []
  | (c, results) :: rest => if bool_decide (c = client) then results else results_in client rest
  end.

Lemma results_in_none client (l : ByClient) : client ∉ map fst l -> results_in client l = [].
Proof.
  induction l as [|[c results] l IH]; [done|]. cbn [map fst results_in]. rewrite not_elem_of_cons.
  intros [Hne Hout]. rewrite bool_decide_eq_false_2 by congruence. auto.
Qed.

Lemma add_result_keys (l : ByClient) r c : c ∈ map fst (add_result l r) <-> c = fc_client r \/ c ∈ map fst l.
Proof.
  induction l as [|[c0 results] l IH]; cbn [add_result map fst].
  - rewrite list_elem_of_singleton. split; [by left|]. by intros [|?%not_elem_of_nil].
  - destruct (Z.ltb_spec (fc_client r) c0); [cbn [map fst]; rewrite !elem_of_cons; tauto|].
    destruct (Z.eqb_spec (fc_client r) c0) as [->|]; cbn [map fst]; rewrite ?elem_of_cons; [tauto|].
    rewrite IH. tauto.
Qed.

Lemma add_result_spec (l : ByClient) r :
  StronglySorted Z.lt (map fst l) ->
  StronglySorted Z.lt (map fst (add_result l r)) /\
  forall client, results_in client (add_result l r) =
    if bool_decide (fc_client r = client) then results_in client l ++ [r] else results_in client l.
Proof.
  induction l as [|[c results] l IH]; intros Hs; cbn [add_result].
  { split; [by repeat constructor|]. intros client. cbn [results_in]. by case_bool_decide. }
  cbn [map fst] in Hs. apply StronglySorted_inv in Hs as [Hs Hall]. rewrite list.Forall_forall in Hall.
  destruct (Z.ltb_spec (fc_client r) c) as [Hlt|Hge]; [|destruct (Z.eqb_spec (fc_client r) c) as [Heq|Hne]].
  - split.
    + cbn [map fst]. constructor; [by constructor; [|apply list.Forall_forall]|].
      constructor; [done|]. apply list.Forall_forall. intros x Hx. specialize (Hall x Hx). lia.
    + intros client. cbn [results_in]. destruct (decide (fc_client r = client)) as [<-|?].
      2: by rewrite (bool_decide_eq_false_2 (fc_client r = client)).
      rewrite (bool_decide_eq_true_2 (fc_client r = _)), (bool_decide_eq_false_2 (c = _)) by lia. rewrite results_in_none; [done|]. intros Hin. specialize (Hall _ Hin). lia.
  - split; [by constructor; [|apply list.Forall_forall]|].
    intros client. cbn [results_in]. rewrite Heq. by case_bool_decide.
  - destruct (IH Hs) as [Hs' Hres]. split.
    + cbn [map fst]. constructor; [done|]. apply list.Forall_forall. intros x Hx.
      apply add_result_keys in Hx as [->|Hx]; [lia|by apply Hall].
    + intros client. cbn [results_in]. rewrite Hres. whose c client; [|done].
      by rewrite bool_decide_eq_false_2.
Qed.

Lemma fire_by_client_spec results :
  StronglySorted Z.lt (map fst (fire_by_client results)) /\
  forall client, results_in client (fire_by_client results) = own_results client results.
Proof.
  unfold fire_by_client, own_results. induction results as [|r results [Hs Hres]] using rev_ind.
  { split; [constructor|done]. }
  rewrite foldl_snoc. destruct (add_result_spec _ r Hs) as [Hs' Hres']. split; [done|]. intros client.
  rewrite Hres', Hres, list.filter_app, filter_cons, filter_nil. whose (fc_client r) client; [done|].
  by rewrite app_nil_r.
Qed.

Lemma push_batches_queue hub c batches client :
  hub_queue (foldl (fun hub batch => (hub_push hub c (RowFireCommands batch)).1) hub batches) client =
    if bool_decide (c = client) then foldl push_row (hub_queue hub client) (map RowFireCommands batches)
    else hub_queue hub client.
Proof.
  induction batches as [|b batches IH] in hub |- *; cbn [foldl map]; [by case_bool_decide|].
  rewrite IH, hub_push_queue. by whose c client.
Qed.

Lemma queue_fire_rows hub tick client :
  hub_queue (queue_fire_results hub tick) client =
    foldl push_row (hub_queue hub client)
      (map RowFireCommands (fire_batches (own_results client (td_fire_results tick)))).
Proof.
  unfold queue_fire_results. destruct (fire_by_client_spec (td_fire_results tick)) as [Hs Hres]. rewrite <- Hres. clear Hres.
  revert hub Hs. generalize (fire_by_client (td_fire_results tick)) as l. induction l as [|[c results] l IH]; intros hub Hs.
  { done. }
  cbn [map fst] in Hs. apply StronglySorted_inv in Hs as [Hs Hall]. rewrite list.Forall_forall in Hall.
  cbn [foldl fst snd results_in]. rewrite IH, push_batches_queue by done. whose c client; [|done].
  rewrite results_in_none; [done|]. intros Hin. specialize (Hall _ Hin). lia.
Qed.

(** Chunks: nothing is lost, none is empty, none too long. *)
Lemma chunk_rows_spec {A} (n : nat) (l : list A) fuel :
  (0 < n)%nat -> (length l <= fuel)%nat ->
  concat (chunk_rows fuel n l) = l /\
  Forall (fun chunk => chunk <> [] /\ (length chunk <= n)%nat) (chunk_rows fuel n l).
Proof.
  intros Hn. induction fuel as [|fuel IH] in l |- *; intros Hl.
  { destruct l; [|cbn in Hl; lia]. by split. }
  destruct l as [|x l]; [by split|]. cbn [chunk_rows concat].
  destruct (IH (drop n (x :: l))) as [Hc Hf]; [rewrite length_drop; cbn [length] in *; lia|].
  split; [by rewrite Hc, take_drop|]. constructor; [|done]. split; [destruct n; [lia|done]|].
  rewrite length_take. lia.
Qed.

(** ** Outcomes *)

Definition outcome_row (r : ActionResult) : WireRow :=
  RowActionOutcome (action_request_id (ar_action r)) (outcome_verdict (ar_outcome r)).

Definition outcome_rows (client : Z) (results : list ActionResult) : list WireRow :=
  map outcome_row (filter (fun r => ar_client r = client) results).

Lemma record_outcomes_queue results st client :
  hub_queue (foldl record_outcome st results).1.2 client =
    foldl push_outcome_row (hub_queue st.1.2 client) (outcome_rows client results).
Proof.
  unfold outcome_rows. induction results as [|r results IH] in st |- *; [done|]. destruct st as [[ledger hub] inbox].
  cbn [foldl]. rewrite IH, filter_cons. cbn [record_outcome fst snd]. rewrite hub_outcome_queue.
  destruct (decide (ar_client r = client)) as [<-|?].
  - by rewrite bool_decide_eq_true_2 by done.
  - by rewrite bool_decide_eq_false_2 by done.
Qed.

(** A result settles its request: it runs no longer, nothing of it waits locally. *)
Definition settled (client r : Z) (st : ClientActionLedger * Hub WireRow * ClientActionInbox) : Prop :=
  me_admitted (client_memory st.1.1 client) !! r = None /\
  existsb (is_request client r) (ai_pending st.2) = false.

Lemma forget_admitted fuel m : me_admitted (forget_loop fuel m) = me_admitted m.
Proof.
  induction fuel as [|fuel IH] in m |- *; [done|]. cbn [forget_loop].
  destruct (_ <? _); [|done]. destruct (first_key _); [|done]. by rewrite IH.
Qed.

Lemma settled_step client r st result :
  settled client r st \/ ar_client result = client /\ action_request_id (ar_action result) = r ->
  settled client r (record_outcome st result).
Proof.
  destruct st as [[ledger hub] inbox]. unfold settled. cbn [record_outcome fst snd].
  unfold record_action. fold (client_memory ledger (ar_client result)). rewrite client_memory_set.
  intros Hold. split.
  - destruct (decide (ar_client result = client)) as [Hc|Hc].
    + rewrite bool_decide_eq_true_2 by done. unfold memory_record. rewrite forget_admitted. cbn [me_admitted].
      apply lookup_delete_None. destruct Hold as [[Ha _]|[_ Hr]]; [right; by rewrite Hc|by left].
    + rewrite bool_decide_eq_false_2 by done. by destruct Hold as [[]|[]].
  - unfold action_retire. cbn [fst ai_pending]. apply existsb_false_intro. intros [c a] Hin.
    apply list_elem_of_filter in Hin as [Hkeep Hin]. destruct Hold as [[_ Hp]|[<- <-]].
    + by apply (existsb_false_elim _ _ Hp).
    + by apply negb_true_iff in Hkeep.
Qed.

Lemma record_outcomes_settled results client r st :
  settled client r st \/ Exists (fun result => ar_client result = client /\ action_request_id (ar_action result) = r) results ->
  settled client r (foldl record_outcome st results).
Proof.
  induction results as [|result results IH] in st |- *; intros Hr; cbn [foldl].
  { destruct Hr as [|Hr]; [done|by inversion Hr]. }
  apply IH. destruct Hr as [Hr|Hr]; [left; apply settled_step; by left|].
  apply List.Exists_cons in Hr as [Hr|Hr]; [left; apply settled_step; by right|by right].
Qed.

Lemma outcomes_wait q rows row :
  0 <= q_dropped_oldest q -> row ∈ rows -> waits_or_dropped (foldl push_outcome_row q rows) row.
Proof.
  intros Hd (before & after & ->)%list_elem_of_split. rewrite foldl_app. cbn [foldl].
  eapply waits_grow; [apply (foldl_grows id); apply push_outcome_grows|]. apply outcome_waits.
  revert Hd. apply (foldl_grows id). apply push_outcome_grows.
Qed.

(** C29. A published tick queues for each client exactly its own rows and in order: the outcomes of
    its requests (one already waiting is not queued twice), then, if it is on the roster, the
    events of the journal it hears except its own trigger release, then the results of its shots,
    every one of them, in batches the wire accepts. *)
Theorem published_rows s tick client :
  NoDup (td_clients tick) ->
  exists batches,
    hub_queue (au_reliable (publish_server_tick (Some tick) s)) client =
      foldl push_row
        (foldl push_outcome_row (hub_queue (au_reliable s) client) (outcome_rows client (td_action_results tick)))
        ((if bool_decide (client ∈ td_clients tick) then event_rows client (td_journal tick) else []) ++
         map RowFireCommands batches) /\
    concat batches = own_results client (td_fire_results tick) /\
    Forall (fun batch => batch <> [] /\ is_Some (encode_row (RowFireCommands batch))) batches.
Proof.
  intros Hnd. exists (fire_batches (own_results client (td_fire_results tick))). split; [|].
  - cbn [publish_server_tick]. unfold record_action_outcomes.
    pose proof (record_outcomes_queue (td_action_results tick) (au_ledger s, au_reliable s, au_actions s) client) as Ho.
    destruct (foldl record_outcome _ _) as [[ledger hub] inbox]. cbn [fst snd au_reliable] in *.
    rewrite queue_fire_rows. unfold queue_reliable_events. rewrite queue_events_rows, Ho, foldl_app by done.
    by case_bool_decide.
  - unfold fire_batches. set (results := own_results client (td_fire_results tick)).
    destruct (chunk_rows_spec (Z.to_nat MAX_FIRE_RESULTS) results (length results)) as [Hc Hf]; [by vm_compute; lia|done|].
    split; [done|]. apply (list.Forall_impl _ _ _ Hf). intros batch [Hne Hlen]. split; [done|].
    cbn [encode_row]. unfold encode_fire_results. rewrite (proj2 (Z.leb_le _ _)); [by eexists|].
    unfold zlen. change (Z.to_nat MAX_FIRE_RESULTS) with 64%nat in Hlen. unfold MAX_FIRE_RESULTS. lia.
Qed.

Definition demo_tick : ServerTickData :=
  mkTickData [0; 3] [mkEventRecord 1 9 (AudienceAllExcept 3) (EvMatchEnded TimeLimit)]
    [mkActionResult 3 (ActJoinMatch 7) OutApplied] [mkFireResult 3 (Some 8) 41 (Executed None None)].

Lemma published_rows_witness :
  NoDup (td_clients demo_tick) /\
  exists batches,
    concat batches = own_results 3 (td_fire_results demo_tick) /\
    Forall (fun batch => batch <> [] /\ is_Some (encode_row (RowFireCommands batch))) batches.
Proof.
  assert (Hnd : NoDup (td_clients demo_tick)) by (apply (bool_decide_unpack _); vm_compute; exact I).
  split; [exact Hnd|]. destruct (published_rows demo_authority demo_tick 3 Hnd) as (batches & _ & Hc & Hf).
  exists batches. exact (conj Hc Hf).
Defined.

(** A result the simulation returns settles its request in the tick that is published: the
    request no longer counts as running, nothing of it waits locally to be sent again, and its
    outcome waits in the client's reliable queue, unless that has dropped a row. *)
Theorem result_settles_request s tick result :
  NoDup (td_clients tick) -> result ∈ td_action_results tick ->
  0 <= q_dropped_oldest (hub_queue (au_reliable s) (ar_client result)) ->
  let s' := publish_server_tick (Some tick) s in
  let r := action_request_id (ar_action result) in
  me_admitted (client_memory (au_ledger s') (ar_client result)) !! r = None /\
  (forall action, (ar_client result, action) ∈ ai_pending (au_actions s') -> action_request_id action <> r) /\
  waits_or_dropped (hub_queue (au_reliable s') (ar_client result)) (outcome_row result).
Proof.
  intros Hnd Hin Hd s' r.
  assert (Hset : settled (ar_client result) r (record_action_outcomes (au_ledger s, au_reliable s, au_actions s) tick)).
  { apply record_outcomes_settled. right. apply list.Exists_exists. by exists result. }
  pose proof (record_outcomes_queue (td_action_results tick) (au_ledger s, au_reliable s, au_actions s)
                (ar_client result)) as Ho.
  unfold s', publish_server_tick. unfold record_action_outcomes in Hset |- *.
  destruct (foldl record_outcome _ _) as [[ledger hub] inbox]. destruct Hset as [Ha Hp].
  cbn [fst snd au_ledger au_actions au_reliable] in *. split; [done|]. split.
  - intros action Hact Hr. pose proof (existsb_false_elim _ _ Hp _ Hact) as Hf. unfold is_request in Hf. cbn [fst snd] in Hf.
    by rewrite Hr, !Z.eqb_refl in Hf.
  - rewrite queue_fire_rows. unfold queue_reliable_events. rewrite queue_events_rows, Ho by done.
    eapply waits_grow; [apply (foldl_grows id), push_row_grows|].
    assert (Hw : waits_or_dropped (foldl push_outcome_row (hub_queue (au_reliable s) (ar_client result))
               (outcome_rows (ar_client result) (td_action_results tick))) (outcome_row result)).
    { apply outcomes_wait; [done|]. unfold outcome_rows. apply list_elem_of_fmap. exists result. split; [done|].
      by apply list_elem_of_filter. }
    case_bool_decide; [|done]. eapply waits_grow; [apply (foldl_grows id), push_row_grows|done].
Qed.

Lemma result_settles_request_witness :
  NoDup (td_clients demo_tick) /\ mkActionResult 3 (ActJoinMatch 7) OutApplied ∈ td_action_results demo_tick /\
  waits_or_dropped (hub_queue (au_reliable (publish_server_tick (Some demo_tick) demo_authority)) 3)
    (RowActionOutcome 7 Applied).
Proof.
  assert (Hnd : NoDup (td_clients demo_tick)) by (apply (bool_decide_unpack _); vm_compute; exact I).
  assert (Hin : mkActionResult 3 (ActJoinMatch 7) OutApplied ∈ td_action_results demo_tick) by (cbn; set_solver).
  split; [exact Hnd|]. split; [exact Hin|].
  apply (result_settles_request demo_authority demo_tick (mkActionResult 3 (ActJoinMatch 7) OutApplied) Hnd Hin).
  by vm_compute.
Defined.

(** ** Departures *)

Lemma retire_share client time request s c :
  share_of client time request (retire_departed s c) (input_of (retire_departed s c)) =
    if bool_decide (c = client) then no_share else share_of client time request s (input_of s).
Proof.
  unfold share_of, input_of, retire_departed, inbox_retire_client, action_retire_client, ledger_retire_client, no_share.
  cbn [au_acks au_samples au_inbox au_actions au_ledger au_pending ib_queued ib_last_consumed
    ib_last_acked ib_blocked_head ai_pending ai_received ai_started ai_overflowed le_clients].
  assert (Hin : cmds_for client (ti_cmds (default (mkTickInput [] [] [])
      match au_pending s with
      | Some input => Some (mkTickInput (without_cmds (fun id => id =? c) (ti_cmds input))
            (without_rows (fun id => id =? c) (ti_actions input)) (ti_shot_samples input))
      | None => None end)) =
      cmds_for client (without_cmds (fun id => id =? c) (ti_cmds (default (mkTickInput [] [] []) (au_pending s)))) /\
    mine client (ti_actions (default (mkTickInput [] [] [])
      match au_pending s with
      | Some input => Some (mkTickInput (without_cmds (fun id => id =? c) (ti_cmds input))
            (without_rows (fun id => id =? c) (ti_actions input)) (ti_shot_samples input))
      | None => None end)) =
      mine client (without_rows (fun id => id =? c) (ti_actions (default (mkTickInput [] [] []) (au_pending s)))))
    by by destruct (au_pending s).
  destruct Hin as [-> ->]. whose c client.
  - rewrite cmds_gone, !mine_gone, samples_gone, !lookup_delete_eq, !owned_gone, started_gone.
    rewrite bool_decide_eq_false_2 by set_solver. done.
  - rewrite cmds_kept, !mine_kept, samples_kept, !lookup_delete_ne, !owned_kept, started_kept by done.
    f_equal. apply bool_decide_ext. set_solver.
Qed.

Lemma retire_shares client time request clients s :
  let s' := foldl retire_departed s clients in
  share_of client time request s' (input_of s') =
    (if bool_decide (client ∈ clients) then no_share else share_of client time request s (input_of s)) /\
  au_reliable s' !! client = (if bool_decide (client ∈ clients) then None else au_reliable s !! client).
Proof.
  cbv zeta. induction clients as [|c clients IH] in s |- *; [done|]. cbn [foldl].
  destruct (IH (retire_departed s c)) as [-> ->]. rewrite retire_share. cbn [retire_departed au_reliable].
  destruct (decide (client ∈ clients)) as [Hin|Hout].
  - rewrite !bool_decide_eq_true_2 by (done || (right; done)). done.
  - rewrite !(bool_decide_eq_false_2 (client ∈ clients)) by done.
    rewrite (bool_decide_ext (client ∈ c :: clients) (c = client)).
    2: { rewrite elem_of_cons. split; [by intros [|]|by left]. }
    unfold hub_retire, Hub in *. split; [done|].
    whose c client; [by rewrite lookup_delete_eq|by rewrite lookup_delete_ne].
Qed.

(** When a client is no longer on the roster of the published tick, the host keeps nothing of
    it: no staged command or request, no queued input, no verdict, no reliable queue; a client
    that is on the roster loses nothing.  The roster published becomes the one compared next. *)
Theorem departure_leaves_nothing s tick client time request :
  au_server_tick s = Some tick ->
  let s' := retire_departed_peers s in
  au_roster s' = td_clients tick /\
  (client ∈ au_roster s -> client ∉ td_clients tick ->
     share_of client time request s' (input_of s') = no_share /\ au_reliable s' !! client = None) /\
  (client ∈ td_clients tick ->
     share_of client time request s' (input_of s') = share_of client time request s (input_of s) /\
     au_reliable s' !! client = au_reliable s !! client).
Proof.
  intros Ht s'. unfold s', retire_departed_peers. rewrite Ht. split; [done|].
  destruct (retire_shares client time request (departed s tick) s) as [Hs Hr].
  assert (Hdep : client ∈ departed s tick <-> client ∈ au_roster s /\ client ∉ td_clients tick).
  { unfold departed. rewrite list_elem_of_filter.
    assert (Hx : existsb (fun c => c =? client) (td_clients tick) = false <-> client ∉ td_clients tick).
    { split.
      - intros Hf Hin. pose proof (existsb_false_elim _ _ Hf _ Hin) as Hc. cbv beta in Hc. by rewrite Z.eqb_refl in Hc.
      - intros Hn. apply existsb_false_intro. intros c Hc. apply Z.eqb_neq. congruence. }
    rewrite Hx. tauto. }
  change (share_of client time request (set_roster ?x ?l) (input_of (set_roster ?x ?l))) with
    (share_of client time request x (input_of x)).
  change (au_reliable (set_roster ?x ?l)) with (au_reliable x). rewrite Hs, Hr. split.
  - intros Hin Hout. by rewrite !bool_decide_eq_true_2 by by apply Hdep.
  - intros Hin. by rewrite !bool_decide_eq_false_2 by tauto.
Qed.

Lemma departure_leaves_nothing_witness :
  let s := publish_server_tick (Some demo_tick) demo_authority in
  au_server_tick s = Some demo_tick /\
  share_of 4 0 2 (retire_departed_peers s) (input_of (retire_departed_peers s)) = no_share.
Proof.
  cbv zeta. split; [reflexivity|].
  destruct (departure_leaves_nothing (publish_server_tick (Some demo_tick) demo_authority) demo_tick 4 0 2 eq_refl)
    as (_ & Hgone & _).
  apply Hgone.
  - apply (bool_decide_unpack _). vm_compute. exact I.
  - apply (bool_decide_unpack _). vm_compute. exact I.
Defined.

(** ** What becomes of a request *)

(** The operation does not take the client's reliable queue away: it retires other clients. *)
Definition keeps_queue (client : Z) (s : Authority) (op : AuthorityOp) : Prop :=
  match op with
  | AoRetireDeparted => match au_server_tick s with Some tick => client ∉ departed s tick | None => True end
  | AoRelease => False
  | _ => True
  end.

Fixpoint stays (client : Z) (s : Authority) (ops : list AuthorityOp) : Prop :=
  match ops with
  | [] => True
  | op :: ops => keeps_queue client s op /\ stays client (authority_op s op) ops
  end.

(** A row of the client could not be queued: whatever the host does before, its next frame faults
    the connection, until the client is retired or the match released. *)
Definition given_up (client : Z) (s : Authority) : Prop :=
  overflowed (au_reliable s) client = true /\
  forall ops now local, stays client s ops ->
    (client, ReliableControlOverflow) ∈ au_faults (gather_authority_input now local (foldl authority_op s ops)).

Lemma admitted_grows s client :
  queue_grows (hub_queue (au_reliable s) client) (hub_queue (admitted_requests s).1.2 client).
Proof.
  unfold admitted_requests. apply (foldl_grows (fun st : Admission => hub_queue st.1.2 client) _ _ (_, _, _)).
  intros. apply admit_request_grows.
Qed.

Lemma publish_grows s tick client :
  queue_grows (hub_queue (au_reliable s) client) (hub_queue (au_reliable (publish_server_tick (Some tick) s)) client).
Proof.
  cbn [publish_server_tick]. unfold record_action_outcomes.
  pose proof (record_outcomes_queue (td_action_results tick) (au_ledger s, au_reliable s, au_actions s) client) as Ho.
  destruct (foldl record_outcome _ _) as [[ledger hub] inbox]. cbn [fst snd au_reliable] in *.
  rewrite queue_fire_rows. transitivity (hub_queue hub client); [|transitivity (hub_queue (queue_reliable_events hub tick) client)].
  - rewrite Ho. apply (foldl_grows id). apply push_outcome_grows.
  - unfold queue_reliable_events. apply (foldl_grows (fun hub : Hub WireRow => hub_queue hub client)). intros h record.
    unfold queue_event. destruct (negb _); [reflexivity|].
    apply (foldl_grows (fun hub : Hub WireRow => hub_queue hub client)). intros h' c.
    destruct (projects_to _ _); [apply hub_push_grows|reflexivity].
  - apply (foldl_grows id). apply push_row_grows.
Qed.

Lemma ack_dropped (hub : Hub WireRow) c through client :
  q_dropped_oldest (hub_queue (hub_ack hub c through) client) = q_dropped_oldest (hub_queue hub client).
Proof.
  unfold hub_ack, Hub in *. destruct (hub !! c) as [q|] eqn:E; [|done]. rewrite hub_queue_set. whose c client; [|done].
  unfold hub_queue, Hub in *. rewrite E. cbn [default]. unfold queue_ack. by destruct (through =? 0).
Qed.

(** A dropped row stays counted. *)
Lemma dropped_stays client s op :
  keeps_queue client s op -> 0 < q_dropped_oldest (hub_queue (au_reliable s) client) ->
  0 < q_dropped_oldest (hub_queue (au_reliable (authority_op s op)) client).
Proof.
  destruct op as [c seq cmd sample|c a|c a|c t| |e|now local| |step|c r| | |]; cbn [authority_op keeps_queue];
    intros Hk Hd; try exact Hd.
  - cbn [with_ingress au_reliable]. by rewrite ack_dropped.
  - rewrite (gs_reliable _ _ _ (gather_parts now local s)). by apply (admitted_grows s client).
  - destruct step as [tick|]; [|exact Hd]. by apply publish_grows.
  - unfold retire_departed_peers. destruct (au_server_tick s) as [tick|]; [|exact Hd]. cbn [set_roster au_reliable].
    destruct (retire_shares client 0 0 (departed s tick) s) as [_ Hr]. rewrite bool_decide_eq_false_2 in Hr by done.
    unfold hub_queue, Hub in *. by rewrite Hr.
  - done.
Qed.

Lemma dropped_given_up client s : 0 < q_dropped_oldest (hub_queue (au_reliable s) client) -> given_up client s.
Proof.
  intros Hd. assert (Hover : forall s, 0 < q_dropped_oldest (hub_queue (au_reliable s) client) ->
            overflowed (au_reliable s) client = true).
  { intros s0 H0. rewrite overflowed_dropped. apply negb_true_iff, Z.eqb_neq. lia. }
  split; [by apply Hover|]. intros ops now local Hops.
  assert (Hd' : 0 < q_dropped_oldest (hub_queue (au_reliable (foldl authority_op s ops)) client)).
  { clear Hover. induction ops as [|op ops IH] in s, Hd, Hops |- *; [done|]. destruct Hops as [Hop Hops].
    apply IH; [by apply dropped_stays|done]. }
  rewrite (gs_faults _ _ _ (gather_parts now local _)), !elem_of_app. right. left.
  apply list_elem_of_fmap. exists client. split; [done|]. unfold overflowed_clients. apply list_elem_of_filter.
  split; [by apply Hover|]. specialize (Hover _ Hd'). unfold overflowed in Hover.
  destruct (au_reliable (foldl authority_op s ops) !! client) as [q|] eqn:Eq; [|done].
  apply list_elem_of_fmap. exists (client, q). split; [done|]. by apply (elem_of_map_to_list (M := gmap Z)).
Qed.

(** C28. No request is lost in a frame: unless its connection is in fault, every request waiting
    or received is handed to the simulation, or the same request is already running there, or its
    answer waits in the client's reliable queue, or that queue was full, a row was dropped and the
    connection is given up: whatever the host does before, its next gather faults the client,
    unless the client is retired or the match released first.  The queue's count of dropped rows
    is a natural number before, which its u32 type ensures. *)
Theorem request_is_run_or_answered now local s client action :
  let s' := gather_authority_input now local s in
  let id := action_request_id action in
  0 <= q_dropped_oldest (hub_queue (au_reliable s) client) ->
  (client, action) ∈ ai_pending (au_actions s) ++ ai_received (au_actions s) ->
  client ∉ map fst (au_faults s') ->
  (exists input, au_pending s' = Some input /\ (client, action) ∈ ti_actions input) \/
  (exists running, me_admitted (client_memory (au_ledger s') client) !! id = Some running /\
     action_eqb running action = true) \/
  (exists verdict seq, (seq, RowActionOutcome id verdict) ∈ q_pending (hub_queue (au_reliable s') client)) \/
  given_up client s'.
Proof.
  intros s' id Hd Hin Hout. pose proof (gather_parts now local s) as Hg. fold s' in Hg.
  assert (Hshare : forall t r, share client t r (foldl cut_off (before_faults now local s) (map fst (au_faults s'))) =
                     share client t r (before_faults now local s)).
  { intros t r. by rewrite cut_off_shares, bool_decide_eq_false_2. }
  destruct (before_faults_admitted now local s) as [Hba Hbl].
  destruct (admit_requests_accounted _ (au_ledger s, au_reliable s, []) (client, action) Hd Hin) as [Hrun|[Hrun|(verdict & Hans)]].
  - left. eexists. split; [apply (gs_pending _ _ _ Hg)|]. cbn [ti_actions].
    assert (Hmine := f_equal sh_actions (Hshare 0 0)). cbn [share sh_actions] in Hmine. rewrite Hba in Hmine.
    assert (Hm : (client, action) ∈ mine client (admitted_requests s).2) by (by apply list_elem_of_filter).
    rewrite <- Hmine in Hm. unfold mine in Hm. by apply list_elem_of_filter in Hm as [_ Hm].
  - right. left. rewrite (gs_ledger _ _ _ Hg). destruct Hrun as (running & Hr & Heqb). exists running.
    split; [|done]. assert (Hmem := f_equal sh_memory (Hshare 0 0)). cbn [share sh_memory] in Hmem.
    unfold client_memory. rewrite Hmem, Hbl. exact Hr.
  - right. right. fold (admitted_requests s) in Hans. rewrite <- (gs_reliable _ _ _ Hg) in Hans.
    destruct Hans as [[seq Hseq]|Hdrop]; [left; by exists verdict, seq|right; by apply dropped_given_up].
Qed.

(** Client 4 has 64 rows waiting when it repeats a request the host forgot. *)
Definition full_authority : Authority :=
  let full := foldl push_row queue_new (map (fun id => RowActionOutcome (Z.of_nat id) Applied) (seq 100 64)) in
  let forgot := mkMemory ∅ ∅ (Some 50) in
  mkAuthority (mkClock 4 200) inbox_default (mkActionInbox [] ∅ [(4, ActLeaveMatch 2)] ∅)
    (mkLedger 0 {[4 := forgot]}) {[4 := full]} request_ids_default [] ∅ None [] None [0; 3; 4] true.

(** What the theorem says of client 4's request 2. *)
Definition run_or_answered (s : Authority) : Prop :=
  let s' := gather_authority_input 9 (Some 0) s in
  (exists input, au_pending s' = Some input /\ (4, ActLeaveMatch 2) ∈ ti_actions input) \/
  (exists running, me_admitted (client_memory (au_ledger s') 4) !! 2 = Some running /\
     action_eqb running (ActLeaveMatch 2) = true) \/
  (exists verdict seq, (seq, RowActionOutcome 2 verdict) ∈ q_pending (hub_queue (au_reliable s') 4)) \/
  given_up 4 s'.

Lemma request_is_run_or_answered_witness :
  run_or_answered demo_authority /\ run_or_answered full_authority /\
  overflowed (au_reliable full_authority) 4 = false /\
  overflowed (au_reliable (gather_authority_input 9 (Some 0) full_authority)) 4 = true.
Proof.
  split; [|split; [|split; vm_compute; reflexivity]].
  - apply (request_is_run_or_answered 9 (Some 0) demo_authority 4 (ActLeaveMatch 2)).
    + vm_compute. discriminate.
    + apply (bool_decide_unpack _). vm_compute. exact I.
    + apply (bool_decide_unpack _). vm_compute. exact I.
  - apply (request_is_run_or_answered 9 (Some 0) full_authority 4 (ActLeaveMatch 2)).
    + vm_compute. discriminate.
    + apply (bool_decide_unpack _). vm_compute. exact I.
    + apply (bool_decide_unpack _). vm_compute. exact I.
Defined.
