(* ===== verification/ConfigStrings.v ===== *)
(** * Configuration string tables

    crates/sim/src/sound_alias_cs.rs: the names the host numbers for its clients.  [SoundAliasCs]
    holds 256 slots of which slot 0 means no name; the effect and HUD material tables are the same
    type.  [HudStringCs] grows to 511 texts, the first one numbered 1.  A snapshot carries the
    occupied slots; the client adopts them. *)

From S2P Require Export Prelude.

#[local] Open Scope Z_scope.

Definition CS_SOUNDALIASES_SLOTS : Z := 0x100.

Record SoundAliasCs : Type := mkAliases { al_slots : list (option (list byte)) }.

Definition aliases_default : SoundAliasCs := mkAliases (replicate (Z.to_nat CS_SOUNDALIASES_SLOTS) None).

(** The loop over the slots from 1: the slot of the name, or the first empty one. *)
Fixpoint alias_scan (name : list byte) (i : nat) (first_empty : option nat) (slots : list (option (list byte)))
    : nat + option nat :=
  match slots with
  | [] => inr first_empty
  | slot :: rest =>
      match slot with
      | Some existing =>
          if bool_decide (existing = name) then inl i else alias_scan name (S i) first_empty rest
      | None =>
          alias_scan name (S i) (match first_empty with None => Some i | Some _ => first_empty end) rest
      end
  end.

Definition alias_index (t : SoundAliasCs) (name : list byte) : SoundAliasCs * Z :=
  if zlen name =? 0 then (t, 0)
  else match alias_scan name 1 None (tail (al_slots t)) with
       | inl i => (t, wrap8 (Z.of_nat i))
       | inr None => (t, 0)
       | inr (Some slot) => (mkAliases (<[slot := Some name]> (al_slots t)), wrap8 (Z.of_nat slot))
       end.

Definition alias_name (t : SoundAliasCs) (index : Z) : option (list byte) :=
  match al_slots t !! Z.to_nat index with Some slot => slot | None => None end.

(** [enumerate().filter_map(..)]. *)
Fixpoint occupied_from (i : Z) (slots : list (option (list byte))) : list (Z * list byte) :=
  match slots with
  | [] => []
  | None :: rest => occupied_from (i + 1) rest
  | Some name :: rest =>
      if (i <=? u8_max) && negb (i =? 0) then (i, name) :: occupied_from (i + 1) rest
      else occupied_from (i + 1) rest
  end.

Definition alias_occupied (t : SoundAliasCs) : list (Z * list byte) := occupied_from 0 (al_slots t).

Definition adopt_alias (slots : list (option (list byte))) (row : Z * list byte) : list (option (list byte)) :=
  if row.1 =? 0 then slots else <[Z.to_nat row.1 := Some row.2]> slots.

Definition alias_adopt (t : SoundAliasCs) (occupied : list (Z * list byte)) : SoundAliasCs :=
  mkAliases (foldl adopt_alias (replicate (Z.to_nat CS_SOUNDALIASES_SLOTS) None) occupied).

Definition name_in_occupied (occupied : list (Z * list byte)) (index : Z) : option (list byte) :=
  snd <$> find (fun row => row.1 =? index) occupied.

(** ** Texts of the HUD *)

Definition CS_LOCALIZED_STRINGS_SLOTS : Z := 0x200.

Record HudStringCs : Type := mkHudStrings { hu_slots : list (list byte) }.

Definition hud_strings_default : HudStringCs := mkHudStrings [].

(** [slots.iter().position(..)]. *)
Fixpoint position (text : list byte) (slots : list (list byte)) : option Z :=
  match slots with
  | [] => None
  | s :: rest => if bool_decide (s = text) then Some 0 else Z.succ <$> position text rest
  end.

(** [i32::try_from(n).ok()]. *)
Definition try_i32 (n : Z) : option Z := if n <=? i32_max then Some n else None.

Definition hud_index (t : HudStringCs) (text : list byte) : HudStringCs * option Z :=
  if zlen text =? 0 then (t, Some 0)
  else match position text (hu_slots t) with
       | Some i => (t, try_i32 (i + 1))
       | None =>
           if CS_LOCALIZED_STRINGS_SLOTS <=? zlen (hu_slots t) + 1 then (t, None)
           else let slots := hu_slots t ++ [text] in (mkHudStrings slots, try_i32 (zlen slots))
       end.

Definition adopt_text (slots : list (list byte)) (row : Z * list byte) : list (list byte) :=
  if (row.1 =? 0) || (CS_LOCALIZED_STRINGS_SLOTS <=? row.1) then slots
  else
    let slots := if zlen slots <? row.1 then resize (Z.to_nat row.1) [] slots else slots in
    <[Z.to_nat (row.1 - 1) := row.2]> slots.

Definition hud_adopt (t : HudStringCs) (occupied : list (Z * list byte)) : HudStringCs :=
  mkHudStrings (foldl adopt_text [] occupied).

Fixpoint texts_from (i : Z) (slots : list (list byte)) : list (Z * list byte) :=
  match slots with
  | [] => []
  | s :: rest => if i + 1 <=? u16_max then (i + 1, s) :: texts_from (i + 1) rest else texts_from (i + 1) rest
  end.

Definition hud_occupied (t : HudStringCs) : list (Z * list byte) := texts_from 0 (hu_slots t).

Definition hud_string_in_occupied (occupied : list (Z * list byte)) (index : Z) : option (list byte) :=
  if (0 <=? index) && (index <=? u16_max)
  then snd <$> find (fun row => row.1 =? index) occupied else None.

(** * Properties of the configuration string tables *)

(** ** Sound aliases *)

(** Slot 0 stays empty, no name is empty, no name has two slots. *)
Record aliases_ok (t : SoundAliasCs) : Prop := {
  ao_length : length (al_slots t) = 256%nat;
  ao_zero : al_slots t !! 0%nat = Some None;
  ao_named : forall i, al_slots t !! i <> Some (Some []);
  ao_unique : forall i j name, al_slots t !! i = Some (Some name) -> al_slots t !! j = Some (Some name) -> i = j;
}.

Lemma aliases_default_ok : aliases_ok aliases_default.
Proof.
  split; [done|done| |].
  - intros i Hi. apply lookup_replicate in Hi as [Hi _]. done.
  - intros i j name Hi. apply lookup_replicate in Hi as [Hi _]. done.
Qed.

(** What the scan finds, the slots seen so far being [before]. *)
Lemma alias_scan_spec name before rest first_empty :
  (forall j, before !! j <> Some (Some name)) ->
  match first_empty with
  | Some e => before !! e = Some None /\ (forall j, (j < e)%nat -> before !! j <> Some None)
  | None => forall j, before !! j <> Some None
  end ->
  let slots := before ++ rest in
  match alias_scan name (length before) first_empty rest with
  | inl i => slots !! i = Some (Some name)
  | inr (Some e) => slots !! e = Some None /\ forall j, slots !! j <> Some (Some name)
  | inr None => (forall j, slots !! j <> Some None) /\ forall j, slots !! j <> Some (Some name)
  end.
Proof.
  revert before first_empty. induction rest as [|slot rest IH]; intros before first_empty Hname Hempty; cbn [alias_scan].
  { rewrite app_nil_r. destruct first_empty as [e|]; [by destruct Hempty|by split]. }
  assert (Hlen : S (length before) = length (before ++ [slot])) by (rewrite length_app; cbn; lia).
  assert (Hsplit : before ++ slot :: rest = (before ++ [slot]) ++ rest) by by rewrite <- app_assoc.
  assert (Hsnoc : forall j x, (before ++ [slot]) !! j = Some x -> before !! j = Some x \/ x = slot).
  { intros j x Hj. apply lookup_app_Some in Hj as [|[_ Hj]]; [by left|right].
    by apply list_lookup_singleton_Some in Hj as [_ <-]. }
  rewrite Hsplit. destruct slot as [existing|].
  - case_bool_decide as Heq.
    + subst. rewrite <- app_assoc. apply list_lookup_middle. done.
    + rewrite Hlen. apply IH.
      * intros j Hj. apply Hsnoc in Hj as [Hj|[= ->]]; [by eapply Hname|done].
      * destruct first_empty as [e|].
        -- destruct Hempty as [He Hlt]. split; [by apply lookup_app_l_Some|].
           intros j Hj Hx. apply Hsnoc in Hx as [Hx|]; [by eapply Hlt|done].
        -- intros j Hj. apply Hsnoc in Hj as [Hj|]; [by eapply Hempty|done].
  - rewrite Hlen. apply IH.
    + intros j Hj. apply Hsnoc in Hj as [Hj|]; [by eapply Hname|done].
    + destruct first_empty as [e|].
      * destruct Hempty as [He Hlt]. split; [by apply lookup_app_l_Some|].
        intros j Hj Hx. assert (Hb : (j < length before)%nat) by (apply lookup_lt_Some in He; lia).
        rewrite lookup_app_l in Hx by done. by eapply Hlt.
      * split; [apply list_lookup_middle; done|]. intros j Hj Hx. rewrite lookup_app_l in Hx by done. by eapply Hempty.
Qed.

Lemma alias_scan_ok t name :
  aliases_ok t -> name <> [] ->
  match alias_scan name 1 None (tail (al_slots t)) with
  | inl i => al_slots t !! i = Some (Some name)
  | inr (Some e) => e <> 0%nat /\ al_slots t !! e = Some None /\ forall j, al_slots t !! j <> Some (Some name)
  | inr None => (forall j, al_slots t !! j = Some None -> j = 0%nat) /\ forall j, al_slots t !! j <> Some (Some name)
  end.
Proof.
  intros [Hlen Hzero _ _] Hne. destruct (al_slots t) as [|s rest]; [done|]. cbn in Hzero. injection Hzero as ->.
  cbn [tail].
  (* the scan starts behind slot 0: show it the rest only *)
  assert (Hshift : forall i fe l, alias_scan name (S i) (S <$> fe) l =
            match alias_scan name i fe l with inl x => inl (S x) | inr e => inr (S <$> e) end).
  { intros i fe l. revert i fe. induction l as [|[x|] l IH]; intros i fe; cbn [alias_scan]; [done| |].
    - case_bool_decide; [done|]. apply IH.
    - rewrite <- IH. by destruct fe. }
  pose proof (Hshift 0%nat None rest) as Hs0. cbn [fmap option_fmap option_map] in Hs0. rewrite Hs0.
  pose proof (alias_scan_spec name [] rest None) as Hspec. cbn [length app] in Hspec.
  specialize (Hspec ltac:(by intros j) ltac:(by intros j)).
  destruct (alias_scan name 0 None rest) as [i|[e|]]; cbn [fmap option_fmap option_map].
  - done.
  - destruct Hspec as [He Hno]. split; [done|]. split; [done|]. intros [|j]; [done|apply Hno].
  - destruct Hspec as [He Hno]. split; [|by intros [|j]; [|apply Hno]].
    intros [|j] Hj; [done|]. by apply He in Hj.
Qed.

Lemma slot_u8 t i x : aliases_ok t -> al_slots t !! i = Some x -> wrap8 (Z.of_nat i) = Z.of_nat i.
Proof. intros Hok Hi. apply lookup_lt_Some in Hi. rewrite (ao_length _ Hok) in Hi. unfold wrap8. rewrite Z.mod_small; lia. Qed.

Lemma alias_name_slot t i : alias_name t (Z.of_nat i) = match al_slots t !! i with Some s => s | None => None end.
Proof. unfold alias_name. by rewrite Nat2Z.id. Qed.

Lemma alias_index_ok t name : aliases_ok t -> aliases_ok (alias_index t name).1.
Proof.
  intros Hok. unfold alias_index. destruct (Z.eqb_spec (zlen name) 0) as [|Hlen]; [done|].
  assert (Hne : name <> []) by by intros ->.
  pose proof (alias_scan_ok t name Hok Hne) as Hscan.
  destruct (alias_scan name 1 None (tail (al_slots t))) as [i|[e|]]; [done| |done].
  destruct Hscan as (He0 & He & Hno). cbn [fst]. pose proof (lookup_lt_Some _ _ _ He) as Hlt. destruct Hok as [H1 H2 H3 H4].
  split; cbn [al_slots].
  - by rewrite length_insert.
  - by rewrite list_lookup_insert_ne.
  - intros i. destruct (decide (i = e)) as [->|]; [by rewrite list_lookup_insert_eq by done; intros [=]|].
    rewrite list_lookup_insert_ne by done. apply H3.
  - intros i j n. destruct (decide (i = e)) as [->|Hi], (decide (j = e)) as [->|Hj];
      rewrite ?list_lookup_insert_eq, ?list_lookup_insert_ne by done; intros Hx Hy.
    + done.
    + injection Hx as <-. by apply Hno in Hy.
    + injection Hy as <-. by apply Hno in Hx.
    + by eapply H4.
Qed.

Lemma aliases_reachable names : aliases_ok (foldl (fun t n => (alias_index t n).1) aliases_default names).
Proof.
  generalize aliases_default_ok. generalize aliases_default. induction names as [|n names IH]; intros t Ht; [done|].
  cbn [foldl]. by apply IH, alias_index_ok.
Qed.

(** Numbering a name never disturbs the names numbered before.  From any sequence of names,
    the next non-empty name gets a number from 1 to 255 that stands for it and for no other name,
    the same one if it is asked for again, and 0 only when the other 255 slots are taken. *)
Theorem alias_index_stable names name :
  let t := foldl (fun t n => (alias_index t n).1) aliases_default names in
  let '(t', i) := alias_index t name in
  (forall j n, alias_name t j = Some n -> alias_name t' j = Some n) /\
  (name <> [] ->
     (1 <= i <= 255 /\ alias_name t' i = Some name /\ (forall j, 0 <= j -> alias_name t' j = Some name -> j = i) /\
      alias_index t' name = (t', i)) \/
     (i = 0 /\ t' = t /\ forall j, 1 <= j <= 255 -> is_Some (alias_name t j) /\ alias_name t j <> Some name)).
Proof.
  intros t. pose proof (aliases_reachable names : aliases_ok t) as Hok.
  clearbody t. pose proof (alias_index_ok t name Hok) as Hok'. unfold alias_index in *.
  destruct (Z.eqb_spec (zlen name) 0) as [Hl|Hl].
  { split; [done|]. intros Hne. destruct name; [done|]. rewrite zlen_cons in Hl. pose proof (zlen_nonneg name). lia. }
  assert (Hne : name <> []) by by intros ->. pose proof (alias_scan_ok t name Hok Hne) as Hscan.
  assert (Hfound : forall t1 i, aliases_ok t1 -> al_slots t1 !! i = Some (Some name) ->
    1 <= wrap8 (Z.of_nat i) <= 255 /\ alias_name t1 (wrap8 (Z.of_nat i)) = Some name /\
    (forall j, 0 <= j -> alias_name t1 j = Some name -> j = wrap8 (Z.of_nat i)) /\
    alias_scan name 1 None (tail (al_slots t1)) = inl i).
  { intros t1 i Hok1 Hi. rewrite (slot_u8 t1 i _ Hok1 Hi). pose proof (lookup_lt_Some _ _ _ Hi) as Hlt.
    rewrite (ao_length _ Hok1) in Hlt. split.
    - destruct i; [by rewrite (ao_zero _ Hok1) in Hi|lia].
    - rewrite alias_name_slot, Hi. split; [done|]. split.
      + intros j Hj Hn. unfold alias_name in Hn. destruct (al_slots t1 !! Z.to_nat j) as [s|] eqn:Es; [|done]. subst s.
        rewrite (ao_unique _ Hok1 _ _ _ Hi Es). lia.
      + pose proof (alias_scan_ok t1 name Hok1 Hne) as Hs.
        destruct (alias_scan name 1 None (tail (al_slots t1))) as [k|[e|]].
        * f_equal. by apply (ao_unique _ Hok1 _ _ name).
        * by destruct Hs as (_ & _ & Hno); apply Hno in Hi.
        * by destruct Hs as (_ & Hno); apply Hno in Hi. }
  destruct (alias_scan name 1 None (tail (al_slots t))) as [i|[e|]] eqn:Es.
  - split; [done|]. intros _. left. destruct (Hfound t i Hok Hscan) as (H1 & H2 & H3 & _).
    by rewrite Es.
  - destruct Hscan as (He0 & He & Hno). cbn [fst] in Hok'. split.
    + intros j n. unfold alias_name. cbn [al_slots]. destruct (decide (Z.to_nat j = e)) as [->|Hj].
      { by rewrite He. }
      by rewrite list_lookup_insert_ne.
    + intros _. left. pose proof (lookup_lt_Some _ _ _ He) as Hlt.
      destruct (Hfound _ e Hok') as (H1 & H2 & H3 & H4); [by apply list_lookup_insert_eq|]. by rewrite H4.
  - destruct Hscan as [Hfull Hno]. split; [done|]. intros _. right. split; [done|]. split; [done|].
    intros j Hj. unfold alias_name. destruct (lookup_lt_is_Some_2 (al_slots t) (Z.to_nat j)) as [s Hs].
    { rewrite (ao_length _ Hok). lia. }
    rewrite Hs. destruct s as [n|]; [|apply Hfull in Hs; lia]. split; [by eexists|]. intros [= ->]. by apply Hno in Hs.
Qed.

(** ** Snapshots of the tables *)

Lemma adopt_occupied_from rest pre :
  (length pre + length rest <= 256)%nat -> (pre = [] -> head rest = Some None \/ rest = []) ->
  foldl adopt_alias (pre ++ replicate (length rest) None) (occupied_from (Z.of_nat (length pre)) rest) = pre ++ rest.
Proof.
  induction rest as [|slot rest IH] in pre |- *; intros Hlen Hzero; [done|]. cbn [length replicate occupied_from] in *.
  assert (Hnext : forall s, foldl adopt_alias (pre ++ s :: replicate (length rest) None)
                              (occupied_from (Z.of_nat (length pre) + 1) rest) = pre ++ s :: rest).
  { intros s. rewrite (cons_middle s pre (replicate _ _)), (cons_middle s pre rest), !app_assoc.
    replace (Z.of_nat (length pre) + 1) with (Z.of_nat (length (pre ++ [s]))) by (rewrite length_app; cbn; lia).
    apply IH; [rewrite length_app; cbn; lia|]. by destruct pre. }
  destruct slot as [name|]; [|apply Hnext].
  assert (Hpre : pre <> []) by (intros ->; destruct Hzero as [|]; done).
  assert (Hpos : (0 < length pre)%nat) by (destruct pre; [done|cbn; lia]).
  unfold u8_max. rewrite (proj2 (Z.leb_le _ 255)), (proj2 (Z.eqb_neq _ 0)) by lia. cbn [negb andb foldl].
  unfold adopt_alias at 2. cbn [fst snd]. rewrite (proj2 (Z.eqb_neq _ 0)) by lia. rewrite Nat2Z.id.
  rewrite insert_app_r_alt, Nat.sub_diag by done. apply Hnext.
Qed.

Lemma alias_adopt_ok t t0 : aliases_ok t -> alias_adopt t0 (alias_occupied t) = t.
Proof.
  intros Hok. unfold alias_adopt, alias_occupied. destruct t as [slots].
  pose proof (adopt_occupied_from slots []) as H. cbn [length app al_slots] in *.
  pose proof (ao_length _ Hok) as Hlen. pose proof (ao_zero _ Hok) as Hz. cbn [al_slots] in Hlen, Hz.
  rewrite Hlen in H. f_equal. apply H; [lia|]. intros _. left. destruct slots; [done|]. cbn in Hz |- *. congruence.
Qed.

Lemma occupied_find slots i j :
  0 <= i -> i + zlen slots <= 256 -> (i = 0 -> head slots = Some None \/ slots = []) -> 0 <= j ->
  name_in_occupied (occupied_from i slots) j =
    (if i <=? j then match slots !! Z.to_nat (j - i) with Some s => s | None => None end else None).
Proof.
  unfold name_in_occupied. induction slots as [|slot slots IH] in i |- *; intros Hi Hlen Hzero Hj.
  { cbn. by destruct (i <=? j). }
  rewrite zlen_cons in Hlen. pose proof (zlen_nonneg slots).
  assert (Hrest : snd <$> find (fun row => row.1 =? j) (occupied_from (i + 1) slots) =
            if i + 1 <=? j then match slots !! Z.to_nat (j - (i + 1)) with Some s => s | None => None end else None).
  { apply IH; [lia|lia|lia|done]. }
  assert (Htail : i <> j -> (if i <=? j then match (slot :: slots) !! Z.to_nat (j - i) with Some s => s | None => None end
            else None) = if i + 1 <=? j then match slots !! Z.to_nat (j - (i + 1)) with Some s => s | None => None end else None).
  { intros Hne. destruct (Z.leb_spec i j), (Z.leb_spec (i + 1) j); try lia; [|done].
    by replace (Z.to_nat (j - i)) with (S (Z.to_nat (j - (i + 1)))) by lia. }
  destruct (decide (i = j)) as [->|Hne].
  - rewrite (proj2 (Z.leb_le j j)) by lia. rewrite Z.sub_diag. change ((slot :: slots) !! Z.to_nat 0) with (Some slot).
    cbn [occupied_from]. destruct slot as [name|].
    + unfold u8_max. rewrite (proj2 (Z.leb_le j 255)) by lia.
      destruct (Z.eqb_spec j 0) as [->|]; [by destruct (Hzero eq_refl)|]. cbn [negb andb find fst].
      by rewrite Z.eqb_refl.
    + rewrite Hrest. by rewrite (proj2 (Z.leb_gt (j + 1) j)) by lia.
  - rewrite Htail, <- Hrest by done. cbn [occupied_from]. destruct slot as [name|]; [|done].
    destruct ((i <=? u8_max) && negb (i =? 0)); [|done]. cbn [find fst]. by rewrite (proj2 (Z.eqb_neq i j)).
Qed.

(** A client that adopts the occupied slots of a snapshot has the host's table, whatever its
    own table was, and reading a number in the snapshot itself gives the same name. *)
Theorem alias_snapshot_roundtrip names t0 i :
  let t := foldl (fun t n => (alias_index t n).1) aliases_default names in
  alias_adopt t0 (alias_occupied t) = t /\
  name_in_occupied (alias_occupied t) (Z.of_nat i) = alias_name t (Z.of_nat i).
Proof.
  intros t. pose proof (aliases_reachable names : aliases_ok t) as Hok.
  clearbody t. split; [by apply alias_adopt_ok|]. unfold alias_occupied. rewrite occupied_find.
  - by rewrite (proj2 (Z.leb_le 0 _)), Z.sub_0_r by lia.
  - lia.
  - unfold zlen. rewrite (ao_length _ Hok). lia.
  - intros _. left. pose proof (ao_zero _ Hok) as Hz. destruct (al_slots t); [done|]. cbn in Hz |- *. congruence.
  - lia.
Qed.

(** ** HUD texts *)

Lemma position_spec text slots :
  match position text slots with
  | Some i => 0 <= i < zlen slots /\ slots !! Z.to_nat i = Some text
  | None => text ∉ slots
  end.
Proof.
  induction slots as [|s slots IH]; cbn [position]; [apply not_elem_of_nil|].
  case_bool_decide as Hs.
  - subst. rewrite zlen_cons. pose proof (zlen_nonneg slots). split; [lia|done].
  - destruct (position text slots) as [i|]; cbn [fmap option_fmap option_map].
    + destruct IH as [Hi Hl]. rewrite zlen_cons. split; [lia|]. by replace (Z.to_nat (Z.succ i)) with (S (Z.to_nat i)) by lia.
    + apply not_elem_of_cons. split; [congruence|done].
Qed.

Lemma adopt_texts_from rest pre :
  zlen pre + zlen rest <= 511 ->
  foldl adopt_text pre (texts_from (zlen pre) rest) = pre ++ rest.
Proof.
  induction rest as [|s rest IH] in pre |- *; intros Hlen; cbn [texts_from]; [by rewrite app_nil_r|].
  rewrite zlen_cons in Hlen. pose proof (zlen_nonneg pre). pose proof (zlen_nonneg rest).
  unfold u16_max. rewrite (proj2 (Z.leb_le (zlen pre + 1) 65535)) by lia. cbn [foldl].
  unfold adopt_text at 2. cbn [fst snd]. unfold CS_LOCALIZED_STRINGS_SLOTS.
  rewrite (proj2 (Z.eqb_neq _ 0)), (proj2 (Z.leb_gt 0x200 _)), (proj2 (Z.ltb_lt _ _)) by lia. cbn [orb].
  rewrite resize_ge by (unfold zlen; lia).
  replace (Z.to_nat (zlen pre + 1) - length pre)%nat with 1%nat by (unfold zlen; lia). cbn [replicate].
  rewrite Z.add_simpl_r. replace (Z.to_nat (zlen pre)) with (length pre) by (unfold zlen; lia).
  rewrite insert_app_r_alt, Nat.sub_diag by done. cbn [list_insert insert].
  change (zlen pre + 1) with (zlen pre + zlen [s]). rewrite <- zlen_app, (cons_middle s pre rest), app_assoc.
  apply IH. rewrite zlen_app. cbn. unfold zlen in *. cbn [length] in *. lia.
Qed.

Lemma texts_find slots i j :
  0 <= i -> i + zlen slots <= 511 -> i < j -> j <= i + zlen slots ->
  snd <$> find (fun row => row.1 =? j) (texts_from i slots) = slots !! Z.to_nat (j - i - 1).
Proof.
  induction slots as [|s slots IH] in i |- *; intros Hi Hlen Hij Hj; cbn [texts_from].
  { unfold zlen in Hj. cbn [length] in Hj. lia. }
  rewrite zlen_cons in Hlen, Hj. pose proof (zlen_nonneg slots).
  unfold u16_max. rewrite (proj2 (Z.leb_le (i + 1) 65535)) by lia. cbn [find fst].
  destruct (Z.eqb_spec (i + 1) j) as [<-|Hne].
  - by replace (i + 1 - i - 1) with 0 by lia.
  - rewrite IH by lia. by replace (Z.to_nat (j - i - 1)) with (S (Z.to_nat (j - (i + 1) - 1))) by lia.
Qed.

Definition hud_ok (t : HudStringCs) : Prop := zlen (hu_slots t) <= 511.

Lemma hud_index_ok t text : hud_ok t -> hud_ok (hud_index t text).1.
Proof.
  unfold hud_ok, hud_index, CS_LOCALIZED_STRINGS_SLOTS. intros Hok. destruct (_ =? _); [done|].
  destruct (position _ _); [done|]. destruct (Z.leb_spec 0x200 (zlen (hu_slots t) + 1)); [done|].
  cbn [fst hu_slots]. rewrite zlen_app. cbn. unfold zlen in *. cbn [length]. lia.
Qed.

(** The number the host gives a HUD text stands for that text in every later snapshot, in what
    a client adopted from one, and in the snapshot itself; texts numbered before keep their
    numbers, and a text gets none only when it is new and 511 texts are there. *)
Theorem hud_text_roundtrip texts text later t0 :
  let t := foldl (fun t s => (hud_index t s).1) hud_strings_default texts in
  let '(t', answer) := hud_index t text in
  let t'' := foldl (fun t s => (hud_index t s).1) t' later in
  hud_adopt t0 (hud_occupied t'') = t'' /\
  match answer with
  | Some i => text = [] /\ i = 0 \/
      1 <= i <= 511 /\ hud_string_in_occupied (hud_occupied t'') i = Some text
  | None => zlen (hu_slots t) = 511 /\ text ∉ hu_slots t
  end.
Proof.
  assert (Hgen : forall l t0, hud_ok t0 -> hud_ok (foldl (fun t s => (hud_index t s).1) t0 l)).
  { induction l as [|n l IH]; intros t1 Ht1; [done|]. cbn [foldl]. by apply IH, hud_index_ok. }
  assert (Hpre : forall l t0, hu_slots t0 `prefix_of` hu_slots (foldl (fun t s => (hud_index t s).1) t0 l)).
  { induction l as [|n l IH]; intros t1; [done|]. cbn [foldl]. etrans; [|apply IH]. unfold hud_index.
    destruct (_ =? _); [done|]. destruct (position _ _); [done|]. destruct (_ <=? _); [done|]. by eexists. }
  intros t. assert (Ht : hud_ok t) by by apply Hgen. clearbody t.
  pose proof (hud_index_ok t text Ht) as Ht'. destruct (hud_index t text) as [t' answer] eqn:E. cbn [fst] in Ht'.
  intros t''. assert (Ht'' : hud_ok t'') by by apply Hgen. pose proof (Hpre later t') as [more Hmore]. fold t'' in Hmore.
  clearbody t''. split.
  { destruct t'' as [slots]. unfold hud_adopt, hud_occupied. f_equal. apply (adopt_texts_from slots []).
    unfold hud_ok in Ht''. exact Ht''. }
  assert (Hread : forall i, 0 <= i < zlen (hu_slots t') -> hu_slots t' !! Z.to_nat i = Some text ->
            1 <= i + 1 <= 511 /\ hud_string_in_occupied (hud_occupied t'') (i + 1) = Some text).
  { intros i Hi Hl. unfold hud_ok in *. pose proof (zlen_nonneg more).
    assert (Hlong : zlen (hu_slots t') + zlen more <= 511) by (by rewrite <- zlen_app, <- Hmore). split; [lia|].
    unfold hud_string_in_occupied, hud_occupied, u16_max.
    rewrite (proj2 (Z.leb_le 0 (i + 1))), (proj2 (Z.leb_le (i + 1) 65535)) by lia. cbn [andb].
    rewrite texts_find; [|lia|lia|lia|rewrite Hmore, zlen_app; lia].
    replace (Z.to_nat (i + 1 - 0 - 1)) with (Z.to_nat i) by lia. rewrite Hmore. by apply lookup_app_l_Some. }
  unfold hud_index in E. destruct (Z.eqb_spec (zlen text) 0) as [Hl|Hl].
  { injection E as <- <-. left. split; [|done]. destruct text; [done|]. rewrite zlen_cons in Hl.
    pose proof (zlen_nonneg text). lia. }
  pose proof (position_spec text (hu_slots t)) as Hpos. destruct (position text (hu_slots t)) as [i|].
  - destruct Hpos as [Hi Hp]. injection E as <- <-. unfold try_i32, i32_max. unfold hud_ok in Ht.
    rewrite (proj2 (Z.leb_le (i + 1) _)) by lia. right. by apply Hread.
  - unfold CS_LOCALIZED_STRINGS_SLOTS in E. destruct (Z.leb_spec 0x200 (zlen (hu_slots t) + 1)).
    + injection E as <- <-. unfold hud_ok in Ht. split; [lia|done].
    + injection E as <- <-. cbn [hu_slots] in Hread. unfold try_i32. rewrite zlen_app in *. change (zlen [text]) with 1 in *.
      pose proof (zlen_nonneg (hu_slots t)). unfold i32_max. rewrite (proj2 (Z.leb_le (zlen (hu_slots t) + 1) _)) by lia. right.
      apply Hread; [lia|]. unfold zlen. rewrite Nat2Z.id. by apply list_lookup_middle.
Qed.
