(* ===== verification/Scoreboard.v ===== *)
(** * The scoreboard command

    crates/net/src/svc_scores.rs writes the players' scores into a line of text, sent as a reliable
    row; crates/gamemode_iw4/src/parse_scores.rs reads it back.  Integers are printed as Rust's
    [Display] prints them; a string is its UTF-8 bytes. *)

From S2P Require Export Utf8.
From stdpp Require Export sorting.

#[local] Open Scope Z_scope.

Definition PARSE_SCORES_CAP : Z := 0x12.
Definition SCORE_TOKENS_PER_CLIENT : Z := 8.
Definition SCORES_REQUEST_MS : Z := 2000.

(** ** Printing *)

(** The digits of [n]; a [u32] has at most ten. *)
Fixpoint digits (fuel : nat) (n : Z) : list byte :=
  match fuel with
  | O => []
  | S fuel => (if n <? 10 then [] else digits fuel (n / 10)) ++ [byte_of (48 + n mod 10)]
  end.

Definition decimal (z : Z) : list byte :=
  if z <? 0 then bs "-" ++ digits 10 (- z) else digits 10 z.

(** What the scoreboard shows of [ClientSnapshotMeta]. *)
Record ClientScore : Type := mkClientScore { sc_score : Z; sc_deaths : Z; sc_kills : Z }.

Definition fields (numbers : list Z) : list byte := concat (map (fun n => bs " " ++ decimal n) numbers).

Definition format_scoreboard_cmd (clients : list (Z * ClientScore)) (team_axis team_allies score_limit : Z)
    : list byte :=
  let n := Z.min (zlen clients) PARSE_SCORES_CAP in
  let entries := concat (map (fun row => fields [row.1; sc_score row.2; 0; sc_deaths row.2; 0; sc_kills row.2; 0; 0])
                           (ztake n clients)) in
  bs "b" ++ fields [n; team_axis; team_allies; score_limit] ++ entries.

(** The order of [sort_by]: the higher score first, then the fewer deaths. *)
Definition ranks_before (a b : Z * ClientScore) : bool :=
  (sc_score b.2 <? sc_score a.2) || ((sc_score a.2 =? sc_score b.2) && (sc_deaths a.2 <? sc_deaths b.2)).

(** A stable sort. *)
Fixpoint insert_ranked (row : Z * ClientScore) (rows : list (Z * ClientScore)) : list (Z * ClientScore) :=
  match rows with
  | [] => [row]
  | r :: rest => if ranks_before r row then r :: insert_ranked row rest else row :: rows
  end.

Definition sort_ranked (rows : list (Z * ClientScore)) : list (Z * ClientScore) := foldr insert_ranked [] rows.

(** The team scores are [objectives.scores], allies behind axis behind free. *)
Definition format_scoreboard_from_snapshot (clients : list (Z * ClientScore)) (team_scores : list Z)
    (score_limit : Z) : list byte :=
  format_scoreboard_cmd (ztake PARSE_SCORES_CAP (sort_ranked clients))
    (default 0 (team_scores !! 1%nat)) (default 0 (team_scores !! 2%nat)) score_limit.

(** ** Parsing *)

Record Score : Type := mkScore {
  s_client : Z; s_score : Z; s_ping : Z; s_deaths : Z; s_team : Z; s_kills : Z; s_rank : Z;
  s_assists : Z; s_statusicon : Z }.

Definition score_default : Score := mkScore 0 0 0 0 0 0 0 0 0.

Record ParsedScores : Type := mkParsedScores {
  ps_num : Z;
  ps_team_scores_axis : Z;
  ps_team_scores_allies : Z;
  ps_score_limit : Z;
  ps_scores : list Score;
  ps_extra_score : list Z;
  ps_status_icon_index : list Z;
}.

Definition parsed_default : ParsedScores :=
  let cap := Z.to_nat PARSE_SCORES_CAP in
  mkParsedScores 0 0 0 0 (replicate cap score_default) (replicate cap 0) (replicate cap 0).

(** [str::split_whitespace], on the characters; [word] is the word begun. *)
Fixpoint split_whitespace (word : list Z) (cs : list Z) : list (list Z) :=
  match cs with
  | [] => match word with [] => [] | _ => [word] end
  | c :: cs =>
      if is_whitespace c
      then match word with [] => split_whitespace [] cs | _ => word :: split_whitespace [] cs end
      else split_whitespace (word ++ [c]) cs
  end.

Definition argv (tokens : list (list byte)) (i : Z) : list byte := default [] (tokens !! Z.to_nat i).

(** [u8::is_ascii_whitespace], [u8::is_ascii_digit]. *)
Definition ascii_whitespace (b : byte) : bool :=
  let v := byte_val b in (v =? 0x20) || (v =? 9) || (v =? 10) || (v =? 12) || (v =? 13).
Definition ascii_digit (b : byte) : bool := let v := byte_val b in (48 <=? v) && (v <=? 57).

Fixpoint atol_digits (n : Z) (bytes : list byte) : Z :=
  match bytes with
  | b :: rest => if ascii_digit b then atol_digits (sat32 (sat32 (n * 10) + (byte_val b - 48))) rest else n
  | [] => n
  end.

Definition atol (s : list byte) : Z :=
  match drop_while ascii_whitespace s with
  | [] => 0
  | b :: rest =>
      let '(neg, bytes) :=
        if byte_val b =? 45 then (true, rest) else if byte_val b =? 43 then (false, rest) else (false, b :: rest) in
      match bytes with
      | d :: _ => if ascii_digit d then let n := atol_digits 0 bytes in if neg then sat32 (- n) else n else 0
      | [] => 0
      end
  end.

(** The row of client [i], stored in the tables. *)
Definition parse_row (tokens : list (list byte)) (out : ParsedScores) (i : nat) : ParsedScores :=
  let base := 5 + Z.of_nat i * SCORE_TOKENS_PER_CLIENT in
  let field k := atol (argv tokens (base + k)) in
  mkParsedScores (ps_num out) (ps_team_scores_axis out) (ps_team_scores_allies out) (ps_score_limit out)
    (<[i := mkScore (field 0) (field 1) (field 2) (field 3) 0 (field 5) 0 (field 6) 0]> (ps_scores out))
    (<[i := field 7]> (ps_extra_score out))
    (<[i := field 4]> (ps_status_icon_index out)).

Definition parse_scores (tokens : list (list byte)) : ParsedScores :=
  match argv tokens 0 with
  | b :: _ =>
      if byte_val b =? 98 then
        let num := Z.max 0 (Z.min PARSE_SCORES_CAP (atol (argv tokens 1))) in
        foldl (parse_row tokens)
          (mkParsedScores num (atol (argv tokens 2)) (atol (argv tokens 3)) (atol (argv tokens 4))
             (ps_scores parsed_default) (ps_extra_score parsed_default) (ps_status_icon_index parsed_default))
          (seq 0 (Z.to_nat num))
      else parsed_default
  | [] => parsed_default
  end.

(** A [&str] is valid UTF-8: the other case does not arise. *)
Definition parse_scoreboard_cmd (cmd : list byte) : ParsedScores :=
  match utf8_decode cmd with
  | Some cs => parse_scores (map utf8_encode (split_whitespace [] cs))
  | None => parsed_default
  end.

(** ** When it is sent *)

Record PendingScoreboard : Type := mkPendingScoreboard { pb_last_sent_ms : Z; pb_last_broadcast_ms : Z }.

Definition pending_scoreboard_default : PendingScoreboard := mkPendingScoreboard (-1) (-1).

(** [last < 0 || last + SCORES_REQUEST_MS < now]. *)
Definition scores_due (last now : Z) : bool := (last <? 0) || (i32_wrap (last + SCORES_REQUEST_MS) <? now).

Definition broadcast_due (s : PendingScoreboard) (now_ms : Z) : PendingScoreboard * bool :=
  if scores_due (pb_last_broadcast_ms s) now_ms
  then (mkPendingScoreboard (pb_last_sent_ms s) now_ms, true) else (s, false).

Definition take_if_due (s : PendingScoreboard) (scores_down : bool) (now_ms : Z) : PendingScoreboard * bool :=
  if negb scores_down then (mkPendingScoreboard (-1) (pb_last_broadcast_ms s), false)
  else if scores_due (pb_last_sent_ms s) now_ms
  then (mkPendingScoreboard now_ms (pb_last_broadcast_ms s), true) else (s, false).

(** * Properties of the scoreboard command

    What the host writes is read back: the best eighteen players, in order, with their scores. *)

(** ** Numbers *)

Definition is_digit (b : byte) : Prop := 48 <= byte_val b <= 57.

(** The value of a run of digits. *)
Definition digits_val (acc : Z) (bytes : list byte) : Z :=
  foldl (fun n b => n * 10 + (byte_val b - 48)) acc bytes.

Lemma digits_spec fuel n :
  0 <= n < 10 ^ Z.of_nat fuel -> (0 < fuel)%nat ->
  digits fuel n <> [] /\ Forall is_digit (digits fuel n) /\ digits_val 0 (digits fuel n) = n.
Proof.
  induction fuel as [|fuel IH] in n |- *; intros Hn Hf; [lia|]. cbn [digits].
  assert (Hd : is_digit (byte_of (48 + n mod 10)) /\ byte_val (byte_of (48 + n mod 10)) - 48 = n mod 10).
  { unfold is_digit. rewrite byte_of_small_val by ilia. ilia. }
  destruct Hd as [Hd Hv]. split; [by intros []%app_nil|]. unfold digits_val in *. rewrite foldl_app. cbn [foldl]. rewrite Hv.
  destruct (Z.ltb_spec n 10) as [Hlt|Hge].
  - cbn [app foldl]. split; [by constructor; [|constructor]|]. rewrite Z.mod_small by lia. lia.
  - destruct fuel as [|fuel]; [cbn in Hn; lia|].
    destruct (IH (n / 10)) as (_ & Hall & Hval); [|lia|].
    { split; [apply Z.div_pos; lia|]. apply Z.div_lt_upper_bound; [lia|]. rewrite <- Z.pow_succ_r by lia.
      rewrite <- Nat2Z.inj_succ. apply Hn. }
    split; [apply list.Forall_app; split; [done|by constructor; [|constructor]]|]. rewrite Hval.
    pose proof (Z.div_mod n 10). lia.
Qed.

Definition cap32 (z : Z) : Z := Z.min i32_max z.

Lemma digit_ascii b : is_digit b -> ascii_digit b = true.
Proof. unfold is_digit, ascii_digit. rewrite andb_true_iff, !Z.leb_le. done. Qed.

Lemma atol_digits_spec bytes n :
  0 <= n -> Forall is_digit bytes -> atol_digits (cap32 n) bytes = cap32 (digits_val n bytes).
Proof.
  intros Hn Hall. induction Hall as [|b bytes Hb _ IH] in n, Hn |- *; [done|]. cbn [atol_digits].
  rewrite digit_ascii by done. unfold digits_val. cbn [foldl]. fold (digits_val (n * 10 + (byte_val b - 48)) bytes).
  unfold is_digit in Hb. rewrite <- IH by lia. f_equal. unfold sat32, cap32, i32_min, i32_max. lia.
Qed.

(** What a number becomes on the way: [atol] saturates, and negates what it saturated. *)
Definition read_back (z : Z) : Z := Z.max (- i32_max) (Z.min i32_max z).

Lemma digit_not_space b : is_digit b -> ascii_whitespace b = false.
Proof. unfold is_digit, ascii_whitespace. intros Hb. rewrite !orb_false_iff, !Z.eqb_neq. lia. Qed.

Lemma atol_decimal z : - 10 ^ 10 < z < 10 ^ 10 -> atol (decimal z) = read_back z.
Proof.
  intros Hz. unfold decimal, atol, read_back. destruct (Z.ltb_spec z 0) as [Hneg|Hpos].
  - destruct (digits_spec 10 (- z)) as (Hne & Hall & Hval); [change (Z.of_nat 10) with 10; lia|lia|].
    generalize dependent (digits 10 (- z)). intros ds Hne Hall Hval.
    destruct ds as [|d ds]; [done|]. pose proof (atol_digits_spec _ 0 ltac:(lia) Hall) as Hatol. rewrite Hval in Hatol.
    inversion Hall; subst. change (bs "-" ++ d :: ds) with (byte_of 45 :: d :: ds). cbn [drop_while].
    change (ascii_whitespace (byte_of 45)) with false. cbv iota beta.
    change (byte_val (byte_of 45)) with 45. cbn [Z.eqb Pos.eqb].
    rewrite digit_ascii by done. change (cap32 0) with 0 in Hatol. rewrite Hatol. unfold sat32, cap32, i32_min, i32_max. lia.
  - destruct (digits_spec 10 z) as (Hne & Hall & Hval); [change (Z.of_nat 10) with 10; lia|lia|].
    generalize dependent (digits 10 z). intros ds Hne Hall Hval. destruct ds as [|d ds]; [done|].
    pose proof (atol_digits_spec _ 0 ltac:(lia) Hall) as Hatol. rewrite Hval in Hatol. inversion Hall as [|? ? Hd]; subst.
    cbn [drop_while]. rewrite digit_not_space by done. unfold is_digit in Hd.
    rewrite (proj2 (Z.eqb_neq _ 45)), (proj2 (Z.eqb_neq _ 43)) by lia. cbv iota. rewrite digit_ascii by done.
    change (cap32 0) with 0 in Hatol. rewrite Hatol. unfold cap32, i32_max. lia.
Qed.

(** ** Words *)

Definition plain (b : byte) : Prop := byte_val b < 128 /\ is_whitespace (byte_val b) = false.

Lemma decimal_plain z : - 10 ^ 10 < z < 10 ^ 10 -> decimal z <> [] /\ Forall plain (decimal z).
Proof.
  intros Hz. assert (Hd : forall b, is_digit b -> plain b).
  { unfold is_digit, plain, is_whitespace. intros b Hb. split; [lia|].
    rewrite !orb_false_iff, !andb_false_iff, !Z.leb_gt, !Z.eqb_neq. lia. }
  unfold decimal. destruct (Z.ltb_spec z 0).
  - destruct (digits_spec 10 (- z)) as (_ & Hall & _); [change (Z.of_nat 10) with 10; lia|lia|].
    split; [done|]. apply list.Forall_app. split; [by repeat constructor|]. by eapply list.Forall_impl.
  - destruct (digits_spec 10 z) as (Hne & Hall & _); [change (Z.of_nat 10) with 10; lia|lia|].
    split; [done|]. by eapply list.Forall_impl.
Qed.

Lemma decode_ascii bytes : Forall (fun b => byte_val b < 128) bytes -> utf8_decode bytes = Some (map byte_val bytes).
Proof.
  induction 1 as [|b bytes Hb _ IH]; [done|]. cbn [utf8_decode map]. by rewrite (proj2 (Z.ltb_lt _ 0x80)), IH.
Qed.

Lemma encode_ascii bytes : Forall (fun b => byte_val b < 128) bytes -> utf8_encode (map byte_val bytes) = bytes.
Proof.
  unfold utf8_encode. induction 1 as [|b bytes Hb _ IH]; [done|]. cbn [map concat]. rewrite IH. unfold encode_char.
  rewrite (proj2 (Z.ltb_lt _ 0x80)) by done. cbn [app]. by rewrite byte_of_val.
Qed.

Lemma split_word word bytes rest :
  Forall plain bytes -> split_whitespace word (map byte_val bytes ++ rest) = split_whitespace (word ++ map byte_val bytes) rest.
Proof.
  intros Hall. induction Hall as [|b bytes [_ Hb] _ IH] in word |- *; cbn [map app]; [by rewrite app_nil_r|].
  cbn [split_whitespace]. rewrite Hb, IH, <- app_assoc. done.
Qed.

(** A line of words is split into its words. *)
Lemma split_line first words :
  first <> [] -> Forall plain first -> Forall (fun w => w <> [] /\ Forall plain w) words ->
  map utf8_encode (split_whitespace [] (map byte_val (first ++ concat (map (fun w => bs " " ++ w) words)))) = first :: words.
Proof.
  intros Hne Hp Hall. induction Hall as [|w words [Hw Hpw] _ IH] in first, Hne, Hp |- *.
  - cbn [map concat]. rewrite app_nil_r, <- (app_nil_r (map byte_val first)), split_word by done. cbn [app split_whitespace].
    destruct first as [|b first]; [done|]. cbn [map]. rewrite <- map_cons. cbn [map]. f_equal.
    change (byte_val b :: map byte_val first) with (map byte_val (b :: first)). apply encode_ascii.
    eapply list.Forall_impl; [exact Hp|]. by intros ? [].
  - cbn [map concat]. rewrite map_app, split_word by done. rewrite <- app_assoc. cbn [app].
    change (bs " " ++ ?x) with (byte_of 32 :: x). cbn [map]. change (byte_val (byte_of 32)) with 32. cbn [split_whitespace].
    change (is_whitespace 32) with true. cbv iota. destruct first as [|b first]; [done|]. cbn [map app].
    change (byte_val b :: map byte_val first) with (map byte_val (b :: first)). cbn [map]. rewrite IH by done. f_equal.
    change (byte_val b :: map byte_val first) with (map byte_val (b :: first)). apply encode_ascii.
    eapply list.Forall_impl; [exact Hp|]. by intros ? [].
Qed.

(** ** The table *)

Definition small (z : Z) : Prop := - 10 ^ 10 < z < 10 ^ 10.

Definition row_numbers (row : Z * ClientScore) : list Z :=
  [row.1; sc_score row.2; 0; sc_deaths row.2; 0; sc_kills row.2; 0; 0].

Definition small_row (row : Z * ClientScore) : Prop := Forall small (row_numbers row).

Lemma fields_words numbers : fields numbers = concat (map (fun w => bs " " ++ w) (map decimal numbers)).
Proof. unfold fields. by rewrite map_map. Qed.

Lemma fields_app a b : fields (a ++ b) = fields a ++ fields b.
Proof. unfold fields. by rewrite map_app, concat_app. Qed.

Lemma fields_rows rows : concat (map (fun row => fields (row_numbers row)) rows) = fields (concat (map row_numbers rows)).
Proof. induction rows as [|row rows IH]; [done|]. cbn [map concat]. by rewrite fields_app, IH. Qed.

(** The words of a formatted line. *)
Lemma parse_formatted numbers :
  Forall small numbers ->
  parse_scoreboard_cmd (bs "b" ++ fields numbers) = parse_scores (bs "b" :: map decimal numbers).
Proof.
  intros Hall. rewrite fields_words. unfold parse_scoreboard_cmd.
  assert (Hw : Forall (fun w => w <> [] /\ Forall plain w) (map decimal numbers)).
  { apply List.Forall_map. eapply list.Forall_impl; [exact Hall|]. intros z Hz. by apply decimal_plain. }
  assert (Hb : Forall plain (bs "b")) by by repeat constructor.
  rewrite decode_ascii; [by rewrite split_line|].
  assert (Hascii : forall l, Forall plain l -> Forall (fun b => byte_val b < 128) l).
  { intros l Hl. eapply list.Forall_impl; [exact Hl|]. by intros ? []. }
  apply list.Forall_app. split; [by apply Hascii|]. clear Hb Hall.
  induction Hw as [|w words [_ Hp] _ IH]; [constructor|]. cbn [map concat]. rewrite !list.Forall_app.
  split; [|done]. split; [by repeat constructor|]. by apply Hascii.
Qed.

Lemma argv_number first numbers i z :
  Forall small numbers -> numbers !! i = Some z ->
  atol (argv (first :: map decimal numbers) (Z.of_nat (S i))) = read_back z.
Proof.
  intros Hall Hi. unfold argv. rewrite Nat2Z.id. change ((first :: map decimal numbers) !! S i) with ((decimal <$> numbers) !! i).
  rewrite list_lookup_fmap, Hi. cbn. apply atol_decimal. rewrite list.Forall_forall in Hall. apply Hall.
  by eapply list_elem_of_lookup_2.
Qed.

Lemma row_lookup rows i row k z :
  rows !! i = Some row -> row_numbers row !! k = Some z -> concat (map row_numbers rows) !! (i * 8 + k)%nat = Some z.
Proof.
  revert i. induction rows as [|r rows IH]; intros [|i] Hi Hk; cbn in Hi; try done.
  - injection Hi as ->. cbn [map concat]. apply lookup_app_l_Some. exact Hk.
  - cbn [map concat]. rewrite lookup_app_r by (cbn; lia). change (length (row_numbers r)) with 8%nat.
    replace (S i * 8 + k - 8)%nat with (i * 8 + k)%nat by lia. by apply IH.
Qed.

(** A row as the client shows it. *)
Definition shown_row (row : Z * ClientScore) : Score :=
  mkScore (read_back row.1) (read_back (sc_score row.2)) 0 (read_back (sc_deaths row.2)) 0
    (read_back (sc_kills row.2)) 0 0 0.

Definition shown (rows : list (Z * ClientScore)) (axis allies limit : Z) : ParsedScores :=
  mkParsedScores (zlen rows) (read_back axis) (read_back allies) (read_back limit)
    (map shown_row rows ++ replicate (18 - length rows) score_default) (replicate 18 0) (replicate 18 0).

(** The tables after [n] rows. *)
Lemma parse_rows_spec tokens rows out n :
  (forall i row, rows !! i = Some row ->
     map (fun k => atol (argv tokens (5 + Z.of_nat i * SCORE_TOKENS_PER_CLIENT + k))) [0; 1; 2; 3; 4; 5; 6; 7]
     = map read_back (row_numbers row)) ->
  (n <= length rows)%nat -> (length rows <= 18)%nat ->
  ps_scores out = replicate 18 score_default -> ps_extra_score out = replicate 18 0 ->
  ps_status_icon_index out = replicate 18 0 ->
  foldl (parse_row tokens) out (seq 0 n) =
    mkParsedScores (ps_num out) (ps_team_scores_axis out) (ps_team_scores_allies out) (ps_score_limit out)
      (map shown_row (take n rows) ++ replicate (18 - n) score_default) (replicate 18 0) (replicate 18 0).
Proof.
  intros Htok Hn Hlen Hs He Hi. induction n as [|n IH].
  { cbn [seq foldl take map app]. destruct out as [n a b c d e f]; cbn [ps_scores ps_extra_score ps_status_icon_index] in *. by subst. }
  rewrite seq_S, foldl_snoc, IH by lia. clear IH. cbn [Nat.add].
  destruct (lookup_lt_is_Some_2 rows n) as [row Hrow]; [lia|].
  unfold parse_row. cbn [ps_num ps_team_scores_axis ps_team_scores_allies ps_score_limit ps_scores ps_extra_score ps_status_icon_index].
  pose proof (Htok n row Hrow) as Hk. cbn [map row_numbers] in Hk.
  injection Hk as H0 H1 H2 H3 H4 H5 H6 H7. rewrite H0, H1, H2, H3, H4, H5, H6, H7.
  change (read_back 0) with 0. f_equal.
  - rewrite (take_S_r _ _ _ Hrow), map_app, <- app_assoc.
    replace (18 - n)%nat with (S (18 - S n)) by lia. cbn [replicate].
    replace n with (length (map shown_row (take n rows)) + 0)%nat at 1 by (rewrite length_map, length_take; lia).
    by rewrite insert_app_r.
  - apply list_insert_id. rewrite lookup_replicate_2; [done|lia].
  - apply list_insert_id. rewrite lookup_replicate_2; [done|lia].
Qed.

Lemma insert_ranked_spec row rows :
  insert_ranked row rows ≡ₚ row :: rows /\
  (StronglySorted (fun a b => ranks_before b a = false) rows ->
   StronglySorted (fun a b => ranks_before b a = false) (insert_ranked row rows)).
Proof.
  induction rows as [|r rows [IHp IHs]]; cbn [insert_ranked]; [split; [done|by repeat constructor]|].
  destruct (ranks_before r row) eqn:Er.
  - split; [rewrite IHp; constructor|]. intros Hs. apply StronglySorted_inv in Hs as [Hs Hall].
    constructor; [by apply IHs|]. rewrite IHp. constructor; [|done].
    unfold ranks_before in *. rewrite orb_true_iff, andb_true_iff, !Z.ltb_lt, Z.eqb_eq in Er.
    rewrite orb_false_iff, andb_false_iff, !Z.ltb_ge, Z.eqb_neq. lia.
  - split; [done|]. intros Hs. constructor; [done|]. apply StronglySorted_inv in Hs as [Hs Hall]. constructor; [done|].
    eapply list.Forall_impl; [exact Hall|]. intros x Hx. unfold ranks_before in *.
    rewrite orb_false_iff, andb_false_iff, !Z.ltb_ge, Z.eqb_neq in *. lia.
Qed.

Lemma sort_ranked_spec rows :
  sort_ranked rows ≡ₚ rows /\ StronglySorted (fun a b => ranks_before b a = false) (sort_ranked rows).
Proof.
  unfold sort_ranked. induction rows as [|row rows [IHp IHs]]; cbn [foldr]; [split; [done|constructor]|].
  destruct (insert_ranked_spec row (foldr insert_ranked [] rows)) as [Hp Hs]. split; [by rewrite Hp, IHp|auto].
Qed.

Lemma small_team (team_scores : list Z) i : Forall small team_scores -> small (default 0 (team_scores !! i)).
Proof.
  intros Hall. destruct (team_scores !! i) as [z|] eqn:E; cbn; [|done].
  rewrite list.Forall_forall in Hall. apply Hall. by eapply list_elem_of_lookup_2.
Qed.

(** A formatted line is read back as the table of its rows. *)
Lemma parse_format rows axis allies limit :
  (length rows <= 18)%nat -> Forall small_row rows -> small axis -> small allies -> small limit ->
  parse_scoreboard_cmd (format_scoreboard_cmd rows axis allies limit) = shown rows axis allies limit.
Proof.
  intros Hlen Hrows Ha Hal Hl. unfold format_scoreboard_cmd, PARSE_SCORES_CAP.
  rewrite Z.min_l by (unfold zlen; lia). unfold ztake at 1. replace (Z.to_nat (zlen rows)) with (length rows) by (unfold zlen; lia). rewrite firstn_all.
  change (fun row => fields [row.1; sc_score row.2; 0; sc_deaths row.2; 0; sc_kills row.2; 0; 0]) with
    (fun row => fields (row_numbers row)).
  rewrite fields_rows, <- fields_app. set (numbers := [zlen rows; axis; allies; limit] ++ concat (map row_numbers rows)).
  assert (Hsmall : Forall small numbers).
  { unfold numbers. apply list.Forall_app. split.
    - repeat constructor; try apply Ha; try apply Hal; try apply Hl; unfold zlen; lia.
    - clear -Hrows. induction Hrows as [|row rows Hr _ IH]; [constructor|]. cbn [map concat]. by apply list.Forall_app. }
  rewrite parse_formatted by done. unfold parse_scores.
  change (argv (bs "b" :: map decimal numbers) 0) with [byte_of 98]. cbv iota.
  change (byte_val (byte_of 98) =? 98) with true. cbv iota.
  pose proof (fun i z => argv_number (bs "b") numbers i z Hsmall) as Hnum.
  rewrite (Hnum 0%nat _ eq_refl : atol (argv _ 1) = _), (Hnum 1%nat _ eq_refl : atol (argv _ 2) = _),
    (Hnum 2%nat _ eq_refl : atol (argv _ 3) = _), (Hnum 3%nat _ eq_refl : atol (argv _ 4) = _).
  replace (Z.max 0 (Z.min 18 (read_back (zlen rows)))) with (zlen rows) by (unfold read_back, i32_max, zlen; lia).
  unfold PARSE_SCORES_CAP. replace (Z.max 0 (Z.min 0x12 (read_back (zlen rows)))) with (zlen rows) by (unfold read_back, i32_max, zlen; lia).
  assert (Htok : forall i row, rows !! i = Some row ->
     map (fun k => atol (argv (bs "b" :: map decimal numbers) (5 + Z.of_nat i * SCORE_TOKENS_PER_CLIENT + k)))
       [0; 1; 2; 3; 4; 5; 6; 7] = map read_back (row_numbers row)).
  { intros i row Hrow. assert (Hk : forall k z, row_numbers row !! k = Some z ->
      atol (argv (bs "b" :: map decimal numbers) (5 + Z.of_nat i * SCORE_TOKENS_PER_CLIENT + Z.of_nat k)) = read_back z).
    { intros k z Hz. unfold SCORE_TOKENS_PER_CLIENT.
      replace (5 + Z.of_nat i * 8 + Z.of_nat k) with (Z.of_nat (S (4 + (i * 8 + k)))) by lia.
      apply Hnum. unfold numbers. rewrite lookup_app_r by (cbn [length]; lia). cbn [length].
      replace (4 + (i * 8 + k) - 4)%nat with (i * 8 + k)%nat by lia. by apply row_lookup with row. }
    cbn [map row_numbers]. repeat f_equal;
      [apply (Hk 0%nat)|apply (Hk 1%nat)|apply (Hk 2%nat)|apply (Hk 3%nat)|apply (Hk 4%nat)|apply (Hk 5%nat)
      |apply (Hk 6%nat)|apply (Hk 7%nat)]; reflexivity. }
  rewrite (parse_rows_spec _ rows _ _ Htok) by (done || (unfold zlen; lia)).
  unfold shown, zlen. cbn [ps_num ps_team_scores_axis ps_team_scores_allies ps_score_limit].
  rewrite Nat2Z.id, firstn_all. done.
Qed.

(** The client shows the scoreboard the host wrote: the best eighteen players, the higher
    score first and among equal scores the fewer deaths, each with client number, score, deaths
    and kills, and the two team scores and the limit.  Numbers come through unchanged between
    -2147483647 and 2147483647; the parser saturates the others there. *)
Theorem scoreboard_roundtrip clients team_scores limit :
  Forall small_row clients -> Forall small team_scores -> small limit ->
  exists ranking,
    ranking ≡ₚ clients /\ StronglySorted (fun a b => ranks_before b a = false) ranking /\
    parse_scoreboard_cmd (format_scoreboard_from_snapshot clients team_scores limit) =
      shown (take 18 ranking) (default 0 (team_scores !! 1%nat)) (default 0 (team_scores !! 2%nat)) limit.
Proof.
  intros Hc Ht Hl. exists (sort_ranked clients). destruct (sort_ranked_spec clients) as [Hp Hs].
  split; [done|]. split; [done|]. unfold format_scoreboard_from_snapshot. apply parse_format.
  - unfold ztake. rewrite length_take. change (Z.to_nat PARSE_SCORES_CAP) with 18%nat. lia.
  - apply Forall_take. by rewrite Hp.
  - by apply small_team.
  - by apply small_team.
  - done.
Qed.

Definition demo_clients : list (Z * ClientScore) :=
  [(0, mkClientScore 250 3 5); (4, mkClientScore (-50) 9 0); (2, mkClientScore 250 1 5)].

Lemma scoreboard_roundtrip_witness :
  Forall small_row demo_clients /\ Forall small [0; 12; -3] /\ small 7500 /\
  format_scoreboard_from_snapshot demo_clients [0; 12; -3] 7500 =
    bs "b 3 12 -3 7500 2 250 0 1 0 5 0 0 0 250 0 3 0 5 0 0 4 -50 0 9 0 0 0 0" /\
  ps_num (parse_scoreboard_cmd (format_scoreboard_from_snapshot demo_clients [0; 12; -3] 7500)) = 3.
Proof.
  assert (H1 : Forall small_row demo_clients) by (repeat constructor).
  assert (H2 : Forall small [0; 12; -3]) by (repeat constructor).
  assert (H3 : small 7500) by (repeat constructor).
  split; [exact H1|]. split; [exact H2|]. split; [exact H3|]. split; [vm_compute; reflexivity|].
  destruct (scoreboard_roundtrip demo_clients [0; 12; -3] 7500 H1 H2 H3) as (ranking & Hp & _ & ->).
  unfold shown. cbn [ps_num]. unfold zlen. rewrite length_take, (Permutation_length Hp). reflexivity.
Defined.
