(* ===== verification/Fanout.v ===== *)
(** * Fanning a tick out to the clients

    The queues of sounds, cards, menus, splashes and notices waiting for their recipients
    (svc_sound.rs, svc_playercard.rs, svc_gamenotify.rs of crates/net), the audio commands of
    svc_script_audio.rs, and the part of [fanout_loopback] (authority/runtime.rs) that turns them
    into rows of the reliable queues, with the scoreboard when a broadcast is due.  The snapshots sent beside the rows are not part of it. *)

From S2P Require Export Authority ConfigStrings Scoreboard.
From S2P Require Export AuthorityMain RowWireMain ConfigStrings.

#[local] Open Scope Z_scope.

(** ** Sounds *)

Record PendingAlias : Type := mkPendingAlias { pa_client : Z; pa_stop : bool; pa_alias : list byte }.

Record PendingSvcSounds : Type := mkSvcSounds {
  ss_queued : list PendingAlias;
  ss_indexed : list (Z * SvcSound);
  ss_dropped_index_zero : Z;
  ss_stranded : Z;
  ss_last_queued_alias : option (list byte);
  ss_last_index : Z;
  ss_last_dropped_alias : option (list byte);
}.

Definition svc_sounds_default : PendingSvcSounds := mkSvcSounds [] [] 0 0 None 0 None.

Definition saturating_add64 (a b : Z) : Z := Z.min u64_max (a + b).

Definition push_alias (s : PendingSvcSounds) (client : Z) (stop : bool) (alias : list byte) : PendingSvcSounds :=
  mkSvcSounds (ss_queued s ++ [mkPendingAlias client stop alias]) (ss_indexed s) (ss_dropped_index_zero s)
    (ss_stranded s) (Some alias) (ss_last_index s) (ss_last_dropped_alias s).

(** One queued alias is numbered by the world's table. *)
Definition occupy_one (st : SoundAliasCs * PendingSvcSounds) (cmd : PendingAlias) : SoundAliasCs * PendingSvcSounds :=
  let '(table, s) := st in
  let '(table, index) := alias_index table (pa_alias cmd) in
  (table,
   if index =? 0 then
     mkSvcSounds (ss_queued s) (ss_indexed s) (saturating_add64 (ss_dropped_index_zero s) 1) (ss_stranded s)
       (ss_last_queued_alias s) (ss_last_index s) (Some (pa_alias cmd))
   else
     mkSvcSounds (ss_queued s) (ss_indexed s ++ [(pa_client cmd, mkSound (pa_stop cmd) index)])
       (ss_dropped_index_zero s) (ss_stranded s) (ss_last_queued_alias s) index (ss_last_dropped_alias s)).

Definition occupy_cs (table : SoundAliasCs) (s : PendingSvcSounds) : SoundAliasCs * PendingSvcSounds :=
  foldl occupy_one
    (table, mkSvcSounds [] (ss_indexed s) (ss_dropped_index_zero s) (ss_stranded s) (ss_last_queued_alias s)
              (ss_last_index s) (ss_last_dropped_alias s)) (ss_queued s).

Record PendingLocalSound : Type := mkLocalSound { ls_recipient : Z; ls_stop : bool; ls_alias_index : Z }.

Definition adopt_sound (s : PendingSvcSounds) (sound : PendingLocalSound) : PendingSvcSounds :=
  if ls_alias_index sound =? 0 then
    mkSvcSounds (ss_queued s) (ss_indexed s) (saturating_add64 (ss_dropped_index_zero s) 1) (ss_stranded s)
      (ss_last_queued_alias s) (ss_last_index s) (ss_last_dropped_alias s)
  else
    mkSvcSounds (ss_queued s) (ss_indexed s ++ [(ls_recipient sound, mkSound (ls_stop sound) (ls_alias_index sound))])
      (ss_dropped_index_zero s) (ss_stranded s) (ss_last_queued_alias s) (ss_last_index s) (ss_last_dropped_alias s).

Definition adopt_sounds (s : PendingSvcSounds) (effects : list PendingLocalSound) : PendingSvcSounds :=
  foldl adopt_sound s effects.

Definition set_indexed (s : PendingSvcSounds) (indexed : list (Z * SvcSound)) : PendingSvcSounds :=
  mkSvcSounds (ss_queued s) indexed (ss_dropped_index_zero s) (ss_stranded s) (ss_last_queued_alias s)
    (ss_last_index s) (ss_last_dropped_alias s).

Definition take_sounds (s : PendingSvcSounds) (client : Z) : PendingSvcSounds * list SvcSound :=
  (set_indexed s (filter (fun row => row.1 <> client) (ss_indexed s)),
   map snd (filter (fun row => row.1 = client) (ss_indexed s))).

Definition drain_stranded_sounds (s : PendingSvcSounds) : PendingSvcSounds * list (Z * SvcSound) :=
  (mkSvcSounds (ss_queued s) [] (ss_dropped_index_zero s) (saturating_add64 (ss_stranded s) (zlen (ss_indexed s)))
     (ss_last_queued_alias s) (ss_last_index s) (ss_last_dropped_alias s), ss_indexed s).

(** ** Player cards *)

Inductive PendingKind : Type :=
| CardSlot (source slot : Z)
| OpenMenu (cs_index : Z)
| Splash (key : list byte) (slot optional : Z).

Record PendingPlayerCard : Type := mkPlayerCard { pk_rows : list (Z * PendingKind); pk_stranded : Z }.

Definition player_card_default : PendingPlayerCard := mkPlayerCard [] 0.

(** [adopt_events]: each event becomes the row of its recipient. *)
Definition adopt_card_events (s : PendingPlayerCard) (effects : list (Z * PendingKind)) : PendingPlayerCard :=
  mkPlayerCard (pk_rows s ++ effects) (pk_stranded s).

Definition card_slot_of (kind : PendingKind) : option SvcCardSlot :=
  match kind with CardSlot source slot => Some (mkCardSlot source slot) | _ => None end.
Definition open_menu_of (kind : PendingKind) : option SvcOpenMenu :=
  match kind with OpenMenu cs_index => Some (mkOpenMenu cs_index) | _ => None end.
Definition splash_of (kind : PendingKind) : option SvcHudSplash :=
  match kind with Splash key slot optional => Some (mkSplash key slot optional) | _ => None end.

Definition take_cards (s : PendingPlayerCard) (client : Z)
    : PendingPlayerCard * (list SvcCardSlot * list SvcOpenMenu * list SvcHudSplash) :=
  let kinds := map snd (filter (fun row => row.1 = client) (pk_rows s)) in
  (mkPlayerCard (filter (fun row => row.1 <> client) (pk_rows s)) (pk_stranded s),
   (omap card_slot_of kinds, omap open_menu_of kinds, omap splash_of kinds)).

Definition drain_stranded_cards (s : PendingPlayerCard) : PendingPlayerCard * Z :=
  (mkPlayerCard [] (saturating_add64 (pk_stranded s) (zlen (pk_rows s))), zlen (pk_rows s)).

(** ** Notices *)

Definition EXE_LEFTGAME : list byte := bs "EXE_LEFTGAME".

(** [is_char_boundary]. *)
Definition is_char_boundary (text : list byte) (i : Z) : bool :=
  if i =? 0 then true
  else match text !! Z.to_nat i with
       | Some b => negb (is_cont (byte_val b))
       | None => i =? zlen text
       end.

Fixpoint boundary_below (text : list byte) (fuel : nat) (i : Z) : Z :=
  match fuel with
  | O => i
  | S fuel => if is_char_boundary text i then i else boundary_below text fuel (i - 1)
  end.

Definition clip (text : list byte) : list byte :=
  if u8_max <? zlen text then ztake (boundary_below text 255 u8_max) text else text.

Record PendingGameNotify : Type := mkGameNotify {
  pn_next_id : Z;
  pn_rows : list (option Z * SvcGameNotify);
}.

Definition game_notify_default : PendingGameNotify := mkGameNotify 0 [].

Definition push_notify (s : PendingGameNotify) (recipient : option Z) (tag : Z) (name key : list byte)
    : PendingGameNotify :=
  mkGameNotify (wrapping_add32 (pn_next_id s) 1)
    (pn_rows s ++ [(recipient, mkNotify (pn_next_id s) tag (clip name) (clip key))]).

Definition push_left (s : PendingGameNotify) (name : list byte) : PendingGameNotify :=
  push_notify s None SVC_DISCONNECT_NOTIFY name EXE_LEFTGAME.

Record PendingPrint : Type := mkPrint {
  pp_recipient : option Z; pp_bold : bool; pp_chat : bool; pp_template : list byte; pp_arg : list byte }.

Definition print_tag (print : PendingPrint) : Z :=
  if pp_chat print then SVC_CHAT else if pp_bold print then SVC_PRINT_BOLD else SVC_PRINT.

Definition adopt_prints (s : PendingGameNotify) (effects : list PendingPrint) : PendingGameNotify :=
  foldl (fun s print => push_notify s (pp_recipient print) (print_tag print) (pp_arg print) (pp_template print))
    s effects.

(** [recipient.is_none_or(|r| r == client)]. *)
Definition notify_for (client : Z) (recipient : option Z) : bool :=
  match recipient with None => true | Some r => r =? client end.

Definition notifies_for (s : PendingGameNotify) (client : Z) : list SvcGameNotify :=
  map snd (filter (fun row => notify_for client row.1 = true) (pn_rows s)).

Definition clear_after_fanout (s : PendingGameNotify) : PendingGameNotify := mkGameNotify (pn_next_id s) [].

(** ** The fanout of rows *)

Record TickEffects : Type := mkEffects {
  fx_prints : list PendingPrint;
  fx_local_sounds : list PendingLocalSound;
  fx_player_cards : list (Z * PendingKind);
  fx_script_audio : list ScriptAudioCommand;
  fx_kicks : list (Z * list byte);
}.

(** What the scoreboard line is made from: the players, the team scores, the limit. *)
Record Board : Type := mkBoard {
  bd_clients : list (Z * ClientScore); bd_team_scores : list Z; bd_score_limit : Z }.

Record FanoutQueues : Type := mkFanout {
  fo_reliable : Hub WireRow;
  fo_faults : list (Z * FaultReason);
  fo_svc : PendingSvcSounds;
  fo_cards : PendingPlayerCard;
  fo_notify : PendingGameNotify;
  fo_scores : PendingScoreboard;
}.

Definition push_rows (hub : Hub WireRow) (client : Z) (rows : list WireRow) : Hub WireRow :=
  foldl (fun hub row => (hub_push hub client row).1) hub rows.

Definition kick (st : Hub WireRow * list (Z * FaultReason)) (k : Z * list byte)
    : Hub WireRow * list (Z * FaultReason) :=
  ((hub_push st.1 k.1 (RowFailure k.2)).1, st.2 ++ [(k.1, Kicked k.2)]).

Definition fanout_script_audio (hub : Hub WireRow) (clients : list Z) (commands : list ScriptAudioCommand)
    : Hub WireRow :=
  foldl (fun hub client =>
           foldl (fun hub command =>
                    if match audio_target command with Some target => negb (target =? client) | None => false end
                    then hub else (hub_push hub client (RowScriptAudio command)).1) hub commands)
    hub clients.

Definition sound_row (s : SvcSound) : WireRow := RowSound (sn_stop s) (sn_index s).

(** The rows of one client on the roster: its sounds, cards, menus, splashes, notices and, when a
    broadcast is due, the scoreboard. *)
Definition fanout_client (scores_broadcast : option (list byte))
    (st : Hub WireRow * PendingSvcSounds * PendingPlayerCard * PendingGameNotify) (client : Z)
    : Hub WireRow * PendingSvcSounds * PendingPlayerCard * PendingGameNotify :=
  let '(hub, svc, cards, notify) := st in
  let '(svc, sounds) := take_sounds svc client in
  let '(cards, (slots, menus, splashes)) := take_cards cards client in
  let hub := push_rows hub client (map sound_row sounds) in
  let hub := push_rows hub client (map RowCard slots) in
  let hub := push_rows hub client (map RowMenu menus) in
  let hub := push_rows hub client (map RowSplash splashes) in
  let hub := push_rows hub client (map RowNotify (notifies_for notify client)) in
  let hub := match scores_broadcast with Some line => push_rows hub client [RowScores line] | None => hub end in
  (hub, svc, cards, notify).

(** The rows of [fanout_loopback]; [None] when no tick was published. *)
Definition fanout_rows (clients : list Z) (effects : TickEffects) (board : Board) (scores_down : bool)
    (now_ms : Z) (q : FanoutQueues) : FanoutQueues :=
  let '(hub, faults) := foldl kick (fo_reliable q, fo_faults q) (fx_kicks effects) in
  let cards := adopt_card_events (fo_cards q) (fx_player_cards effects) in
  let notify := adopt_prints (fo_notify q) (fx_prints effects) in
  let svc := adopt_sounds (fo_svc q) (fx_local_sounds effects) in
  let hub := fanout_script_audio hub clients (fx_script_audio effects) in
  let '(scores, _) := take_if_due (fo_scores q) scores_down now_ms in
  let '(scores, due) := broadcast_due scores now_ms in
  let line := if due
    then Some (format_scoreboard_from_snapshot (bd_clients board) (bd_team_scores board) (bd_score_limit board))
    else None in
  let '(hub, svc, cards, notify) := foldl (fanout_client line) (hub, svc, cards, notify) clients in
  mkFanout hub faults svc cards (clear_after_fanout notify) scores.

(** * Properties of the fanout

    Texts are cut at character boundaries and every notice can be sent; the rows queued for each
    client are exactly those meant for it, in a fixed order, once. *)

(** ** Cutting a text *)

(** The bytes of a character: the first one is no continuation byte, the others are. *)
Lemma encode_char_bytes c :
  is_scalar c = true ->
  exists b rest, encode_char c = b :: rest /\ is_cont (byte_val b) = false /\
    Forall (fun b => is_cont (byte_val b) = true) rest /\ (length rest <= 3)%nat.
Proof.
  intros Hc%is_scalar_spec. unfold encode_char.
  repeat case_match; repeat zif; eexists _, _; (split; [reflexivity|]);
    (split; [unfold is_cont; rewrite byte_of_small_val by ilia; apply andb_false_iff; rewrite Z.leb_gt, Z.ltb_ge; ilia|]);
    (split; [|cbn; lia]); repeat constructor; apply is_cont_spec; rewrite byte_of_small_val by ilia; ilia.
Qed.

(** A boundary in the text is a boundary between characters. *)
Lemma boundary_split cs i :
  Forall (fun c => is_scalar c = true) cs -> 0 <= i <= zlen (utf8_encode cs) ->
  is_char_boundary (utf8_encode cs) i = true ->
  exists before after, cs = before ++ after /\ ztake i (utf8_encode cs) = utf8_encode before.
Proof.
  unfold utf8_encode. intros Hcs. induction Hcs as [|c cs Hc Hcs IH] in i |- *; intros Hi Hb.
  { exists [], []. split; [done|]. unfold ztake. cbn [map concat]. by destruct (Z.to_nat i). }
  destruct (Z.eq_dec i 0) as [->|Hi0]; [by exists [], (c :: cs)|].
  cbn [map concat] in *. set (rest := concat (map encode_char cs)) in *.
  destruct (encode_char_bytes c Hc) as (b & bytes & Hchar & _ & Hcont & _).
  assert (Hge : zlen (encode_char c) <= i).
  { destruct (Z.le_gt_cases (zlen (encode_char c)) i) as [|Hlt]; [done|exfalso].
    unfold is_char_boundary in Hb. rewrite (proj2 (Z.eqb_neq i 0)) in Hb by done.
    assert (Hin : exists b', (encode_char c ++ rest) !! Z.to_nat i = Some b' /\ is_cont (byte_val b') = true).
    { rewrite Hchar in *. rewrite zlen_cons in Hlt. destruct (Z.to_nat i) as [|k] eqn:Ek; [lia|]. cbn [app lookup list_lookup].
      destruct (lookup_lt_is_Some_2 bytes k) as [b' Hb']; [unfold zlen in Hlt; lia|]. exists b'.
      split; [by apply lookup_app_l_Some|]. rewrite list.Forall_forall in Hcont. apply Hcont. by eapply list_elem_of_lookup_2. }
    destruct Hin as (b' & Hl & Hb'). by rewrite Hl, Hb' in Hb. }
  rewrite zlen_app in Hi. pose proof (zlen_encode_char c).
  destruct (IH (i - zlen (encode_char c))) as (before & after & -> & Ht); [lia| |].
  { unfold is_char_boundary in *. rewrite (proj2 (Z.eqb_neq i 0)) in Hb by done.
    destruct (Z.eqb_spec (i - zlen (encode_char c)) 0) as [|Hne]; [done|].
    rewrite lookup_app_r in Hb by (unfold zlen in *; lia).
    replace (Z.to_nat i - length (encode_char c))%nat with (Z.to_nat (i - zlen (encode_char c))) in Hb by (unfold zlen; lia).
    destruct (rest !! Z.to_nat (i - zlen (encode_char c))); [done|]. rewrite zlen_app in Hb. lia. }
  exists (c :: before), after. split; [done|]. cbn [map concat]. rewrite <- Ht. unfold ztake.
  rewrite take_app. f_equal; [apply take_ge; unfold zlen in *; lia|]. f_equal. unfold zlen. lia.
Qed.

(** At most three steps back from any place there is a boundary. *)
Lemma boundary_below_spec text fuel i :
  0 <= i -> i <= Z.of_nat fuel ->
  is_char_boundary text (boundary_below text fuel i) = true /\ 0 <= boundary_below text fuel i <= i.
Proof.
  revert i. induction fuel as [|fuel IH]; intros i Hi Hf; cbn [boundary_below].
  { replace i with 0 by lia. split; [done|lia]. }
  destruct (is_char_boundary text i) eqn:E; [split; [done|lia]|].
  assert (i <> 0) by by intros ->. destruct (IH (i - 1)) as [Hb Hr]; [lia|lia|]. split; [done|lia].
Qed.

Lemma clip_spec text :
  utf8_valid text = true ->
  valid_string 255 (clip text) /\ clip text `prefix_of` text /\ (zlen text <= 255 -> clip text = text).
Proof.
  unfold clip, u8_max, valid_string. intros Hv. destruct (Z.ltb_spec 255 (zlen text)) as [Hlong|Hshort].
  2: { split; [done|]. by split. }
  destruct (boundary_below_spec text 255 255) as [Hb Hr]; [lia|lia|].
  set (i := boundary_below text 255 255) in *. unfold utf8_valid in Hv.
  destruct (utf8_decode text) as [cs|] eqn:Ed; [|done]. destruct (encode_decode text cs Ed) as [He Hs].
  split; [|split; [|lia]].
  - rewrite <- He in *. destruct (boundary_split cs i Hs) as (before & after & -> & Ht); [lia|done|]. split.
    + rewrite Ht. apply utf8_valid_encode. by apply list.Forall_app in Hs as [? _].
    + unfold ztake, zlen. rewrite length_take. lia.
  - exists (zdrop i text). unfold ztake, zdrop. by rewrite take_drop.
Qed.

(** ** Notices *)

(** What the host calls: a player left, or the simulation printed something. *)
Inductive NotifyOp : Type :=
| NoLeft (name : list byte)
| NoPrints (effects : list PendingPrint)
| NoClear.

Definition notify_op (s : PendingGameNotify) (op : NotifyOp) : PendingGameNotify :=
  match op with
  | NoLeft name => push_left s name
  | NoPrints effects => adopt_prints s effects
  | NoClear => clear_after_fanout s
  end.

(** The arguments are strings. *)
Definition strings (op : NotifyOp) : Prop :=
  match op with
  | NoLeft name => utf8_valid name = true
  | NoPrints effects => Forall (fun p => utf8_valid (pp_arg p) = true /\ utf8_valid (pp_template p) = true) effects
  | NoClear => True
  end.

Definition notify_ok (s : PendingGameNotify) : Prop :=
  is_u32 (pn_next_id s) /\ Forall (fun row => valid_notify row.2) (pn_rows s).

Lemma push_notify_ok s recipient tag name key :
  notify_ok s -> known_notify_tag tag = true -> utf8_valid name = true -> utf8_valid key = true ->
  notify_ok (push_notify s recipient tag name key).
Proof.
  intros [Hid Hrows] Ht Hn Hk. split; cbn [push_notify pn_next_id pn_rows].
  { unfold is_u32, u32_max, wrapping_add32, wrap32. pose proof (Z.mod_pos_bound (pn_next_id s + 1) (2 ^ 32)). lia. }
  apply list.Forall_app. split; [done|]. constructor; [|constructor]. cbn [snd]. unfold valid_notify.
  cbn [gn_id gn_tag gn_name gn_key]. destruct (clip_spec name Hn) as [? _], (clip_spec key Hk) as [? _]. auto.
Qed.

Lemma notify_op_ok s op : notify_ok s -> strings op -> notify_ok (notify_op s op).
Proof.
  intros Hs Hop. destruct op as [name|effects|]; cbn [notify_op strings] in *.
  - unfold push_left. apply push_notify_ok; [done|reflexivity|done|by vm_compute].
  - unfold adopt_prints. revert s Hs. induction Hop as [|p effects [Ha Ht] _ IH]; intros s Hs; [done|]. cbn [foldl].
    apply IH, push_notify_ok; [done| |done|done]. unfold print_tag. by destruct (pp_chat p), (pp_bold p).
  - destruct Hs. by split.
Qed.

(** Every notice the host queues can be sent and is read as it was queued, however long its
    texts were: they are cut to 255 bytes between characters, so the length byte never wraps and
    the bytes stay valid UTF-8. *)
Theorem notices_are_sendable ops client notice :
  Forall strings ops -> notice ∈ notifies_for (foldl notify_op game_notify_default ops) client ->
  exists bytes, encode_row (RowNotify notice) = Some bytes /\ parses decode_row bytes (RowNotify notice).
Proof.
  intros Hops Hin. assert (Hok : notify_ok (foldl notify_op game_notify_default ops)).
  { clear Hin. assert (H0 : notify_ok game_notify_default) by (split; [done|constructor]). revert H0.
    generalize game_notify_default. induction Hops as [|op ops Hop _ IH]; intros s Hs; [done|]. cbn [foldl].
    by apply IH, notify_op_ok. }
  destruct Hok as [_ Hrows]. unfold notifies_for in Hin. apply list_elem_of_fmap in Hin as ([r n] & -> & Hin).
  apply list_elem_of_filter in Hin as [_ Hin]. rewrite list.Forall_forall in Hrows. specialize (Hrows _ Hin). cbn [snd] in *.
  assert (He : exists bytes, encode_row (RowNotify n) = Some bytes) by (eexists; reflexivity).
  destruct He as [bytes He]. exists bytes. split; [done|]. by apply (partial_parses (valid := valid_row)).
Qed.

Lemma notices_are_sendable_witness :
  Forall strings [NoLeft (bs "Ghost")] /\
  exists bytes, encode_row (RowNotify (mkNotify 0 SVC_DISCONNECT_NOTIFY (bs "Ghost") EXE_LEFTGAME)) = Some bytes /\
    parses decode_row bytes (RowNotify (mkNotify 0 SVC_DISCONNECT_NOTIFY (bs "Ghost") EXE_LEFTGAME)).
Proof.
  assert (Hs : Forall strings [NoLeft (bs "Ghost")]) by (by repeat constructor).
  split; [exact Hs|]. apply (notices_are_sendable [NoLeft (bs "Ghost")] 4 _ Hs). vm_compute. by left.
Defined.

(** ** The rows of a client *)

Definition kick_rows (client : Z) (kicks : list (Z * list byte)) : list WireRow :=
  map (fun k => RowFailure k.2) (mine client kicks).

(** A command without a target is for everyone. *)
Definition heard_by (client : Z) (cmd : ScriptAudioCommand) : Prop :=
  match cmd with
  | ChannelVolumesSet target _ _ _ | DeactivateChannelVolumes target _ _ => target = client
  | MusicPlay _ | MusicStop _ | SoundFade _ _ => True
  end.

#[export] Instance heard_by_dec client cmd : Decision (heard_by client cmd).
Proof. destruct cmd; cbn; apply _. Defined.

Definition audio_rows (client : Z) (cmds : list ScriptAudioCommand) : list WireRow :=
  map RowScriptAudio (filter (heard_by client) cmds).

Definition sound_of (sound : PendingLocalSound) : option (Z * SvcSound) :=
  if ls_alias_index sound =? 0 then None
  else Some (ls_recipient sound, mkSound (ls_stop sound) (ls_alias_index sound)).

(** What the queues hold for a client, by kind. *)
Definition queued_rows (client : Z) (sounds : list (Z * SvcSound)) (cards : list (Z * PendingKind)) : list WireRow :=
  map (fun row => sound_row row.2) (mine client sounds) ++
  map RowCard (omap card_slot_of (map snd (mine client cards))) ++
  map RowMenu (omap open_menu_of (map snd (mine client cards))) ++
  map RowSplash (omap splash_of (map snd (mine client cards))).

Lemma push_rows_queue hub c rows client :
  hub_queue (push_rows hub c rows) client =
    if bool_decide (c = client) then foldl push_row (hub_queue hub client) rows else hub_queue hub client.
Proof.
  unfold push_rows. induction rows as [|row rows IH] in hub |- *; cbn [foldl]; [by case_bool_decide|].
  rewrite IH, hub_push_queue. by whose c client.
Qed.

Lemma kicks_queue kicks st client :
  hub_queue (foldl kick st kicks).1 client = foldl push_row (hub_queue st.1 client) (kick_rows client kicks) /\
  (foldl kick st kicks).2 = st.2 ++ map (fun k => (k.1, Kicked k.2)) kicks.
Proof.
  unfold kick_rows, mine. induction kicks as [|k kicks IH] in st |- *; cbn [foldl map]; [by rewrite app_nil_r|].
  destruct (IH (kick st k)) as [-> ->]. cbn [kick fst snd]. rewrite hub_push_queue, filter_cons, <- app_assoc.
  split; [|done]. destruct (decide (k.1 = client)) as [Hk|Hk].
  - rewrite bool_decide_eq_true_2 by done. by rewrite Hk.
  - by rewrite bool_decide_eq_false_2.
Qed.

Lemma audio_queue hub clients cmds client :
  NoDup clients ->
  hub_queue (fanout_script_audio hub clients cmds) client =
    if bool_decide (client ∈ clients) then foldl push_row (hub_queue hub client) (audio_rows client cmds)
    else hub_queue hub client.
Proof.
  unfold fanout_script_audio. intros Hnd.
  set (f := fun c (hub : Hub WireRow) command =>
    if match audio_target command with Some target => negb (target =? c) | None => false end
    then hub else (hub_push hub c (RowScriptAudio command)).1).
  assert (Hone : forall hub c, hub_queue (foldl (f c) hub cmds) client =
            if bool_decide (c = client) then foldl push_row (hub_queue hub client) (audio_rows client cmds) else hub_queue hub client).
  { unfold audio_rows. induction cmds as [|cmd cmds IH]; intros hub0 c; cbn [foldl]; [by case_bool_decide|].
    rewrite IH, filter_cons. clear IH. assert (Hc : match audio_target cmd with Some target => negb (target =? c) | None => false end
                                          = negb (bool_decide (heard_by c cmd))).
    { destruct cmd; cbn [audio_target heard_by]; try done;
        (case_bool_decide; [by subst; rewrite Z.eqb_refl|by apply negb_true_iff, Z.eqb_neq]). }
    unfold f. rewrite Hc. destruct (decide (c = client)) as [->|Hne].
    - rewrite !(bool_decide_eq_true_2 (client = client)) by done.
      destruct (decide (heard_by client cmd)).
      + rewrite bool_decide_eq_true_2 by done. cbn [negb map foldl]. by rewrite hub_push_queue, bool_decide_eq_true_2.
      + by rewrite bool_decide_eq_false_2.
    - rewrite !(bool_decide_eq_false_2 (c = client)) by done. destruct (negb _); [done|].
      by rewrite hub_push_queue, bool_decide_eq_false_2. }
  revert hub. induction Hnd as [|c clients Hout _ IH]; intros hub; [done|]. cbn [foldl]. rewrite IH.
  change (foldl _ hub cmds) with (foldl (f c) hub cmds). rewrite Hone.
  destruct (decide (c = client)) as [->|Hne].
  - rewrite (bool_decide_eq_false_2 (client ∈ clients)), (bool_decide_eq_true_2 (client = _)),
      (bool_decide_eq_true_2 (client ∈ _ :: _)) by (done || by left). done.
  - rewrite (bool_decide_eq_false_2 (c = client)) by done.
    rewrite (bool_decide_ext (client ∈ c :: clients) (client ∈ clients)); [done|].
    rewrite elem_of_cons. split; [intros [->|]; done|by right].
Qed.

Lemma adopt_sounds_indexed s effects : ss_indexed (adopt_sounds s effects) = ss_indexed s ++ omap sound_of effects.
Proof.
  unfold adopt_sounds. induction effects as [|e effects IH] in s |- *; cbn [foldl omap list_omap]; [by rewrite app_nil_r|].
  rewrite IH. unfold adopt_sound, sound_of. destruct (ls_alias_index e =? 0); [done|]. cbn [ss_indexed].
  by rewrite <- app_assoc.
Qed.

Lemma mine_others {A} c client (rows : list (Z * A)) :
  mine client (filter (fun row => row.1 <> c) rows) = if bool_decide (c = client) then [] else mine client rows.
Proof. unfold mine. whose c client; [by apply filter_gone|]. apply filter_kept. congruence. Qed.

Definition score_rows (line : option (list byte)) : list WireRow :=
  match line with Some line => [RowScores line] | None => [] end.

(** One pass over the roster. *)
Lemma fanout_clients_queue line clients hub svc cards notify client :
  NoDup clients ->
  let '(hub', svc', cards', notify') := foldl (fanout_client line) (hub, svc, cards, notify) clients in
  hub_queue hub' client =
    (if bool_decide (client ∈ clients)
     then foldl push_row (hub_queue hub client)
            (queued_rows client (ss_indexed svc) (pk_rows cards) ++ map RowNotify (notifies_for notify client) ++ score_rows line)
     else hub_queue hub client) /\
  mine client (ss_indexed svc') = (if bool_decide (client ∈ clients) then [] else mine client (ss_indexed svc)) /\
  mine client (pk_rows cards') = (if bool_decide (client ∈ clients) then [] else mine client (pk_rows cards)) /\
  notify' = notify.
Proof.
  intros Hnd. revert hub svc cards. induction Hnd as [|c clients Hout _ IH]; intros hub svc cards; [done|]. cbn [foldl].
  cbn [fanout_client take_sounds take_cards].
  match goal with |- context [foldl _ (?h, ?s, ?k, _) clients] => specialize (IH h s k) end.
  destruct (foldl (fanout_client line) _ clients) as [[[hub' svc'] cards'] notify'].
  destruct IH as (-> & -> & -> & ->). cbn [set_indexed ss_indexed pk_rows]. rewrite !mine_others.
  assert (Hq : forall h, hub_queue (match line with Some line => push_rows h c [RowScores line] | None => h end) client =
            hub_queue (push_rows h c (score_rows line)) client).
  { intros h. by destruct line. }
  rewrite Hq, !push_rows_queue. clear Hq. destruct (decide (c = client)) as [->|Hne].
  - rewrite (bool_decide_eq_false_2 (client ∈ clients)), !(bool_decide_eq_true_2 (client = client)),
      !(bool_decide_eq_true_2 (client ∈ _ :: _)) by (done || by left).
    split; [|done]. unfold queued_rows. rewrite !foldl_app, map_map. done.
  - rewrite !(bool_decide_eq_false_2 (c = client)) by done.
    rewrite (bool_decide_ext (client ∈ c :: clients) (client ∈ clients)).
    2: { rewrite elem_of_cons. split; [intros [->|]; done|by right]. }
    split; [|done]. unfold queued_rows. by rewrite !mine_others, !(bool_decide_eq_false_2 (c = client)) by done.
Qed.

(** When a scoreboard goes to everyone, and what is remembered of it. *)
Lemma scoreboard_turn s down now :
  let turn := broadcast_due (take_if_due s down now).1 now in
  let due := scores_due (pb_last_broadcast_ms s) now in
  turn.2 = due /\ pb_last_broadcast_ms turn.1 = if due then now else pb_last_broadcast_ms s.
Proof.
  assert (Hkept : pb_last_broadcast_ms (take_if_due s down now).1 = pb_last_broadcast_ms s).
  { unfold take_if_due. by repeat case_match. }
  unfold broadcast_due. rewrite Hkept. by destruct (scores_due _ _).
Qed.

(** C34. A tick's fanout queues for each client exactly the rows meant for it, in a fixed order: the
    reason it is kicked for, and for a client on the roster the audio commands for it or for all,
    its sounds, cards, menus, splashes, the notices for it or for all, and the scoreboard, just
    when none was broadcast yet or the last broadcast was more than [SCORES_REQUEST_MS] ago; the
    time of a broadcast is remembered.  Nothing stays queued for a client on the roster, and the
    notices are cleared, so no row is queued twice; everyone kicked is put in fault. *)
Theorem fanout_queues_each_client clients effects board scores_down now_ms q client :
  NoDup clients ->
  let q' := fanout_rows clients effects board scores_down now_ms q in
  let on_roster := bool_decide (client ∈ clients) in
  let last := pb_last_broadcast_ms (fo_scores q) in
  let due := bool_decide (last < 0 \/ i32_wrap (last + SCORES_REQUEST_MS) < now_ms) in
  hub_queue (fo_reliable q') client =
    foldl push_row (hub_queue (fo_reliable q) client)
      (kick_rows client (fx_kicks effects) ++
       (if on_roster
        then audio_rows client (fx_script_audio effects) ++
             queued_rows client (ss_indexed (fo_svc q) ++ omap sound_of (fx_local_sounds effects))
               (pk_rows (fo_cards q) ++ fx_player_cards effects) ++
             map RowNotify (notifies_for (adopt_prints (fo_notify q) (fx_prints effects)) client) ++
             (if due
              then [RowScores (format_scoreboard_from_snapshot (bd_clients board) (bd_team_scores board)
                      (bd_score_limit board))]
              else [])
        else [])) /\
  pb_last_broadcast_ms (fo_scores q') = (if due then now_ms else last) /\
  (on_roster = true -> mine client (ss_indexed (fo_svc q')) = [] /\ mine client (pk_rows (fo_cards q')) = []) /\
  pn_rows (fo_notify q') = [] /\
  (client ∈ map fst (fo_faults q') <-> client ∈ map fst (fo_faults q) \/ client ∈ map fst (fx_kicks effects)).
Proof.
  intros Hnd. cbv zeta. unfold fanout_rows.
  destruct (kicks_queue (fx_kicks effects) (fo_reliable q, fo_faults q) client) as [Hk Hf].
  destruct (foldl kick _ _) as [hub faults]. cbn [fst snd] in Hk, Hf.
  destruct (scoreboard_turn (fo_scores q) scores_down now_ms) as [Hdue Hlast].
  assert (Hsd : scores_due (pb_last_broadcast_ms (fo_scores q)) now_ms =
            bool_decide (pb_last_broadcast_ms (fo_scores q) < 0 \/
              i32_wrap (pb_last_broadcast_ms (fo_scores q) + SCORES_REQUEST_MS) < now_ms)).
  { apply eq_true_iff_eq. unfold scores_due. by rewrite orb_true_iff, !Z.ltb_lt, bool_decide_eq_true. }
  rewrite <- Hsd. clear Hsd.
  destruct (take_if_due _ _ _) as [scores sent]. destruct (broadcast_due _ _) as [scores' due]. cbn [fst snd] in Hdue, Hlast.
  subst due. set (due := scores_due _ _) in *.
  set (line := if due then Some _ else None).
  set (svc := adopt_sounds (fo_svc q) (fx_local_sounds effects)).
  set (cards := adopt_card_events (fo_cards q) (fx_player_cards effects)).
  set (notify := adopt_prints (fo_notify q) (fx_prints effects)).
  set (hub1 := fanout_script_audio hub clients (fx_script_audio effects)).
  pose proof (fanout_clients_queue line clients hub1 svc cards notify client Hnd) as Hrows.
  destruct (foldl (fanout_client line) _ clients) as [[[hub' svc'] cards'] notify'].
  destruct Hrows as (Hh & Hs & Hc & Hn). cbn [fo_reliable fo_svc fo_cards fo_notify fo_faults fo_scores clear_after_fanout pn_rows].
  split; [|split; [done|split; [|split; [done|]]]].
  - assert (Hscores : score_rows line = if due then [RowScores (format_scoreboard_from_snapshot (bd_clients board)
        (bd_team_scores board) (bd_score_limit board))] else []) by (unfold line; by destruct due).
    rewrite Hh, Hscores. unfold hub1. rewrite audio_queue, Hk, !foldl_app by done. unfold svc. rewrite adopt_sounds_indexed.
    case_bool_decide; [|done]. by rewrite !foldl_app.
  - intros Hin. by rewrite Hs, Hc, Hin.
  - rewrite Hf, map_app, elem_of_app, map_map. done.
Qed.

Definition demo_effects : TickEffects :=
  mkEffects [mkPrint None false true (bs "hi") (bs "Ghost")] [mkLocalSound 4 false 9] [(4, OpenMenu 3)]
    [MusicStop 250] [(7, bs "banned")].

Definition demo_queues : FanoutQueues :=
  mkFanout ∅ [] svc_sounds_default player_card_default game_notify_default pending_scoreboard_default.

Lemma fanout_queues_each_client_witness :
  NoDup [0; 4] /\
  pn_rows (fo_notify (fanout_rows [0; 4] demo_effects (mkBoard [] [] 0) false 50 demo_queues)) = [] /\
  map snd (q_pending (hub_queue (fo_reliable (fanout_rows [0; 4] demo_effects (mkBoard [] [] 0) false 50 demo_queues)) 4)) =
    [RowScriptAudio (MusicStop 250); RowSound false 9; RowMenu (mkOpenMenu 3);
     RowNotify (mkNotify 0 SVC_CHAT (bs "Ghost") (bs "hi")); RowScores (bs "b 0 0 0 0")].
Proof.
  assert (Hnd : NoDup [0; 4]) by (apply (bool_decide_unpack _); vm_compute; exact I).
  split; [exact Hnd|].
  destruct (fanout_queues_each_client [0; 4] demo_effects (mkBoard [] [] 0) false 50 demo_queues 4 Hnd)
    as (_ & _ & _ & Hn & _).
  split; [exact Hn|]. vm_compute. reflexivity.
Defined.
