(* ===== verification/Mailbox.v ===== *)
(** * The relay mailbox and the pace of snapshots

    [RelayMailbox] of crates/net/src/transport/udp_session.rs, the queues between the game and
    the task that talks to the master: two of datagrams, which drop their oldest packets when
    they are full, and two of control messages, which refuse new ones.  [SnapshotPace] of the
    same file decides when a peer may be sent another snapshot.

    Instants are milliseconds, as the durations of [TransportBudget]; an operation reads the clock
    once.  A [BTreeMap] is a [gmap] visited in the order of its keys. *)

From stdpp Require Export sorting.
From S2P Require Export MasterTypes Budget Inbox.

#[local] Open Scope Z_scope.

(** ** Datagrams *)

(** The derived [Ord] of [MemberId]. *)
Definition member_le (a b : MemberId) : Prop := bytes_leb (member_bytes a) (member_bytes b) = true.

#[export] Instance member_le_dec : RelDecision member_le :=
  fun a b => decide (bytes_leb (member_bytes a) (member_bytes b) = true).

Abbreviation Lane := (list (list byte * Z)).

Record DataLanes : Type := mkLanes {
  dl_lanes : gmap MemberId Lane;
  dl_bytes : Z;
}.

Definition lanes_default : DataLanes := mkLanes ∅ 0.

(** The loop that drops the oldest packets of a lane until the next one, of [len] bytes, fits:
    the lane, the bytes of all lanes, and whether anything was dropped. *)
Fixpoint shed_lane (queue_bytes cap len total : Z) (lane : Lane) : Lane * Z * bool :=
  match lane with
  | [] => ([], total, false)
  | front :: rest =>
      if (cap <=? zlen lane) || (queue_bytes <? total + len) then
        let '(lane, total, _) := shed_lane queue_bytes cap len (total - zlen front.1) rest in
        (lane, total, true)
      else (lane, total, false)
  end.

(** [push]: [true] when something was dropped. *)
Definition lanes_push (limits : TransportBudget) (cap now : Z) (d : DataLanes) (member : MemberId)
    (bytes : list byte) : DataLanes * bool :=
  if (MAX_PACKET_BYTES <? zlen bytes) ||
     (bool_decide (dl_lanes d !! member = None) &&
      (MAX_SESSION_MEMBERS <=? Z.of_nat (size (dl_lanes d))))
  then (d, true)
  else
    let '(lane, total, dropped) :=
      shed_lane (tb_queue_bytes limits) cap (zlen bytes) (dl_bytes d) (default [] (dl_lanes d !! member)) in
    if (tb_queue_bytes limits <? total + zlen bytes) || (cap =? 0)
    then (mkLanes (<[member := lane]> (dl_lanes d)) total, true)
    else (mkLanes (<[member := lane ++ [(bytes, now + tb_queue_age limits)]]> (dl_lanes d))
            (total + zlen bytes), dropped).

(** The packets of a lane that are still in time. *)
Definition in_time (now : Z) (lane : Lane) : list (list byte) :=
  map fst (filter (fun row => (now <? row.2) = true) lane).

Definition lanes_take (now : Z) (d : DataLanes) : DataLanes * list (MemberId * list byte) :=
  (lanes_default,
   concat (map (fun member => map (pair member) (in_time now (default [] (dl_lanes d !! member))))
             (merge_sort member_le (elements (dom (dl_lanes d)))))).

(** ** Control messages *)

Abbreviation Mail := (list (MemberId * list byte * Z)).

Definition mail_bytes (queue : Mail) : Z := foldr (fun row total => zlen row.1.2 + total) 0 queue.

Inductive MailError : Type := MailOversize | MailFull.

Definition push_mail (limits : TransportBudget) (cap now : Z) (queue : Mail) (member : MemberId)
    (bytes : list byte) : Mail * Result MailError () :=
  if MAX_PACKET_BYTES <? zlen bytes then (queue, Err MailOversize)
  else if (cap <=? zlen queue) || (tb_queue_bytes limits <? mail_bytes queue + zlen bytes)
  then (queue, Err MailFull)
  else (queue ++ [(member, bytes, now + tb_queue_age limits)], Ok ()).

Definition take_mail (queue : Mail) : Mail * list (MemberId * list byte) := ([], map fst queue).

(** ** The mailbox *)

Definition RELAY_MAIL_CAP : Z := 64.

Record RelayMailbox : Type := mkMailbox {
  mb_inbound : DataLanes;
  mb_outbound : DataLanes;
  mb_control_inbound : Mail;
  mb_control_outbound : Mail;
  mb_cap : Z;
}.

Definition mailbox_new (cap : Z) : RelayMailbox := mkMailbox lanes_default lanes_default [] [] cap.
Definition mailbox_default : RelayMailbox := mailbox_new RELAY_MAIL_CAP.

Definition set_control_outbound (m : RelayMailbox) (queue : Mail) : RelayMailbox :=
  mkMailbox (mb_inbound m) (mb_outbound m) (mb_control_inbound m) queue (mb_cap m).

Definition push_control_inbound (limits : TransportBudget) (now : Z) (m : RelayMailbox)
    (member : MemberId) (bytes : list byte) : RelayMailbox * Result MailError () :=
  let '(queue, answer) := push_mail limits (mb_cap m) now (mb_control_inbound m) member bytes in
  (mkMailbox (mb_inbound m) (mb_outbound m) queue (mb_control_outbound m) (mb_cap m), answer).

Definition take_control_inbound (m : RelayMailbox) : RelayMailbox * list (MemberId * list byte) :=
  let '(queue, packets) := take_mail (mb_control_inbound m) in
  (mkMailbox (mb_inbound m) (mb_outbound m) queue (mb_control_outbound m) (mb_cap m), packets).

Definition push_control_outbound (limits : TransportBudget) (now : Z) (m : RelayMailbox)
    (member : MemberId) (bytes : list byte) : RelayMailbox * Result MailError () :=
  let '(queue, answer) := push_mail limits (mb_cap m) now (mb_control_outbound m) member bytes in
  (set_control_outbound m queue, answer).

Definition take_control_outbound (m : RelayMailbox) : RelayMailbox * list (MemberId * list byte) :=
  let '(queue, packets) := take_mail (mb_control_outbound m) in (set_control_outbound m queue, packets).

(** [false] is the error: some control message waited too long. *)
Definition check_control_deadlines (now : Z) (m : RelayMailbox) : bool :=
  negb (existsb (fun row => row.2 <=? now) (mb_control_inbound m) ||
        existsb (fun row => row.2 <=? now) (mb_control_outbound m)).

Definition push_inbound (limits : TransportBudget) (now : Z) (m : RelayMailbox) (member : MemberId)
    (bytes : list byte) : RelayMailbox * bool :=
  let '(lanes, dropped) := lanes_push limits (mb_cap m) now (mb_inbound m) member bytes in
  (mkMailbox lanes (mb_outbound m) (mb_control_inbound m) (mb_control_outbound m) (mb_cap m), dropped).

Definition take_inbound (now : Z) (m : RelayMailbox) : RelayMailbox * list (MemberId * list byte) :=
  let '(lanes, packets) := lanes_take now (mb_inbound m) in
  (mkMailbox lanes (mb_outbound m) (mb_control_inbound m) (mb_control_outbound m) (mb_cap m), packets).

Definition push_outbound (limits : TransportBudget) (now : Z) (m : RelayMailbox) (member : MemberId)
    (bytes : list byte) : RelayMailbox * bool :=
  let '(lanes, dropped) := lanes_push limits (mb_cap m) now (mb_outbound m) member bytes in
  (mkMailbox (mb_inbound m) lanes (mb_control_inbound m) (mb_control_outbound m) (mb_cap m), dropped).

Definition take_outbound (now : Z) (m : RelayMailbox) : RelayMailbox * list (MemberId * list byte) :=
  let '(lanes, packets) := lanes_take now (mb_outbound m) in
  (mkMailbox (mb_inbound m) lanes (mb_control_inbound m) (mb_control_outbound m) (mb_cap m), packets).

(** ** The pace of snapshots *)

Definition SNAPSHOT_RATE_BYTES_PER_SEC : Z := 25000.
Definition SNAPSHOT_PACKET_OVERHEAD : Z := 48.
Definition SNAPSHOT_CREDIT_PER_TICK : Z := SNAPSHOT_RATE_BYTES_PER_SEC * AUTHORITY_MS / 1000.
Definition STALE_BASELINE_SNAPSHOTS : Z := 29.
Definition MAX_STALE_BACKOFF : Z := 4.

Record SnapshotPace : Type := mkPace {
  sp_credit : Z;
  sp_refilled : option Z;
  sp_backoff : Z;
  sp_stale_until : option Z;
}.

Definition pace_default : SnapshotPace := mkPace 0 None 0 None.

Definition pace_ready (s : SnapshotPace) (tick : Z) (unacked : option Z) : SnapshotPace * bool :=
  let elapsed := match sp_refilled s with None => 1 | Some last => saturating_sub tick last end in
  let credit := Z.min (sp_credit s + elapsed * SNAPSHOT_CREDIT_PER_TICK) SNAPSHOT_CREDIT_PER_TICK in
  if credit <=? 0 then (mkPace credit (Some tick) (sp_backoff s) (sp_stale_until s), false)
  else if match unacked with None => true | Some age => age <? STALE_BASELINE_SNAPSHOTS end
  then (mkPace credit (Some tick) 0 None, true)
  else if match sp_stale_until s with Some until => tick <? until | None => false end
  then (mkPace credit (Some tick) (sp_backoff s) (sp_stale_until s), false)
  else (mkPace credit (Some tick) (Z.min (sp_backoff s + 1) MAX_STALE_BACKOFF)
          (Some (saturating_add32 tick (Z.shiftl 1 (sp_backoff s)))), true).

Definition pace_charge (s : SnapshotPace) (bytes : Z) : SnapshotPace :=
  mkPace (sp_credit s - (bytes + SNAPSHOT_PACKET_OVERHEAD)) (sp_refilled s) (sp_backoff s) (sp_stale_until s).

(** * Properties of the mailbox and of the snapshot pace

    A full datagram queue drops the oldest packets of the sender, never those of another member,
    and the queues stay within their budget; a peer gets snapshots at no more than its rate, and
    a peer whose acknowledgements are lost is still sent one from time to time. *)

(** ** Bytes held *)

Definition lane_bytes (lane : Lane) : Z := foldr (fun row total => zlen row.1 + total) 0 lane.

Definition lane_of (d : DataLanes) (member : MemberId) : Lane := default [] (dl_lanes d !! member).

Definition all_bytes (lanes : gmap MemberId Lane) : Z :=
  map_fold (fun _ lane total => lane_bytes lane + total) 0 lanes.

Lemma lane_bytes_app l1 l2 : lane_bytes (l1 ++ l2) = lane_bytes l1 + lane_bytes l2.
Proof. unfold lane_bytes. induction l1 as [|row l1 IH]; cbn; [done|]. rewrite IH. lia. Qed.

Lemma lane_bytes_cons row lane : lane_bytes (row :: lane) = zlen row.1 + lane_bytes lane.
Proof. done. Qed.

Lemma lane_bytes_nonneg lane : 0 <= lane_bytes lane.
Proof. unfold lane_bytes. induction lane as [|row lane IH]; cbn; [done|]. pose proof (zlen_nonneg row.1). lia. Qed.

Lemma lane_bytes_split k lane : lane_bytes (take k lane) + lane_bytes (drop k lane) = lane_bytes lane.
Proof. by rewrite <- lane_bytes_app, take_drop. Qed.

Lemma all_bytes_delete lanes member :
  all_bytes lanes = lane_bytes (default [] (lanes !! member)) + all_bytes (delete member lanes).
Proof.
  destruct (lanes !! member) as [lane|] eqn:E; cbn.
  - unfold all_bytes. rewrite (map_fold_delete_L _ 0 member lane lanes); [done| |done].
    intros. lia.
  - rewrite delete_id by done. done.
Qed.

Lemma all_bytes_insert lanes member lane :
  all_bytes (<[member := lane]> lanes) = lane_bytes lane + all_bytes (delete member lanes).
Proof. rewrite (all_bytes_delete _ member), lookup_insert_eq, delete_insert_eq. done. Qed.

(** ** Dropping the oldest *)

(** What the loop tests before it drops: the packet fits behind what is left after [j] drops. *)
Definition room_after (queue_bytes cap len total : Z) (lane : Lane) (j : nat) : Prop :=
  zlen (drop j lane) < cap /\ total - lane_bytes (take j lane) + len <= queue_bytes.

Lemma shed_lane_spec queue_bytes cap len total lane :
  exists k,
    shed_lane queue_bytes cap len total lane =
      (drop k lane, total - lane_bytes (take k lane), bool_decide (0 < k)%nat) /\
    (k <= length lane)%nat /\
    (k = length lane \/ room_after queue_bytes cap len total lane k) /\
    (forall j, (j < k)%nat -> ~ room_after queue_bytes cap len total lane j).
Proof.
  revert total. induction lane as [|front rest IH]; intros total.
  - exists 0%nat. cbn. rewrite Z.sub_0_r. repeat split; auto with lia.
  - cbn [shed_lane]. destruct ((cap <=? zlen (front :: rest)) || (queue_bytes <? total + len)) eqn:E.
    + destruct (IH (total - zlen front.1)) as (k & Hrun & Hk & Hend & Hmin). exists (S k).
      rewrite Hrun. unfold room_after in *. cbn [drop take length].
      split; [|split; [|split]].
      * rewrite bool_decide_eq_true_2, lane_bytes_cons by lia. do 2 f_equal. lia.
      * lia.
      * destruct Hend as [->|[? ?]]; [by left|right]. rewrite lane_bytes_cons. split; [done|lia].
      * intros [|j] Hj; cbn [drop take]; [apply orb_true_iff in E; cbn; lia|]. rewrite lane_bytes_cons.
        intros [H1 H2]. apply (Hmin j); [lia|]. split; [done|lia].
    + exists 0%nat. apply orb_false_iff in E as [? ?]. unfold room_after. cbn.
      rewrite Z.sub_0_r. repeat split; try lia. 
Qed.

(** ** The datagram queues *)

Section Lanes.
Context (limits : TransportBudget) (cap : Z).
Context (Hcap : 0 <= cap) (Hbytes : 0 <= tb_queue_bytes limits).

Inductive LaneOp : Type :=
| LanePush (now : Z) (member : MemberId) (bytes : list byte)
| LaneTake (now : Z).

Definition lane_op (d : DataLanes) (op : LaneOp) : DataLanes :=
  match op with
  | LanePush now member bytes => (lanes_push limits cap now d member bytes).1
  | LaneTake now => (lanes_take now d).1
  end.

Record lanes_ok (d : DataLanes) : Prop := {
  lo_bytes : dl_bytes d = all_bytes (dl_lanes d);
  lo_budget : all_bytes (dl_lanes d) <= tb_queue_bytes limits;
  lo_members : Z.of_nat (size (dl_lanes d)) <= MAX_SESSION_MEMBERS;
  lo_cap member : zlen (lane_of d member) <= cap;
  lo_packets member : Forall (fun row => zlen row.1 <= MAX_PACKET_BYTES) (lane_of d member);
}.

Lemma lanes_default_ok : lanes_ok lanes_default.
Proof.
  split; cbn; try done; intros member; unfold lane_of; cbn; rewrite lookup_empty; done.
Qed.

(** The room another packet of [len] bytes has in [member]'s lane after [j] drops. *)
Definition room_in (d : DataLanes) (member : MemberId) (len : Z) (j : nat) : Prop :=
  room_after (tb_queue_bytes limits) cap len (all_bytes (dl_lanes d)) (lane_of d member) j.

(** What a push does. *)
Inductive pushed (d : DataLanes) (member : MemberId) (row : list byte * Z) : DataLanes -> bool -> Prop :=
| pushed_refused :
    MAX_PACKET_BYTES < zlen row.1 \/
      (dl_lanes d !! member = None /\ MAX_SESSION_MEMBERS <= Z.of_nat (size (dl_lanes d))) ->
    pushed d member row d true
| pushed_queued k :
    (forall j, (j < k)%nat -> ~ room_in d member (zlen row.1) j) -> room_in d member (zlen row.1) k ->
    zlen row.1 <= MAX_PACKET_BYTES ->
    (is_Some (dl_lanes d !! member) \/ Z.of_nat (size (dl_lanes d)) < MAX_SESSION_MEMBERS) ->
    pushed d member row
      (mkLanes (<[member := drop k (lane_of d member) ++ [row]]> (dl_lanes d))
         (all_bytes (dl_lanes d) - lane_bytes (take k (lane_of d member)) + zlen row.1))
      (bool_decide (0 < k)%nat)
| pushed_lost :
    (cap = 0 \/ tb_queue_bytes limits < all_bytes (delete member (dl_lanes d)) + zlen row.1) ->
    (is_Some (dl_lanes d !! member) \/ Z.of_nat (size (dl_lanes d)) < MAX_SESSION_MEMBERS) ->
    pushed d member row
      (mkLanes (<[member := []]> (dl_lanes d)) (all_bytes (delete member (dl_lanes d)))) true.

Lemma lanes_push_spec d now member bytes :
  lanes_ok d ->
  pushed d member (bytes, now + tb_queue_age limits) (lanes_push limits cap now d member bytes).1
    (lanes_push limits cap now d member bytes).2.
Proof.
  intros Hd. unfold lanes_push. rewrite (lo_bytes _ Hd).
  destruct (_ || (_ && _)) eqn:Eref.
  - apply pushed_refused. apply orb_true_iff in Eref as [?%Z.ltb_lt|[H ?%Z.leb_le]%andb_true_iff]; [by left|].
    right. by apply bool_decide_eq_true in H.
  - apply orb_false_iff in Eref as [Elen%Z.ltb_ge Emem].
    assert (Hplace : is_Some (dl_lanes d !! member) \/ Z.of_nat (size (dl_lanes d)) < MAX_SESSION_MEMBERS).
    { apply andb_false_iff in Emem as [H%bool_decide_eq_false|?%Z.leb_gt]; [left|by right].
      by apply not_eq_None_Some. }
    fold (lane_of d member).
    destruct (shed_lane_spec (tb_queue_bytes limits) cap (zlen bytes) (all_bytes (dl_lanes d)) (lane_of d member))
      as (k & -> & Hk & Hend & Hmin).
    destruct (_ || _) eqn:Efull; cbn [fst snd].
    + assert (k = length (lane_of d member)) as ->.
      { destruct Hend as [->|[? ?]]; [done|]. apply orb_true_iff in Efull. unfold zlen in *. lia. }
      pose proof (all_bytes_delete (dl_lanes d) member) as Htotal. fold (lane_of d member) in Htotal.
      rewrite drop_all, firstn_all in *.
      replace (all_bytes (dl_lanes d) - _) with (all_bytes (delete member (dl_lanes d))) in * by lia.
      apply pushed_lost; [|done]. apply orb_true_iff in Efull. cbn. lia.
    + apply orb_false_iff in Efull as [? ?]. apply pushed_queued; auto.
      destruct Hend as [->|]; [|done]. unfold room_in, room_after. rewrite drop_all, zlen_nil. cbn. lia.
Qed.

Lemma lane_of_insert (d : DataLanes) member lane total m :
  lane_of (mkLanes (<[member := lane]> (dl_lanes d)) total) m = if decide (m = member) then lane else lane_of d m.
Proof.
  unfold lane_of. cbn. destruct (decide (m = member)) as [->|].
  - by rewrite lookup_insert_eq.
  - by rewrite lookup_insert_ne.
Qed.

(** Replacing the lane of a member who has a place. *)
Lemma insert_lane_ok d member lane :
  lanes_ok d -> (is_Some (dl_lanes d !! member) \/ Z.of_nat (size (dl_lanes d)) < MAX_SESSION_MEMBERS) ->
  lane_bytes lane + all_bytes (delete member (dl_lanes d)) <= tb_queue_bytes limits ->
  zlen lane <= cap -> Forall (fun row => zlen row.1 <= MAX_PACKET_BYTES) lane ->
  lanes_ok (mkLanes (<[member := lane]> (dl_lanes d)) (lane_bytes lane + all_bytes (delete member (dl_lanes d)))).
Proof.
  intros [Hb Hbud Hm Hc Hp] Hplace Hroom Hlen Hpackets. split; cbn [dl_bytes dl_lanes].
  - by rewrite all_bytes_insert.
  - by rewrite all_bytes_insert.
  - destruct Hplace as [[old E]|E]; [by rewrite map_size_insert_Some by eauto|].
    rewrite map_size_insert. destruct (_ !! _); cbn; lia.
  - intros m. rewrite lane_of_insert. destruct (decide _); auto.
  - intros m. rewrite lane_of_insert. destruct (decide _); auto.
Qed.

Lemma pushed_ok d member row d' dropped :
  lanes_ok d -> pushed d member row d' dropped -> lanes_ok d'.
Proof.
  intros Hd Hpushed. pose proof (all_bytes_delete (dl_lanes d) member) as Htotal.
  fold (lane_of d member) in Htotal. pose proof (lo_budget _ Hd) as Hbudget.
  destruct Hpushed as [Href|k Hmin [Hfit Hroom] Hlen Hplace|Hfull Hplace]; [done| |].
  - pose proof (lane_bytes_split k (lane_of d member)) as Hsplit.
    assert (lane_bytes [row] = zlen row.1) by (rewrite lane_bytes_cons; cbn; lia).
    replace (_ - _ + _) with (lane_bytes (drop k (lane_of d member) ++ [row]) + all_bytes (delete member (dl_lanes d)))
      by (rewrite lane_bytes_app; lia).
    apply insert_lane_ok; auto.
    + rewrite lane_bytes_app. lia.
    + rewrite zlen_snoc. lia.
    + apply Forall_app. split; [apply Forall_drop, (lo_packets _ Hd)|by constructor].
  - pose proof (lane_bytes_nonneg (lane_of d member)). apply (insert_lane_ok d member []); auto.
    cbn. lia.
Qed.

Lemma lanes_run_ok ops : lanes_ok (foldl lane_op lanes_default ops).
Proof.
  assert (forall d, lanes_ok d -> lanes_ok (foldl lane_op d ops)) as H; [|apply H, lanes_default_ok].
  induction ops as [|op ops IH]; intros d Hd; cbn; [done|]. apply IH.
  destruct op; cbn; [|apply lanes_default_ok]. eapply pushed_ok, lanes_push_spec; eauto.
Qed.
End Lanes.

(** ** What is taken *)

(** The packets among [packets] that are for (or from) [member], in order. *)
Definition packets_of (member : MemberId) (packets : list (MemberId * list byte)) : list (list byte) :=
  map snd (filter (fun row => row.1 = member) packets).

Lemma packets_of_app member l1 l2 : packets_of member (l1 ++ l2) = packets_of member l1 ++ packets_of member l2.
Proof. unfold packets_of. rewrite list.filter_app, map_app. done. Qed.

Lemma packets_of_own member m l : packets_of member (map (pair m) l) = if decide (m = member) then l else [].
Proof.
  unfold packets_of. induction l as [|x l IH]; cbn [map].
  - by destruct (decide _).
  - rewrite filter_cons. cbn [fst]. destruct (decide (m = member)); cbn; [by rewrite IH|done].
Qed.

Lemma packets_of_lanes member (f : MemberId -> list (list byte)) keys :
  NoDup keys ->
  packets_of member (concat (map (fun m => map (pair m) (f m)) keys)) =
    if decide (member ∈ keys) then f member else [].
Proof.
  induction 1 as [|m keys Hm Hnd IH]; cbn [map concat]; [by destruct (decide _) as [?%not_elem_of_nil|]|].
  rewrite packets_of_app, packets_of_own, IH.
  destruct (decide (m = member)) as [->|Hne].
  - rewrite (decide_False (P := member ∈ keys)) by done.
    rewrite decide_True by (by left). apply app_nil_r.
  - rewrite app_nil_l. apply decide_ext. rewrite elem_of_cons. naive_solver.
Qed.

Lemma lanes_take_spec now d member :
  packets_of member (lanes_take now d).2 = in_time now (lane_of d member).
Proof.
  unfold lanes_take. cbn [snd].
  rewrite (packets_of_lanes member (fun m => in_time now (default [] (dl_lanes d !! m)))).
  - destruct (decide _) as [|Hout]; [done|]. unfold lane_of.
    rewrite merge_sort_Permutation, elem_of_elements, not_elem_of_dom in Hout. by rewrite Hout.
  - rewrite merge_sort_Permutation. apply NoDup_elements.
Qed.

(** A datagram queue keeps the newest packets of every member.  In every state it can reach the
    queue is within its bytes, its members and its length per member.  A new packet displaces
    only the oldest packets of its own sender, as many as it must and no more, and whoever is
    told nothing was dropped finds everything still there; the packet itself is refused only if
    it is too long, no place is left for another member, or it would not fit with the sender's
    queue emptied (which it then is).  Taking returns each member's packets in order, without
    those whose time has passed. *)
Theorem datagrams_keep_newest limits cap ops now member packet :
  0 <= cap -> 0 <= tb_queue_bytes limits ->
  let d := foldl (lane_op limits cap) lanes_default ops in
  let '(d', dropped) := lanes_push limits cap now d member packet in
  let fits k := room_in limits cap d member (zlen packet) k in
  (all_bytes (dl_lanes d) <= tb_queue_bytes limits /\ Z.of_nat (size (dl_lanes d)) <= MAX_SESSION_MEMBERS /\
   forall m, zlen (lane_of d m) <= cap) /\
  (forall m, m <> member -> lane_of d' m = lane_of d m) /\
  (d' = d /\ dropped = true /\
     (MAX_PACKET_BYTES < zlen packet \/
      (dl_lanes d !! member = None /\ MAX_SESSION_MEMBERS <= Z.of_nat (size (dl_lanes d)))) \/
   (exists k, fits k /\ (forall j, (j < k)%nat -> ~ fits j) /\ dropped = bool_decide (0 < k)%nat /\
      lane_of d' member = drop k (lane_of d member) ++ [(packet, now + tb_queue_age limits)]) \/
   (lane_of d' member = [] /\ dropped = true /\
      (cap = 0 \/ tb_queue_bytes limits < all_bytes (delete member (dl_lanes d)) + zlen packet))) /\
  forall now' m, packets_of m (lanes_take now' d').2 = in_time now' (lane_of d' m).
Proof.
  intros Hcap Hbytes d. pose proof (lanes_run_ok limits cap Hcap Hbytes ops) as Hd. fold d in Hd.
  pose proof (lanes_push_spec limits cap Hcap d now member packet Hd) as Hpush.
  destruct (lanes_push limits cap now d member packet) as [d' dropped]. cbn [fst snd] in Hpush.
  split; [split; [apply (lo_budget _ _ _ Hd)|split; [apply (lo_members _ _ _ Hd)|apply (lo_cap _ _ _ Hd)]]|].
  destruct Hpush as [Href|k Hmin Hfit Hlen Hplace|Hfull Hplace].
  - split; [done|]. split; [by left|]. intros. apply lanes_take_spec.
  - split; [intros m Hm; rewrite lane_of_insert, decide_False by done; done|].
    split; [|intros; apply lanes_take_spec]. right; left. exists k.
    rewrite lane_of_insert, decide_True by done. auto.
  - split; [intros m Hm; rewrite lane_of_insert, decide_False by done; done|].
    split; [|intros; apply lanes_take_spec]. right; right. rewrite lane_of_insert, decide_True by done. auto.
Qed.

Definition demo_member (n : Z) : MemberId := mkMemberId (replicate 15 (byte_of 0) ++ [byte_of n]).

(** Two members; the lane of the first is full, so its third packet pushes out its first. *)
Lemma datagrams_keep_newest_witness :
  let ops := [LanePush 0 (demo_member 1) (bs "a"); LanePush 0 (demo_member 2) (bs "x");
              LanePush 5 (demo_member 1) (bs "b")] in
  let d := foldl (lane_op budget_default 2) lanes_default ops in
  lanes_take 100 (lanes_push budget_default 2 9 d (demo_member 1) (bs "c")).1 =
    (lanes_default, [(demo_member 1, bs "b"); (demo_member 1, bs "c"); (demo_member 2, bs "x")]) /\
  lane_of (lanes_push budget_default 2 9 d (demo_member 1) (bs "c")).1 (demo_member 2) =
    lane_of d (demo_member 2).
Proof.
  intros ops d. split; [vm_compute; reflexivity|].
  pose proof (datagrams_keep_newest budget_default 2 ops 9 (demo_member 1) (bs "c") ltac:(lia) ltac:(vm_compute; done))
    as H. cbn zeta in H. fold d in H.
  destruct (lanes_push _ _ _ _ _ _) as [d' dropped]. apply H. vm_compute. discriminate.
Defined.

(** ** The pace *)

Definition packet_cost (bytes : Z) : Z := bytes + SNAPSHOT_PACKET_OVERHEAD.

(** One visit of the fanout to a peer: is it ready, and if so what is charged; [None] when no
    packet was sent although it was ready. *)
Record Visit : Type := mkVisit { vi_tick : Z; vi_unacked : option Z; vi_bytes : option Z }.

Definition pace_visit (s : SnapshotPace) (v : Visit) : SnapshotPace * option Z :=
  let '(s', ready) := pace_ready s (vi_tick v) (vi_unacked v) in
  if ready then
    match vi_bytes v with
    | Some bytes => (pace_charge s' bytes, Some (packet_cost bytes))
    | None => (s', Some 0)
    end
  else (s', None).

(** What each visit sent. *)
Fixpoint pace_run (s : SnapshotPace) (visits : list Visit) : SnapshotPace * list (option Z) :=
  match visits with
  | [] => (s, [])
  | v :: visits =>
      let '(s', sent) := pace_visit s v in
      let '(s'', rest) := pace_run s' visits in (s'', sent :: rest)
  end.

Definition spent (sent : list (option Z)) : Z := foldr (fun c total => default 0 c + total) 0 sent.

Definition visit_ok (limit : Z) (v : Visit) : Prop :=
  forall bytes, vi_bytes v = Some bytes -> 0 <= bytes <= limit.

(** Ticks do not go back: [from], then those of the visits. *)
Fixpoint ordered (from : Z) (visits : list Visit) : Prop :=
  match visits with [] => True | v :: rest => from <= vi_tick v /\ ordered (vi_tick v) rest end.

Fixpoint last_tick (from : Z) (visits : list Visit) : Z :=
  match visits with [] => from | v :: rest => last_tick (vi_tick v) rest end.

Record pace_ok (limit tick : Z) (s : SnapshotPace) : Prop := {
  pk_tick : sp_refilled s = Some tick;
  pk_credit : - packet_cost limit < sp_credit s <= SNAPSHOT_CREDIT_PER_TICK;
  pk_backoff : 0 <= sp_backoff s <= MAX_STALE_BACKOFF;
  pk_stale until : sp_stale_until s = Some until -> until <= tick + 2 ^ MAX_STALE_BACKOFF;
}.

Lemma credit_value : SNAPSHOT_CREDIT_PER_TICK = 1250.
Proof. reflexivity. Qed.

Lemma backoff_bound b : 0 <= b <= MAX_STALE_BACKOFF -> Z.shiftl 1 b <= 2 ^ MAX_STALE_BACKOFF.
Proof. intros. rewrite Z.shiftl_1_l. apply Z.pow_le_mono_r; lia. Qed.

(** A visit turns a state into the state of its tick; what it sent is paid from the credit, of
    which there is never more than one tick's worth. *)
Lemma pace_visit_ok limit tick s v :
  0 <= limit -> pace_ok limit tick s \/ s = pace_default -> tick <= vi_tick v -> visit_ok limit v ->
  let '(s', sent) := pace_visit s v in
  pace_ok limit (vi_tick v) s' /\
  default 0 sent + sp_credit s' <= SNAPSHOT_CREDIT_PER_TICK /\
  (pace_ok limit tick s ->
   default 0 sent + sp_credit s' <= sp_credit s + SNAPSHOT_CREDIT_PER_TICK * (vi_tick v - tick)).
Proof.
  intros Hlimit Hs Htick Hv. pose proof credit_value as HC.
  assert (Hcost : 0 < packet_cost limit) by (unfold packet_cost, SNAPSHOT_PACKET_OVERHEAD; lia).
  assert (exists elapsed, 0 <= elapsed /\
    match sp_refilled s with None => 1 | Some last => saturating_sub (vi_tick v) last end = elapsed /\
    - packet_cost limit < sp_credit s + elapsed * SNAPSHOT_CREDIT_PER_TICK /\
    0 <= sp_backoff s <= MAX_STALE_BACKOFF /\
    (forall until, sp_stale_until s = Some until -> until <= vi_tick v + 2 ^ MAX_STALE_BACKOFF) /\
    (pace_ok limit tick s -> elapsed = vi_tick v - tick)) as (elapsed & Hnn & Hel & Hcredit & Hback & Hstale & Heq).
  { destruct Hs as [[Ht [Hlo Hhi] Hb Hu]| ->].
    - exists (vi_tick v - tick). rewrite Ht. unfold saturating_sub. repeat split; try lia.
      intros u Eu. specialize (Hu u Eu). lia.
    - exists 1. unfold packet_cost, SNAPSHOT_PACKET_OVERHEAD. cbn. repeat split; try done; try lia.
      intros [Ht]. done. }
  unfold pace_visit, pace_ready. rewrite Hel, !HC. rewrite HC in Hcredit.
  set (credit := Z.min _ _). assert (- packet_cost limit < credit <= SNAPSHOT_CREDIT_PER_TICK) as Hc by (rewrite HC; lia). rewrite HC in Hc.
  assert (Hearn : pace_ok limit tick s ->
            credit <= sp_credit s + 1250 * (vi_tick v - tick)).
  { intros H. specialize (Heq H). lia. }
  pose proof (backoff_bound _ Hback) as Hshift. unfold saturating_add32.
  destruct (credit <=? 0) eqn:E0; [split; [by split|cbn; split; [lia|intros H; specialize (Hearn H); lia]]|].
  apply Z.leb_gt in E0.
  assert (Hpay : forall bytes, vi_bytes v = Some bytes ->
            packet_cost bytes <= packet_cost limit /\ 0 < packet_cost bytes).
  { intros bytes Hb. specialize (Hv bytes Hb). unfold packet_cost, SNAPSHOT_PACKET_OVERHEAD. lia. }
  assert (HB : 0 <= 0 <= MAX_STALE_BACKOFF) by done.
  assert (HB' : 0 <= Z.min (sp_backoff s + 1) MAX_STALE_BACKOFF <= MAX_STALE_BACKOFF) by lia.
  destruct (match vi_unacked v with None => true | Some age => _ end);
    [|destruct (match sp_stale_until s with Some until => _ | None => _ end)];
    try (split; [by split|cbn; split; [lia|intros H; specialize (Hearn H); lia]]).
  all: destruct (vi_bytes v) as [bytes|] eqn:Eb; cbn.
  all: try (destruct (Hpay bytes eq_refl)).
  all: unfold packet_cost in *.
  all: split; [split; unfold packet_cost; cbn; [done|rewrite HC; lia|lia|by intros u [= <-]; lia]|].
  all: rewrite ?HC; split; [lia|intros Hok; specialize (Hearn Hok); lia].
Qed.

Lemma pace_run_app s visits1 visits2 :
  pace_run s (visits1 ++ visits2) =
    let '(s', sent1) := pace_run s visits1 in
    let '(s'', sent2) := pace_run s' visits2 in (s'', sent1 ++ sent2).
Proof.
  revert s. induction visits1 as [|v visits1 IH]; intros s; cbn.
  - by destruct (pace_run s visits2).
  - destruct (pace_visit s v) as [s1 sent]. rewrite IH. destruct (pace_run s1 visits1) as [s2 sent1].
    by destruct (pace_run s2 visits2).
Qed.

Lemma pace_run_ok limit tick s visits :
  0 <= limit -> pace_ok limit tick s -> ordered tick visits -> Forall (visit_ok limit) visits ->
  let '(s', sent) := pace_run s visits in
  pace_ok limit (last_tick tick visits) s' /\
  spent sent + sp_credit s' <= sp_credit s + SNAPSHOT_CREDIT_PER_TICK * (last_tick tick visits - tick).
Proof.
  intros Hlimit. revert tick s. induction visits as [|v visits IH]; intros tick s Hs Hord Hv.
  - cbn. split; [done|]. lia.
  - destruct Hord as [Ht Hord]. apply list.Forall_cons in Hv as [Hv Hvs]. cbn [pace_run].
    pose proof (pace_visit_ok limit tick s v Hlimit (or_introl Hs) Ht Hv) as Hstep.
    destruct (pace_visit s v) as [s1 sent]. destruct Hstep as (Hs1 & _ & Hpaid). specialize (Hpaid Hs).
    specialize (IH (vi_tick v) s1 Hs1 Hord Hvs). destruct (pace_run s1 visits) as [s2 rest].
    destruct IH as [Hs2 Hrest]. split; [done|]. unfold spent in *. cbn [last_tick foldr]. lia.
Qed.

(** The state before any visit. *)
Lemma pace_reached limit visits :
  0 <= limit -> ordered 0 visits -> Forall (visit_ok limit) visits ->
  pace_ok limit (last_tick 0 visits) (pace_run pace_default visits).1 \/
  (pace_run pace_default visits).1 = pace_default.
Proof.
  intros Hlimit Hord Hv. destruct visits as [|v visits]; [by right|left].
  destruct Hord as [Ht Hord]. apply list.Forall_cons in Hv as [Hv Hvs].
  pose proof (pace_visit_ok limit 0 pace_default v Hlimit (or_intror eq_refl) Ht Hv) as Hstep.
  cbn [pace_run]. destruct (pace_visit pace_default v) as [s1 sent]. destruct Hstep as (Hs1 & _).
  pose proof (pace_run_ok limit _ s1 visits Hlimit Hs1 Hord Hvs) as Hrun.
  destruct (pace_run s1 visits) as [s2 rest]. destruct Hrun as [Hs2 _]. done.
Qed.

Fixpoint consecutive (tick : Z) (visits : list Visit) : Prop :=
  match visits with [] => True | v :: rest => vi_tick v = tick + 1 /\ consecutive (vi_tick v) rest end.

Lemma not_ready tick s v s' :
  sp_refilled s = Some tick -> vi_tick v = tick + 1 -> pace_visit s v = (s', None) ->
  sp_refilled s' = Some (tick + 1) /\ sp_stale_until s' = sp_stale_until s /\
  sp_credit s' = Z.min (sp_credit s + SNAPSHOT_CREDIT_PER_TICK) SNAPSHOT_CREDIT_PER_TICK /\
  (sp_credit s' <= 0 \/ exists u, sp_stale_until s = Some u /\ tick + 1 < u).
Proof.
  intros Ht Hv. unfold pace_visit, pace_ready. rewrite Ht, Hv. unfold saturating_sub.
  replace (Z.max 0 (tick + 1 - tick) * SNAPSHOT_CREDIT_PER_TICK) with SNAPSHOT_CREDIT_PER_TICK by lia.
  set (credit := Z.min _ _).
  destruct (credit <=? 0) eqn:E; [intros [= <-]; cbn; auto with lia|].
  destruct (match vi_unacked v with None => true | Some age => _ end); [by destruct (vi_bytes v)|].
  destruct (sp_stale_until s) as [u|] eqn:Eu; [|by destruct (vi_bytes v)].
  destruct (tick + 1 <? u) eqn:Elt; [|by destruct (vi_bytes v)].
  intros [= <-]. cbn. repeat split; auto. right. exists u. split; [done|lia].
Qed.

(** A peer that stays silent is waiting for credit or for the end of its back-off. *)
Lemma silent_run tick s visits s' sent :
  sp_refilled s = Some tick -> consecutive tick visits -> visits <> [] ->
  pace_run s visits = (s', sent) -> Forall (fun c => c = None) sent ->
  sp_credit s + SNAPSHOT_CREDIT_PER_TICK * zlen visits <= 0 \/
  exists u, sp_stale_until s = Some u /\ tick + zlen visits < u.
Proof.
  revert tick s sent. induction visits as [|v visits IH]; intros tick s sent Ht Hcon Hne Hrun Hsilent; [done|].
  destruct Hcon as [Hv Hcon]. cbn [pace_run] in Hrun. destruct (pace_visit s v) as [s1 c] eqn:Evisit.
  destruct (pace_run s1 visits) as [s2 rest] eqn:Erest. injection Hrun as <- <-.
  apply list.Forall_cons in Hsilent as [-> Hsilent].
  destruct (not_ready tick s v s1 Ht Hv Evisit) as (Ht1 & Hu1 & Hc1 & Hwait).
  rewrite zlen_cons. rewrite Hv in Hcon. pose proof credit_value as HC.
  destruct visits as [|w visits].
  - rewrite zlen_nil. destruct Hwait as [?|(u & ? & ?)]; [left; lia|right; exists u; split; [done|lia]].
  - destruct (IH (tick + 1) s1 rest Ht1 Hcon ltac:(done) Erest Hsilent) as [Hlow|(u & Hu & Hlt)].
    + left. rewrite HC in *. pose proof (zlen_nonneg (w :: visits)). lia.
    + right. exists u. rewrite <- Hu1. split; [done|lia].
Qed.

(** A peer is sent snapshots at its rate and is not forgotten.  From any visit of the fanout to
    any later one, the bytes of the snapshots sent, with 48 more for each, are at most 1250 for
    each tick from the first to the last, and one packet more.  And however few acknowledgements
    arrive, of any 17 + (limit + 48) / 1250 + 1 visits in consecutive ticks one finds the peer
    ready, where [limit] is the size of the largest packet. *)
Theorem snapshots_keep_pace limit before v visits :
  0 <= limit -> ordered 0 (before ++ v :: visits) -> Forall (visit_ok limit) (before ++ v :: visits) ->
  let s := (pace_run pace_default before).1 in
  let sent := (pace_run s (v :: visits)).2 in
  spent sent <= SNAPSHOT_CREDIT_PER_TICK * (last_tick (vi_tick v) visits - vi_tick v + 1) + packet_cost limit /\
  (consecutive (vi_tick v) visits -> 17 + packet_cost limit / SNAPSHOT_CREDIT_PER_TICK <= zlen visits ->
   exists cost, Some cost ∈ sent).
Proof.
  intros Hlimit Hord Hall s sent. apply list.Forall_app in Hall as [Hbefore [Hv Hvisits]%list.Forall_cons].
  assert (Hsplit : forall t, ordered t (before ++ v :: visits) ->
    ordered t before /\ last_tick t before <= vi_tick v /\ ordered (vi_tick v) visits).
  { clear. induction before as [|u before IH]; intros t; cbn; [tauto|]. intros [? ?%IH]. tauto. }
  apply Hsplit in Hord as (Hord1 & Hle & Hord2).
  pose proof (pace_reached limit before Hlimit Hord1 Hbefore) as Hs. fold s in Hs.
  pose proof (pace_visit_ok limit _ s v Hlimit Hs Hle Hv) as Hstep. subst sent. cbn [pace_run].
  destruct (pace_visit s v) as [s1 c]. destruct Hstep as (Hs1 & Hpaid & _).
  pose proof (pace_run_ok limit _ s1 visits Hlimit Hs1 Hord2 Hvisits) as Hrun.
  destruct (pace_run s1 visits) as [s2 rest] eqn:Erun. destruct Hrun as [Hs2 Hspent].
  pose proof (pk_credit _ _ _ Hs2) as [Hlow _]. pose proof credit_value as HC. cbn [snd]. split.
  - unfold spent in *. cbn [foldr]. lia.
  - intros Hcon Hlen.
    destruct (decide (Forall (fun c => c = None) rest)) as [Hsilent|Hloud].
    + exfalso. assert (0 <= packet_cost limit / SNAPSHOT_CREDIT_PER_TICK) as Hpos.
      { rewrite HC. apply Z.div_pos; [unfold packet_cost, SNAPSHOT_PACKET_OVERHEAD|]; lia. }
      assert (visits <> []) as Hne by (intros ->; rewrite zlen_nil in Hlen; lia).
      destruct (silent_run _ s1 visits s2 rest (pk_tick _ _ _ Hs1) Hcon Hne Erun Hsilent) as [H|(u & Hu & Hlt)].
      * pose proof (pk_credit _ _ _ Hs1) as [Hlow1 _].
        pose proof (Z.mod_pos_bound (packet_cost limit) 1250). pose proof (Z.div_mod (packet_cost limit) 1250).
        rewrite HC in *. lia.
      * pose proof (pk_stale _ _ _ Hs1 u Hu) as Hmax. change (2 ^ MAX_STALE_BACKOFF) with 16 in Hmax. lia.
    + apply not_Forall_Exists in Hloud; [|tc_solve]. apply list.Exists_exists in Hloud as (c' & Hin & Hsome).
      destruct c' as [cost|]; [|by destruct Hsome]. exists cost. apply elem_of_cons. by right.
Qed.

(** A stale peer whose snapshots have 2000 bytes, visited in ticks 0 to 19. *)
Lemma snapshots_keep_pace_witness :
  let visit t := mkVisit t (Some 40) (Some 2000) in
  let visits := map visit [1; 2; 3; 4; 5; 6; 7; 8; 9; 10; 11; 12; 13; 14; 15; 16; 17; 18; 19] in
  (pace_run pace_default (visit 0 :: visits)).2 =
    [Some 2048; Some 2048; None; Some 2048; None; None; None; Some 2048; None; None; None; None; None; None;
     None; Some 2048; None; None; None; None] /\
  exists cost, Some cost ∈ (pace_run pace_default (visit 0 :: visits)).2.
Proof.
  intros visit visits. split; [vm_compute; reflexivity|].
  refine (proj2 (snapshots_keep_pace 2000 [] (visit 0) visits _ _ _) _ _).
  - lia.
  - vm_compute. intuition discriminate.
  - cbn; repeat (apply list.Forall_cons; split; [intros bytes [= <-]; lia|]); constructor.
  - vm_compute. intuition reflexivity.
  - vm_compute. discriminate.
Defined.
