(* ===== verification/Bootstrap.v ===== *)
(** * Bootstrap messages and their lane

    crates/net/src/transport/bootstrap.rs: the messages that admit a client to a match (the host
    offers it a first snapshot, the client answers that it was applied) and [BootstrapLane], the
    queues they pass through between the game and the relay task.  Instants are milliseconds; an
    operation reads the clock once.  The atomics and the locks are fields of one record: the
    operations that touch several of them are one step. *)

From S2P Require Export SessionTypes Protocol Mailbox.
From S2P Require Export ProtocolMain.
From S2P Require Import MasterRelay Mailbox.

#[local] Open Scope Z_scope.

(** ** Messages *)

Definition BOOTSTRAP_MAGIC : list byte := bs "BS".
Definition BOOTSTRAP_VERSION : Z := 1.
Definition BOOTSTRAP_OFFER : Z := 1.
Definition BOOTSTRAP_APPLIED : Z := 2.
(** crates/master_protocol/src/lib.rs. *)
Definition MAX_BOOTSTRAP_STREAM_BYTES : Z := 2 + 16 + MAX_BOOTSTRAP_PAYLOAD.

Definition MAX_BOOTSTRAP_PENDING : Z := 8.
Definition MAX_PENDING_ADMISSION_ACKS : Z := MAX_SESSION_MEMBERS.

Inductive BootstrapMessage : Type :=
| Offer (epoch bootstrap_id tick_b snapshot_seq connection : Z) (packet : list byte)
| BsApplied (epoch bootstrap_id tick_b snapshot_seq connection : Z).

Definition encode_bootstrap (message : BootstrapMessage) : Result WireError (list byte) :=
  let head := BOOTSTRAP_MAGIC ++ put_u8 BOOTSTRAP_VERSION in
  match message with
  | Offer epoch bootstrap_id tick_b snapshot_seq connection packet =>
      if MAX_PACKET_BYTES <? wrap32 (zlen packet)
      then Err (malformed "bootstrap packet exceeds max_packet_bytes")
      else Ok (head ++ put_u8 BOOTSTRAP_OFFER ++ put_u32 epoch ++ put_u32 bootstrap_id ++ put_u32 tick_b
                 ++ put_u32 snapshot_seq ++ put_u64_halves connection
                 ++ put_u32 (wrap32 (zlen packet)) ++ put_bytes packet ++ [])
  | BsApplied epoch bootstrap_id tick_b snapshot_seq connection =>
      Ok (head ++ put_u8 BOOTSTRAP_APPLIED ++ put_u32 epoch ++ put_u32 bootstrap_id ++ put_u32 tick_b
            ++ put_u32 snapshot_seq ++ put_u64_halves connection ++ [])
  end.

(** What follows the two magic bytes. *)
Definition bootstrap_body : WParser BootstrapMessage :=
  version ← get_u8;
  _ ← lift (fail_if (negb (version =? BOOTSTRAP_VERSION)) (malformed "unknown bootstrap version"));
  tag ← get_u8;
  if tag =? BOOTSTRAP_OFFER then
    epoch ← get_u32; bootstrap_id ← get_u32; tick_b ← get_u32; snapshot_seq ← get_u32;
    connection ← get_u64_halves;
    len ← get_u32;
    _ ← lift (fail_if (MAX_PACKET_BYTES <? len) (malformed "bootstrap packet exceeds max_packet_bytes"));
    packet ← get_bytes len;
    mret (Offer epoch bootstrap_id tick_b snapshot_seq connection packet)
  else if tag =? BOOTSTRAP_APPLIED then
    epoch ← get_u32; bootstrap_id ← get_u32; tick_b ← get_u32; snapshot_seq ← get_u32;
    connection ← get_u64_halves;
    mret (BsApplied epoch bootstrap_id tick_b snapshot_seq connection)
  else lift (Err (malformed "unknown bootstrap tag")).

Definition bootstrap_message : WParser BootstrapMessage :=
  _ ← get_u8; _ ← get_u8; bootstrap_body.

(** [starts_with]. *)
Definition starts_with (prefix bytes : list byte) : bool := bool_decide (take (length prefix) bytes = prefix).

Definition decode_bootstrap (bytes : list byte) : Result WireError (option BootstrapMessage) :=
  if negb (starts_with BOOTSTRAP_MAGIC bytes) then Ok None
  else '(message, input) ← bootstrap_message (mkReader bytes 0);
       if reader_is_empty input then Ok (Some message) else Err (malformed "trailing bootstrap bytes").

(** ** The lane *)

Record BootstrapAck : Type := mkBootstrapAck {
  bk_member_id : MemberId; bk_epoch : Z; bk_bootstrap_id : Z; bk_snapshot_seq : Z; bk_connection : Z }.

Inductive LaneFault : Type := QueueDeadline | IngressDeadline.

Record BootstrapLane : Type := mkBootstrapLane {
  bn_host_map_ready : gset MemberId;
  bn_to_worker : list (option MemberId * list byte * Z);
  bn_from_worker : list (option MemberId * list byte * Z);
  bn_fault : option LaneFault;
  bn_acks : list BootstrapAck;
  bn_epoch : Z;
  bn_entered_bootstrap : Z;
  bn_entered_client : Z;
}.

Definition lane_default : BootstrapLane := mkBootstrapLane ∅ [] [] None [] 0 0 0.

Definition set_epoch (s : BootstrapLane) (epoch : Z) : BootstrapLane :=
  if bn_epoch s =? epoch then s else mkBootstrapLane ∅ [] [] None [] epoch 0 0.

Definition note_entered (s : BootstrapLane) (bootstrap_id client_id : Z) : BootstrapLane :=
  mkBootstrapLane (bn_host_map_ready s) (bn_to_worker s) (bn_from_worker s) (bn_fault s) (bn_acks s)
    (bn_epoch s) bootstrap_id client_id.

(** The bytes waiting in a queue. *)
Definition queued_bytes (queue : list (option MemberId * list byte * Z)) : Z :=
  foldr (fun row total => zlen row.1.2 + total) 0 queue.

(** Both queues refuse a message on the same conditions. *)
Definition queue_refuses (limits : TransportBudget) (queue : list (option MemberId * list byte * Z))
    (bytes : list byte) : bool :=
  (Z.min MAX_BOOTSTRAP_PENDING (tb_queue_items limits) <=? zlen queue) ||
  (MAX_BOOTSTRAP_STREAM_BYTES <? zlen bytes) ||
  (tb_queue_bytes limits <? queued_bytes queue + zlen bytes).

Definition set_to_worker (s : BootstrapLane) (queue : list (option MemberId * list byte * Z))
    (fault : option LaneFault) : BootstrapLane :=
  mkBootstrapLane (bn_host_map_ready s) queue (bn_from_worker s) fault (bn_acks s) (bn_epoch s)
    (bn_entered_bootstrap s) (bn_entered_client s).

Definition set_from_worker (s : BootstrapLane) (queue : list (option MemberId * list byte * Z))
    (fault : option LaneFault) : BootstrapLane :=
  mkBootstrapLane (bn_host_map_ready s) (bn_to_worker s) queue fault (bn_acks s) (bn_epoch s)
    (bn_entered_bootstrap s) (bn_entered_client s).

(** [false]: the queue is full. *)
Definition push_to_worker (limits : TransportBudget) (now : Z) (s : BootstrapLane) (peer : option MemberId)
    (bytes : list byte) : BootstrapLane * bool :=
  if queue_refuses limits (bn_to_worker s) bytes then (s, false)
  else (set_to_worker s (bn_to_worker s ++ [(peer, bytes, now + tb_queue_age limits)]) (bn_fault s), true).

Definition push_from_worker (limits : TransportBudget) (now : Z) (s : BootstrapLane)
    (member_id : option MemberId) (bytes : list byte) : BootstrapLane * bool :=
  if queue_refuses limits (bn_from_worker s) bytes then (s, false)
  else (set_from_worker s (bn_from_worker s ++ [(member_id, bytes, now + tb_queue_age limits)]) (bn_fault s), true).

Definition overdue (now : Z) (queue : list (option MemberId * list byte * Z)) : bool :=
  existsb (fun row => row.2 <=? now) queue.

(** A queue that holds a late message is emptied, and nothing of it is returned. *)
Definition take_to_worker (now : Z) (s : BootstrapLane) : BootstrapLane * list (option MemberId * list byte) :=
  if overdue now (bn_to_worker s) then (set_to_worker s [] (Some QueueDeadline), [])
  else (set_to_worker s [] (bn_fault s), map fst (bn_to_worker s)).

Definition take_from_worker (now : Z) (s : BootstrapLane) : BootstrapLane * list (option MemberId * list byte) :=
  if overdue now (bn_from_worker s) then (set_from_worker s [] (Some IngressDeadline), [])
  else (set_from_worker s [] (bn_fault s), map fst (bn_from_worker s)).

Definition check_deadline (now : Z) (s : BootstrapLane) : BootstrapLane * Result LaneFault () :=
  let s := if overdue now (bn_to_worker s) || overdue now (bn_from_worker s)
           then set_to_worker s (bn_to_worker s) (Some QueueDeadline) else s in
  (s, match bn_fault s with Some fault => Err fault | None => Ok () end).

Definition set_acks (s : BootstrapLane) (acks : list BootstrapAck) : BootstrapLane :=
  mkBootstrapLane (bn_host_map_ready s) (bn_to_worker s) (bn_from_worker s) (bn_fault s) acks
    (bn_epoch s) (bn_entered_bootstrap s) (bn_entered_client s).

(** The first answer of the member is replaced. *)
Fixpoint replace_ack (ack : BootstrapAck) (acks : list BootstrapAck) : option (list BootstrapAck) :=
  match acks with
  | [] => None
  | pending :: rest =>
      if bool_decide (bk_member_id pending = bk_member_id ack) then Some (ack :: rest)
      else match replace_ack ack rest with Some rest => Some (pending :: rest) | None => None end
  end.

Definition push_ack (s : BootstrapLane) (ack : BootstrapAck) : BootstrapLane * bool :=
  match replace_ack ack (bn_acks s) with
  | Some acks => (set_acks s acks, true)
  | None =>
      if MAX_PENDING_ADMISSION_ACKS <=? zlen (bn_acks s) then (s, false)
      else (set_acks s (bn_acks s ++ [ack]), true)
  end.

Definition take_acks (s : BootstrapLane) : BootstrapLane * list BootstrapAck := (set_acks s [], bn_acks s).

(** ** An offer on its way to the lane *)

Record BootstrapTransaction : Type := mkTransaction {
  tx_epoch : Z; tx_bootstrap_id : Z; tx_tick_b : Z; tx_snapshot_seq : Z; tx_connection : Z;
  tx_offer_bytes : list byte }.

Record QueuedBootstrap : Type := mkQueued {
  qd_epoch : Z; qd_bootstrap_id : Z; qd_tick_b : Z; qd_snapshot_seq : Z; qd_connection : Z }.

Definition from_snapshot (epoch bootstrap_id tick_b snapshot_seq connection : Z) (packet : list byte)
    : Result WireError BootstrapTransaction :=
  offer_bytes ← encode_bootstrap (Offer epoch bootstrap_id tick_b snapshot_seq connection packet);
  mret (mkTransaction epoch bootstrap_id tick_b snapshot_seq connection offer_bytes).

Definition enqueue (limits : TransportBudget) (now : Z) (t : BootstrapTransaction) (lane : BootstrapLane)
    (member : MemberId) : BootstrapLane * option QueuedBootstrap :=
  if negb (epoch_applies (tx_epoch t) (bn_epoch lane)) then (lane, None)
  else let '(lane, queued) := push_to_worker limits now lane (Some member) (tx_offer_bytes t) in
       (lane, if queued
              then Some (mkQueued (tx_epoch t) (tx_bootstrap_id t) (tx_tick_b t) (tx_snapshot_seq t) (tx_connection t))
              else None).

(** * Properties of the bootstrap messages and their lane

    What is decoded is exactly what was encoded; an offer reaches the member it is for, unless its
    packet is one of the few that fit a packet but not a relayed stream; and the lane never
    carries a message from one match into the next. *)

Definition valid_bootstrap (message : BootstrapMessage) : Prop :=
  match message with
  | Offer epoch bootstrap_id tick_b snapshot_seq connection packet =>
      is_u32 epoch /\ is_u32 bootstrap_id /\ is_u32 tick_b /\ is_u32 snapshot_seq /\ is_u64 connection /\
      zlen packet <= MAX_PACKET_BYTES
  | BsApplied epoch bootstrap_id tick_b snapshot_seq connection =>
      is_u32 epoch /\ is_u32 bootstrap_id /\ is_u32 tick_b /\ is_u32 snapshot_seq /\ is_u64 connection
  end.

#[export] Instance u64_halves_exact : WireExact put_u64_halves get_u64_halves is_u64.
Proof.
  split. unfold get_u64_halves, put_u64_halves. do 2 exact_field. exact_done.
  assert (Hjoin : Z.lor (Z.shiftl v 32) v0 = v0 + 2 ^ 32 * v) by (rewrite Z.lor_comm; by apply lor_halves).
  rewrite Hjoin, Z.shiftr_div_pow2 by done. unfold wrap32. change (2 ^ 32) with 4294967296.
  assert ((v0 + 4294967296 * v) / 4294967296 = v /\ (v0 + 4294967296 * v) mod 4294967296 = v0) as [-> ->].
  { unfold is_u32, u32_max in *. split; Z.to_euclidean_division_equations; lia. }
  split; [|done]. unfold is_u32, is_u64, u32_max, u64_max in *. lia.
Qed.

Lemma wrap32_small n : 0 <= n <= MAX_PACKET_BYTES -> wrap32 n = n.
Proof. intros. unfold wrap32, MAX_PACKET_BYTES in *. apply Z.mod_small. lia. Qed.

Lemma bootstrap_parses message u :
  valid_bootstrap message -> encode_bootstrap message = Ok u -> parses bootstrap_message u message.
Proof.
  destruct message as [e b t s c packet|e b t s c]; cbn [valid_bootstrap encode_bootstrap].
  - intros (? & ? & ? & ? & ? & Hlen). rewrite wrap32_small by (pose proof (zlen_nonneg packet); lia).
    rewrite (proj2 (Z.ltb_ge _ _)) by done. intros <-%ok_inj. unfold bootstrap_message, bootstrap_body.
    change (BOOTSTRAP_MAGIC ++ put_u8 BOOTSTRAP_VERSION) with (put_u8 66 ++ put_u8 83 ++ put_u8 BOOTSTRAP_VERSION).
    rewrite <- !app_assoc. do 3 wire_step. eapply parses_lift; [reflexivity|]. wire_step.
    cbn [Z.eqb Pos.eqb BOOTSTRAP_OFFER]. do 5 wire_step.
    eapply parses_bind; [apply parses_put_u32; pose proof (zlen_nonneg packet); unfold MAX_PACKET_BYTES in *; ilia|].
    cbv beta. eapply parses_lift; [unfold fail_if; by rewrite (proj2 (Z.ltb_ge _ _))|].
    eapply parses_bind; [by apply parses_get_bytes|]. apply parses_ret.
  - intros (? & ? & ? & ? & ?) <-%ok_inj. unfold bootstrap_message, bootstrap_body.
    change (BOOTSTRAP_MAGIC ++ put_u8 BOOTSTRAP_VERSION) with (put_u8 66 ++ put_u8 83 ++ put_u8 BOOTSTRAP_VERSION).
    rewrite <- !app_assoc. do 3 wire_step. eapply parses_lift; [reflexivity|]. wire_step.
    cbn [Z.eqb Pos.eqb BOOTSTRAP_OFFER BOOTSTRAP_APPLIED]. wire_steps.
Qed.

Lemma bootstrap_body_consumes :
  consumes bootstrap_body
    (fun message u => valid_bootstrap message /\ encode_bootstrap message = Ok (BOOTSTRAP_MAGIC ++ u)).
Proof.
  unfold bootstrap_body. exact_field. exact_check. apply negb_false_iff, Z.eqb_eq in Eb as ->. exact_field.
  destruct (Z.eqb_spec v BOOTSTRAP_OFFER) as [->|_]; [|destruct (Z.eqb_spec v BOOTSTRAP_APPLIED) as [->|_]].
  - do 6 exact_field. exact_check. apply Z.ltb_ge in Eb.
    eapply consumes_bind; [apply consumes_wr_take; ilia|]. intros packet u [-> Hlen]. exact_done.
    split; [cbn [valid_bootstrap]; do 5 (split; [done|]); lia|]. cbn [encode_bootstrap].
    rewrite Hlen, wrap32_small by ilia. rewrite (proj2 (Z.ltb_ge _ _)) by done.
    rewrite <- ?app_assoc, ?app_nil_r. done.
  - do 5 exact_field. exact_done. split; [done|]. cbn [encode_bootstrap].
    rewrite <- ?app_assoc, ?app_nil_r. done.
  - apply consumes_err.
Qed.

Lemma bootstrap_encoded_head message u :
  encode_bootstrap message = Ok u -> exists rest, u = BOOTSTRAP_MAGIC ++ rest.
Proof.
  destruct message; cbn [encode_bootstrap]; [destruct (MAX_PACKET_BYTES <? _); [discriminate|]|];
    intros <-%ok_inj; rewrite <- app_assoc; eauto.
Qed.

(** A bootstrap message is read back as it was sent, and only what a sender writes is read:
    bytes decode to a message exactly when they are its encoding.  Bytes without the magic are
    something else, not an error. *)
Theorem bootstrap_message_iff message bytes :
  fits bytes ->
  (decode_bootstrap bytes = Ok (Some message) <-> valid_bootstrap message /\ encode_bootstrap message = Ok bytes) /\
  (decode_bootstrap bytes = Ok None <-> take 2 bytes <> BOOTSTRAP_MAGIC).
Proof.
  intros Hfit. unfold decode_bootstrap, starts_with. change (length BOOTSTRAP_MAGIC) with 2%nat.
  destruct (decide (take 2 bytes = BOOTSTRAP_MAGIC)) as [Hmagic|Hmagic].
  - rewrite bool_decide_eq_true_2 by done. cbn [negb]. split; [split|].
    + destruct (bootstrap_message (mkReader bytes 0)) as [[m input]|] eqn:Erun; [|discriminate].
      cbn [mbind result_bind]. destruct (reader_is_empty input) eqn:Eempty; [|discriminate]. intros [= ->].
      assert (Hall : consumes bootstrap_message (fun m u =>
                exists b1 b2 body, u = b1 :: b2 :: body /\ valid_bootstrap m /\
                  encode_bootstrap m = Ok (BOOTSTRAP_MAGIC ++ body))).
      { unfold bootstrap_message. do 2 exact_field.
        eapply consumes_weaken, bootstrap_body_consumes. intros m' u [? ?]. unfold put_u8. cbn. eauto 10. }
      apply Z.eqb_eq in Eempty. unfold remaining in Eempty.
      destruct (consumes_whole _ _ bytes message input Hall Hfit Erun) as (b1 & b2 & body & -> & Hm & He); [lia|].
      split; [done|]. rewrite He. do 2 f_equal. cbn in Hmagic. unfold BOOTSTRAP_MAGIC in *. cbn in *. congruence.
    + intros [Hm He]. rewrite (parses_whole _ _ _ (bootstrap_parses _ _ Hm He) Hfit).
      cbn [mbind result_bind]. unfold reader_is_empty, remaining. cbn. by rewrite Z.sub_diag.
    + destruct (bootstrap_message _) as [[m input]|]; cbn; [|done]. by destruct (reader_is_empty input).
  - rewrite bool_decide_eq_false_2 by done. cbn [negb]. split; [|done]. split; [discriminate|].
    intros [_ He]. destruct (bootstrap_encoded_head _ _ He) as [rest ->]. by destruct Hmagic.
Qed.

Lemma bootstrap_message_iff_witness :
  let m := Offer 3 1 40 2 (2 ^ 40 + 5) (bs "snapshot") in
  exists bytes, encode_bootstrap m = Ok bytes /\ decode_bootstrap bytes = Ok (Some m).
Proof.
  eexists. split; [reflexivity|].
  refine (proj2 (proj1 (bootstrap_message_iff _ _ _)) _); [vm_compute; congruence|].
  split; [|reflexivity]. vm_compute. intuition congruence.
Defined.

(** ** An offer on its way to the member *)

Lemma offer_length epoch bootstrap_id tick_b snapshot_seq connection packet bytes :
  encode_bootstrap (Offer epoch bootstrap_id tick_b snapshot_seq connection packet) = Ok bytes ->
  zlen bytes = 32 + zlen packet.
Proof.
  cbn [encode_bootstrap]. destruct (MAX_PACKET_BYTES <? _); [discriminate|]. intros <-%ok_inj.
  unfold put_u64_halves, put_u32, put_bytes. rewrite !zlen_app, !zlen_le_bytes, zlen_nil.
  change (zlen BOOTSTRAP_MAGIC) with 2. change (zlen (put_u8 BOOTSTRAP_VERSION)) with 1.
  change (zlen (put_u8 BOOTSTRAP_OFFER)) with 1. lia.
Qed.

(** An offer reaches its member.  If its packet has at most 262112 bytes, the host's relay
    envelope and the one the service forwards are accepted at every hop and the member decodes
    the offer.  A packet of 262113 to 262144 bytes still encodes as an offer, and up to 262130
    bytes an empty queue takes it, but the envelope refuses it: the offer ends the session of the
    host instead. *)
Theorem bootstrap_offer_travels epoch bootstrap_id tick_b snapshot_seq connection packet member limits now :
  valid_bootstrap (Offer epoch bootstrap_id tick_b snapshot_seq connection packet) -> wf_member_id member ->
  0 < tb_queue_items limits -> MAX_BOOTSTRAP_STREAM_BYTES <= tb_queue_bytes limits ->
  let offer := Offer epoch bootstrap_id tick_b snapshot_seq connection packet in
  exists bytes, encode_bootstrap offer = Ok bytes /\
    (zlen packet <= 262112 ->
       exists up down,
         encode_relay_stream (HostToMember member bytes) = Ok up /\ zlen up <= MAX_BOOTSTRAP_STREAM_BYTES /\
         decode_relay_stream up = Ok (HostToMember member bytes) /\
         encode_relay_stream (ServiceToMember bytes) = Ok down /\
         decode_relay_stream down = Ok (ServiceToMember bytes) /\
         decode_bootstrap bytes = Ok (Some offer)) /\
    (262112 < zlen packet ->
       encode_relay_stream (HostToMember member bytes) = Err (PLengthExceeded (32 + zlen packet))) /\
    (push_to_worker limits now lane_default (Some member) bytes).2 = (zlen packet <=? 262130).
Proof.
  intros Hvalid Hmember Hitems Hbytes offer.
  assert (exists bytes, encode_bootstrap offer = Ok bytes) as [bytes He].
  { subst offer. destruct Hvalid as (_ & _ & _ & _ & _ & Hlen). cbn [encode_bootstrap].
    rewrite wrap32_small by (pose proof (zlen_nonneg packet); lia).
    rewrite (proj2 (Z.ltb_ge _ _)) by done. eauto. }
  pose proof (offer_length _ _ _ _ _ _ _ He) as Hlen. exists bytes. split; [done|]. split; [|split].
  - intros Hsmall. assert (Hrelay : forall d, relay_payload d = bytes -> exists out, encode_relay_stream d = Ok out).
    { intros d <-. unfold encode_relay_stream, encode_relay_bounded, relay_payload in *.
      destruct (relay_parts d) as [[tag m] payload]. cbn [snd] in *. unfold MAX_BOOTSTRAP_PAYLOAD.
      rewrite (proj2 (Z.ltb_ge _ _)) by lia. eauto. }
    destruct (Hrelay (HostToMember member bytes) eq_refl) as [up Hup].
    destruct (Hrelay (ServiceToMember bytes) eq_refl) as [down Hdown]. exists up, down.
    split; [done|]. split; [|split; [|split; [done|split]]].
    + pose proof Hup as Hup'. apply encode_relay_bounded_ok in Hup' as [_ ->]. unfold MAX_BOOTSTRAP_STREAM_BYTES.
      unfold relay_payload. cbn [relay_parts fst snd]. rewrite !zlen_app, Hmember. unfold MAX_BOOTSTRAP_PAYLOAD.
      change (zlen [byte_of 10; byte_of 2]) with 2. lia.
    + apply decode_relay_bounded_complete; [done|exact Hup].
    + apply decode_relay_bounded_complete; [done|exact Hdown].
    + assert (fits bytes) as Hfit by (unfold fits, isize_max; lia).
      unfold decode_bootstrap, starts_with. destruct (bootstrap_encoded_head _ _ He) as [rest Hrest].
      rewrite bool_decide_eq_true_2 by (rewrite Hrest; done). cbn [negb].
      rewrite (parses_whole _ _ _ (bootstrap_parses _ _ Hvalid He) Hfit). cbn [mbind result_bind].
      unfold reader_is_empty, remaining. cbn. by rewrite Z.sub_diag.
  - intros Hlarge. unfold encode_relay_stream, encode_relay_bounded. cbn [relay_parts].
    unfold MAX_BOOTSTRAP_PAYLOAD. rewrite (proj2 (Z.ltb_lt _ _)) by lia. by rewrite Hlen.
  - unfold push_to_worker, queue_refuses. cbn [bn_to_worker lane_default]. rewrite zlen_nil.
    unfold MAX_BOOTSTRAP_STREAM_BYTES, MAX_BOOTSTRAP_PAYLOAD, MAX_BOOTSTRAP_PENDING in *. cbn [queued_bytes foldr].
    rewrite (proj2 (Z.leb_gt _ _)) by lia. cbn [orb].
    destruct (Z.leb_spec (zlen packet) 262130).
    + rewrite !(proj2 (Z.ltb_ge _ _)) by lia. done.
    + rewrite (proj2 (Z.ltb_lt _ _)) by lia. done.
Qed.

Lemma bootstrap_offer_travels_witness :
  exists bytes up down,
    encode_bootstrap (Offer 3 1 40 2 7 (bs "snapshot")) = Ok bytes /\
    encode_relay_stream (HostToMember (demo_member 5) bytes) = Ok up /\
    decode_relay_stream up = Ok (HostToMember (demo_member 5) bytes) /\
    encode_relay_stream (ServiceToMember bytes) = Ok down /\
    decode_relay_stream down = Ok (ServiceToMember bytes) /\
    decode_bootstrap bytes = Ok (Some (Offer 3 1 40 2 7 (bs "snapshot"))).
Proof.
  destruct (bootstrap_offer_travels 3 1 40 2 7 (bs "snapshot") (demo_member 5) budget_default 0)
    as (bytes & He & Hsmall & _).
  - vm_compute. intuition congruence.
  - vm_compute. reflexivity.
  - vm_compute. reflexivity.
  - vm_compute. congruence.
  - destruct Hsmall as (up & down & ? & ? & ? & ? & ? & ?); [vm_compute; congruence|].
    exists bytes, up, down. auto 10.
Defined.

(** ** The lane *)

Inductive LnOp : Type :=
| LnEpoch (epoch : Z)
| LnEntered (bootstrap_id client_id : Z)
| LnPushTo (now : Z) (peer : option MemberId) (bytes : list byte)
| LnTakeTo (now : Z)
| LnPushFrom (now : Z) (peer : option MemberId) (bytes : list byte)
| LnTakeFrom (now : Z)
| LnCheck (now : Z)
| LnPushAck (ack : BootstrapAck)
| LnTakeAcks.

(** What was pushed since the lane last changed its epoch. *)
Record LnSince : Type := mkSince {
  si_to : list (option MemberId * list byte);
  si_from : list (option MemberId * list byte);
  si_acks : list BootstrapAck;
  si_late : bool;
}.

Definition since_none : LnSince := mkSince [] [] [] false.

Section Lane.
Context (limits : TransportBudget).

Definition ln_step (st : BootstrapLane * LnSince) (op : LnOp) : BootstrapLane * LnSince :=
  let '(s, h) := st in
  match op with
  | LnEpoch epoch => (set_epoch s epoch, if bn_epoch s =? epoch then h else since_none)
  | LnEntered bootstrap_id client_id => (note_entered s bootstrap_id client_id, h)
  | LnPushTo now peer bytes =>
      ((push_to_worker limits now s peer bytes).1, mkSince (si_to h ++ [(peer, bytes)]) (si_from h) (si_acks h) (si_late h))
  | LnTakeTo now => ((take_to_worker now s).1, mkSince (si_to h) (si_from h) (si_acks h) (si_late h || overdue now (bn_to_worker s)))
  | LnPushFrom now peer bytes =>
      ((push_from_worker limits now s peer bytes).1, mkSince (si_to h) (si_from h ++ [(peer, bytes)]) (si_acks h) (si_late h))
  | LnTakeFrom now =>
      ((take_from_worker now s).1, mkSince (si_to h) (si_from h) (si_acks h) (si_late h || overdue now (bn_from_worker s)))
  | LnCheck now =>
      ((check_deadline now s).1,
       mkSince (si_to h) (si_from h) (si_acks h) (si_late h || overdue now (bn_to_worker s) || overdue now (bn_from_worker s)))
  | LnPushAck ack => ((push_ack s ack).1, mkSince (si_to h) (si_from h) (si_acks h ++ [ack]) (si_late h))
  | LnTakeAcks => ((take_acks s).1, h)
  end.

Record queue_ok (queue : list (option MemberId * list byte * Z)) (since : list (option MemberId * list byte)) : Prop := {
  qo_items : zlen queue <= Z.max 0 (Z.min MAX_BOOTSTRAP_PENDING (tb_queue_items limits));
  qo_bytes : queued_bytes queue <= Z.max 0 (tb_queue_bytes limits);
  qo_since : map fst queue `sublist_of` since;
}.

Record lane_ok (s : BootstrapLane) (h : LnSince) : Prop := {
  lk_to : queue_ok (bn_to_worker s) (si_to h);
  lk_from : queue_ok (bn_from_worker s) (si_from h);
  lk_acks : zlen (bn_acks s) <= MAX_PENDING_ADMISSION_ACKS;
  lk_members : NoDup (map bk_member_id (bn_acks s));
  lk_given : Forall (fun ack => ack ∈ si_acks h) (bn_acks s);
  lk_late : si_late h = true <-> bn_fault s <> None;
}.

Lemma queue_ok_nil since : queue_ok [] since.
Proof. split; [rewrite zlen_nil; lia|cbn; lia|apply sublist_nil_l]. Qed.

Lemma queued_bytes_snoc queue row : queued_bytes (queue ++ [row]) = queued_bytes queue + zlen row.1.2.
Proof. unfold queued_bytes. induction queue as [|x queue IH]; cbn; [lia|]. rewrite IH. lia. Qed.

(** A push that is taken, and one that is refused. *)
Lemma queue_ok_push queue since row :
  queue_ok queue since -> queue_refuses limits queue row.1.2 = false ->
  queue_ok (queue ++ [row]) (since ++ [row.1]).
Proof.
  intros [Hi Hb Hs] Hroom. apply orb_false_iff in Hroom as [Hroom ?]. apply orb_false_iff in Hroom as [? ?].
  split.
  - rewrite zlen_snoc. lia.
  - rewrite queued_bytes_snoc. lia.
  - rewrite map_app. by apply sublist_app.
Qed.

Lemma queue_ok_more queue since x : queue_ok queue since -> queue_ok queue (since ++ [x]).
Proof. intros [Hi Hb Hs]. split; [done|done|by apply sublist_inserts_r]. Qed.

Lemma replace_ack_spec ack acks acks' :
  replace_ack ack acks = Some acks' ->
  map bk_member_id acks' = map bk_member_id acks /\ (forall a, a ∈ acks' -> a = ack \/ a ∈ acks).
Proof.
  revert acks'. induction acks as [|a acks IH]; intros acks'; cbn; [discriminate|].
  destruct (bool_decide _) eqn:E.
  - intros [= <-]. apply bool_decide_eq_true in E. cbn. split; [by rewrite E|].
    intros b. rewrite !elem_of_cons. naive_solver.
  - destruct (replace_ack ack acks) as [rest|]; [|discriminate]. intros [= <-].
    destruct (IH rest eq_refl) as [Hm Hin]. cbn. split; [by rewrite Hm|].
    intros b. rewrite !elem_of_cons. intros [->|[?|?]%Hin]; auto.
Qed.

Lemma replace_ack_none ack acks : replace_ack ack acks = None -> bk_member_id ack ∉ map bk_member_id acks.
Proof.
  induction acks as [|a acks IH]; cbn; [intros _; apply not_elem_of_nil|].
  destruct (bool_decide _) eqn:E; [discriminate|]. apply bool_decide_eq_false in E.
  destruct (replace_ack ack acks); [discriminate|]. intros _. rewrite elem_of_cons. intros [?|?]; [congruence|].
  by apply IH.
Qed.

Lemma push_queue_ok queue since peer bytes deadline :
  queue_ok queue since ->
  queue_ok (if queue_refuses limits queue bytes then queue else queue ++ [(peer, bytes, deadline)])
    (since ++ [(peer, bytes)]).
Proof.
  intros Hq. destruct (queue_refuses limits queue bytes) eqn:E; [by apply queue_ok_more|].
  by apply (queue_ok_push queue since (peer, bytes, deadline)).
Qed.

Lemma ln_step_ok st op : lane_ok st.1 st.2 -> lane_ok (ln_step st op).1 (ln_step st op).2.
Proof.
  destruct st as [s h]. cbn [fst snd]. intros Hok.
  assert (Hmore : forall ack, Forall (fun a => a ∈ si_acks h ++ [ack]) (bn_acks s)).
  { intros ack. eapply list.Forall_impl; [apply (lk_given _ _ Hok)|]. cbn. intros a ?. apply elem_of_app. by left. }
  destruct Hok as [Hto Hfrom Hacks Hmem Hgiven Hlate].
  destruct op as [epoch|b c|now peer bytes|now|now peer bytes|now|now|ack|]; cbn [ln_step fst snd].
  - unfold set_epoch. destruct (bn_epoch s =? epoch); [by split|]. split; cbn; try apply queue_ok_nil; try done; constructor.
  - by split.
  - pose proof (push_queue_ok _ _ peer bytes (now + tb_queue_age limits) Hto).
    unfold push_to_worker. destruct (queue_refuses _ _ _); by split.
  - unfold take_to_worker. destruct (overdue now (bn_to_worker s)) eqn:E; split; cbn;
      rewrite ?orb_true_r, ?orb_false_r; try done; apply queue_ok_nil.
  - pose proof (push_queue_ok _ _ peer bytes (now + tb_queue_age limits) Hfrom).
    unfold push_from_worker. destruct (queue_refuses _ _ _); by split.
  - unfold take_from_worker. destruct (overdue now (bn_from_worker s)) eqn:E; split; cbn;
      rewrite ?orb_true_r, ?orb_false_r; try done; apply queue_ok_nil.
  - unfold check_deadline. rewrite <- orb_assoc. destruct (_ || overdue now (bn_from_worker s)) eqn:E; split; cbn;
      rewrite ?orb_true_r, ?orb_false_r; done.
  - unfold push_ack. destruct (replace_ack ack (bn_acks s)) as [acks|] eqn:E; [|destruct (_ <=? _) eqn:Efull].
    + destruct (replace_ack_spec _ _ _ E) as [Hm Hin]. split; cbn; try done.
      * pose proof (f_equal length Hm) as Hl. rewrite !length_map in Hl. unfold zlen in *. by rewrite Hl.
      * by rewrite Hm.
      * apply list.Forall_forall. intros a [->|Ha]%Hin; rewrite elem_of_app; [right; apply list_elem_of_singleton; done|].
        left. by eapply list.Forall_forall in Hgiven.
    + split; cbn; try done; apply Hmore.
    + split; cbn; try done.
      * rewrite zlen_snoc. unfold MAX_PENDING_ADMISSION_ACKS in *. lia.
      * rewrite map_app. apply list.NoDup_app. split; [done|]. split; [|cbn; apply NoDup_singleton].
        intros m Hm. cbn. rewrite list_elem_of_singleton. intros ->. by apply (replace_ack_none _ _ E).
      * apply list.Forall_app. split; [apply Hmore|]. constructor; [|constructor].
        apply elem_of_app. right. by apply list_elem_of_singleton.
  - split; cbn; try done; constructor.
Qed.

Definition ln_run (ops : list LnOp) : BootstrapLane * LnSince := foldl ln_step (lane_default, since_none) ops.

Lemma ln_run_ok ops : lane_ok (ln_run ops).1 (ln_run ops).2.
Proof.
  unfold ln_run. assert (forall st, lane_ok st.1 st.2 -> lane_ok (foldl ln_step st ops).1 (foldl ln_step st ops).2) as H.
  { induction ops as [|op ops IH]; intros st Hst; [done|]. apply IH, ln_step_ok, Hst. }
  apply H. split; cbn; try apply queue_ok_nil; try done; constructor.
Qed.
End Lane.

(** The lane does not carry a match over.  Whatever is taken from its queues, and every answer,
    was pushed since the lane last changed its epoch, in order; a message that waited past its
    deadline is not delivered late: nothing is taken then, and the deadline check fails until the
    epoch changes.  The queues stay within their items and bytes, and there is at most one answer
    for a member. *)
Theorem lane_keeps_matches_apart limits ops now :
  let '(s, since) := ln_run limits ops in
  (take_to_worker now s).2 `sublist_of` si_to since /\ (take_from_worker now s).2 `sublist_of` si_from since /\
  Forall (fun ack => ack ∈ si_acks since) (take_acks s).2 /\ NoDup (map bk_member_id (take_acks s).2) /\
  (overdue now (bn_to_worker s) = true -> (take_to_worker now s).2 = []) /\
  (overdue now (bn_from_worker s) = true -> (take_from_worker now s).2 = []) /\
  ((check_deadline now s).2 = Ok () <->
     si_late since = false /\ overdue now (bn_to_worker s) = false /\ overdue now (bn_from_worker s) = false) /\
  zlen (bn_to_worker s) <= MAX_BOOTSTRAP_PENDING /\ zlen (bn_from_worker s) <= MAX_BOOTSTRAP_PENDING /\
  zlen (bn_acks s) <= MAX_PENDING_ADMISSION_ACKS.
Proof.
  pose proof (ln_run_ok limits ops) as Hok. destruct (ln_run limits ops) as [s since]. cbn [fst snd] in Hok.
  destruct Hok as [[Hi1 Hb1 Hs1] [Hi2 Hb2 Hs2] Hacks Hmem Hgiven Hlate].
  unfold take_to_worker, take_from_worker, check_deadline. cbn [snd].
  split; [destruct (overdue now _); [apply sublist_nil_l|done]|].
  split; [destruct (overdue now (bn_from_worker s)); [apply sublist_nil_l|done]|].
  split; [done|]. split; [done|]. split; [by intros ->|]. split; [by intros ->|].
  split; [|unfold MAX_BOOTSTRAP_PENDING in *; lia].
  destruct (overdue now (bn_to_worker s)), (overdue now (bn_from_worker s)); cbn; try naive_solver.
  destruct (bn_fault s), (si_late since); naive_solver.
Qed.
