(* ===== verification/StructuredData.v ===== *)
(** * Structured data

    crates/structured_data_iw4/src/lib.rs: the layout of a player's saved data.  A [Definition]
    says where each field of a buffer is; [validate] checks a definition that came from a file,
    [lookup] finds the field of a path, [read] and [write] access it in the buffer, [write] noting
    in a bit map which bytes it changed.

    A [usize] is a [Z], an index into a list a [nat]; a [&str] is its UTF-8 bytes, a float its 32
    bits.  Indexing out of range panics: [Panic] in the validation, [None] in [write]. *)

From S2P Require Export Prelude Utf8.

#[local] Open Scope Z_scope.

Inductive DataType : Type :=
| TyInt | TyByte | TyBool
| TyString (length : Z)
| TyEnum (i : nat)
| TyStruct (i : nat)
| TyIndexedArray (i : nat)
| TyEnumArray (i : nat)
| TyFloat | TyShort.

#[export] Instance data_type_eq_dec : EqDecision DataType.
Proof. solve_decision. Defined.

Record EnumEntry : Type := mkEntry { en_name : list byte; en_index : Z }.
Record SdEnum : Type := mkEnum { en_reserved : Z; en_entries : list EnumEntry }.
Record Property : Type := mkProperty { pr_name : list byte; pr_ty : DataType; pr_offset : Z }.
Record SdStruct : Type := mkStruct { sr_properties : list Property; sr_size : Z; sr_bit_offset : Z }.
Record IndexedArray : Type := mkIndexedArray { ia_count : Z; ia_element : DataType; ia_stride : Z }.
Record EnumArray : Type := mkEnumArray { ea_enumeration : nat; ea_element : DataType; ea_stride : Z }.

Record Definition_ : Type := mkDefinition {
  df_version : Z;
  df_checksum : Z;
  df_size : Z;
  df_root : DataType;
  df_enums : list SdEnum;
  df_structs : list SdStruct;
  df_indexed_arrays : list IndexedArray;
  df_enum_arrays : list EnumArray;
}.

Inductive Key : Type := KName (name : list byte) | KIndex (index : Z).

Inductive SdValue : Type :=
| VInt (v : Z) | VBool (v : bool) | VFloat (bits : Z) | VString (text : list byte) | VBytes (bytes : list byte).

Inductive SdError : Type :=
| InvalidDefinition | WrongKey | MissingKey | ExtraKey | UnknownName | IndexOutOfRange | BufferBounds
| WrongValue | ByteRange | StringLength | InvalidString.

Record Lookup_ : Type := mkLookup { lo_ty : DataType; lo_offset : Z }.

(** ** Standard library *)

(** The [Ordering] of two strings. *)
Definition bytes_cmp (a b : list byte) : comparison :=
  if bool_decide (a = b) then Eq else if bytes_leb a b then Lt else Gt.

(** The search loop of [binary_search_by]: [size] candidates from [base]. *)
Fixpoint search_loop {A} (cmp : A -> comparison) (l : list A) (fuel size base : nat) : nat :=
  match fuel with
  | O => base
  | S fuel =>
      if Nat.leb size 1 then base
      else
        let half := (size / 2)%nat in
        let mid := (base + half)%nat in
        let base := match l !! mid with
                    | Some x => match cmp x with Gt => base | _ => mid end
                    | None => base
                    end in
        search_loop cmp l fuel (size - half)%nat base
  end.

(** [binary_search_by(..).ok().and_then(|i| l.get(i))]. *)
Definition binary_search {A} (cmp : A -> comparison) (l : list A) : option A :=
  match l !! search_loop cmp l (length l) (length l) 0 with
  | Some x => match cmp x with Eq => Some x | _ => None end
  | None => None
  end.

Definition c_prefix (text : list byte) : list byte :=
  (fix go (l : list byte) : list byte :=
     match l with [] => [] | b :: l => if byte_val b =? 0 then [] else b :: go l end) text.

(** ** Paths *)

(** One key: the type below and what it adds to the offset. *)
Definition lookup_step (d : Definition_) (ty : DataType) (key : Key) : Result SdError (DataType * Z) :=
  match ty with
  | TyStruct i =>
      match key with
      | KName name =>
          row ← ok_or InvalidDefinition (df_structs d !! i);
          p ← ok_or UnknownName
                (binary_search (fun p => bytes_cmp (pr_name p) (c_prefix name)) (sr_properties row));
          mret (pr_ty p, pr_offset p)
      | KIndex _ => Err WrongKey
      end
  | TyIndexedArray i =>
      match key with
      | KIndex index =>
          a ← ok_or InvalidDefinition (df_indexed_arrays d !! i);
          _ ← fail_if (index <? 0) IndexOutOfRange;
          _ ← fail_if (ia_count a <=? index) IndexOutOfRange;
          delta ← ok_or BufferBounds (checked_mul_usize index (ia_stride a));
          mret (ia_element a, delta)
      | KName _ => Err WrongKey
      end
  | TyEnumArray i =>
      match key with
      | KName name =>
          a ← ok_or InvalidDefinition (df_enum_arrays d !! i);
          en ← ok_or InvalidDefinition (df_enums d !! ea_enumeration a);
          entry ← ok_or UnknownName
                    (binary_search (fun e => bytes_cmp (en_name e) (c_prefix name)) (en_entries en));
          delta ← ok_or BufferBounds (checked_mul_usize (en_index entry) (ea_stride a));
          mret (ea_element a, delta)
      | KIndex _ => Err WrongKey
      end
  | _ => Err ExtraKey
  end.

Fixpoint lookup_from (d : Definition_) (result : Lookup_) (keys : list Key) : Result SdError Lookup_ :=
  match keys with
  | [] => Ok result
  | key :: keys =>
      '(ty, delta) ← lookup_step d (lo_ty result) key;
      let base := if decide (ty = TyBool) then checked_mul_usize (lo_offset result) 8 else Some (lo_offset result) in
      offset ← ok_or BufferBounds (match base with Some base => checked_add_usize base delta | None => None end);
      lookup_from d (mkLookup ty offset) keys
  end.

Definition lookup_path (d : Definition_) (keys : list Key) : Result SdError Lookup_ :=
  lookup_from d (mkLookup (df_root d) 0) keys.

Definition path_type (d : Definition_) (keys : list Key) : Result SdError DataType :=
  result ← lookup_path d keys; mret (lo_ty result).

Definition sd_lookup (d : Definition_) (keys : list Key) : Result SdError Lookup_ :=
  result ← lookup_path d keys;
  match lo_ty result with
  | TyStruct _ | TyIndexedArray _ | TyEnumArray _ => Err MissingKey
  | _ => Ok result
  end.

(** ** Reading *)

(** [&data[lookup.offset..offset + length]], if the definition and the buffer have it. *)
Definition field_bytes (d : Definition_) (data : list byte) (offset length : Z) : Result SdError (list byte) :=
  end_ ← ok_or BufferBounds (checked_add_usize offset length);
  _ ← fail_if (df_size d <? end_) BufferBounds;
  if end_ <=? zlen data then Ok (slice data offset end_) else Err BufferBounds.

Definition enum_index (d : Definition_) (data : list byte) (l : Lookup_) : Result SdError (option (Z * bool)) :=
  match lo_ty l with
  | TyEnum i =>
      bytes ← field_bytes d data (lo_offset l) 2;
      let index := le_val bytes in
      en ← ok_or InvalidDefinition (df_enums d !! i);
      mret (Some (index, existsb (fun entry => en_index entry =? index) (en_entries en)))
  | _ => Ok None
  end.

(** [iter().position(|b| *b == 0)]. *)
Fixpoint nul_position (bytes : list byte) : option nat :=
  match bytes with
  | [] => None
  | b :: bytes => if byte_val b =? 0 then Some O else S <$> nul_position bytes
  end.

(** The entry of an index, or else the entry of index 0. *)
Definition entry_of (en : SdEnum) (index : Z) : option EnumEntry :=
  match find (fun e => en_index e =? index) (en_entries en) with
  | Some e => Some e
  | None => find (fun e => en_index e =? 0) (en_entries en)
  end.

Definition sd_read (d : Definition_) (data : list byte) (l : Lookup_) : Result SdError SdValue :=
  match lo_ty l with
  | TyInt => bytes ← field_bytes d data (lo_offset l) 4; mret (VInt (to_signed 32 (le_val bytes)))
  | TyByte => bytes ← field_bytes d data (lo_offset l) 1; mret (VInt (le_val bytes))
  | TyShort => bytes ← field_bytes d data (lo_offset l) 2; mret (VInt (to_signed 16 (le_val bytes)))
  | TyFloat => bytes ← field_bytes d data (lo_offset l) 4; mret (VFloat (le_val bytes))
  | TyBool =>
      bytes ← field_bytes d data (lo_offset l / 8) 1;
      mret (VBool (negb (Z.land (le_val bytes) (Z.shiftl 1 (lo_offset l mod 8)) =? 0)))
  | TyString length =>
      bytes ← field_bytes d data (lo_offset l) length;
      end_ ← ok_or InvalidString (nul_position bytes);
      let text := take end_ bytes in
      mret (if utf8_valid text then VString text else VBytes text)
  | TyEnum i =>
      bytes ← field_bytes d data (lo_offset l) 2;
      en ← ok_or InvalidDefinition (df_enums d !! i);
      entry ← ok_or InvalidDefinition (entry_of en (le_val bytes));
      mret (VString (en_name entry))
  | TyStruct _ | TyIndexedArray _ | TyEnumArray _ => Err WrongValue
  end.

(** ** Writing *)

(** Buffer, dirty bits and whether something changed; [None] is a panic. *)
Definition write_byte (data dirty : list byte) (offset : Z) (value : byte)
    : option (list byte * list byte * bool) :=
  old ← data !! Z.to_nat offset;
  if bool_decide (old = value) then Some (data, dirty, false)
  else
    mark ← dirty !! Z.to_nat (offset / 8);
    Some (<[Z.to_nat offset := value]> data,
          <[Z.to_nat (offset / 8) := byte_of (Z.lor (byte_val mark) (Z.shiftl 1 (offset mod 8)))]> dirty, true).

Fixpoint write_all (data dirty : list byte) (offset : Z) (bytes : list byte)
    : option (list byte * list byte * bool) :=
  match bytes with
  | [] => Some (data, dirty, false)
  | b :: bytes =>
      '(data, dirty, changed) ← write_byte data dirty offset b;
      '(data, dirty, rest) ← write_all data dirty (offset + 1) bytes;
      Some (data, dirty, changed || rest)
  end.

(** The bytes of a value and the offset they go to; for a string also the length of the field. *)
Definition value_bytes (d : Definition_) (data : list byte) (l : Lookup_) (value : SdValue)
    : Result SdError (list byte * Z * Z) :=
  let offset := lo_offset l in
  match lo_ty l, value with
  | TyInt, VInt v => Ok (le_bytes 4 (wrap32 v), offset, 4)
  | TyByte, VInt v =>
      _ ← fail_if (negb ((0 <=? v) && (v <=? u8_max))) ByteRange;
      mret ([byte_of v], offset, 1)
  | TyShort, VInt v => Ok (le_bytes 2 (wrap16 v), offset, 2)
  | TyFloat, VFloat v => Ok (le_bytes 4 v, offset, 4)
  | TyBool, VBool v =>
      bytes ← field_bytes d data (offset / 8) 1;
      let mask := Z.shiftl 1 (offset mod 8) in
      mret ([byte_of (if v then Z.lor (le_val bytes) mask else Z.ldiff (le_val bytes) mask)], offset / 8, 1)
  | TyEnum i, VString v =>
      en ← ok_or InvalidDefinition (df_enums d !! i);
      entry ← ok_or UnknownName
                (binary_search (fun e => bytes_cmp (en_name e) (c_prefix v)) (en_entries en));
      mret (le_bytes 2 (en_index entry), offset, 2)
  | TyString length, (VString v | VBytes v) =>
      let v := c_prefix v in
      _ ← fail_if (length <? zlen v + 1) StringLength;
      mret (v ++ [byte_of 0], offset, length)
  | _, _ => Err WrongValue
  end.

Definition sd_write (d : Definition_) (data dirty : list byte) (l : Lookup_) (value : SdValue)
    : option (Result SdError (list byte * list byte * bool)) :=
  match value_bytes d data l value with
  | Err e => Some (Err e)
  | Ok (bytes, offset, length) =>
      match field_bytes d data offset length with
      | Err e => Some (Err e)
      | Ok _ =>
          if zlen dirty <? div_ceil (df_size d) 8 then Some (Err BufferBounds)
          else Ok <$> write_all data dirty offset bytes
      end
  end.

(** ** Validation *)

Inductive LayoutFault : Type := LayoutInvalid | LayoutPanic | LayoutNoFuel.

(** Errors of the arithmetic are [InvalidDefinition]. *)
Definition layout_some {A} (o : option A) : Result LayoutFault A := ok_or LayoutInvalid o.
(** Indexing, which panics out of range. *)
Definition layout_index {A} (l : list A) (i : nat) : Result LayoutFault A := ok_or LayoutPanic (l !! i).

(** The bits of a number of bytes. *)
Definition layout_bits (bytes : Z) : Result LayoutFault Z := layout_some (checked_mul_usize bytes 8).

Definition node_count (d : Definition_) : nat :=
  (length (df_structs d) + length (df_indexed_arrays d) + length (df_enum_arrays d))%nat.

Definition node (d : Definition_) (ty : DataType) : option nat :=
  match ty with
  | TyStruct i => Some i
  | TyIndexedArray i => Some (length (df_structs d) + i)%nat
  | TyEnumArray i => Some (length (df_structs d) + length (df_indexed_arrays d) + i)%nat
  | _ => None
  end.

(** [states] and [extents] of [LayoutValidation]. *)
Record Layout : Type := mkLayout { ly_states : list Z; ly_extents : list Z }.

Definition layout_new (d : Definition_) : Layout :=
  mkLayout (replicate (node_count d) 0) (replicate (node_count d) 0).

Definition extent (d : Definition_) (extents : list Z) (ty : DataType) : Result LayoutFault Z :=
  match ty with
  | TyBool => Ok 1
  | TyByte => Ok 8
  | TyShort | TyEnum _ => Ok 16
  | TyInt | TyFloat => Ok 32
  | TyString length => if length =? 0 then Err LayoutInvalid else layout_bits length
  | _ => layout_some (match node d ty with Some i => extents !! i | None => None end)
  end.

Definition array_extent (d : Definition_) (extents : list Z) (count : Z) (element : DataType) (stride : Z)
    : Result LayoutFault Z :=
  stride ← if decide (element = TyBool) then Ok stride else layout_bits stride;
  element ← extent d extents element;
  _ ← fail_if (stride <? element) LayoutInvalid;
  bits ← layout_some (checked_mul_usize count stride);
  layout_bits (div_ceil bits 8).

(** The loop over the properties of a struct. *)
Fixpoint properties_extent (d : Definition_) (extents : list Z) (acc : Z) (properties : list Property)
    : Result LayoutFault Z :=
  match properties with
  | [] => Ok acc
  | p :: properties =>
      start ← if decide (pr_ty p = TyBool) then Ok (pr_offset p) else layout_bits (pr_offset p);
      size ← extent d extents (pr_ty p);
      end_ ← layout_some (checked_add_usize start size);
      properties_extent d extents (Z.max acc end_) properties
  end.

Definition finish (d : Definition_) (extents : list Z) (ty : DataType) : Result LayoutFault Z :=
  match ty with
  | TyStruct i =>
      row ← layout_index (df_structs d) i;
      extent ← properties_extent d extents 0 (sr_properties row);
      extent ← layout_bits (div_ceil extent 8);
      size ← if sr_size row =? 0 then Ok extent else layout_bits (sr_size row);
      _ ← fail_if ((size <? extent) || (size <? sr_bit_offset row)) LayoutInvalid;
      mret size
  | TyIndexedArray i =>
      row ← layout_index (df_indexed_arrays d) i;
      array_extent d extents (ia_count row) (ia_element row) (ia_stride row)
  | TyEnumArray i =>
      row ← layout_index (df_enum_arrays d) i;
      en ← layout_index (df_enums d) (ea_enumeration row);
      array_extent d extents (en_reserved en) (ea_element row) (ea_stride row)
  | _ => extent d extents ty
  end.

(** The types a node is made of. *)
Definition children (d : Definition_) (ty : DataType) : Result LayoutFault (list DataType) :=
  match ty with
  | TyStruct i => row ← layout_index (df_structs d) i; mret (map pr_ty (sr_properties row))
  | TyIndexedArray i => row ← layout_index (df_indexed_arrays d) i; mret [ia_element row]
  | TyEnumArray i => row ← layout_index (df_enum_arrays d) i; mret [ea_element row]
  | _ => Err LayoutPanic
  end.

(** One turn of the [while] loop on a popped entry: the layout and what is pushed. *)
Definition layout_visit (d : Definition_) (s : Layout) (ty : DataType) (finishing : bool)
    : Result LayoutFault (Layout * list (DataType * bool)) :=
  match node d ty with
  | None => _ ← extent d (ly_extents s) ty; mret (s, [])
  | Some n =>
      if finishing then
        size ← finish d (ly_extents s) ty;
        mret (mkLayout (<[n := 2]> (ly_states s)) (<[n := size]> (ly_extents s)), [])
      else
        state ← layout_index (ly_states s) n;
        if state =? 2 then mret (s, [])
        else if state =? 1 then Err LayoutInvalid
        else
          below ← children d ty;
          mret (mkLayout (<[n := 1]> (ly_states s)) (ly_extents s),
                reverse (map (fun ty => (ty, false)) below) ++ [(ty, true)])
  end.

(** The [while] loop; the top of the stack is the head of the list. *)
Fixpoint layout_loop (d : Definition_) (fuel : nat) (s : Layout) (stack : list (DataType * bool))
    : Result LayoutFault Layout :=
  match stack with
  | [] => Ok s
  | (ty, finishing) :: stack =>
      match fuel with
      | O => Err LayoutNoFuel
      | S fuel =>
          '(s, pushed) ← layout_visit d s ty finishing;
          layout_loop d fuel s (pushed ++ stack)
      end
  end.

(** More turns than the loop can take: every node is entered once, and pushes itself and its
    children. *)
Definition layout_fuel (d : Definition_) : nat :=
  (1 + node_count d + sum_list_with (fun row => length (sr_properties row)) (df_structs d)
     + length (df_indexed_arrays d) + length (df_enum_arrays d))%nat.

Definition root_of (d : Definition_) (i : nat) : DataType :=
  let structs := length (df_structs d) in
  let arrays := length (df_indexed_arrays d) in
  if Nat.ltb i structs then TyStruct i
  else if Nat.ltb i (structs + arrays) then TyIndexedArray (i - structs)
  else TyEnumArray (i - structs - arrays).

Fixpoint layout_roots (d : Definition_) (s : Layout) (roots : list nat) : Result LayoutFault Layout :=
  match roots with
  | [] => Ok s
  | i :: roots =>
      s ← layout_loop d (layout_fuel d) s [(root_of d i, false)];
      layout_roots d s roots
  end.

Definition layout_validate (d : Definition_) : Result LayoutFault Layout :=
  s ← layout_roots d (layout_new d) (seq 0 (node_count d));
  size ← extent d (ly_extents s) (df_root d);
  room ← layout_bits (df_size d);
  _ ← fail_if (room <? size) LayoutInvalid;
  mret s.

(** The type refers to a row that is there. *)
Definition valid_type (d : Definition_) (ty : DataType) : bool :=
  match ty with
  | TyEnum i => Nat.ltb i (length (df_enums d))
  | TyStruct i => Nat.ltb i (length (df_structs d))
  | TyIndexedArray i => Nat.ltb i (length (df_indexed_arrays d))
  | TyEnumArray i => Nat.ltb i (length (df_enum_arrays d))
  | _ => true
  end.

(** No two neighbours out of order: [windows(2)]. *)
Fixpoint ascending (names : list (list byte)) : bool :=
  match names with
  | a :: (b :: _) as rest => negb (bytes_leb b a) && ascending rest
  | _ => true
  end.

Definition sd_validate (d : Definition_) : Result LayoutFault () :=
  _ ← fail_if (negb (valid_type d (df_root d))) LayoutInvalid;
  _ ← fail_if (existsb (fun en =>
         existsb (fun e => en_reserved en <=? en_index e) (en_entries en)
         || negb (ascending (map en_name (en_entries en)))) (df_enums d)) LayoutInvalid;
  _ ← fail_if (existsb (fun row =>
         existsb (fun p => negb (valid_type d (pr_ty p))) (sr_properties row)
         || negb (ascending (map pr_name (sr_properties row)))) (df_structs d)) LayoutInvalid;
  _ ← fail_if (existsb (fun a => negb (valid_type d (ia_element a))) (df_indexed_arrays d)
               || existsb (fun a => negb (valid_type d (ea_element a))
                                    || negb (Nat.ltb (ea_enumeration a) (length (df_enums d))))
                    (df_enum_arrays d)) LayoutInvalid;
  _ ← layout_validate d;
  mret ().
