(* ===== verification/StructuredDataLayout.v ===== *)
(** * The validation of structured data

    The invariant of the loop that lays out the nodes of a definition: it ends on every input,
    and leaves for every node the extent that [finish] computes from the nodes below. *)

From S2P Require Export StructuredData.

#[local] Open Scope Z_scope.

(** ** Definitions as the code has them: indices and sizes are not negative *)

Definition is_usize (z : Z) : Prop := 0 <= z <= usize_max.

Definition typed_type (ty : DataType) : Prop := match ty with TyString length => is_usize length | _ => True end.

Record typed (d : Definition_) : Prop := {
  ty_size : is_usize (df_size d);
  ty_root : typed_type (df_root d);
  ty_enums : Forall (fun en => is_usize (en_reserved en) /\ Forall (fun e => is_u16 (en_index e)) (en_entries en)) (df_enums d);
  ty_structs : Forall (fun row => is_usize (sr_size row) /\ is_usize (sr_bit_offset row) /\
                 Forall (fun p => is_usize (pr_offset p) /\ typed_type (pr_ty p)) (sr_properties row)) (df_structs d);
  ty_indexed : Forall (fun a => is_usize (ia_count a) /\ is_usize (ia_stride a) /\ typed_type (ia_element a)) (df_indexed_arrays d);
  ty_enum_arrays : Forall (fun a => is_usize (ea_stride a) /\ typed_type (ea_element a)) (df_enum_arrays d);
}.

(** What the checks before the layout establish. *)
Record checked (d : Definition_) : Prop := {
  ck_root : valid_type d (df_root d) = true;
  ck_entries en e : en ∈ df_enums d -> e ∈ en_entries en -> en_index e < en_reserved en;
  ck_names en : en ∈ df_enums d -> ascending (map en_name (en_entries en)) = true;
  ck_properties row p : row ∈ df_structs d -> p ∈ sr_properties row -> valid_type d (pr_ty p) = true;
  ck_property_names row : row ∈ df_structs d -> ascending (map pr_name (sr_properties row)) = true;
  ck_indexed a : a ∈ df_indexed_arrays d -> valid_type d (ia_element a) = true;
  ck_enum_arrays a : a ∈ df_enum_arrays d ->
    valid_type d (ea_element a) = true /\ (ea_enumeration a < length (df_enums d))%nat;
}.

Lemma existsb_false {A} (f : A -> bool) l : existsb f l = false <-> forall x, x ∈ l -> f x = false.
Proof.
  induction l as [|x l IH]; cbn; [split; [intros _ y []%not_elem_of_nil|done]|].
  rewrite orb_false_iff, IH. split.
  - intros [Hx Hl] y [->|Hy]%elem_of_cons; auto.
  - intros H. split; [apply H; left|intros y Hy; apply H; by right].
Qed.

Lemma sd_validate_cases d :
  sd_validate d = Err LayoutInvalid \/ (checked d /\ sd_validate d = (_ ← layout_validate d; mret ())).
Proof.
  unfold sd_validate, fail_if.
  do 4 match goal with |- context [if ?b then Err _ else Ok ()] =>
    let E := fresh "E" in destruct b eqn:E; [by left|]; cbn [mbind result_bind] end.
  right. split; [|done]. apply negb_false_iff in E. rewrite existsb_false in E0. rewrite existsb_false in E1.
  apply orb_false_iff in E2 as [E2 E4]. rewrite existsb_false in E2. rewrite existsb_false in E4.
  split.
  - done.
  - intros en e Hen He. specialize (E0 en Hen). apply orb_false_iff in E0 as [E0 _]. rewrite existsb_false in E0.
    specialize (E0 e He). lia.
  - intros en Hen. specialize (E0 en Hen). apply orb_false_iff in E0 as [_ E0]. by apply negb_false_iff.
  - intros row p Hrow Hp. specialize (E1 row Hrow). apply orb_false_iff in E1 as [E1 _]. rewrite existsb_false in E1.
    specialize (E1 p Hp). by apply negb_false_iff.
  - intros row Hrow. specialize (E1 row Hrow). apply orb_false_iff in E1 as [_ E1]. by apply negb_false_iff.
  - intros a' Ha. specialize (E2 a' Ha). by apply negb_false_iff.
  - intros a' Ha. specialize (E4 a' Ha). apply orb_false_iff in E4 as [E4 E5].
    apply negb_false_iff in E4. apply negb_false_iff, Nat.ltb_lt in E5. done.
Qed.

Lemma sd_validate_checked d : sd_validate d = Ok () -> checked d /\ exists s, layout_validate d = Ok s.
Proof.
  intros H. destruct (sd_validate_cases d) as [E|[Hck E]]; rewrite H in E; [discriminate|].
  split; [done|]. destruct (layout_validate d); [eauto|discriminate].
Qed.

(** Where an element behind [x] lies in [p ++ x :: rest]. *)
Lemma split_above {A} (p : list A) x rest l1 y l2 :
  p ++ x :: rest = l1 ++ y :: l2 ->
  (exists k, p = l1 ++ y :: k) \/ (p = l1 /\ x = y /\ rest = l2) \/
  (exists l1', l1 = p ++ x :: l1' /\ rest = l1' ++ y :: l2).
Proof.
  revert l1. induction p as [|a p IH]; intros [|b l1]; cbn; intros [= -> H].
  - subst. right. left. auto.
  - subst. right. right. eauto.
  - left. eauto.
  - destruct (IH _ H) as [[k ->]|[(-> & -> & ->)|(l1' & -> & ->)]]; [left; eauto|right; left; auto|].
    right. right. eauto.
Qed.

(** ** The layout loop *)

Section Layout.
Context (d : Definition_) (Hck : checked d).

(** The node types of a stack entry: what can be on the stack. *)
Lemma node_some ty n : node d ty = Some n -> valid_type d ty = true -> (n < node_count d)%nat.
Proof. unfold node_count. destruct ty; cbn; intros [= <-] H%Nat.ltb_lt; lia. Qed.

Lemma node_inj ty1 ty2 n :
  valid_type d ty1 = true -> valid_type d ty2 = true -> node d ty1 = Some n -> node d ty2 = Some n -> ty1 = ty2.
Proof.
  destruct ty1, ty2; cbn; try discriminate; intros H1%Nat.ltb_lt H2%Nat.ltb_lt [= <-] [= E]; f_equal; lia.
Qed.

Lemma root_of_node n : (n < node_count d)%nat -> node d (root_of d n) = Some n /\ valid_type d (root_of d n) = true.
Proof.
  unfold node_count, root_of. intros Hn. destruct (Nat.ltb_spec n (length (df_structs d))); [|destruct (Nat.ltb_spec n
    (length (df_structs d) + length (df_indexed_arrays d)))]; cbn; (split; [f_equal; lia|apply Nat.ltb_lt; lia]).
Qed.

Lemma root_of_type ty n : node d ty = Some n -> valid_type d ty = true -> root_of d n = ty.
Proof.
  intros Hn Hv. destruct (root_of_node n) as [H1 H2]; [by eapply node_some|]. by eapply node_inj.
Qed.

Definition below (ty : DataType) : list DataType := match children d ty with Ok l => l | Err _ => [] end.

Lemma children_ok ty n : node d ty = Some n -> valid_type d ty = true -> children d ty = Ok (below ty).
Proof.
  unfold below. destruct ty; cbn; intros [= <-] Hv%Nat.ltb_lt;
    (destruct (lookup_lt_is_Some_2 _ _ Hv) as [row E]); unfold layout_index; rewrite E; done.
Qed.

Lemma children_valid ty c : c ∈ below ty -> valid_type d c = true.
Proof.
  unfold below. destruct ty; cbn; try (by intros ?%not_elem_of_nil);
    unfold layout_index; destruct (_ !! _) as [row|] eqn:E; cbn; try (by intros ?%not_elem_of_nil);
    apply list_elem_of_lookup_2 in E.
  - intros (p & -> & Hp)%list_elem_of_fmap. by eapply ck_properties.
  - intros ->%list_elem_of_singleton. by apply ck_indexed.
  - intros ->%list_elem_of_singleton. by apply ck_enum_arrays.
Qed.

(** Finished nodes: their extents are what [finish] computes, from finished nodes. *)
Definition done_at (states : list Z) (ty : DataType) : Prop :=
  forall n, node d ty = Some n -> states !! n = Some 2.

Record finished (s : Layout) (ty : DataType) (n : nat) : Prop := {
  fi_below c : c ∈ below ty -> done_at (ly_states s) c;
  fi_extent : exists size, ly_extents s !! n = Some size /\ finish d (ly_extents s) ty = Ok size;
}.

Definition open_nodes (stack : list (DataType * bool)) : list nat :=
  omap (fun e : DataType * bool => if e.2 then node d e.1 else None) stack.

Record layout_ok (s : Layout) (stack : list (DataType * bool)) : Prop := {
  la_states : length (ly_states s) = node_count d;
  la_extents : length (ly_extents s) = node_count d;
  la_range n st : ly_states s !! n = Some st -> st = 0 \/ st = 1 \/ st = 2;
  la_done ty n : valid_type d ty = true -> node d ty = Some n -> ly_states s !! n = Some 2 -> finished s ty n;
  la_valid e : e ∈ stack -> valid_type d e.1 = true;
  la_nodes ty : (ty, true) ∈ stack -> exists n, node d ty = Some n;
  la_open n : ly_states s !! n = Some 1 <-> n ∈ open_nodes stack;
  la_nodup : NoDup (open_nodes stack);
  la_above l1 ty l2 c : stack = l1 ++ (ty, true) :: l2 -> c ∈ below ty ->
    done_at (ly_states s) c \/ exists b, (c, b) ∈ l1;
}.

(** [finish] looks only at the extents of the nodes below. *)
Lemma extent_same E1 E2 c :
  (forall n, node d c = Some n -> E1 !! n = E2 !! n) -> extent d E1 c = extent d E2 c.
Proof. destruct c; cbn; intros H; try done; by rewrite (H _ eq_refl). Qed.

Lemma finish_same E1 E2 ty n :
  node d ty = Some n -> (forall c m, c ∈ below ty -> node d c = Some m -> E1 !! m = E2 !! m) ->
  finish d E1 ty = finish d E2 ty.
Proof.
  unfold below. destruct ty; cbn; try discriminate; intros _ H; unfold layout_index in *;
    destruct (_ !! _) as [row|] eqn:E in H |- *; cbn in *; try done.
  - f_equal. generalize 0. induction (sr_properties row) as [|p ps IH]; intros acc; cbn; [done|].
    rewrite (extent_same E1 E2 (pr_ty p)) by (intros m; apply H; left).
    destruct (if decide _ then _ else _); cbn; [|done]. destruct (extent _ _ _); cbn; [|done].
    destruct (layout_some _); cbn; [|done]. apply IH. intros c m Hc. apply H. by right.
  - unfold array_extent. rewrite (extent_same E1 E2 (ia_element row)) by (intros m; apply H; left). done.
  - destruct (df_enums d !! ea_enumeration row); cbn; [|done].
    unfold array_extent. rewrite (extent_same E1 E2 (ea_element row)) by (intros m; apply H; left). done.
Qed.

Lemma done_insert states k x c :
  states !! k <> Some 2 -> done_at states c -> done_at (<[k := x]> states) c.
Proof.
  intros Hk Hc n Hn. specialize (Hc n Hn). rewrite list_lookup_insert_ne; [done|]. by intros ->.
Qed.

Lemma finished_insert s ty n k x E' :
  ly_states s !! k <> Some 2 -> n <> k -> node d ty = Some n ->
  (forall m, m <> k -> E' !! m = ly_extents s !! m) ->
  finished s ty n -> finished (mkLayout (<[k := x]> (ly_states s)) E') ty n.
Proof.
  intros Hk Hne Hn HE [Hb (size & Hs & Hf)]. split; cbn.
  - intros c Hc. by apply done_insert, Hb.
  - exists size. split; [by rewrite HE|]. rewrite <- Hf. eapply finish_same; [done|].
    intros c m Hc Hm. apply HE. intros ->. by specialize (Hb c Hc k Hm).
Qed.

(** A popped entry that is already done. *)
Lemma pop_ok s ty stack : layout_ok s ((ty, false) :: stack) -> done_at (ly_states s) ty -> layout_ok s stack.
Proof.
  intros [] Hdone. split; auto.
  - intros e He. apply la_valid0. by right.
  - intros t Ht. apply la_nodes0. by right.
  - intros l1 t l2 c -> Hc. destruct (la_above0 ((ty, false) :: l1) t l2 c eq_refl Hc) as [?|[b [Heq|?]%elem_of_cons]].
    + by left.
    + left. by injection Heq as -> ->.
    + eauto.
Qed.

Lemma open_nodes_app l1 l2 : open_nodes (l1 ++ l2) = open_nodes l1 ++ open_nodes l2.
Proof. unfold open_nodes. apply omap_app. Qed.

Lemma open_nodes_false l : open_nodes (reverse (map (fun ty => (ty, false)) l)) = [].
Proof.
  induction l as [|ty l IH]; [done|]. cbn [map]. rewrite reverse_cons, open_nodes_app, IH. done.
Qed.

Lemma enter_ok s ty stack n :
  node d ty = Some n -> ly_states s !! n = Some 0 -> layout_ok s ((ty, false) :: stack) ->
  layout_ok (mkLayout (<[n := 1]> (ly_states s)) (ly_extents s))
    ((reverse (map (fun ty => (ty, false)) (below ty)) ++ [(ty, true)]) ++ stack).
Proof.
  intros Hn Hst [Hls Hle Hrange Hdone Hvalid Hnodes Hopen Hnodup Habove].
  assert (Hty : valid_type d ty = true) by (apply (Hvalid (ty, false)); left).
  assert (Hlt : (n < length (ly_states s))%nat) by (by eapply lookup_lt_Some).
  assert (Hopenset : open_nodes ((reverse (map (fun ty => (ty, false)) (below ty)) ++ [(ty, true)]) ++ stack) =
                     n :: open_nodes stack).
  { rewrite !open_nodes_app, open_nodes_false. unfold open_nodes. cbn. by rewrite Hn. }
  assert (Hfresh : n ∉ open_nodes stack).
  { intros Hin. apply Hopen in Hin. congruence. }
  split; cbn [ly_states ly_extents].
  - by rewrite length_insert.
  - done.
  - intros m st. destruct (decide (m = n)) as [->|Hne].
    + rewrite list_lookup_insert_eq by done. intros [= <-]. auto.
    + rewrite list_lookup_insert_ne by done. apply Hrange.
  - intros t m Ht Hm Hst2. destruct (decide (m = n)) as [->|Hne].
    + rewrite list_lookup_insert_eq in Hst2 by done. discriminate.
    + rewrite list_lookup_insert_ne in Hst2 by done. apply finished_insert; auto; congruence.
  - intros e [[He|He%list_elem_of_singleton]%elem_of_app|He]%elem_of_app.
    + apply elem_of_reverse, list_elem_of_fmap in He as (c & -> & Hc). by eapply children_valid.
    + by subst.
    + apply Hvalid. by right.
  - intros t [[He|He%list_elem_of_singleton]%elem_of_app|He]%elem_of_app.
    + apply elem_of_reverse, list_elem_of_fmap in He as (c & [=] & _).
    + injection He as ->. eauto.
    + apply Hnodes. by right.
  - intros m. rewrite Hopenset, elem_of_cons. destruct (decide (m = n)) as [->|Hne].
    + rewrite list_lookup_insert_eq by done. naive_solver.
    + rewrite list_lookup_insert_ne by done. rewrite Hopen. unfold open_nodes. cbn. naive_solver.
  - rewrite Hopenset. by constructor.
  - intros l1 t l2 c Heq Hc. rewrite <- app_assoc in Heq.
    set (pushed := reverse (map (fun ty => (ty, false)) (below ty))) in *.
    assert (Hpushed : forall x, x ∈ below ty -> (x, false) ∈ pushed).
    { intros x Hx. apply elem_of_reverse, list_elem_of_fmap. eauto. }
    destruct (split_above _ _ _ _ _ _ Heq) as [(k & Hk)|[(<- & [= <-] & _)|(l1' & -> & Hstack)]].
    + assert ((t, true) ∈ pushed) as Hin by (rewrite Hk; apply elem_of_app; right; left).
      unfold pushed in Hin. apply elem_of_reverse, list_elem_of_fmap in Hin as (x & [=] & _).
    + right. exists false. by apply Hpushed.
    + destruct (Habove ((ty, false) :: l1') t l2 c) as [Hc'|[b [Heq'|Hin]%elem_of_cons]]; [by rewrite Hstack|done|..].
      * left. apply done_insert; [congruence|done].
      * injection Heq' as -> ->. right. exists true. apply elem_of_app. right. left.
      * right. exists b. apply elem_of_app. right. by right.
Qed.

Lemma finish_ok s ty stack n size :
  node d ty = Some n -> layout_ok s ((ty, true) :: stack) -> finish d (ly_extents s) ty = Ok size ->
  layout_ok (mkLayout (<[n := 2]> (ly_states s)) (<[n := size]> (ly_extents s))) stack.
Proof.
  intros Hn [Hls Hle Hrange Hdone Hvalid Hnodes Hopen Hnodup Habove] Hsize.
  assert (Hty : valid_type d ty = true) by (apply (Hvalid (ty, true)); left).
  assert (Hlt : (n < node_count d)%nat) by (by eapply node_some).
  assert (Hcons : open_nodes ((ty, true) :: stack) = n :: open_nodes stack) by (unfold open_nodes; cbn; by rewrite Hn).
  rewrite Hcons in Hnodup, Hopen. apply list.NoDup_cons in Hnodup as [Hfresh Hnodup].
  assert (Hst : ly_states s !! n = Some 1) by (apply Hopen; left).
  assert (HE : forall m, m <> n -> <[n := size]> (ly_extents s) !! m = ly_extents s !! m).
  { intros m Hm. by rewrite list_lookup_insert_ne. }
  split; cbn [ly_states ly_extents].
  - by rewrite length_insert.
  - by rewrite length_insert.
  - intros m st. destruct (decide (m = n)) as [->|Hne].
    + rewrite list_lookup_insert_eq by lia. intros [= <-]. auto.
    + rewrite list_lookup_insert_ne by done. apply Hrange.
  - intros t m Ht Hm Hst2. destruct (decide (m = n)) as [->|Hne].
    + assert (t = ty) as -> by (by eapply node_inj).
      assert (Hchildren : forall c, c ∈ below ty -> done_at (ly_states s) c).
      { intros c Hc. destruct (Habove [] ty stack c eq_refl Hc) as [?|[b []%not_elem_of_nil]]. done. }
      split; cbn.
      * intros c Hc. apply done_insert; [congruence|auto].
      * exists size. rewrite list_lookup_insert_eq by lia. split; [done|]. rewrite <- Hsize.
        eapply finish_same; [done|]. intros c k Hc Hk. apply HE. intros ->.
        specialize (Hchildren c Hc n Hk). congruence.
    + rewrite list_lookup_insert_ne in Hst2 by done. apply finished_insert; auto; congruence.
  - intros e He. apply Hvalid. by right.
  - intros t Ht. apply Hnodes. by right.
  - intros m. destruct (decide (m = n)) as [->|Hne].
    + rewrite list_lookup_insert_eq by lia. naive_solver.
    + rewrite list_lookup_insert_ne by done. rewrite Hopen, elem_of_cons. naive_solver.
  - done.
  - intros l1 t l2 c -> Hc. destruct (Habove ((ty, true) :: l1) t l2 c eq_refl Hc) as [Hc'|[b [Heq|Hin]%elem_of_cons]].
    + left. apply done_insert; [congruence|done].
    + injection Heq as -> ->. left. intros k Hk. assert (k = n) as -> by congruence. apply list_lookup_insert_eq. lia.
    + eauto.
Qed.

(** ** The loop ends *)

(** The turns the nodes not yet entered can still cause. *)
Definition weight (n : nat) : nat := S (length (below (root_of d n))).

Fixpoint potential (n : nat) (states : list Z) : nat :=
  match states with
  | [] => 0
  | st :: states => ((if (st =? 0)%Z then weight n else 0) + potential (S n) states)%nat
  end.

Lemma potential_insert i states n st x :
  states !! n = Some st ->
  (potential i (<[n := x]> states) + (if (st =? 0)%Z then weight (i + n) else 0) =
   potential i states + (if (x =? 0)%Z then weight (i + n) else 0))%nat.
Proof.
  revert i n. induction states as [|st' states IH]; intros i [|n]; cbn [lookup list_lookup insert list_insert potential]; try discriminate.
  - intros [= ->]. rewrite Nat.add_0_r. lia.
  - intros H. specialize (IH (S i) n H). rewrite Nat.add_succ_r. change (S i + n)%nat with (S (i + n)) in IH. rewrite <- !Nat.add_assoc. f_equal. exact IH.
Qed.

Lemma potential_all i l : potential i (replicate l 0) = sum_list_with weight (seq i l).
Proof. revert i. induction l as [|l IH]; intros i; cbn; [done|]. by rewrite IH. Qed.

Lemma potential_le i states : (potential i states <= sum_list_with weight (seq i (length states)))%nat.
Proof.
  revert i. induction states as [|st states IH]; intros i; cbn [potential length seq sum_list_with]; [lia|]. specialize (IH (S i)).
  destruct (st =? 0)%Z; lia.
Qed.

Lemma sum_weights_seq (f : nat -> nat) k l :
  sum_list_with f (seq k l) = sum_list_with (fun i => f (k + i)%nat) (seq 0 l).
Proof.
  revert k. induction l as [|l IH]; intros k; [done|]. cbn [seq sum_list_with]. rewrite Nat.add_0_r. f_equal.
  rewrite (IH (S k)), <- seq_shift. clear. induction (seq 0 l) as [|x xs IH]; cbn [map sum_list_with]; [done|].
  rewrite IH. f_equal. f_equal. lia.
Qed.

Lemma sum_by_index {A} (f : A -> nat) (g : nat -> nat) (l : list A) :
  (forall i x, l !! i = Some x -> g i = f x) -> sum_list_with g (seq 0 (length l)) = sum_list_with f l.
Proof.
  revert g. induction l as [|x l IH]; intros g H; [done|]. cbn [length seq sum_list_with].
  rewrite (H 0%nat x) by done. f_equal. rewrite sum_weights_seq. apply IH. intros i y Hy. apply (H (S i)). done.
Qed.

Lemma weight_total :
  sum_list_with weight (seq 0 (node_count d)) = (layout_fuel d - 1)%nat.
Proof.
  unfold layout_fuel, node_count. rewrite !seq_app, !sum_list_with_app. cbn [plus].
  rewrite (sum_weights_seq weight (length (df_structs d)) _), (sum_weights_seq weight (length (df_structs d) + _) _).
  rewrite (sum_by_index (fun row => S (length (sr_properties row))) weight (df_structs d)).
  2:{ intros i row Hi. unfold weight, root_of. pose proof (lookup_lt_Some _ _ _ Hi).
      rewrite (proj2 (Nat.ltb_lt _ _)) by done. unfold below. cbn. unfold layout_index. rewrite Hi. cbn.
      by rewrite length_map. }
  rewrite (sum_by_index (fun _ => 2%nat) (fun i => weight (length (df_structs d) + i)) (df_indexed_arrays d)).
  2:{ intros i row Hi. unfold weight, root_of. pose proof (lookup_lt_Some _ _ _ Hi).
      rewrite (proj2 (Nat.ltb_ge _ _)) by lia. rewrite (proj2 (Nat.ltb_lt _ _)) by lia. unfold below. cbn.
      replace (_ + i - _)%nat with i by lia. unfold layout_index. by rewrite Hi. }
  rewrite (sum_by_index (fun _ => 2%nat) _ (df_enum_arrays d)).
  2:{ intros i row Hi. unfold weight, root_of. pose proof (lookup_lt_Some _ _ _ Hi).
      rewrite (proj2 (Nat.ltb_ge _ _)) by lia. rewrite (proj2 (Nat.ltb_ge _ _)) by lia. unfold below. cbn.
      replace (_ + i - _ - _)%nat with i by lia. unfold layout_index. by rewrite Hi. }
  assert (forall {A} (l : list A), sum_list_with (fun _ => 2%nat) l = (2 * length l)%nat) as H2.
  { intros A l. induction l as [|x l IH]; cbn; [done|]. rewrite IH. lia. }
  rewrite !H2.
  assert (sum_list_with (fun row => S (length (sr_properties row))) (df_structs d) =
          (length (df_structs d) + sum_list_with (fun row => length (sr_properties row)) (df_structs d))%nat) as ->.
  { induction (df_structs d) as [|x l IH]; cbn; [done|]. rewrite IH. lia. }
  lia.
Qed.

(** Errors of the extents are [LayoutInvalid]. *)
Lemma layout_some_err {A} (o : option A) f : layout_some o = Err f -> f = LayoutInvalid.
Proof. destruct o; cbn; [discriminate|by intros [= <-]]. Qed.

Ltac layout_err :=
  repeat match goal with
  | H : mbind _ ?m = Err _ |- _ =>
      let E := fresh "E" in destruct m eqn:E; cbn [mbind result_bind] in H
  | H : Ok _ = Err _ |- _ => discriminate H
  | H : mret _ = Err _ |- _ => discriminate H
  | H : Err ?a = Err ?b |- _ => injection H as H; subst
  end.

Lemma extent_err E ty f : extent d E ty = Err f -> f = LayoutInvalid.
Proof.
  destruct ty; cbn; try discriminate; try apply layout_some_err.
  destruct (_ =? _); [by intros [= <-]|]. apply layout_some_err.
Qed.

Lemma fail_if_err {E} b (e f : E) : fail_if b e = Err f -> f = e.
Proof. destruct b; cbn; [by intros [= <-]|discriminate]. Qed.

Lemma bits_or_err (b : Prop) `{!Decision b} n f : (if decide b then Ok n else layout_bits n) = Err f -> f = LayoutInvalid.
Proof. intros H. destruct (decide b); [discriminate|by apply layout_some_err in H]. Qed.

Lemma array_extent_err E count element stride f :
  array_extent d E count element stride = Err f -> f = LayoutInvalid.
Proof.
  unfold array_extent. intros H. layout_err; eauto using bits_or_err, extent_err, fail_if_err, layout_some_err.
Qed.

Lemma properties_extent_err E acc ps f : properties_extent d E acc ps = Err f -> f = LayoutInvalid.
Proof.
  revert acc. induction ps as [|p ps IH]; intros acc H; cbn in H; [discriminate|].
  layout_err; eauto using bits_or_err, extent_err, layout_some_err.
Qed.

Lemma index_in {A} (l : list A) i : (i < length l)%nat -> exists x, layout_index l i = Ok x /\ l !! i = Some x.
Proof. intros [x Hx]%lookup_lt_is_Some_2. unfold layout_index. rewrite Hx. eauto. Qed.

Lemma finish_err E ty n f :
  node d ty = Some n -> valid_type d ty = true -> finish d E ty = Err f -> f = LayoutInvalid.
Proof.
  destruct ty; cbn; try discriminate; intros _ Hv%Nat.ltb_lt H;
    (destruct (index_in _ _ Hv) as (row & Erow & Hrow); rewrite Erow in H; cbn [mbind result_bind] in H).
  - layout_err; eauto using properties_extent_err, layout_some_err, fail_if_err.
    destruct (_ =? 0); [discriminate|]. by eapply layout_some_err.
  - by eapply array_extent_err.
  - apply list_elem_of_lookup_2 in Hrow. destruct (ck_enum_arrays _ Hck _ Hrow) as [_ Hen].
    destruct (index_in _ _ Hen) as (en & Een & _). rewrite Een in H. cbn [mbind result_bind] in H.
    by eapply array_extent_err.
Qed.

(** One turn: an error of the definition, or a step towards the end that keeps the invariant. *)
Lemma visit_ok s ty finishing stack :
  layout_ok s ((ty, finishing) :: stack) ->
  match layout_visit d s ty finishing with
  | Err f => f = LayoutInvalid
  | Ok (s', pushed) =>
      layout_ok s' (pushed ++ stack) /\
      (potential 0 (ly_states s') + length (pushed ++ stack) <= potential 0 (ly_states s) + length stack)%nat /\
      (forall n, ly_states s !! n = Some 2 -> ly_states s' !! n = Some 2) /\
      (done_at (ly_states s') ty \/ exists b, (ty, b) ∈ pushed)
  end.
Proof.
  intros Hok. assert (Hty : valid_type d ty = true) by (apply (la_valid _ _ Hok (ty, finishing)); left).
  unfold layout_visit. destruct (node d ty) as [n|] eqn:Hn.
  - assert (Hlt : (n < length (ly_states s))%nat) by (rewrite (la_states _ _ Hok); by eapply node_some).
    destruct finishing.
    + destruct (finish d (ly_extents s) ty) as [size|f] eqn:Ef; cbn [mbind result_bind]; [|by eapply finish_err].
      assert (Hst : ly_states s !! n = Some 1).
      { apply (la_open _ _ Hok). unfold open_nodes. cbn. rewrite Hn. left. }
      cbn [mret result_ret app ly_states]. split; [by eapply finish_ok|]. split; [|split].
      * pose proof (potential_insert 0 (ly_states s) n 1 2 Hst) as Hp. cbn in Hp. lia.
      * intros m Hm. rewrite list_lookup_insert_ne; [done|congruence].
      * left. intros m Hm. assert (m = n) as -> by congruence. by apply list_lookup_insert_eq.
    + destruct (index_in _ _ Hlt) as (st & -> & Hst). cbn [mbind result_bind].
      destruct (Z.eqb_spec st 2) as [->|Hne2]; [|destruct (Z.eqb_spec st 1) as [->|Hne1]; [done|]].
      * cbn [mret result_ret app]. assert (done_at (ly_states s) ty) by (intros m Hm; congruence).
        split; [by eapply pop_ok|]. split; [lia|]. auto.
      * destruct (la_range _ _ Hok n st Hst) as [->|[->| ->]]; [|done|done].
        rewrite (children_ok ty n Hn Hty). cbn [mbind result_bind].
        cbn [mret result_ret ly_states]. split; [by apply enter_ok|]. split; [|split].
        -- pose proof (potential_insert 0 (ly_states s) n 0 1 Hst) as Hp. cbn [Z.eqb plus] in Hp.
           unfold weight in Hp. rewrite (root_of_type ty n Hn Hty) in Hp.
           rewrite !length_app, length_reverse, length_map. cbn [length]. lia.
        -- intros m Hm. rewrite list_lookup_insert_ne; [done|congruence].
        -- right. exists true. apply elem_of_app. right. left.
  - destruct (extent d (ly_extents s) ty) as [size|f] eqn:Ee; cbn [mbind result_bind]; [|by eapply extent_err].
    assert (Hdone : done_at (ly_states s) ty) by (intros m Hm; congruence).
    destruct finishing; [destruct (la_nodes _ _ Hok ty) as [n ?]; [left|congruence]|].
    cbn [mret result_ret app]. split; [by eapply pop_ok|]. split; [lia|]. auto.
Qed.

Lemma loop_ok fuel s stack :
  layout_ok s stack -> (potential 0 (ly_states s) + length stack <= fuel)%nat ->
  match layout_loop d fuel s stack with
  | Err f => f = LayoutInvalid
  | Ok s' =>
      layout_ok s' [] /\ (forall n, ly_states s !! n = Some 2 -> ly_states s' !! n = Some 2) /\
      (forall e, e ∈ stack -> done_at (ly_states s') e.1)
  end.
Proof.
  revert s stack. induction fuel as [|fuel IH]; intros s [|[ty b] stack] Hok Hfuel; cbn [layout_loop].
  - split; [done|]. split; [done|]. by intros e ?%not_elem_of_nil.
  - cbn [length] in Hfuel. lia.
  - split; [done|]. split; [done|]. by intros e ?%not_elem_of_nil.
  - pose proof (visit_ok s ty b stack Hok) as Hvisit.
    destruct (layout_visit d s ty b) as [[s' pushed]|f]; cbn [mbind result_bind]; [|done].
    destruct Hvisit as (Hok' & Hless & Hkeep & Hthis). cbn [length] in Hfuel.
    specialize (IH s' (pushed ++ stack) Hok' ltac:(lia)).
    destruct (layout_loop d fuel s' (pushed ++ stack)) as [s''|f]; [|done].
    destruct IH as (Hend & Hkeep' & Hall). split; [done|]. split; [auto|].
    intros e [->|He]%elem_of_cons; cbn [fst].
    + destruct Hthis as [Hd|[b' Hin]].
      * intros n Hn. auto.
      * apply (Hall (ty, b')). apply elem_of_app. by left.
    + apply Hall. apply elem_of_app. by right.
Qed.

Lemma roots_ok s roots :
  layout_ok s [] -> (forall i, i ∈ roots -> (i < node_count d)%nat) ->
  match layout_roots d s roots with
  | Err f => f = LayoutInvalid
  | Ok s' =>
      layout_ok s' [] /\ (forall n, ly_states s !! n = Some 2 -> ly_states s' !! n = Some 2) /\
      (forall i, i ∈ roots -> ly_states s' !! i = Some 2)
  end.
Proof.
  revert s. induction roots as [|i roots IH]; intros s Hok Hroots; cbn [layout_roots].
  - split; [done|]. split; [done|]. by intros i ?%not_elem_of_nil.
  - destruct (root_of_node i) as [Hnode Hvalid]; [apply Hroots; left|].
    assert (Hstart : layout_ok s [(root_of d i, false)]).
    { destruct Hok as [Hls Hle Hrange Hdone _ _ Hopen Hnodup _]. split; auto.
      - intros e ->%list_elem_of_singleton. done.
      - intros t [=]%list_elem_of_singleton.
      - intros [|e l1] t l2 c; cbn; [intros [=]|]. intros [= <- H]. by destruct l1. }
    assert (Hfuel : (potential 0 (ly_states s) + length [(root_of d i, false)] <= layout_fuel d)%nat).
    { pose proof (potential_le 0 (ly_states s)) as Hp. rewrite (la_states _ _ Hok), weight_total in Hp.
      cbn [length]. unfold layout_fuel in *. lia. }
    pose proof (loop_ok _ s _ Hstart Hfuel) as Hloop.
    destruct (layout_loop d _ s _) as [s'|f]; cbn [mbind result_bind]; [|done].
    destruct Hloop as (Hok' & Hkeep & Hroot).
    specialize (IH s' Hok' (fun j Hj => Hroots j (list_elem_of_further _ _ _ Hj))).
    destruct (layout_roots d s' roots) as [s''|f]; [|done]. destruct IH as (Hok'' & Hkeep' & Hall).
    split; [done|]. split; [auto|]. intros j [->|Hj]%elem_of_cons; [|auto].
    apply Hkeep', (Hroot (root_of d i, false)); [left|done].
Qed.

Lemma layout_new_ok : layout_ok (layout_new d) [].
Proof.
  split; cbn; try (by rewrite length_replicate); try (by intros ? ?%not_elem_of_nil).
  - intros n st Hst%lookup_replicate. destruct Hst as [-> _]. auto.
  - intros ty n _ _ Hst%lookup_replicate. by destruct Hst.
  - intros n. split; [intros Hst%lookup_replicate; by destruct Hst|intros []%not_elem_of_nil].
  - constructor.
  - intros [|e l1] t l2 c [=].
Qed.
End Layout.

(** What a successful validation leaves: the extent of every node is what [finish] computes. *)
Definition consistent (d : Definition_) (extents : list Z) : Prop :=
  forall ty n, valid_type d ty = true -> node d ty = Some n ->
    exists size, extents !! n = Some size /\ finish d extents ty = Ok size.

Lemma layout_validate_spec d :
  checked d ->
  match layout_validate d with
  | Err f => f = LayoutInvalid
  | Ok s => consistent d (ly_extents s) /\
      exists size, extent d (ly_extents s) (df_root d) = Ok size /\ size <= 8 * df_size d <= usize_max
  end.
Proof.
  intros Hck. unfold layout_validate.
  assert (Hseq : forall i, i ∈ seq 0 (node_count d) -> (i < node_count d)%nat) by (intros i ?%elem_of_seq; lia).
  pose proof (roots_ok d Hck (layout_new d) _ (layout_new_ok d) Hseq) as Hroots.
  destruct (layout_roots d _ _) as [s|f]; cbn [mbind result_bind]; [|done].
  destruct Hroots as (Hok & _ & Hall).
  destruct (extent d (ly_extents s) (df_root d)) as [size|f] eqn:Ee; cbn [mbind result_bind]; [|by eapply extent_err].
  unfold layout_bits, checked_mul_usize. destruct (Z.leb_spec (df_size d * 8) usize_max); cbn [layout_some ok_or mbind result_bind]; [|done].
  destruct (Z.ltb_spec (df_size d * 8) size); cbn; [done|]. split; [|exists size; split; [done|lia]].
  intros ty n Hv Hn. destruct (la_done _ _ _ Hok ty n Hv Hn) as [_ (sz & ? & ?)]; [|eauto].
  apply Hall, elem_of_seq. pose proof (node_some d ty n Hn Hv). lia.
Qed.

Lemma validation_total d : sd_validate d = Ok () \/ sd_validate d = Err LayoutInvalid.
Proof.
  destruct (sd_validate_cases d) as [E|[Hck ->]]; [by right|].
  pose proof (layout_validate_spec d Hck) as H. destruct (layout_validate d) as [s|f]; [by left|].
  right. by subst.
Qed.

(** C40. The validation of a definition always ends and never panics, also for definitions that
    contain themselves: it accepts, or it reports an invalid definition. *)
Theorem validation_terminates d : sd_validate d = Ok () \/ sd_validate d = Err LayoutInvalid.
Proof. apply validation_total. Qed.
