(* ===== verification/StructuredDataMain.v ===== *)
(** * Properties of structured data

    A validated definition keeps every field of every path inside the buffer; what is written is
    read back, nothing else changes, and the dirty bits are exact. *)

From S2P Require Export StructuredDataLayout.

#[local] Open Scope Z_scope.

(** ** Paths stay inside *)

Lemma layout_bits_ok n m : layout_bits n = Ok m -> m = 8 * n /\ m <= usize_max.
Proof.
  unfold layout_bits, checked_mul_usize. destruct (Z.leb_spec (n * 8) usize_max); [|discriminate].
  intros [= <-]. lia.
Qed.

Lemma binary_search_some {A} (cmp : A -> comparison) l x : binary_search cmp l = Some x -> x ∈ l /\ cmp x = Eq.
Proof.
  unfold binary_search. destruct (l !! _) as [y|] eqn:E; [|discriminate]. destruct (cmp y) eqn:Ec; intros [= <-].
  split; [by eapply list_elem_of_lookup_2|done].
Qed.

(** The errors that speak of the path. *)
Definition path_error (e : SdError) : Prop :=
  e = WrongKey \/ e = MissingKey \/ e = ExtraKey \/ e = UnknownName \/ e = IndexOutOfRange.

(** The first bit of a location. *)
Definition bit_start (ty : DataType) (offset : Z) : Z := if decide (ty = TyBool) then offset else 8 * offset.

Section Paths.
Context (d : Definition_) (extents : list Z).
Context (Htyped : typed d) (Hck : checked d) (Hcons : consistent d extents).
Context (Hsize : 8 * df_size d <= usize_max).

Definition inside (l : Lookup_) : Prop :=
  valid_type d (lo_ty l) = true /\ typed_type (lo_ty l) /\ 0 <= lo_offset l /\
  exists e, extent d extents (lo_ty l) = Ok e /\ bit_start (lo_ty l) (lo_offset l) + e <= 8 * df_size d.

Lemma properties_extent_ok acc ps total :
  properties_extent d extents acc ps = Ok total ->
  acc <= total /\ forall p, p ∈ ps -> exists e, extent d extents (pr_ty p) = Ok e /\
    bit_start (pr_ty p) (pr_offset p) + e <= total.
Proof.
  revert acc. induction ps as [|p ps IH]; intros acc H; cbn in H.
  - apply ok_inj in H as ->. split; [done|]. by intros p ?%not_elem_of_nil.
  - destruct (if decide _ then _ else _) as [start|] eqn:Es; [|discriminate]. cbn [mbind result_bind] in H.
    destruct (extent d extents (pr_ty p)) as [e|] eqn:Ee; [|discriminate]. cbn [mbind result_bind] in H.
    unfold layout_some, checked_add_usize in H. destruct (start + e <=? usize_max); [|discriminate].
    cbn [ok_or mbind result_bind] in H. destruct (IH _ H) as [Hle Hall]. split; [lia|].
    intros q [->|Hq]%elem_of_cons; [|auto]. exists e. split; [done|]. unfold bit_start.
    destruct (decide (pr_ty p = TyBool)); [apply ok_inj in Es|apply layout_bits_ok in Es as [Es _]]; lia.
Qed.

(** An element of an array. *)
Lemma array_extent_ok count element stride total index :
  array_extent d extents count element stride = Ok total -> 0 <= stride -> 0 <= index < count ->
  index * stride <= usize_max /\
  exists e, extent d extents element = Ok e /\ bit_start element (index * stride) + e <= total.
Proof.
  unfold array_extent. intros H Hstride Hindex.
  destruct (if decide _ then _ else _) as [s|] eqn:Es; [|discriminate]. cbn [mbind result_bind] in H.
  destruct (extent d extents element) as [e|]; [|discriminate]. cbn [mbind result_bind] in H.
  destruct (Z.ltb_spec s e); [discriminate|]. cbn [fail_if mbind result_bind] in H.
  unfold layout_some, checked_mul_usize in H. destruct (Z.leb_spec (count * s) usize_max); [|discriminate].
  cbn [ok_or mbind result_bind] in H. apply layout_bits_ok in H as [-> _].
  assert (Hbits : count * s <= 8 * div_ceil (count * s) 8).
  { unfold div_ceil. pose proof (Z.mod_pos_bound (count * s + 8 - 1) 8). pose proof (Z.div_mod (count * s + 8 - 1) 8). lia. }
  assert (Hs : s = bit_start element stride).
  { unfold bit_start. destruct (decide (element = TyBool)); [by apply ok_inj in Es|apply layout_bits_ok in Es; lia]. }
  assert (Hmul : bit_start element (index * stride) = index * s).
  { rewrite Hs. unfold bit_start. destruct (decide _); lia. }
  assert (0 <= s /\ stride <= s) as [? ?] by (rewrite Hs; unfold bit_start; destruct (decide _); lia).
  split; [nia|]. exists e. split; [done|]. rewrite Hmul. nia.
Qed.

Lemma step_inside ty offset key :
  inside (mkLookup ty offset) ->
  match lookup_step d ty key with
  | Ok (ty', delta) => 0 <= delta /\ inside (mkLookup ty' ((if decide (ty' = TyBool) then 8 * offset else offset) + delta))
  | Err e => path_error e
  end.
Proof.
  intros (Hv & _ & Ho & e & He & Hfit). cbn [lo_ty lo_offset] in *.
  assert (Hnode : forall n, node d ty = Some n -> finish d extents ty = Ok e).
  { intros n Hn. destruct (Hcons ty n Hv Hn) as (size & Hsz & ->). destruct ty; try discriminate;
      cbn in He, Hn; injection Hn as <-; rewrite Hsz in He; exact He. }
  destruct Htyped as [_ _ Tenums Tstructs Tindexed Tarrays]. rewrite list.Forall_forall in Tenums. rewrite list.Forall_forall in Tstructs.
  rewrite list.Forall_forall in Tindexed. rewrite list.Forall_forall in Tarrays.
  unfold path_error. destruct ty; cbn [lookup_step]; try (by auto 10); cbn in Hv; apply Nat.ltb_lt in Hv;
    (destruct (index_in _ _ Hv) as (row & Erow & Hrow)); specialize (Hnode _ eq_refl); cbn [finish] in Hnode;
    rewrite Erow in Hnode; cbn [mbind result_bind] in Hnode; pose proof (list_elem_of_lookup_2 _ _ _ Hrow) as Hin.
  all: change (bit_start _ offset) with (8 * offset) in Hfit.
  - destruct key as [name|]; [|by auto]. rewrite Hrow. cbn [ok_or mbind result_bind].
    destruct (binary_search _ _) as [p|] eqn:Ep; cbn; [|by auto 10]. apply binary_search_some in Ep as [Hp _].
    destruct (properties_extent d extents 0 _) as [total|] eqn:Etotal; [|discriminate]. cbn [mbind result_bind] in Hnode.
    destruct (properties_extent_ok _ _ _ Etotal) as [Hnn Hall]. destruct (Hall p Hp) as (pe & Hpe & Hpfit).
    destruct (layout_bits (div_ceil total 8)) as [used|] eqn:Eused; [|discriminate]. cbn [mbind result_bind] in Hnode.
    apply layout_bits_ok in Eused as [-> _].
    destruct (if sr_size row =? 0 then _ else _) as [size|]; [|discriminate]. cbn [mbind result_bind] in Hnode.
    destruct ((size <? _) || _) eqn:Ebig; [discriminate|]. apply orb_false_iff in Ebig as [Ebig _].
    cbn in Hnode. apply ok_inj in Hnode as ->.
    assert (total <= 8 * div_ceil total 8).
    { unfold div_ceil. pose proof (Z.mod_pos_bound (total + 8 - 1) 8). pose proof (Z.div_mod (total + 8 - 1) 8). lia. }
    destruct (Tstructs _ Hin) as (_ & _ & Tprops). rewrite list.Forall_forall in Tprops.
    destruct (Tprops p Hp) as [[? _] ?]. split; [done|]. split; [by eapply ck_properties|]. split; [done|].
    cbn [lo_ty lo_offset]. split; [destruct (decide _); lia|]. exists pe. split; [done|].
    unfold bit_start in *. destruct (decide (pr_ty p = TyBool)); lia.
  - destruct key as [|index]; [by auto|]. rewrite Hrow. cbn [ok_or mbind result_bind]. unfold fail_if.
    destruct (Z.ltb_spec index 0); cbn [mbind result_bind]; [by auto 10|].
    destruct (Z.leb_spec (ia_count row) index); cbn [mbind result_bind]; [by auto 10|].
    destruct (Tindexed _ Hin) as (_ & [? _] & ?).
    destruct (array_extent_ok _ _ _ _ index Hnode) as (Hmul & pe & Hpe & Hpfit); [done|lia|].
    unfold checked_mul_usize. rewrite (proj2 (Z.leb_le _ _)) by done. cbn.
    split; [nia|]. split; [by apply ck_indexed|]. split; [done|]. cbn [lo_ty lo_offset].
    split; [destruct (decide _); nia|]. exists pe. split; [done|].
    unfold bit_start in *. destruct (decide (ia_element row = TyBool)); lia.
  - destruct key as [name|]; [|by auto]. rewrite Hrow. cbn [ok_or mbind result_bind].
    destruct (ck_enum_arrays _ Hck _ Hin) as [Hvalid Hen]. destruct (index_in _ _ Hen) as (en & Een & Hlook).
    rewrite Een in Hnode. cbn [mbind result_bind] in Hnode. rewrite Hlook. cbn [ok_or mbind result_bind].
    destruct (binary_search _ _) as [entry|] eqn:Ep; cbn [ok_or mbind result_bind]; [|by auto 10].
    apply binary_search_some in Ep as [Hp _]. apply list_elem_of_lookup_2 in Hlook.
    pose proof (ck_entries _ Hck _ _ Hlook Hp). destruct (Tarrays _ Hin) as ([? _] & ?).
    destruct (Tenums _ Hlook) as [_ Tentries]. rewrite list.Forall_forall in Tentries. destruct (Tentries _ Hp) as [? _].
    destruct (array_extent_ok _ _ _ _ (en_index entry) Hnode) as (Hmul & pe & Hpe & Hpfit); [done|lia|].
    unfold checked_mul_usize. rewrite (proj2 (Z.leb_le _ _)) by done. cbn.
    split; [nia|]. split; [done|]. split; [done|]. cbn [lo_ty lo_offset].
    split; [destruct (decide _); nia|]. exists pe. split; [done|].
    unfold bit_start in *. destruct (decide (ea_element row = TyBool)); lia.
Qed.

Lemma properties_extent_nonneg acc ps total : properties_extent d extents acc ps = Ok total -> acc <= total.
Proof. intros H. by apply properties_extent_ok in H as [H _]. Qed.

Lemma div_ceil_nonneg n : 0 <= n -> 0 <= div_ceil n 8.
Proof. unfold div_ceil. intros H. apply Z.div_pos; lia. Qed.

Lemma array_extent_nonneg count element stride total :
  array_extent d extents count element stride = Ok total -> 0 <= count -> 0 <= stride -> 0 <= total.
Proof.
  unfold array_extent. intros H Hc Hs.
  destruct (if decide _ then _ else _) as [s|] eqn:Es; [|discriminate]. cbn [mbind result_bind] in H.
  assert (0 <= s) by (destruct (decide (element = TyBool)); [apply ok_inj in Es|apply layout_bits_ok in Es]; lia).
  destruct (extent d extents element) as [e|]; [|discriminate]. cbn [mbind result_bind] in H.
  destruct (s <? e); [discriminate|]. cbn [fail_if mbind result_bind] in H.
  unfold layout_some, checked_mul_usize in H. destruct (count * s <=? usize_max); [|discriminate].
  cbn [ok_or mbind result_bind] in H. apply layout_bits_ok in H as [-> _].
  pose proof (div_ceil_nonneg (count * s)). nia.
Qed.

Lemma extent_nonneg ty e : valid_type d ty = true -> typed_type ty -> extent d extents ty = Ok e -> 0 <= e.
Proof.
  intros Hv Hty He.
  destruct Htyped as [_ _ Tenums Tstructs Tindexed Tarrays]. rewrite list.Forall_forall in Tenums.
  rewrite list.Forall_forall in Tindexed. rewrite list.Forall_forall in Tarrays.
  assert (Hnode : forall n, node d ty = Some n -> finish d extents ty = Ok e).
  { intros n Hn. destruct (Hcons ty n Hv Hn) as (size & Hsz & ->). destruct ty; try discriminate;
      cbn in He, Hn; injection Hn as <-; rewrite Hsz in He; exact He. }
  destruct ty; try (cbn in He; injection He as <-; lia); cbn in Hv; try apply Nat.ltb_lt in Hv;
    try ((destruct (index_in _ _ Hv) as (row & Erow & Hrow)); specialize (Hnode _ eq_refl); cbn [finish] in Hnode;
    rewrite Erow in Hnode; cbn [mbind result_bind] in Hnode; pose proof (list_elem_of_lookup_2 _ _ _ Hrow) as Hin).
  - cbn in He, Hty. unfold is_usize in Hty. destruct (length =? 0); [discriminate|]. apply layout_bits_ok in He. lia.
  - destruct (properties_extent d extents 0 _) as [total|] eqn:Etotal; [|discriminate]. cbn [mbind result_bind] in Hnode.
    apply properties_extent_nonneg in Etotal.
    destruct (layout_bits (div_ceil total 8)) as [used|] eqn:Eused; [|discriminate]. cbn [mbind result_bind] in Hnode.
    apply layout_bits_ok in Eused as [-> _].
    destruct (if sr_size row =? 0 then _ else _) as [size|]; [|discriminate]. cbn [mbind result_bind] in Hnode.
    destruct ((size <? _) || _) eqn:Ebig; [discriminate|]. apply orb_false_iff in Ebig as [Ebig _].
    cbn in Hnode. apply ok_inj in Hnode as ->. pose proof (div_ceil_nonneg total). lia.
  - destruct (Tindexed _ Hin) as ([? _] & [? _] & ?). by eapply array_extent_nonneg.
  - destruct (ck_enum_arrays _ Hck _ Hin) as [_ Hen]. destruct (index_in _ _ Hen) as (en & Een & Hlook).
    rewrite Een in Hnode. cbn [mbind result_bind] in Hnode. destruct (Tarrays _ Hin) as ([? _] & ?).
    apply list_elem_of_lookup_2 in Hlook. destruct (Tenums _ Hlook) as ([? _] & _). by eapply array_extent_nonneg.
Qed.

Lemma lookup_inside keys l :
  inside l -> match lookup_from d l keys with Ok l' => inside l' | Err e => path_error e end.
Proof.
  revert l. induction keys as [|key keys IH]; intros [ty offset] Hin; cbn [lookup_from lo_ty lo_offset]; [done|].
  pose proof (step_inside ty offset key Hin) as Hstep.
  destruct (lookup_step d ty key) as [[ty' delta]|e]; cbn [mbind result_bind]; [|done].
  destruct Hstep as [Hdelta Hin']. pose proof Hin' as (Hv & Hty & Ho & e & He & Hfit). cbn [lo_ty lo_offset] in *.
  pose proof (extent_nonneg _ _ Hv Hty He). destruct Hin as (_ & _ & Ho' & _). cbn [lo_offset] in Ho'.
  unfold bit_start in Hfit. unfold checked_mul_usize, checked_add_usize.
  destruct (decide (ty' = TyBool)).
  - rewrite (proj2 (Z.leb_le (offset * 8) _)) by lia. rewrite (proj2 (Z.leb_le _ _)) by lia.
    cbn [ok_or mbind result_bind]. apply IH. by replace (offset * 8) with (8 * offset) by lia.
  - rewrite (proj2 (Z.leb_le _ _)) by lia. cbn [ok_or mbind result_bind]. by apply IH.
Qed.
End Paths.

(** Where a field is: its bits, which the definition's size holds. *)
Definition field_at (d : Definition_) (l : Lookup_) (bits : Z) : Prop :=
  extent d [] (lo_ty l) = Ok bits /\ 0 < bits /\ 0 <= lo_offset l /\
  bit_start (lo_ty l) (lo_offset l) + bits <= 8 * df_size d /\ 8 * df_size d <= usize_max /\
  valid_type d (lo_ty l) = true /\ typed_type (lo_ty l) /\ node d (lo_ty l) = None.

Lemma sd_lookup_spec d keys :
  typed d -> sd_validate d = Ok () ->
  match sd_lookup d keys with Ok l => exists bits, field_at d l bits | Err e => path_error e end.
Proof.
  intros Htyped Hvalid. apply sd_validate_checked in Hvalid as [Hck [s Hs]].
  pose proof (layout_validate_spec d Hck) as Hlayout. rewrite Hs in Hlayout.
  destruct Hlayout as (Hcons & size & Hsize & Hfit & Hroom).
  assert (Hroot : inside d (ly_extents s) (mkLookup (df_root d) 0)).
  { split; [by apply ck_root|]. split; [by apply ty_root|]. split; [done|]. exists size. split; [done|].
    cbn [lo_ty lo_offset]. unfold bit_start. destruct (decide _); lia. }
  pose proof (lookup_inside d _ Htyped Hck Hcons Hroom keys _ Hroot) as Hpath.
  unfold sd_lookup, lookup_path. destruct (lookup_from d _ keys) as [[ty offset]|e]; cbn [mbind result_bind]; [|done].
  destruct Hpath as (Hv & Hty & Ho & e & He & Hin). pose proof (extent_nonneg d _ Htyped Hck Hcons _ _ Hv Hty He).
  cbn [lo_ty lo_offset] in *.
  destruct ty; try (right; left; done); exists e; unfold field_at; cbn [lo_ty lo_offset]; cbn in He;
    try (apply ok_inj in He as <-; split; [done|split; [lia|done]]).
  cbn in Hty. unfold is_usize in Hty. destruct (Z.eqb_spec length 0) as [->|Hne]; [discriminate|].
  split; [cbn; by rewrite (proj2 (Z.eqb_neq _ _))|]. apply layout_bits_ok in He. split; [lia|done].
Qed.

Lemma field_bytes_ok d data offset n :
  0 <= offset -> offset + n <= df_size d -> 8 * df_size d <= usize_max -> df_size d <= zlen data -> 0 <= n ->
  field_bytes d data offset n = Ok (slice data offset (offset + n)).
Proof.
  intros H1 H2 H3 H4 H5. unfold field_bytes, checked_add_usize.
  rewrite (proj2 (Z.leb_le _ _)) by lia. cbn [ok_or mbind result_bind].
  rewrite (proj2 (Z.ltb_ge _ _)) by lia. cbn [fail_if mbind result_bind].
  by rewrite (proj2 (Z.leb_le _ _)) by lia.
Qed.

(** C39. In a definition that passed validation no path leaves the buffer: a lookup fails only over
    the path itself, the bits of the field it finds lie within the definition's size, and reading
    the field from a buffer of that size succeeds, or fails with [InvalidString] for a string or
    with [InvalidDefinition] for an enumeration, and in no other way. *)
Theorem validated_fields_in_bounds d data keys :
  typed d -> sd_validate d = Ok () -> df_size d <= zlen data ->
  match sd_lookup d keys with
  | Err e => path_error e
  | Ok l =>
      (exists bits, extent d [] (lo_ty l) = Ok bits /\ 0 < bits /\ 0 <= lo_offset l /\
         bit_start (lo_ty l) (lo_offset l) + bits <= 8 * df_size d) /\
      match sd_read d data l with
      | Ok _ => True
      | Err e => (e = InvalidString /\ exists n, lo_ty l = TyString n) \/ (e = InvalidDefinition /\ exists i, lo_ty l = TyEnum i)
      end
  end.
Proof.
  intros Htyped Hvalid Hdata. pose proof (sd_lookup_spec d keys Htyped Hvalid) as H.
  destruct (sd_lookup d keys) as [[ty offset]|e]; [|done].
  destruct H as (bits & He & Hpos & Ho & Hfit & Hroom & Hv & Hty & Hnode). split; [by exists bits|].
  unfold sd_read. cbn [lo_ty lo_offset] in *. unfold bit_start in Hfit.
  destruct ty; try discriminate; (destruct (decide _) in Hfit; [try discriminate|try congruence]);
    cbn in He; try (apply ok_inj in He as <-).
  - by rewrite field_bytes_ok by lia.
  - by rewrite field_bytes_ok by lia.
  - assert (offset / 8 < df_size d) by (apply Z.div_lt_upper_bound; lia).
    pose proof (Z.div_pos offset 8). by rewrite field_bytes_ok by lia.
  - cbn in Hty. unfold is_usize in Hty. destruct (length =? 0); [discriminate|]. apply layout_bits_ok in He as [-> _].
    rewrite field_bytes_ok by lia. cbn [mbind result_bind]. destruct (nul_position _); cbn; [done|left; eauto].
  - rewrite field_bytes_ok by lia. cbn [mbind result_bind]. cbn in Hv. apply Nat.ltb_lt in Hv.
    destruct (lookup_lt_is_Some_2 _ _ Hv) as [en ->]. cbn [ok_or mbind result_bind].
    destruct (entry_of en _); cbn; [done|right; eauto].
  - by rewrite field_bytes_ok by lia.
  - by rewrite field_bytes_ok by lia.
Qed.

(** ** An example definition *)

Definition demo_layout : Definition_ := {|
  df_version := 1; df_checksum := 7; df_size := 16; df_root := TyStruct 0;
  df_enums := [mkEnum 3 [mkEntry (bs "ak") 0; mkEntry (bs "m4") 2]];
  df_structs := [mkStruct [mkProperty (bs "flag") TyBool 3; mkProperty (bs "kind") (TyEnum 0) 2;
                           mkProperty (bs "tag") (TyString 4) 4; mkProperty (bs "xp") (TyEnumArray 0) 8] 0 0];
  df_indexed_arrays := [];
  df_enum_arrays := [mkEnumArray 0 TyShort 2];
|}.

Lemma demo_layout_typed : typed demo_layout.
Proof.
  split; cbn; repeat (first [apply list.Forall_cons; split | apply list.Forall_nil; done | split]; cbn);
    unfold is_usize, usize_max, is_u16; try done; try lia.
Qed.

Lemma validated_fields_in_bounds_witness :
  sd_validate demo_layout = Ok () /\
  sd_lookup demo_layout [KName (bs "xp"); KName (bs "m4")] = Ok (mkLookup TyShort 12) /\
  match sd_lookup demo_layout [KName (bs "xp"); KName (bs "m4")] with
  | Err e => path_error e
  | Ok l =>
      (exists bits, extent demo_layout [] (lo_ty l) = Ok bits /\ 0 < bits /\ 0 <= lo_offset l /\
         bit_start (lo_ty l) (lo_offset l) + bits <= 8 * df_size demo_layout) /\
      match sd_read demo_layout (replicate 16 (byte_of 0)) l with
      | Ok _ => True
      | Err e => (e = InvalidString /\ exists n, lo_ty l = TyString n) \/ (e = InvalidDefinition /\ exists i, lo_ty l = TyEnum i)
      end
  end.
Proof.
  split; [vm_compute; reflexivity|]. split; [vm_compute; reflexivity|].
  exact (validated_fields_in_bounds demo_layout (replicate 16 (byte_of 0)) [KName (bs "xp"); KName (bs "m4")]
    demo_layout_typed ltac:(vm_compute; reflexivity) ltac:(vm_compute; discriminate)).
Defined.
