(* ===== verification/StructuredDataWrite.v ===== *)
(** * Writing structured data

    What [write] stores is what [read] returns; the bits outside the field keep their values, and
    the dirty bits mark exactly the bytes that changed. *)

From S2P Require Import Wire.
From S2P Require Export StructuredDataMain.

#[local] Open Scope Z_scope.

(** The bit [k] of a buffer, least significant bit first. *)
Definition bit_at (l : list byte) (k : Z) : bool :=
  match l !! Z.to_nat (k / 8) with Some b => Z.testbit (byte_val b) (k mod 8) | None => false end.

(** The buffer [bytes] stand at [at_] in [data]. *)
Definition holds (data : list byte) (at_ : Z) (bytes : list byte) : Prop :=
  forall k, (k < length bytes)%nat -> data !! (Z.to_nat at_ + k)%nat = bytes !! k.

Lemma slice_holds data at_ bytes n :
  holds data at_ bytes -> 0 <= at_ -> zlen bytes <= n -> at_ + n <= zlen data ->
  exists rest, slice data at_ (at_ + n) = bytes ++ rest /\ (n = zlen bytes -> rest = []).
Proof.
  intros Hh Ha Hn Hlen. exists (drop (length bytes) (slice data at_ (at_ + n))).
  pose proof (zlen_nonneg bytes). assert (Hz : zlen (slice data at_ (at_ + n)) = n) by (rewrite zlen_slice; lia). split.
  - rewrite <- (take_drop (length bytes) (slice data at_ (at_ + n))) at 1. f_equal.
    apply list_eq. intros i. destruct (decide (i < length bytes)%nat) as [Hi|Hi].
    + rewrite lookup_take_lt, slice_lookup, <- Hh by (unfold zlen in *; lia). f_equal. lia.
    + rewrite !lookup_ge_None_2; [done|rewrite ?length_take; lia..].
  - intros ->. apply drop_ge. unfold zlen in *. lia.
Qed.

(** ** The bytes that are written *)

Lemma dirty_bit dirty o k :
  0 <= o < 8 * zlen dirty -> 0 <= k ->
  forall mark, dirty !! Z.to_nat (o / 8) = Some mark ->
  bit_at (<[Z.to_nat (o / 8) := byte_of (Z.lor (byte_val mark) (Z.shiftl 1 (o mod 8)))]> dirty) k =
  bit_at dirty k || (k =? o).
Proof.
  intros Ho Hk mark Hmark. unfold bit_at.
  pose proof (Z.mod_pos_bound o 8 ltac:(lia)). pose proof (Z.mod_pos_bound k 8 ltac:(lia)).
  pose proof (Z.div_mod o 8 ltac:(lia)). pose proof (Z.div_mod k 8 ltac:(lia)).
  destruct (decide (Z.to_nat (k / 8) = Z.to_nat (o / 8))) as [Heq|Hne].
  - rewrite Heq, list_lookup_insert_eq by (by eapply lookup_lt_Some). rewrite Hmark.
    assert (Hdiv : k / 8 = o / 8) by (pose proof (Z.div_pos o 8); pose proof (Z.div_pos k 8); lia).
    rewrite byte_val_of, (Z.mod_pow2_bits_low _ 8), Z.lor_spec by lia. f_equal.
    rewrite Z.shiftl_spec by lia. destruct (Z.eqb_spec k o) as [->|Hko].
    + by rewrite Z.sub_diag.
    + destruct (Z.testbit 1 (k mod 8 - o mod 8)) eqn:E; [|done].
      destruct (Z_lt_ge_dec (k mod 8 - o mod 8) 0); [by rewrite Z.testbit_neg_r in E|].
      rewrite (Z.bits_above_log2 1) in E; [done|done|]. change (Z.log2 1) with 0. lia.
  - rewrite list_lookup_insert_ne by done. rewrite (proj2 (Z.eqb_neq k o)); [by rewrite orb_false_r|].
    by intros ->.
Qed.

Lemma write_byte_spec data dirty o b :
  (0 <= o < zlen data) -> o < 8 * zlen dirty ->
  exists dirty', write_byte data dirty o b =
      Some (<[Z.to_nat o := b]> data, dirty', negb (bool_decide (data !! Z.to_nat o = Some b))) /\
    length dirty' = length dirty /\
    forall k, 0 <= k -> bit_at dirty' k = bit_at dirty k || ((k =? o) && negb (bool_decide (data !! Z.to_nat o = Some b))).
Proof.
  intros Ho Hd. unfold write_byte. destruct (lookup_lt_is_Some_2 data (Z.to_nat o)) as [old Eold]; [unfold zlen in *; lia|].
  rewrite Eold. cbn [mbind option_bind]. destruct (bool_decide_reflect (old = b)) as [->|Hne].
  - exists dirty. rewrite list_insert_id by done. rewrite bool_decide_true by done. split; [done|]. split; [done|].
    intros k _. by rewrite andb_false_r, orb_false_r.
  - pose proof (Z.div_pos o 8). pose proof (Z.div_lt_upper_bound o 8 (zlen dirty)).
    destruct (lookup_lt_is_Some_2 dirty (Z.to_nat (o / 8))) as [mark Em]; [unfold zlen in *; lia|].
    rewrite Em. cbn [mbind option_bind]. rewrite bool_decide_false by congruence. eexists. split; [done|].
    split; [by rewrite length_insert|]. intros k Hk. rewrite andb_true_r. apply dirty_bit; [lia|done|done].
Qed.

Lemma write_all_spec bytes : forall data dirty o,
  0 <= o -> o + zlen bytes <= zlen data -> o + zlen bytes <= 8 * zlen dirty ->
  exists data' dirty' changed, write_all data dirty o bytes = Some (data', dirty', changed) /\
    length data' = length data /\ length dirty' = length dirty /\ holds data' o bytes /\
    (forall i, (i < Z.to_nat o \/ Z.to_nat o + length bytes <= i)%nat -> data' !! i = data !! i) /\
    (forall k, 0 <= k -> bit_at dirty' k = bit_at dirty k || negb (bool_decide (data' !! Z.to_nat k = data !! Z.to_nat k))) /\
    (changed = false <-> data' = data).
Proof.
  induction bytes as [|b bytes IH]; intros data dirty o Ho Hdata Hdirty; cbn [write_all].
  - exists data, dirty, false. split; [done|]. split; [done|]. split; [done|]. split; [intros k Hk; cbn in Hk; lia|].
    split; [done|]. split; [|done]. intros k _. by rewrite bool_decide_true, orb_false_r.
  - rewrite zlen_cons in Hdata, Hdirty. pose proof (zlen_nonneg bytes).
    destruct (write_byte_spec data dirty o b) as (dirty1 & E1 & Hlen1 & Hbits1); [lia..|].
    rewrite E1. cbn [mbind option_bind]. set (data1 := <[Z.to_nat o := b]> data) in *.
    assert (Hl1 : length data1 = length data) by (unfold data1; by rewrite length_insert).
    assert (Hat : data1 !! Z.to_nat o = Some b) by (unfold data1; rewrite list_lookup_insert_eq; [done|unfold zlen in *; lia]).
    destruct (IH data1 dirty1 (o + 1)) as (data' & dirty' & rest & E & Hlen & Hlend & Hh & Hout & Hbits & Hch);
      [lia|unfold zlen in *; lia..|].
    rewrite E. cbn [mbind option_bind]. do 3 eexists. split; [done|]. split; [congruence|]. split; [congruence|].
    assert (Hato : data' !! Z.to_nat o = Some b) by (rewrite Hout by lia; done).
    split; [|split; [|split]].
    + intros [|k] Hk; cbn [length] in Hk.
      * by rewrite Nat.add_0_r.
      * cbn [lookup list_lookup]. rewrite <- Hh by lia. f_equal. lia.
    + intros i Hi. cbn [length] in Hi. rewrite Hout by lia. unfold data1. rewrite list_lookup_insert_ne; [done|lia].
    + intros k Hk. rewrite Hbits, Hbits1 by done. rewrite <- orb_assoc. f_equal.
      destruct (Z.eqb_spec k o) as [->|Hne]; cbn [andb orb].
      * rewrite Hato, Hat, (bool_decide_true (Some b = Some b)) by done. rewrite orb_false_r. f_equal.
        apply bool_decide_ext. split; congruence.
      * unfold data1. rewrite list_lookup_insert_ne by lia. done.
    + rewrite orb_false_iff, Hch. split.
      * intros [Hsame ->]. apply negb_false_iff, bool_decide_eq_true in Hsame. unfold data1. by apply list_insert_id.
      * intros Heq. rewrite Heq in Hato. split; [apply negb_false_iff, bool_decide_eq_true; done|].
        rewrite Heq. unfold data1. symmetry. by apply list_insert_id.
Qed.

(** ** What a field keeps of a value *)

(** The values of the [Value] type: an [i32], the bits of an [f32]. *)
Definition typed_value (v : SdValue) : Prop :=
  match v with VInt v => is_i32 v | VFloat bits => is_u32 bits | _ => True end.

Definition text_value (text : list byte) : SdValue := if utf8_valid text then VString text else VBytes text.

(** A field of type [ty] that is given the first value keeps the second. *)
Inductive stored (d : Definition_) : DataType -> SdValue -> SdValue -> Prop :=
| st_int v : stored d TyInt (VInt v) (VInt v)
| st_byte v : is_u8 v -> stored d TyByte (VInt v) (VInt v)
| st_short v : stored d TyShort (VInt v) (VInt (to_signed 16 (wrap16 v)))
| st_float bits : stored d TyFloat (VFloat bits) (VFloat bits)
| st_bool v : stored d TyBool (VBool v) (VBool v)
| st_string n v : zlen (c_prefix v) < n -> stored d (TyString n) (VString v) (text_value (c_prefix v))
| st_bytes n v : zlen (c_prefix v) < n -> stored d (TyString n) (VBytes v) (text_value (c_prefix v))
| st_enum i en entry first v :
    df_enums d !! i = Some en -> entry ∈ en_entries en -> en_name entry = c_prefix v ->
    entry_of en (en_index entry) = Some first -> stored d (TyEnum i) (VString v) (VString (en_name first)).

Definition write_error (e : SdError) : Prop :=
  e = WrongValue \/ e = ByteRange \/ e = UnknownName \/ e = StringLength.

Lemma bytes_cmp_eq a b : bytes_cmp a b = Eq -> a = b.
Proof. unfold bytes_cmp. destruct (bool_decide_reflect (a = b)); [done|]. by destruct (bytes_leb a b). Qed.

Lemma c_prefix_no_nul text b : b ∈ c_prefix text -> byte_val b <> 0.
Proof.
  induction text as [|x text IH]; cbn; [by intros ?%not_elem_of_nil|].
  destruct (Z.eqb_spec (byte_val x) 0); [by intros ?%not_elem_of_nil|]. intros [->|Hb]%elem_of_cons; auto.
Qed.

Lemma nul_position_after text rest :
  (forall b, b ∈ text -> byte_val b <> 0) -> nul_position (text ++ byte_of 0 :: rest) = Some (length text).
Proof.
  induction text as [|x text IH]; intros H; cbn; [done|].
  rewrite (proj2 (Z.eqb_neq _ _)) by (apply H; left). rewrite IH; [done|]. intros b Hb. apply H. by right.
Qed.

Lemma entry_found en entry :
  entry ∈ en_entries en -> exists first, entry_of en (en_index entry) = Some first /\ en_index first = en_index entry.
Proof.
  intros Hin. unfold entry_of. destruct (find _ (en_entries en)) as [f|] eqn:E.
  - exists f. split; [done|]. apply find_some in E as [_ E]. lia.
  - exfalso. apply list_elem_of_In in Hin. pose proof (find_none _ _ E _ Hin) as H. cbn in H. lia.
Qed.

(** What [write] is about to store: its bytes lie in the buffer, no bit outside the field changes,
    and wherever the bytes stand the field reads as the value. *)
Definition write_ready (d : Definition_) (data : list byte) (l : Lookup_) (value : SdValue) (bits : Z)
    (bytes : list byte) (at_ n : Z) : Prop :=
  0 <= at_ /\ zlen bytes <= n /\ at_ + n <= df_size d /\
  (exists value', stored d (lo_ty l) value value' /\
     forall data', zlen data' = zlen data -> holds data' at_ bytes -> sd_read d data' l = Ok value') /\
  forall data' k, 0 <= k -> holds data' at_ bytes -> at_ <= k / 8 < at_ + zlen bytes ->
    (k < bit_start (lo_ty l) (lo_offset l) \/ bit_start (lo_ty l) (lo_offset l) + bits <= k) -> bit_at data' k = bit_at data k.

(** A field that is not a bit: its bytes fill whole bytes of the field. *)
Lemma byte_field_ready d data l value bits bytes n value' :
  lo_ty l <> TyBool -> bits = 8 * n -> zlen bytes <= n -> 0 <= lo_offset l -> 8 * lo_offset l + bits <= 8 * df_size d ->
  8 * df_size d <= usize_max -> df_size d <= zlen data -> stored d (lo_ty l) value value' ->
  (forall data' rest, zlen data' = zlen data ->
     field_bytes d data' (lo_offset l) n = Ok (bytes ++ rest) -> (n = zlen bytes -> rest = []) -> sd_read d data' l = Ok value') ->
  write_ready d data l value bits bytes (lo_offset l) n.
Proof.
  intros Hty -> Hn Ho Hfit Hroom Hdata Hst Hread. unfold write_ready.
  assert (Hb : bit_start (lo_ty l) (lo_offset l) = 8 * lo_offset l) by (unfold bit_start; by rewrite decide_False).
  split; [done|]. split; [done|]. split; [lia|]. split.
  - exists value'. split; [done|]. intros data' Hl Hh. pose proof (zlen_nonneg bytes).
    destruct (slice_holds data' (lo_offset l) bytes n Hh Ho Hn) as (rest & Hs & Hrest); [lia|].
    apply (Hread data' rest Hl); [|done]. rewrite field_bytes_ok by lia. by rewrite Hs.
  - intros data' k Hk _ Hin Hout. rewrite Hb in Hout. pose proof (Z.div_mod k 8). pose proof (Z.mod_pos_bound k 8). lia.
Qed.

(** The bit of a boolean in its byte. *)
Lemma bool_byte_bits x o v k :
  0 <= x < 256 -> 0 <= o < 8 -> 0 <= k < 8 ->
  Z.testbit (byte_val (byte_of (if v : bool then Z.lor x (Z.shiftl 1 o) else Z.ldiff x (Z.shiftl 1 o)))) k =
  if k =? o then v else Z.testbit x k.
Proof.
  intros Hx Ho Hk. rewrite byte_val_of, (Z.mod_pow2_bits_low _ 8) by lia.
  assert (Hone : Z.testbit (Z.shiftl 1 o) k = (k =? o)).
  { rewrite Z.shiftl_spec by lia. destruct (Z.eqb_spec k o) as [->|Hne]; [by rewrite Z.sub_diag|].
    destruct (Z_lt_ge_dec (k - o) 0); [by apply Z.testbit_neg_r|]. apply Z.bits_above_log2; [done|].
    change (Z.log2 1) with 0. lia. }
  destruct v; [rewrite Z.lor_spec|rewrite Z.ldiff_spec]; rewrite Hone; destruct (k =? o);
    by rewrite ?orb_true_r, ?orb_false_r, ?andb_false_r, ?andb_true_r.
Qed.

Lemma bit_mask_test x o : 0 <= o -> negb (Z.land x (Z.shiftl 1 o) =? 0) = Z.testbit x o.
Proof.
  intros Ho. rewrite Z.shiftl_1_l. destruct (Z.testbit x o) eqn:E.
  - destruct (Z.eqb_spec (Z.land x (2 ^ o)) 0) as [H|]; [|done].
    assert (Z.testbit (Z.land x (2 ^ o)) o = true) as Ht; [|by rewrite H, Z.bits_0 in Ht].
    by rewrite Z.land_spec, E, Z.pow2_bits_true.
  - rewrite (proj2 (Z.eqb_eq _ _)); [done|]. apply Z.bits_inj_0. intros k. rewrite Z.land_spec.
    destruct (Z.eq_dec k o) as [->|Hne]; [by rewrite E|]. rewrite Z.pow2_bits_false by done. apply andb_false_r.
Qed.

Lemma bool_field_ready d data offset v :
  0 <= offset -> offset + 1 <= 8 * df_size d -> 8 * df_size d <= usize_max -> df_size d <= zlen data ->
  exists x, field_bytes d data (offset / 8) 1 = Ok [x] /\
    write_ready d data (mkLookup TyBool offset) (VBool v) 1
      [byte_of (if v then Z.lor (le_val [x]) (Z.shiftl 1 (offset mod 8)) else Z.ldiff (le_val [x]) (Z.shiftl 1 (offset mod 8)))]
      (offset / 8) 1.
Proof.
  intros Ho Hfit Hroom Hdata.
  pose proof (Z.div_mod offset 8 ltac:(lia)) as Hdm. pose proof (Z.mod_pos_bound offset 8 ltac:(lia)) as Hm.
  assert (Hat : 0 <= offset / 8 /\ offset / 8 + 1 <= df_size d) by lia. destruct Hat as [Hat0 Hat1].
  destruct (lookup_lt_is_Some_2 data (Z.to_nat (offset / 8))) as [x Hx]; [unfold zlen in *; lia|].
  assert (Hone : forall data' y, zlen data' = zlen data -> data' !! Z.to_nat (offset / 8) = Some y ->
            field_bytes d data' (offset / 8) 1 = Ok [y]).
  { intros data' y Hl Hy. rewrite field_bytes_ok by lia. f_equal.
    destruct (slice_holds data' (offset / 8) [y] 1) as (rest & -> & Hrest); [|done|done|lia|by rewrite Hrest].
    intros [|k] Hk; cbn in *; [by rewrite Nat.add_0_r|lia]. }
  exists x. split; [by apply Hone|]. replace (le_val [x]) with (byte_val x) by (cbn; lia).
  pose proof (byte_val_range x) as Hrange. unfold write_ready. cbn [lo_ty lo_offset].
  change (bit_start TyBool offset) with offset. split; [done|]. split; [done|]. split; [done|]. split.
  - exists (VBool v). split; [constructor|]. intros data' Hl Hh.
    assert (Hy := Hh 0%nat ltac:(cbn; lia)). rewrite Nat.add_0_r in Hy. cbn in Hy.
    unfold sd_read. cbn [lo_ty lo_offset]. rewrite (Hone _ _ Hl Hy). cbn [mbind result_bind mret result_ret].
    do 2 f_equal. rewrite bit_mask_test by lia. replace (le_val [_]) with (byte_val (byte_of
      (if v then Z.lor (byte_val x) (Z.shiftl 1 (offset mod 8)) else Z.ldiff (byte_val x) (Z.shiftl 1 (offset mod 8)))))
      by (cbn [le_val]; lia).
    rewrite bool_byte_bits by lia. by rewrite Z.eqb_refl.
  - intros data' k Hk Hh Hin Hout. change (zlen [_]) with 1 in Hin. assert (Hkd : k / 8 = offset / 8) by lia.
    assert (Hy := Hh 0%nat ltac:(cbn; lia)). rewrite Nat.add_0_r in Hy. cbn in Hy.
    pose proof (Z.div_mod k 8 ltac:(lia)). pose proof (Z.mod_pos_bound k 8 ltac:(lia)).
    unfold bit_at. rewrite Hkd, Hy, Hx, bool_byte_bits by lia. by rewrite (proj2 (Z.eqb_neq _ _)) by lia.
Qed.

Lemma text_field_ready d data offset n value v bits :
  stored d (TyString n) value (text_value (c_prefix v)) -> zlen (c_prefix v) < n -> extent d [] (TyString n) = Ok bits ->
  0 <= offset -> 8 * offset + bits <= 8 * df_size d -> 8 * df_size d <= usize_max -> df_size d <= zlen data ->
  write_ready d data (mkLookup (TyString n) offset) value bits (c_prefix v ++ [byte_of 0]) offset n.
Proof.
  intros Hst Hn He Ho Hfit Hroom Hdata. cbn in He. destruct (n =? 0); [discriminate|]. apply layout_bits_ok in He as [-> _].
  eapply (byte_field_ready _ _ (mkLookup (TyString n) offset)); [done|done| |done..|exact Hst|].
  - rewrite zlen_app. change (zlen [byte_of 0]) with 1. lia.
  - intros data' rest Hl Hbytes _. unfold sd_read. cbn [lo_ty lo_offset] in *. rewrite Hbytes. cbn [mbind result_bind].
    rewrite <- app_assoc. cbn [app]. rewrite nul_position_after by (intros b; apply c_prefix_no_nul).
    cbn [ok_or mbind result_bind]. rewrite take_app_length. done.
Qed.

Lemma value_bytes_spec d data l value bits :
  typed d -> field_at d l bits -> df_size d <= zlen data -> typed_value value ->
  match value_bytes d data l value with
  | Err e => write_error e
  | Ok (bytes, at_, n) => write_ready d data l value bits bytes at_ n
  end.
Proof.
  destruct l as [ty offset]. intros Htyped (He & Hpos & Ho & Hfit & Hroom & Hv & Hty & Hnode) Hdata Hval.
  cbn [lo_ty lo_offset] in *. unfold write_error.
  assert (Hnum : forall bytes n value', ty <> TyBool -> bits = 8 * n -> zlen bytes = n -> stored d ty value value' ->
    (forall data', field_bytes d data' offset n = Ok bytes -> sd_read d data' (mkLookup ty offset) = Ok value') ->
    write_ready d data (mkLookup ty offset) value bits bytes offset n).
  { intros bytes n value' Hne Hbits Hn Hst Hread. unfold bit_start in Hfit. rewrite decide_False in Hfit by done.
    eapply (byte_field_ready _ _ (mkLookup ty offset)); [done|done|lia|done..|exact Hst|].
    intros data' rest _ Hbytes Hrest. apply Hread. cbn [lo_offset] in Hbytes. rewrite Hbytes, Hrest by done. by rewrite app_nil_r. }
  destruct ty; try discriminate; cbn [value_bytes lo_ty lo_offset].
  - destruct value as [v| | | |]; try (by auto). apply ok_inj in He as <-.
    eapply Hnum; [done|done|by rewrite zlen_le_bytes|constructor|]. intros data' Hb. unfold sd_read. cbn [lo_ty lo_offset].
    rewrite Hb. cbn [mbind result_bind mret result_ret]. rewrite le_val_bytes by (unfold wrap32; apply Z.mod_pos_bound; done).
    by rewrite to_signed_wrap32.
  - destruct value as [v| | | |]; try (by auto). apply ok_inj in He as <-. unfold fail_if.
    destruct ((0 <=? v) && (v <=? u8_max)) eqn:E; cbn [negb mbind result_bind mret result_ret]; [|by auto].
    assert (is_u8 v) by (unfold is_u8; lia). eapply Hnum; [done|done|done|by constructor|].
    intros data' Hb. unfold sd_read. cbn [lo_ty lo_offset]. rewrite Hb. cbn [mbind result_bind mret result_ret le_val].
    rewrite byte_val_of_small by done. do 2 f_equal. lia.
  - destruct value as [|v| | |]; try (by auto). apply ok_inj in He as <-.
    destruct (bool_field_ready d data offset v) as (x & -> & H); [done|exact Hfit|done|done|]. exact H.
  - destruct value as [| | |v|v]; try (by auto); unfold fail_if;
      (destruct (Z.ltb_spec length (zlen (c_prefix v) + 1)); cbn [mbind result_bind mret result_ret]; [by auto|]);
      apply text_field_ready; try done; try lia; constructor; lia.
  - destruct value as [| | |v|]; try (by auto). apply ok_inj in He as <-. cbn in Hv. apply Nat.ltb_lt in Hv.
    destruct (lookup_lt_is_Some_2 _ _ Hv) as [en Hen]. rewrite Hen. cbn [ok_or mbind result_bind].
    destruct (binary_search _ _) as [entry|] eqn:Eb; cbn [ok_or mbind result_bind mret result_ret]; [|by auto].
    apply binary_search_some in Eb as [Hentry Hname%bytes_cmp_eq].
    destruct (entry_found en entry Hentry) as (first & Hfirst & _).
    pose proof (ty_enums _ Htyped) as Tenums. rewrite list.Forall_forall in Tenums.
    destruct (Tenums _ (list_elem_of_lookup_2 _ _ _ Hen)) as [_ Tentries]. rewrite list.Forall_forall in Tentries.
    pose proof (Tentries _ Hentry) as Hidx. unfold is_u16, u16_max in Hidx.
    eapply Hnum; [done|done|by rewrite zlen_le_bytes|by econstructor|]. intros data' Hb. unfold sd_read. cbn [lo_ty lo_offset].
    rewrite Hb. cbn [mbind result_bind]. rewrite Hen, le_val_bytes by (cbn; lia). cbn [ok_or mbind result_bind].
    by rewrite Hfirst.
  - destruct value as [| |v| |]; try (by auto). apply ok_inj in He as <-.
    eapply Hnum; [done|done|by rewrite zlen_le_bytes|constructor|]. intros data' Hb. unfold sd_read. cbn [lo_ty lo_offset].
    rewrite Hb. cbn [mbind result_bind mret result_ret]. unfold typed_value, is_u32, u32_max in Hval.
    by rewrite le_val_bytes by (cbn; lia).
  - destruct value as [v| | | |]; try (by auto). apply ok_inj in He as <-.
    eapply Hnum; [done|done|by rewrite zlen_le_bytes|constructor|]. intros data' Hb. unfold sd_read. cbn [lo_ty lo_offset].
    rewrite Hb. cbn [mbind result_bind mret result_ret]. by rewrite le_val_bytes by (unfold wrap16; apply Z.mod_pos_bound; done).
Qed.

(** A write never panics: the bytes of a value fit the field, and the field is in the buffer. *)
Lemma triple_inj {A B C} (a x : A) (b y : B) (c z : C) : (a, b, c) = (x, y, z) -> a = x /\ b = y /\ c = z.
Proof. intros H. by injection H. Qed.

Ltac value_case H :=
  cbn [mret result_ret] in H; apply ok_inj, triple_inj in H as (<- & <- & <-);
  rewrite ?zlen_le_bytes; (split; [by (done || (apply Z.div_pos; lia))|]).

Lemma value_bytes_length d data l value bytes at_ n :
  value_bytes d data l value = Ok (bytes, at_, n) -> 0 <= lo_offset l -> 0 <= at_ /\ zlen bytes <= n.
Proof.
  unfold value_bytes, fail_if. intros H Ho. destruct (lo_ty l); destruct value; try discriminate H.
  - by value_case H.
  - destruct (negb _); [discriminate|]. cbn [mbind result_bind] in H. by value_case H.
  - destruct (field_bytes _ _ _ _); [|discriminate]. cbn [mbind result_bind] in H. by value_case H.
  - destruct (Z.ltb_spec length (zlen (c_prefix text) + 1)); [discriminate|]. cbn [mbind result_bind] in H. value_case H.
    rewrite zlen_app. change (zlen [byte_of 0]) with 1. lia.
  - destruct (Z.ltb_spec length (zlen (c_prefix bytes0) + 1)); [discriminate|]. cbn [mbind result_bind] in H. value_case H.
    rewrite zlen_app. change (zlen [byte_of 0]) with 1. lia.
  - destruct (df_enums d !! i); [|discriminate]. cbn [ok_or mbind result_bind] in H.
    destruct (binary_search _ _); [|discriminate]. cbn [ok_or mbind result_bind] in H. by value_case H.
  - by value_case H.
  - by value_case H.
Qed.

Lemma sd_write_total d data dirty l value :
  0 <= lo_offset l -> df_size d <= zlen data -> df_size d <= 8 * zlen dirty ->
  match sd_write d data dirty l value with
  | None => False
  | Some (Err e) => True
  | Some (Ok (data', dirty', changed)) => length data' = length data /\ length dirty' = length dirty /\ (changed = false <-> data' = data)
  end.
Proof.
  intros Ho Hdata Hdirty. unfold sd_write.
  destruct (value_bytes d data l value) as [[[bytes at_] n]|e] eqn:E; [|done].
  apply value_bytes_length in E as [Hat Hn]; [|done]. unfold field_bytes, fail_if.
  destruct (checked_add_usize at_ n) as [end_|] eqn:Eadd; cbn [ok_or mbind result_bind]; [|done].
  unfold checked_add_usize in Eadd. destruct (at_ + n <=? usize_max); [|discriminate]. injection Eadd as <-.
  destruct (Z.ltb_spec (df_size d) (at_ + n)); cbn [mbind result_bind]; [done|].
  destruct (at_ + n <=? zlen data); [|done]. destruct (zlen dirty <? div_ceil (df_size d) 8); [done|].
  destruct (write_all_spec bytes data dirty at_) as (data' & dirty' & changed & -> & ? & ? & _ & _ & _ & ?); [lia..|].
  by cbn [fmap option_fmap option_map].
Qed.

Lemma sd_write_reads d data dirty keys l value :
  typed d -> sd_validate d = Ok () -> sd_lookup d keys = Ok l ->
  df_size d <= zlen data -> df_size d <= 8 * zlen dirty -> typed_value value ->
  match sd_write d data dirty l value with
  | None => False
  | Some (Err e) => write_error e
  | Some (Ok (data', dirty', changed)) =>
      (exists value', stored d (lo_ty l) value value' /\ sd_read d data' l = Ok value') /\
      length data' = length data /\ length dirty' = length dirty /\
      (forall bits k, extent d [] (lo_ty l) = Ok bits -> 0 <= k ->
         k < bit_start (lo_ty l) (lo_offset l) \/ bit_start (lo_ty l) (lo_offset l) + bits <= k -> bit_at data' k = bit_at data k) /\
      (changed = false <-> data' = data) /\
      (forall k, 0 <= k -> bit_at dirty' k = bit_at dirty k || negb (bool_decide (data' !! Z.to_nat k = data !! Z.to_nat k)))
  end.
Proof.
  intros Htyped Hvalid Hl Hdata Hdirty Hval. pose proof (sd_lookup_spec d keys Htyped Hvalid) as Hfield.
  rewrite Hl in Hfield. destruct Hfield as [bits Hfield]. pose proof Hfield as (He & _ & _ & _ & Hroom & _).
  pose proof (value_bytes_spec d data l value bits Htyped Hfield Hdata Hval) as Hbytes. unfold sd_write.
  destruct (value_bytes d data l value) as [[[bytes at_] n]|e]; [|done].
  destruct Hbytes as (Hat & Hn & Hend & (value' & Hst & Hread) & Hsame). pose proof (zlen_nonneg bytes).
  rewrite field_bytes_ok by lia.
  rewrite (proj2 (Z.ltb_ge _ _)) by (unfold div_ceil; assert ((df_size d + 8 - 1) / 8 < zlen dirty + 1) by
    (apply Z.div_lt_upper_bound; lia); lia).
  destruct (write_all_spec bytes data dirty at_) as (data' & dirty' & changed & -> & Hlen & Hlend & Hh & Hout & Hbits & Hch); [lia..|].
  cbn [fmap option_fmap option_map]. split; [|split; [done|split; [done|split; [|split; [done|done]]]]].
  - exists value'. split; [done|]. apply Hread; [unfold zlen; lia|done].
  - intros b k Hb Hk Hfar. assert (b = bits) as -> by congruence.
    destruct (decide (at_ <= k / 8 < at_ + zlen bytes)) as [Hin|Hin]; [by apply Hsame|].
    unfold bit_at. rewrite Hout; [done|]. pose proof (Z.div_pos k 8). unfold zlen in *. lia.
Qed.

(** Writing a field found by a lookup never panics; it fails only over the value.  When it
    succeeds, the field then reads as the value it keeps, every bit outside the field is what it
    was, the reply says whether the buffer changed, and the dirty bits gain exactly the bytes that
    did. *)
Theorem write_then_read d data dirty keys l value :
  typed d -> sd_validate d = Ok () -> sd_lookup d keys = Ok l ->
  df_size d <= zlen data -> df_size d <= 8 * zlen dirty -> typed_value value ->
  match sd_write d data dirty l value with
  | None => False
  | Some (Err e) => write_error e
  | Some (Ok (data', dirty', changed)) =>
      (exists value', stored d (lo_ty l) value value' /\ sd_read d data' l = Ok value') /\
      length data' = length data /\ length dirty' = length dirty /\
      (forall bits k, extent d [] (lo_ty l) = Ok bits -> 0 <= k ->
         k < bit_start (lo_ty l) (lo_offset l) \/ bit_start (lo_ty l) (lo_offset l) + bits <= k -> bit_at data' k = bit_at data k) /\
      (changed = false <-> data' = data) /\
      (forall k, 0 <= k -> bit_at dirty' k = bit_at dirty k || negb (bool_decide (data' !! Z.to_nat k = data !! Z.to_nat k)))
  end.
Proof. apply sd_write_reads. Qed.

Lemma write_then_read_witness :
  exists data' dirty',
    sd_write demo_layout (replicate 16 (byte_of 0)) (replicate 2 (byte_of 0)) (mkLookup TyShort 12) (VInt (-2)) =
      Some (Ok (data', dirty', true)) /\
    sd_read demo_layout data' (mkLookup TyShort 12) = Ok (VInt (-2)) /\ dirty' = [byte_of 0; byte_of 48].
Proof.
  pose proof (write_then_read demo_layout (replicate 16 (byte_of 0)) (replicate 2 (byte_of 0))
    [KName (bs "xp"); KName (bs "m4")] (mkLookup TyShort 12) (VInt (-2)) demo_layout_typed
    ltac:(vm_compute; reflexivity) ltac:(vm_compute; reflexivity) ltac:(vm_compute; discriminate)
    ltac:(vm_compute; discriminate) ltac:(split; vm_compute; discriminate)) as H.
  destruct (sd_write _ _ _ _ _) as [[[[data' dirty'] changed]|e]|] eqn:E; [|vm_compute in E; discriminate..].
  exists data', dirty'. vm_compute in E. injection E as <- <- <-. destruct H as ((v & Hst & Hread) & _).
  split; [reflexivity|]. split; [|reflexivity]. rewrite Hread. vm_compute in Hread. injection Hread as <-. reflexivity.
Defined.
