(* ===== verification/PlayerDefaults.v ===== *)
(** * A player's first saved data

    crates/sim/src/persistent_defaults.rs: a new account's buffer starts as zeros with the stamp of
    its definition, the names of the custom classes, and what a configuration text sets.
    [commands] splits the text into words: quotes, escapes, comments and separators.

    A [String] is the list of its characters (code points), or its UTF-8 bytes once it is a word.
    Parsing a decimal number into an [f32] is the parameter [parse_f32]. *)

From S2P Require Export StructuredData.

#[local] Open Scope Z_scope.

Definition PLAYER_DATA_BUFFER_BYTES : Z := 8188.

(** [SkillRatingError] of crates/sim/src/skill_rating.rs. *)
Inductive SkillRatingError : Type :=
| InvalidMode | InvalidScore | InvalidEncoding | RatingOverflow | EventOverflow.

Inductive PersistentDataError : Type :=
| MissingSchema | MissingDefaults | InvalidDefaults | InvalidSchema | InvalidIdentity
| UnknownAccount | UnknownClient | AccountInUse | ClientInUse | InvalidBuffer | SchemaMismatch
| RevisionOverflow | InvalidOpponent
| SkillFault (e : SkillRatingError)
| FieldFault (e : SdError)
| PdPanic.

Record PlayerDataDefaults : Type := mkDefaults { pf_class_names : list (list byte); pf_config : list Z }.

(** [Result::map_err]. *)
Definition map_err {E F A} (f : E -> F) (r : Result E A) : Result F A :=
  match r with Ok a => Ok a | Err e => Err (f e) end.

(** The [?] on a [structured_data_iw4::Error]. *)
Definition field {A} (r : Result SdError A) : Result PersistentDataError A := map_err FieldFault r.

(** [write], whose indexing could panic. *)
Definition field_write (d : Definition_) (data dirty : list byte) (l : Lookup_) (value : SdValue)
    : Result PersistentDataError (list byte * list byte * bool) :=
  match sd_write d data dirty l value with None => Err PdPanic | Some r => field r end.

(** ** Words *)

Definition CH_QUOTE : Z := 34.
Definition CH_BACKSLASH : Z := 92.
Definition CH_SLASH : Z := 47.
Definition CH_STAR : Z := 42.
Definition CH_SEMICOLON : Z := 59.
Definition is_newline (c : Z) : bool := (c =? 10) || (c =? 13).

(** The local variables of [commands]. *)
Record Lexer : Type := mkLexer {
  lx_commands : list (list (list Z));
  lx_words : list (list Z);
  lx_word : list Z;
  lx_present : bool;
  lx_quoted : bool;
}.

Definition lexer_new : Lexer := mkLexer [] [] [] false false.

Definition peek_is (f : Z -> bool) (cs : list Z) : bool := match cs with [] => false | c :: _ => f c end.

Definition push_char (c : Z) (s : Lexer) : Lexer :=
  mkLexer (lx_commands s) (lx_words s) (lx_word s ++ [c]) (lx_present s) (lx_quoted s).

Definition set_quoted (present quoted : bool) (s : Lexer) : Lexer :=
  mkLexer (lx_commands s) (lx_words s) (lx_word s) present quoted.

(** [if present { words.push(take(word)); present = false }]. *)
Definition end_word (s : Lexer) : Lexer :=
  if lx_present s then mkLexer (lx_commands s) (lx_words s ++ [lx_word s]) [] false (lx_quoted s) else s.

Definition end_command (s : Lexer) : Lexer :=
  match lx_words s with
  | [] => s
  | words => mkLexer (lx_commands s ++ [words]) [] (lx_word s) (lx_present s) (lx_quoted s)
  end.

(** Up to the end of the line, which stays. *)
Fixpoint skip_line (cs : list Z) : list Z :=
  match cs with
  | [] => []
  | c :: rest => if is_newline c then cs else skip_line rest
  end.

(** Behind the end of the comment, if it ends. *)
Fixpoint skip_block (cs : list Z) : option (list Z) :=
  match cs with
  | [] => None
  | c :: rest =>
      if (c =? CH_STAR) && peek_is (fun c => c =? CH_SLASH) rest then Some (tail rest) else skip_block rest
  end.

Inductive LexFault : Type := LexInvalid | LexNoFuel.

(** One turn of the [while] loop: the state and the characters left. *)
Definition lex_char (s : Lexer) (c : Z) (cs : list Z) : Result LexFault (Lexer * list Z) :=
  if lx_quoted s then
    if c =? CH_QUOTE then Ok (set_quoted (lx_present s) false s, cs)
    else if (c =? CH_BACKSLASH) && peek_is (fun c => (c =? CH_BACKSLASH) || (c =? CH_QUOTE)) cs
    then match cs with next :: cs => Ok (push_char next s, cs) | [] => Ok (s, []) end
    else Ok (push_char c s, cs)
  else if c =? CH_QUOTE then Ok (set_quoted true true s, cs)
  else if (c =? CH_SLASH) && peek_is (fun c => c =? CH_SLASH) cs then Ok (s, skip_line (tail cs))
  else if (c =? CH_SLASH) && peek_is (fun c => c =? CH_STAR) cs then
    rest ← ok_or LexInvalid (skip_block (tail cs));
    mret (end_word s, rest)
  else if is_whitespace c || (c =? CH_SEMICOLON) then
    let s := end_word s in
    Ok (if is_newline c || (c =? CH_SEMICOLON) then end_command s else s, cs)
  else
    Ok (set_quoted true false (push_char c s), cs).

(** Every turn takes a character: the length of the text is fuel enough. *)
Fixpoint lex (fuel : nat) (s : Lexer) (cs : list Z) : Result LexFault Lexer :=
  match cs with
  | [] => Ok s
  | c :: cs =>
      match fuel with
      | O => Err LexNoFuel
      | S fuel => '(s, cs) ← lex_char s c cs; lex fuel s cs
      end
  end.

Definition commands (source : list Z) : Result LexFault (list (list (list byte))) :=
  s ← lex (length source) lexer_new source;
  _ ← fail_if (lx_quoted s) LexInvalid;
  let words := if lx_present s then lx_words s ++ [lx_word s] else lx_words s in
  mret (map (map utf8_encode) (match words with [] => lx_commands s | _ => lx_commands s ++ [words] end)).

(** ** Values *)

Definition ascii_lower (b : byte) : byte :=
  let v := byte_val b in if (65 <=? v) && (v <=? 90) then byte_of (v + 32) else b.
Definition eq_ignore_ascii_case (a b : list byte) : bool := bool_decide (map ascii_lower a = map ascii_lower b).

Fixpoint parse_digits (acc : Z) (digits : list byte) : option Z :=
  match digits with
  | [] => Some acc
  | b :: digits =>
      let v := byte_val b in
      if (48 <=? v) && (v <=? 57) then parse_digits (acc * 10 + (v - 48)) digits else None
  end.

(** [str::parse::<i32>]. *)
Definition parse_i32 (text : list byte) : option Z :=
  let '(sign, digits) :=
    match text with
    | b :: rest => if byte_val b =? 45 then (-1, rest) else if byte_val b =? 43 then (1, rest) else (1, text)
    | [] => (1, [])
    end in
  match digits with
  | [] => None
  | _ =>
      n ← parse_digits 0 digits;
      if (i32_min <=? sign * n) && (sign * n <=? i32_max) then Some (sign * n) else None
  end.

(** The keys of a path in a command: a name, or an index where a name is the wrong key. *)
Fixpoint defaults_keys (d : Definition_) (keys : list Key) (tokens : list (list byte)) : Result SdError (list Key) :=
  match tokens with
  | [] => Ok keys
  | token :: tokens =>
      key ← match sd_lookup d (keys ++ [KName token]) with
            | Err WrongKey => index ← ok_or WrongKey (parse_i32 (c_prefix token)); mret (KIndex index)
            | _ => mret (KName token)
            end;
      let keys := keys ++ [key] in
      _ ← match sd_lookup d keys with
          | Ok _ | Err MissingKey => Ok ()
          | Err error => Err error
          end;
      defaults_keys d keys tokens
  end.

Definition defaults_lookup (d : Definition_) (tokens : list (list byte)) : Result SdError Lookup_ :=
  keys ← defaults_keys d [] tokens;
  sd_lookup d keys.

Section Defaults.
(** [str::parse::<f32>] of the standard library: the bits of the nearest float. *)
Variable parse_f32 : list byte -> option Z.

Definition default_value (ty : DataType) (text : list byte) : Result PersistentDataError SdValue :=
  match ty with
  | TyString _ | TyEnum _ => Ok (VString text)
  | TyInt | TyByte | TyShort => v ← ok_or InvalidDefaults (parse_i32 text); mret (VInt v)
  | TyBool => v ← ok_or InvalidDefaults (parse_i32 text); mret (VBool (negb (v =? 0)))
  | TyFloat => v ← ok_or InvalidDefaults (parse_f32 text); mret (VFloat v)
  | _ => Err InvalidDefaults
  end.

(** The [for] loops: the buffer and its dirty bits. *)
Fixpoint write_class_names (d : Definition_) (data dirty : list byte) (i : Z) (names : list (list byte))
    : Result PersistentDataError (list byte * list byte) :=
  match names with
  | [] => Ok (data, dirty)
  | name :: names =>
      l ← field (sd_lookup d [KName (bs "customClasses"); KIndex i; KName (bs "name")]);
      '(data, dirty, _) ← field_write d data dirty l (VBytes name);
      write_class_names d data dirty (i + 1) names
  end.

Definition run_command (d : Definition_) (data dirty : list byte) (command : list (list byte))
    : Result PersistentDataError (list byte * list byte) :=
  match command with
  | [] => Err InvalidDefaults
  | name :: rest =>
      _ ← fail_if (negb (eq_ignore_ascii_case name (bs "setPlayerData")) || (zlen command <? 3)) InvalidDefaults;
      l ← field (defaults_lookup d (removelast rest));
      value ← default_value (lo_ty l) (c_prefix (List.last rest []));
      '(data, dirty, _) ← field_write d data dirty l value;
      mret (data, dirty)
  end.

Fixpoint run_commands (d : Definition_) (data dirty : list byte) (cmds : list (list (list byte)))
    : Result PersistentDataError (list byte * list byte) :=
  match cmds with
  | [] => Ok (data, dirty)
  | command :: cmds =>
      '(data, dirty) ← run_command d data dirty command;
      run_commands d data dirty cmds
  end.

(** Zeros behind the version and the checksum. *)
Definition stamped (d : Definition_) : list byte :=
  le_bytes 4 (wrap32 (df_version d)) ++ le_bytes 4 (df_checksum d) ++
  replicate (Z.to_nat (PLAYER_DATA_BUFFER_BYTES - 8)) (byte_of 0).

Definition initialize (d : Definition_) (defaults : PlayerDataDefaults) : Result PersistentDataError (list byte) :=
  _ ← fail_if (negb ((8 <=? df_size d) && (df_size d <=? PLAYER_DATA_BUFFER_BYTES))) InvalidBuffer;
  let dirty := replicate (Z.to_nat (div_ceil PLAYER_DATA_BUFFER_BYTES 8)) (byte_of 0) in
  '(data, dirty) ← write_class_names d (stamped d) dirty 0 (pf_class_names defaults);
  cmds ← map_err (fun _ => InvalidDefaults) (commands (pf_config defaults));
  '(data, _) ← run_commands d data dirty cmds;
  mret data.
End Defaults.

(** * Properties of the configuration words

    Splitting a text into commands always ends, and words written in quotes come back as they
    were. *)

Lemma skip_line_length cs : (length (skip_line cs) <= length cs)%nat.
Proof. induction cs as [|c cs IH]; cbn; [done|]. destruct (is_newline c); cbn; lia. Qed.

Lemma length_tail {A} (l : list A) : (length (tail l) <= length l)%nat.
Proof. destruct l; cbn; lia. Qed.

Lemma skip_block_length cs : forall rest, skip_block cs = Some rest -> (length rest <= length cs)%nat.
Proof.
  induction cs as [|c cs IH]; intros rest; cbn; [done|]. destruct (_ && _).
  - intros [= <-]. pose proof (length_tail cs). lia.
  - intros H%IH. lia.
Qed.

Lemma lex_char_length s c cs s' cs' : lex_char s c cs = Ok (s', cs') -> (length cs' <= length cs)%nat.
Proof.
  unfold lex_char. destruct (lx_quoted s).
  - destruct (c =? CH_QUOTE); [by intros [= _ <-]|]. destruct (_ && _); [|by intros [= _ <-]].
    destruct cs; intros [= _ <-]; cbn; lia.
  - destruct (c =? CH_QUOTE); [by intros [= _ <-]|]. destruct ((c =? CH_SLASH) && peek_is (fun c => c =? CH_SLASH) cs).
    + intros [= _ <-]. pose proof (skip_line_length (tail cs)). pose proof (length_tail cs). lia.
    + destruct ((c =? CH_SLASH) && _).
      * destruct (skip_block (tail cs)) as [rest|] eqn:E; [|done]. intros [= _ <-]. apply skip_block_length in E.
        pose proof (length_tail cs). lia.
      * destruct (_ || _); by intros [= _ <-].
Qed.

Lemma lex_char_faults s c cs f : lex_char s c cs = Err f -> f = LexInvalid.
Proof.
  unfold lex_char. destruct (lx_quoted s).
  - destruct (c =? CH_QUOTE); [done|]. destruct (_ && _); [|done]. by destruct cs.
  - destruct (c =? CH_QUOTE); [done|]. destruct (_ && _); [done|]. destruct (_ && _).
    + destruct (skip_block _); [done|]. by intros [= <-].
    + by destruct (_ || _).
Qed.

Lemma lex_total fuel : forall s cs, (length cs <= fuel)%nat ->
  (exists s', lex fuel s cs = Ok s') \/ lex fuel s cs = Err LexInvalid.
Proof.
  induction fuel as [|fuel IH]; intros s [|c cs] Hf; cbn [lex]; try (left; by eexists); [cbn in Hf; lia|].
  destruct (lex_char s c cs) as [[s' cs']|f] eqn:E; cbn [mbind result_bind].
  - apply IH. apply lex_char_length in E. cbn in Hf. lia.
  - right. by rewrite (lex_char_faults _ _ _ _ E).
Qed.

(** More fuel gives the same result. *)
Lemma lex_fuel fuel : forall fuel' s cs, (length cs <= fuel)%nat -> (length cs <= fuel')%nat -> lex fuel s cs = lex fuel' s cs.
Proof.
  induction fuel as [|fuel IH]; intros [|fuel'] s [|c cs] H1 H2; cbn [lex]; try done; try (cbn in H1, H2; lia).
  destruct (lex_char s c cs) as [[s' cs']|f] eqn:E; cbn [mbind result_bind]; [|done].
  apply lex_char_length in E. cbn in H1, H2. apply IH; lia.
Qed.

Definition run_lexer (s : Lexer) (cs : list Z) : Result LexFault Lexer := lex (length cs) s cs.

Lemma run_lexer_step s c cs s' cs' :
  lex_char s c cs = Ok (s', cs') -> run_lexer s (c :: cs) = run_lexer s' cs'.
Proof.
  intros E. unfold run_lexer. cbn [length lex]. rewrite E. cbn [mbind result_bind].
  apply lex_char_length in E. by apply lex_fuel.
Qed.

(** Splitting a configuration text into commands always ends: it gives the commands, or finds
    the text invalid. *)
Theorem commands_terminate source : (exists l, commands source = Ok l) \/ commands source = Err LexInvalid.
Proof.
  unfold commands. destruct (lex_total (length source) lexer_new source (le_n _)) as [[s ->]| ->]; [|by right].
  cbn [mbind result_bind]. unfold fail_if. destruct (lx_quoted s); [by right|]. left. by eexists.
Qed.

(** ** Writing words *)

Definition escape (c : Z) : list Z := if (c =? CH_QUOTE) || (c =? CH_BACKSLASH) then [CH_BACKSLASH; c] else [c].
Definition quote_word (word : list Z) : list Z := [CH_QUOTE] ++ concat (map escape word) ++ [CH_QUOTE; 32].
Definition print_command (words : list (list Z)) : list Z := concat (map quote_word words) ++ [10].
Definition print_commands (cmds : list (list (list Z))) : list Z := concat (map print_command cmds).

Lemma lex_escaped word : forall s cs,
  lx_quoted s = true -> lx_present s = true ->
  run_lexer s (concat (map escape word) ++ CH_QUOTE :: cs) =
  run_lexer (mkLexer (lx_commands s) (lx_words s) (lx_word s ++ word) true false) cs.
Proof.
  induction word as [|c word IH]; intros [cmds words w present quoted] cs; cbn [lx_quoted lx_present lx_commands lx_words lx_word]; intros -> ->.
  - cbn [map concat app]. erewrite run_lexer_step; [|unfold lex_char; cbn; reflexivity]. by rewrite app_nil_r.
  - cbn [map concat]. unfold escape at 1. destruct (Z.eqb_spec c CH_QUOTE) as [->|Hq]; [|destruct (Z.eqb_spec c CH_BACKSLASH) as [->|Hb]]; cbn [orb app].
    + erewrite run_lexer_step; [|unfold lex_char; cbn; reflexivity]. rewrite IH by done. cbn. by rewrite <- app_assoc.
    + erewrite run_lexer_step; [|unfold lex_char; cbn; reflexivity]. rewrite IH by done. cbn. by rewrite <- app_assoc.
    + rewrite (run_lexer_step _ c _ (mkLexer cmds words (w ++ [c]) true true) (concat (map escape word) ++ CH_QUOTE :: cs)).
      * rewrite IH by done. cbn. by rewrite <- app_assoc.
      * unfold lex_char. cbn [lx_quoted]. rewrite (proj2 (Z.eqb_neq c CH_QUOTE)), (proj2 (Z.eqb_neq c CH_BACKSLASH)) by done. done.
Qed.

Lemma lex_word cmds words word cs :
  run_lexer (mkLexer cmds words [] false false) (quote_word word ++ cs) =
  run_lexer (mkLexer cmds (words ++ [word]) [] false false) cs.
Proof.
  unfold quote_word. cbn [app]. erewrite run_lexer_step; [|unfold lex_char; cbn; reflexivity]. rewrite <- app_assoc. cbn [app].
  rewrite lex_escaped by done. cbn [set_quoted lx_commands lx_words lx_word app].
  erewrite run_lexer_step; [|unfold lex_char; cbn; reflexivity]. done.
Qed.

Lemma lex_words cmds more cs : forall words,
  run_lexer (mkLexer cmds words [] false false) (concat (map quote_word more) ++ cs) =
  run_lexer (mkLexer cmds (words ++ more) [] false false) cs.
Proof.
  induction more as [|word more IH]; intros words; cbn [map concat app]; [by rewrite app_nil_r|].
  rewrite <- app_assoc, lex_word, IH, <- app_assoc. done.
Qed.

Lemma lex_commands_printed cmds : forall before,
  Forall (fun words => words <> []) cmds ->
  run_lexer (mkLexer before [] [] false false) (print_commands cmds) = Ok (mkLexer (before ++ cmds) [] [] false false).
Proof.
  induction cmds as [|words cmds IH]; intros before Hne; cbn [print_commands map concat].
  - unfold run_lexer. cbn. by rewrite app_nil_r.
  - apply list.Forall_cons in Hne as [Hw Hne]. unfold print_command at 1. rewrite <- !app_assoc, lex_words. cbn [app].
    erewrite run_lexer_step; [|unfold lex_char; cbn; reflexivity].
    destruct words as [|w words]; [done|]. unfold end_word, end_command. cbn [lx_present lx_words lx_commands lx_word lx_quoted].
    change (concat (map print_command cmds)) with (print_commands cmds). rewrite IH by done. by rewrite <- app_assoc.
Qed.

(** Commands written with their words in quotes, quotes and backslashes escaped, are read back
    word for word: empty words, separators and comment marks within a word included. *)
Theorem quoted_commands_roundtrip cmds :
  Forall (fun words => words <> []) cmds ->
  commands (print_commands cmds) = Ok (map (map utf8_encode) cmds).
Proof.
  intros Hne. unfold commands. pose proof (lex_commands_printed cmds [] Hne) as H. unfold run_lexer, lexer_new in *.
  rewrite H. done.
Qed.

Lemma quoted_commands_roundtrip_witness :
  Forall (fun words => words <> []) [[[115; 34]; []; [47; 47; 59]]] /\
  commands (print_commands [[[115; 34]; []; [47; 47; 59]]]) = Ok [[bs "s" ++ [byte_of 34]; []; bs "//;"]].
Proof.
  assert (H : Forall (fun words : list (list Z) => words <> []) [[[115; 34]; []; [47; 47; 59]]])
    by (apply list.Forall_cons; split; [discriminate|by apply list.Forall_nil]).
  split; [exact H|]. exact (quoted_commands_roundtrip _ H).
Defined.
