(* ===== verification/PersistentData.v ===== *)
(** * The players' saved data

    crates/sim/src/persistent_data.rs: the store of the accounts, each a buffer that a validated
    definition lays out, with its revision and the revision last saved; which client plays on
    which account; reads and writes of fields; the skill ratings of
    crates/sim/src/skill_rating.rs.

    Maps are [gmap]s; where the order of a [BTreeMap] shows, [account_list] sorts.  An account is
    its 16 bytes.  The arithmetic of the ratings in [f64] is a parameter, what a game changes a
    rating by. *)

From S2P Require Export PlayerDefaults.
From stdpp Require Export sorting.

#[local] Open Scope Z_scope.

(** ** Skill ratings *)

Definition SKILL_RATING_BYTES : Z := 96.
Definition MODES : list (list byte) :=
  [bs "tdm"; bs "dm"; bs "dom"; bs "sd"; bs "sab"; bs "ctf"; bs "koth"; bs "dd"].

Record SkillRating : Type := mkRating { sk_rating : Z; sk_events : Z }.

(** The rows of [SkillRatings], one for each mode. *)
Abbreviation SkillRatings := (list SkillRating).

#[export] Instance skill_rating_eq_dec : EqDecision SkillRating.
Proof. solve_decision. Defined.

Definition ratings_default : SkillRatings := replicate 8 (mkRating 1000 0).

Fixpoint position_of (name : list byte) (names : list (list byte)) : option nat :=
  match names with
  | [] => None
  | n :: names => if bool_decide (n = name) then Some O else S <$> position_of name names
  end.

Definition mode_index (mode : list byte) : option nat :=
  position_of (if bool_decide (mode = bs "war") then bs "tdm" else mode) MODES.

Definition skill_encode (rows : SkillRatings) : list byte :=
  concat (map (fun row => le_bytes 4 (wrap32 (sk_rating row)) ++ le_bytes 8 (sk_events row)) rows).

(** The 12-byte chunks. *)
Fixpoint skill_rows (n : nat) (bytes : list byte) : SkillRatings :=
  match n with
  | O => []
  | S n =>
      mkRating (to_signed 32 (le_val (slice bytes 0 4))) (le_val (slice bytes 4 12)) :: skill_rows n (zdrop 12 bytes)
  end.

Definition skill_decode (bytes : list byte) : Result SkillRatingError SkillRatings :=
  if negb (zlen bytes =? SKILL_RATING_BYTES) then Err InvalidEncoding else Ok (skill_rows 8 bytes).

(** A game's change of a rating. *)
Definition rating_updated (row : SkillRating) (delta : Z) : Result SkillRatingError SkillRating :=
  rating ← ok_or RatingOverflow
    (let sum := sk_rating row + delta in if (i32_min <=? sum) && (sum <=? i32_max) then Some sum else None);
  events ← ok_or EventOverflow (if sk_events row + 1 <=? u64_max then Some (sk_events row + 1) else None);
  mret (mkRating rating events).

(** The result of a game against one opponent. *)
Inductive Outcome : Type := OutcomeWin | OutcomeDraw | OutcomeLoss.

(** [f32] between 0 and 1, from its bits; [-0.0] is. *)
Definition score_valid (bits : Z) : bool :=
  ((0 <=? bits) && (bits <=? 0x3F800000)) || (bits =? 0x80000000).

Section Skills.
(** [32 * (score - expected)] rounded, of the two ratings. *)
Variable pair_delta : Z -> Z -> Z -> Z.
(** The mean over the opponents, rounded. *)
Variable ranked_delta : Z -> list (Z * Outcome) -> Z.

Definition updated_pair (first second : SkillRatings) (mode : list byte) (score : Z)
    : Result SkillRatingError (SkillRatings * SkillRatings) :=
  _ ← fail_if (negb (score_valid score)) InvalidScore;
  index ← ok_or InvalidMode (mode_index mode);
  let a := default (mkRating 0 0) (first !! index) in
  let b := default (mkRating 0 0) (second !! index) in
  let delta := pair_delta (sk_rating a) (sk_rating b) score in
  a ← rating_updated a delta;
  b ← rating_updated b (- delta);
  mret (<[index := a]> first, <[index := b]> second).

Definition updated_ranked (rows : SkillRatings) (mode : list byte) (opponents : list (SkillRatings * Outcome))
    : Result SkillRatingError SkillRatings :=
  index ← ok_or InvalidMode (mode_index mode);
  match opponents with
  | [] => mret rows
  | _ =>
      let rating (rows : SkillRatings) := sk_rating (default (mkRating 0 0) (rows !! index)) in
      let delta := ranked_delta (rating rows) (map (fun o => (rating o.1, o.2)) opponents) in
      row ← rating_updated (default (mkRating 0 0) (rows !! index)) delta;
      mret (<[index := row]> rows)
  end.
End Skills.

(** ** The store *)

Definition PLAYER_SCHEMA : list byte := bs "mp/playerdata.def".

Abbreviation AccountId := (list byte) (only parsing).

Record AccountSnapshot : Type := mkSnapshot {
  as_account : AccountId;
  as_revision : Z;
  as_version : Z;
  as_checksum : Z;
  as_bytes : list byte;
  as_skills : SkillRatings;
}.

#[export] Instance account_snapshot_eq_dec : EqDecision AccountSnapshot.
Proof. solve_decision. Defined.

Record AccountRecord : Type := mkRecord {
  ar_definition : Definition_;
  ar_bytes : list byte;
  ar_dirty : list byte;
  ar_revision : Z;
  ar_saved_revision : option Z;
  ar_temporary : bool;
  ar_skills : SkillRatings;
}.

Record PersistentDataStore : Type := mkStore {
  ps_schemas : gmap (list byte) (list Definition_);
  ps_accounts : gmap AccountId AccountRecord;
  ps_clients : gmap Z AccountId;
  ps_defaults : option PlayerDataDefaults;
}.

Definition store_default : PersistentDataStore := mkStore ∅ ∅ ∅ None.

Definition set_accounts (accounts : gmap AccountId AccountRecord) (s : PersistentDataStore) : PersistentDataStore :=
  mkStore (ps_schemas s) accounts (ps_clients s) (ps_defaults s).
Definition set_clients (clients : gmap Z AccountId) (s : PersistentDataStore) : PersistentDataStore :=
  mkStore (ps_schemas s) (ps_accounts s) clients (ps_defaults s).
Definition set_saved (saved : option Z) (r : AccountRecord) : AccountRecord :=
  mkRecord (ar_definition r) (ar_bytes r) (ar_dirty r) (ar_revision r) saved (ar_temporary r) (ar_skills r).
Definition set_skills (skills : SkillRatings) (revision : Z) (r : AccountRecord) : AccountRecord :=
  mkRecord (ar_definition r) (ar_bytes r) (ar_dirty r) revision (ar_saved_revision r) (ar_temporary r) skills.
Definition set_definition (d : Definition_) (r : AccountRecord) : AccountRecord :=
  mkRecord d (ar_bytes r) (ar_dirty r) (ar_revision r) (ar_saved_revision r) (ar_temporary r) (ar_skills r).

(** The accounts in the order of the [BTreeMap]. *)
Definition account_le {A} (a b : AccountId * A) : Prop := bytes_leb a.1 b.1 = true.
#[export] Instance account_le_dec {A} : RelDecision (@account_le A).
Proof. intros a b. unfold account_le. apply _. Defined.
Definition account_list {A} (m : gmap AccountId A) : list (AccountId * A) := merge_sort account_le (map_to_list m).

(** A method that changes the store, also on the way to an error. *)
Definition Persist (A : Type) : Type := PersistentDataStore -> PersistentDataStore * Result PersistentDataError A.

#[export] Instance persist_ret : MRet Persist := fun A a s => (s, Ok a).
#[export] Instance persist_bind : MBind Persist := fun A B f m s =>
  match m s with (s, Ok a) => f a s | (s, Err e) => (s, Err e) end.
Definition reads {A} (f : PersistentDataStore -> Result PersistentDataError A) : Persist A := fun s => (s, f s).
Definition changes (f : PersistentDataStore -> PersistentDataStore) : Persist () := fun s => (f s, Ok ()).

(** ** Validation *)

Definition validate_identity (account : AccountId) : Result PersistentDataError () :=
  fail_if (bool_decide (account = replicate 16 (byte_of 0))) InvalidIdentity.

Definition select_definition (set : list Definition_) (version checksum : Z) : Result PersistentDataError Definition_ :=
  ok_or SchemaMismatch (find (fun d => (df_version d =? version) && (df_checksum d =? checksum)) set).

Definition validate_buffer_size (d : Definition_) (bytes : list byte) : Result PersistentDataError () :=
  fail_if (negb (zlen bytes =? PLAYER_DATA_BUFFER_BYTES)
           || negb ((8 <=? df_size d) && (df_size d <=? PLAYER_DATA_BUFFER_BYTES))) InvalidBuffer.

Definition validate_buffer (d : Definition_) (bytes : list byte) : Result PersistentDataError () :=
  _ ← validate_buffer_size d bytes;
  fail_if (negb (bool_decide (slice bytes 0 4 = le_bytes 4 (wrap32 (df_version d))))
           || negb (bool_decide (slice bytes 4 8 = le_bytes 4 (df_checksum d)))) SchemaMismatch.

(** The first error of a [for] loop of checks. *)
Fixpoint check_all {A E} (check : A -> Result E ()) (l : list A) : Result E () :=
  match l with [] => Ok () | x :: l => _ ← check x; check_all check l end.

(** The loop that pairs every account with its definition in the new schemas. *)
Fixpoint replacements (schemas : gmap (list byte) (list Definition_)) (accounts : list (AccountId * AccountRecord))
    : Result PersistentDataError (list (AccountId * Definition_)) :=
  match accounts with
  | [] => Ok []
  | (account, record) :: accounts =>
      set ← ok_or MissingSchema (schemas !! PLAYER_SCHEMA);
      d ← select_definition set (df_version (ar_definition record)) (df_checksum (ar_definition record));
      _ ← (if ar_temporary record then validate_buffer_size d (ar_bytes record)
           else validate_buffer d (ar_bytes record));
      rest ← replacements schemas accounts;
      mret ((account, d) :: rest)
  end.

Fixpoint replace_definitions (l : list (AccountId * Definition_)) : Persist () :=
  match l with
  | [] => mret ()
  | (account, d) :: l =>
      record ← reads (fun s => ok_or UnknownAccount (ps_accounts s !! account));
      _ ← changes (fun s => set_accounts (<[account := set_definition d record]> (ps_accounts s)) s);
      replace_definitions l
  end.

Definition layout_verdict (r : Result LayoutFault ()) : Result PersistentDataError () :=
  match r with Ok () => Ok () | Err LayoutInvalid => Err InvalidSchema | Err _ => Err PdPanic end.

Definition install_schemas (schemas : gmap (list byte) (list Definition_)) : Persist () :=
  _ ← reads (fun _ => check_all (fun set => check_all (fun d => layout_verdict (sd_validate d)) set.2)
                        (account_list schemas));
  l ← reads (fun s => replacements schemas (account_list (ps_accounts s)));
  _ ← changes (fun s => mkStore schemas (ps_accounts s) (ps_clients s) (ps_defaults s));
  replace_definitions l.

(** ** Accounts *)

Definition fresh_dirty : list byte := replicate (Z.to_nat (div_ceil PLAYER_DATA_BUFFER_BYTES 8)) (byte_of 0).

(** The checks of an import, and the definition they find. *)
Definition import_check (snapshot : AccountSnapshot) (s : PersistentDataStore) : Result PersistentDataError Definition_ :=
  _ ← validate_identity (as_account snapshot);
  _ ← fail_if (bool_decide (is_Some (ps_accounts s !! as_account snapshot))) AccountInUse;
  set ← ok_or MissingSchema (ps_schemas s !! PLAYER_SCHEMA);
  d ← select_definition set (as_version snapshot) (as_checksum snapshot);
  _ ← validate_buffer d (as_bytes snapshot);
  mret d.

Definition import (snapshot : AccountSnapshot) : Persist () :=
  d ← reads (import_check snapshot);
  changes (fun s => set_accounts (<[as_account snapshot :=
    mkRecord d (as_bytes snapshot) fresh_dirty (as_revision snapshot) (Some (as_revision snapshot)) false
      (as_skills snapshot)]> (ps_accounts s)) s).

Definition bound_to (s : PersistentDataStore) (account : AccountId) : bool :=
  existsb (fun e : Z * AccountId => bool_decide (e.2 = account)) (map_to_list (ps_clients s)).

(** Bound to a client other than this one. *)
Definition bound_elsewhere (s : PersistentDataStore) (client : Z) (account : AccountId) : bool :=
  existsb (fun e : Z * AccountId => negb (e.1 =? client) && bool_decide (e.2 = account)) (map_to_list (ps_clients s)).

(** [self.clients.get(&client).is_some_and(|id| *id != account)]. *)
Definition plays_other (s : PersistentDataStore) (client : Z) (account : AccountId) : bool :=
  match ps_clients s !! client with Some id => negb (bool_decide (id = account)) | None => false end.

(** The import runs on a copy: an error leaves the store alone. *)
Definition replace_unbound (snapshot : AccountSnapshot) : Persist () := fun s =>
  if bound_to s (as_account snapshot) then (s, Err AccountInUse)
  else match import snapshot (set_accounts (delete (as_account snapshot) (ps_accounts s)) s) with
       | (updated, Ok ()) => (updated, Ok ())
       | (_, Err e) => (s, Err e)
       end.

Definition create (account : AccountId) (version checksum : Z) (bytes : list byte) : Persist () :=
  _ ← reads (fun s => fail_if (bool_decide (is_Some (ps_accounts s !! account))) AccountInUse);
  _ ← import (mkSnapshot account 0 version checksum bytes ratings_default);
  record ← reads (fun s => ok_or UnknownAccount (ps_accounts s !! account));
  changes (fun s => set_accounts (<[account := set_saved None record]> (ps_accounts s)) s).

Definition first_definition (s : PersistentDataStore) : Result PersistentDataError Definition_ :=
  set ← ok_or MissingSchema (ps_schemas s !! PLAYER_SCHEMA);
  ok_or InvalidSchema (head set).

Section Accounts.
Variable parse_f32 : list byte -> option Z.

(** [PersistentDataStore::initialize]. *)
Definition store_initialize (account : AccountId) (defaults : PlayerDataDefaults) : Persist () :=
  '(d, bytes) ← reads (fun s =>
    _ ← validate_identity account;
    _ ← fail_if (bool_decide (is_Some (ps_accounts s !! account))) AccountInUse;
    d ← first_definition s;
    bytes ← initialize parse_f32 d defaults;
    mret (d, bytes));
  create account (df_version d) (df_checksum d) bytes.

Definition install_defaults (defaults : option PlayerDataDefaults) : Persist () :=
  changes (fun s => mkStore (ps_schemas s) (ps_accounts s) (ps_clients s) defaults).

Definition preflight_binding (client : Z) (account : AccountId) (temporary : bool) (s : PersistentDataStore)
    : Result PersistentDataError bool :=
  _ ← validate_identity account;
  _ ← fail_if (plays_other s client account) ClientInUse;
  _ ← fail_if (bound_elsewhere s client account) AccountInUse;
  match ps_accounts s !! account with
  | Some record => _ ← fail_if (negb (eqb (ar_temporary record) temporary)) AccountInUse; mret true
  | None => mret false
  end.

Definition bind (client : Z) (account : AccountId) : Persist () :=
  _ ← reads (fun s =>
    _ ← fail_if (negb (bool_decide (is_Some (ps_accounts s !! account)))) UnknownAccount;
    _ ← fail_if (bound_elsewhere s client account) AccountInUse;
    fail_if (plays_other s client account) ClientInUse);
  changes (fun s => set_clients (<[client := account]> (ps_clients s)) s).

Definition bind_snapshot (client : Z) (account : AccountId) (snapshot : option AccountSnapshot) : Persist bool :=
  _ ← reads (fun _ => fail_if (match snapshot with
                               | Some snapshot => negb (bool_decide (as_account snapshot = account))
                               | None => false
                               end) InvalidIdentity);
  known ← reads (preflight_binding client account false);
  if (known : bool) then _ ← bind client account; mret true
  else match snapshot with
       | None => mret false
       | Some snapshot => _ ← import snapshot; _ ← bind client account; mret true
       end.

Definition store_admit (client : Z) (account : AccountId) (snapshot : option AccountSnapshot)
    (defaults : option PlayerDataDefaults) : Persist () :=
  bound ← bind_snapshot client account snapshot;
  if (bound : bool) then mret ()
  else
    defaults ← reads (fun s => ok_or MissingDefaults
      (match defaults with Some defaults => Some defaults | None => ps_defaults s end));
    _ ← store_initialize account defaults;
    bind client account.

Definition admit_temporary (client : Z) (account : AccountId) : Persist () :=
  known ← reads (preflight_binding client account true);
  _ ← (if (known : bool) then mret ()
       else
         d ← reads (fun s =>
           d ← first_definition s;
           _ ← validate_buffer_size d (replicate (Z.to_nat PLAYER_DATA_BUFFER_BYTES) (byte_of 0));
           mret d);
         changes (fun s => set_accounts (<[account :=
           mkRecord d (replicate (Z.to_nat PLAYER_DATA_BUFFER_BYTES) (byte_of 0)) fresh_dirty 0 None true
             ratings_default]> (ps_accounts s)) s));
  bind client account.

Definition is_temporary (s : PersistentDataStore) (account : AccountId) : bool :=
  match ps_accounts s !! account with Some record => ar_temporary record | None => false end.

Definition unbind (client : Z) (s : PersistentDataStore) : PersistentDataStore :=
  match ps_clients s !! client with
  | Some account =>
      let s' := set_clients (delete client (ps_clients s)) s in
      if is_temporary s account then set_accounts (delete account (ps_accounts s)) s' else s'
  | None => s
  end.

Definition clear_bindings (s : PersistentDataStore) : PersistentDataStore :=
  mkStore (ps_schemas s) (filter (fun e => ar_temporary e.2 = false) (ps_accounts s)) ∅ (ps_defaults s).

Definition for_new_match (s : PersistentDataStore) : PersistentDataStore := clear_bindings s.

Definition temporary_client (s : PersistentDataStore) (client : Z) : bool :=
  match ps_clients s !! client with Some account => is_temporary s account | None => false end.

(** ** Fields *)

Definition record_of (s : PersistentDataStore) (client : Z) : Result PersistentDataError (AccountId * AccountRecord) :=
  account ← ok_or UnknownClient (ps_clients s !! client);
  record ← ok_or UnknownAccount (ps_accounts s !! account);
  mret (account, record).

Definition store_read (s : PersistentDataStore) (client : Z) (keys : list Key) : Result PersistentDataError SdValue :=
  '(_, r) ← record_of s client;
  l ← field (sd_lookup (ar_definition r) keys);
  field (sd_read (ar_definition r) (ar_bytes r) l).

Definition store_path_type (s : PersistentDataStore) (client : Z) (keys : list Key) : Result PersistentDataError DataType :=
  '(_, r) ← record_of s client;
  field (path_type (ar_definition r) keys).

Definition field_type (s : PersistentDataStore) (client : Z) (keys : list Key) : Result PersistentDataError DataType :=
  '(_, r) ← record_of s client;
  l ← field (sd_lookup (ar_definition r) keys);
  mret (lo_ty l).

Definition store_enum_index (s : PersistentDataStore) (client : Z) (keys : list Key)
    : Result PersistentDataError (option (Z * bool)) :=
  '(_, r) ← record_of s client;
  l ← field (sd_lookup (ar_definition r) keys);
  field (enum_index (ar_definition r) (ar_bytes r) l).

Definition set_buffer (bytes dirty : list byte) (r : AccountRecord) : AccountRecord :=
  mkRecord (ar_definition r) bytes dirty (ar_revision r) (ar_saved_revision r) (ar_temporary r) (ar_skills r).

(** The loop of [write_many]. *)
Fixpoint write_fields (r : AccountRecord) (changed : bool) (fields : list (list Key * SdValue))
    : Result PersistentDataError (AccountRecord * bool) :=
  match fields with
  | [] => Ok (r, changed)
  | (keys, value) :: fields =>
      l ← field (sd_lookup (ar_definition r) keys);
      '(bytes, dirty, now) ← field_write (ar_definition r) (ar_bytes r) (ar_dirty r) l value;
      write_fields (set_buffer bytes dirty r) (changed || now) fields
  end.

Definition next_revision (r : AccountRecord) : Result PersistentDataError Z :=
  ok_or RevisionOverflow (if ar_revision r + 1 <=? u64_max then Some (ar_revision r + 1) else None).

(** On a copy of the record: an error leaves the store alone. *)
Definition write_many (client : Z) (fields : list (list Key * SdValue)) : Persist bool :=
  '(account, updated, changed) ← reads (fun s =>
    '(account, r) ← record_of s client;
    '(updated, changed) ← write_fields r false fields;
    if (changed : bool) then
      revision ← next_revision updated;
      mret (account, set_skills (ar_skills updated) revision updated, true)
    else mret (account, updated, false));
  if (changed : bool) then
    _ ← changes (fun s => set_accounts (<[account := updated]> (ps_accounts s)) s);
    mret true
  else mret false.

Definition store_write (client : Z) (keys : list Key) (value : SdValue) : Persist bool :=
  '(account, updated, changed) ← reads (fun s =>
    '(account, r) ← record_of s client;
    l ← field (sd_lookup (ar_definition r) keys);
    revision ← next_revision r;
    '(bytes, dirty, changed) ← field_write (ar_definition r) (ar_bytes r) (ar_dirty r) l value;
    let r := set_buffer bytes dirty r in
    mret (account, if (changed : bool) then set_skills (ar_skills r) revision r else r, changed));
  _ ← changes (fun s => set_accounts (<[account := updated]> (ps_accounts s)) s);
  mret changed.

(** ** Ratings of the players *)

Variable pair_delta : Z -> Z -> Z -> Z.
Variable ranked_delta : Z -> list (Z * Outcome) -> Z.

Definition skill_result {A} (r : Result SkillRatingError A) : Result PersistentDataError A := map_err SkillFault r.

Definition update_skill (first second : Z) (mode : list byte) (score : Z) : Persist () :=
  '(first, a, second, b) ← reads (fun s =>
    first ← ok_or UnknownClient (ps_clients s !! first);
    second ← ok_or UnknownClient (ps_clients s !! second);
    _ ← fail_if (bool_decide (first = second)) InvalidOpponent;
    a ← ok_or UnknownAccount (ps_accounts s !! first);
    b ← ok_or UnknownAccount (ps_accounts s !! second);
    '(a_skills, b_skills) ← skill_result (updated_pair pair_delta (ar_skills a) (ar_skills b) mode score);
    a_revision ← next_revision a;
    b_revision ← next_revision b;
    mret (first, set_skills a_skills a_revision a, second, set_skills b_skills b_revision b));
  changes (fun s => set_accounts (<[first := a]> (<[second := b]> (ps_accounts s))) s).

(** The players of a ranking that have an account to keep: group and score. *)
Definition participants (s : PersistentDataStore) (ranks : list (Z * (Z * Z)))
    : list (AccountId * AccountRecord * (Z * Z)) :=
  omap (fun e =>
    account ← ps_clients s !! e.1;
    record ← ps_accounts s !! account;
    if ar_temporary record then None else Some (account, record, e.2)) ranks.

Definition outcome_of (score other : Z) : Outcome :=
  match score ?= other with Gt => OutcomeWin | Eq => OutcomeDraw | Lt => OutcomeLoss end.

(** The loop over the participants: the ratings and revisions to store. *)
Fixpoint rank_updates (mode : list byte) (all l : list (AccountId * AccountRecord * (Z * Z)))
    : Result PersistentDataError (list (AccountId * SkillRatings * Z)) :=
  match l with
  | [] => Ok []
  | (account, r, (group, score)) :: l =>
      let opponents := omap (fun o : AccountId * AccountRecord * (Z * Z) =>
        let '(other, other_r, (other_group, other_score)) := o in
        if bool_decide (other = account) || (other_group =? group) then None
        else Some (ar_skills other_r, outcome_of score other_score)) all in
      match opponents with
      | [] => rank_updates mode all l
      | _ =>
          skills ← skill_result (updated_ranked ranked_delta (ar_skills r) mode opponents);
          revision ← next_revision r;
          rest ← rank_updates mode all l;
          mret ((account, skills, revision) :: rest)
      end
  end.

(** The order of the [BTreeMap] of the ranking. *)
Definition rank_le (a b : Z * (Z * Z)) : Prop := a.1 <= b.1.
#[export] Instance rank_le_dec : RelDecision rank_le.
Proof. intros a b. unfold rank_le. apply _. Defined.
Definition rank_list (ranks : gmap Z (Z * Z)) : list (Z * (Z * Z)) := merge_sort rank_le (map_to_list ranks).

(** The loop that stores them, each in the record that is there: [expect] panics without one. *)
Fixpoint write_ranks (updates : list (AccountId * SkillRatings * Z)) : Persist () :=
  match updates with
  | [] => mret ()
  | (account, skills, revision) :: updates =>
      record ← reads (fun s => ok_or PdPanic (ps_accounts s !! account));
      _ ← changes (fun s => set_accounts (<[account := set_skills skills revision record]> (ps_accounts s)) s);
      write_ranks updates
  end.

Definition submit_ranks (mode : list byte) (ranks : gmap Z (Z * Z)) : Persist nat :=
  updates ← reads (fun s => let all := participants s (rank_list ranks) in rank_updates mode all all);
  _ ← write_ranks updates;
  mret (length updates).

(** ** Saving *)

Definition snapshot (s : PersistentDataStore) (account : AccountId) : option AccountSnapshot :=
  r ← ps_accounts s !! account;
  Some (mkSnapshot account (ar_revision r) (df_version (ar_definition r)) (df_checksum (ar_definition r))
    (ar_bytes r) (ar_skills r)).

Definition is_pending (r : AccountRecord) : bool :=
  negb (ar_temporary r) && negb (bool_decide (ar_saved_revision r = Some (ar_revision r))).

Definition pending (s : PersistentDataStore) : list AccountSnapshot :=
  omap (fun e : AccountId * AccountRecord => if is_pending e.2 then snapshot s e.1 else None) (account_list (ps_accounts s)).

Definition acknowledge_saved (account : AccountId) (revision : Z) (s : PersistentDataStore)
    : PersistentDataStore * bool :=
  match ps_accounts s !! account with
  | None => (s, false)
  | Some r =>
      if ar_temporary r || negb (ar_revision r =? revision) then (s, false)
      else
        let dirty := replicate (length (ar_dirty r)) (byte_of 0) in
        (set_accounts (<[account := set_saved (Some revision) (set_buffer (ar_bytes r) dirty r)]> (ps_accounts s)) s, true)
  end.
End Accounts.
