(* ===== verification/PersistentDataProofs.v ===== *)
(** * The operations on the players' saved data

    Every operation on the store, on every input, either moves it by a few elementary steps or
    reports an error and leaves it alone; it never panics.  The steps keep the store consistent,
    and let an account change only with its revision. *)

From S2P Require Export StructuredDataWrite PersistentData.

#[local] Open Scope Z_scope.

(** ** The invariant *)

Definition good_definition (d : Definition_) : Prop := typed d /\ sd_validate d = Ok ().

Record record_ok (r : AccountRecord) : Prop := {
  ro_definition : good_definition (ar_definition r);
  ro_size : 8 <= df_size (ar_definition r) <= PLAYER_DATA_BUFFER_BYTES;
  ro_bytes : zlen (ar_bytes r) = PLAYER_DATA_BUFFER_BYTES;
  ro_dirty : zlen (ar_dirty r) = div_ceil PLAYER_DATA_BUFFER_BYTES 8;
  ro_saved n : ar_saved_revision r = Some n -> n <= ar_revision r;
}.

Definition no_account : AccountId := replicate 16 (byte_of 0).

Record store_ok (s : PersistentDataStore) : Prop := {
  so_schemas name set d : ps_schemas s !! name = Some set -> d ∈ set -> good_definition d;
  so_records a r : ps_accounts s !! a = Some r -> record_ok r /\ a <> no_account;
  so_clients c a : ps_clients s !! c = Some a -> is_Some (ps_accounts s !! a);
  so_injective c1 c2 a : ps_clients s !! c1 = Some a -> ps_clients s !! c2 = Some a -> c1 = c2;
  so_temporary a : is_temporary s a = true -> exists c, ps_clients s !! c = Some a;
}.

(** What an account holds: its buffer, the version of its layout, its ratings. *)
Definition content (r : AccountRecord) : list byte * Z * Z * SkillRatings :=
  (ar_bytes r, df_version (ar_definition r), df_checksum (ar_definition r), ar_skills r).

(** A record after a step: a changed content has a higher revision. *)
Definition follows (r r' : AccountRecord) : Prop :=
  ar_temporary r' = ar_temporary r /\
  (ar_revision r < ar_revision r' \/ (ar_revision r = ar_revision r' /\ content r = content r')).

(** ** Elementary steps; [R] holds of the accounts that may be replaced *)

Inductive moves (R : AccountId -> Prop) : PersistentDataStore -> PersistentDataStore -> Prop :=
| mv_same s : moves R s s
| mv_then s1 s2 s3 : moves R s1 s2 -> moves R s2 s3 -> moves R s1 s3
| mv_fresh s a r : ps_accounts s !! a = None -> record_ok r -> a <> no_account -> ar_temporary r = false ->
    moves R s (set_accounts (<[a := r]> (ps_accounts s)) s)
| mv_update s a r r' : ps_accounts s !! a = Some r -> record_ok r' -> follows r r' ->
    moves R s (set_accounts (<[a := r']> (ps_accounts s)) s)
| mv_replace s a r : R a -> (forall c, ps_clients s !! c <> Some a) -> record_ok r -> a <> no_account -> ar_temporary r = false ->
    moves R s (set_accounts (<[a := r]> (ps_accounts s)) s)
| mv_bind s c a : is_Some (ps_accounts s !! a) -> bound_elsewhere s c a = false -> plays_other s c a = false ->
    moves R s (set_clients (<[c := a]> (ps_clients s)) s)
| mv_temporary s c a r : ps_accounts s !! a = None -> record_ok r -> a <> no_account -> ar_temporary r = true ->
    bound_elsewhere s c a = false -> plays_other s c a = false ->
    moves R s (set_clients (<[c := a]> (ps_clients s)) (set_accounts (<[a := r]> (ps_accounts s)) s))
| mv_unbind s c : moves R s (unbind c s)
| mv_clear s : moves R s (clear_bindings s)
| mv_defaults s o : moves R s (mkStore (ps_schemas s) (ps_accounts s) (ps_clients s) o)
| mv_schemas s schemas : (forall name set d, schemas !! name = Some set -> d ∈ set -> good_definition d) ->
    moves R s (mkStore schemas (ps_accounts s) (ps_clients s) (ps_defaults s)).

Lemma bound_elsewhere_false s c a :
  bound_elsewhere s c a = false <-> forall c', ps_clients s !! c' = Some a -> c' = c.
Proof.
  unfold bound_elsewhere. rewrite existsb_false. split.
  - intros H c' Hc. specialize (H (c', a)). rewrite elem_of_map_to_list in H. specialize (H Hc). cbn in H.
    rewrite bool_decide_true, andb_true_r in H by done. apply negb_false_iff in H. lia.
  - intros H [c' a'] Hin%elem_of_map_to_list. cbn. destruct (bool_decide_reflect (a' = a)) as [->|]; [|apply andb_false_r].
    rewrite (H _ Hin), Z.eqb_refl. done.
Qed.

Lemma plays_other_false s c a :
  plays_other s c a = false <-> forall a', ps_clients s !! c = Some a' -> a' = a.
Proof.
  unfold plays_other. destruct (ps_clients s !! c) as [id|]; [|naive_solver].
  rewrite negb_false_iff, bool_decide_eq_true. naive_solver.
Qed.

Lemma bound_to_false s a : bound_to s a = false <-> forall c, ps_clients s !! c <> Some a.
Proof.
  unfold bound_to. rewrite existsb_false. split.
  - intros H c Hc. specialize (H (c, a)). rewrite elem_of_map_to_list in H. specialize (H Hc). cbn in H.
    by rewrite bool_decide_true in H.
  - intros H [c a'] Hin%elem_of_map_to_list. cbn. apply bool_decide_false. intros ->. by apply (H c).
Qed.

(** A record is put at [a], not temporary unless [a] was or is bound. *)
Lemma record_insert_ok s a r :
  store_ok s -> record_ok r -> a <> no_account ->
  (ar_temporary r = true -> exists c, ps_clients s !! c = Some a) ->
  store_ok (set_accounts (<[a := r]> (ps_accounts s)) s).
Proof.
  intros [] Hr Ha Ht. split; cbn [set_accounts ps_schemas ps_accounts ps_clients].
  - done.
  - intros b q. destruct (decide (a = b)) as [<-|Hne]; [rewrite lookup_insert_eq; by intros [= <-]|].
    rewrite lookup_insert_ne by done. eauto.
  - intros c b Hc. destruct (decide (a = b)) as [<-|Hne]; [by rewrite lookup_insert_eq|].
    rewrite lookup_insert_ne by done. eauto.
  - done.
  - intros b. unfold is_temporary. cbn [set_accounts ps_accounts].
    destruct (decide (a = b)) as [<-|Hne]; [by rewrite lookup_insert_eq|].
    rewrite lookup_insert_ne by done. apply so_temporary0.
Qed.

Lemma bind_ok s c a :
  store_ok s -> is_Some (ps_accounts s !! a) -> bound_elsewhere s c a = false -> plays_other s c a = false ->
  store_ok (set_clients (<[c := a]> (ps_clients s)) s).
Proof.
  intros [] Ha Hels Hplays. pose proof (proj1 (bound_elsewhere_false s c a) Hels) as Helse. pose proof (proj1 (plays_other_false s c a) Hplays) as Hother.
  split; cbn [set_clients ps_schemas ps_accounts ps_clients]; try done.
  - intros c' b. destruct (decide (c = c')) as [<-|Hne]; [rewrite lookup_insert_eq; by intros [= <-]|].
    rewrite lookup_insert_ne by done. eauto.
  - intros c1 c2 b. destruct (decide (c = c1)) as [<-|H1], (decide (c = c2)) as [<-|H2];
      rewrite ?lookup_insert_eq, ?lookup_insert_ne by done; try done.
    + intros [= <-] H. symmetry. by apply Helse.
    + intros H [= <-]. by apply Helse.
    + eauto.
  - intros b Hb. destruct (so_temporary0 b Hb) as [c' Hc']. destruct (decide (c = c')) as [<-|Hne].
    + exists c. rewrite lookup_insert_eq. f_equal. symmetry. by apply Hother.
    + exists c'. by rewrite lookup_insert_ne.
Qed.

Lemma unbind_ok s c : store_ok s -> store_ok (unbind c s).
Proof.
  intros Hok. unfold unbind. destruct (ps_clients s !! c) as [a|] eqn:Ec; [|done]. pose proof Hok as [].
  assert (Hcl : forall c' b, delete c (ps_clients s) !! c' = Some b -> c' <> c /\ ps_clients s !! c' = Some b)
    by (intros c' b Hb%lookup_delete_Some; naive_solver).
  destruct (is_temporary s a) eqn:Et; split; cbn [set_accounts set_clients ps_schemas ps_accounts ps_clients]; try done.
  - intros b r Hr%lookup_delete_Some. naive_solver.
  - intros c' b [Hne Hb]%Hcl. rewrite lookup_delete_ne; [eauto|]. intros <-. by apply Hne, (so_injective0 c' c a).
  - intros c1 c2 b [_ H1]%Hcl [_ H2]%Hcl. eauto.
  - intros b Hb. unfold is_temporary in Hb. cbn [set_accounts ps_accounts] in Hb.
    destruct (delete a (ps_accounts s) !! b) as [r|] eqn:Er; [|done]. apply lookup_delete_Some in Er as [Hne Er].
    destruct (so_temporary0 b) as [c' Hc']; [unfold is_temporary; by rewrite Er|]. exists c'.
    rewrite lookup_delete_ne; [done|]. intros <-. congruence.
  - intros c' b [Hne Hb]%Hcl. eauto.
  - intros c1 c2 b [_ H1]%Hcl [_ H2]%Hcl. eauto.
  - intros b Hb. change (is_temporary s b = true) in Hb. destruct (so_temporary0 b Hb) as [c' Hc']. exists c'.
    rewrite lookup_delete_ne; [done|]. intros <-. congruence.
Qed.

Lemma clear_ok s : store_ok s -> store_ok (clear_bindings s).
Proof.
  intros []. split; cbn [clear_bindings ps_schemas ps_accounts ps_clients]; try done.
  - intros a r Hr%map_lookup_filter_Some. naive_solver.
  - intros a Ha. unfold is_temporary in Ha. cbn [clear_bindings ps_accounts] in Ha.
    destruct (filter _ _ !! a) as [r|] eqn:Er; [|done]. apply map_lookup_filter_Some in Er as [_ Er]. cbn in Er. congruence.
Qed.

Lemma moves_ok R s s' : moves R s s' -> store_ok s -> store_ok s'.
Proof.
  induction 1 as [s|s1 s2 s3 _ IH1 _ IH2|s a r Hn Hr Ha Ht|s a r r' Hr Hr' [Ht _]|s a r HR Hc Hr Ha Ht|s c a Ha H1 H2
                 |s c a r Hn Hr Ha Ht H1 H2|s c|s|s o|s schemas Hs]; intros Hok.
  - done.
  - auto.
  - apply record_insert_ok; [done..|congruence].
  - destruct (so_records _ Hok _ _ Hr). apply record_insert_ok; [done..|]. intros Ht'. apply (so_temporary _ Hok). unfold is_temporary.
    by rewrite Hr, <- Ht.
  - apply record_insert_ok; [done..|congruence].
  - by apply bind_ok.
  - pose proof (proj1 (bound_elsewhere_false s c a) H1) as Helse. pose proof (proj1 (plays_other_false s c a) H2) as Hother.
    assert (Hfree : forall c', ps_clients s !! c' <> Some a).
    { intros c' Hc'. destruct (so_clients _ Hok _ _ Hc'). congruence. }
    set (s1 := set_clients (<[c := a]> (ps_clients s)) s).
    destruct Hok as [Hsch Hrec Hcl Hinj Htmp]. split; cbn [set_accounts set_clients ps_schemas ps_accounts ps_clients].
    + done.
    + intros b q. destruct (decide (a = b)) as [<-|Hne]; [rewrite lookup_insert_eq; by intros [= <-]|].
      rewrite lookup_insert_ne by done. eauto.
    + intros c' b. destruct (decide (c = c')) as [<-|Hne].
      * rewrite lookup_insert_eq. intros [= <-]. by rewrite lookup_insert_eq.
      * rewrite lookup_insert_ne by done. intros Hb. rewrite lookup_insert_ne; [eauto|]. intros <-. by apply (Hfree c').
    + intros c1 c2 b. destruct (decide (c = c1)) as [<-|], (decide (c = c2)) as [<-|];
        rewrite ?lookup_insert_eq, ?lookup_insert_ne by done; try done.
      * intros [= <-] Hb. by destruct (Hfree c2).
      * intros Hb [= <-]. by destruct (Hfree c1).
      * eauto.
    + intros b Hb. unfold is_temporary in Hb. cbn [set_accounts set_clients ps_accounts] in Hb.
      destruct (decide (a = b)) as [<-|Hne]; [exists c; by rewrite lookup_insert_eq|].
      rewrite lookup_insert_ne in Hb by done. destruct (Htmp b Hb) as [c' Hc']. exists c'.
      rewrite lookup_insert_ne; [done|]. intros <-. by apply Hne, eq_sym, Hother.
  - by apply unbind_ok.
  - by apply clear_ok.
  - destruct Hok. by split.
  - destruct Hok. by split.
Qed.

(** ** The history of an account *)

(** An account that is kept, and what became of it. *)
Definition evolves (a : AccountId) (s s' : PersistentDataStore) : Prop :=
  forall r, ps_accounts s !! a = Some r -> ar_temporary r = false ->
    exists r', ps_accounts s' !! a = Some r' /\ follows r r'.

Lemma follows_refl r : follows r r.
Proof. split; [done|by right]. Qed.

Lemma follows_trans r1 r2 r3 : follows r1 r2 -> follows r2 r3 -> follows r1 r3.
Proof. intros [H1 H2] [H3 H4]. split; [congruence|]. destruct H2 as [?|[? ?]], H4 as [?|[? ?]]; [left; lia..|right; split; congruence]. Qed.

Lemma moves_evolves R a s s' : moves R s s' -> ~ R a -> evolves a s s'.
Proof.
  intros Hm Ha. induction Hm as [s|s1 s2 s3 _ IH1 _ IH2|s b r Hn Hr Hb Ht|s b q q' Hq Hq' Hf|s b r HR Hc Hr Hb Ht|s c b Hb H1 H2
                 |s c b r Hn Hr Hb Ht H1 H2|s c|s|s o|s schemas Hs]; intros r0 Hr0 Ht0; try (exists r0; split; [done|apply follows_refl]).
  - destruct (IH1 r0 Hr0 Ht0) as (r1 & Hr1 & F1). destruct (IH2 r1 Hr1) as (r2 & Hr2 & F2); [destruct F1; congruence|].
    exists r2. split; [done|]. by eapply follows_trans.
  - exists r0. split; [|apply follows_refl]. cbn. rewrite lookup_insert_ne; [done|congruence].
  - cbn. destruct (decide (b = a)) as [->|Hne].
    + exists q'. rewrite lookup_insert_eq. split; [done|]. congruence.
    + exists r0. rewrite lookup_insert_ne by done. split; [done|apply follows_refl].
  - exists r0. split; [|apply follows_refl]. cbn. rewrite lookup_insert_ne; [done|congruence].
  - exists r0. split; [|apply follows_refl]. cbn. rewrite lookup_insert_ne; [done|congruence].
  - exists r0. split; [|apply follows_refl]. unfold unbind. destruct (ps_clients s !! c) as [b|]; [|done].
    destruct (is_temporary s b) eqn:Eb; [|done]. cbn. rewrite lookup_delete_ne; [done|]. intros ->.
    unfold is_temporary in Eb. rewrite Hr0 in Eb. congruence.
  - exists r0. split; [|apply follows_refl]. cbn. by apply map_lookup_filter_Some.
Qed.

(** ** Every operation moves the store, or fails and leaves it alone *)

Definition does {A} (R : AccountId -> Prop) (m : Persist A) (s : PersistentDataStore) : Prop :=
  match m s with (s', Ok _) => moves R s s' | (s', Err e) => s' = s /\ e <> PdPanic end.

Lemma does_bind_reads {A B} R (f : PersistentDataStore -> Result PersistentDataError A) (k : A -> Persist B) s :
  match f s with Ok a => does R (k a) s | Err e => e <> PdPanic end -> does R (a ← reads f; k a) s.
Proof. unfold does. unfold mbind, persist_bind, reads. destruct (f s); [|done]. done. Qed.

Lemma does_changes R f s : moves R s (f s) -> does R (changes f) s.
Proof. done. Qed.

(** Checks that cannot panic. *)
Definition quiet {A} (r : Result PersistentDataError A) (Q : A -> Prop) : Prop :=
  match r with Ok a => Q a | Err e => e <> PdPanic end.

Lemma quiet_bind {A B} (r : Result PersistentDataError A) (k : A -> Result PersistentDataError B) (Q : A -> Prop) (P : B -> Prop) :
  quiet r Q -> (forall a, Q a -> quiet (k a) P) -> quiet (a ← r; k a) P.
Proof. destruct r; cbn; auto. Qed.

Lemma quiet_fail_if b e (P : () -> Prop) : e <> PdPanic -> (b = false -> P ()) -> quiet (fail_if b e) P.
Proof. destruct b; cbn; auto. Qed.

Lemma quiet_ok_or {A} e (o : option A) : e <> PdPanic -> quiet (ok_or e o) (fun a => o = Some a).
Proof. by destruct o. Qed.

Lemma quiet_field {A} (r : Result SdError A) : quiet (field r) (fun a => r = Ok a).
Proof. by destruct r. Qed.

Lemma quiet_mono {A} (r : Result PersistentDataError A) (P Q : A -> Prop) : quiet r P -> (forall a, P a -> Q a) -> quiet r Q.
Proof. destruct r; cbn; auto. Qed.

(** What a lookup and a write keep of a record. *)
Lemma field_write_quiet d data dirty keys l value :
  good_definition d -> sd_lookup d keys = Ok l -> df_size d <= zlen data -> df_size d <= 8 * zlen dirty ->
  quiet (field_write d data dirty l value)
    (fun out => zlen out.1.1 = zlen data /\ zlen out.1.2 = zlen dirty /\ (out.2 = false -> out.1.1 = data)).
Proof.
  intros [Ht Hv] Hl Hdata Hdirty. pose proof (sd_lookup_spec d keys Ht Hv) as H. rewrite Hl in H.
  destruct H as (bits & _ & _ & Ho & _). pose proof (sd_write_total d data dirty l value Ho Hdata Hdirty) as Hw.
  unfold field_write. destruct (sd_write d data dirty l value) as [[[[data' dirty'] changed]|e]|]; [|done|done].
  destruct Hw as (H1 & H2 & H3). unfold zlen. cbn. split; [lia|]. split; [lia|]. apply H3.
Qed.

Lemma record_room r : record_ok r -> df_size (ar_definition r) <= zlen (ar_bytes r) /\ df_size (ar_definition r) <= 8 * zlen (ar_dirty r).
Proof.
  intros [_ Hs Hb Hd _]. rewrite Hb, Hd. change (div_ceil PLAYER_DATA_BUFFER_BYTES 8) with 1024.
  unfold PLAYER_DATA_BUFFER_BYTES in *. lia.
Qed.

Lemma identity_quiet a : quiet (validate_identity a) (fun _ => a <> no_account).
Proof. apply quiet_fail_if; [done|]. intros H%bool_decide_eq_false. done. Qed.

Lemma buffer_size_quiet d bytes :
  quiet (validate_buffer_size d bytes) (fun _ => zlen bytes = PLAYER_DATA_BUFFER_BYTES /\ 8 <= df_size d <= PLAYER_DATA_BUFFER_BYTES).
Proof.
  apply quiet_fail_if; [done|]. intros [H1 H2]%orb_false_iff. apply negb_false_iff in H1. apply negb_false_iff in H2. lia.
Qed.

Lemma buffer_quiet d bytes :
  quiet (validate_buffer d bytes) (fun _ => zlen bytes = PLAYER_DATA_BUFFER_BYTES /\ 8 <= df_size d <= PLAYER_DATA_BUFFER_BYTES).
Proof.
  unfold validate_buffer. eapply quiet_bind; [apply buffer_size_quiet|cbv beta]. intros [] H. by apply quiet_fail_if.
Qed.

Lemma select_quiet set version checksum :
  quiet (select_definition set version checksum)
    (fun d => d ∈ set /\ df_version d = version /\ df_checksum d = checksum).
Proof.
  unfold select_definition. eapply quiet_mono; [by apply quiet_ok_or|]. intros d [Hin H]%find_some.
  split; [by apply list_elem_of_In|lia].
Qed.

Lemma fresh_dirty_length : zlen fresh_dirty = div_ceil PLAYER_DATA_BUFFER_BYTES 8.
Proof. reflexivity. Qed.

Lemma import_cases s snapshot :
  store_ok s ->
  (exists e, import snapshot s = (s, Err e) /\ e <> PdPanic) \/
  exists r, import snapshot s = (set_accounts (<[as_account snapshot := r]> (ps_accounts s)) s, Ok ()) /\
    ps_accounts s !! as_account snapshot = None /\ record_ok r /\ as_account snapshot <> no_account /\
    ar_temporary r = false /\ content r = (as_bytes snapshot, as_version snapshot, as_checksum snapshot, as_skills snapshot) /\
    ar_revision r = as_revision snapshot.
Proof.
  intros Hok. unfold import, mbind, persist_bind, reads, changes.
  assert (Hq : quiet (import_check snapshot s) (fun d => as_account snapshot <> no_account /\ ps_accounts s !! as_account snapshot = None /\
      good_definition d /\ df_version d = as_version snapshot /\ df_checksum d = as_checksum snapshot /\
      zlen (as_bytes snapshot) = PLAYER_DATA_BUFFER_BYTES /\ 8 <= df_size d <= PLAYER_DATA_BUFFER_BYTES)).
  { unfold import_check. eapply quiet_bind; [apply identity_quiet|cbv beta]. intros [] Ha.
    eapply quiet_bind; [apply (quiet_fail_if _ _ (fun _ => ps_accounts s !! as_account snapshot = None)); [done|]|].
    { intros H%bool_decide_eq_false. destruct (ps_accounts s !! as_account snapshot); [by destruct H|done]. }
    intros [] Hfree. eapply quiet_bind; [by apply quiet_ok_or|cbv beta]. intros set Hset.
    eapply quiet_bind; [apply select_quiet|cbv beta]. intros d (Hin & Hv & Hc).
    eapply quiet_bind; [apply buffer_quiet|cbv beta]. intros [] [Hb Hs]. cbn.
    split; [done|]. split; [done|]. split; [exact (so_schemas s Hok _ _ _ Hset Hin)|]. done. }
  match type of Hq with quiet ?m _ => destruct m as [d|e] end; [right|left; eexists; split; [reflexivity|done]].
  destruct Hq as (Ha & Hfree & Hd & Hv & Hc & Hb & Hs). eexists. split; [reflexivity|].
  split; [done|]. split; [split; try done; by intros n [= <-]|]. split; [done|]. split; [done|]. split; [|done].
  unfold content. cbn. congruence.
Qed.

Lemma import_does R s snapshot : store_ok s -> does R (import snapshot) s.
Proof.
  intros Hok. unfold does. destruct (import_cases s snapshot Hok) as [(e & -> & ?)|(r & -> & ? & ? & ? & ? & _)]; [done|].
  by apply mv_fresh.
Qed.

(** A binding that the checks before it have cleared. *)
Lemma bind_clear s c a :
  is_Some (ps_accounts s !! a) -> bound_elsewhere s c a = false -> plays_other s c a = false ->
  bind c a s = (set_clients (<[c := a]> (ps_clients s)) s, Ok ()).
Proof.
  intros Ha H1 H2. unfold bind. unfold mbind at 1. unfold persist_bind at 1, reads, changes.
  rewrite bool_decide_true by done. cbn [negb fail_if mbind result_bind]. rewrite H1. cbn [fail_if mbind result_bind]. by rewrite H2.
Qed.

Lemma bind_does R s c a : does R (bind c a) s.
Proof.
  unfold bind. apply does_bind_reads. unfold fail_if.
  destruct (bool_decide_reflect (is_Some (ps_accounts s !! a))); cbn [negb mbind result_bind]; [|done].
  destruct (bound_elsewhere s c a) eqn:H1; cbn [mbind result_bind]; [done|].
  destruct (plays_other s c a) eqn:H2; [done|]. apply does_changes. by apply mv_bind.
Qed.

Lemma preflight_quiet s c a temporary :
  quiet (preflight_binding c a temporary s) (fun known =>
    a <> no_account /\ bound_elsewhere s c a = false /\ plays_other s c a = false /\
    if known then exists r, ps_accounts s !! a = Some r /\ ar_temporary r = temporary else ps_accounts s !! a = None).
Proof.
  unfold preflight_binding. eapply quiet_bind; [apply identity_quiet|cbv beta]. intros [] Ha.
  eapply quiet_bind; [by apply (quiet_fail_if _ _ (fun _ => plays_other s c a = false))|cbv beta]. intros [] H1.
  eapply quiet_bind; [by apply (quiet_fail_if _ _ (fun _ => bound_elsewhere s c a = false))|cbv beta]. intros [] H2.
  destruct (ps_accounts s !! a) as [r|]; [|done].
  eapply quiet_bind; [apply (quiet_fail_if _ _ (fun _ => ar_temporary r = temporary)); [done|intros H%negb_false_iff; by apply eqb_true_iff]|].
  intros [] H3. cbn [quiet mret result_ret]. eauto 10.
Qed.

Lemma moves_set R s s' a r r' :
  ps_accounts s !! a = Some r -> record_ok r' -> follows r r' ->
  s' = set_accounts (<[a := r']> (ps_accounts s)) s -> moves R s s'.
Proof. intros ? ? ? ->. by apply (mv_update R s a r r'). Qed.

Lemma set_accounts_twice m1 m2 s : set_accounts m1 (set_accounts m2 s) = set_accounts m1 s.
Proof. done. Qed.

Lemma replace_unbound_does (R : AccountId -> Prop) s snapshot :
  store_ok s -> R (as_account snapshot) -> does R (replace_unbound snapshot) s.
Proof.
  intros Hok HR. unfold does, replace_unbound. destruct (bound_to s (as_account snapshot)) eqn:Eb; [done|].
  pose proof (proj1 (bound_to_false _ _) Eb) as Hfree.
  set (s1 := set_accounts (delete (as_account snapshot) (ps_accounts s)) s).
  assert (Hok1 : store_ok s1).
  { destruct Hok as [Hsch Hrec Hcl Hinj Htmp]. split; cbn [set_accounts s1 ps_schemas ps_accounts ps_clients]; try done.
    - intros b r Hr%lookup_delete_Some. naive_solver.
    - intros c b Hc. rewrite lookup_delete_ne; [eauto|]. intros <-. by apply (Hfree c).
    - intros b Hb. unfold is_temporary in Hb. cbn in Hb. destruct (delete _ _ !! b) as [r|] eqn:Er; [|done].
      apply lookup_delete_Some in Er as [_ Er]. apply Htmp. unfold is_temporary. by rewrite Er. }
  destruct (import_cases s1 snapshot Hok1) as [(e & -> & ?)|(r & -> & _ & Hr & Ha & Ht & _)]; [done|].
  change (moves R s (set_accounts (<[as_account snapshot := r]> (delete (as_account snapshot) (ps_accounts s))) s)).
  rewrite insert_delete_eq. by apply mv_replace.
Qed.

Lemma create_does R s a version checksum bytes : store_ok s -> does R (create a version checksum bytes) s.
Proof.
  intros Hok. unfold create. apply does_bind_reads. unfold fail_if.
  destruct (bool_decide _); [done|].
  unfold does. unfold mbind, persist_bind at 1.
  destruct (import_cases s (mkSnapshot a 0 version checksum bytes ratings_default) Hok) as [(e & -> & ?)|(r & -> & Hn & Hr & Ha & Ht & Hc & _)]; [done|].
  cbn [as_account] in *. unfold persist_bind, reads, changes. cbn [set_accounts ps_accounts]. rewrite lookup_insert_eq. cbn [ok_or].
  eapply mv_then; [by apply (mv_fresh R s a r)|].
  apply (moves_set R _ _ a r (set_saved None r)); [cbn; by rewrite lookup_insert_eq| | |done].
  - destruct Hr. by split.
  - split; [done|]. right. done.
Qed.

Lemma zlen_stamped d : zlen (stamped d) = PLAYER_DATA_BUFFER_BYTES.
Proof. unfold stamped. by rewrite !zlen_app, !zlen_le_bytes. Qed.

Section Operations.
Context (parse_f32 : list byte -> option Z).

Definition buffers_ok (d : Definition_) (data dirty : list byte) : Prop :=
  good_definition d /\ df_size d <= PLAYER_DATA_BUFFER_BYTES /\
  zlen data = PLAYER_DATA_BUFFER_BYTES /\ zlen dirty = div_ceil PLAYER_DATA_BUFFER_BYTES 8.

Lemma buffers_write d data dirty keys l value :
  buffers_ok d data dirty -> sd_lookup d keys = Ok l ->
  quiet (field_write d data dirty l value) (fun out => buffers_ok d out.1.1 out.1.2).
Proof.
  intros (Hd & Hs & Hb & Hdi) Hl. eapply quiet_mono; [apply (field_write_quiet d data dirty keys l value Hd Hl)|].
  - lia.
  - rewrite Hdi. change (div_ceil PLAYER_DATA_BUFFER_BYTES 8) with 1024. unfold PLAYER_DATA_BUFFER_BYTES in *. lia.
  - intros [[data' dirty'] changed] (H1 & H2 & _). cbn [fst snd] in *. unfold buffers_ok.
    split; [done|]. split; [done|]. split; congruence.
Qed.

Lemma class_names_quiet d names : forall data dirty i,
  buffers_ok d data dirty -> quiet (write_class_names d data dirty i names) (fun out => buffers_ok d out.1 out.2).
Proof.
  induction names as [|name names IH]; intros data dirty i Hb; cbn [write_class_names]; [done|].
  eapply quiet_bind; [apply quiet_field|cbv beta]. intros l Hl.
  eapply quiet_bind; [by eapply buffers_write|cbv beta]. intros [[data' dirty'] changed] Hb'. by apply IH.
Qed.

Lemma command_quiet d data dirty command :
  buffers_ok d data dirty -> quiet (run_command parse_f32 d data dirty command) (fun out => buffers_ok d out.1 out.2).
Proof.
  intros Hb. destruct command as [|name rest]; cbn [run_command]; [done|].
  eapply quiet_bind; [by apply (quiet_fail_if _ _ (fun _ => True))|cbv beta]. intros [] _.
  assert (Hl : quiet (field (defaults_lookup d (removelast rest))) (fun l => exists keys, sd_lookup d keys = Ok l)).
  { unfold defaults_lookup. destruct (defaults_keys d [] (removelast rest)) as [keys|e]; [|done]. cbn [mbind result_bind].
    destruct (sd_lookup d keys) as [l|e] eqn:E; cbn; [by exists keys|done]. }
  eapply quiet_bind; [exact Hl|cbv beta]. intros l [keys Hkeys].
  assert (Hv : quiet (default_value parse_f32 (lo_ty l) (c_prefix (List.last rest []))) (fun _ => True)).
  { destruct (lo_ty l); cbn; try done; try (by destruct (parse_i32 _)). by destruct (parse_f32 _). }
  eapply quiet_bind; [exact Hv|cbv beta]. intros value _.
  eapply quiet_bind; [by eapply buffers_write|cbv beta]. intros [[data' dirty'] changed] Hb'. done.
Qed.

Lemma commands_quiet d cmds : forall data dirty,
  buffers_ok d data dirty -> quiet (run_commands parse_f32 d data dirty cmds) (fun out => buffers_ok d out.1 out.2).
Proof.
  induction cmds as [|command cmds IH]; intros data dirty Hb; cbn [run_commands]; [done|].
  eapply quiet_bind; [by apply command_quiet|cbv beta]. intros [data' dirty'] Hb'. by apply IH.
Qed.

Lemma initialize_quiet d defaults :
  good_definition d -> quiet (initialize parse_f32 d defaults) (fun _ => True).
Proof.
  intros Hd. unfold initialize.
  eapply quiet_bind; [apply (quiet_fail_if _ _ (fun _ => df_size d <= PLAYER_DATA_BUFFER_BYTES)); [done|]|].
  { intros H%negb_false_iff. lia. }
  intros [] Hs. eapply quiet_bind; [apply class_names_quiet; split; [done|split; [done|split; [apply zlen_stamped|reflexivity]]]|].
  intros [data dirty] Hb. cbn [fst snd] in Hb.
  eapply quiet_bind; [by instantiate (1 := fun _ => True); destruct (commands _)|cbv beta]. intros cmds _.
  eapply quiet_bind; [by apply commands_quiet|]. by intros [data' dirty'] _.
Qed.

Lemma first_definition_quiet s : store_ok s -> quiet (first_definition s) good_definition.
Proof.
  intros Hok. unfold first_definition. eapply quiet_bind; [by apply quiet_ok_or|cbv beta]. intros set Hset.
  destruct set as [|d set]; [done|]. cbn. apply (so_schemas s Hok _ _ _ Hset). left.
Qed.

Lemma store_initialize_does R s a defaults : store_ok s -> does R (store_initialize parse_f32 a defaults) s.
Proof.
  intros Hok. unfold store_initialize. apply does_bind_reads.
  assert (Hq : forall k : Definition_ * list byte -> Prop, (forall x, k x) -> quiet
    (_ ← validate_identity a; _ ← fail_if (bool_decide (is_Some (ps_accounts s !! a))) AccountInUse;
     d ← first_definition s; bytes ← initialize parse_f32 d defaults; mret (d, bytes)) k).
  { intros k Hk. eapply quiet_bind; [apply identity_quiet|cbv beta]. intros [] _.
    eapply quiet_bind; [by apply (quiet_fail_if _ _ (fun _ => True))|cbv beta]. intros [] _.
    eapply quiet_bind; [by apply first_definition_quiet|cbv beta]. intros d Hd.
    eapply quiet_bind; [by apply initialize_quiet|cbv beta]. intros bytes _. apply Hk. }
  specialize (Hq (fun _ => True) (fun _ => I)). unfold quiet in Hq.
  match goal with |- match ?m with _ => _ end => destruct m as [[d bytes]|e] end; [by apply create_does|done].
Qed.

Lemma store_initialize_binds s a defaults s' :
  store_ok s -> store_initialize parse_f32 a defaults s = (s', Ok ()) ->
  is_Some (ps_accounts s' !! a) /\ ps_clients s' = ps_clients s.
Proof.
  intros Hok. unfold store_initialize. unfold mbind at 1, persist_bind at 1, reads.
  match goal with |- context [match ?m with _ => _ end] => destruct m as [[d bytes]|e] end; [|done].
  unfold create. unfold mbind, persist_bind, reads. destruct (fail_if _ _); [|done].
  destruct (import_cases s (mkSnapshot a 0 (df_version d) (df_checksum d) bytes ratings_default) Hok)
    as [(e & -> & ?)|(r & -> & _)]; [done|].
  unfold changes. cbn. rewrite lookup_insert_eq. cbn. intros [= <-]. cbn. by rewrite lookup_insert_eq.
Qed.

Lemma moves_weaken (P Q : AccountId -> Prop) s s' : moves P s s' -> (forall a, P a -> Q a) -> moves Q s s'.
Proof.
  induction 1; intros HPQ;
    [apply mv_same|eapply mv_then|eapply mv_fresh|eapply mv_update|eapply mv_replace|eapply mv_bind|eapply mv_temporary
    |apply mv_unbind|apply mv_clear|apply mv_defaults|eapply mv_schemas]; eauto.
Qed.

Lemma does_bind_ret {A B} R (m : Persist A) (f : A -> B) s : does R m s -> does R (a ← m; mret (f a)) s.
Proof. unfold does, mbind, persist_bind. destruct (m s) as [s' [a|e]]; done. Qed.

Lemma bind_snapshot_does R s c a snapshot :
  store_ok s ->
  match bind_snapshot c a snapshot s with
  | (s', Ok true) => moves R s s'
  | (s', Ok false) => s' = s /\ a <> no_account /\ bound_elsewhere s c a = false /\ plays_other s c a = false /\ ps_accounts s !! a = None
  | (s', Err e) => s' = s /\ e <> PdPanic
  end.
Proof.
  intros Hok. unfold bind_snapshot. unfold mbind, persist_bind, reads.
  destruct (fail_if _ _) eqn:Ef; [|unfold fail_if in Ef; destruct (match snapshot with Some _ => _ | None => _ end); [by injection Ef as <-|done]].
  pose proof (preflight_quiet s c a false) as Hpre. destruct (preflight_binding c a false s) as [[]|e]; [| |done].
  - destruct Hpre as (Ha & H1 & H2 & r & Hr & Ht). rewrite bind_clear by (done || by rewrite Hr).
    cbn [mret persist_ret]. by apply mv_bind; rewrite ?Hr.
  - destruct Hpre as (Ha & H1 & H2 & Hn). destruct snapshot as [snap|]; [|done].
    assert (as_account snap = a) as Hacc.
    { unfold fail_if in Ef. destruct (bool_decide_reflect (as_account snap = a)); [done|discriminate]. }
    destruct (import_cases s snap Hok) as [(e & -> & ?)|(r & -> & _ & Hr & _ & Ht & _)]; [done|]. rewrite Hacc.
    set (s1 := set_accounts (<[a := r]> (ps_accounts s)) s).
    assert (Hin : is_Some (ps_accounts s1 !! a)) by (cbn; by rewrite lookup_insert_eq).
    rewrite bind_clear by done. cbn [mret persist_ret].
    eapply mv_then; [by apply (mv_fresh R s a r)|]. by apply (mv_bind R s1 c a).
Qed.

Lemma store_admit_does R s c a snapshot defaults :
  store_ok s -> does R (store_admit parse_f32 c a snapshot defaults) s.
Proof.
  intros Hok. unfold does, store_admit. unfold mbind at 1, persist_bind at 1.
  pose proof (bind_snapshot_does R s c a snapshot Hok) as Hb.
  destruct (bind_snapshot c a snapshot s) as [s' [[]|e]]; [done| |done]. destruct Hb as (-> & Ha & H1 & H2 & Hn).
  unfold mbind, persist_bind, reads.
  destruct (match defaults with Some _ => _ | None => _ end) as [df|]; cbn [ok_or]; [|done].
  pose proof (store_initialize_does (fun _ => False) s a df Hok) as Hi. unfold does in Hi.
  destruct (store_initialize parse_f32 a df s) as [s1 [[]|e]] eqn:Ei; [|done].
  pose proof (store_initialize_binds s a df s1 Hok Ei) as (Hin & Hcl).
  rewrite bind_clear; [|done|unfold bound_elsewhere; by rewrite Hcl|unfold plays_other; by rewrite Hcl].
  eapply mv_then; [eapply moves_weaken; [exact Hi|done]|].
  apply mv_bind; [done|unfold bound_elsewhere; by rewrite Hcl|unfold plays_other; by rewrite Hcl].
Qed.

Lemma admit_temporary_does R s c a : store_ok s -> does R (admit_temporary c a) s.
Proof.
  intros Hok. unfold admit_temporary. apply does_bind_reads.
  pose proof (preflight_quiet s c a true) as Hpre. destruct (preflight_binding c a true s) as [[]|e]; [| |done].
  - apply bind_does.
  - destruct Hpre as (Ha & H1 & H2 & Hn). unfold does, mbind, persist_bind, reads, changes.
    assert (Hq : quiet (d ← first_definition s;
           _ ← validate_buffer_size d (replicate (Z.to_nat PLAYER_DATA_BUFFER_BYTES) (byte_of 0)); mret d)
         (fun d => good_definition d /\ 8 <= df_size d <= PLAYER_DATA_BUFFER_BYTES)).
    { eapply quiet_bind; [by apply first_definition_quiet|cbv beta]. intros d Hd.
      eapply quiet_bind; [apply buffer_size_quiet|cbv beta]. by intros [] [_ Hs]. }
    unfold mbind in Hq. match type of Hq with quiet ?m _ => destruct m as [d|e] end; [|done].
    destruct Hq as [Hd Hs]. set (r := mkRecord d _ _ _ _ _ _).
    set (s1 := set_accounts (<[a := r]> (ps_accounts s)) s).
    assert (Hin : is_Some (ps_accounts s1 !! a)) by (cbn; by rewrite lookup_insert_eq).
    rewrite (bind_clear s1 c a Hin H1 H2).
    apply (mv_temporary R s c a r Hn); [split; try done; reflexivity|done..].
Qed.

Lemma check_all_quiet {A} (check : A -> Result PersistentDataError ()) (P : A -> Prop) l :
  (forall x, quiet (check x) (fun _ => P x)) -> quiet (check_all check l) (fun _ => forall x, x ∈ l -> P x).
Proof.
  intros H. induction l as [|x l IH]; cbn [check_all]; [cbn; by intros x ?%not_elem_of_nil|].
  eapply quiet_bind; [apply H|cbv beta]. intros _ Hx. eapply quiet_mono; [exact IH|cbv beta].
  intros _ Hl y [->|Hy]%elem_of_cons; auto.
Qed.

Lemma replacements_quiet s schemas :
  store_ok s -> (forall name set d, schemas !! name = Some set -> d ∈ set -> good_definition d) ->
  forall l, (forall e, e ∈ l -> ps_accounts s !! e.1 = Some e.2) ->
  quiet (replacements schemas l) (fun out => out.*1 = l.*1 /\
    forall a d, (a, d) ∈ out -> exists r, ps_accounts s !! a = Some r /\ good_definition d /\
      8 <= df_size d <= PLAYER_DATA_BUFFER_BYTES /\ df_version d = df_version (ar_definition r) /\
      df_checksum d = df_checksum (ar_definition r)).
Proof.
  intros Hok Hs. induction l as [|[a r] l IH]; intros Hl; cbn [replacements].
  { split; [done|]. by intros a d ?%not_elem_of_nil. }
  eapply quiet_bind; [by apply quiet_ok_or|cbv beta]. intros set Hset.
  eapply quiet_bind; [apply select_quiet|cbv beta]. intros d (Hin & Hv & Hc).
  eapply quiet_bind.
  { instantiate (1 := fun _ => 8 <= df_size d <= PLAYER_DATA_BUFFER_BYTES).
    destruct (ar_temporary r); (eapply quiet_mono; [apply buffer_size_quiet || apply buffer_quiet|]; by intros [] [_ ?]). }
  intros [] Hsize. eapply quiet_bind; [apply IH; intros e He; apply Hl; by right|cbv beta]. intros out [H1 H2]. cbn.
  split; [by rewrite H1|]. intros b d' [[= -> ->]|Hb]%elem_of_cons; [|by apply H2].
  exists r. split; [apply (Hl (a, r)); left|]. split; [by eapply Hs|]. done.
Qed.

Lemma replace_definitions_does R l : forall s,
  store_ok s -> NoDup l.*1 ->
  (forall a d, (a, d) ∈ l -> exists r, ps_accounts s !! a = Some r /\ good_definition d /\
      8 <= df_size d <= PLAYER_DATA_BUFFER_BYTES /\ df_version d = df_version (ar_definition r) /\
      df_checksum d = df_checksum (ar_definition r)) ->
  exists s', replace_definitions l s = (s', Ok ()) /\ moves R s s'.
Proof.
  induction l as [|[a d] l IH]; intros s Hok Hnd Hl; cbn [replace_definitions].
  { exists s. split; [done|constructor]. }
  destruct (Hl a d) as (r & Hr & Hd & Hs & Hv & Hc); [left|].
  cbn [fmap list_fmap fst] in Hnd. apply list.NoDup_cons in Hnd as [Hfresh Hnd].
  unfold mbind, persist_bind, reads, changes. rewrite Hr. cbn [ok_or].
  set (s1 := set_accounts (<[a := set_definition d r]> (ps_accounts s)) s).
  assert (Hm : moves R s s1).
  { apply (mv_update R s a r (set_definition d r) Hr).
    - destruct (so_records s Hok a r Hr) as [[] _]. by split.
    - split; [done|]. right. split; [done|]. unfold content. cbn. congruence. }
  destruct (IH s1) as (s' & E & Hm'); [by eapply moves_ok|done| |].
  - intros b d' Hb. assert (a <> b) as Hne.
    { intros <-. apply Hfresh. apply list_elem_of_fmap. by exists (a, d'). }
    destruct (Hl b d') as (q & Hq & ?); [by right|]. exists q. cbn. by rewrite lookup_insert_ne.
  - exists s'. split; [exact E|]. by eapply mv_then.
Qed.

Lemma account_list_perm {A} (m : gmap AccountId A) : account_list m ≡ₚ map_to_list m.
Proof. apply merge_sort_Permutation. Qed.

Lemma install_schemas_does R s schemas :
  store_ok s -> (forall name set d, schemas !! name = Some set -> d ∈ set -> typed d) ->
  does R (install_schemas schemas) s.
Proof.
  intros Hok Ht. unfold install_schemas. apply does_bind_reads.
  assert (Hq : quiet (check_all (fun set : list byte * list Definition_ =>
      check_all (fun d => layout_verdict (sd_validate d)) set.2) (account_list schemas))
    (fun _ => forall set, set ∈ account_list schemas -> forall d, d ∈ set.2 -> sd_validate d = Ok ())).
  { apply check_all_quiet. intros set. apply check_all_quiet. intros d.
    destruct (validation_total d) as [-> | ->]; done. }
  destruct (check_all _ _) as [[]|e]; [|done]. cbn in Hq.
  assert (Hgood : forall name set d, schemas !! name = Some set -> d ∈ set -> good_definition d).
  { intros name set d Hset Hd. split; [by eapply Ht|]. apply (Hq (name, set)); [|done].
    rewrite account_list_perm. by apply elem_of_map_to_list. }
  apply does_bind_reads.
  assert (Hl : forall e, e ∈ account_list (ps_accounts s) -> ps_accounts s !! e.1 = Some e.2).
  { intros [a r] He. rewrite account_list_perm in He. by apply elem_of_map_to_list in He. }
  pose proof (replacements_quiet s schemas Hok Hgood _ Hl) as Hr. destruct (replacements _ _) as [l|e]; [|done].
  destruct Hr as [Hkeys Hrepl]. unfold does, mbind, persist_bind, changes.
  set (s1 := mkStore schemas (ps_accounts s) (ps_clients s) (ps_defaults s)).
  assert (Hm : moves R s s1) by by constructor.
  destruct (replace_definitions_does R l s1) as (s' & -> & Hm').
  - by eapply moves_ok.
  - rewrite Hkeys, account_list_perm. apply NoDup_fst_map_to_list.
  - done.
  - by eapply mv_then.
Qed.

(** ** Fields and ratings *)

Lemma record_of_quiet s c :
  quiet (record_of s c) (fun e => ps_accounts s !! e.1 = Some e.2).
Proof.
  unfold record_of. eapply quiet_bind; [by apply quiet_ok_or|cbv beta]. intros a _.
  eapply quiet_bind; [by apply quiet_ok_or|cbv beta]. by intros r Hr.
Qed.

Lemma next_revision_quiet r : quiet (next_revision r) (fun n => n = ar_revision r + 1).
Proof. unfold next_revision. destruct (_ <=? _); done. Qed.

(** A record whose buffer was written; only a change counts. *)
Definition rewritten (r r' : AccountRecord) (changed : bool) : Prop :=
  record_ok r' /\ ar_temporary r' = ar_temporary r /\ ar_revision r' = ar_revision r /\
  ar_definition r' = ar_definition r /\ ar_skills r' = ar_skills r /\
  (changed = false -> ar_bytes r' = ar_bytes r).

Lemma buffer_quiet_write r keys l value :
  record_ok r -> sd_lookup (ar_definition r) keys = Ok l ->
  quiet (field_write (ar_definition r) (ar_bytes r) (ar_dirty r) l value)
    (fun out => rewritten r (set_buffer out.1.1 out.1.2 r) out.2).
Proof.
  intros Hr Hl. pose proof (record_room r Hr) as [H1 H2]. destruct Hr as [Hd Hs Hb Hdi Hsv].
  eapply quiet_mono; [exact (field_write_quiet _ _ _ keys l value Hd Hl H1 H2)|].
  intros [[bytes dirty] changed] (H3 & H4 & H5). cbn [fst snd] in *. unfold rewritten, set_buffer.
  cbn [ar_temporary ar_revision ar_definition ar_skills ar_bytes].
  split; [split; cbn; [done|done|congruence|congruence|done]|]. done.
Qed.

Lemma write_fields_quiet fields : forall r0 r changed,
  rewritten r0 r changed -> quiet (write_fields r changed fields) (fun out => rewritten r0 out.1 out.2).
Proof.
  induction fields as [|[keys value] fields IH]; intros r0 r changed Hw; cbn [write_fields]; [done|].
  eapply quiet_bind; [apply quiet_field|cbv beta]. intros l Hl. pose proof Hw as (Hr & Ht & Hrev & Hd & Hsk & Hch).
  eapply quiet_bind; [by apply (buffer_quiet_write r keys l value)|cbv beta].
  intros [[bytes dirty] now] (Hr' & Ht' & Hrev' & Hd' & Hsk' & Hch'). cbn [fst snd] in *. apply IH.
  unfold rewritten. split; [done|]. do 4 (split; [congruence|]). intros [-> ->]%orb_false_iff. rewrite Hch' by done. auto.
Qed.

Lemma bumped_follows r r' changed revision skills :
  rewritten r r' changed -> revision = ar_revision r + 1 ->
  record_ok (set_skills skills revision r') /\ follows r (set_skills skills revision r').
Proof.
  intros ([] & Ht & Hrev & _) ->. split; [|split; [done|left; cbn; lia]].
  split; try done. intros n Hn. specialize (ro_saved0 n Hn). cbn. lia.
Qed.

Lemma unchanged_follows r r' : rewritten r r' false -> record_ok r' /\ follows r r'.
Proof.
  intros (Hr & Ht & Hrev & Hd & Hsk & Hb). split; [done|]. split; [done|]. right. split; [done|].
  unfold content. rewrite Hd, Hsk, Hb by done. done.
Qed.

Lemma write_many_does R s c fields : store_ok s -> does R (write_many c fields) s.
Proof.
  intros Hok. unfold write_many. apply does_bind_reads.
  assert (Hq : quiet ('(account, r) ← record_of s c;
    '(updated, changed) ← write_fields r false fields;
    if (changed : bool) then
      revision ← next_revision updated;
      mret (account, set_skills (ar_skills updated) revision updated, true)
    else mret (account, updated, false))
    (fun out => exists r, ps_accounts s !! out.1.1 = Some r /\ record_ok out.1.2 /\ follows r out.1.2)).
  { eapply quiet_bind; [apply record_of_quiet|cbv beta]. intros [a r] Hr. cbn [fst snd] in Hr.
    destruct (so_records s Hok a r Hr) as [Hrec _].
    eapply quiet_bind; [by apply (write_fields_quiet fields r r false)|cbv beta].
    intros [r' changed] Hw. cbn [fst snd] in Hw. pose proof Hw as (_ & _ & Hrev & _). destruct changed.
    - eapply quiet_bind; [apply next_revision_quiet|cbv beta]. intros n ->. cbn. exists r. split; [done|].
      eapply bumped_follows; [done|lia].
    - cbn. exists r. split; [done|]. by apply unchanged_follows. }
  match goal with |- match ?m with _ => _ end => destruct m as [[[a updated] changed]|e] end; [|done].
  destruct Hq as (r & Hr & Hrec & Hf). cbn [fst snd] in *. destruct changed; [|apply mv_same].
  by apply (mv_update R s a r updated).
Qed.

Lemma store_write_does R s c keys value : store_ok s -> does R (store_write c keys value) s.
Proof.
  intros Hok. unfold store_write. apply does_bind_reads.
  assert (Hq : quiet ('(account, r) ← record_of s c;
    l ← field (sd_lookup (ar_definition r) keys);
    revision ← next_revision r;
    '(bytes, dirty, changed) ← field_write (ar_definition r) (ar_bytes r) (ar_dirty r) l value;
    let r := set_buffer bytes dirty r in
    mret (account, if (changed : bool) then set_skills (ar_skills r) revision r else r, changed))
    (fun out => exists r, ps_accounts s !! out.1.1 = Some r /\ record_ok out.1.2 /\ follows r out.1.2)).
  { eapply quiet_bind; [apply record_of_quiet|cbv beta]. intros [a r] Hr. cbn [fst snd] in Hr.
    destruct (so_records s Hok a r Hr) as [Hrec _].
    eapply quiet_bind; [apply quiet_field|cbv beta]. intros l Hl.
    eapply quiet_bind; [apply next_revision_quiet|cbv beta]. intros n ->.
    eapply quiet_bind; [by apply (buffer_quiet_write r keys l value)|cbv beta].
    intros [[bytes dirty] changed] Hw. cbn [fst snd] in Hw. exists r. cbn [fst snd]. split; [done|].
    destruct changed; [by eapply bumped_follows|by apply unchanged_follows]. }
  match goal with |- match ?m with _ => _ end => destruct m as [[[a updated] changed]|e] end; [|done].
  destruct Hq as (r & Hr & Hrec & Hf). cbn [fst snd] in *. by apply (mv_update R s a r updated).
Qed.

Context (pair_delta : Z -> Z -> Z -> Z) (ranked_delta : Z -> list (Z * Outcome) -> Z).

Lemma skills_follow r skills : record_ok r ->
  record_ok (set_skills skills (ar_revision r + 1) r) /\ follows r (set_skills skills (ar_revision r + 1) r).
Proof.
  intros []. split; [|split; [done|left; cbn; lia]]. split; try done. intros n Hn. specialize (ro_saved0 n Hn). cbn. lia.
Qed.

Lemma quiet_skill {A} (r : Result SkillRatingError A) : quiet (skill_result r) (fun _ => True).
Proof. by destruct r. Qed.

Lemma update_skill_does R s first second mode score :
  store_ok s -> does R (update_skill pair_delta first second mode score) s.
Proof.
  intros Hok. unfold update_skill. apply does_bind_reads.
  match goal with |- match ?m with _ => _ end => assert (Hq : quiet m (fun out =>
    let '(a, ra, b, rb) := out in a <> b /\ exists ra0 rb0, ps_accounts s !! a = Some ra0 /\ ps_accounts s !! b = Some rb0 /\
      (record_ok ra /\ follows ra0 ra) /\ (record_ok rb /\ follows rb0 rb))) end.
  { eapply quiet_bind; [by apply quiet_ok_or|cbv beta]. intros a _.
    eapply quiet_bind; [by apply quiet_ok_or|cbv beta]. intros b _.
    eapply quiet_bind; [apply (quiet_fail_if _ _ (fun _ => a <> b)); [done|by intros H%bool_decide_eq_false]|cbv beta]. intros [] Hne.
    eapply quiet_bind; [by apply quiet_ok_or|cbv beta]. intros ra Hra.
    eapply quiet_bind; [by apply quiet_ok_or|cbv beta]. intros rb Hrb.
    eapply quiet_bind; [apply quiet_skill|cbv beta]. intros [ska skb] _.
    eapply quiet_bind; [apply next_revision_quiet|cbv beta]. intros n ->.
    eapply quiet_bind; [apply next_revision_quiet|cbv beta]. intros m ->.
    cbn [quiet mret result_ret]. split; [done|]. exists ra, rb. split; [done|]. split; [done|].
    destruct (so_records s Hok a ra Hra), (so_records s Hok b rb Hrb). by split; apply skills_follow. }
  match goal with |- match ?m with _ => _ end => destruct m as [[[[a ra] b] rb]|e] end; [|done].
  destruct Hq as (Hne & ra0 & rb0 & Ha & Hb & (Hra & Fa) & (Hrb & Fb)).
  eapply mv_then; [by apply (mv_update R s b rb0 rb)|].
  apply (moves_set R _ _ a ra0 ra); [cbn; by rewrite lookup_insert_ne|done..].
Qed.

Lemma participants_spec s ranks :
  store_ok s -> NoDup ranks.*1 ->
  NoDup (map (fun p => p.1.1) (participants s ranks)) /\
  forall p, p ∈ participants s ranks -> ps_accounts s !! p.1.1 = Some p.1.2.
Proof.
  intros Hok. unfold participants. set (f := fun e : Z * (Z * Z) => _).
  assert (Hf : forall e p, f e = Some p -> ps_clients s !! e.1 = Some p.1.1 /\ ps_accounts s !! p.1.1 = Some p.1.2).
  { intros e p. unfold f. destruct (ps_clients s !! e.1) as [a|]; cbn; [|done].
    destruct (ps_accounts s !! a) as [r|] eqn:Er; cbn; [|done]. destruct (ar_temporary r); [done|]. by intros [= <-]. }
  induction ranks as [|e ranks IH]; cbn [fmap list_fmap omap list_omap]; intros Hnd.
  { split; [constructor|]. by intros p ?%not_elem_of_nil. }
  apply list.NoDup_cons in Hnd as [Hfresh Hnd]. destruct (IH Hnd) as [H1 H2]. destruct (f e) as [p|] eqn:Ep; [|done].
  destruct (Hf e p Ep) as [Hc Ha]. split.
  - cbn [map]. apply list.NoDup_cons. split; [|done]. intros (q & Hq & Hin)%list_elem_of_fmap.
    apply list_elem_of_omap in Hin as (e' & He' & Eq). destruct (Hf e' q Eq) as [Hc' _].
    apply Hfresh. apply list_elem_of_fmap. exists e'. split; [|done]. eapply (so_injective s Hok); [done|congruence].
  - intros q [->|Hq]%elem_of_cons; auto.
Qed.

Lemma rank_updates_quiet mode all l :
  quiet (rank_updates ranked_delta mode all l) (fun out =>
    map (fun u => u.1.1) out `sublist_of` map (fun p => p.1.1) l /\
    forall a skills n, (a, skills, n) ∈ out -> exists r x, (a, r, x) ∈ l /\ n = ar_revision r + 1).
Proof.
  induction l as [|[[a r] [group score]] l IH]; cbn [rank_updates map fst].
  { split; [constructor|]. by intros a skills n ?%not_elem_of_nil. }
  destruct (omap _ all) as [|o os].
  - eapply quiet_mono; [exact IH|]. intros out [H1 H2]. split; [by constructor|]. intros b skills n Hb.
    destruct (H2 b skills n Hb) as (q & x & Hin & ?). exists q, x. split; [by right|done].
  - eapply quiet_bind; [apply quiet_skill|cbv beta]. intros skills _.
    eapply quiet_bind; [apply next_revision_quiet|cbv beta]. intros n ->.
    eapply quiet_bind; [exact IH|cbv beta]. intros out [H1 H2]. cbn [quiet mret result_ret map fst].
    split; [by constructor|]. intros b sk m [[= -> -> ->]|Hb]%elem_of_cons.
    + exists r, (group, score). split; [left|done].
    + destruct (H2 b sk m Hb) as (q & x & Hin & ?). exists q, x. split; [by right|done].
Qed.

(** Every account to write is there: nothing panics. *)
Lemma write_ranks_moves R l : forall s,
  NoDup (map (fun u => u.1.1) l) ->
  (forall a skills n, (a, skills, n) ∈ l -> exists r, ps_accounts s !! a = Some r /\ record_ok r /\ n = ar_revision r + 1) ->
  exists s', write_ranks l s = (s', Ok ()) /\ moves R s s'.
Proof.
  induction l as [|[[a skills] n] l IH]; intros s Hnd Hl; cbn [write_ranks].
  { exists s. split; [done|constructor]. }
  cbn [map fst] in Hnd. apply list.NoDup_cons in Hnd as [Hfresh Hnd].
  destruct (Hl a skills n) as (r & Hr & Hok & ->); [left|].
  set (s1 := set_accounts (<[a := set_skills skills (ar_revision r + 1) r]> (ps_accounts s)) s).
  destruct (IH s1 Hnd) as (s' & Hw & Hm).
  { intros b sk m Hb. destruct (Hl b sk m) as (q & Hq & ?); [by right|]. exists q. split; [|done].
    cbn [s1 set_accounts ps_accounts]. rewrite lookup_insert_ne; [done|]. intros <-. apply Hfresh, list_elem_of_fmap. by exists (a, sk, m). }
  exists s'. split.
  - unfold mbind, persist_bind, reads, changes. rewrite Hr. exact Hw.
  - eapply mv_then; [|exact Hm]. destruct (skills_follow r skills Hok). by apply (mv_update R s a r).
Qed.

Lemma submit_ranks_does R s mode ranks : store_ok s -> does R (submit_ranks ranked_delta mode ranks) s.
Proof.
  intros Hok. unfold submit_ranks. apply does_bind_reads.
  destruct (participants_spec s (rank_list ranks) Hok) as [Hnd Hin].
  { unfold rank_list. rewrite merge_sort_Permutation. apply NoDup_fst_map_to_list. }
  set (all := participants s (rank_list ranks)) in *.
  pose proof (rank_updates_quiet mode all all) as Hq. cbv zeta.
  destruct (rank_updates ranked_delta mode all all) as [updates|e]; [|exact Hq].
  destruct Hq as [H1 H2]. apply does_bind_ret.
  destruct (write_ranks_moves R updates s) as (s' & Hw & Hm); [by eapply sublist_NoDup| |unfold does; by rewrite Hw].
  intros a skills n Hu. destruct (H2 a skills n Hu) as (r & x & Hr & Hn). exists r. split; [apply (Hin _ Hr)|].
  split; [|done]. apply (so_records s Hok a r), (Hin _ Hr).
Qed.

Lemma acknowledge_moves R s a revision : store_ok s -> moves R s (acknowledge_saved a revision s).1.
Proof.
  intros Hok. unfold acknowledge_saved. destruct (ps_accounts s !! a) as [r|] eqn:Er; [|constructor].
  destruct (ar_temporary r || _) eqn:Eb; [constructor|]. cbn [fst]. apply orb_false_iff in Eb as [_ Eb].
  apply (mv_update R s a r); [done| |].
  - destruct (so_records s Hok a r Er) as [[] _]. split; cbn [ar_definition set_saved set_buffer ar_bytes ar_dirty ar_saved_revision ar_revision];
      try done; [unfold zlen in *; by rewrite length_replicate|]. intros n [= <-]. lia.
  - split; [done|]. by right.
Qed.
End Operations.
