(* ===== verification/PersistentDataMain.v ===== *)
(** * Properties of the players' saved data

    The store as a state machine: consistent after every operation and unchanged by a failed one;
    an acknowledged save is the account as it stands; what is written is read back, and nobody
    else's data changes. *)

From S2P Require Export PersistentDataProofs.

#[local] Open Scope Z_scope.

(** The operations that change the store. *)
Inductive StoreOp : Type :=
| OpInstall (schemas : gmap (list byte) (list Definition_))
| OpImport (snapshot : AccountSnapshot)
| OpReplace (snapshot : AccountSnapshot)
| OpInitialize (account : AccountId) (defaults : PlayerDataDefaults)
| OpCreate (account : AccountId) (version checksum : Z) (bytes : list byte)
| OpDefaults (defaults : option PlayerDataDefaults)
| OpBindSnapshot (client : Z) (account : AccountId) (snapshot : option AccountSnapshot)
| OpAdmit (client : Z) (account : AccountId) (snapshot : option AccountSnapshot) (defaults : option PlayerDataDefaults)
| OpAdmitTemporary (client : Z) (account : AccountId)
| OpBind (client : Z) (account : AccountId)
| OpUnbind (client : Z)
| OpClear
| OpWriteMany (client : Z) (fields : list (list Key * SdValue))
| OpWrite (client : Z) (keys : list Key) (value : SdValue)
| OpUpdateSkill (first second : Z) (mode : list byte) (score : Z)
| OpSubmitRanks (mode : list byte) (ranks : gmap Z (Z * Z))
| OpSaved (account : AccountId) (revision : Z).

(** The values are those of the Rust types: sizes and offsets are not negative. *)
Definition typed_op (op : StoreOp) : Prop :=
  match op with
  | OpInstall schemas => forall name set d, schemas !! name = Some set -> d ∈ set -> typed d
  | _ => True
  end.

(** The account an operation may exchange for another copy. *)
Definition replaces (op : StoreOp) (a : AccountId) : Prop :=
  match op with OpReplace snapshot => as_account snapshot = a | _ => False end.

Definition drop_value {A} (out : PersistentDataStore * Result PersistentDataError A)
    : PersistentDataStore * Result PersistentDataError () :=
  (out.1, match out.2 with Ok _ => Ok () | Err e => Err e end).

Section Machine.
Context (parse_f32 : list byte -> option Z) (pair_delta : Z -> Z -> Z -> Z) (ranked_delta : Z -> list (Z * Outcome) -> Z).

Definition perform (op : StoreOp) (s : PersistentDataStore) : PersistentDataStore * Result PersistentDataError () :=
  match op with
  | OpInstall schemas => install_schemas schemas s
  | OpImport snapshot => import snapshot s
  | OpReplace snapshot => replace_unbound snapshot s
  | OpInitialize account defaults => store_initialize parse_f32 account defaults s
  | OpCreate account version checksum bytes => create account version checksum bytes s
  | OpDefaults defaults => install_defaults defaults s
  | OpBindSnapshot client account snapshot => drop_value (bind_snapshot client account snapshot s)
  | OpAdmit client account snapshot defaults => store_admit parse_f32 client account snapshot defaults s
  | OpAdmitTemporary client account => admit_temporary client account s
  | OpBind client account => bind client account s
  | OpUnbind client => (unbind client s, Ok ())
  | OpClear => (clear_bindings s, Ok ())
  | OpWriteMany client fields => drop_value (write_many client fields s)
  | OpWrite client keys value => drop_value (store_write client keys value s)
  | OpUpdateSkill first second mode score => update_skill pair_delta first second mode score s
  | OpSubmitRanks mode ranks => drop_value (submit_ranks ranked_delta mode ranks s)
  | OpSaved account revision => ((acknowledge_saved account revision s).1, Ok ())
  end.

Definition run (ops : list StoreOp) (s : PersistentDataStore) : PersistentDataStore :=
  foldl (fun s op => (perform op s).1) s ops.

Lemma does_drop {A} R (m : Persist A) s : does R m s -> does R (fun s => drop_value (m s)) s.
Proof. unfold does, drop_value. destruct (m s) as [s' [a|e]]; done. Qed.

Lemma perform_does op s : store_ok s -> typed_op op -> does (replaces op) (perform op) s.
Proof.
  intros Hok Ht. destruct op; cbn [perform].
  - by apply install_schemas_does.
  - by apply import_does.
  - by apply replace_unbound_does.
  - by apply store_initialize_does.
  - by apply create_does.
  - apply mv_defaults.
  - apply does_drop. pose proof (bind_snapshot_does (replaces (OpBindSnapshot client account snapshot)) s client account snapshot Hok) as H.
    unfold does. destruct (bind_snapshot _ _ _ _) as [s' [[]|e]]; [done| |done]. destruct H as [-> _]. constructor.
  - by apply store_admit_does.
  - by apply admit_temporary_does.
  - apply bind_does.
  - apply mv_unbind.
  - apply mv_clear.
  - apply does_drop. by apply write_many_does.
  - apply does_drop. by apply store_write_does.
  - by apply update_skill_does.
  - apply does_drop. by apply submit_ranks_does.
  - by apply acknowledge_moves.
Qed.

Lemma perform_moves op s : store_ok s -> typed_op op -> moves (replaces op) s (perform op s).1.
Proof.
  intros Hok Ht. pose proof (perform_does op s Hok Ht) as H. unfold does in H.
  destruct (perform op s) as [s' [u|e]]; [done|]. destruct H as [-> _]. constructor.
Qed.

Lemma perform_ok op s : store_ok s -> typed_op op -> store_ok (perform op s).1.
Proof. intros Hok Ht. by eapply moves_ok; [apply perform_moves|]. Qed.

Lemma run_evolves a ops : forall s,
  store_ok s -> Forall typed_op ops -> Forall (fun op => ~ replaces op a) ops -> store_ok (run ops s) /\ evolves a s (run ops s).
Proof.
  induction ops as [|op ops IH]; intros s Hok Ht Hr; cbn [run foldl].
  { split; [done|]. intros r Hr0 _. exists r. split; [done|apply follows_refl]. }
  apply list.Forall_cons in Ht as [Ht Hts]. apply list.Forall_cons in Hr as [Hr Hrs].
  destruct (IH _ (perform_ok op s Hok Ht) Hts Hrs) as [Hok' He]. split; [done|].
  intros r Hr0 Ht0. destruct (moves_evolves _ a _ _ (perform_moves op s Hok Ht) Hr r Hr0 Ht0) as (r1 & Hr1 & F1).
  destruct (He r1 Hr1) as (r2 & Hr2 & F2); [destruct F1; congruence|]. exists r2. split; [done|]. by eapply follows_trans.
Qed.

(** C38. Every operation on a consistent store leaves it consistent: every account has a validated
    layout and a buffer of its size, clients play on accounts that exist and never two on the same
    one, and a temporary account has a player.  No operation panics, and one that fails changes
    nothing. *)
Theorem store_operations_safe op s :
  store_ok s -> typed_op op ->
  store_ok (perform op s).1 /\ (perform op s).2 <> Err PdPanic /\
  (forall e, (perform op s).2 = Err e -> (perform op s).1 = s).
Proof.
  intros Hok Ht. split; [by apply perform_ok|]. pose proof (perform_does op s Hok Ht) as H. unfold does in H.
  destruct (perform op s) as [s' [u|e]]; cbn; [done|]. destruct H as [-> H]. split; [congruence|done].
Qed.

(** An acknowledgement can only confirm what it says: if it names the revision of a snapshot
    that was sent, and the account was not exchanged for another copy since, then whatever else
    happened in between, the account still is that snapshot, and it is no longer waiting to be
    saved. *)
Theorem acknowledged_snapshot_is_current ops s a snap s' :
  store_ok s -> Forall typed_op ops -> Forall (fun op => ~ replaces op a) ops ->
  snapshot s a = Some snap -> is_temporary s a = false ->
  acknowledge_saved a (as_revision snap) (run ops s) = (s', true) ->
  snapshot s' a = Some snap /\ a ∉ map as_account (pending s').
Proof.
  intros Hok Ht Hr Hsnap Htmp Hack. unfold snapshot, is_temporary in Hsnap, Htmp.
  destruct (ps_accounts s !! a) as [r|] eqn:Er; [|done]. cbn in Hsnap. injection Hsnap as <-. cbn [as_revision] in Hack.
  destruct (run_evolves a ops s Hok Ht Hr) as [Hok' He]. destruct (He r Er Htmp) as (r' & Er' & Htmp' & Hf).
  unfold acknowledge_saved in Hack. rewrite Er' in Hack.
  destruct (ar_temporary r' || _) eqn:Eb; [discriminate|]. injection Hack as <-. apply orb_false_iff in Eb as [_ Eb].
  apply negb_false_iff in Eb. destruct Hf as [?|[Hrev Hc]]; [lia|]. injection Hc as Hb Hv Hcs Hsk. split.
  - unfold snapshot. cbn. rewrite lookup_insert_eq. cbn. by rewrite Hb, Hv, Hcs, Hsk, Hrev.
  - intros (p & Hp & Hin)%list_elem_of_fmap. unfold pending in Hin. apply list_elem_of_omap in Hin as ([b q] & Hq & Hpend).
    rewrite account_list_perm in Hq. apply elem_of_map_to_list in Hq. cbn [fst snd] in Hpend.
    destruct (is_pending q) eqn:Eq; [|done].
    assert (a = b) as <-.
    { rewrite Hp. unfold snapshot in Hpend. destruct (_ !! b); cbn in Hpend; [|done]. by injection Hpend as <-. }
    cbn in Hq. rewrite lookup_insert_eq in Hq. injection Hq as <-. unfold is_pending in Eq. cbn in Eq.
    rewrite bool_decide_true in Eq by (f_equal; lia). by rewrite andb_false_r in Eq.
Qed.

(** A write that succeeds is read back by the player who made it, as the value the field
    keeps; no other player's data is any different; and if the account is to be kept and changed,
    it is now waiting to be saved. *)
Theorem written_field_is_read s s' c keys value changed :
  store_ok s -> typed_value value -> store_write c keys value s = (s', Ok changed) ->
  (exists d ty value', stored d ty value value' /\ store_read s' c keys = Ok value') /\
  (forall c' keys', c' <> c -> store_read s' c' keys' = store_read s c' keys') /\
  (changed = true -> temporary_client s c = false -> exists snap, snap ∈ pending s' /\ ps_clients s !! c = Some (as_account snap)).
Proof.
  intros Hok Hval. unfold store_write. unfold mbind at 1, persist_bind at 1, reads.
  unfold record_of. destruct (ps_clients s !! c) as [a|] eqn:Ec; [|done]. cbn [ok_or mbind result_bind].
  destruct (ps_accounts s !! a) as [r|] eqn:Er; [|done]. cbn [ok_or mbind result_bind mret result_ret].
  destruct (sd_lookup (ar_definition r) keys) as [l|e] eqn:El; [|done]. cbn [field map_err mbind result_bind].
  pose proof (next_revision_quiet r) as Hrev. destruct (next_revision r) as [rev|e]; [|done]. cbn in Hrev. subst rev. cbn [mbind result_bind].
  destruct (so_records s Hok a r Er) as [Hrec Ha]. pose proof (record_room r Hrec) as [Hroom Hroomd].
  pose proof (sd_write_reads (ar_definition r) (ar_bytes r) (ar_dirty r) keys l value) as Hw.
  destruct (ro_definition r Hrec) as [Ht Hv]. specialize (Hw Ht Hv El Hroom Hroomd Hval). unfold field_write.
  destruct (sd_write _ _ _ _ _) as [[[[bytes dirty] ch]|e]|]; [|done|done]. cbn [field map_err mbind result_bind mret result_ret].
  destruct Hw as ((value' & Hst & Hread) & _). unfold mbind, persist_bind, changes. intros [= <- <-].
  set (r' := if ch then _ else _). assert (Hr' : ar_definition r' = ar_definition r /\ ar_bytes r' = bytes) by (by unfold r'; destruct ch).
  destruct Hr' as [Hd' Hb']. split; [|split].
  - exists (ar_definition r), (lo_ty l), value'. split; [done|]. unfold store_read, record_of. cbn [set_accounts ps_clients ps_accounts].
    rewrite Ec. cbn [ok_or mbind result_bind]. rewrite lookup_insert_eq. cbn [ok_or mbind result_bind mret result_ret].
    rewrite Hd', Hb', El. cbn [field map_err mbind result_bind]. by rewrite Hread.
  - intros c' keys' Hne. unfold store_read, record_of. cbn [set_accounts ps_clients ps_accounts].
    destruct (ps_clients s !! c') as [b|] eqn:Eb; [|done]. cbn [ok_or mbind result_bind].
    rewrite lookup_insert_ne; [done|]. intros <-. by apply Hne, (so_injective s Hok c' c a).
  - intros -> Htmp. unfold temporary_client, is_temporary in Htmp. rewrite Ec, Er in Htmp.
    exists (mkSnapshot a (ar_revision r') (df_version (ar_definition r')) (df_checksum (ar_definition r')) (ar_bytes r') (ar_skills r')).
    split; [|done]. unfold pending. apply list_elem_of_omap. exists (a, r'). split.
    + rewrite account_list_perm. apply elem_of_map_to_list. cbn. by rewrite lookup_insert_eq.
    + cbn [fst snd]. assert (is_pending r' = true) as ->.
      { unfold is_pending, r'. cbn. rewrite Htmp. cbn. apply negb_true_iff, bool_decide_eq_false. intros Hs.
        pose proof (ro_saved r Hrec _ Hs). lia. }
      unfold snapshot. cbn. by rewrite lookup_insert_eq.
Qed.
End Machine.

(** ** An example *)

Definition demo_player : Definition_ := {|
  df_version := 5; df_checksum := 9; df_size := 16; df_root := TyStruct 0;
  df_enums := []; df_structs := [mkStruct [mkProperty (bs "xp") TyInt 8] 0 0];
  df_indexed_arrays := []; df_enum_arrays := [];
|}.

Definition demo_schemas : gmap (list byte) (list Definition_) := {[ PLAYER_SCHEMA := [demo_player] ]}.
Definition demo_account : AccountId := replicate 16 (byte_of 7).
Definition no_float (_ : list byte) : option Z := None.
Definition no_change (_ _ _ : Z) : Z := 0.
Definition no_ranked (_ : Z) (_ : list (Z * Outcome)) : Z := 0.

Definition demo_ops : list StoreOp :=
  [OpInstall demo_schemas; OpCreate demo_account 5 9 (stamped demo_player); OpBind 1 demo_account].

Definition demo_store : PersistentDataStore := run no_float no_change no_ranked demo_ops store_default.

Lemma store_default_ok : store_ok store_default.
Proof. split; cbn; try (intros *; rewrite lookup_empty; done). intros a Ha. unfold is_temporary in Ha. cbn in Ha. by rewrite lookup_empty in Ha. Qed.

Lemma demo_schemas_typed : typed_op (OpInstall demo_schemas).
Proof.
  intros name set d Hset Hd. unfold demo_schemas in Hset. apply lookup_singleton_Some in Hset as [_ <-]. apply list_elem_of_singleton in Hd as ->.
  split; cbn; repeat (first [apply list.Forall_cons; split | apply list.Forall_nil; done | split]; cbn);
    unfold is_usize, usize_max; try done; try lia.
Qed.

Lemma demo_ops_typed : Forall typed_op demo_ops.
Proof.
  apply list.Forall_cons. split; [exact demo_schemas_typed|].
  apply list.Forall_cons. split; [exact I|]. apply list.Forall_cons. split; [exact I|]. by apply list.Forall_nil.
Qed.

Lemma demo_store_ok : store_ok demo_store.
Proof.
  refine (proj1 (run_evolves no_float no_change no_ranked demo_account demo_ops store_default store_default_ok demo_ops_typed _)).
  do 3 (apply list.Forall_cons; split; [intros []|]). by apply list.Forall_nil.
Qed.

Lemma store_operations_safe_witness :
  (perform no_float no_change no_ranked (OpInstall demo_schemas) store_default).2 = Ok () /\
  store_ok (perform no_float no_change no_ranked (OpInstall demo_schemas) store_default).1.
Proof.
  split; [vm_compute; reflexivity|].
  exact (proj1 (store_operations_safe no_float no_change no_ranked (OpInstall demo_schemas) store_default store_default_ok demo_schemas_typed)).
Defined.

Definition demo_snapshot : AccountSnapshot := mkSnapshot demo_account 0 5 9 (stamped demo_player) ratings_default.

Lemma pair_of_second {A B} (p : A * B) b : p.2 = b -> p = (p.1, b).
Proof. destruct p; cbn. by intros ->. Qed.

Lemma demo_snapshot_taken : snapshot demo_store demo_account = Some demo_snapshot.
Proof. apply (bool_decide_eq_true_1 _). vm_compute. reflexivity. Qed.

Lemma acknowledged_snapshot_is_current_witness :
  exists s', acknowledge_saved demo_account 0 (run no_float no_change no_ranked [OpUnbind 1] demo_store) = (s', true) /\
    snapshot s' demo_account = Some demo_snapshot.
Proof.
  eexists. split; [apply pair_of_second; vm_compute; reflexivity|].
  refine (proj1 (acknowledged_snapshot_is_current no_float no_change no_ranked [OpUnbind 1] demo_store demo_account demo_snapshot _
    demo_store_ok _ _ demo_snapshot_taken _ _)).
  - apply list.Forall_cons. split; [exact I|by apply list.Forall_nil].
  - apply list.Forall_cons. split; [intros []|by apply list.Forall_nil].
  - vm_compute. reflexivity.
  - apply pair_of_second. vm_compute. reflexivity.
Defined.

Lemma written_field_is_read_witness :
  exists s', store_write 1 [KName (bs "xp")] (VInt 250) demo_store = (s', Ok true) /\
    exists d ty value', stored d ty (VInt 250) value' /\ store_read s' 1 [KName (bs "xp")] = Ok value'.
Proof.
  eexists. split; [apply pair_of_second; vm_compute; reflexivity|].
  refine (proj1 (written_field_is_read demo_store _ 1 [KName (bs "xp")] (VInt 250) true demo_store_ok _ _)).
  - split; vm_compute; discriminate.
  - apply pair_of_second. vm_compute. reflexivity.
Defined.
