(* ===== verification/Accounts.v ===== *)
(** * Accounts over the network

    crates/net/src/account_identity.rs: a player proves that an account is theirs by signing the
    host's challenge together with the data they send.  crates/net/src/transport/account_wire.rs:
    the messages about accounts.

    SHA-256 and Ed25519 are the [ring] crate's: parameters, with what the proofs rely on as
    hypotheses of the theorems.  A random draw is an input. *)

From S2P Require Export SessionTypes Protocol Bootstrap PersistentData.

#[local] Open Scope Z_scope.

Inductive AccountIdentityError : Type := Entropy | InvalidKey | InvalidContext | InvalidProof.

Record AccountChallenge : Type := mkChallenge {
  ac_match_key : MatchKey;
  ac_connection : Z;
  ac_member : MemberId;
  ac_nonce : list byte;
}.

#[export] Instance account_challenge_eq_dec : EqDecision AccountChallenge.
Proof. solve_decision. Defined.

Record AccountProof : Type := mkProof {
  ap_account : AccountId;
  ap_public_key : list byte;
  ap_signature : list byte;
}.

Definition zeros (n : nat) : list byte := replicate n (byte_of 0).

(** [while nonce == [0; 32] { fill }]: the draws are what [SystemRandom::fill] gives, [None] its
    failure. *)
Fixpoint draw (draws : list (option (list byte))) : option (Result AccountIdentityError (list byte)) :=
  match draws with
  | [] => None
  | None :: _ => Some (Err Entropy)
  | Some bytes :: draws => if bool_decide (bytes = zeros 32) then draw draws else Some (Ok bytes)
  end.

(** [AccountChallenge::new], with the outcome of the draw. *)
Definition challenge_new (match_key : MatchKey) (connection : Z) (member : MemberId)
    (nonce : Result AccountIdentityError (list byte)) : Result AccountIdentityError AccountChallenge :=
  _ ← fail_if (key_is_none match_key || bool_decide (mk_session_id match_key = zeros 16) || (connection =? 0)
               || bool_decide (member_bytes member = zeros 16)) InvalidContext;
  nonce ← nonce;
  mret (mkChallenge match_key connection member nonce).

(** ** Messages *)

Definition ACCOUNT_MAGIC : list byte := bs "IW4LACP2".
Definition ACCOUNT_MAX_BYTES : Z := 8500.

Inductive AccountMessage : Type :=
| AmChallenge (challenge : AccountChallenge)
| AmProfile (challenge : AccountChallenge) (proof : AccountProof) (snapshot : option AccountSnapshot)
| AmUpdate (challenge : AccountChallenge) (snapshot : AccountSnapshot)
| AmSaved (challenge : AccountChallenge) (account : AccountId) (revision : Z)
| AmRefused (challenge : AccountChallenge).

Definition put_snapshot (account : AccountId) (snapshot : option AccountSnapshot) : Result WireError (list byte) :=
  match snapshot with
  | None => Ok (put_u8 0)
  | Some snapshot =>
      _ ← fail_if (negb (bool_decide (as_account snapshot = account))
                   || negb (zlen (as_bytes snapshot) =? PLAYER_DATA_BUFFER_BYTES)
                   || negb (bool_decide (slice (as_bytes snapshot) 0 4 = le_bytes 4 (wrap32 (as_version snapshot))))
                   || negb (bool_decide (slice (as_bytes snapshot) 4 8 = le_bytes 4 (as_checksum snapshot))))
                  (malformed "account snapshot owner, size or stamp");
      mret (put_u8 1 ++ put_u64 (as_revision snapshot) ++ put_i32 (as_version snapshot) ++
            put_u32 (as_checksum snapshot) ++ put_bytes (as_bytes snapshot) ++ put_bytes (skill_encode (as_skills snapshot)))
  end.

Definition profile_payload (account : AccountId) (snapshot : option AccountSnapshot) : Result WireError (list byte) :=
  body ← put_snapshot account snapshot;
  mret (put_bytes account ++ body).

Definition get_snapshot (account : AccountId) : WParser (option AccountSnapshot) :=
  tag ← get_u8;
  if tag =? 0 then mret None
  else if tag =? 1 then
    revision ← get_u64;
    version ← get_i32;
    checksum ← get_u32;
    bytes ← get_bytes PLAYER_DATA_BUFFER_BYTES;
    rows ← get_bytes SKILL_RATING_BYTES;
    skills ← lift (match skill_decode rows with Ok skills => Ok skills | Err _ => Err (malformed "account skill ratings") end);
    _ ← lift (fail_if (negb (bool_decide (slice bytes 0 4 = le_bytes 4 (wrap32 version)))
                       || negb (bool_decide (slice bytes 4 8 = le_bytes 4 checksum)))
                      (malformed "account snapshot stamp"));
    mret (Some (mkSnapshot account revision version checksum bytes skills))
  else lift (Err (malformed "account snapshot tag")).

Definition put_context (c : AccountChallenge) : list byte :=
  put_bytes (mk_session_id (ac_match_key c)) ++ put_u32 (mk_match_epoch (ac_match_key c)) ++
  put_u64 (ac_connection c) ++ put_bytes (member_bytes (ac_member c)) ++ put_bytes (ac_nonce c).

Definition get_context : WParser AccountChallenge :=
  session_id ← get_bytes 16;
  epoch ← get_u32;
  connection ← get_u64;
  member ← get_bytes 16;
  nonce ← get_bytes 32;
  _ ← lift (fail_if (bool_decide (session_id = zeros 16) || (epoch =? 0) || (connection =? 0)
                     || bool_decide (member = zeros 16) || bool_decide (nonce = zeros 32))
                    (malformed "account challenge context"));
  mret (mkChallenge (mkMatchKey session_id epoch) connection (mkMemberId member) nonce).

Definition encode_account (message : AccountMessage) : Result WireError (list byte) :=
  match message with
  | AmChallenge c => Ok (ACCOUNT_MAGIC ++ put_u8 0 ++ put_context c)
  | AmRefused c => Ok (ACCOUNT_MAGIC ++ put_u8 4 ++ put_context c)
  | AmProfile c proof snapshot =>
      body ← put_snapshot (ap_account proof) snapshot;
      mret (ACCOUNT_MAGIC ++ put_u8 1 ++ put_context c ++ put_bytes (ap_account proof) ++
            put_bytes (ap_public_key proof) ++ put_bytes (ap_signature proof) ++ body)
  | AmUpdate c snapshot =>
      body ← put_snapshot (as_account snapshot) (Some snapshot);
      mret (ACCOUNT_MAGIC ++ put_u8 2 ++ put_context c ++ put_bytes (as_account snapshot) ++ body)
  | AmSaved c account revision =>
      Ok (ACCOUNT_MAGIC ++ put_u8 3 ++ put_context c ++ put_bytes account ++ put_u64 revision)
  end.

Definition account_body : WParser AccountMessage :=
  tag ← get_u8;
  challenge ← get_context;
  if tag =? 0 then mret (AmChallenge challenge)
  else if tag =? 1 then
    account ← get_bytes 16;
    public_key ← get_bytes 32;
    signature ← get_bytes 64;
    snapshot ← get_snapshot account;
    mret (AmProfile challenge (mkProof account public_key signature) snapshot)
  else if tag =? 2 then
    account ← get_bytes 16;
    snapshot ← get_snapshot account;
    snapshot ← lift (ok_or (malformed "empty account update") snapshot);
    mret (AmUpdate challenge snapshot)
  else if tag =? 3 then
    account ← get_bytes 16;
    revision ← get_u64;
    mret (AmSaved challenge account revision)
  else if tag =? 4 then mret (AmRefused challenge)
  else lift (Err (malformed "account packet tag")).

Definition decode_account (bytes : list byte) : Result WireError (option AccountMessage) :=
  if negb (starts_with ACCOUNT_MAGIC bytes) then Ok None
  else if ACCOUNT_MAX_BYTES <? zlen bytes then Err (malformed "account packet size")
  else '(message, input) ← account_body (mkReader (zdrop (zlen ACCOUNT_MAGIC) bytes) 0);
       if reader_is_empty input then Ok (Some message) else Err (malformed "trailing account packet bytes").

(** ** Proofs of identity *)

Definition IDENTITY_PREFIX : list byte := bs "IW4L account identity v1" ++ [byte_of 0].
Definition PROOF_PREFIX : list byte := bs "IW4L account proof v1" ++ [byte_of 0].

Section Ring.
(** [digest::digest(&SHA256, _)]. *)
Variable sha256 : list byte -> list byte.
(** [UnparsedPublicKey::new(&ED25519, key).verify(message, signature)]. *)
Variable ed25519_verify : list byte -> list byte -> list byte -> bool.
(** The public key of a seed, and the signature with it. *)
Variable ed25519_public : list byte -> list byte.
Variable ed25519_sign : list byte -> list byte -> list byte.

Definition account_from_public_key (public_key : list byte) : AccountId := ztake 16 (sha256 (IDENTITY_PREFIX ++ public_key)).

Definition proof_message (c : AccountChallenge) (account : AccountId) (payload : list byte) : list byte :=
  PROOF_PREFIX ++ mk_session_id (ac_match_key c) ++ le_bytes 4 (mk_match_epoch (ac_match_key c)) ++
  le_bytes 8 (ac_connection c) ++ member_bytes (ac_member c) ++ ac_nonce c ++ account ++ sha256 payload.

Definition verify (proof : AccountProof) (c : AccountChallenge) (payload : list byte)
    : Result AccountIdentityError AccountId :=
  _ ← fail_if (bool_decide (ap_account proof = zeros 16)
               || negb (bool_decide (account_from_public_key (ap_public_key proof) = ap_account proof))) InvalidProof;
  _ ← fail_if (negb (ed25519_verify (ap_public_key proof) (proof_message c (ap_account proof) payload) (ap_signature proof)))
              InvalidProof;
  mret (ap_account proof).

(** An [AccountKey] is its seed. *)
Definition key_from_seed (seed : list byte) : Result AccountIdentityError (list byte) :=
  _ ← fail_if (bool_decide (seed = zeros 32)) InvalidKey; mret seed.

Definition key_generate (seed : Result AccountIdentityError (list byte)) : Result AccountIdentityError (list byte) :=
  seed ← seed; key_from_seed seed.

Definition key_account (seed : list byte) : AccountId := account_from_public_key (ed25519_public seed).

Definition prove (seed : list byte) (c : AccountChallenge) (payload : list byte) : AccountProof :=
  mkProof (key_account seed) (ed25519_public seed) (ed25519_sign seed (proof_message c (key_account seed) payload)).
End Ring.

(** * Properties of the account messages and proofs

    What is decoded is exactly what was encoded, and a message always fits its size limit; a proof
    of identity stands for one challenge and one payload. *)

(** ** Ratings *)

Definition valid_rating (row : SkillRating) : Prop := is_i32 (sk_rating row) /\ is_u64 (sk_events row).
Definition valid_skills (rows : SkillRatings) : Prop := length rows = 8%nat /\ Forall valid_rating rows.

Lemma skill_rows_encode rows rest :
  Forall valid_rating rows -> skill_rows (length rows) (skill_encode rows ++ rest) = rows.
Proof.
  intros Hv. induction rows as [|[rating events] rows IH]; [done|]. apply list.Forall_cons in Hv as [[Hr He] Hv].
  cbn [sk_rating sk_events] in *. cbn [length skill_rows skill_encode map concat].
  change (concat (map _ rows)) with (skill_encode rows). rewrite <- !app_assoc.
  rewrite (slice_at _ [] (le_bytes 4 (wrap32 rating)) (le_bytes 8 events ++ skill_encode rows ++ rest)) by (cbn; by rewrite ?zlen_le_bytes).
  rewrite (slice_at _ (le_bytes 4 (wrap32 rating)) (le_bytes 8 events) (skill_encode rows ++ rest)) by (by rewrite ?zlen_le_bytes).
  rewrite (zdrop_at _ (le_bytes 4 (wrap32 rating) ++ le_bytes 8 events) (skill_encode rows ++ rest));
    [|by rewrite <- app_assoc|by rewrite zlen_app, !zlen_le_bytes].
  rewrite le_val_bytes by (unfold wrap32; apply Z.mod_pos_bound; done). rewrite to_signed_wrap32 by done.
  rewrite le_val_bytes by (unfold is_u64, u64_max in He; cbn; lia). by rewrite IH.
Qed.

Lemma zlen_skill_encode rows : zlen (skill_encode rows) = 12 * zlen rows.
Proof.
  induction rows as [|row rows IH]; [done|]. unfold skill_encode in *. cbn [map concat].
  rewrite !zlen_app, !zlen_le_bytes, IH, zlen_cons. lia.
Qed.

Lemma skill_decode_encode rows : valid_skills rows -> skill_decode (skill_encode rows) = Ok rows.
Proof.
  intros [Hl Hv]. unfold skill_decode. rewrite zlen_skill_encode. unfold zlen. rewrite Hl.
  change (negb (12 * Z.of_nat 8 =? SKILL_RATING_BYTES)) with false. cbv iota. f_equal.
  rewrite <- (app_nil_r (skill_encode rows)). rewrite <- Hl at 1. by apply skill_rows_encode.
Qed.

Lemma skill_rows_exact n : forall bytes, zlen bytes = 12 * Z.of_nat n ->
  length (skill_rows n bytes) = n /\ Forall valid_rating (skill_rows n bytes) /\ skill_encode (skill_rows n bytes) = bytes.
Proof.
  induction n as [|n IH]; intros bytes Hl; cbn [skill_rows].
  { destruct bytes as [|b bytes]; [done|]. rewrite zlen_cons in Hl. pose proof (zlen_nonneg bytes). lia. }
  assert (Hsplit : bytes = slice bytes 0 4 ++ slice bytes 4 12 ++ zdrop 12 bytes).
  { unfold slice, ztake, zdrop. change (Z.to_nat (4 - 0)) with 4%nat. change (Z.to_nat 0) with 0%nat.
    change (Z.to_nat (12 - 4)) with 8%nat. change (Z.to_nat 4) with 4%nat. change (Z.to_nat 12) with 12%nat.
    rewrite drop_0. replace (drop 12 bytes) with (drop 8 (drop 4 bytes)) by (by rewrite drop_drop).
    by rewrite !take_drop. }
  assert (H4 : zlen (slice bytes 0 4) = 4) by (rewrite zlen_slice; lia).
  assert (H8 : zlen (slice bytes 4 12) = 8) by (rewrite zlen_slice; lia).
  assert (Hr : zlen (zdrop 12 bytes) = 12 * Z.of_nat n) by (unfold zlen, zdrop in *; rewrite length_drop; lia).
  destruct (IH _ Hr) as (Hlen & Hv & He). split; [cbn; by rewrite Hlen|].
  pose proof (le_val_range (slice bytes 0 4)) as R4. rewrite H4 in R4.
  pose proof (le_val_range (slice bytes 4 12)) as R8. rewrite H8 in R8.
  destruct (to_signed_32 (le_val (slice bytes 0 4))) as [Hi Hw]; [unfold is_u32, u32_max; change (256 ^ 4) with 4294967296 in R4; lia|].
  split.
  - constructor; [|done]. split; cbn; [done|]. unfold is_u64, u64_max. change (256 ^ 8) with 18446744073709551616 in R8. lia.
  - unfold skill_encode in *. cbn [map concat sk_rating sk_events]. rewrite He, Hw.
    replace (le_bytes 4 (le_val (slice bytes 0 4))) with (slice bytes 0 4)
      by (rewrite <- (le_bytes_val (slice bytes 0 4)) at 1; f_equal; unfold zlen in H4; lia).
    replace (le_bytes 8 (le_val (slice bytes 4 12))) with (slice bytes 4 12)
      by (rewrite <- (le_bytes_val (slice bytes 4 12)) at 1; f_equal; unfold zlen in H8; lia).
    rewrite <- app_assoc. by rewrite <- Hsplit.
Qed.

Lemma skill_decode_exact bytes rows :
  skill_decode bytes = Ok rows -> valid_skills rows /\ skill_encode rows = bytes /\ zlen bytes = SKILL_RATING_BYTES.
Proof.
  unfold skill_decode. destruct (Z.eqb_spec (zlen bytes) SKILL_RATING_BYTES) as [E|]; [|discriminate]. cbn [negb]. intros <-%ok_inj.
  destruct (skill_rows_exact 8 bytes) as (? & ? & ?); [by rewrite E|]. done.
Qed.

(** ** Messages *)

Definition valid_context (c : AccountChallenge) : Prop :=
  zlen (mk_session_id (ac_match_key c)) = 16 /\ mk_session_id (ac_match_key c) <> zeros 16 /\
  is_u32 (mk_match_epoch (ac_match_key c)) /\ mk_match_epoch (ac_match_key c) <> 0 /\
  is_u64 (ac_connection c) /\ ac_connection c <> 0 /\
  zlen (member_bytes (ac_member c)) = 16 /\ member_bytes (ac_member c) <> zeros 16 /\
  zlen (ac_nonce c) = 32 /\ ac_nonce c <> zeros 32.

Definition valid_snapshot (account : AccountId) (s : AccountSnapshot) : Prop :=
  as_account s = account /\ is_u64 (as_revision s) /\ is_i32 (as_version s) /\ is_u32 (as_checksum s) /\
  zlen (as_bytes s) = PLAYER_DATA_BUFFER_BYTES /\
  slice (as_bytes s) 0 4 = le_bytes 4 (wrap32 (as_version s)) /\ slice (as_bytes s) 4 8 = le_bytes 4 (as_checksum s) /\
  valid_skills (as_skills s).

Definition valid_account_message (m : AccountMessage) : Prop :=
  match m with
  | AmChallenge c | AmRefused c => valid_context c
  | AmProfile c proof snapshot =>
      valid_context c /\ zlen (ap_account proof) = 16 /\ zlen (ap_public_key proof) = 32 /\ zlen (ap_signature proof) = 64 /\
      (forall s, snapshot = Some s -> valid_snapshot (ap_account proof) s)
  | AmUpdate c snapshot => valid_context c /\ zlen (as_account snapshot) = 16 /\ valid_snapshot (as_account snapshot) snapshot
  | AmSaved c account revision => valid_context c /\ zlen account = 16 /\ is_u64 revision
  end.

Lemma array_consumes {B} n (k : list byte -> WParser B) Q :
  0 <= n -> (forall u, zlen u = n -> consumes (k u) (fun y u2 => Q y (put_bytes u ++ u2))) -> consumes (u ← get_bytes n; k u) Q.
Proof. intros Hn Hk. eapply consumes_bind; [by apply consumes_wr_take|]. intros x u [-> Hu]. by apply Hk. Qed.

Ltac exact_array := apply array_consumes; [done|]; let u := fresh "a" in let H := fresh "Ha" in intros u H; cbv beta.

Lemma array_parses {B} n (k : list byte -> WParser B) u u2 y :
  zlen u = n -> parses (k u) u2 y -> parses (u ← get_bytes n; k u) (put_bytes u ++ u2) y.
Proof. intros Hn Hk. eapply parses_bind; [by apply parses_get_bytes|done]. Qed.

Ltac array_step := apply array_parses; [done|].

#[export] Instance context_exact : WireExact put_context get_context valid_context.
Proof.
  split. unfold get_context. exact_array. do 2 exact_field. do 2 exact_array. exact_check.
  do 4 (apply orb_false_iff in Eb as [Eb ?]). exact_done. unfold valid_context, put_context. cbn [ac_match_key ac_connection ac_member ac_nonce mk_session_id mk_match_epoch member_bytes].
  repeat match goal with H : bool_decide _ = false |- _ => apply bool_decide_eq_false in H | H : (_ =? _) = false |- _ => apply Z.eqb_neq in H end.
  done.
Qed.

Lemma context_parses c : valid_context c -> parses get_context (put_context c) c.
Proof.
  intros (H1 & H2 & H3 & H4 & H5 & H6 & H7 & H8 & H9 & H10). destruct c as [[session epoch] connection [member] nonce].
  cbn [ac_match_key ac_connection ac_member ac_nonce mk_session_id mk_match_epoch member_bytes] in *.
  unfold get_context, put_context. cbn [ac_match_key ac_connection ac_member ac_nonce mk_session_id mk_match_epoch member_bytes].
  array_step. do 2 wire_step. array_step. rewrite <- (app_nil_r (put_bytes nonce)). array_step.
  eapply parses_lift; [|apply parses_ret]. unfold fail_if.
  rewrite !bool_decide_eq_false_2 by done. rewrite !(proj2 (Z.eqb_neq _ _)) by done. done.
Qed.

Lemma put_snapshot_valid account s body :
  put_snapshot account (Some s) = Ok body ->
  as_account s = account /\ zlen (as_bytes s) = PLAYER_DATA_BUFFER_BYTES /\
  slice (as_bytes s) 0 4 = le_bytes 4 (wrap32 (as_version s)) /\ slice (as_bytes s) 4 8 = le_bytes 4 (as_checksum s) /\
  body = put_u8 1 ++ put_u64 (as_revision s) ++ put_i32 (as_version s) ++ put_u32 (as_checksum s) ++
         put_bytes (as_bytes s) ++ put_bytes (skill_encode (as_skills s)).
Proof.
  unfold put_snapshot, fail_if. destruct (_ || _) eqn:E; [discriminate|]. cbn [mbind result_bind mret result_ret]. intros <-%ok_inj.
  do 3 (apply orb_false_iff in E as [E ?]).
  repeat match goal with H : negb _ = false |- _ => apply negb_false_iff in H end.
  repeat match goal with H : bool_decide _ = true |- _ => apply bool_decide_eq_true in H end.
  split; [done|]. split; [lia|]. done.
Qed.

Lemma put_snapshot_ok account s :
  valid_snapshot account s ->
  put_snapshot account (Some s) = Ok (put_u8 1 ++ put_u64 (as_revision s) ++ put_i32 (as_version s) ++ put_u32 (as_checksum s) ++
         put_bytes (as_bytes s) ++ put_bytes (skill_encode (as_skills s))).
Proof.
  intros (H1 & H2 & H3 & H4 & H5 & H6 & H7 & H8). unfold put_snapshot, fail_if.
  rewrite H5. rewrite !bool_decide_eq_true_2 by done. done.
Qed.

Lemma snapshot_parses account o body :
  (forall s, o = Some s -> valid_snapshot account s) -> put_snapshot account o = Ok body -> parses (get_snapshot account) body o.
Proof.
  destruct o as [s|]; intros Hv Hb; unfold get_snapshot.
  - specialize (Hv s eq_refl). rewrite (put_snapshot_ok _ _ Hv) in Hb. apply ok_inj in Hb as <-.
    destruct Hv as (H1 & H2 & H3 & H4 & H5 & H6 & H7 & H8). destruct s as [acc rev version checksum bytes skills].
    cbn [as_account as_revision as_version as_checksum as_bytes as_skills] in *. subst acc.
    wire_step. cbn [Z.eqb Pos.eqb]. do 3 wire_step. array_step.
    rewrite <- (app_nil_r (put_bytes (skill_encode skills))). apply array_parses.
    { rewrite zlen_skill_encode. destruct H8 as [H8 _]. unfold zlen. by rewrite H8. }
    eapply parses_lift; [by rewrite skill_decode_encode|]. eapply parses_lift; [|apply parses_ret].
    unfold fail_if. rewrite H6, H7. by rewrite !bool_decide_eq_true_2.
  - cbn in Hb. apply ok_inj in Hb as <-. rewrite <- (app_nil_r (put_u8 0)). wire_step. cbn [Z.eqb]. apply parses_ret.
Qed.

Lemma snapshot_consumes account :
  consumes (get_snapshot account) (fun o u => (forall s, o = Some s -> valid_snapshot account s) /\ put_snapshot account o = Ok u).
Proof.
  unfold get_snapshot. exact_field. next_tag; [|next_tag; [|apply consumes_err]].
  - exact_done. done.
  - do 3 exact_field. do 2 exact_array. apply consumes_lift. intros skills Hs.
    destruct (skill_decode a0) as [sk|] eqn:Esk; [|discriminate]. apply ok_inj in Hs as ->.
    apply skill_decode_exact in Esk as (Hsk & <- & _). exact_check. apply orb_false_iff in Eb as [E1 E2].
    apply negb_false_iff, bool_decide_eq_true in E1. apply negb_false_iff, bool_decide_eq_true in E2. exact_done.
    assert (Hvs : valid_snapshot account (mkSnapshot account v v0 v1 a skills)).
    { unfold valid_snapshot. cbn [as_account as_revision as_version as_checksum as_bytes as_skills]. done. }
    split; [by intros s [= <-]|]. by rewrite (put_snapshot_ok _ _ Hvs).
Qed.

Lemma account_parses m bytes :
  valid_account_message m -> encode_account m = Ok bytes ->
  exists body, bytes = ACCOUNT_MAGIC ++ body /\ parses account_body body m.
Proof.
  intros Hm He. destruct m as [c|c proof s|c s|c account revision|c]; cbn [valid_account_message encode_account] in *.
  - apply ok_inj in He as <-. eexists. split; [done|]. unfold account_body. wire_step.
    rewrite <- (app_nil_r (put_context c)). eapply parses_bind; [by apply context_parses|]. cbv beta. cbn [Z.eqb]. apply parses_ret.
  - destruct Hm as (Hc & H1 & H2 & H3 & H4). destruct (put_snapshot (ap_account proof) s) as [body|] eqn:Eb; [|discriminate].
    cbn [mbind result_bind mret result_ret] in He. apply ok_inj in He as <-. eexists. split; [done|].
    unfold account_body. wire_step. eapply parses_bind; [by apply context_parses|]. cbv beta. cbn [Z.eqb Pos.eqb].
    do 3 array_step. rewrite <- (app_nil_r body). eapply parses_bind; [by apply snapshot_parses|]. destruct proof. apply parses_ret.
  - destruct Hm as (Hc & H1 & H2). rewrite (put_snapshot_ok _ _ H2) in He. cbn [mbind result_bind mret result_ret] in He.
    apply ok_inj in He as <-. eexists. split; [done|].
    unfold account_body. wire_step. eapply parses_bind; [by apply context_parses|]. cbv beta. cbn [Z.eqb Pos.eqb].
    array_step. apply parses_nil_r.
    eapply parses_bind; [apply (snapshot_parses _ (Some s)); [by intros ? [= <-]|by apply put_snapshot_ok]|]. cbv beta.
    eapply parses_lift; [reflexivity|]. apply parses_ret.
  - destruct Hm as (Hc & H1 & H2). apply ok_inj in He as <-. eexists. split; [done|].
    unfold account_body. wire_step. eapply parses_bind; [by apply context_parses|]. cbv beta. cbn [Z.eqb Pos.eqb].
    array_step. rewrite <- (app_nil_r (put_u64 revision)). wire_step. apply parses_ret.
  - apply ok_inj in He as <-. eexists. split; [done|]. unfold account_body. wire_step.
    rewrite <- (app_nil_r (put_context c)). eapply parses_bind; [by apply context_parses|]. cbv beta. cbn [Z.eqb Pos.eqb]. apply parses_ret.
Qed.

Lemma account_consumes :
  consumes account_body (fun m u => valid_account_message m /\ encode_account m = Ok (ACCOUNT_MAGIC ++ u)).
Proof.
  unfold account_body. do 2 exact_field. do 5 (try next_tag); try apply consumes_err.
  - exact_done. done.
  - do 3 exact_array. eapply consumes_bind; [apply snapshot_consumes|]. intros o u [Hs Hb]. exact_done.
    split; [done|]. cbn [encode_account ap_account ap_public_key ap_signature]. rewrite Hb. cbn [mbind result_bind mret result_ret].
    by rewrite <- ?app_assoc.
  - exact_array. eapply consumes_bind; [apply snapshot_consumes|]. intros o u [Hs Hb]. apply consumes_lift. intros s Hos.
    destruct o as [s'|]; [|discriminate]. cbn in Hos. apply ok_inj in Hos as ->. specialize (Hs s eq_refl).
    pose proof Hs as (Hacc & _). subst a. exact_done. split; [done|]. cbn [encode_account]. rewrite Hb. cbn [mbind result_bind mret result_ret].
    by rewrite <- ?app_assoc.
  - exact_array. exact_field. exact_done. done.
  - exact_done. done.
Qed.

Lemma zlen_context c : valid_context c -> zlen (put_context c) = 76.
Proof.
  intros (H1 & _ & _ & _ & _ & _ & H7 & _ & H9 & _). unfold put_context, put_bytes, put_u32, put_u64.
  rewrite !zlen_app, !zlen_le_bytes, H1, H7, H9. done.
Qed.

Lemma zlen_snapshot account o body :
  (forall s, o = Some s -> valid_snapshot account s) -> put_snapshot account o = Ok body -> zlen body <= 8301.
Proof.
  destruct o as [s|]; intros Hv Hb.
  - specialize (Hv s eq_refl). rewrite (put_snapshot_ok _ _ Hv) in Hb. apply ok_inj in Hb as <-.
    destruct Hv as (_ & _ & _ & _ & H5 & _ & _ & [H8 _]). unfold put_bytes, put_u8, put_u64, put_i32, put_u32.
    rewrite !zlen_app, !zlen_le_bytes, zlen_skill_encode, H5. unfold zlen at 2. rewrite H8. done.
  - cbn in Hb. by apply ok_inj in Hb as <-.
Qed.

(** Every message fits the limit. *)
Lemma account_size m bytes :
  valid_account_message m -> encode_account m = Ok bytes -> zlen bytes <= ACCOUNT_MAX_BYTES.
Proof.
  intros Hm He. unfold ACCOUNT_MAX_BYTES.
  destruct m as [c|c proof s|c s|c account revision|c]; cbn [valid_account_message encode_account] in *.
  - apply ok_inj in He as <-. rewrite !zlen_app, zlen_context by done. done.
  - destruct Hm as (Hc & H1 & H2 & H3 & H4). destruct (put_snapshot (ap_account proof) s) as [body|] eqn:Eb; [|discriminate].
    cbn [mbind result_bind mret result_ret] in He. apply ok_inj in He as <-. apply zlen_snapshot in Eb; [|done].
    unfold put_bytes. rewrite !zlen_app, zlen_context, H1, H2, H3 by done. change (zlen ACCOUNT_MAGIC) with 8. change (zlen (put_u8 1)) with 1. lia.
  - destruct Hm as (Hc & H1 & H2). destruct (put_snapshot (as_account s) (Some s)) as [body|] eqn:Eb; [|discriminate].
    cbn [mbind result_bind mret result_ret] in He. apply ok_inj in He as <-. apply zlen_snapshot in Eb; [|by intros ? [= <-]].
    unfold put_bytes. rewrite !zlen_app, zlen_context, H1 by done. change (zlen ACCOUNT_MAGIC) with 8. change (zlen (put_u8 2)) with 1. lia.
  - destruct Hm as (Hc & H1 & H2). apply ok_inj in He as <-. unfold put_bytes, put_u64. rewrite !zlen_app, zlen_context, H1, zlen_le_bytes by done. done.
  - apply ok_inj in He as <-. rewrite !zlen_app, zlen_context by done. done.
Qed.

Lemma fits_app_r (l1 l2 : list byte) : fits (l1 ++ l2) -> fits l2.
Proof. unfold fits. rewrite zlen_app. pose proof (zlen_nonneg l1). lia. Qed.

(** C37. An account message is read back as it was sent, and only what a sender writes is read:
    bytes decode to a message exactly when they are the encoding of a well-formed one, which
    always fits the size limit.  Bytes without the magic are something else, not an error. *)
Theorem account_message_iff m bytes :
  fits bytes ->
  (decode_account bytes = Ok (Some m) <-> valid_account_message m /\ encode_account m = Ok bytes) /\
  (decode_account bytes = Ok None <-> take 8 bytes <> ACCOUNT_MAGIC).
Proof.
  intros Hfit. unfold decode_account, starts_with. change (length ACCOUNT_MAGIC) with 8%nat.
  destruct (decide (take 8 bytes = ACCOUNT_MAGIC)) as [Hmagic|Hmagic].
  - rewrite bool_decide_eq_true_2 by done. cbn [negb].
    assert (Hsplit : bytes = ACCOUNT_MAGIC ++ zdrop (zlen ACCOUNT_MAGIC) bytes)
      by (rewrite <- Hmagic at 1; unfold zdrop; change (Z.to_nat (zlen ACCOUNT_MAGIC)) with 8%nat; by rewrite take_drop).
    set (body := zdrop (zlen ACCOUNT_MAGIC) bytes) in *.
    assert (Hfb : fits body) by (rewrite Hsplit in Hfit; by apply fits_app_r in Hfit).
    destruct (Z.ltb_spec ACCOUNT_MAX_BYTES (zlen bytes)) as [Hlong|Hlong].
    + split; [|done]. split; [discriminate|]. intros [Hm He]. pose proof (account_size _ _ Hm He). lia.
    + split; [split|].
      * destruct (account_body (mkReader body 0)) as [[m' input]|] eqn:Erun; [|discriminate].
        cbn [mbind result_bind]. destruct (reader_is_empty input) eqn:Eempty; [|discriminate]. intros [= ->].
        apply Z.eqb_eq in Eempty. unfold remaining in Eempty.
        destruct (consumes_whole _ _ body m input account_consumes Hfb Erun) as [Hm He]; [lia|].
        split; [done|]. by rewrite Hsplit.
      * intros [Hm He]. destruct (account_parses _ _ Hm He) as (body' & Hb & Hp). rewrite Hsplit in Hb. apply app_inv_head in Hb as <-.
        rewrite (parses_whole _ _ _ Hp Hfb). cbn [mbind result_bind]. unfold reader_is_empty, remaining. cbn. by rewrite Z.sub_diag.
      * destruct (account_body _) as [[m' input]|]; cbn; [|done]. by destruct (reader_is_empty input).
  - rewrite bool_decide_eq_false_2 by done. cbn [negb]. split; [|done]. split; [discriminate|].
    intros [Hm He]. destruct (account_parses _ _ Hm He) as (body & -> & _). by destruct Hmagic.
Qed.

Definition demo_challenge : AccountChallenge :=
  mkChallenge (mkMatchKey (replicate 16 (byte_of 1)) 3) 5 (mkMemberId (replicate 16 (byte_of 2))) (replicate 32 (byte_of 4)).

Lemma account_message_iff_witness :
  let m := AmSaved demo_challenge (replicate 16 (byte_of 7)) 12 in
  exists bytes, encode_account m = Ok bytes /\ decode_account bytes = Ok (Some m).
Proof.
  eexists. split; [reflexivity|].
  refine (proj2 (proj1 (account_message_iff _ _ _)) _); [vm_compute; congruence|].
  split; [|reflexivity]. vm_compute. intuition congruence.
Defined.

(** ** Proofs of identity *)

Section Ring.
Context (sha256 : list byte -> list byte) (ed25519_verify : list byte -> list byte -> list byte -> bool).
Context (ed25519_public : list byte -> list byte) (ed25519_sign : list byte -> list byte -> list byte).

Lemma app_inj_zlen {A} (a1 a2 b1 b2 : list A) : zlen a1 = zlen a2 -> a1 ++ b1 = a2 ++ b2 -> a1 = a2 /\ b1 = b2.
Proof. intros Hl H. apply app_inj_1 in H; [done|unfold zlen in Hl; lia]. Qed.

Lemma le_bytes_inj n a b : 0 <= a < 256 ^ Z.of_nat n -> 0 <= b < 256 ^ Z.of_nat n -> le_bytes n a = le_bytes n b -> a = b.
Proof. intros Ha Hb H. rewrite <- (le_val_bytes n a Ha), <- (le_val_bytes n b Hb). by rewrite H. Qed.

(** The signed bytes determine what they are about. *)
Lemma proof_message_inj c1 c2 a1 a2 p1 p2 :
  valid_context c1 -> valid_context c2 -> zlen a1 = 16 -> zlen a2 = 16 ->
  proof_message sha256 c1 a1 p1 = proof_message sha256 c2 a2 p2 -> c1 = c2 /\ a1 = a2 /\ sha256 p1 = sha256 p2.
Proof.
  intros (H1 & _ & H3 & _ & H5 & _ & H7 & _ & H9 & _) (K1 & _ & K3 & _ & K5 & _ & K7 & _ & K9 & _) Ha1 Ha2 H.
  destruct c1 as [[s1 e1] n1 [m1] o1], c2 as [[s2 e2] n2 [m2] o2]. unfold proof_message in H.
  cbn [ac_match_key ac_connection ac_member ac_nonce mk_session_id mk_match_epoch member_bytes] in *.
  apply app_inv_head in H. apply app_inj_zlen in H as [-> H]; [|lia].
  apply app_inj_zlen in H as [He H]; [|by rewrite !zlen_le_bytes]. apply app_inj_zlen in H as [Hn H]; [|by rewrite !zlen_le_bytes].
  apply app_inj_zlen in H as [-> H]; [|lia]. apply app_inj_zlen in H as [-> H]; [|lia]. apply app_inj_zlen in H as [-> H]; [|lia].
  unfold is_u32, is_u64, u32_max, u64_max in *.
  apply le_bytes_inj in He as ->; [|cbn; lia..]. apply le_bytes_inj in Hn as ->; [|cbn; lia..]. done.
Qed.

(** A proof of identity stands for one thing only: when a signature is valid for nothing but the
    message its owner signed, a proof that verifies names the account of its key, and the owner
    signed exactly this challenge (session, match, connection, member and nonce), this account and
    this payload, up to its digest. *)
Theorem proof_binds_challenge (signed : list byte -> list byte -> Prop) proof c payload account :
  (forall key message signature, ed25519_verify key message signature = true -> signed key message) ->
  valid_context c -> zlen (ap_account proof) = 16 ->
  verify sha256 ed25519_verify proof c payload = Ok account ->
  account = ap_account proof /\ account = account_from_public_key sha256 (ap_public_key proof) /\ account <> zeros 16 /\
  exists message, signed (ap_public_key proof) message /\
    forall c' account' payload', valid_context c' -> zlen account' = 16 -> message = proof_message sha256 c' account' payload' ->
      c' = c /\ account' = account /\ sha256 payload' = sha256 payload.
Proof.
  intros Hsig Hc Hl Hv. unfold verify, fail_if in Hv. destruct (_ || _) eqn:E; [discriminate|]. cbn [mbind result_bind] in Hv.
  destruct (ed25519_verify _ _ _) eqn:Es; [|discriminate]. cbn in Hv. apply ok_inj in Hv as <-.
  apply orb_false_iff in E as [E1 E2]. apply bool_decide_eq_false in E1. apply negb_false_iff, bool_decide_eq_true in E2.
  split; [done|]. split; [done|]. split; [done|]. exists (proof_message sha256 c (ap_account proof) payload). split; [by eapply Hsig|].
  intros c' account' payload' Hc' Hl' Heq. apply proof_message_inj in Heq as (-> & -> & ->); [done|done|done|done|done].
Qed.

(** The proofs a key makes for its own account verify. *)
Theorem own_proof_verifies seed c payload :
  (forall seed message, ed25519_verify (ed25519_public seed) message (ed25519_sign seed message) = true) ->
  key_account sha256 ed25519_public seed <> zeros 16 ->
  verify sha256 ed25519_verify (prove sha256 ed25519_public ed25519_sign seed c payload) c payload =
    Ok (key_account sha256 ed25519_public seed).
Proof.
  intros Hsign Hne. unfold verify, prove. cbn [ap_account ap_public_key ap_signature].
  rewrite (bool_decide_eq_false_2 _ Hne), bool_decide_eq_true_2 by done. cbn [orb negb fail_if mbind result_bind].
  rewrite Hsign. done.
Qed.
End Ring.

(** Stand-ins for the digest and the signature. *)
Definition toy_sha256 (message : list byte) : list byte := ztake 31 (message ++ replicate 31 (byte_of 1)) ++ [byte_of 1].
Definition toy_payload : list byte := bs "profile".
Definition toy_account : AccountId := account_from_public_key toy_sha256 (replicate 32 (byte_of 3)).
Definition toy_verify (key message signature : list byte) : bool :=
  bool_decide (message = proof_message toy_sha256 demo_challenge toy_account toy_payload).

Lemma proof_binds_challenge_witness :
  let proof := mkProof toy_account (replicate 32 (byte_of 3)) [] in
  verify toy_sha256 toy_verify proof demo_challenge toy_payload = Ok toy_account /\ toy_account <> zeros 16 /\
  exists message, message = proof_message toy_sha256 demo_challenge toy_account toy_payload /\
    forall c' account' payload', valid_context c' -> zlen account' = 16 -> message = proof_message toy_sha256 c' account' payload' ->
      c' = demo_challenge /\ account' = toy_account /\ toy_sha256 payload' = toy_sha256 toy_payload.
Proof.
  intros proof.
  destruct (proof_binds_challenge toy_sha256 toy_verify
    (fun _ message => message = proof_message toy_sha256 demo_challenge toy_account toy_payload)
    proof demo_challenge toy_payload toy_account) as (_ & _ & Hne & H).
  - intros key message signature H. by apply bool_decide_eq_true in H.
  - vm_compute. intuition congruence.
  - reflexivity.
  - vm_compute. reflexivity.
  - split; [vm_compute; reflexivity|]. split; [exact Hne|exact H].
Defined.
