(* ===== verification/WireRecords.v ===== *)
(** * Small wire forms the snapshot is built from

    What the codecs of crates/net/src/transport/delta.rs, world_object_wire.rs and meta_wire.rs share:
    flags, counted lists, texts, vectors, [EntityRef] of crates/sim/src/gentity.rs, [MissileTarget] of
    crates/sim/src/missile_guidance.rs, and the comparisons of floats on their bits.  An encoder that
    can panic gives an option. *)

From S2P Require Export RowWireMain Actions.

#[local] Open Scope Z_scope.

(** ** Floats *)

(** The place of a float that is not NaN in the order of the numbers; both zeros have the same. *)
Definition f32_key (bits : Z) : Z := if bits <? 0x80000000 then bits else 0x80000000 - bits.

Definition f32_leb (a b : Z) : bool := negb (f32_is_nan a) && negb (f32_is_nan b) && (f32_key a <=? f32_key b).
Definition f32_ltb (a b : Z) : bool := negb (f32_is_nan a) && negb (f32_is_nan b) && (f32_key a <? f32_key b).

(** The bits up to the sign of a zero. *)
Definition f32_norm (bits : Z) : Z := if f32_is_zero bits then 0 else bits.

(** ** Flags, lists, texts *)

Definition put_bool (b : bool) : list byte := put_u8 (bool_val b).
(** [input.get_u8()? != 0]. *)
Definition get_bool : WParser bool := v ← get_u8; mret (negb (v =? 0)).
(** [match input.get_u8()? { 0 => false, 1 => true, _ => error }]. *)
Definition get_flag (what : String.string) : WParser bool :=
  v ← get_u8; if v =? 0 then mret false else if v =? 1 then mret true else lift (Err (malformed what)).
Arguments get_flag what%_string_scope.

(** A count, truncated to its width as [len() as u16] does, and the rows. *)
Definition put_list8 {A} (put : A -> list byte) (rows : list A) : list byte := put_u8 (wrap8 (zlen rows)) ++ concat (map put rows).
Definition put_list16 {A} (put : A -> list byte) (rows : list A) : list byte := put_u16 (wrap16 (zlen rows)) ++ concat (map put rows).
Definition get_list8 {A} (get : WParser A) : WParser (list A) := count ← get_u8; parse_list (Z.to_nat count) get.
Definition get_list16 {A} (get : WParser A) : WParser (list A) := count ← get_u16; parse_list (Z.to_nat count) get.

(** The same, with a row whose encoder can panic. *)
Definition put_list16_opt {A} (put : A -> option (list byte)) (rows : list A) : option (list byte) :=
  rows' ← mapM put rows; Some (put_u16 (wrap16 (zlen rows)) ++ concat rows').

Definition get_vec (n : nat) : WParser (list Z) := parse_list n get_f32.

Definition put_text (text : list byte) : list byte := put_u16 (wrap16 (zlen text)) ++ put_bytes text.
Definition get_text : WParser (list byte) :=
  len ← get_u16; bytes ← get_bytes len; text ← lift (from_utf8 "DObj text is not UTF-8" bytes); mret text.

Definition put_optional_text (text : option (list byte)) : list byte := put_option put_text text.
Definition get_optional_text : WParser (option (list byte)) := get_option get_text "unknown optional text tag".

Definition encode_optional_i32 (value : option Z) : list byte := put_option put_i32 value.
Definition decode_optional_i32 : WParser (option Z) := get_option get_i32 "bad optional i32 tag".

(** A pair of texts. *)
Definition put_texts (row : list byte * list byte) : list byte := put_text row.1 ++ put_text row.2.
Definition get_texts : WParser (list byte * list byte) := name ← get_text; value ← get_text; mret (name, value).

(** ** Entities and missiles *)

Definition ENTITYNUM_NONE : Z := 0x7ff.
Definition ENTITYNUM_WORLD : Z := 0x7fe.
Definition GENTITY_RESERVED_COUNT : Z := 26.

Record EntityRef : Type := mkEntityRef { er_number : Z; er_generation : Z }.

#[export] Instance EntityRef_eq_dec : EqDecision EntityRef.
Proof. solve_decision. Defined.

Definition entity_from_parts (number generation : Z) : option EntityRef :=
  if (GENTITY_RESERVED_COUNT <=? number) && (number <? ENTITYNUM_WORLD) then Some (mkEntityRef number generation) else None.

Definition put_entity_ref (e : EntityRef) : list byte := put_i32 (er_number e) ++ put_u32 (er_generation e).
Definition get_entity_ref : WParser EntityRef :=
  number ← get_i32; generation ← get_u32;
  entity ← lift (match entity_from_parts number generation with
                 | Some entity => Ok entity
                 | None => Err (malformed "EntityKernel relation number out of range")
                 end);
  mret entity.

Definition encode_optional_entity_ref (entity : option EntityRef) : list byte := put_option put_entity_ref entity.
Definition decode_optional_entity_ref : WParser (option EntityRef) := get_option get_entity_ref "bad EntityKernel relation tag".

Inductive MissileTarget : Type :=
| TargetPoint (point : list Z)
| TargetEntity (entity : EntityRef) (offset : list Z)
| TargetPlayer (client life : Z) (offset : list Z).

#[export] Instance MissileTarget_eq_dec : EqDecision MissileTarget.
Proof. solve_decision. Defined.

Definition encode_missile_target (target : option MissileTarget) : list byte :=
  match target with
  | None => put_u8 0
  | Some (TargetPoint point) => put_u8 1 ++ put_f32s point
  | Some (TargetEntity entity offset) => put_u8 2 ++ put_i32 (er_number entity) ++ put_u32 (er_generation entity) ++ put_f32s offset
  | Some (TargetPlayer client life offset) => put_u8 3 ++ put_u32 client ++ put_u32 life ++ put_f32s offset
  end.

Definition decode_missile_target : WParser (option MissileTarget) :=
  tag ← get_u8;
  if tag =? 0 then mret None
  else if tag =? 1 then point ← get_vec 3; mret (Some (TargetPoint point))
  else if tag =? 2 then
    number ← get_u32; generation ← get_u32; offset ← get_vec 3;
    entity ← lift (match entity_from_parts (i32_wrap number) generation with
                   | Some entity => Ok entity
                   | None => Err (malformed "bad missile target entity")
                   end);
    mret (Some (TargetEntity entity offset))
  else if tag =? 3 then client ← get_u32; life ← get_u32; offset ← get_vec 3; mret (Some (TargetPlayer client life offset))
  else lift (Err (malformed "bad missile target tag")).

(** ** The values that can be sent *)

Definition vec (n : nat) (v : list Z) : Prop := array_of is_u32 n v.
Definition rows_of {A} (valid : A -> Prop) (max : Z) (rows : list A) : Prop := zlen rows <= max /\ Forall valid rows.
Definition text_ok (text : list byte) : Prop := valid_string u16_max text.
Definition texts_ok (row : list byte * list byte) : Prop := text_ok row.1 /\ text_ok row.2.
Definition valid_entity (e : EntityRef) : Prop := GENTITY_RESERVED_COUNT <= er_number e < ENTITYNUM_WORLD /\ is_u32 (er_generation e).
Definition valid_target (target : MissileTarget) : Prop :=
  match target with
  | TargetPoint point => vec 3 point
  | TargetEntity entity offset => valid_entity entity /\ vec 3 offset
  | TargetPlayer client life offset => is_u32 client /\ is_u32 life /\ vec 3 offset
  end.

(** ** They are read back *)

(** The fields of a record, one after the other. *)
Ltac split_fields := repeat match goal with H : _ /\ _ |- _ => destruct H end.
Ltac wire_fields := split_fields; repeat (wire_step; cbn [Z.eqb Pos.eqb]); try wire_last.

#[export] Instance bool_codec : WireCodec put_bool get_bool (fun _ => True).
Proof. split. intros [] _; (eapply parses_end; [solve [eauto with wire]|]); apply parses_ret. Qed.

#[export] Instance flag_codec what : WireCodec put_bool (get_flag what) (fun _ => True).
Proof. split. intros [] _; (eapply parses_end; [solve [eauto with wire]|]); apply parses_ret. Qed.

#[export] Instance vec_codec n : WireCodec put_f32s (get_vec n) (vec n) := f32s_codec n.
#[export] Instance i16_codec : WireCodec put_u16 get_u16 is_u16 := {| wire_parses := parses_put_u16 |}.
#[export] Instance u64_codec : WireCodec put_u64 get_u64 is_u64 := {| wire_parses := parses_put_u64 |}.

#[export] Instance list8_codec {A} (put : A -> list byte) get valid `{!WireCodec put get valid} :
  WireCodec (put_list8 put) (get_list8 get) (rows_of valid u8_max).
Proof.
  split. intros rows [Hn Hv]. unfold put_list8, get_list8. pose proof (zlen_nonneg rows).
  assert (wrap8 (zlen rows) = zlen rows) as -> by ilia. assert (is_u8 (zlen rows)) by ilia.
  wire_step. eapply wire_list; [apply _|unfold zlen; lia|done].
Qed.

#[export] Instance list16_codec {A} (put : A -> list byte) get valid `{!WireCodec put get valid} :
  WireCodec (put_list16 put) (get_list16 get) (rows_of valid u16_max).
Proof.
  split. intros rows [Hn Hv]. unfold put_list16, get_list16. pose proof (zlen_nonneg rows).
  assert (wrap16 (zlen rows) = zlen rows) as -> by ilia. assert (is_u16 (zlen rows)) by ilia.
  wire_step. eapply wire_list; [apply _|unfold zlen; lia|done].
Qed.

#[export] Instance list16_partial {A} (put : A -> option (list byte)) get valid `{!PartialCodec put get valid} :
  PartialCodec (put_list16_opt put) (get_list16 get) (rows_of valid u16_max).
Proof.
  split. intros rows u [Hn Hv] Hu. unfold put_list16_opt in Hu. destruct (mapM put rows) as [us|] eqn:E; [|done].
  cbv [mbind option_bind] in Hu. apply (inj Some) in Hu as <-. unfold get_list16. pose proof (zlen_nonneg rows).
  assert (wrap16 (zlen rows) = zlen rows) as -> by ilia. assert (is_u16 (zlen rows)) by ilia.
  wire_step. clear Hn H H0.
  replace (Z.to_nat (zlen rows)) with (length rows) by (unfold zlen; lia). revert us E. induction Hv as [|x rows Hx _ IH]; intros us E.
  - injection E as <-. apply parses_ret.
  - cbn in E. destruct (put x) as [u|] eqn:Ex; [|done]. cbn in E. destruct (mapM put rows) as [us'|]; [|done]. cbn in E. apply (inj Some) in E as <-.
    cbn [parse_list length concat]. eapply parses_bind; [by eapply partial_parses|]. cbv beta.
    eapply parses_end; [by apply IH|apply parses_ret].
Qed.

#[export] Instance text_codec : WireCodec put_text get_text text_ok.
Proof.
  split. intros text [Hs Hn]. unfold put_text, get_text. pose proof (zlen_nonneg text).
  assert (wrap16 (zlen text) = zlen text) as -> by ilia. assert (is_u16 (zlen text)) by ilia. wire_step.
  eapply parses_end; [by apply parses_get_bytes|]. apply parses_utf8; [done|]. apply parses_ret.
Qed.

#[export] Instance optional_text_codec : WireCodec put_optional_text get_optional_text (option_of text_ok).
Proof. unfold put_optional_text, get_optional_text. apply _. Qed.

#[export] Instance optional_i32_codec : WireCodec encode_optional_i32 decode_optional_i32 (option_of is_i32).
Proof. unfold encode_optional_i32, decode_optional_i32. apply _. Qed.

#[export] Instance texts_codec : WireCodec put_texts get_texts texts_ok.
Proof. split. intros [name value] Hv. unfold put_texts, get_texts, texts_ok in *. cbn [fst snd] in *. wire_fields. Qed.

Lemma entity_from_parts_ok e : valid_entity e -> entity_from_parts (er_number e) (er_generation e) = Some e.
Proof.
  destruct e as [n g]. unfold valid_entity, entity_from_parts. cbn [er_number er_generation]. intros [[] _].
  rewrite (proj2 (Z.leb_le _ _)), (proj2 (Z.ltb_lt _ _)) by lia. done.
Qed.

Lemma valid_entity_i32 e : valid_entity e -> is_i32 (er_number e).
Proof. unfold valid_entity, GENTITY_RESERVED_COUNT, ENTITYNUM_WORLD. ilia. Qed.

#[export] Instance entity_ref_codec : WireCodec put_entity_ref get_entity_ref valid_entity.
Proof.
  split. intros e Hv. pose proof (valid_entity_i32 e Hv). pose proof (entity_from_parts_ok e Hv) as E. destruct Hv as [_ Hg].
  unfold put_entity_ref, get_entity_ref. wire_step. eapply parses_end; [solve [eauto with wire]|]. cbv beta. rewrite E.
  eapply parses_lift; [done|apply parses_ret].
Qed.

#[export] Instance optional_entity_codec :
  WireCodec encode_optional_entity_ref decode_optional_entity_ref (option_of valid_entity).
Proof. unfold encode_optional_entity_ref, decode_optional_entity_ref. apply _. Qed.

#[export] Instance target_codec : WireCodec encode_missile_target decode_missile_target (option_of valid_target).
Proof.
  split. intros [[point|entity offset|client life offset]|] Hv; unfold decode_missile_target; cbn [encode_missile_target option_of valid_target] in *.
  - wire_fields.
  - destruct Hv as [He Ho]. pose proof (valid_entity_i32 entity He) as Hi. pose proof (entity_from_parts_ok entity He) as E. destruct He as [_ Hg].
    wire_step. cbn [Z.eqb Pos.eqb].
    assert (parses get_u32 (put_i32 (er_number entity)) (wrap32 (er_number entity))).
    { apply (parses_put_u32 (wrap32 (er_number entity))). unfold wrap32. ilia. }
    do 2 wire_step. eapply parses_end; [solve [eauto with wire]|]. cbv beta.
    assert (i32_wrap (wrap32 (er_number entity)) = er_number entity) as ->.
    { unfold i32_wrap. replace (wrap32 (wrap32 (er_number entity))) with (wrap32 (er_number entity)) by (unfold wrap32; by rewrite Z.mod_mod by done).
      by apply to_signed_wrap32. }
    rewrite E. eapply parses_lift; [done|apply parses_ret].
  - wire_fields.
  - eapply parses_end; [solve [eauto with wire]|]. apply parses_ret.
Qed.
