(* ===== verification/WorldObjects.v ===== *)
(** * The glass and the loop sounds of a snapshot

    crates/net/src/transport/world_object_wire.rs and world_sync.rs: the host sends the whole table, what
    changed since the last time, or nothing, and the client keeps a copy; with the types of
    crates/sim/src/world_objects.rs and crates/entity_iw4/src/glass.rs. *)

From S2P Require Export WireRecords.
From stdpp Require Import sorting.

#[local] Open Scope Z_scope.

(** ** Data *)

Inductive GlassPieceState : Type := GlassIntact | GlassWeakened | GlassShattered | GlassDeleted.
Inductive GlassCause : Type := GlassImpact | GlassBlast | GlassCollapse | GlassScript.

Definition GLASS_IMPACT_DIR_NONE : Z := 0xff.

Record GlassShatterSeed : Type := mkSeed { gs_impact_dir : Z; gs_impact_x : Z; gs_impact_y : Z }.

Record GlassPieceSnapshot : Type := mkGlass {
  gp_state : GlassPieceState;
  gp_revision : Z;
  gp_last_state_change_time : Z;
  gp_shatter_seed : option GlassShatterSeed;
  gp_deterministic_seed : Z;
  gp_cause : GlassCause;
}.

Record DestructibleLoopSound : Type := mkLoop { dl_snd_ent : option Z; dl_owner : Z; dl_alias_index : Z; dl_origin : list Z }.

Record WorldObjectSnapshot : Type := mkWorld {
  wo_as_of_ms : Z;
  wo_map_round_epoch : Z;
  wo_fracture_profile_version : Z;
  wo_glass_pieces : list (Z * GlassPieceSnapshot);
  wo_loop_sounds : list DestructibleLoopSound;
}.

Definition world_default : WorldObjectSnapshot := mkWorld 0 0 0 [] [].

#[export] Instance GlassPieceState_eq_dec : EqDecision GlassPieceState.
Proof. solve_decision. Defined.
#[export] Instance GlassCause_eq_dec : EqDecision GlassCause.
Proof. solve_decision. Defined.
#[export] Instance GlassShatterSeed_eq_dec : EqDecision GlassShatterSeed.
Proof. solve_decision. Defined.
#[export] Instance GlassPieceSnapshot_eq_dec : EqDecision GlassPieceSnapshot.
Proof. solve_decision. Defined.

Definition glass_state_u8 (s : GlassPieceState) : Z :=
  match s with GlassIntact => 0 | GlassWeakened => 1 | GlassShattered => 2 | GlassDeleted => 3 end.
Definition glass_state_from_u8 (raw : Z) : Result WireError GlassPieceState :=
  if raw =? 0 then Ok GlassIntact else if raw =? 1 then Ok GlassWeakened else if raw =? 2 then Ok GlassShattered
  else if raw =? 3 then Ok GlassDeleted else Err (malformed "unknown glass piece state").
Definition glass_cause_u8 (c : GlassCause) : Z :=
  match c with GlassImpact => 0 | GlassBlast => 1 | GlassCollapse => 2 | GlassScript => 3 end.
Definition glass_cause_from_u8 (raw : Z) : Result WireError GlassCause :=
  if raw =? 0 then Ok GlassImpact else if raw =? 1 then Ok GlassBlast else if raw =? 2 then Ok GlassCollapse
  else if raw =? 3 then Ok GlassScript else Err (malformed "unknown glass cause").

Definition shatter_seed_new (impact_dir x y : Z) : option GlassShatterSeed :=
  if (impact_dir =? GLASS_IMPACT_DIR_NONE) || (0x3f <? x) || (0x3f <? y) then None else Some (mkSeed impact_dir x y).

(** ** One row *)

(** [None] is the panic of the assertion: a seed on a pane that is not shattered. *)
Definition encode_glass_piece_snapshot (row : GlassPieceSnapshot) : option (list byte) :=
  seed ← match gp_shatter_seed row with
         | None => Some (put_u8 0)
         | Some seed =>
             if bool_decide (gp_state row = GlassShattered)
             then Some (put_u8 1 ++ put_u8 (gs_impact_dir seed) ++ put_u8 (gs_impact_x seed) ++ put_u8 (gs_impact_y seed))
             else None
         end;
  Some (put_u8 (glass_state_u8 (gp_state row)) ++ put_u32 (gp_revision row) ++ put_i32 (gp_last_state_change_time row) ++
        put_u8 (glass_cause_u8 (gp_cause row)) ++ put_u64 (gp_deterministic_seed row) ++ seed).

Definition decode_glass_piece_snapshot : WParser GlassPieceSnapshot :=
  state ← get_u8; state ← lift (glass_state_from_u8 state);
  revision ← get_u32; time ← get_i32;
  cause ← get_u8; cause ← lift (glass_cause_from_u8 cause);
  deterministic_seed ← get_u64;
  tag ← get_u8;
  if tag =? 0 then mret (mkGlass state revision time None deterministic_seed cause)
  else if tag =? 1 then
    if bool_decide (state = GlassShattered) then
      impact_dir ← get_u8; x ← get_u8; y ← get_u8;
      seed ← lift (match shatter_seed_new impact_dir x y with
                   | Some seed => Ok seed
                   | None => Err (malformed "invalid glass shatter seed")
                   end);
      mret (mkGlass state revision time (Some seed) deterministic_seed cause)
    else lift (Err (malformed "glass seed on non-shattered state"))
  else lift (Err (malformed "unknown glass shatter seed tag")).

Definition put_glass_row (row : Z * GlassPieceSnapshot) : option (list byte) :=
  piece ← encode_glass_piece_snapshot row.2; Some (put_u32 row.1 ++ piece).
Definition get_glass_row : WParser (Z * GlassPieceSnapshot) :=
  id ← get_u32; piece ← decode_glass_piece_snapshot; mret (id, piece).

Definition put_loop_sound (row : DestructibleLoopSound) : list byte :=
  put_u32 (dl_owner row) ++ put_u32 (default u32_max (dl_snd_ent row)) ++ put_u8 (dl_alias_index row) ++ put_f32s (dl_origin row).
Definition get_loop_sound (with_entity : bool) : WParser DestructibleLoopSound :=
  owner ← get_u32;
  snd_ent ← (if with_entity then
               number ← get_u32;
               if number =? u32_max then mret None
               else if number <=? i32_max then mret (Some number)
               else lift (Err (malformed "invalid loop sound entity"))
             else mret None);
  alias_index ← get_u8; origin ← get_vec 3;
  mret (mkLoop snd_ent owner alias_index origin).

(** ** The difference of two tables *)

Section Pairs.
Context {V : Type} `{!EqDecision V}.

Record PairDelta : Type := mkDelta { pd_changed : list (Z * V); pd_removed : list Z }.

Definition delta_is_empty (d : PairDelta) : bool := match pd_changed d, pd_removed d with [], [] => true | _, _ => false end.

(** [sort_by_key]: stable. *)
Fixpoint insert_row (row : Z * V) (rows : list (Z * V)) : list (Z * V) :=
  match rows with
  | [] => [row]
  | other :: rest => if row.1 <=? other.1 then row :: rows else other :: insert_row row rest
  end.
Definition sort_rows (rows : list (Z * V)) : list (Z * V) := foldr insert_row [] rows.

(** [collect] into a [HashMap]: the last row of a key stays. *)
Definition hash_map (rows : list (Z * V)) : gmap Z V := list_to_map (reverse rows).

Definition pair_delta (baseline current : list (Z * V)) : PairDelta :=
  mkDelta (sort_rows (filter (fun row => hash_map baseline !! row.1 <> Some row.2) current))
    (merge_sort Z.le (filter (fun id => hash_map current !! id = None) (map fst baseline))).

(** One row of the loop of [apply_pair_delta]: the first [existing] rows are sorted, [added] holds
    where the new keys went. *)
Definition apply_change (existing : nat) (state : list (Z * V) * gmap Z nat) (row : Z * V) : list (Z * V) * gmap Z nat :=
  let '(table, added) := state in
  let index := length (filter (fun r => r.1 < row.1) (take existing table)) in
  if (index <? existing)%nat && match table !! index with Some r => r.1 =? row.1 | None => false end
  then (<[index := row]> table, added)
  else match added !! row.1 with
       | Some index => (<[index := row]> table, added)
       | None => (table ++ [row], <[row.1 := length table]> added)
       end.

Definition apply_pair_delta (table : list (Z * V)) (delta : PairDelta) : list (Z * V) :=
  let table := match pd_removed delta with [] => table | removed => filter (fun row => row.1 ∉ removed) table end in
  let table := sort_rows table in
  sort_rows (foldl (apply_change (length table)) (table, ∅) (pd_changed delta)).1.
End Pairs.
Arguments PairDelta V : clear implicits.

(** ** The message *)

Definition world_object_delta (baseline current : WorldObjectSnapshot) : PairDelta GlassPieceSnapshot :=
  pair_delta (wo_glass_pieces baseline) (wo_glass_pieces current).

(** The derived equality of loop sounds, whose origins compare as floats. *)
Definition loop_eqb (a b : DestructibleLoopSound) : bool :=
  bool_decide (dl_snd_ent a = dl_snd_ent b) && (dl_owner a =? dl_owner b) && (dl_alias_index a =? dl_alias_index b)
  && f32s_eqb (dl_origin a) (dl_origin b).
Fixpoint loops_eqb (a b : list DestructibleLoopSound) : bool :=
  match a, b with
  | [], [] => true
  | x :: a, y :: b => loop_eqb x y && loops_eqb a b
  | _, _ => false
  end.

Definition encode_loop_sounds (rows : list DestructibleLoopSound) : list byte := put_list16 put_loop_sound rows.
Definition decode_loop_sounds (with_entity : bool) : WParser (list DestructibleLoopSound) := get_list16 (get_loop_sound with_entity).

Definition encode_world_object_full (snap : WorldObjectSnapshot) : option (list byte) :=
  glass ← put_list16_opt put_glass_row (wo_glass_pieces snap); Some (glass ++ encode_loop_sounds (wo_loop_sounds snap)).

Definition encode_world_object_delta (baseline current : WorldObjectSnapshot) : option (list byte) :=
  let glass := world_object_delta baseline current in
  changed ← put_list16_opt put_glass_row (pd_changed glass);
  Some (changed ++ put_list16 put_u32 (pd_removed glass) ++ encode_loop_sounds (wo_loop_sounds current)).

(** The bytes, and whether the content changed. *)
Definition encode_sync (baseline current : WorldObjectSnapshot) (full : bool) : option (list byte * bool) :=
  let head := put_i32 (wo_as_of_ms current) ++ put_u32 (wo_map_round_epoch current) ++ put_u32 (wo_fracture_profile_version current) in
  if full then body ← encode_world_object_full current; Some (head ++ put_u8 4 ++ body, true)
  else if delta_is_empty (world_object_delta baseline current) && loops_eqb (wo_loop_sounds baseline) (wo_loop_sounds current)
  then Some (head ++ put_u8 0, false)
  else body ← encode_world_object_delta baseline current; Some (head ++ put_u8 3 ++ body, true).

Inductive WorldObjectChange : Type :=
| WoUnchanged
| WoDelta (glass : PairDelta GlassPieceSnapshot) (loops : list DestructibleLoopSound)
| WoFull (glass : list (Z * GlassPieceSnapshot)) (loops : list DestructibleLoopSound).

Record WorldObjectUpdate : Type := mkUpdate {
  wu_as_of_ms : Z; wu_map_round_epoch : Z; wu_fracture_profile_version : Z; wu_change : WorldObjectChange }.

Definition decode_world_object_change (tag : Z) : WParser WorldObjectChange :=
  if tag =? 0 then mret WoUnchanged
  else if (tag =? 1) || (tag =? 3) then
    changed ← get_list16 get_glass_row; removed ← get_list16 get_u32; loops ← decode_loop_sounds (3 <=? tag);
    mret (WoDelta (mkDelta changed removed) loops)
  else if (tag =? 2) || (tag =? 4) then
    glass ← get_list16 get_glass_row; loops ← decode_loop_sounds (3 <=? tag);
    mret (WoFull glass loops)
  else lift (Err (malformed "unknown world object sync tag")).

Definition decode_world_object_sync : WParser WorldObjectUpdate :=
  as_of_ms ← get_i32; epoch ← get_u32; profile ← get_u32; tag ← get_u8;
  change ← decode_world_object_change tag;
  mret (mkUpdate as_of_ms epoch profile change).

Definition decode_sync (wire : list byte) : Result WireError WorldObjectUpdate :=
  match decode_world_object_sync (mkReader wire 0) with
  | Err e => Err e
  | Ok (update, rd) => if reader_is_empty rd then Ok update else Err (malformed "trailing bytes after world object sync")
  end.

(** ** Both ends *)

Definition WORLD_SYNC_PERIOD_TICKS : Z := 200.

Record WorldObjectSyncEncoder : Type := mkSyncEncoder { we_baseline : WorldObjectSnapshot; we_force_full : bool }.

Definition sync_encoder_default : WorldObjectSyncEncoder := mkSyncEncoder world_default false.
Definition sync_reset (_ : WorldObjectSyncEncoder) : WorldObjectSyncEncoder := mkSyncEncoder world_default true.
Definition sync_adopt (_ : WorldObjectSyncEncoder) (baseline : WorldObjectSnapshot) : WorldObjectSyncEncoder := mkSyncEncoder baseline false.

Definition sync_encode (e : WorldObjectSyncEncoder) (tick : Z) (current : WorldObjectSnapshot) : option (WorldObjectSyncEncoder * list byte) :=
  let full := we_force_full e || (tick mod WORLD_SYNC_PERIOD_TICKS =? 0) in
  '(wire, content_changed) ← encode_sync (we_baseline e) current full;
  Some (mkSyncEncoder (if content_changed : bool then current
                       else mkWorld (wo_as_of_ms current) (wo_map_round_epoch current) (wo_fracture_profile_version current)
                              (wo_glass_pieces (we_baseline e)) (wo_loop_sounds (we_baseline e))) false, wire).

(** [WorldObjectUpdate::apply]: the decoder is its state. *)
Definition update_apply (u : WorldObjectUpdate) (state : WorldObjectSnapshot) : WorldObjectSnapshot :=
  let set := mkWorld (wu_as_of_ms u) (wu_map_round_epoch u) (wu_fracture_profile_version u) in
  match wu_change u with
  | WoUnchanged => set (wo_glass_pieces state) (wo_loop_sounds state)
  | WoDelta glass loops => set (apply_pair_delta (wo_glass_pieces state) glass) loops
  | WoFull glass loops => set glass loops
  end.

Definition sync_apply_wire (state : WorldObjectSnapshot) (wire : list byte) : Result WireError WorldObjectSnapshot :=
  match decode_sync wire with Err e => Err e | Ok update => Ok (update_apply update state) end.

(** * Properties

    The difference of two sorted tables takes the one to the other, and the client's copy follows
    the host's through any sequence of messages. *)

(** ** Tables by key *)

Section Tables.
Context {V : Type} `{!EqDecision V}.

(** Sorted, each key once. *)
Definition keyed : list (Z * V) -> Prop := StronglySorted (fun a b => a.1 < b.1).

Lemma insert_row_perm (row : Z * V) rows : insert_row row rows ≡ₚ row :: rows.
Proof.
  induction rows as [|r rows IH]; [done|]. cbn. destruct (row.1 <=? r.1); [done|]. rewrite IH. apply perm_swap.
Qed.

Lemma sort_rows_perm (rows : list (Z * V)) : sort_rows rows ≡ₚ rows.
Proof. induction rows as [|r rows IH]; [done|]. cbn. by rewrite insert_row_perm, IH. Qed.

Lemma insert_row_keyed (row : Z * V) rows : row.1 ∉ map fst rows -> keyed rows -> keyed (insert_row row rows).
Proof.
  intros Hn Hk. induction Hk as [|r rows Hk IH Hr]; cbn; [repeat constructor|].
  cbn in Hn. apply not_elem_of_cons in Hn as [Hne Hn]. destruct (Z.leb_spec row.1 r.1) as [Hle|Hlt].
  - constructor; [by constructor|]. constructor; [lia|]. eapply list.Forall_impl; [exact Hr|]. cbn. lia.
  - constructor; [by apply IH|]. rewrite (insert_row_perm row rows). by constructor.
Qed.

Lemma sort_rows_keyed (rows : list (Z * V)) : NoDup (map fst rows) -> keyed (sort_rows rows).
Proof.
  induction rows as [|r rows IH]; cbn; [constructor|]. intros [Hn Hd]%NoDup_cons. apply insert_row_keyed; [|by apply IH].
  by rewrite (sort_rows_perm rows).
Qed.

Lemma keyed_nodup (rows : list (Z * V)) : keyed rows -> NoDup (map fst rows).
Proof.
  induction 1 as [|r rows _ IH Hr]; cbn; constructor; [|done]. rewrite list.Forall_forall in Hr.
  intros (r' & E & Hin)%list_elem_of_fmap. apply Hr in Hin. lia.
Qed.

Lemma keyed_unique (a b : list (Z * V)) : keyed a -> keyed b -> a ≡ₚ b -> a = b.
Proof. intros Ha Hb Hp. eapply (StronglySorted_unique_strong (fun a b : Z * V => a.1 < b.1)); [|done|done|done]. intros x y _ _ ?. cbn. lia. Qed.

Lemma keyed_same (a b : list (Z * V)) : keyed a -> keyed b -> (forall row, row ∈ a <-> row ∈ b) -> a = b.
Proof.
  intros Ha Hb Hab. apply keyed_unique; [done..|]. apply NoDup_Permutation; [| |done]; by eapply NoDup_fmap_1, keyed_nodup.
Qed.

Lemma sort_keyed (rows : list (Z * V)) : keyed rows -> sort_rows rows = rows.
Proof.
  intros Hk. apply keyed_unique; [by apply sort_rows_keyed, keyed_nodup|done|apply sort_rows_perm].
Qed.

Lemma keyed_filter P `{!forall x, Decision (P x)} (rows : list (Z * V)) : keyed rows -> keyed (filter P rows).
Proof.
  induction 1 as [|r rows _ IH Hr]; [constructor|]. rewrite filter_cons. destruct (decide (P r)); [|done].
  constructor; [done|]. rewrite list.Forall_forall in *. intros x [_ Hx]%list_elem_of_filter. by apply Hr.
Qed.

Lemma keyed_fun (rows : list (Z * V)) k v v' : NoDup (map fst rows) -> (k, v) ∈ rows -> (k, v') ∈ rows -> v = v'.
Proof.
  induction rows as [|[k0 v0] rows IH]; cbn; [by intros _ ?%elem_of_nil|]. intros [Hn Hd]%NoDup_cons.
  rewrite !elem_of_cons. intros [E|Hin] [E'|Hin']; simplify_eq; try done; [| |by apply IH];
    exfalso; apply Hn; apply list_elem_of_fmap; by eexists (_, _).
Qed.

Lemma hash_map_lookup (rows : list (Z * V)) k v : NoDup (map fst rows) -> hash_map rows !! k = Some v <-> (k, v) ∈ rows.
Proof.
  intros Hd. unfold hash_map. rewrite <- elem_of_list_to_map; [apply elem_of_reverse|].
  by rewrite (reverse_Permutation rows).
Qed.

(** *** The loop over the changes *)

Lemma keyed_keys (rows : list (Z * V)) : keyed rows <-> StronglySorted Z.lt (map fst rows).
Proof.
  induction rows as [|r rows IH]; cbn; [split; constructor|]. split.
  - intros [Hr Hk]%StronglySorted_cons. constructor; [by apply IH|]. apply list.Forall_forall. intros k (r' & -> & Hin)%list_elem_of_fmap.
    rewrite list.Forall_forall in Hr. by apply Hr.
  - intros [Hr Hk]%StronglySorted_cons. constructor; [by apply IH|]. apply list.Forall_forall. intros r' Hin.
    rewrite list.Forall_forall in Hr. apply Hr. by apply list_elem_of_fmap_2.
Qed.

(** Where the search of a sorted table ends. *)
Lemma partition_point (rows : list (Z * V)) id :
  keyed rows ->
  let index := length (filter (fun r => r.1 < id) rows) in
  (exists l old l', rows = l ++ (id, old) :: l' /\ length l = index) \/
  (id ∉ map fst rows /\ forall r, rows !! index = Some r -> r.1 <> id).
Proof.
  induction 1 as [|r rows Hk IH Hr]; cbn zeta in *; [right; split; [apply not_elem_of_nil|done]|].
  rewrite filter_cons. destruct (decide (r.1 < id)) as [Hlt|Hge].
  - destruct IH as [(l & old & l' & E & El)|[Hn Hi]].
    + left. exists (r :: l), old, l'. split; [by rewrite E|cbn; by rewrite El].
    + right. cbn. split; [|done]. intros [->|?]%elem_of_cons; [lia|done].
  - rewrite (filter_none (fun r => r.1 < id) rows); [|intros x Hx; rewrite list.Forall_forall in Hr; specialize (Hr x Hx); cbn in Hr; lia].
    destruct (decide (r.1 = id)) as [<-|Hne]; [left; exists [], r.2, rows; by destruct r|right]. split; [|by intros r' [= <-]].
    cbn. intros [->|(r' & E & Hin)%list_elem_of_fmap]%elem_of_cons; [done|]. rewrite list.Forall_forall in Hr. specialize (Hr r' Hin). cbn in Hr. lia.
Qed.

Record looped (n : nat) (old applied table : list (Z * V)) (added : gmap Z nat) : Prop := {
  lp_keys : map fst (take n table) = map fst old;
  lp_nodup : NoDup (map fst table);
  lp_added k i : added !! k = Some i -> k ∈ map fst applied;
  lp_rows row : row ∈ table <-> row ∈ applied \/ (row.1 ∉ map fst applied /\ row ∈ old);
}.

Lemma apply_change_looped old applied table added row :
  keyed old -> looped (length old) old applied table added -> row.1 ∉ map fst applied ->
  let state := apply_change (length old) (table, added) row in
  looped (length old) old (applied ++ [row]) state.1 state.2.
Proof.
  intros Ho [H1 H2 H3 H4] Hn. unfold apply_change. cbn zeta. set (A := take (length old) table) in *.
  assert (HA : keyed A) by (apply keyed_keys; rewrite H1; by apply keyed_keys).
  assert (Hlen : length A = length old) by (rewrite <- (length_map fst A), H1; apply length_map).
  assert (ET : table = A ++ drop (length old) table) by (symmetry; apply take_drop). set (B := drop (length old) table) in *. clearbody A B.
  assert (Hsplit : forall r, r ∈ applied ++ [row] \/ (r.1 ∉ map fst (applied ++ [row]) /\ r ∈ old) <->
    r = row \/ (r.1 <> row.1 /\ (r ∈ applied \/ (r.1 ∉ map fst applied /\ r ∈ old)))).
  { intros r. rewrite elem_of_app, map_app, not_elem_of_app, !list_elem_of_singleton. cbn.
    rewrite not_elem_of_cons. pose proof (not_elem_of_nil r.1). split; [|naive_solver].
    intros [[Hr|Hr]|[[? []] ?]]; [right|by left|by right; auto].
    split; [|by left]. intros E. apply Hn. rewrite <- E. by apply list_elem_of_fmap_2. }
  destruct (partition_point A row.1 HA) as [(l & v & l' & E & El)|[Hout Hi]].
  - rewrite <- El. rewrite (proj2 (Nat.ltb_lt _ _)) by (rewrite <- Hlen, E, length_app; cbn; lia).
    assert (Hat : table !! length l = Some (row.1, v)) by (rewrite ET, E, <- app_assoc; by apply list_lookup_middle).
    rewrite Hat. cbn [fst andb]. rewrite Z.eqb_refl. cbn [fst snd].
    assert (ET' : <[length l:=row]> table = (l ++ row :: l') ++ B).
    { rewrite ET, E, <- !app_assoc. cbn. by rewrite insert_app_r_alt, Nat.sub_diag by lia. }
    assert (Ekeys : map fst (<[length l:=row]> table) = map fst table) by (rewrite ET', ET, E, !map_app; done).
    assert (Hd : NoDup (map fst (l ++ (row.1, v) :: l' ++ B))) by (rewrite ET, E, <- app_assoc in H2; done).
    split.
    + rewrite ET', take_app_length' by (rewrite <- Hlen, E, !length_app; done). rewrite <- H1, E, !map_app. done.
    + by rewrite Ekeys.
    + intros k i Hk. rewrite map_app, elem_of_app. left. by eapply H3.
    + intros r. rewrite Hsplit, <- H4. rewrite ET', ET, E, <- !app_assoc. cbn [app].
      rewrite map_app in Hd. cbn in Hd. apply NoDup_app in Hd as (D1 & D2 & [D3 D4]%NoDup_cons).
      assert (Hne : forall r', r' ∈ l \/ r' ∈ l' ++ B -> r'.1 <> row.1).
      { intros r' [Hr|Hr] Er; apply (list_elem_of_fmap_2 fst) in Hr; cbn in Hr; rewrite Er in Hr; [|done].
        apply (D2 _ Hr). by left. }
      rewrite !(elem_of_app l), !elem_of_cons. split.
      * intros [Hr|[->|Hr]]; [right; split; [by apply Hne; left|by left]|by left|right; split; [by apply Hne; right|by right; right]].
      * intros [->|[Hr' [Hr|[->|Hr]]]]; [by right; left|by left|done|by right; right].
  - match goal with |- context [if ?b then _ else _] => assert (b = false) as -> end.
    { apply andb_false_iff. destruct (Nat.ltb_spec (length (filter (fun r => r.1 < row.1) A)) (length old)) as [Hlt|]; [right|by left].
      rewrite ET, lookup_app_l by lia. destruct (A !! _) as [r|] eqn:Er; [|done]. apply Z.eqb_neq. by apply Hi. }
    destruct (added !! row.1) as [i|] eqn:Ea; [by apply H3 in Ea|]. cbn [fst snd].
    assert (Hnew : row.1 ∉ map fst table).
    { intros (r & Er & Hr)%list_elem_of_fmap. apply H4 in Hr as [Hr|[_ Hr]].
      - apply Hn. rewrite Er. by apply list_elem_of_fmap_2.
      - apply Hout. rewrite H1, Er. by apply list_elem_of_fmap_2. }
    split.
    + rewrite ET, <- app_assoc, take_app_length' by done. by rewrite H1.
    + rewrite map_app. cbn. apply NoDup_app. split; [done|]. split; [|apply NoDup_singleton].
      intros k Hk ->%list_elem_of_singleton. done.
    + intros k i. rewrite map_app, elem_of_app, lookup_insert_Some. intros [[<- ?]|[? Hk]]; [right; by left|left; by eapply H3].
    + intros r. rewrite Hsplit, <- H4, elem_of_app, list_elem_of_singleton. split; [|naive_solver].
      intros [Hr| ->]; [|by left]. right. split; [|done]. intros Er. apply Hnew. rewrite <- Er. by apply list_elem_of_fmap_2.
Qed.

Lemma apply_changes_looped old changed : forall applied table added,
  keyed old -> looped (length old) old applied table added -> NoDup (map fst (applied ++ changed)) ->
  let state := foldl (apply_change (length old)) (table, added) changed in
  looped (length old) old (applied ++ changed) state.1 state.2.
Proof.
  induction changed as [|row changed IH]; intros applied table added Ho Hl Hd; cbn zeta; [by rewrite app_nil_r|].
  cbn [foldl]. assert (Hn : row.1 ∉ map fst applied).
  { rewrite map_app in Hd. apply NoDup_app in Hd as (_ & Hd & _). intros Hin. apply (Hd _ Hin). by left. }
  pose proof (apply_change_looped old applied table added row Ho Hl Hn) as Hs. cbn zeta in Hs.
  destruct (apply_change _ _ row) as [table' added']. cbn [fst snd] in Hs.
  specialize (IH (applied ++ [row]) table' added' Ho Hs). rewrite <- app_assoc in IH. by apply IH.
Qed.

(** Applying the difference to the one table gives the other. *)
Lemma apply_pair_delta_ok (baseline current : list (Z * V)) :
  keyed baseline -> keyed current -> apply_pair_delta baseline (pair_delta baseline current) = current.
Proof.
  intros Hb Hc. unfold apply_pair_delta, pair_delta. cbn [pd_removed pd_changed].
  set (changed := sort_rows (filter _ current)). set (removed := merge_sort Z.le _).
  assert (Hrem : forall id, id ∈ removed <-> id ∈ map fst baseline /\ id ∉ map fst current).
  { intros id. unfold removed. rewrite merge_sort_Permutation, list_elem_of_filter. split; intros [? Hin].
    - split; [done|]. intros ([k v] & -> & Hkv)%list_elem_of_fmap. apply hash_map_lookup in Hkv; [|by apply keyed_nodup]. cbn in *. congruence.
    - split; [|done]. destruct (hash_map current !! id) as [v|] eqn:E; [|done]. apply hash_map_lookup in E; [|by apply keyed_nodup].
      exfalso. apply Hin. apply list_elem_of_fmap. by exists (id, v). }
  assert (Hchg : forall row, row ∈ changed <-> row ∈ current /\ row ∉ baseline).
  { intros [k v]. unfold changed. rewrite (sort_rows_perm _), list_elem_of_filter. cbn.
    rewrite hash_map_lookup by (by apply keyed_nodup). tauto. }
  set (old := match removed with [] => baseline | _ => _ end).
  assert (Hold : keyed old /\ forall row, row ∈ old <-> row ∈ baseline /\ row.1 ∈ map fst current).
  { assert (Ht : forall row, row ∈ baseline -> row.1 ∉ removed <-> row.1 ∈ map fst current).
    { intros row Hrow. rewrite Hrem. assert (row.1 ∈ map fst baseline) by (by apply list_elem_of_fmap_2).
      destruct (decide (row.1 ∈ map fst current)); tauto. }
    unfold old. destruct removed as [|id removed'] eqn:Er.
    - split; [done|]. intros row. split; [|tauto]. intros Hrow. split; [done|]. apply Ht; [done|apply not_elem_of_nil].
    - split; [by apply keyed_filter|]. intros row. rewrite list_elem_of_filter. pose proof (Ht row). tauto. }
  destruct Hold as [Hk Hold]. clearbody old. rewrite (sort_keyed old Hk).
  assert (Hkc : keyed changed) by (unfold changed; apply sort_rows_keyed, keyed_nodup, keyed_filter, Hc).
  assert (Hl0 : looped (length old) old [] old ∅).
  { split; [by rewrite take_ge|by apply keyed_nodup|by intros ? ? ?%lookup_empty_Some|]. intros row. pose proof (not_elem_of_nil row). pose proof (not_elem_of_nil row.1). tauto. }
  pose proof (apply_changes_looped old changed [] old ∅ Hk Hl0 (keyed_nodup _ Hkc)) as Hl. cbn zeta in Hl.
  destruct (foldl _ _ _) as [table added]. cbn [fst snd app] in *. destruct Hl as [_ L2 _ L4].
  apply keyed_same; [by apply sort_rows_keyed|done|]. intros row. rewrite (sort_rows_perm table), L4, Hchg, Hold.
  assert (Hdec : row ∈ baseline \/ row ∉ baseline).
  { destruct row as [k v]. pose proof (hash_map_lookup baseline k v (keyed_nodup _ Hb)) as E.
    destruct (decide (hash_map baseline !! k = Some v)); tauto. }
  split.
  - intros [[? ?]|[Hn [Hin (row' & E & Hin')%list_elem_of_fmap]]]; [done|].
    destruct (decide (hash_map baseline !! row'.1 = Some row'.2)) as [Eb|Eb].
    + destruct row as [k v], row' as [k' v']. cbn in *. subst k'. apply (hash_map_lookup baseline) in Eb; [|by apply keyed_nodup].
      by rewrite (keyed_fun baseline k v v' (keyed_nodup _ Hb) Hin Eb).
    + exfalso. apply Hn. rewrite E. apply list_elem_of_fmap_2, Hchg. split; [done|]. intros Hin''. apply Eb.
      destruct row' as [k' v']. by apply (hash_map_lookup baseline k' v' (keyed_nodup _ Hb)).
  - intros Hin. destruct Hdec as [Hb'|Hb']; [right|by left]. split; [|split; [done|by apply list_elem_of_fmap_2]].
    intros (row' & E & [Hc' Hnb]%Hchg)%list_elem_of_fmap. destruct row as [k v], row' as [k' v']. cbn in E. subst k'.
    by rewrite (keyed_fun current k v v' (keyed_nodup _ Hc) Hin Hc') in Hb'.
Qed.
End Tables.

(** ** The messages are read back *)

Definition valid_seed (s : GlassShatterSeed) : Prop :=
  is_u8 (gs_impact_dir s) /\ gs_impact_dir s <> GLASS_IMPACT_DIR_NONE /\ 0 <= gs_impact_x s <= 0x3f /\ 0 <= gs_impact_y s <= 0x3f.
Definition valid_glass (g : GlassPieceSnapshot) : Prop :=
  is_u32 (gp_revision g) /\ is_i32 (gp_last_state_change_time g) /\ is_u64 (gp_deterministic_seed g) /\
  option_of valid_seed (gp_shatter_seed g).
Definition valid_glass_row (row : Z * GlassPieceSnapshot) : Prop := is_u32 row.1 /\ valid_glass row.2.
Definition valid_loop (l : DestructibleLoopSound) : Prop :=
  is_u32 (dl_owner l) /\ option_of (fun n => 0 <= n <= i32_max) (dl_snd_ent l) /\ is_u8 (dl_alias_index l) /\ vec 3 (dl_origin l).

(** Every number in its type's range, the tables sorted and not too long. *)
Definition valid_world (w : WorldObjectSnapshot) : Prop :=
  is_i32 (wo_as_of_ms w) /\ is_u32 (wo_map_round_epoch w) /\ is_u32 (wo_fracture_profile_version w) /\
  keyed (wo_glass_pieces w) /\ rows_of valid_glass_row u16_max (wo_glass_pieces w) /\ rows_of valid_loop u16_max (wo_loop_sounds w).

Lemma glass_state_ok s : is_u8 (glass_state_u8 s) /\ glass_state_from_u8 (glass_state_u8 s) = Ok s.
Proof. by destruct s. Qed.
Lemma glass_cause_ok c : is_u8 (glass_cause_u8 c) /\ glass_cause_from_u8 (glass_cause_u8 c) = Ok c.
Proof. by destruct c. Qed.

#[export] Instance glass_row_codec : PartialCodec put_glass_row get_glass_row valid_glass_row.
Proof.
  split. intros [id [state revision time seed deterministic cause]] u [Hid (Hr & Ht & Hd & Hs)] Hu.
  unfold put_glass_row, encode_glass_piece_snapshot in Hu.
  cbn [fst snd gp_state gp_revision gp_last_state_change_time gp_shatter_seed gp_deterministic_seed gp_cause] in *.
  destruct (glass_state_ok state) as [S1 S2], (glass_cause_ok cause) as [C1 C2].
  unfold get_glass_row, decode_glass_piece_snapshot.
  destruct seed as [[dir x y]|]; cbn [option_of] in Hs.
  - case_bool_decide as Hst; [|done]. cbv [mbind option_bind] in Hu. apply (inj Some) in Hu as <-.
    destruct Hs as (Hdir & Hne & Hx & Hy). cbn [gs_impact_dir gs_impact_x gs_impact_y] in *.
    assert (is_u8 x /\ is_u8 y) as [Ux Uy] by (split; ilia).
    wire_step. eapply parses_end; [|apply parses_ret]. wire_step. eapply parses_lift; [exact S2|]. do 2 wire_step. wire_step.
    eapply parses_lift; [exact C2|]. do 2 wire_step. cbn [Z.eqb Pos.eqb]. rewrite (bool_decide_eq_true_2 _ Hst). do 2 wire_step.
    eapply parses_end; [solve [eauto with wire]|]. cbv beta. eapply parses_lift; [|apply parses_ret].
    unfold shatter_seed_new. rewrite (proj2 (Z.eqb_neq _ _) Hne), (proj2 (Z.ltb_ge 0x3f x)), (proj2 (Z.ltb_ge 0x3f y)) by lia. done.
  - cbv [mbind option_bind] in Hu. apply (inj Some) in Hu as <-.
    wire_step. eapply parses_end; [|apply parses_ret]. wire_step. eapply parses_lift; [exact S2|]. do 2 wire_step. wire_step.
    eapply parses_lift; [exact C2|]. wire_step. eapply parses_end; [solve [eauto with wire]|]. apply parses_ret.
Qed.

#[export] Instance loop_sound_codec : WireCodec put_loop_sound (get_loop_sound true) valid_loop.
Proof.
  split. intros [ent owner alias origin] (Ho & He & Ha & Hv). unfold put_loop_sound, get_loop_sound.
  cbn [dl_snd_ent dl_owner dl_alias_index dl_origin] in *. wire_step.
  destruct ent as [n|]; cbn [default from_option id option_of] in *.
  - assert (is_u32 n) by (unfold i32_max in *; ilia). eapply parses_bind.
    { eapply parses_end; [by apply parses_put_u32|]. rewrite (proj2 (Z.eqb_neq n u32_max)) by (unfold i32_max, u32_max in *; lia).
      rewrite (proj2 (Z.leb_le n i32_max)) by lia. apply parses_ret. }
    cbv beta. wire_fields.
  - eapply parses_bind; [eapply parses_end; [apply parses_put_u32; vm_compute; split; congruence|apply parses_ret]|]. cbv beta. wire_fields.
Qed.

Lemma loop_sounds_parse rows : rows_of valid_loop u16_max rows -> parses (decode_loop_sounds true) (encode_loop_sounds rows) rows.
Proof. intros Hr. by apply (wire_parses (WireCodec := list16_codec put_loop_sound (get_loop_sound true) valid_loop)). Qed.

(** *** The two forms of a table *)

Definition loop_norm (l : DestructibleLoopSound) : DestructibleLoopSound :=
  mkLoop (dl_snd_ent l) (dl_owner l) (dl_alias_index l) (map f32_norm (dl_origin l)).

(** The same content, up to the signs of zeros in the origins of the sounds. *)
Definition content_agrees (host client : WorldObjectSnapshot) : Prop :=
  wo_glass_pieces client = wo_glass_pieces host /\ map loop_norm (wo_loop_sounds client) = map loop_norm (wo_loop_sounds host).
Definition world_agrees (host client : WorldObjectSnapshot) : Prop :=
  content_agrees host client /\ wo_as_of_ms client = wo_as_of_ms host /\ wo_map_round_epoch client = wo_map_round_epoch host /\
  wo_fracture_profile_version client = wo_fracture_profile_version host.

Lemma f32_eqb_norm a b : f32_eqb a b = true -> f32_norm a = f32_norm b.
Proof.
  unfold f32_eqb, f32_norm. rewrite !andb_true_iff, orb_true_iff. intros [_ [->%Z.eqb_eq|[-> ->]%andb_true_iff]]; done.
Qed.

Lemma f32s_eqb_norm a : forall b, f32s_eqb a b = true -> map f32_norm a = map f32_norm b.
Proof.
  induction a as [|x a IH]; intros [|y b]; cbn; try done. intros [E%f32_eqb_norm H]%andb_true_iff. by rewrite E, (IH b H).
Qed.

Lemma loops_eqb_norm a : forall b, loops_eqb a b = true -> map loop_norm a = map loop_norm b.
Proof.
  induction a as [|x a IH]; intros [|y b]; cbn; try done. intros [Hx H]%andb_true_iff. rewrite (IH b H). f_equal.
  unfold loop_eqb in Hx. rewrite !andb_true_iff in Hx. destruct Hx as [[[H1%bool_decide_eq_true H2%Z.eqb_eq] H3%Z.eqb_eq] H4%f32s_eqb_norm].
  unfold loop_norm. congruence.
Qed.

Lemma rows_of_perm {A} (valid : A -> Prop) max xs ys : xs ≡ₚ ys -> rows_of valid max ys -> rows_of valid max xs.
Proof. intros Hp [Hn Hv]. unfold rows_of, zlen in *. by rewrite Hp. Qed.

Lemma rows_of_filter {A} (valid : A -> Prop) max P `{!forall x, Decision (P x)} xs : rows_of valid max xs -> rows_of valid max (filter P xs).
Proof.
  intros [Hn Hv]. unfold rows_of, zlen in *. pose proof (length_filter P xs). split; [lia|].
  apply list.Forall_forall. intros x [_ Hx]%list_elem_of_filter. rewrite list.Forall_forall in Hv. by apply Hv.
Qed.

Lemma pair_delta_rows {V} `{!EqDecision V} (valid : Z * V -> Prop) max baseline current :
  rows_of valid max current -> rows_of valid max (pd_changed (pair_delta baseline current)).
Proof. intros Hr. eapply rows_of_perm; [apply sort_rows_perm|]. by apply rows_of_filter. Qed.

Lemma pair_delta_removed {V} `{!EqDecision V} (valid : Z * V -> Prop) max baseline current :
  (forall row, valid row -> is_u32 row.1) -> rows_of valid max baseline -> rows_of is_u32 max (pd_removed (pair_delta baseline current)).
Proof.
  intros Hu [Hn Hv]. eapply rows_of_perm; [apply merge_sort_Permutation|]. apply rows_of_filter. split; [unfold zlen in *; by rewrite length_map|].
  apply Forall_fmap. eapply list.Forall_impl; [exact Hv|exact Hu].
Qed.

(** What the bytes of a message say. *)
Inductive sync_says (baseline current : WorldObjectSnapshot) : WorldObjectChange -> bool -> Prop :=
| SaysFull : sync_says baseline current (WoFull (wo_glass_pieces current) (wo_loop_sounds current)) true
| SaysDelta : sync_says baseline current (WoDelta (world_object_delta baseline current) (wo_loop_sounds current)) true
| SaysSame : delta_is_empty (world_object_delta baseline current) = true -> loops_eqb (wo_loop_sounds baseline) (wo_loop_sounds current) = true ->
    sync_says baseline current WoUnchanged false.

Lemma encode_sync_parses baseline current full wire changed :
  valid_world baseline -> valid_world current -> encode_sync baseline current full = Some (wire, changed) ->
  exists change, (full = true -> change = WoFull (wo_glass_pieces current) (wo_loop_sounds current)) /\ sync_says baseline current change changed /\
    parses decode_world_object_sync wire
      (mkUpdate (wo_as_of_ms current) (wo_map_round_epoch current) (wo_fracture_profile_version current) change).
Proof.
  intros (_ & _ & _ & _ & Hbg & _) (H1 & H2 & H3 & _ & Hg & Hl). unfold encode_sync.
  pose proof (loop_sounds_parse _ Hl) as Pl.
  assert (Hhead : forall u change, parses (tag ← get_u8; decode_world_object_change tag) u change ->
    parses decode_world_object_sync ((put_i32 (wo_as_of_ms current) ++ put_u32 (wo_map_round_epoch current) ++ put_u32 (wo_fracture_profile_version current)) ++ u)
      (mkUpdate (wo_as_of_ms current) (wo_map_round_epoch current) (wo_fracture_profile_version current) change)).
  { intros u change Hp. unfold decode_world_object_sync. rewrite <- !app_assoc. do 3 wire_step.
    intros pre post Hfit. specialize (Hp pre post Hfit). unfold mbind, parser_bind in *. destruct (get_u8 _) as [[tag rd]|]; [|done].
    by rewrite Hp. }
  destruct full; [|destruct (delta_is_empty _ && loops_eqb _ _) eqn:Es].
  - unfold encode_world_object_full. destruct (put_list16_opt _ _) as [glass|] eqn:Eg; [|done]. cbv [mbind option_bind].
    intros [<- <-]%(inj Some)%pair_equal_spec. exists (WoFull (wo_glass_pieces current) (wo_loop_sounds current)). split; [done|]. split; [constructor|]. apply Hhead. wire_step. cbn [decode_world_object_change Z.eqb Pos.eqb orb].
    change (decode_world_object_change 4) with (glass ← get_list16 get_glass_row; loops ← decode_loop_sounds true; mret (WoFull glass loops)).
    eapply parses_bind; [by eapply (partial_parses (PartialCodec := list16_partial put_glass_row get_glass_row valid_glass_row))|]. cbv beta.
    eapply parses_end; [exact Pl|apply parses_ret].
  - intros [<- <-]%(inj Some)%pair_equal_spec. apply andb_true_iff in Es as [E1 E2]. exists WoUnchanged. split; [done|]. split; [by constructor|]. apply Hhead.
    eapply parses_end; [by apply parses_put_u8|]. apply parses_ret.
  - unfold encode_world_object_delta. destruct (put_list16_opt _ _) as [rows|] eqn:Eg; [|done]. cbv [mbind option_bind].
    intros [<- <-]%(inj Some)%pair_equal_spec. exists (WoDelta (world_object_delta baseline current) (wo_loop_sounds current)). split; [done|]. split; [constructor|]. apply Hhead. wire_step.
    change (decode_world_object_change 3) with (changed ← get_list16 get_glass_row; removed ← get_list16 get_u32; loops ← decode_loop_sounds true;
      mret (WoDelta (mkDelta changed removed) loops)).
    eapply parses_bind; [eapply (partial_parses (PartialCodec := list16_partial put_glass_row get_glass_row valid_glass_row)); [by apply pair_delta_rows|exact Eg]|].
    cbv beta. eapply parses_bind; [eapply (wire_parses (WireCodec := list16_codec put_u32 get_u32 is_u32)), (pair_delta_removed valid_glass_row); [by intros row []|done]|].
    cbv beta. eapply parses_end; [exact Pl|apply parses_ret].
Qed.

Lemma delta_empty_same {V} `{!EqDecision V} (baseline current : list (Z * V)) :
  keyed baseline -> keyed current -> delta_is_empty (pair_delta baseline current) = true -> current = baseline.
Proof.
  intros Hb Hc He. pose proof (apply_pair_delta_ok baseline current Hb Hc) as H. destruct (pair_delta baseline current) as [changed removed].
  unfold delta_is_empty in He. cbn in He. destruct changed, removed; try done. unfold apply_pair_delta in H.
  cbn [pd_removed pd_changed foldl fst] in H. by rewrite !(sort_keyed baseline) in H.
Qed.

(** One message: the copy follows, if it followed the baseline or the message is whole. *)
Lemma sync_step (e : WorldObjectSyncEncoder) tick current e' wire state :
  valid_world (we_baseline e) -> valid_world current -> we_force_full e = true \/ content_agrees (we_baseline e) state ->
  sync_encode e tick current = Some (e', wire) -> fits wire ->
  exists state', sync_apply_wire state wire = Ok state' /\ world_agrees current state' /\
    valid_world (we_baseline e') /\ we_force_full e' = false /\ content_agrees (we_baseline e') state'.
Proof.
  intros Hb Hc Hs. unfold sync_encode. set (full := we_force_full e || _).
  destruct (encode_sync _ _ _) as [[w changed]|] eqn:Ee; [|done]. cbv [mbind option_bind]. intros [<- <-]%(inj Some)%pair_equal_spec Hfit.
  destruct (encode_sync_parses _ _ _ _ _ Hb Hc Ee) as (change & Hfull & Hsays & Hp).
  unfold sync_apply_wire, decode_sync. rewrite (parses_whole _ _ _ Hp Hfit).
  unfold reader_is_empty, remaining. cbn [rd_bytes rd_cursor]. rewrite Z.sub_diag. cbn [Z.eqb].
  eexists. split; [done|]. cbn [we_baseline we_force_full]. unfold update_apply. cbn [wu_change wu_as_of_ms wu_map_round_epoch wu_fracture_profile_version].
  assert (Hag : full = true \/ content_agrees (we_baseline e) state).
  { destruct Hs as [Hf|Hs]; [left; unfold full; by rewrite Hf|by right]. }
  clearbody full. destruct Hb as (B1 & B2 & B3 & B4 & B5 & B6), Hc as (C1 & C2 & C3 & C4 & C5 & C6).
  destruct Hsays as [| |He Hl]; unfold world_agrees, content_agrees in *.
  - done.
  - destruct full; [by specialize (Hfull eq_refl)|]. destruct Hag as [|[-> _]]; [done|].
    cbn [wo_glass_pieces wo_loop_sounds wo_as_of_ms wo_map_round_epoch wo_fracture_profile_version].
    unfold world_object_delta. by rewrite apply_pair_delta_ok.
  - destruct full; [by specialize (Hfull eq_refl)|]. destruct Hag as [|[E1 E2]]; [done|].
    cbn [wo_glass_pieces wo_loop_sounds wo_as_of_ms wo_map_round_epoch wo_fracture_profile_version].
    apply delta_empty_same in He; [|done..]. apply loops_eqb_norm in Hl.
    split; [split; [split; congruence|done]|]. split; [|by repeat split].
    unfold valid_world. by cbn [wo_glass_pieces wo_loop_sounds wo_as_of_ms wo_map_round_epoch wo_fracture_profile_version].
Qed.

(** ** How long a message is *)

(** A table of this many bytes at most fits the length of two bytes that goes before it in a frame,
    whatever it removes. *)
Definition WORLD_BYTES : Z := 56000.
Definition small_world (w : WorldObjectSnapshot) : Prop := 26 * zlen (wo_glass_pieces w) + 21 * zlen (wo_loop_sounds w) <= WORLD_BYTES.

Lemma glass_row_size row u : put_glass_row row = Some u -> zlen u <= 26.
Proof.
  unfold put_glass_row, encode_glass_piece_snapshot. destruct (gp_shatter_seed row.2) as [seed|]; [destruct (bool_decide _); [|done]|];
    cbv [mbind option_bind]; intros H; apply (inj Some) in H as <-; unfold put_u8, put_u32, put_i32, put_u64; autorewrite with zlen; lia.
Qed.

Lemma rows_size {A} (put : A -> option (list byte)) k rows u :
  (forall row u, put row = Some u -> zlen u <= k) -> put_list16_opt put rows = Some u -> zlen u <= 2 + k * zlen rows.
Proof.
  intros Hk. unfold put_list16_opt. destruct (mapM put rows) as [us|] eqn:E; [|done]. cbv [mbind option_bind]. intros H. apply (inj Some) in H as <-.
  unfold put_u16. rewrite zlen_app, zlen_le_bytes. assert (H : zlen (concat us) <= k * zlen rows); [|lia].
  revert us E. induction rows as [|row rows IH]; intros us E; cbn in E; [injection E as <-; cbn [concat]; unfold zlen; cbn [length]; lia|].
  destruct (put row) as [u|] eqn:Eu; [|done]. cbn in E. destruct (mapM put rows) as [us'|]; [|done]. apply (inj Some) in E as <-.
  cbn [concat]. rewrite zlen_app, zlen_cons. specialize (IH us' eq_refl). apply Hk in Eu. lia.
Qed.

Lemma loops_size rows : Forall valid_loop rows -> zlen (encode_loop_sounds rows) = 2 + 21 * zlen rows.
Proof.
  intros Hv. unfold encode_loop_sounds, put_list16, put_u16. rewrite zlen_app, zlen_le_bytes. f_equal.
  induction Hv as [|row rows (_ & _ & _ & Hn & _) _ IH]; [done|]. cbn [map concat]. rewrite zlen_app, IH, zlen_cons.
  assert (Ho : zlen (put_f32s (dl_origin row)) = 12).
  { destruct (dl_origin row) as [|x [|y [|z [|]]]]; cbn in Hn; done. }
  unfold put_loop_sound, put_u8, put_u32. rewrite !zlen_app, Ho, !zlen_le_bytes, zlen_cons, zlen_nil. lia.
Qed.

Lemma removed_size (ids : list Z) : zlen (put_list16 put_u32 ids) = 2 + 4 * zlen ids.
Proof.
  unfold put_list16, put_u16. rewrite zlen_app, zlen_le_bytes. f_equal. induction ids as [|id ids IH]; [done|].
  cbn [map concat]. rewrite zlen_app, IH, zlen_cons. unfold put_u32. rewrite zlen_le_bytes. lia.
Qed.

Lemma encode_sync_size baseline current full wire changed :
  small_world baseline -> small_world current -> valid_world current -> encode_sync baseline current full = Some (wire, changed) -> zlen wire <= u16_max.
Proof.
  unfold small_world, WORLD_BYTES, u16_max. intros Hb Hc (_ & _ & _ & _ & _ & _ & Hl). unfold encode_sync.
  set (head := put_i32 _ ++ _). assert (Hh : zlen head = 12) by (unfold head, put_i32, put_u32; by autorewrite with zlen).
  pose proof (zlen_nonneg (wo_glass_pieces current)). pose proof (zlen_nonneg (wo_loop_sounds current)). pose proof (zlen_nonneg (wo_loop_sounds baseline)).
  assert (Htag : forall tag, zlen (put_u8 tag) = 1) by done.
  destruct full; [|destruct (_ && _)].
  - unfold encode_world_object_full. destruct (put_list16_opt _ _) as [glass|] eqn:E; [|done]. cbv [mbind option_bind].
    intros H'. apply (inj Some), pair_equal_spec in H' as [<- _]. apply (rows_size _ 26) in E; [|exact glass_row_size].
    rewrite !zlen_app, Htag, loops_size by done. lia.
  - intros H'. apply (inj Some), pair_equal_spec in H' as [<- _]. rewrite zlen_app, Htag. lia.
  - unfold encode_world_object_delta. destruct (put_list16_opt _ _) as [glass|] eqn:E; [|done]. cbv [mbind option_bind].
    intros H'. apply (inj Some), pair_equal_spec in H' as [<- _]. apply (rows_size _ 26) in E; [|exact glass_row_size].
    rewrite !zlen_app, Htag, loops_size, removed_size by done.
    assert (Hg : zlen (pd_changed (world_object_delta baseline current)) <= zlen (wo_glass_pieces current)).
    { unfold zlen, world_object_delta, pair_delta. cbn [pd_changed]. rewrite (Permutation_length (sort_rows_perm _)).
      match goal with |- context [filter ?P ?l] => pose proof (length_filter P l) end. lia. }
    assert (Hr : zlen (pd_removed (world_object_delta baseline current)) <= zlen (wo_glass_pieces baseline)).
    { unfold zlen, world_object_delta, pair_delta. cbn [pd_removed]. rewrite (Permutation_length (merge_sort_Permutation _ _)).
      match goal with |- context [filter ?P ?l] => pose proof (length_filter P l) as Hf end. rewrite length_map in Hf. lia. }
    lia.
Qed.

Lemma sync_encode_size e tick current e' wire :
  small_world (we_baseline e) -> small_world current -> valid_world current -> sync_encode e tick current = Some (e', wire) -> zlen wire <= u16_max.
Proof.
  intros Hb Hc Hv. unfold sync_encode. destruct (encode_sync _ _ _) as [[u changed]|] eqn:E; [|done]. cbv [mbind option_bind].
  intros H. apply (inj Some) in H. apply (f_equal snd) in H. cbn [snd] in H. subst u. exact (encode_sync_size _ _ _ _ _ Hb Hc Hv E).
Qed.

(** ** Any sequence of messages *)

Fixpoint sync_encode_all (e : WorldObjectSyncEncoder) (worlds : list (Z * WorldObjectSnapshot)) : option (list (list byte)) :=
  match worlds with
  | [] => Some []
  | (tick, current) :: worlds => '(e, wire) ← sync_encode e tick current; wires ← sync_encode_all e worlds; Some (wire :: wires)
  end.

Fixpoint sync_decode_all (state : WorldObjectSnapshot) (wires : list (list byte)) : Result WireError (list WorldObjectSnapshot) :=
  match wires with
  | [] => Ok []
  | wire :: wires =>
      match sync_apply_wire state wire with
      | Err e => Err e
      | Ok state => match sync_decode_all state wires with Err e => Err e | Ok states => Ok (state :: states) end
      end
  end.

Lemma sync_all worlds : forall e state wires,
  valid_world (we_baseline e) -> we_force_full e = true \/ content_agrees (we_baseline e) state ->
  Forall (fun w => valid_world w.2) worlds -> sync_encode_all e worlds = Some wires -> Forall fits wires ->
  exists states, sync_decode_all state wires = Ok states /\ Forall2 (fun w s => world_agrees w.2 s) worlds states.
Proof.
  induction worlds as [|[tick current] worlds IH]; intros e state wires Hb Hs Hv; cbn [sync_encode_all].
  - intros [= <-] _. exists []. by split.
  - apply Forall_cons in Hv as [Hc Hv]. destruct (sync_encode e tick current) as [[e' wire]|] eqn:Ee; [|done]. cbv [mbind option_bind].
    destruct (sync_encode_all e' worlds) as [ws|] eqn:Ews; [|done]. intros [= <-] [Hf Hfs]%Forall_cons.
    destruct (sync_step e tick current e' wire state Hb Hc Hs Ee Hf) as (state' & Ed & Ha & Hb' & _ & Hs').
    destruct (IH e' state' ws Hb' (or_intror Hs') Hv Ews Hfs) as (states & Eds & Has).
    exists (state' :: states). cbn [sync_decode_all]. rewrite Ed, Eds. split; [done|]. by constructor.
Qed.

(** The ranges of a concrete value. *)
Ltac demo_ranges :=
  repeat lazymatch goal with
  | |- _ /\ _ => split
  | |- Forall _ _ => constructor
  | |- StronglySorted _ _ => constructor
  | |- keyed _ => unfold keyed
  | |- rows_of _ _ _ => unfold rows_of
  | |- array_of _ _ _ => unfold array_of
  | |- option_of _ _ => cbn [option_of]
  | |- True => exact I
  | |- @eq _ _ _ => reflexivity
  | |- _ <> _ => vm_compute; congruence
  | |- _ <= _ => vm_compute; congruence
  | |- _ < _ => vm_compute; reflexivity
  | |- vec _ _ => unfold vec
  | |- ?P ?x => unfold P; cbn [fst snd wo_as_of_ms wo_map_round_epoch wo_fracture_profile_version wo_glass_pieces wo_loop_sounds gp_revision
      gp_last_state_change_time gp_shatter_seed gp_deterministic_seed dl_snd_ent dl_owner dl_alias_index dl_origin gs_impact_dir gs_impact_x gs_impact_y]
  end.

Lemma valid_world_default : valid_world world_default.
Proof. unfold world_default. demo_ranges. Qed.

(** C18. The client's copy of the glass and the sounds follows the host's: whatever well-formed worlds a
    fresh encoder is given ([valid_world]: integers of their width, panes in the order of their ids, at
    most 65535 of each; the simulation that makes them is not modelled), at whatever ticks, while each
    message fits in memory ([fits]), a fresh decoder reads its messages one after the other and has after
    each of them the world of the host (with the sign of a zero in a sound's origin as it was sent
    last). *)
Theorem world_objects_follow worlds wires :
  Forall (fun w => valid_world w.2) worlds -> sync_encode_all sync_encoder_default worlds = Some wires -> Forall fits wires ->
  exists states, sync_decode_all world_default wires = Ok states /\ Forall2 (fun w s => world_agrees w.2 s) worlds states.
Proof. intros Hv He Hf. apply (sync_all worlds sync_encoder_default); [apply valid_world_default|by right|done..]. Qed.

Definition demo_pane (state : GlassPieceState) (seed : option GlassShatterSeed) : GlassPieceSnapshot := mkGlass state 1 50 seed 77 GlassImpact.
Definition demo_worlds : list (Z * WorldObjectSnapshot) :=
  [(1, mkWorld 50 1 3 [(4, demo_pane GlassWeakened None)] []);
   (2, mkWorld 100 1 3 [(2, demo_pane GlassDeleted None); (4, demo_pane GlassShattered (Some (mkSeed 9 1 63)))] [mkLoop (Some 5) 1 2 [0; 0x80000000; 0]]);
   (3, mkWorld 150 1 3 [(2, demo_pane GlassDeleted None); (4, demo_pane GlassShattered (Some (mkSeed 9 1 63)))] [mkLoop (Some 5) 1 2 [0; 0; 0]]);
   (200, mkWorld 200 1 3 [(4, demo_pane GlassShattered (Some (mkSeed 9 1 63)))] [])].

Lemma demo_worlds_valid : Forall (fun w => valid_world w.2) demo_worlds.
Proof. unfold demo_worlds, demo_pane. repeat (apply Forall_cons; split; [cbn [snd]; demo_ranges|]). constructor. Qed.

Lemma world_objects_follow_witness : exists wires states,
  sync_encode_all sync_encoder_default demo_worlds = Some wires /\ sync_decode_all world_default wires = Ok states /\
  Forall2 (fun w s => world_agrees w.2 s) demo_worlds states.
Proof.
  destruct (sync_encode_all sync_encoder_default demo_worlds) as [wires|] eqn:E; [|by vm_compute in E].
  exists wires. destruct (world_objects_follow demo_worlds wires demo_worlds_valid E) as (states & ? & ?).
  - vm_compute in E. injection E as <-. repeat constructor; vm_compute; congruence.
  - by exists states.
Defined.
