(* ===== verification/SnapshotDelta.v ===== *)
(** * The players and projectiles of a snapshot

    crates/net/src/transport/netfields.rs: the registry of the fields of a [PlayerState]
    (crates/playerstate_iw4/src/playerstate.rs) and the hash over them; and of delta.rs what is sent of a
    player (the fields that differ from the baseline, behind a mask) and of the projectiles
    (crates/sim/src/equipment.rs).

    A [PlayerState] is the list of its fields in the order of the registry, a field the list of its
    numbers: floats are their bits, [opaque] arrays their bytes. *)

From S2P Require Export WorldObjects.
From stdpp Require Import sorting.

#[local] Open Scope Z_scope.

(** ** The registry *)

Inductive FieldKind : Type :=
| FkI32 | FkU32 | FkF32 | FkVec3 | FkI32array (n : nat) | FkU32x2 | FkU32x8 | FkOpaque (n : nat).

(** No field has a tolerance. *)
Inductive Validation : Type := ValExact | ValAdoptOnly.

Definition PsNetField : Type := list byte * FieldKind * Validation.

Definition PS_NETFIELDS : list PsNetField :=
  [(bs "command_time", FkI32, ValExact); (bs "pm_type", FkI32, ValExact); (bs "pm_time", FkI32, ValExact);
   (bs "pm_flags", FkU32, ValExact); (bs "other_flags", FkU32, ValExact); (bs "link_flags", FkU32, ValExact);
   (bs "bob_cycle", FkI32, ValExact); (bs "origin", FkVec3, ValExact); (bs "velocity", FkVec3, ValExact);
   (bs "grenade_time_left", FkI32, ValExact); (bs "throw_back_grenade_owner", FkI32, ValExact);
   (bs "gravity", FkI32, ValExact); (bs "leanf", FkF32, ValExact); (bs "speed", FkI32, ValExact);
   (bs "delta_angles", FkVec3, ValExact); (bs "ground_entity_num", FkI32, ValExact);
   (bs "v_ladder_vec", FkVec3, ValExact); (bs "jump_time", FkI32, ValExact);
   (bs "jump_origin_z", FkF32, ValExact); (bs "legs_timer", FkI32, ValExact); (bs "legs_anim", FkI32, ValExact);
   (bs "torso_timer", FkI32, ValExact); (bs "torso_anim", FkI32, ValExact);
   (bs "damage_timer", FkI32, ValExact); (bs "damage_duration", FkI32, ValExact);
   (bs "flinch_yaw_anim", FkI32, ValExact); (bs "corpse_index", FkI32, ValExact);
   (bs "movement_dir", FkI32, ValExact); (bs "e_flags", FkU32, ValExact);
   (bs "event_sequence", FkI32, ValExact); (bs "events_0", FkI32, ValExact); (bs "events_1", FkI32, ValExact);
   (bs "events_2", FkI32, ValExact); (bs "events_3", FkI32, ValExact); (bs "event_parms_0", FkI32, ValExact);
   (bs "event_parms_1", FkI32, ValExact); (bs "event_parms_2", FkI32, ValExact);
   (bs "event_parms_3", FkI32, ValExact); (bs "old_event_sequence", FkI32, ValExact);
   (bs "viewangles", FkVec3, ValExact); (bs "view_height_target", FkI32, ValExact);
   (bs "view_height_current", FkF32, ValExact); (bs "view_height_lerp_time", FkI32, ValExact);
   (bs "view_height_lerp_target", FkI32, ValExact); (bs "view_height_lerp_down", FkI32, ValExact);
   (bs "damage_event", FkU32, ValAdoptOnly); (bs "damage_yaw", FkU32, ValAdoptOnly);
   (bs "damage_pitch", FkU32, ValAdoptOnly); (bs "damage_count", FkI32, ValAdoptOnly);
   (bs "damage_flags", FkU32, ValAdoptOnly); (bs "health", FkI32, ValAdoptOnly);
   (bs "max_health", FkI32, ValExact); (bs "link_weapon_angles", FkVec3, ValExact);
   (bs "cursor_hint", FkI32, ValAdoptOnly); (bs "cursor_hint_string", FkI32, ValAdoptOnly);
   (bs "cursor_hint_ent_index", FkI32, ValAdoptOnly); (bs "viewlocked", FkI32, ValAdoptOnly);
   (bs "viewlocked_ent_num", FkI32, ValAdoptOnly); (bs "cursor_hint_dual_wield", FkI32, ValAdoptOnly);
   (bs "sprint_button_up_required", FkI32, ValExact); (bs "sprint_delay", FkI32, ValExact);
   (bs "last_sprint_start", FkI32, ValExact); (bs "last_sprint_end", FkI32, ValExact);
   (bs "sprint_start_max_length", FkI32, ValExact); (bs "move_speed_scale_multiplier", FkF32, ValExact);
   (bs "mantle_yaw", FkF32, ValExact); (bs "mantle_timer", FkI32, ValExact);
   (bs "mantle_trans_index", FkI32, ValExact); (bs "mantle_flags", FkU32, ValExact);
   (bs "weap_anim", FkI32, ValExact); (bs "weapon_time", FkI32, ValExact); (bs "weapon_delay", FkI32, ValExact);
   (bs "weapon_restrict_kick_time", FkI32, ValExact); (bs "weaponstate_primary", FkI32, ValExact);
   (bs "weap_hand_flags", FkI32, ValExact); (bs "weapon_shot_count", FkI32, ValExact);
   (bs "weap_anim_secondary", FkI32, ValExact); (bs "weapon_time_secondary", FkI32, ValExact);
   (bs "weapon_delay_secondary", FkI32, ValExact); (bs "weapon_restrict_kick_time_secondary", FkI32, ValExact);
   (bs "weaponstate_secondary", FkI32, ValExact); (bs "weap_hand_flags_secondary", FkI32, ValExact);
   (bs "weapon_shot_count_secondary", FkI32, ValExact); (bs "weapons", (FkI32array 15), ValExact);
   (bs "weapon_data", (FkOpaque 76), ValExact); (bs "off_hand_index", FkI32, ValExact);
   (bs "offhand_primary", FkI32, ValExact); (bs "offhand_secondary", FkI32, ValExact);
   (bs "weapon", FkU32, ValExact); (bs "weapon_primary", FkU32, ValExact); (bs "weap_flags", FkU32, ValExact);
   (bs "f_weapon_pos_frac", FkF32, ValExact); (bs "scope_zoom_level", FkU32, ValExact);
   (bs "aim_spread_scale", FkF32, ValExact); (bs "ads_delay_time", FkI32, ValExact);
   (bs "spread_override", FkI32, ValExact); (bs "spread_override_state", FkI32, ValExact);
   (bs "last_weapon_hand", FkI32, ValExact); (bs "ammo", (FkOpaque 120), ValExact);
   (bs "ammoclip", (FkOpaque 180), ValExact); (bs "melee_charge_yaw", FkF32, ValExact);
   (bs "melee_charge_dist", FkI32, ValExact); (bs "melee_charge_time", FkI32, ValExact);
   (bs "perks", FkU32x2, ValExact); (bs "perk_slots", FkU32x8, ValExact);
   (bs "action_slot_type", (FkI32array 4), ValExact); (bs "action_slot_param", (FkI32array 4), ValExact);
   (bs "shellshock_index", FkI32, ValExact); (bs "shellshock_time", FkI32, ValExact);
   (bs "shellshock_duration", FkI32, ValExact); (bs "stun_time", FkI32, ValExact);
   (bs "objectives", (FkOpaque 896), ValExact); (bs "delta_time", FkI32, ValExact);
   (bs "kill_cam_entity", FkI32, ValExact); (bs "kill_cam_look_at_entity", FkI32, ValExact);
   (bs "kill_cam_client_num", FkI32, ValExact); (bs "recoil_scale", FkI32, ValExact);
   (bs "hold_breath_timer", FkI32, ValExact); (bs "hold_breath_scale", FkF32, ValExact)].

Definition PS_FIELD_COUNT : nat := length PS_NETFIELDS.

Definition PlayerState : Type := list (list Z).

Definition kind_len (k : FieldKind) : nat :=
  match k with FkI32 | FkU32 | FkF32 => 1 | FkVec3 => 3 | FkI32array n | FkOpaque n => n | FkU32x2 => 2 | FkU32x8 => 8 end.

Definition PLAYER_ZERO : PlayerState :=
  map (fun row : PsNetField =>
    if bool_decide (row.1.1 = bs "viewlocked_ent_num") then [ENTITYNUM_NONE]
    else if bool_decide (row.1.1 = bs "hold_breath_scale") then [0x3f800000]
    else replicate (kind_len row.1.2) 0) PS_NETFIELDS.

Definition ps_field (ps : PlayerState) (index : nat) : list Z := default [] (ps !! index).

Definition put_i32s (xs : list Z) : list byte := concat (map put_i32 xs).

Definition write_by_kind (k : FieldKind) (v : list Z) : list byte :=
  match k with
  | FkI32 | FkI32array _ => put_i32s v
  | FkU32 | FkU32x2 | FkU32x8 => put_u32s v
  | FkF32 | FkVec3 => put_f32s v
  | FkOpaque _ => put_bytes (map byte_of v)
  end.

Definition read_by_kind (k : FieldKind) : WParser (list Z) :=
  match k with
  | FkI32 | FkI32array _ => parse_list (kind_len k) get_i32
  | FkU32 | FkU32x2 | FkU32x8 => parse_list (kind_len k) get_u32
  | FkF32 | FkVec3 => get_vec (kind_len k)
  | FkOpaque n => bytes ← get_bytes (Z.of_nat n); mret (map byte_val bytes)
  end.

(** All comparisons are of bits. *)
Definition field_differs (a b : PlayerState) (index : nat) : bool :=
  (index <? PS_FIELD_COUNT)%nat && negb (bool_decide (ps_field a index = ps_field b index)).

Definition write_field (ps : PlayerState) (index : nat) : list byte :=
  match PS_NETFIELDS !! index with Some row => write_by_kind row.1.2 (ps_field ps index) | None => [] end.

Definition read_field (index : nat) (ps : PlayerState) : WParser PlayerState :=
  match PS_NETFIELDS !! index with
  | Some row => v ← read_by_kind row.1.2; mret (<[index := v]> ps)
  | None => lift (Err (UnknownField (Z.of_nat index)))
  end.

Definition player_state_diff (a b : PlayerState) : list (list byte) :=
  map (fun index => match PS_NETFIELDS !! index with Some row => row.1.1 | None => [] end)
    (filter (fun index => field_differs a b index = true) (seq 0 PS_FIELD_COUNT)).

Definition fnv1a32 (bytes : list byte) : Z :=
  foldl (fun hash b => wrap32 (Z.lxor hash (byte_val b) * 0x01000193)) 0x811c9dc5 bytes.

Definition hash_field (ps : PlayerState) (index : nat) : list byte :=
  match PS_NETFIELDS !! index with Some (_, ValExact) => write_field ps index | _ => [] end.

Definition compute_state_hash (players : list (Z * PlayerState)) : Z :=
  fnv1a32 (concat (map (fun player => put_u32 player.1 ++ concat (map (hash_field player.2) (seq 0 PS_FIELD_COUNT))) players)).

(** ** A player *)

(** The number of fields up to the last that changed. *)
Fixpoint changed_count (index : nat) (changed : list bool) : nat :=
  match changed with
  | [] => 0
  | c :: changed => let rest := changed_count (S index) changed in if (rest =? 0)%nat then if c then S index else 0 else rest
  end.

(** One byte of the mask. *)
Definition mask_byte (count : nat) (changed : list bool) (at_byte : nat) : Z :=
  foldl (fun bits bit =>
    let index := (at_byte * 8 + bit)%nat in
    if (index <? count)%nat && default false (changed !! index) then Z.lor bits (Z.shiftl 1 (Z.of_nat bit)) else bits)
    0 (seq 0 8).

Definition mask_bytes (count : nat) : nat := Z.to_nat (div_ceil (Z.of_nat count) 8).

Definition encode_player (baseline current : PlayerState) : list byte :=
  let changed := map (field_differs baseline current) (seq 0 PS_FIELD_COUNT) in
  let count := changed_count 0 changed in
  put_u8 (wrap8 (Z.of_nat count)) ++ put_u8s (map (mask_byte count changed) (seq 0 (mask_bytes count))) ++
  concat (map (write_field current) (filter (fun index => default false (changed !! index) = true) (seq 0 count))).

Definition masked (mask : list Z) (index : nat) : bool :=
  negb (Z.land (default 0 (mask !! (index / 8)%nat)) (Z.shiftl 1 (Z.of_nat (index mod 8))) =? 0).

Fixpoint read_masked (mask : list Z) (indexes : list nat) (state : PlayerState) : WParser PlayerState :=
  match indexes with
  | [] => mret state
  | index :: indexes =>
      if masked mask index then state ← read_field index state; read_masked mask indexes state
      else read_masked mask indexes state
  end.

Definition decode_player (state : PlayerState) : WParser PlayerState :=
  count ← get_u8;
  _ ← lift (fail_if (Z.of_nat PS_FIELD_COUNT <? count) (malformed "changed-field count exceeds the playerState registry"));
  mask ← parse_list (mask_bytes (Z.to_nat count)) get_u8;
  read_masked mask (seq 0 (Z.to_nat count)) state.

(** The player's state in the baseline, or the zero state. *)
Definition baseline_player (baseline : list (Z * PlayerState)) (client : Z) : PlayerState :=
  match find (fun row => row.1 =? client) baseline with Some row => row.2 | None => PLAYER_ZERO end.

Definition put_player (baseline : list (Z * PlayerState)) (player : Z * PlayerState) : list byte :=
  put_u32 player.1 ++ encode_player (baseline_player baseline player.1) player.2.
Definition get_player (baseline : list (Z * PlayerState)) : WParser (Z * PlayerState) :=
  client ← get_u32; state ← decode_player (baseline_player baseline client); mret (client, state).

(** ** A projectile *)

Record Trajectory : Type := mkTrajectory { tj_time : Z; tj_type : Z; tj_duration : Z; tj_delta : list Z; tj_base : list Z }.

Record MissileGuide : Type := mkGuide { mg_target : option MissileTarget; mg_top : bool; mg_stage : Z; mg_passed : bool }.

Record ProjectileState : Type := mkProjectile {
  pj_id : Z;
  pj_owner : Z;
  pj_owner_life : Z;
  pj_weapon : Z;
  pj_origin : list Z;
  pj_velocity : list Z;
  pj_pos : Trajectory;
  pj_apos : Trajectory;
  pj_entnum : Z;
  pj_launch_time : Z;
  pj_spawn_time_ms : Z;
  pj_detonate_at_ms : option Z;
  pj_cleanup_at_ms : Z;
  pj_travel_distance : Z;
  pj_live : bool;
  pj_stuck_pane : option Z;
  pj_grounded : bool;
  pj_guide : MissileGuide;
  pj_attached_to : option MissileTarget;
}.

(** The derived [PartialEq]s, in which floats compare as floats. *)
Definition target_eqb (a b : option MissileTarget) : bool :=
  match a, b with
  | None, None => true
  | Some (TargetPoint p), Some (TargetPoint q) => f32s_eqb p q
  | Some (TargetEntity e p), Some (TargetEntity f q) => bool_decide (e = f) && f32s_eqb p q
  | Some (TargetPlayer c l p), Some (TargetPlayer d m q) => (c =? d) && (l =? m) && f32s_eqb p q
  | _, _ => false
  end.
Definition trajectory_eqb (a b : Trajectory) : bool :=
  (tj_time a =? tj_time b) && (tj_type a =? tj_type b) && (tj_duration a =? tj_duration b) &&
  f32s_eqb (tj_delta a) (tj_delta b) && f32s_eqb (tj_base a) (tj_base b).
Definition guide_eqb (a b : MissileGuide) : bool :=
  target_eqb (mg_target a) (mg_target b) && eqb (mg_top a) (mg_top b) && (mg_stage a =? mg_stage b) && eqb (mg_passed a) (mg_passed b).

Definition projectile_differs (a b : ProjectileState) : bool :=
  negb ((pj_id a =? pj_id b) && (pj_owner a =? pj_owner b) && (pj_owner_life a =? pj_owner_life b) && (pj_weapon a =? pj_weapon b) &&
    f32s_eqb (pj_origin a) (pj_origin b) && f32s_eqb (pj_velocity a) (pj_velocity b) && trajectory_eqb (pj_pos a) (pj_pos b) &&
    trajectory_eqb (pj_apos a) (pj_apos b) && (pj_entnum a =? pj_entnum b) && (pj_launch_time a =? pj_launch_time b) &&
    (pj_spawn_time_ms a =? pj_spawn_time_ms b) && bool_decide (pj_detonate_at_ms a = pj_detonate_at_ms b) &&
    (pj_cleanup_at_ms a =? pj_cleanup_at_ms b) && f32_eqb (pj_travel_distance a) (pj_travel_distance b) &&
    eqb (pj_live a) (pj_live b) && bool_decide (pj_stuck_pane a = pj_stuck_pane b) && eqb (pj_grounded a) (pj_grounded b) &&
    guide_eqb (pj_guide a) (pj_guide b) && target_eqb (pj_attached_to a) (pj_attached_to b)).

Definition encode_trajectory (tr : Trajectory) : list byte :=
  put_i32 (tj_time tr) ++ put_i32 (tj_type tr) ++ put_i32 (tj_duration tr) ++ put_f32s (tj_delta tr) ++ put_f32s (tj_base tr).
Definition decode_trajectory : WParser Trajectory :=
  time ← get_i32; type ← get_i32; duration ← get_i32; delta ← get_vec 3; base ← get_vec 3; mret (mkTrajectory time type duration delta base).

Definition put_bool32 (b : bool) : list byte := put_u32 (bool_val b).
Definition get_bool32 : WParser bool := v ← get_u32; mret (negb (v =? 0)).

(** The least number stands for no time to detonate at. *)
Definition put_detonate (at_ms : option Z) : list byte := match at_ms with Some ms => put_i32 ms | None => put_i32 i32_min end.
Definition get_detonate : WParser (option Z) := raw ← get_i32; mret (if raw =? i32_min then None else Some raw).

Definition put_pane (pane : option Z) : list byte := put_u32 (match pane with Some p => saturating_add32 p 1 | None => 0 end).
Definition get_pane : WParser (option Z) := encoded ← get_u32; mret (if encoded =? 0 then None else Some (saturating_sub encoded 1)).

Definition put_guide (g : MissileGuide) : list byte :=
  encode_missile_target (mg_target g) ++ put_bool (mg_top g) ++ put_u8 (mg_stage g) ++ put_bool (mg_passed g).
Definition get_guide : WParser MissileGuide :=
  target ← decode_missile_target; top ← get_bool; stage ← get_u8; passed ← get_bool; mret (mkGuide target top stage passed).

Definition encode_projectile (p : ProjectileState) : list byte :=
  put_u32 (pj_id p) ++ put_u32 (pj_owner p) ++ put_u32 (pj_owner_life p) ++ put_u32 (pj_weapon p) ++
  put_f32s (pj_origin p) ++ put_f32s (pj_velocity p) ++ put_i32 (pj_spawn_time_ms p) ++ put_detonate (pj_detonate_at_ms p) ++
  put_i32 (pj_cleanup_at_ms p) ++ put_f32 (pj_travel_distance p) ++ put_bool32 (pj_live p) ++
  encode_trajectory (pj_pos p) ++ encode_trajectory (pj_apos p) ++ put_i32 (pj_entnum p) ++ put_i32 (pj_launch_time p) ++
  put_pane (pj_stuck_pane p) ++ put_bool32 (pj_grounded p) ++ put_guide (pj_guide p) ++ encode_missile_target (pj_attached_to p).

Definition decode_projectile : WParser ProjectileState :=
  id ← get_u32; owner ← get_u32; owner_life ← get_u32; weapon ← get_u32;
  origin ← get_vec 3; velocity ← get_vec 3; spawn_time_ms ← get_i32; detonate_at_ms ← get_detonate;
  cleanup_at_ms ← get_i32; travel_distance ← get_f32; live ← get_bool32;
  pos ← decode_trajectory; apos ← decode_trajectory; entnum ← get_i32; launch_time ← get_i32;
  stuck_pane ← get_pane; grounded ← get_bool32; guide ← get_guide; attached_to ← decode_missile_target;
  mret (mkProjectile id owner owner_life weapon origin velocity pos apos entnum launch_time spawn_time_ms detonate_at_ms cleanup_at_ms
          travel_distance live stuck_pane grounded guide attached_to).

Abbreviation ProjectileMap := (gmap Z ProjectileState).

(** [map(|p| (p.id, *p)).collect()]. *)
Definition by_id (projectiles : list ProjectileState) : list (Z * ProjectileState) := map (fun p => (pj_id p, p)) projectiles.
Definition projectile_map (projectiles : list ProjectileState) : ProjectileMap := hash_map (by_id projectiles).

Record ProjectileEntityDelta : Type := mkProjectileDelta { pe_changed : list ProjectileState; pe_removed : list Z }.

Definition projectile_delta (baseline : ProjectileMap) (current : list ProjectileState) : ProjectileEntityDelta :=
  mkProjectileDelta
    (map snd (sort_rows (by_id (filter (fun p => match baseline !! pj_id p with Some old => projectile_differs old p | None => true end = true) current))))
    (merge_sort Z.le (filter (fun id => projectile_map current !! id = None) (elements (dom baseline)))).

Definition encode_projectile_delta (baseline : ProjectileMap) (current : list ProjectileState) : list byte :=
  let delta := projectile_delta baseline current in
  put_list16 encode_projectile (pe_changed delta) ++ put_list16 put_u32 (pe_removed delta).

Definition decode_projectile_delta : WParser ProjectileEntityDelta :=
  changed ← get_list16 decode_projectile; removed ← get_list16 get_u32; mret (mkProjectileDelta changed removed).

(** What the decoder makes of a delta, and the projectiles in the order of their ids. *)
Definition apply_projectiles (baseline : ProjectileMap) (delta : ProjectileEntityDelta) : ProjectileMap :=
  let m := foldl (fun m p => <[pj_id p := p]> m) baseline (pe_changed delta) in
  foldl (fun m id => delete id m) m (pe_removed delta).
Definition sorted_projectiles (m : ProjectileMap) : list ProjectileState := map snd (sort_rows (map_to_list m)).

(** ** The two ends *)

(** A snapshot; [Meta] is what is not a player or a projectile. *)
Record Snapshot (Meta : Type) : Type := mkSnapshot {
  sn_tick : Z; sn_players : list (Z * PlayerState); sn_projectiles : list ProjectileState; sn_meta : Meta }.
Arguments mkSnapshot {Meta}.
Arguments sn_tick {Meta}.
Arguments sn_players {Meta}.
Arguments sn_projectiles {Meta}.
Arguments sn_meta {Meta}.

Record SnapshotDelta : Type := mkSnapshotDelta { sd_tick : Z; sd_bytes : list byte }.

Definition snapshot_delta_encode (d : SnapshotDelta) : list byte :=
  put_u32 (sd_tick d) ++ put_u32 (wrap32 (zlen (sd_bytes d))) ++ put_bytes (sd_bytes d).

(** [if length > input.remaining() { return Err(..) }]. *)
Definition fits_remaining (what : String.string) (length : Z) : WParser () := fun rd =>
  if remaining rd <? length then Err (malformed what) else Ok ((), rd).
Arguments fits_remaining what%_string_scope length.

Definition snapshot_delta_decode : WParser SnapshotDelta :=
  tick ← get_u32; length ← get_u32; _ ← fits_remaining "snapshot delta longer than its frame" length;
  bytes ← get_bytes length; mret (mkSnapshotDelta tick bytes).

Section Ends.
Context {Meta : Type} (meta_world_objects : Meta -> WorldObjectSnapshot) (meta_default : Meta).

Record SnapshotEncoder : Type := mkEncoder {
  en_baseline : list (Z * PlayerState);
  en_projectile_baseline : ProjectileMap;
  en_last_projectile_delta : ProjectileEntityDelta;
  en_world_objects : WorldObjectSyncEncoder;
  en_world_objects_wire : list byte;
}.

Definition encoder_new : SnapshotEncoder := mkEncoder [] ∅ (mkProjectileDelta [] []) sync_encoder_default [].

(** A panic of the world's encoder is [None]. *)
Definition encode_world_objects (e : SnapshotEncoder) (tick : Z) (current : WorldObjectSnapshot) : option (SnapshotEncoder * list byte) :=
  match sync_encode (en_world_objects e) tick current with
  | Some (world, wire) =>
      Some (mkEncoder (en_baseline e) (en_projectile_baseline e) (en_last_projectile_delta e) world wire, wire)
  | None => None
  end.

Definition snapshot_encode (e : SnapshotEncoder) (snapshot : Snapshot Meta) : SnapshotEncoder * SnapshotDelta :=
  let players := put_list16 (put_player (en_baseline e)) (sn_players snapshot) in
  let projectiles := encode_projectile_delta (en_projectile_baseline e) (sn_projectiles snapshot) in
  (mkEncoder (sn_players snapshot) (projectile_map (sn_projectiles snapshot))
     (projectile_delta (en_projectile_baseline e) (sn_projectiles snapshot)) (en_world_objects e) (en_world_objects_wire e),
   mkSnapshotDelta (sn_tick snapshot) (players ++ projectiles)).

Definition encoder_adopt (e : SnapshotEncoder) (snapshot : Snapshot Meta) : SnapshotEncoder :=
  mkEncoder (sn_players snapshot) (projectile_map (sn_projectiles snapshot)) (en_last_projectile_delta e)
    (sync_adopt (en_world_objects e) (meta_world_objects (sn_meta snapshot))) (en_world_objects_wire e).

Definition encoder_reset (e : SnapshotEncoder) : SnapshotEncoder :=
  mkEncoder [] ∅ (mkProjectileDelta [] []) (sync_reset (en_world_objects e)) [].

(** The world's decoder is the world it has come to. *)
Record SnapshotDecoder : Type := mkDecoder {
  de_baseline : list (Z * PlayerState);
  de_projectile_baseline : ProjectileMap;
  de_last_projectile_delta : ProjectileEntityDelta;
  de_world_objects : WorldObjectSnapshot;
}.

Definition decoder_new : SnapshotDecoder := mkDecoder [] ∅ (mkProjectileDelta [] []) world_default.

Definition apply_world_objects_wire (d : SnapshotDecoder) (wire : list byte) : Result WireError (SnapshotDecoder * WorldObjectSnapshot) :=
  world ← sync_apply_wire (de_world_objects d) wire;
  Ok (mkDecoder (de_baseline d) (de_projectile_baseline d) (de_last_projectile_delta d) world, world).

Definition parse_snapshot (d : SnapshotDecoder) : WParser (list (Z * PlayerState) * ProjectileEntityDelta) :=
  players ← get_list16 (get_player (de_baseline d)); projectiles ← decode_projectile_delta; mret (players, projectiles).

Definition decode_snapshot (d : SnapshotDecoder) (delta : SnapshotDelta) : Result WireError (SnapshotDecoder * Snapshot Meta) :=
  r ← parse_snapshot d (mkReader (sd_bytes delta) 0);
  if negb (reader_is_empty r.2) then Err (malformed "trailing bytes after the projectile entity delta")
  else
    let projectiles := apply_projectiles (de_projectile_baseline d) r.1.2 in
    Ok (mkDecoder r.1.1 projectiles r.1.2 (de_world_objects d),
        mkSnapshot (sd_tick delta) r.1.1 (sorted_projectiles projectiles) meta_default).

Definition decoder_reset (d : SnapshotDecoder) : SnapshotDecoder := mkDecoder [] ∅ (mkProjectileDelta [] []) world_default.

Definition decoder_adopt (d : SnapshotDecoder) (snapshot : Snapshot Meta) : SnapshotDecoder :=
  mkDecoder (sn_players snapshot) (projectile_map (sn_projectiles snapshot)) (de_last_projectile_delta d)
    (meta_world_objects (sn_meta snapshot)).
End Ends.

(** * Properties

    What is sent of the players and projectiles, read with the same baseline, gives the host's. *)

(** ** Players *)

Definition valid_kind (k : FieldKind) (v : list Z) : Prop :=
  match k with
  | FkI32 | FkI32array _ => array_of is_i32 (kind_len k) v
  | FkU32 | FkU32x2 | FkU32x8 | FkF32 | FkVec3 => array_of is_u32 (kind_len k) v
  | FkOpaque n => array_of is_u8 n v
  end.

Definition valid_player (ps : PlayerState) : Prop := Forall2 (fun (row : PsNetField) v => valid_kind row.1.2 v) PS_NETFIELDS ps.

#[export] Instance i32s_codec n : WireCodec put_i32s (parse_list n get_i32) (array_of is_i32 n) := array_codec _ _ _ n i32_codec.

#[export] Instance kind_codec k : WireCodec (write_by_kind k) (read_by_kind k) (valid_kind k).
Proof.
  split. intros v Hv. destruct k; cbn [write_by_kind read_by_kind valid_kind] in *; try by apply wire_parses.
  destruct Hv as [Hn Hv].
  assert (Emap : map byte_val (map byte_of v) = v).
  { rewrite map_map. apply map_id_Forall with (P := is_u8) in Hv || idtac. clear Hn. induction Hv as [|x v Hx _ IH]; [done|].
    cbn [map]. by rewrite IH, byte_val_of_small. }
  rewrite <- Emap at 2. apply (parses_last (get_bytes (Z.of_nat n)) (map byte_val)). apply parses_get_bytes.
  unfold zlen, put_bytes. by rewrite length_map, Hn.
Qed.

Lemma valid_player_length ps : valid_player ps -> length ps = PS_FIELD_COUNT.
Proof. intros Hv. symmetry. by eapply list.Forall2_length. Qed.

Lemma valid_player_field ps i row : valid_player ps -> PS_NETFIELDS !! i = Some row -> exists v, ps !! i = Some v /\ valid_kind row.1.2 v.
Proof. intros Hv Hr. by apply (Forall2_lookup_l _ _ _ _ _ Hv). Qed.

Lemma changed_count_spec changed : forall index,
  (changed_count index changed <= index + length changed)%nat /\ forall j, changed !! j = Some true -> (index + j < changed_count index changed)%nat.
Proof.
  induction changed as [|c changed IH]; intros index; cbn [changed_count length]; [split; [lia|done]|].
  destruct (IH (S index)) as [H1 H2]. destruct (Nat.eqb_spec (changed_count (S index) changed) 0) as [E|E].
  - split; [destruct c; lia|]. intros [|j] Hj; cbn in Hj; [injection Hj as ->; lia|]. apply H2 in Hj. lia.
  - split; [lia|]. intros [|j] Hj; cbn in Hj; [|apply H2 in Hj; lia].
    assert (index < changed_count (S index) changed)%nat; [|lia]. clear -E. revert index E. induction changed as [|c changed IH]; intros index; cbn; [done|].
    destruct (Nat.eqb_spec (changed_count (S (S index)) changed) 0); [destruct c; lia|]. intros _. specialize (IH (S index) n). lia.
Qed.

Section Mask.
Context (f : nat -> bool).

Lemma mask_fold bits init n :
  0 <= n -> Z.testbit (foldl (fun acc bit => if f bit then Z.lor acc (Z.shiftl 1 (Z.of_nat bit)) else acc) init bits) n =
    Z.testbit init n || existsb (fun bit => f bit && (Z.of_nat bit =? n)) bits.
Proof.
  intros Hn. revert init. induction bits as [|bit bits IH]; intros init; cbn [foldl existsb]; [by rewrite orb_false_r|].
  rewrite IH. destruct (f bit); cbn [andb]; [|done]. rewrite Z.lor_spec, <- orb_assoc. f_equal. f_equal.
  rewrite Z.shiftl_spec by done. destruct (Z.eqb_spec (Z.of_nat bit) n) as [<-|Hne]; [by rewrite Z.sub_diag|].
  destruct (Z.lt_trichotomy n (Z.of_nat bit)) as [?|[?|?]]; [rewrite Z.testbit_neg_r by lia; done|lia|].
  apply Z.testbit_false; [lia|]. rewrite Z.div_small; [done|]. split; [done|]. apply Z.pow_gt_1; lia.
Qed.

Lemma mask_range : is_u8 (foldl (fun acc bit => if f bit then Z.lor acc (Z.shiftl 1 (Z.of_nat bit)) else acc) 0 (seq 0 8)).
Proof.
  cbn [seq foldl]. destruct (f 0), (f 1), (f 2), (f 3), (f 4), (f 5), (f 6), (f 7); vm_compute; split; congruence.
Qed.
End Mask.

Lemma masked_ok count changed index : (index < count)%nat -> (count <= 255)%nat ->
  masked (map (mask_byte count changed) (seq 0 (mask_bytes count))) index = default false (changed !! index).
Proof.
  intros Hi Hc. unfold masked. pose proof (Nat.div_mod_eq index 8) as Hd. pose proof (Nat.mod_upper_bound index 8 ltac:(lia)) as Hm.
  assert (Hb : (index / 8 < mask_bytes count)%nat) by (unfold mask_bytes, div_ceil; apply Nat2Z.inj_lt; rewrite Z2Nat.id; Z.to_euclidean_division_equations; lia).
  rewrite list_lookup_fmap, lookup_seq_lt by done. cbn [option_map default from_option id fmap option_fmap].
  unfold mask_byte. set (f := fun bit => ((0 + index / 8) * 8 + bit <? count)%nat && default false (changed !! ((0 + index / 8) * 8 + bit)%nat)).
  set (m := foldl _ 0 _). assert (Et : Z.testbit m (Z.of_nat (index mod 8)) = default false (changed !! index)).
  { subst m. rewrite (mask_fold f) by lia. rewrite Z.testbit_0_l. cbn [orb].
    assert (Ef : f (index mod 8)%nat = default false (changed !! index)).
    { unfold f. replace ((0 + index / 8) * 8 + index mod 8)%nat with index by lia. by rewrite (proj2 (Nat.ltb_lt _ _)). }
    rewrite <- Ef. apply eq_true_iff_eq. rewrite existsb_exists. split.
    - intros (bit & _ & [Hf E%Z.eqb_eq]%andb_true_iff). apply Nat2Z.inj in E as ->. done.
    - intros Hf. exists (index mod 8)%nat. rewrite in_seq, Hf, Z.eqb_refl. split; [lia|done]. }
  rewrite <- Et. rewrite Z.land_comm, Z.shiftl_1_l.
  destruct (Z.testbit m (Z.of_nat (index mod 8))) eqn:E.
  - apply negb_true_iff, Z.eqb_neq. intros H0. apply (f_equal (fun z => Z.testbit z (Z.of_nat (index mod 8)))) in H0.
    rewrite Z.land_spec, E, Z.pow2_bits_true, Z.testbit_0_l in H0 by lia. done.
  - apply negb_false_iff, Z.eqb_eq, Z.bits_inj'. intros n Hn. rewrite Z.land_spec, Z.testbit_0_l.
    destruct (decide (n = Z.of_nat (index mod 8))) as [->|Hne]; [by rewrite E, andb_false_r|]. by rewrite Z.pow2_bits_false by lia.
Qed.

Section ReadMasked.
Context (baseline current : PlayerState) (Hb : valid_player baseline) (Hc : valid_player current).
Let changed : list bool := map (field_differs baseline current) (seq 0 PS_FIELD_COUNT).
Let mixed (i : nat) : PlayerState := take i current ++ drop i baseline.

Lemma changed_at i : (i < PS_FIELD_COUNT)%nat -> default false (changed !! i) = field_differs baseline current i.
Proof. intros Hi. unfold changed. by rewrite list_lookup_fmap, lookup_seq_lt. Qed.

Lemma same_field i : (i < PS_FIELD_COUNT)%nat -> field_differs baseline current i = false -> baseline !! i = current !! i.
Proof.
  intros Hi. unfold field_differs. rewrite (proj2 (Nat.ltb_lt _ _) Hi). cbn [andb]. rewrite negb_false_iff, bool_decide_eq_true.
  destruct (lookup_lt_is_Some_2 baseline i) as [b Eb]; [by rewrite valid_player_length|].
  destruct (lookup_lt_is_Some_2 current i) as [c Ec]; [by rewrite valid_player_length|].
  unfold ps_field, PlayerState in *. rewrite Eb, Ec. cbn [default from_option id]. by intros ->.
Qed.

Lemma mixed_step i v : current !! i = Some v -> mixed (S i) = <[i := v]> (mixed i).
Proof.
  intros Hv. assert (Hi : (i < length current)%nat) by (by eapply lookup_lt_Some).
  assert (Hlb : (i < length baseline)%nat) by (rewrite valid_player_length in *; done).
  destruct (lookup_lt_is_Some_2 baseline i Hlb) as [b Eb].
  unfold mixed, PlayerState in *. rewrite (take_S_r _ _ _ Hv), (drop_S _ _ _ Eb), <- app_assoc. cbn [app].
  rewrite insert_app_r_alt by (rewrite length_take; lia). rewrite length_take, Nat.min_l, Nat.sub_diag by lia. done.
Qed.

Lemma mixed_same i : (i < PS_FIELD_COUNT)%nat -> field_differs baseline current i = false -> mixed (S i) = mixed i.
Proof.
  intros Hi Hs. destruct (lookup_lt_is_Some_2 current i) as [v Ev]; [by rewrite valid_player_length|].
  rewrite (mixed_step i v Ev). apply list_insert_id. unfold mixed, PlayerState in *. rewrite lookup_app_r by (rewrite length_take; lia).
  rewrite length_take, Nat.min_l by (rewrite valid_player_length by done; lia). rewrite Nat.sub_diag, lookup_drop, Nat.add_0_r.
  exact (eq_trans (same_field i Hi Hs) Ev).
Qed.

Lemma read_masked_ok mask n : forall i, (i + n <= PS_FIELD_COUNT)%nat ->
  (forall j, (i <= j < i + n)%nat -> masked mask j = default false (changed !! j)) ->
  parses (read_masked mask (seq i n) (mixed i))
    (concat (map (write_field current) (filter (fun j => default false (changed !! j) = true) (seq i n)))) (mixed (i + n)).
Proof.
  induction n as [|n IH]; intros i Hin Hm; cbn [seq read_masked]; [rewrite Nat.add_0_r; apply parses_ret|].
  assert (Hi : (i < PS_FIELD_COUNT)%nat) by lia. rewrite (Hm i) by lia. rewrite filter_cons.
  specialize (IH (S i) ltac:(lia) ltac:(intros j Hj; apply Hm; lia)). replace (S i + n)%nat with (i + S n)%nat in IH by lia.
  destruct (default false (changed !! i)) eqn:Ec.
  - rewrite decide_True by done. cbn [map concat].
    destruct (lookup_lt_is_Some_2 PS_NETFIELDS i Hi) as [row Er]. destruct (valid_player_field current i row Hc Er) as (v & Ev & Hv).
    unfold read_field, write_field, ps_field, PsNetField, PlayerState in *. rewrite Er, Ev. cbn [default from_option id].
    eapply parses_bind; [eapply parses_end; [by apply wire_parses|apply parses_ret]|]. cbv beta. pose proof (mixed_step i v Ev) as E. unfold PlayerState in *. by rewrite <- E.
  - rewrite decide_False by congruence. rewrite changed_at in Ec by done. by rewrite <- (mixed_same i Hi Ec).
Qed.

Lemma mixed_end i : (forall j, (i <= j < PS_FIELD_COUNT)%nat -> field_differs baseline current j = false) -> (i <= PS_FIELD_COUNT)%nat -> mixed i = current.
Proof.
  intros Hs Hi. replace i with (PS_FIELD_COUNT - (PS_FIELD_COUNT - i))%nat by lia.
  assert (Hk : forall k, (k <= PS_FIELD_COUNT - i)%nat -> mixed (PS_FIELD_COUNT - k) = current).
  { induction k as [|k IH]; intros Hk.
    - unfold mixed. rewrite Nat.sub_0_r, take_ge, drop_ge by (by rewrite valid_player_length). apply app_nil_r.
    - rewrite <- mixed_same by (try apply Hs; lia). replace (S (PS_FIELD_COUNT - S k)) with (PS_FIELD_COUNT - k)%nat by lia. apply IH. lia. }
  by apply Hk.
Qed.

Lemma decode_masked_ok count : (count <= PS_FIELD_COUNT)%nat -> (forall j, changed !! j = Some true -> (j < count)%nat) ->
  parses (decode_player baseline)
    (put_u8 (wrap8 (Z.of_nat count)) ++ put_u8s (map (mask_byte count changed) (seq 0 (mask_bytes count))) ++
     concat (map (write_field current) (filter (fun j => default false (changed !! j) = true) (seq 0 count)))) current.
Proof.
  intros Hle Hlast. assert (Hfc : Z.of_nat PS_FIELD_COUNT = 119) by reflexivity. unfold decode_player.
  assert (wrap8 (Z.of_nat count) = Z.of_nat count) as -> by ilia. assert (is_u8 (Z.of_nat count)) by ilia.
  wire_step. rewrite Nat2Z.id. eapply parses_lift; [unfold fail_if; by rewrite (proj2 (Z.ltb_ge _ _)) by lia|].
  assert (Hmask : array_of is_u8 (mask_bytes count) (map (mask_byte count changed) (seq 0 (mask_bytes count)))).
  { split; [by rewrite length_map, length_seq|]. apply Forall_fmap, list.Forall_forall. intros at_byte _. apply mask_range. }
  wire_step. assert (He : mixed (0 + count) = current).
  { apply mixed_end; [|lia]. intros j Hj. destruct (field_differs baseline current j) eqn:E; [|done].
    assert (Hl : (j < count)%nat); [|lia]. apply Hlast. unfold changed. rewrite list_lookup_fmap, lookup_seq_lt by lia. cbn. by rewrite E. }
  rewrite <- He at 2. apply (read_masked_ok _ count 0); [lia|]. intros j Hj. apply masked_ok; lia.
Qed.
End ReadMasked.

(** The fields that differ are enough. *)
Lemma decode_player_ok baseline current : valid_player baseline -> valid_player current ->
  parses (decode_player baseline) (encode_player baseline current) current.
Proof.
  intros Hb Hc. unfold encode_player.
  destruct (changed_count_spec (map (field_differs baseline current) (seq 0 PS_FIELD_COUNT)) 0) as [Hle Hlast].
  rewrite length_map, length_seq in Hle. by apply (decode_masked_ok baseline current Hb Hc).
Qed.

#[export] Instance player_codec baseline : (forall client, valid_player (baseline_player baseline client)) ->
  WireCodec (put_player baseline) (get_player baseline) (fun player => is_u32 player.1 /\ valid_player player.2).
Proof.
  intros Hb. split. intros [client ps] [Hc Hp]. cbn [fst snd] in *. unfold put_player, get_player. cbn [fst snd]. wire_step.
  eapply parses_end; [by apply decode_player_ok|apply parses_ret].
Qed.

Definition valid_players (players : list (Z * PlayerState)) : Prop := rows_of (fun player => is_u32 player.1 /\ valid_player player.2) u16_max players.

Lemma valid_player_zero : valid_player PLAYER_ZERO.
Proof.
  unfold valid_player, PLAYER_ZERO. apply list.Forall2_fmap_r, Forall_Forall2_diag, list.Forall_forall. intros row Hrow. unfold compose.
  assert (Hk : forall v, is_i32 v /\ is_u32 v -> v = 0 \/ row.1.2 = FkI32 \/ row.1.2 = FkF32 -> valid_kind row.1.2 (replicate (kind_len row.1.2) v)).
  { intros v [Hi Hu] Hv. assert (is_u8 v \/ forall n, row.1.2 <> FkOpaque n) as Hn by (destruct Hv as [->|[E|E]]; [left; ilia|right; by rewrite E..]).
    destruct row.1.2; cbn [valid_kind]; (split; [apply length_replicate|apply Forall_replicate; try done]). by destruct Hn as [|Hn]; [|destruct (Hn n)]. }
  assert (Hnames : forallb (fun row : PsNetField => match row.1.2 with FkI32 => negb (bool_decide (row.1.1 = bs "hold_breath_scale"))
      | FkF32 => negb (bool_decide (row.1.1 = bs "viewlocked_ent_num"))
      | _ => negb (bool_decide (row.1.1 = bs "hold_breath_scale")) && negb (bool_decide (row.1.1 = bs "viewlocked_ent_num")) end)
    PS_NETFIELDS = true) by (vm_compute; reflexivity).
  rewrite forallb_forall in Hnames. specialize (Hnames row (proj1 (list_elem_of_In _ _) Hrow)).
  destruct (bool_decide (row.1.1 = bs "viewlocked_ent_num")), (bool_decide (row.1.1 = bs "hold_breath_scale"));
    destruct row.1.2; try discriminate Hnames; try (apply Hk; [ilia|by left]); (split; [reflexivity|constructor; [vm_compute; split; congruence|constructor]]).
Qed.

Lemma valid_baseline players client : valid_players players -> valid_player (baseline_player players client).
Proof.
  intros [_ Hv]. unfold baseline_player. destruct (find _ players) as [row|] eqn:E; [|apply valid_player_zero].
  apply find_some in E as [Hin _]. rewrite List.Forall_forall in Hv. by apply Hv.
Qed.

(** ** Projectiles *)

Definition valid_trajectory (tr : Trajectory) : Prop :=
  is_i32 (tj_time tr) /\ is_i32 (tj_type tr) /\ is_i32 (tj_duration tr) /\ vec 3 (tj_delta tr) /\ vec 3 (tj_base tr).
Definition valid_guide (g : MissileGuide) : Prop := option_of valid_target (mg_target g) /\ is_u8 (mg_stage g).

(** The two values that have a meaning of their own are not sent as times and panes. *)
Definition valid_projectile (p : ProjectileState) : Prop :=
  (is_u32 (pj_id p) /\ is_u32 (pj_owner p) /\ is_u32 (pj_owner_life p) /\ is_u32 (pj_weapon p)) /\
  (vec 3 (pj_origin p) /\ vec 3 (pj_velocity p) /\ valid_trajectory (pj_pos p) /\ valid_trajectory (pj_apos p)) /\
  (is_i32 (pj_entnum p) /\ is_i32 (pj_launch_time p) /\ is_i32 (pj_spawn_time_ms p) /\
   option_of (fun ms => is_i32 ms /\ ms <> i32_min) (pj_detonate_at_ms p) /\ is_i32 (pj_cleanup_at_ms p)) /\
  (is_u32 (pj_travel_distance p) /\ option_of (fun pane => 0 <= pane < u32_max) (pj_stuck_pane p) /\
   valid_guide (pj_guide p) /\ option_of valid_target (pj_attached_to p)).

#[export] Instance trajectory_codec : WireCodec encode_trajectory decode_trajectory valid_trajectory.
Proof. split. intros [] Hv. unfold encode_trajectory, decode_trajectory, valid_trajectory in *. cbn [tj_time tj_type tj_duration tj_delta tj_base] in *. wire_fields. Qed.

#[export] Instance bool32_codec : WireCodec put_bool32 get_bool32 (fun _ => True).
Proof. split. intros [] _; unfold put_bool32, get_bool32; (eapply parses_end; [apply parses_put_u32; vm_compute; split; congruence|]); apply parses_ret. Qed.

#[export] Instance detonate_codec : WireCodec put_detonate get_detonate (option_of (fun ms => is_i32 ms /\ ms <> i32_min)).
Proof.
  split. intros [ms|] Hv; unfold put_detonate, get_detonate; cbn [option_of] in Hv.
  - destruct Hv as [Hi Hne]. eapply parses_end; [by apply wire_parses|]. cbv beta. rewrite (proj2 (Z.eqb_neq _ _) Hne). apply parses_ret.
  - eapply parses_end; [first [apply parses_put_u32|apply parses_put_i32]; ilia|]. apply parses_ret.
Qed.

#[export] Instance pane_codec : WireCodec put_pane get_pane (option_of (fun pane => 0 <= pane < u32_max)).
Proof.
  split. intros [pane|] Hv; unfold put_pane, get_pane; cbn [option_of] in Hv.
  - unfold u32_max in *. assert (saturating_add32 pane 1 = pane + 1) as -> by (unfold saturating_add32, u32_max; lia).
    eapply parses_end; [apply parses_put_u32; ilia|]. cbv beta. rewrite (proj2 (Z.eqb_neq _ _)) by lia.
    assert (saturating_sub (pane + 1) 1 = pane) as -> by (unfold saturating_sub; lia). apply parses_ret.
  - eapply parses_end; [first [apply parses_put_u32|apply parses_put_i32]; ilia|]. apply parses_ret.
Qed.

#[export] Instance guide_codec : WireCodec put_guide get_guide valid_guide.
Proof. split. intros [] Hv. unfold put_guide, get_guide, valid_guide in *. cbn [mg_target mg_top mg_stage mg_passed] in *. wire_fields. Qed.

#[export] Instance projectile_codec : WireCodec encode_projectile decode_projectile valid_projectile.
Proof.
  split. intros [] Hv. unfold encode_projectile, decode_projectile, valid_projectile in *.
  cbn [pj_id pj_owner pj_owner_life pj_weapon pj_origin pj_velocity pj_pos pj_apos pj_entnum pj_launch_time pj_spawn_time_ms pj_detonate_at_ms
    pj_cleanup_at_ms pj_travel_distance pj_live pj_stuck_pane pj_grounded pj_guide pj_attached_to] in *. wire_fields.
Qed.

(** The projectile up to the signs of its zeros. *)
Definition target_norm (target : MissileTarget) : MissileTarget :=
  match target with
  | TargetPoint point => TargetPoint (map f32_norm point)
  | TargetEntity entity offset => TargetEntity entity (map f32_norm offset)
  | TargetPlayer client life offset => TargetPlayer client life (map f32_norm offset)
  end.
Definition trajectory_norm (tr : Trajectory) : Trajectory :=
  mkTrajectory (tj_time tr) (tj_type tr) (tj_duration tr) (map f32_norm (tj_delta tr)) (map f32_norm (tj_base tr)).
Definition projectile_norm (p : ProjectileState) : ProjectileState :=
  mkProjectile (pj_id p) (pj_owner p) (pj_owner_life p) (pj_weapon p) (map f32_norm (pj_origin p)) (map f32_norm (pj_velocity p))
    (trajectory_norm (pj_pos p)) (trajectory_norm (pj_apos p)) (pj_entnum p) (pj_launch_time p) (pj_spawn_time_ms p) (pj_detonate_at_ms p)
    (pj_cleanup_at_ms p) (f32_norm (pj_travel_distance p)) (pj_live p) (pj_stuck_pane p) (pj_grounded p)
    (mkGuide (target_norm <$> mg_target (pj_guide p)) (mg_top (pj_guide p)) (mg_stage (pj_guide p)) (mg_passed (pj_guide p)))
    (target_norm <$> pj_attached_to p).

Lemma target_eqb_norm a b : target_eqb a b = true -> target_norm <$> a = target_norm <$> b.
Proof.
  destruct a as [[]|], b as [[]|]; cbn; try done; rewrite ?andb_true_iff.
  - by intros ->%f32s_eqb_norm.
  - intros [->%bool_decide_eq_true ->%f32s_eqb_norm]. done.
  - intros [[->%Z.eqb_eq ->%Z.eqb_eq] ->%f32s_eqb_norm]. done.
Qed.

Lemma trajectory_eqb_norm a b : trajectory_eqb a b = true -> trajectory_norm a = trajectory_norm b.
Proof.
  unfold trajectory_eqb, trajectory_norm. rewrite !andb_true_iff. intros [[[[->%Z.eqb_eq ->%Z.eqb_eq] ->%Z.eqb_eq] ->%f32s_eqb_norm] ->%f32s_eqb_norm].
  done.
Qed.

Lemma projectile_same a b : projectile_differs a b = false -> projectile_norm a = projectile_norm b.
Proof.
  unfold projectile_differs, projectile_norm, guide_eqb. rewrite negb_false_iff, !andb_true_iff, !bool_decide_eq_true, !Z.eqb_eq, !eqb_true_iff.
  intros H. repeat match goal with H : _ /\ _ |- _ => destruct H end.
  repeat match goal with
  | H : f32s_eqb _ _ = true |- _ => apply f32s_eqb_norm in H
  | H : f32_eqb _ _ = true |- _ => apply f32_eqb_norm in H
  | H : target_eqb _ _ = true |- _ => apply target_eqb_norm in H
  | H : trajectory_eqb _ _ = true |- _ => apply trajectory_eqb_norm in H
  end. f_equal; try assumption. f_equal; assumption.
Qed.

Lemma by_id_keys ps : map fst (by_id ps) = map pj_id ps.
Proof. unfold by_id. by rewrite map_map. Qed.

Lemma elem_of_by_id ps id p : (id, p) ∈ by_id ps <-> p ∈ ps /\ pj_id p = id.
Proof.
  unfold by_id. rewrite list_elem_of_fmap. split.
  - by intros (? & [= -> ->] & H).
  - intros [H <-]. by exists p.
Qed.

Lemma projectile_map_lookup ps id p : NoDup (map pj_id ps) -> projectile_map ps !! id = Some p <-> p ∈ ps /\ pj_id p = id.
Proof. intros Hd. unfold projectile_map. rewrite hash_map_lookup by by rewrite by_id_keys. apply elem_of_by_id. Qed.

Lemma inserted_lookup ps : forall (m : ProjectileMap) id,
  foldl (fun m p => <[pj_id p := p]> m) m ps !! id = match projectile_map ps !! id with Some p => Some p | None => m !! id end.
Proof.
  induction ps as [|p ps IH] using rev_ind; intros m id; [done|].
  assert (E : projectile_map (ps ++ [p]) = <[pj_id p := p]> (projectile_map ps)).
  { unfold projectile_map, hash_map, by_id. by rewrite map_app, reverse_app. }
  rewrite foldl_app, E. cbn [foldl]. destruct (decide (pj_id p = id)) as [<-|Hne]; [by rewrite !lookup_insert_eq|].
  rewrite !lookup_insert_ne by done. apply IH.
Qed.

Lemma deleted_lookup ids : forall (m : ProjectileMap) id, foldl (fun m id => delete id m) m ids !! id = if decide (id ∈ ids) then None else m !! id.
Proof.
  induction ids as [|x ids IH]; intros m id; cbn [foldl]; [by rewrite decide_False by apply not_elem_of_nil|].
  rewrite IH. destruct (decide (id ∈ ids)) as [Hin|Hn]; [by rewrite decide_True by (by right)|].
  destruct (decide (id = x)) as [->|Hne]; [rewrite decide_True by (by left); apply lookup_delete_eq|].
  rewrite decide_False by (by intros [?|?]%elem_of_cons). by apply lookup_delete_ne.
Qed.

Lemma changed_rows base ps p : p ∈ pe_changed (projectile_delta base ps) <->
  p ∈ ps /\ match base !! pj_id p with Some old => projectile_differs old p = true | None => True end.
Proof.
  cbn [projectile_delta pe_changed]. rewrite list_elem_of_fmap. split.
  - intros ([id q] & -> & H). rewrite (sort_rows_perm (by_id _)) in H. apply elem_of_by_id in H as [[Hc Hin]%list_elem_of_filter _].
    cbn [snd]. split; [done|]. by destruct (base !! pj_id q).
  - intros [Hin Hc]. exists (pj_id p, p). split; [done|]. rewrite (sort_rows_perm (by_id _)). apply elem_of_by_id. split; [|done].
    apply list_elem_of_filter. split; [|done]. by destruct (base !! pj_id p).
Qed.

Lemma changed_nodup base ps : NoDup (map pj_id ps) -> NoDup (map pj_id (pe_changed (projectile_delta base ps))).
Proof.
  intros Hd. cbn [projectile_delta pe_changed]. set (kept := filter _ ps).
  assert (Hp : map snd (sort_rows (by_id kept)) ≡ₚ kept).
  { rewrite (sort_rows_perm (by_id kept)). unfold by_id. rewrite map_map, map_id. done. }
  rewrite Hp. subst kept. clear Hp. induction ps as [|p ps IH]; [done|]. cbn [map] in Hd. apply NoDup_cons in Hd as [Hn Hd].
  rewrite filter_cons. case_decide; [|by apply IH]. cbn [map]. constructor; [|by apply IH].
  intros (q & E & [_ Hq]%list_elem_of_filter)%list_elem_of_fmap. apply Hn. rewrite E. by apply list_elem_of_fmap_2.
Qed.

Lemma removed_rows base ps id : id ∈ pe_removed (projectile_delta base ps) <-> is_Some (base !! id) /\ projectile_map ps !! id = None.
Proof.
  cbn [projectile_delta pe_removed]. rewrite (merge_sort_Permutation Z.le), list_elem_of_filter, elem_of_elements, elem_of_dom. tauto.
Qed.

(** The client's projectiles are the host's, up to signs. *)
Definition projectiles_agree (host client : ProjectileMap) : Prop := projectile_norm <$> client = projectile_norm <$> host.

Lemma apply_projectiles_ok host client ps : NoDup (map pj_id ps) -> projectiles_agree host client ->
  projectiles_agree (projectile_map ps) (apply_projectiles client (projectile_delta host ps)).
Proof.
  intros Hd Ha. apply map_eq. intros id. apply (f_equal (fun m : ProjectileMap => m !! id)) in Ha. rewrite !lookup_fmap in *.
  unfold apply_projectiles. rewrite deleted_lookup, inserted_lookup.
  pose proof (changed_nodup host ps Hd) as Hcd.
  destruct (projectile_map ps !! id) as [p|] eqn:Ep.
  - rewrite decide_False by (rewrite removed_rows, Ep; by intros [_ ?]).
    apply projectile_map_lookup in Ep as [Hin Hid]; [|done].
    destruct (projectile_map (pe_changed (projectile_delta host ps)) !! id) as [q|] eqn:Eq.
    + apply projectile_map_lookup in Eq as [[Hq _]%changed_rows Hqid]; [|done].
      assert (q = p) as ->; [|done]. eapply (keyed_fun (by_id ps) id); [by rewrite by_id_keys|by apply elem_of_by_id..].
    + assert (Hn : p ∉ pe_changed (projectile_delta host ps)).
      { intros Hc. assert (projectile_map (pe_changed (projectile_delta host ps)) !! id = Some p) by (by apply projectile_map_lookup). congruence. }
      rewrite changed_rows, Hid in Hn. destruct (host !! id) as [old|]; [|by destruct Hn].
      rewrite Ha. cbn. f_equal. apply projectile_same. destruct (projectile_differs old p); [by destruct Hn|done].
  - destruct (projectile_map (pe_changed (projectile_delta host ps)) !! id) as [q|] eqn:Eq.
    { apply projectile_map_lookup in Eq as [[Hq _]%changed_rows Hqid]; [|done].
      assert (projectile_map ps !! id = Some q) by (by apply projectile_map_lookup). congruence. }
    case_decide as Hr; [done|]. rewrite removed_rows in Hr. destruct (host !! id); [by destruct Hr|]. by rewrite Ha.
Qed.

(** The rows in order depend on the map only. *)
Lemma sorted_agree host client : projectiles_agree host client -> map projectile_norm (sorted_projectiles client) = map projectile_norm (sorted_projectiles host).
Proof.
  assert (Hs : forall m : ProjectileMap, map projectile_norm (sorted_projectiles m) = map snd (sort_rows (map_to_list (projectile_norm <$> m)))).
  { intros m. unfold sorted_projectiles. rewrite map_map. transitivity (map snd (map (prod_map id projectile_norm) (sort_rows (map_to_list m)))).
    { rewrite map_map. apply map_ext. by intros []. }
    f_equal. apply keyed_unique; [|apply sort_rows_keyed, NoDup_fst_map_to_list|].
    - apply keyed_keys. rewrite map_map, (map_ext _ fst) by (by intros []). apply keyed_keys, sort_rows_keyed, NoDup_fst_map_to_list.
    - rewrite (sort_rows_perm (map_to_list m)), (sort_rows_perm (map_to_list _)). by rewrite map_to_list_fmap. }
  intros Ha. by rewrite !Hs, Ha.
Qed.

Lemma sorted_of_map ps : NoDup (map pj_id ps) -> sorted_projectiles (projectile_map ps) = map snd (sort_rows (by_id ps)).
Proof.
  intros Hd. unfold sorted_projectiles. f_equal. apply keyed_unique; [apply sort_rows_keyed, NoDup_fst_map_to_list|apply sort_rows_keyed; by rewrite by_id_keys|].
  rewrite (sort_rows_perm (map_to_list _)), (sort_rows_perm (by_id ps)). unfold projectile_map, hash_map.
  rewrite map_to_list_to_map; [by rewrite reverse_Permutation|]. by rewrite reverse_Permutation, by_id_keys.
Qed.

(** ** The two ends *)

Definition valid_projectiles (ps : list ProjectileState) : Prop := rows_of valid_projectile u16_max ps /\ NoDup (map pj_id ps).

Lemma projectile_map_ids ps id : is_Some (projectile_map ps !! id) -> id ∈ map pj_id ps.
Proof.
  intros [p Hp]. unfold projectile_map, hash_map in Hp. apply elem_of_list_to_map_2 in Hp. rewrite elem_of_reverse, elem_of_by_id in Hp.
  destruct Hp as [Hin <-]. by apply list_elem_of_fmap_2.
Qed.

(** A client's table is never longer than the list it came from. *)
Lemma projectile_map_removed ps f :
  rows_of valid_projectile u16_max ps -> rows_of is_u32 u16_max (merge_sort Z.le (filter (fun id => f id = @None ProjectileState) (elements (dom (projectile_map ps))))).
Proof.
  intros [Hn Hv]. eapply rows_of_perm; [apply merge_sort_Permutation|]. apply rows_of_filter.
  assert (Hsub : elements (dom (projectile_map ps)) ⊆ map pj_id ps).
  { intros id. rewrite elem_of_elements, elem_of_dom. apply projectile_map_ids. }
  split.
  - pose proof (NoDup_submseteq _ _ (NoDup_elements (dom (projectile_map ps))) Hsub) as Hle%submseteq_length. unfold zlen in *. rewrite length_map in Hle. lia.
  - apply list.Forall_forall. intros id (p & -> & Hin)%Hsub%list_elem_of_fmap. rewrite list.Forall_forall in Hv. by apply Hv.
Qed.

#[export] Instance projectile_delta_codec :
  WireCodec (fun delta => put_list16 encode_projectile (pe_changed delta) ++ put_list16 put_u32 (pe_removed delta)) decode_projectile_delta
    (fun delta => rows_of valid_projectile u16_max (pe_changed delta) /\ rows_of is_u32 u16_max (pe_removed delta)).
Proof. split. intros [changed removed] Hv. cbn [pe_changed pe_removed] in *. unfold decode_projectile_delta. wire_fields. Qed.

Section Follow.
Context {Meta : Type} (meta_world_objects : Meta -> WorldObjectSnapshot) (meta_default : Meta).

Definition valid_snapshot (s : Snapshot Meta) : Prop := is_u32 (sn_tick s) /\ valid_players (sn_players s) /\ valid_projectiles (sn_projectiles s).

(** What the client has of a snapshot of the host: the tick and the players as they are, the projectiles in
    the order of their numbers, up to the signs of zeros. *)
Definition snapshot_agrees (host client : Snapshot Meta) : Prop :=
  sn_tick client = sn_tick host /\ sn_players client = sn_players host /\
  map projectile_norm (sn_projectiles client) = map projectile_norm (map snd (sort_rows (by_id (sn_projectiles host)))).

(** The two ends build on the same snapshot. *)
Record coded (e : SnapshotEncoder) (d : SnapshotDecoder) : Prop := {
  co_players : valid_players (en_baseline e);
  co_same : de_baseline d = en_baseline e;
  co_projectiles : exists ps, valid_projectiles ps /\ en_projectile_baseline e = projectile_map ps;
  co_agree : projectiles_agree (en_projectile_baseline e) (de_projectile_baseline d);
}.

Lemma coded_fresh (e : SnapshotEncoder) (d : SnapshotDecoder) : coded (encoder_reset e) (decoder_reset d).
Proof. split; cbn; [by split; [|constructor]|done| |done]. exists []. split; [|done]. split; [by split; [|constructor]|constructor]. Qed.

(** One delta. *)
Lemma decode_snapshot_ok (e : SnapshotEncoder) (d : SnapshotDecoder) (s : Snapshot Meta) :
  coded e d -> valid_snapshot s -> fits (sd_bytes (snapshot_encode e s).2) ->
  exists d' s', decode_snapshot meta_default d (snapshot_encode e s).2 = Ok (d', s') /\ coded (snapshot_encode e s).1 d' /\
    snapshot_agrees s s' /\ sn_meta s' = meta_default.
Proof.
  intros [Hbp Hbs (ps & Hps & Hbm) Hag] (Ht & Hp & Hj) Hfit. cbn [snapshot_encode snd sd_bytes] in Hfit.
  pose proof (player_codec (en_baseline e) (fun client => valid_baseline _ client Hbp)) as Hcodec.
  pose proof Hp as Hp'. unfold valid_players in Hp'. destruct Hj as [Hr Hd]. set (delta := projectile_delta (en_projectile_baseline e) (sn_projectiles s)) in *.
  assert (Hparse : parses (parse_snapshot d)
    (put_list16 (put_player (en_baseline e)) (sn_players s) ++ encode_projectile_delta (en_projectile_baseline e) (sn_projectiles s))
    (sn_players s, delta)).
  { unfold parse_snapshot. rewrite Hbs. eapply parses_bind; [by apply (wire_parses (WireCodec := list16_codec _ _ _))|]. cbv beta.
    eapply parses_end; [|apply parses_ret]. apply (wire_parses (WireCodec := projectile_delta_codec)). split.
    - apply rows_of_perm with (ys := filter (fun p => match en_projectile_baseline e !! pj_id p with Some old => projectile_differs old p | None => true end = true) (sn_projectiles s)); [|by apply rows_of_filter].
      cbn [delta projectile_delta pe_changed]. rewrite (sort_rows_perm (by_id _)). unfold by_id. by rewrite map_map, map_id.
    - cbn [delta projectile_delta pe_removed]. rewrite Hbm. apply (projectile_map_removed ps (fun id => projectile_map (sn_projectiles s) !! id)). apply Hps. }
  unfold decode_snapshot. cbn [snapshot_encode snd fst sd_bytes sd_tick].
  rewrite (parses_whole _ _ _ Hparse Hfit). cbn [mbind result_bind fst snd]. unfold reader_is_empty, remaining. cbn [rd_bytes rd_cursor]. rewrite Z.sub_diag. cbn [Z.eqb negb].
  eexists _, _. split; [done|].
  pose proof (apply_projectiles_ok _ _ (sn_projectiles s) Hd Hag) as Hag'. fold delta in Hag'.
  split; [split; cbn; [done|done|by exists (sn_projectiles s)|done]|].
  split; [split; [done|split; [done|]]|done]. cbn [sn_projectiles]. rewrite (sorted_agree _ _ Hag'). by rewrite sorted_of_map.
Qed.

Lemma projectile_norm_id p : pj_id (projectile_norm p) = pj_id p.
Proof. done. Qed.

Lemma projectile_map_norm ps : projectile_norm <$> projectile_map ps = projectile_map (map projectile_norm ps).
Proof.
  unfold projectile_map, hash_map. replace (by_id (map projectile_norm ps)) with (prod_map (fun k : Z => k) projectile_norm <$> by_id ps).
  - by rewrite <- fmap_reverse, list_to_map_fmap.
  - induction ps as [|p ps IH]; [done|]. by apply (f_equal (cons (pj_id p, projectile_norm p))).
Qed.

Lemma projectile_map_perm ps qs : NoDup (map pj_id ps) -> ps ≡ₚ qs -> projectile_map ps = projectile_map qs.
Proof.
  intros Hd Hp. unfold projectile_map, hash_map. apply list_to_map_proper; [rewrite reverse_Permutation; by rewrite by_id_keys|].
  rewrite !reverse_Permutation. unfold by_id. by rewrite Hp.
Qed.

Lemma sorted_ids ps : NoDup (map pj_id ps) -> map snd (sort_rows (by_id ps)) ≡ₚ ps.
Proof. intros Hd. rewrite (sort_rows_perm (by_id ps)). unfold by_id. by rewrite map_map, map_id. Qed.

(** The two ends can build on any snapshot the client has. *)
Lemma coded_adopt (e : SnapshotEncoder) (d : SnapshotDecoder) (s s' : Snapshot Meta) :
  valid_snapshot s -> snapshot_agrees s s' -> coded (encoder_adopt meta_world_objects e s) (decoder_adopt meta_world_objects d s').
Proof.
  intros (_ & Hp & Hj) (_ & Ep & Ej). split; cbn; [done|done|by exists (sn_projectiles s)|].
  unfold projectiles_agree. rewrite !projectile_map_norm, Ej, <- !projectile_map_norm. destruct Hj as [_ Hd].
  f_equal. symmetry. apply projectile_map_perm; [done|]. symmetry. by apply sorted_ids.
Qed.
End Follow.
