(* ===== verification/FrameWire.v ===== *)
(** * The frame of a snapshot

    crates/net/src/transport/frame.rs: [FrameParts::new] and [Frame::decode_segments], the envelope of
    meta_wire.rs around the sections of a snapshot's meta, and what [frame_from_acked_tick] and the fanout
    of udp_session.rs put in a frame.

    What the sections of the meta hold is behind [MetaOps]: their encoder gives the sections one by one,
    their decoder also the bytes that remained after each. *)

From S2P Require Export ProtocolMain SegmentDeltaMain SnapshotDelta.

#[local] Open Scope Z_scope.

(** ** The meta of a snapshot *)

Class MetaOps (Meta : Type) : Type := {
  meta_world_objects : Meta -> WorldObjectSnapshot;
  set_world_objects : Meta -> WorldObjectSnapshot -> Meta;
  meta_default : Meta;
  (** [encode_snapshot_meta_body]: the spans it writes, for the events to keep. *)
  meta_sections : (SimEvent -> bool) -> Meta -> option (list (list byte));
  (** [decode_snapshot_meta_body] up to the world objects. *)
  decode_meta_sections : WParser (Meta * list Z);
}.

Definition get_remaining : WParser Z := fun rd => Ok (remaining rd, rd).


(** ** The frame *)

Record FrameTail : Type := mkTail {
  ft_reliable : ReliablePayload WireRow;
  ft_svc_sounds : list SvcSound;
  ft_svc_scores : option (list byte);
  ft_svc_card_slots : list SvcCardSlot;
  ft_svc_open_menus : list SvcOpenMenu;
  ft_svc_hud_splashes : list SvcHudSplash;
  ft_svc_game_notifies : list SvcGameNotify;
}.

Definition frame_tail_default : FrameTail := mkTail (mkPayload 0 [] 0) [] None [] [] [] [].

Record Frame (Meta : Type) : Type := mkFrame {
  fr_tick : Z;
  fr_state_hash : Z;
  fr_acks : list (Z * Z);
  fr_snapshot_delta : SnapshotDelta;
  fr_snapshot_meta : Meta;
  fr_world_objects_wire : list byte;
  fr_tail : FrameTail;
}.
Arguments mkFrame {Meta}.
Arguments fr_tick {Meta}.
Arguments fr_state_hash {Meta}.
Arguments fr_acks {Meta}.
Arguments fr_snapshot_delta {Meta}.
Arguments fr_snapshot_meta {Meta}.
Arguments fr_world_objects_wire {Meta}.
Arguments fr_tail {Meta}.

Definition put_ack (ack : Z * Z) : list byte := put_u32 ack.1 ++ put_u32 ack.2.
Definition get_ack : WParser (Z * Z) := client ← get_u32; seq ← get_u32; mret (client, seq).

Definition encode_head (tick state_hash : Z) (acks : list (Z * Z)) : list byte :=
  put_u32 tick ++ put_u32 state_hash ++ put_list16 put_ack acks.

Definition encode_tail (tail : FrameTail) : option (list byte) :=
  reliable ← encode_reliable_payload (ft_reliable tail);
  splashes ← encode_svc_hud_splashes (ft_svc_hud_splashes tail);
  notifies ← encode_svc_game_notifies (ft_svc_game_notifies tail);
  Some (reliable ++ encode_svc_sounds (ft_svc_sounds tail) ++ encode_svc_scores (ft_svc_scores tail) ++
        encode_svc_card_slots (ft_svc_card_slots tail) ++ encode_svc_open_menus (ft_svc_open_menus tail) ++ splashes ++ notifies).

Definition decode_tail : WParser FrameTail :=
  reliable ← decode_reliable_payload; sounds ← decode_svc_sounds; scores ← decode_svc_scores; slots ← decode_svc_card_slots;
  menus ← decode_svc_open_menus; splashes ← decode_svc_hud_splashes; notifies ← decode_svc_game_notifies;
  mret (mkTail reliable sounds scores slots menus splashes notifies).

Definition encode_world_objects_wire (wire : list byte) : list byte := put_u16 (wrap16 (zlen wire)) ++ put_bytes wire.

(** [FrameParts::new], with the address of the shared [WireMeta]. *)
Definition frame_parts_new (tick state_hash : Z) (acks : list (Z * Z)) (delta : SnapshotDelta) (meta : Z) (world_objects_wire : list byte)
    (tail : FrameTail) : option FrameParts :=
  tail ← encode_tail tail;
  Some (mkParts (encode_head tick state_hash acks ++ snapshot_delta_encode delta) meta (encode_world_objects_wire world_objects_wire) tail).

(** The ends of the sections. *)
Fixpoint section_ends (at_byte : Z) (sections : list (list byte)) : list Z :=
  match sections with [] => [] | section :: sections => (at_byte + zlen section) :: section_ends (at_byte + zlen section) sections end.

(** [as u32] of the bytes between one mark and the next. *)
Fixpoint spans (prev : Z) (ends : list Z) : list Z :=
  match ends with [] => [] | e :: ends => wrap32 (prev - e) :: spans e ends end.

Section Meta.
Context {Meta : Type} `{!MetaOps Meta}.

Definition without_reliable_events (meta : Meta) : option WireMeta :=
  sections ← meta_sections (fun event => negb (sim_event_is_reliable event)) meta; Some (mkWireMeta (concat sections) (section_ends 0 sections)).

Record DecodedSnapshotMeta : Type := mkDecodedMeta { dm_body : Meta; dm_world_wire : list byte; dm_world_update : WorldObjectUpdate }.

Definition decode_snapshot_meta_body : WParser (DecodedSnapshotMeta * list Z) :=
  '(body, ends) ← decode_meta_sections;
  wire_len ← get_u16; wire ← get_bytes wire_len; after ← get_remaining;
  update ← lift (decode_sync wire);
  mret (mkDecodedMeta body wire update, ends ++ [after]).

(** [Frame::encode]: every event is kept. *)
Definition frame_encode (f : Frame Meta) : option (list byte) :=
  sections ← meta_sections (fun _ => true) (fr_snapshot_meta f);
  tail ← encode_tail (fr_tail f);
  Some (encode_head (fr_tick f) (fr_state_hash f) (fr_acks f) ++ snapshot_delta_encode (fr_snapshot_delta f) ++ concat sections ++
        encode_world_objects_wire (fr_world_objects_wire f) ++ tail).

(** The frame, what the decoder of the world has come to, and the lengths of the segments. *)
Definition frame_decode_segments (world : WorldObjectSnapshot) : WParser (Frame Meta * WorldObjectSnapshot * list Z) :=
  start ← get_remaining;
  tick ← get_u32; state_hash ← get_u32; acks ← get_list16 get_ack;
  delta ← snapshot_delta_decode;
  head_end ← get_remaining;
  '(decoded, ends) ← decode_snapshot_meta_body;
  tail ← decode_tail;
  left ← get_remaining;
  let world := update_apply (dm_world_update decoded) world in
  mret (mkFrame tick state_hash acks delta (set_world_objects (dm_body decoded) world) (dm_world_wire decoded) tail, world,
        wrap32 (start - head_end) :: spans head_end ends ++ [wrap32 (List.last ends head_end - left)]).

Definition ack_for (f : Frame Meta) (client : Z) : option Z := snd <$> find (fun ack => ack.1 =? client) (fr_acks f).

(** [frame_from_acked_tick_with_reliable]. *)
Definition frame_from_acked_tick_with_reliable (coder : SnapshotEncoder) (snapshot : Snapshot Meta) (acks : list (Z * Z))
    (reliable : ReliablePayload WireRow) : option (SnapshotEncoder * Frame Meta) :=
  '(coder, wire) ← encode_world_objects coder (sn_tick snapshot) (meta_world_objects (sn_meta snapshot));
  let '(coder, delta) := snapshot_encode coder snapshot in
  Some (coder, mkFrame (sn_tick snapshot) (compute_state_hash (sn_players snapshot)) acks delta (sn_meta snapshot) wire
                 (mkTail reliable [] None [] [] [] [])).

Definition frame_from_acked_tick (coder : SnapshotEncoder) (snapshot : Snapshot Meta) (acks : list (Z * Z)) : option (SnapshotEncoder * Frame Meta) :=
  frame_from_acked_tick_with_reliable coder snapshot acks (mkPayload 0 [] 0).

(** What [fanout_snapshots_inner] builds for a peer from its snapshot: the encoder, reset or on its
    baseline, and the parts. *)
Definition build_parts (coder : SnapshotEncoder) (snapshot : Snapshot Meta) (meta : Z) (acks : list (Z * Z)) (tail : FrameTail)
    : option (SnapshotEncoder * FrameParts) :=
  '(coder, wire) ← encode_world_objects coder (sn_tick snapshot) (meta_world_objects (sn_meta snapshot));
  let '(coder, delta) := snapshot_encode coder snapshot in
  parts ← frame_parts_new (sn_tick snapshot) (compute_state_hash (sn_players snapshot)) acks delta meta wire tail;
  Some (coder, parts).

(** The client's side, in [apply_server_packet]: both decoders are fresh, on the client's snapshot of the
    baseline. *)
Definition decoder_for (base : option (Snapshot Meta)) : SnapshotDecoder :=
  match base with Some base => decoder_adopt meta_world_objects decoder_new base | None => decoder_new end.
Definition world_for (base : option (Snapshot Meta)) : WorldObjectSnapshot :=
  match base with Some base => meta_world_objects (sn_meta base) | None => world_default end.

Definition decode_frame (base : option (Snapshot Meta)) (payload : list byte) : Result WireError (Frame Meta * list Z) :=
  r ← frame_decode_segments (world_for base) (mkReader payload 0); Ok (r.1.1.1, r.1.2).

Definition decode_snapshot_of (base : option (Snapshot Meta)) (frame : Frame Meta) : Result WireError (Snapshot Meta) :=
  r ← decode_snapshot meta_default (decoder_for base) (fr_snapshot_delta frame);
  Ok (mkSnapshot (sn_tick r.2) (sn_players r.2) (sn_projectiles r.2) (fr_snapshot_meta frame)).
End Meta.

(** * Properties

    The client reads the frame of a snapshot as the host built it. *)

(** ** Readers that look at what is left *)

(** As [parses], where [n] bytes follow. *)
Definition parses_with {E A} (n : Z) (p : Parser E A) (used : list byte) (x : A) : Prop :=
  forall pre post, zlen post = n -> fits (pre ++ used ++ post) ->
    p (mkReader (pre ++ used ++ post) (zlen pre)) = Ok (x, mkReader (pre ++ used ++ post) (zlen pre + zlen used)).

Section With.
Context {E : Type}.

Lemma with_any {A} n (p : Parser E A) u x : parses p u x -> parses_with n p u x.
Proof. intros Hp pre post _. apply Hp. Qed.

Lemma with_bind {A B} n (p : Parser E A) (k : A -> Parser E B) u1 u2 x y :
  parses_with (zlen u2 + n) p u1 x -> parses_with n (k x) u2 y -> parses_with n (p ≫= k) (u1 ++ u2) y.
Proof.
  intros Hp Hk pre post Hn Hfit. unfold mbind, parser_bind. rewrite <- app_assoc in *.
  rewrite (Hp pre (u2 ++ post)) by (try done; rewrite zlen_app; lia). cbn [mbind result_bind].
  specialize (Hk (pre ++ u1) post Hn). rewrite <- app_assoc, zlen_app in Hk. rewrite Hk by done. by rewrite zlen_app, Z.add_assoc.
Qed.

Lemma with_read {A B} n (p : Parser E A) (k : A -> Parser E B) u1 u2 x y :
  parses p u1 x -> parses_with n (k x) u2 y -> parses_with n (p ≫= k) (u1 ++ u2) y.
Proof. intros Hp. apply with_bind. by apply with_any. Qed.

Lemma with_ret {A} n (x : A) : parses_with n (mret x : Parser E A) [] x.
Proof. apply with_any, parses_ret. Qed.

Lemma with_lift {A B} n (r : Result E A) (k : A -> Parser E B) u x y : r = Ok x -> parses_with n (k x) u y -> parses_with n (lift r ≫= k) u y.
Proof. intros -> Hk pre post. apply Hk. Qed.

Lemma with_whole {A} (p : Parser E A) u x : parses_with 0 p u x -> fits u -> p (mkReader u 0) = Ok (x, mkReader u (zlen u)).
Proof. intros Hp Hfit. specialize (Hp [] [] eq_refl). simpl in Hp. rewrite app_nil_r in Hp. by apply Hp. Qed.
End With.

(** [remaining] is the bytes still to be read. *)
Lemma with_remaining {A} n (k : Z -> WParser A) u y : parses_with n (k (zlen u + n)) u y -> parses_with n (get_remaining ≫= k) u y.
Proof.
  intros Hk pre post Hn Hfit. unfold mbind, parser_bind, get_remaining, remaining. cbn [rd_bytes rd_cursor mbind result_bind].
  replace (zlen (pre ++ u ++ post) - zlen pre) with (zlen u + n) by (rewrite !zlen_app; lia). by apply Hk.
Qed.

Lemma parses_fits_remaining {A} what len (k : WParser A) u y : len <= zlen u -> parses k u y -> parses (fits_remaining what len ≫= fun _ => k) u y.
Proof.
  intros Hle Hk pre post Hfit. unfold mbind, parser_bind, fits_remaining, remaining. cbn [rd_bytes rd_cursor].
  assert ((zlen (pre ++ u ++ post) - zlen pre <? len) = false) as ->.
  { apply Z.ltb_ge. rewrite !zlen_app. pose proof (zlen_nonneg post). lia. }
  by apply Hk.
Qed.

(** ** The tail *)

Definition valid_tail (tail : FrameTail) : Prop :=
  valid_payload (ft_reliable tail) /\
  rows_of (fun s => is_u8 (sn_index s)) u8_max (ft_svc_sounds tail) /\ option_of (valid_string u16_max) (ft_svc_scores tail) /\
  rows_of (fun c => is_u32 (cs_client c) /\ is_i32 (cs_slot c)) u8_max (ft_svc_card_slots tail) /\
  rows_of (fun m => is_i32 (om_cs_index m)) u8_max (ft_svc_open_menus tail) /\
  Forall valid_splash (ft_svc_hud_splashes tail) /\ Forall valid_notify (ft_svc_game_notifies tail).

Lemma put_u16_checked_ok n u : 0 <= n -> put_u16_checked n = Some u -> is_u16 n /\ u = put_u16 n.
Proof. unfold put_u16_checked. intros Hn. destruct (Z.leb_spec n u16_max); [|done]. intros [= <-]. split; [|done]. ilia. Qed.

Lemma parses_splashes splashes u :
  Forall valid_splash splashes -> encode_svc_hud_splashes splashes = Some u -> parses decode_svc_hud_splashes u splashes.
Proof.
  intros Hv. unfold encode_svc_hud_splashes, decode_svc_hud_splashes. pose proof (zlen_nonneg splashes).
  destruct (put_u16_checked _) as [count|] eqn:Ec; [|done]. apply put_u16_checked_ok in Ec as [Hn ->]; [|done].
  destruct (mapM put_splash splashes) as [rows|] eqn:Er; [|done]. cbv [mbind option_bind]. intros E. apply (inj Some) in E as <-.
  assert (Hp : put_list16_opt put_splash splashes = Some (put_u16 (wrap16 (zlen splashes)) ++ concat rows)) by (unfold put_list16_opt; by rewrite Er).
  assert (Hw : wrap16 (zlen splashes) = zlen splashes) by ilia. rewrite Hw in Hp.
  apply (partial_parses (PartialCodec := list16_partial _ _ _) _ _); [|exact Hp]. split; [|done]. ilia.
Qed.

Lemma parses_all_notifies notifies u :
  Forall valid_notify notifies -> encode_svc_game_notifies notifies = Some u -> parses decode_svc_game_notifies u notifies.
Proof.
  intros Hv. unfold encode_svc_game_notifies. pose proof (zlen_nonneg notifies).
  destruct (put_u16_checked _) as [count|] eqn:Ec; [|done]. apply put_u16_checked_ok in Ec as [Hn ->]; [|done].
  cbv [mbind option_bind]. intros E. apply (inj Some) in E as <-.
  assert (Hw : wrap16 (zlen notifies) = zlen notifies) by ilia.
  assert (Hp : parses (get_list16 get_notify) (put_u16 (zlen notifies) ++ concat (map put_notify notifies)) notifies).
  { rewrite <- Hw. apply (wire_parses (WireCodec := list16_codec _ _ _)). split; [ilia|done]. }
  intros pre post Hfit. unfold decode_svc_game_notifies.
  assert (Hr : (remaining (mkReader (pre ++ (put_u16 (zlen notifies) ++ concat (map put_notify notifies)) ++ post) (zlen pre)) =? 0) = false).
  { unfold remaining. cbn [rd_bytes rd_cursor]. rewrite !zlen_app. unfold put_u16. rewrite zlen_le_bytes.
    pose proof (zlen_nonneg (concat (map put_notify notifies))). pose proof (zlen_nonneg post). apply Z.eqb_neq. lia. }
  rewrite Hr. by apply Hp.
Qed.

Lemma parses_scores_opt scores : option_of (valid_string u16_max) scores -> parses decode_svc_scores (encode_svc_scores scores) scores.
Proof.
  destruct scores as [s|]; [apply parses_scores|]. intros _. unfold decode_svc_scores. cbn [encode_svc_scores].
  eapply parses_end; [apply parses_put_u8; ilia|]. apply parses_ret.
Qed.

#[export] Instance tail_codec : PartialCodec encode_tail decode_tail valid_tail.
Proof.
  split. intros [reliable sounds scores slots menus splashes notifies] u (Hr & Hs & Hsc & Hsl & Hm & Hsp & Hn) Hu.
  cbn [ft_reliable ft_svc_sounds ft_svc_scores ft_svc_card_slots ft_svc_open_menus ft_svc_hud_splashes ft_svc_game_notifies] in *.
  unfold encode_tail in Hu. cbn [ft_reliable ft_svc_sounds ft_svc_scores ft_svc_card_slots ft_svc_open_menus ft_svc_hud_splashes ft_svc_game_notifies] in Hu.
  destruct (encode_reliable_payload reliable) as [u1|] eqn:E1; [|done]. destruct (encode_svc_hud_splashes splashes) as [u2|] eqn:E2; [|done].
  destruct (encode_svc_game_notifies notifies) as [u3|] eqn:E3; [|done]. cbv [mbind option_bind] in Hu. apply (inj Some) in Hu as <-.
  unfold decode_tail. eapply parses_bind; [by apply partial_parses|]. cbv beta.
  eapply parses_bind; [exact (wire_parses (WireCodec := list8_codec _ _ _) sounds Hs)|]. cbv beta.
  eapply parses_bind; [by apply parses_scores_opt|]. cbv beta.
  eapply parses_bind; [exact (wire_parses (WireCodec := list8_codec _ _ _) slots Hsl)|]. cbv beta.
  eapply parses_bind; [exact (wire_parses (WireCodec := list8_codec _ _ _) menus Hm)|]. cbv beta.
  eapply parses_bind; [by apply parses_splashes|]. cbv beta.
  eapply parses_end; [by apply parses_all_notifies|]. apply parses_ret.
Qed.

(** ** The head *)

Definition valid_acks (acks : list (Z * Z)) : Prop := rows_of (fun ack => is_u32 ack.1 /\ is_u32 ack.2) u16_max acks.

#[export] Instance ack_codec : WireCodec put_ack get_ack (fun ack => is_u32 ack.1 /\ is_u32 ack.2).
Proof. split. intros [client seq] Hv. unfold put_ack, get_ack. cbn [fst snd] in *. wire_fields. Qed.

#[export] Instance delta_codec : WireCodec snapshot_delta_encode snapshot_delta_decode (fun d => is_u32 (sd_tick d) /\ zlen (sd_bytes d) <= u32_max).
Proof.
  split. intros [tick bytes] [Ht Hn]. cbn [sd_tick sd_bytes] in *. unfold snapshot_delta_encode, snapshot_delta_decode. cbn [sd_tick sd_bytes].
  pose proof (zlen_nonneg bytes). assert (wrap32 (zlen bytes) = zlen bytes) as -> by ilia. assert (is_u32 (zlen bytes)) by ilia.
  do 2 wire_step. apply parses_fits_remaining; [done|]. eapply parses_end; [by apply parses_get_bytes|]. apply parses_ret.
Qed.

#[export] Instance world_wire_codec : WireCodec encode_world_objects_wire (len ← get_u16; get_bytes len) (fun wire => zlen wire <= u16_max).
Proof.
  split. intros wire Hn. unfold encode_world_objects_wire. pose proof (zlen_nonneg wire).
  assert (wrap16 (zlen wire) = zlen wire) as -> by ilia. eapply parses_bind; [apply parses_put_u16; ilia|]. by apply parses_get_bytes.
Qed.

(** ** What the meta promises *)

(** The bytes after each section, where [n] follow the last. *)
Fixpoint ends_after (n : Z) (sections : list (list byte)) : list Z :=
  match sections with [] => [] | _ :: sections => (zlen (concat sections) + n) :: ends_after n sections end.

(** The sections of a meta are read back; [agrees] is what the client then has of it, with the world
    objects of its own. *)
Class MetaLaws (Meta : Type) `{!MetaOps Meta} (valid : Meta -> Prop) (agrees : (SimEvent -> bool) -> Meta -> Meta -> Prop) : Prop := {
  meta_parses keep m sections : valid m -> meta_sections keep m = Some sections ->
    length sections = 11%nat /\
    exists m', (forall n, parses_with n decode_meta_sections (concat sections) (m', ends_after n sections)) /\
      forall w, agrees keep m (set_world_objects m' w);
  meta_world_set m w : meta_world_objects (set_world_objects m w) = w;
}.

(** ** The sections of the shared meta *)

Lemma section_ends_nth sections : forall at_byte i, (i < length sections)%nat ->
  section_ends at_byte sections !! i = Some (at_byte + zlen (concat (take (S i) sections))).
Proof.
  induction sections as [|section sections IH]; intros at_byte i Hi; cbn in Hi; [lia|]. destruct i as [|i].
  - cbn. f_equal. rewrite take_0. cbn. by rewrite app_nil_r.
  - change (section_ends at_byte (section :: sections) !! S i) with (section_ends (at_byte + zlen section) sections !! i).
    rewrite IH by lia. f_equal. rewrite (firstn_cons (S i)). cbn [concat]. rewrite zlen_app. lia.
Qed.

Lemma wm_segment_ok sections i section : sections !! i = Some section ->
  wm_segment (mkWireMeta (concat sections) (section_ends 0 sections)) i = Some section.
Proof.
  intros Hs. pose proof (lookup_lt_Some _ _ _ Hs) as Hi. unfold wm_segment. cbn [wm_bytes wm_ends].
  rewrite section_ends_nth by done. rewrite Z.add_0_l.
  assert (Hstart : match i with O => Some 0 | S prev => section_ends 0 sections !! prev end = Some (zlen (concat (take i sections)))).
  { destruct i as [|i]; [done|]. by rewrite section_ends_nth by lia. }
  rewrite Hstart. clear Hstart.
  assert (E : concat sections = concat (take i sections) ++ section ++ concat (drop (S i) sections)).
  { rewrite <- (take_drop_middle _ _ _ Hs) at 1. by rewrite concat_app. }
  assert (Et : concat (take (S i) sections) = concat (take i sections) ++ section).
  { rewrite (take_S_r _ _ _ Hs), concat_app. cbn. by rewrite app_nil_r. }
  pose proof (zlen_nonneg section). pose proof (zlen_nonneg (concat (drop (S i) sections))).
  rewrite Et, E. rewrite !zlen_app. rewrite !(proj2 (Z.leb_le _ _)) by lia. cbn [andb]. f_equal. apply slice_mid.
Qed.

Lemma wm_segments_ok sections : length sections = 11%nat ->
  wm_segments (mkWireMeta (concat sections) (section_ends 0 sections)) = Some sections.
Proof.
  intros Hl. unfold wm_segments. change (Z.to_nat META_BODY_SEGMENTS) with 11%nat. rewrite <- Hl.
  assert (H : forall n i, (i + n = length sections)%nat -> wm_segments_from (mkWireMeta (concat sections) (section_ends 0 sections)) n i = Some (drop i sections)).
  { induction n as [|n IH]; intros i Hi; cbn [wm_segments_from]; [by rewrite drop_ge by lia|].
    destruct (lookup_lt_is_Some_2 sections i) as [section Es]; [lia|]. rewrite (wm_segment_ok _ _ _ Es), IH by lia. by rewrite (drop_S _ _ _ Es). }
  by rewrite H.
Qed.

Lemma spans_ok (sections : list (list byte)) t : forall n, 0 <= n -> zlen (concat sections) + n <= u32_max ->
  spans (zlen (concat sections) + n) (ends_after n sections ++ [t]) = map zlen sections ++ [wrap32 (n - t)].
Proof.
  induction sections as [|section sections IH]; intros n Hn Hmax; cbn [ends_after spans app map concat] in *; [by rewrite Z.add_0_l|].
  rewrite zlen_app in *. pose proof (zlen_nonneg section). pose proof (zlen_nonneg (concat sections)).
  rewrite IH by lia. f_equal. replace (zlen section + zlen (concat sections) + n - (zlen (concat sections) + n)) with (zlen section) by lia. ilia.
Qed.

Lemma last_snoc (ends : list Z) x d : List.last (ends ++ [x]) d = x.
Proof. apply List.last_last. Qed.

Lemma state_hash_u32 players : is_u32 (compute_state_hash players).
Proof.
  unfold compute_state_hash, fnv1a32. set (bytes := concat _). clearbody bytes.
  assert (H : forall hash, is_u32 hash -> is_u32 (foldl (fun hash b => wrap32 (Z.lxor hash (byte_val b) * 0x01000193)) hash bytes)).
  { induction bytes as [|b bytes IH]; intros hash Hh; [done|]. cbn [foldl]. apply IH. ilia. }
  apply H. ilia.
Qed.

Section Frames.
Context {Meta : Type} `{!MetaOps Meta} (valid_meta : Meta -> Prop) (meta_agrees : (SimEvent -> bool) -> Meta -> Meta -> Prop).
Context `{!MetaLaws Meta valid_meta meta_agrees}.

Definition valid_host (s : Snapshot Meta) : Prop :=
  valid_snapshot s /\ valid_meta (sn_meta s) /\ valid_world (meta_world_objects (sn_meta s)) /\ small_world (meta_world_objects (sn_meta s)).

Definition unreliable (event : SimEvent) : bool := negb (sim_event_is_reliable event).

(** What the client has of a snapshot of the host. *)
Definition frame_agrees (host client : Snapshot Meta) : Prop :=
  valid_host host /\ snapshot_agrees host client /\ meta_agrees unreliable (sn_meta host) (sn_meta client) /\
  world_agrees (meta_world_objects (sn_meta host)) (meta_world_objects (sn_meta client)).

(** The encoder builds on what the client has. *)
Record builds_on (base : option (Snapshot Meta)) (coder : SnapshotEncoder) : Prop := {
  bo_coded : coded coder (decoder_for base);
  bo_world : valid_world (we_baseline (en_world_objects coder));
  bo_small : small_world (we_baseline (en_world_objects coder));
  bo_content : we_force_full (en_world_objects coder) = true \/ content_agrees (we_baseline (en_world_objects coder)) (world_for base);
}.

Lemma builds_on_reset coder : builds_on None (encoder_reset coder).
Proof. split; [apply (coded_fresh coder decoder_new)|apply valid_world_default|by vm_compute|by left]. Qed.

Lemma builds_on_adopt coder host client : frame_agrees host client -> builds_on (Some client) (encoder_adopt meta_world_objects coder host).
Proof.
  intros ((Hs & _ & Hw & Hsm) & Ha & _ & [Hc _]). split; [by apply coded_adopt|exact Hw|exact Hsm|]. right. exact Hc.
Qed.

Lemma world_wire_step world wire update : sync_apply_wire world wire = Ok update -> exists u, decode_sync wire = Ok u /\ update = update_apply u world.
Proof. unfold sync_apply_wire. destruct (decode_sync wire) as [u|]; [|done]. intros [= <-]. by exists u. Qed.

Lemma decode_body_ok sections m' wire update n :
  zlen wire <= u16_max -> decode_sync wire = Ok update -> (forall n, parses_with n decode_meta_sections (concat sections) (m', ends_after n sections)) ->
  parses_with n decode_snapshot_meta_body (concat sections ++ encode_world_objects_wire wire)
    (mkDecodedMeta m' wire update, ends_after (zlen (encode_world_objects_wire wire) + n) sections ++ [n]).
Proof.
  intros Hw Hu Hm. unfold decode_snapshot_meta_body. pose proof (zlen_nonneg wire). assert (wrap16 (zlen wire) = zlen wire) as Ew by ilia.
  eapply with_bind; [apply Hm|]. cbv beta iota. unfold encode_world_objects_wire. rewrite Ew.
  eapply with_read; [apply parses_put_u16; ilia|]. cbv beta. rewrite <- (app_nil_r (put_bytes wire)).
  eapply with_read; [by apply parses_get_bytes|]. cbv beta. apply with_remaining. eapply with_lift; [exact Hu|]. rewrite zlen_nil, Z.add_0_l. apply with_ret.
Qed.

(** The whole frame. *)
Lemma decode_segments_ok tick state_hash acks delta sections m' wire update tail tail_bytes world :
  is_u32 tick -> is_u32 state_hash -> valid_acks acks -> is_u32 (sd_tick delta) -> zlen wire <= u16_max -> decode_sync wire = Ok update ->
  valid_tail tail -> encode_tail tail = Some tail_bytes ->
  (forall n, parses_with n decode_meta_sections (concat sections) (m', ends_after n sections)) ->
  let segs := (encode_head tick state_hash acks ++ snapshot_delta_encode delta) :: sections ++ [encode_world_objects_wire wire; tail_bytes] in
  zlen (concat segs) <= MAX_RECONSTRUCTED_FRAME_BYTES ->
  parses_with 0 (frame_decode_segments world) (concat segs)
    (mkFrame tick state_hash acks delta (set_world_objects m' (update_apply update world)) wire tail, update_apply update world, map zlen segs).
Proof.
  intros Ht Hh Ha Hd Hw Hu Hv Et Hm segs Hmax. unfold MAX_RECONSTRUCTED_FRAME_BYTES in Hmax. unfold segs in *. clear segs.
  set (world_bytes := encode_world_objects_wire wire) in *. set (head := encode_head _ _ _ ++ _) in *.
  assert (Eall : concat (head :: sections ++ [world_bytes; tail_bytes]) =
    put_u32 tick ++ put_u32 state_hash ++ put_list16 put_ack acks ++ snapshot_delta_encode delta ++ (concat sections ++ world_bytes) ++ tail_bytes).
  { unfold head, encode_head. cbn [concat]. rewrite concat_app. cbn [concat]. by rewrite app_nil_r, <- !app_assoc. }
  assert (Hsum : zlen (concat (head :: sections ++ [world_bytes; tail_bytes])) = zlen head + (zlen (concat sections) + (zlen world_bytes + zlen tail_bytes))).
  { clearbody head world_bytes. cbn [concat]. rewrite concat_app. cbn [concat]. rewrite !zlen_app, zlen_nil. lia. }
  rewrite Hsum in Hmax.
  pose proof (zlen_nonneg head). pose proof (zlen_nonneg (concat sections)). pose proof (zlen_nonneg world_bytes). pose proof (zlen_nonneg tail_bytes).
  assert (Hdl : zlen (sd_bytes delta) <= u32_max).
  { assert (zlen (sd_bytes delta) <= zlen head); [|ilia]. unfold head, snapshot_delta_encode, put_bytes. rewrite !zlen_app.
    pose proof (zlen_nonneg (encode_head tick state_hash acks)). pose proof (zlen_nonneg (put_u32 (sd_tick delta))).
    pose proof (zlen_nonneg (put_u32 (wrap32 (zlen (sd_bytes delta))))). lia. }
  unfold frame_decode_segments. apply with_remaining. rewrite Hsum, Eall.
  do 2 (eapply with_read; [by apply parses_put_u32|]; cbv beta).
  eapply with_read; [apply (wire_parses (WireCodec := list16_codec _ _ _) acks Ha)|]. cbv beta.
  eapply with_read; [by apply (wire_parses (WireCodec := delta_codec))|]. cbv beta.
  apply with_remaining. eapply with_bind; [by apply decode_body_ok|]. cbv beta iota. rewrite <- (app_nil_r tail_bytes) at 1.
  eapply with_read; [by apply partial_parses|]. cbv beta. apply with_remaining. cbn [dm_body dm_world_wire dm_world_update].
  rewrite last_snoc. change (zlen (@nil byte)) with 0. rewrite !Z.add_0_r, !Z.sub_0_r. rewrite !zlen_app. fold world_bytes.
  assert (wrap32 (zlen head + (zlen (concat sections) + (zlen world_bytes + zlen tail_bytes)) - (zlen (concat sections) + zlen world_bytes + zlen tail_bytes)) = zlen head) as -> by ilia.
  assert (wrap32 (zlen tail_bytes) = zlen tail_bytes) as -> by ilia. rewrite <- Z.add_assoc, spans_ok by ilia.
  assert (wrap32 (zlen world_bytes + zlen tail_bytes - zlen tail_bytes) = zlen world_bytes) as -> by ilia.
  cbn [map]. rewrite map_app, <- app_assoc. apply with_ret.
Qed.
(** The wire of the world objects, and what the client makes of it. *)
Lemma world_wire_ok base coder tick current coder' wire :
  builds_on base coder -> valid_world current -> small_world current -> encode_world_objects coder tick current = Some (coder', wire) ->
  zlen wire <= u16_max /\ (exists update, decode_sync wire = Ok update /\ world_agrees current (update_apply update (world_for base))) /\
  en_baseline coder' = en_baseline coder /\ en_projectile_baseline coder' = en_projectile_baseline coder.
Proof.
  intros [_ Hb Hsb Hc] Hw Hsm. unfold encode_world_objects. destruct (sync_encode _ _ _) as [[e' u]|] eqn:Es; [|done].
  intros [<- <-]%(inj Some)%pair_equal_spec. pose proof (sync_encode_size _ _ _ _ _ Hsb Hsm Hw Es) as Hlen. split; [done|]. split; [|done].
  destruct (sync_step _ _ _ _ _ (world_for base) Hb Hw Hc Es) as (world & Hd & Ha & _); [unfold fits, isize_max; unfold u16_max in Hlen; lia|].
  apply world_wire_step in Hd as (update & Hu & ->). by exists update.
Qed.

Lemma coded_same coder coder' d : en_baseline coder' = en_baseline coder -> en_projectile_baseline coder' = en_projectile_baseline coder ->
  coded coder d -> coded coder' d.
Proof. intros E1 E2 [H1 H2 H3 H4]. split; rewrite ?E1, ?E2; done. Qed.

(** The frame that is built for a peer is what its client reads. *)
Lemma build_reads heap base coder host meta acks tail coder' parts segs :
  builds_on base coder -> valid_host host -> valid_acks acks -> valid_tail tail ->
  build_parts coder host meta acks tail = Some (coder', parts) -> without_reliable_events (sn_meta host) = Some (heap meta) ->
  sendable heap parts segs ->
  exists frame client, decode_frame base (concat segs) = Ok (frame, map zlen segs) /\ decode_snapshot_of base frame = Ok client /\
    frame_agrees host client /\ fr_tick frame = sn_tick host /\ fr_state_hash frame = compute_state_hash (sn_players host) /\
    fr_acks frame = acks /\ fr_tail frame = tail.
Proof.
  intros Hon Hv Ha Ht Hb Hm [Hs Hmax]. pose proof Hv as ((Htick & Hp & Hj) & Hmeta & Hworld & Hsmall). unfold build_parts in Hb.
  destruct (encode_world_objects _ _ _) as [[coder1 wire]|] eqn:Ew; [|done]. cbv beta iota delta [mbind option_bind] in Hb.
  destruct (snapshot_encode coder1 host) as [coder2 delta] eqn:Ed.
  unfold frame_parts_new in Hb. destruct (encode_tail tail) as [tail_bytes|] eqn:Et; [|done]. cbv beta iota delta [mbind option_bind] in Hb.
  apply (inj Some), pair_equal_spec in Hb as [_ <-].
  destruct (world_wire_ok _ _ _ _ _ _ Hon Hworld Hsmall Ew) as (Hwl & (update & Hu & Hwa) & E1 & E2).
  unfold without_reliable_events in Hm. destruct (meta_sections _ _) as [sections|] eqn:Esec; [|done]. cbv beta iota delta [mbind option_bind] in Hm.
  apply (inj Some) in Hm. destruct (meta_parses _ _ _ Hmeta Esec) as (Hlen & m' & Hparse & Hagree).
  unfold segments in Hs. cbn [fp_meta fp_head fp_world_objects fp_tail] in Hs. rewrite <- Hm, wm_segments_ok in Hs by done.
  apply (inj Some) in Hs as <-.
  assert (Hd : delta = (snapshot_encode coder1 host).2) by by rewrite Ed.
  assert (Hdt : sd_tick delta = sn_tick host) by by rewrite Hd.
  pose proof (decode_segments_ok (sn_tick host) (compute_state_hash (sn_players host)) acks delta sections m' wire update tail tail_bytes (world_for base)
    Htick (state_hash_u32 _) Ha ltac:(by rewrite Hdt) Hwl Hu Ht Et Hparse Hmax) as Hall.
  assert (Hfit : fits (sd_bytes delta)).
  { cbn [concat] in Hmax. unfold snapshot_delta_encode, put_bytes in Hmax. rewrite !zlen_app in Hmax. unfold MAX_RECONSTRUCTED_FRAME_BYTES in Hmax.
    pose proof (zlen_nonneg (encode_head (sn_tick host) (compute_state_hash (sn_players host)) acks)).
    pose proof (zlen_nonneg (put_u32 (sd_tick delta))). pose proof (zlen_nonneg (put_u32 (wrap32 (zlen (sd_bytes delta))))).
    match type of Hmax with context [zlen (concat ?l)] => pose proof (zlen_nonneg (concat l)) end. unfold fits, isize_max. lia. }
  rewrite Hd in Hfit.
  destruct (decode_snapshot_ok (Meta := Meta) meta_default coder1 (decoder_for base) host) as (d' & s' & Hdec & _ & Hagr & _);
    [eapply coded_same; [exact E1|exact E2|apply Hon]|done|done|].
  eexists _, _. split.
  { unfold decode_frame. rewrite (with_whole _ _ _ Hall) by (unfold fits, isize_max, MAX_RECONSTRUCTED_FRAME_BYTES in *; lia). done. }
  cbn [fst snd]. split.
  { unfold decode_snapshot_of. cbn [fr_snapshot_delta]. rewrite Hd, Hdec. cbn [mbind result_bind fst snd fr_snapshot_meta]. done. }
  split; [|done]. destruct Hagr as (A1 & A2 & A3). split; [done|]. split; [done|]. cbn [sn_meta]. split; [apply Hagree|].
  by rewrite meta_world_set.
Qed.
End Frames.
