(* ===== verification/MetaClient.v ===== *)
(** * A client's row of the meta

    crates/net/src/transport/meta_wire.rs, the rows of the clients: [encode_client_meta] and
    [decode_client_meta], with the types of crates/sim/src/match_state/snapshot_meta.rs, client_view.rs,
    loadout.rs, shield.rs, weapon_lock.rs and of crates/hud_iw4 (hudelem.rs, flashbang.rs).

    A structure that holds only numbers is the list of its fields in the order of the wire, by a schema;
    a field is the list of its numbers. *)

From S2P Require Export WireRecords.

#[local] Open Scope Z_scope.

Delimit Scope string_scope with string.

(** ** Structures of numbers *)

Inductive Num : Type := NumU8 | NumU16 | NumU32 | NumU64 | NumI32 | NumF32.

Definition put_num (k : Num) : Z -> list byte :=
  match k with NumU8 => put_u8 | NumU16 => put_u16 | NumU32 => put_u32 | NumU64 => put_u64 | NumI32 => put_i32 | NumF32 => put_f32 end.
Definition get_num (k : Num) : WParser Z :=
  match k with NumU8 => get_u8 | NumU16 => get_u16 | NumU32 => get_u32 | NumU64 => get_u64 | NumI32 => get_i32 | NumF32 => get_f32 end.
Definition valid_num (k : Num) : Z -> Prop :=
  match k with NumU8 => is_u8 | NumU16 => is_u16 | NumU32 | NumF32 => is_u32 | NumU64 => is_u64 | NumI32 => is_i32 end.

(** A field: its name, what its numbers are and how many there are. *)
Definition Field : Type := list byte * Num * nat.
Definition Schema : Type := list Field.
Definition Fields : Type := list (list Z).

Definition i32s (names : list String.string) : Schema := map (fun name => (bs name, NumI32, 1%nat)) names.
Definition u32s (names : list String.string) : Schema := map (fun name => (bs name, NumU32, 1%nat)) names.
Definition f32s (names : list String.string) : Schema := map (fun name => (bs name, NumF32, 1%nat)) names.
Definition one (k : Num) (name : String.string) : Schema := [(bs name, k, 1%nat)].
Definition arr (k : Num) (n : nat) (name : String.string) : Schema := [(bs name, k, n)].
Arguments one k name%_string_scope.
Arguments arr k n%_nat_scope name%_string_scope.

Fixpoint put_fields (schema : Schema) (fields : Fields) : list byte :=
  match schema, fields with
  | (_, k, _) :: schema, v :: fields => concat (map (put_num k) v) ++ put_fields schema fields
  | _, _ => []
  end.
Fixpoint get_fields (schema : Schema) : WParser Fields :=
  match schema with
  | [] => mret []
  | (_, k, n) :: schema => v ← parse_list n (get_num k); fields ← get_fields schema; mret (v :: fields)
  end.

(** The numbers of a field. *)
Fixpoint fld (schema : Schema) (name : list byte) (fields : Fields) : list Z :=
  match schema, fields with
  | (n, _, _) :: schema, v :: fields => if bool_decide (n = name) then v else fld schema name fields
  | _, _ => []
  end.
Definition fld1 (schema : Schema) (name : list byte) (fields : Fields) : Z := default 0 (head (fld schema name fields)).

Definition valid_fields (schema : Schema) (fields : Fields) : Prop :=
  Forall2 (fun (f : Field) v => array_of (valid_num f.1.2) f.2 v) schema fields.

#[export] Instance num_codec k : WireCodec (put_num k) (get_num k) (valid_num k).
Proof. destruct k; apply _. Qed.

#[export] Instance fields_codec schema : WireCodec (put_fields schema) (get_fields schema) (valid_fields schema).
Proof.
  split. intros fields Hv. induction Hv as [|[[name k] n] v schema fields Hx _ IH]; cbn [put_fields get_fields]; [apply parses_ret|].
  cbn [fst snd] in Hx. eapply parses_bind; [apply (wire_parses (WireCodec := array_codec _ _ _ n (num_codec k)) v Hx)|]. cbv beta.
  eapply parses_end; [exact IH|apply parses_ret].
Qed.

(** ** The state of a client *)

Inductive ClientLifecycle : Type :=
| LifeConnecting | LifeChoosingClass | LifeSpawnPending | LifeAlive | LifeDead | LifeRespawnPending | LifeSpectating | LifeIntermission.

Definition lifecycle_tag (life : ClientLifecycle) : Z :=
  match life with
  | LifeConnecting => 0 | LifeChoosingClass => 1 | LifeAlive => 2 | LifeDead => 3 | LifeSpectating => 4
  | LifeSpawnPending => 5 | LifeRespawnPending => 6 | LifeIntermission => 7
  end.
Definition lifecycle_from_tag (tag : Z) : Result WireError ClientLifecycle :=
  if tag =? 0 then Ok LifeConnecting else if tag =? 1 then Ok LifeChoosingClass else if tag =? 2 then Ok LifeAlive
  else if tag =? 3 then Ok LifeDead else if tag =? 4 then Ok LifeSpectating else if tag =? 5 then Ok LifeSpawnPending
  else if tag =? 6 then Ok LifeRespawnPending else if tag =? 7 then Ok LifeIntermission
  else Err (malformed "unknown ClientLifecycle tag").

Inductive RadarMode : Type := RadarOff | RadarNormal | RadarFast | RadarConstant.
Definition radar_wire_tag (r : RadarMode) : Z := match r with RadarOff => 0 | RadarNormal => 1 | RadarFast => 2 | RadarConstant => 3 end.
Definition radar_from_wire_tag (tag : Z) : Result WireError RadarMode :=
  if tag =? 0 then Ok RadarOff else if tag =? 1 then Ok RadarNormal else if tag =? 2 then Ok RadarFast
  else if tag =? 3 then Ok RadarConstant else Err (malformed "bad radar mode").

Record ScriptControls : Type := mkControls {
  sc_frozen : bool; sc_weapons_disabled : bool; sc_offhands_disabled : bool; sc_switch_disabled : bool; sc_jump_disabled : bool;
  sc_usability_disabled : bool; sc_linked : bool; sc_switch_to : Z }.

Definition put_controls (c : ScriptControls) : list byte :=
  put_bool (sc_frozen c) ++ put_bool (sc_weapons_disabled c) ++ put_bool (sc_offhands_disabled c) ++ put_bool (sc_switch_disabled c) ++
  put_bool (sc_jump_disabled c) ++ put_bool (sc_usability_disabled c) ++ put_bool (sc_linked c) ++ put_u32 (sc_switch_to c).
Definition get_controls : WParser ScriptControls :=
  frozen ← get_bool; weapons ← get_bool; offhands ← get_bool; switch ← get_bool; jump ← get_bool; usability ← get_bool; linked ← get_bool;
  switch_to ← get_u32; mret (mkControls frozen weapons offhands switch jump usability linked switch_to).

(** [KillcamHud]: whether it is the final kill. *)
Definition put_killcam_hud (hud : option bool) : list byte := put_u8 (match hud with None => 0 | Some final_kill => if final_kill then 2 else 1 end).
Definition get_killcam_hud : WParser (option bool) :=
  tag ← get_u8;
  if tag =? 0 then mret None else if (tag =? 1) || (tag =? 2) then mret (Some (tag =? 2)) else lift (Err (malformed "bad killcam HUD tag")).

Definition put_lifecycle (life : ClientLifecycle) : list byte := put_u8 (lifecycle_tag life).
Definition get_lifecycle : WParser ClientLifecycle := tag ← get_u8; life ← lift (lifecycle_from_tag tag); mret life.
Definition put_radar (r : RadarMode) : list byte := put_u8 (radar_wire_tag r).
Definition get_radar : WParser RadarMode := tag ← get_u8; radar ← lift (radar_from_wire_tag tag); mret radar.

(** Flags in the bits of a byte, the first in the lowest. *)
Fixpoint bits_of (flags : list bool) : Z := match flags with [] => 0 | b :: flags => Z.lor (bool_val b) (Z.shiftl (bits_of flags) 1) end.
Definition put_flags (flags : list bool) : list byte := put_u8 (bits_of flags).
Definition get_flags (n : nat) : WParser (list bool) :=
  v ← get_u8; mret (map (fun i => negb (Z.land v (Z.shiftl 1 (Z.of_nat i)) =? 0)) (seq 0 n)).

Record RemoteMissile : Type := mkRemote {
  rm_projectile : Z; rm_entnum : Z; rm_angles : list Z; rm_flags : list bool (* armed, boosted, attack *); rm_unlink_at_ms : option Z }.

(** The least number is no time. *)
Definition put_time (at_ms : option Z) : list byte := put_i32 (default i32_min at_ms).
Definition get_time : WParser (option Z) := ms ← get_i32; mret (if ms =? i32_min then None else Some ms).

Definition put_remote (r : RemoteMissile) : list byte :=
  put_u32 (rm_projectile r) ++ put_i32 (rm_entnum r) ++ put_f32s (rm_angles r) ++ put_flags (rm_flags r) ++ put_time (rm_unlink_at_ms r).
Definition get_remote : WParser RemoteMissile :=
  projectile ← get_u32; entnum ← get_i32; angles ← get_vec 3; flags ← get_flags 3; unlink ← get_time;
  mret (mkRemote projectile entnum angles flags unlink).

Definition LINKED_WEAPON_VIEW : Schema := i32s ["entity_num"]%string ++ arr NumF32 3 "origin" ++ arr NumF32 3 "angles".
Definition LOADOUT_SPEC : Schema :=
  u32s ["class_id"; "revision"; "primary"; "secondary"]%string ++ arr NumU32 4 "primary_attachments" ++ arr NumU32 4 "secondary_attachments" ++
  u32s ["lethal"; "tactical"]%string ++ arr NumU32 3 "perks".
Definition AMMO_ROW : Schema := u32s ["weapon"]%string ++ i32s ["clip"; "stock"]%string.

Record PendingBrass : Type := mkBrass { pb_cause : option FireCause; pb_life : Z; pb_shot : Z; pb_weapon : Z }.

Definition put_brass (b : PendingBrass) : list byte := encode_fire_cause (pb_cause b) ++ put_u32 (pb_life b) ++ put_u32 (pb_shot b) ++ put_u32 (pb_weapon b).
Definition get_brass : WParser PendingBrass :=
  cause ← decode_fire_cause; life ← get_u32; shot ← get_u32; weapon ← get_u32; mret (mkBrass cause life shot weapon).

(** A hand each. *)
Definition put_brasses (pending : list (option PendingBrass)) : list byte := concat (map (put_option put_brass) pending).
Definition get_brasses : WParser (list (option PendingBrass)) := parse_list 2 (get_option get_brass "invalid pending brass tag").

(** ** The shield *)

Record ShieldAttachment : Type := mkShield { sh_weapon : Z; sh_on_back : bool }.

Definition put_shield (shield : option ShieldAttachment) : list byte :=
  put_u32 (match shield with Some s => sh_weapon s | None => 0 end) ++ put_bool (match shield with Some s => sh_on_back s | None => false end).
(** No weapon is no shield. *)
Definition get_shield (what : String.string) : WParser (option ShieldAttachment) :=
  weapon ← get_u32; on_back ← get_flag what; mret (if weapon =? 0 then None else Some (mkShield weapon on_back)).
Arguments get_shield what%_string_scope.

Definition decode_shield_vector : WParser (list Z) :=
  vector ← get_vec 3; _ ← lift (fail_if (negb (forallb f32_finite vector)) (malformed "nonfinite shield collision")); mret vector.

Record CollisionBone : Type := mkBone { cb_bone : Z; cb_part : Z; cb_center : list Z; cb_axes : list (list Z); cb_half_size : list Z }.
Record ShieldCarrierCollision : Type := mkCollision { co_normal : list Z; co_bones : list CollisionBone }.

Definition put_bone (b : CollisionBone) : list byte :=
  put_u16 (cb_bone b) ++ put_u8 (cb_part b) ++ put_f32s (cb_center b) ++ concat (map put_f32s (cb_axes b)) ++ put_f32s (cb_half_size b).
Definition get_bone : WParser CollisionBone :=
  bone ← get_u16; part ← get_u8; _ ← lift (fail_if (19 <? part) (malformed "bad shield carrier hit location"));
  center ← decode_shield_vector; axes ← parse_list 3 decode_shield_vector; half_size ← decode_shield_vector;
  _ ← lift (fail_if (existsb (fun v => f32_ltb v 0) half_size) (malformed "negative shield collision size"));
  mret (mkBone bone part center axes half_size).

(** A count that does not fit is a panic; no bones are no collision. *)
Definition put_collision (collision : option ShieldCarrierCollision) : option (list byte) :=
  let bones := match collision with Some c => co_bones c | None => [] end in
  count ← put_u16_checked (zlen bones);
  Some (count ++ match collision, bones with
                 | Some c, _ :: _ => put_f32s (co_normal c) ++ concat (map put_bone bones)
                 | _, _ => []
                 end).
Definition get_collision (shield : option ShieldAttachment) : WParser (option ShieldCarrierCollision) :=
  count ← get_u16;
  _ ← lift (fail_if ((256 <? count) || negb (count =? 0) && match shield with Some _ => false | None => true end) (malformed "bad shield collision count"));
  if count =? 0 then mret None
  else normal ← decode_shield_vector; bones ← parse_list (Z.to_nat count) get_bone; mret (Some (mkCollision normal bones)).

(** ** The screen *)

Definition HUDELEM_BANK_CAPACITY : Z := 31.

Definition HUD_ELEM : Schema :=
  i32s ["elem_type"]%string ++ f32s ["y"; "x"; "z"]%string ++ i32s ["target_ent_num"]%string ++ f32s ["font_scale"; "from_font_scale"]%string ++
  i32s ["font_scale_start_time"; "font_scale_time"; "label"; "font"; "align_org"; "align_screen"]%string ++ u32s ["color_rgba"; "from_color_rgba"]%string ++
  i32s ["fade_start_time"; "fade_time"; "height"; "width"; "material_index"]%string ++ f32s ["from_y"; "from_x"]%string ++
  i32s ["from_align_org"; "from_align_screen"; "move_start_time"; "move_time"; "from_height"; "from_width"; "scale_start_time"; "scale_time"]%string ++
  f32s ["value"]%string ++ i32s ["time"; "duration"; "text"]%string ++ f32s ["sort"]%string ++ u32s ["glow_color_rgba"]%string ++
  i32s ["fx_birth_time"; "fx_letter_time"; "fx_decay_start_time"; "fx_decay_duration"; "sound_id"; "flags"]%string.

Abbreviation HudElem := Fields.
Definition encode_hud_elem (e : HudElem) : list byte := put_fields HUD_ELEM e.
Definition decode_hud_elem : WParser HudElem := get_fields HUD_ELEM.

(** What is over the bank's capacity is not sent. *)
Definition encode_hud_bank (bank : list HudElem) : list byte :=
  let n := Z.min (zlen bank) HUDELEM_BANK_CAPACITY in
  put_u8 (wrap8 n) ++ concat (map encode_hud_elem (take (Z.to_nat n) bank)).
Definition decode_hud_bank : WParser (list HudElem) :=
  n ← get_u8; _ ← lift (fail_if (HUDELEM_BANK_CAPACITY <? n) (malformed "hud bank longer than 31")); parse_list (Z.to_nat n) decode_hud_elem.

Record VisionChange : Type := mkVision { vc_name : list byte; vc_duration_ms : Z; vc_set_ms : Z }.

Definition put_vision (v : VisionChange) : list byte := put_text (vc_name v) ++ put_i32 (vc_duration_ms v) ++ put_i32 (vc_set_ms v).
Definition get_vision : WParser VisionChange := name ← get_text; duration ← get_i32; set ← get_i32; mret (mkVision name duration set).
Definition encode_vision (vision : option VisionChange) : list byte := put_option put_vision vision.
Definition decode_vision : WParser (option VisionChange) := get_option get_vision "bad vision tag".

Record ShellshockLookParms : Type := mkShockLook {
  sl_affect : bool; sl_fade_ms : Z; sl_mouse_sensitivity : Z; sl_max_pitch_speed : Z; sl_max_yaw_speed : Z }.
Record ShellshockSoundParms : Type := mkShockSound {
  ss_affect : bool; ss_channel_volumes : option ChannelVolumes; ss_loop_alias : list byte; ss_end_alias : list byte; ss_abort_alias : list byte }.
Record ShockParams : Type := mkShock {
  sk_screen_type : Z; sk_blur_blend_ms : Z; sk_blur_fade_ms : Z; sk_white_fade_ms : Z; sk_shot_fade_ms : Z;
  sk_look : ShellshockLookParms; sk_sound : ShellshockSoundParms; sk_movement : bool }.

Definition put_volume (row : list byte * Z) : list byte := put_text row.1 ++ put_f32 row.2.

Definition put_shock (s : ShockParams) : list byte :=
  put_i32 (sk_screen_type s) ++ put_i32 (sk_white_fade_ms s) ++ put_i32 (sk_shot_fade_ms s) ++ put_i32 (sk_blur_blend_ms s) ++ put_i32 (sk_blur_fade_ms s) ++
  put_bool (sl_affect (sk_look s)) ++ put_i32 (sl_fade_ms (sk_look s)) ++ put_f32 (sl_mouse_sensitivity (sk_look s)) ++
  put_f32 (sl_max_pitch_speed (sk_look s)) ++ put_f32 (sl_max_yaw_speed (sk_look s)) ++
  put_bool (ss_affect (sk_sound s)) ++ put_text (ss_loop_alias (sk_sound s)) ++ put_text (ss_end_alias (sk_sound s)) ++ put_text (ss_abort_alias (sk_sound s)) ++
  put_bool (sk_movement s) ++ put_option (put_list8 put_volume) (ss_channel_volumes (sk_sound s)).
Definition encode_shock (shock : option ShockParams) : list byte := match shock with None => put_u8 0 | Some s => put_u8 3 ++ put_shock s end.

Fixpoint get_shock_volumes (count : nat) (volumes : ChannelVolumes) : WParser ChannelVolumes :=
  match count with
  | O => mret volumes
  | S count =>
      name ← get_text; gain ← get_f32;
      match (if channel_valid (name, gain) then volumes_insert name gain volumes else None) with
      | Some volumes => get_shock_volumes count volumes
      | None => lift (Err (malformed "invalid shellshock channel volume"))
      end
  end.

Definition decode_channel_volumes (tag : Z) : WParser (option ChannelVolumes) :=
  if tag <? 2 then mret None
  else
    present ← get_u8;
    if present =? 0 then mret None
    else if present =? 1 then
      count ← get_u8; _ ← lift (fail_if (64 <? count) (malformed "too many shellshock channel volumes"));
      volumes ← get_shock_volumes (Z.to_nat count) []; mret (Some volumes)
    else lift (Err (malformed "bad shellshock channel volumes tag")).

(** The forms of the older tags are read too. *)
Definition decode_shock : WParser (option ShockParams) :=
  tag ← get_u8;
  if tag =? 0 then mret None
  else
    _ ← lift (fail_if (negb ((tag =? 1) || (tag =? 2) || (tag =? 3))) (malformed "bad shellshock tag"));
    screen ← get_i32; white ← get_i32; shot ← get_i32;
    blend ← (if tag =? 3 then get_i32 else mret 0); fade ← (if tag =? 3 then get_i32 else mret 0);
    look_affect ← get_bool; look_fade ← get_i32; mouse ← get_f32; pitch ← get_f32; yaw ← get_f32;
    sound_affect ← get_bool; loop ← get_text; finish ← get_text; abort ← get_text;
    movement ← get_bool;
    _ ← lift (fail_if ((blend <? 0) || (fade <? 0)) (malformed "negative shellshock blur time"));
    volumes ← decode_channel_volumes tag;
    mret (Some (mkShock screen blend fade white shot (mkShockLook look_affect look_fade mouse pitch yaw)
                  (mkShockSound sound_affect volumes loop finish abort) movement)).

Definition SCRIPT_BLUR : Schema := f32s ["from"; "to"]%string ++ i32s ["set_ms"; "duration_ms"]%string.
Definition SCRIPT_DEPTH_OF_FIELD : Schema := f32s ["near_start"; "near_end"; "far_start"; "far_end"; "near_blur"; "far_blur"]%string.

Record ViewEffects : Type := mkView {
  ve_naked_vision : option VisionChange; ve_thermal_vision : option VisionChange; ve_missile_vision : option VisionChange;
  ve_night_vision : option VisionChange; ve_pain_vision : option VisionChange; ve_depth_of_field : Fields; ve_blur : option Fields }.

Definition put_view (v : ViewEffects) : list byte :=
  encode_vision (ve_naked_vision v) ++ encode_vision (ve_thermal_vision v) ++ encode_vision (ve_missile_vision v) ++
  encode_vision (ve_night_vision v) ++ encode_vision (ve_pain_vision v) ++ put_option (put_fields SCRIPT_BLUR) (ve_blur v) ++
  put_fields SCRIPT_DEPTH_OF_FIELD (ve_depth_of_field v).
Definition get_view : WParser ViewEffects :=
  naked ← decode_vision; thermal ← decode_vision; missile ← decode_vision; night ← decode_vision; pain ← decode_vision;
  blur ← get_option (get_fields SCRIPT_BLUR) "bad blur tag"; dof ← get_fields SCRIPT_DEPTH_OF_FIELD;
  mret (mkView naked thermal missile night pain dof blur).

Inductive MenuCommandKind : Type := MenuOpen (menu : list byte) | MenuClosePopup | MenuCloseInGame.
Record MenuCommand : Type := mkMenuCommand { mc_serial : Z; mc_kind : MenuCommandKind }.

Definition put_menu_command (c : MenuCommand) : list byte :=
  put_u32 (mc_serial c) ++
  match mc_kind c with MenuOpen menu => put_u8 0 ++ put_text menu | MenuClosePopup => put_u8 1 | MenuCloseInGame => put_u8 2 end.
Definition get_menu_command : WParser MenuCommand :=
  serial ← get_u32; tag ← get_u8;
  kind ← (if tag =? 0 then menu ← get_text; mret (MenuOpen menu) else if tag =? 1 then mret MenuClosePopup
          else if tag =? 2 then mret MenuCloseInGame else lift (Err (malformed "bad menu command tag")));
  mret (mkMenuCommand serial kind).

Record LocationSelection : Type := mkLocation { ls_material : list byte; ls_choose_direction : bool; ls_radius : Z }.

Definition put_location (l : LocationSelection) : list byte := put_text (ls_material l) ++ put_bool (ls_choose_direction l) ++ put_f32 (ls_radius l).
Definition get_location : WParser LocationSelection :=
  material ← get_text; direction ← get_bool; radius ← get_f32; mret (mkLocation material direction radius).

Record WeaponLock : Type := mkLock {
  wl_weapon : Z; wl_life : Z; wl_flags : Z; wl_target : list Z; wl_aim : option MissileTarget; wl_acquire_started_at : Z }.

Definition put_lock (l : WeaponLock) : list byte :=
  put_u32 (wl_weapon l) ++ put_u32 (wl_life l) ++ put_u8 (wl_flags l) ++ put_f32s (wl_target l) ++ encode_missile_target (wl_aim l) ++
  put_i32 (wl_acquire_started_at l).
Definition get_lock : WParser WeaponLock :=
  weapon ← get_u32; life ← get_u32; flags ← get_u8; target ← get_vec 3; aim ← decode_missile_target; at_ms ← get_i32;
  mret (mkLock weapon life flags target aim at_ms).

(** ** The row *)

Record ClientSnapshotMeta : Type := mkClientMeta {
  cm_controls : ScriptControls;
  cm_killcam_hud : option bool;
  cm_lifecycle : ClientLifecycle;
  cm_life_sequence : Z;
  cm_item_use_spawn_ms : Z;
  cm_item_use_entity : option EntityRef;
  cm_item_use_press_ms : Z;
  cm_ammo_clip : Z;
  cm_ammo_stock : Z;
  cm_score : Z;
  cm_kills : Z;
  cm_deaths : Z;
  cm_kill_streak : Z;
  cm_radar : RadarMode;
  cm_radar_blocked : bool;
  cm_remote_missile : option RemoteMissile;
  cm_linked_weapon_view : option Fields;
  cm_loadout : option Fields;
  cm_ammo_by_weapon : list Fields;
  cm_taped_mag_spent : list Z;
  cm_weapon_shot_count : Z;
  cm_burst_latch : list bool;
  cm_rechamber_pending : list bool;
  cm_pending_brass : list (option PendingBrass);
  cm_god_mode : bool;
  cm_dead_since_tick : option Z;
  cm_shield : option ShieldAttachment;
  cm_shield_collision : option ShieldCarrierCollision;
  cm_look_at_killer_yaw : Z;
  cm_name : list byte;
  cm_hud_archival : list HudElem;
  cm_hud_current : list HudElem;
  cm_ffa_team : option Z;
  cm_client_state_team : Z;
  cm_rank : Z;
  cm_prestige : Z;
  cm_player_card_icon : Z;
  cm_player_card_title : Z;
  cm_player_card_nameplate : Z;
  cm_client_dvars : list (list byte * list byte);
  cm_shellshock : option ShockParams;
  cm_view_effects : ViewEffects;
  cm_menu_commands : list MenuCommand;
  cm_location_selection : option LocationSelection;
  cm_weapon_lock : WeaponLock;
}.

(** The row up to the shield; the latches and the pending chambers are a pair of hands each. *)
Definition put_client_combat (m : ClientSnapshotMeta) : list byte :=
  put_controls (cm_controls m) ++ put_killcam_hud (cm_killcam_hud m) ++ put_lifecycle (cm_lifecycle m) ++ put_u32 (cm_life_sequence m) ++
  put_i32 (cm_item_use_spawn_ms m) ++ encode_optional_entity_ref (cm_item_use_entity m) ++ put_i32 (cm_item_use_press_ms m) ++
  put_i32 (cm_ammo_clip m) ++ put_i32 (cm_ammo_stock m) ++ put_i32 (cm_score m) ++ put_i32 (cm_kills m) ++ put_i32 (cm_deaths m) ++
  put_i32 (cm_kill_streak m) ++ put_radar (cm_radar m) ++ put_bool (cm_radar_blocked m) ++
  put_option put_remote (cm_remote_missile m) ++ put_option (put_fields LINKED_WEAPON_VIEW) (cm_linked_weapon_view m) ++
  put_option (put_fields LOADOUT_SPEC) (cm_loadout m) ++ put_list16 (put_fields AMMO_ROW) (cm_ammo_by_weapon m) ++
  put_list8 put_u32 (cm_taped_mag_spent m) ++ put_u8 (cm_weapon_shot_count m) ++ put_flags (cm_burst_latch m) ++ put_flags (cm_rechamber_pending m) ++
  put_brasses (cm_pending_brass m) ++ put_bool (cm_god_mode m) ++ put_option put_u32 (cm_dead_since_tick m) ++
  put_shield (cm_shield m).

(** The row behind the shield. *)
Definition put_client_view (m : ClientSnapshotMeta) : list byte :=
  put_i32 (cm_look_at_killer_yaw m) ++ put_bytes (cm_name m) ++ encode_hud_bank (cm_hud_archival m) ++ encode_hud_bank (cm_hud_current m) ++
  put_option put_u8 (cm_ffa_team m) ++ put_i32 (cm_client_state_team m) ++ put_i32 (cm_rank m) ++ put_i32 (cm_prestige m) ++
  put_u32 (cm_player_card_icon m) ++ put_u32 (cm_player_card_title m) ++ put_u32 (cm_player_card_nameplate m) ++
  put_list16 put_texts (cm_client_dvars m) ++ encode_shock (cm_shellshock m) ++ put_view (cm_view_effects m) ++
  put_list8 put_menu_command (cm_menu_commands m) ++ put_option put_location (cm_location_selection m) ++ put_lock (cm_weapon_lock m).

Definition encode_client_meta (m : ClientSnapshotMeta) : option (list byte) :=
  collision ← put_collision (cm_shield_collision m); Some (put_client_combat m ++ collision ++ put_client_view m).

Definition decode_client_meta : WParser ClientSnapshotMeta :=
  controls ← get_controls; killcam_hud ← get_killcam_hud; lifecycle ← get_lifecycle; life_sequence ← get_u32;
  item_use_spawn_ms ← get_i32; item_use_entity ← decode_optional_entity_ref; item_use_press_ms ← get_i32;
  ammo_clip ← get_i32; ammo_stock ← get_i32; score ← get_i32; kills ← get_i32; deaths ← get_i32; kill_streak ← get_i32;
  radar ← get_radar; radar_blocked ← get_bool;
  remote_missile ← get_option get_remote "bad remote missile tag";
  linked_weapon_view ← get_option (get_fields LINKED_WEAPON_VIEW) "bad linked weapon view tag";
  loadout ← get_option (get_fields LOADOUT_SPEC) "bad loadout tag";
  ammo_by_weapon ← get_list16 (get_fields AMMO_ROW); taped_mag_spent ← get_list8 get_u32;
  weapon_shot_count ← get_u8; burst_latch ← get_flags 2; rechamber_pending ← get_flags 2;
  pending_brass ← get_brasses;
  god_mode ← get_flag "bad god mode tag"; dead_since_tick ← get_option get_u32 "bad dead_since_tick tag";
  shield ← get_shield "bad shield attachment tag"; shield_collision ← get_collision shield;
  look_at_killer_yaw ← get_i32; name ← get_bytes 16; hud_archival ← decode_hud_bank; hud_current ← decode_hud_bank;
  ffa_team ← get_option get_u8 "bad ffa_team tag"; client_state_team ← get_i32; rank ← get_i32; prestige ← get_i32;
  player_card_icon ← get_u32; player_card_title ← get_u32; player_card_nameplate ← get_u32;
  client_dvars ← get_list16 get_texts; shellshock ← decode_shock; view_effects ← get_view;
  menu_commands ← get_list8 get_menu_command; location_selection ← get_option get_location "bad location selection tag";
  weapon_lock ← get_lock;
  mret (mkClientMeta controls killcam_hud lifecycle life_sequence item_use_spawn_ms item_use_entity item_use_press_ms ammo_clip ammo_stock
    score kills deaths kill_streak radar radar_blocked remote_missile linked_weapon_view loadout ammo_by_weapon taped_mag_spent
    weapon_shot_count burst_latch rechamber_pending pending_brass god_mode dead_since_tick shield shield_collision look_at_killer_yaw name
    hud_archival hud_current ffa_team client_state_team rank prestige player_card_icon player_card_title player_card_nameplate client_dvars
    shellshock view_effects menu_commands location_selection weapon_lock).

(** * Properties

    A row is read back as it was written. *)

Definition valid_flags (n : nat) (flags : list bool) : Prop := length flags = n.

Lemma parses_flag_bits n flags : (n <= 3)%nat -> length flags = n -> parses (get_flags n) (put_flags flags) flags.
Proof.
  intros Hn Hl. unfold get_flags, put_flags. eapply parses_end; [apply parses_put_u8|].
  - destruct flags as [|[] [|[] [|[] [|]]]]; cbn in Hl; subst n; try (exfalso; lia); vm_compute; split; congruence.
  - cbv beta. replace (map _ (seq 0 n)) with flags; [apply parses_ret|].
    destruct flags as [|[] [|[] [|[] [|]]]]; cbn in Hl; subst n; try (exfalso; lia); reflexivity.
Qed.

#[export] Instance flags2_codec : WireCodec put_flags (get_flags 2) (valid_flags 2).
Proof. split. intros flags Hl. by apply parses_flag_bits; [lia|]. Qed.
#[export] Instance flags3_codec : WireCodec put_flags (get_flags 3) (valid_flags 3).
Proof. split. intros flags Hl. by apply parses_flag_bits; [lia|]. Qed.

#[export] Instance controls_codec : WireCodec put_controls get_controls (fun c => is_u32 (sc_switch_to c)).
Proof. split. intros [] Hv. unfold put_controls, get_controls. cbn [sc_frozen sc_weapons_disabled sc_offhands_disabled sc_switch_disabled
  sc_jump_disabled sc_usability_disabled sc_linked sc_switch_to] in *. wire_fields. Qed.

#[export] Instance killcam_hud_codec : WireCodec put_killcam_hud get_killcam_hud (fun _ => True).
Proof. split. intros [[]|] _; (eapply parses_end; [solve [eauto with wire]|]; apply parses_ret). Qed.

#[export] Instance lifecycle_codec : WireCodec put_lifecycle get_lifecycle (fun _ => True).
Proof. split. intros [] _; (eapply parses_end; [solve [eauto with wire]|]); (eapply parses_lift; [reflexivity|apply parses_ret]). Qed.
#[export] Instance radar_codec : WireCodec put_radar get_radar (fun _ => True).
Proof. split. intros [] _; (eapply parses_end; [solve [eauto with wire]|]); (eapply parses_lift; [reflexivity|apply parses_ret]). Qed.

Definition valid_time (at_ms : option Z) : Prop := option_of (fun ms => is_i32 ms /\ ms <> i32_min) at_ms.

#[export] Instance time_codec : WireCodec put_time get_time valid_time.
Proof.
  split. intros [ms|] Hv; unfold put_time, get_time, valid_time in *; cbn [option_of default from_option id] in *.
  - destruct Hv as [Hi Hne]. eapply parses_end; [by apply wire_parses|]. cbv beta. rewrite (proj2 (Z.eqb_neq _ _) Hne). apply parses_ret.
  - eapply parses_end; [apply parses_put_i32; ilia|]. apply parses_ret.
Qed.

Definition valid_remote (r : RemoteMissile) : Prop :=
  is_u32 (rm_projectile r) /\ is_i32 (rm_entnum r) /\ vec 3 (rm_angles r) /\ valid_flags 3 (rm_flags r) /\ valid_time (rm_unlink_at_ms r).

#[export] Instance remote_codec : WireCodec put_remote get_remote valid_remote.
Proof. split. intros [] Hv. unfold put_remote, get_remote, valid_remote in *. cbn [rm_projectile rm_entnum rm_angles rm_flags rm_unlink_at_ms] in *. wire_fields. Qed.

Definition some_cause (cause : option FireCause) : Prop := forall c, cause = Some c -> valid_cause c.
#[export] Instance some_cause_codec : WireCodec encode_fire_cause decode_fire_cause some_cause := cause_codec.

Definition valid_brass (b : PendingBrass) : Prop := some_cause (pb_cause b) /\ is_u32 (pb_life b) /\ is_u32 (pb_shot b) /\ is_u32 (pb_weapon b).

#[export] Instance brass_codec : WireCodec put_brass get_brass valid_brass.
Proof. split. intros [] Hv. unfold put_brass, get_brass, valid_brass in *. cbn [pb_cause pb_life pb_shot pb_weapon] in *. wire_fields. Qed.

#[export] Instance brasses_codec : WireCodec put_brasses get_brasses (array_of (option_of valid_brass) 2) := array_codec _ _ _ 2 _.

Definition valid_shield (shield : option ShieldAttachment) : Prop := option_of (fun s => is_u32 (sh_weapon s) /\ sh_weapon s <> 0) shield.

#[export] Instance shield_codec what : WireCodec put_shield (get_shield what) valid_shield.
Proof.
  split. intros [[weapon on_back]|] Hv; unfold put_shield, get_shield, valid_shield in *; cbn [option_of sh_weapon sh_on_back] in *.
  - destruct Hv as [Hu Hne]. wire_step. eapply parses_end; [apply (wire_parses (WireCodec := flag_codec what) on_back I)|]. cbv beta.
    rewrite (proj2 (Z.eqb_neq _ _) Hne). apply parses_ret.
  - eapply parses_bind; [apply parses_put_u32; ilia|]. eapply parses_end; [apply (wire_parses (WireCodec := flag_codec what) false I)|]. apply parses_ret.
Qed.

Definition finite_vec (v : list Z) : Prop := vec 3 v /\ forallb f32_finite v = true.

#[export] Instance shield_vector_codec : WireCodec put_f32s decode_shield_vector finite_vec.
Proof.
  split. intros v [Hv Hf]. unfold decode_shield_vector. eapply parses_end; [by apply wire_parses|]. cbv beta.
  eapply parses_lift; [unfold fail_if; by rewrite Hf|apply parses_ret].
Qed.

Definition valid_bone (b : CollisionBone) : Prop :=
  is_u16 (cb_bone b) /\ 0 <= cb_part b <= 19 /\ finite_vec (cb_center b) /\ array_of finite_vec 3 (cb_axes b) /\ finite_vec (cb_half_size b) /\
  existsb (fun v => f32_ltb v 0) (cb_half_size b) = false.

#[export] Instance bone_codec : WireCodec put_bone get_bone valid_bone.
Proof.
  split. intros [bone part center axes half] (Hb & Hp & Hc & Ha & Hh & Hn). cbn [cb_bone cb_part cb_center cb_axes cb_half_size] in *.
  unfold put_bone, get_bone. cbn [cb_bone cb_part cb_center cb_axes cb_half_size]. assert (is_u8 part) by ilia. do 2 wire_step.
  eapply parses_lift; [unfold fail_if; by rewrite (proj2 (Z.ltb_ge _ _)) by lia|]. wire_step.
  eapply parses_bind; [apply (wire_parses (WireCodec := array_codec _ _ _ 3 shield_vector_codec) axes Ha)|]. cbv beta.
  eapply parses_end; [by apply wire_parses|]. cbv beta. rewrite Hn. eapply parses_lift; [reflexivity|apply parses_ret].
Qed.

(** Bones, if there is a collision at all, and a shield to carry them. *)
Definition valid_collision (shield : option ShieldAttachment) (collision : option ShieldCarrierCollision) : Prop :=
  match collision with
  | Some c => shield <> None /\ finite_vec (co_normal c) /\ 0 < zlen (co_bones c) <= 256 /\ Forall valid_bone (co_bones c)
  | None => True
  end.

Lemma parses_collision shield collision u : valid_collision shield collision -> put_collision collision = Some u -> parses (get_collision shield) u collision.
Proof.
  unfold put_collision, get_collision, valid_collision. destruct collision as [[normal bones]|]; cbn [co_bones co_normal].
  - intros (Hs & Hn & Hl & Hb). unfold put_u16_checked. destruct (Z.leb_spec (zlen bones) u16_max) as [_|Hgt]; [|unfold u16_max in *; lia].
    intros E. cbv [mbind option_bind] in E. apply (inj Some) in E as <-.
    assert (Ebones : (match bones with [] => [] | _ :: _ => put_f32s normal ++ concat (map put_bone bones) end) = put_f32s normal ++ concat (map put_bone bones)).
    { destruct bones; [unfold zlen in Hl; cbn in Hl; lia|done]. }
    rewrite Ebones. eapply parses_bind; [apply parses_put_u16; ilia|]. cbv beta.
    eapply parses_lift; [unfold fail_if; rewrite (proj2 (Z.ltb_ge _ _)) by lia; destruct shield; [by rewrite andb_false_r|done]|].
    rewrite (proj2 (Z.eqb_neq _ _)) by lia. wire_step. eapply parses_end; [|apply parses_ret].
    eapply wire_list; [apply _|unfold zlen; lia|done].
  - intros _ E. apply (inj Some) in E as <-. cbn [app]. rewrite app_nil_r. eapply parses_end; [apply (parses_put_u16 0); ilia|].
    eapply parses_lift; [reflexivity|]. apply parses_ret.
Qed.

#[export] Instance hud_elem_codec : WireCodec encode_hud_elem decode_hud_elem (valid_fields HUD_ELEM) := fields_codec HUD_ELEM.

Definition valid_bank (bank : list HudElem) : Prop := rows_of (valid_fields HUD_ELEM) HUDELEM_BANK_CAPACITY bank.

#[export] Instance hud_bank_codec : WireCodec encode_hud_bank decode_hud_bank valid_bank.
Proof.
  split. intros bank [Hn Hv]. unfold encode_hud_bank, decode_hud_bank, HUDELEM_BANK_CAPACITY in *. pose proof (zlen_nonneg bank).
  rewrite Z.min_l by done. assert (wrap8 (zlen bank) = zlen bank) as -> by ilia. rewrite take_ge by (unfold zlen; lia).
  eapply parses_bind; [apply parses_put_u8; ilia|]. cbv beta. eapply parses_lift; [unfold fail_if; by rewrite (proj2 (Z.ltb_ge _ _)) by lia|].
  eapply wire_list; [apply _|unfold zlen; lia|done].
Qed.

Definition valid_vision (v : VisionChange) : Prop := text_ok (vc_name v) /\ is_i32 (vc_duration_ms v) /\ is_i32 (vc_set_ms v).

#[export] Instance vision_codec : WireCodec put_vision get_vision valid_vision.
Proof. split. intros [] Hv. unfold put_vision, get_vision, valid_vision in *. cbn [vc_name vc_duration_ms vc_set_ms] in *. wire_fields. Qed.
#[export] Instance visions_codec : WireCodec encode_vision decode_vision (option_of valid_vision) := option_codec _ _ _ _.

#[export] Instance view_fields_codec : WireCodec put_view get_view (fun v =>
  option_of valid_vision (ve_naked_vision v) /\ option_of valid_vision (ve_thermal_vision v) /\ option_of valid_vision (ve_missile_vision v) /\
  option_of valid_vision (ve_night_vision v) /\ option_of valid_vision (ve_pain_vision v) /\ valid_fields SCRIPT_DEPTH_OF_FIELD (ve_depth_of_field v) /\
  option_of (valid_fields SCRIPT_BLUR) (ve_blur v)).
Proof.
  split. intros [] Hv. unfold put_view, get_view.
  cbn [ve_naked_vision ve_thermal_vision ve_missile_vision ve_night_vision ve_pain_vision ve_depth_of_field ve_blur] in *. wire_fields.
Qed.

(** Names in the order of the map, in lower case, gains between 0 and 1. *)
Definition valid_volumes (volumes : ChannelVolumes) : Prop :=
  zlen volumes <= 64 /\ Forall (fun c => channel_valid c = true /\ utf8_valid c.1 = true /\ is_u32 c.2) volumes /\ StronglySorted name_before volumes.

Lemma sorted_before {A} (R : A -> A -> Prop) before x rest : StronglySorted R (before ++ x :: rest) -> Forall (fun c => R c x) before.
Proof.
  induction before as [|b before IH]; intros Hs; [constructor|]. cbn [app] in Hs. apply StronglySorted_cons in Hs as [Hb Hs].
  constructor; [|by apply IH]. rewrite list.Forall_forall in Hb. apply Hb, elem_of_app. right. by left.
Qed.

Lemma parses_shock_volumes rest : forall before,
  Forall (fun c => channel_valid c = true /\ utf8_valid c.1 = true /\ is_u32 c.2) rest -> StronglySorted name_before (before ++ rest) ->
  parses (get_shock_volumes (length rest) before) (concat (map put_volume rest)) (before ++ rest).
Proof.
  induction rest as [|[name gain] rest IH]; intros before Hv Hsort; [rewrite app_nil_r; apply parses_ret|].
  apply list.Forall_cons in Hv as [(Hc & Hs & Hg) Hv]. cbn [fst snd length map concat get_shock_volumes] in *.
  unfold put_volume at 1. cbn [fst snd]. rewrite <- app_assoc.
  assert (Ht : text_ok name).
  { split; [done|]. unfold channel_valid in Hc. rewrite !andb_true_iff, Z.leb_le in Hc. cbn [fst snd] in Hc. destruct Hc as [[[[_ Hc] _] _] _]. unfold u16_max. lia. }
  do 2 wire_step. rewrite Hc, insert_last by by apply sorted_before in Hsort.
  change ((name, gain) :: rest) with ([(name, gain)] ++ rest) in *. rewrite app_assoc in *. by apply IH.
Qed.

#[export] Instance volumes_codec : WireCodec (put_option (put_list8 put_volume)) (decode_channel_volumes 3) (option_of valid_volumes).
Proof.
  split. intros [volumes|] Hv; unfold decode_channel_volumes; cbn [put_option option_of Z.ltb Z.compare Pos.compare Pos.compare_cont] in *.
  - destruct Hv as (Hn & Hc & Hs). pose proof (zlen_nonneg volumes). eapply parses_bind; [apply parses_put_u8; ilia|]. cbv beta. cbn [Z.eqb Pos.eqb].
    unfold put_list8. assert (wrap8 (zlen volumes) = zlen volumes) as -> by ilia. eapply parses_bind; [apply parses_put_u8; ilia|]. cbv beta.
    eapply parses_lift; [unfold fail_if; by rewrite (proj2 (Z.ltb_ge _ _)) by lia|].
    eapply parses_end; [|apply parses_ret]. replace (Z.to_nat (zlen volumes)) with (length volumes) by (unfold zlen; lia).
    by apply (parses_shock_volumes volumes []).
  - eapply parses_end; [apply parses_put_u8; ilia|]. apply parses_ret.
Qed.

Definition valid_shock (s : ShockParams) : Prop :=
  (is_i32 (sk_screen_type s) /\ is_i32 (sk_white_fade_ms s) /\ is_i32 (sk_shot_fade_ms s) /\ 0 <= sk_blur_blend_ms s <= i32_max /\ 0 <= sk_blur_fade_ms s <= i32_max) /\
  (is_i32 (sl_fade_ms (sk_look s)) /\ is_u32 (sl_mouse_sensitivity (sk_look s)) /\ is_u32 (sl_max_pitch_speed (sk_look s)) /\ is_u32 (sl_max_yaw_speed (sk_look s))) /\
  (text_ok (ss_loop_alias (sk_sound s)) /\ text_ok (ss_end_alias (sk_sound s)) /\ text_ok (ss_abort_alias (sk_sound s)) /\
   option_of valid_volumes (ss_channel_volumes (sk_sound s))).

#[export] Instance shock_codec : WireCodec encode_shock decode_shock (option_of valid_shock).
Proof.
  split. intros [[screen blend fade white shot [affect lfade mouse pitch yaw] [saffect volumes loop finish abort] movement]|] Hv;
    unfold decode_shock; cbn [encode_shock option_of] in *.
  - unfold valid_shock, put_shock in *.
    cbn [sk_screen_type sk_blur_blend_ms sk_blur_fade_ms sk_white_fade_ms sk_shot_fade_ms sk_look sk_sound sk_movement sl_affect sl_fade_ms
      sl_mouse_sensitivity sl_max_pitch_speed sl_max_yaw_speed ss_affect ss_channel_volumes ss_loop_alias ss_end_alias ss_abort_alias] in *.
    split_fields. assert (is_i32 blend) by ilia. assert (is_i32 fade) by ilia. eapply parses_bind; [apply parses_put_u8; ilia|]. cbv beta. cbn [Z.eqb Pos.eqb].
    eapply parses_lift; [reflexivity|]. do 15 wire_step.
    eapply parses_lift; [unfold fail_if; by rewrite !(proj2 (Z.ltb_ge _ _)) by lia|]. wire_last.
  - eapply parses_end; [apply parses_put_u8; ilia|]. apply parses_ret.
Qed.

Definition valid_menu_command (c : MenuCommand) : Prop := is_u32 (mc_serial c) /\ match mc_kind c with MenuOpen menu => text_ok menu | _ => True end.

#[export] Instance menu_command_codec : WireCodec put_menu_command get_menu_command valid_menu_command.
Proof.
  split. intros [serial kind] [Hs Hk]. unfold put_menu_command, get_menu_command. cbn [mc_serial mc_kind] in *. wire_step.
  destruct kind as [menu| |].
  - eapply parses_bind; [apply parses_put_u8; ilia|]. cbv beta. cbn [Z.eqb Pos.eqb]. eapply (parses_end _ _ _ (MenuOpen menu)); [wire_last|]. apply parses_ret.
  - eapply parses_end; [apply parses_put_u8; ilia|]. apply (parses_end (mret MenuClosePopup) _ [] MenuClosePopup); apply parses_ret.
  - eapply parses_end; [apply parses_put_u8; ilia|]. apply (parses_end (mret MenuCloseInGame) _ [] MenuCloseInGame); apply parses_ret.
Qed.

#[export] Instance location_codec : WireCodec put_location get_location (fun l => text_ok (ls_material l) /\ is_u32 (ls_radius l)).
Proof. split. intros [] Hv. unfold put_location, get_location. cbn [ls_material ls_choose_direction ls_radius] in *. wire_fields. Qed.

Definition valid_lock (l : WeaponLock) : Prop :=
  is_u32 (wl_weapon l) /\ is_u32 (wl_life l) /\ is_u8 (wl_flags l) /\ vec 3 (wl_target l) /\ option_of valid_target (wl_aim l) /\ is_i32 (wl_acquire_started_at l).

#[export] Instance lock_codec : WireCodec put_lock get_lock valid_lock.
Proof.
  split. intros [] Hv. unfold put_lock, get_lock, valid_lock in *. cbn [wl_weapon wl_life wl_flags wl_target wl_aim wl_acquire_started_at] in *. wire_fields.
Qed.

Definition valid_view (v : ViewEffects) : Prop :=
  option_of valid_vision (ve_naked_vision v) /\ option_of valid_vision (ve_thermal_vision v) /\ option_of valid_vision (ve_missile_vision v) /\
  option_of valid_vision (ve_night_vision v) /\ option_of valid_vision (ve_pain_vision v) /\ valid_fields SCRIPT_DEPTH_OF_FIELD (ve_depth_of_field v) /\
  option_of (valid_fields SCRIPT_BLUR) (ve_blur v).
#[export] Instance view_codec : WireCodec put_view get_view valid_view := view_fields_codec.

Record valid_client_meta (m : ClientSnapshotMeta) : Prop := {
  vm_counts : (is_u32 (cm_life_sequence m) /\ is_i32 (cm_item_use_spawn_ms m) /\ is_i32 (cm_item_use_press_ms m) /\ is_i32 (cm_ammo_clip m) /\
    is_i32 (cm_ammo_stock m) /\ is_i32 (cm_score m) /\ is_i32 (cm_kills m) /\ is_i32 (cm_deaths m) /\ is_i32 (cm_kill_streak m)) /\
    is_u32 (sc_switch_to (cm_controls m)) /\ option_of valid_entity (cm_item_use_entity m);
  vm_weapons : option_of valid_remote (cm_remote_missile m) /\ option_of (valid_fields LINKED_WEAPON_VIEW) (cm_linked_weapon_view m) /\
    option_of (valid_fields LOADOUT_SPEC) (cm_loadout m) /\ rows_of (valid_fields AMMO_ROW) u16_max (cm_ammo_by_weapon m) /\
    rows_of is_u32 u8_max (cm_taped_mag_spent m) /\ is_u8 (cm_weapon_shot_count m) /\ valid_flags 2 (cm_burst_latch m) /\
    valid_flags 2 (cm_rechamber_pending m) /\ array_of (option_of valid_brass) 2 (cm_pending_brass m) /\ option_of is_u32 (cm_dead_since_tick m);
  vm_shield : valid_shield (cm_shield m) /\ valid_collision (cm_shield m) (cm_shield_collision m);
  vm_view : is_i32 (cm_look_at_killer_yaw m) /\ zlen (cm_name m) = 16 /\ valid_bank (cm_hud_archival m) /\ valid_bank (cm_hud_current m) /\
    option_of is_u8 (cm_ffa_team m) /\ is_i32 (cm_client_state_team m) /\ is_i32 (cm_rank m) /\ is_i32 (cm_prestige m) /\
    is_u32 (cm_player_card_icon m) /\ is_u32 (cm_player_card_title m) /\ is_u32 (cm_player_card_nameplate m);
  vm_effects : rows_of texts_ok u16_max (cm_client_dvars m) /\ option_of valid_shock (cm_shellshock m) /\ valid_view (cm_view_effects m) /\
    rows_of valid_menu_command u8_max (cm_menu_commands m) /\
    option_of (fun l => text_ok (ls_material l) /\ is_u32 (ls_radius l)) (cm_location_selection m) /\ valid_lock (cm_weapon_lock m);
}.

#[export] Instance client_meta_codec : PartialCodec encode_client_meta decode_client_meta valid_client_meta.
Proof.
  split. intros m u [Hcounts Hweapons Hshield Hview Heffects] Hu. unfold encode_client_meta in Hu.
  destruct (put_collision _) as [collision|] eqn:Ec; [|done]. cbv [mbind option_bind] in Hu. apply (inj Some) in Hu as <-.
  destruct m; unfold put_client_combat, put_client_view, decode_client_meta.
  cbn [cm_controls cm_killcam_hud cm_lifecycle cm_life_sequence cm_item_use_spawn_ms cm_item_use_entity cm_item_use_press_ms cm_ammo_clip cm_ammo_stock
    cm_score cm_kills cm_deaths cm_kill_streak cm_radar cm_radar_blocked cm_remote_missile cm_linked_weapon_view cm_loadout cm_ammo_by_weapon
    cm_taped_mag_spent cm_weapon_shot_count cm_burst_latch cm_rechamber_pending cm_pending_brass cm_god_mode cm_dead_since_tick cm_shield
    cm_shield_collision cm_look_at_killer_yaw cm_name cm_hud_archival cm_hud_current cm_ffa_team cm_client_state_team cm_rank cm_prestige
    cm_player_card_icon cm_player_card_title cm_player_card_nameplate cm_client_dvars cm_shellshock cm_view_effects cm_menu_commands
    cm_location_selection cm_weapon_lock] in *.
  split_fields. rewrite <- !app_assoc. do 27 wire_step.
  eapply parses_bind; [by eapply parses_collision|]. cbv beta. wire_step.
  eapply parses_bind; [by apply parses_get_bytes|]. cbv beta. do 14 wire_step. wire_last.
Qed.
