(* ===== verification/MetaEntities.v ===== *)
(** * The tables of the meta

    crates/net/src/transport/meta_wire.rs, the sections of the meta about the world: events, names, models,
    corpses, entities, movers, the kernel of entities, items and the sectors of the map, with the types of
    crates/sim/src/match_state/events.rs, corpse.rs, gentity.rs, snapshot.rs and of crates/xmodel_runtime,
    entity_iw4 and clipmap_iw4/src/area_entities.rs, whose checks the decoder makes. *)

From S2P Require ConfigStrings.
From S2P Require Export MetaClient.

#[local] Open Scope Z_scope.

(** ** Events *)

Definition put_event_audience (a : EventAudience) : list byte :=
  match a with
  | AudienceAll => put_u8 0
  | AudienceAllExcept id => put_u8 3 ++ put_u32 id
  | AudienceClient id => put_u8 1 ++ put_u32 id
  | AudienceClients ids => put_u8 2 ++ put_list8 put_u32 ids
  end.
Definition get_event_audience : WParser EventAudience :=
  tag ← get_u8;
  if tag =? 0 then mret AudienceAll
  else if tag =? 3 then id ← get_u32; mret (AudienceAllExcept id)
  else if tag =? 1 then id ← get_u32; mret (AudienceClient id)
  else if tag =? 2 then ids ← get_list8 get_u32; mret (AudienceClients ids)
  else lift (Err (malformed "unknown EventAudience tag")).

Record WireEventRecord : Type := mkEventRecord { ev_sequence : Z; ev_tick : Z; ev_audience : EventAudience; ev_event : SimEvent }.

Definition encode_event_record (r : WireEventRecord) : list byte :=
  put_u32 (ev_sequence r) ++ put_u32 (ev_tick r) ++ put_event_audience (ev_audience r) ++ encode_event (ev_event r).
Definition decode_event_record : WParser WireEventRecord :=
  sequence ← get_u32; tick ← get_u32; audience ← get_event_audience; event ← decode_event; mret (mkEventRecord sequence tick audience event).

(** A payload before and behind the cause of a shot. *)
Definition ENTITY_EVENT_HEAD : Schema :=
  i32s ["number"; "other_entity_num"; "attacker_entity_num"; "event_parm"]%string ++ u32s ["weapon"; "correlation"]%string.
Definition ENTITY_EVENT_TAIL : Schema :=
  one NumU16 "pellet" ++ one NumU16 "segment" ++ one NumU8 "hand" ++ arr NumF32 3 "origin" ++ arr NumF32 3 "origin2" ++ arr NumF32 3 "direction" ++
  one NumU8 "surf_type" ++ u32s ["surface_flags"]%string ++ one NumU8 "simulation_flags".

Record EntityEventRecord : Type := mkEntityEvent {
  ee_sequence : Z; ee_tick : Z; ee_audience : EventAudience; ee_event : Z; ee_head : Fields; ee_fire_cause : option FireCause; ee_tail : Fields }.

Definition ENTITY_EVENT_NONE : Z := 0.
Definition ENTITY_EVENT_STOP_RUMBLE : Z := 0xb5.

Definition encode_entity_event_record (r : EntityEventRecord) : list byte :=
  put_u32 (ee_sequence r) ++ put_u32 (ee_tick r) ++ put_event_audience (ee_audience r) ++ put_i32 (ee_event r) ++
  put_fields ENTITY_EVENT_HEAD (ee_head r) ++ encode_fire_cause (ee_fire_cause r) ++ put_fields ENTITY_EVENT_TAIL (ee_tail r).
Definition decode_entity_event_record : WParser EntityEventRecord :=
  sequence ← get_u32; tick ← get_u32; audience ← get_event_audience; event ← get_i32;
  _ ← lift (fail_if ((event =? ENTITY_EVENT_NONE) || (ENTITY_EVENT_STOP_RUMBLE <? event) || (event <? 0)) (malformed "entity event outside the event table"));
  head ← get_fields ENTITY_EVENT_HEAD; cause ← decode_fire_cause; tail ← get_fields ENTITY_EVENT_TAIL;
  mret (mkEntityEvent sequence tick audience event head cause tail).

Definition PELLET_HEAD : Schema := i32s ["attacker"]%string ++ u32s ["weapon"; "correlation"]%string.
Definition PELLET_TAIL : Schema :=
  one NumU16 "pellet" ++ one NumU16 "segment" ++ one NumU8 "hand" ++ arr NumF32 3 "start" ++ arr NumF32 3 "end" ++ arr NumF32 3 "normal" ++
  one NumU8 "surf_type" ++ u32s ["surface_flags"]%string ++ one NumU8 "flesh_flags".

Record PelletFxRecord : Type := mkPellet { pf_head : Fields; pf_fire_cause : option FireCause; pf_tail : Fields }.

Definition encode_pellet_fx_record (r : PelletFxRecord) : list byte :=
  put_fields PELLET_HEAD (pf_head r) ++ encode_fire_cause (pf_fire_cause r) ++ put_fields PELLET_TAIL (pf_tail r).
Definition decode_pellet_fx_record : WParser PelletFxRecord :=
  head ← get_fields PELLET_HEAD; cause ← decode_fire_cause; tail ← get_fields PELLET_TAIL; mret (mkPellet head cause tail).

(** ** Names *)

Definition put_alias (row : Z * list byte) : list byte := put_u8 row.1 ++ put_u8 (wrap8 (zlen row.2)) ++ put_bytes row.2.
Definition get_alias : WParser (Z * list byte) :=
  index ← get_u8; len ← get_u8; bytes ← get_bytes len; name ← lift (from_utf8 "sound alias CS name is not utf-8" bytes); mret (index, name).
Definition encode_sound_alias_cs (occupied : list (Z * list byte)) : list byte := put_list8 put_alias occupied.
Definition decode_sound_alias_cs : WParser (list (Z * list byte)) := get_list8 get_alias.

Definition put_hud_string (row : Z * list byte) : list byte := put_u16 row.1 ++ put_u16 (wrap16 (zlen row.2)) ++ put_bytes row.2.
Definition get_hud_string : WParser (Z * list byte) :=
  index ← get_u16; len ← get_u16; bytes ← get_bytes len; text ← lift (from_utf8 "hud string is not utf-8" bytes); mret (index, text).
Definition encode_hud_strings (occupied : list (Z * list byte)) : list byte := put_list16 put_hud_string occupied.
Definition decode_hud_strings : WParser (list (Z * list byte)) :=
  count ← get_u16; _ ← lift (fail_if (ConfigStrings.CS_LOCALIZED_STRINGS_SLOTS <=? count) (malformed "hud string count exceeds its configstrings"));
  parse_list (Z.to_nat count) get_hud_string.

Definition RNG_DEBUG_META : Schema :=
  one NumU64 "root_seed" ++ u32s ["scheme"]%string ++ one NumU64 "spawn_draws" ++ one NumU64 "combat_draws" ++ one NumU64 "bot_draws".

(** ** Models *)

Definition PART_WORDS : nat := 6.
Definition PART_CAPACITY : Z := 192.

Record DObjModelDescriptor : Type := mkModel { dm_model : list byte; dm_parent_model : option Z; dm_attach_tag : option (list byte); dm_ignore_collision : bool }.
Record TagRotation : Type := mkRotation { tr_tag : list byte; tr_angles : list Z }.

Inductive XAnimSemanticNodeKind : Type := NodeBlend | NodeAdditive | NodeLeaf.
Record XAnimSemanticNode : Type := mkNode {
  xn_parent : option Z; xn_kind : XAnimSemanticNodeKind; xn_clip : option (list byte); xn_parts : option (list Z);
  xn_times : list Z (* time, old_time *); xn_cycle_count : Z; xn_old_cycle_count : Z; xn_goals : list Z (* goal_time, goal_weight, weight, rate *) }.
Record XAnimTreeSnapshot : Type := mkTree { xt_definition_revision : Z; xt_state_revision : Z; xt_nodes : list XAnimSemanticNode }.

Record DObjSemanticState : Type := mkDObj {
  do_revision : Z; do_models : list DObjModelDescriptor; do_pose_revision : Z; do_tag_rotations : list TagRotation;
  do_requested_parts : option (list Z); do_hide_part_bits : list Z; do_tree : option XAnimTreeSnapshot }.

(** The largest index stands for none. *)
Definition put_parent (parent : option Z) : list byte := put_u16 (default u16_max parent).
Definition get_parent : WParser (option Z) := parent ← get_u16; mret (if parent =? u16_max then None else Some parent).

Definition put_model (m : DObjModelDescriptor) : list byte :=
  put_text (dm_model m) ++ put_parent (dm_parent_model m) ++ put_optional_text (dm_attach_tag m) ++ put_bool (dm_ignore_collision m).
Definition get_model : WParser DObjModelDescriptor :=
  model ← get_text; parent ← get_parent; tag ← get_optional_text; ignore ← get_bool; mret (mkModel model parent tag ignore).

Definition put_rotation (r : TagRotation) : list byte := put_text (tr_tag r) ++ put_f32s (tr_angles r).
Definition get_rotation : WParser TagRotation :=
  tag ← get_text; angles ← get_vec 3;
  _ ← lift (fail_if ((zlen tag =? 0) || negb (forallb f32_finite angles)) (malformed "invalid tag rotation")); mret (mkRotation tag angles).

Definition put_optional_part_bits (bits : option (list Z)) : list byte := put_option put_u32s bits.
Definition get_optional_part_bits : WParser (option (list Z)) := get_option (parse_list PART_WORDS get_u32) "unknown optional part-bits tag".

Definition node_kind_tag (kind : XAnimSemanticNodeKind) : Z := match kind with NodeBlend => 0 | NodeAdditive => 1 | NodeLeaf => 2 end.
Definition node_kind_from_tag (tag : Z) : Result WireError XAnimSemanticNodeKind :=
  if tag =? 0 then Ok NodeBlend else if tag =? 1 then Ok NodeAdditive else if tag =? 2 then Ok NodeLeaf else Err (malformed "unknown XAnim node tag").

(** [i16::try_from]. *)
Definition get_i16 (what : String.string) : WParser Z :=
  v ← get_i32; _ ← lift (fail_if (negb ((-32768 <=? v) && (v <=? 32767))) (malformed what)); mret v.
Arguments get_i16 what%_string_scope.

Definition put_node (n : XAnimSemanticNode) : list byte :=
  put_parent (xn_parent n) ++ put_u8 (node_kind_tag (xn_kind n)) ++ put_optional_text (xn_clip n) ++ put_optional_part_bits (xn_parts n) ++
  put_f32s (xn_times n) ++ put_i32 (xn_cycle_count n) ++ put_i32 (xn_old_cycle_count n) ++ put_f32s (xn_goals n).
Definition get_node : WParser XAnimSemanticNode :=
  parent ← get_parent; tag ← get_u8; kind ← lift (node_kind_from_tag tag); clip ← get_optional_text; parts ← get_optional_part_bits;
  times ← get_vec 2; cycle ← get_i16 "XAnim cycle count overflow"; old_cycle ← get_i16 "XAnim old cycle count overflow"; goals ← get_vec 4;
  mret (mkNode parent kind clip parts times cycle old_cycle goals).

Definition put_tree (t : XAnimTreeSnapshot) : list byte :=
  put_u32 (xt_definition_revision t) ++ put_u32 (xt_state_revision t) ++ put_list16 put_node (xt_nodes t).
Definition get_tree : WParser XAnimTreeSnapshot :=
  definition ← get_u32; state ← get_u32; nodes ← get_list16 get_node; mret (mkTree definition state nodes).

(** The owner, a script model, behind its tag. *)
Definition put_dobj (row : Z * DObjSemanticState) : list byte :=
  let state := row.2 in
  put_u8 0 ++ put_u32 row.1 ++ put_u32 (do_revision state) ++ put_list16 put_model (do_models state) ++ put_u32 (do_pose_revision state) ++
  put_list16 put_rotation (do_tag_rotations state) ++ put_optional_part_bits (do_requested_parts state) ++ put_u32s (do_hide_part_bits state) ++
  put_option put_tree (do_tree state).
Definition get_rotations : WParser (list TagRotation) :=
  count ← get_u16; _ ← lift (fail_if (PART_CAPACITY <? count) (malformed "too many tag rotations")); parse_list (Z.to_nat count) get_rotation.
Definition get_dobj : WParser (Z * DObjSemanticState) :=
  tag ← get_u8; _ ← lift (fail_if (negb (tag =? 0)) (malformed "unknown DObj owner tag")); id ← get_u32;
  revision ← get_u32; models ← get_list16 get_model; pose ← get_u32; rotations ← get_rotations; parts ← get_optional_part_bits;
  hide ← parse_list PART_WORDS get_u32; tree ← get_option get_tree "unknown optional XAnim tree tag";
  mret (id, mkDObj revision models pose rotations parts hide tree).
Definition encode_entity_dobjs (rows : list (Z * DObjSemanticState)) : list byte := put_list16 put_dobj rows.
Definition decode_entity_dobjs : WParser (list (Z * DObjSemanticState)) := get_list16 get_dobj.

(** ** Corpses *)

Definition MAX_CLIENT_CORPSES : Z := 8.
Definition PLAYER_CORPSE_ENTITY_BASE : Z := 18.

Record PlayerCorpseSlot : Type := mkCorpse {
  pc_occupied : bool;
  pc_spawn_sequence : Z;
  pc_weapon_model : Z;
  pc_client_state_team : Z;
  pc_ffa_team : option Z;
  pc_victim : Z;
  pc_origin : list Z;
  pc_viewangles : list Z;
  pc_legs_anim : Z;
  pc_torso_anim : Z;
  pc_view_height_current : Z;
  pc_weapon : Z;
  pc_e_flags : Z;
  pc_entnum : Z;
  pc_tr_type : Z;
  pc_tr_time : Z;
  pc_tr_duration : Z;
  pc_tr_delta : list Z;
  pc_tr_base : list Z;
  pc_falling : bool;
  pc_ground_entity_num : Z;
  pc_spawn_time_ms : Z;
  pc_shield : option ShieldAttachment;
}.

Definition corpse_default : PlayerCorpseSlot :=
  mkCorpse false 0 0 0 None 0 [0; 0; 0] [0; 0; 0] 0 0 0 0 0 (-1) 0 0 0 [0; 0; 0] [0; 0; 0] false ENTITYNUM_NONE 0 None.

Record PlayerCorpsePool : Type := mkCorpses { cp_slots : list PlayerCorpseSlot; cp_spawn_ring : Z; cp_next_spawn_sequence : Z }.

(** The largest team stands for none. *)
Definition put_ffa_team (team : option Z) : list byte := put_u8 (default u8_max team).
Definition get_ffa_team : WParser (option Z) := team ← get_u8; mret (if team =? u8_max then None else Some team).

Definition put_corpse_slot (s : PlayerCorpseSlot) : list byte :=
  if pc_occupied s then
    put_u8 1 ++ put_u64 (pc_spawn_sequence s) ++ put_u8 (pc_weapon_model s) ++ put_i32 (pc_client_state_team s) ++ put_ffa_team (pc_ffa_team s) ++
    put_u32 (pc_victim s) ++ put_f32s (pc_origin s) ++ put_f32s (pc_viewangles s) ++ put_i32 (pc_legs_anim s) ++ put_i32 (pc_torso_anim s) ++
    put_f32 (pc_view_height_current s) ++ put_u32 (pc_weapon s) ++ put_u32 (pc_e_flags s) ++ put_i32 (pc_entnum s) ++ put_i32 (pc_tr_type s) ++
    put_i32 (pc_tr_time s) ++ put_i32 (pc_tr_duration s) ++ put_f32s (pc_tr_delta s) ++ put_f32s (pc_tr_base s) ++ put_bool (pc_falling s) ++
    put_i32 (pc_ground_entity_num s) ++ put_i32 (pc_spawn_time_ms s) ++ put_shield (pc_shield s)
  else put_u8 0.

Definition get_corpse_body : WParser PlayerCorpseSlot :=
  sequence ← get_u64; model ← get_u8; team ← get_i32; ffa ← get_ffa_team; victim ← get_u32; origin ← get_vec 3; viewangles ← get_vec 3;
  legs ← get_i32; torso ← get_i32; height ← get_f32; weapon ← get_u32; flags ← get_u32; entnum ← get_i32; type ← get_i32; time ← get_i32;
  duration ← get_i32; delta ← get_vec 3; base ← get_vec 3; falling ← get_bool; ground ← get_i32; spawn ← get_i32;
  shield ← get_shield "bad corpse shield tag";
  mret (mkCorpse true sequence model team ffa victim origin viewangles legs torso height weapon flags entnum type time duration delta base falling
          ground spawn shield).
Definition get_corpse_slot (next_spawn_sequence : Z) : WParser PlayerCorpseSlot :=
  tag ← get_u8;
  if tag =? 0 then mret corpse_default
  else if tag =? 1 then
    slot ← get_corpse_body;
    _ ← lift (fail_if ((pc_spawn_sequence slot =? 0) || (next_spawn_sequence <? pc_spawn_sequence slot)) (malformed "invalid corpse spawn sequence"));
    mret slot
  else lift (Err (malformed "bad corpse slot tag")).

(** The loop over the occupied slots, with the identities and the entities it has seen. *)
Fixpoint corpses_valid (identities entities : list Z) (slots : list PlayerCorpseSlot) : bool :=
  match slots with
  | [] => true
  | s :: slots =>
      if negb (pc_occupied s) then corpses_valid identities entities slots
      else negb (bool_decide (pc_spawn_sequence s ∈ identities)) && negb (bool_decide (pc_entnum s ∈ entities)) &&
        (PLAYER_CORPSE_ENTITY_BASE <=? pc_entnum s) && (pc_entnum s <? PLAYER_CORPSE_ENTITY_BASE + MAX_CLIENT_CORPSES) &&
        forallb f32_finite (pc_origin s ++ pc_viewangles s ++ pc_tr_base s ++ pc_tr_delta s) &&
        corpses_valid (pc_spawn_sequence s :: identities) (pc_entnum s :: entities) slots
  end.

Definition encode_corpse_pool (pool : PlayerCorpsePool) : list byte :=
  put_u8 (cp_spawn_ring pool) ++ put_u64 (cp_next_spawn_sequence pool) ++ concat (map put_corpse_slot (cp_slots pool)).
Definition decode_corpse_pool : WParser PlayerCorpsePool :=
  ring ← get_u8; next ← get_u64; _ ← lift (fail_if (MAX_CLIENT_CORPSES <=? ring) (malformed "corpse ring outside slots"));
  slots ← parse_list 8 (get_corpse_slot next);
  _ ← lift (fail_if (negb (corpses_valid [] [] slots)) (malformed "invalid corpse occupancy"));
  mret (mkCorpses slots ring next).

(** ** Entities *)

(** [EntityState]: all of its fields. *)
Definition ENTITY_STATE : Schema :=
  i32s ["number"; "e_type"; "time2"]%string ++ u32s ["e_flags"]%string ++ i32s ["tr_time"; "tr_type"; "tr_duration"]%string ++
  arr NumF32 3 "tr_delta" ++ arr NumF32 3 "tr_base" ++ i32s ["apos_tr_time"; "apos_tr_type"; "apos_tr_duration"]%string ++
  arr NumF32 3 "apos_tr_delta" ++ arr NumF32 3 "apos_tr_base" ++ f32s ["cull_dist"]%string ++ i32s ["period"]%string ++
  u32s ["anonymous_data_2"; "waist_pitch"; "torso_pitch"]%string ++
  i32s ["other_entity_num"; "attacker_entity_num"; "ground_entity_num"; "event_parm"]%string ++ u32s ["solid"]%string ++
  i32s ["index"; "event_sequence"]%string ++ arr NumI32 4 "events" ++ arr NumI32 4 "event_parms" ++ i32s ["client_num"]%string ++ u32s ["wes"]%string ++
  i32s ["torso_anim"; "legs_anim"]%string ++ one NumU8 "weapon_model" ++
  u32s ["client_link_info"; "part_bits_0"; "part_bits_1"; "part_bits_2"; "part_bits_3"; "part_bits_4"; "part_bits_5"; "client_mask_0"]%string.

(** The fields that are sent, in the order they are sent; the launch time is the bits of [cull_dist]. *)
Definition ENTITY_WIRE : Schema :=
  i32s ["number"; "e_type"]%string ++ u32s ["e_flags"]%string ++ i32s ["tr_time"; "tr_type"; "tr_duration"]%string ++
  arr NumF32 3 "tr_delta" ++ arr NumF32 3 "tr_base" ++ i32s ["apos_tr_time"; "apos_tr_type"; "apos_tr_duration"]%string ++
  arr NumF32 3 "apos_tr_delta" ++ arr NumF32 3 "apos_tr_base" ++ i32s ["index"]%string ++ f32s ["cull_dist"]%string ++
  i32s ["client_num"; "legs_anim"; "torso_anim"; "ground_entity_num"; "event_sequence"]%string ++ arr NumI32 4 "events" ++ arr NumI32 4 "event_parms".

Definition EntityState : Type := Fields.

Definition fld_or (schema : Schema) (fields : Fields) (f : Field) : list Z :=
  if bool_decide (f.1.1 ∈ map (fun f : Field => f.1.1) schema) then fld schema f.1.1 fields else replicate f.2 0.

(** What is sent of a state, and the state that is made of it: the other fields are zero. *)
Definition entity_wire (es : EntityState) : Fields := map (fun f : Field => fld ENTITY_STATE f.1.1 es) ENTITY_WIRE.
Definition entity_of_wire (v : Fields) : EntityState := map (fld_or ENTITY_WIRE v) ENTITY_STATE.

Definition encode_entity_state (es : EntityState) : list byte := put_fields ENTITY_WIRE (entity_wire es).
Definition decode_entity_state : WParser EntityState := v ← get_fields ENTITY_WIRE; mret (entity_of_wire v).
Definition encode_entity_states (rows : list EntityState) : list byte := put_list16 encode_entity_state rows.
Definition decode_entity_states : WParser (list EntityState) := get_list16 decode_entity_state.

Inductive KillCamMode : Type :=
| Mode0 | Mode1Heli | Mode2Airstrike | Mode3Missile | Mode4MissileAlt | Mode5Rocket | Mode6Turret | Mode7Javelin | Mode8Remote.
Definition killcam_mode_u8 (mode : KillCamMode) : Z :=
  match mode with
  | Mode0 => 0 | Mode1Heli => 1 | Mode2Airstrike => 2 | Mode3Missile => 3 | Mode4MissileAlt => 4 | Mode5Rocket => 5 | Mode6Turret => 6
  | Mode7Javelin => 7 | Mode8Remote => 8
  end.

Record ScriptMoverGentity : Type := mkMover {
  sm_id : Z; sm_killcam_camera : option KillCamMode; sm_state : EntityState; sm_box_mid : list Z; sm_box_half : list Z; sm_link_mid : list Z;
  sm_link_half : list Z; sm_nonsolid : bool; sm_shown_to : Z }.

(** Which mask a mover is shown to and its boxes stay on the host. *)
Definition put_mover (m : ScriptMoverGentity) : list byte :=
  put_u32 (sm_id m) ++ put_bool (sm_nonsolid m) ++ put_u8 (match sm_killcam_camera m with Some mode => killcam_mode_u8 mode | None => 0 end) ++
  encode_entity_state (sm_state m).
Definition get_mover : WParser ScriptMoverGentity :=
  id ← get_u32; nonsolid ← get_bool; tag ← get_u8;
  camera ← lift (if tag =? 0 then Ok None else if tag =? 1 then Ok (Some Mode1Heli) else if tag =? 6 then Ok (Some Mode6Turret)
                 else Err (malformed "script mover camera"));
  state ← decode_entity_state; mret (mkMover id camera state [0; 0; 0] [0; 0; 0] [0; 0; 0] [0; 0; 0] nonsolid 0).
Definition encode_script_movers (movers : list ScriptMoverGentity) : list byte := put_list16 put_mover movers.
Definition decode_script_movers : WParser (list ScriptMoverGentity) := get_list16 get_mover.

(** ** The kernel *)

Inductive EntityRunKind : Type := RunScriptMover | RunItem | RunMissile | RunTempEvent | RunPrimaryLight | RunGeneral | RunPlayerCorpse.
Definition entity_run_kind_tag (kind : EntityRunKind) : Z :=
  match kind with
  | RunScriptMover => 0 | RunItem => 1 | RunMissile => 2 | RunTempEvent => 3 | RunPrimaryLight => 4 | RunGeneral => 5 | RunPlayerCorpse => 6
  end.
Definition entity_run_kind_from_tag (tag : Z) : Result WireError EntityRunKind :=
  if tag =? 0 then Ok RunScriptMover else if tag =? 1 then Ok RunItem else if tag =? 2 then Ok RunMissile else if tag =? 3 then Ok RunTempEvent
  else if tag =? 4 then Ok RunPrimaryLight else if tag =? 5 then Ok RunGeneral else if tag =? 6 then Ok RunPlayerCorpse
  else Err (malformed "unknown EntityRunKind tag").

Record EntityRelations : Type := mkRelations {
  rl_owner : option EntityRef; rl_parent : option EntityRef; rl_ground : option EntityRef; rl_parent_tag : Z;
  rl_parent_link_axis : list (list Z); rl_parent_link_origin : list Z }.
Record EntityKernelOccupiedSnapshot : Type := mkOccupied {
  ko_kind : EntityRunKind; ko_linked : bool; ko_relations : EntityRelations; ko_next_think_ms : option Z; ko_transient_event_time_ms : option Z }.
Record EntityKernelSlotSnapshot : Type := mkSlot { ks_generation : Z; ks_occupied : option EntityKernelOccupiedSnapshot; ks_freed_at_ms : Z }.
Record EntityKernelSnapshot : Type := mkKernel {
  kn_slots : list EntityKernelSlotSnapshot; kn_high_water : Z; kn_free_fifo : list Z; kn_level_time_ms : Z; kn_frame_serial : Z }.

Definition encode_axis43 (axis : list (list Z)) (origin : list Z) : list byte := concat (map put_f32s axis) ++ put_f32s origin.
Definition decode_axis43 : WParser (list (list Z) * list Z) := axis ← parse_list 3 (get_vec 3); origin ← get_vec 3; mret (axis, origin).

Definition put_run_kind (kind : EntityRunKind) : list byte := put_u8 (entity_run_kind_tag kind).
Definition get_run_kind : WParser EntityRunKind := tag ← get_u8; kind ← lift (entity_run_kind_from_tag tag); mret kind.

Definition put_relations (r : EntityRelations) : list byte :=
  encode_optional_entity_ref (rl_owner r) ++ encode_optional_entity_ref (rl_parent r) ++ encode_optional_entity_ref (rl_ground r) ++
  put_i32 (rl_parent_tag r) ++ encode_axis43 (rl_parent_link_axis r) (rl_parent_link_origin r).
Definition get_relations : WParser EntityRelations :=
  owner ← decode_optional_entity_ref; parent ← decode_optional_entity_ref; ground ← decode_optional_entity_ref; tag ← get_i32;
  '(axis, origin) ← decode_axis43; mret (mkRelations owner parent ground tag axis origin).

Definition put_occupied (o : EntityKernelOccupiedSnapshot) : list byte :=
  put_run_kind (ko_kind o) ++ put_bool (ko_linked o) ++ put_relations (ko_relations o) ++ encode_optional_i32 (ko_next_think_ms o) ++
  encode_optional_i32 (ko_transient_event_time_ms o).
Definition get_occupied : WParser EntityKernelOccupiedSnapshot :=
  kind ← get_run_kind; linked ← get_bool; relations ← get_relations; think ← decode_optional_i32; transient ← decode_optional_i32;
  mret (mkOccupied kind linked relations think transient).

Definition put_slot (s : EntityKernelSlotSnapshot) : list byte := put_u32 (ks_generation s) ++ put_i32 (ks_freed_at_ms s) ++ put_option put_occupied (ks_occupied s).
Definition get_slot : WParser EntityKernelSlotSnapshot :=
  generation ← get_u32; freed ← get_i32; occupied ← get_option get_occupied "bad EntityKernel occupancy tag"; mret (mkSlot generation occupied freed).

Definition kernel_holds (k : EntityKernelSnapshot) (number : Z) : bool := (GENTITY_RESERVED_COUNT <=? number) && (number <? kn_high_water k).
Definition kernel_slot (k : EntityKernelSnapshot) (number : Z) : option EntityKernelSlotSnapshot := kn_slots k !! Z.to_nat (number - GENTITY_RESERVED_COUNT).

(** The loop over the free numbers: each once, of an empty slot. *)
Fixpoint free_seen (k : EntityKernelSnapshot) (seen : list bool) (fifo : list Z) : option (list bool) :=
  match fifo with
  | [] => Some seen
  | number :: fifo =>
      let index := Z.to_nat (number - GENTITY_RESERVED_COUNT) in
      if negb (kernel_holds k number) then None
      else if default false (seen !! index) || match kernel_slot k number with Some s => match ks_occupied s with Some _ => true | None => false end | None => false end
      then None else free_seen k (<[index := true]> seen) fifo
  end.

Definition relation_valid (k : EntityKernelSnapshot) (relation : option EntityRef) : bool :=
  match relation with
  | None => true
  | Some e =>
      kernel_holds k (er_number e) &&
      match kernel_slot k (er_number e) with
      | Some s => (ks_generation s =? er_generation e) && match ks_occupied s with Some _ => true | None => false end
      | None => false
      end
  end.

Definition slot_valid (k : EntityKernelSnapshot) (free : bool) (s : EntityKernelSlotSnapshot) : bool :=
  match ks_occupied s with
  | None => free
  | Some o => negb free && relation_valid k (rl_owner (ko_relations o)) && relation_valid k (rl_parent (ko_relations o)) && relation_valid k (rl_ground (ko_relations o))
  end.

(** [EntityKernelSnapshot::validate]. *)
Definition kernel_validate (k : EntityKernelSnapshot) : bool :=
  (GENTITY_RESERVED_COUNT <=? kn_high_water k) && (kn_high_water k <=? ENTITYNUM_WORLD) && (zlen (kn_slots k) =? kn_high_water k - GENTITY_RESERVED_COUNT) &&
  match free_seen k (replicate (length (kn_slots k)) false) (kn_free_fifo k) with
  | None => false
  | Some free => forallb (fun row => slot_valid k row.1 row.2) (zip free (kn_slots k))
  end.

Definition encode_entity_kernel (k : EntityKernelSnapshot) : list byte :=
  put_i32 (kn_high_water k) ++ put_i32 (kn_level_time_ms k) ++ put_u32 (kn_frame_serial k) ++ put_list16 put_slot (kn_slots k) ++ put_list16 put_i32 (kn_free_fifo k).
Definition decode_entity_kernel : WParser EntityKernelSnapshot :=
  high_water ← get_i32; level_time ← get_i32; serial ← get_u32; slots ← get_list16 get_slot;
  free_count ← get_u16; _ ← lift (fail_if (zlen slots <? free_count) (malformed "EntityKernel free FIFO exceeds slot count"));
  fifo ← parse_list (Z.to_nat free_count) get_i32;
  let k := mkKernel slots high_water fifo level_time serial in
  _ ← lift (fail_if (negb (kernel_validate k)) (malformed "invalid EntityKernel snapshot")); mret k.

(** ** Items *)

Definition DROPPED_ITEM_AMMO : Schema := i32s ["entnum"; "clip_r"; "clip_l"; "stock"; "scavenger"]%string.
Definition ITEM_PICKUP_RECORD : Schema :=
  i32s ["picker"]%string ++ u32s ["weapon"]%string ++ i32s ["from_entnum"; "clip_r"; "clip_l"; "stock"; "swapped_entnum"; "picker_pm_type"]%string.
Definition encode_item_ammo (rows : list Fields) : list byte := put_list16 (put_fields DROPPED_ITEM_AMMO) rows.
Definition decode_item_ammo : WParser (list Fields) := get_list16 (get_fields DROPPED_ITEM_AMMO).
Definition encode_item_pickups (rows : list Fields) : list byte := put_list16 (put_fields ITEM_PICKUP_RECORD) rows.
Definition decode_item_pickups : WParser (list Fields) := get_list16 (get_fields ITEM_PICKUP_RECORD).

(** ** The sectors of the map *)

Definition AREA_SECTOR_COUNT : Z := 1024.
Definition AREA_ROOT_SECTOR : Z := 1.
Definition AREA_FIRST_FREE_SECTOR : Z := 2.

Record AreaSectorSnapshot : Type := mkSectorRow {
  as_index : Z; as_contents_entities : Z; as_linkcontents_entities : Z; as_entities : Z; as_dist : Z; as_axis : Z; as_parent : Z; as_child : list Z }.
Record AreaEntityLinkSnapshot : Type := mkLinkRow {
  al_entity_num : Z; al_world_sector : Z; al_next_entity : Z; al_linkcontents : Z; al_linkmin : list Z; al_linkmax : list Z; al_contents : Z;
  al_bounds_mid : list Z; al_bounds_half : list Z }.
Record AreaEntityWorldSnapshot : Type := mkAreaWorld {
  aw_world_mid : list Z; aw_world_half : list Z; aw_free_prefix : list Z; aw_contiguous_free_head : Z; aw_sectors : list AreaSectorSnapshot;
  aw_entities : list AreaEntityLinkSnapshot }.

Record AreaSector : Type := mkSector {
  sr_contents_entities : Z; sr_linkcontents_entities : Z; sr_entities : Z; sr_dist : Z; sr_axis : Z; sr_parent_or_next_free : Z; sr_child : list Z }.
Record AreaEntityLink : Type := mkAreaLink { lr_world_sector : Z; lr_next_entity : Z; lr_linkcontents : Z; lr_linkmin : list Z; lr_linkmax : list Z }.

Definition sector_default : AreaSector := mkSector 0 0 0 0 0 0 [0; 0].
Definition link_default : AreaEntityLink := mkAreaLink 0 0 0 [0; 0] [0; 0].

(** The rows of [AreaEntityWorld]; a bound is its middle and its half. *)
Record AreaRows : Type := mkAreaRows {
  ar_free_head : Z; ar_sectors : list AreaSector; ar_links : list AreaEntityLink; ar_contents : list Z; ar_bounds : list (option (list Z * list Z)) }.

(** [AreaBounds::from_mid_half]. *)
Definition bounds_from_mid_half (mid half : list Z) : option (list Z * list Z) :=
  if forallb f32_finite mid && forallb f32_finite half && forallb (fun h => f32_leb 0 h) half then Some (mid, half) else None.

Definition at_z {A} (rows : list A) (i : Z) (d : A) : A := default d (rows !! Z.to_nat i).
Definition set_z {A} (i : Z) (x : A) (rows : list A) : list A := <[Z.to_nat i := x]> rows.
Definition marks : list bool := replicate (Z.to_nat AREA_SECTOR_COUNT) false.

(** The free sectors, each once. *)
Fixpoint mark_free (order : list Z) (free : list bool) : option (list bool) :=
  match order with
  | [] => Some free
  | index :: order =>
      if negb ((AREA_FIRST_FREE_SECTOR <=? index) && (index <? AREA_SECTOR_COUNT)) || at_z free index false then None
      else mark_free order (set_z index true free)
  end.

(** A free sector names the next. *)
Fixpoint chain_free (order : list Z) (sectors : list AreaSector) : list AreaSector :=
  match order with
  | [] => sectors
  | index :: order =>
      let s := at_z sectors index sector_default in
      chain_free order (set_z index (mkSector (sr_contents_entities s) (sr_linkcontents_entities s) (sr_entities s) (sr_dist s) (sr_axis s)
                                       (default 0 (head order)) (sr_child s)) sectors)
  end.

Fixpoint place_sectors (free : list bool) (rows : list AreaSectorSnapshot) (live : list bool) (sectors : list AreaSector) : option (list bool * list AreaSector) :=
  match rows with
  | [] => Some (live, sectors)
  | row :: rows =>
      let index := as_index row in
      if (index =? 0) || (AREA_SECTOR_COUNT <=? index) || at_z free index false || at_z live index false then None
      else place_sectors free rows (set_z index true live)
             (set_z index (mkSector (as_contents_entities row) (as_linkcontents_entities row) (as_entities row) (as_dist row) (as_axis row) (as_parent row) (as_child row)) sectors)
  end.

Fixpoint place_links (rows : list AreaEntityLinkSnapshot) (occupied : list bool) (world : AreaRows) : option AreaRows :=
  match rows with
  | [] => Some world
  | row :: rows =>
      let index := al_entity_num row in
      if (AREA_SECTOR_COUNT <=? index) || at_z occupied index false then None
      else match bounds_from_mid_half (al_bounds_mid row) (al_bounds_half row) with
           | None => None
           | Some bounds =>
               place_links rows (set_z index true occupied)
                 (mkAreaRows (ar_free_head world) (ar_sectors world)
                    (set_z index (mkAreaLink (al_world_sector row) (al_next_entity row) (al_linkcontents row) (al_linkmin row) (al_linkmax row)) (ar_links world))
                    (set_z index (al_contents row) (ar_contents world)) (set_z index (Some bounds) (ar_bounds world)))
           end
  end.

(** [axis != row.axis] and the like of a free row. *)
Definition free_row_clear (s : AreaSector) : bool :=
  (sr_contents_entities s =? 0) && (sr_linkcontents_entities s =? 0) && (sr_entities s =? 0) && f32_eqb (sr_dist s) 0 && (sr_axis s =? 0) &&
  bool_decide (sr_child s = [0; 0]).
Definition sector_is_default (s : AreaSector) : bool := free_row_clear s && (sr_parent_or_next_free s =? 0).
Definition link_is_default (l : AreaEntityLink) : bool :=
  (lr_world_sector l =? 0) && (lr_next_entity l =? 0) && (lr_linkcontents l =? 0) && f32s_eqb (lr_linkmin l) [0; 0] && f32s_eqb (lr_linkmax l) [0; 0].

Section Area.
Context (w : AreaRows).

(** The chain of free rows; a row that was marked ends it, so there are no more steps than rows. *)
Fixpoint walk_free (fuel : nat) (cursor : Z) (free : list bool) : option (list bool) :=
  if cursor =? 0 then Some free
  else match fuel with
       | O => None
       | S fuel =>
           if negb ((AREA_FIRST_FREE_SECTOR <=? cursor) && (cursor <? AREA_SECTOR_COUNT)) || at_z free cursor false then None
           else let row := at_z (ar_sectors w) cursor sector_default in
                if negb (free_row_clear row) then None else walk_free fuel (sr_parent_or_next_free row) (set_z cursor true free)
       end.

(** The children of a node, pushed one after the other. *)
Fixpoint push_children (node : Z) (children stack : list Z) : option (list Z) :=
  match children with
  | [] => Some stack
  | child :: children =>
      if child =? 0 then push_children node children stack
      else if (AREA_SECTOR_COUNT <=? child) || negb (sr_parent_or_next_free (at_z (ar_sectors w) child sector_default) =? node) then None
      else push_children node children (child :: stack)
  end.

(** The tree of live rows; a row that was marked fails, so there are no more steps than rows and their
    children. *)
Fixpoint walk_tree (fuel : nat) (free : list bool) (stack : list Z) (live : list bool) : option (list bool) :=
  match stack with
  | [] => Some live
  | node :: stack =>
      match fuel with
      | O => None
      | S fuel =>
          if (node =? 0) || (AREA_SECTOR_COUNT <=? node) || at_z free node false || at_z live node false then None
          else let row := at_z (ar_sectors w) node sector_default in
               if (1 <? sr_axis row) || negb (f32_finite (sr_dist row)) || negb (eqb (sr_parent_or_next_free row =? 0) (node =? AREA_ROOT_SECTOR)) then None
               else match push_children node (sr_child row) stack with
                    | Some stack => walk_tree fuel free stack (set_z node true live)
                    | None => None
                    end
      end
  end.

(** The entities of a sector; one that was marked fails. *)
Fixpoint walk_links (fuel : nat) (node encoded : Z) (linked : list bool) : option (list bool) :=
  if encoded =? 0 then Some linked
  else match fuel with
       | O => None
       | S fuel =>
           let entity := encoded - 1 in
           if (AREA_SECTOR_COUNT <=? entity) || at_z linked entity false || negb (lr_world_sector (at_z (ar_links w) entity link_default) =? node) then None
           else walk_links fuel node (lr_next_entity (at_z (ar_links w) entity link_default)) (set_z entity true linked)
       end.

Fixpoint walk_live (nodes : list Z) (live linked : list bool) : option (list bool) :=
  match nodes with
  | [] => Some linked
  | node :: nodes =>
      if negb (at_z live node false) then walk_live nodes live linked
      else linked ← walk_links (S (Z.to_nat AREA_SECTOR_COUNT)) node (sr_entities (at_z (ar_sectors w) node sector_default)) linked; walk_live nodes live linked
  end.

Definition link_row_ok (index : Z) (linked : bool) : bool :=
  let link := at_z (ar_links w) index link_default in
  if linked then
    negb (lr_linkcontents link =? 0) && match at_z (ar_bounds w) index None with Some _ => true | None => false end &&
    forallb f32_finite (lr_linkmin link) && forallb f32_finite (lr_linkmax link) && forallb (fun p => f32_leb p.1 p.2) (zip (lr_linkmin link) (lr_linkmax link))
  else link_is_default link && (at_z (ar_contents w) index 0 =? 0) && match at_z (ar_bounds w) index None with Some _ => false | None => true end.

(** The masks of the entities of a sector. *)
Fixpoint link_masks (fuel : nat) (encoded : Z) (masks : Z * Z) : Z * Z :=
  match fuel with
  | O => masks
  | S fuel =>
      if encoded =? 0 then masks
      else let entity := encoded - 1 in
           link_masks fuel (lr_next_entity (at_z (ar_links w) entity link_default))
             (Z.lor masks.1 (at_z (ar_contents w) entity 0), Z.lor masks.2 (lr_linkcontents (at_z (ar_links w) entity link_default)))
  end.

(** [aggregate_masks], on the tree that was walked. *)
Fixpoint aggregate_masks (fuel : nat) (node : Z) : option (Z * Z) :=
  match fuel with
  | O => None
  | S fuel =>
      let row := at_z (ar_sectors w) node sector_default in
      masks ← foldl (fun acc child =>
        masks ← acc;
        if child =? 0 then Some masks else '(contents, links) ← aggregate_masks fuel child; Some (Z.lor masks.1 contents, Z.lor masks.2 links))
        (Some (0, 0)) (sr_child row);
      let masks := link_masks (Z.to_nat AREA_SECTOR_COUNT) (sr_entities row) masks in
      if (sr_contents_entities row =? masks.1) && (sr_linkcontents_entities row =? masks.2) then Some masks else None
  end.

(** [validate_rows]. *)
Definition area_rows_valid : bool :=
  let count := Z.to_nat AREA_SECTOR_COUNT in
  (zlen (ar_sectors w) =? AREA_SECTOR_COUNT) && (zlen (ar_links w) =? AREA_SECTOR_COUNT) && (zlen (ar_contents w) =? AREA_SECTOR_COUNT) &&
  (zlen (ar_bounds w) =? AREA_SECTOR_COUNT) && sector_is_default (at_z (ar_sectors w) 0 sector_default) &&
  match walk_free count (ar_free_head w) marks with
  | None => false
  | Some free =>
      match walk_tree (2 * count) free [AREA_ROOT_SECTOR] marks with
      | None => false
      | Some live =>
          forallb (fun p => negb (eqb p.1 p.2)) (tail (zip free live)) &&
          match walk_live (map Z.of_nat (seq 1 (count - 1))) live marks with
          | None => false
          | Some linked =>
              forallb (fun p => link_row_ok (Z.of_nat p.1) p.2) (zip (seq 0 count) linked) &&
              match aggregate_masks count AREA_ROOT_SECTOR with Some _ => true | None => false end
          end
      end
  end.
End Area.

(** [AreaEntityWorldSnapshot::restore]. *)
Definition area_restore (s : AreaEntityWorldSnapshot) : option AreaRows :=
  _ ← bounds_from_mid_half (aw_world_mid s) (aw_world_half s);
  let first := aw_contiguous_free_head s in
  _ ← (if (first =? 0) || (AREA_FIRST_FREE_SECTOR <=? first) && (first <? AREA_SECTOR_COUNT) then Some () else None);
  let tail := if first =? 0 then [] else map Z.of_nat (seq (Z.to_nat first) (Z.to_nat (AREA_SECTOR_COUNT - first))) in
  let order := aw_free_prefix s ++ tail in
  free ← mark_free order marks;
  '(live, sectors) ← place_sectors free (aw_sectors s) marks (chain_free order (replicate (Z.to_nat AREA_SECTOR_COUNT) sector_default));
  _ ← (if forallb (fun p => negb (eqb p.1 p.2)) (List.tl (zip free live)) then Some () else None);
  world ← place_links (aw_entities s) marks
    (mkAreaRows (default 0 (head order)) sectors (replicate (Z.to_nat AREA_SECTOR_COUNT) link_default) (replicate (Z.to_nat AREA_SECTOR_COUNT) 0)
       (replicate (Z.to_nat AREA_SECTOR_COUNT) None));
  if area_rows_valid world then Some world else None.

Definition area_validate (s : AreaEntityWorldSnapshot) : bool := match area_restore s with Some _ => true | None => false end.

Definition put_sector_row (r : AreaSectorSnapshot) : list byte :=
  put_u16 (as_index r) ++ put_u32 (as_contents_entities r) ++ put_u32 (as_linkcontents_entities r) ++ put_u16 (as_entities r) ++ put_f32 (as_dist r) ++
  put_u16 (as_axis r) ++ put_u16 (as_parent r) ++ concat (map put_u16 (as_child r)).
Definition get_sector_row : WParser AreaSectorSnapshot :=
  index ← get_u16; contents ← get_u32; links ← get_u32; entities ← get_u16; dist ← get_f32; axis ← get_u16; parent ← get_u16; child ← parse_list 2 get_u16;
  mret (mkSectorRow index contents links entities dist axis parent child).

Definition put_link_row (r : AreaEntityLinkSnapshot) : list byte :=
  put_u16 (al_entity_num r) ++ put_u16 (al_world_sector r) ++ put_u16 (al_next_entity r) ++ put_u32 (al_linkcontents r) ++ put_f32s (al_linkmin r) ++
  put_f32s (al_linkmax r) ++ put_u32 (al_contents r) ++ put_f32s (al_bounds_mid r) ++ put_f32s (al_bounds_half r).
Definition get_link_row : WParser AreaEntityLinkSnapshot :=
  num ← get_u16; sector ← get_u16; next ← get_u16; links ← get_u32; linkmin ← get_vec 2; linkmax ← get_vec 2; contents ← get_u32; mid ← get_vec 3; half ← get_vec 3;
  mret (mkLinkRow num sector next links linkmin linkmax contents mid half).

(** A counted list of at most [max] rows. *)
Definition get_capped {A} (what : String.string) (max : Z) (get : WParser A) : WParser (list A) :=
  count ← get_u16; _ ← lift (fail_if (max <? count) (malformed what)); parse_list (Z.to_nat count) get.
Arguments get_capped {A} what%_string_scope max get.

Definition put_area (s : AreaEntityWorldSnapshot) : list byte :=
  put_f32s (aw_world_mid s) ++ put_f32s (aw_world_half s) ++ put_list16 put_u16 (aw_free_prefix s) ++ put_u16 (aw_contiguous_free_head s) ++
  put_list16 put_sector_row (aw_sectors s) ++ put_list16 put_link_row (aw_entities s).
Definition get_area : WParser AreaEntityWorldSnapshot :=
  mid ← get_vec 3; half ← get_vec 3; prefix ← get_capped "CM area free prefix exceeds sector pool" 1022 get_u16; head ← get_u16;
  sectors ← get_capped "CM area live rows exceed sector pool" 1023 get_sector_row; entities ← get_capped "CM area links exceed entity pool" 1024 get_link_row;
  let s := mkAreaWorld mid half prefix head sectors entities in
  _ ← lift (fail_if (negb (area_validate s)) (malformed "invalid CM area-sector snapshot")); mret s.
Definition encode_area_entities (snapshot : option AreaEntityWorldSnapshot) : list byte := put_option put_area snapshot.
Definition decode_area_entities : WParser (option AreaEntityWorldSnapshot) := get_option get_area "unknown CM area-sector snapshot tag".

(** * Properties

    Each table is read back as it was sent; of an entity and a mover, what is not sent is zero, and an
    empty slot of the corpses is the default one. *)

(** ** Events *)

Definition valid_audience (a : EventAudience) : Prop :=
  match a with
  | AudienceAll => True
  | AudienceAllExcept id | AudienceClient id => is_u32 id
  | AudienceClients ids => rows_of is_u32 u8_max ids
  end.

#[export] Instance event_audience_codec : WireCodec put_event_audience get_event_audience valid_audience.
Proof.
  split. intros [|id|id|ids] Hv; unfold get_event_audience; cbn [put_event_audience valid_audience] in *.
  - eapply parses_end; [apply parses_put_u8; ilia|]. apply parses_ret.
  - eapply parses_bind; [apply parses_put_u8; ilia|]. cbv beta. cbn [Z.eqb Pos.eqb]. wire_last.
  - eapply parses_bind; [apply parses_put_u8; ilia|]. cbv beta. cbn [Z.eqb Pos.eqb]. wire_last.
  - eapply parses_bind; [apply parses_put_u8; ilia|]. cbv beta. cbn [Z.eqb Pos.eqb]. wire_last.
Qed.

Definition valid_event_record (r : WireEventRecord) : Prop :=
  is_u32 (ev_sequence r) /\ is_u32 (ev_tick r) /\ valid_audience (ev_audience r) /\ valid_event (ev_event r).

#[export] Instance event_record_codec : WireCodec encode_event_record decode_event_record valid_event_record.
Proof. split. intros [] Hv. unfold encode_event_record, decode_event_record, valid_event_record in *. cbn [ev_sequence ev_tick ev_audience ev_event] in *. wire_fields. Qed.

Definition valid_entity_event (r : EntityEventRecord) : Prop :=
  is_u32 (ee_sequence r) /\ is_u32 (ee_tick r) /\ valid_audience (ee_audience r) /\ 0 < ee_event r <= ENTITY_EVENT_STOP_RUMBLE /\
  valid_fields ENTITY_EVENT_HEAD (ee_head r) /\ some_cause (ee_fire_cause r) /\ valid_fields ENTITY_EVENT_TAIL (ee_tail r).

#[export] Instance entity_event_codec : WireCodec encode_entity_event_record decode_entity_event_record valid_entity_event.
Proof.
  split. intros [sequence tick audience event head cause tail] (Hs & Ht & Ha & He & Hh & Hc & Htl).
  unfold encode_entity_event_record, decode_entity_event_record, ENTITY_EVENT_NONE, ENTITY_EVENT_STOP_RUMBLE in *.
  cbn [ee_sequence ee_tick ee_audience ee_event ee_head ee_fire_cause ee_tail] in *. assert (is_i32 event) by ilia. do 4 wire_step.
  eapply parses_lift; [unfold fail_if; rewrite (proj2 (Z.eqb_neq _ _)), !(proj2 (Z.ltb_ge _ _)) by lia; done|]. do 2 wire_step. wire_last.
Qed.

Definition valid_pellet (r : PelletFxRecord) : Prop :=
  valid_fields PELLET_HEAD (pf_head r) /\ some_cause (pf_fire_cause r) /\ valid_fields PELLET_TAIL (pf_tail r).

#[export] Instance pellet_codec : WireCodec encode_pellet_fx_record decode_pellet_fx_record valid_pellet.
Proof. split. intros [] Hv. unfold encode_pellet_fx_record, decode_pellet_fx_record, valid_pellet in *. cbn [pf_head pf_fire_cause pf_tail] in *. wire_fields. Qed.

(** ** Names *)

Definition valid_alias (row : Z * list byte) : Prop := is_u8 row.1 /\ valid_string u8_max row.2.
Definition valid_hud_string (row : Z * list byte) : Prop := is_u16 row.1 /\ valid_string u16_max row.2.

#[export] Instance alias_codec : WireCodec put_alias get_alias valid_alias.
Proof.
  split. intros [index name] [Hi [Hs Hn]]. unfold put_alias, get_alias. cbn [fst snd] in *. pose proof (zlen_nonneg name).
  assert (wrap8 (zlen name) = zlen name) as -> by ilia. assert (is_u8 (zlen name)) by ilia. do 2 wire_step.
  eapply parses_end; [by apply parses_get_bytes|]. apply parses_utf8; [done|]. apply parses_ret.
Qed.
#[export] Instance aliases_codec : WireCodec encode_sound_alias_cs decode_sound_alias_cs (rows_of valid_alias u8_max) := list8_codec _ _ _.

#[export] Instance hud_string_codec : WireCodec put_hud_string get_hud_string valid_hud_string.
Proof.
  split. intros [index text] [Hi [Hs Hn]]. unfold put_hud_string, get_hud_string. cbn [fst snd] in *. pose proof (zlen_nonneg text).
  assert (wrap16 (zlen text) = zlen text) as -> by ilia. assert (is_u16 (zlen text)) by ilia. do 2 wire_step.
  eapply parses_end; [by apply parses_get_bytes|]. apply parses_utf8; [done|]. apply parses_ret.
Qed.

(** A list whose count is checked against a bound. *)
Lemma parses_checked16 {A} (put : A -> list byte) get valid `{!WireCodec put get valid} (check : Z -> bool) what max rows :
  rows_of valid max rows -> max <= u16_max -> check (zlen rows) = false ->
  parses (count ← get_u16; _ ← lift (fail_if (check count) (malformed what)); parse_list (Z.to_nat count) get) (put_list16 put rows) rows.
Proof.
  intros [Hn Hv] Hmax Hc. unfold put_list16. pose proof (zlen_nonneg rows). assert (wrap16 (zlen rows) = zlen rows) as -> by ilia.
  eapply parses_bind; [apply parses_put_u16; ilia|]. cbv beta. eapply parses_lift; [unfold fail_if; by rewrite Hc|].
  eapply wire_list; [apply _|unfold zlen; lia|done].
Qed.

#[export] Instance hud_strings_codec : WireCodec encode_hud_strings decode_hud_strings (rows_of valid_hud_string (ConfigStrings.CS_LOCALIZED_STRINGS_SLOTS - 1)).
Proof.
  split. intros rows Hr. apply (parses_checked16 put_hud_string get_hud_string valid_hud_string (fun count => ConfigStrings.CS_LOCALIZED_STRINGS_SLOTS <=? count) _ _ rows Hr).
  - unfold ConfigStrings.CS_LOCALIZED_STRINGS_SLOTS, u16_max. lia.
  - destruct Hr as [Hn _]. apply Z.leb_gt. lia.
Qed.

Lemma parses_capped {A} (put : A -> list byte) get valid `{!WireCodec put get valid} what max rows :
  rows_of valid max rows -> max <= u16_max -> parses (get_capped what max get) (put_list16 put rows) rows.
Proof.
  intros Hr Hmax. apply (parses_checked16 put get valid (fun count => max <? count) what max rows Hr Hmax). destruct Hr as [Hn _]. by apply Z.ltb_ge.
Qed.

(** ** Models *)

Definition valid_parent (parent : option Z) : Prop := option_of (fun p => 0 <= p < u16_max) parent.

#[export] Instance parent_codec : WireCodec put_parent get_parent valid_parent.
Proof.
  split. intros [p|] Hv; unfold put_parent, get_parent, valid_parent in *; cbn [option_of default from_option id] in *.
  - eapply parses_end; [apply parses_put_u16; ilia|]. cbv beta. rewrite (proj2 (Z.eqb_neq _ _)) by lia. apply parses_ret.
  - eapply parses_end; [apply parses_put_u16; ilia|]. apply parses_ret.
Qed.

Definition valid_model (m : DObjModelDescriptor) : Prop := text_ok (dm_model m) /\ valid_parent (dm_parent_model m) /\ option_of text_ok (dm_attach_tag m).

#[export] Instance model_codec : WireCodec put_model get_model valid_model.
Proof. split. intros [] Hv. unfold put_model, get_model, valid_model in *. cbn [dm_model dm_parent_model dm_attach_tag dm_ignore_collision] in *. wire_fields. Qed.

Definition valid_rotation (r : TagRotation) : Prop := text_ok (tr_tag r) /\ tr_tag r <> [] /\ finite_vec (tr_angles r).

#[export] Instance rotation_codec : WireCodec put_rotation get_rotation valid_rotation.
Proof.
  split. intros [tag angles] (Ht & Hne & Ha & Hf). unfold put_rotation, get_rotation. cbn [tr_tag tr_angles] in *. wire_step.
  eapply parses_end; [by apply wire_parses|]. cbv beta. rewrite Hf. destruct tag as [|b tag]; [done|].
  eapply parses_lift; [unfold fail_if, zlen; cbn [length]; rewrite (proj2 (Z.eqb_neq _ _)) by lia; done|]. apply parses_ret.
Qed.

Definition part_bits (words : list Z) : Prop := array_of is_u32 PART_WORDS words.
#[export] Instance part_bits_codec : WireCodec put_u32s (parse_list PART_WORDS get_u32) part_bits := array_codec _ _ _ _ u32_codec.
#[export] Instance optional_part_bits_codec : WireCodec put_optional_part_bits get_optional_part_bits (option_of part_bits) := option_codec _ _ _ _.

Definition valid_node (n : XAnimSemanticNode) : Prop :=
  valid_parent (xn_parent n) /\ option_of text_ok (xn_clip n) /\ option_of part_bits (xn_parts n) /\ vec 2 (xn_times n) /\
  -32768 <= xn_cycle_count n <= 32767 /\ -32768 <= xn_old_cycle_count n <= 32767 /\ vec 4 (xn_goals n).

Lemma parses_i16 what v : -32768 <= v <= 32767 -> parses (get_i16 what) (put_i32 v) v.
Proof.
  intros Hv. unfold get_i16. eapply parses_end; [apply parses_put_i32; ilia|]. cbv beta. rewrite !(proj2 (Z.leb_le _ _)) by lia.
  eapply parses_lift; [reflexivity|]. apply parses_ret.
Qed.

#[export] Instance node_codec : WireCodec put_node get_node valid_node.
Proof.
  split. intros [parent kind clip parts times cycle old goals] (Hp & Hc & Hb & Ht & Hcy & Ho & Hg). unfold put_node, get_node.
  cbn [xn_parent xn_kind xn_clip xn_parts xn_times xn_cycle_count xn_old_cycle_count xn_goals] in *. wire_step.
  eapply parses_bind; [apply parses_put_u8; destruct kind; vm_compute; split; congruence|]. cbv beta. eapply parses_lift; [by destruct kind|].
  do 3 wire_step. do 2 (eapply parses_bind; [by apply parses_i16|]; cbv beta). wire_last.
Qed.

Definition valid_tree (t : XAnimTreeSnapshot) : Prop :=
  is_u32 (xt_definition_revision t) /\ is_u32 (xt_state_revision t) /\ rows_of valid_node u16_max (xt_nodes t).

#[export] Instance tree_codec : WireCodec put_tree get_tree valid_tree.
Proof. split. intros [] Hv. unfold put_tree, get_tree, valid_tree in *. cbn [xt_definition_revision xt_state_revision xt_nodes] in *. wire_fields. Qed.

#[export] Instance rotations_codec : WireCodec (put_list16 put_rotation) get_rotations (rows_of valid_rotation PART_CAPACITY).
Proof.
  split. intros rows Hr. apply (parses_checked16 put_rotation get_rotation valid_rotation (fun count => PART_CAPACITY <? count) _ _ rows Hr).
  - unfold PART_CAPACITY, u16_max. lia.
  - destruct Hr as [Hn _]. by apply Z.ltb_ge.
Qed.

Definition valid_dobj (row : Z * DObjSemanticState) : Prop :=
  is_u32 row.1 /\ is_u32 (do_revision row.2) /\ rows_of valid_model u16_max (do_models row.2) /\ is_u32 (do_pose_revision row.2) /\
  rows_of valid_rotation PART_CAPACITY (do_tag_rotations row.2) /\ option_of part_bits (do_requested_parts row.2) /\ part_bits (do_hide_part_bits row.2) /\
  option_of valid_tree (do_tree row.2).

#[export] Instance dobj_codec : WireCodec put_dobj get_dobj valid_dobj.
Proof.
  split. intros [id []] Hv. unfold put_dobj, get_dobj, valid_dobj in *.
  cbn [fst snd do_revision do_models do_pose_revision do_tag_rotations do_requested_parts do_hide_part_bits do_tree] in *. split_fields.
  eapply parses_bind; [apply parses_put_u8; ilia|]. cbv beta. eapply parses_lift; [reflexivity|]. do 3 wire_step.
  wire_step. eapply parses_bind; [by apply (wire_parses (WireCodec := rotations_codec))|]. cbv beta. repeat wire_step. wire_last.
Qed.
#[export] Instance dobjs_codec : WireCodec encode_entity_dobjs decode_entity_dobjs (rows_of valid_dobj u16_max) := list16_codec _ _ _.

(** ** Corpses *)

#[export] Instance ffa_team_codec : WireCodec put_ffa_team get_ffa_team (option_of (fun team => 0 <= team < u8_max)).
Proof.
  split. intros [team|] Hv; unfold put_ffa_team, get_ffa_team; cbn [option_of default from_option id] in *.
  - eapply parses_end; [apply parses_put_u8; ilia|]. cbv beta. rewrite (proj2 (Z.eqb_neq _ _)) by lia. apply parses_ret.
  - eapply parses_end; [apply parses_put_u8; ilia|]. apply parses_ret.
Qed.

Definition valid_corpse (next : Z) (s : PlayerCorpseSlot) : Prop :=
  (1 <= pc_spawn_sequence s <= next /\ is_u8 (pc_weapon_model s) /\ is_i32 (pc_client_state_team s) /\
   option_of (fun team => 0 <= team < u8_max) (pc_ffa_team s) /\ is_u32 (pc_victim s)) /\
  (vec 3 (pc_origin s) /\ vec 3 (pc_viewangles s) /\ is_i32 (pc_legs_anim s) /\ is_i32 (pc_torso_anim s) /\ is_u32 (pc_view_height_current s)) /\
  (is_u32 (pc_weapon s) /\ is_u32 (pc_e_flags s) /\ is_i32 (pc_entnum s) /\ is_i32 (pc_tr_type s) /\ is_i32 (pc_tr_time s) /\ is_i32 (pc_tr_duration s)) /\
  (vec 3 (pc_tr_delta s) /\ vec 3 (pc_tr_base s) /\ is_i32 (pc_ground_entity_num s) /\ is_i32 (pc_spawn_time_ms s) /\ valid_shield (pc_shield s)).

(** What is sent of a slot. *)
Definition corpse_seen (s : PlayerCorpseSlot) : PlayerCorpseSlot := if pc_occupied s then s else corpse_default.

Lemma parses_corpse_slot next s : is_u64 next -> (pc_occupied s = true -> valid_corpse next s) -> parses (get_corpse_slot next) (put_corpse_slot s) (corpse_seen s).
Proof.
  intros Hn Hv. unfold put_corpse_slot, get_corpse_slot, corpse_seen. destruct (pc_occupied s) eqn:Eo.
  2: { eapply parses_end; [apply parses_put_u8; ilia|]. apply parses_ret. }
  specialize (Hv eq_refl). destruct s. cbn [pc_occupied] in Eo. subst. unfold valid_corpse in Hv.
  cbn [pc_occupied pc_spawn_sequence pc_weapon_model pc_client_state_team pc_ffa_team pc_victim pc_origin pc_viewangles pc_legs_anim pc_torso_anim
    pc_view_height_current pc_weapon pc_e_flags pc_entnum pc_tr_type pc_tr_time pc_tr_duration pc_tr_delta pc_tr_base pc_falling pc_ground_entity_num
    pc_spawn_time_ms pc_shield] in *. destruct Hv as ((Hseq & ?) & Hv2). assert (is_u64 pc_spawn_sequence0) by ilia.
  eapply parses_bind; [apply parses_put_u8; ilia|]. cbv beta. cbn [Z.eqb Pos.eqb].
  eapply parses_end; [unfold get_corpse_body; wire_fields|]. cbn [pc_spawn_sequence].
  rewrite (proj2 (Z.eqb_neq _ _)), (proj2 (Z.ltb_ge _ _)) by lia. eapply parses_lift; [reflexivity|]. apply parses_ret.
Qed.

Lemma corpses_valid_seen slots : forall identities entities, corpses_valid identities entities (map corpse_seen slots) = corpses_valid identities entities slots.
Proof.
  induction slots as [|s slots IH]; intros identities entities; [done|]. cbn [map corpses_valid]. unfold corpse_seen at 1 2. destruct (pc_occupied s) eqn:E.
  - rewrite E. cbn [negb]. unfold corpse_seen. rewrite E. by rewrite IH.
  - cbn [negb pc_occupied corpse_default]. by rewrite IH.
Qed.

Definition valid_corpses (pool : PlayerCorpsePool) : Prop :=
  0 <= cp_spawn_ring pool < MAX_CLIENT_CORPSES /\ is_u64 (cp_next_spawn_sequence pool) /\ length (cp_slots pool) = 8%nat /\
  Forall (fun s => pc_occupied s = true -> valid_corpse (cp_next_spawn_sequence pool) s) (cp_slots pool) /\ corpses_valid [] [] (cp_slots pool) = true.

Definition corpses_seen (pool : PlayerCorpsePool) : PlayerCorpsePool :=
  mkCorpses (map corpse_seen (cp_slots pool)) (cp_spawn_ring pool) (cp_next_spawn_sequence pool).

(** Rows whose reading is a function of them. *)
Lemma parses_map {A B} (p : WParser B) (put : A -> list byte) (f : A -> B) rows n :
  n = length rows -> Forall (fun x => parses p (put x) (f x)) rows -> parses (parse_list n p) (concat (map put rows)) (map f rows).
Proof.
  intros -> Hv. induction Hv as [|x rows Hx _ IH]; cbn [length parse_list map concat]; [apply parses_ret|].
  eapply parses_bind; [exact Hx|]. cbv beta. eapply parses_end; [exact IH|apply parses_ret].
Qed.

Lemma parses_corpse_pool pool : valid_corpses pool -> parses decode_corpse_pool (encode_corpse_pool pool) (corpses_seen pool).
Proof.
  intros (Hr & Hn & Hl & Hs & Hc). unfold encode_corpse_pool, decode_corpse_pool, corpses_seen. unfold MAX_CLIENT_CORPSES in *.
  eapply parses_bind; [apply parses_put_u8; ilia|]. cbv beta. wire_step. eapply parses_lift; [unfold fail_if; by rewrite (proj2 (Z.leb_gt _ _)) by lia|].
  eapply parses_end; [apply (parses_map _ put_corpse_slot corpse_seen); [done|]|].
  - eapply list.Forall_impl; [exact Hs|]. intros s Hv. by apply parses_corpse_slot.
  - cbv beta. rewrite corpses_valid_seen, Hc. eapply parses_lift; [reflexivity|]. apply parses_ret.
Qed.

(** ** Entities *)

(** The state as the client has it. *)
Definition entity_seen (es : EntityState) : EntityState := entity_of_wire (entity_wire es).

#[export] Instance entity_state_wire : WireCodec (put_fields ENTITY_WIRE) (get_fields ENTITY_WIRE) (valid_fields ENTITY_WIRE) := fields_codec _.

#[export] Instance Num_eq_dec : EqDecision Num.
Proof. solve_decision. Defined.

Lemma fld_valid schema fields f :
  valid_fields schema fields -> NoDup (map (fun f : Field => f.1.1) schema) -> f ∈ schema -> array_of (valid_num f.1.2) f.2 (fld schema f.1.1 fields).
Proof.
  intros Hv. induction Hv as [|[[name k] n] v schema fields Hx Hv IH]; cbn [map fst]; intros Hd; [by intros ?%elem_of_nil|].
  apply NoDup_cons in Hd as [Hn Hd]. intros [->|Hin]%elem_of_cons; cbn [fld fst snd] in *.
  - by rewrite bool_decide_eq_true_2.
  - rewrite bool_decide_eq_false_2; [by apply IH|]. intros ->. apply Hn. by apply (list_elem_of_fmap_2 (fun f : Field => f.1.1)).
Qed.

Lemma entity_names : NoDup (map (fun f : Field => f.1.1) ENTITY_STATE).
Proof. apply (bool_decide_unpack _). vm_compute. exact I. Qed.

Lemma entity_wire_fields : Forall (fun f => f ∈ ENTITY_STATE) ENTITY_WIRE.
Proof. apply (bool_decide_unpack _). vm_compute. exact I. Qed.

Definition valid_entity_state (es : EntityState) : Prop := valid_fields ENTITY_STATE es.

Lemma parses_entity_state es : valid_entity_state es -> parses decode_entity_state (encode_entity_state es) (entity_seen es).
Proof.
  intros Hv. unfold decode_entity_state, encode_entity_state, entity_seen. eapply parses_end; [|apply parses_ret].
  apply (wire_parses (WireCodec := entity_state_wire)). unfold valid_fields, entity_wire. apply list.Forall2_fmap_r, Forall_Forall2_diag.
  eapply list.Forall_impl; [exact entity_wire_fields|]. intros f Hf. unfold compose. apply fld_valid; [done|exact entity_names|done].
Qed.

(** A list of rows whose reading is a function of them. *)
Lemma parses_list16_seen {A B} (get : WParser B) (put : A -> list byte) (f : A -> B) rows :
  zlen rows <= u16_max -> Forall (fun x => parses get (put x) (f x)) rows -> parses (get_list16 get) (put_list16 put rows) (map f rows).
Proof.
  intros Hn Hv. unfold get_list16, put_list16. pose proof (zlen_nonneg rows). assert (wrap16 (zlen rows) = zlen rows) as -> by ilia.
  eapply parses_bind; [apply parses_put_u16; ilia|]. cbv beta. apply parses_map; [unfold zlen; lia|done].
Qed.

Lemma parses_entity_states rows : rows_of valid_entity_state u16_max rows -> parses decode_entity_states (encode_entity_states rows) (map entity_seen rows).
Proof.
  intros [Hn Hv]. apply parses_list16_seen; [done|]. eapply list.Forall_impl; [exact Hv|]. apply parses_entity_state.
Qed.

(** Only two of the cameras have a form on the wire. *)
Definition valid_mover (m : ScriptMoverGentity) : Prop :=
  is_u32 (sm_id m) /\ (sm_killcam_camera m = None \/ sm_killcam_camera m = Some Mode1Heli \/ sm_killcam_camera m = Some Mode6Turret) /\
  valid_entity_state (sm_state m).

Definition mover_seen (m : ScriptMoverGentity) : ScriptMoverGentity :=
  mkMover (sm_id m) (sm_killcam_camera m) (entity_seen (sm_state m)) [0; 0; 0] [0; 0; 0] [0; 0; 0] [0; 0; 0] (sm_nonsolid m) 0.

Lemma parses_mover m : valid_mover m -> parses get_mover (put_mover m) (mover_seen m).
Proof.
  intros (Hi & Hc & Hs). unfold put_mover, get_mover, mover_seen. do 2 wire_step.
  eapply parses_bind; [apply parses_put_u8; destruct Hc as [->|[->| ->]]; vm_compute; split; congruence|]. cbv beta.
  eapply (parses_lift _ _ _ (sm_killcam_camera m)); [by destruct Hc as [->|[->| ->]]|]. eapply parses_end; [by apply parses_entity_state|]. apply parses_ret.
Qed.

Lemma parses_movers movers : rows_of valid_mover u16_max movers -> parses decode_script_movers (encode_script_movers movers) (map mover_seen movers).
Proof. intros [Hn Hv]. apply parses_list16_seen; [done|]. eapply list.Forall_impl; [exact Hv|]. apply parses_mover. Qed.

(** ** The kernel *)

#[export] Instance run_kind_codec : WireCodec put_run_kind get_run_kind (fun _ => True).
Proof. split. intros [] _; (eapply parses_end; [solve [eauto with wire]|]); (eapply parses_lift; [reflexivity|apply parses_ret]). Qed.

Definition valid_axis (axis : list (list Z)) : Prop := array_of (vec 3) 3 axis.

Definition valid_relations (r : EntityRelations) : Prop :=
  option_of valid_entity (rl_owner r) /\ option_of valid_entity (rl_parent r) /\ option_of valid_entity (rl_ground r) /\ is_i32 (rl_parent_tag r) /\
  valid_axis (rl_parent_link_axis r) /\ vec 3 (rl_parent_link_origin r).

Lemma parses_axis43 axis origin : valid_axis axis -> vec 3 origin -> parses decode_axis43 (encode_axis43 axis origin) (axis, origin).
Proof.
  intros Ha Ho. unfold decode_axis43, encode_axis43.
  eapply parses_bind; [apply (wire_parses (WireCodec := array_codec _ _ _ 3 (vec_codec 3)) axis Ha)|]. cbv beta. wire_last.
Qed.

#[export] Instance relations_codec : WireCodec put_relations get_relations valid_relations.
Proof.
  split. intros [] (Ho & Hp & Hg & Ht & Ha & Hl). unfold put_relations, get_relations.
  cbn [rl_owner rl_parent rl_ground rl_parent_tag rl_parent_link_axis rl_parent_link_origin] in *. do 4 wire_step.
  eapply parses_end; [by apply parses_axis43|]. apply parses_ret.
Qed.

Definition valid_occupied (o : EntityKernelOccupiedSnapshot) : Prop :=
  valid_relations (ko_relations o) /\ option_of is_i32 (ko_next_think_ms o) /\ option_of is_i32 (ko_transient_event_time_ms o).

#[export] Instance occupied_codec : WireCodec put_occupied get_occupied valid_occupied.
Proof. split. intros [] Hv. unfold put_occupied, get_occupied, valid_occupied in *. cbn [ko_kind ko_linked ko_relations ko_next_think_ms ko_transient_event_time_ms] in *. wire_fields. Qed.

Definition valid_slot (s : EntityKernelSlotSnapshot) : Prop :=
  is_u32 (ks_generation s) /\ is_i32 (ks_freed_at_ms s) /\ option_of valid_occupied (ks_occupied s).

#[export] Instance slot_codec : WireCodec put_slot get_slot valid_slot.
Proof. split. intros [] Hv. unfold put_slot, get_slot, valid_slot in *. cbn [ks_generation ks_occupied ks_freed_at_ms] in *. wire_fields. Qed.

Definition valid_kernel (k : EntityKernelSnapshot) : Prop :=
  kernel_validate k = true /\ is_i32 (kn_level_time_ms k) /\ is_u32 (kn_frame_serial k) /\ Forall valid_slot (kn_slots k).

Fixpoint marked (seen : list bool) : nat := match seen with [] => 0 | b :: seen => (if b then 1 else 0) + marked seen end.

Lemma marked_le seen : (marked seen <= length seen)%nat.
Proof. induction seen as [|[] seen IH]; cbn; lia. Qed.

Lemma marked_insert seen : forall i, seen !! i = Some false -> marked (<[i := true]> seen) = S (marked seen).
Proof.
  induction seen as [|b seen IH]; intros [|i] Hi; cbn in *; [done|done|by injection Hi as ->|]. rewrite IH by done. lia.
Qed.

(** A number that is free is free once, so there are no more of them than slots. *)
Lemma free_seen_marked k : forall fifo seen free,
  Z.of_nat (length seen) = kn_high_water k - GENTITY_RESERVED_COUNT -> free_seen k seen fifo = Some free ->
  marked free = (marked seen + length fifo)%nat /\ length free = length seen /\ Forall (fun n => kernel_holds k n = true) fifo.
Proof.
  induction fifo as [|n fifo IH]; intros seen free Hl; cbn [free_seen]; [intros [= <-]; cbn; by rewrite Nat.add_0_r|].
  destruct (kernel_holds k n) eqn:Eh; [|done]. cbn [negb]. destruct (default false (seen !! _)) eqn:Es; [done|]. cbn [orb].
  destruct (match kernel_slot k n with Some s => _ | None => false end); [done|]. intros Hf.
  apply IH in Hf as (H1 & H2 & H3); [|by rewrite length_insert]. rewrite length_insert in H2.
  assert (Hi : (Z.to_nat (n - GENTITY_RESERVED_COUNT) < length seen)%nat) by (unfold kernel_holds in Eh; rewrite andb_true_iff, Z.leb_le, Z.ltb_lt in Eh; lia).
  destruct (lookup_lt_is_Some_2 _ _ Hi) as [b Eb]. rewrite Eb in Es. cbn in Es. subst b. rewrite (marked_insert _ _ Eb) in H1.
  cbn [length]. split; [lia|]. split; [done|]. by constructor.
Qed.

#[export] Instance kernel_codec : WireCodec encode_entity_kernel decode_entity_kernel valid_kernel.
Proof.
  split. intros k (Hval & Ht & Hf & Hs). pose proof Hval as Hval'. unfold kernel_validate in Hval. rewrite !andb_true_iff, !Z.leb_le, Z.eqb_eq in Hval.
  destruct Hval as [[[H1 H2] H3] H4]. destruct (free_seen _ _ _) as [free|] eqn:Ef; [|done]. clear H4.
  apply free_seen_marked in Ef as (M1 & M2 & M3); [|rewrite length_replicate; exact H3]. rewrite length_replicate in M2.
  assert (M0 : marked (replicate (length (kn_slots k)) false) = 0%nat) by (clear; induction (length (kn_slots k)) as [|n IH]; [done|exact IH]).
  pose proof (marked_le free) as Hle. rewrite M0, M2 in *. cbn in M1. unfold ENTITYNUM_WORLD, GENTITY_RESERVED_COUNT in *.
  destruct k as [slots high_water fifo level_time serial]. cbn [kn_slots kn_high_water kn_free_fifo kn_level_time_ms kn_frame_serial] in *.
  assert (is_i32 high_water) by ilia. unfold encode_entity_kernel, decode_entity_kernel.
  cbn [kn_slots kn_high_water kn_free_fifo kn_level_time_ms kn_frame_serial]. do 3 wire_step.
  eapply parses_bind; [apply (wire_parses (WireCodec := list16_codec _ _ _) slots); split; [unfold u16_max; lia|done]|]. cbv beta.
  unfold put_list16. pose proof (zlen_nonneg fifo). assert (Hfl : zlen fifo <= zlen slots) by (unfold zlen; lia).
  assert (wrap16 (zlen fifo) = zlen fifo) as -> by ilia. eapply parses_bind; [apply parses_put_u16; ilia|]. cbv beta.
  eapply parses_lift; [unfold fail_if; by rewrite (proj2 (Z.ltb_ge _ _)) by lia|].
  eapply parses_end.
  - eapply wire_list; [apply _|unfold zlen; lia|]. eapply list.Forall_impl; [exact M3|]. intros n Hn. unfold kernel_holds, GENTITY_RESERVED_COUNT in Hn.
    cbn [kn_high_water] in Hn. rewrite andb_true_iff, Z.leb_le, Z.ltb_lt in Hn. ilia.
  - cbv beta zeta. rewrite Hval'. eapply parses_lift; [reflexivity|]. apply parses_ret.
Qed.

(** ** Items and sectors *)

#[export] Instance item_ammo_codec : WireCodec encode_item_ammo decode_item_ammo (rows_of (valid_fields DROPPED_ITEM_AMMO) u16_max) := list16_codec _ _ _.
#[export] Instance item_pickups_codec : WireCodec encode_item_pickups decode_item_pickups (rows_of (valid_fields ITEM_PICKUP_RECORD) u16_max) := list16_codec _ _ _.

Definition valid_sector_row (r : AreaSectorSnapshot) : Prop :=
  is_u16 (as_index r) /\ is_u32 (as_contents_entities r) /\ is_u32 (as_linkcontents_entities r) /\ is_u16 (as_entities r) /\ is_u32 (as_dist r) /\
  is_u16 (as_axis r) /\ is_u16 (as_parent r) /\ array_of is_u16 2 (as_child r).

#[export] Instance u16s_codec n : WireCodec (fun l => concat (map put_u16 l)) (parse_list n get_u16) (array_of is_u16 n) := array_codec _ _ _ n i16_codec.

#[export] Instance sector_row_codec : WireCodec put_sector_row get_sector_row valid_sector_row.
Proof.
  split. intros [] Hv. unfold put_sector_row, get_sector_row, valid_sector_row in *.
  cbn [as_index as_contents_entities as_linkcontents_entities as_entities as_dist as_axis as_parent as_child] in *. split_fields. do 7 wire_step.
  eapply parses_end; [by apply (wire_parses (WireCodec := u16s_codec 2))|]. apply parses_ret.
Qed.

Definition valid_link_row (r : AreaEntityLinkSnapshot) : Prop :=
  is_u16 (al_entity_num r) /\ is_u16 (al_world_sector r) /\ is_u16 (al_next_entity r) /\ is_u32 (al_linkcontents r) /\ vec 2 (al_linkmin r) /\
  vec 2 (al_linkmax r) /\ is_u32 (al_contents r) /\ vec 3 (al_bounds_mid r) /\ vec 3 (al_bounds_half r).

#[export] Instance link_row_codec : WireCodec put_link_row get_link_row valid_link_row.
Proof.
  split. intros [] Hv. unfold put_link_row, get_link_row, valid_link_row in *.
  cbn [al_entity_num al_world_sector al_next_entity al_linkcontents al_linkmin al_linkmax al_contents al_bounds_mid al_bounds_half] in *. wire_fields.
Qed.

Definition valid_area (s : AreaEntityWorldSnapshot) : Prop :=
  vec 3 (aw_world_mid s) /\ vec 3 (aw_world_half s) /\ rows_of is_u16 1022 (aw_free_prefix s) /\ is_u16 (aw_contiguous_free_head s) /\
  rows_of valid_sector_row 1023 (aw_sectors s) /\ rows_of valid_link_row 1024 (aw_entities s) /\ area_validate s = true.

#[export] Instance area_codec : WireCodec put_area get_area valid_area.
Proof.
  split. intros [mid half prefix head sectors entities] (Hm & Hh & Hp & Hf & Hs & He & Hv). unfold put_area, get_area.
  cbn [aw_world_mid aw_world_half aw_free_prefix aw_contiguous_free_head aw_sectors aw_entities] in *. do 2 wire_step.
  eapply parses_bind; [eapply parses_capped; [apply _|exact Hp|unfold u16_max; lia]|]. cbv beta. wire_step.
  eapply parses_bind; [eapply parses_capped; [apply _|exact Hs|unfold u16_max; lia]|]. cbv beta.
  eapply parses_end; [eapply parses_capped; [apply _|exact He|unfold u16_max; lia]|]. cbv beta zeta. rewrite Hv.
  eapply parses_lift; [reflexivity|]. apply parses_ret.
Qed.
#[export] Instance areas_codec : WireCodec encode_area_entities decode_area_entities (option_of valid_area) := option_codec _ _ _ _.
