(* ===== verification/MetaObjectives.v ===== *)
(** * The objectives of the meta

    crates/net/src/transport/meta_wire.rs, [encode_objectives] and [decode_objectives], with the types of
    crates/sim/src/objectives.rs, scene_effects.rs, time_scale.rs and script_audio.rs, whose checks the
    decoder makes. *)

From Stdlib Require Import SpecFloat.
From S2P Require Export MetaClient.

#[local] Open Scope Z_scope.

(** ** Floats that are checked *)

Definition f32_range (lo hi v : Z) : bool := f32_leb lo v && f32_leb v hi.
Definition F32_ONE : Z := 0x3f800000.
Definition F32_180 : Z := 0x43340000.
Definition F32_LN_2 : Z := 0x3f317218.

(** The number a float's bits stand for. *)
Definition f32_number (bits : Z) : spec_float :=
  let sign := Z.testbit bits 31 in
  let e := Z.land (Z.shiftr bits 23) 0xff in
  let m := Z.land bits 0x7fffff in
  if e =? 0xff then if m =? 0 then S754_infinity sign else S754_nan
  else if e =? 0 then match m with Zpos p => S754_finite sign p (-149) | _ => S754_zero sign end
  else match m + 0x800000 with Zpos p => S754_finite sign p (e - 150) | _ => S754_nan end.

Definition f32_div (a b : Z) : spec_float := SFdiv 24 128 (f32_number a) (f32_number b).

(** [is_finite() && > 0.0]. *)
Definition finite_positive (v : spec_float) : bool := match v with S754_finite false _ _ => true | _ => false end.

(** ** The scene *)

Record ScriptSunFog : Type := mkSun { su_color_rgb : list Z; su_sun_dir : list Z; su_begin_angle_deg : Z; su_end_angle_deg : Z; su_scale : Z }.
Record ScriptFogParams : Type := mkFogParams {
  fo_start_dist : Z; fo_halfway_dist : Z; fo_color_rgb : list Z; fo_max_opacity : Z; fo_sun : option ScriptSunFog }.
Record ScriptFog : Type := mkFog { sf_from : ScriptFogParams; sf_to : ScriptFogParams; sf_start_ms : Z; sf_duration_ms : Z }.
Record ScriptEarthquake : Type := mkQuake { eq_id : Z; eq_origin : list Z; eq_scale : Z; eq_radius : Z; eq_start_ms : Z; eq_duration_ms : Z }.

Definition fog_density (f : ScriptFogParams) : spec_float :=
  if f32_leb (fo_halfway_dist f) 0 then S754_zero false else f32_div F32_LN_2 (fo_halfway_dist f).

Definition sun_valid (s : ScriptSunFog) : bool :=
  forallb (f32_range 0 F32_ONE) (su_color_rgb s) && forallb f32_finite (su_sun_dir s) && f32_range 0 F32_180 (su_begin_angle_deg s) &&
  f32_range (su_begin_angle_deg s) F32_180 (su_end_angle_deg s) && f32_finite (su_scale s) && f32_leb 0 (su_scale s).

(** [ScriptFogParams::valid]. *)
Definition fog_valid (f : ScriptFogParams) : bool :=
  f32_finite (fo_start_dist f) && f32_leb 0 (fo_start_dist f) && f32_finite (fo_halfway_dist f) && f32_ltb 0 (fo_halfway_dist f) &&
  finite_positive (fog_density f) && forallb (f32_range 0 F32_ONE) (fo_color_rgb f) && f32_range 0 F32_ONE (fo_max_opacity f) &&
  match fo_sun f with Some sun => sun_valid sun | None => true end.

(** [ScriptEarthquake::valid]. *)
Definition quake_valid (q : ScriptEarthquake) : bool :=
  forallb f32_finite (eq_origin q) && f32_finite (eq_scale q) && f32_leb 0 (eq_scale q) && f32_finite (eq_radius q) && f32_leb 0 (eq_radius q) &&
  (0 <? eq_duration_ms q).

Definition put_sun (s : ScriptSunFog) : list byte :=
  put_f32s (su_color_rgb s) ++ put_f32s (su_sun_dir s) ++ put_f32 (su_begin_angle_deg s) ++ put_f32 (su_end_angle_deg s) ++ put_f32 (su_scale s).
Definition get_sun : WParser ScriptSunFog :=
  color ← get_vec 3; dir ← get_vec 3; begin ← get_f32; end_angle ← get_f32; scale ← get_f32; mret (mkSun color dir begin end_angle scale).

Definition encode_fog_params (f : ScriptFogParams) : list byte :=
  put_f32 (fo_start_dist f) ++ put_f32 (fo_halfway_dist f) ++ put_f32s (fo_color_rgb f) ++ put_f32 (fo_max_opacity f) ++ put_option put_sun (fo_sun f).
Definition decode_fog_params : WParser ScriptFogParams :=
  start ← get_f32; halfway ← get_f32; color ← get_vec 3; opacity ← get_f32; sun ← get_option get_sun "invalid fog sun tag";
  _ ← lift (fail_if (negb (fog_valid (mkFogParams start halfway color opacity sun))) (malformed "invalid fog parameters"));
  mret (mkFogParams start halfway color opacity sun).

Definition put_fog (f : ScriptFog) : list byte :=
  encode_fog_params (sf_from f) ++ encode_fog_params (sf_to f) ++ put_i32 (sf_start_ms f) ++ put_i32 (sf_duration_ms f).
Definition get_fog : WParser ScriptFog :=
  from ← decode_fog_params; to ← decode_fog_params; start ← get_i32; duration ← get_i32;
  _ ← lift (fail_if (duration <? 0) (malformed "negative fog duration")); mret (mkFog from to start duration).

Definition put_quake (q : ScriptEarthquake) : list byte :=
  put_u32 (eq_id q) ++ put_f32s (eq_origin q) ++ put_f32 (eq_scale q) ++ put_f32 (eq_radius q) ++ put_i32 (eq_start_ms q) ++ put_i32 (eq_duration_ms q).
Definition get_quake : WParser ScriptEarthquake :=
  id ← get_u32; origin ← get_vec 3; scale ← get_f32; radius ← get_f32; start ← get_i32; duration ← get_i32;
  _ ← lift (fail_if (negb (quake_valid (mkQuake id origin scale radius start duration))) (malformed "invalid earthquake"));
  mret (mkQuake id origin scale radius start duration).

Definition MAX_SCRIPT_EARTHQUAKES : Z := 64.

(** A count of one byte that is checked, and the rows. *)
Definition get_capped8 {A} (what : String.string) (max : Z) (get : WParser A) : WParser (list A) :=
  count ← get_u8; _ ← lift (fail_if (max <? count) (malformed what)); parse_list (Z.to_nat count) get.
Arguments get_capped8 {A} what%_string_scope max get.

Definition encode_scene_effects (fog : option ScriptFog) (earthquakes : list ScriptEarthquake) : list byte :=
  put_option put_fog fog ++ put_list8 put_quake earthquakes.
Definition decode_scene_effects : WParser (option ScriptFog * list ScriptEarthquake) :=
  fog ← get_option get_fog "invalid fog tag"; quakes ← get_capped8 "too many earthquakes" MAX_SCRIPT_EARTHQUAKES get_quake; mret (fog, quakes).

(** ** Time and sound *)

Record ScriptSlowMotion : Type := mkSlow { sw_from : Z; sw_to : Z; sw_start_ms : Z; sw_duration_ms : Z }.
Definition slow_valid (s : ScriptSlowMotion) : bool :=
  f32_finite (sw_from s) && f32_finite (sw_to s) && f32_ltb 0 (sw_from s) && f32_ltb 0 (sw_to s) && (0 <=? sw_start_ms s) && (0 <=? sw_duration_ms s).
Definition put_slow (s : ScriptSlowMotion) : list byte :=
  put_f32 (sw_from s) ++ put_f32 (sw_to s) ++ put_i32 (sw_start_ms s) ++ put_i32 (sw_duration_ms s).
Definition get_slow : WParser ScriptSlowMotion :=
  from ← get_f32; to ← get_f32; start ← get_i32; duration ← get_i32;
  _ ← lift (fail_if (negb (slow_valid (mkSlow from to start duration))) (malformed "invalid slow-motion transition"));
  mret (mkSlow from to start duration).

Record ScriptAmbient : Type := mkAmbient { sa_alias : option (list byte); sa_start_ms : Z; sa_end_ms : Z }.
Definition ambient_valid (a : ScriptAmbient) : bool :=
  (0 <=? sa_start_ms a) && (sa_start_ms a <=? sa_end_ms a) &&
  match sa_alias a with Some name => negb (zlen name =? 0) && (zlen name <=? 1023) | None => true end.
Definition put_ambient (a : ScriptAmbient) : list byte := put_optional_text (sa_alias a) ++ put_i32 (sa_start_ms a) ++ put_i32 (sa_end_ms a).
Definition get_ambient : WParser ScriptAmbient :=
  alias ← get_optional_text; start ← get_i32; end_ms ← get_i32;
  _ ← lift (fail_if (negb (ambient_valid (mkAmbient alias start end_ms))) (malformed "invalid ambient transition"));
  mret (mkAmbient alias start end_ms).

(** ** The compass *)

Inductive ObjectiveState : Type := ObjEmpty | ObjActive | ObjInvisible | ObjDone | ObjCurrent | ObjFailed.
Definition objective_state_tag (s : ObjectiveState) : Z :=
  match s with ObjEmpty => 0 | ObjActive => 1 | ObjInvisible => 2 | ObjDone => 3 | ObjCurrent => 4 | ObjFailed => 5 end.
Definition objective_state_from_u8 (raw : Z) : option ObjectiveState :=
  if raw =? 0 then Some ObjEmpty else if raw =? 1 then Some ObjActive else if raw =? 2 then Some ObjInvisible
  else if raw =? 3 then Some ObjDone else if raw =? 4 then Some ObjCurrent else if raw =? 5 then Some ObjFailed else None.

Inductive Team : Type := TeamFree | TeamAxis | TeamAllies.
Definition team_tag (t : Team) : Z := match t with TeamFree => 0 | TeamAxis => 1 | TeamAllies => 2 end.
Definition team_from_packed_u8 (raw : Z) : option Team :=
  if raw =? 0 then Some TeamFree else if raw =? 1 then Some TeamAxis else if raw =? 2 then Some TeamAllies else None.

Definition get_objective_state : WParser ObjectiveState := raw ← get_u8; state ← lift (ok_or (malformed "objective state") (objective_state_from_u8 raw)); mret state.
Definition get_team : WParser Team := raw ← get_u8; team ← lift (ok_or (malformed "objective team") (team_from_packed_u8 raw)); mret team.

Record CompassObjective : Type := mkObjective {
  ob_index : Z; ob_state : ObjectiveState; ob_origin : list Z; ob_team : Team; ob_icon : list byte; ob_viewer : option Z }.

(** [viewer as i32], and back by [u32::try_from]. *)
Definition put_viewer (viewer : option Z) : list byte := put_i32 (match viewer with Some viewer => i32_wrap viewer | None => -1 end).
Definition get_viewer : WParser (option Z) := raw ← get_i32; mret (if raw <? 0 then None else Some raw).

Definition put_objective (o : CompassObjective) : list byte :=
  put_u8 (ob_index o) ++ put_u8 (objective_state_tag (ob_state o)) ++ put_f32s (ob_origin o) ++ put_u8 (team_tag (ob_team o)) ++ put_text (ob_icon o) ++
  put_viewer (ob_viewer o).
Definition get_objective : WParser CompassObjective :=
  index ← get_u8; state ← get_objective_state; origin ← get_vec 3; team ← get_team; icon ← get_text; viewer ← get_viewer;
  mret (mkObjective index state origin team icon viewer).

Record CompassVehicle : Type := mkVehicle {
  cv_origin : list Z; cv_yaw : Z; cv_owner : Z; cv_team : Z; cv_icons : list byte * list byte; cv_size : list Z }.
Definition put_vehicle (v : CompassVehicle) : list byte :=
  put_f32s (cv_origin v) ++ put_f32 (cv_yaw v) ++ put_u32 (cv_owner v) ++ put_i32 (cv_team v) ++ put_texts (cv_icons v) ++ concat (map put_i32 (cv_size v)).
Definition get_vehicle : WParser CompassVehicle :=
  origin ← get_vec 3; yaw ← get_f32; owner ← get_u32; team ← get_i32; icons ← get_texts; size ← parse_list 2 get_i32;
  mret (mkVehicle origin yaw owner team icons size).

(** ** Effects *)

(** Whether there is one, and a number in any case. *)
Definition put_some (put : Z -> list byte) (o : option Z) : list byte := put_bool (bool_decide (is_Some o)) ++ put (default 0 o).
Definition get_some (get : WParser Z) : WParser (option Z) := present ← get_bool; v ← get; mret (match present with true => Some v | false => None end).

Record ScriptEffect : Type := mkEffect {
  fx_id : Z; fx_effect : Z; fx_origin : list Z; fx_forward : list Z; fx_up : list Z; fx_start_ms : option Z; fx_repeat_ms : Z;
  fx_cull_distance : Z; fx_viewers : option Z }.
Definition put_effect (e : ScriptEffect) : list byte :=
  put_u32 (fx_id e) ++ put_u8 (fx_effect e) ++ put_f32s (fx_origin e) ++ put_f32s (fx_forward e) ++ put_f32s (fx_up e) ++
  put_some put_i32 (fx_start_ms e) ++ put_i32 (fx_repeat_ms e) ++ put_f32 (fx_cull_distance e) ++ put_some put_u64 (fx_viewers e).
Definition get_effect : WParser ScriptEffect :=
  id ← get_u32; effect ← get_u8; origin ← get_vec 3; forward ← get_vec 3; up ← get_vec 3; start ← get_some get_i32; repeat_ms ← get_i32;
  cull ← get_f32; viewers ← get_some get_u64; mret (mkEffect id effect origin forward up start repeat_ms cull viewers).

(** ** Rows that are checked against those before *)

Fixpoint get_checked {A} (get : WParser A) (ok : list A -> A -> bool) (what : String.string) (count : nat) (rows : list A) : WParser (list A) :=
  match count with
  | O => mret rows
  | S count => row ← get; _ ← lift (fail_if (negb (ok rows row)) (malformed what)); get_checked get ok what count (rows ++ [row])
  end.
Arguments get_checked {A} get ok what%_string_scope count rows.

Definition put_rumble (row : Z * list byte) : list byte := put_i32 row.1 ++ put_text row.2.
Definition get_rumble : WParser (Z * list byte) := index ← get_i32; name ← get_text; mret (index, name).
Definition rumble_ok (rows : list (Z * list byte)) (row : Z * list byte) : bool :=
  (1 <=? row.1) && (row.1 <=? 255) && negb (zlen row.2 =? 0) && (zlen row.2 <=? 1023) && negb (existsb (fun old => old.1 =? row.1) rows).
Definition encode_rumble_aliases (rows : list (Z * list byte)) : list byte := put_u32 (wrap32 (zlen rows)) ++ concat (map put_rumble rows).
Definition decode_rumble_aliases : WParser (list (Z * list byte)) :=
  count ← get_u32; _ ← lift (fail_if (255 <? count) (malformed "too many rumble aliases"));
  get_checked get_rumble rumble_ok "invalid rumble alias" (Z.to_nat count) [].

Record VehicleHudTarget : Type := mkHudTarget { vt_slot : Z; vt_entity : Z; vt_model : Z; vt_owner : Z }.
Definition put_hud_target (t : VehicleHudTarget) : list byte := put_u8 (vt_slot t) ++ put_u16 (vt_entity t) ++ put_u32 (vt_model t) ++ put_u32 (vt_owner t).
Definition get_hud_target : WParser VehicleHudTarget :=
  slot ← get_u8; entity ← get_u16; model ← get_u32; owner ← get_u32; mret (mkHudTarget slot entity model owner).
Definition hud_target_ok (rows : list VehicleHudTarget) (t : VehicleHudTarget) : bool :=
  (vt_slot t <? 8) && (vt_entity t <? ENTITYNUM_NONE) &&
  negb (existsb (fun old => (vt_slot old =? vt_slot t) || (vt_entity old =? vt_entity t) || (vt_model old =? vt_model t)) rows).
Definition encode_vehicle_targets (rows : list VehicleHudTarget) : list byte := put_list8 put_hud_target rows.
Definition decode_vehicle_targets : WParser (list VehicleHudTarget) :=
  count ← get_u8; _ ← lift (fail_if (8 <? count) (malformed "too many vehicle targets"));
  get_checked get_hud_target hud_target_ok "invalid vehicle target" (Z.to_nat count) [].

(** ** The whole *)

Record ObjectiveMatch : Type := mkObjectives {
  om_scores : list Z;
  om_compass : list CompassObjective;
  om_vehicles : list CompassVehicle;
  om_vehicle_targets : list VehicleHudTarget;
  om_server_info : list (list byte * list byte);
  om_game_end_time : Z;
  om_slow_motion : option ScriptSlowMotion;
  om_ambient : option ScriptAmbient;
  om_ac130_ambient : option ScriptAmbient;
  om_rumble_aliases : list (Z * list byte);
  om_scripted_effects : bool;
  om_effects : list ScriptEffect;
  om_fog : option ScriptFog;
  om_earthquakes : list ScriptEarthquake;
  om_naked_vision : option VisionChange;
  om_thermal_vision : option VisionChange;
  om_thermal_body_material : list byte;
  om_missile_vision : option VisionChange;
  om_night_vision : option VisionChange;
  om_pain_vision : option VisionChange;
}.

Definition objectives_default : ObjectiveMatch :=
  mkObjectives [0; 0; 0] [] [] [] [] 0 None None None [] false [] None [] None None [] None None None.

Definition encode_objectives (m : ObjectiveMatch) : list byte :=
  concat (map put_i32 (om_scores m)) ++ put_list8 put_objective (om_compass m) ++ put_list16 put_texts (om_server_info m) ++
  put_i32 (om_game_end_time m) ++ put_bool (om_scripted_effects m) ++ put_list16 put_effect (om_effects m) ++
  encode_vision (om_naked_vision m) ++ encode_vision (om_thermal_vision m) ++ encode_vision (om_missile_vision m) ++
  encode_vision (om_night_vision m) ++ encode_vision (om_pain_vision m) ++
  encode_scene_effects (om_fog m) (om_earthquakes m) ++ put_list16 put_vehicle (om_vehicles m) ++
  put_option put_slow (om_slow_motion m) ++ put_option put_ambient (om_ambient m) ++ put_option put_ambient (om_ac130_ambient m) ++
  encode_rumble_aliases (om_rumble_aliases m) ++ put_text (om_thermal_body_material m) ++ encode_vehicle_targets (om_vehicle_targets m).

Definition decode_objectives : WParser ObjectiveMatch :=
  scores ← parse_list 3 get_i32; compass ← get_list8 get_objective; server_info ← get_list16 get_texts; game_end_time ← get_i32;
  scripted ← get_bool; effects ← get_list16 get_effect;
  naked ← decode_vision; thermal ← decode_vision; missile ← decode_vision; night ← decode_vision; pain ← decode_vision;
  scene ← decode_scene_effects; vehicles ← get_list16 get_vehicle;
  slow_motion ← get_option get_slow "invalid slow-motion tag";
  ambient ← get_option get_ambient "invalid ambient tag"; ac130 ← get_option get_ambient "invalid ambient tag";
  rumble ← decode_rumble_aliases; material ← get_text; targets ← decode_vehicle_targets;
  mret (mkObjectives scores compass vehicles targets server_info game_end_time slow_motion ambient ac130 rumble scripted effects scene.1 scene.2
          naked thermal material missile night pain).

(** * Properties

    What the host's objectives can be is what the client takes. *)

Definition valid_sun (s : ScriptSunFog) : Prop :=
  vec 3 (su_color_rgb s) /\ vec 3 (su_sun_dir s) /\ is_u32 (su_begin_angle_deg s) /\ is_u32 (su_end_angle_deg s) /\ is_u32 (su_scale s).

#[export] Instance sun_codec : WireCodec put_sun get_sun valid_sun.
Proof.
  split. intros [] Hv. unfold put_sun, get_sun, valid_sun in *. cbn [su_color_rgb su_sun_dir su_begin_angle_deg su_end_angle_deg su_scale] in *. wire_fields.
Qed.

Definition valid_fog_params (f : ScriptFogParams) : Prop :=
  is_u32 (fo_start_dist f) /\ is_u32 (fo_halfway_dist f) /\ vec 3 (fo_color_rgb f) /\ is_u32 (fo_max_opacity f) /\ option_of valid_sun (fo_sun f) /\
  fog_valid f = true.

(** What is checked once it is read. *)
Lemma parses_check {A} (ok : bool) what (k : WParser A) u y : ok = true -> parses k u y -> parses (lift (fail_if (negb ok) (malformed what)) ≫= fun _ => k) u y.
Proof. intros -> Hk. by eapply parses_lift. Qed.

#[export] Instance fog_params_codec : WireCodec encode_fog_params decode_fog_params valid_fog_params.
Proof.
  split. intros [] (H1 & H2 & H3 & H4 & H5 & Hok). unfold encode_fog_params, decode_fog_params.
  cbn [fo_start_dist fo_halfway_dist fo_color_rgb fo_max_opacity fo_sun] in *. do 4 wire_step.
  eapply parses_end; [by apply wire_parses|]. apply parses_check; [done|apply parses_ret].
Qed.

Definition valid_fog (f : ScriptFog) : Prop :=
  valid_fog_params (sf_from f) /\ valid_fog_params (sf_to f) /\ is_i32 (sf_start_ms f) /\ is_i32 (sf_duration_ms f) /\ 0 <= sf_duration_ms f.

#[export] Instance fog_codec : WireCodec put_fog get_fog valid_fog.
Proof.
  split. intros [] (H1 & H2 & H3 & H4 & Hd). unfold put_fog, get_fog. cbn [sf_from sf_to sf_start_ms sf_duration_ms] in *. do 3 wire_step.
  eapply parses_end; [by apply wire_parses|]. cbv beta. rewrite (proj2 (Z.ltb_ge _ _)) by done. eapply parses_lift; [reflexivity|apply parses_ret].
Qed.

Definition valid_quake (q : ScriptEarthquake) : Prop :=
  is_u32 (eq_id q) /\ vec 3 (eq_origin q) /\ is_u32 (eq_scale q) /\ is_u32 (eq_radius q) /\ is_i32 (eq_start_ms q) /\ is_i32 (eq_duration_ms q) /\
  quake_valid q = true.

#[export] Instance quake_codec : WireCodec put_quake get_quake valid_quake.
Proof.
  split. intros [] (H1 & H2 & H3 & H4 & H5 & H6 & Hok). unfold put_quake, get_quake.
  cbn [eq_id eq_origin eq_scale eq_radius eq_start_ms eq_duration_ms] in *. do 5 wire_step.
  eapply parses_end; [by apply wire_parses|]. apply parses_check; [done|apply parses_ret].
Qed.

Lemma parses_capped8 {A} (put : A -> list byte) get valid `{!WireCodec put get valid} what max rows :
  rows_of valid max rows -> max <= u8_max -> parses (get_capped8 what max get) (put_list8 put rows) rows.
Proof.
  intros [Hn Hv] Hmax. unfold put_list8, get_capped8. pose proof (zlen_nonneg rows). assert (wrap8 (zlen rows) = zlen rows) as -> by ilia.
  eapply parses_bind; [apply parses_put_u8; ilia|]. cbv beta. eapply parses_lift; [unfold fail_if; by rewrite (proj2 (Z.ltb_ge _ _))|].
  eapply wire_list; [apply _|unfold zlen; lia|done].
Qed.

Lemma parses_scene fog quakes : option_of valid_fog fog -> rows_of valid_quake MAX_SCRIPT_EARTHQUAKES quakes ->
  parses decode_scene_effects (encode_scene_effects fog quakes) (fog, quakes).
Proof.
  intros Hf Hq. unfold encode_scene_effects, decode_scene_effects. wire_step. eapply parses_end; [|apply parses_ret].
  eapply parses_capped8; [apply _|exact Hq|]. unfold MAX_SCRIPT_EARTHQUAKES, u8_max. lia.
Qed.

Definition valid_slow (s : ScriptSlowMotion) : Prop :=
  is_u32 (sw_from s) /\ is_u32 (sw_to s) /\ is_i32 (sw_start_ms s) /\ is_i32 (sw_duration_ms s) /\ slow_valid s = true.

#[export] Instance slow_codec : WireCodec put_slow get_slow valid_slow.
Proof.
  split. intros [] (H1 & H2 & H3 & H4 & Hok). unfold put_slow, get_slow. cbn [sw_from sw_to sw_start_ms sw_duration_ms] in *. do 3 wire_step.
  eapply parses_end; [by apply wire_parses|]. apply parses_check; [done|apply parses_ret].
Qed.

Definition valid_ambient (a : ScriptAmbient) : Prop :=
  option_of text_ok (sa_alias a) /\ is_i32 (sa_start_ms a) /\ is_i32 (sa_end_ms a) /\ ambient_valid a = true.

#[export] Instance ambient_codec : WireCodec put_ambient get_ambient valid_ambient.
Proof.
  split. intros [] (H1 & H2 & H3 & Hok). unfold put_ambient, get_ambient. cbn [sa_alias sa_start_ms sa_end_ms] in *. do 2 wire_step.
  eapply parses_end; [by apply wire_parses|]. apply parses_check; [done|apply parses_ret].
Qed.

#[export] Instance objective_state_codec : WireCodec (fun s => put_u8 (objective_state_tag s)) get_objective_state (fun _ => True).
Proof. split. intros [] _; (eapply parses_end; [solve [eauto with wire]|]); (eapply parses_lift; [reflexivity|apply parses_ret]). Qed.

#[export] Instance team_codec : WireCodec (fun t => put_u8 (team_tag t)) get_team (fun _ => True).
Proof. split. intros [] _; (eapply parses_end; [solve [eauto with wire]|]); (eapply parses_lift; [reflexivity|apply parses_ret]). Qed.

Definition valid_viewer (viewer : option Z) : Prop := option_of (fun v => 0 <= v <= i32_max) viewer.

#[export] Instance viewer_codec : WireCodec put_viewer get_viewer valid_viewer.
Proof.
  split. intros [v|] Hv; unfold put_viewer, get_viewer; cbn [valid_viewer option_of] in *.
  - assert (i32_wrap v = v) as -> by (apply to_signed_wrap32; ilia). eapply parses_end; [apply parses_put_i32; ilia|]. cbv beta.
    rewrite (proj2 (Z.ltb_ge _ _)) by lia. apply parses_ret.
  - eapply parses_end; [apply parses_put_i32; ilia|]. apply parses_ret.
Qed.

Definition valid_objective (o : CompassObjective) : Prop :=
  is_u8 (ob_index o) /\ vec 3 (ob_origin o) /\ text_ok (ob_icon o) /\ valid_viewer (ob_viewer o).

#[export] Instance objective_codec : WireCodec put_objective get_objective valid_objective.
Proof.
  split. intros [] (H1 & H2 & H3 & H4). unfold put_objective, get_objective. cbn [ob_index ob_state ob_origin ob_team ob_icon ob_viewer] in *.
  wire_step. eapply parses_bind; [by apply (wire_parses (WireCodec := objective_state_codec))|]. cbv beta. wire_step.
  eapply parses_bind; [by apply (wire_parses (WireCodec := team_codec))|]. cbv beta. wire_step. wire_last.
Qed.

#[export] Instance i32_list_codec n : WireCodec (fun l => concat (map put_i32 l)) (parse_list n get_i32) (array_of is_i32 n) := array_codec _ _ _ n _.

Definition valid_vehicle (v : CompassVehicle) : Prop :=
  vec 3 (cv_origin v) /\ is_u32 (cv_yaw v) /\ is_u32 (cv_owner v) /\ is_i32 (cv_team v) /\ texts_ok (cv_icons v) /\ array_of is_i32 2 (cv_size v).

#[export] Instance vehicle_codec : WireCodec put_vehicle get_vehicle valid_vehicle.
Proof.
  split. intros [] (H1 & H2 & H3 & H4 & H5 & H6). unfold put_vehicle, get_vehicle. cbn [cv_origin cv_yaw cv_owner cv_team cv_icons cv_size] in *.
  do 5 wire_step. eapply parses_end; [by apply (wire_parses (WireCodec := i32_list_codec 2))|]. apply parses_ret.
Qed.

#[export] Instance some_codec put get valid `{!WireCodec put get valid} : valid 0 -> WireCodec (put_some put) (get_some get) (option_of valid).
Proof.
  intros H0. split. intros o Hv. unfold put_some, get_some. wire_step. eapply parses_end; [apply wire_parses|].
  - destruct o; [exact Hv|exact H0].
  - destruct o; apply parses_ret.
Qed.

Definition valid_effect (e : ScriptEffect) : Prop :=
  is_u32 (fx_id e) /\ is_u8 (fx_effect e) /\ vec 3 (fx_origin e) /\ vec 3 (fx_forward e) /\ vec 3 (fx_up e) /\ option_of is_i32 (fx_start_ms e) /\
  is_i32 (fx_repeat_ms e) /\ is_u32 (fx_cull_distance e) /\ option_of is_u64 (fx_viewers e).

#[export] Instance some_i32_codec : WireCodec (put_some put_i32) (get_some get_i32) (option_of is_i32).
Proof. apply (some_codec _ _ _). ilia. Qed.
#[export] Instance some_u64_codec : WireCodec (put_some put_u64) (get_some get_u64) (option_of is_u64).
Proof. apply (some_codec _ _ _). unfold is_u64, u64_max. lia. Qed.

#[export] Instance effect_codec : WireCodec put_effect get_effect valid_effect.
Proof.
  split. intros [] Hv. unfold put_effect, get_effect, valid_effect in *.
  cbn [fx_id fx_effect fx_origin fx_forward fx_up fx_start_ms fx_repeat_ms fx_cull_distance fx_viewers] in *. wire_fields.
Qed.

(** Each row passes the check against those before it. *)
Fixpoint all_ok {A} (ok : list A -> A -> bool) (before rows : list A) : bool :=
  match rows with [] => true | row :: rows => ok before row && all_ok ok (before ++ [row]) rows end.

Lemma parses_get_checked {A} (put : A -> list byte) get valid `{!WireCodec put get valid} ok what rows : forall before,
  Forall valid rows -> all_ok ok before rows = true -> parses (get_checked get ok what (length rows) before) (concat (map put rows)) (before ++ rows).
Proof.
  induction rows as [|row rows IH]; intros before Hv Hok; [rewrite app_nil_r; apply parses_ret|].
  apply list.Forall_cons in Hv as [Hr Hv]. cbn [all_ok length map concat get_checked] in *. apply andb_true_iff in Hok as [Hok Hoks].
  wire_step. apply parses_check; [done|]. replace (before ++ row :: rows) with ((before ++ [row]) ++ rows) by by rewrite <- app_assoc. by apply IH.
Qed.

#[export] Instance rumble_codec : WireCodec put_rumble get_rumble (fun row => is_i32 row.1 /\ text_ok row.2).
Proof. split. intros [index name] Hv. unfold put_rumble, get_rumble. cbn [fst snd] in *. wire_fields. Qed.

Definition valid_rumbles (rows : list (Z * list byte)) : Prop :=
  rows_of (fun row => is_i32 row.1 /\ text_ok row.2) 255 rows /\ all_ok rumble_ok [] rows = true.

#[export] Instance rumbles_codec : WireCodec encode_rumble_aliases decode_rumble_aliases valid_rumbles.
Proof.
  split. intros rows [[Hn Hv] Hok]. unfold encode_rumble_aliases, decode_rumble_aliases. pose proof (zlen_nonneg rows).
  assert (wrap32 (zlen rows) = zlen rows) as -> by ilia. eapply parses_bind; [apply parses_put_u32; ilia|]. cbv beta.
  eapply parses_lift; [unfold fail_if; by rewrite (proj2 (Z.ltb_ge _ _))|]. replace (Z.to_nat (zlen rows)) with (length rows) by (unfold zlen; lia).
  by eapply (parses_get_checked _ _ _ rumble_ok _ rows []).
Qed.

Definition valid_hud_target (t : VehicleHudTarget) : Prop := is_u8 (vt_slot t) /\ is_u16 (vt_entity t) /\ is_u32 (vt_model t) /\ is_u32 (vt_owner t).

#[export] Instance hud_target_codec : WireCodec put_hud_target get_hud_target valid_hud_target.
Proof. split. intros [] Hv. unfold put_hud_target, get_hud_target, valid_hud_target in *. cbn [vt_slot vt_entity vt_model vt_owner] in *. wire_fields. Qed.

Definition valid_targets (rows : list VehicleHudTarget) : Prop := rows_of valid_hud_target 8 rows /\ all_ok hud_target_ok [] rows = true.

#[export] Instance targets_codec : WireCodec encode_vehicle_targets decode_vehicle_targets valid_targets.
Proof.
  split. intros rows [[Hn Hv] Hok]. unfold encode_vehicle_targets, decode_vehicle_targets, put_list8. pose proof (zlen_nonneg rows).
  assert (wrap8 (zlen rows) = zlen rows) as -> by ilia. eapply parses_bind; [apply parses_put_u8; ilia|]. cbv beta.
  eapply parses_lift; [unfold fail_if; by rewrite (proj2 (Z.ltb_ge _ _))|]. replace (Z.to_nat (zlen rows)) with (length rows) by (unfold zlen; lia).
  by eapply (parses_get_checked _ _ _ hud_target_ok _ rows []).
Qed.

Record valid_objectives (m : ObjectiveMatch) : Prop := {
  vo_scores : array_of is_i32 3 (om_scores m) /\ is_i32 (om_game_end_time m) /\ text_ok (om_thermal_body_material m);
  vo_compass : rows_of valid_objective u8_max (om_compass m) /\ rows_of valid_vehicle u16_max (om_vehicles m) /\ valid_targets (om_vehicle_targets m) /\
    rows_of texts_ok u16_max (om_server_info m);
  vo_time : option_of valid_slow (om_slow_motion m) /\ option_of valid_ambient (om_ambient m) /\ option_of valid_ambient (om_ac130_ambient m) /\
    valid_rumbles (om_rumble_aliases m);
  vo_scene : rows_of valid_effect u16_max (om_effects m) /\ option_of valid_fog (om_fog m) /\ rows_of valid_quake MAX_SCRIPT_EARTHQUAKES (om_earthquakes m);
  vo_visions : option_of valid_vision (om_naked_vision m) /\ option_of valid_vision (om_thermal_vision m) /\ option_of valid_vision (om_missile_vision m) /\
    option_of valid_vision (om_night_vision m) /\ option_of valid_vision (om_pain_vision m);
}.

#[export] Instance objectives_codec : WireCodec encode_objectives decode_objectives valid_objectives.
Proof.
  split. intros m [(Hs & He & Hm) (Hc & Hve & Ht & Hi) (Hsl & Ha & Hac & Hr) (Hf & Hfog & Hq) (V1 & V2 & V3 & V4 & V5)].
  destruct m. unfold encode_objectives, decode_objectives.
  cbn [om_scores om_compass om_vehicles om_vehicle_targets om_server_info om_game_end_time om_slow_motion om_ambient om_ac130_ambient om_rumble_aliases
    om_scripted_effects om_effects om_fog om_earthquakes om_naked_vision om_thermal_vision om_thermal_body_material om_missile_vision om_night_vision
    om_pain_vision] in *.
  eapply parses_bind; [by apply (wire_parses (WireCodec := i32_list_codec 3))|]. cbv beta. do 10 wire_step.
  eapply parses_bind; [by apply parses_scene|]. cbv beta. do 6 wire_step. wire_last.
Qed.
