(* ===== verification/SnapshotMeta.v ===== *)
(** * The meta of a snapshot

    [SnapshotMeta] of crates/sim/src/match_state/snapshot_meta.rs with [encode_snapshot_meta_body] and
    [decode_snapshot_meta_body] of crates/net/src/transport/meta_wire.rs, as the operations that
    [MetaOps] asks for, and its laws. *)

From S2P Require Export FrameWire MetaEntities MetaObjectives.

#[local] Open Scope Z_scope.

(** ** The match *)

Inductive PrematchStep : Type := PrematchWaiting (elapsed_ms : Z) | PrematchStarting (elapsed_ms : Z) | PrematchDone.

Inductive GameModeKind : Type :=
| FreeForAll | Demolition | Domination | TeamDeathmatch | SearchAndDestroy | CaptureTheFlag | Headquarters | Sabotage.
Definition kind_wire_tag (kind : GameModeKind) : Z :=
  match kind with
  | FreeForAll => 0 | Demolition => 1 | Domination => 2 | TeamDeathmatch => 3 | SearchAndDestroy => 4 | CaptureTheFlag => 5
  | Headquarters => 6 | Sabotage => 7
  end.
Definition kind_from_wire_tag (tag : Z) : option GameModeKind :=
  if tag =? 0 then Some FreeForAll else if tag =? 1 then Some Demolition else if tag =? 2 then Some Domination
  else if tag =? 3 then Some TeamDeathmatch else if tag =? 4 then Some SearchAndDestroy else if tag =? 5 then Some CaptureTheFlag
  else if tag =? 6 then Some Headquarters else if tag =? 7 then Some Sabotage else None.

(** The fields of [SnapshotMeta], by the section that has them. *)
Record MatchHeader : Type := mkHeader {
  mh_phase : SimMatchPhase;
  mh_round_serial : Z;
  mh_match_elapsed_ms : Z;
  mh_prematch : PrematchStep;
  mh_score_limit : Z;
  mh_time_limit_ms : Z;
  mh_kind : GameModeKind;
  mh_clients : list (Z * ClientSnapshotMeta);
}.
Record MetaEvents : Type := mkEvents { me_journal : list WireEventRecord; me_entity_events : list EntityEventRecord; me_pellet_fx : list PelletFxRecord }.
Record MetaNames : Type := mkNames {
  mn_sound_aliases : list (Z * list byte);
  mn_effect_names : list (Z * list byte);
  mn_hud_materials : list (Z * list byte);
  mn_hud_strings : list (Z * list byte);
  mn_rng : Fields;
}.

Record SnapshotMeta : Type := mkMeta {
  mt_header : MatchHeader;
  mt_events : MetaEvents;
  mt_names : MetaNames;
  mt_world_objects : WorldObjectSnapshot;
  mt_entity_dobjs : list (Z * DObjSemanticState);
  mt_corpses : PlayerCorpsePool;
  mt_entities : list EntityState;
  mt_script_movers : list ScriptMoverGentity;
  mt_entity_kernel : EntityKernelSnapshot;
  mt_item_ammo : list Fields;
  mt_item_pickups : list Fields;
  mt_area_entities : option AreaEntityWorldSnapshot;
  mt_objectives : ObjectiveMatch;
}.

Definition header_default : MatchHeader := mkHeader Warmup 0 0 (PrematchWaiting 0) 0 0 FreeForAll [].
Definition corpses_default : PlayerCorpsePool := mkCorpses (replicate (Z.to_nat MAX_CLIENT_CORPSES) corpse_default) 0 0.
Definition kernel_default : EntityKernelSnapshot := mkKernel [] GENTITY_RESERVED_COUNT [] 0 0.
Definition snapshot_meta_default : SnapshotMeta :=
  mkMeta header_default (mkEvents [] [] []) (mkNames [] [] [] [] [[0]; [0]; [0]; [0]; [0]]) world_default [] corpses_default [] [] kernel_default [] []
    None objectives_default.

Definition with_world_objects (m : SnapshotMeta) (w : WorldObjectSnapshot) : SnapshotMeta :=
  mkMeta (mt_header m) (mt_events m) (mt_names m) w (mt_entity_dobjs m) (mt_corpses m) (mt_entities m) (mt_script_movers m) (mt_entity_kernel m)
    (mt_item_ammo m) (mt_item_pickups m) (mt_area_entities m) (mt_objectives m).

(** ** The sections *)

Definition put_prematch (p : PrematchStep) : list byte :=
  match p with
  | PrematchWaiting elapsed => put_u8 0 ++ put_u32 elapsed
  | PrematchStarting elapsed => put_u8 1 ++ put_u32 elapsed
  | PrematchDone => put_u8 2 ++ put_u32 0
  end.
Definition get_prematch : WParser PrematchStep :=
  tag ← get_u8; elapsed ← get_u32;
  if tag =? 0 then mret (PrematchWaiting elapsed) else if tag =? 1 then mret (PrematchStarting elapsed) else if tag =? 2 then mret PrematchDone
  else lift (Err (malformed "unknown prematch tag")).

Definition put_phase (phase : SimMatchPhase) : list byte := put_u8 (phase_tag phase).
Definition get_phase : WParser SimMatchPhase := tag ← get_u8; phase ← lift (phase_from_tag tag); mret phase.
Definition put_kind (kind : GameModeKind) : list byte := put_u8 (kind_wire_tag kind).
Definition get_kind : WParser GameModeKind := tag ← get_u8; kind ← lift (ok_or (malformed "unknown GameModeKind tag") (kind_from_wire_tag tag)); mret kind.

Definition put_client (row : Z * ClientSnapshotMeta) : option (list byte) := meta ← encode_client_meta row.2; Some (put_u32 row.1 ++ meta).
Definition get_client : WParser (Z * ClientSnapshotMeta) := client ← get_u32; meta ← decode_client_meta; mret (client, meta).

Definition put_match_header (h : MatchHeader) : option (list byte) :=
  clients ← put_list16_opt put_client (mh_clients h);
  Some (put_phase (mh_phase h) ++ put_u32 (mh_round_serial h) ++ put_u32 (mh_match_elapsed_ms h) ++ put_prematch (mh_prematch h) ++
        put_i32 (mh_score_limit h) ++ put_u32 (mh_time_limit_ms h) ++ put_kind (mh_kind h) ++ clients).
Definition get_match_header : WParser MatchHeader :=
  phase ← get_phase; round ← get_u32; elapsed ← get_u32; prematch ← get_prematch; score ← get_i32; time ← get_u32; kind ← get_kind;
  clients ← get_list16 get_client; mret (mkHeader phase round elapsed prematch score time kind clients).

Definition kept_events (keep : SimEvent -> bool) (e : MetaEvents) : MetaEvents :=
  mkEvents (List.filter (fun r => keep (ev_event r)) (me_journal e)) (me_entity_events e) (me_pellet_fx e).
Definition put_events (e : MetaEvents) : list byte :=
  put_list16 encode_event_record (me_journal e) ++ put_list16 encode_entity_event_record (me_entity_events e) ++
  put_list16 encode_pellet_fx_record (me_pellet_fx e).
Definition get_events : WParser MetaEvents :=
  journal ← get_list16 decode_event_record; entity_events ← get_list16 decode_entity_event_record; pellet_fx ← get_list16 decode_pellet_fx_record;
  mret (mkEvents journal entity_events pellet_fx).

Definition put_names (n : MetaNames) : list byte :=
  encode_sound_alias_cs (mn_sound_aliases n) ++ encode_sound_alias_cs (mn_effect_names n) ++ encode_sound_alias_cs (mn_hud_materials n) ++
  encode_hud_strings (mn_hud_strings n) ++ put_fields RNG_DEBUG_META (mn_rng n).
Definition get_names : WParser MetaNames :=
  sounds ← decode_sound_alias_cs; effects ← decode_sound_alias_cs; materials ← decode_sound_alias_cs; strings ← decode_hud_strings;
  rng ← get_fields RNG_DEBUG_META; mret (mkNames sounds effects materials strings rng).

Definition put_items (ammo pickups : list Fields) : list byte := encode_item_ammo ammo ++ encode_item_pickups pickups.
Definition get_items : WParser (list Fields * list Fields) := ammo ← decode_item_ammo; pickups ← decode_item_pickups; mret (ammo, pickups).

(** [encode_snapshot_meta_body]. *)
Definition encode_sections (keep : SimEvent -> bool) (m : SnapshotMeta) : option (list (list byte)) :=
  header ← put_match_header (mt_header m);
  Some [header; put_events (kept_events keep (mt_events m)); put_names (mt_names m); encode_entity_dobjs (mt_entity_dobjs m);
        encode_corpse_pool (mt_corpses m); encode_entity_states (mt_entities m); encode_script_movers (mt_script_movers m);
        encode_entity_kernel (mt_entity_kernel m); put_items (mt_item_ammo m) (mt_item_pickups m); encode_area_entities (mt_area_entities m);
        encode_objectives (mt_objectives m)].

(** [decode_snapshot_meta_body], with [remaining_after]. *)
Definition decode_sections : WParser (SnapshotMeta * list Z) :=
  header ← get_match_header; e0 ← get_remaining;
  events ← get_events; e1 ← get_remaining;
  names ← get_names; e2 ← get_remaining;
  dobjs ← decode_entity_dobjs; e3 ← get_remaining;
  corpses ← decode_corpse_pool; e4 ← get_remaining;
  entities ← decode_entity_states; e5 ← get_remaining;
  movers ← decode_script_movers; e6 ← get_remaining;
  kernel ← decode_entity_kernel; e7 ← get_remaining;
  items ← get_items; e8 ← get_remaining;
  area ← decode_area_entities; e9 ← get_remaining;
  objectives ← decode_objectives; e10 ← get_remaining;
  mret (mkMeta header events names world_default dobjs corpses entities movers kernel items.1 items.2 area objectives,
        [e0; e1; e2; e3; e4; e5; e6; e7; e8; e9; e10]).

#[export] Instance snapshot_meta_ops : MetaOps SnapshotMeta := {|
  meta_world_objects := mt_world_objects;
  set_world_objects := with_world_objects;
  meta_default := snapshot_meta_default;
  meta_sections := encode_sections;
  decode_meta_sections := decode_sections;
|}.

(** * Properties

    The client has every section of the meta, with the events that were kept_events. *)

Definition valid_prematch (p : PrematchStep) : Prop := match p with PrematchWaiting e | PrematchStarting e => is_u32 e | PrematchDone => True end.

#[export] Instance prematch_codec : WireCodec put_prematch get_prematch valid_prematch.
Proof.
  split. intros [e|e|] Hv; unfold get_prematch; cbn [put_prematch valid_prematch] in *.
  - wire_step. eapply parses_end; [by apply wire_parses|]. apply parses_ret.
  - wire_step. eapply parses_end; [by apply wire_parses|]. apply parses_ret.
  - wire_step. eapply (parses_end _ _ _ 0); [apply parses_put_u32; ilia|]. apply parses_ret.
Qed.

#[export] Instance phase_codec : WireCodec put_phase get_phase (fun _ => True).
Proof. split. intros [] _; (eapply parses_end; [solve [eauto with wire]|]); (eapply parses_lift; [reflexivity|apply parses_ret]). Qed.

#[export] Instance game_kind_codec : WireCodec put_kind get_kind (fun _ => True).
Proof. split. intros [] _; (eapply parses_end; [solve [eauto with wire]|]); (eapply parses_lift; [reflexivity|apply parses_ret]). Qed.

Definition valid_client_row (row : Z * ClientSnapshotMeta) : Prop := is_u32 row.1 /\ valid_client_meta row.2.

#[export] Instance client_codec : PartialCodec put_client get_client valid_client_row.
Proof.
  split. intros [client meta] u [Hc Hm] Hu. unfold put_client in Hu. cbn [fst snd] in *. destruct (encode_client_meta meta) as [bytes|] eqn:E; [|done].
  cbv [mbind option_bind] in Hu. apply (inj Some) in Hu as <-. unfold get_client. wire_step.
  eapply parses_end; [by eapply partial_parses|]. apply parses_ret.
Qed.

Definition valid_match_header (h : MatchHeader) : Prop :=
  is_u32 (mh_round_serial h) /\ is_u32 (mh_match_elapsed_ms h) /\ valid_prematch (mh_prematch h) /\ is_i32 (mh_score_limit h) /\
  is_u32 (mh_time_limit_ms h) /\ rows_of valid_client_row u16_max (mh_clients h).

#[export] Instance header_codec : PartialCodec put_match_header get_match_header valid_match_header.
Proof.
  split. intros h u (H1 & H2 & H3 & H4 & H5 & Hrows) Hu. unfold put_match_header in Hu. destruct (put_list16_opt _ _) as [clients|] eqn:E; [|done].
  cbv [mbind option_bind] in Hu. apply (inj Some) in Hu as <-. destruct h. unfold get_match_header.
  cbn [mh_phase mh_round_serial mh_match_elapsed_ms mh_prematch mh_score_limit mh_time_limit_ms mh_kind mh_clients] in *. do 7 wire_step.
  eapply parses_end; [by apply (partial_parses (PartialCodec := list16_partial _ _ _) _ _ Hrows)|]. apply parses_ret.
Qed.

Definition valid_events (e : MetaEvents) : Prop :=
  rows_of valid_event_record u16_max (me_journal e) /\ rows_of valid_entity_event u16_max (me_entity_events e) /\
  rows_of valid_pellet u16_max (me_pellet_fx e).

#[export] Instance events_codec : WireCodec put_events get_events valid_events.
Proof. split. intros [] Hv. unfold put_events, get_events, valid_events in *. cbn [me_journal me_entity_events me_pellet_fx] in *. wire_fields. Qed.

Lemma valid_kept_events keep e : valid_events e -> valid_events (kept_events keep e).
Proof.
  intros ([Hn Hv] & H2 & H3). split; [|done]. split; cbn [kept_events me_journal].
  - unfold zlen in *. pose proof (List.filter_length_le (fun r => keep (ev_event r)) (me_journal e)). lia.
  - rewrite list.Forall_forall in Hv |- *. intros r Hr%list_elem_of_In%List.filter_In. apply Hv, list_elem_of_In, Hr.
Qed.

Definition valid_names (n : MetaNames) : Prop :=
  rows_of valid_alias u8_max (mn_sound_aliases n) /\ rows_of valid_alias u8_max (mn_effect_names n) /\ rows_of valid_alias u8_max (mn_hud_materials n) /\
  rows_of valid_hud_string (ConfigStrings.CS_LOCALIZED_STRINGS_SLOTS - 1) (mn_hud_strings n) /\ valid_fields RNG_DEBUG_META (mn_rng n).

#[export] Instance names_codec : WireCodec put_names get_names valid_names.
Proof.
  split. intros [] Hv. unfold put_names, get_names, valid_names in *.
  cbn [mn_sound_aliases mn_effect_names mn_hud_materials mn_hud_strings mn_rng] in *. wire_fields.
Qed.

Lemma parses_items ammo pickups :
  rows_of (valid_fields DROPPED_ITEM_AMMO) u16_max ammo -> rows_of (valid_fields ITEM_PICKUP_RECORD) u16_max pickups ->
  parses get_items (put_items ammo pickups) (ammo, pickups).
Proof. intros Ha Hp. unfold get_items, put_items. wire_step. wire_last. Qed.

Record valid_meta (m : SnapshotMeta) : Prop := {
  vt_header : valid_match_header (mt_header m);
  vt_events : valid_events (mt_events m);
  vt_names : valid_names (mt_names m);
  vt_dobjs : rows_of valid_dobj u16_max (mt_entity_dobjs m);
  vt_corpses : valid_corpses (mt_corpses m);
  vt_entities : rows_of valid_entity_state u16_max (mt_entities m);
  vt_movers : rows_of valid_mover u16_max (mt_script_movers m);
  vt_kernel : valid_kernel (mt_entity_kernel m);
  vt_items : rows_of (valid_fields DROPPED_ITEM_AMMO) u16_max (mt_item_ammo m) /\ rows_of (valid_fields ITEM_PICKUP_RECORD) u16_max (mt_item_pickups m);
  vt_area : option_of valid_area (mt_area_entities m);
  vt_objectives : valid_objectives (mt_objectives m);
}.

(** What the client has of the meta: what is not sent of an entity, a mover or a corpse has its default,
    and the world objects are its own. *)
Definition meta_seen (keep : SimEvent -> bool) (m : SnapshotMeta) (w : WorldObjectSnapshot) : SnapshotMeta :=
  mkMeta (mt_header m) (kept_events keep (mt_events m)) (mt_names m) w (mt_entity_dobjs m) (corpses_seen (mt_corpses m)) (map entity_seen (mt_entities m))
    (map mover_seen (mt_script_movers m)) (mt_entity_kernel m) (mt_item_ammo m) (mt_item_pickups m) (mt_area_entities m) (mt_objectives m).
Definition snapshot_meta_agrees (keep : SimEvent -> bool) (host client : SnapshotMeta) : Prop := client = meta_seen keep host (mt_world_objects client).

(** A section and the mark behind it. *)
Lemma with_section {A B} n (p : WParser A) (k : A -> Z -> WParser B) u x sections y :
  parses p u x -> parses_with n (k x (zlen (concat sections) + n)) (concat sections) y ->
  parses_with n (x ← p; e ← get_remaining; k x e) (concat (u :: sections)) y.
Proof. intros Hp Hk. cbn [concat]. eapply with_read; [exact Hp|]. cbv beta. by apply with_remaining. Qed.

#[export] Instance snapshot_meta_laws : MetaLaws SnapshotMeta valid_meta snapshot_meta_agrees.
Proof.
  split; [|done]. intros keep m sections [Hh He Hn Hd Hc Hes Hm Hk [Hia Hip] Ha Ho] Hs. cbn [meta_sections snapshot_meta_ops] in Hs.
  unfold encode_sections in Hs. destruct (put_match_header _) as [header|] eqn:E; [|done]. cbv beta iota delta [mbind option_bind] in Hs.
  apply (inj Some) in Hs as <-. split; [done|]. exists (meta_seen keep m world_default). split; [|done].
  intros n. cbn [decode_meta_sections snapshot_meta_ops]. unfold decode_sections.
  apply (partial_parses (PartialCodec := header_codec) _ _ Hh) in E.
  pose proof (wire_parses (WireCodec := events_codec) _ (valid_kept_events keep _ He)) as P1. pose proof (wire_parses (WireCodec := names_codec) _ Hn) as P2.
  pose proof (wire_parses (WireCodec := dobjs_codec) _ Hd) as P3. pose proof (parses_corpse_pool _ Hc) as P4.
  pose proof (parses_entity_states _ Hes) as P5. pose proof (parses_movers _ Hm) as P6. pose proof (wire_parses (WireCodec := kernel_codec) _ Hk) as P7.
  pose proof (parses_items _ _ Hia Hip) as P8. pose proof (wire_parses (WireCodec := areas_codec) _ Ha) as P9.
  pose proof (wire_parses (WireCodec := objectives_codec) _ Ho) as P10.
  revert P1 P2 P3 P4 P5 P6 P7 P8 P9 P10.
  generalize (put_events (kept_events keep (mt_events m))) as u1, (put_names (mt_names m)) as u2, (encode_entity_dobjs (mt_entity_dobjs m)) as u3,
    (encode_corpse_pool (mt_corpses m)) as u4, (encode_entity_states (mt_entities m)) as u5, (encode_script_movers (mt_script_movers m)) as u6,
    (encode_entity_kernel (mt_entity_kernel m)) as u7, (put_items (mt_item_ammo m) (mt_item_pickups m)) as u8,
    (encode_area_entities (mt_area_entities m)) as u9, (encode_objectives (mt_objectives m)) as u10.
  intros. do 11 (eapply with_section; [eassumption|]; cbv beta). apply with_ret.
Qed.
