(* ===== verification/SessionHub.v ===== *)
(** * The host's side of the sessions

    [UdpAuthorityHub] of crates/net/src/transport/udp_session.rs: which relay members have a
    connection and a player, the state the host keeps for each of them, the admission of a peer
    once it applied its first snapshot, the accounts of the peers, and what of the received
    packets reaches the game.  [ConnectionTable] is from protocol.rs.  Sending the snapshots is in
    SnapshotFanout.

    Hash maps are [gmap]s, visited in the order of [map_to_list].  The mailbox and the bootstrap
    lane, shared with the relay task, are fields; the functions that read the clock take the time.
    [Frame] is the snapshot kept with a baseline and [Encoder] the state of the snapshot encoder,
    which this part only creates. *)

From S2P Require Export Accounts Actions Inbox Reliable Baseline SegmentDelta.

#[local] Open Scope Z_scope.

(** ** Connections *)

Record ConnectionTable : Type := mkConnections {
  ct_next_conn : Z;
  ct_next_client : Z;
  ct_assigned : gmap Z Z;
}.

Definition starting_at (first_client : Z) : ConnectionTable := mkConnections 0 first_client ∅.

(** The [while] loop: past the clients that are taken.  Every turn meets another one of them, so
    one turn more than there are is enough. *)
Fixpoint free_client (fuel : nat) (occupied : list Z) (next : Z) : Z :=
  match fuel with
  | O => next
  | S fuel => if bool_decide (next ∈ occupied) then free_client fuel occupied (wrapping_add32 next 1) else next
  end.

Definition accept_new (t : ConnectionTable) (occupied : list Z) : ConnectionTable * (Z * Z) :=
  let client := free_client (S (length occupied)) occupied (ct_next_client t) in
  let conn := wrapping_add64 (ct_next_conn t) 1 in
  (mkConnections conn (wrapping_add32 client 1) (<[conn := client]> (ct_assigned t)), (conn, client)).

Definition resolve (t : ConnectionTable) (connection : Z) : option Z := ct_assigned t !! connection.

Definition conn_retire (t : ConnectionTable) (connection : Z) : ConnectionTable * option Z :=
  (mkConnections (ct_next_conn t) (ct_next_client t) (delete connection (ct_assigned t)), ct_assigned t !! connection).

(** ** A peer *)

Record PeerAccount : Type := mkPeerAccount {
  pa_challenge : AccountChallenge;
  pa_challenge_sent : bool;
  pa_refusal_pending : bool;
  pa_owner : option AccountId;
  pa_offered : option AccountSnapshot;
}.

Inductive PeerAdmission : Type :=
| Uncommitted
| Pending (offer : QueuedBootstrap)
| Committed (bootstrap_id epoch : Z).

Record CommittedAdmission : Type := mkCommitted {
  ca_member_id : MemberId;
  ca_epoch : Z;
  ca_bootstrap_id : Z;
  ca_connection_id : Z;
  ca_first_commit : bool;
}.

Inductive AppliedAction : Type := Commit | RepeatEnter | Ignore.

Definition applied_action (pending : option (Z * Z * Z)) (committed : option Z) (bootstrap_id snapshot_seq epoch : Z)
    : AppliedAction :=
  if bool_decide (pending = Some (bootstrap_id, snapshot_seq, epoch)) then Commit
  else if bool_decide (committed = Some bootstrap_id) then RepeatEnter
  else Ignore.

Inductive HubFault : Type :=
| ChallengeFault (e : AccountIdentityError)
| EncodeFault (e : WireError)
| HubPanic.

Definition NAN_BITS : Z := 0x7FC00000.

(** [ShotSampleQuality::claims_history]. *)
Definition claims_history (q : ShotSampleQuality) : bool :=
  match q with SsExact | SsInterpolated => true | _ => false end.

Section Hub.
Context {Frame Encoder : Type}.
Context (frame_tick : Frame -> Z) (encoder_new : Encoder).
Context (limits : TransportBudget).
(** [ring] and [str::parse::<f32>]. *)
Context (sha256 : list byte -> list byte) (ed25519_verify : list byte -> list byte -> list byte -> bool).
Context (parse_f32 : list byte -> option Z).

Record PeerReplicationState : Type := mkPeer {
  pr_baseline : @AckedBaselineTable Frame FrameParts;
  pr_encoder : Encoder;
  pr_next_snap_seq : Z;
  pr_out_seq : Z;
  pr_in_ack : Z;
  pr_last_full : option Z;
  pr_sent_ticks : list Z;
  pr_admission : PeerAdmission;
  pr_control : ControlLane;
  pr_account : option PeerAccount;
  pr_pace : SnapshotPace;
  pr_held_ack : option (Z * Z);
}.

Definition peer_new : PeerReplicationState :=
  mkPeer (table_new 32) encoder_new 1 0 0 None [] Uncommitted lane_new None pace_default None.

Definition set_in_ack (p : PeerReplicationState) (in_ack : Z) : PeerReplicationState :=
  mkPeer (pr_baseline p) (pr_encoder p) (pr_next_snap_seq p) (pr_out_seq p) in_ack (pr_last_full p) (pr_sent_ticks p)
    (pr_admission p) (pr_control p) (pr_account p) (pr_pace p) (pr_held_ack p).
Definition set_baseline (p : PeerReplicationState) (t : @AckedBaselineTable Frame FrameParts) : PeerReplicationState :=
  mkPeer t (pr_encoder p) (pr_next_snap_seq p) (pr_out_seq p) (pr_in_ack p) (pr_last_full p) (pr_sent_ticks p)
    (pr_admission p) (pr_control p) (pr_account p) (pr_pace p) (pr_held_ack p).
Definition set_admission (p : PeerReplicationState) (a : PeerAdmission) : PeerReplicationState :=
  mkPeer (pr_baseline p) (pr_encoder p) (pr_next_snap_seq p) (pr_out_seq p) (pr_in_ack p) (pr_last_full p) (pr_sent_ticks p)
    a (pr_control p) (pr_account p) (pr_pace p) (pr_held_ack p).
Definition set_account (p : PeerReplicationState) (a : option PeerAccount) : PeerReplicationState :=
  mkPeer (pr_baseline p) (pr_encoder p) (pr_next_snap_seq p) (pr_out_seq p) (pr_in_ack p) (pr_last_full p) (pr_sent_ticks p)
    (pr_admission p) (pr_control p) a (pr_pace p) (pr_held_ack p).

Definition admits_gameplay (p : PeerReplicationState) (relay : bool) : bool :=
  if negb relay then true else match pr_admission p with Committed _ _ => true | _ => false end.

(** ** The hub *)

Record UdpAuthorityHub : Type := mkHub {
  hb_relay : RelayMailbox;
  hb_hello : HandshakeHello;
  hb_limits : ProtocolLimits;
  hb_connections : ConnectionTable;
  hb_peers : gmap Z MemberId;
  hb_replication : gmap Z PeerReplicationState;
  hb_bootstrap : option BootstrapLane;
  hb_next_bootstrap_id : gmap Z Z;
  hb_member_by_conn : gmap Z MemberId;
  hb_committed : list CommittedAdmission;
  hb_denied : gset MemberId;
  hb_accounts_required : bool;
}.

Definition hub_relay (hello : HandshakeHello) (first_client : Z) (mailbox : RelayMailbox) : UdpAuthorityHub :=
  mkHub mailbox hello (hh_limits hello) (starting_at first_client) ∅ ∅ None ∅ ∅ [] ∅ false.

Definition set_relay (h : UdpAuthorityHub) (m : RelayMailbox) : UdpAuthorityHub :=
  mkHub m (hb_hello h) (hb_limits h) (hb_connections h) (hb_peers h) (hb_replication h) (hb_bootstrap h)
    (hb_next_bootstrap_id h) (hb_member_by_conn h) (hb_committed h) (hb_denied h) (hb_accounts_required h).
Definition set_replication (h : UdpAuthorityHub) (r : gmap Z PeerReplicationState) : UdpAuthorityHub :=
  mkHub (hb_relay h) (hb_hello h) (hb_limits h) (hb_connections h) (hb_peers h) r (hb_bootstrap h)
    (hb_next_bootstrap_id h) (hb_member_by_conn h) (hb_committed h) (hb_denied h) (hb_accounts_required h).
Definition set_bootstrap (h : UdpAuthorityHub) (lane : option BootstrapLane) : UdpAuthorityHub :=
  mkHub (hb_relay h) (hb_hello h) (hb_limits h) (hb_connections h) (hb_peers h) (hb_replication h) lane
    (hb_next_bootstrap_id h) (hb_member_by_conn h) (hb_committed h) (hb_denied h) (hb_accounts_required h).
Definition set_committed (h : UdpAuthorityHub) (l : list CommittedAdmission) : UdpAuthorityHub :=
  mkHub (hb_relay h) (hb_hello h) (hb_limits h) (hb_connections h) (hb_peers h) (hb_replication h) (hb_bootstrap h)
    (hb_next_bootstrap_id h) (hb_member_by_conn h) l (hb_denied h) (hb_accounts_required h).
Definition set_denied (h : UdpAuthorityHub) (d : gset MemberId) : UdpAuthorityHub :=
  mkHub (hb_relay h) (hb_hello h) (hb_limits h) (hb_connections h) (hb_peers h) (hb_replication h) (hb_bootstrap h)
    (hb_next_bootstrap_id h) (hb_member_by_conn h) (hb_committed h) d (hb_accounts_required h).
Definition set_required (h : UdpAuthorityHub) (required : bool) : UdpAuthorityHub :=
  mkHub (hb_relay h) (hb_hello h) (hb_limits h) (hb_connections h) (hb_peers h) (hb_replication h) (hb_bootstrap h)
    (hb_next_bootstrap_id h) (hb_member_by_conn h) (hb_committed h) (hb_denied h) required.

Definition attach_bootstrap (h : UdpAuthorityHub) (lane : BootstrapLane) : UdpAuthorityHub := set_bootstrap h (Some lane).

Definition is_relay (h : UdpAuthorityHub) : bool := match hb_bootstrap h with Some _ => true | None => false end.

Definition live_packet_epoch (h : UdpAuthorityHub) : Z :=
  match hb_bootstrap h with Some lane => bn_epoch lane | None => 0 end.

(** [member_by_conn.iter().find(|(_, id)| **id == member_id)]. *)
Definition conn_of_member (h : UdpAuthorityHub) (member : MemberId) : option Z :=
  fst <$> find (fun e : Z * MemberId => bool_decide (e.2 = member)) (map_to_list (hb_member_by_conn h)).

Definition enroll_relay_member (h : UdpAuthorityHub) (member : MemberId) (occupied : list Z) : UdpAuthorityHub * Z :=
  match conn_of_member h member with
  | Some conn => (h, conn)
  | None =>
      let '(connections, (conn, _)) := accept_new (hb_connections h) occupied in
      (mkHub (hb_relay h) (hb_hello h) (hb_limits h) connections (<[conn := member]> (hb_peers h))
         (<[conn := peer_new]> (hb_replication h)) (hb_bootstrap h) (hb_next_bootstrap_id h)
         (<[conn := member]> (hb_member_by_conn h)) (hb_committed h) (hb_denied h) (hb_accounts_required h), conn)
  end.

Definition reconcile_relay_membership (h : UdpAuthorityHub) (members : list MemberId) (local : MemberId)
    (occupied : list Z) : UdpAuthorityHub :=
  foldl (fun h member =>
    if bool_decide (member = local) || bool_decide (member ∈ hb_denied h) then h
    else (enroll_relay_member h member occupied).1) h members.

(** The peer has the account the match requires. *)
Definition account_bound (p : PeerReplicationState) : bool :=
  match pr_account p with
  | Some a => bool_decide (is_Some (pa_owner a)) && bool_decide (is_Some (pa_offered a))
  | None => false
  end.

Definition take_committed_admissions (h : UdpAuthorityHub) : UdpAuthorityHub * list CommittedAdmission :=
  let live := live_packet_epoch h in
  let current a := (ca_epoch a =? live) && bool_decide (is_Some (hb_replication h !! ca_connection_id a)) in
  let bound a := negb (hb_accounts_required h) ||
                 match hb_replication h !! ca_connection_id a with Some p => account_bound p | None => false end in
  (set_committed h (filter (fun a => current a && negb (bound a) = true) (hb_committed h)),
   filter (fun a => current a && bound a = true) (hb_committed h)).

Definition client_of_member (h : UdpAuthorityHub) (member : MemberId) : option Z :=
  conn ← conn_of_member h member; resolve (hb_connections h) conn.

Definition retire_connection (h : UdpAuthorityHub) (conn : Z) : UdpAuthorityHub * option Z :=
  let '(connections, client) := conn_retire (hb_connections h) conn in
  (mkHub (hb_relay h) (hb_hello h) (hb_limits h) connections (delete conn (hb_peers h)) (delete conn (hb_replication h))
     (hb_bootstrap h) (delete conn (hb_next_bootstrap_id h)) (delete conn (hb_member_by_conn h))
     (filter (fun a => ca_connection_id a <> conn) (hb_committed h)) (hb_denied h) (hb_accounts_required h), client).

Definition retire_member (h : UdpAuthorityHub) (member : MemberId) : UdpAuthorityHub * option Z :=
  let h := set_denied h (hb_denied h ∖ {[member]}) in
  match conn_of_member h member with Some conn => retire_connection h conn | None => (h, None) end.

Definition deny_member (h : UdpAuthorityHub) (member : MemberId) : UdpAuthorityHub * option Z :=
  let '(h, client) := retire_member h member in
  (set_denied h ({[member]} ∪ hb_denied h), client).

(** [peers.keys().find(|conn| resolve(conn) == Ok(client))]. *)
Definition conn_of_client (h : UdpAuthorityHub) (client : Z) : option Z :=
  fst <$> find (fun e : Z * MemberId => bool_decide (resolve (hb_connections h) e.1 = Some client)) (map_to_list (hb_peers h)).

(** [None]: the encoder of the message panicked. *)
Definition retire_client_with_reason (now : Z) (h : UdpAuthorityHub) (client : Z) (reason : list byte)
    : option (UdpAuthorityHub * bool) :=
  match conn_of_client h client with
  | None => Some (h, false)
  | Some conn =>
      h ← match hb_member_by_conn h !! conn with
          | None => Some h
          | Some member =>
              packet ← encode_server_packet (fun _ => None)
                (Control (mkPacketHeader conn 0 0 (live_packet_epoch h)) (mkPayload 0 [(1, RowFailure reason)] 0));
              let '(m, _) := push_control_outbound limits now (hb_relay h) member packet in
              Some (set_denied (set_relay h m) ({[member]} ∪ hb_denied h))
          end;
      let '(h, client) := retire_connection h conn in
      Some (h, bool_decide (is_Some client))
  end.

Definition hub_reset_match (h : UdpAuthorityHub) : UdpAuthorityHub :=
  mkHub (hb_relay h) (hb_hello h) (hb_limits h) (hb_connections h) (hb_peers h) ((fun _ => peer_new) <$> hb_replication h)
    ((fun lane => set_epoch lane 0) <$> hb_bootstrap h) ∅ (hb_member_by_conn h) [] ∅ false.

(** ** Admission *)

Definition pending_offer (p : PeerReplicationState) : option (Z * Z * Z) :=
  match pr_admission p with
  | Pending offer => Some (qd_bootstrap_id offer, qd_snapshot_seq offer, qd_epoch offer)
  | _ => None
  end.

Definition committed_id (p : PeerReplicationState) : option Z :=
  match pr_admission p with Committed bootstrap_id _ => Some bootstrap_id | _ => None end.

Definition commit_admission (h : UdpAuthorityHub) (ack : BootstrapAck) (live : Z) : UdpAuthorityHub :=
  if negb (epoch_applies (bk_epoch ack) live) then h
  else if negb (bool_decide (hb_member_by_conn h !! bk_connection ack = Some (bk_member_id ack))) then h
  else match hb_replication h !! bk_connection ack with
       | None => h
       | Some peer =>
           let push first_commit h :=
             set_committed h (hb_committed h ++
               [mkCommitted (bk_member_id ack) (bk_epoch ack) (bk_bootstrap_id ack) (bk_connection ack) first_commit]) in
           match applied_action (pending_offer peer) (committed_id peer) (bk_bootstrap_id ack) (bk_snapshot_seq ack) (bk_epoch ack) with
           | Ignore => h
           | RepeatEnter => push false h
           | Commit =>
               let peer := set_admission peer (Committed (bk_bootstrap_id ack) (bk_epoch ack)) in
               let peer := set_baseline peer (table_ack frame_tick (pr_baseline peer) (bk_snapshot_seq ack)).1 in
               push true (set_replication h (<[bk_connection ack := peer]> (hb_replication h)))
           end
       end.

Definition apply_admission_acks (h : UdpAuthorityHub) : UdpAuthorityHub :=
  match hb_bootstrap h with
  | None => h
  | Some lane =>
      let '(lane', acks) := take_acks lane in
      foldl (fun h ack => commit_admission h ack (bn_epoch lane)) (set_bootstrap h (Some lane')) acks
  end.

(** ** Accounts *)

(** A message to the peer on the control lane, and what changes once it is queued: [Ok false] when
    the lane refused it. *)
Definition push_message (now : Z) (member : MemberId) (m : RelayMailbox) (a : PeerAccount) (message : AccountMessage)
    (on_ok : PeerAccount -> PeerAccount) : RelayMailbox * PeerAccount * Result HubFault bool :=
  match encode_account message with
  | Err e => (m, a, Err (EncodeFault e))
  | Ok bytes =>
      let '(m, answer) := push_control_outbound limits now m member bytes in
      match answer with Ok _ => (m, on_ok a, Ok true) | Err _ => (m, a, Ok false) end
  end.

(** One peer of the loop of [offer_accounts]: the mailbox and the peer after it.  [nonce] is the
    outcome of the random draw, if this turn makes one. *)
Definition offer_account (now : Z) (store : PersistentDataStore) (match_key : MatchKey) (connection : Z)
    (member : option MemberId) (nonce : Result AccountIdentityError (list byte)) (m : RelayMailbox)
    (peer : PeerReplicationState) : RelayMailbox * PeerReplicationState * Result HubFault () :=
  if negb (match pr_admission peer with Committed _ epoch => epoch =? mk_match_epoch match_key | _ => false end)
  then (m, peer, Ok ())
  else match member with
  | None => (m, peer, Err HubPanic)
  | Some member =>
    let kept := match pr_account peer with
                | Some a => if bool_decide (ac_match_key (pa_challenge a) = match_key) then Some a else None
                | None => None
                end in
    match (match kept with
           | Some a => Ok a
           | None => match challenge_new match_key connection member nonce with
                     | Ok challenge => Ok (mkPeerAccount challenge false false None None)
                     | Err e => Err (ChallengeFault e)
                     end
           end) with
    | Err e => (m, set_account peer kept, Err e)
    | Ok a =>
      let '(m, a, r) :=
        if pa_challenge_sent a then (m, a, Ok true)
        else push_message now member m a (AmChallenge (pa_challenge a))
               (fun a => mkPeerAccount (pa_challenge a) true (pa_refusal_pending a) (pa_owner a) (pa_offered a)) in
      match r with
      | Err e => (m, set_account peer (Some a), Err e)
      | Ok false => (m, set_account peer (Some a), Ok ())
      | Ok true =>
        let '(m, a, r) :=
          if negb (pa_refusal_pending a) then (m, a, Ok true)
          else push_message now member m a (AmRefused (pa_challenge a))
                 (fun a => mkPeerAccount (pa_challenge a) (pa_challenge_sent a) false (pa_owner a) (pa_offered a)) in
        match r with
        | Err e => (m, set_account peer (Some a), Err e)
        | Ok false => (m, set_account peer (Some a), Ok ())
        | Ok true =>
          match owner ← pa_owner a; snapshot store owner with
          | None => (m, set_account peer (Some a), Ok ())
          | Some current =>
              if bool_decide (pa_offered a = Some current) then (m, set_account peer (Some a), Ok ())
              else
                let '(m, a, r) := push_message now member m a (AmUpdate (pa_challenge a) current)
                  (fun a => mkPeerAccount (pa_challenge a) (pa_challenge_sent a) (pa_refusal_pending a) (pa_owner a) (Some current)) in
                (m, set_account peer (Some a), match r with Ok _ => Ok () | Err e => Err e end)
          end
        end
      end
    end
  end.

(** The loop; [nonces] are the draws by connection. *)
Fixpoint offer_loop (now : Z) (store : PersistentDataStore) (match_key : MatchKey)
    (nonces : Z -> Result AccountIdentityError (list byte)) (l : list (Z * PeerReplicationState)) (h : UdpAuthorityHub)
    : UdpAuthorityHub * Result HubFault () :=
  match l with
  | [] => (h, Ok ())
  | (connection, peer) :: l =>
      let '(m, peer, r) := offer_account now store match_key connection (hb_member_by_conn h !! connection)
                             (nonces connection) (hb_relay h) peer in
      let h := set_replication (set_relay h m) (<[connection := peer]> (hb_replication h)) in
      match r with Err e => (h, Err e) | Ok _ => offer_loop now store match_key nonces l h end
  end.

Definition offer_accounts (now : Z) (store : PersistentDataStore) (match_key : MatchKey)
    (nonces : Z -> Result AccountIdentityError (list byte)) (h : UdpAuthorityHub) : UdpAuthorityHub * Result HubFault () :=
  offer_loop now store match_key nonces (map_to_list (hb_replication h)) h.

(** The account a profile proves, admitted to the store; [None] when it is refused. *)
Definition accept_profile (h : UdpAuthorityHub) (store : PersistentDataStore) (a : PeerAccount) (context : AccountChallenge)
    (proof : AccountProof) (snap : option AccountSnapshot) : PersistentDataStore * option AccountId :=
  match profile_payload (ap_account proof) snap with
  | Err _ => (store, None)
  | Ok payload =>
      match verify sha256 ed25519_verify proof context payload with
      | Err _ => (store, None)
      | Ok owner =>
          if match pa_owner a with Some old => negb (bool_decide (old = owner)) | None => false end then (store, None)
          else match resolve (hb_connections h) (ac_connection context) with
               | None => (store, None)
               | Some client =>
                   match store_admit parse_f32 client owner snap None store with
                   | (store, Ok _) => (store, Some owner)
                   | (store, Err _) => (store, None)
                   end
               end
      end
  end.

Definition message_context (message : AccountMessage) : option AccountChallenge :=
  match message with AmProfile c _ _ | AmSaved c _ _ => Some c | _ => None end.

Definition apply_account_message (now : Z) (from : MemberId) (message : AccountMessage) (store : PersistentDataStore)
    (match_key : MatchKey) (nonces : Z -> Result AccountIdentityError (list byte)) (h : UdpAuthorityHub)
    : UdpAuthorityHub * PersistentDataStore * Result HubFault () :=
  match message_context message with
  | None => (h, store, Ok ())
  | Some context =>
    if negb (bool_decide (ac_match_key context = match_key)) || negb (bool_decide (ac_member context = from))
       || negb (bool_decide (hb_peers h !! ac_connection context = Some from))
    then (h, store, Ok ())
    else match hb_replication h !! ac_connection context with
    | None => (h, store, Ok ())
    | Some peer =>
      match pr_account peer with
      | None => (h, store, Ok ())
      | Some a =>
        if negb (bool_decide (pa_challenge a = context)) || negb (pa_challenge_sent a) then (h, store, Ok ())
        else
          let '(store, a) :=
            match message with
            | AmProfile _ proof snap =>
                match accept_profile h store a context proof snap with
                | (store, Some owner) => (store, mkPeerAccount (pa_challenge a) (pa_challenge_sent a) false (Some owner) (pa_offered a))
                | (store, None) => (store, mkPeerAccount (pa_challenge a) (pa_challenge_sent a) true (pa_owner a) (pa_offered a))
                end
            | AmSaved _ owner revision =>
                if bool_decide (pa_owner a = Some owner) &&
                   match pa_offered a with Some offered => as_revision offered =? revision | None => false end
                then ((acknowledge_saved owner revision store).1, a)
                else (store, a)
            | _ => (store, a)
            end in
          let h := set_replication h (<[ac_connection context := set_account peer (Some a)]> (hb_replication h)) in
          let '(h, r) := offer_accounts now store match_key nonces h in
          (h, store, r)
      end
    end
  end.

(** ** What reaches the game *)

(** The account context of [ingress]: the store, whether the match runs the IW4 scripts, the key. *)
Record IngressWorld : Type := mkIngressWorld {
  iw_hub : UdpAuthorityHub;
  iw_cmds : ClientCommandInbox;
  iw_actions : ClientActionInbox;
  iw_reliable : option (Reliable.Hub WireRow);
  iw_store : option PersistentDataStore;
}.

(** The peer may send commands in this match. *)
Definition may_play (h : UdpAuthorityHub) (match_key : MatchKey) (peer : PeerReplicationState) : bool :=
  admits_gameplay peer (is_relay h) &&
  (negb (hb_accounts_required h) ||
   match pr_account peer with
   | Some a => bool_decide (ac_match_key (pa_challenge a) = match_key) && account_bound peer
   | None => false
   end).

(** A shot's claim on ticks the peer was not sent is void. *)
Definition checked_sample (peer : PeerReplicationState) (sample : ShotSampleProvenance) : ShotSampleProvenance :=
  if claims_history (ss_quality sample) &&
     negb (bool_decide (ss_left sample ∈ pr_sent_ticks peer) && bool_decide (ss_right sample ∈ pr_sent_ticks peer))
  then mkSample (ss_left sample) (ss_right sample) NAN_BITS (ss_quality sample)
  else sample.

Definition ingress_commands (w : IngressWorld) (from : MemberId) (control : bool) (match_key : MatchKey) (header : PacketHeader)
    (cmds : list (Z * UserCmd)) (samples : list (Z * ShotSampleProvenance)) (actions : list ClientAction) (reliable_ack : Z)
    : IngressWorld :=
  let h := iw_hub w in
  if negb (bool_decide (hb_peers h !! ph_connection header = Some from)) then w
  else if negb (applies_to_epoch header (live_packet_epoch h)) then w
  else match hb_replication h !! ph_connection header with
  | None => w
  | Some peer =>
    if negb (may_play h match_key peer) then w
    else match resolve (hb_connections h) (ph_connection header) with
    | None => w
    | Some client =>
      let peer := set_in_ack peer (ph_sequence header) in
      let sample_of seq := checked_sample peer <$> (snd <$> find (fun s : Z * ShotSampleProvenance => s.1 =? seq) samples) in
      mkIngressWorld (set_replication h (<[ph_connection header := peer]> (hb_replication h)))
        (foldl (fun inbox c => inbox_push inbox client (Some c.1) c.2 (sample_of c.1)) (iw_cmds w) cmds)
        (if control then foldl (fun inbox action => push_from_peer inbox client action) (iw_actions w) actions else iw_actions w)
        ((fun hub => hub_ack hub client reliable_ack) <$> iw_reliable w)
        (iw_store w)
    end
  end.

Definition ingress_ack (w : IngressWorld) (from : MemberId) (header : PacketHeader) (snapshot_seq : Z) : IngressWorld :=
  let h := iw_hub w in
  if negb (bool_decide (hb_peers h !! ph_connection header = Some from)) then w
  else if negb (applies_to_epoch header (live_packet_epoch h)) then w
  else match hb_replication h !! ph_connection header with
  | None => w
  | Some peer =>
      let peer := set_in_ack peer (ph_sequence header) in
      let peer := set_baseline peer (table_ack frame_tick (pr_baseline peer) snapshot_seq).1 in
      mkIngressWorld (set_replication h (<[ph_connection header := peer]> (hb_replication h))) (iw_cmds w) (iw_actions w)
        (iw_reliable w) (iw_store w)
  end.

Definition set_hub (w : IngressWorld) (h : UdpAuthorityHub) : IngressWorld :=
  mkIngressWorld h (iw_cmds w) (iw_actions w) (iw_reliable w) (iw_store w).

Definition ingress_game (w : IngressWorld) (from : MemberId) (bytes : list byte) (control : bool) (match_key : MatchKey) : IngressWorld :=
  match decode_client_packet bytes (hb_limits (iw_hub w)) with
  | Err _ => w
  | Ok (Connect _) => w
  | Ok (Commands header _ cmds samples actions reliable_ack) =>
      ingress_commands w from control match_key header cmds samples actions reliable_ack
  | Ok (SnapshotAck header snapshot_seq) => ingress_ack w from header snapshot_seq
  end.

(** One packet of the loop. *)
Definition ingress_packet (now : Z) (match_key : MatchKey) (nonces : Z -> Result AccountIdentityError (list byte)) (w : IngressWorld)
    (from : MemberId) (bytes : list byte) (control : bool) : IngressWorld * Result HubFault () :=
  match (if control then decode_account bytes else Ok None) with
  | Err _ => (w, Ok ())
  | Ok None => (ingress_game w from bytes control match_key, Ok ())
  | Ok (Some message) =>
      if hb_accounts_required (iw_hub w) then
        match iw_store w with
        | None => (w, Err HubPanic)
        | Some store =>
            let '(h, store, r) := apply_account_message now from message store match_key nonces (iw_hub w) in
            (mkIngressWorld h (iw_cmds w) (iw_actions w) (iw_reliable w) (Some store), r)
        end
      else (w, Ok ())
  end.

Fixpoint ingress_loop (now : Z) (match_key : MatchKey) (nonces : Z -> Result AccountIdentityError (list byte)) (w : IngressWorld)
    (packets : list (list byte * MemberId * bool)) : IngressWorld * Result HubFault () :=
  match packets with
  | [] => (w, Ok ())
  | (bytes, from, control) :: packets =>
      match ingress_packet now match_key nonces w from bytes control with
      | (w, Err e) => (w, Err e)
      | (w, Ok _) => ingress_loop now match_key nonces w packets
      end
  end.

(** [realm_iw4]: [world.gsc_realm() == Some(Realm::Iw4)]. *)
Definition ingress (now : Z) (realm_iw4 : bool) (match_key : MatchKey)
    (nonces : Z -> Result AccountIdentityError (list byte)) (w : IngressWorld) : IngressWorld * Result HubFault () :=
  let required := is_relay (iw_hub w) && match iw_store w with Some _ => realm_iw4 | None => false end in
  let h := apply_admission_acks (set_required (iw_hub w) required) in
  let '(h, r) := match required, iw_store w with
                 | true, Some store => offer_accounts now store match_key nonces h
                 | _, _ => (h, Ok ())
                 end in
  match r with
  | Err e => (set_hub w h, Err e)
  | Ok _ =>
      let '(m, data) := take_inbound now (hb_relay h) in
      let '(m, control) := take_control_inbound m in
      ingress_loop now match_key nonces (set_hub w (set_relay h m))
        (map (fun p => (p.2, p.1, false)) data ++ map (fun p => (p.2, p.1, true)) control)
  end.
End Hub.
