(* ===== verification/SessionHubInv.v ===== *)
(** * The invariant of the host's sessions

    The maps of the hub describe the same set of connections; a member has one connection, a
    client one member; denied members have none; and what is recorded as admitted or as an account
    belongs to the member of the connection. *)

From S2P Require Export SessionHub.

#[local] Open Scope Z_scope.

Section Invariant.
Context {Frame Encoder : Type}.
Context (frame_tick : Frame -> Z) (encoder_new : Encoder) (limits : TransportBudget).
Context (sha256 : list byte -> list byte) (ed25519_verify : list byte -> list byte -> list byte -> bool).
Context (parse_f32 : list byte -> option Z).

Abbreviation AuthorityHub := (@UdpAuthorityHub Frame Encoder).
Abbreviation PeerState := (@PeerReplicationState Frame Encoder).

(** ** Free clients *)

Lemma wrapping_small32 n : 0 <= n < u32_max -> wrapping_add32 n 1 = n + 1.
Proof. unfold wrapping_add32, wrap32, u32_max. intros H. apply Z.mod_small. lia. Qed.

Lemma free_client_spec fuel : forall occupied next,
  0 <= next -> next + Z.of_nat fuel <= u32_max ->
  let r := free_client fuel occupied next in
  ((next <= r <= next + Z.of_nat fuel) /\ (forall i, next <= i < r -> i ∈ occupied) /\ (r ∉ occupied \/ r = next + Z.of_nat fuel)).
Proof.
  induction fuel as [|fuel IH]; intros occupied next Hn Hroom r; unfold r; cbn [free_client].
  { split; [lia|]. split; [lia|right; lia]. }
  destruct (bool_decide_reflect (next ∈ occupied)) as [Hin|Hout].
  - rewrite wrapping_small32 by lia. destruct (IH occupied (next + 1)) as (H1 & H2 & H3); [lia..|].
    split; [lia|]. split; [|destruct H3; [by left|right; lia]].
    intros i Hi. destruct (decide (i = next)) as [->|]; [done|]. apply H2. lia.
  - split; [lia|]. split; [lia|by left].
Qed.

Lemma free_client_free occupied next :
  0 <= next -> next + zlen occupied < u32_max ->
  let r := free_client (S (length occupied)) occupied next in
  (r ∉ occupied) /\ (next <= r <= next + zlen occupied).
Proof.
  intros Hn Hroom r. unfold zlen in *.
  destruct (free_client_spec (S (length occupied)) occupied next) as (H1 & H2 & H3); [lia..|]. fold r in H1, H2, H3.
  assert (Hfar : r <> next + Z.of_nat (S (length occupied))).
  { intros Hr. assert (Hsub : seqZ next (Z.of_nat (S (length occupied))) ⊆+ occupied).
    { apply NoDup_submseteq; [apply NoDup_seqZ|]. intros i Hi%elem_of_seqZ. apply H2. lia. }
    apply submseteq_length in Hsub. rewrite length_seqZ in Hsub. lia. }
  split; [destruct H3; [done|lia]|lia].
Qed.

(** ** The invariant *)

Record account_ok (conn : Z) (member : MemberId) (a : PeerAccount) : Prop := {
  ao_connection : ac_connection (pa_challenge a) = conn;
  ao_member : ac_member (pa_challenge a) = member;
}.

Record hub_ok (h : AuthorityHub) : Prop := {
  ho_peers : hb_peers h = hb_member_by_conn h;
  ho_replication : dom (hb_replication h) = dom (hb_member_by_conn h);
  ho_assigned : dom (ct_assigned (hb_connections h)) = dom (hb_member_by_conn h);
  ho_members c1 c2 m : hb_member_by_conn h !! c1 = Some m -> hb_member_by_conn h !! c2 = Some m -> c1 = c2;
  ho_clients c1 c2 k : ct_assigned (hb_connections h) !! c1 = Some k -> ct_assigned (hb_connections h) !! c2 = Some k -> c1 = c2;
  ho_conns c m : hb_member_by_conn h !! c = Some m -> 0 < c <= ct_next_conn (hb_connections h);
  ho_next c k : ct_assigned (hb_connections h) !! c = Some k -> k < ct_next_client (hb_connections h);
  ho_counters : 0 <= ct_next_conn (hb_connections h) /\ 0 <= ct_next_client (hb_connections h);
  ho_denied c m : hb_member_by_conn h !! c = Some m -> m ∉ hb_denied h;
  ho_committed a : a ∈ hb_committed h ->
    hb_member_by_conn h !! ca_connection_id a = Some (ca_member_id a) /\
    exists p, hb_replication h !! ca_connection_id a = Some p /\ committed_id p = Some (ca_bootstrap_id a);
  ho_account c p a m : hb_replication h !! c = Some p -> pr_account p = Some a -> hb_member_by_conn h !! c = Some m -> account_ok c m a;
}.

Lemma conn_of_member_some (h : AuthorityHub) m c : conn_of_member h m = Some c -> hb_member_by_conn h !! c = Some m.
Proof.
  unfold conn_of_member. destruct (find _ _) as [[c' m']|] eqn:E; [|done]. intros [= <-].
  apply find_some in E as [Hin Hm%bool_decide_eq_true]. cbn in Hm. subst m'.
  by apply list_elem_of_In, elem_of_map_to_list in Hin.
Qed.

Lemma conn_of_member_none (h : AuthorityHub) m c : conn_of_member h m = None -> hb_member_by_conn h !! c <> Some m.
Proof.
  unfold conn_of_member. destruct (find _ _) as [[c' m']|] eqn:E; [done|]. intros _ Hc.
  pose proof (find_none _ _ E (c, m)) as H. cbn in H. rewrite bool_decide_eq_true_2 in H by done.
  discriminate H. by apply list_elem_of_In, elem_of_map_to_list.
Qed.

Lemma conn_of_member_iff (h : AuthorityHub) m c : hub_ok h -> conn_of_member h m = Some c <-> hb_member_by_conn h !! c = Some m.
Proof.
  intros Hok. split; [apply conn_of_member_some|]. intros Hc. destruct (conn_of_member h m) as [c'|] eqn:E.
  - f_equal. eapply (ho_members h Hok); [by apply conn_of_member_some|done].
  - by destruct (conn_of_member_none h m c E).
Qed.

(** An update of one peer that keeps its admission and a matching account. *)
Lemma update_peer_ok (h : AuthorityHub) c p p' :
  hub_ok h -> hb_replication h !! c = Some p ->
  (forall b, committed_id p = Some b -> committed_id p' = Some b) ->
  (forall a m, pr_account p' = Some a -> hb_member_by_conn h !! c = Some m -> account_ok c m a) ->
  hub_ok (set_replication h (<[c := p']> (hb_replication h))).
Proof.
  intros [] Hp Hadm Hacc. split; cbn [set_replication hb_peers hb_replication hb_connections hb_member_by_conn hb_denied hb_committed]; try done.
  - rewrite dom_insert_lookup_L by (by rewrite Hp). done.
  - intros a Ha. destruct (ho_committed0 a Ha) as (Hm & q & Hq & Hc). split; [done|].
    destruct (decide (c = ca_connection_id a)) as [->|Hne].
    + exists p'. rewrite lookup_insert_eq. split; [done|]. rewrite Hp in Hq. injection Hq as <-. by apply Hadm.
    + exists q. by rewrite lookup_insert_ne.
  - intros c' q a m Hq Ha Hm. destruct (decide (c = c')) as [<-|Hne].
    + rewrite lookup_insert_eq in Hq. injection Hq as <-. eauto.
    + rewrite lookup_insert_ne in Hq by done. eauto.
Qed.

Lemma set_relay_ok (h : AuthorityHub) m : hub_ok h -> hub_ok (set_relay h m).
Proof. intros []. by split. Qed.
Lemma set_required_ok (h : AuthorityHub) b : hub_ok h -> hub_ok (set_required h b).
Proof. intros []. by split. Qed.
Lemma set_bootstrap_ok (h : AuthorityHub) lane : hub_ok h -> hub_ok (set_bootstrap h lane).
Proof. intros []. by split. Qed.

Lemma filter_committed_ok (h : AuthorityHub) (P : CommittedAdmission -> Prop) `{!forall a, Decision (P a)} :
  hub_ok h -> hub_ok (set_committed h (filter P (hb_committed h))).
Proof.
  intros []. split; try done. cbn [set_committed hb_committed hb_member_by_conn hb_replication].
  intros a Ha. apply ho_committed0. by apply list_elem_of_filter in Ha as [_ Ha].
Qed.

Lemma hub_relay_ok hello first_client mailbox : 0 <= first_client -> hub_ok (hub_relay (Frame := Frame) (Encoder := Encoder) hello first_client mailbox).
Proof.
  intros Hf. split; cbn; try done; try (intros *; rewrite ?lookup_empty; done); try (by rewrite !dom_empty_L).
  by intros a ?%not_elem_of_nil.
Qed.

(** ** Membership *)

Definition room (h : AuthorityHub) (n : Z) : Prop :=
  ct_next_client (hb_connections h) + n < u32_max /\ ct_next_conn (hb_connections h) + n < u64_max.

Lemma enroll_ok (h : AuthorityHub) m occupied :
  hub_ok h -> m ∉ hb_denied h -> room h (zlen occupied + 1) ->
  let out := enroll_relay_member encoder_new h m occupied in
  hub_ok out.1 /\ hb_member_by_conn out.1 !! out.2 = Some m /\ hb_denied out.1 = hb_denied h /\
  ct_next_client (hb_connections out.1) <= ct_next_client (hb_connections h) + zlen occupied + 1 /\
  ct_next_conn (hb_connections out.1) <= ct_next_conn (hb_connections h) + 1 /\
  (forall k, conn_of_member h m = None -> client_of_member out.1 m = Some k -> k ∉ occupied) /\
  (forall c m', hb_member_by_conn h !! c = Some m' -> hb_member_by_conn out.1 !! c = Some m' /\
     hb_replication out.1 !! c = hb_replication h !! c /\ resolve (hb_connections out.1) c = resolve (hb_connections h) c).
Proof.
  intros Hok Hm [Hroom1 Hroom2] out. unfold out, enroll_relay_member. pose proof (zlen_nonneg occupied).
  destruct (conn_of_member h m) as [conn|] eqn:Ec.
  { cbn [fst snd]. split; [done|]. split; [by apply conn_of_member_some|]. split; [done|]. split; [lia|]. split; [lia|]. split; [done|]. done. }
  pose proof Hok as []. destruct ho_counters0 as [Hc0 Hk0]. unfold accept_new. cbv zeta.
  destruct (free_client_free occupied (ct_next_client (hb_connections h))) as [Hfree Hrange]; [lia..|].
  set (client := free_client _ _ _) in *.
  assert (Hconn : wrapping_add64 (ct_next_conn (hb_connections h)) 1 = ct_next_conn (hb_connections h) + 1).
  { unfold wrapping_add64, wrap64, u64_max in *. apply Z.mod_small. lia. }
  rewrite Hconn. set (conn := ct_next_conn (hb_connections h) + 1). rewrite wrapping_small32 by lia.
  assert (Hnew : hb_member_by_conn h !! conn = None).
  { destruct (hb_member_by_conn h !! conn) as [m'|] eqn:E; [|done]. apply ho_conns0 in E. unfold conn in E. lia. }
  assert (Hnewa : ct_assigned (hb_connections h) !! conn = None).
  { apply not_elem_of_dom. rewrite ho_assigned0. by apply not_elem_of_dom. }
  assert (Hnewr : hb_replication h !! conn = None).
  { apply not_elem_of_dom. rewrite ho_replication0. by apply not_elem_of_dom. }
  assert (Hok' : hub_ok (mkHub (hb_relay h) (hb_hello h) (hb_limits h) (mkConnections conn (client + 1) (<[conn := client]> (ct_assigned (hb_connections h))))
         (<[conn := m]> (hb_peers h)) (<[conn := peer_new encoder_new]> (hb_replication h)) (hb_bootstrap h) (hb_next_bootstrap_id h)
         (<[conn := m]> (hb_member_by_conn h)) (hb_committed h) (hb_denied h) (hb_accounts_required h))).
  { split; cbn [hb_peers hb_replication hb_connections hb_member_by_conn hb_denied hb_committed ct_assigned ct_next_conn ct_next_client].
    - by rewrite ho_peers0.
    - by rewrite !dom_insert_L, ho_replication0.
    - by rewrite !dom_insert_L, ho_assigned0.
    - intros c1 c2 m'. destruct (decide (conn = c1)) as [<-|], (decide (conn = c2)) as [<-|];
        rewrite ?lookup_insert_eq, ?lookup_insert_ne by done; try done.
      + intros [= <-] H2. by destruct (conn_of_member_none h m c2 Ec).
      + intros H1 [= <-]. by destruct (conn_of_member_none h m c1 Ec).
      + eauto.
    - intros c1 c2 k. destruct (decide (conn = c1)) as [<-|], (decide (conn = c2)) as [<-|];
        rewrite ?lookup_insert_eq, ?lookup_insert_ne by done; try done.
      + intros [= <-] H2. apply ho_next0 in H2. lia.
      + intros H1 [= <-]. apply ho_next0 in H1. lia.
      + eauto.
    - intros c m'. destruct (decide (conn = c)) as [<-|]; [unfold conn; lia|].
      rewrite lookup_insert_ne by done. intros H1%ho_conns0. unfold conn. lia.
    - intros c k. destruct (decide (conn = c)) as [<-|]; [rewrite lookup_insert_eq; intros [= <-]; lia|].
      rewrite lookup_insert_ne by done. intros H1%ho_next0. lia.
    - unfold conn. lia.
    - intros c m'. destruct (decide (conn = c)) as [<-|]; [rewrite lookup_insert_eq; by intros [= <-]|].
      rewrite lookup_insert_ne by done. eauto.
    - intros a Ha. destruct (ho_committed0 a Ha) as (Hma & p & Hp & Hid).
      rewrite !lookup_insert_ne by (intros Heq; congruence). split; [done|]. by exists p.
    - intros c p a m' Hp Ha. destruct (decide (conn = c)) as [<-|].
      + rewrite lookup_insert_eq in Hp. injection Hp as <-. done.
      + rewrite lookup_insert_ne in Hp by done. rewrite lookup_insert_ne by done. eauto. }
  cbn [fst snd]. split; [exact Hok'|]. cbn [hb_member_by_conn hb_denied hb_connections ct_next_client ct_next_conn].
  split; [by rewrite lookup_insert_eq|]. split; [done|]. split; [lia|]. split; [unfold conn; lia|]. split.
  - intros k _. unfold client_of_member.
    rewrite (proj2 (conn_of_member_iff _ m conn Hok')) by (cbn; by rewrite lookup_insert_eq). cbn. unfold resolve. cbn.
    rewrite lookup_insert_eq. by intros [= <-].
  - intros c m' Hc. assert (conn <> c) by congruence. unfold resolve.
    cbn [hb_replication hb_connections ct_assigned]. by rewrite !lookup_insert_ne.
Qed.

Lemma reconcile_ok members local occupied : forall h : AuthorityHub,
  hub_ok h -> room h (zlen members * (zlen occupied + 1)) ->
  hub_ok (reconcile_relay_membership encoder_new h members local occupied).
Proof.
  unfold reconcile_relay_membership. induction members as [|m members IH]; intros h Hok Hroom; cbn [foldl]; [done|].
  rewrite zlen_cons in Hroom. pose proof (zlen_nonneg members). pose proof (zlen_nonneg occupied).
  assert (Hmul : (zlen members + 1) * (zlen occupied + 1) = zlen members * (zlen occupied + 1) + (zlen occupied + 1)) by lia.
  assert (0 <= zlen members * (zlen occupied + 1)) by nia. unfold room in Hroom.
  destruct (bool_decide (m = local) || _) eqn:Eb; [apply IH; [done|unfold room; lia]|].
  apply orb_false_iff in Eb as [_ Hd%bool_decide_eq_false].
  destruct (enroll_ok h m occupied Hok Hd) as (Hok' & _ & _ & Hn1 & Hn2 & _); [unfold room; lia|].
  apply IH; [done|unfold room; lia].
Qed.

Lemma retire_connection_ok (h : AuthorityHub) c : hub_ok h -> hub_ok (retire_connection h c).1.
Proof.
  intros []. unfold retire_connection, conn_retire. cbn [fst].
  assert (Hm : forall c' m, delete c (hb_member_by_conn h) !! c' = Some m -> c <> c' /\ hb_member_by_conn h !! c' = Some m)
    by (intros c' m H; by apply lookup_delete_Some in H).
  split; cbn [hb_peers hb_replication hb_connections hb_member_by_conn hb_denied hb_committed ct_assigned ct_next_conn ct_next_client].
  - by rewrite ho_peers0.
  - by rewrite !dom_delete_L, ho_replication0.
  - by rewrite !dom_delete_L, ho_assigned0.
  - intros c1 c2 m [_ H1]%Hm [_ H2]%Hm. eauto.
  - intros c1 c2 k [_ H1]%lookup_delete_Some [_ H2]%lookup_delete_Some. eauto.
  - intros c' m [_ H1]%Hm. eauto.
  - intros c' k [_ H1]%lookup_delete_Some. eauto.
  - done.
  - intros c' m [_ H1]%Hm. eauto.
  - intros a [Hne Ha]%list_elem_of_filter. destruct (ho_committed0 a Ha) as (H1 & p & H2 & H3).
    rewrite !lookup_delete_ne by done. split; [done|]. by exists p.
  - intros c' p a m [_ Hp]%lookup_delete_Some Ha [_ H1]%Hm. eauto.
Qed.

Lemma deny_absent_ok (h : AuthorityHub) m : hub_ok h -> (forall c, hb_member_by_conn h !! c <> Some m) -> hub_ok (set_denied h ({[m]} ∪ hb_denied h)).
Proof.
  intros [] Hm. split; try done. cbn [set_denied hb_member_by_conn hb_denied].
  intros c m' Hc. rewrite elem_of_union, elem_of_singleton. intros [->|Hd]; [by apply (Hm c)|by apply (ho_denied0 c m')].
Qed.

Lemma retire_member_ok (h : AuthorityHub) m : hub_ok h -> hub_ok (retire_member h m).1.
Proof.
  intros Hok. unfold retire_member.
  assert (Hok' : hub_ok (set_denied h (hb_denied h ∖ {[m]}))).
  { destruct Hok. split; try done. cbn [set_denied hb_member_by_conn hb_denied]. set_solver. }
  destruct (conn_of_member _ m) as [c|]; [by apply retire_connection_ok|done].
Qed.

(** After a member is retired it has no connection. *)
Lemma retire_member_gone (h : AuthorityHub) m c : hub_ok h -> hb_member_by_conn (retire_member h m).1 !! c <> Some m.
Proof.
  intros Hok Hc. unfold retire_member in Hc. destruct (conn_of_member _ m) as [c'|] eqn:E.
  - cbn in Hc. apply lookup_delete_Some in Hc as [Hne Hc]. apply conn_of_member_some in E. cbn in E.
    by apply Hne, (ho_members h Hok c' c m).
  - by destruct (conn_of_member_none _ m c E).
Qed.

Lemma deny_member_ok (h : AuthorityHub) m : hub_ok h -> hub_ok (deny_member h m).1.
Proof.
  intros Hok. unfold deny_member. pose proof (retire_member_ok h m Hok) as H1.
  pose proof (fun c => retire_member_gone h m c Hok) as H2. destruct (retire_member h m) as [h' client]. by apply deny_absent_ok.
Qed.

Lemma retire_client_ok now (h : AuthorityHub) client reason h' gone :
  hub_ok h -> retire_client_with_reason limits now h client reason = Some (h', gone) -> hub_ok h'.
Proof.
  intros Hok. unfold retire_client_with_reason. destruct (conn_of_client h client) as [c|]; [|by intros [= <- <-]].
  destruct (hb_member_by_conn h !! c) as [m|] eqn:Em; cbn [mbind option_bind].
  - destruct (encode_server_packet _ _) as [packet|]; cbn [mbind option_bind]; [|done].
    destruct (push_control_outbound _ _ _ _ _) as [mb answer]. cbn [mbind option_bind].
    pose proof (retire_connection_ok (set_relay h mb) c (set_relay_ok h mb Hok)) as H1.
    assert (H2 : hub_ok (retire_connection (set_denied (set_relay h mb) ({[m]} ∪ hb_denied h)) c).1).
    { change (hub_ok (set_denied (retire_connection (set_relay h mb) c).1 ({[m]} ∪ hb_denied (retire_connection (set_relay h mb) c).1))).
      apply deny_absent_ok; [done|]. intros c' Hc'. cbn in Hc'. apply lookup_delete_Some in Hc' as [Hne Hc'].
      by apply Hne, (ho_members h Hok c c' m). }
    destruct (retire_connection _ c) as [h1 o]. intros [= <- <-]. done.
  - pose proof (retire_connection_ok h c Hok) as H1. destruct (retire_connection h c) as [h1 o]. by intros [= <- <-].
Qed.

Lemma reset_ok (h : AuthorityHub) : hub_ok h -> hub_ok (hub_reset_match encoder_new h).
Proof.
  intros []. split; cbn [hub_reset_match hb_peers hb_replication hb_connections hb_member_by_conn hb_denied hb_committed]; try done.
  - by rewrite dom_fmap_L.
  - intros a Ha. by apply not_elem_of_nil in Ha.
  - intros c p a m Hp Ha. rewrite lookup_fmap in Hp. destruct (hb_replication h !! c); [|done]. injection Hp as <-. done.
Qed.

Lemma take_committed_ok (h : AuthorityHub) : hub_ok h -> hub_ok (take_committed_admissions h).1.
Proof. intros Hok. unfold take_committed_admissions. cbn [fst]. by apply filter_committed_ok. Qed.
End Invariant.

(** * What packets do to the host's sessions

    The admission of a peer, its account, and the game's queues, step by step over [ingress]. *)

Section Steps.
Context {Frame Encoder : Type}.
Context (frame_tick : Frame -> Z) (limits : TransportBudget).
Context (sha256 : list byte -> list byte) (ed25519_verify : list byte -> list byte -> list byte -> bool).
Context (parse_f32 : list byte -> option Z).

Abbreviation AuthorityHub := (@UdpAuthorityHub Frame Encoder).
Abbreviation PeerState := (@PeerReplicationState Frame Encoder).

(** ** Admission *)

(** The offer the answer names is the one the peer is waiting on, in the match that runs, and
    comes from the member of the connection. *)
Definition answers_offer (h : AuthorityHub) (p : PeerState) (ack : BootstrapAck) : Prop :=
  exists offer, pr_admission p = Pending offer /\
    qd_bootstrap_id offer = bk_bootstrap_id ack /\ qd_snapshot_seq offer = bk_snapshot_seq ack /\
    qd_epoch offer = bk_epoch ack /\
    hb_member_by_conn h !! bk_connection ack = Some (bk_member_id ack).

Lemma commit_spec (h : AuthorityHub) ack live :
  commit_admission frame_tick h ack live = h \/
  (epoch_applies (bk_epoch ack) live = true /\
   hb_member_by_conn h !! bk_connection ack = Some (bk_member_id ack) /\
   exists p, hb_replication h !! bk_connection ack = Some p /\
   ((answers_offer h p ack /\
     commit_admission frame_tick h ack live =
       set_committed (set_replication h (<[bk_connection ack :=
           set_baseline (set_admission p (Committed (bk_bootstrap_id ack) (bk_epoch ack)))
             (table_ack frame_tick (pr_baseline p) (bk_snapshot_seq ack)).1]> (hb_replication h)))
         (hb_committed h ++ [mkCommitted (bk_member_id ack) (bk_epoch ack) (bk_bootstrap_id ack) (bk_connection ack) true])) \/
    (committed_id p = Some (bk_bootstrap_id ack) /\
     commit_admission frame_tick h ack live =
       set_committed h
         (hb_committed h ++ [mkCommitted (bk_member_id ack) (bk_epoch ack) (bk_bootstrap_id ack) (bk_connection ack) false])))).
Proof.
  unfold commit_admission. destruct (epoch_applies _ _) eqn:Ee; cbn [negb]; [|by left].
  destruct (bool_decide_reflect (hb_member_by_conn h !! bk_connection ack = Some (bk_member_id ack))) as [Em|]; cbn [negb]; [|by left].
  destruct (hb_replication h !! bk_connection ack) as [p|]; [|by left].
  unfold applied_action. destruct (bool_decide_reflect (pending_offer p = Some (bk_bootstrap_id ack, bk_snapshot_seq ack, bk_epoch ack))) as [Hp|].
  - right. split; [done|]. split; [done|]. exists p. split; [done|]. left. split; [|done].
    unfold pending_offer in Hp. destruct (pr_admission p) as [|offer|] eqn:Ea; try done. injection Hp as H1 H2 H3. by exists offer.
  - destruct (bool_decide_reflect (committed_id p = Some (bk_bootstrap_id ack))) as [Hc|]; [|by left].
    right. split; [done|]. split; [done|]. exists p. split; [done|]. by right.
Qed.

Lemma push_committed_ok (h : AuthorityHub) a p :
  hub_ok h -> hb_member_by_conn h !! ca_connection_id a = Some (ca_member_id a) ->
  hb_replication h !! ca_connection_id a = Some p -> committed_id p = Some (ca_bootstrap_id a) ->
  hub_ok (set_committed h (hb_committed h ++ [a])).
Proof.
  intros [] Hm Hp Hc. split; try done. cbn [set_committed hb_committed hb_member_by_conn hb_replication].
  intros b [Hb|Hb]%elem_of_app; [by apply ho_committed|]. apply list_elem_of_singleton in Hb as ->. split; [done|]. by exists p.
Qed.

Lemma commit_ok (h : AuthorityHub) ack live : hub_ok h -> hub_ok (commit_admission frame_tick h ack live).
Proof.
  intros Hok. destruct (commit_spec h ack live) as [->|(_ & Hm & p & Hp & [[Ha ->]|[Hc ->]])]; [done|..].
  - set (p' := set_baseline _ _). apply (push_committed_ok (set_replication h _) (mkCommitted _ _ _ _ true) p').
    + apply (update_peer_ok h _ p); [done..| |].
      * destruct Ha as (offer & Ha & _). unfold committed_id. by rewrite Ha.
      * intros a m Ha' Hm'. by apply (ho_account h Hok _ p).
    + done.
    + cbn. by rewrite lookup_insert_eq.
    + done.
  - by apply (push_committed_ok h (mkCommitted _ _ _ _ false) p).
Qed.

Lemma commit_other (h : AuthorityHub) ack live : hb_member_by_conn (commit_admission frame_tick h ack live) = hb_member_by_conn h.
Proof. by destruct (commit_spec h ack live) as [->|(_ & _ & p & _ & [[_ ->]|[_ ->]])]. Qed.

(** A peer that is admitted was so before, or an answer among those taken matched its offer. *)
Lemma commit_admits (h : AuthorityHub) ack live c p b e :
  hb_replication (commit_admission frame_tick h ack live) !! c = Some p -> pr_admission p = Committed b e ->
  exists p0, hb_replication h !! c = Some p0 /\
    (pr_admission p0 = Committed b e \/
     (c = bk_connection ack /\ b = bk_bootstrap_id ack /\ e = bk_epoch ack /\ epoch_applies e live = true /\ answers_offer h p0 ack)).
Proof.
  destruct (commit_spec h ack live) as [->|(He & _ & q & Hq & [[Ha ->]|[_ ->]])]; [eauto| |cbn; eauto].
  cbn. destruct (decide (bk_connection ack = c)) as [<-|Hne].
  - rewrite lookup_insert_eq. intros [= <-]. cbn. intros [= <- <-]. exists q. split; [done|]. right. done.
  - rewrite lookup_insert_ne by done. eauto.
Qed.

Lemma commit_pending (h : AuthorityHub) ack live c p offer :
  hb_replication (commit_admission frame_tick h ack live) !! c = Some p -> pr_admission p = Pending offer ->
  hb_replication h !! c = Some p.
Proof.
  destruct (commit_spec h ack live) as [->|(He & _ & q & Hq & [[Ha ->]|[_ ->]])]; [done| |done].
  cbn. destruct (decide (bk_connection ack = c)) as [<-|Hne]; [rewrite lookup_insert_eq; by intros [= <-]|by rewrite lookup_insert_ne].
Qed.

Lemma acks_ok acks live : forall h : AuthorityHub, hub_ok h -> hub_ok (foldl (fun h ack => commit_admission frame_tick h ack live) h acks).
Proof. induction acks as [|ack acks IH]; intros h Hok; cbn [foldl]; [done|]. by apply IH, commit_ok. Qed.

Lemma acks_members acks live : forall h : AuthorityHub,
  hb_member_by_conn (foldl (fun h ack => commit_admission frame_tick h ack live) h acks) = hb_member_by_conn h.
Proof. induction acks as [|ack acks IH]; intros h; cbn [foldl]; [done|]. by rewrite IH, commit_other. Qed.

Lemma acks_admit acks live c p b e : forall h : AuthorityHub,
  hb_replication (foldl (fun h ack => commit_admission frame_tick h ack live) h acks) !! c = Some p ->
  pr_admission p = Committed b e ->
  exists p0, hb_replication h !! c = Some p0 /\
    (pr_admission p0 = Committed b e \/
     exists ack, ack ∈ acks /\ c = bk_connection ack /\ b = bk_bootstrap_id ack /\ e = bk_epoch ack /\
       epoch_applies e live = true /\ answers_offer h p0 ack).
Proof.
  induction acks as [|ack acks IH]; intros h Hp Ha; cbn [foldl] in Hp; [eauto|].
  destruct (IH _ Hp Ha) as (p1 & Hp1 & [H1|(ack' & Hin & -> & -> & -> & He & offer & H2 & H3)]).
  - destruct (commit_admits _ _ _ _ _ _ _ Hp1 H1) as (p0 & Hp0 & [H0|(-> & -> & -> & H0 & H4)]); exists p0; (split; [done|]); [by left|].
    right. exists ack. split; [apply elem_of_cons; by left|done].
  - pose proof (commit_pending _ _ _ _ _ _ Hp1 H2) as Hp0. exists p1. split; [done|]. right. exists ack'.
    split; [by apply list_elem_of_further|]. do 4 (split; [done|]). exists offer. rewrite commit_other in H3. done.
Qed.

Lemma apply_acks_ok (h : AuthorityHub) : hub_ok h -> hub_ok (apply_admission_acks frame_tick h).
Proof.
  intros Hok. unfold apply_admission_acks. destruct (hb_bootstrap h) as [lane|]; [|done].
  destruct (take_acks lane) as [lane' acks]. by apply acks_ok, set_bootstrap_ok.
Qed.

(** ** Accounts *)

(** What an account may become without a proof: its flags and what was offered to it change. *)
Definition same_owner (a a' : PeerAccount) : Prop := pa_challenge a' = pa_challenge a /\ pa_owner a' = pa_owner a.

Definition fresh_account (conn : Z) (member : option MemberId) (match_key : MatchKey) (a : PeerAccount) : Prop :=
  ac_connection (pa_challenge a) = conn /\ Some (ac_member (pa_challenge a)) = member /\
  ac_match_key (pa_challenge a) = match_key /\ pa_owner a = None.

Lemma challenge_new_fields match_key conn member nonce c :
  challenge_new match_key conn member nonce = Ok c -> ac_match_key c = match_key /\ ac_connection c = conn /\ ac_member c = member.
Proof.
  unfold challenge_new, fail_if. destruct (_ || _); cbn [mbind result_bind]; [discriminate|].
  destruct nonce as [nonce|]; cbn [mbind result_bind mret result_ret]; [|discriminate]. by intros <-%ok_inj.
Qed.

Lemma push_message_owner now member a0 m a message on_ok :
  same_owner a0 a -> (forall a, same_owner a (on_ok a)) -> same_owner a0 (push_message limits now member m a message on_ok).1.2.
Proof.
  intros H1 H2. unfold push_message. destruct (encode_account message); [|done].
  destruct (push_control_outbound _ _ _ _ _) as [m2 [|]]; cbn [fst snd]; [|done].
  specialize (H2 a). unfold same_owner in *. destruct H1 as [<- <-], H2 as [-> ->]. done.
Qed.

Lemma push_message_inbound now member m a message on_ok :
  let m' := (push_message limits now member m a message on_ok).1.1 in
  mb_inbound m' = mb_inbound m /\ mb_control_inbound m' = mb_control_inbound m.
Proof.
  cbv zeta. unfold push_message, push_control_outbound. destruct (encode_account message); [|done].
  destruct (push_mail _ _ _ _ _ _) as [queue [|]]; done.
Qed.

Lemma offer_account_inbound now store match_key conn member nonce m (peer : PeerState) :
  let m' := (offer_account limits now store match_key conn member nonce m peer).1.1 in
  mb_inbound m' = mb_inbound m /\ mb_control_inbound m' = mb_control_inbound m.
Proof.
  cbv zeta. unfold offer_account.
  repeat match goal with
  | |- context [push_message limits now ?mb ?m1 ?a ?msg ?f] =>
      pose proof (push_message_inbound now mb m1 a msg f); destruct (push_message limits now mb m1 a msg f) as [[??] [[|]|]]
  | |- context [match ?x with _ => _ end] => lazymatch x with context [match _ with _ => _ end] => fail | _ => destruct x end
  end; cbn [fst snd] in *; intuition congruence.
Qed.

Lemma offer_account_spec now store match_key conn member nonce m (peer : PeerState) :
  let out := offer_account limits now store match_key conn member nonce m peer in
  out.1.2 = set_account peer (pr_account out.1.2) /\
  (forall a', pr_account out.1.2 = Some a' ->
     (exists a, pr_account peer = Some a /\ same_owner a a') \/ fresh_account conn member match_key a').
Proof.
  cbv zeta. unfold offer_account.
  destruct (negb _); [cbn [fst snd]; split; [by destruct peer|intros a' Ha; left; by exists a']|].
  destruct member as [member|]; [|cbn [fst snd]; split; [by destruct peer|intros a' Ha; left; by exists a']].
  set (kept := match pr_account peer with Some a => _ | None => None end).
  assert (Hkept : forall a, kept = Some a -> pr_account peer = Some a).
  { unfold kept. destruct (pr_account peer) as [a|]; [|done]. by destruct (bool_decide _). }
  set (start := match kept with Some a => Ok a | None => _ end).
  assert (Hstart : forall a, start = Ok a -> (exists a0, pr_account peer = Some a0 /\ same_owner a0 a) \/ fresh_account conn (Some member) match_key a).
  { unfold start. destruct kept as [a|] eqn:Ek.
    - intros b <-%ok_inj. left. exists a. split; [by apply Hkept|done].
    - destruct (challenge_new _ _ _ _) as [c|] eqn:Ec; [|discriminate]. intros a <-%ok_inj. right.
      apply challenge_new_fields in Ec as (H1 & H2 & H3). unfold fresh_account. cbn. by rewrite H1, H2, H3. }
  destruct start as [a|e]; cbn [fst snd].
  2: { split; [by destruct peer|]. cbn. intros a' Ha. left. exists a'. split; [by apply Hkept|done]. }
  specialize (Hstart a eq_refl).
  assert (Hgoal : forall (m' : RelayMailbox) a1 (r : Result HubFault ()), same_owner a a1 ->
    (m', set_account peer (Some a1), r).1.2 = set_account peer (pr_account (m', set_account peer (Some a1), r).1.2) /\
    (forall a', pr_account (m', set_account peer (Some a1), r).1.2 = Some a' ->
      (exists a0, pr_account peer = Some a0 /\ same_owner a0 a') \/ fresh_account conn (Some member) match_key a')).
  { intros m' a1 r [H1 H2]. cbn [fst snd pr_account set_account]. split; [by destruct peer|]. intros a' [= <-].
    unfold same_owner, fresh_account in *. rewrite H1, H2. done. }
  match goal with |- context [if pa_challenge_sent a then ?x else ?y] => set (first := if pa_challenge_sent a then x else y) end.
  assert (H1 : same_owner a first.1.2) by (unfold first; destruct (pa_challenge_sent a); [done|by apply push_message_owner]).
  destruct first as [[m1 a1] [[|]|]]; cbn [fst snd] in H1; [|by apply Hgoal..].
  match goal with |- context [if negb (pa_refusal_pending a1) then ?x else ?y] => set (second := if negb (pa_refusal_pending a1) then x else y) end.
  assert (H2 : same_owner a second.1.2) by (unfold second; destruct (negb _); [done|by apply push_message_owner]).
  destruct second as [[m2 a2] [[|]|]]; cbn [fst snd] in H2; [|by apply Hgoal..].
  destruct (owner ← pa_owner a2; snapshot store owner) as [current|]; [|by apply Hgoal].
  destruct (bool_decide _); [by apply Hgoal|].
  match goal with |- context [push_message limits now member m2 a2 ?msg ?f] =>
    pose proof (push_message_owner now member a m2 a2 msg f H2 ltac:(done)) as H3; destruct (push_message limits now member m2 a2 msg f) as [[m3 a3] r3] end.
  by apply Hgoal.
Qed.

(** What a turn of [offer_accounts] may do to one peer, and to the hub. *)
Definition peer_offered (match_key : MatchKey) (conn : Z) (member : option MemberId) (p p' : PeerState) : Prop :=
  p' = set_account p (pr_account p') /\
  forall a', pr_account p' = Some a' ->
    (exists a, pr_account p = Some a /\ same_owner a a') \/ fresh_account conn member match_key a'.

Record offered (match_key : MatchKey) (h h' : AuthorityHub) : Prop := {
  of_connections : hb_connections h' = hb_connections h;
  of_peers : hb_peers h' = hb_peers h;
  of_members : hb_member_by_conn h' = hb_member_by_conn h;
  of_committed : hb_committed h' = hb_committed h;
  of_denied : hb_denied h' = hb_denied h;
  of_bootstrap : hb_bootstrap h' = hb_bootstrap h;
  of_required : hb_accounts_required h' = hb_accounts_required h;
  of_limits : hb_limits h' = hb_limits h;
  of_inbound : mb_inbound (hb_relay h') = mb_inbound (hb_relay h);
  of_control : mb_control_inbound (hb_relay h') = mb_control_inbound (hb_relay h);
  of_replication c : option_Forall2 (peer_offered match_key c (hb_member_by_conn h !! c)) (hb_replication h !! c) (hb_replication h' !! c);
}.

Lemma peer_offered_refl match_key c member p : peer_offered match_key c member p p.
Proof. split; [by destruct p|]. intros a Ha. left. by exists a. Qed.

Lemma peer_offered_trans match_key c member p1 p2 p3 :
  peer_offered match_key c member p1 p2 -> peer_offered match_key c member p2 p3 -> peer_offered match_key c member p1 p3.
Proof.
  intros [E1 H1] [E2 H2]. split; [rewrite E2, E1; by destruct p1|]. intros a3 Ha3.
  destruct (H2 a3 Ha3) as [(a2 & Ha2 & S2)|]; [|by right].
  destruct (H1 a2 Ha2) as [(a1 & Ha1 & S1)|F]; [left; exists a1|right]; unfold same_owner, fresh_account in *;
    destruct S2 as [-> ->]; done.
Qed.

#[export] Instance offered_preorder match_key : PreOrder (offered match_key).
Proof.
  split.
  - intros h. split; try done. intros c. destruct (hb_replication h !! c); constructor. apply peer_offered_refl.
  - intros h1 h2 h3 [] []. split; try congruence. intros c. specialize (of_replication0 c). specialize (of_replication1 c).
    rewrite of_members0 in of_replication1. inversion of_replication0; inversion of_replication1; try congruence; constructor.
    eapply peer_offered_trans; [done|]. congruence.
Qed.

Lemma offered_set match_key (h : AuthorityHub) m c p p' :
  hb_replication h !! c = Some p -> peer_offered match_key c (hb_member_by_conn h !! c) p p' ->
  mb_inbound m = mb_inbound (hb_relay h) /\ mb_control_inbound m = mb_control_inbound (hb_relay h) ->
  offered match_key h (set_replication (set_relay h m) (<[c := p']> (hb_replication h))).
Proof.
  intros Hp Hpp [Hi Hc]. split; try done. intros c'. cbn. destruct (decide (c = c')) as [<-|Hne].
  - rewrite lookup_insert_eq, Hp. by constructor.
  - rewrite lookup_insert_ne by done. destruct (hb_replication h !! c'); constructor. apply peer_offered_refl.
Qed.

Lemma offer_loop_offered now store match_key nonces l : forall h : AuthorityHub,
  NoDup l.*1 -> (forall c p, (c, p) ∈ l -> hb_replication h !! c = Some p) ->
  offered match_key h (offer_loop limits now store match_key nonces l h).1.
Proof.
  induction l as [|[c p] l IH]; intros h Hnd Hl; cbn [offer_loop]; [done|].
  cbn in Hnd. apply list.NoDup_cons in Hnd as [Hc Hnd].
  destruct (offer_account_spec now store match_key c (hb_member_by_conn h !! c) (nonces c) (hb_relay h) p) as [E Hacc].
  pose proof (offer_account_inbound now store match_key c (hb_member_by_conn h !! c) (nonces c) (hb_relay h) p) as Hin.
  destruct (offer_account _ _ _ _ _ _ _ _ _) as [[m p'] r]. cbn [fst snd] in E, Hacc, Hin.
  assert (Ho : offered match_key h (set_replication (set_relay h m) (<[c := p']> (hb_replication h)))).
  { apply (offered_set match_key h m c p p'); [apply Hl, elem_of_cons; by left|by split|done]. }
  destruct r as [[]|e]; [|done]. etrans; [exact Ho|]. apply IH; [done|].
  intros c' q Hq. cbn. rewrite lookup_insert_ne; [by apply Hl, list_elem_of_further|].
  intros <-. apply Hc. by apply list_elem_of_fmap; exists (c, q).
Qed.

Lemma offer_accounts_offered now store match_key nonces (h : AuthorityHub) :
  offered match_key h (offer_accounts limits now store match_key nonces h).1.
Proof.
  apply offer_loop_offered; [apply NoDup_fst_map_to_list|]. intros c p. by rewrite elem_of_map_to_list.
Qed.

Lemma option_Forall2_dom {A} (R : Z -> A -> A -> Prop) (m1 m2 : gmap Z A) :
  (forall c, option_Forall2 (R c) (m1 !! c) (m2 !! c)) -> dom m2 = dom m1.
Proof.
  intros H. apply set_eq. intros c. rewrite !elem_of_dom. specialize (H c). inversion H; split; intros [z Hz]; try congruence; eauto.
Qed.

Lemma offered_ok match_key (h h' : AuthorityHub) : hub_ok h -> offered match_key h h' -> hub_ok h'.
Proof.
  intros [] []. split; rewrite ?of_connections0, ?of_peers0, ?of_members0, ?of_denied0, ?of_committed0; try done.
  - rewrite (option_Forall2_dom (fun c => peer_offered match_key c (hb_member_by_conn h !! c)) _ _ of_replication0). done.
  - intros a Ha. destruct (ho_committed0 a Ha) as (Hm & p & Hp & Hid). split; [done|].
    specialize (of_replication0 (ca_connection_id a)). rewrite Hp in of_replication0. inversion of_replication0 as [? p' [E _] |]; subst.
    exists p'. split; [done|]. rewrite E. done.
  - intros c p' a m Hp' Ha Hm. specialize (of_replication0 c). rewrite Hp', Hm in of_replication0.
    inversion of_replication0 as [p ? [E Hpp]|]; subst.
    destruct (Hpp a Ha) as [(a0 & Ha0 & [S _])|(F1 & F2 & _)].
    + destruct (ho_account0 c p a0 m) as [A1 A2]; [done..|]. split; by rewrite S.
    + split; [done|]. by injection F2.
Qed.
End Steps.
