(* ===== verification/SessionHubMain.v ===== *)
(** * What packets do to the host's sessions

    No packet speaks for another member: the game's queues of a client change only by packets of
    its own member, once it is admitted; a peer is admitted by its own answer to its own offer; an
    account is bound by a proof for the challenge the host gave that connection. *)

From S2P Require Export SessionHubInv.

#[local] Open Scope Z_scope.

Section Ingress.
Context {Frame Encoder : Type}.
Context (frame_tick : Frame -> Z) (limits : TransportBudget).
Context (sha256 : list byte -> list byte) (ed25519_verify : list byte -> list byte -> list byte -> bool).
Context (parse_f32 : list byte -> option Z).

Abbreviation AuthorityHub := (@UdpAuthorityHub Frame Encoder).
Abbreviation PeerState := (@PeerReplicationState Frame Encoder).
Abbreviation InWorld := (@IngressWorld Frame Encoder).
Abbreviation Packet := (list byte * MemberId * bool)%type.

(** ** Account messages *)

(** The message proves the owner of an account for this challenge. *)
Definition proves (message : AccountMessage) (context : AccountChallenge) (owner : AccountId) : Prop :=
  exists proof snap payload, message = AmProfile context proof snap /\
    profile_payload (ap_account proof) snap = Ok payload /\ verify sha256 ed25519_verify proof context payload = Ok owner.

(** What a message may do to the account it is for. *)
Definition account_step (message : AccountMessage) (a a' : PeerAccount) : Prop :=
  pa_challenge a' = pa_challenge a /\
  (pa_owner a' = pa_owner a \/
   exists owner, pa_owner a' = Some owner /\ proves message (pa_challenge a) owner /\ (pa_owner a = None \/ pa_owner a = Some owner)).

Lemma accept_profile_spec (h : AuthorityHub) store a context proof snap store' owner :
  accept_profile sha256 ed25519_verify parse_f32 h store a context proof snap = (store', Some owner) ->
  proves (AmProfile context proof snap) context owner /\ (pa_owner a = None \/ pa_owner a = Some owner).
Proof.
  unfold accept_profile. destruct (profile_payload _ _) as [payload|] eqn:Ep; [|discriminate].
  destruct (verify _ _ _ _ _) as [o|] eqn:Ev; [|discriminate].
  destruct (pa_owner a) as [old|] eqn:Eo.
  - destruct (bool_decide_reflect (old = o)) as [->|]; cbn [negb]; [|discriminate].
    destruct (resolve _ _); [|discriminate]. destruct (store_admit _ _ _ _ _ _) as [? [|]]; [|discriminate].
    intros [= <- <-]. split; [by exists proof, snap, payload|by right].
  - destruct (resolve _ _); [|discriminate]. destruct (store_admit _ _ _ _ _ _) as [? [|]]; [|discriminate].
    intros [= <- <-]. split; [by exists proof, snap, payload|by left].
Qed.

(** An account message changes nothing, or it is for the challenge of its sender's connection. *)
Lemma account_message_spec now from message store match_key nonces (h : AuthorityHub) :
  let out := apply_account_message limits sha256 ed25519_verify parse_f32 now from message store match_key nonces h in
  out.1.1 = h \/
  exists conn p a a', hb_peers h !! conn = Some from /\ hb_replication h !! conn = Some p /\ pr_account p = Some a /\
    pa_challenge_sent a = true /\ account_step message a a' /\
    offered match_key (set_replication h (<[conn := set_account p (Some a')]> (hb_replication h))) out.1.1.
Proof.
  cbv zeta. unfold apply_account_message. destruct (message_context message) as [context|] eqn:Ectx; [|by left].
  destruct (bool_decide_reflect (ac_match_key context = match_key)); cbn [negb orb]; [|by left].
  destruct (bool_decide_reflect (ac_member context = from)); cbn [negb orb]; [|by left].
  destruct (bool_decide_reflect (hb_peers h !! ac_connection context = Some from)) as [Hpeer|]; cbn [negb orb]; [|by left].
  destruct (hb_replication h !! ac_connection context) as [p|] eqn:Hp; [|by left].
  destruct (pr_account p) as [a|] eqn:Ha; [|by left].
  destruct (bool_decide_reflect (pa_challenge a = context)) as [Hc|]; cbn [negb orb]; [|by left].
  destruct (pa_challenge_sent a) eqn:Es; cbn [negb]; [|by left].
  right. exists (ac_connection context), p, a.
  match goal with |- context [match ?x with (store1, a1) => _ end] => set (moved := x) end.
  assert (Hmoved : account_step message a moved.2).
  { unfold moved. destruct message as [c|c proof snap|c snap|c owner revision|c]; try discriminate Ectx.
    - injection Ectx as ->. destruct (accept_profile _ _ _ _ _ _ _ _ _) as [store1 [owner|]] eqn:Eacc; cbn [snd].
      + apply accept_profile_spec in Eacc as [H1 H2]. split; [done|]. right. exists owner. by rewrite Hc.
      + split; [done|by left].
    - destruct (_ && _); (split; [done|by left]). }
  destruct moved as [store1 a']. cbn [snd] in Hmoved. exists a'. split; [done|]. split; [done|]. split; [done|]. split; [done|]. split; [done|].
  pose proof (offer_accounts_offered limits now store1 match_key nonces
    (set_replication h (<[ac_connection context := set_account p (Some a')]> (hb_replication h)))) as Ho.
  by destruct (offer_accounts _ _ _ _ _ _) as [h' r].
Qed.

(** ** The game's queues *)

(** Nothing changed for this client. *)
Record untouched (id : Z) (w w' : InWorld) : Prop := {
  un_queued : ib_queued (iw_cmds w') !! id = ib_queued (iw_cmds w) !! id;
  un_consumed : ib_last_consumed (iw_cmds w') !! id = ib_last_consumed (iw_cmds w) !! id;
  un_acked : ib_last_acked (iw_cmds w') !! id = ib_last_acked (iw_cmds w) !! id;
  un_blocked : ib_blocked_head (iw_cmds w') !! id = ib_blocked_head (iw_cmds w) !! id;
  un_received : filter (fun row => owned_by id row = true) (ai_received (iw_actions w')) =
                filter (fun row => owned_by id row = true) (ai_received (iw_actions w));
  un_pending : ai_pending (iw_actions w') = ai_pending (iw_actions w);
  un_overflowed : id ∈ ai_overflowed (iw_actions w') <-> id ∈ ai_overflowed (iw_actions w);
  un_reliable : (fun hub => hub !! id) <$> iw_reliable w' = (fun hub => hub !! id) <$> iw_reliable w;
}.

#[export] Instance untouched_preorder id : PreOrder (untouched id).
Proof. split; [by intros w; split|]. intros w1 w2 w3 [] []. split; try congruence. by rewrite un_overflowed1. Qed.

Lemma push_untouched (s : ClientCommandInbox) client id seq cmd sample :
  id <> client ->
  let s' := inbox_push s client seq cmd sample in
  ib_queued s' !! id = ib_queued s !! id /\ ib_last_consumed s' = ib_last_consumed s /\ ib_last_acked s' = ib_last_acked s /\
  ib_blocked_head s' = ib_blocked_head s.
Proof.
  intros Hne. cbv zeta. unfold inbox_push.
  destruct (match seq with Some n => _ | None => _ end); [done|].
  destruct (_ <? _); cbn [set_queue ib_queued ib_last_consumed ib_last_acked ib_blocked_head]; by rewrite lookup_insert_ne.
Qed.

Lemma pushes_untouched client id (sample : Z -> option ShotSampleProvenance) cmds : forall s : ClientCommandInbox,
  id <> client ->
  let s' := foldl (fun s (c : Z * UserCmd) => inbox_push s client (Some c.1) c.2 (sample c.1)) s cmds in
  ib_queued s' !! id = ib_queued s !! id /\ ib_last_consumed s' = ib_last_consumed s /\ ib_last_acked s' = ib_last_acked s /\
  ib_blocked_head s' = ib_blocked_head s.
Proof.
  induction cmds as [|c cmds IH]; intros s Hne; cbn [foldl]; [done|].
  destruct (IH (inbox_push s client (Some c.1) c.2 (sample c.1)) Hne) as (-> & -> & -> & ->). by apply push_untouched.
Qed.

Lemma actions_untouched client id actions : forall s : ClientActionInbox,
  id <> client ->
  let s' := foldl (fun s action => push_from_peer s client action) s actions in
  filter (fun row => owned_by id row = true) (ai_received s') = filter (fun row => owned_by id row = true) (ai_received s) /\
  ai_pending s' = ai_pending s /\ (id ∈ ai_overflowed s' <-> id ∈ ai_overflowed s).
Proof.
  induction actions as [|action actions IH]; intros s Hne; cbn [foldl]; [done|].
  destruct (IH (push_from_peer s client action) Hne) as (-> & -> & ->). unfold push_from_peer.
  destruct (existsb _ _); [done|]. destruct (_ <=? _); cbn [ai_received ai_pending ai_overflowed].
  - split; [done|]. split; [done|]. set_solver.
  - split; [|done]. rewrite list.filter_app, filter_cons_False; [by rewrite filter_nil, app_nil_r|].
    unfold owned_by. cbn. rewrite Z.eqb_eq. congruence.
Qed.

Lemma hub_ack_untouched {Row} (hub : Reliable.Hub Row) client through id : id <> client -> hub_ack hub client through !! id = hub !! id.
Proof.
  intros Hne. unfold hub_ack. destruct (hub !! client) as [q|]; [|done]. apply (lookup_insert_ne (M := gmap Z)). by symmetry.
Qed.

(** The same members with the same connections, clients and admission. *)
Record same_members (h h' : AuthorityHub) : Prop := {
  sm_connections : hb_connections h' = hb_connections h;
  sm_peers : hb_peers h' = hb_peers h;
  sm_members : hb_member_by_conn h' = hb_member_by_conn h;
}.

#[export] Instance same_members_preorder : PreOrder same_members.
Proof. split; [by split|]. intros h1 h2 h3 [] []. split; congruence. Qed.

Lemma offered_same match_key (h h' : AuthorityHub) : offered match_key h h' -> same_members h h'.
Proof. by intros []. Qed.

Lemma client_of_member_same (h h' : AuthorityHub) m : same_members h h' -> client_of_member h' m = client_of_member h m.
Proof. intros []. unfold client_of_member, conn_of_member, resolve. by rewrite sm_members0, sm_connections0. Qed.

(** The packet is a command packet of this match for a connection of its sender, whose peer may
    play. *)
Definition playing (w : InWorld) (match_key : MatchKey) (from : MemberId) (bytes : list byte) (conn client : Z) : Prop :=
  exists header seq cmds samples actions ack p,
    decode_client_packet bytes (hb_limits (iw_hub w)) = Ok (Commands header seq cmds samples actions ack) /\
    ph_connection header = conn /\ applies_to_epoch header (live_packet_epoch (iw_hub w)) = true /\
    hb_peers (iw_hub w) !! conn = Some from /\ hb_replication (iw_hub w) !! conn = Some p /\
    may_play (iw_hub w) match_key p = true /\ resolve (hb_connections (iw_hub w)) conn = Some client.

Lemma ingress_game_spec (w : InWorld) from bytes control match_key :
  let w' := ingress_game frame_tick w from bytes control match_key in
  w' = w \/
  exists conn p p', hb_peers (iw_hub w) !! conn = Some from /\ hb_replication (iw_hub w) !! conn = Some p /\
    pr_admission p' = pr_admission p /\ pr_account p' = pr_account p /\
    iw_hub w' = set_replication (iw_hub w) (<[conn := p']> (hb_replication (iw_hub w))) /\ iw_store w' = iw_store w /\
    ((iw_cmds w' = iw_cmds w /\ iw_actions w' = iw_actions w /\ iw_reliable w' = iw_reliable w) \/
     exists client, playing w match_key from bytes conn client /\ forall id, id <> client -> untouched id w w').
Proof.
  cbv zeta. unfold ingress_game. destruct (decode_client_packet _ _) as [[hello|header seq cmds samples actions ack|header seq]|e] eqn:Ed; [by left| | |by left].
  - unfold ingress_commands. destruct (bool_decide_reflect (hb_peers (iw_hub w) !! ph_connection header = Some from)) as [Hf|]; cbn [negb]; [|by left].
    destruct (applies_to_epoch _ _) eqn:Ee; cbn [negb]; [|by left].
    destruct (hb_replication _ !! _) as [p|] eqn:Ep; [|by left].
    destruct (may_play _ _ _) eqn:Em; cbn [negb]; [|by left].
    destruct (resolve _ _) as [client|] eqn:Er; [|by left].
    right. exists (ph_connection header), p, (set_in_ack p (ph_sequence header)). do 2 (split; [done|]). do 2 (split; [done|]).
    cbn [iw_hub iw_store]. split; [done|]. split; [done|]. right. exists client.
    split; [by exists header, seq, cmds, samples, actions, ack, p|]. intros id Hne.
    pose proof (pushes_untouched client id (fun s => checked_sample (set_in_ack p (ph_sequence header)) <$>
      (snd <$> find (fun x : Z * ShotSampleProvenance => x.1 =? s) samples)) cmds (iw_cmds w) Hne) as (H1 & H2 & H3 & H4).
    pose proof (actions_untouched client id actions (iw_actions w) Hne) as (A1 & A2 & A3).
    split; cbn [iw_cmds iw_actions iw_reliable]; rewrite ?H1, ?H2, ?H3, ?H4; try done.
    + by destruct control.
    + by destruct control.
    + by destruct control.
    + destruct (iw_reliable w) as [hub|]; [|done]. cbn [fmap option_fmap option_map]. by rewrite hub_ack_untouched.
  - unfold ingress_ack. destruct (bool_decide_reflect (hb_peers (iw_hub w) !! ph_connection header = Some from)) as [Hf|]; cbn [negb]; [|by left].
    destruct (applies_to_epoch _ _) eqn:Ee; cbn [negb]; [|by left].
    destruct (hb_replication _ !! _) as [p|] eqn:Ep; [|by left].
    right. do 3 eexists. split; [exact Hf|]. split; [exact Ep|]. cbn [iw_hub iw_store iw_cmds iw_actions iw_reliable].
    split; [|split; [|split; [reflexivity|]]]; [done..|]. split; [done|]. by left.
Qed.

(** The admission of every peer is the same. *)
Definition same_admission (h h' : AuthorityHub) : Prop :=
  forall conn p', hb_replication h' !! conn = Some p' -> exists p, hb_replication h !! conn = Some p /\ pr_admission p' = pr_admission p.

#[export] Instance same_admission_preorder : PreOrder same_admission.
Proof.
  split; [intros h conn p Hp; by exists p|]. intros h1 h2 h3 H1 H2 conn p3 Hp3.
  destruct (H2 _ _ Hp3) as (p2 & Hp2 & E2). destruct (H1 _ _ Hp2) as (p1 & Hp1 & E1). exists p1. split; [done|congruence].
Qed.

Lemma offered_admission match_key (h h' : AuthorityHub) : offered match_key h h' -> same_admission h h'.
Proof.
  intros [] conn p' Hp'. specialize (of_replication conn). rewrite Hp' in of_replication.
  inversion of_replication as [p ? [E _] Hp|]; subst. exists p. split; [done|by rewrite E].
Qed.

Lemma update_admission (h : AuthorityHub) conn p p' :
  hb_replication h !! conn = Some p -> pr_admission p' = pr_admission p ->
  same_admission h (set_replication h (<[conn := p']> (hb_replication h))).
Proof.
  intros Hp Ha c q Hq. cbn in Hq. destruct (decide (conn = c)) as [<-|Hne].
  - rewrite lookup_insert_eq in Hq. injection Hq as <-. by exists p.
  - rewrite lookup_insert_ne in Hq by done. by exists q.
Qed.

(** ** The owner of an account *)

Definition owned (h : AuthorityHub) (conn : Z) (challenge : AccountChallenge) (owner : AccountId) : Prop :=
  exists p a, hb_replication h !! conn = Some p /\ pr_account p = Some a /\ pa_challenge a = challenge /\ pa_owner a = Some owner.

(** A control message of the member of the connection proves the owner. *)
Definition evidence (h : AuthorityHub) (packets : list Packet) (conn : Z) (challenge : AccountChallenge) (owner : AccountId) : Prop :=
  exists bytes from message, (bytes, from, true) ∈ packets /\ hb_peers h !! conn = Some from /\
    decode_account bytes = Ok (Some message) /\ proves message challenge owner.

Lemma offered_owned match_key (h h' : AuthorityHub) conn challenge owner :
  offered match_key h h' -> owned h' conn challenge owner -> owned h conn challenge owner.
Proof.
  intros [] (p' & a' & Hp' & Ha' & Hc & Ho). specialize (of_replication conn). rewrite Hp' in of_replication.
  inversion of_replication as [p ? [E Hpp] Hp|]; subst.
  destruct (Hpp a' Ha') as [(a & Ha & S1 & S2)|(_ & _ & _ & F)]; [|congruence].
  exists p, a. split; [done|]. split; [done|]. split; congruence.
Qed.

Lemma update_owned (h : AuthorityHub) conn p p' c challenge owner :
  hb_replication h !! conn = Some p ->
  owned (set_replication h (<[conn := p']> (hb_replication h))) c challenge owner ->
  owned h c challenge owner \/ (c = conn /\ exists a', pr_account p' = Some a' /\ pa_challenge a' = challenge /\ pa_owner a' = Some owner).
Proof.
  intros Hp (q & a & Hq & Ha & Hc & Ho). cbn in Hq. destruct (decide (conn = c)) as [<-|Hne].
  - rewrite lookup_insert_eq in Hq. injection Hq as <-. right. split; [done|]. by exists a.
  - rewrite lookup_insert_ne in Hq by done. left. by exists q, a.
Qed.

(** ** One packet *)

Context (now : Z) (match_key : MatchKey) (nonces : Z -> Result AccountIdentityError (list byte)).

Definition step_packet (w : InWorld) (packet : Packet) : InWorld * Result HubFault () :=
  ingress_packet frame_tick limits sha256 ed25519_verify parse_f32 now match_key nonces w packet.1.2 packet.1.1 packet.2.

(** What one packet, or several, may do. *)
Record served (packets : list Packet) (w w' : InWorld) : Prop := {
  se_members : same_members (iw_hub w) (iw_hub w');
  se_ok : hub_ok (iw_hub w) -> hub_ok (iw_hub w');
  se_admission : same_admission (iw_hub w) (iw_hub w');
  se_untouched id : hub_ok (iw_hub w) ->
    (forall packet, packet ∈ packets -> client_of_member (iw_hub w) packet.1.2 <> Some id) -> untouched id w w';
  se_owned conn challenge owner : owned (iw_hub w') conn challenge owner ->
    owned (iw_hub w) conn challenge owner \/ evidence (iw_hub w) packets conn challenge owner;
}.

Lemma served_nothing packets w : served packets w w.
Proof. split; [done|done|done|done|by left]. Qed.

Lemma served_account packets (w : InWorld) h store :
  same_members (iw_hub w) h -> (hub_ok (iw_hub w) -> hub_ok h) -> same_admission (iw_hub w) h ->
  (forall conn challenge owner, owned h conn challenge owner ->
     owned (iw_hub w) conn challenge owner \/ evidence (iw_hub w) packets conn challenge owner) ->
  served packets w (mkIngressWorld h (iw_cmds w) (iw_actions w) (iw_reliable w) store).
Proof. intros H1 H2 H3 H4. split; [done|done|done| |done]. intros id _ _. by split. Qed.

Lemma client_of_connection (h : AuthorityHub) conn m client :
  hub_ok h -> hb_peers h !! conn = Some m -> resolve (hb_connections h) conn = Some client -> client_of_member h m = Some client.
Proof.
  intros Hok Hm Hr. unfold client_of_member. rewrite (ho_peers h Hok) in Hm.
  by rewrite (proj2 (conn_of_member_iff h m conn Hok) Hm).
Qed.

Lemma packet_served w packet : served [packet] w (step_packet w packet).1.
Proof.
  destruct packet as [[bytes from] control]. unfold step_packet, ingress_packet. cbn [fst snd].
  assert (Hgame : served [(bytes, from, control)] w (ingress_game frame_tick w from bytes control match_key)).
  { destruct (ingress_game_spec w from bytes control match_key) as [->|(conn & p & p' & Hf & Hp & Hadm & Hacc & Hhub & Hst & Hq)];
      [apply served_nothing|]. split.
    - rewrite Hhub. by split.
    - intros Hok. rewrite Hhub. apply (update_peer_ok _ _ p); [done|done| |].
      + intros b. unfold committed_id. by rewrite Hadm.
      + intros a m Ha Hm. rewrite Hacc in Ha. by apply (ho_account _ Hok conn p).
    - rewrite Hhub. by apply (update_admission _ _ p).
    - intros id Hok Hid. destruct Hq as [(H1 & H2 & H3)|(client & Hplay & Hun)]; [by split; rewrite ?H1, ?H2, ?H3|].
      apply Hun. intros ->. apply (Hid (bytes, from, control)); [by apply list_elem_of_singleton|].
      destruct Hplay as (header & seq & cmds & samples & actions & ack & q & _ & _ & _ & _ & _ & _ & Hr).
      by apply (client_of_connection _ conn).
    - intros c challenge owner Ho. rewrite Hhub in Ho. left.
      apply (update_owned _ _ p) in Ho as [Ho|(-> & a & Ha & Hc & Ho)]; [done| |done].
      exists p, a. rewrite <- Hacc. done. }
  destruct (if control then decode_account bytes else Ok None) as [[message|]|e] eqn:Ed; cbn [fst]; [|done|apply served_nothing].
  destruct control; [|discriminate]. destruct (hb_accounts_required (iw_hub w)); [|apply served_nothing].
  destruct (iw_store w) as [store|] eqn:Es; [|apply served_nothing].
  pose proof (account_message_spec now from message store match_key nonces (iw_hub w)) as Hspec. cbv zeta in Hspec.
  destruct (apply_account_message _ _ _ _ _ _ _ _ _ _ _) as [[h' store'] r]. cbn [fst snd] in *.
  apply served_account.
  - destruct Hspec as [->|(conn & p & a & a' & _ & _ & _ & _ & _ & Ho)]; [done|]. by destruct (offered_same _ _ _ Ho).
  - intros Hok. destruct Hspec as [->|(conn & p & a & a' & Hf & Hp & Ha & _ & [Hc _] & Ho)]; [done|].
    eapply offered_ok; [|exact Ho]. apply (update_peer_ok _ _ p); [done|done|done|].
    intros a1 m [= <-] Hm. destruct (ho_account _ Hok conn p a m Hp Ha Hm). by split; rewrite Hc.
  - destruct Hspec as [->|(conn & p & a & a' & _ & Hp & _ & _ & _ & Ho)]; [done|].
    etrans; [|exact (offered_admission _ _ _ Ho)]. by apply (update_admission _ _ p).
  - intros c challenge owner Hown. destruct Hspec as [->|(conn & p & a & a' & Hf & Hp & Ha & _ & [Hc Hstep] & Ho)]; [by left|].
    pose proof (offered_owned _ _ _ _ _ _ Ho Hown) as H1.
    apply (update_owned _ _ p) in H1 as [H1|(-> & a1 & [= <-] & Hc1 & Ho1)]; [by left| |done].
    destruct Hstep as [Hsame|(o & Hso & Hproves & Hold)].
    + left. exists p, a. split; [done|]. split; [done|]. split; congruence.
    + right. exists bytes, from, message. split; [by apply list_elem_of_singleton|]. split; [done|]. split; [done|].
      rewrite <- Hc1, Hc. assert (o = owner) as <- by congruence. done.
Qed.

Lemma served_trans p1 p2 w1 w2 w3 : served p1 w1 w2 -> served p2 w2 w3 -> served (p1 ++ p2) w1 w3.
Proof.
  intros [M1 O1 D1 U1 A1] [M2 O2 D2 U2 A2]. split.
  - by etrans.
  - auto.
  - by etrans.
  - intros id Hok Hid. etrans; [apply U1|apply U2]; [done| |auto|].
    + intros packet Hin. apply Hid, elem_of_app. by left.
    + intros packet Hin. rewrite (client_of_member_same _ _ _ M1). apply Hid, elem_of_app. by right.
  - intros conn challenge owner Ho. destruct (A2 _ _ _ Ho) as [Ho2|(bytes & from & message & Hin & Hf & He)].
    + destruct (A1 _ _ _ Ho2) as [|(bytes & from & message & Hin & He)]; [by left|right].
      exists bytes, from, message. split; [apply elem_of_app; by left|done].
    + right. exists bytes, from, message. split; [apply elem_of_app; by right|]. destruct M1 as [_ M1 _]. rewrite <- M1. done.
Qed.

Lemma served_more packets more w w' : served packets w w' -> served (packets ++ more) w w'.
Proof. intros H. eapply served_trans; [done|apply served_nothing]. Qed.

Lemma loop_served packets : forall w,
  served packets w (ingress_loop frame_tick limits sha256 ed25519_verify parse_f32 now match_key nonces w packets).1.
Proof.
  induction packets as [|[[bytes from] control] packets IH]; intros w; cbn [ingress_loop]; [apply served_nothing|].
  pose proof (packet_served w (bytes, from, control)) as H1. unfold step_packet in H1. cbn [fst snd] in H1.
  destruct (ingress_packet _ _ _ _ _ _ _ _ _ _ _ _) as [w1 [[]|e]]; cbn [fst] in *.
  - exact (served_trans [_] packets _ _ _ H1 (IH w1)).
  - exact (served_more [_] packets _ _ H1).
Qed.

(** ** The whole step *)

(** The packets waiting in the mailbox. *)
Definition waiting_data (h : AuthorityHub) : list (MemberId * list byte) := (take_inbound now (hb_relay h)).2.
Definition waiting_control (h : AuthorityHub) : list (MemberId * list byte) := (take_control_inbound (hb_relay h)).2.
Definition waiting (h : AuthorityHub) : list Packet :=
  map (fun p : MemberId * list byte => (p.2, p.1, false)) (waiting_data h) ++
  map (fun p : MemberId * list byte => (p.2, p.1, true)) (waiting_control h).

Lemma elem_of_waiting (h : AuthorityHub) bytes from (control : bool) :
  (bytes, from, control) ∈ waiting h -> if control then (from, bytes) ∈ waiting_control h else (from, bytes) ∈ waiting_data h.
Proof.
  unfold waiting. intros [Hin|Hin]%elem_of_app; apply list_elem_of_fmap in Hin as ([m b] & [= -> -> ->] & Hin); done.
Qed.

(** The hub once the answers are taken and the accounts are offered, before the packets. *)
Definition before_packets (required : bool) (w : InWorld) : AuthorityHub * Result HubFault () :=
  let h := apply_admission_acks frame_tick (set_required (iw_hub w) required) in
  match required, iw_store w with
  | true, Some store => offer_accounts limits now store match_key nonces h
  | _, _ => (h, Ok ())
  end.

Record prepared (h h' : AuthorityHub) : Prop := {
  pp_members : same_members h h';
  pp_ok : hub_ok h -> hub_ok h';
  pp_inbound : waiting h' = waiting h;
  pp_owned conn challenge owner : owned h' conn challenge owner -> owned h conn challenge owner;
  pp_admitted conn p' b e : hb_replication h' !! conn = Some p' -> pr_admission p' = Committed b e ->
    exists p, hb_replication h !! conn = Some p /\
      (pr_admission p = Committed b e \/
       exists lane ack, hb_bootstrap h = Some lane /\ ack ∈ bn_acks lane /\ conn = bk_connection ack /\ b = bk_bootstrap_id ack /\
         e = bk_epoch ack /\ epoch_applies e (bn_epoch lane) = true /\ answers_offer h p ack);
}.

Lemma ack_owned (h : AuthorityHub) ack live conn challenge owner :
  owned (commit_admission frame_tick h ack live) conn challenge owner -> owned h conn challenge owner.
Proof.
  destruct (commit_spec frame_tick h ack live) as [->|(_ & _ & p & Hp & [[_ ->]|[_ ->]])]; [done| |done].
  intros Ho. apply (update_owned h _ p) in Ho as [Ho|(-> & a & Ha & Hc & Ho)]; [done| |done]. by exists p, a.
Qed.

Lemma ack_same (h : AuthorityHub) ack live :
  same_members h (commit_admission frame_tick h ack live) /\ hb_relay (commit_admission frame_tick h ack live) = hb_relay h.
Proof. by destruct (commit_spec frame_tick h ack live) as [->|(_ & _ & p & Hp & [[_ ->]|[_ ->]])]. Qed.

Lemma acks_prepared acks live : forall h : AuthorityHub,
  let h' := foldl (fun h ack => commit_admission frame_tick h ack live) h acks in
  same_members h h' /\ hb_relay h' = hb_relay h /\
  forall conn challenge owner, owned h' conn challenge owner -> owned h conn challenge owner.
Proof.
  induction acks as [|ack acks IH]; intros h; cbn [foldl]; [done|].
  destruct (IH (commit_admission frame_tick h ack live)) as (H1 & H2 & H3). destruct (ack_same h ack live) as [H4 H5].
  split; [by etrans|]. split; [congruence|]. intros conn challenge owner Ho. eapply ack_owned. by apply H3.
Qed.

Lemma acks_step (h : AuthorityHub) : prepared h (apply_admission_acks frame_tick h).
Proof.
  pose proof (apply_acks_ok frame_tick h) as Hok. unfold apply_admission_acks in *. destruct (hb_bootstrap h) as [lane|] eqn:Eb.
  2: { split; [done|done|done|done|]. intros conn p' b e Hp' Ha. exists p'. split; [done|by left]. }
  unfold take_acks in *. destruct (acks_prepared (bn_acks lane) (bn_epoch lane) (set_bootstrap h (Some (set_acks lane [])))) as (H1 & H2 & H3).
  split; [by destruct H1|done| |done|].
  - unfold waiting, waiting_data, waiting_control. by rewrite H2.
  - intros conn p' b e Hp' Ha. destruct (acks_admit frame_tick _ _ _ _ _ _ _ Hp' Ha) as (p & Hp & Hcase). exists p. split; [done|].
    destruct Hcase as [|(ack & Hin & -> & -> & -> & He & Hoffer)]; [by left|right]. by exists lane, ack.
Qed.

Lemma offers_step store (h : AuthorityHub) : prepared h (offer_accounts limits now store match_key nonces h).1.
Proof.
  pose proof (offer_accounts_offered limits now store match_key nonces h) as Ho. split.
  - by eapply offered_same.
  - intros Hok. by eapply offered_ok.
  - destruct Ho. unfold waiting, waiting_data, waiting_control, take_inbound, take_control_inbound. by rewrite of_inbound, of_control.
  - intros conn challenge owner. by eapply offered_owned.
  - intros conn p' b e Hp' Ha. destruct (offered_admission _ _ _ Ho conn p' Hp') as (p & Hp & E). exists p. split; [done|]. left. congruence.
Qed.

Lemma before_packets_spec required w : prepared (iw_hub w) (before_packets required w).1.
Proof.
  unfold before_packets. destruct (acks_step (set_required (iw_hub w) required)) as [M O I A C].
  assert (H0 : prepared (iw_hub w) (apply_admission_acks frame_tick (set_required (iw_hub w) required))).
  { split; [by destruct M|by intros Hok; apply O, set_required_ok|done|done|done]. }
  destruct required; [|done]. destruct (iw_store w) as [store|]; [|done].
  destruct (offers_step store (apply_admission_acks frame_tick (set_required (iw_hub w) true))) as [M' O' I' A' C'].
  destruct H0 as [M0 O0 I0 A0 C0]. split; [by etrans|auto|congruence|auto|].
  intros conn p' b e Hp' Ha. destruct (C' _ _ _ _ Hp' Ha) as (p1 & Hp1 & [H1|(lane & ack & Hl & Hin & -> & -> & -> & He & offer & H1 & H2)]).
  - destruct (C0 _ _ _ _ Hp1 H1) as (p & Hp & Hcase). by exists p.
  - exfalso. clear -Hl Hin. unfold apply_admission_acks in Hl. destruct (hb_bootstrap (set_required (iw_hub w) true)) as [lane0|] eqn:E0; [|congruence].
    unfold take_acks in Hl. assert (Hb : forall acks live (h : AuthorityHub), hb_bootstrap (foldl (fun h ack => commit_admission frame_tick h ack live) h acks) = hb_bootstrap h).
    { induction acks as [|a acks IH]; intros live h; cbn [foldl]; [done|]. rewrite IH.
      by destruct (commit_spec frame_tick h a live) as [->|(_ & _ & p & Hp & [[_ ->]|[_ ->]])]. }
    rewrite Hb in Hl. injection Hl as <-. by apply not_elem_of_nil in Hin.
Qed.

Context (realm_iw4 : bool).

Definition step_ingress (w : InWorld) : InWorld * Result HubFault () :=
  ingress frame_tick limits sha256 ed25519_verify parse_f32 now realm_iw4 match_key nonces w.

Lemma ingress_effect w : exists h m,
  prepared (iw_hub w) h /\ served (waiting (iw_hub w)) (set_hub w (set_relay h m)) (step_ingress w).1.
Proof.
  unfold step_ingress, ingress. set (required := is_relay (iw_hub w) && _).
  pose proof (before_packets_spec required w) as Hp. exists (before_packets required w).1.
  pose proof (pp_inbound _ _ Hp) as Hin. rewrite <- Hin.
  match goal with |- context [match ?x with (h, r) => match r with Ok _ => _ | Err _ => _ end end] => change x with (before_packets required w) end.
  destruct (before_packets required w) as [h [[]|e]]; cbn [fst] in *.
  - unfold waiting, waiting_data, waiting_control, take_inbound, take_control_inbound.
    destruct (lanes_take now (mb_inbound (hb_relay h))) as [lanes data]. cbn [mb_control_inbound]. destruct (take_mail _) as [queue control].
    eexists. split; [done|]. apply loop_served.
  - exists (hb_relay h). split; [done|]. replace (set_relay h (hb_relay h)) with h by (by destruct h). apply served_nothing.
Qed.

(** C23. No packet speaks for another member: when nothing in the mailbox came from the member whose
    client this is (or the client is nobody's), a whole step of the host leaves the client's
    commands, actions and reliable rows alone, whatever the packets of the other members claim. *)
Theorem packets_speak_for_their_sender w id :
  hub_ok (iw_hub w) ->
  (forall member bytes, (member, bytes) ∈ waiting_data (iw_hub w) \/ (member, bytes) ∈ waiting_control (iw_hub w) ->
     client_of_member (iw_hub w) member <> Some id) ->
  untouched id w (step_ingress w).1.
Proof.
  intros Hok Hid. destruct (ingress_effect w) as (h & m & Hp & Hs).
  assert (H0 : untouched id w (set_hub w (set_relay h m))) by by split.
  etrans; [exact H0|]. destruct Hp. apply (se_untouched _ _ _ Hs).
  - cbn. apply set_relay_ok. auto.
  - intros [[bytes from] control] Hin%elem_of_waiting. cbn [fst snd iw_hub set_hub].
    change (client_of_member (set_relay h m) from) with (client_of_member h from). rewrite (client_of_member_same _ _ _ pp_members0).
    apply (Hid from bytes). destruct control; auto.
Qed.

(** C22. Gameplay needs admission: a packet that changes anything for a client comes from the client's
    own member, decodes as a command packet that names this member's connection and the epoch of
    the match that runs, and the peer may play: on a relay hub it applied its first snapshot, and
    where accounts are required it proved one for this match. *)
Theorem gameplay_needs_admission w packet id :
  hub_ok (iw_hub w) ->
  untouched id w (step_packet w packet).1 \/
  (client_of_member (iw_hub w) packet.1.2 = Some id /\
   exists conn p header seq cmds samples actions ack,
     conn_of_member (iw_hub w) packet.1.2 = Some conn /\ hb_replication (iw_hub w) !! conn = Some p /\
     decode_client_packet packet.1.1 (hb_limits (iw_hub w)) = Ok (Commands header seq cmds samples actions ack) /\
     ph_connection header = conn /\ ph_epoch header = live_packet_epoch (iw_hub w) /\
     (is_relay (iw_hub w) = true -> exists b e, pr_admission p = Committed b e) /\
     (hb_accounts_required (iw_hub w) = true -> exists a owner, pr_account p = Some a /\ pa_owner a = Some owner /\
        ac_match_key (pa_challenge a) = match_key /\ ac_member (pa_challenge a) = packet.1.2)).
Proof.
  intros Hok. destruct packet as [[bytes from] control]. unfold step_packet, ingress_packet. cbn [fst snd].
  destruct (if control then decode_account bytes else Ok None) as [[message|]|e]; cbn [fst]; [| |by left].
  { destruct (hb_accounts_required (iw_hub w)); [|by left]. destruct (iw_store w); [|by left].
    destruct (apply_account_message _ _ _ _ _ _ _ _ _ _ _) as [[h' store'] r]. cbn [fst]. left. by split. }
  destruct (ingress_game_spec w from bytes control match_key) as [->|(conn & p & p' & Hf & Hp & _ & _ & _ & _ & Hq)]; [by left|].
  destruct Hq as [(H1 & H2 & H3)|(client & Hplay & Hun)]; [left; by split; rewrite ?H1, ?H2, ?H3|].
  destruct (decide (id = client)) as [->|Hne]; [right|left; by apply Hun].
  destruct Hplay as (header & seq & cmds & samples & actions & ack & q & Hd & Hc & He & _ & Hq & Hm & Hr).
  assert (q = p) as -> by congruence. apply Z.eqb_eq in He.
  split; [by eapply client_of_connection|]. exists conn, p, header, seq, cmds, samples, actions, ack.
  rewrite (ho_peers _ Hok) in Hf. do 5 (split; [first [done|by apply conn_of_member_iff]|]).
  unfold may_play, admits_gameplay in Hm. apply andb_true_iff in Hm as [Ha Hb]. split.
  - intros Hrelay. rewrite Hrelay in Ha. cbn in Ha. destruct (pr_admission p); [discriminate..|eauto].
  - intros Hreq. rewrite Hreq in Hb. cbn in Hb. destruct (pr_account p) as [a|] eqn:Eacc; [|discriminate].
    apply andb_true_iff in Hb as [Hk Hb]. apply bool_decide_eq_true in Hk. unfold account_bound in Hb. rewrite Eacc in Hb.
    apply andb_true_iff in Hb as [[owner Ho]%bool_decide_eq_true _]. exists a, owner.
    destruct (ho_account _ Hok conn p a from Hp Eacc Hf). done.
Qed.

(** C24. Accounts are proved: after a step of the host, the owner of a connection's account had been
    bound to this challenge before, or the connection's own member sent, on the control lane, a
    profile whose proof verifies for exactly this challenge, which is the host's own for this
    connection and member. *)
Theorem account_owner_was_proved w conn challenge owner :
  hub_ok (iw_hub w) -> owned (iw_hub (step_ingress w).1) conn challenge owner ->
  owned (iw_hub w) conn challenge owner \/
  exists member bytes message, (member, bytes) ∈ waiting_control (iw_hub w) /\
    conn_of_member (iw_hub w) member = Some conn /\ ac_connection challenge = conn /\ ac_member challenge = member /\
    decode_account bytes = Ok (Some message) /\ proves message challenge owner.
Proof.
  intros Hok Ho. destruct (ingress_effect w) as (h & m & [] & Hs).
  assert (Hok1 : hub_ok (set_relay h m)) by (apply set_relay_ok; auto).
  pose proof (se_ok _ _ _ Hs Hok1) as Hok'. pose proof (sm_members _ _ (se_members _ _ _ Hs)) as Hmem.
  destruct (se_owned _ _ _ Hs conn challenge owner Ho) as [Hb|(bytes & from & message & Hin%elem_of_waiting & Hf & Hd & Hpr)];
    [left; by apply pp_owned0|right].
  destruct Ho as (p & a & Hp & Ha & Hc & _). cbn in Hf, Hmem. rewrite (sm_peers _ _ pp_members0), (ho_peers _ Hok) in Hf.
  exists from, bytes, message. split; [done|]. split; [by apply conn_of_member_iff|].
  destruct (ho_account _ Hok' conn p a from Hp Ha) as [A1 A2]; [by rewrite Hmem, (sm_members _ _ pp_members0)|].
  subst challenge. done.
Qed.

(** A peer is admitted by its own answer: after a step of the host, a connection that is admitted
    was so before, or it was waiting on an offer of this match and the lane held an answer of its
    own member that names that offer, its snapshot and its match. *)
Theorem admission_answers_own_offer w conn p' b e :
  hub_ok (iw_hub w) -> hb_replication (iw_hub (step_ingress w).1) !! conn = Some p' -> pr_admission p' = Committed b e ->
  exists p, hb_replication (iw_hub w) !! conn = Some p /\
    (pr_admission p = Committed b e \/
     exists lane offer ack member, hb_bootstrap (iw_hub w) = Some lane /\ pr_admission p = Pending offer /\
       qd_bootstrap_id offer = b /\ qd_epoch offer = e /\ e = bn_epoch lane /\ e <> 0 /\
       ack ∈ bn_acks lane /\ conn_of_member (iw_hub w) member = Some conn /\
       bk_member_id ack = member /\ bk_connection ack = conn /\ bk_bootstrap_id ack = b /\ bk_epoch ack = e /\
       bk_snapshot_seq ack = qd_snapshot_seq offer).
Proof.
  intros Hok Hp' Ha. destruct (ingress_effect w) as (h & m & [] & Hs).
  destruct (se_admission _ _ _ Hs conn p' Hp') as (p1 & Hp1 & E). rewrite E in Ha.
  destruct (pp_admitted0 conn p1 b e Hp1 Ha) as (p & Hp & Hcase). exists p. split; [done|].
  destruct Hcase as [|(lane & ack & Hl & Hin & -> & -> & -> & He & offer & H1 & H2 & H3 & H4 & H5)]; [by left|right].
  exists lane, offer, ack, (bk_member_id ack). split; [done|]. split; [done|]. split; [done|]. split; [done|].
  unfold epoch_applies in He. apply andb_true_iff in He as [Hz%negb_true_iff%Z.eqb_neq Heq%Z.eqb_eq].
  split; [done|]. split; [done|]. split; [done|]. split; [by apply conn_of_member_iff|]. done.
Qed.
End Ingress.
