(* ===== verification/SnapshotFanout.v ===== *)
(** * Sending the snapshots

    [UdpAuthorityHub::fanout_with_seats] of crates/net/src/transport/udp_session.rs: once per tick
    every connection is visited, gets the reliable rows it is owed, and, when it is its turn, a
    snapshot: whole or against the frame it acknowledged, as the offer that admits it or as a
    datagram.

    What a client sees of the tick, its encoding and the tail of the frame ([for_peer], the
    [SnapshotEncoder], [FrameTail], [FrameParts::new]) is the parameter [frame_for]; the pending
    sounds, cards and notifications it takes are taken once per client.  The shared metas are the
    addresses of [heap]. *)

From S2P Require Export SessionHub.

#[local] Open Scope Z_scope.

Definition FULL_SNAPSHOT_RESEND_TICKS : Z := 10.

Inductive UdpSendError : Type :=
| Oversized (encoded_len max_packet_bytes : Z)
| Io (e : MailError)
| SendPanic.

Section Fanout.
Context {Frame Encoder : Type}.
Context (encoder_new : Encoder) (encoder_reset : Encoder -> Encoder) (adopt_baseline : Encoder -> Frame -> Encoder).
Context (limits : TransportBudget) (now : Z).
Context (heap : Z -> WireMeta).
Context (compress_against : list byte -> list byte -> option (list byte)) (zstd_compress : list byte -> option (list byte)).
(** The tick of the snapshot, the frame of a client (from its encoder and the command acknowledgement
    it is owed), the command acknowledgements of the tick and the reliable rows. *)
Context (tick : Z) (frame_for : Z -> Encoder -> option (Z * Z) -> Encoder * Frame * FrameParts).
Context (acks : list (Z * Z)) (reliable : option (Reliable.Hub WireRow)).

Abbreviation AuthorityHub := (@UdpAuthorityHub Frame Encoder).
Abbreviation PeerState := (@PeerReplicationState Frame Encoder).

Definition set_control (p : PeerState) (control : ControlLane) : PeerState :=
  mkPeer (pr_baseline p) (pr_encoder p) (pr_next_snap_seq p) (pr_out_seq p) (pr_in_ack p) (pr_last_full p) (pr_sent_ticks p)
    (pr_admission p) control (pr_account p) (pr_pace p) (pr_held_ack p).
Definition set_pace (p : PeerState) (pace : SnapshotPace) : PeerState :=
  mkPeer (pr_baseline p) (pr_encoder p) (pr_next_snap_seq p) (pr_out_seq p) (pr_in_ack p) (pr_last_full p) (pr_sent_ticks p)
    (pr_admission p) (pr_control p) (pr_account p) pace (pr_held_ack p).
Definition set_held (p : PeerState) (held : option (Z * Z)) : PeerState :=
  mkPeer (pr_baseline p) (pr_encoder p) (pr_next_snap_seq p) (pr_out_seq p) (pr_in_ack p) (pr_last_full p) (pr_sent_ticks p)
    (pr_admission p) (pr_control p) (pr_account p) (pr_pace p) held.
Definition set_encoder (p : PeerState) (encoder : Encoder) (last_full : option Z) : PeerState :=
  mkPeer (pr_baseline p) encoder (pr_next_snap_seq p) (pr_out_seq p) (pr_in_ack p) last_full (pr_sent_ticks p)
    (pr_admission p) (pr_control p) (pr_account p) (pr_pace p) (pr_held_ack p).
Definition set_sequences (p : PeerState) (next_snap_seq out_seq : Z) : PeerState :=
  mkPeer (pr_baseline p) (pr_encoder p) next_snap_seq out_seq (pr_in_ack p) (pr_last_full p) (pr_sent_ticks p)
    (pr_admission p) (pr_control p) (pr_account p) (pr_pace p) (pr_held_ack p).
(** [push_back], and the oldest are dropped. *)
Definition note_sent (p : PeerState) : PeerState :=
  let sent := pr_sent_ticks p ++ [tick] in
  mkPeer (pr_baseline p) (pr_encoder p) (pr_next_snap_seq p) (pr_out_seq p) (pr_in_ack p) (pr_last_full p)
    (drop (length sent - 32) sent) (pr_admission p) (pr_control p) (pr_account p) (pr_pace p) (pr_held_ack p).

Definition is_committed (p : PeerState) : bool := match pr_admission p with Committed _ _ => true | _ => false end.

(** [queue_control]; [None] is a panic of the encoder. *)
Definition peer_queue_control (m : RelayMailbox) (member : MemberId) (connection epoch : Z) (payload : ReliablePayload WireRow)
    (p : PeerState) : option (RelayMailbox * PeerState * Result UdpSendError ()) :=
  match queue_control (pr_control p) payload with
  | (_, None) => Some (m, p, Ok ())
  | (lane, Some payload) =>
      packet ← encode_server_packet zstd_compress (Control (mkPacketHeader connection 0 0 epoch) payload);
      let '(m, answer) := push_control_outbound limits now m member packet in
      Some (match answer with Ok _ => (m, set_control p lane, Ok ()) | Err e => (m, p, Err (Io e)) end)
  end.

(** Who is visited: its member and client, once its map is loaded. *)
Definition fanout_target (h : AuthorityHub) (conn : Z) : option (MemberId * Z) :=
  target ← hb_peers h !! conn;
  client ← resolve (hb_connections h) conn;
  match hb_bootstrap h with
  | Some lane => if bool_decide (target ∈ bn_host_map_ready lane) then Some (target, client) else None
  | None => Some (target, client)
  end.

(** The peer waits on an offer of this match. *)
Definition awaits_offer (h : AuthorityHub) (p : PeerState) : bool :=
  match hb_bootstrap h, pr_admission p with
  | Some lane, Pending offer => qd_epoch offer =? bn_epoch lane
  | _, _ => false
  end.

(** The baseline of the snapshot to send now, if it is the peer's turn. *)
Definition snapshot_turn (h : AuthorityHub) (client : Z) (p : PeerState) : PeerState * option Z :=
  let '(table, resync) := clear_missing_ack (pr_baseline p) in
  let p := set_baseline p table in
  let baseline_seq := baseline_seq_for_encode table in
  let full := baseline_seq =? 0 in
  if negb (may_encode_against table baseline_seq) then (p, None)
  else if full && negb resync &&
          match pr_last_full p with Some last => saturating_sub tick last <? FULL_SNAPSHOT_RESEND_TICKS | None => false end
  then (p, None)
  else if full && match hb_bootstrap h with Some lane => bn_epoch lane =? 0 | None => false end then (p, None)
  else
    let p := match find (fun a : Z * Z => a.1 =? client) (rev acks) with Some ack => set_held p (Some ack) | None => p end in
    let unacked := if full then None else Some (wrapping_sub32 (pr_next_snap_seq p) baseline_seq) in
    if full && is_relay h && negb (is_committed p) then (p, Some baseline_seq)
    else
      let '(pace, ready) := pace_ready (pr_pace p) tick unacked in
      (set_pace p pace, if ready then Some baseline_seq else None).

(** The frame of the peer. *)
Definition build_frame (client baseline_seq : Z) (p : PeerState) : PeerState * (Frame * FrameParts) :=
  let '(encoder, last_full) :=
    if baseline_seq =? 0 then (encoder_reset (pr_encoder p), Some tick)
    else (match baseline_for_encode (pr_baseline p) with
          | Some frame => adopt_baseline (pr_encoder p) frame
          | None => pr_encoder p
          end, pr_last_full p) in
  let '(encoder, frame, parts) := frame_for client encoder (pr_held_ack p) in
  (set_held (set_encoder p encoder last_full) None, (frame, parts)).

Definition snapshot_payload (p : PeerState) (baseline_seq : Z) (parts : FrameParts) (cache : MetaPatchCache)
    : option (SnapshotPayload * MetaPatchCache) :=
  match (if baseline_seq =? 0 then None else baseline_parts_for_encode (pr_baseline p)) with
  | Some baseline =>
      '(delta, cache) ← delta_encode heap compress_against parts baseline cache;
      raw ← to_raw heap parts;
      Some (against_baseline zstd_compress delta raw, cache)
  | None => raw ← to_raw heap parts; Some (Plain raw, cache)
  end.

Record Fan : Type := mkFan {
  fn_hub : AuthorityHub;
  fn_cache : MetaPatchCache;
  fn_last_err : option UdpSendError;
}.

Definition fan_peer (f : Fan) (conn : Z) (p : PeerState) : Fan :=
  mkFan (set_replication (fn_hub f) (<[conn := p]> (hb_replication (fn_hub f)))) (fn_cache f) (fn_last_err f).
Definition fan_relay (f : Fan) (m : RelayMailbox) : Fan := mkFan (set_relay (fn_hub f) m) (fn_cache f) (fn_last_err f).

Definition next_id (h : AuthorityHub) (conn : Z) : AuthorityHub * Z :=
  let current := default 1 (hb_next_bootstrap_id h !! conn) in
  (mkHub (hb_relay h) (hb_hello h) (hb_limits h) (hb_connections h) (hb_peers h) (hb_replication h) (hb_bootstrap h)
     (<[conn := Z.max (wrapping_add32 current 1) 1]> (hb_next_bootstrap_id h)) (hb_member_by_conn h) (hb_committed h)
     (hb_denied h) (hb_accounts_required h), current).

(** The snapshot as an offer on the bootstrap lane. *)
Definition send_offer (h : AuthorityHub) (lane : BootstrapLane) (conn : Z) (target : MemberId) (snapshot_seq : Z) (packet : list byte)
    (p : PeerState) : AuthorityHub * PeerState :=
  let '(h, bootstrap_id) := next_id h conn in
  match from_snapshot (bn_epoch lane) bootstrap_id tick snapshot_seq conn packet with
  | Err _ => (h, p)
  | Ok txn =>
      match enqueue limits now txn lane target with
      | (lane, None) => (set_bootstrap h (Some lane), p)
      | (lane, Some queued) => (set_bootstrap h (Some lane), note_sent (set_admission p (Pending queued)))
      end
  end.

(** The snapshot as a datagram. *)
Definition send_datagram (h : AuthorityHub) (target : MemberId) (packet : list byte) (p : PeerState) : AuthorityHub * PeerState :=
  (set_relay h (push_outbound limits now (hb_relay h) target packet).1,
   note_sent (set_pace p (pace_charge (pr_pace p) (zlen packet)))).

Definition deliver (h : AuthorityHub) (conn : Z) (target : MemberId) (baseline_seq snapshot_seq : Z) (packet : list byte) (p : PeerState) : AuthorityHub * PeerState :=
  match hb_bootstrap h with
  | Some lane => if (baseline_seq =? 0) && negb (is_committed p) then send_offer h lane conn target snapshot_seq packet p
                 else send_datagram h target packet p
  | None => send_datagram h target packet p
  end.

(** The frame becomes one the peer may acknowledge, and takes the next packet number. *)
Definition remember_frame (p : PeerState) (snapshot_seq : Z) (frame : Frame) (parts : FrameParts) : PeerState :=
  let p := set_baseline p (remember (pr_baseline p) snapshot_seq frame parts) in
  set_sequences p (pr_next_snap_seq p) (wrapping_add32 (pr_out_seq p) 1).

(** One snapshot: [Err] ends the whole fanout. *)
Definition send_snapshot (f : Fan) (conn : Z) (target : MemberId) (client baseline_seq : Z) (p : PeerState) : Fan * Result UdpSendError () :=
  let '(p, (frame, parts)) := build_frame client baseline_seq p in
  let snapshot_seq := pr_next_snap_seq p in
  let p := set_sequences p (wrapping_add32 snapshot_seq 1) (pr_out_seq p) in
  match segments heap parts with
  | None => (fan_peer f conn p, Err SendPanic)
  | Some segs =>
    if MAX_RECONSTRUCTED_FRAME_BYTES <? zlen (concat segs)
    then (fan_peer f conn p, Err (Oversized (zlen (concat segs)) MAX_RECONSTRUCTED_FRAME_BYTES))
    else match snapshot_payload p baseline_seq parts (fn_cache f) with
    | None => (fan_peer f conn p, Err SendPanic)
    | Some (payload, cache) =>
      let p := remember_frame p snapshot_seq frame parts in
      let header := mkPacketHeader conn (pr_out_seq p) (pr_in_ack p) (live_packet_epoch (fn_hub f)) in
      match encode_server_packet zstd_compress (Snapshot header baseline_seq snapshot_seq payload) with
      | None => (fan_peer f conn p, Err SendPanic)
      | Some packet =>
        let '(h, p) := deliver (fn_hub f) conn target baseline_seq snapshot_seq packet p in
        (fan_peer (mkFan h cache (fn_last_err f)) conn p, Ok ())
      end
    end
  end.

(** The reliable rows an admitted peer is owed. *)
Definition queue_rows (h : AuthorityHub) (target : MemberId) (client conn : Z) (p : PeerState)
    : option (RelayMailbox * PeerState * Result UdpSendError ()) :=
  match reliable with
  | Some rows =>
      if admits_gameplay p (is_relay h)
      then peer_queue_control (hb_relay h) target conn (live_packet_epoch h) (hub_payload rows client) p
      else Some (hb_relay h, p, Ok ())
  | None => Some (hb_relay h, p, Ok ())
  end.

(** One connection of the loop. *)
Definition fanout_peer (f : Fan) (conn : Z) : Fan * Result UdpSendError () :=
  match fanout_target (fn_hub f) conn with
  | None => (f, Ok ())
  | Some (target, client) =>
    let p := default (peer_new encoder_new) (hb_replication (fn_hub f) !! conn) in
    if awaits_offer (fn_hub f) p then (fan_peer f conn p, Ok ())
    else
      match queue_rows (fn_hub f) target client conn p with
      | None => (fan_peer f conn p, Err SendPanic)
      | Some (m, p, r) =>
        let f := fan_relay f m in
        let f := mkFan (fn_hub f) (fn_cache f) (match r with Err e => Some e | Ok _ => fn_last_err f end) in
        match snapshot_turn (fn_hub f) client p with
        | (p, None) => (fan_peer f conn p, Ok ())
        | (p, Some baseline_seq) => send_snapshot f conn target client baseline_seq p
        end
      end
  end.

Fixpoint fanout_loop (f : Fan) (conns : list Z) : Fan * Result UdpSendError () :=
  match conns with
  | [] => (f, match fn_last_err f with Some e => Err e | None => Ok () end)
  | conn :: conns => match fanout_peer f conn with (f, Err e) => (f, Err e) | (f, Ok _) => fanout_loop f conns end
  end.

Definition fanout_with_seats (h : AuthorityHub) : AuthorityHub * Result UdpSendError () :=
  let '(f, r) := fanout_loop (mkFan h cache_new None) (map fst (map_to_list (hb_peers h))) in (fn_hub f, r).
End Fanout.
