(* ===== verification/SnapshotFanoutMain.v ===== *)
(** * What sending does to the host's sessions

    A fanout keeps the invariant of the hub and the admission and account of every peer, but for
    the offers it makes to those that are not admitted; a snapshot it sends is decoded by a client
    that has the baseline. *)

From S2P Require Export ProtocolMain SegmentDeltaMain Baseline SnapshotFanout SessionHubInv.

#[local] Open Scope Z_scope.

Section Fanned.
Context {Frame Encoder : Type}.
Context (encoder_new : Encoder) (encoder_reset : Encoder -> Encoder) (adopt_baseline : Encoder -> Frame -> Encoder).
Context (limits : TransportBudget) (now : Z).
Context (heap : Z -> WireMeta).
Context (compress_against : list byte -> list byte -> option (list byte)) (zstd_compress : list byte -> option (list byte)).
Context (tick : Z) (frame_for : Z -> Encoder -> option (Z * Z) -> Encoder * Frame * FrameParts).
Context (acks : list (Z * Z)) (reliable : option (Reliable.Hub WireRow)).

Abbreviation AuthorityHub := (@UdpAuthorityHub Frame Encoder).
Abbreviation PeerState := (@PeerReplicationState Frame Encoder).

(** ** The peers *)

(** What does not depend on sending. *)
Record kept (p p' : PeerState) : Prop := {
  kp_account : pr_account p' = pr_account p;
  kp_admission : pr_admission p' = pr_admission p;
  kp_in_ack : pr_in_ack p' = pr_in_ack p;
}.

#[export] Instance kept_preorder : PreOrder kept.
Proof. split; [by split|]. intros p1 p2 p3 [] []. split; congruence. Qed.

Record peer_fanned (conn epoch : Z) (p p' : PeerState) : Prop := {
  pf_account : pr_account p' = pr_account p;
  pf_in_ack : pr_in_ack p' = pr_in_ack p;
  pf_admission : pr_admission p' = pr_admission p \/
    (is_committed p = false /\ exists offer, pr_admission p' = Pending offer /\
       qd_connection offer = conn /\ qd_epoch offer = epoch /\ epoch <> 0);
}.

#[export] Instance peer_fanned_preorder conn epoch : PreOrder (peer_fanned conn epoch).
Proof.
  split; [intros p; split; auto|]. intros p1 p2 p3 [A1 I1 D1] [A2 I2 D2]. split; [congruence..|].
  destruct D2 as [D2|(C2 & offer & D2 & H2)].
  - destruct D1 as [D1|(C1 & offer & D1 & H1)]; [left; congruence|right]. split; [done|]. exists offer. split; [congruence|done].
  - right. split; [|by exists offer]. destruct D1 as [D1|(C1 & _)]; [|done]. unfold is_committed in *. by rewrite <- D1.
Qed.

Lemma kept_fanned conn epoch p p' : kept p p' -> peer_fanned conn epoch p p'.
Proof. intros []. split; [done|done|by left]. Qed.

Lemma queue_control_kept m member conn epoch payload p m' p' r :
  peer_queue_control limits now zstd_compress m member conn epoch payload p = Some (m', p', r) ->
  kept p p' /\ mb_inbound m' = mb_inbound m /\ mb_control_inbound m' = mb_control_inbound m /\ mb_outbound m' = mb_outbound m /\
  mb_cap m' = mb_cap m.
Proof.
  unfold peer_queue_control, push_control_outbound. destruct (queue_control _ _) as [lane [rows|]]; [|by intros [= <- <- <-]].
  destruct (encode_server_packet _ _) as [packet|]; cbn [mbind option_bind]; [|done].
  destruct (push_mail _ _ _ _ _ _) as [queue [|]]; intros [= <- <- <-]; done.
Qed.

Lemma queue_rows_kept (h : AuthorityHub) target client conn p m' p' r :
  queue_rows limits now zstd_compress reliable h target client conn p = Some (m', p', r) ->
  kept p p' /\ mb_inbound m' = mb_inbound (hb_relay h) /\ mb_control_inbound m' = mb_control_inbound (hb_relay h) /\
  mb_outbound m' = mb_outbound (hb_relay h) /\ mb_cap m' = mb_cap (hb_relay h).
Proof.
  unfold queue_rows. destruct reliable as [rows|]; [destruct (admits_gameplay _ _)|]; [|by intros [= <- <- <-]..].
  apply queue_control_kept.
Qed.

Lemma snapshot_turn_kept (h : AuthorityHub) client p : kept p (snapshot_turn tick acks h client p).1.
Proof.
  unfold snapshot_turn. repeat match goal with |- context [match ?x with _ => _ end] => destruct x end; by split.
Qed.

Lemma build_frame_kept client baseline_seq p :
  kept p (build_frame encoder_reset adopt_baseline tick frame_for client baseline_seq p).1.
Proof.
  unfold build_frame. destruct (if baseline_seq =? 0 then _ else _) as [encoder last_full].
  by destruct (frame_for _ _ _) as [[encoder' frame] parts].
Qed.

(** ** The hub *)

Record fanned (h h' : AuthorityHub) : Prop := {
  fa_connections : hb_connections h' = hb_connections h;
  fa_peers : hb_peers h' = hb_peers h;
  fa_members : hb_member_by_conn h' = hb_member_by_conn h;
  fa_committed : hb_committed h' = hb_committed h;
  fa_denied : hb_denied h' = hb_denied h;
  fa_required : hb_accounts_required h' = hb_accounts_required h;
  fa_limits : hb_limits h' = hb_limits h;
  fa_epoch : live_packet_epoch h' = live_packet_epoch h;
  fa_relay : is_relay h' = is_relay h;
  fa_inbound : mb_inbound (hb_relay h') = mb_inbound (hb_relay h);
  fa_control : mb_control_inbound (hb_relay h') = mb_control_inbound (hb_relay h);
  fa_replication c : option_Forall2 (peer_fanned c (live_packet_epoch h)) (hb_replication h !! c) (hb_replication h' !! c);
}.

#[export] Instance fanned_preorder : PreOrder fanned.
Proof.
  split.
  - intros h. by split.
  - intros h1 h2 h3 [] []. split; try congruence. intros c. specialize (fa_replication0 c). specialize (fa_replication1 c).
    rewrite fa_epoch0 in fa_replication1. inversion fa_replication0; inversion fa_replication1; try congruence; constructor.
    etrans; [done|]. congruence.
Qed.

Lemma fanned_ok (h h' : AuthorityHub) : hub_ok h -> fanned h h' -> hub_ok h'.
Proof.
  intros [] []. split; rewrite ?fa_connections0, ?fa_peers0, ?fa_members0, ?fa_denied0, ?fa_committed0; try done.
  - rewrite (option_Forall2_dom (fun c => peer_fanned c (live_packet_epoch h)) _ _ fa_replication0). done.
  - intros a Ha. destruct (ho_committed a Ha) as (Hm & p & Hp & Hid). split; [done|].
    specialize (fa_replication0 (ca_connection_id a)). rewrite Hp in fa_replication0. inversion fa_replication0 as [? p' [_ _ D] |]; subst.
    exists p'. split; [done|]. unfold committed_id, is_committed in *. destruct D as [D|(C & _)]; [by rewrite D|].
    destruct (pr_admission p); discriminate.
  - intros c p' a m Hp' Ha Hm. specialize (fa_replication0 c). rewrite Hp' in fa_replication0.
    inversion fa_replication0 as [p ? [A _ _]|]; subst. apply (ho_account c p a m); [done|by rewrite <- A|done].
Qed.

(** ** The loop *)

Lemma peer_set_fanned (h : AuthorityHub) conn p p' :
  hb_replication h !! conn = Some p -> peer_fanned conn (live_packet_epoch h) p p' ->
  fanned h (set_replication h (<[conn := p']> (hb_replication h))).
Proof.
  intros Hp Hpp. split; try done. intros c. cbn. destruct (decide (conn = c)) as [<-|Hne].
  - rewrite lookup_insert_eq, Hp. by constructor.
  - rewrite lookup_insert_ne by done. destruct (hb_replication h !! c); by constructor.
Qed.

Lemma relay_set_fanned (h : AuthorityHub) m :
  mb_inbound m = mb_inbound (hb_relay h) -> mb_control_inbound m = mb_control_inbound (hb_relay h) -> fanned h (set_relay h m).
Proof. intros H1 H2. by split. Qed.

Lemma enqueue_lane txn lane target :
  let out := enqueue limits now txn lane target in
  bn_epoch out.1 = bn_epoch lane /\ bn_acks out.1 = bn_acks lane /\
  forall queued, out.2 = Some queued ->
    qd_epoch queued = tx_epoch txn /\ qd_connection queued = tx_connection txn /\ qd_bootstrap_id queued = tx_bootstrap_id txn /\
    qd_snapshot_seq queued = tx_snapshot_seq txn /\ tx_epoch txn <> 0.
Proof.
  cbv zeta. unfold enqueue, epoch_applies, push_to_worker. destruct (_ && _) eqn:E; cbn [negb fst snd]; [|done].
  apply andb_true_iff in E as [E%negb_true_iff%Z.eqb_neq _].
  destruct (queue_refuses _ _ _); cbn [fst snd]; [done|]. split; [done|]. split; [done|]. by intros queued [= <-].
Qed.

Lemma send_offer_fanned (h : AuthorityHub) lane conn target seq packet p0 p :
  hb_bootstrap h = Some lane -> hb_replication h !! conn = Some p0 -> kept p0 p -> is_committed p = false ->
  let out := send_offer limits now tick h lane conn target seq packet p in
  fanned h (set_replication out.1 (<[conn := out.2]> (hb_replication out.1))).
Proof.
  intros Hb Hp Hk Hc. cbv zeta. unfold send_offer, next_id, from_snapshot.
  assert (Hsame : forall (h1 : AuthorityHub) p1, fanned h h1 -> hb_replication h1 = hb_replication h -> peer_fanned conn (live_packet_epoch h) p0 p1 ->
    fanned h (set_replication h1 (<[conn := p1]> (hb_replication h1)))).
  { intros h1 p1 Hf Hr Hp1. etrans; [exact Hf|]. apply (peer_set_fanned _ _ p0); [by rewrite Hr|]. by rewrite (fa_epoch _ _ Hf). }
  destruct (encode_bootstrap _) as [bytes|]; cbn [mbind result_bind mret result_ret].
  2: { apply Hsame; [|done|by apply kept_fanned]. by split. }
  match goal with |- context [enqueue limits now ?t lane target] =>
    destruct (enqueue_lane t lane target) as (He & _ & Hq); destruct (enqueue limits now t lane target) as [lane' [queued|]] end; cbn [fst snd] in *.
  - apply Hsame.
    + split; try done; unfold live_packet_epoch, is_relay; cbn; by rewrite ?Hb.
    + done.
    + destruct Hk. destruct (Hq queued eq_refl) as (Q1 & Q2 & _ & _ & Q5). split; [done|done|].
      right. unfold is_committed in *. rewrite <- kp_admission0. split; [done|]. exists queued. split; [done|]. split; [done|].
      unfold live_packet_epoch. by rewrite Hb.
  - apply Hsame; [|done|by apply kept_fanned].
    split; try done; unfold live_packet_epoch, is_relay; cbn; by rewrite ?Hb.
Qed.

Lemma send_datagram_fanned (h : AuthorityHub) conn target packet p0 p :
  hb_replication h !! conn = Some p0 -> kept p0 p ->
  let out := send_datagram limits now tick h target packet p in
  fanned h (set_replication out.1 (<[conn := out.2]> (hb_replication out.1))).
Proof.
  intros Hp Hk. cbv zeta. unfold send_datagram. cbn [fst snd].
  etrans; [|apply (peer_set_fanned _ _ p0); [done|]].
  - apply relay_set_fanned; unfold push_outbound; by destruct (lanes_push _ _ _ _ _ _).
  - apply kept_fanned. destruct Hk. by split.
Qed.

Lemma deliver_fanned (h : AuthorityHub) conn target baseline_seq seq packet p0 p :
  hb_replication h !! conn = Some p0 -> kept p0 p ->
  let out := deliver limits now tick h conn target baseline_seq seq packet p in
  fanned h (set_replication out.1 (<[conn := out.2]> (hb_replication out.1))).
Proof.
  intros Hp Hk. cbv zeta. unfold deliver. destruct (hb_bootstrap h) as [lane|] eqn:El; [|by apply (send_datagram_fanned h conn target packet p0)].
  destruct ((baseline_seq =? 0) && _) eqn:Ec; [|by apply (send_datagram_fanned h conn target packet p0)].
  apply andb_true_iff in Ec as [_ Ec%negb_true_iff]. by apply (send_offer_fanned h lane conn target seq packet p0).
Qed.

Lemma send_snapshot_fanned (f : @Fan Frame Encoder) conn target client baseline_seq p0 p :
  hb_replication (fn_hub f) !! conn = Some p0 -> kept p0 p ->
  fanned (fn_hub f) (fn_hub (send_snapshot encoder_reset adopt_baseline limits now heap compress_against zstd_compress tick frame_for
                               f conn target client baseline_seq p).1).
Proof.
  intros Hp Hk. unfold send_snapshot. pose proof (build_frame_kept client baseline_seq p) as Hb.
  destruct (build_frame _ _ _ _ _ _ _) as [p1 [frame parts]]. cbn [fst] in Hb.
  assert (Hk1 : kept p0 p1) by by etrans.
  assert (Hset : forall p2, kept p0 p2 -> fanned (fn_hub f) (fn_hub (fan_peer f conn p2))).
  { intros p2 H2. apply (peer_set_fanned _ _ p0); [done|by apply kept_fanned]. }
  destruct (segments heap parts) as [segs|]; [|apply Hset; by destruct Hk1].
  destruct (_ <? _); [apply Hset; by destruct Hk1|].
  destruct (snapshot_payload _ _ _ _ _ _ _) as [[payload cache]|]; [|apply Hset; by destruct Hk1].
  match goal with |- context [encode_server_packet zstd_compress ?x] => destruct (encode_server_packet zstd_compress x) as [packet|] end;
    [|apply Hset; by destruct Hk1].
  set (p2 := remember_frame _ _ _ _). assert (Hk2 : kept p0 p2) by by destruct Hk1.
  pose proof (deliver_fanned (fn_hub f) conn target baseline_seq (pr_next_snap_seq p1) packet p0 p2 Hp Hk2) as Hd. cbv zeta in Hd.
  by destruct (deliver _ _ _ _ _ _ _ _ _ _).
Qed.

Lemma fanout_peer_fanned (f : @Fan Frame Encoder) conn :
  hub_ok (fn_hub f) ->
  fanned (fn_hub f) (fn_hub (fanout_peer encoder_new encoder_reset adopt_baseline limits now heap compress_against zstd_compress tick
                               frame_for acks reliable f conn).1).
Proof.
  intros Hok. unfold fanout_peer. destruct (fanout_target _ _) as [[target client]|] eqn:Et; [|done].
  assert (exists p0, hb_replication (fn_hub f) !! conn = Some p0) as [p0 Hp].
  { unfold fanout_target in Et. destruct (hb_peers (fn_hub f) !! conn) as [m|] eqn:Em; [|done].
    apply elem_of_dom. rewrite (ho_replication _ Hok). apply elem_of_dom. rewrite <- (ho_peers _ Hok). eauto. }
  rewrite Hp. cbn [default from_option id].
  assert (Hset : forall p2, kept p0 p2 -> fanned (fn_hub f) (fn_hub (fan_peer f conn p2))).
  { intros p2 H2. apply (peer_set_fanned _ _ p0); [done|by apply kept_fanned]. }
  destruct (awaits_offer _ _); [by apply Hset|].
  destruct (queue_rows _ _ _ _ _ _ _ _ _) as [[[m p] r]|] eqn:Eq; [|by apply Hset].
  destruct (queue_rows_kept _ _ _ _ _ _ _ _ Eq) as (Hk & Hi & Hc & _).
  set (f1 := mkFan _ _ _). assert (Hf1 : fanned (fn_hub f) (fn_hub f1)) by by apply relay_set_fanned.
  pose proof (snapshot_turn_kept (fn_hub f1) client p) as Hst. destruct (snapshot_turn _ _ _ _ _) as [p' [baseline_seq|]]; cbn [fst] in *.
  - etrans; [exact Hf1|]. apply (send_snapshot_fanned f1 conn target client baseline_seq p0 p'); [done|by etrans].
  - etrans; [exact Hf1|]. apply (peer_set_fanned _ _ p0); [done|]. apply kept_fanned. by etrans.
Qed.

Lemma fanout_loop_fanned conns : forall f : @Fan Frame Encoder,
  hub_ok (fn_hub f) ->
  fanned (fn_hub f) (fn_hub (fanout_loop encoder_new encoder_reset adopt_baseline limits now heap compress_against zstd_compress tick
                               frame_for acks reliable f conns).1).
Proof.
  induction conns as [|conn conns IH]; intros f Hok; cbn [fanout_loop]; [done|].
  pose proof (fanout_peer_fanned f conn Hok) as H1. destruct (fanout_peer _ _ _ _ _ _ _ _ _ _ _ _ _ _) as [f1 [[]|e]]; cbn [fst] in *; [|done].
  etrans; [exact H1|]. apply IH. by eapply fanned_ok.
Qed.

Lemma fanout_fanned (h : AuthorityHub) :
  hub_ok h ->
  fanned h (fanout_with_seats encoder_new encoder_reset adopt_baseline limits now heap compress_against zstd_compress tick
              frame_for acks reliable h).1.
Proof.
  intros Hok. unfold fanout_with_seats.
  pose proof (fanout_loop_fanned (map fst (map_to_list (hb_peers h))) (mkFan h cache_new None) Hok) as H.
  by destruct (fanout_loop _ _ _ _ _ _ _ _ _ _ _ _ _ _).
Qed.
End Fanned.

(** * What a client makes of the snapshots the host sends it

    The packet a fanout sends to a connection decodes, at a client with the frame it acknowledged,
    to exactly the frame the host built for it. *)

Section Sent.
Context {Frame Encoder : Type}.
Context (encoder_new : Encoder) (encoder_reset : Encoder -> Encoder) (adopt_baseline : Encoder -> Frame -> Encoder).
Context (limits : TransportBudget) (now : Z).
Context (heap : Z -> WireMeta).
Context (compress_against : list byte -> list byte -> option (list byte)) (zstd_compress : list byte -> option (list byte)).
Context (decompress_with : list byte -> list byte -> Z -> option (list byte)) (zstd_decompress : list byte -> Z -> option (list byte)).
Context `{!PrefixCodec compress_against decompress_with} `{!BulkCodec zstd_compress zstd_decompress}.
Context (tick : Z) (frame_for : Z -> Encoder -> option (Z * Z) -> Encoder * Frame * FrameParts).
Context (acks : list (Z * Z)) (reliable : option (Reliable.Hub WireRow)).

Abbreviation AuthorityHub := (@UdpAuthorityHub Frame Encoder).
Abbreviation PeerState := (@PeerReplicationState Frame Encoder).

(** ** What holds of every peer *)

Record peer_sound (p : PeerState) : Prop := {
  ps_table : table_ok (pr_baseline p);
  ps_next : is_u32 (pr_next_snap_seq p);
  ps_out : is_u32 (pr_out_seq p);
  ps_in : is_u32 (pr_in_ack p);
  ps_frames e : e ∈ bl_sent (pr_baseline p) -> is_u32 e.1 /\ exists segs, sendable heap (sf_parts e.2) segs;
}.

(** The frames sent and the sequence numbers are the same. *)
Record same_frames (p p' : PeerState) : Prop := {
  sf_baseline : pr_baseline p' = pr_baseline p;
  sf_next : pr_next_snap_seq p' = pr_next_snap_seq p;
  sf_out : pr_out_seq p' = pr_out_seq p;
  sf_in : pr_in_ack p' = pr_in_ack p;
}.

#[export] Instance same_frames_preorder : PreOrder same_frames.
Proof. split; [by split|]. intros p1 p2 p3 [] []. split; congruence. Qed.

Lemma same_frames_sound p p' : same_frames p p' -> peer_sound p -> peer_sound p'.
Proof. intros [E1 E2 E3 E4] []. split; by rewrite ?E1, ?E2, ?E3, ?E4. Qed.

Lemma turn_frames (h : AuthorityHub) client p :
  peer_sound p ->
  same_frames p (snapshot_turn tick acks h client p).1 /\
  forall b, (snapshot_turn tick acks h client p).2 = Some b -> b = baseline_seq_for_encode (pr_baseline p).
Proof.
  intros Hp. unfold snapshot_turn. rewrite (clear_missing_noop _ (ps_table p Hp)).
  repeat match goal with |- context [match ?x with _ => _ end] => destruct x end; (split; [by split|by intros b [= <-]]).
Qed.

Lemma build_frames client baseline_seq p :
  same_frames p (build_frame encoder_reset adopt_baseline tick frame_for client baseline_seq p).1.
Proof.
  unfold build_frame. destruct (if baseline_seq =? 0 then _ else _) as [encoder last_full].
  by destruct (frame_for _ _ _) as [[encoder' frame] parts].
Qed.

Lemma queue_frames (h : AuthorityHub) target client conn p m' p' r :
  queue_rows limits now zstd_compress reliable h target client conn p = Some (m', p', r) -> same_frames p p'.
Proof.
  unfold queue_rows, peer_queue_control. destruct reliable as [rows|]; [|by intros [= <- <- <-]].
  destruct (admits_gameplay _ _); [|by intros [= <- <- <-]].
  destruct (queue_control _ _) as [lane [payload|]]; [|by intros [= <- <- <-]].
  destruct (encode_server_packet _ _); cbn [mbind option_bind]; [|done].
  destruct (push_control_outbound _ _ _ _ _) as [m [|]]; by intros [= <- <- <-].
Qed.

(** ** The payload *)

(** The client's frame for a payload: whole while the host knows of no acknowledged frame (the
    number 0 stands for none), and otherwise against the newest frame the client acknowledged,
    which the host still has. *)
Definition reconstructs (p : PeerState) (baseline_seq : Z) (payload : SnapshotPayload) (raw : list byte) : Prop :=
  (baseline_seq = 0 /\ (bl_highest_acked (pr_baseline p) = None \/ bl_highest_acked (pr_baseline p) = Some 0) /\
   payload_decode decompress_with zstd_decompress payload None = Some raw) \/
  (bl_highest_acked (pr_baseline p) = Some baseline_seq /\ exists old olds, bt_get baseline_seq (bl_sent (pr_baseline p)) = Some old /\ segments heap (sf_parts old) = Some olds /\
     payload_decode decompress_with zstd_decompress payload (Some (concat olds, map zlen olds)) = Some raw).

Definition payload_fits (payload : SnapshotPayload) : Prop :=
  match payload with
  | Plain bytes => zlen bytes <= MAX_PACKET_BYTES
  | AgainstBaseline len bytes => 0 <= len <= MAX_PACKET_BYTES /\ zlen bytes <= MAX_PACKET_BYTES
  end.

Lemma against_baseline_fits delta raw : zlen raw <= MAX_PACKET_BYTES -> payload_fits (against_baseline zstd_compress delta raw).
Proof.
  intros Hraw. unfold against_baseline, delta_compress.
  destruct (Z.ltb_spec MAX_DELTA_INSTRUCTION_BYTES (zlen delta)) as [|Hd]; [done|].
  destruct (zstd_compress delta) as [packed|]; [|done]. destruct (Z.leb_spec (zlen packed) MAX_PACKET_BYTES); [|done].
  cbn. pose proof (zlen_nonneg delta). unfold MAX_DELTA_INSTRUCTION_BYTES, MAX_PACKET_BYTES in *. unfold wrap32.
  rewrite Z.mod_small by lia. lia.
Qed.

(** Without a baseline number nothing was acknowledged. *)
Lemma no_baseline (p : PeerState) :
  table_ok (pr_baseline p) -> baseline_seq_for_encode (pr_baseline p) = 0 ->
  bl_highest_acked (pr_baseline p) = None \/ bl_highest_acked (pr_baseline p) = Some 0.
Proof.
  intros Ht. unfold baseline_seq_for_encode. destruct (bl_highest_acked (pr_baseline p)) as [s|] eqn:Hs; [|by left].
  apply (to_acked _ Ht) in Hs. apply bt_contains_spec in Hs. rewrite Hs. intros ->. by right.
Qed.

Lemma snapshot_payload_ok p parts segs cache payload cache' :
  peer_sound p -> cache_sound heap compress_against cache -> sendable heap parts segs ->
  let b := baseline_seq_for_encode (pr_baseline p) in
  snapshot_payload heap compress_against zstd_compress p b parts cache = Some (payload, cache') ->
  cache_sound heap compress_against cache' /\ payload_fits payload /\ to_raw heap parts = Some (concat segs) /\
  is_u32 b /\ reconstructs p b payload (concat segs).
Proof.
  intros [Ht _ _ _ Hf] Hc Hsend b. unfold snapshot_payload. pose proof Hsend as [Hs Hmax].
  assert (Hraw : to_raw heap parts = Some (concat segs)) by (unfold to_raw; by rewrite Hs). rewrite Hraw.
  assert (Hplain : b = 0 -> Some (Plain (concat segs), cache) = Some (payload, cache') ->
    cache_sound heap compress_against cache' /\ payload_fits payload /\ Some (concat segs) = Some (concat segs) /\ is_u32 b /\
    reconstructs p b payload (concat segs)).
  { intros Hb. intros [= <- <-]. split; [done|]. split; [exact Hmax|]. split; [done|].
    split; [rewrite Hb; unfold is_u32, u32_max; lia|]. left. split; [done|].
    split; [by apply no_baseline|]. cbn. by rewrite (proj2 (Z.leb_le _ _)). }
  destruct (Z.eqb_spec b 0) as [Hb|Hb]; [by apply Hplain|].
  unfold b, baseline_seq_for_encode, baseline_parts_for_encode in *. destruct (bl_highest_acked (pr_baseline p)) as [acked|] eqn:Ea; [|done].
  destruct (bt_contains acked _) eqn:Ec; [|done]. apply bt_contains_spec in Ec.
  destruct (bt_get_contains _ _ (to_sorted _ Ht) Ec) as [old Hold]. rewrite Hold. cbn [fmap option_fmap option_map].
  pose proof (proj1 (bt_get_spec _ _ _ (to_sorted _ Ht)) Hold) as Hin. destruct (Hf _ Hin) as [Hu [olds Holds]]. cbn [fst snd] in Hu, Holds.
  destruct (delta_encode_segments heap compress_against parts (sf_parts old) cache segs olds Hc Hs (proj1 Holds)) as (cache1 & Henc & Hc1).
  rewrite Henc. cbn [mbind option_bind]. intros [= <- <-]. split; [done|]. split; [by apply against_baseline_fits|].
  split; [done|]. split; [done|]. right. split; [done|]. exists old, olds. split; [done|]. split; [by destruct Holds|].
  by apply (payload_reconstructs heap compress_against decompress_with zstd_compress zstd_decompress parts (sf_parts old)).
Qed.

(** ** The packet *)

(** Nothing left for the members: the data lanes and the queue of the worker are the same. *)
Definition unsent (h h' : AuthorityHub) : Prop :=
  mb_outbound (hb_relay h') = mb_outbound (hb_relay h) /\
  bn_to_worker <$> hb_bootstrap h' = bn_to_worker <$> hb_bootstrap h.

(** The packet is on its way to the member: as a datagram, or as the offer of an admission. *)
Definition sent (h h' : AuthorityHub) (target : MemberId) (conn snapshot_seq : Z) (packet : list byte) : Prop :=
  mb_outbound (hb_relay h') = mb_outbound (push_outbound limits now (hb_relay h) target packet).1 \/
  exists lane bootstrap_id offer, hb_bootstrap h = Some lane /\
    encode_bootstrap (Offer (bn_epoch lane) bootstrap_id tick snapshot_seq conn packet) = Ok offer /\
    hb_bootstrap h' = Some (push_to_worker limits now lane (Some target) offer).1.

Lemma push_outbound_same (m m' : RelayMailbox) target packet :
  mb_outbound m' = mb_outbound m -> mb_cap m' = mb_cap m ->
  mb_outbound (push_outbound limits now m' target packet).1 = mb_outbound (push_outbound limits now m target packet).1.
Proof. intros E1 E2. unfold push_outbound. rewrite E1, E2. by destruct (lanes_push _ _ _ _ _ _). Qed.

Lemma send_offer_sent (h : AuthorityHub) lane conn target seq packet p :
  hb_bootstrap h = Some lane ->
  let out := send_offer limits now tick h lane conn target seq packet p in
  same_frames p out.2 /\ (unsent h out.1 \/ sent h out.1 target conn seq packet).
Proof.
  intros Hb. cbv zeta. unfold send_offer, next_id, from_snapshot.
  destruct (encode_bootstrap _) as [offer|] eqn:Eo; cbn [mbind result_bind mret result_ret].
  2: { split; [done|]. left. split; cbn; by rewrite ?Hb. }
  unfold enqueue. cbn [tx_epoch]. destruct (negb _); cbn [fst snd].
  { split; [done|]. left. split; cbn; by rewrite ?Hb. }
  cbn [tx_offer_bytes]. destruct (push_to_worker limits now lane (Some target) offer) as [lane' [|]] eqn:Ep.
  - split; [done|]. right. right. exists lane, (default 1 (hb_next_bootstrap_id h !! conn)), offer. split; [done|]. split; [done|].
    cbn. by rewrite Ep.
  - split; [done|]. left. split; [done|]. cbn. rewrite Hb. cbn. f_equal.
    unfold push_to_worker in Ep. destruct (queue_refuses _ _ _); [|discriminate]. by injection Ep as <-.
Qed.

Lemma send_datagram_sent (h : AuthorityHub) target packet p conn seq :
  let out := send_datagram limits now tick h target packet p in
  same_frames p out.2 /\ sent h out.1 target conn seq packet.
Proof. cbv zeta. split; [by split|]. by left. Qed.

Lemma deliver_sent (h : AuthorityHub) conn target baseline_seq seq packet p :
  let out := deliver limits now tick h conn target baseline_seq seq packet p in
  same_frames p out.2 /\ (unsent h out.1 \/ sent h out.1 target conn seq packet).
Proof.
  cbv zeta. unfold deliver. pose proof (send_datagram_sent h target packet p conn seq) as [Hd1 Hd2].
  destruct (hb_bootstrap h) as [lane|] eqn:El; [|by auto]. destruct (_ && _); [|by auto]. by apply send_offer_sent.
Qed.

Lemma build_from client baseline_seq p p1 frame parts :
  build_frame encoder_reset adopt_baseline tick frame_for client baseline_seq p = (p1, (frame, parts)) ->
  exists encoder encoder', frame_for client encoder (pr_held_ack p) = (encoder', frame, parts).
Proof.
  unfold build_frame. destruct (if baseline_seq =? 0 then _ else _) as [encoder last_full].
  destruct (frame_for client encoder (pr_held_ack p)) as [[encoder' frame'] parts'] eqn:E. intros [= _ <- <-]. by exists encoder, encoder'.
Qed.

(** What [send_snapshot] sends. *)
Record snapshot_sent (h h' : AuthorityHub) (target : MemberId) (conn client baseline_seq : Z) (p p' : PeerState) : Prop := {
  ss_way : exists header payload packet raw,
    (unsent h h' \/ sent h h' target conn (pr_next_snap_seq p) packet) /\
    ph_connection header = conn /\ ph_epoch header = live_packet_epoch h /\
    (forall plimits, is_u32 (pl_max_packet_bytes plimits) -> zlen packet <= pl_max_packet_bytes plimits ->
       decode_server_packet zstd_decompress packet plimits = Ok (Snapshot header baseline_seq (pr_next_snap_seq p) payload)) /\
    reconstructs p baseline_seq payload raw /\
    exists encoder encoder' frame parts, frame_for client encoder (pr_held_ack p) = (encoder', frame, parts) /\
      to_raw heap parts = Some raw /\ pr_baseline p' = remember (pr_baseline p) (pr_next_snap_seq p) frame parts;
  ss_sound : peer_sound p';
}.

Lemma remember_sound (p : PeerState) frame parts segs :
  peer_sound p -> sendable heap parts segs ->
  table_ok (remember (pr_baseline p) (pr_next_snap_seq p) frame parts) /\
  forall e, e ∈ bl_sent (remember (pr_baseline p) (pr_next_snap_seq p) frame parts) ->
    is_u32 e.1 /\ exists segs, sendable heap (sf_parts e.2) segs.
Proof.
  intros [Ht Hn _ _ Hf] Hs. destruct (remember_ok (pr_baseline p) (pr_next_snap_seq p) frame parts Ht) as [[Hok _ _ Hsub _ _] _].
  split; [done|]. intros e He%Hsub. cbn in He. apply elem_of_bt_insert in He as [->|He]; [|by apply Hf].
  split; [done|]. by exists segs.
Qed.

Lemma wrap32_u32 n : is_u32 (wrap32 n).
Proof. unfold wrap32, is_u32, u32_max. pose proof (Z.mod_pos_bound n (2 ^ 32)). lia. Qed.

Lemma send_snapshot_sent (f f' : @Fan Frame Encoder) conn target client p :
  let b := baseline_seq_for_encode (pr_baseline p) in
  peer_sound p -> cache_sound heap compress_against (fn_cache f) -> is_u64 conn -> is_u32 (live_packet_epoch (fn_hub f)) ->
  send_snapshot encoder_reset adopt_baseline limits now heap compress_against zstd_compress tick frame_for f conn target client b p = (f', Ok ()) ->
  cache_sound heap compress_against (fn_cache f') /\
  exists p', hb_replication (fn_hub f') !! conn = Some p' /\ snapshot_sent (fn_hub f) (fn_hub f') target conn client b p p'.
Proof.
  intros b Hp Hc Hconn Hepoch. unfold send_snapshot.
  pose proof (build_frames client b p) as Hb. 
  destruct (build_frame _ _ _ _ _ _ _) as [p1 [frame parts]] eqn:Eb. cbn [fst] in Hb.
  pose proof (same_frames_sound _ _ Hb Hp) as Hp1.
  destruct (segments heap parts) as [segs|] eqn:Es; [|discriminate].
  destruct (Z.ltb_spec MAX_RECONSTRUCTED_FRAME_BYTES (zlen (concat segs))) as [|Hmax]; [discriminate|].
  assert (Hsend : sendable heap parts segs) by by split.
  destruct (snapshot_payload _ _ _ _ _ _ _) as [[payload cache]|] eqn:Epay; [|discriminate].
  destruct (snapshot_payload_ok p1 parts segs (fn_cache f) payload cache Hp1 Hc Hsend) as (Hc' & Hfits & Hraw & Hbase & Hrec).
  { destruct Hb as [-> _ _ _]. exact Epay. }
  set (p2 := remember_frame _ _ _ _). cbn [encode_server_packet].
  set (header := mkPacketHeader _ _ _ _). set (packet := encode_snapshot _ _ _ _ _).
  pose proof (deliver_sent (fn_hub f) conn target b (pr_next_snap_seq p1) packet p2) as [Hsame Hway].
  destruct (deliver _ _ _ _ _ _ _ _ _ _) as [h' p3]. cbn [fst snd] in Hsame, Hway. intros [= <-].
  cbn [fan_peer fn_cache fn_hub]. split; [done|]. exists p3. cbn [set_replication hb_replication]. rewrite lookup_insert_eq. split; [done|].
  destruct Hb as [Eb1 Eb2 Eb3 Eb4]. rewrite Eb1, ?Eb2 in *.
  assert (Hp2 : peer_sound p2).
  { destruct Hp1 as [T N O I Fr]. destruct (remember_sound p frame parts segs Hp Hsend) as [R1 R2].
    unfold p2, remember_frame. split; cbn [set_sequences set_baseline pr_baseline pr_next_snap_seq pr_out_seq pr_in_ack];
      rewrite ?Eb1, ?Eb2; [done|apply wrap32_u32|apply wrap32_u32|by rewrite Eb4; destruct Hp|done]. }
  split; [|by eapply same_frames_sound].
  exists header, payload, packet, (concat segs). split; [exact Hway|]. split; [done|]. split; [done|].
  split.
  { intros plimits Hl Hlen. apply (server_decodes zstd_compress zstd_decompress _ packet); [|done|cbn [encode_server_packet]; unfold packet; by rewrite Eb2|done].
    split; [|split; [done|split; [by destruct Hp|exact Hfits]]].
    split; [done|]. split; [|split; [|done]]; cbn [header ph_sequence ph_ack]; by destruct Hp2. }
  split; [unfold reconstructs in *; by rewrite Eb1 in Hrec|].
  destruct (build_from _ _ _ _ _ _ Eb) as (e & e' & Hff). exists e, e', frame, parts. split; [done|]. split; [done|].
  rewrite (sf_baseline _ _ Hsame). unfold p2, remember_frame. cbn [set_sequences set_baseline pr_baseline]. by rewrite Eb1, Eb2.
Qed.

(** C12. What the host sends, the client reads: when a connection's turn ends well, nothing left for
    the member, or one packet is on its way to it, as a datagram or as the offer that admits it;
    the client decodes that packet, within its size limit, as a snapshot of this connection and
    match under the next snapshot number, naming as its baseline the newest frame the client
    acknowledged (0 exactly when the host knows of none, for a whole snapshot), and with that frame,
    which the host still has, it reconstructs exactly the bytes of the frame the host built for this
    client and will accept as a baseline.  Assumed: the host's record of the peer is sound (the
    baseline table is ordered and has the acknowledged frame, the counters are 32-bit, the frames in
    it fit a packet) and the delta cache holds only true entries ([peer_sound], [cache_sound]); both
    hold again after the turn, and the cache is empty at the start of every fanout. *)
Theorem sent_snapshot_is_reconstructed (f f' : @Fan Frame Encoder) conn p :
  hb_replication (fn_hub f) !! conn = Some p -> peer_sound p -> cache_sound heap compress_against (fn_cache f) ->
  is_u64 conn -> is_u32 (live_packet_epoch (fn_hub f)) ->
  fanout_peer encoder_new encoder_reset adopt_baseline limits now heap compress_against zstd_compress tick frame_for acks reliable f conn =
    (f', Ok ()) ->
  cache_sound heap compress_against (fn_cache f') /\
  exists p', hb_replication (fn_hub f') !! conn = Some p' /\ peer_sound p' /\
    (unsent (fn_hub f) (fn_hub f') \/
     exists target client baseline_seq header payload packet raw encoder encoder' frame parts held,
       fanout_target (fn_hub f) conn = Some (target, client) /\
       sent (fn_hub f) (fn_hub f') target conn (pr_next_snap_seq p) packet /\
       ph_connection header = conn /\ ph_epoch header = live_packet_epoch (fn_hub f) /\
       (forall plimits, is_u32 (pl_max_packet_bytes plimits) -> zlen packet <= pl_max_packet_bytes plimits ->
          decode_server_packet zstd_decompress packet plimits = Ok (Snapshot header baseline_seq (pr_next_snap_seq p) payload)) /\
       baseline_seq = baseline_seq_for_encode (pr_baseline p) /\
       reconstructs p baseline_seq payload raw /\
       frame_for client encoder held = (encoder', frame, parts) /\ to_raw heap parts = Some raw /\
       pr_baseline p' = remember (pr_baseline p) (pr_next_snap_seq p) frame parts).
Proof.
  intros Hp Hsound Hc Hconn Hepoch. unfold fanout_peer. destruct (fanout_target _ _) as [[target client]|] eqn:Et.
  2: { intros [= <-]. split; [done|]. exists p. split; [done|]. split; [done|]. left. by split. }
  rewrite Hp. cbn [default from_option id].
  destruct (awaits_offer _ _).
  { intros [= <-]. split; [done|]. exists p. cbn. rewrite lookup_insert_eq. split; [done|]. split; [done|]. left. by split. }
  destruct (queue_rows _ _ _ _ _ _ _ _ _) as [[[m p1] r]|] eqn:Eq; [|discriminate].
  pose proof (queue_frames _ _ _ _ _ _ _ _ Eq) as Hq. apply queue_rows_kept in Eq as (_ & _ & _ & Eout & Ecap).
  set (f1 := mkFan _ _ _).
  destruct (turn_frames (fn_hub f1) client p1) as [Ht Hturn]; [by eapply same_frames_sound|].
  destruct (snapshot_turn _ _ _ _ _) as [p2 [b|]]; cbn [fst snd] in Ht, Hturn.
  2: { intros [= <-]. split; [done|]. exists p2. cbn. rewrite lookup_insert_eq. split; [done|].
       split; [eapply same_frames_sound; [|done]; by etrans|]. left. by split. }
  assert (Hsame : same_frames p p2) by by etrans. pose proof (same_frames_sound _ _ Hsame Hsound) as Hp2.
  pose proof Hsame as [E1 E2 _ _].
  rewrite (Hturn b eq_refl). destruct Ht as [<- _ _ _]. intros Hsend.
  destruct (send_snapshot_sent f1 f' conn target client p2 Hp2 Hc Hconn Hepoch Hsend) as (Hc' & p' & Hp' & [Hss Hs']).
  destruct Hss as (header & payload & packet & raw & Hway & H1 & H2 & H3 & H4 & e & e' & frame & parts & H5 & H6 & H7).
  split; [done|]. exists p'. split; [done|]. split; [done|]. rewrite E2 in Hway.
  destruct Hway as [[U1 U2]|Hway].
  { left. split; [rewrite U1; exact Eout|exact U2]. }
  right. exists target, client, (baseline_seq_for_encode (pr_baseline p)), header, payload, packet, raw, e, e', frame, parts, (pr_held_ack p2).
  split; [done|]. split.
  { destruct Hway as [Hway|Hway]; [left|right; exact Hway]. rewrite Hway. by apply push_outbound_same. }
  split; [exact H1|]. split; [exact H2|]. split; [by rewrite E1, E2 in H3|].
  split; [done|]. split; [unfold reconstructs in *; rewrite E1 in H4; exact H4|]. split; [exact H5|]. split; [exact H6|]. by rewrite H7, E1, E2.
Qed.
End Sent.
