(* ===== verification/SessionHistory.v ===== *)
(** * The host's sessions over time

    Every operation of the hub, in any order, with the relay and the bootstrap worker free to do
    what they like to the mailbox and the lane. *)

From S2P Require Export SnapshotFanoutMain SessionHubMain.

#[local] Open Scope Z_scope.

Section History.
Context {Frame Encoder : Type}.
Context (frame_tick : Frame -> Z) (encoder_new : Encoder) (encoder_reset : Encoder -> Encoder) (adopt_baseline : Encoder -> Frame -> Encoder).
Context (limits : TransportBudget).
Context (sha256 : list byte -> list byte) (ed25519_verify : list byte -> list byte -> list byte -> bool).
Context (parse_f32 : list byte -> option Z).
Context (compress_against : list byte -> list byte -> option (list byte)) (zstd_compress : list byte -> option (list byte)).

Abbreviation AuthorityHub := (@UdpAuthorityHub Frame Encoder).
Abbreviation PeerState := (@PeerReplicationState Frame Encoder).
Abbreviation InWorld := (@IngressWorld Frame Encoder).

(** ** Seats *)

Lemma reconcile_cons member members local occupied (h : AuthorityHub) :
  reconcile_relay_membership encoder_new h (member :: members) local occupied =
  reconcile_relay_membership encoder_new
    (if bool_decide (member = local) || bool_decide (member ∈ hb_denied h) then h
     else (enroll_relay_member encoder_new h member occupied).1) members local occupied.
Proof. done. Qed.

(** What enrolling members keeps. *)
Definition seats_kept (h h' : AuthorityHub) : Prop :=
  hb_denied h' = hb_denied h /\ forall m k, client_of_member h m = Some k -> client_of_member h' m = Some k.

Lemma enroll_keeps (h : AuthorityHub) m occupied :
  hub_ok h -> m ∉ hb_denied h -> room h (zlen occupied + 1) ->
  seats_kept h (enroll_relay_member encoder_new h m occupied).1.
Proof.
  intros Hok Hm Hroom. destruct (enroll_ok encoder_new h m occupied Hok Hm Hroom) as (Hok' & _ & Hd & _ & _ & _ & Hkeep).
  split; [done|]. intros m' k. unfold client_of_member. destruct (conn_of_member h m') as [c|] eqn:Ec; [|done]. cbn [mbind option_bind].
  apply conn_of_member_some in Ec. destruct (Hkeep c m' Ec) as (H1 & _ & H2).
  rewrite (proj2 (conn_of_member_iff _ m' c Hok') H1). cbn [mbind option_bind]. by rewrite H2.
Qed.

Lemma enroll_new (h : AuthorityHub) member occupied :
  hub_ok h -> member ∉ hb_denied h -> room h (zlen occupied + 1) ->
  forall m k, client_of_member (enroll_relay_member encoder_new h member occupied).1 m = Some k ->
    client_of_member h m = Some k \/ k ∉ occupied.
Proof.
  intros Hok Hm Hroom m k Hk. destruct (enroll_ok encoder_new h member occupied Hok Hm Hroom) as (Hok' & Hown & _ & _ & _ & Hfree & Hkeep).
  destruct (decide (m = member)) as [->|Hne].
  - destruct (conn_of_member h member) as [c|] eqn:Ec; [|right; by apply Hfree].
    left. unfold enroll_relay_member in Hk. by rewrite Ec in Hk.
  - left. unfold client_of_member in Hk |- *. destruct (conn_of_member _ m) as [c|] eqn:Ec in Hk; [|done]. cbn [mbind option_bind] in Hk.
    apply conn_of_member_some in Ec.
    assert (Hold : hb_member_by_conn h !! c = Some m).
    { unfold enroll_relay_member in Ec, Hown. destruct (conn_of_member h member); [done|].
      destruct (accept_new _ _) as [t [conn client]]. cbn [fst snd hb_member_by_conn] in *.
      destruct (decide (conn = c)) as [->|]; [|by rewrite lookup_insert_ne in Ec]. rewrite lookup_insert_eq in Ec. congruence. }
    rewrite (proj2 (conn_of_member_iff h m c Hok) Hold). cbn [mbind option_bind]. destruct (Hkeep c m Hold) as (_ & _ & <-). done.
Qed.

Lemma member_has_client (h : AuthorityHub) m c : hub_ok h -> conn_of_member h m = Some c -> exists k, client_of_member h m = Some k.
Proof.
  intros Hok Hc. unfold client_of_member. rewrite Hc. cbn [mbind option_bind]. unfold resolve.
  apply elem_of_dom. rewrite (ho_assigned h Hok). apply elem_of_dom. exists m. by apply conn_of_member_some.
Qed.

Lemma reconcile_seats members local occupied : forall h : AuthorityHub,
  hub_ok h -> room h (zlen members * (zlen occupied + 1)) ->
  let h' := reconcile_relay_membership encoder_new h members local occupied in
  seats_kept h h' /\
  forall m, m ∈ members -> m <> local -> m ∉ hb_denied h ->
    exists k, client_of_member h' m = Some k /\ (client_of_member h m = Some k \/ k ∉ occupied).
Proof.
  induction members as [|member members IH]; intros h Hok Hroom; cbv zeta.
  { split; [by split|]. by intros m ?%not_elem_of_nil. }
  rewrite reconcile_cons. rewrite zlen_cons in Hroom. pose proof (zlen_nonneg members). pose proof (zlen_nonneg occupied).
  assert (Hmul : (zlen members + 1) * (zlen occupied + 1) = zlen members * (zlen occupied + 1) + (zlen occupied + 1)) by lia.
  assert (0 <= zlen members * (zlen occupied + 1)) by nia. unfold room in Hroom.
  destruct (bool_decide_reflect (member = local)) as [->|Hlocal]; cbn [orb].
  { destruct (IH h Hok) as [Hk Hs]; [unfold room; lia|]. split; [done|]. intros m [->|Hin]%elem_of_cons Hne Hd; [done|by apply Hs]. }
  destruct (bool_decide_reflect (member ∈ hb_denied h)) as [Hden|Hden].
  { destruct (IH h Hok) as [Hk Hs]; [unfold room; lia|]. split; [done|]. intros m [->|Hin]%elem_of_cons Hne Hd; [done|by apply Hs]. }
  destruct (enroll_ok encoder_new h member occupied Hok Hden) as (Hok' & Hm & _ & Hn1 & Hn2 & Hfree & _); [unfold room; lia|].
  pose proof (enroll_keeps h member occupied Hok Hden ltac:(unfold room; lia)) as [Hd1 Hk1].
  set (h1 := (enroll_relay_member encoder_new h member occupied).1) in *.
  destruct (IH h1 Hok') as [[Hd2 Hk2] Hs]; [unfold room; lia|].
  split; [split; [congruence|auto]|]. intros m [->|Hin]%elem_of_cons Hne Hd.
  - apply (conn_of_member_iff _ _ _ Hok') in Hm. destruct (member_has_client h1 member _ Hok' Hm) as [k Hk].
    exists k. split; [by apply Hk2|]. destruct (conn_of_member h member) as [c|] eqn:Ec.
    + left. destruct (member_has_client h member c Hok Ec) as [k0 Hk0]. pose proof (Hk1 _ _ Hk0). congruence.
    + right. by apply Hfree.
  - destruct (Hs m Hin Hne) as (k & Hk & Hcase); [by rewrite Hd1|]. exists k. split; [done|].
    destruct Hcase as [Hcase|]; [|by right]. destruct (client_of_member h m) as [k0|] eqn:E0.
    + left. pose proof (Hk1 _ _ E0). congruence.
    + destruct (enroll_new h member occupied Hok Hden ltac:(unfold room; lia) m k Hcase) as [|]; [congruence|by right].
Qed.

(** Reconciling the hub with the room gives every member that is neither the host nor denied a
    client: the one it had, or a new one that no one occupies; nobody loses a seat. *)
Theorem members_are_seated (h : AuthorityHub) members local occupied :
  hub_ok h -> room h (zlen members * (zlen occupied + 1)) ->
  let h' := reconcile_relay_membership encoder_new h members local occupied in
  (forall m k, client_of_member h m = Some k -> client_of_member h' m = Some k) /\
  forall m, m ∈ members -> m <> local -> m ∉ hb_denied h ->
    exists k, client_of_member h' m = Some k /\ (client_of_member h m = Some k \/ k ∉ occupied).
Proof. intros Hok Hroom. destruct (reconcile_seats members local occupied h Hok Hroom) as [[_ Hk] Hs]. by split. Qed.

(** ** The operations *)

Inductive hub_step : AuthorityHub -> AuthorityHub -> Prop :=
| HsRelay h m : hub_step h (set_relay h m)
| HsLane h lane : hub_step h (set_bootstrap h lane)
| HsReconcile h members local occupied :
    room h (zlen members * (zlen occupied + 1)) ->
    hub_step h (reconcile_relay_membership encoder_new h members local occupied)
| HsRetireMember h m : hub_step h (retire_member h m).1
| HsDenyMember h m : hub_step h (deny_member h m).1
| HsRetireConnection h conn : hub_step h (retire_connection h conn).1
| HsRetireClient h now client reason h' gone :
    retire_client_with_reason limits now h client reason = Some (h', gone) -> hub_step h h'
| HsTake h : hub_step h (take_committed_admissions h).1
| HsReset h : hub_step h (hub_reset_match encoder_new h)
| HsIngress w now realm match_key nonces :
    hub_step (iw_hub w)
      (iw_hub (step_ingress frame_tick limits sha256 ed25519_verify parse_f32 now match_key nonces realm w).1)
| HsFanout h now heap tick frame_for acks reliable :
    hub_step h (fanout_with_seats encoder_new encoder_reset adopt_baseline limits now heap compress_against zstd_compress tick
                  frame_for acks reliable h).1.

Inductive hub_reachable : AuthorityHub -> Prop :=
| HrStart hello first_client mailbox : 0 <= first_client -> hub_reachable (hub_relay hello first_client mailbox)
| HrStep h h' : hub_reachable h -> hub_step h h' -> hub_reachable h'.

Lemma ingress_ok now match_key nonces realm (w : InWorld) :
  hub_ok (iw_hub w) -> hub_ok (iw_hub (step_ingress frame_tick limits sha256 ed25519_verify parse_f32 now match_key nonces realm w).1).
Proof.
  intros Hok. destruct (ingress_effect frame_tick limits sha256 ed25519_verify parse_f32 now match_key nonces realm w) as (h & m & [] & Hs).
  apply (se_ok _ _ _ _ _ Hs). cbn. apply set_relay_ok. auto.
Qed.

Lemma hub_step_ok h h' : hub_ok h -> hub_step h h' -> hub_ok h'.
Proof.
  intros Hok Hstep. destruct Hstep; [by apply set_relay_ok|by apply set_bootstrap_ok|by apply reconcile_ok|by apply retire_member_ok
    |by apply deny_member_ok|by apply retire_connection_ok|by eapply retire_client_ok|by apply take_committed_ok|by apply reset_ok
    |by apply ingress_ok|].
  eapply fanned_ok; [done|by apply fanout_fanned].
Qed.

Lemma hub_reachable_ok h : hub_reachable h -> hub_ok h.
Proof. induction 1 as [hello first_client mailbox H|h h' _ IH Hstep]; [by apply hub_relay_ok|by eapply hub_step_ok]. Qed.

(** C11. The sessions stay consistent through every operation, in any order: a member with a
    connection has one, with a client and the replication state of its own, and is not denied; two
    members never share a client; and an admission the host is told of belongs to the member of its
    connection, whose peer is admitted by it in the match that runs, with an account bound where
    the match requires one.  Assumed of the members the host adopts from the room: the counters of
    connections and clients have numbers left for them ([room] in [HsReconcile]), that is, fewer
    than 2^64 and 2^32 were given out so far. *)
Theorem sessions_stay_consistent h :
  hub_reachable h ->
  (forall m c, conn_of_member h m = Some c ->
     hb_peers h !! c = Some m /\ is_Some (hb_replication h !! c) /\ is_Some (client_of_member h m) /\ m ∉ hb_denied h) /\
  (forall m1 m2 k, client_of_member h m1 = Some k -> client_of_member h m2 = Some k -> m1 = m2) /\
  (forall a, a ∈ (take_committed_admissions h).2 ->
     conn_of_member h (ca_member_id a) = Some (ca_connection_id a) /\ ca_epoch a = live_packet_epoch h /\
     exists p, hb_replication h !! ca_connection_id a = Some p /\ committed_id p = Some (ca_bootstrap_id a) /\
       (hb_accounts_required h = true -> account_bound p = true)).
Proof.
  intros Hreach%hub_reachable_ok. split; [|split].
  - intros m c Hc. pose proof (conn_of_member_some h m c Hc) as Hm. split; [by rewrite (ho_peers h Hreach)|].
    split; [|split].
    + apply elem_of_dom. rewrite (ho_replication h Hreach). apply elem_of_dom. by exists m.
    + destruct (member_has_client h m c Hreach Hc) as [k Hk]. by exists k.
    + by apply (ho_denied h Hreach c).
  - intros m1 m2 k H1 H2. unfold client_of_member in *.
    destruct (conn_of_member h m1) as [c1|] eqn:E1; [|done]. destruct (conn_of_member h m2) as [c2|] eqn:E2; [|done].
    cbn [mbind option_bind] in *. assert (c1 = c2) as <- by (by apply (ho_clients h Hreach c1 c2 k)).
    apply conn_of_member_some in E1, E2. congruence.
  - intros a [Ha Hin]%list_elem_of_filter. destruct (ho_committed h Hreach a Hin) as (Hm & p & Hp & Hid).
    split; [by apply conn_of_member_iff|]. apply andb_true_iff in Ha as [Hcur Hbound]. apply andb_true_iff in Hcur as [He%Z.eqb_eq _].
    split; [done|]. exists p. split; [done|]. split; [done|]. intros Hreq. rewrite Hreq, Hp in Hbound. exact Hbound.
Qed.
End History.
