(* ===== verification/SessionDemo.v ===== *)
(** * A small session

    A host and two members: the first is offered a snapshot, answers, is admitted, proves its
    account and plays; the second speaks for the first, in vain.  Every hypothesis of the theorems
    on the sessions holds of it. *)

From S2P Require Export SessionHistory SnapshotFanoutMain Accounts Mailbox PersistentDataMain.

#[local] Open Scope Z_scope.

Definition seat_host : MemberId := demo_member 9.
Definition seat_one : MemberId := demo_member 1.
Definition seat_two : MemberId := demo_member 2.

Definition seat_key : MatchKey := mkMatchKey (replicate 16 (byte_of 1)) 7.
Definition seat_nonces (_ : Z) : Result AccountIdentityError (list byte) := Ok (replicate 32 (byte_of 4)).
Definition seat_hello : HandshakeHello := hello_current (mkContent 1 2 3 4 5).
Definition seat_lane : BootstrapLane := mkBootstrapLane {[seat_one]} [] [] None [] 7 0 0.

(** Stand-ins: a frame is its tick, the encoder has no state, a signature repeats the message. *)
Definition seat_sign (message : list byte) : list byte := ztake 64 (message ++ replicate 64 (byte_of 0)).
Definition seat_verify (_ message signature : list byte) : bool := bool_decide (signature = seat_sign message).
Definition seat_frame (_ : Z) (encoder : ()) (_ : option (Z * Z)) : () * Z * FrameParts := (encoder, 100, demo_old).
Definition keep_encoder (encoder : ()) : () := encoder.
Definition keep_against (encoder : ()) (_ : Z) : () := encoder.
Definition seat_tick (frame : Z) : Z := frame.
Definition as_is (bytes : list byte) : option (list byte) := Some bytes.

Abbreviation SeatHub := (@UdpAuthorityHub Z ()).
Abbreviation SeatWorld := (@IngressWorld Z ()).

(** The operations of this host. *)
Definition seat_fanout (tick : Z) (h : SeatHub) : SeatHub :=
  (fanout_with_seats tt keep_encoder keep_against budget_default 0 demo_heap store as_is tick seat_frame [] None h).1.
Definition seat_ingress (w : SeatWorld) : SeatWorld :=
  (step_ingress seat_tick budget_default toy_sha256 seat_verify no_float 0 seat_key seat_nonces true w).1.
Definition on_hub (f : SeatHub -> SeatHub) (w : SeatWorld) : SeatWorld := set_hub w (f (iw_hub w)).
Definition control_from (member : MemberId) (bytes : list byte) (h : SeatHub) : SeatHub :=
  set_relay h (push_control_inbound budget_default 0 (hb_relay h) member bytes).1.
Definition answer_from (ack : BootstrapAck) (h : SeatHub) : SeatHub :=
  set_bootstrap h ((fun lane => (push_ack lane ack).1) <$> hb_bootstrap h).

(** The player's account: already in the store. *)
Definition seat_public : list byte := replicate 32 (byte_of 3).
Definition seat_account : AccountId := account_from_public_key toy_sha256 seat_public.
Definition seat_store : PersistentDataStore :=
  run no_float no_change no_ranked [OpInstall demo_schemas; OpCreate seat_account 5 9 (stamped demo_player)] store_default.

Definition seat_challenge : AccountChallenge := mkChallenge seat_key 1 seat_one (replicate 32 (byte_of 4)).
Definition profile_bytes : list byte :=
  match profile_payload seat_account None with
  | Ok payload =>
      match encode_account (AmProfile seat_challenge
              (mkProof seat_account seat_public (seat_sign (proof_message toy_sha256 seat_challenge seat_account payload))) None) with
      | Ok bytes => bytes
      | Err _ => []
      end
  | Err _ => []
  end.
Definition command_bytes : list byte :=
  encode_client_packet (Commands (mkPacketHeader 1 3 0 7) 0 [(1, demo_cmd)] [] [] 0).

(** ** The session, step by step *)

Definition seat_world (h : SeatHub) : SeatWorld := mkIngressWorld h inbox_default action_inbox_default None (Some seat_store).

Definition empty_hub : SeatHub := hub_relay seat_hello 1 mailbox_default.
Definition loading_hub : SeatHub := set_bootstrap empty_hub (Some seat_lane).
Definition seated_hub : SeatHub := reconcile_relay_membership tt loading_hub [seat_host; seat_one; seat_two] seat_host [1].
Definition offered_hub : SeatHub := seat_fanout 100 seated_hub.
Definition answered_world : SeatWorld := seat_world (answer_from (mkBootstrapAck seat_one 7 1 1 1) offered_hub).
Definition admitted_world : SeatWorld := seat_ingress answered_world.
Definition profile_world : SeatWorld := on_hub (control_from seat_one profile_bytes) admitted_world.
Definition playing_world : SeatWorld := seat_ingress profile_world.
Definition spoofed_world : SeatWorld := on_hub (control_from seat_two command_bytes) playing_world.

Example seats_given : client_of_member seated_hub seat_one = Some 2 /\ client_of_member seated_hub seat_two = Some 3.
Proof. split; vm_compute; reflexivity. Qed.

Example offer_made : (pr_admission <$> hb_replication offered_hub !! 1) = Some (SessionHub.Pending (Bootstrap.mkQueued 7 1 100 1 1)).
Proof. vm_compute. reflexivity. Qed.

Example answer_admits : (pr_admission <$> hb_replication (iw_hub admitted_world) !! 1) = Some (Committed 1 7).
Proof. vm_compute. reflexivity. Qed.

Example profile_binds :
  (pr_account <$> hb_replication (iw_hub playing_world) !! 1) ≫= (fun a => a ≫= pa_owner) = Some seat_account.
Proof. vm_compute. reflexivity. Qed.

(** ** It is reachable *)

Abbreviation seat_reachable := (hub_reachable seat_tick tt keep_encoder keep_against budget_default toy_sha256 seat_verify no_float store as_is).

Lemma seated_reachable : seat_reachable seated_hub.
Proof.
  eapply HrStep; [eapply HrStep; [apply HrStart|apply HsLane]|apply HsReconcile]; [done|]. vm_compute. done.
Qed.

Lemma offered_reachable : seat_reachable offered_hub.
Proof. eapply HrStep; [apply seated_reachable|apply HsFanout]. Qed.

Lemma answered_reachable : seat_reachable (iw_hub answered_world).
Proof. eapply HrStep; [apply offered_reachable|apply HsLane]. Qed.

Lemma ingress_reachable w : seat_reachable (iw_hub w) -> seat_reachable (iw_hub (seat_ingress w)).
Proof. intros H. eapply HrStep; [exact H|apply HsIngress]. Qed.

Lemma profile_reachable : seat_reachable (iw_hub profile_world).
Proof. eapply HrStep; [apply ingress_reachable, answered_reachable|apply HsRelay]. Qed.

Lemma playing_reachable : seat_reachable (iw_hub playing_world).
Proof. apply ingress_reachable, profile_reachable. Qed.

Lemma spoofed_reachable : seat_reachable (iw_hub spoofed_world).
Proof. eapply HrStep; [apply playing_reachable|apply HsRelay]. Qed.

(** ** The theorems on it *)

Lemma members_are_seated_witness :
  exists k, client_of_member seated_hub seat_two = Some k /\ (client_of_member loading_hub seat_two = Some k \/ k ∉ [1]).
Proof.
  assert (Hok : hub_ok loading_hub) by (apply set_bootstrap_ok, hub_relay_ok; done).
  apply (members_are_seated tt loading_hub [seat_host; seat_one; seat_two] seat_host [1] Hok).
  - vm_compute. done.
  - apply list_elem_of_In. vm_compute. auto.
  - vm_compute. congruence.
  - intros H. by apply not_elem_of_empty in H.
Defined.

Lemma sessions_stay_consistent_witness :
  (take_committed_admissions (iw_hub playing_world)).2 <> [] /\
  forall a, a ∈ (take_committed_admissions (iw_hub playing_world)).2 ->
    conn_of_member (iw_hub playing_world) (ca_member_id a) = Some (ca_connection_id a).
Proof.
  split; [vm_compute; congruence|]. intros a Ha.
  destruct (sessions_stay_consistent seat_tick tt keep_encoder keep_against budget_default toy_sha256 seat_verify no_float store as_is
              _ playing_reachable) as (_ & _ & H). exact (proj1 (H a Ha)).
Defined.

Lemma admission_answers_own_offer_witness :
  exists p, hb_replication (iw_hub answered_world) !! 1 = Some p /\ pr_admission p <> Committed 1 7 /\
    exists lane ack, hb_bootstrap (iw_hub answered_world) = Some lane /\ ack ∈ bn_acks lane /\ bk_member_id ack = seat_one.
Proof.
  destruct (hb_replication (iw_hub admitted_world) !! 1) as [p'|] eqn:Ep; [|vm_compute in Ep; discriminate].
  assert (Ha : pr_admission p' = Committed 1 7).
  { pose proof answer_admits as H. rewrite Ep in H. by injection H. }
  destruct (admission_answers_own_offer seat_tick budget_default toy_sha256 seat_verify no_float 0 seat_key seat_nonces true
              answered_world 1 p' 1 7 (hub_reachable_ok _ _ _ _ _ _ _ _ _ _ _ answered_reachable) Ep Ha) as (p & Hp & Hcase).
  exists p. split; [exact Hp|].
  assert (Hbefore : pr_admission p <> Committed 1 7).
  { intros Hc. assert (H : (pr_admission <$> hb_replication (iw_hub answered_world) !! 1) = Some (SessionHub.Pending (Bootstrap.mkQueued 7 1 100 1 1)))
      by (vm_compute; reflexivity). rewrite Hp in H. cbn in H. congruence. }
  split; [exact Hbefore|]. destruct Hcase as [Hc|(lane & offer & ack & member & Hl & _ & _ & _ & _ & _ & Hin & Hm & Hmem & _)]; [destruct (Hbefore Hc)|].
  exists lane, ack. split; [exact Hl|]. split; [exact Hin|].
  apply conn_of_member_some in Hm. assert (H : hb_member_by_conn (iw_hub answered_world) !! 1 = Some seat_one) by (vm_compute; reflexivity).
  rewrite H in Hm. injection Hm as Hm. rewrite Hmem. symmetry. exact Hm.
Defined.

Lemma account_owner_was_proved_witness :
  exists member bytes message, (member, bytes) ∈ waiting_control (iw_hub profile_world) /\
    decode_account bytes = Ok (Some message) /\ proves toy_sha256 seat_verify message seat_challenge seat_account.
Proof.
  assert (Hnot : ~ owned (iw_hub profile_world) 1 seat_challenge seat_account).
  { intros (p & a & Hp & Ha & _ & Ho).
    assert (H : (pr_account <$> hb_replication (iw_hub profile_world) !! 1) ≫= (fun a => a ≫= pa_owner) = None) by (vm_compute; reflexivity).
    rewrite Hp in H. cbn in H. rewrite Ha in H. cbn in H. congruence. }
  assert (Hown : owned (iw_hub playing_world) 1 seat_challenge seat_account).
  { destruct (hb_replication (iw_hub playing_world) !! 1) as [p|] eqn:Ep; [|vm_compute in Ep; discriminate].
    destruct (pr_account p) as [a|] eqn:Ea; [|exfalso; pose proof profile_binds as H; rewrite Ep in H; cbn in H; by rewrite Ea in H].
    exists p, a. split; [done|]. split; [done|]. split.
    - assert (H : (pr_account <$> hb_replication (iw_hub playing_world) !! 1) ≫= (fun a => pa_challenge <$> a) = Some seat_challenge)
        by (vm_compute; reflexivity). rewrite Ep in H. cbn in H. rewrite Ea in H. by injection H.
    - pose proof profile_binds as H. rewrite Ep in H. cbn in H. by rewrite Ea in H. }
  destruct (account_owner_was_proved seat_tick budget_default toy_sha256 seat_verify no_float 0 seat_key seat_nonces true profile_world 1
              seat_challenge seat_account (hub_reachable_ok _ _ _ _ _ _ _ _ _ _ _ profile_reachable) Hown)
    as [H|(member & bytes & message & H1 & _ & _ & _ & H2 & H3)]; [destruct (Hnot H)|].
  exists member, bytes, message. split; [exact H1|]. split; [exact H2|exact H3].
Defined.

(** The first member's command reaches its queue, and that needed its admission and its account. *)
Lemma gameplay_needs_admission_witness :
  exists conn p header, conn_of_member (iw_hub playing_world) seat_one = Some conn /\ hb_replication (iw_hub playing_world) !! conn = Some p /\
    ph_connection header = conn /\ ph_epoch header = live_packet_epoch (iw_hub playing_world) /\
    (exists b e, pr_admission p = Committed b e) /\ exists a owner, pr_account p = Some a /\ pa_owner a = Some owner.
Proof.
  destruct (gameplay_needs_admission seat_tick budget_default toy_sha256 seat_verify no_float 0 seat_key seat_nonces playing_world
              (command_bytes, seat_one, true) 2 (hub_reachable_ok _ _ _ _ _ _ _ _ _ _ _ playing_reachable))
    as [H|(_ & conn & p & header & seq & cmds & samples & actions & ack & H1 & H2 & _ & Hc & He & H3 & H4)].
  - exfalso. pose proof (un_queued _ _ _ H) as Hq. vm_compute in Hq. discriminate Hq.
  - exists conn, p, header. split; [exact H1|]. split; [exact H2|]. split; [exact Hc|]. split; [exact He|].
    split; [apply H3; vm_compute; reflexivity|]. destruct H4 as (a & owner & Ha & Ho & _); [vm_compute; reflexivity|]. exists a, owner. split; [exact Ha|exact Ho].
Defined.

(** The second member names the first one's connection: nothing happens to the first one. *)
Lemma packets_speak_for_their_sender_witness :
  waiting_control (iw_hub spoofed_world) = [(seat_two, command_bytes)] /\ untouched 2 spoofed_world (seat_ingress spoofed_world).
Proof.
  assert (Hw : waiting_control (iw_hub spoofed_world) = [(seat_two, command_bytes)]) by (vm_compute; reflexivity).
  split; [exact Hw|].
  apply (packets_speak_for_their_sender seat_tick budget_default toy_sha256 seat_verify no_float 0 seat_key seat_nonces true spoofed_world 2
           (hub_reachable_ok _ _ _ _ _ _ _ _ _ _ _ spoofed_reachable)).
  intros member bytes [Hin|Hin].
  - assert (Hd : waiting_data 0 (iw_hub spoofed_world) = []) by (vm_compute; reflexivity). rewrite Hd in Hin. destruct (not_elem_of_nil _ Hin).
  - rewrite Hw in Hin. apply list_elem_of_singleton in Hin. apply (f_equal fst) in Hin. cbn [fst] in Hin. rewrite Hin. vm_compute. discriminate.
Defined.

(** ** The next snapshot of the first member, against the one it applied *)

#[local] Instance seat_prefix : PrefixCodec store unstore.
Proof.
  split; unfold store, unstore; [by intros new old packed [= <-]|].
  intros new old packed [= <-]. pose proof (zlen_nonneg new). pose proof (Z.div_pos (zlen new) 256). lia.
Qed.
#[local] Instance seat_bulk : BulkCodec as_is (fun packed _ => Some packed).
Proof. split. by intros delta packed [= <-]. Qed.

Definition next_frame (_ : Z) (encoder : ()) (_ : option (Z * Z)) : () * Z * FrameParts := (encoder, 101, demo_new).
Definition next_fan : @Fan Z () := mkFan (iw_hub playing_world) cache_new None.
Definition next_turn : @Fan Z () * Result UdpSendError () :=
  fanout_peer tt keep_encoder keep_against budget_default 0 demo_heap store as_is 101 next_frame [] None next_fan 1.

Definition first_table : @AckedBaselineTable Z FrameParts := mkTable [(1, mkSent 100 demo_old)] (Some 1) 32.

Lemma first_table_ok : table_ok first_table.
Proof.
  split; [|done|intros s [= <-]; vm_compute; auto].
  - unfold bt_sorted. repeat constructor.
  - apply list_elem_of_In. vm_compute. auto.
Qed.

Lemma playing_peer_sound p : hb_replication (iw_hub playing_world) !! 1 = Some p -> peer_sound demo_heap p.
Proof.
  intros Hp.
  assert (H : ((fun p => (pr_baseline p, (pr_next_snap_seq p, pr_out_seq p, pr_in_ack p))) <$> hb_replication (iw_hub playing_world) !! 1) =
              Some (first_table, (2, 1, 0))) by (vm_compute; reflexivity).
  rewrite Hp in H. cbn [fmap option_fmap option_map] in H. injection H as H1 H2 H3 H4. clear Hp.
  split; [rewrite H1; apply first_table_ok|rewrite H2; done|rewrite H3; done|rewrite H4; done|].
  rewrite H1. intros e He. apply list_elem_of_singleton in He. rewrite He. split; [done|].
  destruct (segments demo_heap demo_old) as [segs|] eqn:Es; [|vm_compute in Es; discriminate]. exists segs.
  split; [done|]. vm_compute in Es. injection Es as <-. vm_compute. discriminate.
Qed.

Lemma sent_snapshot_is_reconstructed_witness :
  exists p baseline_seq header payload packet raw, hb_replication (iw_hub playing_world) !! 1 = Some p /\
    reconstructs demo_heap unstore (fun packed _ => Some packed) p baseline_seq payload raw /\
    (forall plimits, is_u32 (pl_max_packet_bytes plimits) -> zlen packet <= pl_max_packet_bytes plimits ->
       decode_server_packet (fun packed _ => Some packed) packet plimits = Ok (Snapshot header baseline_seq 2 payload)) /\
    to_raw demo_heap demo_new = Some raw /\
    sent budget_default 0 101 (fn_hub next_fan) (fn_hub next_turn.1) seat_one 1 2 packet.
Proof.
  destruct (hb_replication (iw_hub playing_world) !! 1) as [p|] eqn:Hp; [|vm_compute in Hp; discriminate].
  assert (Hturn : next_turn = (next_turn.1, Ok ())) by (refine (pair_of_second next_turn (Ok ()) _); vm_compute; reflexivity).
  assert (Hseq : pr_next_snap_seq p = 2).
  { assert (H : (pr_next_snap_seq <$> hb_replication (iw_hub playing_world) !! 1) = Some 2) by (vm_compute; reflexivity).
    rewrite Hp in H. injection H as H. exact H. }
  destruct (sent_snapshot_is_reconstructed tt keep_encoder keep_against budget_default 0 demo_heap store as_is unstore
              (fun packed _ => Some packed) 101 next_frame [] None next_fan next_turn.1 1 p Hp (playing_peer_sound p Hp))
    as (_ & p' & _ & _ & Hcase).
  - intros n o patch Hin. destruct (not_elem_of_nil _ Hin).
  - clear. done.
  - vm_compute. split; discriminate.
  - exact Hturn.
  - destruct Hcase as [[Hout _]|(target & client & b & header & payload & packet & raw & e & e' & frame & parts & held & Ht & Hs & _ & _ & Hd & _ & H6 & Hf & Hraw & _)].
    + exfalso. apply (f_equal dl_bytes) in Hout. vm_compute in Hout. discriminate Hout.
    + assert (Htarget : fanout_target (fn_hub next_fan) 1 = Some (seat_one, 2)) by (vm_compute; reflexivity).
      rewrite Htarget in Ht. injection Ht as Ht _. rewrite <- Ht, Hseq in Hs. rewrite Hseq in Hd.
      injection Hf as _ _ Hf. rewrite <- Hf in Hraw. exists p, b, header, payload, packet, raw. split; [reflexivity|]. split; [exact H6|].
      split; [exact Hd|]. split; [exact Hraw|exact Hs].
Defined.
