(* ===== verification/SessionClient.v ===== *)
(** * The client's side of a session

    [UdpClientLink] of crates/net/src/transport/udp_session.rs: how a client takes its connection
    from an offer, applies the snapshots and keeps them as baselines, answers offers, sends its
    commands and requests, and proves its account to the host.  [LocalAccount] is from
    local_account.rs and [SessionIdentity] from master.rs.

    The fields of the struct are grouped: [ClientStream] holds those of the snapshots,
    [ClientOffers] those of the offers, [ClientAccounts] those of the account.  The [BTreeMap] of
    the baselines is the list of its entries in key order.  The mailbox and the bootstrap lane,
    shared with the relay task, are fields; the functions that read the clock take the time.  The
    codecs of the game's part of a frame ([Frame::decode_segments] with the world objects of the
    baseline, [SnapshotDecoder]) are the parameters [decode_frame] and [decode_snapshot]. *)

From S2P Require Export ActionWire Baseline SegmentDelta Reliable Accounts.

#[local] Open Scope Z_scope.

Definition CMDS_PER_PACKET : Z := 16.
Definition SERVER_MEMBER : MemberId := mkMemberId (zeros 16).

(** [slice.chunks(n)]; the fuel is the length of the list. *)
Fixpoint chunks_fuel {A} (fuel n : nat) (l : list A) : list (list A) :=
  match fuel, l with
  | S fuel, _ :: _ => take n l :: chunks_fuel fuel n (drop n l)
  | _, _ => []
  end.
Definition chunks {A} (n : nat) (l : list A) : list (list A) := chunks_fuel (length l) n l.

Record SessionIdentity : Type := mkIdentity {
  si_attempt_id : Z;
  si_room_id : list byte;
  si_member_id : MemberId;
  si_epoch : Z;
}.

Definition identity_match_key (i : SessionIdentity) : MatchKey :=
  if (si_epoch i =? 0) || bool_decide (si_room_id i = zeros 16) then MATCH_NONE else mkMatchKey (si_room_id i) (si_epoch i).

(** An [AccountKey] is its seed. *)
Record LocalAccount : Type := mkLocalAccount {
  la_id : AccountId;
  la_key : list byte;
  la_snapshot : option AccountSnapshot;
}.

(** What a call that returns an error says. *)
Inductive ClientFault : Type :=
| FaultWire (e : WireError)
| FaultRejected (reason : HandshakeReject)
| NoLocalAccount
| ChallengeChanged
| SigningOwner
| UpdateOwner
| ConflictingUpdate
| SchemaFault (e : PersistentDataError)
| ImportFault (e : PersistentDataError)
| AdmissionRefused.

Inductive ClientSendError : Type :=
| NoCommandsPermitted
| ControlRefused (e : MailError).

Section Client.
Context {Snap GameFrame : Type}.
Context (limits : TransportBudget).
Context (decompress_with : list byte -> list byte -> Z -> option (list byte)) (zstd_decompress : list byte -> Z -> option (list byte)).
(** The game's part of a frame and the lengths of its segments, and the snapshot it holds, read
    with the snapshot of the baseline. *)
Context (decode_frame : option Snap -> list byte -> Result WireError (GameFrame * list Z)).
Context (decode_snapshot : option Snap -> GameFrame -> Result WireError Snap).

Record ClientStream : Type := mkStream {
  cs_baselines : list (Z * (Snap * list byte * list Z));
  cs_in_ack : Z;
  cs_last_snapshot_seq : option Z;
  cs_required_baseline_seq : Z;
}.

Record ClientOffers : Type := mkOffers {
  co_applied_bootstrap_id : option Z;
  co_last_applied_offer : option (Z * Z);
  co_pending_applied : list BootstrapMessage;
  co_held_bootstrap : list (list byte);
}.

Record ClientAccounts : Type := mkAccounts {
  cc_messages : list AccountMessage;
  cc_challenge : option AccountChallenge;
  cc_profile : option (list byte);
  cc_ack : option AccountSnapshot;
  cc_offer : option AccountSnapshot;
}.

Record UdpClientLink : Type := mkClient {
  cl_relay : RelayMailbox;
  cl_hello : HandshakeHello;
  cl_limits : ProtocolLimits;
  cl_connection : option Z;
  cl_assigned_client : option Z;
  cl_stream : ClientStream;
  cl_out_seq : Z;
  cl_offers : ClientOffers;
  cl_failed : option HandshakeReject;
  cl_bootstrap : option BootstrapLane;
  cl_controls : list (ReliablePayload WireRow);
  cl_accounts : ClientAccounts;
  cl_sent_actions : gset Z;
}.

Definition stream_new : ClientStream := mkStream [] 0 None 0.
Definition offers_new : ClientOffers := mkOffers None None [] [].
Definition accounts_new : ClientAccounts := mkAccounts [] None None None None.

Definition client_relay (hello : HandshakeHello) (mailbox : RelayMailbox) : UdpClientLink :=
  mkClient mailbox hello (hh_limits hello) None None stream_new 0 offers_new None None [] accounts_new ∅.

Definition cl_set_relay (c : UdpClientLink) (m : RelayMailbox) : UdpClientLink :=
  mkClient m (cl_hello c) (cl_limits c) (cl_connection c) (cl_assigned_client c) (cl_stream c) (cl_out_seq c) (cl_offers c)
    (cl_failed c) (cl_bootstrap c) (cl_controls c) (cl_accounts c) (cl_sent_actions c).
Definition cl_set_ids (c : UdpClientLink) (connection client : option Z) : UdpClientLink :=
  mkClient (cl_relay c) (cl_hello c) (cl_limits c) connection client (cl_stream c) (cl_out_seq c) (cl_offers c)
    (cl_failed c) (cl_bootstrap c) (cl_controls c) (cl_accounts c) (cl_sent_actions c).
Definition cl_set_stream (c : UdpClientLink) (stream : ClientStream) : UdpClientLink :=
  mkClient (cl_relay c) (cl_hello c) (cl_limits c) (cl_connection c) (cl_assigned_client c) stream (cl_out_seq c) (cl_offers c)
    (cl_failed c) (cl_bootstrap c) (cl_controls c) (cl_accounts c) (cl_sent_actions c).
Definition cl_set_sent (c : UdpClientLink) (out_seq : Z) (sent : gset Z) : UdpClientLink :=
  mkClient (cl_relay c) (cl_hello c) (cl_limits c) (cl_connection c) (cl_assigned_client c) (cl_stream c) out_seq (cl_offers c)
    (cl_failed c) (cl_bootstrap c) (cl_controls c) (cl_accounts c) sent.
Definition cl_set_offers (c : UdpClientLink) (offers : ClientOffers) : UdpClientLink :=
  mkClient (cl_relay c) (cl_hello c) (cl_limits c) (cl_connection c) (cl_assigned_client c) (cl_stream c) (cl_out_seq c) offers
    (cl_failed c) (cl_bootstrap c) (cl_controls c) (cl_accounts c) (cl_sent_actions c).
Definition cl_set_failed (c : UdpClientLink) (failed : option HandshakeReject) : UdpClientLink :=
  mkClient (cl_relay c) (cl_hello c) (cl_limits c) (cl_connection c) (cl_assigned_client c) (cl_stream c) (cl_out_seq c) (cl_offers c)
    failed (cl_bootstrap c) (cl_controls c) (cl_accounts c) (cl_sent_actions c).
Definition cl_set_bootstrap (c : UdpClientLink) (lane : option BootstrapLane) : UdpClientLink :=
  mkClient (cl_relay c) (cl_hello c) (cl_limits c) (cl_connection c) (cl_assigned_client c) (cl_stream c) (cl_out_seq c) (cl_offers c)
    (cl_failed c) lane (cl_controls c) (cl_accounts c) (cl_sent_actions c).
Definition cl_set_controls (c : UdpClientLink) (controls : list (ReliablePayload WireRow)) : UdpClientLink :=
  mkClient (cl_relay c) (cl_hello c) (cl_limits c) (cl_connection c) (cl_assigned_client c) (cl_stream c) (cl_out_seq c) (cl_offers c)
    (cl_failed c) (cl_bootstrap c) controls (cl_accounts c) (cl_sent_actions c).
Definition cl_set_accounts (c : UdpClientLink) (accounts : ClientAccounts) : UdpClientLink :=
  mkClient (cl_relay c) (cl_hello c) (cl_limits c) (cl_connection c) (cl_assigned_client c) (cl_stream c) (cl_out_seq c) (cl_offers c)
    (cl_failed c) (cl_bootstrap c) (cl_controls c) accounts (cl_sent_actions c).

Definition client_attach_bootstrap (c : UdpClientLink) (lane : BootstrapLane) : UdpClientLink := cl_set_bootstrap c (Some lane).

(** ** What the client knows *)

Definition has_applied_snapshot (c : UdpClientLink) : bool := bool_decide (is_Some (cs_last_snapshot_seq (cl_stream c))).

Definition match_epoch (c : UdpClientLink) : Z := match cl_bootstrap c with Some lane => bn_epoch lane | None => 0 end.

Definition has_entered_match (c : UdpClientLink) : bool :=
  match cl_bootstrap c with
  | None => true
  | Some lane => match co_applied_bootstrap_id (cl_offers c) with
                 | Some applied => negb (applied =? 0) && (applied =? bn_entered_bootstrap lane)
                 | None => false
                 end
  end.

Definition admission_bootstrap_id (c : UdpClientLink) : option Z :=
  match co_applied_bootstrap_id (cl_offers c) with Some id => if id =? 0 then None else Some id | None => None end.

Definition set_applied (o : ClientOffers) (bootstrap_id : option Z) : ClientOffers :=
  mkOffers bootstrap_id (co_last_applied_offer o) (co_pending_applied o) (co_held_bootstrap o).
Definition set_pending (o : ClientOffers) (pending : list BootstrapMessage) : ClientOffers :=
  mkOffers (co_applied_bootstrap_id o) (co_last_applied_offer o) pending (co_held_bootstrap o).

Definition note_applied_bootstrap (c : UdpClientLink) (bootstrap_id : Z) : UdpClientLink :=
  cl_set_offers c (set_applied (cl_offers c) (Some bootstrap_id)).

Definition note_reject (c : UdpClientLink) (reason : HandshakeReject) : UdpClientLink := cl_set_failed c (Some reason).

Definition note_accept (c : UdpClientLink) (connection client : Z) : UdpClientLink :=
  match cl_failed c with Some _ => c | None => cl_set_ids c (Some connection) (Some client) end.

Definition note_applied_snapshot (s : ClientStream) (snapshot_seq : Z) : ClientStream :=
  mkStream (cs_baselines s) (cs_in_ack s)
    (Some match cs_last_snapshot_seq s with Some last => Z.max last snapshot_seq | None => snapshot_seq end)
    (cs_required_baseline_seq s).

(** ** The answers to the offers *)

(** The loop of [flush_applied_after_adopt]: after the first refusal the rest waits. *)
Fixpoint flush_loop (now : Z) (lane : BootstrapLane) (applied_id : option Z) (pending : list BootstrapMessage)
    : BootstrapLane * option Z * list BootstrapMessage :=
  match pending with
  | [] => (lane, applied_id, [])
  | applied :: rest =>
      let applied_id := match applied with BsApplied _ bootstrap_id _ _ _ => Some bootstrap_id | _ => applied_id end in
      match encode_bootstrap applied with
      | Err _ => (lane, applied_id, applied :: rest)
      | Ok bytes =>
          match push_to_worker limits now lane None bytes with
          | (lane, false) => (lane, applied_id, applied :: rest)
          | (lane, true) => flush_loop now lane applied_id rest
          end
      end
  end.

Definition flush_applied_after_adopt (now : Z) (c : UdpClientLink) : UdpClientLink :=
  match cl_bootstrap c with
  | None => c
  | Some lane =>
      let o := cl_offers c in
      let '(lane, applied_id, leftover) := flush_loop now lane (co_applied_bootstrap_id o) (co_pending_applied o) in
      cl_set_offers (cl_set_bootstrap c (Some lane)) (set_pending (set_applied o applied_id) leftover)
  end.

Definition client_reset_match (c : UdpClientLink) : UdpClientLink :=
  mkClient (cl_relay c) (cl_hello c) (cl_limits c) None None stream_new 0 offers_new None
    ((fun lane => set_epoch lane 0) <$> cl_bootstrap c) [] accounts_new ∅.

Definition take_controls (c : UdpClientLink) : UdpClientLink * list (ReliablePayload WireRow) :=
  (cl_set_controls c [], cl_controls c).

(** ** Packets of the host *)

(** [retain_applied_baseline]: every turn drops one, the fuel is their number. *)
Fixpoint retain_loop (fuel : nat) (pinned : option Z) (required : Z) (l : list (Z * (Snap * list byte * list Z)))
    : list (Z * (Snap * list byte * list Z)) :=
  match fuel with
  | O => l
  | S fuel =>
      if 64 <? zlen l then
        match find (fun seq => negb (bool_decide (Some seq = pinned)) && negb (seq =? required)) (bt_keys l) with
        | Some seq => retain_loop fuel pinned required (bt_remove seq l)
        | None => l
        end
      else l
  end.

Definition retain_applied_baseline (s : ClientStream) : ClientStream :=
  mkStream (retain_loop (length (cs_baselines s)) (cs_last_snapshot_seq s) (cs_required_baseline_seq s) (cs_baselines s))
    (cs_in_ack s) (cs_last_snapshot_seq s) (cs_required_baseline_seq s).

(** The ticks received and the snapshots to acknowledge, of one call of [recv_ticks]. *)
Record Receiving : Type := mkReceiving {
  rv_client : UdpClientLink;
  rv_ticks : list (Snap * GameFrame);
  rv_acks : list Z;
}.

Definition rv_set (r : Receiving) (c : UdpClientLink) : Receiving := mkReceiving c (rv_ticks r) (rv_acks r).

(** The snapshot becomes a baseline, and a tick of the game. *)
Definition adopt_snapshot (r : Receiving) (in_ack baseline_seq snapshot_seq : Z) (payload : list byte) (segments : list Z)
    (snapshot : Snap) (frame : GameFrame) : Receiving :=
  let c := rv_client r in
  let s := note_applied_snapshot (cl_stream c) snapshot_seq in
  let s := mkStream (bt_insert snapshot_seq (snapshot, payload, segments) (cs_baselines s)) in_ack (cs_last_snapshot_seq s)
             (Z.max (cs_required_baseline_seq s) baseline_seq) in
  mkReceiving (cl_set_stream c (retain_applied_baseline s)) (rv_ticks r ++ [(snapshot, frame)]) (rv_acks r ++ [snapshot_seq]).

Definition set_client_ack (c : UdpClientLink) (in_ack : Z) : UdpClientLink :=
  let s := cl_stream c in
  cl_set_stream c (mkStream (cs_baselines s) in_ack (cs_last_snapshot_seq s) (cs_required_baseline_seq s)).

(** The [Snapshot] arm; [Ok false] when it is not applied. *)
Definition apply_snapshot (r : Receiving) (header : PacketHeader) (baseline_seq snapshot_seq : Z) (payload : SnapshotPayload)
    : Receiving * Result ClientFault bool :=
  let c := rv_client r in
  let s := cl_stream c in
  if bool_decide (is_Some (cl_failed c)) || negb (bool_decide (cl_connection c = Some (ph_connection header))) then (r, Ok false)
  else if negb (applies_to_epoch header (match_epoch c)) then (r, Ok false)
  else if bt_contains snapshot_seq (cs_baselines s) then (r, Ok false)
  else
    match (if baseline_seq =? 0 then Some None else Some <$> bt_get baseline_seq (cs_baselines s)) with
    | None => (r, Ok false)
    | Some baseline =>
      match payload_decode decompress_with zstd_decompress payload ((fun b => (b.1.2, b.2)) <$> baseline) with
      | None => (r, Ok false)
      | Some payload =>
        let base := (fun b => b.1.1) <$> baseline in
        match decode_frame base payload with
        | Err e => (rv_set r (set_client_ack c (ph_sequence header)), Err (FaultWire e))
        | Ok (frame, segments) =>
          match decode_snapshot base frame with
          | Err e => (rv_set r (set_client_ack c (ph_sequence header)), Err (FaultWire e))
          | Ok snapshot =>
              (adopt_snapshot r (ph_sequence header) baseline_seq snapshot_seq payload segments snapshot frame, Ok true)
          end
        end
      end
    end.

Definition apply_control (r : Receiving) (header : PacketHeader) (payload : ReliablePayload WireRow) : Receiving :=
  let c := rv_client r in
  if bool_decide (cl_failed c = None) && bool_decide (cl_connection c = Some (ph_connection header))
     && applies_to_epoch header (match_epoch c)
  then rv_set r (cl_set_controls c (cl_controls c ++ [payload])) else r.

Definition apply_server_packet (r : Receiving) (packet : ServerPacket) : Receiving * Result ClientFault bool :=
  match packet with
  | Control header payload => (apply_control r header payload, Ok false)
  | Accept connection assigned_client _ => (rv_set r (note_accept (rv_client r) connection assigned_client), Ok false)
  | Reject reason => (rv_set r (note_reject (rv_client r) reason), Err (FaultRejected reason))
  | Snapshot header baseline_seq snapshot_seq payload => apply_snapshot r header baseline_seq snapshot_seq payload
  end.

Definition apply_server_bytes (r : Receiving) (bytes : list byte) : Receiving * Result ClientFault bool :=
  match decode_server_packet zstd_decompress bytes (cl_limits (rv_client r)) with
  | Err e => (r, Err (FaultWire e))
  | Ok packet => apply_server_packet r packet
  end.

(** ** Offers *)

Definition push_applied (c : UdpClientLink) (last : option (Z * Z)) (message : BootstrapMessage) : UdpClientLink :=
  let o := cl_offers c in
  cl_set_offers c (mkOffers (co_applied_bootstrap_id o) last (co_pending_applied o ++ [message]) (co_held_bootstrap o)).

(** One message of the lane; [live] is the match when they were taken. *)
Definition drain_offer (live : Z) (r : Receiving) (bytes : list byte) : Receiving :=
  match decode_bootstrap bytes with
  | Ok (Some (Offer epoch bootstrap_id tick_b snapshot_seq connection packet)) =>
      if negb (epoch_applies epoch live) then r
      else
        let c := rv_client r in
        let r := match cl_connection c with
                 | None => rv_set r (cl_set_ids c (Some connection) (cl_assigned_client c))
                 | Some _ => r
                 end in
        let applied := BsApplied epoch bootstrap_id tick_b snapshot_seq connection in
        match apply_server_bytes r packet with
        | (r, Ok true) => rv_set r (push_applied (rv_client r) (Some (bootstrap_id, snapshot_seq)) applied)
        | (r, Ok false) =>
            if bool_decide (co_last_applied_offer (cl_offers (rv_client r)) = Some (bootstrap_id, snapshot_seq))
            then rv_set r (push_applied (rv_client r) (Some (bootstrap_id, snapshot_seq)) applied)
            else r
        | (r, Err _) => r
        end
  | _ => r
  end.

Definition drain_bootstrap_offers (now : Z) (r : Receiving) : Receiving :=
  let c := rv_client r in
  match cl_bootstrap c with
  | None => r
  | Some lane =>
      let live := bn_epoch lane in
      let '(lane, from_lane) := take_from_worker now lane in
      let o := cl_offers c in
      let c := cl_set_offers (cl_set_bootstrap c (Some lane))
                 (mkOffers (co_applied_bootstrap_id o) (co_last_applied_offer o) (co_pending_applied o) []) in
      foldl (drain_offer live) (rv_set r c) (co_held_bootstrap o ++ map snd from_lane)
  end.

Definition adopt_entered_client (c : UdpClientLink) : UdpClientLink :=
  match cl_bootstrap c with
  | None => c
  | Some lane =>
      let entered := bn_entered_bootstrap lane in
      if (entered =? 0) || negb (bool_decide (co_applied_bootstrap_id (cl_offers c) = Some entered)) then c
      else let client := bn_entered_client lane in
           if negb (client =? 0) && negb (bool_decide (cl_assigned_client c = Some client))
           then cl_set_ids c (cl_connection c) (Some client) else c
  end.

(** ** Sending *)

(** [send_bytes]: it does not fail. *)
Definition client_send_bytes (now : Z) (c : UdpClientLink) (bytes : list byte) : UdpClientLink :=
  cl_set_relay c (push_outbound limits now (cl_relay c) SERVER_MEMBER bytes).1.

Definition client_header (c : UdpClientLink) (connection : Z) : PacketHeader :=
  mkPacketHeader connection (cl_out_seq c) (cs_in_ack (cl_stream c)) (match_epoch c).

Definition next_out (c : UdpClientLink) : UdpClientLink := cl_set_sent c (wrapping_add32 (cl_out_seq c) 1) (cl_sent_actions c).

Definition send_snapshot_ack (now : Z) (c : UdpClientLink) (snapshot_seq : Z) : UdpClientLink :=
  match cl_connection c with
  | None => c
  | Some connection =>
      let c := next_out c in
      client_send_bytes now c (encode_client_packet (SnapshotAck (client_header c connection) snapshot_seq))
  end.

Definition has_unsent_actions (c : UdpClientLink) (actions : list ClientAction) : bool :=
  existsb (fun action => negb (bool_decide (action_request_id action ∈ cl_sent_actions c))) actions.

Definition commands_packet (c : UdpClientLink) (connection : Z) (cmds : list (Z * UserCmd * ShotSampleProvenance))
    (actions : list ClientAction) (reliable_ack : Z) : ClientPacket :=
  Commands (client_header c connection) (default 0 (cl_assigned_client c)) (map fst cmds)
    (map (fun row => (row.1.1, row.2)) cmds) actions reliable_ack.

Definition send_command_packet (now : Z) (c : UdpClientLink) (connection : Z) (cmds : list (Z * UserCmd * ShotSampleProvenance))
    (actions : list ClientAction) (reliable_ack : Z) : UdpClientLink * Result ClientSendError () :=
  let c := next_out c in
  let bytes := encode_client_packet (commands_packet c connection cmds actions reliable_ack) in
  match cmds with
  | [] => let '(m, answer) := push_control_outbound limits now (cl_relay c) SERVER_MEMBER bytes in
          (cl_set_relay c m, match answer with Ok _ => Ok () | Err e => Err (ControlRefused e) end)
  | _ => (client_send_bytes now c bytes, Ok ())
  end.

(** The chunks go out as datagrams, which are never refused. *)
Definition send_chunk (now connection reliable_ack : Z) (c : UdpClientLink) (chunk : list (Z * UserCmd * ShotSampleProvenance)) : UdpClientLink :=
  (send_command_packet now c connection chunk [] reliable_ack).1.

(** The requests still outstanding that were sent, and those that were not. *)
Definition still_sent (c : UdpClientLink) (actions : list ClientAction) : gset Z :=
  filter (fun id => existsb (fun action => action_request_id action =? id) actions = true) (cl_sent_actions c).
Definition fresh_actions (sent : gset Z) (actions : list ClientAction) : list ClientAction :=
  filter (fun action => action_request_id action ∉ sent) actions.

Definition send_commands (now : Z) (c : UdpClientLink) (cmds : list (Z * UserCmd * ShotSampleProvenance)) (actions : list ClientAction)
    (reliable_ack : Z) : UdpClientLink * Result ClientSendError () :=
  match cl_connection c with
  | None => (c, Ok ())
  | Some connection =>
      let c := match cs_last_snapshot_seq (cl_stream c) with Some seq => send_snapshot_ack now c seq | None => c end in
      let count := Z.min CMDS_PER_PACKET (pl_max_cmds_per_tick (cl_limits c)) in
      if count =? 0 then (c, Err NoCommandsPermitted)
      else
        let c := foldl (send_chunk now connection reliable_ack) c (chunks (Z.to_nat count) cmds) in
        let c := cl_set_sent c (cl_out_seq c) (still_sent c actions) in
        let fresh := fresh_actions (cl_sent_actions c) actions in
        if bool_decide (fresh = []) && negb (bool_decide (cmds = [])) then (c, Ok ())
        else match send_command_packet now c connection [] fresh reliable_ack with
             | (c, Err e) => (c, Err e)
             | (c, Ok _) => (cl_set_sent c (cl_out_seq c) (cl_sent_actions c ∪ list_to_set (map action_request_id fresh)), Ok ())
             end
  end.

(** ** Receiving *)

Fixpoint recv_data (r : Receiving) (packets : list (list byte)) : Receiving * Result ClientFault () :=
  match packets with
  | [] => (r, Ok ())
  | bytes :: packets =>
      match decode_server_packet zstd_decompress bytes (cl_limits (rv_client r)) with
      | Err _ | Ok (Control _ _) => recv_data r packets
      | Ok packet => match apply_server_packet r packet with
                     | (r, Err e) => (r, Err e)
                     | (r, Ok _) => recv_data r packets
                     end
      end
  end.

Definition push_account_message (c : UdpClientLink) (message : AccountMessage) : UdpClientLink :=
  let a := cl_accounts c in
  cl_set_accounts c (mkAccounts (cc_messages a ++ [message]) (cc_challenge a) (cc_profile a) (cc_ack a) (cc_offer a)).

Fixpoint recv_control (r : Receiving) (packets : list (list byte)) : Receiving * Result ClientFault () :=
  match packets with
  | [] => (r, Ok ())
  | bytes :: packets =>
      match decode_account bytes with
      | Err e => (r, Err (FaultWire e))
      | Ok (Some message) => recv_control (rv_set r (push_account_message (rv_client r) message)) packets
      | Ok None =>
          match decode_server_packet zstd_decompress bytes (cl_limits (rv_client r)) with
          | Err e => (r, Err (FaultWire e))
          | Ok (Control header payload) => recv_control (apply_control r header payload) packets
          | Ok _ => recv_control r packets
          end
      end
  end.

Definition recv_ticks (now : Z) (c : UdpClientLink) : UdpClientLink * Result ClientFault (list (Snap * GameFrame)) :=
  let '(m, data) := take_inbound now (cl_relay c) in
  match recv_data (mkReceiving (cl_set_relay c m) [] []) (map snd data) with
  | (r, Err e) => (rv_client r, Err e)
  | (r, Ok _) =>
      let r := drain_bootstrap_offers now r in
      let '(m, control) := take_control_inbound (cl_relay (rv_client r)) in
      match recv_control (rv_set r (cl_set_relay (rv_client r) m)) (map snd control) with
      | (r, Err e) => (rv_client r, Err e)
      | (r, Ok _) =>
          let c := adopt_entered_client (rv_client r) in
          (if has_entered_match c then foldl (send_snapshot_ack now) c (rv_acks r) else c, Ok (rv_ticks r))
      end
  end.

(** ** The account *)

Section AccountOfClient.
Context (sha256 : list byte -> list byte) (ed25519_public : list byte -> list byte) (ed25519_sign : list byte -> list byte -> list byte).

Definition client_context (message : AccountMessage) : option AccountChallenge :=
  match message with AmChallenge context | AmRefused context | AmUpdate context _ => Some context | _ => None end.

(** The message speaks to this member, in this match, over this connection. *)
Definition addresses (c : UdpClientLink) (identity : SessionIdentity) (context : AccountChallenge) : bool :=
  bool_decide (ac_match_key context = identity_match_key identity) && bool_decide (ac_member context = si_member_id identity)
  && bool_decide (cl_connection c = Some (ac_connection context)).

(** The challenge is of another match, member or connection. *)
Definition challenge_stale (c : UdpClientLink) (identity : SessionIdentity) : bool :=
  match cc_challenge (cl_accounts c) with
  | Some context =>
      negb (bool_decide (ac_match_key context = identity_match_key identity)) || negb (bool_decide (ac_member context = si_member_id identity))
      || negb (ac_connection context =? default 0 (cl_connection c))
  | None => false
  end.

Definition answer_challenge (a : ClientAccounts) (local : LocalAccount) (context : AccountChallenge) : ClientAccounts * Result ClientFault () :=
  if match cc_challenge a with Some old => negb (bool_decide (old = context)) | None => false end then (a, Err ChallengeChanged)
  else if negb (bool_decide (la_id local = key_account sha256 ed25519_public (la_key local))) then (a, Err SigningOwner)
  else match profile_payload (la_id local) (la_snapshot local) with
       | Err e => (a, Err (FaultWire e))
       | Ok payload =>
           let message := AmProfile context (prove sha256 ed25519_public ed25519_sign (la_key local) context payload) (la_snapshot local) in
           if bool_decide (cc_challenge a = Some context) then (a, Ok ())
           else match encode_account message with
                | Err e => (a, Err (FaultWire e))
                | Ok bytes => (mkAccounts (cc_messages a) (Some context) (Some bytes) (cc_ack a) (cc_offer a), Ok ())
                end
       end.

(** The store of [schemas] alone takes the snapshot. *)
Definition validate_update (schemas : gmap (list byte) (list Definition_)) (snapshot : AccountSnapshot) : Result ClientFault () :=
  match install_schemas schemas store_default with
  | (_, Err e) => Err (SchemaFault e)
  | (validation, Ok _) => match import snapshot validation with (_, Err e) => Err (ImportFault e) | (_, Ok _) => Ok () end
  end.

Definition accept_update (schemas : gmap (list byte) (list Definition_)) (a : ClientAccounts) (local : LocalAccount)
    (snapshot : AccountSnapshot) : ClientAccounts * LocalAccount * Result ClientFault () :=
  if negb (bool_decide (as_account snapshot = la_id local)) ||
     negb (bool_decide (la_id local = key_account sha256 ed25519_public (la_key local)))
  then (a, local, Err UpdateOwner)
  else if match cc_offer a with Some old => as_revision snapshot <? as_revision old | None => false end then (a, local, Ok ())
  else if match cc_offer a with
          | Some old => (as_revision old =? as_revision snapshot) && negb (bool_decide (old = snapshot))
          | None => false
          end then (a, local, Err ConflictingUpdate)
  else match validate_update schemas snapshot with
       | Err e => (a, local, Err e)
       | Ok _ => (mkAccounts (cc_messages a) (cc_challenge a) (cc_profile a) (cc_ack a) (Some snapshot),
                  mkLocalAccount (la_id local) (la_key local) (Some snapshot), Ok ())
       end.

(** One message of the loop. *)
Definition poll_message (identity : SessionIdentity) (schemas : gmap (list byte) (list Definition_)) (c : UdpClientLink)
    (account : option LocalAccount) (message : AccountMessage) : UdpClientLink * option LocalAccount * Result ClientFault () :=
  match client_context message with
  | None => (c, account, Ok ())
  | Some context =>
      if negb (addresses c identity context) then (c, account, Ok ())
      else match account with
      | None => (c, None, Err NoLocalAccount)
      | Some local =>
          let current := bool_decide (cc_challenge (cl_accounts c) = Some context) in
          match message with
          | AmChallenge context =>
              let '(a, r) := answer_challenge (cl_accounts c) local context in (cl_set_accounts c a, Some local, r)
          | AmUpdate _ snapshot =>
              if current then
                let '(a, local, r) := accept_update schemas (cl_accounts c) local snapshot in (cl_set_accounts c a, Some local, r)
              else (c, Some local, Ok ())
          | AmRefused _ => (c, Some local, if current then Err AdmissionRefused else Ok ())
          | _ => (c, Some local, Ok ())
          end
      end
  end.

Fixpoint poll_loop (identity : SessionIdentity) (schemas : gmap (list byte) (list Definition_)) (c : UdpClientLink)
    (account : option LocalAccount) (messages : list AccountMessage) : UdpClientLink * option LocalAccount * Result ClientFault () :=
  match messages with
  | [] => (c, account, Ok ())
  | message :: messages =>
      match poll_message identity schemas c account message with
      | (c, account, Err e) => (c, account, Err e)
      | (c, account, Ok _) => poll_loop identity schemas c account messages
      end
  end.

(** The profile goes out, when the lane takes it; [false] when it does not. *)
Definition send_profile (now : Z) (c : UdpClientLink) : UdpClientLink * bool :=
  let a := cl_accounts c in
  match cc_profile a with
  | None => (c, true)
  | Some profile =>
      match push_control_outbound limits now (cl_relay c) SERVER_MEMBER profile with
      | (m, Err _) => (cl_set_relay c m, false)
      | (m, Ok _) => (cl_set_accounts (cl_set_relay c m) (mkAccounts (cc_messages a) (cc_challenge a) None (cc_ack a) (cc_offer a)), true)
      end
  end.

(** The save is reported once the file holds what the host offered. *)
Definition report_saved (now : Z) (c : UdpClientLink) (account : option LocalAccount) (receipt : option (option AccountSnapshot))
    : UdpClientLink * Result ClientFault () :=
  let a := cl_accounts c in
  match cc_challenge a, account, receipt with
  | Some context, Some local, Some receipt =>
      match la_snapshot local with
      | Some snapshot =>
          if bool_decide (cc_offer a = Some snapshot) && bool_decide (receipt = Some snapshot)
             && negb (bool_decide (cc_ack a = Some snapshot))
          then match encode_account (AmSaved context (la_id local) (as_revision snapshot)) with
               | Err e => (c, Err (FaultWire e))
               | Ok bytes =>
                   match push_control_outbound limits now (cl_relay c) SERVER_MEMBER bytes with
                   | (m, Err _) => (cl_set_relay c m, Ok ())
                   | (m, Ok _) => (cl_set_accounts (cl_set_relay c m)
                                     (mkAccounts (cc_messages a) (cc_challenge a) (cc_profile a) (Some snapshot) (cc_offer a)), Ok ())
                   end
               end
          else (c, Ok ())
      | None => (c, Ok ())
      end
  | _, _, _ => (c, Ok ())
  end.

Definition set_messages (c : UdpClientLink) (messages : list AccountMessage) : UdpClientLink :=
  let a := cl_accounts c in
  cl_set_accounts c (mkAccounts messages (cc_challenge a) (cc_profile a) (cc_ack a) (cc_offer a)).

Definition poll_accounts (now : Z) (identity : option SessionIdentity) (schemas : gmap (list byte) (list Definition_))
    (receipt : option (option AccountSnapshot)) (c : UdpClientLink) (account : option LocalAccount)
    : UdpClientLink * option LocalAccount * Result ClientFault () :=
  match identity with
  | None => (set_messages c [], account, Ok ())
  | Some identity =>
      let a := cl_accounts c in
      let c := if challenge_stale c identity then cl_set_accounts c (mkAccounts (cc_messages a) None None None None) else c in
      match poll_loop identity schemas (set_messages c []) account (cc_messages a) with
      | (c, account, Err e) => (c, account, Err e)
      | (c, account, Ok _) =>
          match send_profile now c with
          | (c, false) => (c, account, Ok ())
          | (c, true) => let '(c, r) := report_saved now c account receipt in (c, account, r)
          end
      end
  end.

(** ** A save of the client's own account *)

Definition local_bind (local : LocalAccount) (client : Z) : Persist bool :=
  if negb (bool_decide (key_account sha256 ed25519_public (la_key local) = la_id local)) then reads (fun _ => Err InvalidIdentity)
  else bind_snapshot client (la_id local) (la_snapshot local).

Definition bind_or_initialize (parse_f32 : list byte -> option Z) (local : LocalAccount) (client : Z)
    (defaults : option PlayerDataDefaults) : Persist () :=
  if negb (bool_decide (key_account sha256 ed25519_public (la_key local) = la_id local)) then reads (fun _ => Err InvalidIdentity)
  else store_admit parse_f32 client (la_id local) (la_snapshot local) defaults.
End AccountOfClient.
End Client.
