(* ===== verification/SessionClientMain.v ===== *)
(** * The client's side of a session: properties

    The frames a client keeps, what it sends, and what it believes of its account. *)

From stdpp Require Import sorting.
From S2P Require Export Baseline SessionClient.

#[local] Open Scope Z_scope.

(** ** Counting the frames after a number *)

Section Counting.
Context {V : Type}.
Implicit Types (l : list (Z * V)).

Lemma later_keys k l : later k l = length (filter (fun x => k < x) (bt_keys l)).
Proof.
  unfold later, bt_keys. induction l as [|e l IH]; [done|]. cbn [map]. rewrite !filter_cons. case_decide; cbn [length]; by rewrite ?IH.
Qed.

(** The frames are those after [k] and the others. *)
Lemma later_others k l : length l = (later k l + length (filter (fun x => ~ (k < x)%Z) (bt_keys l)))%nat.
Proof.
  rewrite later_keys. unfold bt_keys. induction l as [|e l IH]; [done|]. cbn [map]. rewrite !filter_cons.
  repeat case_decide; cbn [length]; try done; lia.
Qed.

Lemma nodup_count (xs ys : list Z) : NoDup xs -> (forall x, x ∈ xs -> x ∈ ys) -> (length xs <= length ys)%nat.
Proof. intros Hn Hin. apply list.submseteq_length. by apply NoDup_submseteq. Qed.

(** There are as many frames after [k], but for those in [ys]. *)
Lemma later_all_but k l (ys : list Z) :
  bt_sorted l -> (forall x, x ∈ bt_keys l -> x <= k -> x ∈ ys) -> (length l <= later k l + length ys)%nat.
Proof.
  intros Hs Hin. rewrite (later_others k l) at 1. enough (length (filter (fun x => ~ (k < x)%Z) (bt_keys l)) <= length ys)%nat by lia.
  apply nodup_count; [apply NoDup_filter; by apply bt_sorted_nodup|].
  intros x [Hk Hx]%list_elem_of_filter. apply Hin; [done|lia].
Qed.

Lemma later_grows k l l' : bt_sorted l -> (forall x, x ∈ bt_keys l -> k < x -> x ∈ bt_keys l') -> (later k l <= later k l')%nat.
Proof.
  intros Hs Hin. rewrite !later_keys. apply nodup_count; [apply NoDup_filter; by apply bt_sorted_nodup|].
  intros x [Hk Hx]%list_elem_of_filter. apply list_elem_of_filter. auto.
Qed.

Lemma bt_keys_remove e l x : x ∈ bt_keys (bt_remove e l) <-> x ∈ bt_keys l /\ x <> e.
Proof.
  unfold bt_remove. rewrite bt_keys_filter. split.
  - intros (v & Hne%negb_true_iff%Z.eqb_neq & Hin). split; [|done]. by apply (list_elem_of_fmap_2 fst) in Hin.
  - intros [([k v] & -> & Hin)%list_elem_of_fmap Hne]. exists v. split; [by apply negb_true_iff, Z.eqb_neq|done].
Qed.

Lemma bt_remove_length e l : bt_sorted l -> e ∈ bt_keys l -> S (length (bt_remove e l)) = length l.
Proof.
  intros Hs He.
  assert (Hrem : bt_sorted (bt_remove e l)) by by apply bt_filter_sorted.
  pose proof (bt_sorted_nodup _ Hs) as N. pose proof (bt_sorted_nodup _ Hrem) as N'.
  assert (E : forall m : list (Z * V), length (bt_keys m) = length m) by (intros; unfold bt_keys; by rewrite length_map).
  assert (Perm : bt_keys l ≡ₚ e :: bt_keys (bt_remove e l)).
  { apply NoDup_Permutation; [done| |].
    - constructor; [|done]. rewrite bt_keys_remove. tauto.
    - intros x. rewrite elem_of_cons, bt_keys_remove. destruct (decide (x = e)) as [->|]; tauto. }
  apply Permutation_length in Perm. cbn [length] in Perm. rewrite !E in Perm. lia.
Qed.
End Counting.

(** ** The frames a client keeps *)

Section Stream.
Context {Snap : Type}.
Abbreviation Stream := (@ClientStream Snap).
Abbreviation Kept := (list (Z * (Snap * list byte * list Z))).

Record stream_ok (s : Stream) : Prop := {
  so_sorted : bt_sorted (cs_baselines s);
  so_small : (length (cs_baselines s) <= 64)%nat;
  so_last : match cs_last_snapshot_seq s with
            | Some last => last ∈ bt_keys (cs_baselines s) /\ forall k, k ∈ bt_keys (cs_baselines s) -> k <= last
            | None => cs_baselines s = []
            end;
  so_required : cs_required_baseline_seq s = 0 \/ cs_required_baseline_seq s ∈ bt_keys (cs_baselines s);
}.

(** What is dropped from 65 frames: the oldest that is neither the newest nor the required one. *)
Record dropped (l : Kept) (last required e : Z) : Prop := {
  dr_in : e ∈ bt_keys l;
  dr_last : e <> last;
  dr_required : e <> required;
  dr_older k : k ∈ bt_keys l -> k < e -> k = required;
  dr_many : length l = 65%nat;
}.

Lemma retain_spec (l : Kept) last required :
  bt_sorted l -> (length l <= 65)%nat -> last ∈ bt_keys l -> (forall k, k ∈ bt_keys l -> k <= last) ->
  let l' := retain_loop (length l) (Some last) required l in
  (l' = l /\ (length l <= 64)%nat) \/ (exists e, dropped l last required e /\ l' = bt_remove e l).
Proof.
  intros Hs Hlen Hlast Hmax. destruct (length l) as [|n] eqn:En; [left; split; [done|lia]|].
  cbn [retain_loop]. destruct (Z.ltb_spec 64 (zlen l)) as [Hlt|Hge].
  2: { left. split; [done|]. unfold zlen in Hge. lia. }
  right. assert (length l = 65%nat) as E65 by (unfold zlen in Hlt; lia).
  destruct (find _ _) as [e|] eqn:Ef.
  - exists e. pose proof (find_split _ _ _ Ef) as (pre & post & Hk & Hpre & He).
    apply andb_true_iff in He as [H1%negb_true_iff%bool_decide_eq_false H2%negb_true_iff%Z.eqb_neq].
    assert (Hin : e ∈ bt_keys l) by (rewrite Hk; apply elem_of_app; right; by left).
    assert (Hd : dropped l last required e).
    { split; [done|congruence|done| |done]. intros k Hkl Hlt'. rewrite Hk in Hkl. unfold bt_sorted in Hs. rewrite Hk in Hs.
      apply elem_of_app in Hkl as [Hkl|Hkl].
      - rewrite list.Forall_forall in Hpre. specialize (Hpre k Hkl). apply andb_false_iff in Hpre as [Hp%negb_false_iff%bool_decide_eq_true|Hp%negb_false_iff%Z.eqb_eq]; [|done].
        injection Hp as ->. specialize (Hmax e Hin). lia.
      - apply StronglySorted_app_1_r in Hs. apply StronglySorted_inv in Hs as [_ Hall]. rewrite list.Forall_forall in Hall.
        apply elem_of_cons in Hkl as [->|Hkl]; [lia|]. specialize (Hall k Hkl). lia. }
    split; [done|]. pose proof (bt_remove_length e l Hs Hin) as Hr.
    destruct n as [|n]; [done|]. cbn [retain_loop]. destruct (Z.ltb_spec 64 (zlen (bt_remove e l))) as [Hlt'|]; [|done].
    unfold zlen in Hlt'. lia.
  - exfalso. assert (length (bt_keys l) <= length [last; required])%nat as Hl.
    { apply nodup_count; [by apply bt_sorted_nodup|]. intros x Hx.
      pose proof (find_none _ _ Ef x ltac:(by apply list_elem_of_In)) as Hn.
      apply andb_false_iff in Hn as [Hn%negb_false_iff%bool_decide_eq_true|Hn%negb_false_iff%Z.eqb_eq].
      - injection Hn as ->. by left.
      - subst. right; by left. }
    unfold bt_keys in Hl. rewrite length_map in Hl. cbn [length] in Hl. lia.
Qed.

(** The stream after a snapshot: [adopt_snapshot]'s part. *)
Definition adopt_stream (s : Stream) (in_ack b n : Z) (entry : Snap * list byte * list Z) : Stream :=
  let s := note_applied_snapshot s n in
  retain_applied_baseline (mkStream (bt_insert n entry (cs_baselines s)) in_ack (cs_last_snapshot_seq s)
                             (Z.max (cs_required_baseline_seq s) b)).

(** What becomes of the frames. *)
Record adopted (s s' : Stream) (b n : Z) (entry : Snap * list byte * list Z) : Prop := {
  ad_ok : stream_ok s';
  ad_new : (n, entry) ∈ cs_baselines s' \/ n ∉ bt_keys (cs_baselines s');
  ad_only e : e ∈ cs_baselines s' -> e = (n, entry) \/ e ∈ cs_baselines s;
  ad_required : cs_required_baseline_seq s' = Z.max (cs_required_baseline_seq s) b;
  ad_lost k : k = n \/ k ∈ bt_keys (cs_baselines s) -> k ∉ bt_keys (cs_baselines s') ->
    k <> cs_required_baseline_seq s' /\ (forall x, x ∈ bt_keys (cs_baselines s') -> x < k -> x = cs_required_baseline_seq s') /\
    (63 <= later k (cs_baselines s'))%nat;
  ad_window k : k ∉ bt_keys (cs_baselines s') -> k <> n -> (63 <= later k (cs_baselines s))%nat -> (63 <= later k (cs_baselines s'))%nat;
}.

Lemma adopt_stream_ok s in_ack b n entry :
  stream_ok s -> n ∉ bt_keys (cs_baselines s) -> b = 0 \/ b ∈ bt_keys (cs_baselines s) ->
  adopted s (adopt_stream s in_ack b n entry) b n entry.
Proof.
  intros [Hs Hsm Hl Hr] Hn Hb. unfold adopt_stream, note_applied_snapshot, retain_applied_baseline.
  cbn [cs_baselines cs_last_snapshot_seq cs_required_baseline_seq].
  set (l := bt_insert n entry (cs_baselines s)). set (last := match cs_last_snapshot_seq s with Some _ => _ | None => n end).
  set (required := Z.max _ _).
  assert (Hins : bt_sorted l) by by apply bt_insert_sorted.
  assert (Hkeys : forall x, x ∈ bt_keys l <-> x = n \/ x ∈ bt_keys (cs_baselines s)) by (intros; apply bt_keys_insert).
  assert (Hlen : (length l <= 65)%nat) by (pose proof (length_bt_insert n entry (cs_baselines s)); unfold l; lia).
  assert (Hlast : last ∈ bt_keys l /\ forall k, k ∈ bt_keys l -> k <= last).
  { subst last. destruct (cs_last_snapshot_seq s) as [m|].
    - destruct Hl as [Hl1 Hl2]. split.
      + apply Hkeys. destruct (Z.max_spec m n) as [[_ ->]|[_ ->]]; auto.
      + intros k [->|Hk]%Hkeys; [lia|]. specialize (Hl2 k Hk). lia.
    - split; [apply Hkeys; by left|]. intros k [->|Hk]%Hkeys; [lia|]. rewrite Hl in Hk. by apply elem_of_nil in Hk. }
  assert (Hreq : required = 0 \/ required ∈ bt_keys l).
  { subst required. rewrite Hkeys. destruct (Z.max_spec (cs_required_baseline_seq s) b) as [[_ ->]|[_ ->]]; intuition. }
  destruct (retain_spec l last required Hins Hlen (proj1 Hlast) (proj2 Hlast)) as [[Eq Hle]|(e & Hd & Eq)]; cbv zeta in Eq; rewrite Eq; clear Eq.
  - split; cbn [cs_baselines cs_last_snapshot_seq cs_required_baseline_seq]; [by split| | |done| |].
    + left. apply bt_get_spec; [done|]. by apply bt_get_insert_eq.
    + apply elem_of_bt_insert.
    + intros k Hk Hk'. destruct Hk'. by apply Hkeys.
    + intros k _ _ Hw. etrans; [exact Hw|]. apply later_grows; [done|]. intros x Hx _. apply Hkeys. by right.
  - assert (Hrem : bt_sorted (bt_remove e l)) by by apply bt_filter_sorted.
    pose proof (bt_remove_length e l Hins (dr_in _ _ _ _ Hd)) as Hc.
    pose proof (dr_many _ _ _ _ Hd).
    assert (Hwin : forall k, k <= e -> (63 <= later k (bt_remove e l))%nat).
    { intros k Hk. enough (length (bt_remove e l) <= later k (bt_remove e l) + length [required])%nat by (cbn [length] in *; lia).
      apply later_all_but; [done|]. intros x [Hx Hxe]%bt_keys_remove Hxk. rewrite (dr_older _ _ _ _ Hd x Hx); [by left|lia]. }
    split; cbn [cs_baselines cs_last_snapshot_seq cs_required_baseline_seq]; [| | |done| |].
    + split; cbn [cs_baselines cs_last_snapshot_seq cs_required_baseline_seq]; [done|lia| |].
      * split; [apply bt_keys_remove; split; [apply Hlast|pose proof (dr_last _ _ _ _ Hd); congruence]|].
        intros k [Hk _]%bt_keys_remove. by apply Hlast.
      * destruct Hreq; [by left|right]. apply bt_keys_remove. split; [done|]. pose proof (dr_required _ _ _ _ Hd). congruence.
    + destruct (decide (n = e)) as [->|Hne].
      * right. rewrite bt_keys_remove. tauto.
      * left. apply list_elem_of_filter. split; [by apply negb_true_iff, Z.eqb_neq|].
        apply bt_get_spec; [done|]. by apply bt_get_insert_eq.
    + intros x [_ Hx]%list_elem_of_filter. by apply elem_of_bt_insert in Hx.
    + intros k Hk Hk'. assert (k = e) as ->.
      { destruct (decide (k = e)); [done|]. destruct Hk'. apply bt_keys_remove. split; [by apply Hkeys|done]. }
      split; [apply Hd|]. split; [|apply Hwin; lia]. intros x [Hx _]%bt_keys_remove. by apply Hd.
    + intros k Hk Hkn Hw. destruct (Z.le_gt_cases k e) as [Hle|Hgt]; [by apply Hwin|].
      etrans; [exact Hw|]. apply later_grows; [done|]. intros x Hx Hkx. apply bt_keys_remove. split; [apply Hkeys; by right|lia].
Qed.
End Stream.

(** ** Applying a snapshot *)

Section Applying.
Context {Snap GameFrame : Type}.
Context (decompress_with : list byte -> list byte -> Z -> option (list byte)) (zstd_decompress : list byte -> Z -> option (list byte)).
Context (decode_frame : option Snap -> list byte -> Result WireError (GameFrame * list Z)).
Context (decode_snapshot : option Snap -> GameFrame -> Result WireError Snap).

Abbreviation Client := (@UdpClientLink Snap).
Abbreviation Rx := (@Receiving Snap GameFrame).
Abbreviation applies := (apply_snapshot decompress_with zstd_decompress decode_frame decode_snapshot).

(** The frames, and what is derived from them, are the same. *)
Definition frames_kept (c c' : Client) : Prop :=
  cs_baselines (cl_stream c') = cs_baselines (cl_stream c) /\
  cs_last_snapshot_seq (cl_stream c') = cs_last_snapshot_seq (cl_stream c) /\
  cs_required_baseline_seq (cl_stream c') = cs_required_baseline_seq (cl_stream c).

#[export] Instance frames_kept_preorder : PreOrder frames_kept.
Proof. split; [by split|]. intros c1 c2 c3 (A1 & A2 & A3) (B1 & B2 & B3). split; [|split]; congruence. Qed.

Lemma frames_kept_ok c c' : frames_kept c c' -> stream_ok (cl_stream c) -> stream_ok (cl_stream c').
Proof. intros (E1 & E2 & E3) []. split; by rewrite ?E1, ?E2, ?E3. Qed.

(** The client takes part in this session. *)
Definition in_session (c : Client) (header : PacketHeader) : Prop :=
  cl_failed c = None /\ cl_connection c = Some (ph_connection header) /\ ph_epoch header = match_epoch c.

(** The baseline a snapshot names, among the frames kept. *)
Definition named_baseline (c : Client) (b : Z) (base : option (Snap * list byte * list Z)) : Prop :=
  (b = 0 /\ base = None) \/ (b <> 0 /\ exists entry, base = Some entry /\ bt_get b (cs_baselines (cl_stream c)) = Some entry).

(** A snapshot that is applied. *)
Record snapshot_applied (r r' : Rx) (header : PacketHeader) (b n : Z) (payload : SnapshotPayload) : Prop := {
  sa_session : in_session (rv_client r) header;
  sa_fresh : n ∉ bt_keys (cs_baselines (cl_stream (rv_client r)));
  sa_how : exists base raw frame lens snap,
    named_baseline (rv_client r) b base /\
    payload_decode decompress_with zstd_decompress payload ((fun e => (e.1.2, e.2)) <$> base) = Some raw /\
    decode_frame ((fun e => e.1.1) <$> base) raw = Ok (frame, lens) /\
    decode_snapshot ((fun e => e.1.1) <$> base) frame = Ok snap /\
    r' = adopt_snapshot r (ph_sequence header) b n raw lens snap frame;
}.

Lemma named_baseline_decides (c : Client) b base :
  named_baseline c b base <-> (if b =? 0 then Some None else Some <$> bt_get b (cs_baselines (cl_stream c))) = Some base.
Proof.
  unfold named_baseline. destruct (Z.eqb_spec b 0) as [->|Hb].
  - split; [by intros [[_ ->]|[? _]]|]. intros [= <-]. by left.
  - destruct (bt_get _ _) as [entry|]; cbn [fmap option_fmap option_map].
    + split; [intros [[? _]|[_ (e & -> & [= <-])]]; done|]. intros [= <-]. right. eauto.
    + split; [intros [[? _]|[_ (e & _ & ?)]]; done|done].
Qed.

Lemma not_kept (l : list (Z * (Snap * list byte * list Z))) n : bt_contains n l = false <-> n ∉ bt_keys l.
Proof. rewrite <- bt_contains_spec. by destruct (bt_contains n l). Qed.

(** A snapshot is applied exactly when its session, its baseline and its bytes allow it. *)
Lemma apply_snapshot_iff (r r' : Rx) header b n payload :
  applies r header b n payload = (r', Ok true) <-> snapshot_applied r r' header b n payload.
Proof.
  unfold apply_snapshot, applies_to_epoch. split.
  - destruct (_ || _) eqn:E1; [done|]. apply orb_false_iff in E1 as [E1%bool_decide_eq_false E2%negb_false_iff%bool_decide_eq_true].
    destruct (Z.eqb_spec (ph_epoch header) (match_epoch (rv_client r))) as [E3|]; [|done]. cbn [negb].
    destruct (bt_contains _ _) eqn:E4; [done|]. apply not_kept in E4.
    destruct (if b =? 0 then _ else _) as [base|] eqn:E5; [|done]. apply named_baseline_decides in E5.
    destruct (payload_decode _ _ _ _) as [raw|] eqn:E6; [|done].
    destruct (decode_frame _ raw) as [[frame lens]|] eqn:E7; [|done].
    destruct (decode_snapshot _ frame) as [snap|] eqn:E8; [|done]. intros [= <-].
    split; [split; [by apply eq_None_not_Some|by split]|done|]. by exists base, raw, frame, lens, snap.
  - intros [(F & C & E) Hf (base & raw & frame & lens & snap & Hb & H1 & H2 & H3 & ->)].
    rewrite F, C, E. rewrite (bool_decide_eq_true_2 (Some _ = Some _) eq_refl), bool_decide_eq_false_2 by (by intros []).
    rewrite Z.eqb_refl. cbn [orb negb]. apply not_kept in Hf. rewrite Hf. apply named_baseline_decides in Hb. rewrite Hb, H1, H2. by rewrite H3.
Qed.

(** Otherwise the frames stay, and nothing is received. *)
Lemma apply_snapshot_not (r r' : Rx) header b n payload a :
  applies r header b n payload = (r', a) -> a <> Ok true ->
  frames_kept (rv_client r) (rv_client r') /\ rv_ticks r' = rv_ticks r /\ rv_acks r' = rv_acks r /\
  cl_offers (rv_client r') = cl_offers (rv_client r).
Proof.
  unfold apply_snapshot. intros E Ha.
  repeat (match type of E with context [match ?x with _ => _ end] => destruct x end); injection E as <- <-; try done; by repeat split.
Qed.

Lemma adopt_snapshot_stream (r : Rx) in_ack b n raw lens snap (frame : GameFrame) :
  cl_stream (rv_client (adopt_snapshot r in_ack b n raw lens snap frame)) =
  adopt_stream (cl_stream (rv_client r)) in_ack b n (snap, raw, lens).
Proof. done. Qed.

(** The frames of a client that applies a snapshot. *)
Lemma snapshot_applied_adopts (r r' : Rx) header b n payload :
  stream_ok (cl_stream (rv_client r)) -> snapshot_applied r r' header b n payload ->
  exists entry, adopted (cl_stream (rv_client r)) (cl_stream (rv_client r')) b n entry /\ rv_acks r' = rv_acks r ++ [n] /\
    cl_offers (rv_client r') = cl_offers (rv_client r).
Proof.
  intros Hok [_ Hf (base & raw & frame & lens & snap & Hb & _ & _ & _ & ->)]. exists (snap, raw, lens). split; [|done].
  rewrite adopt_snapshot_stream. apply adopt_stream_ok; [done..|].
  destruct Hb as [[-> _]|[_ (entry & _ & He)]]; [by left|right].
  apply bt_get_spec in He; [|apply Hok]. by apply (list_elem_of_fmap_2 fst) in He.
Qed.
End Applying.

(** ** A client over time *)

Section ClientHistory.
Context {Snap GameFrame : Type}.
Context (limits : TransportBudget).
Context (decompress_with : list byte -> list byte -> Z -> option (list byte)) (zstd_decompress : list byte -> Z -> option (list byte)).
Context (decode_frame : option Snap -> list byte -> Result WireError (GameFrame * list Z)).
Context (decode_snapshot : option Snap -> GameFrame -> Result WireError Snap).
Context (sha256 : list byte -> list byte) (ed25519_public : list byte -> list byte) (ed25519_sign : list byte -> list byte -> list byte).

Abbreviation Client := (@UdpClientLink Snap).
Abbreviation Rx := (@Receiving Snap GameFrame).

(** The account exchange is about a challenge. *)
Definition accounts_ok (a : ClientAccounts) : Prop :=
  cc_challenge a = None -> cc_profile a = None /\ cc_ack a = None /\ cc_offer a = None.

(** The offers wait for nothing, and every answer can be sent. *)
Definition offers_ok (o : ClientOffers) : Prop :=
  co_held_bootstrap o = [] /\ forall m, m ∈ co_pending_applied o -> exists e id t n c, m = BsApplied e id t n c /\ e <> 0.

Record client_ok (c : Client) : Prop := {
  ck_stream : stream_ok (cl_stream c);
  ck_connection : cl_connection c = None -> cs_baselines (cl_stream c) = [];
  ck_offers : offers_ok (cl_offers c);
  ck_accounts : accounts_ok (cl_accounts c);
}.

(** Everything the client does, and what the relay task and the worker do to the mailbox and the lane. *)
Inductive client_step (c : Client) : Client -> Prop :=
| ClRecv now : client_step c (recv_ticks limits decompress_with zstd_decompress decode_frame decode_snapshot now c).1
| ClSend now cmds actions reliable_ack : client_step c (send_commands limits now c cmds actions reliable_ack).1
| ClFlush now : client_step c (flush_applied_after_adopt limits now c)
| ClPoll now identity schemas receipt account :
    client_step c (poll_accounts limits sha256 ed25519_public ed25519_sign now identity schemas receipt c account).1.1
| ClReset : client_step c (client_reset_match c)
| ClTake : client_step c (take_controls c).1
| ClAccept connection client : client_step c (note_accept c connection client)
| ClReject reason : client_step c (note_reject c reason)
| ClApplied bootstrap_id : client_step c (note_applied_bootstrap c bootstrap_id)
| ClAttach lane : client_step c (client_attach_bootstrap c lane)
| ClWorld m lane : client_step c (cl_set_bootstrap (cl_set_relay c m) lane).

Definition client_reachable (c : Client) : Prop := exists hello mailbox, rtc client_step (client_relay hello mailbox) c.

(** *** What sending leaves alone *)

Definition same_core (c c' : Client) : Prop :=
  cl_stream c' = cl_stream c /\ cl_connection c' = cl_connection c /\ cl_offers c' = cl_offers c /\ cl_accounts c' = cl_accounts c.

#[export] Instance same_core_preorder : PreOrder same_core.
Proof. split; [by split|]. intros c1 c2 c3 (A1 & A2 & A3 & A4) (B1 & B2 & B3 & B4). repeat split; congruence. Qed.

Lemma same_core_ok c c' : same_core c c' -> client_ok c -> client_ok c'.
Proof. intros (E1 & E2 & E3 & E4) []. split; by rewrite ?E1, ?E2, ?E3, ?E4. Qed.

Lemma ack_core now c seq : same_core c (send_snapshot_ack limits now c seq).
Proof. unfold send_snapshot_ack. by destruct (cl_connection c) eqn:E. Qed.

Lemma packet_core now c connection cmds actions reliable_ack :
  same_core c (send_command_packet limits now c connection cmds actions reliable_ack).1.
Proof. unfold send_command_packet. destruct cmds; [|done]. by destruct (push_control_outbound _ _ _ _ _). Qed.

Lemma foldl_core {A} (f : Client -> A -> Client) (l : list A) : forall c, (forall c x, same_core c (f c x)) -> same_core c (foldl f c l).
Proof. induction l as [|x l IH]; intros c Hf; [done|]. cbn. etrans; [apply (Hf c x)|by apply IH]. Qed.

Lemma send_commands_core now c cmds actions reliable_ack : same_core c (send_commands limits now c cmds actions reliable_ack).1.
Proof.
  unfold send_commands. destruct (cl_connection c) as [connection|]; [|done].
  set (c1 := match cs_last_snapshot_seq _ with Some _ => _ | None => _ end).
  assert (H1 : same_core c c1) by (subst c1; destruct (cs_last_snapshot_seq _); [apply ack_core|done]). clearbody c1.
  destruct (_ =? 0); [done|]. set (c2 := foldl _ c1 _).
  assert (H2 : same_core c c2) by (etrans; [exact H1|apply foldl_core; intros; apply packet_core]). clearbody c2.
  destruct (_ && _); [exact H2|].
  pose proof (packet_core now (cl_set_sent c2 (cl_out_seq c2) (still_sent c2 actions)) connection []
    (fresh_actions (cl_sent_actions (cl_set_sent c2 (cl_out_seq c2) (still_sent c2 actions))) actions) reliable_ack) as H3.
  destruct (send_command_packet _ _ _ _ _ _ _) as [c3 [|]]; cbn [fst] in *; (etrans; [exact H2|exact H3]).
Qed.

(** *** Receiving *)

Lemma apply_ok (r r' : Rx) packet a :
  client_ok (rv_client r) ->
  apply_server_packet decompress_with zstd_decompress decode_frame decode_snapshot r packet = (r', a) ->
  client_ok (rv_client r') /\ cl_offers (rv_client r') = cl_offers (rv_client r).
Proof.
  intros Hok. destruct packet as [header payload|connection client hello|reason|header b n payload]; cbn [apply_server_packet].
  - intros [= <- <-]. unfold apply_control. destruct (_ && _); [|done]. split; [by destruct Hok|done].
  - intros [= <- <-]. unfold note_accept. cbn. destruct (cl_failed _); [done|]. split; [by destruct Hok|done].
  - intros [= <- <-]. split; [by destruct Hok|done].
  - intros E. assert (a = Ok true \/ a <> Ok true) as [->|Hne] by (destruct a as [[]|]; [by left|by right..]).
    + apply apply_snapshot_iff in E. pose proof E as [[_ [Hc _]] _ (base & raw & frame & lens & snap & _ & _ & _ & _ & Er)].
      destruct (snapshot_applied_adopts _ _ _ _ r r' header b n payload (ck_stream _ Hok) E) as (entry & Had & _ & Ho).
      split; [|done]. split; rewrite ?Ho; [apply Had| |apply Hok|].
      * rewrite Er. cbn. by rewrite Hc.
      * rewrite Er. apply Hok.
    + destruct (apply_snapshot_not _ _ _ _ _ _ _ _ _ _ _ E Hne) as (Hk & _ & _ & Ho). split; [|done].
      assert (cl_connection (rv_client r') = cl_connection (rv_client r) /\ cl_accounts (rv_client r') = cl_accounts (rv_client r)) as [Ec Ea].
      { revert E. unfold apply_snapshot.
        repeat match goal with |- context [match ?x with _ => _ end] => destruct x end; by intros [= <- _]. }
      split; rewrite ?Ho, ?Ea, ?Ec; [by eapply frames_kept_ok, Hok| |apply Hok..].
      destruct Hk as (-> & _). apply Hok.
Qed.

Lemma recv_data_ok packets : forall r r' : Rx, forall a,
  client_ok (rv_client r) -> recv_data decompress_with zstd_decompress decode_frame decode_snapshot r packets = (r', a) -> client_ok (rv_client r').
Proof.
  induction packets as [|bytes packets IH]; intros r r' a Hok; cbn [recv_data]; [by intros [= <- _]|].
  destruct (decode_server_packet _ _ _) as [packet|e]; [|by apply IH].
  destruct packet as [header payload|connection client hello|reason|header b n payload]; [by apply IH|..];
    match goal with |- context [apply_server_packet ?x1 ?x2 ?x3 ?x4 r ?x5] => destruct (apply_server_packet x1 x2 x3 x4 r x5) as [r1 [|]] eqn:E end;
    apply apply_ok in E as [Hok1 _]; try done; [by apply IH|by intros [= <- _]|by apply IH|by intros [= <- _]|by apply IH|by intros [= <- _]].
Qed.

Lemma push_message_ok (c : Client) message : client_ok c -> client_ok (push_account_message c message).
Proof. intros []. by split. Qed.

Lemma apply_control_ok (r : Rx) header payload : client_ok (rv_client r) -> client_ok (rv_client (apply_control r header payload)).
Proof. intros Hok. unfold apply_control. destruct (_ && _); [|done]. by destruct Hok. Qed.

Lemma recv_control_ok packets : forall r r' : Rx, forall a,
  client_ok (rv_client r) -> recv_control zstd_decompress r packets = (r', a) -> client_ok (rv_client r').
Proof.
  induction packets as [|bytes packets IH]; intros r r' a Hok; cbn [recv_control]; [by intros [= <- _]|].
  destruct (decode_account bytes) as [[message|]|e]; [|destruct (decode_server_packet _ _ _) as [[]|e]|]; intros E; try (by injection E as <- _).
  - eapply IH; [|exact E]. by apply push_message_ok.
  - eapply IH; [|exact E]. by apply apply_control_ok.
  - by eapply IH.
  - by eapply IH.
  - by eapply IH.
Qed.

Lemma drain_offer_ok live (r : Rx) bytes :
  client_ok (rv_client r) -> client_ok (rv_client (drain_offer decompress_with zstd_decompress decode_frame decode_snapshot live r bytes)).
Proof.
  intros Hok. unfold drain_offer. destruct (decode_bootstrap bytes) as [[[epoch id tick_b n conn packet|]|]|]; try done.
  destruct (epoch_applies epoch live) eqn:Ee; [|done]. cbn [negb].
  assert (He : epoch <> 0) by (unfold epoch_applies in Ee; apply andb_true_iff in Ee as [Ee%negb_true_iff%Z.eqb_neq _]; done).
  set (r0 := match cl_connection (rv_client r) with Some _ => r | None => _ end).
  assert (Hok0 : client_ok (rv_client r0)) by (subst r0; destruct (cl_connection _); [done|by destruct Hok]). clearbody r0.
  assert (Hpush : forall r1 : Rx, client_ok (rv_client r1) ->
    client_ok (push_applied (rv_client r1) (Some (id, n)) (BsApplied epoch id tick_b n conn))).
  { intros r1 [H1 H2 [H3 H4] H5]. split; [done|done| |done]. split; [done|]. cbn. intros m [Hm| ->%list_elem_of_singleton]%elem_of_app; [by apply H4|].
    by repeat eexists. }
  unfold apply_server_bytes. destruct (decode_server_packet _ _ _) as [pk|e]; [|done].
  destruct (apply_server_packet _ _ _ _ _ _) as [r1 a] eqn:E. apply apply_ok in E as [Hok1 _]; [|done].
  destruct a as [[]|]; [by apply Hpush|case_bool_decide; [by apply Hpush|done]|done].
Qed.

Lemma drain_ok now (r : Rx) :
  client_ok (rv_client r) -> client_ok (rv_client (drain_bootstrap_offers decompress_with zstd_decompress decode_frame decode_snapshot now r)).
Proof.
  intros Hok. unfold drain_bootstrap_offers. destruct (cl_bootstrap _) as [lane|]; [|done]. destruct (take_from_worker now lane) as [lane' from_lane].
  match goal with |- client_ok (rv_client (foldl ?f ?r0 ?l)) => assert (Hok0 : client_ok (rv_client r0)); [|revert Hok0; generalize r0, l] end.
  { destruct Hok as [H1 H2 [H3 H4] H5]. by split. }
  intros r0 l. revert r0. induction l as [|bytes l IH]; intros r0 Hok0; [done|]. cbn. apply IH. by apply drain_offer_ok.
Qed.

Lemma adopt_client_ok (c : Client) : client_ok c -> client_ok (adopt_entered_client c).
Proof.
  intros Hok. unfold adopt_entered_client. destruct (cl_bootstrap c); [|done]. destruct (_ || _); [done|].
  destruct (_ && _); [|done]. by destruct Hok.
Qed.

Lemma recv_ok now (c : Client) : client_ok c -> client_ok (recv_ticks limits decompress_with zstd_decompress decode_frame decode_snapshot now c).1.
Proof.
  intros Hok. unfold recv_ticks. destruct (take_inbound now (cl_relay c)) as [m data].
  destruct (recv_data _ _ _ _ _ _) as [r a] eqn:E. apply recv_data_ok in E; [|by destruct Hok]. destruct a as [|]; [|done].
  pose proof (drain_ok now r E) as E'. set (r1 := drain_bootstrap_offers _ _ _ _ _ _) in *. clearbody r1.
  destruct (take_control_inbound _) as [m' control]. destruct (recv_control _ _ _) as [r2 a2] eqn:Ec.
  apply recv_control_ok in Ec; [|by destruct E']. destruct a2 as [|]; [|done]. apply adopt_client_ok in Ec. cbn [fst].
  destruct (has_entered_match _); [|done]. eapply same_core_ok; [|exact Ec]. apply foldl_core. intros; apply ack_core.
Qed.

(** *** Answers and accounts *)

Lemma flush_loop_suffix now pending : forall lane applied_id, exists sent, pending = sent ++ (flush_loop limits now lane applied_id pending).2.
Proof.
  induction pending as [|m pending IH]; intros lane applied_id; cbn [flush_loop]; [by exists []|].
  destruct (encode_bootstrap m) as [bytes|]; [|by exists []]. destruct (push_to_worker _ _ _ _ _) as [lane' [|]]; [|by exists []].
  set (a := match m with BsApplied _ _ _ _ _ => _ | _ => _ end). destruct (IH lane' a) as [sent E]. exists (m :: sent). cbn. by rewrite <- E.
Qed.

Lemma flush_ok now (c : Client) : client_ok c -> client_ok (flush_applied_after_adopt limits now c).
Proof.
  intros [H1 H2 [H3 H4] H5]. unfold flush_applied_after_adopt. destruct (cl_bootstrap c) as [lane|]; [|by split].
  destruct (flush_loop_suffix now (co_pending_applied (cl_offers c)) lane (co_applied_bootstrap_id (cl_offers c))) as [sent E].
  destruct (flush_loop _ _ _ _ _) as [[lane' applied_id] leftover]. cbn in E. split; [done|done| |done]. split; [done|]. cbn.
  intros m Hm. apply H4. rewrite E. apply elem_of_app. by right.
Qed.

(** Polling changes the account part only. *)
Record account_moved (c c' : Client) : Prop := {
  am_stream : cl_stream c' = cl_stream c;
  am_connection : cl_connection c' = cl_connection c;
  am_offers : cl_offers c' = cl_offers c;
  am_accounts : accounts_ok (cl_accounts c) -> accounts_ok (cl_accounts c');
}.

#[export] Instance account_moved_preorder : PreOrder account_moved.
Proof. split; [by split|]. intros c1 c2 c3 [] []. split; [congruence..|auto]. Qed.

Lemma account_moved_ok c c' : account_moved c c' -> client_ok c -> client_ok c'.
Proof. intros [E1 E2 E3 E4] []. split; rewrite ?E1, ?E2, ?E3; auto. Qed.

Lemma poll_message_moved identity schemas (c : Client) account message :
  account_moved c (poll_message sha256 ed25519_public ed25519_sign identity schemas c account message).1.1.
Proof.
  unfold poll_message. destruct (client_context message) as [context|]; [|done]. destruct (negb _); [done|]. destruct account as [local|]; [|done].
  destruct message as [ch|ch proof snap|ch snap|ch acc rev|ch]; try done.
  - destruct (answer_challenge _ _ _ _ _ _) as [a r] eqn:E. split; [done..|]. cbn. intros Hok. revert E. unfold answer_challenge.
    repeat match goal with |- context [match ?x with _ => _ end] => destruct x end; intros [= <- _]; done.
  - case_bool_decide as Ec; [|done]. destruct (accept_update _ _ _ _ _ _) as [[a local'] r] eqn:E. split; [done..|]. cbn. intros Hok. revert E. unfold accept_update.
    repeat match goal with |- context [match ?x with _ => _ end] => destruct x end; intros [= <- _ _]; try done. intros H. cbn in H. congruence.
Qed.

Lemma poll_loop_moved identity schemas messages : forall (c : Client) account,
  account_moved c (poll_loop sha256 ed25519_public ed25519_sign identity schemas c account messages).1.1.
Proof.
  induction messages as [|m messages IH]; intros c account; cbn [poll_loop]; [done|].
  pose proof (poll_message_moved identity schemas c account m) as H.
  destruct (poll_message _ _ _ _ _ _ _ _) as [[c1 account1] [|]]; cbn [fst] in *; [|done]. etrans; [exact H|apply IH].
Qed.

Lemma poll_moved now identity schemas receipt (c : Client) account :
  account_moved c (poll_accounts limits sha256 ed25519_public ed25519_sign now identity schemas receipt c account).1.1.
Proof.
  unfold poll_accounts. destruct identity as [identity|]; [|by split].
  set (c0 := if challenge_stale c identity then _ else c).
  assert (H0 : account_moved c (set_messages c0 [])).
  { subst c0. destruct (challenge_stale c identity); by split. }
  pose proof (poll_loop_moved identity schemas (cc_messages (cl_accounts c)) (set_messages c0 []) account) as H1.
  destruct (poll_loop _ _ _ _ _ _ _ _) as [[c1 account1] [|]]; cbn [fst] in *; [|by etrans].
  assert (H2 : account_moved c c1) by by etrans. clear H0 H1 c0.
  assert (H3 : account_moved c1 (send_profile limits now c1).1).
  { unfold send_profile. destruct (cc_profile _); [|done]. destruct (push_control_outbound _ _ _ _ _) as [m [|]]; [|done].
    split; [done..|]. cbn. intros H E. destruct (H E) as (_ & ? & ?). done. }
  destruct (send_profile limits now c1) as [c2 [|]]; cbn [fst] in *; [|by etrans].
  assert (H4 : account_moved c2 (report_saved limits now c2 account1 receipt).1).
  { unfold report_saved. destruct (cc_challenge (cl_accounts c2)) as [ctx|] eqn:Ec; [|done].
    destruct account1 as [local|]; [|done]. destruct receipt as [receipt|]; [|done]. destruct (la_snapshot local); [|done].
    destruct (_ && _); [|done]. destruct (encode_account _); [|done]. destruct (push_control_outbound _ _ _ _ _) as [m [|]]; [|done].
    split; [done..|]. cbn. intros _ E. cbn in E. congruence. }
  destruct (report_saved _ _ _ _ _) as [c3 r]. cbn [fst] in *. etrans; [exact H2|]. by etrans.
Qed.

(** C19. A client's state is sound after any operations, in any order, whatever the relay and the
    worker hand it: at most 64 frames are kept, in order, among them the newest applied and the
    one it must keep as a baseline (or none is required yet); there are none without a connection; every
    answer waiting for the lane names a match and can be encoded; and the account exchange holds nothing without a challenge. *)
Theorem client_stays_sound (c : Client) :
  client_reachable c ->
  bt_sorted (cs_baselines (cl_stream c)) /\ (length (cs_baselines (cl_stream c)) <= 64)%nat /\
  match cs_last_snapshot_seq (cl_stream c) with
  | Some last => last ∈ bt_keys (cs_baselines (cl_stream c)) /\ forall n, n ∈ bt_keys (cs_baselines (cl_stream c)) -> n <= last
  | None => cs_baselines (cl_stream c) = []
  end /\
  (cs_required_baseline_seq (cl_stream c) = 0 \/ cs_required_baseline_seq (cl_stream c) ∈ bt_keys (cs_baselines (cl_stream c))) /\
  (cl_connection c = None -> cs_baselines (cl_stream c) = []) /\
  co_held_bootstrap (cl_offers c) = [] /\
  (forall m, m ∈ co_pending_applied (cl_offers c) ->
     exists e id t n conn, m = BsApplied e id t n conn /\ e <> 0 /\ exists bytes, encode_bootstrap m = Ok bytes) /\
  accounts_ok (cl_accounts c).
Proof.
  intros (hello & mailbox & Hsteps).
  assert (Hok : client_ok c).
  { assert (Hstart : client_ok (client_relay hello mailbox)).
    { split; [split; cbn; [constructor|lia|done|by left]|done|split; [done|by intros m Hm%elem_of_nil]|by intros _]. }
    induction Hsteps as [|c1 c2 c3 Hstep _ IH]; [done|]. apply IH. clear IH.
    destruct Hstep; [by apply recv_ok| |by apply flush_ok|by eapply account_moved_ok; [apply poll_moved|]| | | | | | |]; try by destruct Hstart.
    - eapply same_core_ok; [apply send_commands_core|done].
    - split; [split; cbn; [constructor|lia|done|by left]|done|split; [done|by intros m Hm%elem_of_nil]|by intros _].
    - unfold note_accept. destruct (cl_failed c1); [done|]. by destruct Hstart. }
  destruct Hok as [[S1 S2 S3 S4] K [O1 O2] A]. split_and!; try done.
  intros m Hm. destruct (O2 m Hm) as (e & id & t & n & conn & -> & He). exists e, id, t, n, conn. split; [done|]. split; [done|]. by eexists.
Qed.
End ClientHistory.

(** ** What goes out *)

Section Sending.
Context {Snap : Type}.
Context (limits : TransportBudget) (now : Z).
Abbreviation Client := (@UdpClientLink Snap).
Abbreviation Command := (Z * UserCmd * ShotSampleProvenance)%type.

Lemma chunks_fuel_spec {A} (n : nat) : forall fuel (l : list A), (0 < n)%nat -> (length l <= fuel)%nat ->
  concat (chunks_fuel fuel n l) = l /\ Forall (fun chunk => 0 < length chunk <= n)%nat (chunks_fuel fuel n l).
Proof.
  induction fuel as [|fuel IH]; intros l Hn Hl; [destruct l; [by split|cbn in Hl; lia]|].
  destruct l as [|x l]; [by split|]. cbn [chunks_fuel concat]. destruct (IH (drop n (x :: l)) Hn) as [E F].
  { rewrite length_drop. cbn [length] in *. lia. }
  rewrite E, take_drop. split; [done|]. constructor; [|done]. rewrite length_take. cbn [length]. lia.
Qed.

Lemma chunks_spec {A} (n : nat) (l : list A) : (0 < n)%nat ->
  concat (chunks n l) = l /\ Forall (fun chunk => 0 < length chunk <= n)%nat (chunks n l).
Proof. intros Hn. by apply chunks_fuel_spec. Qed.

(** The mailbox after these datagrams to the host. *)
Definition data_out (m : RelayMailbox) (packets : list ClientPacket) : RelayMailbox :=
  foldl (fun m packet => (push_outbound limits now m SERVER_MEMBER (encode_client_packet packet)).1) m packets.

(** The header of the client's packet with this number. *)
Definition header_at (c : Client) (connection seq : Z) : PacketHeader :=
  mkPacketHeader connection seq (cs_in_ack (cl_stream c)) (match_epoch c).

(** The number after these packets. *)
Definition seq_past {A} (seq : Z) (packets : list A) : Z := foldl (fun seq _ => wrapping_add32 seq 1) seq packets.

Definition command_packet (c : Client) (connection reliable_ack seq : Z) (chunk : list Command) (actions : list ClientAction) : ClientPacket :=
  Commands (header_at c connection seq) (default 0 (cl_assigned_client c)) (map fst chunk) (map (fun row => (row.1.1, row.2)) chunk) actions reliable_ack.

(** One packet for each chunk, numbered after [seq]. *)
Fixpoint chunk_packets (c : Client) (connection reliable_ack seq : Z) (chs : list (list Command)) : list ClientPacket :=
  match chs with
  | [] => []
  | chunk :: chs => command_packet c connection reliable_ack (wrapping_add32 seq 1) chunk [] ::
                    chunk_packets c connection reliable_ack (wrapping_add32 seq 1) chs
  end.

(** The acknowledgement that goes first. *)
Definition ack_packets (c : Client) (connection : Z) : list ClientPacket :=
  match cs_last_snapshot_seq (cl_stream c) with
  | Some n => [SnapshotAck (header_at c connection (wrapping_add32 (cl_out_seq c) 1)) n]
  | None => []
  end.

(** What sending changes: the mailbox, the number, the requests sent. *)
Definition sends_only (c c' : Client) : Prop :=
  cl_stream c' = cl_stream c /\ cl_bootstrap c' = cl_bootstrap c /\ cl_assigned_client c' = cl_assigned_client c /\
  cl_connection c' = cl_connection c /\ cl_limits c' = cl_limits c.

Lemma sends_only_packet c c' connection reliable_ack seq chunk actions :
  sends_only c c' -> command_packet c' connection reliable_ack seq chunk actions = command_packet c connection reliable_ack seq chunk actions.
Proof. intros (E1 & E2 & E3 & _). unfold command_packet, header_at, match_epoch. by rewrite E1, E2, E3. Qed.

Lemma send_chunks connection reliable_ack chs : forall c : Client,
  Forall (fun chunk => 0 < length chunk)%nat chs ->
  let c' := foldl (send_chunk limits now connection reliable_ack) c chs in
  let packets := chunk_packets c connection reliable_ack (cl_out_seq c) chs in
  sends_only c c' /\ cl_sent_actions c' = cl_sent_actions c /\ cl_relay c' = data_out (cl_relay c) packets /\
  cl_out_seq c' = seq_past (cl_out_seq c) packets.
Proof.
  induction chs as [|chunk chs IH]; intros c Hall; [done|]. apply list.Forall_cons in Hall as [Hc Hall]. cbn [foldl chunk_packets].
  set (c1 := send_chunk limits now connection reliable_ack c chunk).
  assert (H1 : sends_only c c1 /\ cl_sent_actions c1 = cl_sent_actions c /\ cl_out_seq c1 = wrapping_add32 (cl_out_seq c) 1 /\
               cl_relay c1 = data_out (cl_relay c) [command_packet c connection reliable_ack (wrapping_add32 (cl_out_seq c) 1) chunk []]).
  { subst c1. unfold send_chunk, send_command_packet. destruct chunk as [|row chunk]; [cbn in Hc; lia|]. done. }
  clearbody c1. destruct H1 as (S1 & A1 & O1 & R1). destruct (IH c1 Hall) as (S2 & A2 & R2 & O2).
  assert (Ep : forall seq, chunk_packets c1 connection reliable_ack seq chs = chunk_packets c connection reliable_ack seq chs).
  { clear - S1. induction chs as [|ch chs IH]; intros seq; [done|]. cbn [chunk_packets]. by rewrite IH, (sends_only_packet c c1). }
  rewrite O1, Ep in *. split; [|split; [congruence|split; [by rewrite R2, R1|done]]].
  destruct S1 as (B1 & B2 & B3 & B4 & B5), S2 as (D1 & D2 & D3 & D4 & D5). repeat split; congruence.
Qed.

Lemma ack_first (c : Client) connection :
  cl_connection c = Some connection ->
  let c' := match cs_last_snapshot_seq (cl_stream c) with Some seq => send_snapshot_ack limits now c seq | None => c end in
  sends_only c c' /\ cl_sent_actions c' = cl_sent_actions c /\ cl_relay c' = data_out (cl_relay c) (ack_packets c connection) /\
  cl_out_seq c' = seq_past (cl_out_seq c) (ack_packets c connection).
Proof.
  intros Hc. cbv zeta. unfold ack_packets. destruct (cs_last_snapshot_seq _) as [n|]; [|done].
  unfold send_snapshot_ack. by rewrite Hc.
Qed.

Lemma elem_of_still_sent (c : Client) actions id :
  id ∈ still_sent c actions <-> id ∈ cl_sent_actions c /\ id ∈ map action_request_id actions.
Proof.
  unfold still_sent. rewrite elem_of_filter, existsb_exists, list_elem_of_fmap.
  split.
  - intros [(a & Ha%list_elem_of_In & E%Z.eqb_eq) Hin]. split; [done|]. by exists a.
  - intros [Hin (a & -> & Ha%list_elem_of_In)]. split; [|done]. exists a. by rewrite Z.eqb_refl.
Qed.

Lemma filter_agree {A} (P Q : A -> Prop) `{!forall x, Decision (P x)} `{!forall x, Decision (Q x)} (l : list A) :
  (forall x, x ∈ l -> P x <-> Q x) -> filter P l = filter Q l.
Proof.
  induction l as [|x l IH]; intros Hpq; [done|]. rewrite !filter_cons, IH by (intros y Hy; apply Hpq; by right).
  pose proof (Hpq x ltac:(by left)). repeat case_decide; tauto.
Qed.

(** Forgetting the requests that are done does not make others fresh. *)
Lemma fresh_still (c : Client) actions : fresh_actions (still_sent c actions) actions = fresh_actions (cl_sent_actions c) actions.
Proof.
  unfold fresh_actions. apply filter_agree. intros a Ha. rewrite elem_of_still_sent.
  assert (action_request_id a ∈ map action_request_id actions) by (apply list_elem_of_fmap; eauto). tauto.
Qed.

Lemma all_sent (c : Client) actions id :
  id ∈ map action_request_id actions <->
  (id ∈ cl_sent_actions c /\ id ∈ map action_request_id actions) \/ id ∈ map action_request_id (fresh_actions (cl_sent_actions c) actions).
Proof.
  unfold fresh_actions. split.
  - intros Hin. destruct (decide (id ∈ cl_sent_actions c)) as [|Hout]; [by left|right].
    apply list_elem_of_fmap in Hin as (a & -> & Ha). apply list_elem_of_fmap. exists a. split; [done|]. by apply list_elem_of_filter.
  - intros [[_ H]|(a & -> & [_ Ha]%list_elem_of_filter)%list_elem_of_fmap]; [done|]. apply list_elem_of_fmap. by exists a.
Qed.

(** C20. A client's commands and requests go out once: sending splits the commands into datagrams of
    at most sixteen (or what the host permits), numbered on from the client's last packet, each
    command in one of them and in order, behind the acknowledgement of the newest snapshot; the
    requests that were not sent before go in one control packet, which is also sent when there is
    no command; and when the lane takes it the requests sent are exactly the outstanding ones, so
    that none is sent again, while a refusal leaves the fresh ones to be sent later. *)
Theorem commands_go_out_once (c c' : Client) connection cmds actions reliable_ack r :
  cl_connection c = Some connection -> 0 < pl_max_cmds_per_tick (cl_limits c) ->
  send_commands limits now c cmds actions reliable_ack = (c', r) ->
  exists chs, concat chs = cmds /\
    Forall (fun chunk => 0 < zlen chunk <= Z.min CMDS_PER_PACKET (pl_max_cmds_per_tick (cl_limits c))) chs /\
    let acks := ack_packets c connection in
    let datagrams := acks ++ chunk_packets c connection reliable_ack (seq_past (cl_out_seq c) acks) chs in
    let m := data_out (cl_relay c) datagrams in
    let fresh := filter (fun action => action_request_id action ∉ cl_sent_actions c) actions in
    ((fresh = [] /\ cmds <> [] /\ cl_relay c' = m /\ r = Ok ()) \/
     (~ (fresh = [] /\ cmds <> []) /\
      let pushed := push_control_outbound limits now m SERVER_MEMBER
        (encode_client_packet (command_packet c connection reliable_ack (wrapping_add32 (seq_past (cl_out_seq c) datagrams) 1) [] fresh)) in
      cl_relay c' = pushed.1 /\ r = match pushed.2 with Ok _ => Ok () | Err e => Err (ControlRefused e) end)) /\
    forall id, id ∈ cl_sent_actions c' <-> id ∈ map action_request_id actions /\ (r = Ok () \/ id ∈ cl_sent_actions c).
Proof.
  intros Hc Hmax. unfold send_commands. rewrite Hc. destruct (ack_first c connection Hc) as (S1 & A1 & R1 & O1).
  set (c1 := match cs_last_snapshot_seq _ with Some _ => _ | None => _ end) in *. clearbody c1.
  destruct S1 as (B1 & B2 & B3 & B4 & B5). rewrite B5. set (count := Z.min _ _). assert (Hcount : 0 < count) by (unfold count, CMDS_PER_PACKET; lia).
  destruct (Z.eqb_spec count 0) as [|_]; [lia|]. destruct (chunks_spec (Z.to_nat count) cmds ltac:(lia)) as [Ecat Hch].
  set (chs := chunks (Z.to_nat count) cmds) in *.
  destruct (send_chunks connection reliable_ack chs c1) as (S2 & A2 & R2 & O2); [by eapply list.Forall_impl; [exact Hch|cbn; lia]|].
  set (c2 := foldl _ c1 _) in *. clearbody c2. clearbody chs.
  assert (S : sends_only c c2) by (destruct S2 as (D1 & D2 & D3 & D4 & D5); repeat split; congruence).
  assert (Ep : forall seq, chunk_packets c1 connection reliable_ack seq chs = chunk_packets c connection reliable_ack seq chs).
  { assert (S' : sends_only c c1) by done. clear - S'. induction chs as [|ch chs IH]; intros seq; [done|]. cbn [chunk_packets].
    by rewrite IH, (sends_only_packet c c1). }
  rewrite Ep, O1, R1 in *. rewrite A1 in A2. clear Ep.
  assert (Es : still_sent c2 actions = still_sent c actions) by (unfold still_sent; by rewrite A2).
  cbn [cl_set_sent cl_sent_actions]. rewrite Es, fresh_still. fold (fresh_actions (cl_sent_actions c) actions).
  intros Hsend. exists chs. split; [done|]. split; [eapply list.Forall_impl; [exact Hch|]; intros; unfold zlen; cbn in *; lia|].
  set (datagrams := ack_packets c connection ++ _).
  assert (RD : cl_relay c2 = data_out (cl_relay c) datagrams) by (rewrite R2; unfold datagrams, data_out; by rewrite foldl_app).
  assert (OD : cl_out_seq c2 = seq_past (cl_out_seq c) datagrams) by (rewrite O2; unfold datagrams, seq_past; by rewrite foldl_app).
  clearbody datagrams. cbv zeta. fold (fresh_actions (cl_sent_actions c) actions). pose proof (all_sent c actions) as Hall.
  set (fresh := fresh_actions (cl_sent_actions c) actions) in *.
  destruct (decide (fresh = [] /\ cmds <> [])) as [[Ef Ec]|Hsome].
  - rewrite bool_decide_eq_true_2, bool_decide_eq_false_2 in Hsend by done. injection Hsend as <- <-.
    split; [by left|]. intros id. cbn. rewrite elem_of_still_sent. rewrite Ef in Hall. specialize (Hall id). rewrite elem_of_nil in Hall. tauto.
  - assert (bool_decide (fresh = []) && negb (bool_decide (cmds = [])) = false) as Ecase by (repeat case_bool_decide; try done; tauto).
    rewrite Ecase in Hsend. unfold send_command_packet in Hsend. cbv zeta in Hsend.
    assert (Epk : commands_packet (next_out (cl_set_sent c2 (cl_out_seq c2) (still_sent c actions))) connection [] fresh reliable_ack =
                  command_packet c connection reliable_ack (wrapping_add32 (seq_past (cl_out_seq c) datagrams) 1) [] fresh).
    { rewrite <- OD. rewrite <- (sends_only_packet c c2) by done. done. }
    rewrite Epk in Hsend. cbn [next_out cl_set_sent cl_relay] in Hsend. rewrite RD in Hsend.
    destruct (push_control_outbound _ _ _ _ _) as [m [u|e]]; injection Hsend as <- <-.
    + split; [right; split; [done|by destruct u]|]. intros id. cbn. rewrite elem_of_union, elem_of_still_sent, elem_of_list_to_set. specialize (Hall id). tauto.
    + split; [by right|]. intros id. cbn. rewrite elem_of_still_sent. split; [tauto|]. by intros [? [?|?]].
Qed.
End Sending.
