(* ===== verification/SessionClientAccount.v ===== *)
(** * The client's account: properties

    What a client proves to the host and what it takes from it. *)

From S2P Require Export SessionClientMain.

#[local] Open Scope Z_scope.

Section AccountSafety.
Context {Snap : Type}.
Context (limits : TransportBudget).
Context (sha256 : list byte -> list byte) (ed25519_public : list byte -> list byte) (ed25519_sign : list byte -> list byte -> list byte).
Context (identity : SessionIdentity) (schemas : gmap (list byte) (list Definition_)).
Abbreviation Client := (@UdpClientLink Snap).

(** The challenge is of this match, member and connection. *)
Definition addressed (connection : option Z) (context : AccountChallenge) : Prop :=
  ac_match_key context = identity_match_key identity /\ ac_member context = si_member_id identity /\ connection = Some (ac_connection context).

Lemma addresses_spec (c : Client) context : addresses c identity context = true <-> addressed (cl_connection c) context.
Proof. unfold addresses, addressed. rewrite !andb_true_iff, !bool_decide_eq_true. tauto. Qed.

(** The bytes prove the local account for the challenge, by its own key. *)
Definition own_profile (local : LocalAccount) (context : AccountChallenge) (bytes : list byte) : Prop :=
  la_id local = key_account sha256 ed25519_public (la_key local) /\
  exists saved payload, profile_payload (la_id local) saved = Ok payload /\
    encode_account (AmProfile context (prove sha256 ed25519_public ed25519_sign (la_key local) context payload) saved) = Ok bytes.

(** The host's update is for the local account, and the store would take it. *)
Definition own_update (local : LocalAccount) (update : AccountSnapshot) : Prop :=
  as_account update = la_id local /\ la_id local = key_account sha256 ed25519_public (la_key local) /\ validate_update schemas update = Ok ().

(** The same account, perhaps with another save. *)
Definition same_owner (a b : option LocalAccount) : Prop :=
  (fun l => (la_id l, la_key l)) <$> a = (fun l => (la_id l, la_key l)) <$> b.

Definition challenge_of (c : Client) := cc_challenge (cl_accounts c).

(** What handling messages of [M] does. *)
Record polled (M : list AccountMessage) (c : Client) (account : option LocalAccount) (c' : Client) (account' : option LocalAccount) : Prop := {
  po_relay : cl_relay c' = cl_relay c;
  po_connection : cl_connection c' = cl_connection c;
  po_ack : cc_ack (cl_accounts c') = cc_ack (cl_accounts c);
  po_owner : same_owner account' account;
  po_challenge context : challenge_of c' = Some context ->
    challenge_of c = Some context \/ (AmChallenge context ∈ M /\ addressed (cl_connection c) context);
  po_keep context : challenge_of c = Some context -> challenge_of c' = Some context;
  po_profile bytes : cc_profile (cl_accounts c') = Some bytes ->
    cc_profile (cl_accounts c) = Some bytes \/
    exists local context, same_owner account (Some local) /\ AmChallenge context ∈ M /\ addressed (cl_connection c) context /\
      challenge_of c' = Some context /\ own_profile local context bytes;
  po_update : (account' = account /\ cc_offer (cl_accounts c') = cc_offer (cl_accounts c)) \/
    exists local context update, account = Some local /\ account' = Some (mkLocalAccount (la_id local) (la_key local) (Some update)) /\
      AmUpdate context update ∈ M /\ addressed (cl_connection c) context /\ challenge_of c' = Some context /\ own_update local update /\
      cc_offer (cl_accounts c') = Some update /\
      forall old, cc_offer (cl_accounts c) = Some old -> as_revision old <= as_revision update;
}.

Lemma polled_refl M c account c' : cl_relay c' = cl_relay c -> cl_connection c' = cl_connection c -> cl_accounts c' = cl_accounts c ->
  polled M c account c' account.
Proof. intros E1 E2 E3. split; unfold challenge_of; rewrite ?E3; auto. done. Qed.

Lemma polled_trans M c1 a1 c2 a2 c3 a3 : polled M c1 a1 c2 a2 -> polled M c2 a2 c3 a3 -> polled M c1 a1 c3 a3.
Proof.
  intros [R1 N1 K1 O1 C1 H1 P1 U1] [R2 N2 K2 O2 C2 H2 P2 U2]. rewrite N1 in *. split; [congruence|congruence|congruence|unfold same_owner in *; congruence| |auto| |].
  - intros context Hc. destruct (C2 context Hc) as [Hc'|?]; auto.
  - intros bytes Hb. destruct (P2 bytes Hb) as [Hb'|(local & context & Ho & ?)].
    + destruct (P1 bytes Hb') as [|(local & context & ? & ? & ? & ? & ?)]; [by left|right]. exists local, context. auto 10.
    + right. exists local, context. split; [unfold same_owner in *; congruence|done].
  - destruct U2 as [[-> E2]|(local & context & update & -> & -> & Hm & Ha & Hc & Hu & E2 & Hrev)].
    + rewrite E2. destruct U1 as [|(local & context & update & ? & ? & ? & ? & ? & ? & ? & ?)]; [by left|right]. exists local, context, update. auto 10.
    + destruct U1 as [[<- E1]|(local1 & context1 & update1 & -> & E & _ & _ & _ & _ & E1 & Hrev1)].
      * right. exists local, context, update. by rewrite <- E1.
      * right. injection E as ->. exists local1, context, update. cbn [la_id la_key] in *. split_and!; try done.
        intros old Hold. etrans; [by apply Hrev1|by apply Hrev].
Qed.

Lemma poll_message_polled M (c : Client) account message :
  message ∈ M ->
  let out := poll_message sha256 ed25519_public ed25519_sign identity schemas c account message in polled M c account out.1.1 out.1.2.
Proof.
  intros HM. cbv zeta. unfold poll_message. destruct (client_context message) as [context|] eqn:Ectx; [|by apply polled_refl].
  destruct (addresses c identity context) eqn:Ead; cbn [negb]; [|by apply polled_refl]. apply addresses_spec in Ead.
  destruct account as [local|]; [|by apply polled_refl].
  destruct message as [ch|ch proof snap|ch update|ch acc rev|ch]; try (by apply polled_refl); injection Ectx as ->.
  - unfold answer_challenge. destruct (cc_challenge (cl_accounts c)) as [old|] eqn:Eold.
    + case_bool_decide as Eo; cbn [negb]; [subst old|by apply polled_refl]. case_bool_decide; cbn [negb]; [|by apply polled_refl].
      destruct (profile_payload _ _); [|by apply polled_refl]. rewrite bool_decide_eq_true_2 by done. by apply polled_refl.
    + case_bool_decide as Ekey; cbn [negb]; [|by apply polled_refl].
      destruct (profile_payload _ _) as [payload|] eqn:Epay; [|by apply polled_refl]. rewrite bool_decide_eq_false_2 by done.
      destruct (encode_account _) as [bytes|] eqn:Eb; [|by apply polled_refl].
      split; cbn; unfold challenge_of; cbn; rewrite ?Eold; try done; [by intros ? [= <-]; right| |by left].
      intros b [= <-]. right. exists local, context. split; [done|]. split; [done|]. split; [done|]. split; [done|]. split; [done|].
      by exists (la_snapshot local), payload.
  - case_bool_decide as Ecur; [|by apply polled_refl]. unfold accept_update.
    destruct (negb (bool_decide (as_account update = la_id local)) || _) eqn:Eown; [by apply polled_refl|].
    apply orb_false_iff in Eown as [E1%negb_false_iff%bool_decide_eq_true E2%negb_false_iff%bool_decide_eq_true].
    destruct (match cc_offer (cl_accounts c) with Some old => as_revision update <? as_revision old | None => false end) eqn:Erev; [by apply polled_refl|].
    destruct (match cc_offer (cl_accounts c) with Some old => _ && _ | None => false end); [by apply polled_refl|].
    destruct (validate_update schemas update) as [[]|] eqn:Ev; [|by apply polled_refl].
    split; cbn; unfold challenge_of; cbn; auto; [done|].
    right. exists local, context, update. split_and!; try done. intros old Hold. rewrite Hold in Erev. apply Z.ltb_ge in Erev. done.
Qed.

Lemma poll_loop_polled M messages : forall (c : Client) account, (forall m, m ∈ messages -> m ∈ M) ->
  let out := poll_loop sha256 ed25519_public ed25519_sign identity schemas c account messages in polled M c account out.1.1 out.1.2.
Proof.
  induction messages as [|m messages IH]; intros c account HM; cbn [poll_loop]; [by apply polled_refl|].
  pose proof (poll_message_polled M c account m (HM m ltac:(by left))) as H. cbv zeta in H.
  destruct (poll_message _ _ _ _ _ _ _ _) as [[c1 account1] [|]]; cbn [fst snd] in *; [|done].
  eapply polled_trans; [exact H|]. apply IH. intros m' Hm'. apply HM. by right.
Qed.

Lemma push_rows now m bytes m' a row :
  push_control_outbound limits now m SERVER_MEMBER bytes = (m', a) -> row ∈ mb_control_outbound m' ->
  row ∈ mb_control_outbound m \/ row.1 = (SERVER_MEMBER, bytes).
Proof.
  unfold push_control_outbound, push_mail. destruct (_ <? _); [intros [= <- _]; by left|]. destruct (_ || _); [intros [= <- _]; by left|].
  intros [= <- _]. cbn. intros [Hr| ->%list_elem_of_singleton]%elem_of_app; [by left|by right].
Qed.

Lemma send_profile_rows now (c c' : Client) b :
  send_profile limits now c = (c', b) ->
  challenge_of c' = challenge_of c /\ cc_offer (cl_accounts c') = cc_offer (cl_accounts c) /\ cl_connection c' = cl_connection c /\
  forall row, row ∈ mb_control_outbound (cl_relay c') -> row ∈ mb_control_outbound (cl_relay c) \/
    row.1.1 = SERVER_MEMBER /\ cc_profile (cl_accounts c) = Some row.1.2.
Proof.
  unfold send_profile. destruct (cc_profile (cl_accounts c)) as [profile|]; [|intros [= <- _]; auto 10].
  destruct (push_control_outbound _ _ _ _ _) as [m [|]] eqn:E; intros [= <- _]; (split; [done|]; split; [done|]; split; [done|]; intros row Hr;
    destruct (push_rows _ _ _ _ _ row E Hr) as [|Er]; [by left|right; by rewrite Er]).
Qed.

(** A save is reported: the file holds it, and it is what the host offered. *)
Definition saved_report (c : Client) (account : option LocalAccount) (receipt : option (option AccountSnapshot)) (bytes : list byte) : Prop :=
  exists context local save, challenge_of c = Some context /\ account = Some local /\ la_snapshot local = Some save /\
    receipt = Some (Some save) /\ cc_offer (cl_accounts c) = Some save /\ encode_account (AmSaved context (la_id local) (as_revision save)) = Ok bytes.

Lemma report_saved_rows now (c c' : Client) account receipt r :
  report_saved limits now c account receipt = (c', r) ->
  challenge_of c' = challenge_of c /\ cc_offer (cl_accounts c') = cc_offer (cl_accounts c) /\
  forall row, row ∈ mb_control_outbound (cl_relay c') -> row ∈ mb_control_outbound (cl_relay c) \/
    row.1.1 = SERVER_MEMBER /\ saved_report c account receipt row.1.2.
Proof.
  unfold report_saved. destruct (cc_challenge (cl_accounts c)) as [context|] eqn:Ec; [|intros [= <- _]; auto].
  destruct account as [local|]; [|intros [= <- _]; auto]. destruct receipt as [receipt|]; [|intros [= <- _]; auto].
  destruct (la_snapshot local) as [save|] eqn:El; [|intros [= <- _]; auto].
  destruct (bool_decide (cc_offer (cl_accounts c) = Some save) && bool_decide (receipt = Some save) && _) eqn:Eo; [|intros [= <- _]; auto].
  apply andb_true_iff in Eo as [[Eo%bool_decide_eq_true Er%bool_decide_eq_true]%andb_true_iff _].
  destruct (encode_account _) as [bytes|] eqn:Eb; [|intros [= <- _]; auto].
  destruct (push_control_outbound _ _ _ _ _) as [m [|]] eqn:E; intros [= <- _]; (split; [done|]; split; [done|]; intros row Hr;
    destruct (push_rows _ _ _ _ _ row E Hr) as [|Erow]; [by left|right]; rewrite Erow; split; [done|]; exists context, local, save; split_and!; try done; congruence).
Qed.

(** C21. A client proves and saves its own account only: whatever messages arrived, after a poll the
    challenge it holds is of this match, of this member and of this connection; everything it put
    on the control lane is for the host, and is the profile that was waiting, a proof by the
    account's own key for such a challenge, or the report of a save that the file holds and the
    host offered; and the account's save changed only to an update the host sent under the
    challenge, for this account, that the store takes and that is no older than the last. *)
Theorem client_account_is_its_own now receipt (c c' : Client) account account' r :
  poll_accounts limits sha256 ed25519_public ed25519_sign now (Some identity) schemas receipt c account = (c', account', r) ->
  let stale := challenge_stale c identity in
  (forall context, challenge_of c' = Some context ->
     ac_match_key context = identity_match_key identity /\ ac_member context = si_member_id identity /\
     ac_connection context = default 0 (cl_connection c)) /\
  (forall row, row ∈ mb_control_outbound (cl_relay c') -> row ∈ mb_control_outbound (cl_relay c) \/
     row.1.1 = SERVER_MEMBER /\
     ((stale = false /\ cc_profile (cl_accounts c) = Some row.1.2) \/
      (exists local context, same_owner account (Some local) /\ addressed (cl_connection c) context /\
         AmChallenge context ∈ cc_messages (cl_accounts c) /\ own_profile local context row.1.2) \/
      saved_report c' account' receipt row.1.2)) /\
  (account' = account \/
   exists local context update, account = Some local /\ account' = Some (mkLocalAccount (la_id local) (la_key local) (Some update)) /\
     AmUpdate context update ∈ cc_messages (cl_accounts c) /\ addressed (cl_connection c) context /\ challenge_of c' = Some context /\
     own_update local update /\ cc_offer (cl_accounts c') = Some update /\
     forall old, stale = false -> cc_offer (cl_accounts c) = Some old -> as_revision old <= as_revision update).
Proof.
  intros Hpoll stale. unfold poll_accounts in Hpoll. fold stale in Hpoll.
  set (c0 := set_messages (if stale then _ else c) []) in Hpoll. set (M := cc_messages (cl_accounts c)) in *.
  assert (E0 : cl_relay c0 = cl_relay c /\ cl_connection c0 = cl_connection c /\
    (stale = false -> cc_profile (cl_accounts c0) = cc_profile (cl_accounts c) /\ cc_offer (cl_accounts c0) = cc_offer (cl_accounts c)) /\
    (stale = true -> cc_profile (cl_accounts c0) = None) /\
    forall context, challenge_of c0 = Some context -> ac_match_key context = identity_match_key identity /\ ac_member context = si_member_id identity /\
      ac_connection context = default 0 (cl_connection c)).
  { subst c0. unfold challenge_of. destruct stale eqn:Es; cbn; (split; [done|]; split; [done|]; split; [done|]; split; [done|]); [done|].
    intros context Hc. unfold stale, challenge_stale in Es. rewrite Hc in Es.
    apply orb_false_iff in Es as [[A%negb_false_iff%bool_decide_eq_true B%negb_false_iff%bool_decide_eq_true]%orb_false_iff D%negb_false_iff%Z.eqb_eq]. done. }
  destruct E0 as (R0 & N0 & F0 & G0 & H0). clearbody c0 stale.
  pose proof (poll_loop_polled M M c0 account ltac:(done)) as P. cbv zeta in P.
  destruct (poll_loop _ _ _ _ _ _ _ _) as [[c1 account1] a1]. cbn [fst snd] in P. destruct P as [PR PN _ PO PC PK PP PU]. rewrite R0, N0 in *.
  assert (Hchal : forall context, challenge_of c1 = Some context -> ac_match_key context = identity_match_key identity /\
    ac_member context = si_member_id identity /\ ac_connection context = default 0 (cl_connection c)).
  { intros context [Hc|[_ (A & B & D)]]%PC; [by apply H0|]. by rewrite D. }
  assert (Hprof : forall bytes, cc_profile (cl_accounts c1) = Some bytes -> (stale = false /\ cc_profile (cl_accounts c) = Some bytes) \/
    exists local context, same_owner account (Some local) /\ addressed (cl_connection c) context /\ AmChallenge context ∈ M /\ own_profile local context bytes).
  { intros bytes [Hb|(local & context & ? & ? & ? & _ & ?)]%PP; [left|right; exists local, context; done].
    destruct stale; [rewrite (G0 eq_refl) in Hb; done|]. by rewrite <- (proj1 (F0 eq_refl)). }
  assert (Hupd : forall c2 : Client, challenge_of c2 = challenge_of c1 -> cc_offer (cl_accounts c2) = cc_offer (cl_accounts c1) -> account1 = account \/
    exists local context update, account = Some local /\ account1 = Some (mkLocalAccount (la_id local) (la_key local) (Some update)) /\
     AmUpdate context update ∈ M /\ addressed (cl_connection c) context /\ challenge_of c2 = Some context /\
     own_update local update /\ cc_offer (cl_accounts c2) = Some update /\
     forall old, stale = false -> cc_offer (cl_accounts c) = Some old -> as_revision old <= as_revision update).
  { intros c2 -> ->. destruct PU as [[-> _]|(local & context & update & ? & ? & ? & ? & ? & ? & ? & Hrev)]; [by left|right].
    exists local, context, update. split_and!; try done. intros old Hs Hold. apply Hrev. by rewrite (proj2 (F0 Hs)). }
  destruct a1 as [u|e].
  2: { injection Hpoll as <- <- _. split; [done|]. split; [intros row; rewrite PR; by left|]. by apply Hupd. }
  destruct (send_profile limits now c1) as [c2 b] eqn:Esp. apply send_profile_rows in Esp as (S1 & S2 & S3 & S4). rewrite PR in S4.
  assert (Hrow2 : forall row, row ∈ mb_control_outbound (cl_relay c2) -> row ∈ mb_control_outbound (cl_relay c) \/ row.1.1 = SERVER_MEMBER /\
    ((stale = false /\ cc_profile (cl_accounts c) = Some row.1.2) \/ exists local context, same_owner account (Some local) /\
       addressed (cl_connection c) context /\ AmChallenge context ∈ M /\ own_profile local context row.1.2)).
  { intros row [|[Hm Hb]]%S4; [by left|right]. split; [done|]. by apply Hprof. }
  destruct b.
  - destruct (report_saved limits now c2 account1 receipt) as [c3 r3] eqn:Ers. apply report_saved_rows in Ers as (T1 & T2 & T3).
    injection Hpoll as <- <- _. split; [rewrite T1, S1; exact Hchal|]. split; [|apply Hupd; congruence].
    intros row [Hr|[Hm Hs]]%T3.
    + destruct (Hrow2 row Hr) as [|[? [?|?]]]; [by left|right..]; auto.
    + right. split; [done|]. right; right. unfold saved_report in *. by rewrite T1, T2.
  - injection Hpoll as <- <- _. split; [rewrite S1; exact Hchal|]. split; [|apply Hupd; congruence].
    intros row Hr. destruct (Hrow2 row Hr) as [|[? [?|?]]]; [by left|right..]; auto.
Qed.
End AccountSafety.
