(* ===== verification/SessionLink.v ===== *)
(** * A host and a client

    The snapshots of one session in one match: the host's side of it ([fanout_peer],
    [ingress_ack], [commit_admission]), the client's ([apply_server_packet], [drain_offer]) and a
    network between them that loses, repeats, delays and reorders as it likes.  [host_turn] says
    what a turn of the fanout that ends well is for the peer, [number_skipped] what one is whose frame
    is too large; [snap_step] is the step relation of the two and
    the network, and [snap_ok] its invariant. *)

From S2P Require Export SnapshotFanoutMain SessionClientMain.

#[local] Open Scope Z_scope.

(** ** What a turn of the fanout does *)

Section Turn.
Context {Frame Encoder : Type}.
Context (encoder_new : Encoder) (encoder_reset : Encoder -> Encoder) (adopt_baseline : Encoder -> Frame -> Encoder).
Context (limits : TransportBudget) (now : Z).
Context (heap : Z -> WireMeta).
Context (compress_against : list byte -> list byte -> option (list byte)) (zstd_compress : list byte -> option (list byte)).
Context (decompress_with : list byte -> list byte -> Z -> option (list byte)) (zstd_decompress : list byte -> Z -> option (list byte)).
Context `{!PrefixCodec compress_against decompress_with} `{!BulkCodec zstd_compress zstd_decompress}.
Context (tick : Z) (frame_for : Z -> Encoder -> option (Z * Z) -> Encoder * Frame * FrameParts).
Context (acks : list (Z * Z)) (reliable : option (Reliable.Hub WireRow)).

Abbreviation AuthorityHub := (@UdpAuthorityHub Frame Encoder).
Abbreviation PeerState := (@PeerReplicationState Frame Encoder).
Abbreviation Fanned := (@Fan Frame Encoder).

(** The encoder a frame is built with: fresh, or from the frame the peer acknowledged. *)
Definition encoder_of (t : @AckedBaselineTable Frame FrameParts) (encoder : Encoder) : Encoder :=
  if baseline_seq_for_encode t =? 0 then encoder_reset encoder
  else match baseline_for_encode t with Some frame => adopt_baseline encoder frame | None => encoder end.

(** A frame that is remembered under the next number. *)
Record frame_built (p p' : PeerState) (frame : Frame) (segs : list (list byte)) : Prop := {
  fb_frame : exists client encoder held encoder' parts,
    frame_for client (encoder_of (pr_baseline p) encoder) held = (encoder', frame, parts) /\ sendable heap parts segs /\
    pr_baseline p' = remember (pr_baseline p) (pr_next_snap_seq p) frame parts;
  fb_next : pr_next_snap_seq p' = wrapping_add32 (pr_next_snap_seq p) 1;
  fb_out : pr_out_seq p' = wrapping_add32 (pr_out_seq p) 1;
  fb_in : pr_in_ack p' = pr_in_ack p;
}.

(** The turn of a connection: the frame it is sent and the packet that carries it. *)
Inductive host_turn (h h' : AuthorityHub) (conn : Z) (p p' : PeerState)
    : option (Frame * list (list byte)) -> option ServerPacket -> Prop :=
| turn_quiet : same_frames p p' -> pr_admission p' = pr_admission p -> unsent h h' -> host_turn h h' conn p p' None None
| turn_kept_back frame segs :
    awaits_offer h p = false -> frame_built p p' frame segs ->
    baseline_seq_for_encode (pr_baseline p) = 0 -> is_committed p = false -> pr_admission p' = pr_admission p -> unsent h h' ->
    host_turn h h' conn p p' (Some (frame, segs)) None
| turn_sent frame segs target header payload packet :
    awaits_offer h p = false -> frame_built p p' frame segs ->
    ph_connection header = conn -> ph_epoch header = live_packet_epoch h ->
    encode_server_packet zstd_compress (Snapshot header (baseline_seq_for_encode (pr_baseline p)) (pr_next_snap_seq p) payload) = Some packet ->
    reconstructs heap decompress_with zstd_decompress p (baseline_seq_for_encode (pr_baseline p)) payload (concat segs) ->
    sent limits now tick h h' target conn (pr_next_snap_seq p) packet ->
    (if (baseline_seq_for_encode (pr_baseline p) =? 0) && negb (is_committed p)
     then exists offer, pr_admission p' = SessionHub.Pending offer /\ qd_snapshot_seq offer = pr_next_snap_seq p /\ qd_epoch offer = live_packet_epoch h
     else pr_admission p' = pr_admission p) ->
    host_turn h h' conn p p' (Some (frame, segs))
      (Some (Snapshot header (baseline_seq_for_encode (pr_baseline p)) (pr_next_snap_seq p) payload)).

Lemma deliver_admission (h : AuthorityHub) conn target b n packet p :
  is_relay h = true ->
  let out := deliver limits now tick h conn target b n packet p in
  (unsent h out.1 /\ b = 0 /\ is_committed p = false /\ pr_admission out.2 = pr_admission p) \/
  (sent limits now tick h out.1 target conn n packet /\
   if (b =? 0) && negb (is_committed p)
   then exists offer, pr_admission out.2 = SessionHub.Pending offer /\ qd_snapshot_seq offer = n /\ qd_epoch offer = live_packet_epoch h
   else pr_admission out.2 = pr_admission p).
Proof.
  intros Hrelay. cbv zeta. unfold deliver. unfold is_relay in Hrelay. destruct (hb_bootstrap h) as [lane|] eqn:El; [|done].
  destruct ((b =? 0) && negb (is_committed p)) eqn:Eb.
  2: { right. split; [|done]. apply (send_datagram_sent limits now tick h target packet p conn n). }
  apply andb_true_iff in Eb as [Hb%Z.eqb_eq Hc%negb_true_iff].
  unfold send_offer, next_id, from_snapshot in *. destruct (encode_bootstrap _) as [bytes|] eqn:Eo; cbn [mbind result_bind mret result_ret] in *.
  2: { left. split; [split; cbn; by rewrite ?El|done]. }
  match goal with |- context [enqueue limits now ?t lane target] => pose proof (enqueue_lane limits now t lane target) as (_ & _ & Hq) end.
  unfold enqueue in *. cbn [tx_epoch tx_offer_bytes] in *.
  destruct (negb _); [left; split; [split; cbn; by rewrite ?El|done]|].
  destruct (push_to_worker limits now lane (Some target) bytes) as [lane' [|]] eqn:Ep; cbn [fst snd] in *.
  - right. split.
    + right. exists lane, (default 1 (hb_next_bootstrap_id h !! conn)), bytes. split; [done|]. split; [done|]. cbn. by rewrite Ep.
    + destruct (Hq _ eq_refl) as (Q1 & _ & _ & Q4 & _). eexists. split; [done|]. split; [done|].
      unfold live_packet_epoch. by rewrite El.
  - left. split; [|done]. split; [done|]. cbn. rewrite El. cbn. f_equal.
    unfold push_to_worker in Ep. destruct (queue_refuses _ _ _); [|discriminate]. by injection Ep as <-.
Qed.

Lemma build_frame_encoder client p p1 frame parts :
  build_frame encoder_reset adopt_baseline tick frame_for client (baseline_seq_for_encode (pr_baseline p)) p = (p1, (frame, parts)) ->
  exists encoder', frame_for client (encoder_of (pr_baseline p) (pr_encoder p)) (pr_held_ack p) = (encoder', frame, parts).
Proof.
  unfold build_frame, encoder_of. destruct (baseline_seq_for_encode _ =? 0); [|destruct (baseline_for_encode _)];
    match goal with |- context [frame_for ?a ?b ?c] => destruct (frame_for a b c) as [[e' fr] pa] eqn:E end; intros [= _ <- <-]; by exists e'.
Qed.

Lemma build_frame_admission client b p :
  pr_admission (build_frame encoder_reset adopt_baseline tick frame_for client b p).1 = pr_admission p.
Proof.
  unfold build_frame. destruct (if b =? 0 then _ else _) as [encoder last_full]. by destruct (frame_for _ _ _) as [[e fr] pa].
Qed.

(** The part of the turn that sends. *)
Lemma send_snapshot_turn (f f' : Fanned) conn target client p :
  peer_sound heap p -> cache_sound heap compress_against (fn_cache f) -> is_relay (fn_hub f) = true -> awaits_offer (fn_hub f) p = false ->
  send_snapshot encoder_reset adopt_baseline limits now heap compress_against zstd_compress tick frame_for f conn target client
    (baseline_seq_for_encode (pr_baseline p)) p = (f', Ok ()) ->
  exists p' out packet, hb_replication (fn_hub f') !! conn = Some p' /\ host_turn (fn_hub f) (fn_hub f') conn p p' out packet.
Proof.
  intros Hp Hc Hrelay Hwait. unfold send_snapshot. set (b := baseline_seq_for_encode (pr_baseline p)).
  pose proof (build_frames encoder_reset adopt_baseline tick frame_for client b p) as Hb.
  pose proof (build_frame_admission client b p) as Hadm.
  destruct (build_frame _ _ _ _ _ _ _) as [p1 [frame parts]] eqn:Eb. cbn [fst] in Hb, Hadm.
  apply build_frame_encoder in Eb as [encoder' Eframe]. destruct Hb as [Eb1 Eb2 Eb3 Eb4].
  destruct (segments heap parts) as [segs|] eqn:Es; [|discriminate].
  destruct (Z.ltb_spec MAX_RECONSTRUCTED_FRAME_BYTES (zlen (concat segs))) as [|Hmax]; [discriminate|].
  assert (Hsend : sendable heap parts segs) by by split.
  destruct (snapshot_payload _ _ _ _ _ _ _) as [[payload cache]|] eqn:Epay; [|discriminate].
  assert (Hrec : reconstructs heap decompress_with zstd_decompress p b payload (concat segs)).
  { eapply (snapshot_payload_ok heap compress_against zstd_compress decompress_with zstd_decompress p parts segs (fn_cache f) payload cache); [done..|].
    revert Epay. unfold snapshot_payload. cbn [set_sequences pr_baseline]. by rewrite Eb1. }
  set (p2 := remember_frame _ _ _ _). destruct (encode_server_packet _ _) as [packet|] eqn:Epk; [|discriminate].
  pose proof (deliver_admission (fn_hub f) conn target b (pr_next_snap_seq p1) packet p2 Hrelay) as Hd.
  pose proof (deliver_sent limits now tick (fn_hub f) conn target b (pr_next_snap_seq p1) packet p2) as [[D1 D2 D3 D4] _].
  destruct (deliver _ _ _ _ _ _ _ _ _ _) as [h' p3]. cbn [fst snd] in *. intros [= <-].
  assert (Hbuilt : frame_built p p3 frame segs).
  { split; [|rewrite D2; cbn; by rewrite Eb2|rewrite D3; cbn; by rewrite Eb3|rewrite D4; exact Eb4]. exists client, (pr_encoder p), (pr_held_ack p), encoder', parts. split; [done|]. split; [done|].
    rewrite D1. cbn [p2 remember_frame set_sequences set_baseline pr_baseline]. by rewrite Eb1, Eb2. }
  assert (A2 : pr_admission p2 = pr_admission p) by exact Hadm.
  assert (C2 : is_committed p2 = is_committed p) by (unfold is_committed; by rewrite A2).
  cbn [fan_peer fn_hub set_replication hb_replication]. rewrite Eb2 in *. rewrite A2, C2 in Hd.
  destruct Hd as [(Hu & Hb0 & Hcm & Ha)|(Hs & Ha)].
  - exists p3, (Some (frame, segs)), None. rewrite lookup_insert_eq. split; [done|]. by eapply turn_kept_back.
  - exists p3, (Some (frame, segs)). eexists. rewrite lookup_insert_eq. split; [done|].
    eapply (turn_sent _ _ _ _ _ frame segs target _ payload packet); [done|done| | |exact Epk|exact Hrec|exact Hs|exact Ha]; done.
Qed.

Lemma sent_from (h h' : AuthorityHub) m target conn n packet :
  mb_outbound m = mb_outbound (hb_relay h) -> mb_cap m = mb_cap (hb_relay h) ->
  sent limits now tick (set_relay h m) h' target conn n packet -> sent limits now tick h h' target conn n packet.
Proof. intros E1 E2 [H|H]; [left|right; exact H]. rewrite H. by apply push_outbound_same. Qed.

(** The rows queued before it do not matter for the frames. *)
Lemma host_turn_from (h h' : AuthorityHub) m conn p p2 p' out packet :
  same_frames p p2 -> pr_admission p2 = pr_admission p -> mb_outbound m = mb_outbound (hb_relay h) -> mb_cap m = mb_cap (hb_relay h) ->
  host_turn (set_relay h m) h' conn p2 p' out packet -> host_turn h h' conn p p' out packet.
Proof.
  intros Hsame Ha Em Ec Hturn. pose proof Hsame as [E1 E2 E3 E4].
  assert (Ew : forall hub, awaits_offer hub p2 = awaits_offer hub p) by (intros; unfold awaits_offer; by rewrite Ha).
  assert (Ecm : is_committed p2 = is_committed p) by (unfold is_committed; by rewrite Ha).
  assert (Eb : forall frame segs, frame_built p2 p' frame segs -> frame_built p p' frame segs).
  { intros frame segs [H1 H2 H3 H4]. rewrite E1, E2 in H1. rewrite E2 in H2. rewrite E3 in H3. rewrite E4 in H4. by split. }
  assert (Eu : unsent (set_relay h m) h' -> unsent h h') by (intros [U1 U2]; split; [by rewrite U1|done]).
  destruct Hturn as [H1 H2 H3|frame segs H1 H2 H3 H4 H5 H6|frame segs target header payload pk H1 H2 H3 H4 H5 H6 H7 H8].
  - apply turn_quiet; [by etrans|congruence|auto].
  - rewrite Ew in H1. rewrite E1 in H3. rewrite Ecm in H4. eapply turn_kept_back; eauto. congruence.
  - rewrite Ew in H1. rewrite E1, ?E2 in *. rewrite Ecm, Ha in H8.
    eapply turn_sent; [exact H1|eauto|exact H3|exact H4|exact H5| | |exact H8].
    + unfold reconstructs in *. by rewrite E1 in H6.
    + by eapply sent_from.
Qed.

Lemma built_sound p p' frame segs : peer_sound heap p -> frame_built p p' frame segs -> peer_sound heap p'.
Proof.
  intros Hp [(client & e & held & e' & parts & _ & Hs & Hb) Hn Ho Hi].
  destruct (remember_sound heap p frame parts segs Hp Hs) as [R1 R2]. destruct Hp as [T N O I Fr].
  split; rewrite ?Hb, ?Hn, ?Ho, ?Hi; [done|apply wrap32_u32|apply wrap32_u32|done|done].
Qed.

Lemma host_turn_sound (h h' : AuthorityHub) conn p p' out packet :
  peer_sound heap p -> host_turn h h' conn p p' out packet -> peer_sound heap p'.
Proof. intros Hp []; [by eapply same_frames_sound|by eapply built_sound..]. Qed.

(** Every turn that ends well is one of these. *)
Lemma fanout_takes_turn (f f' : Fanned) conn p :
  hb_replication (fn_hub f) !! conn = Some p -> peer_sound heap p -> cache_sound heap compress_against (fn_cache f) ->
  is_relay (fn_hub f) = true ->
  fanout_peer encoder_new encoder_reset adopt_baseline limits now heap compress_against zstd_compress tick frame_for acks reliable f conn =
    (f', Ok ()) ->
  exists p' out packet, hb_replication (fn_hub f') !! conn = Some p' /\ host_turn (fn_hub f) (fn_hub f') conn p p' out packet.
Proof.
  intros Hp Hsound Hc Hrelay. unfold fanout_peer. destruct (fanout_target _ _) as [[target client]|].
  2: { intros [= <-]. exists p, None, None. split; [done|]. by apply turn_quiet. }
  rewrite Hp. cbn [default from_option id]. destruct (awaits_offer _ _) eqn:Ew.
  { intros [= <-]. exists p, None, None. cbn. rewrite lookup_insert_eq. split; [done|]. by apply turn_quiet. }
  destruct (queue_rows _ _ _ _ _ _ _ _ _) as [[[m p1] r]|] eqn:Eq; [|discriminate].
  pose proof (queue_frames _ _ _ _ _ _ _ _ _ _ _ _ Eq) as Hq. apply queue_rows_kept in Eq as ([_ K1 _] & _ & _ & Em & Ec).
  set (f1 := mkFan _ _ _).
  destruct (turn_frames heap tick acks (fn_hub f1) client p1) as [Ht Hturn]; [by eapply same_frames_sound|].
  pose proof (snapshot_turn_kept tick acks (fn_hub f1) client p1) as [_ K2 _].
  destruct (snapshot_turn _ _ _ _ _) as [p2 [b|]]; cbn [fst snd] in Ht, Hturn, K2.
  2: { intros [= <-]. exists p2, None, None. cbn. rewrite lookup_insert_eq. split; [done|]. apply turn_quiet; [by etrans|congruence|by split]. }
  rewrite (Hturn b eq_refl). destruct Ht as [T1 T2 T3 T4]. rewrite <- T1. intros Hsend.
  assert (Hsame : same_frames p p2) by (destruct Hq; split; congruence).
  assert (Ew2 : awaits_offer (fn_hub f1) p2 = false).
  { revert Ew. unfold awaits_offer. cbn. by rewrite K2, K1. }
  destruct (send_snapshot_turn f1 f' conn target client p2) as (p' & out & packet & Hp' & Hh); [by eapply same_frames_sound|done|done|done|done|].
  exists p', out, packet. split; [done|]. apply (host_turn_from _ _ m conn p p2); [done|congruence|done|done|exact Hh].
Qed.

(** A number given to no frame. *)
Record number_skipped (p p' : PeerState) : Prop := {
  ns_baseline : pr_baseline p' = pr_baseline p;
  ns_next : pr_next_snap_seq p' = wrapping_add32 (pr_next_snap_seq p) 1;
  ns_out : pr_out_seq p' = pr_out_seq p;
  ns_in : pr_in_ack p' = pr_in_ack p;
  ns_admission : pr_admission p' = pr_admission p;
}.

(** A turn that fails because the frame is too large for a packet only uses up a number. *)
Lemma oversized_skips (f f' : Fanned) conn p len max :
  hb_replication (fn_hub f) !! conn = Some p -> peer_sound heap p ->
  fanout_peer encoder_new encoder_reset adopt_baseline limits now heap compress_against zstd_compress tick frame_for acks reliable f conn =
    (f', Err (Oversized len max)) ->
  exists p', hb_replication (fn_hub f') !! conn = Some p' /\ number_skipped p p'.
Proof.
  intros Hp Hsound. unfold fanout_peer. destruct (fanout_target _ _) as [[target client]|]; [|discriminate].
  rewrite Hp. cbn [default from_option id]. destruct (awaits_offer _ _); [discriminate|].
  destruct (queue_rows _ _ _ _ _ _ _ _ _) as [[[m p1] r]|] eqn:Eq; [|discriminate].
  pose proof (queue_frames _ _ _ _ _ _ _ _ _ _ _ _ Eq) as Hq. apply queue_rows_kept in Eq as ([_ K1 _] & _).
  set (f1 := mkFan _ _ _).
  destruct (turn_frames heap tick acks (fn_hub f1) client p1) as [Ht _]; [by eapply same_frames_sound|].
  pose proof (snapshot_turn_kept tick acks (fn_hub f1) client p1) as [_ K2 _].
  destruct (snapshot_turn _ _ _ _ _) as [p2 [b|]]; cbn [fst snd] in Ht, K2; [|discriminate]. unfold send_snapshot.
  pose proof (build_frames encoder_reset adopt_baseline tick frame_for client b p2) as Hb.
  pose proof (build_frame_admission client b p2) as Hadm.
  destruct (build_frame _ _ _ _ _ _ _) as [p3 [frame parts]]. cbn [fst] in Hb, Hadm.
  assert (Hsame : same_frames p p3) by (etrans; [exact Hq|]; by etrans).
  destruct (segments heap parts) as [segs|]; [|discriminate].
  destruct (_ <? _).
  - intros [= <- _ _]. exists (set_sequences p3 (wrapping_add32 (pr_next_snap_seq p3) 1) (pr_out_seq p3)).
    split; [apply lookup_insert_eq|]. destruct Hsame as [S1 S2 S3 S4].
    split; cbn [set_sequences pr_baseline pr_next_snap_seq pr_out_seq pr_in_ack pr_admission]; congruence.
  - destruct (snapshot_payload _ _ _ _ _ _ _) as [[payload cache]|]; [|discriminate].
    destruct (encode_server_packet _ _); [|discriminate]. by destruct (deliver _ _ _ _ _ _ _ _ _ _).
Qed.
End Turn.

(** ** The host's table *)

Section TableOrder.
Context {Snapshot Parts : Type}.
Implicit Types (t : @AckedBaselineTable Snapshot Parts).

Lemma trim_loop_sub fuel : forall t s, s ∈ bt_keys (bl_sent (trim_loop fuel t)) -> s ∈ bt_keys (bl_sent t).
Proof.
  induction fuel as [|fuel IH]; intros t s; cbn [trim_loop]; [done|].
  destruct (_ <? _); [|done]. destruct (find _ _) as [v|]; [|done]. intros Hs%IH. by apply bt_keys_remove in Hs as [Hs _].
Qed.

(** Before the frame [trim] removes there are only pinned ones. *)
Lemma trim_before t A v s :
  bt_sorted (bl_sent t) -> bl_highest_acked t = Some A ->
  find (fun seq => negb (is_pinned t seq)) (bt_keys (bl_sent t)) = Some v -> s ∈ bt_keys (bl_sent t) -> s < v -> s = A.
Proof.
  intros Hs Ha (pre & post & Hk & Hpre & _)%find_split Hin Hlt. unfold bt_sorted in Hs. rewrite Hk in Hs, Hin.
  apply elem_of_app in Hin as [Hin|Hin].
  - rewrite list.Forall_forall in Hpre. specialize (Hpre s Hin). apply negb_false_iff, is_pinned_spec in Hpre.
    destruct Hpre as [Hp|[Hp|[Hp _]]]; [congruence| |congruence]. rewrite Hk, list.last_app in Hp. exfalso.
    destruct (list.last (v :: post)) as [z|] eqn:Ez; [|by apply list.last_None in Ez]. injection Hp as ->.
    apply list.last_Some_elem_of in Ez. pose proof (StronglySorted_app_1_elem_of _ _ _ s s Hs Hin Ez). lia.
  - apply StronglySorted_app_1_r in Hs. apply StronglySorted_inv in Hs as [_ Hall]. rewrite list.Forall_forall in Hall.
    apply elem_of_cons in Hin as [->|Hin]; [lia|]. specialize (Hall s Hin). lia.
Qed.

(** A frame that stays, but for the acknowledged one, keeps all later ones. *)
Lemma trim_upward fuel A : forall t s k,
  table_ok t -> bl_highest_acked t = Some A ->
  s ∈ bt_keys (bl_sent (trim_loop fuel t)) -> s <> A -> k ∈ bt_keys (bl_sent t) -> s < k -> k ∈ bt_keys (bl_sent (trim_loop fuel t)).
Proof.
  induction fuel as [|fuel IH]; intros t s k Ht Ha; cbn [trim_loop]; [done|].
  destruct (Z.ltb_spec (bl_max_retained t) (zlen (bl_sent t))) as [Hlen|]; [|done].
  destruct (find _ _) as [v|] eqn:Ef; [|done]. intros Hs Hne Hk Hlt.
  pose proof (remove_shrunk t v Ht Hlen Ef) as [Hok Hacked _ _ _ _].
  pose proof (trim_loop_sub _ _ _ Hs) as [Hs' Hsv]%bt_keys_remove.
  apply (IH _ s); [done|by rewrite Hacked|done|done| |done]. apply bt_keys_remove. split; [done|].
  intros ->. apply Hne. by apply (trim_before t A v s (to_sorted t Ht) Ha Ef Hs').
Qed.

(** What [remember] keeps, and that it keeps the new frame. *)
Lemma remember_upward t A n snap parts s k :
  table_ok t -> bl_highest_acked t = Some A -> s ∈ bt_keys (bl_sent (remember t n snap parts)) -> s <> A ->
  k = n \/ k ∈ bt_keys (bl_sent t) -> s < k -> k ∈ bt_keys (bl_sent (remember t n snap parts)).
Proof.
  intros Ht Ha Hs Hne Hk Hlt. pose proof (with_frame_ok t n snap parts Ht) as Hok.
  eapply (trim_upward _ A (with_frame t n snap parts)); [done|done|exact Hs|done| |done]. by apply bt_keys_insert.
Qed.

Lemma remember_newest t n snap parts :
  table_ok t -> (forall k, k ∈ bt_keys (bl_sent t) -> k < n) -> n ∈ bt_keys (bl_sent (remember t n snap parts)).
Proof.
  intros Ht Hmax. destruct (remember_ok t n snap parts Ht) as [[_ _ _ _ _ Hspared] _]. apply Hspared.
  split; [apply bt_keys_insert; by left|]. right. apply length_zero_iff_nil, filter_none. intros e He.
  cbn in He. apply elem_of_bt_insert in He as [->|He]; [cbn; lia|]. apply (list_elem_of_fmap_2 fst) in He. specialize (Hmax _ He). lia.
Qed.

(** The table after an acknowledgement that it takes. *)
Lemma table_ack_cases (snapshot_tick : Snapshot -> Z) t n :
  table_ok t ->
  (table_ack snapshot_tick t n).1 = t /\ n ∉ bt_keys (bl_sent t) \/
  n ∈ bt_keys (bl_sent t) /\ bl_highest_acked (table_ack snapshot_tick t n).1 = Some (acked_with t n) /\
  forall k, k ∈ bt_keys (bl_sent (table_ack snapshot_tick t n).1) <-> k ∈ bt_keys (bl_sent t) /\ acked_with t n <= k.
Proof.
  intros Ht. destruct (bt_get n (bl_sent t)) as [e|] eqn:He.
  - right. rewrite (table_ack_present _ _ _ _ He). cbn [fst bl_highest_acked bl_sent].
    apply bt_get_spec in He; [|apply Ht]. split; [by apply (list_elem_of_fmap_2 fst) in He|]. split; [done|].
    intros k. rewrite bt_keys_filter. split.
    + intros (v & Hk%Z.leb_le & Hv). apply (list_elem_of_fmap_2 fst) in Hv. done.
    + intros [([k' v] & -> & Hv)%list_elem_of_fmap Hk]. exists v. split; [by apply Z.leb_le|done].
  - left. split; [unfold table_ack; by rewrite He|]. intros Hin.
    destruct (bt_get_contains _ _ (to_sorted t Ht) Hin) as [v Hv]. congruence.
Qed.
End TableOrder.

(** ** The link *)

Section Link.
Context {Frame Encoder Snap GameFrame : Type}.
Context (frame_tick : Frame -> Z) (encoder_reset : Encoder -> Encoder) (adopt_baseline : Encoder -> Frame -> Encoder).
Context (heap : Z -> WireMeta).
Context (compress_against : list byte -> list byte -> option (list byte)) (zstd_compress : list byte -> option (list byte)).
Context (decompress_with : list byte -> list byte -> Z -> option (list byte)) (zstd_decompress : list byte -> Z -> option (list byte)).
Context (decode_frame : option Snap -> list byte -> Result WireError (GameFrame * list Z)).
Context (decode_snapshot : option Snap -> GameFrame -> Result WireError Snap).
(** The client's snapshot is what the host's frame shows. *)
Context (agrees : Frame -> Snap -> Prop).
(** The connection and the match. *)
Context (conn epoch : Z).

Abbreviation AuthorityHub := (@UdpAuthorityHub Frame Encoder).
Abbreviation PeerState := (@PeerReplicationState Frame Encoder).
Abbreviation Fanned := (@Fan Frame Encoder).
Abbreviation InWorld := (@IngressWorld Frame Encoder).
Abbreviation Client := (@UdpClientLink Snap).
Abbreviation Rx := (@Receiving Snap GameFrame).
Abbreviation FrameFor := (Z -> Encoder -> option (Z * Z) -> Encoder * Frame * FrameParts).

(** The client reads these bytes, with its snapshot of the baseline, as this frame and its segments. *)
Definition reads_as (base : option Snap) (segs : list (list byte)) (frame : Frame) : Prop :=
  exists game snap, decode_frame base (concat segs) = Ok (game, map zlen segs) /\ decode_snapshot base game = Ok snap /\ agrees frame snap.

(** The encoder of the frames and its decoder fit. *)
Record frame_codec (frame_for : FrameFor) : Prop := {
  fc_whole client encoder held encoder' frame parts segs :
    frame_for client (encoder_reset encoder) held = (encoder', frame, parts) -> sendable heap parts segs -> reads_as None segs frame;
  fc_against client encoder held encoder' frame parts segs base snap :
    agrees base snap -> frame_for client (adopt_baseline encoder base) held = (encoder', frame, parts) -> sendable heap parts segs ->
    reads_as (Some snap) segs frame;
}.

(** A snapshot on the wire. *)
Record Flying : Type := mkFlying { fl_header : PacketHeader; fl_baseline : Z; fl_seq : Z; fl_payload : SnapshotPayload }.

Definition flying_packet (w : Flying) : ServerPacket := Snapshot (fl_header w) (fl_baseline w) (fl_seq w) (fl_payload w).
Definition fly (packet : option ServerPacket) : list Flying :=
  match packet with Some (Snapshot header b n payload) => [mkFlying header b n payload] | _ => [] end.

(** The host's peer and the client; every snapshot that was sent, all those the client applied, the
    answers it ever held, and the frames the host built. *)
Record SnapLink : Type := mkSnapLink {
  lk_peer : PeerState;
  lk_client : Client;
  lk_wire : list Flying;
  lk_applied : list Z;
  lk_answers : list BootstrapMessage;
  lk_frames : gmap Z (Frame * list (list byte));
}.

Definition record_frame (n : Z) (out : option (Frame * list (list byte))) (frames : gmap Z (Frame * list (list byte)))
    : gmap Z (Frame * list (list byte)) := match out with Some frame => <[n := frame]> frames | None => frames end.

(** The client's part of the state after it received something. *)
Definition received (l : SnapLink) (r r' : Rx) : SnapLink :=
  mkSnapLink (lk_peer l) (rv_client r') (lk_wire l) (lk_applied l ++ drop (length (rv_acks r)) (rv_acks r'))
    (lk_answers l ++ co_pending_applied (cl_offers (rv_client r'))) (lk_frames l).

Definition with_peer (l : SnapLink) (p : PeerState) : SnapLink :=
  mkSnapLink p (lk_client l) (lk_wire l) (lk_applied l) (lk_answers l) (lk_frames l).

Inductive snap_step (l : SnapLink) : SnapLink -> Prop :=
(** The connection's turn in a fanout of the host. *)
| StepFanout encoder_new limits now tick (frame_for : FrameFor) acks reliable (f f' : Fanned) p' out packet :
    hb_replication (fn_hub f) !! conn = Some (lk_peer l) -> is_relay (fn_hub f) = true -> live_packet_epoch (fn_hub f) = epoch ->
    cache_sound heap compress_against (fn_cache f) -> frame_codec frame_for -> pr_next_snap_seq (lk_peer l) < u32_max ->
    fanout_peer encoder_new encoder_reset adopt_baseline limits now heap compress_against zstd_compress tick frame_for acks reliable f conn =
      (f', Ok ()) ->
    hb_replication (fn_hub f') !! conn = Some p' ->
    host_turn encoder_reset adopt_baseline limits now heap zstd_compress decompress_with zstd_decompress tick frame_for
      (fn_hub f) (fn_hub f') conn (lk_peer l) p' out packet ->
    snap_step l (mkSnapLink p' (lk_client l) (lk_wire l ++ fly packet) (lk_applied l) (lk_answers l)
                   (record_frame (pr_next_snap_seq (lk_peer l)) out (lk_frames l)))
(** Its turn fails, because the frame is too large for a packet. *)
| StepOversized encoder_new limits now tick (frame_for : FrameFor) acks reliable (f f' : Fanned) p' len max :
    hb_replication (fn_hub f) !! conn = Some (lk_peer l) -> pr_next_snap_seq (lk_peer l) < u32_max ->
    fanout_peer encoder_new encoder_reset adopt_baseline limits now heap compress_against zstd_compress tick frame_for acks reliable f conn =
      (f', Err (Oversized len max)) ->
    hb_replication (fn_hub f') !! conn = Some p' ->
    snap_step l (with_peer l p')
(** An acknowledgement of a snapshot the client applied reaches the host. *)
| StepAck (w : InWorld) from header n p' :
    hb_replication (iw_hub w) !! conn = Some (lk_peer l) -> n ∈ lk_applied l -> is_u32 (ph_sequence header) ->
    hb_replication (iw_hub (ingress_ack frame_tick w from header n)) !! conn = Some p' ->
    snap_step l (with_peer l p')
(** An answer of the client to an offer reaches the host. *)
| StepCommit (h : AuthorityHub) ack live tick_b p' :
    hb_replication h !! conn = Some (lk_peer l) -> bk_connection ack = conn ->
    BsApplied (bk_epoch ack) (bk_bootstrap_id ack) tick_b (bk_snapshot_seq ack) (bk_connection ack) ∈ lk_answers l ->
    hb_replication (commit_admission frame_tick h ack live) !! conn = Some p' ->
    snap_step l (with_peer l p')
(** Whatever else the host does. *)
| StepHost p' : same_frames (lk_peer l) p' -> pr_admission p' = pr_admission (lk_peer l) -> snap_step l (with_peer l p')
(** A snapshot reaches the client, as a datagram or in an offer. *)
| StepPacket w (r r' : Rx) a :
    w ∈ lk_wire l -> rv_client r = lk_client l ->
    apply_server_packet decompress_with zstd_decompress decode_frame decode_snapshot r (flying_packet w) = (r', a) ->
    snap_step l (received l r r')
| StepOffer w (r : Rx) live bytes epoch' bootstrap_id tick_b conn' packet :
    w ∈ lk_wire l -> rv_client r = lk_client l ->
    decode_bootstrap bytes = Ok (Some (Offer epoch' bootstrap_id tick_b (fl_seq w) conn' packet)) ->
    decode_server_packet zstd_decompress packet (cl_limits (lk_client l)) = Ok (flying_packet w) ->
    snap_step l (received l r (drain_offer decompress_with zstd_decompress decode_frame decode_snapshot live r bytes))
(** Whatever else the client does. *)
| StepClient c' :
    frames_kept (lk_client l) c' -> co_last_applied_offer (cl_offers c') = co_last_applied_offer (cl_offers (lk_client l)) ->
    (forall m, m ∈ co_pending_applied (cl_offers c') -> m ∈ co_pending_applied (cl_offers (lk_client l))) ->
    snap_step l (mkSnapLink (lk_peer l) c' (lk_wire l) (lk_applied l) (lk_answers l) (lk_frames l)).

(** A new peer and a client that has seen nothing of the match. *)
Definition snap_start (l : SnapLink) : Prop :=
  (exists encoder, lk_peer l = peer_new encoder) /\ cl_stream (lk_client l) = stream_new /\ cl_offers (lk_client l) = offers_new /\
  lk_wire l = [] /\ lk_applied l = [] /\ lk_answers l = [] /\ lk_frames l = ∅.

Definition snap_reachable (l : SnapLink) : Prop := exists start, snap_start start /\ rtc snap_step start l.

(** ** The invariant *)

Definition frame_at (frames : gmap Z (Frame * list (list byte))) (n : Z) (frame : Frame) (segs : list (list byte)) : Prop :=
  frames !! n = Some (frame, segs).

(** A snapshot that was sent is decoded with its baseline to its frame. *)
Record flying_ok (frames : gmap Z (Frame * list (list byte))) (w : Flying) : Prop := {
  fo_conn : ph_connection (fl_header w) = conn;
  fo_epoch : ph_epoch (fl_header w) = epoch;
  fo_order : fl_baseline w < fl_seq w;
  fo_frame : exists frame segs, frame_at frames (fl_seq w) frame segs /\
    ((fl_baseline w = 0 /\ payload_decode decompress_with zstd_decompress (fl_payload w) None = Some (concat segs) /\ reads_as None segs frame) \/
     (fl_baseline w <> 0 /\ exists base base_segs, frame_at frames (fl_baseline w) base base_segs /\
        payload_decode decompress_with zstd_decompress (fl_payload w) (Some (concat base_segs, map zlen base_segs)) = Some (concat segs) /\
        forall snap, agrees base snap -> reads_as (Some snap) segs frame));
}.

(** A frame the client keeps is the host's. *)
Definition kept_ok (frames : gmap Z (Frame * list (list byte))) (e : Z * (Snap * list byte * list Z)) : Prop :=
  exists frame segs, frame_at frames e.1 frame segs /\ e.2.1.2 = concat segs /\ e.2.2 = map zlen segs /\ agrees frame e.2.1.1.

Definition acked (p : PeerState) : option Z := bl_highest_acked (pr_baseline p).
Definition table_keys (p : PeerState) : list Z := bt_keys (bl_sent (pr_baseline p)).
Definition kept_keys (c : Client) : list Z := bt_keys (cs_baselines (cl_stream c)).

(** The snapshots after [A] that were sent before it was the baseline. *)
Definition early (A : Z) (w : Flying) : Prop := A < fl_seq w /\ fl_baseline w < A.
#[local] Instance early_dec A w : Decision (early A w).
Proof. unfold early. apply _. Defined.

(** Before the first acknowledgement there is at most one snapshot, the offer the host waits on. *)
Definition before_ack (p : PeerState) (wire : list Flying) : Prop :=
  (wire = [] /\ pr_admission p = Uncommitted) \/
  exists offer w, pr_admission p = SessionHub.Pending offer /\ qd_epoch offer = epoch /\ wire = [w] /\ fl_seq w ∈ table_keys p.

(** After it, the client has the acknowledged frame, and few frames were sent before the host knew. *)
Record after_ack (p : PeerState) (c : Client) (wire : list Flying) (A : Z) : Prop := {
  aa_client : A ∈ kept_keys c;
  aa_table s : s ∈ table_keys p -> A <= s;
  aa_later s w : s ∈ table_keys p -> s <> A -> w ∈ wire -> s < fl_seq w -> fl_seq w ∈ table_keys p;
  aa_early : (length (filter (early A) wire) <= 32)%nat;
}.

Record snap_ok (l : SnapLink) : Prop := {
  lo_sound : peer_sound heap (lk_peer l);
  lo_small : table_small (pr_baseline (lk_peer l));
  lo_max : bl_max_retained (pr_baseline (lk_peer l)) = 32;
  lo_next : 1 <= pr_next_snap_seq (lk_peer l);
  lo_frames k x : lk_frames l !! k = Some x -> 1 <= k < pr_next_snap_seq (lk_peer l);
  lo_table e : e ∈ bl_sent (pr_baseline (lk_peer l)) ->
    exists segs, frame_at (lk_frames l) e.1 (sf_snapshot e.2) segs /\ segments heap (sf_parts e.2) = Some segs;
  lo_wire w : w ∈ lk_wire l -> flying_ok (lk_frames l) w;
  lo_seqs : NoDup (map fl_seq (lk_wire l));
  lo_stream : stream_ok (cl_stream (lk_client l));
  lo_kept e : e ∈ cs_baselines (cl_stream (lk_client l)) -> kept_ok (lk_frames l) e;
  lo_origin k : k ∈ kept_keys (lk_client l) ->
    exists w, w ∈ lk_wire l /\ fl_seq w = k /\ fl_baseline w <= cs_required_baseline_seq (cl_stream (lk_client l));
  lo_required : cs_required_baseline_seq (cl_stream (lk_client l)) <= default 0 (acked (lk_peer l));
  lo_baselines w : w ∈ lk_wire l -> fl_baseline w <= default 0 (acked (lk_peer l));
  lo_applied k : k ∈ lk_applied l -> (exists w, w ∈ lk_wire l /\ fl_seq w = k) /\
    (k ∈ kept_keys (lk_client l) \/ (63 <= later k (cs_baselines (cl_stream (lk_client l))))%nat);
  lo_answers e id t n c : BsApplied e id t n c ∈ lk_answers l ++ co_pending_applied (cl_offers (lk_client l)) -> n ∈ lk_applied l;
  lo_offer id n : co_last_applied_offer (cl_offers (lk_client l)) = Some (id, n) -> n ∈ lk_applied l;
  lo_phase : match acked (lk_peer l) with
             | None => before_ack (lk_peer l) (lk_wire l)
             | Some A => after_ack (lk_peer l) (lk_client l) (lk_wire l) A
             end;
}.

(** ** The frames stay the host's *)

Lemma flying_ok_mono frames frames' w :
  (forall n frame segs, frame_at frames n frame segs -> frame_at frames' n frame segs) -> flying_ok frames w -> flying_ok frames' w.
Proof.
  intros Hm [H1 H2 H3 (frame & segs & Hf & H4)]. split; [done..|]. exists frame, segs. split; [by apply Hm|].
  destruct H4 as [H4|(Hb & base & bsegs & Hbase & H4)]; [by left|right]. split; [done|]. exists base, bsegs. split; [by apply Hm|done].
Qed.

Lemma kept_ok_mono frames frames' e :
  (forall n frame segs, frame_at frames n frame segs -> frame_at frames' n frame segs) -> kept_ok frames e -> kept_ok frames' e.
Proof. intros Hm (frame & segs & Hf & H). exists frame, segs. split; [by apply Hm|done]. Qed.

(** The client keeps its frame of [b] as the host built it, so it reads what was sent against it. *)
Lemma client_reads frames (c : Client) w base entry_raw game lens snap :
  (forall e, e ∈ cs_baselines (cl_stream c) -> kept_ok frames e) -> bt_sorted (cs_baselines (cl_stream c)) ->
  flying_ok frames w -> named_baseline c (fl_baseline w) base ->
  payload_decode decompress_with zstd_decompress (fl_payload w) ((fun e => (e.1.2, e.2)) <$> base) = Some entry_raw ->
  decode_frame ((fun e => e.1.1) <$> base) entry_raw = Ok (game, lens) -> decode_snapshot ((fun e => e.1.1) <$> base) game = Ok snap ->
  kept_ok frames (fl_seq w, (snap, entry_raw, lens)).
Proof.
  intros Hkept Hs [_ _ _ (frame & segs & Hf & Hw)] Hb Hraw Hgame Hsnap.
  exists frame, segs. split; [done|]. cbn [fst snd].
  destruct Hb as [[Hb ->]|(Hb & entry & -> & He)]; destruct Hw as [(Hb' & H1 & H2)|(Hb' & bf & bsegs & Hbf & H1 & H2)]; try congruence; cbn in *.
  - rewrite H1 in Hraw. injection Hraw as <-. destruct H2 as (g & s & D1 & D2 & Ha). rewrite D1 in Hgame. injection Hgame as <- <-.
    rewrite D2 in Hsnap. by injection Hsnap as <-.
  - apply bt_get_spec in He; [|done]. destruct (Hkept _ He) as (bf' & bsegs' & Hbf' & E1 & E2 & Ha). cbn in *.
    unfold frame_at in *. assert (bf' = bf /\ bsegs' = bsegs) as [-> ->] by (split; congruence).
    rewrite E1, E2, H1 in Hraw. injection Hraw as <-. destruct (H2 _ Ha) as (g & s & D1 & D2 & Ha'). rewrite D1 in Hgame. injection Hgame as <- <-.
    rewrite D2 in Hsnap. by injection Hsnap as <-.
Qed.

(** What receiving does to the frames: nothing, or one more frame. *)
Inductive client_move (l : SnapLink) (c' : Client) : list Z -> Prop :=
| move_none : frames_kept (lk_client l) c' -> client_move l c' []
| move_adopt w entry :
    w ∈ lk_wire l -> fl_seq w ∉ kept_keys (lk_client l) -> kept_ok (lk_frames l) (fl_seq w, entry) ->
    adopted (cl_stream (lk_client l)) (cl_stream c') (fl_baseline w) (fl_seq w) entry -> client_move l c' [fl_seq w].

Lemma apply_moves (l : SnapLink) (r r' : Rx) w a :
  snap_ok l -> w ∈ lk_wire l -> cl_stream (rv_client r) = cl_stream (lk_client l) ->
  apply_snapshot decompress_with zstd_decompress decode_frame decode_snapshot r (fl_header w) (fl_baseline w) (fl_seq w) (fl_payload w) = (r', a) ->
  client_move l (rv_client r') (drop (length (rv_acks r)) (rv_acks r')) /\ cl_offers (rv_client r') = cl_offers (rv_client r) /\
  (a = Ok true -> fl_seq w ∈ drop (length (rv_acks r)) (rv_acks r')).
Proof.
  intros Hl Hw Ec Ha. assert (a = Ok true \/ a <> Ok true) as [->|Hne] by (destruct a as [[]|]; [by left|by right..]).
  - apply apply_snapshot_iff in Ha. pose proof Ha as [_ Hf (base & raw & game & lens & snap & H1 & H2 & H3 & H4 & Er)].
    rewrite Er. unfold adopt_snapshot. cbn [rv_acks rv_client cl_offers cl_set_stream]. rewrite drop_app_length.
    split; [|split; [done|intros _; by left]].
    apply (move_adopt l _ w (snap, raw, lens)); [done|unfold kept_keys; by rewrite <- Ec| |].
    + apply (client_reads (lk_frames l) (rv_client r) w base raw game lens snap); rewrite ?Ec;
        [apply (lo_kept _ Hl)|apply (lo_stream _ Hl)|by apply (lo_wire _ Hl)|exact H1|exact H2|exact H3|exact H4].
    + rewrite <- Ec.
      apply (adopt_stream_ok (cl_stream (rv_client r)) (ph_sequence (fl_header w)) (fl_baseline w) (fl_seq w) (snap, raw, lens)); [rewrite Ec; apply Hl|done|].
      destruct H1 as [[-> _]|[_ (entry' & _ & He)]]; [by left|right].
      apply bt_get_spec in He; [|rewrite Ec; apply (lo_stream _ Hl)]. by apply (list_elem_of_fmap_2 fst) in He.
  - destruct (apply_snapshot_not decompress_with zstd_decompress decode_frame decode_snapshot r r' _ _ _ _ _ Ha Hne) as (Hk & _ & Hacks & Ho).
    rewrite Hacks, drop_all. split; [|split; [done|by intros ->]]. constructor. unfold frames_kept in *. by rewrite <- Ec.
Qed.

(** ** The client's steps *)

(** The frames a client keeps after [A] came from snapshots sent before [A] was the baseline, as
    long as it requires none from [A] on: there are few. *)
Lemma few_after_acked (l : SnapLink) (c' : Client) A :
  bt_sorted (cs_baselines (cl_stream c')) ->
  (forall k, k ∈ kept_keys c' -> exists w, w ∈ lk_wire l /\ fl_seq w = k /\ fl_baseline w < A) ->
  (length (filter (early A) (lk_wire l)) <= 32)%nat ->
  (later A (cs_baselines (cl_stream c')) <= 32)%nat.
Proof.
  intros Hs Horigin Hearly. etrans; [|exact Hearly]. rewrite later_keys, <- (length_map fl_seq (filter _ _)).
  apply nodup_count; [apply NoDup_filter; by apply bt_sorted_nodup|].
  intros k [Hk Hin]%list_elem_of_filter. destruct (Horigin k Hin) as (w & Hw & <- & Hb).
  apply list_elem_of_fmap. exists w. split; [done|]. apply list_elem_of_filter. by repeat split.
Qed.

Section ClientMove.
Context (l : SnapLink) (c' : Client) (w : Flying) (entry : Snap * list byte * list Z).
Context (Hl : snap_ok l) (Hw : w ∈ lk_wire l).
Context (Had : adopted (cl_stream (lk_client l)) (cl_stream c') (fl_baseline w) (fl_seq w) entry).

Lemma moved_keys k : k ∈ kept_keys c' -> k = fl_seq w \/ k ∈ kept_keys (lk_client l).
Proof.
  intros ([k' v] & -> & He)%list_elem_of_fmap. apply (ad_only _ _ _ _ _ Had) in He as [[= -> ->]|He]; [by left|right].
  by apply (list_elem_of_fmap_2 fst) in He.
Qed.

Lemma moved_required : cs_required_baseline_seq (cl_stream c') = Z.max (cs_required_baseline_seq (cl_stream (lk_client l))) (fl_baseline w).
Proof. apply Had. Qed.

Lemma moved_origin k : k ∈ kept_keys c' ->
  exists w', w' ∈ lk_wire l /\ fl_seq w' = k /\ fl_baseline w' <= cs_required_baseline_seq (cl_stream c').
Proof.
  rewrite moved_required. intros [->|Hk]%moved_keys; [exists w; split; [done|split; [done|lia]]|].
  destruct (lo_origin l Hl k Hk) as (w' & H1 & H2 & H3). exists w'. split; [done|split; [done|lia]].
Qed.

Lemma moved_bound : cs_required_baseline_seq (cl_stream c') <= default 0 (acked (lk_peer l)).
Proof. rewrite moved_required. pose proof (lo_required l Hl). pose proof (lo_baselines l Hl w Hw). lia. Qed.

Lemma moved_applied k : k = fl_seq w \/ k ∈ kept_keys (lk_client l) \/ (63 <= later k (cs_baselines (cl_stream (lk_client l))))%nat ->
  k ∈ kept_keys c' \/ (63 <= later k (cs_baselines (cl_stream c')))%nat.
Proof.
  intros Hk. destruct (decide (k ∈ kept_keys c')) as [|Hout]; [by left|right].
  assert (k = fl_seq w \/ k ∈ kept_keys (lk_client l) -> (63 <= later k (cs_baselines (cl_stream c')))%nat) as Hlost.
  { intros H. by apply (ad_lost _ _ _ _ _ Had k H Hout). }
  destruct (decide (k = fl_seq w)) as [|Hne]; [by apply Hlost; left|].
  destruct Hk as [Hk|[Hk|Hk]]; [done|by apply Hlost; right|]. by apply (ad_window _ _ _ _ _ Had).
Qed.

(** The frame the host encodes against is not dropped. *)
Lemma moved_keeps_acked A : acked (lk_peer l) = Some A -> after_ack (lk_peer l) (lk_client l) (lk_wire l) A -> A ∈ kept_keys c'.
Proof.
  intros Ha [Hin _ _ Hearly]. destruct (decide (A ∈ kept_keys c')) as [|Hout]; [done|exfalso].
  destruct (ad_lost _ _ _ _ _ Had A (or_intror Hin) Hout) as (Hreq & _ & Hmany).
  pose proof moved_bound as Hb. rewrite Ha in Hb. cbn [default from_option id] in Hb.
  enough (later A (cs_baselines (cl_stream c')) <= 32)%nat by lia.
  apply (few_after_acked l); [apply (so_sorted _ (ad_ok _ _ _ _ _ Had))| |done].
  intros k (w' & H1 & H2 & H3)%moved_origin. exists w'. split; [done|split; [done|lia]].
Qed.
End ClientMove.

Lemma client_moves_ok (l : SnapLink) (c' : Client) new answers :
  snap_ok l -> client_move l c' new ->
  (forall e id t n c, BsApplied e id t n c ∈ answers ++ co_pending_applied (cl_offers c') -> n ∈ lk_applied l ++ new) ->
  (forall id n, co_last_applied_offer (cl_offers c') = Some (id, n) -> n ∈ lk_applied l ++ new) ->
  snap_ok (mkSnapLink (lk_peer l) c' (lk_wire l) (lk_applied l ++ new) answers (lk_frames l)).
Proof.
  intros Hl Hmove Hans Hoffer. destruct Hmove as [Hk|w entry Hw Hfresh Hentry Had].
  - pose proof Hk as (E1 & E2 & E3). unfold kept_keys in *.
    split; cbn [lk_peer lk_client lk_wire lk_applied lk_answers lk_frames]; unfold kept_keys; rewrite ?E1, ?E3; try apply Hl; [|rewrite app_nil_r; apply Hl|done|done|].
    + eapply frames_kept_ok; [done|apply Hl].
    + pose proof (lo_phase l Hl) as Hp. destruct (acked (lk_peer l)) as [A|]; [|done]. destruct Hp as [P1 P2 P3 P4].
      split; [|done..]. unfold kept_keys in *. by rewrite E1.
  - split; cbn [lk_peer lk_client lk_wire lk_applied lk_answers lk_frames]; try apply Hl; [apply Had| | |by eapply moved_bound| |done|done|].
    + intros e He. apply (ad_only _ _ _ _ _ Had) in He as [->|He]; [done|]. by apply (lo_kept l Hl).
    + by apply (moved_origin l c' w entry).
    + intros k Hk. apply elem_of_app in Hk as [Hk|Hk%list_elem_of_singleton].
      * destruct (lo_applied l Hl k Hk) as [H1 H2]. split; [done|]. apply (moved_applied l c' w entry Had). by right.
      * split; [by exists w|]. apply (moved_applied l c' w entry Had). by left.
    + pose proof (lo_phase l Hl) as Hp. destruct (acked (lk_peer l)) as [A|] eqn:Ea; [|done]. pose proof Hp as [P1 P2 P3 P4].
      split; [|done..]. by apply (moved_keeps_acked l c' w entry Hl Hw Had).
Qed.

Lemma packet_step_ok (l : SnapLink) w (r r' : Rx) a :
  snap_ok l -> w ∈ lk_wire l -> rv_client r = lk_client l ->
  apply_server_packet decompress_with zstd_decompress decode_frame decode_snapshot r (flying_packet w) = (r', a) ->
  snap_ok (received l r r').
Proof.
  intros Hl Hw Hr Ha. cbn [flying_packet apply_server_packet] in Ha.
  destruct (apply_moves l r r' w a Hl Hw ltac:(by rewrite Hr) Ha) as (Hmove & Ho & _). rewrite Hr in Ho.
  apply client_moves_ok; [done|done| |].
  - intros e id t n c Hin. rewrite Ho in Hin. apply elem_of_app. left. apply (lo_answers l Hl e id t n c).
    rewrite !elem_of_app in *. tauto.
  - intros id n. rewrite Ho. intros H. apply elem_of_app. left. by eapply (lo_offer l Hl).
Qed.

(** An answer is given for a snapshot that was applied. *)
Lemma offer_step_ok (l : SnapLink) w (r : Rx) live bytes epoch' bootstrap_id tick_b conn' packet :
  snap_ok l -> w ∈ lk_wire l -> rv_client r = lk_client l ->
  decode_bootstrap bytes = Ok (Some (Offer epoch' bootstrap_id tick_b (fl_seq w) conn' packet)) ->
  decode_server_packet zstd_decompress packet (cl_limits (lk_client l)) = Ok (flying_packet w) ->
  snap_ok (received l r (drain_offer decompress_with zstd_decompress decode_frame decode_snapshot live r bytes)).
Proof.
  intros Hl Hw Hr Hb Hp. unfold drain_offer. rewrite Hb. destruct (negb _).
  { apply client_moves_ok; [done|rewrite drop_all; constructor; by rewrite Hr| |]; rewrite Hr.
    - intros e id t n c Hin. apply elem_of_app. left. apply (lo_answers l Hl e id t n c). rewrite !elem_of_app in *. tauto.
    - intros id n H. apply elem_of_app. left. by eapply (lo_offer l Hl). }
  set (r0 := match cl_connection (rv_client r) with Some _ => r | None => _ end).
  assert (R : cl_stream (rv_client r0) = cl_stream (lk_client l) /\ cl_offers (rv_client r0) = cl_offers (lk_client l) /\
              cl_limits (rv_client r0) = cl_limits (lk_client l) /\ rv_acks r0 = rv_acks r).
  { subst r0. destruct (cl_connection _); by rewrite <- ?Hr. }
  destruct R as (R1 & R2 & R3 & R4). clearbody r0. unfold apply_server_bytes. rewrite R3, Hp. cbn [flying_packet apply_server_packet].
  destruct (apply_snapshot _ _ _ _ _ _ _ _ _) as [r1 a] eqn:Ea. destruct (apply_moves l r0 r1 w a Hl Hw R1 Ea) as (Hmove & Ho & Hok).
  rewrite R4 in Hmove, Hok. rewrite R2 in Ho.
  set (new := drop (length (rv_acks r)) (rv_acks r1)) in *.
  assert (Hsame : snap_ok (received l r r1)).
  { apply client_moves_ok; [done|done| |]; rewrite Ho.
    - intros e id t n c Hin. apply elem_of_app. left. apply (lo_answers l Hl e id t n c). rewrite !elem_of_app in *. tauto.
    - intros id n H. apply elem_of_app. left. by eapply (lo_offer l Hl). }
  assert (Hpush : forall e id, fl_seq w ∈ lk_applied l ++ new ->
    snap_ok (received l r (rv_set r1 (push_applied (rv_client r1) (Some (bootstrap_id, fl_seq w)) (BsApplied e id tick_b (fl_seq w) conn'))))).
  { intros e id Hin. apply client_moves_ok; [done| | |].
    - cbn [rv_set rv_acks rv_client]. fold new. destruct Hmove as [Hk|w' entry Hw' Hf He Had]; [constructor; exact Hk|by eapply move_adopt].
    - cbn [rv_set rv_acks rv_client push_applied cl_offers cl_set_offers co_pending_applied]. rewrite Ho. fold new.
      intros e' id' t n c Hin'. rewrite !elem_of_app, !list_elem_of_singleton in Hin'. destruct Hin' as [[Hin'|[Hin'|Hin']]|[Hin'|Hin']].
      1,2,4: apply elem_of_app; left; apply (lo_answers l Hl e' id' t n c); rewrite elem_of_app; tauto.
      all: injection Hin' as -> -> -> -> ->; done.
    - cbn. by intros id' n [= <- <-]. }
  destruct a as [[]|]; [|case_bool_decide as Eo|done].
  - apply Hpush. apply elem_of_app. right. by apply Hok.
  - apply Hpush. apply elem_of_app. left. rewrite Ho in Eo. by eapply (lo_offer l Hl).
  - done.
Qed.

Lemma client_step_ok (l : SnapLink) c' :
  snap_ok l -> frames_kept (lk_client l) c' -> co_last_applied_offer (cl_offers c') = co_last_applied_offer (cl_offers (lk_client l)) ->
  (forall m, m ∈ co_pending_applied (cl_offers c') -> m ∈ co_pending_applied (cl_offers (lk_client l))) ->
  snap_ok (mkSnapLink (lk_peer l) c' (lk_wire l) (lk_applied l) (lk_answers l) (lk_frames l)).
Proof.
  intros Hl Hk Ho Hp. rewrite <- (app_nil_r (lk_applied l)). apply client_moves_ok; [done|by constructor| |]; rewrite app_nil_r.
  - intros e id t n c Hin. apply (lo_answers l Hl e id t n c). rewrite elem_of_app in *. destruct Hin as [|Hin%Hp]; tauto.
  - intros id n. rewrite Ho. apply (lo_offer l Hl).
Qed.

(** ** The host's steps *)

(** The peer after an acknowledgement. *)
Record acknowledges (p p' : PeerState) (n : Z) : Prop := {
  ak_baseline : pr_baseline p' = (table_ack frame_tick (pr_baseline p) n).1;
  ak_next : pr_next_snap_seq p' = pr_next_snap_seq p;
  ak_out : pr_out_seq p' = pr_out_seq p;
  ak_in : is_u32 (pr_in_ack p');
}.

Lemma table_keys_length (p : PeerState) : table_small (pr_baseline p) -> bl_max_retained (pr_baseline p) = 32 -> (length (table_keys p) <= 32)%nat.
Proof. unfold table_small, table_keys, bt_keys, zlen. rewrite length_map. intros H1 H2. lia. Qed.

(** Of the frames after one in the table there are few on the wire. *)
Lemma few_later (p : PeerState) (wire : list Flying) n (P : Flying -> Prop) `{!forall w, Decision (P w)} :
  table_small (pr_baseline p) -> bl_max_retained (pr_baseline p) = 32 -> NoDup (map fl_seq wire) ->
  (forall w, w ∈ wire -> n < fl_seq w -> fl_seq w ∈ table_keys p) -> (forall w, P w -> n < fl_seq w) ->
  (length (filter P wire) <= 32)%nat.
Proof.
  intros Hsm Hm Hnd Hlater HP. etrans; [|by apply (table_keys_length p)]. rewrite <- (length_map fl_seq). apply nodup_count.
  - apply (sublist_NoDup _ (map fl_seq wire)); [done|]. apply (fmap_sublist fl_seq), sublist_filter.
  - intros k (w & -> & [Hw Hin]%list_elem_of_filter)%list_elem_of_fmap. apply Hlater; [done|auto].
Qed.

(** The client still has a frame the host's table has, with all that follow it. *)
Lemma applied_is_kept (l : SnapLink) n :
  snap_ok l -> n ∈ lk_applied l ->
  (forall w, w ∈ lk_wire l -> n < fl_seq w -> fl_seq w ∈ table_keys (lk_peer l)) -> n ∈ kept_keys (lk_client l).
Proof.
  intros Hl Hn Hlater. destruct (lo_applied l Hl n Hn) as [_ [|Hmany]]; [done|exfalso].
  enough (later n (cs_baselines (cl_stream (lk_client l))) <= length (table_keys (lk_peer l)))%nat as Hle.
  { pose proof (table_keys_length (lk_peer l) (lo_small l Hl) (lo_max l Hl)). lia. }
  rewrite later_keys. apply nodup_count; [apply NoDup_filter, bt_sorted_nodup, (lo_stream l Hl)|].
  intros k [Hk Hin]%list_elem_of_filter. destruct (lo_origin l Hl k Hin) as (w & Hw & <- & _). by apply Hlater.
Qed.

(** What the acknowledgement of an applied snapshot makes the baseline. *)
Lemma acked_phase (l : SnapLink) n :
  snap_ok l -> n ∈ lk_applied l -> n ∈ table_keys (lk_peer l) ->
  let A := acked_with (pr_baseline (lk_peer l)) n in
  A ∈ kept_keys (lk_client l) /\
  (forall w, w ∈ lk_wire l -> fl_baseline w <= A) /\ cs_required_baseline_seq (cl_stream (lk_client l)) <= A /\
  (length (filter (early A) (lk_wire l)) <= 32)%nat /\
  (forall s w, s ∈ table_keys (lk_peer l) -> A < s -> w ∈ lk_wire l -> s < fl_seq w -> fl_seq w ∈ table_keys (lk_peer l)).
Proof.
  intros Hl Hn Ht. pose proof (lo_phase l Hl) as Hp. pose proof (lo_required l Hl) as Hr. pose proof (lo_baselines l Hl) as Hb.
  unfold acked, acked_with in *. destruct (bl_highest_acked (pr_baseline (lk_peer l))) as [A0|] eqn:Ea; cbn [default from_option id] in *.
  - destruct Hp as [P1 P2 P3 P4]. destruct (Z.max_spec A0 n) as [[Hlt ->]|[Hle ->]]; cbv zeta.
    + assert (Hlater : forall w, w ∈ lk_wire l -> n < fl_seq w -> fl_seq w ∈ table_keys (lk_peer l)).
      { intros w Hw Hnw. apply (P3 n); [done|lia|done|done]. }
      split; [by apply applied_is_kept|]. split; [intros w Hw; specialize (Hb w Hw); lia|]. split; [lia|]. split.
      * apply (few_later (lk_peer l) _ n); [apply Hl|apply Hl|apply Hl|done|]. by intros w [H _].
      * intros s w Hs Hns Hw Hsw. apply (P3 s); [done|lia|done|done].
    + split; [done|]. split; [done|]. split; [done|]. split; [done|]. intros s w Hs Hns Hw Hsw. apply (P3 s); [done|lia|done|done].
  - cbv zeta. assert (exists w0, lk_wire l = [w0] /\ fl_seq w0 = n) as (w0 & Ew & En).
    { destruct (proj1 (lo_applied l Hl n Hn)) as (w0 & Hw0 & <-). destruct Hp as [[Hp _]|(offer & w1 & _ & _ & Hp & _)]; rewrite Hp in *.
      - by apply elem_of_nil in Hw0.
      - apply list_elem_of_singleton in Hw0 as ->. by exists w1. }
    assert (Hnone : forall w, w ∈ lk_wire l -> ~ n < fl_seq w).
    { rewrite Ew. intros w ->%list_elem_of_singleton. lia. }
    assert (1 <= n) by (destruct (fo_frame _ _ (lo_wire l Hl w0 ltac:(rewrite Ew; by left))) as (fr & sg & Hf & _); apply (lo_frames l Hl) in Hf; lia).
    split; [apply applied_is_kept; [done|done|]; intros w Hw Hlt; by destruct (Hnone w Hw)|].
    split; [intros w Hw; specialize (Hb w Hw); lia|]. split; [lia|]. split.
    + rewrite filter_none; [cbn; lia|]. intros w Hw [H1 _]. by destruct (Hnone w Hw).
    + intros s w Hs Hns Hw Hsw. destruct (Hnone w Hw). lia.
Qed.

Lemma ack_step_link_ok (l : SnapLink) p' n :
  snap_ok l -> n ∈ lk_applied l -> acknowledges (lk_peer l) p' n ->
  (acked (lk_peer l) = None -> pr_admission p' = pr_admission (lk_peer l) \/ n ∈ table_keys (lk_peer l)) -> snap_ok (with_peer l p').
Proof.
  intros Hl Hn [Eb En Eo Hi] Hadm. pose proof (ps_table _ _ (lo_sound l Hl)) as Ht.
  pose proof (ack_step_ok frame_tick _ n Ht (lo_small l Hl)) as (Hok & Hsm & Hm & Hsub). rewrite <- Eb in Hok, Hsm, Hm, Hsub.
  assert (Hsound : peer_sound heap p').
  { destruct (lo_sound l Hl) as [_ N O I Fr]. split; rewrite ?En, ?Eo; try done. intros e He. by apply Fr, Hsub. }
  assert (Hrest : (forall w, w ∈ lk_wire l -> fl_baseline w <= default 0 (acked p')) ->
    cs_required_baseline_seq (cl_stream (lk_client l)) <= default 0 (acked p') ->
    match acked p' with None => before_ack p' (lk_wire l) | Some A => after_ack p' (lk_client l) (lk_wire l) A end -> snap_ok (with_peer l p')).
  { intros H1 H2 H3. split; cbn [with_peer lk_peer lk_client lk_wire lk_applied lk_answers lk_frames]; rewrite ?En, ?Hm; try apply Hl; try done.
    intros e He. apply (lo_table l Hl). by apply Hsub. }
  destruct (table_ack_cases frame_tick _ n Ht) as [[Esame Hout]|(Hin & Ea & Hkeys)].
  - rewrite Esame in Eb. unfold acked in *. rewrite Eb in *. apply Hrest; [apply Hl|apply Hl|]. pose proof (lo_phase l Hl) as Hp. unfold acked in Hp.
    destruct (bl_highest_acked (pr_baseline (lk_peer l))) as [A|]; [destruct Hp; split; unfold table_keys in *; by rewrite ?Eb|].
    destruct (Hadm eq_refl) as [Hadm'|Hin]; [|by destruct Hout]. unfold before_ack, table_keys in *. by rewrite Eb, Hadm'.
  - rewrite <- Eb in Ea, Hkeys. destruct (acked_phase l n Hl Hn Hin) as (A1 & A2 & A3 & A4 & A5).
    assert (Eacked : acked p' = Some (acked_with (pr_baseline (lk_peer l)) n)) by exact Ea.
    apply Hrest; rewrite Eacked; [exact A2|exact A3|]. split; [exact A1| | |exact A4].
    + intros s Hs. by apply Hkeys in Hs as [_ Hs].
    + intros s w [Hs Has]%Hkeys Hne Hw Hsw. apply Hkeys. split; [|lia]. apply (A5 s w); [done|lia|done|done].
Qed.

(** [ingress_ack] leaves a peer alone, or acknowledges. *)
Lemma ingress_ack_peer (w : InWorld) from header n p p' :
  is_u32 (ph_sequence header) -> hb_replication (iw_hub w) !! conn = Some p ->
  hb_replication (iw_hub (ingress_ack frame_tick w from header n)) !! conn = Some p' ->
  p' = p \/ acknowledges p p' n /\ pr_admission p' = pr_admission p.
Proof.
  intros Hu Hp. unfold ingress_ack. destruct (negb _); [left; congruence|]. destruct (negb _); [left; congruence|].
  destruct (hb_replication (iw_hub w) !! ph_connection header) as [q|] eqn:Eq; [|left; congruence]. cbn.
  destruct (decide (ph_connection header = conn)) as [<-|Hne].
  - rewrite lookup_insert_eq. intros [= <-]. right. rewrite Hp in Eq. injection Eq as <-. done.
  - rewrite lookup_insert_ne by done. left. congruence.
Qed.

Lemma commit_peer (h : AuthorityHub) ack live p p' :
  is_u32 (pr_in_ack p) -> hb_replication h !! conn = Some p -> bk_connection ack = conn ->
  hb_replication (commit_admission frame_tick h ack live) !! conn = Some p' ->
  p' = p \/ acknowledges p p' (bk_snapshot_seq ack).
Proof.
  intros Hu Hp Hc. unfold commit_admission. destruct (negb _); [left; congruence|]. destruct (negb _); [left; congruence|].
  rewrite Hc, Hp. destruct (applied_action _ _ _ _ _); cbn; [|left; congruence..].
  rewrite lookup_insert_eq. intros [= <-]. by right.
Qed.

(** *** A turn *)

Lemma quiet_ok (l : SnapLink) p' :
  snap_ok l -> same_frames (lk_peer l) p' -> pr_admission p' = pr_admission (lk_peer l) -> snap_ok (with_peer l p').
Proof.
  intros Hl Hsame Ha. pose proof Hsame as [E1 E2 E3 E4].
  split; cbn [with_peer lk_peer lk_client lk_wire lk_applied lk_answers lk_frames]; unfold acked; rewrite ?E1, ?E2; try apply Hl.
  - eapply same_frames_sound; [done|apply Hl].
  - pose proof (lo_phase l Hl) as Hp. unfold acked in Hp. destruct (bl_highest_acked _) as [A|].
    + destruct Hp. split; unfold table_keys in *; by rewrite ?E1.
    + unfold before_ack, table_keys in *. by rewrite E1, Ha.
Qed.

(** A turn that sends nothing but uses up a number. *)
Lemma skipped_ok (l : SnapLink) p' :
  snap_ok l -> pr_next_snap_seq (lk_peer l) < u32_max -> number_skipped (lk_peer l) p' -> snap_ok (with_peer l p').
Proof.
  intros Hl Hroom [E1 E2 E3 E4 E5].
  assert (En : pr_next_snap_seq p' = pr_next_snap_seq (lk_peer l) + 1).
  { rewrite E2. pose proof (lo_next l Hl). unfold wrapping_add32, wrap32, u32_max in *. rewrite Z.mod_small; lia. }
  split; cbn [with_peer lk_peer lk_client lk_wire lk_applied lk_answers lk_frames]; unfold acked; rewrite ?E1; try apply Hl.
  - destruct (lo_sound l Hl) as [T N O I Fr]. split; rewrite ?E1, ?E3, ?E4; [done| |done..]. rewrite E2. apply wrap32_u32.
  - pose proof (lo_next l Hl). lia.
  - intros k x Hk. apply (lo_frames l Hl) in Hk. lia.
  - pose proof (lo_phase l Hl) as Hp. unfold acked in Hp. destruct (bl_highest_acked _) as [A|].
    + destruct Hp. split; unfold table_keys in *; by rewrite ?E1.
    + unfold before_ack, table_keys in *. by rewrite E1, E5.
Qed.

(** The host encodes against the frame that is acknowledged. *)
Lemma baseline_is_acked (p : PeerState) : table_ok (pr_baseline p) -> baseline_seq_for_encode (pr_baseline p) = default 0 (acked p).
Proof.
  intros [_ _ Ha]. unfold baseline_seq_for_encode, acked. destruct (bl_highest_acked (pr_baseline p)) as [A|]; [|done].
  cbn. by rewrite (proj2 (bt_contains_spec A _) (Ha A eq_refl)).
Qed.

Lemma table_in_frames (l : SnapLink) k : snap_ok l -> k ∈ table_keys (lk_peer l) -> 1 <= k < pr_next_snap_seq (lk_peer l).
Proof.
  intros Hl (e & -> & He)%list_elem_of_fmap. destruct (lo_table l Hl e He) as (segs & Hf & _). by apply (lo_frames l Hl) in Hf.
Qed.

Lemma wire_in_frames (l : SnapLink) w : snap_ok l -> w ∈ lk_wire l -> 1 <= fl_seq w < pr_next_snap_seq (lk_peer l).
Proof.
  intros Hl Hw. destruct (fo_frame _ _ (lo_wire l Hl w Hw)) as (frame & segs & Hf & _). by apply (lo_frames l Hl) in Hf.
Qed.

Lemma acked_in_frames (l : SnapLink) A : snap_ok l -> acked (lk_peer l) = Some A -> 1 <= A < pr_next_snap_seq (lk_peer l).
Proof. intros Hl Ha. apply table_in_frames; [done|]. by apply (to_acked _ (ps_table _ _ (lo_sound l Hl))). Qed.

(** A peer that waits on no offer before the first acknowledgement was sent nothing. *)
Lemma nothing_sent (l : SnapLink) (h : AuthorityHub) :
  snap_ok l -> is_relay h = true -> live_packet_epoch h = epoch -> awaits_offer h (lk_peer l) = false -> acked (lk_peer l) = None ->
  lk_wire l = [] /\ pr_admission (lk_peer l) = Uncommitted.
Proof.
  intros Hl Hr He Hw Ha. pose proof (lo_phase l Hl) as Hp. rewrite Ha in Hp. destruct Hp as [Hp|(offer & w & Hadm & Hq & _)]; [done|].
  unfold awaits_offer, is_relay, live_packet_epoch in *. destruct (hb_bootstrap h) as [lane|]; [|done].
  rewrite Hadm in Hw. apply Z.eqb_neq in Hw. congruence.
Qed.

Section Built.
Context (l : SnapLink) (p' : PeerState) (frame : Frame) (segs : list (list byte)).
Context (client : Z) (encoder encoder' : Encoder) (held : option (Z * Z)) (parts : FrameParts) (frame_for : FrameFor).
Context (Hl : snap_ok l) (Hroom : pr_next_snap_seq (lk_peer l) < u32_max) (Hcodec : frame_codec frame_for).
Context (Hframe : frame_for client (encoder_of encoder_reset adopt_baseline (pr_baseline (lk_peer l)) encoder) held = (encoder', frame, parts)).
Context (Hsend : sendable heap parts segs).
Context (Hbase : pr_baseline p' = remember (pr_baseline (lk_peer l)) (pr_next_snap_seq (lk_peer l)) frame parts).
Context (Hnext : pr_next_snap_seq p' = wrapping_add32 (pr_next_snap_seq (lk_peer l)) 1).
Context (Hsound : peer_sound heap p').
Let n := pr_next_snap_seq (lk_peer l).
Let frames' := record_frame n (Some (frame, segs)) (lk_frames l).
Let Ht : table_ok (pr_baseline (lk_peer l)) := ps_table _ _ (lo_sound l Hl).

Lemma built_next : pr_next_snap_seq p' = n + 1.
Proof. rewrite Hnext. unfold wrapping_add32, wrap32. pose proof (lo_next l Hl). unfold u32_max in *. rewrite Z.mod_small; [done|lia]. Qed.

Lemma built_new : frame_at frames' n frame segs.
Proof. unfold frame_at, frames'. cbn [record_frame]. apply lookup_insert_eq. Qed.

Lemma built_mono k fr sg : frame_at (lk_frames l) k fr sg -> frame_at frames' k fr sg.
Proof.
  unfold frame_at, frames'. cbn [record_frame]. intros Hk. rewrite lookup_insert_ne; [done|].
  apply (lo_frames l Hl) in Hk. fold n in Hk. lia.
Qed.

Lemma built_acked : acked p' = acked (lk_peer l).
Proof. unfold acked. rewrite Hbase. fold n. by destruct (remember_ok _ n frame parts Ht) as [[_ -> _ _ _ _] _]. Qed.

Lemma built_table e : e ∈ bl_sent (pr_baseline p') -> e = (n, mkSent frame parts) \/ e ∈ bl_sent (pr_baseline (lk_peer l)).
Proof.
  rewrite Hbase. fold n. destruct (remember_ok _ n frame parts Ht) as [[_ _ _ Hsub _ _] _]. intros He%Hsub. by apply elem_of_bt_insert in He.
Qed.

Lemma built_keys k : k ∈ table_keys p' -> k = n \/ k ∈ table_keys (lk_peer l).
Proof.
  intros ([k' v] & -> & [[= -> ->]|He]%built_table)%list_elem_of_fmap; [by left|right]. by apply (list_elem_of_fmap_2 fst) in He.
Qed.

(** The snapshot that carries the frame is read by a client with the baseline. *)
Lemma built_flies header payload :
  ph_connection header = conn -> ph_epoch header = epoch ->
  reconstructs heap decompress_with zstd_decompress (lk_peer l) (baseline_seq_for_encode (pr_baseline (lk_peer l))) payload (concat segs) ->
  flying_ok frames' (mkFlying header (default 0 (acked (lk_peer l))) n payload).
Proof.
  intros Hc He Hrec. revert Hrec Hframe. unfold encoder_of. rewrite (baseline_is_acked _ Ht). intros Hrec Hff.
  pose proof (lo_next l Hl) as Hn. fold n in Hn.
  split; cbn [fl_header fl_baseline fl_seq fl_payload]; [done|done| |].
  - destruct (acked (lk_peer l)) as [A|] eqn:Ea; cbn [default from_option id]; [|lia]. apply (acked_in_frames l A Hl) in Ea. fold n in Ea. lia.
  - exists frame, segs. split; [apply built_new|]. destruct Hsend as [Hs _].
    destruct Hrec as [(Hb & _ & Hd)|(_ & old & olds & Hold & Holds & Hd)].
    + left. split; [done|]. split; [done|]. rewrite Hb in Hff. cbn in Hff. by eapply (fc_whole _ Hcodec).
    + right. destruct (bt_get_spec (bl_sent (pr_baseline (lk_peer l))) (default 0 (acked (lk_peer l))) old (to_sorted _ Ht)) as [Hin _].
      specialize (Hin Hold). pose proof (list_elem_of_fmap_2 fst _ _ Hin) as Hk. cbn [fst] in Hk.
      assert (1 <= default 0 (acked (lk_peer l))) as Hpos by (apply (table_in_frames l _ Hl) in Hk; lia).
      destruct (Z.eqb_spec (default 0 (acked (lk_peer l))) 0) as [|Hne]; [lia|]. split; [done|].
      destruct (lo_table l Hl _ Hin) as (bsegs & Hfb & Hsb). cbn [fst snd] in Hfb, Hsb. assert (bsegs = olds) as -> by congruence.
      exists (sf_snapshot old), olds. split; [by apply built_mono|]. split; [done|]. intros snap Hagree.
      unfold acked, baseline_for_encode in *. destruct (bl_highest_acked (pr_baseline (lk_peer l))) as [A|]; [|done]. cbn [default from_option id] in *.
      rewrite Hold in Hff. cbn in Hff. by eapply (fc_against _ Hcodec).
Qed.

Lemma built_ok new :
  (forall w, w ∈ new -> flying_ok frames' w /\ fl_seq w = n /\ fl_baseline w = default 0 (acked (lk_peer l))) -> (length new <= 1)%nat ->
  match acked (lk_peer l) with
  | None => before_ack p' (lk_wire l ++ new)
  | Some A => after_ack p' (lk_client l) (lk_wire l ++ new) A
  end ->
  snap_ok (mkSnapLink p' (lk_client l) (lk_wire l ++ new) (lk_applied l) (lk_answers l) frames').
Proof.
  intros Hnew Hlen Hphase. destruct (remember_ok (pr_baseline (lk_peer l)) n frame parts Ht) as [[_ _ Hm _ _ _] Hsm]. fold n in Hbase. rewrite <- Hbase in Hsm, Hm.
  split; cbn [lk_peer lk_client lk_wire lk_applied lk_answers lk_frames]; rewrite ?built_acked, ?built_next; try apply Hl; try done.
  - rewrite Hm. cbn. apply Hl.
  - pose proof (lo_next l Hl). fold n in H. lia.
  - intros k x. unfold frames'. cbn [record_frame]. pose proof (lo_next l Hl) as Hn. fold n in Hn. destruct (decide (k = n)) as [->|Hne]; [lia|].
    rewrite lookup_insert_ne by done. intros Hk%(lo_frames l Hl). fold n in Hk. lia.
  - intros e [->|He]%built_table; cbn [fst snd sf_snapshot sf_parts].
    + exists segs. split; [apply built_new|by destruct Hsend].
    + destruct (lo_table l Hl e He) as (sg & Hf & Hs). exists sg. split; [by apply built_mono|done].
  - intros w [Hw|Hw]%elem_of_app; [|by apply Hnew]. eapply flying_ok_mono; [apply built_mono|by apply (lo_wire l Hl)].
  - rewrite map_app. apply NoDup_app. split; [apply Hl|]. split.
    + intros k (w & -> & Hw)%list_elem_of_fmap (w' & Ew & Hw')%list_elem_of_fmap. apply (wire_in_frames l w Hl) in Hw.
      destruct (Hnew w' Hw') as (_ & E & _). fold n in Hw. lia.
    + destruct new as [|w1 [|w2 new]]; cbn [map length] in *; [constructor|apply NoDup_singleton|lia].
  - intros e He. eapply kept_ok_mono; [apply built_mono|by apply (lo_kept l Hl)].
  - intros k Hk. destruct (lo_origin l Hl k Hk) as (w & Hw & H). exists w. split; [|done]. apply elem_of_app. by left.
  - intros w [Hw|Hw]%elem_of_app; [by apply (lo_baselines l Hl)|]. destruct (Hnew w Hw) as (_ & _ & ->). lia.
  - intros k Hk. destruct (lo_applied l Hl k Hk) as [(w & Hw & E) H]. split; [|done]. exists w. split; [|done]. apply elem_of_app. by left.
Qed.

(** After the first acknowledgement, one more frame against the same baseline. *)
Lemma built_after A new :
  acked (lk_peer l) = Some A -> after_ack (lk_peer l) (lk_client l) (lk_wire l) A ->
  (forall w, w ∈ new -> fl_seq w = n /\ fl_baseline w = A) -> after_ack p' (lk_client l) (lk_wire l ++ new) A.
Proof.
  intros Ha [P1 P2 P3 P4] Hnew. pose proof (acked_in_frames l A Hl Ha) as HA. fold n in HA. split; [done| | |].
  - intros s [->|Hs]%built_keys; [lia|by apply P2].
  - intros s w Hs Hne Hw Hlt. unfold table_keys in Hs |- *. rewrite Hbase in Hs |- *.
    apply (remember_upward _ A _ _ _ s); [done|done|done|done| |done]. fold n.
    apply elem_of_app in Hw as [Hw|Hw]; [right|left; by apply Hnew].
    assert (s ∈ table_keys p') as Hs' by (unfold table_keys; by rewrite Hbase). apply built_keys in Hs' as [->|Hs'].
    + apply (wire_in_frames l w Hl) in Hw. fold n in Hw. lia.
    + by apply (P3 s w).
  - rewrite list.filter_app, length_app, (filter_none _ new); [cbn; lia|]. intros w Hw [_ He]. destruct (Hnew w Hw) as [_ E]. lia.
Qed.

Lemma built_newest : n ∈ table_keys p'.
Proof.
  unfold table_keys. rewrite Hbase. apply remember_newest; [done|]. intros k Hk. apply (table_in_frames l k Hl) in Hk. fold n in Hk. fold n. lia.
Qed.
End Built.

Lemma host_turn_ok limits now tick (frame_for : FrameFor) (h h' : AuthorityHub) (l : SnapLink) p' out packet :
  snap_ok l -> is_relay h = true -> live_packet_epoch h = epoch -> frame_codec frame_for -> pr_next_snap_seq (lk_peer l) < u32_max ->
  host_turn encoder_reset adopt_baseline limits now heap zstd_compress decompress_with zstd_decompress tick frame_for h h' conn (lk_peer l) p' out packet ->
  snap_ok (mkSnapLink p' (lk_client l) (lk_wire l ++ fly packet) (lk_applied l) (lk_answers l)
             (record_frame (pr_next_snap_seq (lk_peer l)) out (lk_frames l))).
Proof.
  intros Hl Hr He Hcodec Hroom Hturn. pose proof (host_turn_sound _ _ _ _ _ _ _ _ _ _ _ _ _ _ _ _ _ (lo_sound l Hl) Hturn) as Hsound.
  pose proof (baseline_is_acked _ (ps_table _ _ (lo_sound l Hl))) as Eb.
  destruct Hturn as [H1 H2 _|frame segs Hwait [(client & enc & held & enc' & parts & F1 & F2 & F3) Hn _ _] Hb Hc Ha _
                    |frame segs target header payload pk Hwait [(client & enc & held & enc' & parts & F1 & F2 & F3) Hn _ _] H1 H2 _ Hrec _ Hadm].
  - cbn [fly record_frame]. rewrite app_nil_r. by apply (quiet_ok l p').
  - cbn [fly]. rewrite Eb in Hb. assert (Ea : acked (lk_peer l) = None).
    { destruct (acked (lk_peer l)) as [A|] eqn:Ea; [|done]. apply (acked_in_frames l A Hl) in Ea. cbn in Hb. lia. }
    destruct (nothing_sent l h Hl Hr He Hwait Ea) as [Ew Eu].
    eapply (built_ok l p' frame segs parts); try done; [by intros w Hw%elem_of_nil|cbn; lia|].
    rewrite Ea, Ew. left. split; [done|congruence].
  - rewrite Eb in *. cbn [fly].
    assert (Hnew : forall w, w ∈ [mkFlying header (default 0 (acked (lk_peer l))) (pr_next_snap_seq (lk_peer l)) payload] ->
      flying_ok (record_frame (pr_next_snap_seq (lk_peer l)) (Some (frame, segs)) (lk_frames l)) w /\
      fl_seq w = pr_next_snap_seq (lk_peer l) /\ fl_baseline w = default 0 (acked (lk_peer l))).
    { intros w ->%list_elem_of_singleton. split; [|done]. rewrite <- Eb in Hrec.
      eapply (built_flies l frame segs client enc enc' held parts frame_for); try done. congruence. }
    eapply (built_ok l p' frame segs parts); try done.
    destruct (acked (lk_peer l)) as [A|] eqn:Ea; cbn [default from_option id] in *.
    + pose proof (lo_phase l Hl) as Hp. rewrite Ea in Hp. eapply (built_after l p' frame parts); try done.
      intros w Hw. by destruct (Hnew w Hw) as (_ & ? & ?).
    + destruct (nothing_sent l h Hl Hr He Hwait Ea) as [Ew Eu]. rewrite Ew. cbn [app].
      assert (is_committed (lk_peer l) = false) as Ec by (unfold is_committed; by rewrite Eu). rewrite Ec in Hadm. cbn in Hadm.
      destruct Hadm as (offer & O1 & O2 & O3). right. exists offer. eexists. split; [done|]. split; [congruence|]. split; [done|].
      cbn [fl_seq]. by eapply (built_newest l p' frame parts).
Qed.
End Link.
