(* ===== verification/SessionLinkMain.v ===== *)
(** * A host and a client: properties

    Whatever the network does, the client holds the frame the host encodes against, and reads what
    the host sends as the frame the host built. *)

From S2P Require Export SessionDemo SessionClientAccount SessionLink.

#[local] Open Scope Z_scope.

Section Agreement.
Context {Frame Encoder Snap GameFrame : Type}.
Context (frame_tick : Frame -> Z) (encoder_reset : Encoder -> Encoder) (adopt_baseline : Encoder -> Frame -> Encoder).
Context (heap : Z -> WireMeta).
Context (compress_against : list byte -> list byte -> option (list byte)) (zstd_compress : list byte -> option (list byte)).
Context (decompress_with : list byte -> list byte -> Z -> option (list byte)) (zstd_decompress : list byte -> Z -> option (list byte)).
Context (decode_frame : option Snap -> list byte -> Result WireError (GameFrame * list Z)).
Context (decode_snapshot : option Snap -> GameFrame -> Result WireError Snap).
Context (agrees : Frame -> Snap -> Prop).
Context (conn epoch : Z).

Abbreviation Lnk := (@SnapLink Frame Encoder Snap).
Abbreviation ok := (snap_ok heap decompress_with zstd_decompress decode_frame decode_snapshot agrees conn epoch).
Abbreviation step := (snap_step frame_tick encoder_reset adopt_baseline heap compress_against zstd_compress decompress_with zstd_decompress
                        decode_frame decode_snapshot agrees conn epoch).
Abbreviation reachable := (snap_reachable frame_tick encoder_reset adopt_baseline heap compress_against zstd_compress decompress_with
                             zstd_decompress decode_frame decode_snapshot agrees conn epoch).

(** ** The invariant holds *)

Lemma snap_start_ok (l : Lnk) : snap_start l -> ok l.
Proof.
  intros ([encoder Hp] & Hs & Ho & Hw & Ha & Hans & Hf).
  assert (Hkeys : kept_keys (lk_client l) = []) by (unfold kept_keys; by rewrite Hs).
  assert (Hacked : acked (lk_peer l) = None) by by rewrite Hp.
  split; rewrite ?Hkeys, ?Hs, ?Ho, ?Hw, ?Ha, ?Hans, ?Hf, ?Hacked.
  - rewrite Hp. split; [split; [constructor|vm_compute; discriminate|done]|split; vm_compute; discriminate..|by intros e He%elem_of_nil].
  - rewrite Hp. vm_compute. discriminate.
  - by rewrite Hp.
  - by rewrite Hp.
  - by intros k x; rewrite lookup_empty.
  - rewrite Hp. by intros e He%elem_of_nil.
  - by intros w H%elem_of_nil.
  - constructor.
  - split; cbn; [constructor|lia|done|by left].
  - by intros e He%elem_of_nil.
  - by intros k Hk%elem_of_nil.
  - done.
  - by intros w H%elem_of_nil.
  - by intros k Hk%elem_of_nil.
  - by intros e id t n c H%elem_of_nil.
  - done.
  - left. by rewrite Hp.
Qed.

Lemma snap_step_ok (l l' : Lnk) : ok l -> step l l' -> ok l'.
Proof.
  intros Hl Hstep. destruct Hstep as
    [encoder_new limits now tick frame_for acks reliable f f' p' out packet Hp Hr He Hc Hcodec Hroom Hfan Hp' Hturn
    |encoder_new limits now tick frame_for acks reliable f f' p' len max Hp Hroom Hfan Hp'
    |w from header n p' Hp Hn Hu Hp'|h ack live tick_b p' Hp Hc Hans Hp'|p' Hsame Hadm|w r r' a Hw Hr Ha
    |w r live bytes epoch' id tick_b conn' packet Hw Hr Hb Hp|c' Hk Ho Hpend].
  - by eapply host_turn_ok.
  - destruct (oversized_skips encoder_new encoder_reset adopt_baseline limits now heap compress_against zstd_compress tick frame_for acks
      reliable f f' conn _ len max Hp (lo_sound _ _ _ _ _ _ _ _ l Hl) Hfan) as (p1 & Hp1 & Hskip).
    rewrite Hp' in Hp1. injection Hp1 as <-. by apply skipped_ok.
  - destruct (ingress_ack_peer frame_tick conn w from header n _ _ Hu Hp Hp') as [->|[Hack Hadm]]; [by destruct l|].
    apply (ack_step_link_ok frame_tick heap decompress_with zstd_decompress decode_frame decode_snapshot agrees conn epoch l p' n); [done..|].
    intros _. by left.
  - destruct (commit_peer frame_tick conn h ack live _ _ (ps_in _ _ (lo_sound _ _ _ _ _ _ _ _ l Hl)) Hp Hc Hp') as [->|Hack]; [by destruct l|].
    assert (Hn : bk_snapshot_seq ack ∈ lk_applied l).
    { eapply (lo_answers _ _ _ _ _ _ _ _ l Hl). apply elem_of_app. left. exact Hans. }
    apply (ack_step_link_ok frame_tick heap decompress_with zstd_decompress decode_frame decode_snapshot agrees conn epoch l p' (bk_snapshot_seq ack)); [done..|].
    intros Ea. right. pose proof (lo_phase _ _ _ _ _ _ _ _ l Hl) as Hphase. rewrite Ea in Hphase.
    destruct (proj1 (lo_applied _ _ _ _ _ _ _ _ l Hl _ Hn)) as (w & Hw & <-).
    destruct Hphase as [[E _]|(offer & w' & _ & _ & E & Ht)]; rewrite E in Hw; [by apply elem_of_nil in Hw|].
    by apply list_elem_of_singleton in Hw as ->.
  - by apply quiet_ok.
  - by eapply packet_step_ok.
  - by eapply offer_step_ok.
  - by apply client_step_ok.
Qed.

Lemma snap_reachable_ok (l : Lnk) : reachable l -> ok l.
Proof.
  intros (start & Hs & Hsteps). apply snap_start_ok in Hs. induction Hsteps; [done|]. eauto using snap_step_ok.
Qed.

(** ** The host's fanout is a step *)

(** What a turn of the fanout makes of the link. *)
Lemma fanout_steps `{!PrefixCodec compress_against decompress_with} `{!BulkCodec zstd_compress zstd_decompress}
    (l : Lnk) encoder_new limits now tick frame_for acks reliable (f f' : @Fan Frame Encoder) :
  ok l -> hb_replication (fn_hub f) !! conn = Some (lk_peer l) -> is_relay (fn_hub f) = true -> live_packet_epoch (fn_hub f) = epoch ->
  cache_sound heap compress_against (fn_cache f) ->
  frame_codec encoder_reset adopt_baseline heap decode_frame decode_snapshot agrees frame_for ->
  pr_next_snap_seq (lk_peer l) < u32_max ->
  fanout_peer encoder_new encoder_reset adopt_baseline limits now heap compress_against zstd_compress tick frame_for acks reliable f conn = (f', Ok ()) ->
  exists p' out packet, hb_replication (fn_hub f') !! conn = Some p' /\
    host_turn encoder_reset adopt_baseline limits now heap zstd_compress decompress_with zstd_decompress tick frame_for
      (fn_hub f) (fn_hub f') conn (lk_peer l) p' out packet /\
    step l (mkSnapLink p' (lk_client l) (lk_wire l ++ fly packet) (lk_applied l) (lk_answers l)
              (record_frame (pr_next_snap_seq (lk_peer l)) out (lk_frames l))).
Proof.
  intros Hl Hp Hr He Hc Hcodec Hroom Hfan.
  destruct (fanout_takes_turn encoder_new encoder_reset adopt_baseline limits now heap compress_against zstd_compress decompress_with zstd_decompress
              tick frame_for acks reliable f f' conn (lk_peer l) Hp (lo_sound _ _ _ _ _ _ _ _ l Hl) Hc Hr Hfan) as (p' & out & packet & Hp' & Hturn).
  exists p', out, packet. split; [done|]. split; [done|]. by eapply StepFanout.
Qed.

(** ** What the client makes of it *)

Lemma flying_applies (l : Lnk) w (r : @Receiving Snap GameFrame) :
  ok l -> w ∈ lk_wire l -> rv_client r = lk_client l -> in_session (lk_client l) (fl_header w) ->
  fl_seq w ∉ kept_keys (lk_client l) -> fl_baseline w = 0 \/ Some (fl_baseline w) = acked (lk_peer l) ->
  exists r' frame segs snap game,
    apply_server_packet decompress_with zstd_decompress decode_frame decode_snapshot r (flying_packet w) = (r', Ok true) /\
    rv_ticks r' = rv_ticks r ++ [(snap, game)] /\ rv_acks r' = rv_acks r ++ [fl_seq w] /\
    lk_frames l !! fl_seq w = Some (frame, segs) /\ agrees frame snap.
Proof.
  intros Hl Hw Hr Hsess Hfresh Hb. destruct (lo_wire _ _ _ _ _ _ _ _ l Hl w Hw) as [_ _ _ (frame & segs & Hf & Hread)].
  assert (exists base snap game, named_baseline (lk_client l) (fl_baseline w) base /\
    payload_decode decompress_with zstd_decompress (fl_payload w) ((fun e => (e.1.2, e.2)) <$> base) = Some (concat segs) /\
    decode_frame ((fun e => e.1.1) <$> base) (concat segs) = Ok (game, map zlen segs) /\
    decode_snapshot ((fun e => e.1.1) <$> base) game = Ok snap /\ agrees frame snap) as (base & snap & game & H1 & H2 & H3 & H4 & H5).
  { destruct Hread as [(Hz & Hd & game & snap & D1 & D2 & Ha)|(Hz & bf & bsegs & Hbf & Hd & Hread)].
    - exists None, snap, game. split; [by left|done].
    - destruct Hb as [|Hb]; [done|]. pose proof (lo_phase _ _ _ _ _ _ _ _ l Hl) as Hp. rewrite <- Hb in Hp. destruct Hp as [Hin _ _ _].
      destruct (bt_get_contains _ _ (so_sorted _ (lo_stream _ _ _ _ _ _ _ _ l Hl)) Hin) as [entry He].
      pose proof He as He'. apply bt_get_spec in He'; [|apply (lo_stream _ _ _ _ _ _ _ _ l Hl)].
      destruct (lo_kept _ _ _ _ _ _ _ _ l Hl _ He') as (bf' & bsegs' & Hbf' & E1 & E2 & Ha). cbn [fst snd] in *.
      unfold frame_at in *. rewrite Hbf in Hbf'. injection Hbf' as <- <-.
      destruct (Hread _ Ha) as (game & snap & D1 & D2 & Ha'). exists (Some entry), snap, game.
      split; [right; split; [done|by exists entry]|]. cbn. rewrite E1, E2. done. }
  eexists (adopt_snapshot r (ph_sequence (fl_header w)) (fl_baseline w) (fl_seq w) (concat segs) (map zlen segs) snap game), frame, segs, snap, game.
  split; [|done]. cbn [apply_server_packet flying_packet]. apply apply_snapshot_iff. rewrite <- Hr in *. split; [done|done|].
  by exists base, (concat segs), game, (map zlen segs), snap.
Qed.

(** C13. Host and client agree on the frames, whatever the network loses, repeats, delays or
    reorders and however late the acknowledgements are: in every reachable state each frame the
    client keeps is one the host built, with the same bytes, segments and content, and the client
    still has the one frame the host encodes against, as the host's table has it. *)
Theorem client_has_the_baseline (l : Lnk) :
  reachable l ->
  (forall n snap raw lens, (n, (snap, raw, lens)) ∈ cs_baselines (cl_stream (lk_client l)) ->
     exists frame segs, lk_frames l !! n = Some (frame, segs) /\ raw = concat segs /\ lens = map zlen segs /\ agrees frame snap) /\
  (baseline_seq_for_encode (pr_baseline (lk_peer l)) <> 0 ->
     exists sent snap segs,
       bt_get (baseline_seq_for_encode (pr_baseline (lk_peer l))) (bl_sent (pr_baseline (lk_peer l))) = Some sent /\
       segments heap (sf_parts sent) = Some segs /\ agrees (sf_snapshot sent) snap /\
       bt_get (baseline_seq_for_encode (pr_baseline (lk_peer l))) (cs_baselines (cl_stream (lk_client l))) =
         Some (snap, concat segs, map zlen segs)).
Proof.
  intros Hl%snap_reachable_ok. split.
  - intros n snap raw lens He. destruct (lo_kept _ _ _ _ _ _ _ _ l Hl _ He) as (frame & segs & H). by exists frame, segs.
  - pose proof (ps_table _ _ (lo_sound _ _ _ _ _ _ _ _ l Hl)) as Ht. rewrite (baseline_is_acked _ Ht).
    destruct (acked (lk_peer l)) as [A|] eqn:Ea; [|done]. cbn [default from_option id]. intros _.
    pose proof (lo_phase _ _ _ _ _ _ _ _ l Hl) as Hp. rewrite Ea in Hp. destruct Hp as [Hin _ _ _].
    destruct (bt_get_contains _ _ (to_sorted _ Ht) (to_acked _ Ht A Ea)) as [sent Hsent].
    pose proof Hsent as Hs'. apply bt_get_spec in Hs'; [|apply Ht].
    destruct (lo_table _ _ _ _ _ _ _ _ l Hl _ Hs') as (segs & Hf & Hsegs).
    destruct (bt_get_contains _ _ (so_sorted _ (lo_stream _ _ _ _ _ _ _ _ l Hl)) Hin) as [[[snap raw] lens] He].
    pose proof He as He'. apply bt_get_spec in He'; [|apply (lo_stream _ _ _ _ _ _ _ _ l Hl)].
    destruct (lo_kept _ _ _ _ _ _ _ _ l Hl _ He') as (frame & segs' & Hf' & E1 & E2 & Ha). cbn [fst snd] in *.
    unfold frame_at in *. rewrite Hf in Hf'. injection Hf' as <- <-. exists sent, snap, segs. by rewrite E1, E2 in He.
Qed.

(** C14. What the host sends now can be read now: in every reachable state, a snapshot on its way
    that is whole or against the frame the host encodes against is applied by a client of the
    session that does not have it yet: it yields one tick, whose snapshot agrees with the frame
    the host built under that number, and is acknowledged. *)
Theorem current_snapshot_is_applied (l : Lnk) w (r : @Receiving Snap GameFrame) :
  reachable l -> w ∈ lk_wire l -> rv_client r = lk_client l ->
  cl_failed (lk_client l) = None -> cl_connection (lk_client l) = Some conn -> match_epoch (lk_client l) = epoch ->
  fl_seq w ∉ bt_keys (cs_baselines (cl_stream (lk_client l))) ->
  fl_baseline w = 0 \/ fl_baseline w = baseline_seq_for_encode (pr_baseline (lk_peer l)) ->
  exists r' frame segs snap game,
    apply_server_packet decompress_with zstd_decompress decode_frame decode_snapshot r (flying_packet w) = (r', Ok true) /\
    rv_ticks r' = rv_ticks r ++ [(snap, game)] /\ rv_acks r' = rv_acks r ++ [fl_seq w] /\
    lk_frames l !! fl_seq w = Some (frame, segs) /\ agrees frame snap.
Proof.
  intros Hl%snap_reachable_ok Hw Hr Hfail Hc He Hfresh Hb.
  pose proof (lo_wire _ _ _ _ _ _ _ _ l Hl w Hw) as [F1 F2 _ _].
  apply flying_applies; [done|done|done|split; [done|split; congruence]|done|].
  rewrite (baseline_is_acked _ (ps_table _ _ (lo_sound _ _ _ _ _ _ _ _ l Hl))) in Hb.
  destruct (acked (lk_peer l)) as [A|]; cbn in Hb; [|left; lia]. destruct Hb as [Hb|Hb]; [by left|right]. by rewrite Hb.
Qed.

(** C15. The host does nothing that this leaves out: from a reachable state, a fanout turn that ends
    well, of a hub that plays over the relay in the match of the link, is a step of the link, in
    which what is on its way to the client is the packet the host put in the mailbox or on the
    bootstrap lane, encoded.  Assumed: the delta cache holds true entries, the encoder of frames and
    the client's decoder fit ([frame_codec]), and snapshot numbers are left. *)
Theorem fanout_refines_link `{!PrefixCodec compress_against decompress_with} `{!BulkCodec zstd_compress zstd_decompress}
    (l : Lnk) encoder_new limits now tick frame_for acks reliable (f f' : @Fan Frame Encoder) :
  reachable l -> hb_replication (fn_hub f) !! conn = Some (lk_peer l) -> is_relay (fn_hub f) = true -> live_packet_epoch (fn_hub f) = epoch ->
  cache_sound heap compress_against (fn_cache f) ->
  frame_codec encoder_reset adopt_baseline heap decode_frame decode_snapshot agrees frame_for ->
  pr_next_snap_seq (lk_peer l) < u32_max ->
  fanout_peer encoder_new encoder_reset adopt_baseline limits now heap compress_against zstd_compress tick frame_for acks reliable f conn = (f', Ok ()) ->
  exists l', step l l' /\ hb_replication (fn_hub f') !! conn = Some (lk_peer l') /\ lk_client l' = lk_client l /\
    ((lk_wire l' = lk_wire l /\ unsent (fn_hub f) (fn_hub f')) \/
     exists w target packet, lk_wire l' = lk_wire l ++ [w] /\ encode_server_packet zstd_compress (flying_packet w) = Some packet /\
       sent limits now tick (fn_hub f) (fn_hub f') target conn (fl_seq w) packet).
Proof.
  intros Hl%snap_reachable_ok Hp Hr He Hc Hcodec Hroom Hfan.
  destruct (fanout_steps l encoder_new limits now tick frame_for acks reliable f f' Hl Hp Hr He Hc Hcodec Hroom Hfan) as (p' & out & packet & Hp' & Hturn & Hstep).
  eexists. split; [exact Hstep|]. cbn [lk_peer lk_client lk_wire]. split; [done|]. split; [done|].
  destruct Hturn as [? ? Hu|frame segs ? ? ? ? ? Hu|frame segs target header payload pk ? ? ? ? Hpk ? Hsent ?]; cbn [fly].
  - left. by rewrite app_nil_r.
  - left. by rewrite app_nil_r.
  - right. eexists (mkFlying _ _ _ _), target, pk. split; [reflexivity|]. by split.
Qed.
End Agreement.

(** ** A small link

    The host of SessionDemo and its first member: the offer, the client that applies it, and its
    acknowledgement.  The game's part of a frame is empty and a snapshot is the tick of its frame. *)

Definition seat_raw : list byte := match to_raw demo_heap demo_old with Some raw => raw | None => [] end.
Definition seat_lens : list Z := match segments demo_heap demo_old with Some segs => map zlen segs | None => [] end.
Definition seat_decode_frame (_ : option Z) (payload : list byte) : Result WireError (() * list Z) :=
  if bool_decide (payload = seat_raw) then Ok (tt, seat_lens) else Err (malformed "unknown frame").
Definition seat_decode_snapshot (_ : option Z) (_ : ()) : Result WireError Z := Ok 100.
Definition seat_agrees (frame snap : Z) : Prop := frame = snap.
Definition seat_unzip (packed : list byte) (_ : Z) : option (list byte) := Some packed.

#[local] Existing Instance seat_prefix.
#[local] Instance seat_unzips : BulkCodec as_is seat_unzip := seat_bulk.

Abbreviation SeatLink := (@SnapLink Z () Z).
Abbreviation seat_step := (snap_step seat_tick keep_encoder keep_against demo_heap store as_is unstore seat_unzip seat_decode_frame seat_decode_snapshot
                             seat_agrees 1 7).
Abbreviation seat_link := (snap_reachable seat_tick keep_encoder keep_against demo_heap store as_is unstore seat_unzip seat_decode_frame
                             seat_decode_snapshot seat_agrees 1 7).

Definition seat_client : @UdpClientLink Z :=
  cl_set_bootstrap (cl_set_ids (client_relay seat_hello mailbox_default) (Some 1) None) (Some (set_epoch lane_default 7)).
Definition new_link : SeatLink := mkSnapLink (peer_new tt) seat_client [] [] [] ∅.
Definition offer_fan : @Fan Z () := mkFan seated_hub cache_new None.
Definition offer_turn : @Fan Z () * Result UdpSendError () :=
  fanout_peer tt keep_encoder keep_against budget_default 0 demo_heap store as_is 100 seat_frame [] None offer_fan 1.

Lemma seat_codec : frame_codec keep_encoder keep_against demo_heap seat_decode_frame seat_decode_snapshot seat_agrees seat_frame.
Proof.
  assert (H : forall base segs, segments demo_heap demo_old = Some segs -> reads_as seat_decode_frame seat_decode_snapshot seat_agrees base segs 100).
  { intros base segs Hs. exists tt, 100. unfold seat_decode_frame, seat_raw, seat_lens, to_raw. rewrite Hs. cbn [fmap option_fmap option_map].
    rewrite bool_decide_eq_true_2 by done. done. }
  split; [intros client e held e' frame parts segs [= _ <- <-] [Hs _]|intros client e held e' frame parts segs base snap _ [= _ <- <-] [Hs _]]; by apply H.
Qed.

Lemma new_link_reachable : seat_link new_link.
Proof. exists new_link. split; [|apply rtc_refl]. split; [by exists tt|done]. Qed.

Lemma offer_turn_ok : offer_turn = (offer_turn.1, Ok ()).
Proof. refine (pair_of_second offer_turn (Ok ()) _). vm_compute. reflexivity. Qed.

Lemma offer_peer : hb_replication (fn_hub offer_fan) !! 1 = Some (lk_peer new_link).
Proof. vm_compute. reflexivity. Qed.

Lemma empty_cache : cache_sound demo_heap store (fn_cache offer_fan).
Proof. intros n o patch Hin. destruct (not_elem_of_nil _ Hin). Qed.

(** The offer is on its way. *)
Lemma offered_link : exists (l : SeatLink) w, seat_link l /\ lk_client l = seat_client /\ lk_wire l = [w] /\
  fl_baseline w = 0 /\ fl_seq w = 1 /\ hb_replication (fn_hub offer_turn.1) !! 1 = Some (lk_peer l) /\ lk_applied l = [].
Proof.
  destruct (fanout_steps seat_tick keep_encoder keep_against demo_heap store as_is unstore seat_unzip seat_decode_frame seat_decode_snapshot
    seat_agrees 1 7 new_link tt budget_default 0 100 seat_frame [] None offer_fan offer_turn.1) as (p' & out & packet & Hp' & Hturn & Hstep);
    [apply (snap_reachable_ok seat_tick keep_encoder keep_against demo_heap store as_is), new_link_reachable|exact offer_peer|done|done|exact empty_cache
    |exact seat_codec|done|exact offer_turn_ok|].
  assert (Hadm : pr_admission p' <> Uncommitted).
  { assert (H : (pr_admission <$> hb_replication (fn_hub offer_turn.1) !! 1) = Some (SessionHub.Pending (Bootstrap.mkQueued 7 1 100 1 1))) by (vm_compute; reflexivity).
    rewrite Hp' in H. injection H as H. rewrite H. discriminate. }
  destruct Hturn as [? H ?|frame segs ? ? ? ? H ?|frame segs target header payload pk ? ? ? ? ? ? ? ?]; [destruct (Hadm H)|destruct (Hadm H)|].
  eexists _, (mkFlying header 0 1 payload). split; [destruct new_link_reachable as (start & Hs & Hr); exists start; split; [exact Hs|]; eapply rtc_r; [exact Hr|exact Hstep]|].
  split; [reflexivity|]. split; [reflexivity|]. split; [reflexivity|]. split; [reflexivity|]. split; [exact Hp'|reflexivity].
Qed.

Lemma current_snapshot_is_applied_witness :
  exists (l : SeatLink) w r' frame segs snap game, seat_link l /\ w ∈ lk_wire l /\ fl_seq w = 1 /\
    apply_server_packet unstore seat_unzip seat_decode_frame seat_decode_snapshot (mkReceiving seat_client [] []) (flying_packet w) = (r', Ok true) /\
    rv_ticks r' = [(snap, game)] /\ rv_acks r' = [1] /\ lk_frames l !! 1 = Some (frame, segs) /\ seat_agrees frame snap.
Proof.
  destruct offered_link as (l & w & Hl & Hc & Hw & Hb & Hn & _ & _).
  assert (Hin : w ∈ lk_wire l) by (rewrite Hw; by left).
  destruct (current_snapshot_is_applied seat_tick keep_encoder keep_against demo_heap store as_is unstore seat_unzip seat_decode_frame seat_decode_snapshot
    seat_agrees 1 7 l w (mkReceiving seat_client [] []) Hl Hin) as (r' & frame & segs & snap & game & H1 & H2 & H3 & H4 & H5);
    rewrite ?Hc; [done|done|done|done|apply not_elem_of_nil|by left|].
  exists l, w, r', frame, segs, snap, game. rewrite Hn in H3, H4. split_and!; done.
Defined.

Lemma fanout_refines_link_witness :
  exists l', seat_step new_link l' /\ hb_replication (fn_hub offer_turn.1) !! 1 = Some (lk_peer l') /\
    exists w target packet, lk_wire l' = [w] /\ sent budget_default 0 100 seated_hub (fn_hub offer_turn.1) target 1 (fl_seq w) packet.
Proof.
  destruct (fanout_refines_link seat_tick keep_encoder keep_against demo_heap store as_is unstore seat_unzip seat_decode_frame seat_decode_snapshot
    seat_agrees 1 7 new_link tt budget_default 0 100 seat_frame [] None offer_fan offer_turn.1) as (l' & H1 & H2 & _ & H3);
    [apply new_link_reachable|exact offer_peer|done|done|exact empty_cache|exact seat_codec|done|exact offer_turn_ok|].
  exists l'. split; [exact H1|]. split; [exact H2|]. destruct H3 as [[_ [_ Hu]]|(w & target & packet & Hw & _ & Hs)].
  - exfalso. vm_compute in Hu. discriminate Hu.
  - exists w, target, packet. split; [exact Hw|exact Hs].
Defined.

Definition acking_world : SeatWorld := seat_world (fn_hub offer_turn.1).
Definition acked_world : SeatWorld := ingress_ack seat_tick acking_world seat_one (mkPacketHeader 1 1 0 7) 1.

(** The acknowledgement makes the frame the baseline, and the client has it. *)
Lemma client_has_the_baseline_witness :
  exists (l : SeatLink) sent snap segs, seat_link l /\ baseline_seq_for_encode (pr_baseline (lk_peer l)) = 1 /\
    bt_get 1 (bl_sent (pr_baseline (lk_peer l))) = Some sent /\ segments demo_heap (sf_parts sent) = Some segs /\
    seat_agrees (sf_snapshot sent) snap /\ bt_get 1 (cs_baselines (cl_stream (lk_client l))) = Some (snap, concat segs, map zlen segs).
Proof.
  destruct offered_link as (l & w & Hl & Hc & Hw & Hb & Hn & Hp & Happ).
  assert (Hin : w ∈ lk_wire l) by (rewrite Hw; by left).
  pose proof (snap_reachable_ok seat_tick keep_encoder keep_against demo_heap store as_is unstore seat_unzip seat_decode_frame seat_decode_snapshot
    seat_agrees 1 7 l Hl) as Hok.
  destruct (flying_applies demo_heap unstore seat_unzip seat_decode_frame seat_decode_snapshot seat_agrees 1 7 l w (mkReceiving seat_client [] []) Hok Hin)
    as (r' & frame & segs & snap & game & H1 & _ & H3 & _); rewrite ?Hc; [done| |apply not_elem_of_nil|by left|].
  { destruct (lo_wire _ _ _ _ _ _ _ _ l Hok w Hin) as [F1 F2 _ _]. split; [done|]. rewrite F1, F2. done. }
  set (l2 := received l (mkReceiving seat_client [] []) r').
  assert (Happ2 : 1 ∈ lk_applied l2) by (unfold l2; cbn [received lk_applied rv_acks length drop]; rewrite H3, Happ, Hn; by left).
  destruct (hb_replication (iw_hub acked_world) !! 1) as [p|] eqn:Ep; [|vm_compute in Ep; discriminate].
  assert (Hbase : baseline_seq_for_encode (pr_baseline p) = 1).
  { assert (H : ((fun p => baseline_seq_for_encode (pr_baseline p)) <$> hb_replication (iw_hub acked_world) !! 1) = Some 1) by (vm_compute; reflexivity).
    rewrite Ep in H. injection H as H. exact H. }
  assert (Hreach : seat_link (with_peer l2 p)).
  { destruct Hl as (start & Hs & Hr). exists start. split; [exact Hs|]. eapply rtc_r; [eapply rtc_r; [exact Hr|]|].
    - eapply (StepPacket _ _ _ _ _ _ _ _ _ _ _ _ _ l w (mkReceiving seat_client [] []) r' (Ok true)); [exact Hin|symmetry; exact Hc|exact H1].
    - eapply (StepAck _ _ _ _ _ _ _ _ _ _ _ _ _ l2 acking_world seat_one (mkPacketHeader 1 1 0 7) 1 p); [exact Hp|exact Happ2|vm_compute; split; discriminate|exact Ep]. }
  destruct (client_has_the_baseline seat_tick keep_encoder keep_against demo_heap store as_is unstore seat_unzip seat_decode_frame seat_decode_snapshot
    seat_agrees 1 7 (with_peer l2 p) Hreach) as [_ Hfinal].
  cbn [with_peer lk_peer] in Hfinal. rewrite Hbase in Hfinal. destruct Hfinal as (sent & snap' & segs' & G1 & G2 & G3 & G4); [discriminate|].
  exists (with_peer l2 p), sent, snap', segs'. cbn [with_peer lk_peer lk_client]. split_and!; assumption.
Defined.

(** ** A small client *)

Definition seat_public_of (_ : list byte) : list byte := seat_public.
Definition seat_signature (_ message : list byte) : list byte := seat_sign message.

(** The offer on the client's lane. *)
Definition offer_on_lane : list byte :=
  match hb_bootstrap (fn_hub offer_turn.1) with
  | Some lane => match bn_to_worker lane with (_, bytes, _) :: _ => bytes | [] => [] end
  | None => []
  end.
Definition offered_lane : BootstrapLane := (push_from_worker budget_default 0 (set_epoch lane_default 7) None offer_on_lane).1.
Definition joining_client : @UdpClientLink Z :=
  cl_set_bootstrap (cl_set_relay (client_relay seat_hello mailbox_default) mailbox_default) (Some offered_lane).
Definition joined_client : @UdpClientLink Z :=
  (recv_ticks budget_default unstore seat_unzip seat_decode_frame seat_decode_snapshot 0 joining_client).1.

(** The client takes its connection from the offer, keeps its frame and answers it. *)
Example client_joins :
  cl_connection joined_client = Some 1 /\ bt_keys (cs_baselines (cl_stream joined_client)) = [1] /\
  co_pending_applied (cl_offers joined_client) = [BsApplied 7 1 100 1 1].
Proof. split; [|split]; vm_compute; reflexivity. Qed.

Lemma client_stays_sound_witness :
  cs_last_snapshot_seq (cl_stream joined_client) = Some 1 /\
  (1 ∈ bt_keys (cs_baselines (cl_stream joined_client)) /\ forall n, n ∈ bt_keys (cs_baselines (cl_stream joined_client)) -> n <= 1) /\
  exists bytes, encode_bootstrap (BsApplied 7 1 100 1 1) = Ok bytes.
Proof.
  assert (Hlast : cs_last_snapshot_seq (cl_stream joined_client) = Some 1) by (vm_compute; reflexivity).
  destruct (client_stays_sound budget_default unstore seat_unzip seat_decode_frame seat_decode_snapshot toy_sha256 seat_public_of seat_signature joined_client)
    as (_ & _ & H3 & _ & _ & _ & H7 & _).
  - exists seat_hello, mailbox_default. eapply rtc_l; [apply (ClWorld _ _ _ _ _ _ _ _ _ mailbox_default (Some offered_lane))|].
    eapply rtc_l; [apply (ClRecv _ _ _ _ _ _ _ _ _ 0)|]. apply rtc_refl.
  - split; [exact Hlast|]. rewrite Hlast in H3. split; [exact H3|].
    destruct (H7 (BsApplied 7 1 100 1 1)) as (e & id & t & n & conn & _ & _ & bytes & Hb).
    + destruct client_joins as (_ & _ & ->). by left.
    + exists bytes. exact Hb.
Defined.

Definition seat_commands : list (Z * UserCmd * ShotSampleProvenance) :=
  map (fun n => (Z.of_nat n, demo_cmd, mkSample 0 0 0 SsNone)) (seq 0 20).
Definition seat_requests : list ClientAction := [ActJoinMatch 4; ActLeaveMatch 5].
Definition sending_client : @UdpClientLink Z := cl_set_sent seat_client 8 {[4; 3]}.
Definition sent_turn : @UdpClientLink Z * Result ClientSendError () := send_commands budget_default 0 sending_client seat_commands seat_requests 0.

(** Twenty commands go in two datagrams; the request sent before is not sent again. *)
Lemma commands_go_out_once_witness :
  sent_turn.2 = Ok () /\ cl_out_seq sent_turn.1 = 11 /\
  (exists chs, concat chs = seat_commands /\ Forall (fun chunk => 0 < zlen chunk <= 16) chs) /\
  forall id, id ∈ cl_sent_actions sent_turn.1 <-> id = 4 \/ id = 5.
Proof.
  assert (Hr : sent_turn = (sent_turn.1, Ok ())) by (refine (pair_of_second sent_turn (Ok ()) _); vm_compute; reflexivity).
  split; [vm_compute; reflexivity|]. split; [vm_compute; reflexivity|].
  destruct (commands_go_out_once budget_default 0 sending_client sent_turn.1 1 seat_commands seat_requests 0 (Ok ())) as (chs & H1 & H2 & _ & H3);
    [reflexivity|reflexivity|exact Hr|].
  split; [exists chs; split; [exact H1|exact H2]|]. intros id. rewrite (H3 id). change (map action_request_id seat_requests) with [4; 5].
  rewrite elem_of_cons, list_elem_of_singleton. tauto.
Defined.

Definition seat_identity : SessionIdentity := mkIdentity 1 (replicate 16 (byte_of 1)) seat_one 7.
Definition seat_local : LocalAccount := mkLocalAccount seat_account (replicate 32 (byte_of 2)) None.
Definition seat_save : AccountSnapshot := default (mkSnapshot [] 0 0 0 [] []) (snapshot seat_store seat_account).
Definition challenged_client : @UdpClientLink Z := set_messages seat_client [AmChallenge seat_challenge; AmUpdate seat_challenge seat_save].
Definition polled_client :=
  poll_accounts budget_default toy_sha256 seat_public_of seat_signature 0 (Some seat_identity) demo_schemas (Some (Some seat_save))
    challenged_client (Some seat_local).

(** The client proves its account, takes the host's save and reports it. *)
Lemma client_account_is_its_own_witness :
  zlen (mb_control_outbound (cl_relay polled_client.1.1)) = 2 /\
  (forall row, row ∈ mb_control_outbound (cl_relay polled_client.1.1) -> row.1.1 = SERVER_MEMBER) /\
  challenge_of polled_client.1.1 = Some seat_challenge /\ polled_client.1.2 = Some (mkLocalAccount seat_account (replicate 32 (byte_of 2)) (Some seat_save)) /\
  own_update toy_sha256 seat_public_of demo_schemas seat_local seat_save.
Proof.
  assert (Hlocal : polled_client.1.2 = Some (mkLocalAccount seat_account (replicate 32 (byte_of 2)) (Some seat_save))) by (vm_compute; reflexivity).
  destruct (client_account_is_its_own budget_default toy_sha256 seat_public_of seat_signature seat_identity demo_schemas 0 (Some (Some seat_save))
    challenged_client polled_client.1.1 (Some seat_local) polled_client.1.2 polled_client.2) as (_ & H2 & H3);
    [unfold polled_client; destruct (poll_accounts _ _ _ _ _ _ _ _ _ _) as [[? ?] ?]; reflexivity|].
  split; [vm_compute; reflexivity|]. split.
  - intros row Hrow. destruct (H2 row Hrow) as [Hold|[Hm _]]; [|exact Hm]. destruct (not_elem_of_nil _ Hold).
  - split; [vm_compute; reflexivity|]. split; [exact Hlocal|]. destruct H3 as [H3|(local & context & update & E1 & E2 & _ & _ & _ & Ho & _)].
    + exfalso. rewrite Hlocal in H3. apply (f_equal (fun a => bool_decide (is_Some (a ≫= la_snapshot)))) in H3. discriminate H3.
    + rewrite Hlocal in E2. apply (f_equal (fun a => default update (a ≫= la_snapshot))) in E2. change (seat_save = update) in E2.
      apply (f_equal (default local)) in E1. change (seat_local = local) in E1. rewrite E2, E1. exact Ho.
Defined.
