(* ===== verification/FrameLink.v ===== *)
(** * The game between a host and a client

    What [fanout_snapshots_inner] of crates/net/src/transport/udp_session.rs makes of the game's
    snapshot for a peer is a frame that its client reads: the codecs of the frame are the ones that
    the link of a host and a client relies on. *)

From S2P Require Export SnapshotMeta.
From S2P Require Export SessionLinkMain.

#[local] Open Scope Z_scope.

(** ** The frame of a peer *)

Section Fanout.
Context {Meta : Type} `{!MetaOps Meta}.
(** The host's snapshot, the one a peer is shown instead, where the bytes of the meta are, and the peer's tail. *)
Context (snapshot : SnapshotDelta.Snapshot Meta) (for_peer : Z -> option (SnapshotDelta.Snapshot Meta)) (meta_of : Z -> Z) (tail_for : Z -> FrameTail).

Definition peer_snapshot (client : Z) : SnapshotDelta.Snapshot Meta := default snapshot (for_peer client).
Definition peer_acks (held : option (Z * Z)) : list (Z * Z) := match held with Some ack => [ack] | None => [] end.

Definition fanout_frame (client : Z) (coder : SnapshotEncoder) (held : option (Z * Z))
    : option (SnapshotEncoder * SnapshotDelta.Snapshot Meta * FrameParts) :=
  '(coder, parts) ← build_parts coder (peer_snapshot client) (meta_of client) (peer_acks held) (tail_for client);
  Some (coder, peer_snapshot client, parts).

(** What the fanout needs of the game: the snapshots and the tails can be sent, and the shared bytes are
    those of the snapshot's meta. *)
Record sends_game (heap : Z -> WireMeta) (valid : SnapshotDelta.Snapshot Meta -> Prop)
    (frame_for : Z -> SnapshotEncoder -> option (Z * Z) -> SnapshotEncoder * SnapshotDelta.Snapshot Meta * FrameParts) : Prop := {
  sg_frame client coder held : fanout_frame client coder held = Some (frame_for client coder held);
  sg_snapshot client : valid (peer_snapshot client);
  sg_tail client : valid_tail (tail_for client);
  sg_meta client : without_reliable_events (sn_meta (peer_snapshot client)) = Some (heap (meta_of client));
}.
End Fanout.

(** * Properties *)

(** ** The acknowledgement *)

Lemma byte_of_mod v : byte_of (v mod 256) = byte_of v.
Proof. unfold byte_of. by rewrite Z.mod_mod. Qed.

Lemma le_bytes_mod n : forall v, le_bytes n (v mod 256 ^ Z.of_nat n) = le_bytes n v.
Proof.
  induction n as [|n IH]; intros v; [done|]. cbn [le_bytes]. rewrite Nat2Z.inj_succ, Z.pow_succ_r by lia.
  set (k := 256 ^ Z.of_nat n) in *. assert (0 < k) by (unfold k; apply Z.pow_pos_nonneg; lia).
  rewrite Z.rem_mul_r by lia. f_equal.
  - rewrite <- byte_of_mod, <- (byte_of_mod v). f_equal. rewrite Z.mul_comm, Z.mod_add by done. by rewrite Z.mod_mod.
  - rewrite <- (IH (v / 256)). f_equal. rewrite Z.mul_comm, Z.div_add by done. rewrite Z.mod_div by done. lia.
Qed.

Lemma put_u32_wrap v : put_u32 (wrap32 v) = put_u32 v.
Proof. apply (le_bytes_mod 4 v). Qed.

(** The numbers of an acknowledgement have their width. *)
Definition wrap_ack (ack : Z * Z) : Z * Z := (wrap32 ack.1, wrap32 ack.2).

Lemma encode_head_wrap tick hash acks : encode_head tick hash (map wrap_ack acks) = encode_head tick hash acks.
Proof.
  unfold encode_head, put_list16. do 3 f_equal; [unfold zlen; by rewrite length_map|]. rewrite map_map. f_equal. apply map_ext. intros [client seq].
  unfold put_ack, wrap_ack. cbn [fst snd]. by rewrite !put_u32_wrap.
Qed.

Lemma peer_acks_valid held : valid_acks (map wrap_ack (peer_acks held)).
Proof.
  destruct held as [[client seq]|]; (split; [vm_compute; discriminate|]); [|constructor].
  constructor; [|constructor]. cbn [peer_acks map wrap_ack fst snd]. unfold wrap32. split; ilia.
Qed.

Section Codec.
Context {Meta : Type} `{!MetaOps Meta} (valid_meta : Meta -> Prop) (meta_agrees : (SimEvent -> bool) -> Meta -> Meta -> Prop).
Context `{!MetaLaws Meta valid_meta meta_agrees}.
Context (snapshot : SnapshotDelta.Snapshot Meta) (for_peer : Z -> option (SnapshotDelta.Snapshot Meta)) (meta_of : Z -> Z) (tail_for : Z -> FrameTail).

Lemma build_parts_wrap coder (host : SnapshotDelta.Snapshot Meta) meta acks tail :
  build_parts coder host meta (map wrap_ack acks) tail = build_parts coder host meta acks tail.
Proof.
  unfold build_parts, frame_parts_new. destruct (encode_world_objects _ _ _) as [[coder1 wire]|]; [|done]. cbv beta iota delta [mbind option_bind].
  destruct (snapshot_encode coder1 host). by rewrite encode_head_wrap.
Qed.

Lemma fanout_frame_iff client coder held out :
  fanout_frame snapshot for_peer meta_of tail_for client coder held = Some out ->
  out.1.2 = peer_snapshot snapshot for_peer client /\
  build_parts coder (peer_snapshot snapshot for_peer client) (meta_of client) (map wrap_ack (peer_acks held)) (tail_for client) = Some (out.1.1, out.2).
Proof.
  unfold fanout_frame. rewrite build_parts_wrap. destruct (build_parts _ _ _ _ _) as [[coder' parts]|]; [|done]. by intros [= <-].
Qed.

(** The frames of the game have the codec that the link asks for. *)
Lemma game_codec heap frame_for :
  sends_game snapshot for_peer meta_of tail_for heap (valid_host valid_meta) frame_for ->
  frame_codec encoder_reset (encoder_adopt meta_world_objects) heap decode_frame decode_snapshot_of (frame_agrees valid_meta meta_agrees) frame_for.
Proof.
  intros [Hframe Hs Ht Hm].
  assert (H : forall base client coder held coder' frame parts segs, builds_on base coder ->
    frame_for client coder held = (coder', frame, parts) -> sendable heap parts segs ->
    reads_as decode_frame decode_snapshot_of (frame_agrees valid_meta meta_agrees) base segs frame).
  { intros base client coder held coder' frame parts segs Hon Hf Hsend. pose proof (Hframe client coder held) as Hb. rewrite Hf in Hb.
    apply fanout_frame_iff in Hb as [Efr Hb]. cbn [fst snd] in *. rewrite Efr in *.
    destruct (build_reads valid_meta meta_agrees heap base coder _ _ _ _ _ _ _ Hon (Hs client) (peer_acks_valid held) (Ht client) Hb (Hm client) Hsend)
      as (game & snap & H1 & H2 & H3 & _). by exists game, snap. }
  split; intros client coder held coder' frame parts segs.
  - intros Hf Hsend. eapply H; [apply builds_on_reset|exact Hf|exact Hsend].
  - intros base snap Ha Hf Hsend. eapply H; [by eapply builds_on_adopt|exact Hf|exact Hsend].
Qed.
End Codec.

(** ** The game's snapshot, end to end *)

Abbreviation GameSnapshot := (SnapshotDelta.Snapshot SnapshotMeta).
Abbreviation game_valid := (valid_host valid_meta).
Abbreviation game_agrees := (frame_agrees valid_meta snapshot_meta_agrees).

(** What a client has of the host's snapshot: every number of every player and of every projectile (the
    sign of a zero apart), the sections of the meta without the reliable events, and the glass and sounds
    of the map. *)
Lemma game_agrees_meta host client : game_agrees host client ->
  sn_tick client = sn_tick host /\ sn_meta client = meta_seen unreliable (sn_meta host) (mt_world_objects (sn_meta client)).
Proof. intros (_ & (Ht & _) & Hm & _). by split. Qed.

(** C17. A frame of the game is read as it was built: when the host builds a frame for a peer, fresh or
    against the snapshot that the client has, the client's decoders on that snapshot give the tick, the
    hash of the players, the acknowledgements and the reliable rows and commands of the tail as the host
    put them in, the lengths of the segments, and a snapshot that agrees with the host's.  Assumed: the
    simulation's snapshot, the acknowledgements and the tail are well-formed ([game_valid], [valid_acks],
    [valid_tail]: integers of their wire width, lists and texts within their length fields, tables in the
    order of their keys, a map of at most [small_world] size), the meta is the encoded one without its
    reliable events, and the frame fits a packet ([sendable]). *)
Theorem game_frame_is_read heap base coder (host : GameSnapshot) meta acks tail coder' parts segs :
  builds_on base coder -> game_valid host -> valid_acks acks -> valid_tail tail ->
  build_parts coder host meta acks tail = Some (coder', parts) -> without_reliable_events (sn_meta host) = Some (heap meta) ->
  sendable heap parts segs ->
  exists frame client, decode_frame base (concat segs) = Ok (frame, map zlen segs) /\ decode_snapshot_of base frame = Ok client /\
    game_agrees host client /\ fr_tick frame = sn_tick host /\ fr_state_hash frame = compute_state_hash (sn_players host) /\
    fr_acks frame = acks /\ fr_tail frame = tail.
Proof. intros. eapply (build_reads valid_meta snapshot_meta_agrees heap base coder host meta acks tail coder' parts segs); assumption. Qed.

Section EndToEnd.
Context (frame_tick : GameSnapshot -> Z) (heap : Z -> WireMeta).
Context (compress_against : list byte -> list byte -> option (list byte)) (zstd_compress : list byte -> option (list byte)).
Context (decompress_with : list byte -> list byte -> Z -> option (list byte)) (zstd_decompress : list byte -> Z -> option (list byte)).
Context (conn epoch : Z).

Abbreviation GameLink := (@SnapLink GameSnapshot SnapshotEncoder GameSnapshot).
Abbreviation game_reset := encoder_reset.
Abbreviation game_adopt := (encoder_adopt (Meta := SnapshotMeta) meta_world_objects).
Abbreviation ok := (snap_ok heap decompress_with zstd_decompress decode_frame decode_snapshot_of game_agrees conn epoch).
Abbreviation reachable := (snap_reachable frame_tick game_reset game_adopt heap compress_against zstd_compress decompress_with zstd_decompress
                             decode_frame decode_snapshot_of game_agrees conn epoch).
Abbreviation fanout := (fun encoder_new limits now tick frame_for acks reliable f =>
  fanout_peer encoder_new game_reset game_adopt limits now heap compress_against zstd_compress tick frame_for acks reliable f conn).
Abbreviation apply := (apply_server_packet decompress_with zstd_decompress decode_frame decode_snapshot_of).

(** C16. From any state that the host and the client can be in, after any loss, delay, repetition or
    reordering: when the fanout of the game sends the client's peer a snapshot, and the packet arrives,
    a client of the session plays one tick more, of a snapshot that agrees with the one the host shows
    that client.  Assumed: the hub plays over the relay; snapshot numbers are left; the simulation, which
    is not modelled, gives well-formed snapshots, views, events and rows, which can be encoded
    ([sends_game]: integers of their wire width, lists and texts within their length fields, tables in
    the order of their keys, a map of at most [small_world] size). *)
Theorem game_reaches_client `{!PrefixCodec compress_against decompress_with} `{!BulkCodec zstd_compress zstd_decompress}
    (l : GameLink) snapshot for_peer meta_of tail_for encoder_new limits now tick frame_for acks reliable
    (f f' : @Fan GameSnapshot SnapshotEncoder) (r : @Receiving GameSnapshot (FrameWire.Frame SnapshotMeta)) :
  reachable l -> hb_replication (fn_hub f) !! conn = Some (lk_peer l) -> is_relay (fn_hub f) = true -> live_packet_epoch (fn_hub f) = epoch ->
  cache_sound heap compress_against (fn_cache f) -> pr_next_snap_seq (lk_peer l) < u32_max ->
  sends_game snapshot for_peer meta_of tail_for heap game_valid frame_for ->
  fanout encoder_new limits now tick frame_for acks reliable f = (f', Ok ()) ->
  rv_client r = lk_client l -> cl_failed (lk_client l) = None -> cl_connection (lk_client l) = Some conn -> match_epoch (lk_client l) = epoch ->
  unsent (fn_hub f) (fn_hub f') \/
  exists w target packet r' client snap game,
    encode_server_packet zstd_compress (flying_packet w) = Some packet /\ sent limits now tick (fn_hub f) (fn_hub f') target conn (fl_seq w) packet /\
    apply r (flying_packet w) = (r', Ok true) /\ rv_ticks r' = rv_ticks r ++ [(snap, game)] /\ rv_acks r' = rv_acks r ++ [fl_seq w] /\
    game_agrees (peer_snapshot snapshot for_peer client) snap.
Proof.
  intros Hl%snap_reachable_ok Hp Hr He Hc Hroom Hgame Hfan Hrc Hfail Hconn Hep.
  pose proof (game_codec valid_meta snapshot_meta_agrees _ _ _ _ heap frame_for Hgame) as Hcodec.
  destruct (fanout_steps frame_tick game_reset game_adopt heap compress_against zstd_compress decompress_with zstd_decompress decode_frame
    decode_snapshot_of game_agrees conn epoch l encoder_new limits now tick frame_for acks reliable f f' Hl Hp Hr He Hc Hcodec Hroom Hfan)
    as (p' & out & packet & Hp' & Hturn & Hstep).
  pose proof (snap_step_ok _ _ _ _ _ _ _ _ _ _ _ _ _ _ _ Hl Hstep) as Hl'.
  destruct Hturn as [? ? Hu|frame segs ? ? ? ? ? Hu|frame segs target header payload pk ? [(client & enc & held & enc' & parts & F1 & _ & F3) _ _ _] Hh1 Hh2 Hpk ? Hsent ?];
    [by left|by left|right]. cbn [fly record_frame] in *.
  set (w := mkFlying header (baseline_seq_for_encode (pr_baseline (lk_peer l))) (pr_next_snap_seq (lk_peer l)) payload) in *.
  match type of Hl' with snap_ok _ _ _ _ _ _ _ _ ?l' => set (l2 := l') in * end.
  destruct (flying_applies heap decompress_with zstd_decompress decode_frame decode_snapshot_of game_agrees conn epoch l2 w r Hl')
    as (r' & fr & sg & snap & game & G1 & G2 & G3 & G4 & G5).
  - unfold l2. cbn [lk_wire]. apply elem_of_app. right. by left.
  - done.
  - split; [done|]. cbn [fl_header w]. unfold l2. cbn [lk_client]. split; congruence.
  - unfold kept_keys. intros (e & E & Hin)%list_elem_of_fmap. destruct (lo_kept _ _ _ _ _ _ _ _ l Hl e Hin) as (fr & sg & Hat & _).
    apply (lo_frames _ _ _ _ _ _ _ _ l Hl) in Hat. cbn [fl_seq w] in E. lia.
  - unfold l2. cbn [lk_peer fl_baseline w]. rewrite (baseline_is_acked _ (ps_table _ _ (lo_sound _ _ _ _ _ _ _ _ l Hl))).
    rewrite (built_acked heap decompress_with zstd_decompress decode_frame decode_snapshot_of game_agrees conn epoch l p' frame parts Hl F3).
    destruct (acked (lk_peer l)); [by right|by left].
  - exists w, target, pk, r', client, snap, game. split; [exact Hpk|]. split; [exact Hsent|]. split; [exact G1|]. split; [exact G2|]. split; [exact G3|].
    unfold l2 in G4. cbn [lk_frames fl_seq w] in G4. rewrite lookup_insert_eq in G4. injection G4 as <- <-.
    pose proof (sg_frame _ _ _ _ _ _ _ Hgame client) as Hfr. specialize (Hfr (encoder_of game_reset game_adopt (pr_baseline (lk_peer l)) enc) held).
    rewrite F1 in Hfr. apply fanout_frame_iff in Hfr as [Efr _]. cbn [fst snd] in Efr. by rewrite Efr in G5.
Qed.
End EndToEnd.

(** ** A small game

    A player on his feet, an event that is in the frame and one that is not, a sound of the map. *)

Definition demo_objectives : ObjectiveMatch :=
  mkObjectives [3; 2; 1] [mkObjective 1 ObjActive [0; 0; 0] TeamAxis (bs "flag") (Some 2)] [] [] [(bs "sv_hostname", bs "room")] 90000 None None None
    [(4, bs "rumble")] false [] None [] None None (bs "body") None None None.
Definition demo_meta : SnapshotMeta :=
  mkMeta (mkHeader Playing 1 100 PrematchDone 100 600000 Domination [])
    (mkEvents [mkEventRecord 1 10 AudienceAll EvAttackReleased; mkEventRecord 2 10 (AudienceClient 2) (EvWeaponSwitchRequested 4)] [] [])
    (mkNames [(1, bs "alias")] [] [] [(3, bs "text")] [[1]; [2]; [3]; [4]; [5]]) (WorldObjects.mkWorld 50 1 3 [] [mkLoop (Some 5) 1 2 [0; 0; 0]])
    [] corpses_default [] [] kernel_default [[[1]; [2]; [3]; [4]; [5]]] [] None demo_objectives.
Definition demo_walks : PlayerState := <[0%nat := [50]]> PLAYER_ZERO.
Definition demo_game (tick : Z) (player : PlayerState) : GameSnapshot := SnapshotDelta.mkSnapshot tick [(2, player)] [] demo_meta.

Ltac game_ranges :=
  demo_ranges; try done;
  try (unfold valid_fields; repeat first [apply List.Forall2_nil|apply List.Forall2_cons];
       (split; [reflexivity|repeat first [apply List.Forall_nil|apply List.Forall_cons]; vm_compute; split; congruence])).

Lemma valid_demo_meta : valid_meta demo_meta.
Proof.
  split; unfold demo_meta; cbn [mt_header mt_events mt_names mt_entity_dobjs mt_corpses mt_entities mt_script_movers mt_entity_kernel mt_item_ammo
    mt_item_pickups mt_area_entities mt_objectives].
  - unfold valid_header. cbn [mh_phase mh_round_serial mh_match_elapsed_ms mh_prematch mh_score_limit mh_time_limit_ms mh_kind mh_clients]. game_ranges.
  - unfold valid_events. cbn [me_journal me_entity_events me_pellet_fx]. game_ranges.
  - unfold valid_names. cbn [mn_sound_aliases mn_effect_names mn_hud_materials mn_hud_strings mn_rng]. game_ranges.
  - game_ranges.
  - split_and!; try done. apply Forall_replicate. done.
  - game_ranges.
  - game_ranges.
  - split_and!; done.
  - game_ranges.
  - done.
  - unfold demo_objectives. split; cbn [om_scores om_compass om_vehicles om_vehicle_targets om_server_info om_game_end_time om_slow_motion om_ambient
      om_ac130_ambient om_rumble_aliases om_scripted_effects om_effects om_fog om_earthquakes om_naked_vision om_thermal_vision
      om_thermal_body_material om_missile_vision om_night_vision om_pain_vision]; game_ranges.
Qed.

Lemma valid_demo_walks : valid_player demo_walks.
Proof.
  unfold valid_player, demo_walks. rewrite <- (list_insert_id PS_NETFIELDS 0%nat (bs "command_time", FkI32, ValExact) eq_refl).
  apply list.Forall2_insert; [apply valid_player_zero|]. split; [done|]. constructor; [|constructor]. vm_compute. split; congruence.
Qed.

Lemma valid_demo_game tick player : is_u32 tick -> valid_player player -> game_valid (demo_game tick player).
Proof.
  intros Ht Hp. split; [|split; [exact valid_demo_meta|split; [|vm_compute; congruence]]].
  - split; [exact Ht|]. split.
    + split; [vm_compute; congruence|]. constructor; [|constructor]. split; [cbn [fst]; ilia|exact Hp].
    + split; [split; [vm_compute; congruence|constructor]|constructor].
  - unfold demo_game, demo_meta. cbn [sn_meta SnapshotDelta.sn_meta meta_world_objects snapshot_meta_ops mt_world_objects]. demo_ranges.
Qed.

Definition game_heap (_ : Z) : WireMeta := default (mkWireMeta [] []) (without_reliable_events demo_meta).
Lemma game_heap_is : without_reliable_events demo_meta = Some (game_heap 0).
Proof. vm_compute. reflexivity. Qed.

Lemma valid_tail_default : valid_tail frame_tail_default.
Proof. unfold frame_tail_default. split_and!; try done. Qed.

Definition coder_new : SnapshotEncoder := encoder_reset encoder_new.
Definition demo_build (coder : SnapshotEncoder) (tick : Z) (player : PlayerState) : option FrameParts :=
  snd <$> build_parts coder (demo_game tick player) 0 [(2, 9)] frame_tail_default.
Definition second_coder : SnapshotEncoder := encoder_adopt (Meta := SnapshotMeta) meta_world_objects coder_new (demo_game 100 PLAYER_ZERO).
Definition built_segments (parts : option FrameParts) : list (list byte) := default [] (parts ≫= segments game_heap).

(** The first frame is whole, the second against the snapshot that the client made of the first. *)
Lemma game_frame_is_read_witness :
  exists frame client frame2 client2,
    decode_frame None (concat (built_segments (demo_build coder_new 100 PLAYER_ZERO))) = Ok frame /\
    decode_snapshot_of None frame.1 = Ok client /\
    decode_frame (Some client) (concat (built_segments (demo_build second_coder 101 demo_walks))) = Ok frame2 /\
    decode_snapshot_of (Some client) frame2.1 = Ok client2 /\ game_agrees (demo_game 101 demo_walks) client2.
Proof.
  assert (Hacks : valid_acks [(2, 9)]) by (split; [vm_compute; congruence|constructor; [split; vm_compute; split; congruence|constructor]]).
  assert (Hbuild : forall coder tick player, is_Some (build_parts coder (demo_game tick player) 0 [(2, 9)] frame_tail_default) ->
    bool_decide (is_Some (demo_build coder tick player ≫= segments game_heap)) = true ->
    (zlen (concat (built_segments (demo_build coder tick player))) <=? MAX_RECONSTRUCTED_FRAME_BYTES) = true ->
    exists coder' parts segs, build_parts coder (demo_game tick player) 0 [(2, 9)] frame_tail_default = Some (coder', parts) /\
      sendable game_heap parts segs /\ segs = built_segments (demo_build coder tick player)).
  { intros coder tick player [[coder' parts] Hb]. unfold built_segments, demo_build, sendable. rewrite Hb. cbn [fmap option_fmap option_map mbind option_bind snd].
    intros [segs Hs]%bool_decide_eq_true Hle%Z.leb_le. rewrite Hs in Hle |- *. by exists coder', parts, segs. }
  destruct (Hbuild coder_new 100 PLAYER_ZERO) as (c1 & p1 & s1 & B1 & S1 & E1);
    [destruct (build_parts _ _ _ _ _) eqn:E; [by eexists|vm_compute in E; discriminate]|vm_compute; reflexivity|vm_compute; reflexivity|].
  destruct (Hbuild second_coder 101 demo_walks) as (c2 & p2 & s2 & B2 & S2 & E2);
    [destruct (build_parts _ _ _ _ _) eqn:E; [by eexists|vm_compute in E; discriminate]|vm_compute; reflexivity|vm_compute; reflexivity|].
  assert (V1 : game_valid (demo_game 100 PLAYER_ZERO)) by (apply valid_demo_game; [split; vm_compute; congruence|apply valid_player_zero]).
  assert (V2 : game_valid (demo_game 101 demo_walks)) by (apply valid_demo_game; [split; vm_compute; congruence|apply valid_demo_walks]).
  destruct (game_frame_is_read game_heap None coder_new (demo_game 100 PLAYER_ZERO) 0 [(2, 9)] frame_tail_default c1 p1 s1
    (builds_on_reset _) V1 Hacks valid_tail_default B1 game_heap_is S1) as (frame & client & D1 & R1 & A1 & _).
  destruct (game_frame_is_read game_heap (Some client) second_coder (demo_game 101 demo_walks) 0 [(2, 9)] frame_tail_default c2 p2 s2
    (builds_on_adopt valid_meta snapshot_meta_agrees _ _ _ A1) V2 Hacks valid_tail_default B2 game_heap_is S2) as (frame2 & client2 & D2 & R2 & A2 & _).
  subst s1 s2. exists (frame, map zlen (built_segments (demo_build coder_new 100 PLAYER_ZERO))), client,
    (frame2, map zlen (built_segments (demo_build second_coder 101 demo_walks))), client2.
  split; [exact D1|]. split; [exact R1|]. split; [exact D2|]. split; [exact R2|exact A2].
Defined.

(** ** A small host and its client *)

Definition game_of_client (_ : Z) : option GameSnapshot := None.
Definition demo_tail (_ : Z) : FrameTail := frame_tail_default.
Definition demo_address (_ : Z) : Z := 0.
Definition demo_first : GameSnapshot := demo_game 100 PLAYER_ZERO.
Definition demo_frame_for (client : Z) (coder : SnapshotEncoder) (held : option (Z * Z)) : SnapshotEncoder * GameSnapshot * FrameParts :=
  default (coder, demo_first, mkParts [] 0 [] []) (fanout_frame demo_first game_of_client demo_address demo_tail client coder held).

(** A world without panes can always be encoded. *)
Lemma paneless_encodes coder tick w : wo_glass_pieces w = [] -> is_Some (encode_world_objects coder tick w).
Proof.
  intros Hw. unfold encode_world_objects, sync_encode, encode_sync, encode_world_object_full, encode_world_object_delta, world_object_delta, pair_delta.
  rewrite Hw. destruct (_ || _); [|destruct (_ && _)]; by eexists.
Qed.

Lemma demo_sends_game : sends_game demo_first game_of_client demo_address demo_tail game_heap game_valid demo_frame_for.
Proof.
  split.
  - intros client coder held. unfold demo_frame_for. destruct (fanout_frame _ _ _ _ client coder held) as [out|] eqn:E; [done|exfalso].
    unfold fanout_frame, build_parts in E.
    destruct (paneless_encodes coder (sn_tick (peer_snapshot demo_first game_of_client client)) (mt_world_objects demo_meta) eq_refl) as [[c wire] Ew].
    change (meta_world_objects (sn_meta (peer_snapshot demo_first game_of_client client))) with (mt_world_objects demo_meta) in E. rewrite Ew in E. cbv beta iota delta [mbind option_bind] in E.
    destruct (snapshot_encode c _) as [c' delta]. unfold frame_parts_new in E.
    destruct (encode_tail (demo_tail client)) as [tail|] eqn:Et; [done|]. vm_compute in Et. discriminate Et.
  - intros client. apply valid_demo_game; [split; vm_compute; congruence|apply valid_player_zero].
  - intros client. apply valid_tail_default.
  - intros client. apply game_heap_is.
Qed.

Definition game_hub : @UdpAuthorityHub GameSnapshot SnapshotEncoder :=
  reconcile_relay_membership encoder_new (set_bootstrap (hub_relay seat_hello 1 mailbox_default) (Some seat_lane)) [seat_host; seat_one; seat_two] seat_host [1].
Definition game_fan : @Fan GameSnapshot SnapshotEncoder := mkFan game_hub cache_new None.
Definition game_turn : @Fan GameSnapshot SnapshotEncoder * Result UdpSendError () :=
  fanout_peer encoder_new encoder_reset (encoder_adopt (Meta := SnapshotMeta) meta_world_objects) budget_default 0 game_heap store as_is 100 demo_frame_for
    [] None game_fan 1.
Definition game_client : @UdpClientLink GameSnapshot :=
  cl_set_bootstrap (cl_set_ids (client_relay seat_hello mailbox_default) (Some 1) None) (Some (set_epoch lane_default 7)).
Definition game_link : @SnapLink GameSnapshot SnapshotEncoder GameSnapshot := mkSnapLink (peer_new encoder_new) game_client [] [] [] ∅.

#[local] Instance game_prefix : PrefixCodec store unstore := store_codec.
#[local] Instance game_bulk : BulkCodec as_is seat_unzip := seat_unzips.

(** The offer of the game, and the client's first tick. *)
Lemma game_reaches_client_witness :
  exists w r' snap game,
    apply_server_packet unstore seat_unzip decode_frame decode_snapshot_of (mkReceiving game_client [] []) (flying_packet w) = (r', Ok true) /\
    rv_ticks r' = [(snap, game)] /\ game_agrees demo_first snap.
Proof.
  assert (Hturn : game_turn = (game_turn.1, Ok ())) by (refine (pair_of_second game_turn (Ok ()) _); vm_compute; reflexivity).
  assert (Hpeer : hb_replication (fn_hub game_fan) !! 1 = Some (lk_peer game_link)) by (vm_compute; reflexivity).
  destruct (game_reaches_client (fun snapshot => sn_tick snapshot) game_heap store as_is unstore seat_unzip 1 7 game_link demo_first game_of_client demo_address
    demo_tail encoder_new budget_default 0 100 demo_frame_for [] None game_fan game_turn.1 (mkReceiving game_client [] []))
    as [[_ Hu]|(w & target & packet & r' & client & snap & game & _ & _ & H1 & H2 & _ & H3)].
  - exists game_link. split; [|apply rtc_refl]. split; [exists encoder_new; reflexivity|]. repeat split; reflexivity.
  - exact Hpeer.
  - done.
  - done.
  - intros n o patch Hin. destruct (not_elem_of_nil _ Hin).
  - done.
  - exact demo_sends_game.
  - exact Hturn.
  - done.
  - done.
  - done.
  - done.
  - exfalso. vm_compute in Hu. discriminate Hu.
  - exists w, r', snap, game. split; [exact H1|]. split; [exact H2|exact H3].
Defined.
